(* ===== verification/_CoqProject ===== *)
-Q . S2P
Prelude.v
GoLib.v
FleetModel.v
Groups.v
Filters.v
Resolve.v
Mutate.v
DeviceOps.v
Policies.v
Apps.v
Identity.v
Text.v
Tokens.v
HostKeys.v
WellFormed.v
ScopeEdits.v
Guards.v
Rollout.v
Classes.v
Verdicts.v
Document.v
ConfigTx.v
ConfigSafety.v
Radius.v
Engine.v
EngineProofs.v
Scrub.v
Changes.v
ChangeFlow.v
ChangeProofs.v
MergeProofs.v
ChangeCases.v
Sql.v
Stations.v
Imaging.v
Notify.v
Observed.v
ImageJobs.v
Ceremony.v
Credentials.v
Elevation.v
Forge.v
DeviceSecrets.v
Incident.v
Visibility.v
Catalog.v
SettingsGuard.v
EnrolmentRings.v
Api.v
ApiProofs.v
ApiRoles.v
DevicePlane.v
StationApi.v
PlaneProofs.v
StationProofs.v
RepoFiles.v
GitRepo.v
Compliance.v
Evidence.v
Overlays.v
People.v
Retention.v
EvalGate.v
GateRunner.v
RunnerJobs.v
BranchOps.v
RemoteGate.v
Bundles.v
WavePlans.v
ConsoleForms.v
Console.v
ConsoleProofs.v
Secretbox.v
MailService.v
Sessions.v
StateStore.v
Upstream.v
Directory.v
Leader.v
Config.v
