(* ===== verification/Prelude.v ===== *)
(** * Sextant: a verification development of the fleet control plane

    Sextant keeps the configuration of a fleet of NixOS devices in one document
    (fleet.json) in a git repository, rolls a revision out in waves, and keeps in
    a database what devices and imaging stations report.  This development models
    the Go code under src/internal and src/cmd that decides things: the document
    and its operations, what a device resolves from it, who may edit and read
    what, the transaction that writes it, the gate that evaluates it, the change
    flow and the engine that rolls it out, the services over the observed state,
    imaging, elevation and credentials, the HTTP API, the console's actions, the
    sign-in, and the adapters to git, nix, mail, LDAP and the state directory.

    ** The program's parts and the files that model them

    The configuration plane:

    - [FleetModel] (domain/fleet/model.go, vocab.go): the records of the document.
      A Go map is a [gmap], a [map[K]bool] used as a set a list or a [gset], a nil
      map or slice reads as empty except where the code asks for nil; a JSON value
      of a setting is the inductive [Value].
    - [Groups] (groups.go, redundant_groups.go): the group tree and its walks,
      with the cycle guard of the code; pruning of redundant memberships.
    - [Filters] (filter.go): rules over device attributes.
    - [Resolve] (chain.go, resolve.go): the scope chain of a device, its
      compiled contributors, the precedence rule, and the declarative rule
      [resolves] it refines.  [Apps] (apps.go) does the same for the app lists.
    - [Mutate], [DeviceOps], [Policies] (mutate.go, device.go, intent.go,
      station.go, secretref.go, policy.go, conflicts.go, hardware_config.go,
      profiles.go): every mutation of the document.  A mutation is a function
      [Fleet -> res FleetErr Fleet]; Go's closures mutate in place and return an
      error, and the transaction discards the document on an error, so a result
      is either the new document or the error.
    - [WellFormed], [ScopeEdits], [Guards]: the invariants over the whole command
      set ([Command], [run_command]) and the effect of a scope edit.
    - [Identity] (domain/identity/identity.go, fleet/access.go): roles, bindings
      and the role of a user at a scope, against a [Directory] interface.
      [Visibility] (fleet/visibility.go): what a delegated principal reads.
    - [Document] (migrate.go, Decode and Encode of model.go): versions and the
      migration chain.
    - [Classes], [Verdicts] (classes.go, app/verdicts.go): the shape of a device,
      the sample the gate evaluates, and the memo of proved shapes.
    - [ConfigTx] (app/config.go, config_devices.go, hosts.go): the transaction
      load, mutate, write, gate, commit, push, with its retries.  The git
      repository and the overlay's parsers are type classes ([ConfigRepo],
      [OverlayParsers]); [ConfigSafety] states the repository's laws
      ([RepoLaws]), proves the transaction against them and instantiates them
      with a concrete repository.  [Radius]: the devices an edit can change.
    - [Rollout] (domain/rollout/rollout.go): the decision of one wave.  [Engine]
      (app/rollout.go, autorollout.go): the service around it.  [EngineProofs]:
      its theorems, by cases on the steps ([engine_step]), and concrete runs.
      [EnrolmentRings] (app/enrolment_rings.go): the advance of rings for a new
      device.
    - [Changes] (domain/change/change.go): the statuses of a change request.
      [ChangeFlow] (app/change.go): the service with its records, branches,
      worktrees, gate, merge and reconciliation, over a scripted git ([Scrub],
      app/scrub.go, cleans the errors it shows).  [ChangeProofs], [MergeProofs],
      [ChangeCases]: its theorems and the runs behind them.  [Upstream]
      (app/upstream.go): the watcher that stages core updates through it.
    - [Catalog] (fleet/catalog.go), [SettingsGuard] (app/config_settings.go,
      settings_guard.go, settings_coherence.go): the vocabulary of settings and
      the guarded batch of a save.  [Bundles] (bundles.go, hardware.go): the
      indexes of bundles and hardware profiles.
    - [Overlays] (app/config_overlays.go): the transaction of an overlay file.
      [Compliance] (app/compliance.go, baseline.go, coreversion.go), [Evidence]
      (app/evidence.go): what the fleet runs against the plan, and its report.

    The database plane.  [Sql] models one statement of adapters/postgres: tables,
    and a script of outages that says which statement fails; a service is a
    program of statements in the monad [SE].  [Text] holds the string functions.

    - [Stations] (domain/discovery, app/discovery.go, postgres/discovered.go):
      MAC addresses and the devices a station has seen.
    - [Imaging] (domain/imaging, observed/posture.go), [ImageJobs]
      (app/imaging.go, postgres/image_jobs.go), [Ceremony]: the statuses of an
      imaging job, its table and service, and the provisioning ceremony.
    - [Observed] (domain/observed, app/inventory.go, postgres/postgres.go):
      check-ins, the status table with its merging upsert, the aggregates a
      rollout reads.  [Notify] (domain/notify, app/notify.go): notifications.
    - [Incident] (domain/incident): the compliance rules.
    - [Elevation] (domain/elevation, app/elevation.go, postgres/elevation.go):
      requests for privileges and their answers.
    - [Tokens], [Credentials] (domain/token, app/token.go, cred.go,
      device_cred.go, station_cred.go, postgres/tokens.go, the authorisation of
      http/api/checkin.go): secrets, their hash records and what each may do.
    - [Forge] (domain/forge, app/forge_identity.go, postgres/git_identity.go): the
      account the console pushes with, in the store and in git's netrc file.

    - [DeviceSecrets] (domain/secret, app/device_secrets.go, diagnostics.go):
      escrowed keys and diagnostics bundles.  [HostKeys] (fleet/hostkey.go).
    - [People] (postgres/notify.go, users.go, prefs.go): inbox, address book and
      preferences.  [Retention] (app/retention.go, erasure.go and their
      statements): the sweep, and the erasure of a person.
    - [Secretbox] (platform/secretbox): the seals of all of these, an instance of
      the class [Sealer].  [MailService] (domain/mail, app/mail.go,
      adapters/smtp): the mail configuration and the conversation with a relay.
    - [Leader] (postgres/leader.go, migrate.go): the election of the replica
      that works, and the migrations.

    The gate, outside the process and its console side:

    - [RepoFiles], [GitRepo], [BranchOps] (adapters/git): the confined files of
      the working tree over a file system with links, and the git commands.
    - [EvalGate] (adapters/nix): batches and concurrent evaluation of the hosts.
      [GateRunner], [RunnerJobs] (cmd/gate-runner): staging, validation, builds
      and the cache.  [RemoteGate] (adapters/gate): the console's side of it.

    The HTTP surface and the process:

    - [Api] (http/api): the gatekeeper and the mutating handlers over the services
      above, in one state.  [ApiProofs], [ApiRoles]: what they let through.
    - [DevicePlane], [StationApi] (http/api, cmd/sextant/capabilities.go): the
      endpoints of devices and stations.  [PlaneProofs], [StationProofs].
    - [WavePlans], [ConsoleForms], [Console] (http/web): the forms of the console
      and every POST as a program over the services, whose answers are left open.
      [ConsoleProofs]: a weakest precondition for these programs.
    - [Sessions] (adapters/oidc): sealed cookies, the login flow and groups.
      [Directory] (adapters/ldap, app/directory_cache.go): the group directory.
    - [StateStore] (adapters/state): records on a disk that may lose what was not
      synchronised.  [Config] (platform/config): what a process starts with.

    [Prelude] and [GoLib] hold results, the state-error monad [SE], record
    updates, sorting; strings, slices, 64-bit integers and time.

    A handler calls its parts as the code does: the engine and the change flow
    edit the document only through [ConfigTx], which runs a [Mutation] and the
    gate; the gate samples by [Classes]; [Classes] resolves by [Resolve]; the
    engine's convergence numbers are those of [Observed]; [Observed] and
    [Elevation] notify through [Notify]; a check-in advances [ImageJobs].

    ** What the theorems show

    - Resolution: the compiled chain implements the declarative precedence rule;
      a scope edit shows only below the scope and never through a lock above it.
    - Document: every command keeps the references of the document but in two
      situations, which the code does not refuse and which are exhibited; the class
      guardrail holds of every reachable document; what a viewer reads depends
      only on what he may see.
    - Writes: a failed transaction leaves git alone; a write is applied to the
      head it lands on and drops no other commit; a memoised gate is as sound as
      the gate; the blast radius covers every device an edit changes.
    - Changes: a change moves only along its status flow; a submit keeps its
      change between its two locked halves; a merge is refused untouched or lands
      the proved tree; a reconciliation records what git says.
    - Rollout: a decision is taken exactly in its situation; the stored run
      follows its state machine; a tick moves only the branches of the current
      wave; a held run freezes the fleet; a run completes once three ticks for every
      wave found what it waited for, whatever outages lie between them.
    - Database plane: under any interleaving and any outage the job table stays
      typed and a job moves only along legal transitions; a grant goes back to an
      approval; a machine is spoken for only by its own credential; secrets, netrc
      lines and station reports round-trip; the ring aggregate is the health rule.
    - The gate: the verdict of the batched, concurrent and remote evaluations is
      that of evaluating every sampled host; what a build is reported as is how a
      job of that revision and those hosts ended.
    - The surface: every route demands its role, on the API and in the console,
      whatever the services answer; nobody raises roles beyond his own; a device
      and a station touch their own rows; keys come to rest only sealed and come
      back after a rotation; a session goes back to a verified token of a login
      the server started.
    - Reports: an evidence export states what the log it read can tell, and a
      commit it misses is missing for one of the reasons named; an erasure takes
      exactly the person's rows and its preview counts them.
    - The process: repository operations stay inside the tree; a diff is cut
      between characters; a record that was written survives power failures; the
      watcher of the core only prepares; a started process is a safe one.
    - Where the code breaks a rule it states, a theorem exhibits the run.

    ** Fuel and bounds

    The walk up the group tree uses as fuel one more than the number of groups
    and stops at a repeated group as the code does; [walk_fuel_enough] shows more
    fuel changes nothing.  The retry loop of a write has the code's own bound
    ([maxPushRetries]); [nextChangeID]'s search needs one try more than there are
    changes; pages of Graph have the code's bound of 50.  Instants and durations are 64-bit nanosecond counts with
    wrap-around where the code multiplies ([soak]); counters of devices are
    unbounded integers, as no list reaches 2^63.  Maps are iterated in sorted
    order where the code sorts, and where it does not the result does not depend
    on the order.

    ** Parameters

    Code outside the repository, and text whose form no theorem depends on, is a
    parameter: JSON encoding ([GoJson], [FleetJson]), SHA-256 ([Fingerprint], the
    profile hash), argon2id ([IDKey]), AES-GCM, the programs git and nix, the
    identity provider, the LDAP library, the time zones, the clock and the stores
    (fields of the engine's [Env]).  Where a theorem relies on one, a class of
    laws states what it relies on, and a concrete instance shows it can hold.

    ** Interleaving

    A service that holds a mutex runs one operation at a time; other writers of
    the repository are part of the [ConfigRepo] interface.  The services over the
    database hold no mutex: where an operation reads and then writes, the model
    splits it ([report_read] and [cas_write], [decide_read] and the put), and the
    theorems quantify over the steps of a world with the writes in flight.  One
    statement is atomic; [overlapping_beats_notify_twice] shows what a snapshot
    read inside a statement adds.

    ** Not modelled

    The pages of the console, the reading handlers of the API and the one that
    stores the caller's own preferences, their templates and translations; the rate limiter over golang.org/x/time, headers, access
    log and metrics; health endpoints and the server's lifetime; the command line
    client, the fleet simulator and the wiring of the commands.  They read, render
    or forward, and decide nothing the files above do not.  Time-outs of processes
    and requests appear only where an answer tells them apart.  The device agent
    is Rust, the modules are Nix, vendored code is third-party. *)

From Stdlib Require Export ZArith Lia Ascii String.
From stdpp Require Export base gmap strings list fin_maps sorting pretty.

#[global] Open Scope stdpp_scope.
#[global] Open Scope Z_scope.

(** ** Results

    Go's [(T, error)] pairs, in the functions that return a value only when the
    error is nil: [Ok a] is the value, [Err e] the non-nil error. *)

Inductive res (E A : Type) : Type :=
  | Ok (a : A)
  | Err (e : E).
Arguments Ok {E A} a.
Arguments Err {E A} e.

Definition res_bind {E A B : Type} (m : res E A) (k : A → res E B) : res E B :=
  match m with Ok a => k a | Err e => Err e end.

Definition is_ok {E A : Type} (m : res E A) : bool :=
  match m with Ok _ => true | Err _ => false end.

Declare Scope go_scope.
Delimit Scope go_scope with go.
Notation "'let!' x ':=' m 'in' k" := (res_bind m (fun x => k))
  (at level 10, x name, m at level 200, k at level 200) : go_scope.
(** [if cond { return err }; k]: the early return of a guard. *)
Notation "'refuse' c 'with' e ';' k" := (if c then Err e else k)
  (at level 10, c at level 200, e at level 200, k at level 200) : go_scope.
#[global] Open Scope go_scope.

Lemma res_bind_Ok {E A B} (m : res E A) (k : A → res E B) b :
  res_bind m k = Ok b ↔ ∃ a, m = Ok a ∧ k a = Ok b.
Proof. destruct m; simpl; naive_solver. Qed.

Lemma res_bind_Err {E A B} (m : res E A) (k : A → res E B) e :
  res_bind m k = Err e ↔ m = Err e ∨ ∃ a, m = Ok a ∧ k a = Err e.
Proof. destruct m; simpl; naive_solver. Qed.

(** A loop over a slice whose body may return an error: the state is threaded,
    the first error ends the loop. *)
Fixpoint fold_res {E A S : Type} (f : S → A → res E S) (s : S) (l : list A) : res E S :=
  match l with
  | [] => Ok s
  | a :: l => res_bind (f s a) (fun s' => fold_res f s' l)
  end.

Lemma fold_res_inv {E A S} (f : S → A → res E S) (P : S → Prop) l s s' :
  (∀ s a s', a ∈ l → P s → f s a = Ok s' → P s') →
  P s → fold_res f s l = Ok s' → P s'.
Proof.
  revert s; induction l as [|a l IH]; intros s Hf Hs; simpl; [by intros [= <-]|].
  intros (s1 & H1 & H2)%res_bind_Ok.
  eapply IH; [|eapply Hf; [|exact Hs|exact H1]|exact H2].
  - intros; eapply Hf; [|done..]. by right.
  - left.
Qed.

(** A loop that only checks: [for _, x := range l { if err := f(x) ... }]. *)
Fixpoint first_err {E A : Type} (f : A → option E) (l : list A) : option E :=
  match l with
  | [] => None
  | a :: l => match f a with Some e => Some e | None => first_err f l end
  end.

Lemma first_err_None {E A} (f : A → option E) l :
  first_err f l = None ↔ ∀ a, a ∈ l → f a = None.
Proof.
  induction l as [|a l IH]; simpl.
  - split; [intros _ a Ha; by apply elem_of_nil in Ha|done].
  - destruct (f a) eqn:Ha.
    + split; [done|]. intros H. rewrite H in Ha; [done|left].
    + rewrite IH. split.
      * intros H b [->|Hb]%elem_of_cons; auto.
      * intros H b Hb. apply H. by right.
Qed.

Lemma first_err_Some {E A} (f : A → option E) l e :
  first_err f l = Some e → ∃ a, a ∈ l ∧ f a = Some e.
Proof.
  induction l as [|a l IH]; simpl; [done|].
  destruct (f a) eqn:Ha.
  - intros [= <-]. exists a. split; [left|done].
  - intros (b & Hb & H)%IH. exists b. split; [by right|done].
Qed.

(** [fmt.Errorf("...: %w", err)] of a result. *)
Definition lift_err {E E' A} (k : E → E') (r : res E A) : res E' A :=
  match r with Ok a => Ok a | Err e => Err (k e) end.

(** [if err := check(); err != nil { return err }]. *)
Notation "'assert_none' o ';' k" :=
  (match o with Some e => Err e | None => k end)
  (at level 10, o at level 200, k at level 200) : go_scope.

(** ** Stateful operations

    A Go method that changes the state behind its receiver and returns an error:
    the state is threaded, and it survives the error. *)
Definition SE (S E A : Type) : Type := S → res E A * S.

Definition se_ret {S E A} (a : A) : SE S E A := λ s, (Ok a, s).
Definition se_err {S E A} (e : E) : SE S E A := λ s, (Err e, s).
Definition se_lift {S E A} (m : res E A) : SE S E A := λ s, (m, s).
Definition se_get {S E A} (p : S → A) : SE S E A := λ s, (Ok (p s), s).
Definition se_modify {S E} (p : S → S) : SE S E unit := λ s, (Ok tt, p s).
Definition se_bind {S E A B} (m : SE S E A) (k : A → SE S E B) : SE S E B := λ s,
  match m s with
  | (Ok a, s') => k a s'
  | (Err e, s') => (Err e, s')
  end.

Notation "'do!' x '<-' m ';' k" := (se_bind m (fun x => k))
  (at level 10, x name, m at level 200, k at level 200) : go_scope.
Notation "'run!' m ';' k" := (se_bind m (fun _ => k))
  (at level 10, m at level 200, k at level 200) : go_scope.

(** A loop whose body is stateful. *)
Fixpoint se_each {S E A} (f : A → SE S E unit) (l : list A) : SE S E unit :=
  match l with
  | [] => se_ret tt
  | a :: l => se_bind (f a) (fun _ => se_each f l)
  end.

Lemma se_bind_inv {S E A B} (m : SE S E A) (k : A → SE S E B) s r s' :
  se_bind m k s = (r, s') →
  (∃ a s1, m s = (Ok a, s1) ∧ k a s1 = (r, s')) ∨ (∃ e, m s = (Err e, s') ∧ r = Err e).
Proof.
  unfold se_bind. destruct (m s) as [[a|e] s1]; [eauto|]. intros [= <- <-]. eauto.
Qed.

Lemma se_bind_Ok {S E A B} (m : SE S E A) (k : A → SE S E B) s a s1 :
  m s = (Ok a, s1) → se_bind m k s = k a s1.
Proof. unfold se_bind. by intros ->. Qed.

Lemma se_get_bind {S E A B} (p : S → A) (k : A → SE S E B) s : se_bind (se_get p) k s = k (p s) s.
Proof. reflexivity. Qed.

Lemma se_modify_bind {S E B} (p : S → S) (k : unit → SE S E B) s :
  se_bind (se_modify p) k s = k tt (p s).
Proof. reflexivity. Qed.

(** A relation between the states before and after, whatever the outcome.  A
    goal [respects R m] is taken apart along the code of [m] by [respect]. *)
Definition respects {S E A} (R : relation S) (m : SE S E A) : Prop :=
  ∀ s r s', m s = (r, s') → R s s'.

Section respects.
  Context {S E : Type} (R : relation S) `{!Reflexive R, !Transitive R}.

Lemma respects_ret {A} (a : A) : respects R (se_ret (E := E) a).
Proof. by intros s r s' [= _ <-]. Qed.
Lemma respects_err {A} (e : E) : respects R (se_err (A := A) e).
Proof. by intros s r s' [= _ <-]. Qed.
Lemma respects_lift {A} (m : res E A) : respects R (se_lift m).
Proof. by intros s r s' [= _ <-]. Qed.
Lemma respects_get {A} (p : S → A) : respects R (se_get (E := E) p).
Proof. by intros s r s' [= _ <-]. Qed.
Lemma respects_modify (p : S → S) : (∀ s, R s (p s)) → respects R (se_modify (E := E) p).
Proof. by intros Hp s r s' [= _ <-]. Qed.

Lemma respects_bind {A B} (m : SE S E A) (k : A → SE S E B) :
    respects R m → (∀ a, respects R (k a)) → respects R (se_bind m k).
Proof.
    intros Hm Hk s r s' [(a & s1 & H1 & H2)|(e & H1 & _)]%se_bind_inv; [|by eapply Hm].
    etrans; [by eapply Hm|by eapply Hk].
Qed.

Lemma respects_each {A} (f : A → SE S E unit) l :
    (∀ a, a ∈ l → respects R (f a)) → respects R (se_each f l).
Proof.
    induction l as [|a l IH]; intros Hf; simpl; [apply respects_ret|].
    apply respects_bind; [apply Hf; left|]. intros _. apply IH. intros b Hb. apply Hf. by right.
Qed.
End respects.

Create HintDb respects.
#[export] Hint Resolve respects_ret respects_err respects_lift respects_get : respects.

Ltac respect :=
  repeat first
    [ progress intros
    | solve [eauto with respects typeclass_instances]
    | apply respects_bind; [typeclasses eauto| |]
    | apply respects_each; [typeclasses eauto|typeclasses eauto|]
    | match goal with
      | |- respects _ (if ?b then _ else _) => destruct b eqn:?
      | |- respects _ (match ?x with _ => _ end) => destruct x eqn:?
      | |- respects _ (let '(_, _) := ?x in _) => destruct x
      end ].

(** ** Record update

    [r <| proj := v |>] is Go's [r.Field = v] on a copied struct.  A record type
    declares how it is rebuilt from its projections ([Eta]); the setter of one
    projection is found from that by abstracting it. *)

Class Eta (R : Type) := eta : R → R.

Class Setter {R T : Type} (proj : R → T) := set_field : (T → T) → R → R.

Ltac head_of t := lazymatch t with ?f _ => head_of f | _ => t end.

Ltac derive_setter :=
  lazymatch goal with
  | |- @Setter ?R ?T ?proj =>
      let e := constr:(@eta R _) in
      let e := lazymatch e with @eta _ ?i => let h := head_of i in eval cbv beta delta [h] in i end in
      let p := eval pattern proj in e in
      lazymatch p with
      | ?F _ => let t := eval cbv beta in (fun (f : T → T) (r : R) => F (fun r' => f (proj r')) r) in
                exact t
      end
  end.
#[global] Hint Extern 0 (Setter _) => derive_setter : typeclass_instances.

Notation "r <| proj := v |>" := (set_field (proj := proj) (fun _ => v) r)
  (at level 1, proj at level 0, v at level 200,
   format "r  <| proj  :=  v |>") : go_scope.
Notation "r <| proj ::= f |>" := (set_field (proj := proj) f r)
  (at level 1, proj at level 0, f at level 200,
   format "r  <| proj  ::=  f |>") : go_scope.

(** ** Sorting

    Go's insertion sort, as [incident.sortBySeverity] writes it: element [i] is
    swapped to the left while it is less than its left neighbour.  The sorted
    prefix is kept reversed, so its last element is the head.  The library sorts
    ([sort.Strings], [slices.SortFunc], [sort.Slice]) are this function: for a
    total order every sort agrees ([isort_unique]). *)
Section isort.
  Context {A : Type} (less : A → A → bool).

Fixpoint swap_down (x : A) (rprefix : list A) : list A :=
    match rprefix with
    | [] => [x]
    | e :: r => if less x e then e :: swap_down x r else x :: e :: r
    end.

Definition isort (l : list A) : list A :=
    reverse (foldl (fun acc x => swap_down x acc) [] l).

Lemma swap_down_perm x l : swap_down x l ≡ₚ x :: l.
Proof.
    induction l as [|e l IH]; simpl; [done|]. destruct (less x e); [|done].
    rewrite IH. apply Permutation_swap.
Qed.

Lemma isort_fold_perm l acc : foldl (fun acc x => swap_down x acc) acc l ≡ₚ l ++ acc.
Proof.
    revert acc; induction l as [|x l IH]; intros acc; simpl; [done|].
    rewrite IH, swap_down_perm. symmetry. apply Permutation_middle.
Qed.

Lemma isort_perm l : isort l ≡ₚ l.
Proof. unfold isort. by rewrite reverse_Permutation, isort_fold_perm, app_nil_r. Qed.

Lemma elem_of_isort x l : x ∈ isort l ↔ x ∈ l.
Proof. by rewrite isort_perm. Qed.

Lemma isort_nodup l : NoDup l → NoDup (isort l).
Proof. by rewrite isort_perm. Qed.

Lemma isort_nil l : isort l = [] ↔ l = [].
Proof.
    split; [|by intros ->]. intros H. apply Permutation_nil_r.
    rewrite <- H. symmetry. apply isort_perm.
Qed.
End isort.

(** A comparison function that Go's sorts accept: a strict weak order. *)
Class StrictWeak {A : Type} (less : A → A → bool) : Prop := {
  sw_asym : ∀ a b, less a b = true → less b a = false;
  sw_ntrans : ∀ a b c, less b a = false → less c b = false → less c a = false
}.

(** [in_order less a b]: [b] may stand after [a]. *)
Definition in_order {A : Type} (less : A → A → bool) (a b : A) : Prop := less b a = false.

Section isort_sorted.
  Context {A : Type} (less : A → A → bool) `{!StrictWeak less}.

Lemma swap_down_sorted x l :
    StronglySorted (flip (in_order less)) l →
    StronglySorted (flip (in_order less)) (swap_down less x l).
Proof.
    unfold in_order, flip. induction 1 as [|e l Hl IH He]; simpl.
    - repeat constructor.
    - destruct (less x e) eqn:Hxe.
      + constructor; [done|]. rewrite Forall_forall in *. intros y Hy.
        rewrite swap_down_perm in Hy. apply elem_of_cons in Hy as [->|Hy]; [|auto].
        by apply sw_asym.
      + constructor; [by constructor|]. constructor; [done|].
        eapply Forall_impl; [exact He|]. simpl. intros y Hy. by eapply sw_ntrans.
Qed.

Lemma isort_fold_sorted l acc :
    StronglySorted (flip (in_order less)) acc →
    StronglySorted (flip (in_order less)) (foldl (fun acc x => swap_down less x acc) acc l).
Proof.
    revert acc; induction l as [|x l IH]; intros acc Hacc; simpl; [done|].
    by apply IH, swap_down_sorted.
Qed.

Lemma StronglySorted_flip_reverse (R : relation A) l :
    StronglySorted (flip R) l → StronglySorted R (reverse l).
Proof.
    induction 1 as [|x l Hl IH Hx]; [constructor|].
    rewrite reverse_cons. apply StronglySorted_app_2; [|done|repeat constructor].
    intros y z Hy ->%list_elem_of_singleton. rewrite elem_of_reverse in Hy.
    by eapply (proj1 (Forall_forall _ _) Hx).
Qed.

Lemma isort_sorted l : StronglySorted (in_order less) (isort less l).
Proof. apply StronglySorted_flip_reverse, isort_fold_sorted. constructor. Qed.

Lemma isort_unique l l' :
    (∀ a b, a ∈ l → b ∈ l → less a b = false → less b a = false → a = b) →
    l ≡ₚ l' → isort less l = isort less l'.
Proof.
    intros Hanti Hp. apply (StronglySorted_unique_strong (in_order less)).
    - intros a b Ha Hb Hab Hba. rewrite isort_perm in Ha. rewrite isort_perm, <- Hp in Hb.
      by apply Hanti.
    - apply isort_sorted.
    - apply isort_sorted.
    - by rewrite !isort_perm.
Qed.

(** The first of the sorted list is a least element. *)
Lemma isort_head_least l x r :
    isort less l = x :: r → ∀ y, y ∈ l → less y x = false ∨ y = x.
Proof.
    intros Heq y Hy. rewrite <- (isort_perm less l), Heq in Hy.
    apply elem_of_cons in Hy as [->|Hy]; [by right|left].
    pose proof (isort_sorted l) as Hs. rewrite Heq in Hs.
    apply StronglySorted_cons in Hs as [Hf _]. by apply (proj1 (Forall_forall _ _) Hf).
Qed.
End isort_sorted.

(** *** [sort.Strings]: byte-wise lexicographic order *)

Lemma string_ltb_leb s t : String.ltb s t = negb (String.leb t s).
Proof.
  unfold String.ltb, String.leb. rewrite (String.compare_antisym t s).
  destruct (String.compare s t); done.
Qed.

#[export] Instance string_ltb_sw : StrictWeak String.ltb.
Proof.
  assert (Htr : ∀ a b c, String.leb a b = true → String.leb b c = true → String.leb a c = true).
  { intros a b c Hab Hbc. apply Is_true_eq_true.
    etrans; apply Is_true_eq_left; [exact Hab|exact Hbc]. }
  split.
  - intros a b. rewrite !string_ltb_leb.
    destruct (String.leb_total a b) as [H|H]; rewrite H; simpl; [done|].
    by destruct (String.leb a b).
  - intros a b c. rewrite !string_ltb_leb, !negb_false_iff. eauto.
Qed.

Lemma string_ltb_total a b : String.ltb a b = false → String.ltb b a = false → a = b.
Proof.
  rewrite !string_ltb_leb, !negb_false_iff. intros Hba Hab.
  by apply String.leb_antisym.
Qed.

Definition sort_strings : list string → list string := isort String.ltb.

Lemma sort_strings_perm l : sort_strings l ≡ₚ l.
Proof. apply isort_perm. Qed.

Lemma elem_of_sort_strings x l : x ∈ sort_strings l ↔ x ∈ l.
Proof. apply elem_of_isort. Qed.

Lemma sort_strings_sorted l : StronglySorted (in_order String.ltb) (sort_strings l).
Proof. apply isort_sorted, _. Qed.

(** The result of [sort.Strings] does not depend on the order of its input, so
    a slice filled from a map range is deterministic after it. *)
#[export] Instance sort_strings_proper : Proper ((≡ₚ) ==> eq) sort_strings.
Proof. intros l l' Hl. apply isort_unique; eauto using string_ltb_total, string_ltb_sw. Qed.

#[export] Hint Rewrite @elem_of_isort elem_of_sort_strings : sextant.
