(* ===== verification/GoLib.v ===== *)
(** * The Go library the code uses

    Strings as byte sequences with the functions of package strings, the slice
    helpers of package slices, 64-bit integers with their wrap-around, and
    package time's instants and durations. *)

From S2P Require Import Prelude.

(** ** Comparisons as booleans *)

Notation "a ==? b" := (bool_decide (a = b)) (at level 70) : go_scope.
Notation "a !=? b" := (negb (bool_decide (a = b))) (at level 70) : go_scope.
Notation "x ∈? l" := (bool_decide (x ∈ l)) (at level 70) : go_scope.

(** The conditions of the code's [if]s, as propositions. *)
Lemma eqb_true {A} `{EqDecision A} (a b : A) : (a ==? b) = true ↔ a = b.
Proof. by rewrite bool_decide_eq_true. Qed.

Lemma eqb_false {A} `{EqDecision A} (a b : A) : (a ==? b) = false ↔ a ≠ b.
Proof. by rewrite bool_decide_eq_false. Qed.

Lemma neqb_true {A} `{EqDecision A} (a b : A) : (a !=? b) = true ↔ a ≠ b.
Proof. by rewrite negb_true_iff, bool_decide_eq_false. Qed.

(** ** Package slices *)

(** [slices.DeleteFunc(l, p)]: the elements that do not satisfy [p]. *)
Definition delete_func {A} (p : A → bool) (l : list A) : list A := filter (λ a, p a = false) l.

(** [for _, a := range l { if p(a) { out = append(out, a) } }]. *)
Definition keep_if {A} (p : A → bool) (l : list A) : list A := filter (λ a, p a = true) l.

Lemma elem_of_delete_func {A} (p : A → bool) l a : a ∈ delete_func p l ↔ a ∈ l ∧ p a = false.
Proof. unfold delete_func. rewrite list_elem_of_filter. tauto. Qed.

Lemma keep_if_cons {A} (p : A → bool) a l :
  keep_if p (a :: l) = if p a then a :: keep_if p l else keep_if p l.
Proof.
  unfold keep_if. destruct (p a) eqn:Ha; [by rewrite filter_cons_True|].
  rewrite filter_cons_False; [done|]. by rewrite Ha.
Qed.

Lemma elem_of_keep_if {A} (p : A → bool) l a : a ∈ keep_if p l ↔ a ∈ l ∧ p a = true.
Proof. unfold keep_if. rewrite list_elem_of_filter. tauto. Qed.

Lemma delete_func_all {A} (p : A → bool) l : (∀ a, a ∈ l → p a = false) → delete_func p l = l.
Proof.
  unfold delete_func. induction l as [|a l IH]; intros H; [done|].
  rewrite filter_cons_True by (apply H; left). f_equal. apply IH. intros b Hb. apply H. by right.
Qed.

Lemma delete_func_ext {A} (p q : A → bool) l :
  (∀ a, a ∈ l → p a = q a) → delete_func p l = delete_func q l.
Proof.
  unfold delete_func. induction l as [|a l IH]; intros H; [done|]. rewrite !filter_cons.
  rewrite (H a) by left. rewrite IH; [done|]. intros b Hb. apply H. by right.
Qed.

Lemma delete_func_idemp {A} (p : A → bool) l : delete_func p (delete_func p l) = delete_func p l.
Proof. apply delete_func_all. intros a [_ Ha]%elem_of_delete_func. done. Qed.

Lemma delete_func_comm {A} (p q : A → bool) l :
  delete_func p (delete_func q l) = delete_func q (delete_func p l).
Proof.
  unfold delete_func. rewrite !list_filter_filter.
  induction l as [|a l IH]; [done|]. rewrite !filter_cons, IH.
  by destruct (p a), (q a).
Qed.

Lemma delete_func_length {A} (p : A → bool) l :
  length (delete_func p l) = length l ↔ ∀ a, a ∈ l → p a = false.
Proof.
  split.
  - induction l as [|a l IH]; intros H b Hb; [by apply elem_of_nil in Hb|].
    unfold delete_func in H. rewrite filter_cons in H. destruct (p a) eqn:Ha; simpl in H.
    + exfalso. pose proof (length_filter (λ a, p a = false) l). lia.
    + apply elem_of_cons in Hb as [->|Hb]; [done|]. apply IH; [|done]. unfold delete_func. lia.
  - intros H. by rewrite delete_func_all.
Qed.

#[export] Hint Rewrite @elem_of_delete_func @elem_of_keep_if : sextant.

(** [slices.CompactFunc]: of a run of equal neighbours the first stays. *)
Fixpoint compact_func {A} (eq : A → A → bool) (l : list A) : list A :=
  match l with
  | [] => []
  | a :: l' =>
      match compact_func eq l' with
      | [] => [a]
      | b :: r => if eq a b then a :: r else a :: b :: r
      end
  end.

(** The first index of a slice whose element satisfies [p]. *)
Fixpoint index_func {A} (p : A → bool) (l : list A) : option nat :=
  match l with
  | [] => None
  | a :: l => if p a then Some O else S <$> index_func p l
  end.

(** ** Package strings *)

Fixpoint cut_prefix (s p : string) {struct p} : option string :=
  match p with
  | EmptyString => Some s
  | String a p' =>
      match s with
      | String b s' => if Ascii.eqb a b then cut_prefix s' p' else None
      | EmptyString => None
      end
  end.

Definition has_prefix (s p : string) : bool :=
  match cut_prefix s p with Some _ => true | None => false end.

Definition trim_prefix (s p : string) : string := default s (cut_prefix s p).

Lemma cut_prefix_Some s p r : cut_prefix s p = Some r ↔ s = p +:+ r.
Proof.
  revert s; induction p as [|a p IH]; intros s.
  { change (Some s = Some r ↔ s = r). split; congruence. }
  change (String a p +:+ r) with (String a (p +:+ r)). simpl.
  destruct s as [|b s]; [done|]. destruct (Ascii.eqb_spec a b) as [->|Hne].
  - rewrite IH. split; [by intros ->|by intros [= ->]].
  - split; [done|]. intros [= ? ?]. done.
Qed.

Lemma cut_prefix_app p r : cut_prefix (p +:+ r) p = Some r.
Proof. by apply cut_prefix_Some. Qed.

Lemma has_prefix_spec s p : has_prefix s p = true ↔ ∃ r, s = p +:+ r.
Proof.
  unfold has_prefix. destruct (cut_prefix s p) as [r|] eqn:H.
  - apply cut_prefix_Some in H. naive_solver.
  - split; [done|]. intros [r Hr]. apply cut_prefix_Some in Hr. congruence.
Qed.

Lemma string_app_inj p r1 r2 : p +:+ r1 = p +:+ r2 → r1 = r2.
Proof. induction p as [|a p IH]; simpl; [done|]. intros [= ?]. auto. Qed.

Fixpoint string_forall (p : ascii → bool) (s : string) : bool :=
  match s with EmptyString => true | String a s => p a && string_forall p s end.

(** The character classes of the code's regular expressions. *)
Definition in_range (lo hi : ascii) (a : ascii) : bool :=
  (N.leb (N_of_ascii lo) (N_of_ascii a)) && (N.leb (N_of_ascii a) (N_of_ascii hi)).
Definition is_lower (a : ascii) : bool := in_range "a" "z" a.
Definition is_upper (a : ascii) : bool := in_range "A" "Z" a.
Definition is_digit (a : ascii) : bool := in_range "0" "9" a.

(** [strings.Join]. *)
Fixpoint join (l : list string) (sep : string) : string :=
  match l with
  | [] => EmptyString
  | [s] => s
  | s :: l => s +:+ sep +:+ join l sep
  end.

(** [strings.Contains]. *)
Fixpoint contains (s sub : string) : bool :=
  has_prefix s sub || match s with EmptyString => false | String _ s' => contains s' sub end.

(** [strings.ToLower] on ASCII letters; the bytes above 0x7f are left alone. *)
Definition lower_ascii (a : ascii) : ascii :=
  if is_upper a then ascii_of_N (N_of_ascii a + 32) else a.
Fixpoint to_lower (s : string) : string :=
  match s with EmptyString => EmptyString | String a s => String (lower_ascii a) (to_lower s) end.

(** [strings.EqualFold], under ASCII case folding. *)
Definition equal_fold (s t : string) : bool := to_lower s ==? to_lower t.

(** The UTF-8 encodings of the code points [unicode.IsSpace] accepts, which
    [strings.TrimSpace] strips at both ends. *)
Definition space_encodings : list (list N) := [
  [0x09]; [0x0a]; [0x0b]; [0x0c]; [0x0d]; [0x20];
  [0xc2; 0x85]; [0xc2; 0xa0]; [0xe1; 0x9a; 0x80];
  [0xe2; 0x80; 0x80]; [0xe2; 0x80; 0x81]; [0xe2; 0x80; 0x82]; [0xe2; 0x80; 0x83];
  [0xe2; 0x80; 0x84]; [0xe2; 0x80; 0x85]; [0xe2; 0x80; 0x86]; [0xe2; 0x80; 0x87];
  [0xe2; 0x80; 0x88]; [0xe2; 0x80; 0x89]; [0xe2; 0x80; 0x8a];
  [0xe2; 0x80; 0xa8]; [0xe2; 0x80; 0xa9]; [0xe2; 0x80; 0xaf]; [0xe2; 0x81; 0x9f];
  [0xe3; 0x80; 0x80]]%N.

Definition spaces : list (list ascii) := map (map ascii_of_N) space_encodings.

Fixpoint strip_list (p l : list ascii) : option (list ascii) :=
  match p, l with
  | [], _ => Some l
  | a :: p, b :: l => if Ascii.eqb a b then strip_list p l else None
  | _ :: _, [] => None
  end.

(** One leading space of the encodings [sp], if there is one. *)
Fixpoint strip_one (sp : list (list ascii)) (l : list ascii) : option (list ascii) :=
  match sp with
  | [] => None
  | p :: sp => match strip_list p l with Some r => Some r | None => strip_one sp l end
  end.

Fixpoint strip_all (fuel : nat) (sp : list (list ascii)) (l : list ascii) : list ascii :=
  match fuel with
  | O => l
  | S fuel => match strip_one sp l with Some r => strip_all fuel sp r | None => l end
  end.

Definition trim_left (sp : list (list ascii)) (l : list ascii) : list ascii :=
  strip_all (S (length l)) sp l.

Definition trim_space (s : string) : string :=
  let l := trim_left spaces (list_ascii_of_string s) in
  string_of_list_ascii (reverse (trim_left (map reverse spaces) (reverse l))).

(** ** 64-bit integers *)

Definition max_int64 : Z := 9223372036854775807.
Definition min_int64 : Z := -9223372036854775808.

(** Two's-complement wrap-around of an int64 operation. *)
Definition wrap64 (z : Z) : Z := (z + 9223372036854775808) mod 18446744073709551616 - 9223372036854775808.

Lemma wrap64_id z : min_int64 ≤ z ≤ max_int64 → wrap64 z = z.
Proof. unfold min_int64, max_int64, wrap64. intros H. rewrite Z.mod_small; lia. Qed.

Lemma wrap64_range z : min_int64 ≤ wrap64 z ≤ max_int64.
Proof.
  unfold min_int64, max_int64, wrap64.
  pose proof (Z.mod_pos_bound (z + 9223372036854775808) 18446744073709551616). lia.
Qed.

(** ** Package time

    An instant is a number of nanoseconds since the zero [time.Time], a
    [time.Duration] an int64 of nanoseconds. *)

Definition Second : Z := 1000000000.
Definition Minute : Z := 60 * Second.
Definition Hour : Z := 60 * Minute.

(** [time.Duration(n) * unit]: the product wraps. *)
Definition dur (n unit_ : Z) : Z := wrap64 (n * unit_).

(** [t.Sub(u)] saturates. *)
Definition time_sub (t u : Z) : Z := Z.max min_int64 (Z.min max_int64 (t - u)).

(** [time.Unix(sec, 0)], the zero instant being January 1 of year 1, and the
    seconds [t.Unix()] since 1970. *)
Definition unix_epoch : Z := 62135596800 * Second.
Definition time_unix (sec : Z) : Z := unix_epoch + sec * Second.
Definition Unix (t : Z) : Z := (t - unix_epoch) / Second.

Lemma Unix_time_unix sec : Unix (time_unix sec) = sec.
Proof. unfold Unix, time_unix, Second. rewrite Z.add_simpl_l, Z.div_mul; lia. Qed.

(** Go's [/] truncates towards zero. *)
Notation "a /t b" := (Z.quot a b) (at level 40) : go_scope.
