(* ===== verification/FleetModel.v ===== *)
(** * The fleet document (src/internal/domain/fleet/model.go)

    The records of fleet.json, the vocabularies of vocab.go and filter.go, and
    the pure functions model.go defines on them.  A Go map is a [gmap], and a
    nil map, slice or pointed-to scope reads as an empty one except where the
    code asks; [f.Devices[tag]] of a missing key is the zero record. *)

From Stdlib Require Import SpecFloat.
From S2P Require Import Prelude GoLib.

(** ** Setting values

    The Go [any] of a setting: [VFloat] is the [float64] of a decoded JSON number,
    [VInt] the [int] that the parser of a form or of the API makes. *)

Inductive Value :=
  | VNull
  | VBool (b : bool)
  | VInt (z : Z)
  | VFloat (x : spec_float)
  | VString (s : string)
  | VList (l : list Value)
  | VObject (l : list (string * Value)).

Notation Settings := (gmap string Value).

(** ** Records *)

Record Station := { st_Description : string; st_Site : string }.
Record SecretRef := { sr_Description : string }.

Record Assurance := {
  RequireFourEyes : bool;
  RequireChangeRequest : bool;
  RequireTestWave : bool;
  ManualRolloutOnly : bool
}.

Record Scope := mkScope {
  sc_Settings : Settings;
  sc_Enforced : list string;
  sc_Packages : list string;
  sc_Flatpaks : list string;
  sc_Overlays : list string;
  sc_Accepted : gmap string string
}.
#[export] Instance Scope_eta : Eta Scope := fun r => mkScope
  (sc_Settings r) (sc_Enforced r) (sc_Packages r) (sc_Flatpaks r) (sc_Overlays r)
  (sc_Accepted r).
Definition zero_scope : Scope := mkScope ∅ [] [] [] [] ∅.

(** The fields a group and a device share with the organisation's scope are the
    embedded [Scope] record: both Go structs repeat them one by one. *)
Record Group := mkGroup {
  Parent : string;
  IdpGroup : string;
  g_Pin : string;
  AllowedClasses : list string;
  g_scope : Scope
}.
#[export] Instance Group_eta : Eta Group := fun r => mkGroup
  (Parent r) (IdpGroup r) (g_Pin r) (AllowedClasses r) (g_scope r).
Definition zero_group : Group := mkGroup "" "" "" [] zero_scope.

Definition DeviceActive : string := "".
Definition DeviceRetired : string := "retired".
Definition DeviceProvisional : string := "provisional".

Definition IntentNone : string := "".
Definition IntentLock : string := "lock".
Definition IntentWipe : string := "wipe".
Definition IntentDiagnostics : string := "diagnostics".
Definition IntentReboot : string := "reboot".

Record ITAM := {
  Serial : string; Model : string; Owner : string; Site : string;
  Lifecycle : string; HostKeyID : string
}.
Definition zero_itam : ITAM := Build_ITAM "" "" "" "" "" "".

(** The fingerprint an imaging station captured (hardware.go). *)
Record HardwareSpec := {
  hs_Vendor : string; hs_Model : string; hs_Serial : string; hs_CPU : string;
  hs_Cores : Z; hs_MemGB : Z; hs_DiskGB : Z; hs_Firmware : string
}.

(** A [time.Time] is its distance from the zero instant in nanoseconds. *)
Notation Time := Z.
Definition IsZero (t : Time) : bool := t ==? 0.

Record Device := mkDevice {
  State : string;
  Enrolled : Time;
  Intent : string;
  d_Pin : string;
  Groups : list string;
  AssignedUser : string;
  Class : string;
  Hardware : string;
  Labels : gmap string string;
  d_scope : Scope;
  Exceptions : gmap string string;
  d_ITAM : ITAM;
  Spec : option HardwareSpec
}.
#[export] Instance Device_eta : Eta Device := fun r => mkDevice
  (State r) (Enrolled r) (Intent r) (d_Pin r) (Groups r) (AssignedUser r) (Class r)
  (Hardware r) (Labels r) (d_scope r) (Exceptions r) (d_ITAM r)
  (Spec r).
Definition zero_device : Device :=
  mkDevice "" 0 "" "" [] "" "" "" ∅ zero_scope ∅ zero_itam None.

Record Condition := {
  Metric : string; c_Op : string; c_Value : spec_float; Detail : string
}.

Record Policy := mkPolicy {
  p_Name : string;
  p_Description : string;
  p_Settings : Settings;
  p_Enforced : list string;
  p_Profile : string;
  p_Controls : list string;
  Conditions : list Condition
}.
#[export] Instance Policy_eta : Eta Policy := fun r => mkPolicy
  (p_Name r) (p_Description r) (p_Settings r) (p_Enforced r) (p_Profile r)
  (p_Controls r) (Conditions r).

Record Assignment := {
  a_Policy : string; Target : string; a_Filter : string; Priority : Z
}.

Record FilterRule := {
  Attr : string; r_Op : string; r_Value : string; Values : list string
}.

Record Filter := { fl_Name : string; Match : string; Rules : list FilterRule }.

Record RolloutRing := mkRing {
  rr_Group : string;
  rr_Groups : list string;
  rr_Name : string;
  rr_SoakMinutes : Z;
  rr_MinHealthyPercent : Z;
  rr_RequireApproval : bool;
  rr_MinDevices : Z;
  rr_MaxDevices : Z
}.

Record RolloutPolicy := {
  Rings : list RolloutRing; ApproveRole : string; AutoFlow : option bool
}.

Record AccessBinding := { b_Group : string; b_Role : string; b_Scope : string }.

Record Fleet := mkFleet {
  Version : Z;
  Org : option Scope;
  f_Groups : gmap string Group;
  Devices : gmap string Device;
  Stations : gmap string Station;
  SecretRefs : gmap string SecretRef;
  Policies : gmap string Policy;
  Assignments : list Assignment;
  Filters : gmap string Filter;
  Access : list AccessBinding;
  Rollout : option RolloutPolicy;
  f_Assurance : option Assurance
}.
#[export] Instance Fleet_eta : Eta Fleet := fun r => mkFleet
  (Version r) (Org r) (f_Groups r) (Devices r) (Stations r) (SecretRefs r) (Policies r)
  (Assignments r) (Filters r) (Access r) (Rollout r) (f_Assurance r).
Definition zero_fleet : Fleet := mkFleet 3 None ∅ ∅ ∅ ∅ ∅ [] ∅ [] None None.

#[export] Instance Assignment_eq_dec : EqDecision Assignment.
Proof. solve_decision. Defined.
#[export] Instance AccessBinding_eq_dec : EqDecision AccessBinding.
Proof. solve_decision. Defined.
#[export] Instance FilterRule_eq_dec : EqDecision FilterRule.
Proof. solve_decision. Defined.
#[export] Instance Filter_eq_dec : EqDecision Filter.
Proof. solve_decision. Defined.
#[export] Instance RolloutRing_eq_dec : EqDecision RolloutRing.
Proof. solve_decision. Defined.

(** [f.Devices[tag]] and [f.Groups[name]] of the code: a missing key reads as
    the zero value. *)
Definition dev (f : Fleet) (tag : string) : Device := default zero_device (Devices f !! tag).
Definition grp (f : Fleet) (name : string) : Group := default zero_group (f_Groups f !! name).
Definition org_scope (f : Fleet) : Scope := default zero_scope (Org f).

(** ** Scope references

    Every [switch] of the package on a scope reference tests "org" first, then
    the prefix "group:", then "device:". *)

Inductive ScopeRef :=
  | ROrg
  | RGroup (name : string)
  | RDevice (tag : string)
  | RBad.

Definition scope_of (ref : string) : ScopeRef :=
  if ref ==? "org" then ROrg
  else match cut_prefix ref "group:" with
       | Some name => RGroup name
       | None => match cut_prefix ref "device:" with
                 | Some tag => RDevice tag
                 | None => RBad
                 end
       end.

Definition group_ref (name : string) : string := "group:" +:+ name.
Definition device_ref (tag : string) : string := "device:" +:+ tag.

Lemma scope_of_group name : scope_of (group_ref name) = RGroup name.
Proof.
  unfold scope_of, group_ref. rewrite cut_prefix_app.
  by rewrite bool_decide_eq_false_2 by done.
Qed.

Lemma scope_of_device tag : scope_of (device_ref tag) = RDevice tag.
Proof.
  unfold scope_of, device_ref. rewrite bool_decide_eq_false_2 by done.
  rewrite cut_prefix_app. done.
Qed.

Lemma scope_of_spec ref :
  match scope_of ref with
  | ROrg => ref = "org"
  | RGroup name => ref = group_ref name
  | RDevice tag => ref = device_ref tag
  | RBad => ref ≠ "org" ∧ has_prefix ref "group:" = false ∧ has_prefix ref "device:" = false
  end.
Proof.
  unfold scope_of, has_prefix. case_bool_decide; [done|].
  destruct (cut_prefix ref "group:") eqn:Hg; [by apply cut_prefix_Some in Hg|].
  destruct (cut_prefix ref "device:") eqn:Hd; [by apply cut_prefix_Some in Hd|done].
Qed.

Lemma cut_group_ref name : cut_prefix (group_ref name) "group:" = Some name.
Proof. apply cut_prefix_app. Qed.

Lemma group_ref_inj a b : group_ref a = group_ref b → a = b.
Proof. apply string_app_inj. Qed.

Lemma device_ref_inj a b : device_ref a = device_ref b → a = b.
Proof. apply string_app_inj. Qed.

(** ** Vocabularies *)

Definition Classes : list string := ["laptop"; "desktop"; "server"; "station"].
Definition ValidClass (s : string) : bool := s ∈? Classes.

Definition ConditionMetrics : gset string :=
  {["cpu.used_percent"; "disk.free_gb"; "disk.free_percent"; "disk.total_gb";
    "memory.free_percent"; "memory.total_mb"]}.

Definition ConditionMetricNames : list string := sort_strings (elements ConditionMetrics).

Definition condition_ops : list string := [">="; "<="; ">"; "<"; "=="].

Inductive ConditionErr := NoMetric | UnknownMetric (m : string) | UnknownOp (m op : string).

(** [Condition.Valid]: nil is [None]. *)
Definition Valid (c : Condition) : option ConditionErr :=
  if Metric c ==? "" then Some NoMetric
  else if negb (Metric c ∈? ConditionMetrics) then Some (UnknownMetric (Metric c))
  else if c_Op c ∈? condition_ops then None
  else Some (UnknownOp (Metric c) (c_Op c)).

(** [Condition.Holds]: the pair (holds, ok). *)
Definition Holds (c : Condition) (metrics : gmap string spec_float) : bool * bool :=
  match metrics !! Metric c with
  | None => (false, false)
  | Some v =>
      if c_Op c ==? ">=" then (SFleb (c_Value c) v, true)
      else if c_Op c ==? "<=" then (SFleb v (c_Value c), true)
      else if c_Op c ==? ">" then (SFltb (c_Value c) v, true)
      else if c_Op c ==? "<" then (SFltb v (c_Value c), true)
      else if c_Op c ==? "==" then (SFeqb v (c_Value c), true)
      else (false, false)
  end.

(** ** The rollout plan *)

Definition HasTestGate (p : option RolloutPolicy) : bool :=
  match p with None => false | Some p => existsb rr_RequireApproval (Rings p) end.

Definition AutoFlowEnabled (p : option RolloutPolicy) : bool :=
  match p with None => false | Some p => default true (AutoFlow p) end.

Definition GroupList (r : RolloutRing) : list string :=
  match rr_Groups r with
  | _ :: _ => rr_Groups r
  | [] => if rr_Group r !=? "" then [rr_Group r] else []
  end.

Definition RingLabel (r : RolloutRing) : string :=
  if rr_Name r !=? "" then rr_Name r else join (GroupList r) ", ".

(** ** Devices *)

Definition Retired (d : Device) : bool := State d ==? DeviceRetired.
Definition Provisional (d : Device) : bool := State d ==? DeviceProvisional.

(** ** Identifiers: the expression ^[a-z0-9][a-z0-9-]{0,62}$ *)

Definition slug_first (a : ascii) : bool := is_lower a || is_digit a.
Definition slug_rest (a : ascii) : bool := slug_first a || Ascii.eqb a "-".

Definition ValidateSlug (s : string) : bool :=
  match s with
  | EmptyString => false
  | String a r => slug_first a && string_forall slug_rest r && (String.length r <=? 62)%nat
  end.

(** ** Errors

    One constructor per [fmt.Errorf] of the package's mutations; a message's
    arguments are the constructor's. *)

Inductive FilterErr :=
  | BadMatch (m : string)
  | NoRules
  | UnknownAttr (rule : nat) (attr : string)
  | OpNeedsValue (rule : nat) (op : string)
  | InNeedsValues (rule : nat)
  | InEmptyValue (rule : nat)
  | UnknownFilterOp (rule : nat) (op : string).

(** Why a reported host key is refused (hostkey.go). *)
Inductive HostKeyErr :=
  | EmptyKey | KeyTooLong (bytes : Z) | ControlCharacter | NotKeyForm
  | UnsupportedAlgorithm (algo : string) | KeyNotBase64 | AlgorithmMismatch (algo : string).

Inductive FleetErr :=
  (* scopes *)
  | UnknownGroup (name : string) | UnknownDevice (tag : string) | BadScope (ref : string)
  | CannotEnforce (key ref : string) | NeedsJustification (key : string)
  (* the rollout plan *)
  | PlanNeedsRing | RingNoGroup (i : nat) | RingUnknownGroup (i : nat) (g : string)
  | RingGroupTwice (i : nat) (g : string) | RingNegativeSoak (i : nat) | RingHealthRange (i : nat)
  (* groups *)
  | UnknownParent (name : string) | ParentCycle (parent group : string)
  | UnknownClass (class : string) | CannotRestrict (group tag class : string)
  | ClassNotAllowed (class group : string) | AncestorDuplicate (anc g : string)
  | InvalidGroupName (name : string) | GroupExists (name : string)
  | HasSubgroups (name : string) (kids : list string)
  | HasDevices (name : string) (tags : list string)
  | StillTargeted (name policy : string) | StillBound (name idp : string)
  | StillFiltered (name filter : string) | StillRing (name : string)
  (* devices *)
  | InvalidTag (tag : string) | DeviceExists (tag : string) | NeedsHardware
  | WrongState (tag state from : string) | IsRetired (tag : string)
  | WipeNeedsLock | UnknownIntent (intent : string)
  (* access *)
  | BindingNeedsGroup | UnknownRole (role : string) | BadBindingScope (scope : string)
  | UnknownGroupInScope (scope : string) | NoBinding (group scope : string)
  (* policies, assignments, filters *)
  | PolicySlug (id : string) | PolicySaysNothing (id : string)
  | PolicyCondition (id : string) (i : nat) (e : ConditionErr)
  | PolicyEnforcesUnset (id key : string) | UnknownPolicy (id : string)
  | PolicyAssigned (id target : string) | UnknownFilter (id : string)
  | AlreadyAssigned (policy target : string) | NoAssignment (policy target : string)
  | FilterSlug (id : string) | InvalidFilter (id : string) (e : FilterErr)
  | FilterUnknownGroup (id g : string) | FilterUsed (id policy : string)
  | BadTarget (ref : string) | UnknownGroupInTarget (ref : string)
  | UnknownDeviceInTarget (ref : string)
  (* profiles, hardware configuration, apps *)
  | NotFromProfile (id : string) | NotClassFilter (filter class : string)
  | HwNeedsName | HwNotSlug (profile : string) | NotHardwareFilter (filter profile : string)
  | FromOverlayProfile (id profile : string) | HwBadTarget (target : string)
  | UnknownAppKind (kind : string) | InvalidAppName (kind name : string)
  (* registries *)
  | InvalidStationTag (tag : string) | StationExists (tag : string) | UnknownStation (tag : string)
  | InvalidSecretName (name : string) | SecretExists (name : string) | UnknownSecret (name : string)
  (* host keys *)
  | BadHostKey (e : HostKeyErr) | HostKeyOnFile (tag current new : string).

(** A mutation returns the edited document or an error.  The code edits the
    document in place and the write transaction discards it on an error
    (ConfigTx), so the partial edit of a failed mutation is not a value here. *)
Definition Mutation := Fleet → res FleetErr Fleet.
