(* ===== verification/Groups.v ===== *)
(** * The group tree (src/internal/domain/fleet/groups.go, redundant_groups.go)

    Ancestry with its cycle guard, children and members, the class guardrail,
    the populations a rollout counts, and the redundancy of a device's group
    list with respect to the tree. *)

From S2P Require Import Prelude GoLib FleetModel.

(** ** Operations *)

(** The loop of [GroupAncestry]: [seen] is the cycle guard, [chain] the result
    built root first.  The fuel bounds the iterations; [walk_spec] shows that
    one more than the number of groups is enough. *)
Fixpoint ancestry_walk (fuel : nat) (gs : gmap string Group) (cur : string)
    (seen : gset string) (chain : list string) : list string :=
  match fuel with
  | O => chain
  | S fuel =>
      if cur ==? "" then chain
      else if cur ∈? seen then chain
      else match gs !! cur with
           | None => chain
           | Some g => ancestry_walk fuel gs (Parent g) ({[cur]} ∪ seen) (cur :: chain)
           end
  end.

Definition ancestry (gs : gmap string Group) (g : string) : list string :=
  ancestry_walk (S (size gs)) gs g ∅ [].

Definition GroupAncestry (f : Fleet) (g : string) : list string := ancestry (f_Groups f) g.

(** The keys of a map, sorted: [for k := range m { ks = append(ks, k) };
    sort.Strings(ks)]. *)
Definition sorted_keys {A} (m : gmap string A) : list string :=
  sort_strings (map_to_list m).*1.

(** The keys whose entry satisfies [p], sorted. *)
Definition keys_where {A} (p : string → A → bool) (m : gmap string A) : list string :=
  sort_strings (keep_if (λ kv, p kv.1 kv.2) (map_to_list m)).*1.

Definition effective_parent (f : Fleet) (g : Group) : string :=
  if (Parent g !=? "") && (f_Groups f !! Parent g ==? None) then "" else Parent g.

Definition GroupChildren (f : Fleet) (parent : string) : list string :=
  keys_where (λ _ g, effective_parent f g ==? parent) (f_Groups f).

Definition GroupDevices (f : Fleet) (group : string) : list string :=
  keys_where (λ _ d, group ∈? Groups d) (Devices f).

Definition classAllowedBy (g : Group) (class : string) : bool :=
  match AllowedClasses g with [] => true | l => class ∈? l end.

Definition checkClassAllowed (f : Fleet) (class : string) (groups : list string) : option FleetErr :=
  first_err (λ name,
    match f_Groups f !! name with
    | None => None
    | Some g => if classAllowedBy g class then None else Some (ClassNotAllowed class name)
    end) groups.

Definition ActiveGroupDevices (f : Fleet) (group : string) : list string :=
  delete_func (λ tag, Retired (dev f tag)) (GroupDevices f group).

Definition ConvergingGroupDevices (f : Fleet) (group : string) : list string :=
  delete_func (λ tag, Provisional (dev f tag)) (ActiveGroupDevices f group).

Definition rolloutRing (f : Fleet) (group : string) : option RolloutRing :=
  match Rollout f with
  | None => None
  | Some p => List.find (λ r, rr_Group r ==? group) (Rings p)
  end.

Definition ReleasedGroupDevices (f : Fleet) (group : string) : list string :=
  let active := ConvergingGroupDevices f group in
  match rolloutRing f group with
  | None => active
  | Some ring =>
      if rr_MaxDevices ring <=? 0 then active
      else keep_if (λ tag, d_Pin (dev f tag) ==? group) active
  end.

Definition DeviceTags (f : Fleet) : list string := sorted_keys (Devices f).

Definition TargetDevices (f : Fleet) (target : string) : list string :=
  match scope_of target with
  | ROrg => delete_func (λ tag, Retired (dev f tag)) (DeviceTags f)
  | RGroup g => ActiveGroupDevices f g
  | RDevice tag =>
      match Devices f !! tag with
      | Some d => if negb (Retired d) then [tag] else []
      | None => []
      end
  | RBad => []
  end.

(** The first non-empty acceptance of a list of scopes, with the scope's name. *)
Fixpoint first_acceptance (l : list (string * gmap string string)) (key : string)
    : option (string * string) :=
  match l with
  | [] => None
  | (ref, acc) :: l =>
      let r := default "" (acc !! key) in
      if r !=? "" then Some (r, ref) else first_acceptance l key
  end.

(** The scopes [AcceptanceFor] searches, in its order: the device, the ancestry
    of its last group leaf first, ..., of its first group, the organisation. *)
Definition acceptance_scopes (f : Fleet) (tag : string) : list (string * gmap string string) :=
  match Devices f !! tag with
  | None => []
  | Some d =>
      ("device", sc_Accepted (d_scope d)) ::
      (g ← reverse (Groups d);
       (λ anc, (group_ref anc, sc_Accepted (g_scope (grp f anc)))) <$> reverse (GroupAncestry f g))
  end ++
  match Org f with None => [] | Some o => [("org", sc_Accepted o)] end.

Definition AcceptanceFor (f : Fleet) (tag key : string) : option (string * string) :=
  first_acceptance (acceptance_scopes f tag) key.

Definition AcceptancesAt (f : Fleet) (ref : string) : res FleetErr (gmap string string) :=
  match scope_of ref with
  | ROrg => Ok (sc_Accepted (org_scope f))
  | RGroup name =>
      match f_Groups f !! name with
      | None => Err (UnknownGroup name) | Some g => Ok (sc_Accepted (g_scope g)) end
  | RDevice tag =>
      match Devices f !! tag with
      | None => Err (UnknownDevice tag) | Some d => Ok (sc_Accepted (d_scope d)) end
  | RBad => Err (BadScope ref)
  end.

(** The groups reachable as a strict ancestor of a list's entries. *)
Definition reachable (f : Fleet) (groups : list string) : list string :=
  g ← groups; keep_if (λ anc, anc !=? g) (GroupAncestry f g).

Definition RedundantGroups (f : Fleet) (tag : string) : list string :=
  match Devices f !! tag with
  | None => []
  | Some d =>
      if (length (Groups d) <? 2)%nat then []
      else keep_if (λ g, g ∈? reachable f (Groups d)) (Groups d)
  end.

(** One iteration of [PruneRedundantGroups]'s loop. *)
Definition prune_device (f : Fleet) (tag : string) : Fleet :=
  let d := dev f tag in
  let drop := RedundantGroups f tag in
  match drop with
  | [] => f
  | _ => f <| Devices ::= <[tag := d <| Groups := delete_func (λ g, g ∈? drop) (Groups d) |>]> |>
  end.

Definition PruneRedundantGroups : Mutation := λ f,
  Ok (foldl prune_device f (map_to_list (Devices f)).*1).

Definition rejectAncestorDuplication (f : Fleet) (groups : list string) : option FleetErr :=
  first_err (λ g,
    first_err (λ anc,
      if anc ==? g then None
      else if anc ∈? groups then Some (AncestorDuplicate anc g) else None)
    (GroupAncestry f g)) groups.

(** ** The keys of a map *)

Lemma elem_of_keys_where {A} (p : string → A → bool) (m : gmap string A) k :
  k ∈ keys_where p m ↔ ∃ a, m !! k = Some a ∧ p k a = true.
Proof.
  unfold keys_where. rewrite elem_of_sort_strings, list_elem_of_fmap. split.
  - intros ([k' a] & -> & [Hin Hp]%elem_of_keep_if). apply elem_of_map_to_list in Hin. eauto.
  - intros (a & Hm & Hp). exists (k, a). split; [done|].
    apply elem_of_keep_if. by rewrite elem_of_map_to_list.
Qed.

Lemma NoDup_keys_where {A} (p : string → A → bool) (m : gmap string A) : NoDup (keys_where p m).
Proof.
  unfold keys_where. rewrite sort_strings_perm. unfold keep_if.
  apply NoDup_fmap_fst; [|by apply NoDup_filter, NoDup_map_to_list].
  intros k a b [_ Ha%elem_of_map_to_list]%list_elem_of_filter
                [_ Hb%elem_of_map_to_list]%list_elem_of_filter. congruence.
Qed.

Lemma elem_of_sorted_keys {A} (m : gmap string A) k : k ∈ sorted_keys m ↔ is_Some (m !! k).
Proof.
  unfold sorted_keys. rewrite elem_of_sort_strings, list_elem_of_fmap. split.
  - intros ([k' a] & -> & Hin%elem_of_map_to_list). by exists a.
  - intros [a Ha]. exists (k, a). by rewrite elem_of_map_to_list.
Qed.

Lemma NoDup_sorted_keys {A} (m : gmap string A) : NoDup (sorted_keys m).
Proof. unfold sorted_keys. rewrite sort_strings_perm. apply NoDup_fst_map_to_list. Qed.

(** ** The ancestry walk *)

(** [link gs c p]: [p] is [c]'s parent, and both exist. *)
Definition link (gs : gmap string Group) (c p : string) : Prop :=
  c ≠ "" ∧ p ≠ "" ∧ is_Some (gs !! p) ∧ ∃ g, gs !! c = Some g ∧ Parent g = p.

(** Where the walk stops. *)
Definition walk_stop (gs : gmap string Group) (cur : string) (chain : list string) : Prop :=
  cur = "" ∨ cur ∈ chain ∨ gs !! cur = None.

(** The walk with enough fuel keeps every invariant of its steps and returns at
    a stop: its termination, and the induction principle for its result. *)
Lemma walk_spec gs (P : string → list string → Prop) fuel cur seen chain :
  (∀ c l g, P c l → c ≠ "" → c ∉ l → gs !! c = Some g → P (Parent g) (c :: l)) →
  P cur chain → seen = list_to_set chain → NoDup chain →
  (∀ a, a ∈ chain → is_Some (gs !! a)) →
  (size gs < fuel + length chain)%nat →
  ∃ c, P c (ancestry_walk fuel gs cur seen chain) ∧
       walk_stop gs c (ancestry_walk fuel gs cur seen chain).
Proof.
  intros Hstep. unfold walk_stop.
  revert cur seen chain. induction fuel as [|fuel IH]; intros cur seen chain HP -> Hnd Hin Hfuel.
  - exfalso. assert (length chain ≤ size gs)%nat; [|lia].
    rewrite <- size_dom, <- (size_list_to_set (C:=gset string) chain) by done.
    apply subseteq_size. intros a Ha%elem_of_list_to_set. by apply elem_of_dom, Hin.
  - simpl. case_bool_decide as Hcur; [naive_solver|].
    case_bool_decide as Hseen; [rewrite elem_of_list_to_set in Hseen; naive_solver|].
    rewrite elem_of_list_to_set in Hseen.
    destruct (gs !! cur) as [g|] eqn:Hg; [|naive_solver].
    apply IH; [eauto|done|by constructor| |simpl; lia].
    intros a [->|Ha]%elem_of_cons; [by exists g|auto].
Qed.

Lemma ancestry_ind gs g (P : string → list string → Prop) :
  (∀ c l grp, P c l → c ≠ "" → c ∉ l → gs !! c = Some grp → P (Parent grp) (c :: l)) →
  P g [] → ∃ c, P c (ancestry gs g) ∧ walk_stop gs c (ancestry gs g).
Proof.
  intros Hstep H0. apply walk_spec; [done|done|done|constructor|set_solver|simpl; lia].
Qed.

(** The fuel is immaterial beyond the bound. *)
Lemma walk_fuel_enough gs fuel1 fuel2 cur seen chain :
  seen = list_to_set chain → NoDup chain → (∀ a, a ∈ chain → is_Some (gs !! a)) →
  (size gs < fuel1 + length chain)%nat → (size gs < fuel2 + length chain)%nat →
  ancestry_walk fuel1 gs cur seen chain = ancestry_walk fuel2 gs cur seen chain.
Proof.
  assert (Hbound : ∀ chain, NoDup chain → (∀ a, a ∈ chain → is_Some (gs !! a)) →
    (length chain ≤ size gs)%nat).
  { intros l Hnd Hin. rewrite <- size_dom, <- (size_list_to_set (C:=gset string) l) by done.
    apply subseteq_size. intros a Ha%elem_of_list_to_set. by apply elem_of_dom, Hin. }
  revert fuel2 cur seen chain.
  induction fuel1 as [|fuel1 IH]; intros fuel2 cur seen chain -> Hnd Hin H1 H2;
    [specialize (Hbound chain Hnd Hin); lia|].
  destruct fuel2 as [|fuel2]; [specialize (Hbound chain Hnd Hin); lia|].
  simpl. case_bool_decide; [done|]. case_bool_decide as Hs; [done|].
  rewrite elem_of_list_to_set in Hs.
  destruct (gs !! cur) as [g|] eqn:Hg; [|done].
  apply IH; [done|by constructor| |simpl; lia|simpl; lia].
  intros a [->|Ha]%elem_of_cons; [by exists g|auto].
Qed.

(** *** What the result is *)

Lemma ancestry_nodup gs g : NoDup (ancestry gs g).
Proof.
  destruct (ancestry_ind gs g (λ _ l, NoDup l)) as (? & ? & ?); [by constructor|constructor|done].
Qed.

Lemma ancestry_exists gs g a : a ∈ ancestry gs g → a ≠ "" ∧ is_Some (gs !! a).
Proof.
  revert a.
  destruct (ancestry_ind gs g (λ _ l, ∀ a, a ∈ l → a ≠ "" ∧ is_Some (gs !! a))) as (? & ? & ?).
  - intros c l grp HP Hc _ Hg a [->|Ha]%elem_of_cons; eauto.
  - set_solver.
  - done.
Qed.

Lemma ancestry_self gs g : g ≠ "" → is_Some (gs !! g) → g ∈ ancestry gs g.
Proof.
  intros Hne Hg.
  destruct (ancestry_ind gs g (λ c l, (l = [] ∧ c = g) ∨ g ∈ l)) as (c & [[Hl ->]|?] & Hs).
  - intros c l grp [[-> ->]|Hin] ??; right; set_solver.
  - by left.
  - exfalso. unfold walk_stop in Hs. rewrite Hl in Hs.
    destruct Hs as [?|[Ha|Ha]]; [done|set_solver|]. rewrite Ha in Hg. by destruct Hg.
  - done.
Qed.

Lemma ancestry_empty gs g : g = "" ∨ gs !! g = None → ancestry gs g = [].
Proof.
  unfold ancestry. simpl. intros [->|Hg]; [done|]. case_bool_decide; [done|]. by rewrite Hg.
Qed.

Lemma ancestry_not_nil gs g : ancestry gs g ≠ [] ↔ g ≠ "" ∧ is_Some (gs !! g).
Proof.
  split.
  - intros H. split; [intros ->; apply H; by apply ancestry_empty; left|].
    destruct (gs !! g) eqn:Hg; [done|]. exfalso. apply H, ancestry_empty. by right.
  - intros [H1 H2] Hn. pose proof (ancestry_self gs g H1 H2) as Hin. rewrite Hn in Hin.
    by apply elem_of_nil in Hin.
Qed.

(** Membership: the groups reachable along parent links, on every document,
    those with a cycle included. *)
Lemma elem_of_ancestry gs g a :
  a ∈ ancestry gs g ↔ g ≠ "" ∧ is_Some (gs !! g) ∧ rtc (link gs) g a.
Proof.
  split.
  - intros Ha. assert (ancestry gs g ≠ []) as [Hne Hg]%ancestry_not_nil by (intros H; rewrite H in Ha; by apply elem_of_nil in Ha).
    split_and!; [done|done|]. revert a Ha.
    destruct (ancestry_ind gs g (λ c l, (c ≠ "" → is_Some (gs !! c) → rtc (link gs) g c) ∧
      ∀ a, a ∈ l → rtc (link gs) g a)) as (? & [_ ?] & ?); [|split; [done|set_solver]|done].
    intros c l grp [Hc Hl] Hne' Hni Hgrp. split.
    + intros Hp Hpe. eapply rtc_r; [apply Hc; eauto|]. split_and!; eauto.
    + intros a [->|Ha]%elem_of_cons; [apply Hc; eauto|auto].
  - intros (Hne & Hg & Hr). pose proof (ancestry_self gs g Hne Hg) as Hself.
    destruct (ancestry_ind gs g (λ c l, ∀ x y, x ∈ l → link gs x y → y ∈ l ∨ y = c))
      as (c & HP & Hs).
    + intros c l grp HP Hc Hni Hgrp x y [->|Hx]%elem_of_cons Hl.
      * destruct Hl as (_ & _ & _ & g' & Hg' & <-). right. congruence.
      * destruct (HP x y Hx Hl) as [?| ->]; left; set_solver.
    + set_solver.
    + revert HP Hs Hself. generalize (ancestry gs g) as S. intros S HP Hs Hself.
      clear Hne Hg. induction Hr as [|x y z Hxy _ IH]; [done|]. apply IH.
      destruct (HP x y Hself Hxy) as [?| ->]; [done|].
      destruct Hxy as (_ & Hy & Hey & _). unfold walk_stop in Hs.
      destruct Hs as [?|[?|Hn]]; [done|done|]. rewrite Hn in Hey. by destruct Hey.
Qed.

(** Neighbours are child and parent, the general one first, and the last
    element is the group itself. *)
Lemma ancestry_linked gs g l1 p c l2 : ancestry gs g = l1 ++ p :: c :: l2 → link gs c p.
Proof.
  revert l1 p c l2.
  destruct (ancestry_ind gs g (λ cur l, (∀ l1 p c l2, l = l1 ++ p :: c :: l2 → link gs c p) ∧
    (∀ a l', l = a :: l' → a ≠ "" ∧ ∃ grp, gs !! a = Some grp ∧ Parent grp = cur)))
    as (? & [? _] & _); [| |done].
  - intros c l grp [Hp Hh] Hc Hni Hg. split; [|intros a l' [= <- <-]; eauto].
    intros [|x l1] p c' l2 Heq; [|simplify_eq/=; eauto].
    simplify_eq/=. destruct (Hh _ _ eq_refl) as (? & grp' & ? & <-). split_and!; eauto.
  - split; [|done]. intros [|? ?] ? ? ? ?; simplify_eq/=.
Qed.

Lemma ancestry_last gs g : ancestry gs g ≠ [] → last (ancestry gs g) = Some g.
Proof.
  destruct (ancestry_ind gs g (λ c l, (l = [] ∧ c = g) ∨ last l = Some g)) as (? & [[-> _]|?] & _);
    [|by left|done|done].
  intros c l grp [[-> ->]|Hl] _ _ _; right; [done|]. by destruct l.
Qed.

(** The head is a root, a group whose parent does not exist, or the point where
    a cycle was cut. *)
Lemma ancestry_head gs g h l :
  ancestry gs g = h :: l →
  ∃ grp, gs !! h = Some grp ∧
    (Parent grp = "" ∨ gs !! Parent grp = None ∨ Parent grp ∈ h :: l).
Proof.
  destruct (ancestry_ind gs g (λ cur l,
    ∀ a l', l = a :: l' → ∃ grp, gs !! a = Some grp ∧ Parent grp = cur)) as (c & HP & Hs).
  - intros c l' grp _ _ _ Hg a l'' [= <- <-]. eauto.
  - done.
  - intros Heq. destruct (HP _ _ Heq) as (grp & Hg & <-). exists grp. split; [done|].
    rewrite Heq in Hs. unfold walk_stop in Hs. tauto.
Qed.

(** ** Documents without a cycle *)

Definition acyclic (gs : gmap string Group) : Prop := ∀ g, ¬ tc (link gs) g g.

(** Acyclicity is decidable: no group is in the chain of its parent. *)
Definition acyclicb (gs : gmap string Group) : bool :=
  forallb (λ kv, negb (kv.1 ∈? ancestry gs (Parent kv.2))) (map_to_list gs).

Lemma acyclicb_sound gs : acyclicb gs = true → acyclic gs.
Proof.
  unfold acyclicb. rewrite forallb_forall. intros H g Hg.
  assert (∃ y, link gs g y ∧ rtc (link gs) y g) as (p & (Hne & Hp & Hpe & grp & Hg' & <-) & Hr)
    by (inversion Hg; subst; eauto using tc_rtc).
  specialize (H (g, grp)). rewrite <- list_elem_of_In, elem_of_map_to_list in H.
  specialize (H Hg'). apply negb_true_iff, bool_decide_eq_false in H. apply H.
  by apply elem_of_ancestry.
Qed.

(** A parent step whose target need not exist. *)
Definition raw_link (gs : gmap string Group) (c p : string) : Prop :=
  c ≠ "" ∧ ∃ g, gs !! c = Some g ∧ Parent g = p.

Lemma raw_link_rtc gs a b : rtc (raw_link gs) a b → b ≠ "" → is_Some (gs !! b) → rtc (link gs) a b.
Proof.
  intros Hr Hb Hs. induction Hr as [|x y z (Hx & g & Hg & <-) Hyz IH]; [done|].
  apply rtc_l with (Parent g); [|auto].
  assert (Parent g ≠ "" ∧ is_Some (gs !! Parent g)) as [??].
  { inversion Hyz as [|? ? ? (? & ? & ? & _)]; simplify_eq; [done|]. split; eauto. }
  split_and!; eauto.
Qed.

Lemma walk_suffix gs fuel cur l1 l2 :
  (∀ a, a ∈ l2 → ¬ rtc (raw_link gs) cur a) →
  ancestry_walk fuel gs cur (list_to_set (l1 ++ l2)) (l1 ++ l2) =
  ancestry_walk fuel gs cur (list_to_set l1) l1 ++ l2.
Proof.
  revert cur l1. induction fuel as [|fuel IH]; intros cur l1 Hl2; simpl; [done|].
  case_bool_decide as Hcur; [done|].
  destruct (decide (cur ∈ l1)) as [Hin|Hin].
  - rewrite !bool_decide_eq_true_2; [done|set_solver|set_solver].
  - rewrite !bool_decide_eq_false_2; [|set_solver|].
    + destruct (gs !! cur) as [g|] eqn:Hg; [|done].
      apply (IH (Parent g) (cur :: l1)). intros a Ha Hr. apply (Hl2 a Ha).
      apply rtc_l with (Parent g); [|done]. split; eauto.
    + intros [?|Hc]%elem_of_list_to_set%elem_of_app; [done|]. by apply (Hl2 cur Hc).
Qed.

(** The recursive equation: a group's chain is its parent's, then itself. *)
Lemma ancestry_step gs g grp :
  acyclic gs → g ≠ "" → gs !! g = Some grp → ancestry gs g = ancestry gs (Parent grp) ++ [g].
Proof.
  intros Hac Hne Hg. unfold ancestry at 1.
  rewrite (walk_fuel_enough gs _ (S (S (size gs)))); [|done|constructor|set_solver|simpl; lia..].
  cbn [ancestry_walk]. rewrite bool_decide_eq_false_2 by done.
  rewrite bool_decide_eq_false_2 by set_solver. rewrite Hg.
  etrans; [apply (walk_suffix gs (S (size gs)) (Parent grp) [] [g])|done].
  intros a ->%list_elem_of_singleton Hr%raw_link_rtc; [|done|eauto].
  assert (Parent grp ≠ "" ∧ is_Some (gs !! Parent grp)) as [Hp Hpe].
  { apply rtc_inv in Hr as [->|(y & (? & _ & _ & ? & ? & _) & _)]; eauto. }
  apply (Hac g). eapply tc_rtc_r; [apply tc_once|exact Hr]. split_and!; eauto.
Qed.

Lemma acyclic_not_self gs g grp : acyclic gs → gs !! g = Some grp → g ≠ "" → Parent grp ≠ g.
Proof. intros Hac Hg Hne Hp. apply (Hac g), tc_once. split_and!; eauto. Qed.

Lemma ancestry_link gs g p : acyclic gs → link gs g p → ancestry gs g = ancestry gs p ++ [g].
Proof. intros Hac (Hne & _ & _ & grp & Hg & <-). by apply ancestry_step. Qed.

(** The chain of an ancestor is a prefix of the chain. *)
Lemma ancestry_prefix gs g a :
  acyclic gs → a ∈ ancestry gs g → ancestry gs a `prefix_of` ancestry gs g.
Proof.
  intros Hac (_ & _ & Hr)%elem_of_ancestry.
  induction Hr as [|x y z Hxy _ IH]; [done|].
  rewrite (ancestry_link gs x y) by done. by apply prefix_app_r.
Qed.

Lemma ancestry_trans gs g a b : a ∈ ancestry gs g → b ∈ ancestry gs a → b ∈ ancestry gs g.
Proof.
  rewrite !elem_of_ancestry. intros (? & ? & H1) (_ & _ & H2). split_and!; [done..|by etrans].
Qed.

Lemma ancestry_antisym gs g a :
  acyclic gs → a ∈ ancestry gs g → g ∈ ancestry gs a → a = g.
Proof.
  intros Hac (_ & _ & H1)%elem_of_ancestry (_ & _ & H2)%elem_of_ancestry.
  apply rtc_tc in H1 as [->|H1]; [done|]. destruct (Hac g). by eapply tc_rtc_r.
Qed.

Lemma ancestry_strict_shorter gs g a :
  acyclic gs → a ∈ ancestry gs g → a ≠ g → (length (ancestry gs a) < length (ancestry gs g))%nat.
Proof.
  intros Hac (Hne & Hg & Hr)%elem_of_ancestry Hag.
  apply rtc_inv in Hr as [->|(p & Hp & Hr)]; [done|].
  rewrite (ancestry_link gs g p), length_app by done. simpl.
  assert (a ∈ ancestry gs p) as Ha by (apply elem_of_ancestry; destruct Hp as (? & ? & ? & _); done).
  apply (ancestry_prefix gs p a Hac), prefix_length in Ha. lia.
Qed.

Lemma ancestry_length gs g : (length (ancestry gs g) ≤ size gs)%nat.
Proof.
  rewrite <- size_dom, <- (size_list_to_set (C:=gset string) _ (ancestry_nodup gs g)).
  apply subseteq_size. intros a Ha%elem_of_list_to_set. apply elem_of_dom.
  by apply ancestry_exists in Ha as [_ ?].
Qed.

(** *** The chain depends on the parent links alone *)

Definition same_parents (gs gs' : gmap string Group) : Prop :=
  ∀ g, Parent <$> gs !! g = Parent <$> gs' !! g.

Lemma same_parents_dom gs gs' : same_parents gs gs' → dom gs = dom gs'.
Proof.
  intros H. apply set_eq. intros g. rewrite !elem_of_dom.
  rewrite <- !(fmap_is_Some Parent). by rewrite H.
Qed.

Lemma walk_same_parents gs gs' fuel cur seen chain :
  same_parents gs gs' →
  ancestry_walk fuel gs cur seen chain = ancestry_walk fuel gs' cur seen chain.
Proof.
  intros H. revert cur seen chain. induction fuel as [|fuel IH]; intros; simpl; [done|].
  pose proof (H cur) as Hc. destruct (gs !! cur), (gs' !! cur); simplify_eq/=; [|done].
  by rewrite Hc, IH.
Qed.

Lemma ancestry_same_parents gs gs' g : same_parents gs gs' → ancestry gs g = ancestry gs' g.
Proof.
  intros H. unfold ancestry. rewrite <- !size_dom, (same_parents_dom gs gs' H).
  by apply walk_same_parents.
Qed.

Lemma link_same_parents gs gs' : same_parents gs gs' → ∀ c p, link gs c p → link gs' c p.
Proof.
  intros H c p (? & ? & Hp & g & Hg & <-). pose proof (H c) as Hc. rewrite Hg in Hc.
  destruct (gs' !! c) as [g'|] eqn:?; simplify_eq/=.
  split_and!; [done|done| |by exists g'].
  apply elem_of_dom. rewrite <- (same_parents_dom gs gs') by done. by apply elem_of_dom.
Qed.

Lemma acyclic_sub gs gs' : (∀ c p, link gs' c p → link gs c p) → acyclic gs → acyclic gs'.
Proof. intros H Hac g Hg. apply (Hac g). by apply (tc_congruence id (R:=link gs')). Qed.

Lemma acyclic_same_parents gs gs' : same_parents gs gs' → acyclic gs → acyclic gs'.
Proof. intros H. apply acyclic_sub, link_same_parents. intros g. by rewrite H. Qed.

Lemma same_parents_insert gs name g g' :
  gs !! name = Some g → Parent g' = Parent g → same_parents gs (<[name := g']> gs).
Proof.
  intros Hg Hp a. destruct (decide (a = name)) as [->|].
  - rewrite lookup_insert_eq, Hg. simpl. by rewrite Hp.
  - by rewrite lookup_insert_ne.
Qed.

(** *** Edits of the tree *)

Lemma link_insert_other gs name g x y :
  is_Some (gs !! name) → x ≠ name → link (<[name := g]> gs) x y → link gs x y.
Proof.
  intros Hn Hx (Hx0 & Hy0 & Hy & gx & Hgx & Hp). rewrite lookup_insert_ne in Hgx by done.
  split_and!; [done|done| |by exists gx].
  destruct (decide (y = name)) as [->|]; [done|]. by rewrite lookup_insert_ne in Hy.
Qed.

(** A path into [name] uses none of [name]'s own links. *)
Lemma rtc_insert_into gs name g x :
  is_Some (gs !! name) → rtc (link (<[name := g]> gs)) x name → rtc (link gs) x name.
Proof.
  intros Hn Hr. remember name as z eqn:Hz in Hr at 2. 
  induction Hr as [z|x y z Hxy _ IH]; [by subst|]. subst z.
  destruct (decide (x = name)) as [->|Hx]; [done|].
  apply rtc_l with y; [|by apply IH]. by eapply link_insert_other.
Qed.

Lemma tc_insert_split gs name g x y :
  is_Some (gs !! name) → tc (link (<[name := g]> gs)) x y →
  tc (link gs) x y ∨
  (rtc (link (<[name := g]> gs)) x name ∧ tc (link (<[name := g]> gs)) name y).
Proof.
  intros Hn. induction 1 as [x y Hxy|x y z Hxy Hyz IH]; destruct (decide (x = name)) as [->|Hx].
  - right. split; [done|by apply tc_once].
  - left. apply tc_once. by eapply link_insert_other.
  - right. split; [done|]. by eapply tc_l.
  - destruct IH as [IH|[IH1 IH2]].
    + left. eapply tc_l; [|exact IH]. by eapply link_insert_other.
    + right. split; [|done]. by eapply rtc_l.
Qed.

(** Re-parenting under a group that does not reach back keeps the tree acyclic. *)
Lemma acyclic_reparent gs name g :
  acyclic gs → is_Some (gs !! name) → name ∉ ancestry gs (Parent g) →
  acyclic (<[name := g]> gs).
Proof.
  intros Hac Hn Hni x Hx. apply tc_insert_split in Hx as [Hx|[H1 H2]]; [by apply (Hac x)| |done].
  assert (tc (link (<[name := g]> gs)) name name) as Hc by (by eapply tc_rtc_r).
  assert (∃ y, link (<[name := g]> gs) name y ∧ rtc (link (<[name := g]> gs)) y name)
    as (y & (Hne & Hp & Hpe & g' & Hg' & <-) & Hr)
    by (inversion Hc; subst; eauto using tc_rtc).
  rewrite lookup_insert_eq in Hg'. injection Hg' as <-. apply Hni, elem_of_ancestry.
  split_and!; [done| |by eapply rtc_insert_into].
  destruct (decide (Parent g = name)) as [->|]; [done|]. by rewrite lookup_insert_ne in Hpe.
Qed.

(** A new group no existing group names as its parent. *)
Lemma acyclic_new gs name g :
  acyclic gs → gs !! name = None → Parent g ≠ name →
  (∀ a ga, gs !! a = Some ga → Parent ga ≠ name) → acyclic (<[name := g]> gs).
Proof.
  intros Hac Hn Hg Hno x Hx.
  assert (Hlink : ∀ a b, link (<[name := g]> gs) a b → b ≠ name ∧ (a ≠ name → link gs a b)).
  { intros a b (Ha & Hb & Hbe & ga & Hga & <-). destruct (decide (a = name)) as [->|Hane].
    - rewrite lookup_insert_eq in Hga. by simplify_eq.
    - rewrite lookup_insert_ne in Hga by done.
      assert (Parent ga ≠ name) as Hpn by eauto. split; [done|]. intros _.
      rewrite lookup_insert_ne in Hbe by done. split_and!; eauto. }
  assert (Hsub : ∀ a b, tc (link (<[name := g]> gs)) a b → b ≠ name ∧ (a ≠ name → tc (link gs) a b)).
  { induction 1 as [a b Hab|a b c Hab _ [IH1 IH2]].
    - apply Hlink in Hab as [??]. split; [done|]. intros ?. by apply tc_once; auto.
    - apply Hlink in Hab as [Hb Hab]. split; [done|]. intros Ha. eapply tc_l; eauto. }
  destruct (Hsub x x Hx) as [Hxn Hxx]. apply (Hac x). auto.
Qed.

Lemma acyclic_delete gs name : acyclic gs → acyclic (delete name gs).
Proof.
  apply acyclic_sub. intros c p (? & ? & Hp & g & Hg & <-).
  apply lookup_delete_Some in Hg as [? Hg]. destruct Hp as [gp Hp].
  apply lookup_delete_Some in Hp as [? Hp]. split_and!; eauto.
Qed.

(** ** Membership of the populations *)

Lemma elem_of_GroupDevices f group tag :
  tag ∈ GroupDevices f group ↔ ∃ d, Devices f !! tag = Some d ∧ group ∈ Groups d.
Proof.
  unfold GroupDevices. rewrite elem_of_keys_where.
  by setoid_rewrite bool_decide_eq_true.
Qed.

Lemma dev_lookup f tag d : Devices f !! tag = Some d → dev f tag = d.
Proof. unfold dev. by intros ->. Qed.

Lemma elem_of_ActiveGroupDevices f group tag :
  tag ∈ ActiveGroupDevices f group ↔
  ∃ d, Devices f !! tag = Some d ∧ group ∈ Groups d ∧ Retired d = false.
Proof.
  unfold ActiveGroupDevices. rewrite elem_of_delete_func, elem_of_GroupDevices. split.
  - intros [(d & Hd & Hg) Hr]. rewrite (dev_lookup f tag d Hd) in Hr. eauto.
  - intros (d & Hd & Hg & Hr). rewrite (dev_lookup f tag d Hd). eauto.
Qed.

Lemma elem_of_ConvergingGroupDevices f group tag :
  tag ∈ ConvergingGroupDevices f group ↔
  ∃ d, Devices f !! tag = Some d ∧ group ∈ Groups d ∧ Retired d = false ∧ Provisional d = false.
Proof.
  unfold ConvergingGroupDevices. rewrite elem_of_delete_func, elem_of_ActiveGroupDevices. split.
  - intros [(d & Hd & Hg & Ha) Hp]. rewrite (dev_lookup f tag d Hd) in Hp. eauto.
  - intros (d & Hd & Hg & Hr & Hp). rewrite (dev_lookup f tag d Hd). eauto 6.
Qed.

Lemma elem_of_GroupChildren f p name :
  name ∈ GroupChildren f p ↔
  ∃ g, f_Groups f !! name = Some g ∧ effective_parent f g = p.
Proof.
  unfold GroupChildren. rewrite elem_of_keys_where. by setoid_rewrite bool_decide_eq_true.
Qed.

Lemma checkClassAllowed_None f class groups :
  checkClassAllowed f class groups = None ↔
  ∀ name g, name ∈ groups → f_Groups f !! name = Some g → classAllowedBy g class = true.
Proof.
  unfold checkClassAllowed. rewrite first_err_None. split.
  - intros H name g Hin Hg. specialize (H name Hin). rewrite Hg in H. by destruct (classAllowedBy g class).
  - intros H name Hin. destruct (f_Groups f !! name) as [g|] eqn:Hg; [|done].
    by rewrite (H name g).
Qed.

(** ** Redundant memberships *)

(** The scopes a membership list reaches. *)
Definition reaches (f : Fleet) (groups : list string) (a : string) : Prop :=
  ∃ g, g ∈ groups ∧ a ∈ GroupAncestry f g.

Lemma elem_of_reachable f groups a :
  a ∈ reachable f groups ↔ ∃ g, g ∈ groups ∧ a ∈ GroupAncestry f g ∧ a ≠ g.
Proof.
  unfold reachable. rewrite list_elem_of_bind.
  setoid_rewrite elem_of_keep_if. setoid_rewrite neqb_true. naive_solver.
Qed.

Lemma elem_of_RedundantGroups f tag d g :
  Devices f !! tag = Some d → (2 ≤ length (Groups d))%nat →
  g ∈ RedundantGroups f tag ↔ g ∈ Groups d ∧ g ∈ reachable f (Groups d).
Proof.
  intros Hd Hlen. unfold RedundantGroups. rewrite Hd.
  destruct (Nat.ltb_spec (length (Groups d)) 2); [lia|].
  by rewrite elem_of_keep_if, bool_decide_eq_true.
Qed.

Lemma rejectAncestorDuplication_None f groups :
  rejectAncestorDuplication f groups = None ↔ ∀ g, g ∈ groups → g ∉ reachable f groups.
Proof.
  unfold rejectAncestorDuplication. rewrite first_err_None. setoid_rewrite first_err_None.
  setoid_rewrite elem_of_reachable. split.
  - intros H a Ha (g & Hg & Hanc & Hne). specialize (H g Hg a Hanc).
    repeat case_bool_decide; done.
  - intros H g Hg anc Hanc. repeat case_bool_decide; try done. destruct (H anc); eauto.
Qed.

(** Below every entry there is one that is not redundant. *)
Lemma irredundant_below f groups g :
  acyclic (f_Groups f) → g ∈ groups → g ≠ "" → is_Some (f_Groups f !! g) →
  ∃ g', g' ∈ groups ∧ g' ∉ reachable f groups ∧ g ∈ GroupAncestry f g'.
Proof.
  intros Hac. remember (size (f_Groups f) - length (GroupAncestry f g))%nat as n eqn:Hn.
  revert g Hn. induction (lt_wf n) as [n _ IH]. intros g -> Hg Hne Hex.
  destruct (decide (g ∈ reachable f groups)) as [Hr|Hr].
  - apply elem_of_reachable in Hr as (g2 & Hg2 & Hanc & Hneq).
    pose proof (ancestry_strict_shorter _ _ _ Hac Hanc Hneq) as Hlt.
    pose proof (ancestry_length (f_Groups f) g2) as Hle.
    assert (g2 ≠ "" ∧ is_Some (f_Groups f !! g2)) as [??]
      by (apply elem_of_ancestry in Hanc; tauto).
    edestruct IH with (g := g2) as (g' & ? & ? & Hg'); [|reflexivity|done..|].
    { unfold GroupAncestry. lia. }
    exists g'. split_and!; [done|done|]. eapply ancestry_trans; [exact Hg'|exact Hanc].
  - exists g. split_and!; [done|done|]. by apply ancestry_self.
Qed.

(** Dropping the redundant entries reaches the same scopes. *)
Lemma prune_reaches f groups a :
  acyclic (f_Groups f) →
  reaches f (delete_func (λ g, g ∈? reachable f groups) groups) a ↔ reaches f groups a.
Proof.
  intros Hac. unfold reaches. split.
  - intros (g & [Hg _]%elem_of_delete_func & Ha). eauto.
  - intros (g & Hg & Ha).
    destruct (irredundant_below f groups g) as (g' & Hg' & Hr & Hgg'); [done|done|..].
    1,2: apply elem_of_ancestry in Ha; tauto.
    exists g'. split; [|by eapply ancestry_trans].
    apply elem_of_delete_func. by rewrite bool_decide_eq_false.
Qed.

(** *** The loop over the devices *)

Definition pruned_groups (f : Fleet) (tag : string) (d : Device) : list string :=
  delete_func (λ g, g ∈? RedundantGroups f tag) (Groups d).

Lemma prune_device_groups f tag : f_Groups (prune_device f tag) = f_Groups f.
Proof. unfold prune_device. by destruct (RedundantGroups f tag). Qed.

Lemma RedundantGroups_ext f f' tag :
  f_Groups f = f_Groups f' → Devices f !! tag = Devices f' !! tag →
  RedundantGroups f tag = RedundantGroups f' tag.
Proof. unfold RedundantGroups, reachable, GroupAncestry. by intros -> ->. Qed.

Lemma prune_device_lookup f tag t :
  Devices (prune_device f tag) !! t =
  if t ==? tag then (λ d, d <| Groups := pruned_groups f tag d |>) <$> Devices f !! tag
  else Devices f !! t.
Proof.
  unfold prune_device, pruned_groups.
  destruct (RedundantGroups f tag) as [|r rs] eqn:Hr.
  - case_bool_decide as Ht; [subst|done]. destruct (Devices f !! tag) as [d|]; [|done]. simpl.
    rewrite delete_func_all; [by destruct d|done].
  - simpl. case_bool_decide as Ht; [subst|by rewrite lookup_insert_ne].
    destruct (Devices f !! tag) as [d|] eqn:Hd.
    + rewrite lookup_insert_eq. simpl. by rewrite (dev_lookup f tag d).
    + unfold RedundantGroups in Hr. by rewrite Hd in Hr.
Qed.

Lemma prune_fold f tags t :
  NoDup tags →
  f_Groups (foldl prune_device f tags) = f_Groups f ∧
  Devices (foldl prune_device f tags) !! t =
    if t ∈? tags then (λ d, d <| Groups := pruned_groups f t d |>) <$> Devices f !! t
    else Devices f !! t.
Proof.
  revert f. induction tags as [|tag tags IH]; intros f Hnd; simpl; [done|].
  apply NoDup_cons in Hnd as [Hni Hnd].
  destruct (IH (prune_device f tag) Hnd) as [HG HD]. rewrite HG, HD. split; [apply prune_device_groups|].
  rewrite !prune_device_lookup.
  destruct (decide (t = tag)) as [->|Hne].
  - rewrite !(bool_decide_eq_true_2 (tag = tag)) by done.
    rewrite bool_decide_eq_false_2 by done. rewrite bool_decide_eq_true_2 by set_solver. done.
  - rewrite !(bool_decide_eq_false_2 (t = tag)) by done.
    destruct (decide (t ∈ tags)) as [Hin|Hin].
    + rewrite !bool_decide_eq_true_2 by set_solver.
      destruct (Devices f !! t) as [d|] eqn:Hd; [|done]. simpl. f_equal. f_equal.
      unfold pruned_groups. f_equal. 
      erewrite RedundantGroups_ext; [done|apply prune_device_groups|].
      rewrite prune_device_lookup. by rewrite bool_decide_eq_false_2.
    + rewrite !bool_decide_eq_false_2 by set_solver. done.
Qed.

Lemma prune_fold_frame f tags :
  foldl prune_device f tags = f <| Devices := Devices (foldl prune_device f tags) |>.
Proof.
  revert f. induction tags as [|tag tags IH]; intros f; simpl; [by destruct f|].
  rewrite IH. simpl. unfold prune_device. by destruct (RedundantGroups f tag), f.
Qed.

Lemma reachable_mono f l l' a :
  (∀ g, g ∈ l → g ∈ l') → a ∈ reachable f l → a ∈ reachable f l'.
Proof. rewrite !elem_of_reachable. naive_solver. Qed.

Lemma pruned_groups_eq f tag d :
  Devices f !! tag = Some d →
  pruned_groups f tag d = delete_func (λ g, g ∈? reachable f (Groups d)) (Groups d).
Proof.
  intros Hd. unfold pruned_groups. apply delete_func_ext. intros g Hg. apply bool_decide_ext.
  destruct (decide (2 ≤ length (Groups d))%nat) as [Hl|Hl].
  - rewrite (elem_of_RedundantGroups f tag d) by done. tauto.
  - assert (RedundantGroups f tag = []) as ->.
    { unfold RedundantGroups. rewrite Hd. destruct (Nat.ltb_spec (length (Groups d)) 2); [done|lia]. }
    destruct (Groups d) as [|x [|y r]]; [set_solver| |simpl in Hl; lia].
    apply list_elem_of_singleton in Hg as ->.
    rewrite elem_of_reachable. set_solver.
Qed.

Lemma reachable_groups_ext f f' l :
  f_Groups f = f_Groups f' → reachable f l = reachable f' l.
Proof. unfold reachable, GroupAncestry. by intros ->. Qed.

Lemma prune_result f tag d :
  Devices f !! tag = Some d →
  f_Groups (foldl prune_device f (map_to_list (Devices f)).*1) = f_Groups f ∧
  Devices (foldl prune_device f (map_to_list (Devices f)).*1) !! tag =
    Some (d <| Groups := delete_func (λ g, g ∈? reachable f (Groups d)) (Groups d) |>).
Proof.
  intros Hd. destruct (prune_fold f (map_to_list (Devices f)).*1 tag) as [HG HD];
    [apply NoDup_fst_map_to_list|]. split; [done|].
  rewrite HD, bool_decide_eq_true_2, Hd by
    (apply list_elem_of_fmap; exists (tag, d); by rewrite elem_of_map_to_list).
  simpl. by rewrite pruned_groups_eq.
Qed.

(** ** Properties *)

(** GroupAncestry terminates on every document, cyclic and dangling parent
    links included (any fuel above the number of groups gives the same chain),
    and its result is exactly the duplicate-free chain of parent links from the
    most general resolvable ancestor down to the group itself: empty for a
    missing group, every neighbour pair a parent link, the members the groups
    reachable along parent links, the head a root, a group with a missing
    parent, or the point where a cycle was cut. *)
Theorem GroupAncestry_characterised f g :
  (∀ fuel, (size (f_Groups f) < fuel)%nat →
    ancestry_walk fuel (f_Groups f) g ∅ [] = GroupAncestry f g) ∧
  NoDup (GroupAncestry f g) ∧
  (GroupAncestry f g = [] ↔ g = "" ∨ f_Groups f !! g = None) ∧
  (∀ a, a ∈ GroupAncestry f g ↔
    g ≠ "" ∧ is_Some (f_Groups f !! g) ∧ rtc (link (f_Groups f)) g a) ∧
  (∀ l1 p c l2, GroupAncestry f g = l1 ++ p :: c :: l2 → link (f_Groups f) c p) ∧
  (∀ h l, GroupAncestry f g = h :: l →
    last (GroupAncestry f g) = Some g ∧
    ∃ grp, f_Groups f !! h = Some grp ∧
      (Parent grp = "" ∨ f_Groups f !! Parent grp = None ∨ Parent grp ∈ h :: l)).
Proof.
  unfold GroupAncestry. split_and!.
  - intros fuel Hf. apply walk_fuel_enough; [done|constructor|set_solver|simpl; lia..].
  - apply ancestry_nodup.
  - pose proof (ancestry_not_nil (f_Groups f) g) as Hn. destruct (f_Groups f !! g) eqn:Hg.
    + destruct (decide (ancestry (f_Groups f) g = [])) as [He|He].
      * split; [|done]. intros _. destruct (decide (g = "")); [by left|].
        exfalso. by apply Hn.
      * split; [done|]. intros [->|?]; [|done]. by apply Hn in He as [??].
    + split; [by right|]. intros _. apply ancestry_empty. by right.
  - intros a. apply elem_of_ancestry.
  - apply ancestry_linked.
  - intros h l Heq. split; [apply ancestry_last; by rewrite Heq|]. by apply (ancestry_head (f_Groups f) g).
Qed.

(** On a document without a parent cycle, PruneRedundantGroups leaves every
    device reaching exactly the scopes it reached, touches nothing but group
    lists, keeps the order of the surviving entries, and leaves lists that
    rejectAncestorDuplication accepts and RedundantGroups finds nothing in. *)
Theorem PruneRedundantGroups_spec f :
  acyclic (f_Groups f) →
  ∃ f', PruneRedundantGroups f = Ok f' ∧ f_Groups f' = f_Groups f ∧
    ∀ tag d, Devices f !! tag = Some d →
      ∃ d', Devices f' !! tag = Some d' ∧
        d' = d <| Groups := Groups d' |> ∧
        Groups d' `sublist_of` Groups d ∧
        (∀ a, reaches f' (Groups d') a ↔ reaches f (Groups d) a) ∧
        RedundantGroups f' tag = [] ∧
        rejectAncestorDuplication f' (Groups d') = None.
Proof.
  intros Hac. eexists. split; [reflexivity|].
  destruct (prune_fold f (map_to_list (Devices f)).*1 "") as [HG _]; [apply NoDup_fst_map_to_list|].
  split; [done|]. intros tag d Hd. destruct (prune_result f tag d Hd) as [_ HD].
  set (f' := foldl _ _ _) in *. eexists. split; [exact HD|]. simpl.
  set (l := delete_func _ (Groups d)) in *.
  assert (Hreach : ∀ g, g ∈ l → g ∉ reachable f' l).
  { intros g [Hg Hr%bool_decide_eq_false]%elem_of_delete_func Hr'. apply Hr.
    rewrite (reachable_groups_ext f' f) in Hr' by done. eapply reachable_mono; [|exact Hr'].
    intros x Hx. by apply elem_of_delete_func in Hx as [??]. }
  split_and!.
  - done.
  - apply sublist_filter.
  - intros a. unfold reaches, GroupAncestry. rewrite HG.
    by apply (prune_reaches f (Groups d) a).
  - unfold RedundantGroups. rewrite HD. simpl. destruct (_ <? _)%nat; [done|].
    apply elem_of_nil_inv. intros g [Hg Hr%bool_decide_eq_true]%elem_of_keep_if.
    by apply (Hreach g).
  - by apply rejectAncestorDuplication_None.
Qed.

(** A two-level tree with a device listed in a group and in its parent. *)
Definition demo_group (parent : string) : Group := zero_group <| Parent := parent |>.
Definition demo_groups : gmap string Group :=
  {["root" := demo_group ""; "mid" := demo_group "root"; "leaf" := demo_group "mid";
    "side" := demo_group ""]}.
Definition demo_tree : Fleet :=
  zero_fleet <| f_Groups := demo_groups |>
             <| Devices := {["d1" := zero_device <| Groups := ["root"; "side"; "leaf"] |> ]} |>.

Lemma PruneRedundantGroups_spec_witness :
  acyclic (f_Groups demo_tree) ∧
  ∃ f', PruneRedundantGroups demo_tree = Ok f' ∧ Groups (dev f' "d1") = ["side"; "leaf"] ∧
    rejectAncestorDuplication f' ["side"; "leaf"] = None.
Proof.
  assert (acyclic (f_Groups demo_tree)) as Hac by (apply acyclicb_sound; vm_compute; reflexivity).
  split; [exact Hac|].
  destruct (PruneRedundantGroups_spec demo_tree Hac) as (f' & Hf' & _ & H).
  exists f'. split; [exact Hf'|].
  assert (f' = match PruneRedundantGroups demo_tree with Ok f => f | Err _ => demo_tree end)
    as -> by (rewrite Hf'; reflexivity).
  split; [vm_compute; reflexivity|].
  edestruct (H "d1") as (d' & Hd' & _ & _ & _ & _ & Hrej); [vm_compute; reflexivity|].
  vm_compute in Hd'. injection Hd' as <-. exact Hrej.
Defined.
