(* ===== verification/Filters.v ===== *)
(** * Device filters (src/internal/domain/fleet/filter.go)

    The closed vocabulary of attributes and operators, write-time validation,
    and evaluation of a filter on a device, with its declarative meaning. *)

From S2P Require Import Prelude GoLib FleetModel Groups.

(** ** Vocabulary *)

Definition AttrTag : string := "tag".
Definition AttrClass : string := "class".
Definition AttrHardware : string := "hardware".
Definition AttrAssignedUser : string := "assignedUser".
Definition AttrGroup : string := "group".
Definition labelPrefix : string := "label:".
Definition OpEq : string := "eq".
Definition OpNe : string := "ne".
Definition OpPrefix : string := "prefix".
Definition OpIn : string := "in".
Definition MatchAll : string := "all".
Definition MatchAny : string := "any".

(** ** Validation *)

Definition validAttr (a : string) : bool :=
  (a ∈? [AttrTag; AttrClass; AttrHardware; AttrAssignedUser; AttrGroup])
  || (has_prefix a labelPrefix && (String.length labelPrefix <? String.length a)%nat).

Definition validate_rule (i : nat) (r : FilterRule) : option FilterErr :=
  if negb (validAttr (Attr r)) then Some (UnknownAttr i (Attr r))
  else if r_Op r ∈? [OpEq; OpNe; OpPrefix] then
    if r_Value r ==? "" then Some (OpNeedsValue i (r_Op r)) else None
  else if r_Op r ==? OpIn then
    match Values r with
    | [] => Some (InNeedsValues i)
    | vs => if "" ∈? vs then Some (InEmptyValue i) else None
    end
  else Some (UnknownFilterOp i (r_Op r)).

Fixpoint validate_rules (i : nat) (rs : list FilterRule) : option FilterErr :=
  match rs with
  | [] => None
  | r :: rs => match validate_rule i r with Some e => Some e | None => validate_rules (S i) rs end
  end.

Definition ValidateFilter (fl : Filter) : option FilterErr :=
  if negb (Match fl ∈? [""; MatchAll; MatchAny]) then Some (BadMatch (Match fl))
  else match Rules fl with [] => Some NoRules | rs => validate_rules 0 rs end.

(** ** Evaluation *)

(** The scopes a device is in, ancestry included. *)
Definition expanded_groups (f : Fleet) (d : Device) : list string :=
  g ← Groups d; GroupAncestry f g.

Definition group_rule (ins : list string) (r : FilterRule) : bool :=
  if r_Op r ==? OpEq then r_Value r ∈? ins
  else if r_Op r ==? OpNe then negb (r_Value r ∈? ins)
  else if r_Op r ==? OpPrefix then existsb (λ g, has_prefix g (r_Value r)) ins
  else if r_Op r ==? OpIn then existsb (λ v, v ∈? ins) (Values r)
  else false.

(** The scalar a rule's attribute names; [None] is an unknown attribute. *)
Definition attr_value (tag : string) (d : Device) (attr : string) : option string :=
  if attr ==? AttrTag then Some tag
  else if attr ==? AttrClass then Some (Class d)
  else if attr ==? AttrHardware then Some (Hardware d)
  else if attr ==? AttrAssignedUser then Some (AssignedUser d)
  else match cut_prefix attr labelPrefix with
       | Some key => Some (default "" (Labels d !! key))
       | None => None
       end.

Definition scalar_rule (got : string) (r : FilterRule) : bool :=
  if r_Op r ==? OpEq then got ==? r_Value r
  else if r_Op r ==? OpNe then got !=? r_Value r
  else if r_Op r ==? OpPrefix then (got !=? "") && has_prefix got (r_Value r)
  else if r_Op r ==? OpIn then existsb (λ v, got ==? v) (Values r)
  else false.

Definition matchesRule (f : Fleet) (r : FilterRule) (tag : string) : bool :=
  match Devices f !! tag with
  | None => false
  | Some d =>
      if Attr r ==? AttrGroup then group_rule (expanded_groups f d) r
      else match attr_value tag d (Attr r) with
           | None => false
           | Some got => scalar_rule got r
           end
  end.

(** The loop of [matchesFilter] over the rules. *)
Fixpoint matches_rules (f : Fleet) (m : string) (rs : list FilterRule) (tag : string) : bool :=
  match rs with
  | [] => m ==? MatchAll
  | r :: rs =>
      let ok := matchesRule f r tag in
      if (m ==? MatchAll) && negb ok then false
      else if (m ==? MatchAny) && ok then true
      else matches_rules f m rs tag
  end.

Definition matchesFilter (f : Fleet) (fl : Filter) (tag : string) : bool :=
  let m := if Match fl ==? "" then MatchAll else Match fl in
  match Rules fl with [] => false | rs => matches_rules f m rs tag end.

(** ** The declarative meaning *)

(** [has_value f tag d attr v]: [v] is a value of the attribute on the device.
    A group attribute has many, the others exactly one; an unknown attribute
    has none. *)
Definition has_value (f : Fleet) (tag : string) (d : Device) (attr v : string) : Prop :=
  if attr ==? AttrGroup then reaches f (Groups d) v
  else attr_value tag d attr = Some v.

Definition known_attr (attr : string) : Prop :=
  attr ∈ [AttrTag; AttrClass; AttrHardware; AttrAssignedUser; AttrGroup] ∨
  has_prefix attr labelPrefix = true.

Definition rule_holds (f : Fleet) (r : FilterRule) (tag : string) : Prop :=
  ∃ d, Devices f !! tag = Some d ∧ known_attr (Attr r) ∧
    ((r_Op r = OpEq ∧ has_value f tag d (Attr r) (r_Value r)) ∨
     (r_Op r = OpNe ∧ ¬ has_value f tag d (Attr r) (r_Value r)) ∨
     (r_Op r = OpPrefix ∧ ∃ v, has_value f tag d (Attr r) v ∧ v ≠ "" ∧
                              has_prefix v (r_Value r) = true) ∨
     (r_Op r = OpIn ∧ ∃ v, v ∈ Values r ∧ has_value f tag d (Attr r) v)).

Definition filter_selects (f : Fleet) (fl : Filter) (tag : string) : Prop :=
  Rules fl ≠ [] ∧
  (((Match fl = "" ∨ Match fl = MatchAll) ∧ ∀ r, r ∈ Rules fl → rule_holds f r tag) ∨
   (Match fl = MatchAny ∧ ∃ r, r ∈ Rules fl ∧ rule_holds f r tag)).

Lemma elem_of_expanded_groups f d a : a ∈ expanded_groups f d ↔ reaches f (Groups d) a.
Proof. unfold expanded_groups, reaches. rewrite list_elem_of_bind. naive_solver. Qed.

Lemma existsb_elem {A} (p : A → bool) l : existsb p l = true ↔ ∃ a, a ∈ l ∧ p a = true.
Proof. rewrite existsb_exists. by setoid_rewrite <- list_elem_of_In. Qed.

(** The operators are told apart by the first that matches. *)
Lemma op_cases (op : string) :
  op = OpEq ∨ op = OpNe ∨ op = OpPrefix ∨ op = OpIn ∨
  (op ≠ OpEq ∧ op ≠ OpNe ∧ op ≠ OpPrefix ∧ op ≠ OpIn).
Proof. destruct (decide (op = OpEq)), (decide (op = OpNe)), (decide (op = OpPrefix)), (decide (op = OpIn)); tauto. Qed.

Lemma scalar_rule_spec got r :
  scalar_rule got r = true ↔
  (r_Op r = OpEq ∧ got = r_Value r) ∨ (r_Op r = OpNe ∧ got ≠ r_Value r) ∨
  (r_Op r = OpPrefix ∧ got ≠ "" ∧ has_prefix got (r_Value r) = true) ∨
  (r_Op r = OpIn ∧ got ∈ Values r).
Proof.
  unfold scalar_rule.
  destruct (op_cases (r_Op r)) as [->|[->|[->|[->|(H1&H2&H3&H4)]]]]; simpl.
  - rewrite eqb_true. naive_solver.
  - rewrite neqb_true. naive_solver.
  - rewrite andb_true_iff, neqb_true. naive_solver.
  - rewrite existsb_elem. setoid_rewrite eqb_true. naive_solver.
  - rewrite !bool_decide_eq_false_2 by done. naive_solver.
Qed.

Lemma group_rule_spec f d r :
  group_rule (expanded_groups f d) r = true ↔
  (r_Op r = OpEq ∧ reaches f (Groups d) (r_Value r)) ∨
  (r_Op r = OpNe ∧ ¬ reaches f (Groups d) (r_Value r)) ∨
  (r_Op r = OpPrefix ∧ ∃ v, reaches f (Groups d) v ∧ v ≠ "" ∧ has_prefix v (r_Value r) = true) ∨
  (r_Op r = OpIn ∧ ∃ v, v ∈ Values r ∧ reaches f (Groups d) v).
Proof.
  assert (Hne : ∀ v, reaches f (Groups d) v → v ≠ "").
  { intros v (g & _ & Hv). by apply ancestry_exists in Hv as [? _]. }
  unfold group_rule.
  destruct (op_cases (r_Op r)) as [->|[->|[->|[->|(H1&H2&H3&H4)]]]]; simpl.
  - rewrite bool_decide_eq_true, elem_of_expanded_groups. naive_solver.
  - rewrite negb_true_iff, bool_decide_eq_false, elem_of_expanded_groups. naive_solver.
  - rewrite existsb_elem. setoid_rewrite elem_of_expanded_groups. naive_solver.
  - rewrite existsb_elem. setoid_rewrite bool_decide_eq_true.
    setoid_rewrite elem_of_expanded_groups. naive_solver.
  - rewrite !bool_decide_eq_false_2 by done. naive_solver.
Qed.

Lemma attr_value_known tag d attr :
  attr ≠ AttrGroup → (∃ v, attr_value tag d attr = Some v) ↔ known_attr attr.
Proof.
  intros Hg. unfold attr_value, known_attr, has_prefix.
  repeat (case_bool_decide; [subst; split; [set_solver|eauto]|]).
  destruct (cut_prefix attr labelPrefix); [naive_solver|].
  split; [naive_solver|]. set_solver.
Qed.

Lemma matchesRule_spec f r tag : matchesRule f r tag = true ↔ rule_holds f r tag.
Proof.
  unfold matchesRule, rule_holds, has_value.
  destruct (Devices f !! tag) as [d|] eqn:Hd; [|naive_solver].
  case_bool_decide as Hg.
  - rewrite group_rule_spec. split; [|naive_solver].
    intros H. exists d. split; [done|]. split; [left; rewrite Hg; set_solver|done].
  - pose proof (attr_value_known tag d (Attr r) Hg) as Hk.
    destruct (attr_value tag d (Attr r)) as [got|] eqn:Hav.
    + rewrite scalar_rule_spec. split.
      * intros H. exists d. rewrite Hav. split; [done|]. split; [apply Hk; eauto|].
        destruct H as [[? ->]|[[? ?]|[(? & ? & ?)|[? ?]]]];
          [left|right; left|right; right; left|right; right; right];
          split; eauto; congruence.
      * intros (d' & Hd' & _ & H). injection Hd' as <-. rewrite Hav in H.
        destruct H as [[? [= ->]]|[[? Hn]|[(? & v & [= ->] & ?)|(? & v & ? & [= ->])]]];
          [left|right; left|right; right; left|right; right; right]; split; eauto; congruence.
    + split; [done|]. intros (d' & _ & Hkn & _). apply Hk in Hkn as [? ?]. done.
Qed.

Lemma matches_rules_all f rs tag :
  matches_rules f MatchAll rs tag = true ↔ ∀ r, r ∈ rs → rule_holds f r tag.
Proof.
  induction rs as [|r rs IH]; simpl; [split; [set_solver|done]|].
  pose proof (matchesRule_spec f r tag) as Hr. destruct (matchesRule f r tag); simpl.
  - rewrite IH. set_solver.
  - split; [done|]. intros H. apply Hr, H. left.
Qed.

Lemma matches_rules_any f rs tag :
  matches_rules f MatchAny rs tag = true ↔ ∃ r, r ∈ rs ∧ rule_holds f r tag.
Proof.
  induction rs as [|r rs IH]; simpl; [set_solver|].
  pose proof (matchesRule_spec f r tag) as Hr. destruct (matchesRule f r tag); simpl.
  - split; [|done]. intros _. exists r. split; [left|by apply Hr].
  - rewrite IH. split; [set_solver|]. intros (r' & [->|Hin]%elem_of_cons & H'); [by apply Hr in H'|eauto].
Qed.

Lemma matches_rules_other f m rs tag :
  m ≠ MatchAll → m ≠ MatchAny → matches_rules f m rs tag = false.
Proof.
  intros H1 H2. induction rs as [|r rs IH]; simpl; by rewrite ?bool_decide_eq_false_2 by done.
Qed.

Lemma matchesFilter_spec f fl tag : matchesFilter f fl tag = true ↔ filter_selects f fl tag.
Proof.
  unfold matchesFilter, filter_selects. destruct (Rules fl) as [|r rs]; [naive_solver|].
  set (l := r :: rs). assert (l ≠ []) as Hl by done.
  case_bool_decide as Hm; [|destruct (decide (Match fl = MatchAll)) as [Ha|Ha];
    [|destruct (decide (Match fl = MatchAny)) as [Hy|Hy]]].
  - rewrite matches_rules_all, Hm. naive_solver.
  - rewrite Ha, matches_rules_all. naive_solver.
  - rewrite Hy, matches_rules_any. naive_solver.
  - rewrite matches_rules_other by done. naive_solver.
Qed.

(** ** Properties *)

Lemma validate_rules_None i rs :
  validate_rules i rs = None → ∀ r, r ∈ rs → ∃ j, validate_rule j r = None.
Proof.
  revert i. induction rs as [|r rs IH]; intros i; simpl; [set_solver|].
  destruct (validate_rule i r) eqn:Hr; [done|]. intros H r' [->|Hr']%elem_of_cons; eauto.
Qed.

Lemma ValidateFilter_rules fl r :
  ValidateFilter fl = None → r ∈ Rules fl →
  validAttr (Attr r) = true ∧
  ((r_Op r ∈ [OpEq; OpNe; OpPrefix] ∧ r_Value r ≠ "") ∨ (r_Op r = OpIn ∧ Values r ≠ [] ∧ "" ∉ Values r)).
Proof.
  unfold ValidateFilter. destruct (negb _); [done|]. destruct (Rules fl) as [|r0 rs]; [done|].
  intros H Hin. destruct (validate_rules_None _ _ H r Hin) as [j Hj]. unfold validate_rule in Hj.
  destruct (validAttr (Attr r)); [|done]. simpl in Hj. split; [done|].
  case_bool_decide as Hop; [left; by case_bool_decide|].
  case_bool_decide as Hin'; [right|done]. destruct (Values r) eqn:Hv; [done|].
  case_bool_decide; naive_solver.
Qed.

(** MatchesFilter is its declarative meaning: an empty filter, an unknown
    match mode, attribute or operator, or an unknown device selects nothing;
    "all" (the default) needs every rule to hold and "any" one of them; a group
    rule tests the whole ancestry.  And a filter that passed ValidateFilter
    cannot match a device through an attribute that is unset, except by "ne". *)
Theorem matchesFilter_meaning f fl tag :
  (matchesFilter f fl tag = true ↔ filter_selects f fl tag) ∧
  (ValidateFilter fl = None → ∀ r, r ∈ Rules fl → r_Op r ≠ OpNe → matchesRule f r tag = true →
    ∃ d v, Devices f !! tag = Some d ∧ has_value f tag d (Attr r) v ∧ v ≠ "").
Proof.
  split; [apply matchesFilter_spec|].
  intros Hv r Hr Hne (d & Hd & _ & H)%matchesRule_spec.
  destruct (ValidateFilter_rules fl r Hv Hr) as [_ Hval]. exists d.
  destruct H as [[Ho ?]|[[Ho ?]|[(Ho & v & ? & ? & ?)|(Ho & v & ? & ?)]]]; [|done|eauto|];
    rewrite Ho in Hval; destruct Hval as [[Hin ?]|(? & ? & ?)]; try done; eauto.
  - by exfalso; set_unfold in Hin; naive_solver.
  - exists v. split_and!; [done..|]. by intros ->.
Qed.
