(* ===== verification/Resolve.v ===== *)
(** * Settings resolution (src/internal/domain/fleet/chain.go, resolve.go)

    A device's scope chain with its specificities, the contributors compiled on
    it (inline settings and assigned policies), and the precedence rule:
    enforced values resolve most general first, the others most specific
    first.  The declarative specification ([contributes], [beats]) does not
    mention the compiled list, and [Resolve] refines it. *)

From S2P Require Import Prelude GoLib FleetModel Groups Filters.

(** ** Provenance *)

Record Source := mkSource { src_Scope : string; src_Policy : string }.

Definition source_string (s : Source) : string :=
  if src_Policy s !=? "" then "policy:" +:+ src_Policy s +:+ "@" +:+ src_Scope s else src_Scope s.

Record Resolution := mkResolution { res_Value : Value; res_Source : Source; res_Enforced : bool }.

(** ** The scope chain *)

Record contributor := mkContributor {
  specificity : Z;
  inline : bool;
  order : Z;
  source : Source;
  settings : Settings;
  enforced : gset string
}.

Definition enforcedSet (l : list string) : gset string := list_to_set l.

(** One iteration of the inner loop of [scopePositions]. *)
Definition add_position (st : gmap string Z * Z) (anc : string) : gmap string Z * Z :=
  match st.1 !! group_ref anc with
  | Some _ => st
  | None => (<[group_ref anc := st.2]> st.1, st.2 + 1)
  end.

Definition scopePositions (f : Fleet) (tag : string) : gmap string Z :=
  let st := foldl (λ st g, foldl add_position st (GroupAncestry f g))
              ({["org" := 0]}, 1) (Groups (dev f tag)) in
  <["device" := st.2]> st.1.

Definition scope_nonempty (s : Scope) : bool :=
  negb (bool_decide (sc_Settings s = ∅)) || negb (bool_decide (sc_Enforced s = [])).

Definition inline_contributor (pos : Z) (scope : string) (s : Scope) : contributor :=
  mkContributor pos true 0 (mkSource scope "") (sc_Settings s) (enforcedSet (sc_Enforced s)).

(** [pos[ref]] of a key the map holds by construction. *)
Definition pos_at (pos : gmap string Z) (ref : string) : Z := default 0 (pos !! ref).

Definition org_contributors (f : Fleet) (pos : gmap string Z) : list contributor :=
  match Org f with
  | None => []
  | Some o => if scope_nonempty o then [inline_contributor (pos_at pos "org") "org" o] else []
  end.

(** One iteration of [for ref, p := range pos]. *)
Definition group_contributor (f : Fleet) (kv : string * Z) : list contributor :=
  match cut_prefix kv.1 "group:" with
  | None => []
  | Some name =>
      let g := grp f name in
      if scope_nonempty (g_scope g) then [inline_contributor kv.2 kv.1 (g_scope g)] else []
  end.

Definition device_contributors (f : Fleet) (pos : gmap string Z) (tag : string) : list contributor :=
  let d := dev f tag in
  if scope_nonempty (d_scope d)
  then [inline_contributor (pos_at pos "device") "device" (d_scope d)] else [].

Definition assignmentPosition (pos : gmap string Z) (target tag : string) : option Z :=
  match scope_of target with
  | ROrg => Some (pos_at pos "org")
  | RGroup _ => pos !! target
  | RDevice t => if t ==? tag then Some (pos_at pos "device") else None
  | RBad => None
  end.

Definition displayScope (target : string) : string :=
  if has_prefix target "device:" then "device" else target.

(** The filter of an assignment lets the device through; a missing one fails closed. *)
Definition filter_passes (f : Fleet) (filter tag : string) : bool :=
  if filter !=? "" then
    match Filters f !! filter with None => false | Some fl => matchesFilter f fl tag end
  else true.

(** One iteration of the loop over the assignments. *)
Definition policy_contributor (f : Fleet) (pos : gmap string Z) (tag : string)
    (i : nat) (a : Assignment) : list contributor :=
  match Policies f !! a_Policy a with
  | None => []
  | Some p =>
      match assignmentPosition pos (Target a) tag with
      | None => []
      | Some spec =>
          if filter_passes f (a_Filter a) tag then
            [mkContributor spec false (Z.of_nat i) (mkSource (displayScope (Target a)) (a_Policy a))
               (p_Settings p) (enforcedSet (p_Enforced p))]
          else []
      end
  end.

(** The list [l] with its indices. *)
Definition indexed {A} (l : list A) : list (nat * A) := imap pair l.

Definition chainFor (f : Fleet) (tag : string) : list contributor :=
  let pos := scopePositions f tag in
  org_contributors f pos ++
  (kv ← map_to_list pos; group_contributor f kv) ++
  device_contributors f pos tag ++
  (ia ← indexed (Assignments f); policy_contributor f pos tag ia.1 ia.2).

(** ** The precedence rule *)

Definition better (wantGeneral : bool) (a b : contributor) : bool :=
  if specificity a !=? specificity b then
    if wantGeneral then specificity a <? specificity b else specificity b <? specificity a
  else if negb (eqb (inline a) (inline b)) then inline a
  else order a <? order b.

Definition sets_key (key : string) (c : contributor) : bool :=
  match settings c !! key with Some _ => true | None => false end.
Definition locks_key (key : string) (c : contributor) : bool :=
  sets_key key c && (key ∈? enforced c).

(** The loop that keeps the best contributor satisfying [p]. *)
Definition pick (p : contributor → bool) (wantGeneral : bool) (chain : list contributor)
    : option contributor :=
  foldl (λ best c,
    if p c then
      match best with
      | None => Some c
      | Some b => if better wantGeneral c b then Some c else best
      end
    else best) None chain.

Definition resolution_of (key : string) (locked : bool) (c : contributor) : Resolution :=
  mkResolution (default VNull (settings c !! key)) (source c) locked.

Definition resolveKey (chain : list contributor) (key : string) : Resolution :=
  match pick (locks_key key) true chain with
  | Some c => resolution_of key true c
  | None =>
      match pick (sets_key key) false chain with
      | Some c => resolution_of key false c
      | None => mkResolution VNull (mkSource "" "") false
      end
  end.

(** The keys some contributor sets. *)
Definition chain_keys (chain : list contributor) : gset string :=
  ⋃ ((λ c, dom (settings c)) <$> chain).

Definition Resolve (f : Fleet) (tag : string) : gmap string Resolution :=
  let chain := chainFor f tag in set_to_map (λ k, (k, resolveKey chain k)) (chain_keys chain).

Definition ResolveValues (f : Fleet) (tag : string) : gmap string Value :=
  res_Value <$> Resolve f tag.

Definition ResolveSorted (f : Fleet) (tag : string) : list (string * Resolution) :=
  let m := Resolve f tag in
  k ← sorted_keys m; match m !! k with Some r => [(k, r)] | None => [] end.

(** ** Assignments on a device *)

Definition AssignmentDevices (f : Fleet) (a : Assignment) : list string :=
  keys_where (λ tag d,
    negb (Retired d)
    && (match assignmentPosition (scopePositions f tag) (Target a) tag with
        | Some _ => true | None => false end)
    && filter_passes f (a_Filter a) tag) (Devices f).

(** ** Positions: the scope order of a device *)

(** First occurrences, in order. *)
Definition add_new (l : list string) (a : string) : list string := if a ∈? l then l else l ++ [a].

(** The groups on a device's chain, most general first. *)
Definition scope_order (f : Fleet) (tag : string) : list string :=
  foldl add_new [] (expanded_groups f (dev f tag)).

Lemma elem_of_add_new l a x : x ∈ add_new l a ↔ x ∈ l ∨ x = a.
Proof.
  unfold add_new. case_bool_decide; [naive_solver|].
  rewrite elem_of_app, list_elem_of_singleton. done.
Qed.

Lemma elem_of_fold_add_new l acc x : x ∈ foldl add_new acc l ↔ x ∈ acc ∨ x ∈ l.
Proof.
  revert acc. induction l as [|a l IH]; intros acc; simpl; [set_solver|].
  rewrite IH, elem_of_add_new. set_solver.
Qed.

Lemma NoDup_fold_add_new l acc : NoDup acc → NoDup (foldl add_new acc l).
Proof.
  revert acc. induction l as [|a l IH]; intros acc H; simpl; [done|].
  apply IH. unfold add_new. case_bool_decide; [done|].
  apply NoDup_app. split_and!; [done|set_solver|apply NoDup_singleton].
Qed.

Lemma elem_of_scope_order f tag a : a ∈ scope_order f tag ↔ reaches f (Groups (dev f tag)) a.
Proof.
  unfold scope_order. rewrite elem_of_fold_add_new, elem_of_expanded_groups. set_solver.
Qed.

Lemma scope_order_nodup f tag : NoDup (scope_order f tag).
Proof. apply NoDup_fold_add_new. constructor. Qed.

(** The map built by the loops: the organisation at 0, the i-th group of the
    order at i+1. *)
Definition positions_for (l : list string) (st : gmap string Z * Z) : Prop :=
  st.2 = 1 + Z.of_nat (length l) ∧
  st.1 !! "org" = Some 0 ∧
  (∀ i a, l !! i = Some a → st.1 !! group_ref a = Some (1 + Z.of_nat i)) ∧
  (∀ ref p, st.1 !! ref = Some p → ref = "org" ∨ ∃ a, ref = group_ref a ∧ a ∈ l).

Lemma add_position_spec l st a :
  positions_for l st → positions_for (add_new l a) (add_position st a).
Proof.
  intros (Hn & Ho & Hl & Hk). unfold add_position, add_new.
  destruct (st.1 !! group_ref a) as [p|] eqn:Hp.
  - rewrite bool_decide_eq_true_2; [done|].
    destruct (Hk _ _ Hp) as [He|(b & Hb & ?)]; [done|]. by apply group_ref_inj in Hb as ->.
  - assert (a ∉ l) as Hni.
    { intros [i Hi]%list_elem_of_lookup. rewrite (Hl i a Hi) in Hp. done. }
    rewrite bool_decide_eq_false_2 by done. unfold positions_for. simpl. split_and!.
    + rewrite length_app. simpl. lia.
    + by rewrite lookup_insert_ne.
    + intros i b [Hi|[Hi [Hi0 ->]%list_lookup_singleton_Some]]%lookup_app_Some.
      * rewrite lookup_insert_ne; [by apply Hl|]. intros ->%group_ref_inj.
        apply Hni. by eapply list_elem_of_lookup_2.
      * rewrite lookup_insert_eq. f_equal. lia.
    + intros ref p H. destruct (decide (ref = group_ref a)) as [->|Hne].
      * right. exists a. split; [done|set_solver].
      * rewrite lookup_insert_ne in H by done.
        destruct (Hk ref p H) as [?|(b & ? & ?)]; [by left|right; exists b; set_solver].
Qed.

Lemma fold_positions f tag :
  positions_for (scope_order f tag)
    (foldl (λ st g, foldl add_position st (GroupAncestry f g)) ({["org" := 0]}, 1)
       (Groups (dev f tag))).
Proof.
  unfold scope_order, expanded_groups.
  assert (H0 : positions_for [] ({["org" := 0]}, 1)).
  { unfold positions_for. simpl. split_and!; [done|done|by intros|].
    intros ref p [<- _]%lookup_singleton_Some. by left. }
  revert H0. generalize (@nil string) ({["org" := 0]} : gmap string Z, 1).
  induction (Groups (dev f tag)) as [|g gs IH]; intros l st H; [done|].
  simpl. rewrite foldl_app. apply IH. clear IH.
  revert l st H. induction (GroupAncestry f g) as [|a r IH]; intros l st H; simpl; [done|].
  apply IH. by apply add_position_spec.
Qed.

Lemma org_pos f tag : scopePositions f tag !! "org" = Some 0.
Proof.
  unfold scopePositions. destruct (fold_positions f tag) as (_ & Ho & _).
  by rewrite lookup_insert_ne.
Qed.

Lemma device_pos f tag :
  scopePositions f tag !! "device" = Some (1 + Z.of_nat (length (scope_order f tag))).
Proof.
  unfold scopePositions. destruct (fold_positions f tag) as (Hn & _).
  by rewrite lookup_insert_eq, Hn.
Qed.

Lemma group_pos f tag a i :
  scope_order f tag !! i = Some a ↔ scopePositions f tag !! group_ref a = Some (1 + Z.of_nat i).
Proof.
  unfold scopePositions. destruct (fold_positions f tag) as (_ & _ & Hl & Hk).
  rewrite lookup_insert_ne by done. split; [apply Hl|].
  intros Hp. destruct (Hk _ _ Hp) as [?|(b & Hb & Hin)]; [done|].
  apply group_ref_inj in Hb as <-. apply list_elem_of_lookup in Hin as [j Hj].
  rewrite (Hl j a Hj) in Hp. injection Hp as Hp. assert (j = i) as <- by lia. done.
Qed.

Lemma group_pos_inv f tag a p :
  scopePositions f tag !! group_ref a = Some p →
  ∃ i, scope_order f tag !! i = Some a ∧ p = 1 + Z.of_nat i.
Proof.
  intros Hp. pose proof Hp as Hp'. unfold scopePositions in Hp.
  destruct (fold_positions f tag) as (_ & _ & Hl & Hk).
  rewrite lookup_insert_ne in Hp by done.
  destruct (Hk _ _ Hp) as [?|(b & Hb & Hin)]; [done|].
  apply group_ref_inj in Hb as <-. apply list_elem_of_lookup in Hin as [j Hj].
  exists j. split; [done|]. apply group_pos in Hj. congruence.
Qed.

Lemma group_pos_None f tag a :
  scopePositions f tag !! group_ref a = None ↔ ¬ reaches f (Groups (dev f tag)) a.
Proof.
  rewrite <- elem_of_scope_order. split.
  - intros Hn [i Hi]%list_elem_of_lookup. apply group_pos in Hi. congruence.
  - intros Hn. destruct (scopePositions f tag !! group_ref a) as [p|] eqn:Hp; [|done].
    apply group_pos_inv in Hp as (i & Hi & _). destruct Hn. by eapply list_elem_of_lookup_2.
Qed.

(** Nothing else is a key. *)
Lemma pos_keys f tag ref p :
  scopePositions f tag !! ref = Some p →
  ref = "org" ∨ ref = "device" ∨ ∃ a, ref = group_ref a.
Proof.
  unfold scopePositions. destruct (fold_positions f tag) as (_ & _ & _ & Hk).
  destruct (decide (ref = "device")) as [->|]; [by eauto|].
  rewrite lookup_insert_ne by done. intros H. destruct (Hk _ _ H) as [?|(a & ? & _)]; eauto.
Qed.

(** In an acyclic document a group is less general than its parent: specificity
    follows the tree. *)
Lemma fold_add_new_parents f l acc :
  acyclic (f_Groups f) →
  (∀ i a p, acc !! i = Some a → link (f_Groups f) a p → ∃ j, (j < i)%nat ∧ acc !! j = Some p) →
  (∀ i a p, l !! i = Some a → link (f_Groups f) a p →
     p ∈ acc ∨ ∃ j, (j < i)%nat ∧ l !! j = Some p) →
  ∀ i a p, foldl add_new acc l !! i = Some a → link (f_Groups f) a p →
    ∃ j, (j < i)%nat ∧ foldl add_new acc l !! j = Some p.
Proof.
  intros Hac. revert acc. induction l as [|b l IH]; intros acc Hacc Hl; simpl; [done|].
  apply IH.
  - intros i a p Hi Hap. unfold add_new in *. case_bool_decide as Hb; [by apply (Hacc i a)|].
    apply lookup_app_Some in Hi as [Hi|[Hi [? ->]%list_lookup_singleton_Some]].
    + destruct (Hacc i a p Hi Hap) as (j & ? & Hj). exists j. split; [done|].
      by apply lookup_app_l_Some.
    + destruct (Hl 0%nat a p eq_refl Hap) as [Hp|(j & ? & _)]; [|lia].
      apply list_elem_of_lookup in Hp as [j Hj]. exists j.
      split; [apply lookup_lt_Some in Hj; lia|]. by apply lookup_app_l_Some.
  - intros i a p Hi Hap. destruct (Hl (S i) a p Hi Hap) as [Hp|(j & Hj & Hlj)].
    + left. apply elem_of_add_new. by left.
    + destruct j as [|j].
      * simpl in Hlj. injection Hlj as ->. left. apply elem_of_add_new. by right.
      * right. exists j. split; [lia|done].
Qed.

(** Parents stand before their children in a chain. *)
Lemma ancestry_head_root gs g a l p :
  acyclic gs → ancestry gs g = a :: l → ¬ link gs a p.
Proof.
  intros Hac Hl Hap. destruct (ancestry_head gs g a l Hl) as (grp & Hg & Hcase).
  pose proof Hap as (Hane & Hp & Hpe & grp' & Hg' & <-). rewrite Hg in Hg'. injection Hg' as <-.
  destruct Hcase as [?|[Hn|Hin]]; [done|rewrite Hn in Hpe; by destruct Hpe|].
  rewrite <- Hl in Hin. destruct (ancestry_prefix gs g _ Hac Hin) as [k Hk].
  destruct (ancestry gs (Parent grp)) as [|h' l'] eqn:Hpl; [by apply ancestry_not_nil in Hpl|].
  rewrite Hl in Hk. simpl in Hk. injection Hk as <- _.
  assert (a ∈ ancestry gs (Parent grp)) as (_ & _ & Hr)%elem_of_ancestry by (rewrite Hpl; left).
  apply (Hac a). eapply tc_rtc_r; [by apply tc_once|done].
Qed.

Lemma ancestry_parent_before gs g i a p :
  acyclic gs → ancestry gs g !! i = Some a → link gs a p →
  ∃ j, (j < i)%nat ∧ ancestry gs g !! j = Some p.
Proof.
  intros Hac Hi Hap. destruct i as [|i].
  - destruct (ancestry gs g) as [|h l] eqn:Hl; [done|]. simpl in Hi. injection Hi as ->.
    destruct (ancestry_head_root gs g a l p Hac Hl Hap).
  - destruct (ancestry gs g !! i) as [q|] eqn:Hq;
      [|apply lookup_lt_Some in Hi; apply lookup_ge_None in Hq; lia].
    assert (link gs a q) as Hlink.
    { apply (ancestry_linked gs g (take i (ancestry gs g)) q a (drop (S (S i)) (ancestry gs g))).
      rewrite <- (take_drop_middle _ _ _ Hq) at 1. f_equal. f_equal. by rewrite (drop_S _ a). }
    exists i. split; [lia|].
    destruct Hap as (_ & _ & _ & ? & ? & <-), Hlink as (_ & _ & _ & ? & ? & <-). congruence.
Qed.

Lemma expanded_parent_before f gs i a p :
  acyclic (f_Groups f) →
  (g ← gs; GroupAncestry f g) !! i = Some a → link (f_Groups f) a p →
  ∃ j, (j < i)%nat ∧ (g ← gs; GroupAncestry f g) !! j = Some p.
Proof.
  intros Hac. revert i. induction gs as [|g gs IH]; intros i Hi Hap; [done|]. simpl in *.
  apply lookup_app_Some in Hi as [Hi|[Hle Hi]].
  - destruct (ancestry_parent_before _ _ _ _ _ Hac Hi Hap) as (j & ? & ?).
    exists j. split; [done|]. by apply lookup_app_l_Some.
  - destruct (IH _ Hi Hap) as (j & ? & ?). exists (length (GroupAncestry f g) + j)%nat.
    split; [lia|]. rewrite lookup_app_r by lia. by rewrite Nat.add_comm, Nat.add_sub.
Qed.

Lemma scope_order_parents f tag i a p :
  acyclic (f_Groups f) → scope_order f tag !! i = Some a → link (f_Groups f) a p →
  ∃ j, (j < i)%nat ∧ scope_order f tag !! j = Some p.
Proof.
  intros Hac. unfold scope_order. apply fold_add_new_parents; [done|done|].
  intros k b q Hk Hbq. right. by eapply expanded_parent_before.
Qed.

(** ** The declarative specification of the chain *)

(** [target_position f tag ref s]: an assignment target on the device's chain. *)
Inductive target_position (f : Fleet) (tag : string) : string → Z → Prop :=
  | target_org : target_position f tag "org" 0
  | target_group i a : scope_order f tag !! i = Some a →
      target_position f tag (group_ref a) (1 + Z.of_nat i)
  | target_device : target_position f tag (device_ref tag) (1 + Z.of_nat (length (scope_order f tag))).

Definition filter_ok (f : Fleet) (filter tag : string) : Prop :=
  filter = "" ∨ ∃ fl, Filters f !! filter = Some fl ∧ filter_selects f fl tag.

(** Who contributes values to a device, and from which specificity. *)
Inductive contributes (f : Fleet) (tag : string) : contributor → Prop :=
  | contrib_org o :
      Org f = Some o → scope_nonempty o = true →
      contributes f tag (inline_contributor 0 "org" o)
  | contrib_group i a :
      scope_order f tag !! i = Some a → scope_nonempty (g_scope (grp f a)) = true →
      contributes f tag (inline_contributor (1 + Z.of_nat i) (group_ref a) (g_scope (grp f a)))
  | contrib_device :
      scope_nonempty (d_scope (dev f tag)) = true →
      contributes f tag (inline_contributor (1 + Z.of_nat (length (scope_order f tag))) "device"
                           (d_scope (dev f tag)))
  | contrib_policy i a p s :
      Assignments f !! i = Some a → Policies f !! a_Policy a = Some p →
      target_position f tag (Target a) s → filter_ok f (a_Filter a) tag →
      contributes f tag
        (mkContributor s false (Z.of_nat i) (mkSource (displayScope (Target a)) (a_Policy a))
           (p_Settings p) (enforcedSet (p_Enforced p))).

Lemma filter_passes_spec f filter tag : filter_passes f filter tag = true ↔ filter_ok f filter tag.
Proof.
  unfold filter_passes, filter_ok. case_bool_decide as He; simpl; [by split; [left|]|].
  destruct (Filters f !! filter) as [fl|]; [|by split; [|intros [?|(? & ? & _)]]].
  rewrite matchesFilter_spec. split; [intros H; right; eauto|].
  intros [?|(fl' & [= <-] & ?)]; done.
Qed.

Lemma assignmentPosition_spec f tag target s :
  assignmentPosition (scopePositions f tag) target tag = Some s ↔ target_position f tag target s.
Proof.
  unfold assignmentPosition, pos_at. rewrite org_pos, device_pos. simpl.
  pose proof (scope_of_spec target) as Hs. split.
  - destruct (scope_of target) as [|a|t|]; [subst; intros [= <-]; constructor| | |done].
    + subst. intros (i & ? & ->)%group_pos_inv. by constructor.
    + case_bool_decide; [subst|done]. intros [= <-]. constructor.
  - destruct 1 as [|i a Hi|].
    + done.
    + rewrite scope_of_group. by apply group_pos.
    + rewrite scope_of_device. by rewrite bool_decide_eq_true_2.
Qed.

Lemma elem_of_indexed {A} (l : list A) i a : (i, a) ∈ indexed l ↔ l !! i = Some a.
Proof.
  unfold indexed. rewrite elem_of_lookup_imap. split.
  - intros (j & b & [= -> ->] & H). done.
  - intros H. by exists i, a.
Qed.

Lemma elem_of_chainFor f tag c : c ∈ chainFor f tag ↔ contributes f tag c.
Proof.
  unfold chainFor. rewrite !elem_of_app, !list_elem_of_bind. split.
  - intros [H|[([ref p] & H & Hk%elem_of_map_to_list)|[H|([i a] & H & Hi%elem_of_indexed)]]].
    + unfold org_contributors, pos_at in H. rewrite org_pos in H.
      destruct (Org f) as [o|] eqn:Ho; [|by apply elem_of_nil in H].
      destruct (scope_nonempty o) eqn:Hne; [|by apply elem_of_nil in H].
      apply list_elem_of_singleton in H as ->. by constructor.
    + unfold group_contributor in H. cbn [fst snd] in H.
      destruct (cut_prefix _ _) as [a|] eqn:Hc; [|by apply elem_of_nil in H].
      apply cut_prefix_Some in Hc as ->.
      destruct (scope_nonempty _) eqn:Hne; [|by apply elem_of_nil in H].
      apply list_elem_of_singleton in H as ->.
      apply group_pos_inv in Hk as (i & Hi & ->). by apply contrib_group.
    + unfold device_contributors, pos_at in H. rewrite device_pos in H.
      destruct (scope_nonempty _) eqn:Hne; [|by apply elem_of_nil in H].
      apply list_elem_of_singleton in H as ->. by constructor.
    + unfold policy_contributor in H. simpl in H.
      destruct (Policies f !! a_Policy a) as [p|] eqn:Hp; [|by apply elem_of_nil in H].
      destruct (assignmentPosition _ _ _) as [s|] eqn:Hs; [|by apply elem_of_nil in H].
      destruct (filter_passes _ _ _) eqn:Hf; [|by apply elem_of_nil in H].
      apply list_elem_of_singleton in H as ->.
      apply assignmentPosition_spec in Hs. apply filter_passes_spec in Hf.
      by eapply contrib_policy.
  - destruct 1 as [o Ho Hne|i a Hi Hne|Hne|i a p s Hi Hp Hs Hf].
    + left. unfold org_contributors, pos_at. rewrite org_pos, Ho, Hne. by left.
    + right. left. exists (group_ref a, 1 + Z.of_nat i). split.
      * unfold group_contributor. cbn [fst snd]. rewrite cut_group_ref, Hne. by left.
      * apply elem_of_map_to_list. by apply group_pos.
    + right. right. left. unfold device_contributors, pos_at. rewrite device_pos, Hne. by left.
    + right. right. right. exists (i, a). split; [|by apply elem_of_indexed].
      unfold policy_contributor. simpl. rewrite Hp.
      apply assignmentPosition_spec in Hs. rewrite Hs.
      apply filter_passes_spec in Hf. rewrite Hf. by left.
Qed.

(** ** The precedence order *)

Lemma better_spec g a b :
  better g a b = true ↔
  (if g then specificity a < specificity b else specificity b < specificity a) ∨
  (specificity a = specificity b ∧
   ((inline a = true ∧ inline b = false) ∨ (inline a = inline b ∧ order a < order b))).
Proof.
  unfold better. case_bool_decide as Hs; simpl.
  - rewrite Hs. destruct (inline a), (inline b); simpl; rewrite ?Z.ltb_lt; destruct g; naive_solver lia.
  - destruct g; rewrite Z.ltb_lt; naive_solver lia.
Qed.

Lemma better_irrefl g a : better g a a = false.
Proof.
  destruct (better g a a) eqn:H; [|done]. apply better_spec in H.
  destruct g, (inline a); naive_solver lia.
Qed.

Lemma better_trans g a b c : better g a b = true → better g b c = true → better g a c = true.
Proof.
  rewrite !better_spec. destruct g, (inline a), (inline b), (inline c); naive_solver lia.
Qed.

Lemma better_total g a b :
  better g a b = false → better g b a = false →
  specificity a = specificity b ∧ inline a = inline b ∧ order a = order b.
Proof.
  unfold better. destruct (decide (specificity a = specificity b)) as [Hs|Hs].
  - rewrite !bool_decide_eq_true_2 by done. simpl.
    destruct (inline a), (inline b); simpl; try done; intros H1 H2; apply Z.ltb_ge in H1, H2; lia.
  - rewrite !bool_decide_eq_false_2 by done. simpl.
    destruct g; intros H1 H2; apply Z.ltb_ge in H1, H2; lia.
Qed.

(** No two contributors of a device share specificity, kind and order: the
    precedence rule never has to choose between equals. *)
Lemma contributes_distinct f tag a b :
  contributes f tag a → contributes f tag b →
  specificity a = specificity b → inline a = inline b → order a = order b → a = b.
Proof.
  assert (Hlen : ∀ i x, scope_order f tag !! i = Some x → (i < length (scope_order f tag))%nat)
    by (intros; by eapply lookup_lt_Some).
  destruct 1 as [o Ho _|i x Hi _|_|i x p s Hi Hp Hs _];
    destruct 1 as [o' Ho' _|j y Hj _|_|j y q s' Hj Hq Hs' _]; simpl; intros Hsp Hin Hor;
    try done; try (pose proof (Hlen _ _ Hi)); try (pose proof (Hlen _ _ Hj)); try lia.
  - congruence.
  - assert (i = j) as -> by lia. simplify_eq. done.
  - assert (i = j) as -> by lia. simplify_eq. done.
Qed.

(** The best of a set of contributors. *)
Definition best_of (P : contributor → Prop) (g : bool) (c : contributor) : Prop :=
  P c ∧ ∀ c', P c' → c' = c ∨ better g c c' = true.

Lemma best_of_unique P g c c' : best_of P g c → best_of P g c' → c = c'.
Proof.
  intros [Hc H] [Hc' H']. destruct (H c' Hc') as [|H1]; [done|].
  destruct (H' c Hc) as [|H2]; [done|].
  pose proof (better_trans _ _ _ _ H1 H2) as Hb. by rewrite better_irrefl in Hb.
Qed.

Lemma best_of_ext P Q g c : (∀ c, P c ↔ Q c) → best_of P g c ↔ best_of Q g c.
Proof. intros H. unfold best_of. by setoid_rewrite H. Qed.

(** The loop keeps the best of the elements it has seen. *)
Lemma pick_spec p g l :
  (∀ a b, a ∈ l → b ∈ l → specificity a = specificity b → inline a = inline b →
     order a = order b → a = b) →
  match pick p g l with
  | Some c => best_of (λ c, c ∈ l ∧ p c = true) g c
  | None => ∀ c, c ∈ l → p c = false
  end.
Proof.
  intros Hd. unfold pick. induction l as [|x l IH] using rev_ind;
    [intros c Hc; by apply elem_of_nil in Hc|].
  rewrite foldl_app. simpl. set (r := foldl _ None l) in *.
  assert (Hsub : ∀ c, c ∈ l → c ∈ l ++ [x]) by (intros; apply elem_of_app; by left).
  assert (Hx : x ∈ l ++ [x]) by (apply elem_of_app; right; left).
  assert (Hinv : ∀ c, c ∈ l ++ [x] → c ∈ l ∨ c = x).
  { intros c [?|?%list_elem_of_singleton]%elem_of_app; auto. }
  specialize (IH (λ a b Ha Hb, Hd a b (Hsub a Ha) (Hsub b Hb))).
  destruct (p x) eqn:Hpx; destruct r as [b|].
  - destruct IH as [[Hb Hpb] Hbest]. destruct (better g x b) eqn:Hxb; (split; [by auto|]).
    + intros c [[Hc| ->]%Hinv Hpc]; [|by left]. right.
      destruct (Hbest c (conj Hc Hpc)) as [->|?]; [done|by eapply better_trans].
    + intros c [[Hc| ->]%Hinv Hpc]; [by apply Hbest|].
      destruct (better g b x) eqn:Hbx; [by right|left].
      destruct (better_total g x b Hxb Hbx) as (? & ? & ?). by apply Hd; auto.
  - split; [by auto|]. intros c [[Hc| ->]%Hinv Hpc]; [by rewrite IH in Hpc|by left].
  - destruct IH as [[Hb Hpb] Hbest]. split; [by auto|].
    intros c [[Hc| ->]%Hinv Hpc]; [by apply Hbest|congruence].
  - intros c [Hc| ->]%Hinv; [by apply IH|done].
Qed.

(** ** The declarative resolution *)

Definition is_setter (f : Fleet) (tag key : string) (c : contributor) : Prop :=
  contributes f tag c ∧ is_Some (settings c !! key).
Definition is_locker (f : Fleet) (tag key : string) (c : contributor) : Prop :=
  is_setter f tag key c ∧ key ∈ enforced c.

(** A locked key takes the most general locker's value, the others the most
    specific setter's. *)
Inductive resolves (f : Fleet) (tag key : string) : Resolution → Prop :=
  | resolves_locked c v :
      best_of (is_locker f tag key) true c → settings c !! key = Some v →
      resolves f tag key (mkResolution v (source c) true)
  | resolves_default c v :
      (∀ c', ¬ is_locker f tag key c') →
      best_of (is_setter f tag key) false c → settings c !! key = Some v →
      resolves f tag key (mkResolution v (source c) false).

Lemma sets_key_spec key c : sets_key key c = true ↔ is_Some (settings c !! key).
Proof. unfold sets_key. destruct (settings c !! key); naive_solver. Qed.

Lemma locks_key_spec key c :
  locks_key key c = true ↔ is_Some (settings c !! key) ∧ key ∈ enforced c.
Proof. unfold locks_key. by rewrite andb_true_iff, sets_key_spec, bool_decide_eq_true. Qed.

Lemma chain_setter f tag key c :
  c ∈ chainFor f tag ∧ sets_key key c = true ↔ is_setter f tag key c.
Proof. by rewrite elem_of_chainFor, sets_key_spec. Qed.

Lemma chain_locker f tag key c :
  c ∈ chainFor f tag ∧ locks_key key c = true ↔ is_locker f tag key c.
Proof. rewrite elem_of_chainFor, locks_key_spec. unfold is_locker, is_setter. tauto. Qed.

Lemma chain_distinct f tag a b :
  a ∈ chainFor f tag → b ∈ chainFor f tag →
  specificity a = specificity b → inline a = inline b → order a = order b → a = b.
Proof. rewrite !elem_of_chainFor. apply contributes_distinct. Qed.

Lemma pick_best p g f tag chain :
  chain ≡ₚ chainFor f tag →
  match pick p g chain with
  | Some c => best_of (λ c, c ∈ chainFor f tag ∧ p c = true) g c
  | None => ∀ c, c ∈ chainFor f tag → p c = false
  end.
Proof.
  intros Hp. pose proof (pick_spec p g chain) as Hs.
  assert (∀ a b, a ∈ chain → b ∈ chain → specificity a = specificity b → inline a = inline b →
    order a = order b → a = b) as Hd.
  { intros a b Ha Hb. rewrite Hp in Ha, Hb. by apply (chain_distinct f tag). }
  specialize (Hs Hd). destruct (pick p g chain).
  - apply (best_of_ext (λ c, c ∈ chain ∧ p c = true)); [|exact Hs]. intros c'. by rewrite Hp.
  - intros c. rewrite <- Hp. apply Hs.
Qed.

(** Whatever order the map range delivers the contributors in. *)
Lemma resolveKey_perm f tag key chain r :
  chain ≡ₚ chainFor f tag → (∃ c, is_setter f tag key c) →
  resolveKey chain key = r ↔ resolves f tag key r.
Proof.
  intros Hp Hex. unfold resolveKey.
  pose proof (pick_best (locks_key key) true f tag chain Hp) as Hl.
  pose proof (pick_best (sets_key key) false f tag chain Hp) as Hs.
  destruct (pick (locks_key key) true chain) as [c|].
  { apply (best_of_ext _ _ _ _ (chain_locker f tag key)) in Hl.
    pose proof Hl as [[[_ [v Hv]] _] _]. unfold resolution_of. rewrite Hv. simpl. split.
    - intros <-. by constructor.
    - destruct 1 as [c' v' Hc' Hv'|c' v' Hno _ _]; [|destruct (Hno c), Hl as [[]]; done].
      assert (c' = c) as -> by (by eapply best_of_unique). congruence. }
  assert (Hno : ∀ c, ¬ is_locker f tag key c).
  { intros c [Hc Hk]%chain_locker. by rewrite (Hl c Hc) in Hk. }
  destruct (pick (sets_key key) false chain) as [c|].
  - apply (best_of_ext _ _ _ _ (chain_setter f tag key)) in Hs.
    pose proof Hs as [[_ [v Hv]] _]. unfold resolution_of. rewrite Hv. simpl. split.
    + intros <-. by eapply resolves_default.
    + destruct 1 as [c' v' [Hc' _] Hv'|c' v' _ Hc' Hv']; [by destruct (Hno c')|].
      assert (c' = c) as -> by (by eapply best_of_unique). congruence.
  - destruct Hex as [c [Hc Hk]%chain_setter]. by rewrite (Hs c Hc) in Hk.
Qed.

Lemma elem_of_chain_keys f tag key :
  key ∈ chain_keys (chainFor f tag) ↔ ∃ c, is_setter f tag key c.
Proof.
  unfold chain_keys. rewrite elem_of_union_list. split.
  - intros (X & (c & -> & Hc)%list_elem_of_fmap & Hk). exists c.
    apply elem_of_chainFor in Hc. split; [done|]. by apply elem_of_dom in Hk.
  - intros (c & Hc & Hk). exists (dom (settings c)). split.
    + apply list_elem_of_fmap. exists c. split; [done|by apply elem_of_chainFor].
    + by apply elem_of_dom.
Qed.

Lemma lookup_Resolve f tag key :
  Resolve f tag !! key =
  if key ∈? chain_keys (chainFor f tag) then Some (resolveKey (chainFor f tag) key) else None.
Proof.
  unfold Resolve. case_bool_decide as Hk.
  - apply lookup_set_to_map; [by intros ?? _ _ [= ->]|]. exists key. done.
  - apply eq_None_not_Some. intros [r (k & Hin & Heq)%lookup_set_to_map]; [|by intros ?? _ _ [= ->]].
    by injection Heq as -> _.
Qed.

Lemma Resolve_Some f tag key r : Resolve f tag !! key = Some r ↔ resolves f tag key r.
Proof.
  rewrite lookup_Resolve. case_bool_decide as Hk; rewrite elem_of_chain_keys in Hk.
  - rewrite <- (resolveKey_perm f tag key (chainFor f tag)) by done. naive_solver.
  - split; [done|]. intros Hr. exfalso. apply Hk.
    destruct Hr as [c v [[Hc _] _] _|c v _ [Hc _] _]; eauto.
Qed.

Lemma Resolve_None f tag key : Resolve f tag !! key = None ↔ ∀ c, ¬ is_setter f tag key c.
Proof.
  rewrite lookup_Resolve. case_bool_decide as Hk; rewrite elem_of_chain_keys in Hk.
  - split; [done|]. intros H. destruct Hk as [c Hc]. by destruct (H c).
  - split; [|done]. intros _ c Hc. apply Hk. eauto.
Qed.

(** ** What resolution depends on *)

Lemma best_of_ext_iff (P Q : contributor → Prop) g :
  (∀ c, P c ↔ Q c) → ∀ c, best_of P g c → best_of Q g c.
Proof. intros H c. by apply best_of_ext. Qed.

Lemma resolves_ext f f' tag key r :
  (∀ c, contributes f tag c ↔ contributes f' tag c) → resolves f tag key r → resolves f' tag key r.
Proof.
  intros H.
  assert (Hs : ∀ c, is_setter f tag key c ↔ is_setter f' tag key c)
    by (intros c; unfold is_setter; by rewrite H).
  assert (Hl : ∀ c, is_locker f tag key c ↔ is_locker f' tag key c)
    by (intros c; unfold is_locker; by rewrite Hs).
  destruct 1 as [c v Hc Hv|c v Hno Hc Hv].
  - apply resolves_locked; [|done]. by apply (best_of_ext_iff _ _ _ Hl).
  - apply resolves_default; [|by apply (best_of_ext_iff _ _ _ Hs)|done].
    intros c'. by rewrite <- Hl.
Qed.

Lemma Resolve_ext f f' tag :
  (∀ c, contributes f tag c ↔ contributes f' tag c) → Resolve f tag = Resolve f' tag.
Proof.
  intros H. apply map_eq. intros key. apply option_eq. intros r.
  rewrite !Resolve_Some. split; apply resolves_ext; [done|]. intros c. by rewrite H.
Qed.

(** What a device's chain reads of the document. *)
Record same_chain (f f' : Fleet) (tag : string) : Prop := {
  sc_org : Org f = Org f';
  sc_order : scope_order f tag = scope_order f' tag;
  sc_groups : ∀ a, a ∈ scope_order f tag → g_scope (grp f a) = g_scope (grp f' a);
  sc_device : d_scope (dev f tag) = d_scope (dev f' tag);
  sc_assignments : Assignments f = Assignments f';
  sc_policies : Policies f = Policies f';
  sc_filters : ∀ fl, filter_ok f fl tag → filter_ok f' fl tag
}.

Lemma target_position_order f f' tag ref s :
  scope_order f tag = scope_order f' tag → target_position f tag ref s → target_position f' tag ref s.
Proof.
  intros Ho. destruct 1 as [|i a Hi|]; rewrite ?Ho; constructor. by rewrite <- Ho.
Qed.

Lemma contributes_same f f' tag c :
  same_chain f f' tag → contributes f tag c → contributes f' tag c.
Proof.
  intros [Ho Hord Hg Hd Ha Hp Hf].
  destruct 1 as [o Hor Hne|i a Hi Hne|Hne|i a p s Hi Hpo Hs Hfl].
  - rewrite Ho in Hor. by constructor.
  - assert (a ∈ scope_order f tag) as Hin by (by eapply list_elem_of_lookup_2).
    rewrite (Hg a Hin) in *. rewrite Hord in Hi. by constructor.
  - rewrite Hd, Hord in *. by constructor.
  - eapply contrib_policy; [by rewrite <- Ha|by rewrite <- Hp| |by apply Hf].
    by eapply target_position_order.
Qed.

Lemma rule_holds_ext f f' r tag d d' :
  Devices f !! tag = Some d → Devices f' !! tag = Some d' →
  (∀ attr, attr_value tag d attr = attr_value tag d' attr) →
  (∀ a, reaches f (Groups d) a ↔ reaches f' (Groups d') a) →
  rule_holds f r tag → rule_holds f' r tag.
Proof.
  intros Hd Hd' Hattr Hr (d0 & Hd0 & Hk & H). rewrite Hd in Hd0. injection Hd0 as <-.
  exists d'. split; [done|]. split; [done|].
  assert (Hv : ∀ v, has_value f tag d (Attr r) v ↔ has_value f' tag d' (Attr r) v).
  { intros v. unfold has_value. case_bool_decide; [apply Hr|by rewrite Hattr]. }
  setoid_rewrite <- Hv. exact H.
Qed.

Lemma filter_ok_ext f f' tag :
  Filters f = Filters f' →
  (∀ r, rule_holds f r tag ↔ rule_holds f' r tag) →
  ∀ fl, filter_ok f fl tag → filter_ok f' fl tag.
Proof.
  intros Hf Hr fl [?|(fl' & Hfl & Hsel)]; [by left|right]. rewrite Hf in Hfl.
  exists fl'. split; [done|]. unfold filter_selects in *.
  destruct Hsel as [? Hsel]. split; [done|]. by setoid_rewrite <- Hr.
Qed.

(** ** Devices in one hierarchy *)

Lemma fold_add_new_sub l acc : (∀ x, x ∈ l → x ∈ acc) → foldl add_new acc l = acc.
Proof.
  induction l as [|a l IH]; intros H; simpl; [done|].
  assert (add_new acc a = acc) as ->.
  { unfold add_new. rewrite bool_decide_eq_true_2; [done|]. apply H. left. }
  apply IH. intros x Hx. apply H. by right.
Qed.

Lemma fold_add_new_fresh l acc : NoDup (acc ++ l) → foldl add_new acc l = acc ++ l.
Proof.
  revert acc. induction l as [|a l IH]; intros acc H; simpl; [by rewrite app_nil_r|].
  assert (add_new acc a = acc ++ [a]) as ->.
  { unfold add_new. rewrite bool_decide_eq_false_2; [done|]. intros Ha.
    apply NoDup_app in H as (_ & H & _). apply (H a Ha). left. }
  rewrite IH; by rewrite <- (assoc_L (++)).
Qed.

Lemma fold_add_new_prefixes L l acc :
  NoDup L → acc `prefix_of` L → l `prefix_of` L →
  foldl add_new acc l `prefix_of` L ∧ acc `prefix_of` foldl add_new acc l ∧
  l `prefix_of` foldl add_new acc l.
Proof.
  intros Hnd Ha Hl. destruct (prefix_weak_total _ _ _ Ha Hl) as [[k ->]|Hle].
  - rewrite foldl_app, (fold_add_new_sub acc) by done. rewrite fold_add_new_fresh.
    + split_and!; [done|by apply prefix_app_r|done].
    + destruct Hl as [k' ->]. by apply NoDup_app in Hnd as [? _].
  - rewrite fold_add_new_sub; [done|]. destruct Hle as [k ->]. intros x Hx.
    apply elem_of_app. by left.
Qed.

Lemma fold_chain_prefixes f L gs acc :
  NoDup L → acc `prefix_of` L → (∀ g, g ∈ gs → GroupAncestry f g `prefix_of` L) →
  acc = L ∨ (∃ g, g ∈ gs ∧ GroupAncestry f g = L) →
  foldl add_new acc (g ← gs; GroupAncestry f g) = L.
Proof.
  intros Hnd. revert acc. induction gs as [|g gs IH]; intros acc Hacc Hgs Hfull; simpl.
  - destruct Hfull as [?|(g & Hg & _)]; [done|by apply elem_of_nil in Hg].
  - rewrite foldl_app.
    destruct (fold_add_new_prefixes L (GroupAncestry f g) acc) as (H1 & H2 & H3);
      [done|done|apply Hgs; left|].
    apply IH; [done|intros; apply Hgs; by right|].
    destruct Hfull as [->|(g' & [->|Hg']%elem_of_cons & Hl)].
    + left. by apply (anti_symm prefix).
    + left. rewrite Hl in *. by apply (anti_symm prefix).
    + right. eauto.
Qed.

(** ** Properties *)

(** C1: Resolve computes exactly the governance rule. For every device and key it
    returns a value iff some contributor sets the key, and then the value and
    provenance of the most general contributor that locks it, or, when none
    does, of the most specific one that sets it - where the contributors are the
    organisation, the groups on the device's chain, the device and the assigned
    policies whose filter passes. The order in which the map range of chainFor
    delivers the group scopes is immaterial. *)
Theorem Resolve_refines f tag key :
  (∀ r, Resolve f tag !! key = Some r ↔ resolves f tag key r) ∧
  (Resolve f tag !! key = None ↔ ∀ c, ¬ is_setter f tag key c) ∧
  (∀ chain, chain ≡ₚ chainFor f tag → (∃ c, is_setter f tag key c) →
     Resolve f tag !! key = Some (resolveKey chain key)).
Proof.
  split_and!.
  - intros r. apply Resolve_Some.
  - apply Resolve_None.
  - intros chain Hp Hex. apply Resolve_Some. by apply (resolveKey_perm f tag key chain).
Qed.

Lemma scope_nonempty_setting s key v : sc_Settings s !! key = Some v → scope_nonempty s = true.
Proof.
  intros H. unfold scope_nonempty. rewrite bool_decide_eq_false_2; [done|].
  intros He. rewrite He in H. discriminate H.
Qed.

Lemma contributes_range f tag c :
  contributes f tag c → 0 ≤ specificity c ≤ 1 + Z.of_nat (length (scope_order f tag)) ∧ 0 ≤ order c.
Proof.
  destruct 1 as [o Ho Hne|i a Hi Hne|Hne|i a p s Hi Hpo Hs Hfl]; simpl; try lia.
  - apply lookup_lt_Some in Hi. lia.
  - destruct Hs as [|j b Hj|]; try lia. apply lookup_lt_Some in Hj. lia.
Qed.

Lemma inline_extreme f tag (g : bool) c c' :
  contributes f tag c → contributes f tag c' → inline c = true → order c = 0 →
  (if g then specificity c ≤ specificity c' else specificity c' ≤ specificity c) →
  c' = c ∨ better g c c' = true.
Proof.
  intros Hc Hc' Hi Ho Hs. destruct (better g c c') eqn:H1; [by right|left].
  destruct (better g c' c) eqn:H2.
  - apply better_spec in H2. destruct (contributes_range _ _ _ Hc') as [_ ?].
    rewrite Hi, Ho in H2. destruct g, (inline c'); naive_solver lia.
  - destruct (better_total _ _ _ H1 H2) as (? & ? & ?). by apply (contributes_distinct f tag).
Qed.

(** The two ends of the precedence rule. A key the organisation sets and
    enforces resolves to the organisation's value, enforced, on every device,
    whatever groups, devices and policies say; and a key nobody locks resolves
    on a device that sets it itself to the device's own value. *)
Theorem precedence_extremes f tag key v :
  (∀ o, Org f = Some o → sc_Settings o !! key = Some v → key ∈ sc_Enforced o →
     Resolve f tag !! key = Some (mkResolution v (mkSource "org" "") true)) ∧
  (sc_Settings (d_scope (dev f tag)) !! key = Some v → (∀ c, ¬ is_locker f tag key c) →
     Resolve f tag !! key = Some (mkResolution v (mkSource "device" "") false)).
Proof.
  split.
  - intros o Ho Hv Hk. apply Resolve_Some.
    set (c := inline_contributor 0 "org" o).
    assert (Hc : contributes f tag c) by (constructor; [done|by eapply scope_nonempty_setting]).
    assert (Hl : is_locker f tag key c)
      by (split; [split; [done|by exists v]|by apply elem_of_list_to_set]).
    change (mkSource "org" "") with (source c). apply resolves_locked; [|done].
    split; [done|]. intros c' [[Hc' _] _]. apply (inline_extreme f tag); [done..|].
    by destruct (contributes_range _ _ _ Hc') as [[? _] _].
  - intros Hv Hno. apply Resolve_Some.
    set (c := inline_contributor (1 + Z.of_nat (length (scope_order f tag))) "device"
                (d_scope (dev f tag))).
    assert (Hc : contributes f tag c) by (constructor; by eapply scope_nonempty_setting).
    change (mkSource "device" "") with (source c). apply resolves_default; [done| |done].
    split; [split; [done|by exists v]|]. intros c' [Hc' _].
    apply (inline_extreme f tag); [done..|].
    by destruct (contributes_range _ _ _ Hc') as [[_ ?] _].
Qed.

(** In a document without a parent cycle, specificity follows the tree: on
    every device's chain a group stands after its parent, after the
    organisation and before the device. *)
Theorem specificity_follows_tree f tag a p x :
  acyclic (f_Groups f) → link (f_Groups f) a p →
  scopePositions f tag !! group_ref a = Some x →
  ∃ y z, scopePositions f tag !! group_ref p = Some y ∧ 
         scopePositions f tag !! "device" = Some z ∧ 0 < y ∧ y < x ∧ x < z.
Proof.
  intros Hac Hap Hx. apply group_pos_inv in Hx as (i & Hi & ->).
  destruct (scope_order_parents f tag i a p Hac Hi Hap) as (j & Hj & Hp).
  exists (1 + Z.of_nat j), (1 + Z.of_nat (length (scope_order f tag))).
  split_and!; [by apply group_pos|apply device_pos|lia|lia|].
  apply lookup_lt_Some in Hi. lia.
Qed.

Lemma specificity_follows_tree_witness :
  ∃ y z, scopePositions demo_tree "d1" !! "group:mid" = Some y ∧
         scopePositions demo_tree "d1" !! "device" = Some z ∧ 0 < y ∧ y < 4 ∧ 4 < z.
Proof.
  apply (specificity_follows_tree demo_tree "d1" "leaf" "mid" 4).
  - apply acyclicb_sound. vm_compute. reflexivity.
  - split_and!; [discriminate|discriminate|vm_compute; eauto|].
    exists (demo_group "mid"). split; vm_compute; reflexivity.
  - vm_compute. reflexivity.
Defined.


Lemma one_hierarchy_order f tag g gs :
  acyclic (f_Groups f) → gs = Groups (dev f tag) → g ∈ gs →
  (∀ g', g' ∈ gs → g' = g ∨ g' ∈ GroupAncestry f g) →
  scope_order f tag = GroupAncestry f g.
Proof.
  intros Hac -> Hg Hall. unfold scope_order, expanded_groups.
  apply fold_chain_prefixes; [apply ancestry_nodup|apply prefix_nil| |right; eauto].
  intros g' [->|Hin]%Hall; [done|by apply ancestry_prefix].
Qed.

(** Pruning does not change what a device resolves to when its entries all
    lie in one hierarchy, an entry and ancestors of it: the case the migration
    was written for. *)
Theorem prune_keeps_resolution f f' tag d g :
  acyclic (f_Groups f) → Devices f !! tag = Some d → g ∈ Groups d →
  (∀ g', g' ∈ Groups d → g' = g ∨ g' ∈ GroupAncestry f g) →
  PruneRedundantGroups f = Ok f' → Resolve f' tag = Resolve f tag.
Proof.
  intros Hac Hd Hg Hall Hf'. injection Hf' as <-.
  destruct (prune_result f tag d Hd) as [_ HD]. rewrite prune_fold_frame.
  set (D := Devices (foldl _ _ _)) in *. set (f' := f <| Devices := D |>).
  set (d' := d <| Groups := _ |>) in HD.
  assert (Hd' : Devices f' !! tag = Some d') by done.
  assert (Hkept : ∀ g', g' ∈ Groups d' → g' ∈ Groups d) by (intros g' Hg'; simpl in Hg'; by apply elem_of_delete_func in Hg' as [? _]).
  assert (Hin : g ∈ Groups d').
  { apply elem_of_delete_func. split; [done|]. apply bool_decide_eq_false.
    rewrite elem_of_reachable. intros (g' & Hg' & Hanc & Hne).
    destruct (Hall g' Hg') as [->|Hup]; [done|]. apply Hne.
    by apply (ancestry_antisym (f_Groups f)). }
  assert (Hord : scope_order f tag = scope_order f' tag).
  { rewrite (one_hierarchy_order f tag g (Groups d)), (one_hierarchy_order f' tag g (Groups d'));
      [done|done|by rewrite (dev_lookup f' tag d')|done|by auto|done|by rewrite (dev_lookup f tag d)|done|done]. }
  assert (Hreach : ∀ a, reaches f (Groups d) a ↔ reaches f' (Groups d') a)
    by (intros a; symmetry; apply (prune_reaches f (Groups d) a Hac)).
  assert (Hrule : ∀ r, rule_holds f r tag ↔ rule_holds f' r tag).
  { intros r. split; [apply (rule_holds_ext f f' r tag d d')|apply (rule_holds_ext f' f r tag d' d)];
      try done. }
  assert (Hscope : d_scope (dev f tag) = d_scope (dev f' tag))
    by (by rewrite (dev_lookup f tag d), (dev_lookup f' tag d')).
  apply Resolve_ext. intros c. split; apply contributes_same; split; try done;
    by apply filter_ok_ext.
Qed.

Definition demo_scope (v : Z) : Scope := zero_scope <| sc_Settings := {["key" := VInt v]} |>.

Definition demo_line : Fleet :=
  demo_tree <| f_Groups ::= <["root" := zero_group <| g_scope := demo_scope 1 |> ]> |>
            <| Devices := {["d1" := zero_device <| Groups := ["root"; "leaf"; "mid"] |> ]} |>.

Lemma prune_keeps_resolution_witness :
  match PruneRedundantGroups demo_line with
  | Ok f' => Groups (dev f' "d1") = ["leaf"] ∧ Resolve f' "d1" = Resolve demo_line "d1"
  | Err _ => False
  end.
Proof.
  destruct (PruneRedundantGroups demo_line) as [f'|e] eqn:Hf'; [|discriminate Hf'].
  split.
  - assert (f' = match PruneRedundantGroups demo_line with Ok f => f | Err _ => demo_tree end)
      as -> by (rewrite Hf'; reflexivity).
    vm_compute. reflexivity.
  - apply (prune_keeps_resolution demo_line f' "d1" (zero_device <| Groups := ["root"; "leaf"; "mid"] |>) "leaf").
    + apply acyclicb_sound. vm_compute. reflexivity.
    + vm_compute. reflexivity.
    + right. left.
    + assert (Forall (λ g', g' ∈ GroupAncestry demo_line "leaf") ["root"; "leaf"; "mid"]) as Hf
        by (apply (bool_decide_unpack _); vm_compute; exact I).
      intros g' Hg'. right. exact (proj1 (Forall_forall _ _) Hf g' Hg').
    + exact Hf'.
Defined.

(** A device in two unrelated hierarchies, one of them through a group and its
    parent: pruning the parent moves it behind the unrelated group. *)
Definition demo_cross : Fleet :=
  zero_fleet
    <| f_Groups := {["p" := zero_group <| g_scope := demo_scope 1 |>;
                     "x" := zero_group <| g_scope := demo_scope 2 |>;
                     "y" := zero_group <| Parent := "p" |> ]} |>
    <| Devices := {["d" := zero_device <| Groups := ["p"; "x"; "y"] |> ]} |>.

(** In general pruning does change what a device resolves to: on an acyclic
    document whose device is in p, x and y, with y under p and x unrelated,
    dropping the redundant p moves p behind x in the chain and the value of p
    replaces the value of x. *)
Theorem prune_can_change_resolution :
  acyclic (f_Groups demo_cross) ∧
  match PruneRedundantGroups demo_cross with
  | Ok f' =>
      Groups (dev f' "d") = ["x"; "y"] ∧
      Resolve demo_cross "d" !! "key" = Some (mkResolution (VInt 2) (mkSource "group:x" "") false) ∧
      Resolve f' "d" !! "key" = Some (mkResolution (VInt 1) (mkSource "group:p" "") false)
  | Err _ => False
  end.
Proof.
  split; [apply acyclicb_sound; by vm_compute|].
  vm_compute. split_and!; reflexivity.
Qed.
