(* ===== verification/Mutate.v ===== *)
(** * Mutations of scopes, groups and the rollout plan
    (src/internal/domain/fleet/mutate.go)

    Each operation is a [Mutation]: the edited document, or the error that
    aborts the write transaction. *)

From S2P Require Import Prelude GoLib FleetModel Groups.

(** ** Scopes *)

(** [withScope], [withAccepted] and [withApps] edit fields of the scope a
    reference names; the record of those fields is the embedded [Scope]. *)
Definition with_scope (ref : string) (edit : Scope → res FleetErr Scope) : Mutation := λ f,
  match scope_of ref with
  | ROrg =>
      let! s := edit (org_scope f) in Ok (f <| Org := Some s |>)
  | RGroup name =>
      match f_Groups f !! name with
      | None => Err (UnknownGroup name)
      | Some g =>
          let! s := edit (g_scope g) in
          Ok (f <| f_Groups ::= <[name := g <| g_scope := s |>]> |>)
      end
  | RDevice tag =>
      match Devices f !! tag with
      | None => Err (UnknownDevice tag)
      | Some d =>
          let! s := edit (d_scope d) in
          Ok (f <| Devices ::= <[tag := d <| d_scope := s |>]> |>)
      end
  | RBad => Err (BadScope ref)
  end.

Definition ScopeSettings (f : Fleet) (ref : string) : res FleetErr (Settings * list string) :=
  match scope_of ref with
  | ROrg => Ok (sc_Settings (org_scope f), sc_Enforced (org_scope f))
  | RGroup name =>
      match f_Groups f !! name with
      | None => Err (UnknownGroup name)
      | Some g => Ok (sc_Settings (g_scope g), sc_Enforced (g_scope g))
      end
  | RDevice tag =>
      match Devices f !! tag with
      | None => Err (UnknownDevice tag)
      | Some d => Ok (sc_Settings (d_scope d), sc_Enforced (d_scope d))
      end
  | RBad => Err (BadScope ref)
  end.

Definition SetScopeSetting (ref key : string) (value : Value) : Mutation :=
  with_scope ref (λ s, Ok (s <| sc_Settings ::= <[key := value]> |>)).

Definition ClearScopeSetting (ref key : string) : Mutation :=
  with_scope ref (λ s,
    Ok (s <| sc_Settings ::= delete key |> <| sc_Enforced ::= delete_func (λ k, k ==? key) |>)).

Definition SetScopeEnforce (ref key : string) (on : bool) : Mutation :=
  with_scope ref (λ s,
    if on then
      match sc_Settings s !! key with
      | None => Err (CannotEnforce key ref)
      | Some _ =>
          if key ∈? sc_Enforced s then Ok s
          else Ok (s <| sc_Enforced ::= λ l, l ++ [key] |>)
      end
    else Ok (s <| sc_Enforced ::= delete_func (λ k, k ==? key) |>)).

Definition SetAcceptance (ref key reason : string) : Mutation := λ f,
  let reason := trim_space reason in
  refuse reason ==? "" with NeedsJustification key;
  with_scope ref (λ s, Ok (s <| sc_Accepted ::= <[key := reason]> |>)) f.

Definition ClearAcceptance (ref key : string) : Mutation :=
  with_scope ref (λ s, Ok (s <| sc_Accepted ::= delete key |>)).

(** ** The rollout plan *)

(** The loop over one ring's groups: [seen] is every group of the plan so far. *)
Fixpoint ring_groups_ok (f : Fleet) (i : nat) (seen : list string) (gs : list string)
    : res FleetErr (list string) :=
  match gs with
  | [] => Ok seen
  | g :: gs =>
      match f_Groups f !! g with
      | None => Err (RingUnknownGroup i g)
      | Some _ => if g ∈? seen then Err (RingGroupTwice i g) else ring_groups_ok f i (g :: seen) gs
      end
  end.

Definition ring_ok (f : Fleet) (i : nat) (seen : list string) (ring : RolloutRing)
    : res FleetErr (list string) :=
  match GroupList ring with
  | [] => Err (RingNoGroup i)
  | gl =>
      let! seen := ring_groups_ok f i seen gl in
      refuse rr_SoakMinutes ring <? 0 with RingNegativeSoak i;
      refuse (rr_MinHealthyPercent ring <? 0) || (100 <? rr_MinHealthyPercent ring)
        with RingHealthRange i;
      Ok seen
  end.

Fixpoint rings_ok (f : Fleet) (i : nat) (seen : list string) (rings : list RolloutRing)
    : res FleetErr (list string) :=
  match rings with
  | [] => Ok seen
  | r :: rs => let! seen := ring_ok f i seen r in rings_ok f (S i) seen rs
  end.

Definition SetRolloutPlan (p : option RolloutPolicy) : Mutation := λ f,
  match p with
  | None => Ok (f <| Rollout := None |>)
  | Some plan =>
      match Rings plan with
      | [] => Err PlanNeedsRing
      | rs => let! _ := rings_ok f 0 [] rs in Ok (f <| Rollout := p |>)
      end
  end.

Definition SetAssurance (a : Assurance) : Mutation := λ f, Ok (f <| f_Assurance := Some a |>).

(** ** Groups *)

(** The climb of [SetGroupParent]: does walking up from [cur] reach [group]?
    A missing group reads as one without a parent. *)
Fixpoint climbs_to (fuel : nat) (gs : gmap string Group) (group cur : string) (seen : gset string)
    : bool :=
  match fuel with
  | O => false
  | S fuel =>
      if cur ==? "" then false
      else if cur ==? group then true
      else if cur ∈? seen then false
      else climbs_to fuel gs group (Parent (default zero_group (gs !! cur))) ({[cur]} ∪ seen)
  end.

Definition SetGroupParent (group parent : string) : Mutation := λ f,
  match f_Groups f !! group with
  | None => Err (UnknownGroup group)
  | Some g =>
      refuse (parent !=? "") && (f_Groups f !! parent ==? None) with UnknownParent parent;
      refuse (parent !=? "") && climbs_to (S (size (f_Groups f))) (f_Groups f) group parent ∅
        with ParentCycle parent group;
      Ok (f <| f_Groups ::= <[group := g <| Parent := parent |>]> |>)
  end.

Definition SetGroupAllowedClasses (group : string) (classes : list string) : Mutation := λ f,
  match f_Groups f !! group with
  | None => Err (UnknownGroup group)
  | Some g =>
      assert_none first_err (λ c, if ValidClass c then None else Some (UnknownClass c)) classes;
      assert_none (match classes with
                   | [] => None
                   | _ => first_err (λ tag,
                            let dc := Class (dev f tag) in
                            if dc ∈? classes then None else Some (CannotRestrict group tag dc))
                            (ActiveGroupDevices f group)
                   end);
      Ok (f <| f_Groups ::= <[group := g <| AllowedClasses := classes |>]> |>)
  end.

Definition SetGroupPin (group target : string) : Mutation := λ f,
  match f_Groups f !! group with
  | None => Err (UnknownGroup group)
  | Some g => Ok (f <| f_Groups ::= <[group := g <| g_Pin := target |>]> |>)
  end.

Definition SetDevicePin (tag ring : string) : Mutation := λ f,
  match Devices f !! tag with
  | None => Err (UnknownDevice tag)
  | Some d => Ok (f <| Devices ::= <[tag := d <| d_Pin := ring |>]> |>)
  end.
