(* ===== verification/DeviceOps.v ===== *)
(** * Enrolment and group mutations
    (src/internal/domain/fleet/device.go, intent.go, station.go, secretref.go) *)

From S2P Require Import Prelude GoLib FleetModel Groups Mutate.

(** ** Devices *)

Definition groups_exist (f : Fleet) (groups : list string) : option FleetErr :=
  first_err (λ g, match f_Groups f !! g with None => Some (UnknownGroup g) | Some _ => None end) groups.

Definition AddDevice (tag : string) (d : Device) (now : Time) : Mutation := λ f,
  refuse negb (ValidateSlug tag) with InvalidTag tag;
  match Devices f !! tag with
  | Some _ => Err (DeviceExists tag)
  | None =>
      refuse Hardware d ==? "" with NeedsHardware;
      refuse (Class d !=? "") && negb (ValidClass (Class d)) with UnknownClass (Class d);
      assert_none groups_exist f (Groups d);
      assert_none checkClassAllowed f (Class d) (Groups d);
      let d := if State d ==? DeviceActive then d <| State := DeviceProvisional |> else d in
      let d := if IsZero (Enrolled d) then d <| Enrolled := now |> else d in
      Ok (f <| Devices ::= <[tag := d]> |>)
  end.

Definition RemoveDevice (tag : string) : Mutation := λ f,
  match Devices f !! tag with
  | None => Err (UnknownDevice tag)
  | Some _ =>
      Ok (f <| Devices ::= delete tag |>
            <| Assignments ::= delete_func (λ a, Target a ==? device_ref tag) |>)
  end.

Record DevicePatch := {
  dp_Hardware : option string;
  dp_Class : option string;
  dp_AssignedUser : option string;
  dp_Groups : option (list string);
  dp_Labels : option (gmap string string);
  dp_ITAM : option ITAM
}.

Definition UpdateDevice (tag : string) (p : DevicePatch) : Mutation := λ f,
  match Devices f !! tag with
  | None => Err (UnknownDevice tag)
  | Some d =>
      refuse (match dp_Hardware p with Some h => h ==? "" | None => false end) with NeedsHardware;
      let d := match dp_Hardware p with Some h => d <| Hardware := h |> | None => d end in
      let d := match dp_Class p with Some c => d <| Class := c |> | None => d end in
      let d := match dp_AssignedUser p with Some u => d <| AssignedUser := u |> | None => d end in
      assert_none (match dp_Groups p with
                   | None => None
                   | Some gs => match groups_exist f gs with
                                | Some e => Some e
                                | None => rejectAncestorDuplication f gs
                                end
                   end);
      let d := match dp_Groups p with Some gs => d <| Groups := gs |> | None => d end in
      let d := match dp_Labels p with Some l => d <| Labels := l |> | None => d end in
      let d := match dp_ITAM p with Some i => d <| d_ITAM := i |> | None => d end in
      assert_none (match dp_Class p, dp_Groups p with
                   | None, None => None
                   | _, _ => checkClassAllowed f (Class d) (Groups d)
                   end);
      Ok (f <| Devices ::= <[tag := d]> |>)
  end.

Definition setDeviceState (tag to_ from_ : string) : Mutation := λ f,
  match Devices f !! tag with
  | None => Err (UnknownDevice tag)
  | Some d =>
      refuse State d !=? from_ with WrongState tag (State d) from_;
      Ok (f <| Devices ::= <[tag := d <| State := to_ |>]> |>)
  end.

Definition RetireDevice (tag : string) : Mutation := setDeviceState tag DeviceRetired DeviceActive.
Definition ReactivateDevice (tag : string) : Mutation := setDeviceState tag DeviceActive DeviceRetired.
Definition ActivateProvisional (tag : string) : Mutation :=
  setDeviceState tag DeviceActive DeviceProvisional.

Definition stateName (s : string) : string := if s ==? DeviceActive then "active" else s.

(** ** Groups *)

Definition AddGroup (name : string) (g : Group) : Mutation := λ f,
  refuse negb (ValidateSlug name) with InvalidGroupName name;
  match f_Groups f !! name with
  | Some _ => Err (GroupExists name)
  | None =>
      refuse (Parent g !=? "") && (f_Groups f !! Parent g ==? None) with UnknownParent (Parent g);
      Ok (f <| f_Groups ::= <[name := g]> |>)
  end.

(** One iteration of the loop of [CreateGroupWithDevices]. *)
Definition join_group (name : string) (f : Fleet) (tag : string) : res FleetErr Fleet :=
  match Devices f !! tag with
  | None => Err (UnknownDevice tag)
  | Some d =>
      assert_none checkClassAllowed f (Class d) [name];
      if name ∈? Groups d then Ok f
      else
        assert_none rejectAncestorDuplication f (Groups d ++ [name]);
        Ok (f <| Devices ::= <[tag := d <| Groups ::= λ l, l ++ [name] |>]> |>)
  end.

Definition CreateGroupWithDevices (name : string) (g : Group) (tags : list string) : Mutation := λ f,
  let! f := AddGroup name g f in fold_res (join_group name) f tags.

Definition UpdateGroup (name : string) (parent idpGroup : option string) : Mutation := λ f,
  match f_Groups f !! name with
  | None => Err (UnknownGroup name)
  | Some _ =>
      let! f := match parent with Some p => SetGroupParent name p f | None => Ok f end in
      Ok (match idpGroup with
          | Some i => f <| f_Groups ::= <[name := (grp f name) <| IdpGroup := i |>]> |>
          | None => f
          end)
  end.

(** The rule that blocks removing a group: a filter rule naming it. *)
Definition rule_names_group (name : string) (r : FilterRule) : bool :=
  (Attr r ==? "group") && ((r_Value r ==? name) || (name ∈? Values r)).

Definition RemoveGroup (name : string) : Mutation := λ f,
  match f_Groups f !! name with
  | None => Err (UnknownGroup name)
  | Some _ =>
      let kids := GroupChildren f name in
      refuse kids !=? [] with HasSubgroups name kids;
      let devs := GroupDevices f name in
      refuse devs !=? [] with HasDevices name devs;
      assert_none first_err (λ a, if Target a ==? group_ref name
                                  then Some (StillTargeted name (a_Policy a)) else None) (Assignments f);
      assert_none first_err (λ b, if b_Scope b ==? group_ref name
                                  then Some (StillBound name (b_Group b)) else None) (Access f);
      assert_none first_err (λ kv, if existsb (rule_names_group name) (Rules kv.2)
                                   then Some (StillFiltered name kv.1) else None)
                    (map_to_list (Filters f));
      assert_none match Rollout f with
                  | None => None
                  | Some p => first_err (λ r, if rr_Group r ==? name then Some (StillRing name) else None)
                                (Rings p)
                  end;
      Ok (f <| f_Groups ::= delete name |>)
  end.

Definition GroupMembershipDelta (old next : list string) : list string :=
  let oldSet : gset string := list_to_set old in
  let nextSet : gset string := list_to_set next in
  elements (oldSet ∖ nextSet) ++ elements (nextSet ∖ oldSet).

(** ** Enrolments that never became a machine *)

Definition StaleProvisional : Z := 72 * 3600 * 1000000000.

Definition AbandonedEnrolments (f : Fleet) (cutoff : Time) : list string :=
  keep_if (λ tag, let d := dev f tag in
                  Provisional d && negb (IsZero (Enrolled d)) && (Enrolled d <? cutoff)) (DeviceTags f).

Definition ProvisionalBySerial (f : Fleet) (serial : string) : option string :=
  let serial := trim_space serial in
  if serial ==? "" then None
  else List.find (λ tag, let d := dev f tag in
                         Provisional d && equal_fold (trim_space (Serial (d_ITAM d))) serial)
         (DeviceTags f).

(** ** Remote-action intents *)

Definition SetDeviceIntent (tag intent : string) (force : bool) : Mutation := λ f,
  match Devices f !! tag with
  | None => Err (UnknownDevice tag)
  | Some d =>
      refuse Retired d with IsRetired tag;
      let armed := Ok (f <| Devices ::= <[tag := d <| Intent := intent |>]> |>) in
      if intent ∈? [IntentLock; IntentReboot; IntentDiagnostics] then armed
      else if intent ==? IntentWipe then
        if (Intent d !=? IntentLock) && negb force then Err WipeNeedsLock else armed
      else Err (UnknownIntent intent)
  end.

Definition ClearDeviceIntent (tag : string) : Mutation := λ f,
  match Devices f !! tag with
  | None => Err (UnknownDevice tag)
  | Some d => Ok (f <| Devices ::= <[tag := d <| Intent := IntentNone |>]> |>)
  end.

(** ** Registries *)

Definition AddStation (tag : string) (s : Station) : Mutation := λ f,
  refuse negb (ValidateSlug tag) with InvalidStationTag tag;
  match Stations f !! tag with
  | Some _ => Err (StationExists tag)
  | None => Ok (f <| Stations ::= <[tag := s]> |>)
  end.

Definition RemoveStation (tag : string) : Mutation := λ f,
  match Stations f !! tag with
  | None => Err (UnknownStation tag)
  | Some _ => Ok (f <| Stations ::= delete tag |>)
  end.

Definition AddSecretRef (name : string) (ref : SecretRef) : Mutation := λ f,
  refuse negb (ValidateSlug name) with InvalidSecretName name;
  match SecretRefs f !! name with
  | Some _ => Err (SecretExists name)
  | None => Ok (f <| SecretRefs ::= <[name := ref]> |>)
  end.

Definition RemoveSecretRef (name : string) : Mutation := λ f,
  match SecretRefs f !! name with
  | None => Err (UnknownSecret name)
  | Some _ => Ok (f <| SecretRefs ::= delete name |>)
  end.

Definition HasSecretRef (f : Fleet) (name : string) : bool :=
  match SecretRefs f !! name with Some _ => true | None => false end.
