(* ===== verification/Policies.v ===== *)
(** * Policies, assignments and filters
    (src/internal/domain/fleet/policy.go, conflicts.go, profiles.go, hardware_config.go)

    The mutations that keep references intact, the conditions that apply to a
    device, the policies that govern a scope, the conflicts between policies,
    and the two assemblies of filter, policy and assignment: overlay profiles
    and hardware configuration. *)

From Stdlib Require Import SpecFloat.
From S2P Require Import Prelude GoLib FleetModel Groups Filters Resolve.

(** ** Policies *)

Fixpoint conditions_ok (id : string) (i : nat) (cs : list Condition) : option FleetErr :=
  match cs with
  | [] => None
  | c :: cs => match Valid c with
               | Some e => Some (PolicyCondition id (S i) e)
               | None => conditions_ok id (S i) cs
               end
  end.

Definition PutPolicy (id : string) (p : Policy) : Mutation := λ f,
  refuse negb (ValidateSlug id) with PolicySlug id;
  refuse bool_decide (p_Settings p = ∅) && bool_decide (length (Conditions p) = O) with PolicySaysNothing id;
  assert_none conditions_ok id 0 (Conditions p);
  assert_none first_err (λ k, match p_Settings p !! k with
                              | Some _ => None | None => Some (PolicyEnforcesUnset id k) end)
                (p_Enforced p);
  Ok (f <| Policies ::= <[id := p]> |>).

Definition DeletePolicy (id : string) : Mutation := λ f,
  match Policies f !! id with
  | None => Err (UnknownPolicy id)
  | Some _ =>
      assert_none first_err (λ a, if a_Policy a ==? id then Some (PolicyAssigned id (Target a)) else None)
                    (Assignments f);
      Ok (f <| Policies ::= delete id |>)
  end.

(** ** Assignments *)

Definition validateTarget (f : Fleet) (ref : string) : option FleetErr :=
  match scope_of ref with
  | ROrg => None
  | RGroup g => match f_Groups f !! g with Some _ => None | None => Some (UnknownGroupInTarget ref) end
  | RDevice t => match Devices f !! t with Some _ => None | None => Some (UnknownDeviceInTarget ref) end
  | RBad => Some (BadTarget ref)
  end.

(** The triple that identifies an assignment. *)
Definition same_assignment (policy target filter : string) (a : Assignment) : bool :=
  (a_Policy a ==? policy) && (Target a ==? target) && (a_Filter a ==? filter).

Definition Assign (a : Assignment) : Mutation := λ f,
  match Policies f !! a_Policy a with
  | None => Err (UnknownPolicy (a_Policy a))
  | Some _ =>
      assert_none validateTarget f (Target a);
      refuse (a_Filter a !=? "") && match Filters f !! a_Filter a with None => true | _ => false end
        with UnknownFilter (a_Filter a);
      refuse existsb (same_assignment (a_Policy a) (Target a) (a_Filter a)) (Assignments f)
        with AlreadyAssigned (a_Policy a) (Target a);
      Ok (f <| Assignments ::= λ l, l ++ [a] |>)
  end.

Definition Unassign (policy target filter : string) : Mutation := λ f,
  let kept := delete_func (same_assignment policy target filter) (Assignments f) in
  refuse bool_decide (length kept = length (Assignments f)) with NoAssignment policy target;
  Ok (f <| Assignments := kept |>).

(** ** Filters *)

(** The exact group rules of a filter must name groups that exist. *)
Definition filter_groups_exist (f : Fleet) (id : string) (r : FilterRule) : option FleetErr :=
  if (Attr r !=? AttrGroup) || ((r_Op r !=? OpEq) && (r_Op r !=? OpIn)) then None
  else first_err (λ g,
         if g ==? "" then None
         else match f_Groups f !! g with Some _ => None | None => Some (FilterUnknownGroup id g) end)
         (r_Value r :: Values r).

Definition PutFilter (id : string) (fl : Filter) : Mutation := λ f,
  refuse negb (ValidateSlug id) with FilterSlug id;
  match ValidateFilter fl with
  | Some e => Err (InvalidFilter id e)
  | None =>
      assert_none first_err (filter_groups_exist f id) (Rules fl);
      Ok (f <| Filters ::= <[id := fl]> |>)
  end.

Definition DeleteFilter (id : string) : Mutation := λ f,
  match Filters f !! id with
  | None => Err (UnknownFilter id)
  | Some _ =>
      assert_none first_err (λ a, if a_Filter a ==? id then Some (FilterUsed id (a_Policy a)) else None)
                    (Assignments f);
      Ok (f <| Filters ::= delete id |>)
  end.

(** ** Conditions *)

Record PolicyCond := { pc_Policy : string; pc_Name : string; pc_Condition : Condition }.

Definition cond_less (a b : PolicyCond) : bool :=
  if pc_Policy a !=? pc_Policy b then String.ltb (pc_Policy a) (pc_Policy b)
  else String.ltb (Metric (pc_Condition a)) (Metric (pc_Condition b)).

(** Go's [==] on the struct: the float is compared as a float. *)
Definition cond_eq (a b : PolicyCond) : bool :=
  (pc_Policy a ==? pc_Policy b) && (pc_Name a ==? pc_Name b)
  && (Metric (pc_Condition a) ==? Metric (pc_Condition b))
  && (c_Op (pc_Condition a) ==? c_Op (pc_Condition b))
  && SFeqb (c_Value (pc_Condition a)) (c_Value (pc_Condition b))
  && (Detail (pc_Condition a) ==? Detail (pc_Condition b)).

Definition assignment_conditions (f : Fleet) (tag : string) (a : Assignment) : list PolicyCond :=
  match Policies f !! a_Policy a with
  | None => []
  | Some p =>
      match Conditions p with
      | [] => []
      | cs => if tag ∈? AssignmentDevices f a
              then (λ c, Build_PolicyCond (a_Policy a) (p_Name p) c) <$> cs else []
      end
  end.

Definition ConditionsFor (f : Fleet) (tag : string) : list PolicyCond :=
  compact_func cond_eq (isort cond_less (a ← Assignments f; assignment_conditions f tag a)).

(** ** Governance of a scope *)

Record Governor := { gov_Policies : list (string * string); gov_Enforced : bool }.

Definition scopeAppliesTo (f : Fleet) (scope target : string) : bool :=
  match cut_prefix scope "device:" with
  | Some tag => match assignmentPosition (scopePositions f tag) target tag with
                | Some _ => true | None => false end
  | None =>
      match cut_prefix scope "group:" with
      | Some g => target ∈? ("org" :: (group_ref <$> GroupAncestry f g))
      | None => target ==? "org"
      end
  end.

Definition zero_governor : Governor := Build_Governor [] false.

(** One key of one policy: the ids and names are kept as pairs. *)
Definition govern_key (a : Assignment) (p : Policy) (m : gmap string Governor) (key : string)
    : gmap string Governor :=
  let g := default zero_governor (m !! key) in
  let ps := if a_Policy a ∈? (gov_Policies g).*1 then gov_Policies g
            else gov_Policies g ++ [(a_Policy a, p_Name p)] in
  <[key := Build_Governor ps (gov_Enforced g || (key ∈? p_Enforced p))]> m.

Definition govern_assignment (f : Fleet) (scope : string) (m : gmap string Governor) (a : Assignment)
    : gmap string Governor :=
  match Policies f !! a_Policy a with
  | None => m
  | Some p =>
      if scopeAppliesTo f scope (Target a)
      then foldl (govern_key a p) m (map_to_list (p_Settings p)).*1 else m
  end.

Definition pair_less (a b : string * string) : bool := String.ltb a.1 b.1.

Definition Governors (f : Fleet) (scope : string) : gmap string Governor :=
  (λ g, Build_Governor (isort pair_less (gov_Policies g)) (gov_Enforced g)) <$>
    foldl (govern_assignment f scope) ∅ (Assignments f).

(** ** Conflicts *)

Section conflicts.
  (** [fmt.Sprintf("%v", x)] of a number: strconv's shortest representation. *)
  Context (fmt_float : spec_float → string).

(** [fmt.Sprintf("%v", v)]; an object's keys are printed in sorted order, in
    which this model keeps them. *)
Fixpoint sprint (v : Value) : string :=
  match v with
  | VNull => "<nil>"
  | VBool b => if b then "true" else "false"
  | VInt z => pretty z
  | VFloat x => fmt_float x
  | VString s => s
  | VList l => "[" +:+ join (sprint <$> l) " " +:+ "]"
  | VObject l => "map[" +:+ join ((λ kv, kv.1 +:+ ":" +:+ sprint kv.2) <$> l) " " +:+ "]"
  end.

Definition equalValue (a b : Value) : bool := sprint a ==? sprint b.

Record PolicyConflict := {
  pcf_Key : string; pcf_Target : string; pcf_Winner : string; pcf_Loser : string;
  pcf_Filters : list string
}.

Definition conflict_less (a b : PolicyConflict) : bool :=
  if pcf_Target a !=? pcf_Target b then String.ltb (pcf_Target a) (pcf_Target b)
  else if pcf_Key a !=? pcf_Key b then String.ltb (pcf_Key a) (pcf_Key b)
  else String.ltb (pcf_Loser a) (pcf_Loser b).

(** The keys two policies disagree about. *)
Definition disagreements (pa pb : Policy) : list string :=
  kv ← map_to_list (p_Settings pa);
  match p_Settings pb !! kv.1 with
  | Some vb => if equalValue kv.2 vb then [] else [kv.1]
  | None => []
  end.

(** The inner loop's body, for assignments [a] at [i] and [b] at [j > i]. *)
Definition conflicts_between (f : Fleet) (a b : Assignment) : list PolicyConflict :=
  match Policies f !! a_Policy a, Policies f !! a_Policy b with
  | Some pa, Some pb =>
      if (Target b !=? Target a) || (a_Policy a ==? a_Policy b) then []
      else (λ k, Build_PolicyConflict k (Target a) (a_Policy a) (a_Policy b)
                   (delete_func (λ fl, fl ==? "") [a_Filter a; a_Filter b])) <$> disagreements pa pb
  | _, _ => []
  end.

Fixpoint conflict_pairs (f : Fleet) (l : list Assignment) : list PolicyConflict :=
  match l with
  | [] => []
  | a :: r => (b ← r; conflicts_between f a b) ++ conflict_pairs f r
  end.

Definition PolicyConflicts (f : Fleet) : list PolicyConflict :=
  isort conflict_less (conflict_pairs f (Assignments f)).
End conflicts.

Definition InertPriorities (f : Fleet) : list Assignment :=
  keep_if (λ a, Priority a !=? 0) (Assignments f).

(** ** Assemblies: hardware configuration *)

Definition HardwarePolicyID (profile : string) : string := "hw-" +:+ profile.
Definition HardwareFilterID (profile : string) : string := "hardware-" +:+ profile.

Definition validHardwareTarget (f : Fleet) (target : string) : option FleetErr :=
  match scope_of target with
  | ROrg => None
  | RGroup g => match f_Groups f !! g with Some _ => None | None => Some (UnknownGroup g) end
  | _ => Some (HwBadTarget target)
  end.

(** A filter that is precisely "attr equals value". *)
Definition selectsExactly (fl : Filter) (attr value : string) : bool :=
  match Rules fl with
  | [r] => (Attr r ==? attr) && (r_Op r ==? OpEq) && (r_Value r ==? value)
  | _ => false
  end.

Definition only_filter (attr value : string) : Filter :=
  Build_Filter "" "" [Build_FilterRule attr OpEq value []].

Definition pair_assignment (polID filterID : string) (a : Assignment) : bool :=
  (a_Policy a ==? polID) && (a_Filter a ==? filterID).

Definition unconfigureHardware (f : Fleet) (polID filterID : string) : Fleet :=
  let f := f <| Assignments ::= delete_func (pair_assignment polID filterID) |> in
  let f := f <| Policies ::= delete polID |> in
  if existsb (λ a, a_Filter a ==? filterID) (Assignments f) then f
  else f <| Filters ::= delete filterID |>.

(** The policy [ConfigureHardware] writes over the one that is there. *)
Definition hardware_policy (profile : string) (settings : Settings) (enforced : list string)
    (prev : option Policy) : Policy :=
  match prev with
  | None => mkPolicy profile "" settings enforced "" [] []
  | Some q =>
      mkPolicy (if p_Name q !=? "" then p_Name q else profile) (p_Description q) settings enforced
        "" (p_Controls q) []
  end.

Definition ConfigureHardware (profile target : string) (settings : Settings) (enforced : list string)
    : Mutation := λ f,
  let profile := trim_space profile in
  refuse profile ==? "" with HwNeedsName;
  let polID := HardwarePolicyID profile in
  let filterID := HardwareFilterID profile in
  refuse negb (ValidateSlug polID) || negb (ValidateSlug filterID) with HwNotSlug profile;
  assert_none validHardwareTarget f target;
  if bool_decide (settings = ∅) then Ok (unconfigureHardware f polID filterID)
  else
    let! f := match Filters f !! filterID with
              | Some ex => if selectsExactly ex AttrHardware profile then Ok f
                           else Err (NotHardwareFilter filterID profile)
              | None => PutFilter filterID (only_filter AttrHardware profile) f
              end in
    refuse match Policies f !! polID with Some q => p_Profile q !=? "" | None => false end
      with FromOverlayProfile polID (default "" (p_Profile <$> Policies f !! polID));
    let! f := PutPolicy polID (hardware_policy profile settings enforced (Policies f !! polID)) f in
    let f := f <| Assignments ::= delete_func (pair_assignment polID filterID) |> in
    Assign (Build_Assignment polID target filterID 0) f.

(** The policy and, when the pair is bound, its assignment. *)
Definition HardwareConfig (f : Fleet) (profile : string) : option (Policy * option Assignment) :=
  let polID := HardwarePolicyID profile in
  let filterID := HardwareFilterID profile in
  match Policies f !! polID with
  | None => None
  | Some p => Some (p, List.find (pair_assignment polID filterID) (Assignments f))
  end.

Definition HardwareInUse (f : Fleet) : gmap string Z :=
  foldr (λ kv m, let d := kv.2 : Device in
    if (State d ==? DeviceRetired) || (Hardware d ==? "") then m
    else <[Hardware d := default 0 (m !! Hardware d) + 1]> m) ∅ (map_to_list (Devices f)).

(** ** Assemblies: overlay profiles *)

Record Profile := {
  pf_Name : string; pf_Label : string; pf_Description : string; pf_Class : string;
  pf_Settings : Settings
}.

Section profiles.
  (** The eight hexadecimal digits of the SHA-256 of the canonical JSON of the
      profile's class and settings. *)
  Context (profile_hash : string → Settings → string).

Definition Provenance (p : Profile) : string :=
  pf_Name p +:+ "@" +:+ profile_hash (pf_Class p) (pf_Settings p).

Definition profile_policy (p : Profile) (prev : option Policy) : Policy :=
  let kept (cur old : string) := if old !=? "" then old else cur in
  mkPolicy
    (match prev with Some q => kept (pf_Label p) (p_Name q) | None => pf_Label p end)
    (match prev with Some q => kept (pf_Description p) (p_Description q) | None => pf_Description p end)
    (pf_Settings p) [] (Provenance p) [] [].

(** An org assignment of the policy through a class filter it no longer uses. *)
Definition stale_assignment (name filter : string) (a : Assignment) : bool :=
  (a_Policy a ==? name) && (Target a ==? "org") && has_prefix (a_Filter a) "class-"
  && (a_Filter a !=? filter).

Definition ApplyProfile (p : Profile) : Mutation := λ f,
  let name := pf_Name p in
  refuse match Policies f !! name with
         | Some prev => negb (has_prefix (p_Profile prev) (name +:+ "@")) | None => false end
    with NotFromProfile name;
  let! f := PutPolicy name (profile_policy p (Policies f !! name)) f in
  let filter := if pf_Class p !=? "" then "class-" +:+ pf_Class p else "" in
  let! f := if pf_Class p ==? "" then Ok f
            else match Filters f !! filter with
                 | Some ex => if selectsExactly ex AttrClass (pf_Class p) then Ok f
                              else Err (NotClassFilter filter (pf_Class p))
                 | None => PutFilter filter (only_filter AttrClass (pf_Class p)) f
                 end in
  let f := f <| Assignments ::= delete_func (stale_assignment name filter) |> in
  if existsb (same_assignment name "org" filter) (Assignments f) then Ok f
  else Assign (Build_Assignment name "org" filter 0) f.

End profiles.

(** [ParseProfiles] after the JSON decoding: the list is indexed by name. *)
Inductive ProfileErr :=
  | ProfileSlug (name : string) | ProfileNoSettings (name : string) | DuplicateProfile (name : string).

Definition add_profile (m : gmap string Profile) (p : Profile)
    : res ProfileErr (gmap string Profile) :=
  refuse negb (ValidateSlug (pf_Name p)) with ProfileSlug (pf_Name p);
  refuse bool_decide (pf_Settings p = ∅) with ProfileNoSettings (pf_Name p);
  match m !! pf_Name p with
  | Some _ => Err (DuplicateProfile (pf_Name p))
  | None => Ok (<[pf_Name p := p]> m)
  end.

Definition ParseProfiles (l : list Profile) : res ProfileErr (gmap string Profile) :=
  fold_res add_profile ∅ l.

(** The profiles in name order. *)
Definition AllProfiles (m : gmap string Profile) : list Profile :=
  n ← sorted_keys m; match m !! n with Some p => [p] | None => [] end.
