(* ===== verification/Apps.v ===== *)
(** * Additive app lists (src/internal/domain/fleet/apps.go)

    Packages, flatpaks and overlays: the injection firewall on their names, the
    replacement of one list at a scope, and the union over a device's chain. *)

From S2P Require Import Prelude GoLib FleetModel Groups Mutate.

(** ** The injection firewall *)

(** ^[a-zA-Z0-9][a-zA-Z0-9._-]*$ *)
Definition alnum (a : ascii) : bool := is_lower a || is_upper a || is_digit a.
Definition pkg_char (a : ascii) : bool :=
  alnum a || Ascii.eqb a "." || Ascii.eqb a "_" || Ascii.eqb a "-".
Definition pkgNameRe (s : string) : bool :=
  match s with EmptyString => false | String a r => alnum a && string_forall pkg_char r end.

(** ^[a-zA-Z0-9_-]+$ *)
Definition overlay_char (a : ascii) : bool := alnum a || Ascii.eqb a "_" || Ascii.eqb a "-".
Definition overlayName (s : string) : bool := (s !=? "") && string_forall overlay_char s.

Definition ValidatePackage (n : string) : bool := pkgNameRe n && negb (contains n "..").
Definition ValidateFlatpak (n : string) : bool := pkgNameRe n && negb (contains n "..").
Definition ValidateOverlay (n : string) : bool := overlayName n.

(** [dedup]: trimmed, without the empty and repeated names, sorted. *)
Fixpoint dedup_from (seen : list string) (l : list string) : list string :=
  match l with
  | [] => []
  | s :: l =>
      let s := trim_space s in
      if (s ==? "") || (s ∈? seen) then dedup_from seen l else s :: dedup_from (s :: seen) l
  end.
Definition dedup (l : list string) : list string := sort_strings (dedup_from [] l).

Definition AppPackages : string := "packages".
Definition AppFlatpaks : string := "flatpaks".
Definition AppOverlays : string := "overlays".

Definition validateApp (kind name : string) : option FleetErr :=
  if kind ==? AppPackages then
    if ValidatePackage name then None else Some (InvalidAppName kind name)
  else if kind ==? AppFlatpaks then
    if ValidateFlatpak name then None else Some (InvalidAppName kind name)
  else if kind ==? AppOverlays then
    if ValidateOverlay name then None else Some (InvalidAppName kind name)
  else Some (UnknownAppKind kind).

(** ** Writing a list *)

Definition set_apps (kind : string) (clean : list string) (s : Scope) : Scope :=
  if kind ==? AppPackages then s <| sc_Packages := clean |>
  else if kind ==? AppFlatpaks then s <| sc_Flatpaks := clean |>
  else if kind ==? AppOverlays then s <| sc_Overlays := clean |>
  else s.

Definition SetScopeApps (ref kind : string) (names : list string) : Mutation := λ f,
  let clean := dedup names in
  assert_none first_err (validateApp kind) clean;
  with_scope ref (λ s, Ok (set_apps kind clean s)) f.

(** ** Reading the union *)

(** The scopes [ResolveApps] adds up: the organisation, every ancestry of the
    device's groups, the device. *)
Definition app_scopes (f : Fleet) (tag : string) : list Scope :=
  [org_scope f] ++
  (g ← Groups (dev f tag); (λ anc, g_scope (grp f anc)) <$> GroupAncestry f g) ++
  [d_scope (dev f tag)].

Definition ResolveApps (f : Fleet) (tag : string) : list string * list string * list string :=
  let ss := app_scopes f tag in
  (dedup (s ← ss; sc_Packages s), dedup (s ← ss; sc_Flatpaks s), dedup (s ← ss; sc_Overlays s)).

(** ** The firewall's lemmas *)

Lemma string_forall_spec p s :
  string_forall p s = true ↔ ∀ a, a ∈ list_ascii_of_string s → p a = true.
Proof.
  induction s as [|a s IH]; simpl.
  - split; [|done]. intros _ a Ha. by apply elem_of_nil in Ha.
  - rewrite andb_true_iff, IH. split.
    + intros [Ha Hs] b [->|Hb]%elem_of_cons; auto.
    + intros H. split; [apply H; left|]. intros b Hb. apply H. by right.
Qed.

Lemma elem_of_dedup_from seen l x :
  x ∈ dedup_from seen l ↔ x ∉ seen ∧ x ≠ "" ∧ ∃ y, y ∈ l ∧ x = trim_space y.
Proof.
  revert seen. induction l as [|s l IH]; intros seen; cbn [dedup_from].
  - split; [by intros ?%elem_of_nil|]. by intros (_ & _ & y & ?%elem_of_nil & _).
  - destruct (decide (trim_space s = "")) as [He|He]; [|destruct (decide (trim_space s ∈ seen)) as [Hi|Hi]].
    + rewrite (bool_decide_eq_true_2 (trim_space s = "")) by done. cbn [orb]. rewrite IH. split.
      * intros (? & ? & y & ? & ->). split_and!; [done..|exists y; split; [by right|done]].
      * intros (? & ? & y & [->|?]%elem_of_cons & ->); [done|]. split_and!; eauto.
    + rewrite (bool_decide_eq_true_2 (trim_space s ∈ seen)), orb_true_r by done. rewrite IH. split.
      * intros (? & ? & y & ? & ->). split_and!; [done..|exists y; split; [by right|done]].
      * intros (? & ? & y & [->|?]%elem_of_cons & ->); [done|]. split_and!; eauto.
    + rewrite !bool_decide_eq_false_2 by done. cbn [orb]. rewrite elem_of_cons, IH. split.
      * intros [->|(Hx & ? & y & ? & ->)].
        -- split_and!; [done|done|exists s; split; [left|done]].
        -- split_and!; [|done|exists y; split; [by right|done]]. intros ?. apply Hx. by right.
      * intros (? & ? & y & [->|?]%elem_of_cons & ->); [by left|].
        destruct (decide (trim_space y = trim_space s)) as [->|]; [by left|right].
        split_and!; eauto. by intros [?|?]%elem_of_cons.
Qed.

Lemma NoDup_dedup_from seen l : NoDup (dedup_from seen l).
Proof.
  revert seen. induction l as [|s l IH]; intros seen; cbn [dedup_from]; [constructor|].
  destruct (_ || _); [done|]. constructor; [|done].
  rewrite elem_of_dedup_from. intros (H & _). apply H. left.
Qed.

Lemma elem_of_dedup l x : x ∈ dedup l ↔ x ≠ "" ∧ ∃ y, y ∈ l ∧ x = trim_space y.
Proof.
  unfold dedup. rewrite elem_of_sort_strings, elem_of_dedup_from.
  split; [by intros (_ & ?)|]. intros H. split; [by intros ?%elem_of_nil|done].
Qed.

Lemma NoDup_dedup l : NoDup (dedup l).
Proof. unfold dedup. rewrite sort_strings_perm. apply NoDup_dedup_from. Qed.

(** The characters a nix expression would need to escape a name. *)
Definition injection_chars : list ascii :=
  [" "; "034"; "'"; "$"; "{"; "}"; "/"; "\"; ";"; "("; ")"; "`"; "010"; "013"]%char.

Definition app_name_safe (n : string) : Prop :=
  n ≠ "" ∧ ∀ a, a ∈ list_ascii_of_string n → a ∉ injection_chars.

Lemma pkg_char_safe a : pkg_char a = true → a ∉ injection_chars.
Proof.
  intros H Hin. assert (Forall (λ b, pkg_char b = false) injection_chars) as Hall
    by (repeat constructor).
  rewrite Forall_forall in Hall. by rewrite (Hall a Hin) in H.
Qed.

Lemma overlay_char_safe a : overlay_char a = true → a ∉ injection_chars.
Proof.
  intros H. apply pkg_char_safe. unfold pkg_char, overlay_char in *.
  destruct (alnum a), (Ascii.eqb a "_"), (Ascii.eqb a "-"); by rewrite ?orb_true_r.
Qed.

Lemma validateApp_safe kind n : validateApp kind n = None → app_name_safe n.
Proof.
  assert (Hpkg : pkgNameRe n = true → app_name_safe n).
  { unfold pkgNameRe. destruct n as [|a r]; [done|]. intros [Ha Hr]%andb_true_iff.
    split; [done|]. simpl. intros b [->|Hb]%elem_of_cons; apply pkg_char_safe.
    - unfold pkg_char. by rewrite Ha.
    - by apply string_forall_spec with (s := r). }
  unfold validateApp, ValidatePackage, ValidateFlatpak, ValidateOverlay, overlayName.
  case_bool_decide; [|case_bool_decide; [|case_bool_decide; [|done]]].
  1,2: destruct (pkgNameRe n); simpl; [intros _; by apply Hpkg|done].
  destruct (string_forall overlay_char n) eqn:Hf; [|by rewrite andb_false_r].
  case_bool_decide; [done|]. intros _. split; [done|]. intros a Ha. apply overlay_char_safe.
  by eapply string_forall_spec.
Qed.
