(* ===== verification/Identity.v ===== *)
(** * Authorization (src/internal/domain/identity/identity.go, fleet/access.go)

    Roles and bindings, the role a user holds at a scope, and the mutations of
    the access list. *)

From S2P Require Import Prelude GoLib FleetModel Groups.

(** ** Roles *)

Inductive Role := None_ | Viewer | Editor | Owner_.

#[export] Instance Role_eq_dec : EqDecision Role.
Proof. solve_decision. Defined.

(** The underlying integer: iota. *)
Definition role_rank (r : Role) : Z :=
  match r with None_ => 0 | Viewer => 1 | Editor => 2 | Owner_ => 3 end.

Definition Meets (r required : Role) : bool := role_rank required <=? role_rank r.

Definition ParseRole (s : string) : option Role :=
  if s ==? "viewer" then Some Viewer
  else if s ==? "editor" then Some Editor
  else if s ==? "owner" then Some Owner_
  else None.

Definition role_string (r : Role) : string :=
  match r with Viewer => "viewer" | Editor => "editor" | Owner_ => "owner" | None_ => "none" end.

(** [consider]: the higher of the two. *)
Definition consider (best role : Role) : Role :=
  if role_rank best <? role_rank role then role else best.

(** ** Principals and bindings *)

Record User := { u_Subject : string; u_Groups : list string; u_Service : bool }.

Definition validate_binding (b : AccessBinding) : option FleetErr :=
  if b_Group b ==? "" then Some BindingNeedsGroup
  else match ParseRole (b_Role b) with
       | None => Some (UnknownRole (b_Role b))
       | Some _ =>
           if (b_Scope b !=? "org") && negb (has_prefix (b_Scope b) "group:")
           then Some (BadBindingScope (b_Scope b)) else None
       end.

(** What the resolver needs of the fleet: [Resolver] with its two callbacks.
    A client of authorization is proved against this interface; the fleet
    document implements it in [fleet_directory]. *)
Class Directory := {
  Ancestry : string → list string;
  DeviceGroups : string → list string
}.

(** The laws authorization relies on: a chain ends in the group itself and holds
    the chain of each of its members. *)
Class DirectoryLaws (dir : Directory) : Prop := {
  ancestry_closed : ∀ g a, a ∈ Ancestry g → ∀ b, b ∈ Ancestry a → b ∈ Ancestry g
}.

Record Resolver := {
  Bindings : list AccessBinding;
  BaselineViewer : list string;
  BaselineEditor : list string;
  BaselineOwner : list string
}.

Section resolver.
  Context `{Directory}.

Definition intersects (member groups : list string) : bool := existsb (λ g, g ∈? member) groups.

Definition governingScopes (ref : string) : list string :=
  "org" :: match scope_of ref with
           | RGroup g => group_ref <$> Ancestry g
           | RDevice t => group_ref <$> (g ← DeviceGroups t; Ancestry g)
           | _ => []
           end.

(** One iteration of the loop over the bindings. *)
Definition consider_binding (member govern : list string) (best : Role) (b : AccessBinding) : Role :=
  if negb (b_Group b ∈? member) || negb (b_Scope b ∈? govern) then best
  else match ParseRole (b_Role b) with Some r => consider best r | None => best end.

Definition baseline_role (rv : Resolver) (member : list string) : Role :=
  let best := None_ in
  let best := if intersects member (BaselineOwner rv) then consider best Owner_ else best in
  let best := if intersects member (BaselineEditor rv) then consider best Editor else best in
  if intersects member (BaselineViewer rv) then consider best Viewer else best.

Definition RoleAt (rv : Resolver) (u : User) (ref : string) : Role :=
  if u_Service u then Owner_
  else foldl (consider_binding (u_Groups u) (governingScopes ref))
         (baseline_role rv (u_Groups u)) (Bindings rv).

Definition CanViewAnything (rv : Resolver) (u : User) : bool :=
  if u_Service u then true
  else if Meets (RoleAt rv u "org") Viewer then true
  else existsb (λ b, (b_Group b ∈? u_Groups u)
                     && match ParseRole (b_Role b) with Some r => Meets r Viewer | None => false end)
         (Bindings rv).
End resolver.

(** ** The access list *)

Definition same_binding (group scope : string) (b : AccessBinding) : bool :=
  (b_Group b ==? group) && (b_Scope b ==? scope).

Definition Grant (b : AccessBinding) : Mutation := λ f,
  match validate_binding b with
  | Some e => Err e
  | None =>
      assert_none match cut_prefix (b_Scope b) "group:" with
                  | Some g => match f_Groups f !! g with
                              | None => Some (UnknownGroupInScope (b_Scope b)) | Some _ => None end
                  | None => None
                  end;
      Ok (f <| Access ::= λ l, delete_func (same_binding (b_Group b) (b_Scope b)) l ++ [b] |>)
  end.

Definition Revoke (group scope : string) : Mutation := λ f,
  let kept := delete_func (same_binding group scope) (Access f) in
  refuse bool_decide (length kept = length (Access f)) with NoBinding group scope;
  Ok (f <| Access := kept |>).

(** [IdentityResolver]: the fleet document as a directory. *)
#[export] Instance fleet_directory (f : Fleet) : Directory := {
  Ancestry := GroupAncestry f;
  DeviceGroups := λ tag, Groups (dev f tag)
}.

Definition IdentityResolver (f : Fleet) (baseViewer baseEditor baseOwner : list string)
    : Resolver :=
  Build_Resolver (Access f) baseViewer baseEditor baseOwner.

#[export] Instance fleet_directory_laws f : DirectoryLaws (fleet_directory f).
Proof. split. intros g a Ha b Hb. by eapply ancestry_trans. Qed.

(** ** Lemmas *)

Definition role_le (a b : Role) : Prop := role_rank a ≤ role_rank b.

#[export] Instance role_le_preorder : PreOrder role_le.
Proof. split; [by intros ?; unfold role_le; lia|]. intros ???; unfold role_le; lia. Qed.

Lemma role_le_antisym a b : role_le a b → role_le b a → a = b.
Proof. unfold role_le. destruct a, b; simpl; try done; lia. Qed.

Lemma consider_le best r x : role_le x (consider best r) ↔ role_le x best ∨ role_le x r.
Proof.
  unfold consider, role_le. destruct (Z.ltb_spec (role_rank best) (role_rank r)); lia.
Qed.

Section resolver_lemmas.
  Context `{Directory}.

(** A binding of the list gives the user a role over [ref]. *)
Definition grants (rv : Resolver) (u : User) (ref : string) (r : Role) : Prop :=
  ∃ b, b ∈ Bindings rv ∧ b_Group b ∈ u_Groups u ∧ b_Scope b ∈ governingScopes ref ∧
       ParseRole (b_Role b) = Some r.

Definition baseline_grants (rv : Resolver) (u : User) (r : Role) : Prop :=
  (r = Owner_ ∧ ∃ g, g ∈ BaselineOwner rv ∧ g ∈ u_Groups u) ∨
  (r = Editor ∧ ∃ g, g ∈ BaselineEditor rv ∧ g ∈ u_Groups u) ∨
  (r = Viewer ∧ ∃ g, g ∈ BaselineViewer rv ∧ g ∈ u_Groups u).

Lemma intersects_spec member groups :
  intersects member groups = true ↔ ∃ g, g ∈ groups ∧ g ∈ member.
Proof.
  unfold intersects. rewrite existsb_exists. setoid_rewrite <- list_elem_of_In.
  by setoid_rewrite bool_decide_eq_true.
Qed.

Lemma baseline_role_le rv u x :
  role_le x (baseline_role rv (u_Groups u)) ↔
  x = None_ ∨ ∃ r, baseline_grants rv u r ∧ role_le x r.
Proof.
  unfold baseline_role, baseline_grants.
  assert (Hn : role_le x None_ ↔ x = None_) by (unfold role_le; destruct x; simpl; split; done || lia).
  pose proof (intersects_spec (u_Groups u) (BaselineOwner rv)) as H1.
  pose proof (intersects_spec (u_Groups u) (BaselineEditor rv)) as H2.
  pose proof (intersects_spec (u_Groups u) (BaselineViewer rv)) as H3.
  destruct (intersects _ (BaselineOwner rv)), (intersects _ (BaselineEditor rv)),
    (intersects _ (BaselineViewer rv)); rewrite ?consider_le, Hn; naive_solver.
Qed.

Lemma fold_bindings_le member govern bs best x :
  role_le x (foldl (consider_binding member govern) best bs) ↔
  role_le x best ∨ ∃ b r, b ∈ bs ∧ b_Group b ∈ member ∧ b_Scope b ∈ govern ∧
                          ParseRole (b_Role b) = Some r ∧ role_le x r.
Proof.
  revert best. induction bs as [|b bs IH]; intros best; simpl.
  - split; [by left|]. intros [?|(? & ? & H1 & _)]; [done|by apply elem_of_nil in H1].
  - rewrite IH.
    assert (role_le x (consider_binding member govern best b) ↔
      role_le x best ∨ ∃ r, b_Group b ∈ member ∧ b_Scope b ∈ govern ∧
        ParseRole (b_Role b) = Some r ∧ role_le x r) as ->.
    { unfold consider_binding. repeat case_bool_decide; simpl; try naive_solver.
      destruct (ParseRole (b_Role b)) as [r|]; [rewrite consider_le; naive_solver|naive_solver]. }
    split.
    + intros [[?|(r & ?)]|(b' & r & ? & ?)]; [by left|right; exists b, r; split; [left|done]|].
      right. exists b', r. split; [by right|done].
    + intros [?|(b' & r & [->|?]%elem_of_cons & ?)]; [by left; left|left; right; eauto|].
      right. eauto.
Qed.

(** The role at a scope is the least upper bound of what applies. *)
Lemma RoleAt_le rv u ref x :
  u_Service u = false →
  role_le x (RoleAt rv u ref) ↔
  x = None_ ∨ (∃ r, baseline_grants rv u r ∧ role_le x r) ∨ (∃ r, grants rv u ref r ∧ role_le x r).
Proof.
  intros Hs. unfold RoleAt, grants. rewrite Hs, fold_bindings_le, baseline_role_le. naive_solver.
Qed.

Lemma RoleAt_mono rv u ref ref' :
  (∀ s, s ∈ governingScopes ref → s ∈ governingScopes ref') →
  role_le (RoleAt rv u ref) (RoleAt rv u ref').
Proof.
  intros Hsub. destruct (u_Service u) eqn:Hs; [unfold RoleAt; by rewrite Hs|].
  rewrite (RoleAt_le rv u ref') by done.
  pose proof (proj1 (RoleAt_le rv u ref (RoleAt rv u ref) Hs) (reflexivity _)) as Hr.
  destruct Hr as [?|[?|(r & (b & ? & ? & ? & ?) & ?)]]; [by left|by right; left|].
  right; right. exists r. split; [|done]. exists b. auto.
Qed.
End resolver_lemmas.

(** ** Properties *)

Section resolver_properties.
  Context {dir : Directory}.

Lemma governingScopes_group g a :
  a ∈ Ancestry g → (∀ b, b ∈ Ancestry a → b ∈ Ancestry g) →
  ∀ s, s ∈ governingScopes (group_ref a) → s ∈ governingScopes (group_ref g).
Proof.
  intros Ha Hcl s. unfold governingScopes. rewrite !scope_of_group, !elem_of_cons, !list_elem_of_fmap.
  intros [->|(b & -> & Hb)]; [by left|right]. exists b. auto.
Qed.

Lemma governingScopes_device t g :
  g ∈ DeviceGroups t → ∀ s, s ∈ governingScopes (group_ref g) → s ∈ governingScopes (device_ref t).
Proof.
  intros Hg s. unfold governingScopes. rewrite scope_of_group, scope_of_device.
  rewrite !elem_of_cons, !list_elem_of_fmap. setoid_rewrite list_elem_of_bind.
  intros [->|(b & -> & Hb)]; [by left|right]. exists b. eauto.
Qed.

Lemma viewer_somewhere rv u ref :
  Meets (RoleAt rv u ref) Viewer = true → CanViewAnything rv u = true.
Proof.
  unfold CanViewAnything, Meets. destruct (u_Service u) eqn:Hs; [done|].
  intros Hv%Z.leb_le. destruct (Z.leb_spec (role_rank Viewer) (role_rank (RoleAt rv u "org"))) as [_|Hlt]; [done|].
  apply existsb_exists.
  destruct (proj1 (RoleAt_le rv u ref Viewer Hs) Hv) as [?|[Hb|(r & (b & Hb & Hg & _ & Hp) & Hr)]]; [done| |].
  - exfalso. assert (role_le Viewer (RoleAt rv u "org")) as Ho by (apply RoleAt_le; auto).
    unfold role_le in Ho. lia.
  - exists b. rewrite <- list_elem_of_In, Hp. split; [done|].
    rewrite bool_decide_eq_true_2 by done. by apply Z.leb_le.
Qed.

(** The role a user holds at a scope is the least upper bound of the
    server baselines and of the well-formed bindings of the user's groups whose
    scope governs the target - so a binding reaches down the tree and never up:
    an organisation role holds everywhere, a role at a group holds in its
    subgroups and on its devices.  Service principals own everything, and who
    can view some scope passes the login gate. *)
Theorem RoleAt_characterised `{!DirectoryLaws dir} rv u :
  (u_Service u = true → ∀ ref, RoleAt rv u ref = Owner_) ∧
  (u_Service u = false → ∀ ref x, role_le x (RoleAt rv u ref) ↔
     x = None_ ∨ (∃ r, baseline_grants rv u r ∧ role_le x r) ∨
     (∃ r, grants rv u ref r ∧ role_le x r)) ∧
  (∀ ref, role_le (RoleAt rv u "org") (RoleAt rv u ref)) ∧
  (∀ g a, a ∈ Ancestry g → role_le (RoleAt rv u (group_ref a)) (RoleAt rv u (group_ref g))) ∧
  (∀ t g, g ∈ DeviceGroups t →
     role_le (RoleAt rv u (group_ref g)) (RoleAt rv u (device_ref t))) ∧
  (∀ ref, Meets (RoleAt rv u ref) Viewer = true → CanViewAnything rv u = true).
Proof.
  split_and!.
  - intros Hs ref. unfold RoleAt. by rewrite Hs.
  - intros Hs ref x. by apply RoleAt_le.
  - intros ref. apply RoleAt_mono. intros s Hs. unfold governingScopes in *. simpl in Hs.
    apply list_elem_of_singleton in Hs as ->. left.
  - intros g a Ha. apply RoleAt_mono, governingScopes_group; [done|].
    by apply ancestry_closed.
  - intros t g Hg. by apply RoleAt_mono, governingScopes_device.
  - apply viewer_somewhere.
Qed.
End resolver_properties.

Definition demo_user : User := Build_User "u1" ["ops"] false.
Definition demo_resolver : Resolver :=
  Build_Resolver [Build_AccessBinding "ops" "editor" "group:mid"] ["staff"] [] [].

Lemma RoleAt_characterised_witness :
  @RoleAt (fleet_directory demo_tree) demo_resolver demo_user "group:root" = None_ ∧
  @RoleAt (fleet_directory demo_tree) demo_resolver demo_user "group:mid" = Editor ∧
  role_le (@RoleAt (fleet_directory demo_tree) demo_resolver demo_user "group:mid")
          (@RoleAt (fleet_directory demo_tree) demo_resolver demo_user "group:leaf").
Proof.
  split; [vm_compute; reflexivity|]. split; [vm_compute; reflexivity|].
  destruct (RoleAt_characterised (dir := fleet_directory demo_tree) demo_resolver demo_user)
    as (_ & _ & _ & H & _).
  refine (H "leaf" "mid" _). apply (bool_decide_unpack _). vm_compute. exact I.
Defined.
