(* ===== verification/Text.v ===== *)
(** * Text: trimming, splitting and words

    More of package strings, shared by the components that check or print
    credentials and addresses. *)

From S2P Require Import Prelude GoLib.

Definition len (s : string) : Z := Z.of_nat (String.length s).

(** [strings.Map] of a byte function. *)
Fixpoint string_map (f : ascii → ascii) (s : string) : string :=
  match s with EmptyString => EmptyString | String a s => String (f a) (string_map f s) end.

(** [strings.IndexByte] and the two halves around it ([strings.Cut] of a byte). *)
Fixpoint cut_at (c : ascii) (s : string) : option (string * string) :=
  match s with
  | EmptyString => None
  | String a s =>
      if Ascii.eqb a c then Some (EmptyString, s)
      else '(x, y) ← cut_at c s; Some (String a x, y)
  end.

(** [strings.Split] by one byte. *)
Fixpoint split_on (c : ascii) (s : string) : list string :=
  match s with
  | EmptyString => [EmptyString]
  | String a s =>
      if Ascii.eqb a c then EmptyString :: split_on c s
      else match split_on c s with
           | w :: ws => String a w :: ws
           | [] => [String a EmptyString]
           end
  end.

(** [strings.ContainsAny]. *)
Fixpoint contains_any (s : string) (cs : list ascii) : bool :=
  match s with EmptyString => false | String a s => (a ∈? cs) || contains_any s cs end.

(** The printable ASCII characters other than the blank. *)
Definition graphic (a : ascii) : bool := in_range "033"%char "126"%char a.

Lemma string_forall_impl (p q : ascii → bool) s :
  (∀ a, p a = true → q a = true) → string_forall p s = true → string_forall q s = true.
Proof.
  intros Hpq. induction s as [|a s IH]; simpl; [done|].
  intros [Ha Hs]%andb_true_iff. rewrite (Hpq a Ha). by apply IH.
Qed.

Lemma string_forall_app p s t : string_forall p (s +:+ t) = string_forall p s && string_forall p t.
Proof. induction s as [|a s IH]; simpl; [done|]. by rewrite <- andb_assoc, <- IH. Qed.

Lemma string_forall_list p s : string_forall p s = true ↔ Forall (λ a, p a = true) (list_ascii_of_string s).
Proof.
  induction s as [|a s IH]; simpl; [split; [constructor|done]|].
  by rewrite Forall_cons, <- IH, andb_true_iff.
Qed.

Lemma string_app_assoc (a b c : string) : (a +:+ b) +:+ c = a +:+ (b +:+ c).
Proof. induction a as [|x a IH]; [done|]. by apply (f_equal (String x)). Qed.

Lemma string_app_nil (a : string) : a +:+ "" = a.
Proof. induction a as [|x a IH]; [done|]. by apply (f_equal (String x)). Qed.

Lemma string_length_app (a b : string) :
  String.length (a +:+ b) = (String.length a + String.length b)%nat.
Proof. induction a as [|x a IH]; [done|]. by apply (f_equal S). Qed.

(** ** Trimming a text without spaces *)

Definition starts_outside (p : ascii → bool) (enc : list ascii) : bool :=
  match enc with a :: _ => negb (p a) | [] => false end.

Lemma strip_one_outside p sp l :
  forallb (starts_outside p) sp = true → Forall (λ a, p a = true) l → strip_one sp l = None.
Proof.
  intros Hsp Hl. induction sp as [|enc sp IH]; [done|].
  simpl in Hsp. apply andb_true_iff in Hsp as [He Hsp]. simpl. rewrite (IH Hsp).
  destruct enc as [|a enc]; [done|]. simpl. destruct l as [|b l]; [done|].
  destruct (Ascii.eqb_spec a b) as [->|]; [|done].
  inversion Hl as [|? ? Hb _]; subst. simpl in He. by rewrite Hb in He.
Qed.

Lemma trim_left_outside p sp l :
  forallb (starts_outside p) sp = true → Forall (λ a, p a = true) l → trim_left sp l = l.
Proof. intros Hsp Hl. unfold trim_left. simpl. by rewrite (strip_one_outside p). Qed.

Lemma trim_space_graphic s : string_forall graphic s = true → trim_space s = s.
Proof.
  intros Hs%string_forall_list. unfold trim_space. cbv zeta.
  rewrite (trim_left_outside graphic spaces) by (vm_compute; reflexivity || done).
  rewrite (trim_left_outside graphic (map reverse spaces)).
  - rewrite reverse_involutive. apply string_of_list_ascii_of_string.
  - vm_compute. reflexivity.
  - by apply Forall_reverse.
Qed.

(** ** Cutting and splitting *)

Lemma cut_at_app c s t :
  string_forall (λ a, negb (Ascii.eqb a c)) s = true → cut_at c (s +:+ String c t) = Some (s, t).
Proof.
  induction s as [|a s IH].
  - intros _. simpl. by rewrite Ascii.eqb_refl.
  - simpl. intros [Ha Hs]%andb_true_iff. apply negb_true_iff in Ha. rewrite Ha.
    change (cut_at c (s +:+ String c t) ≫= (λ '(x, y), Some (String a x, y)) = Some (String a s, t)).
    by rewrite IH.
Qed.

Lemma cut_at_Some c s x y :
  cut_at c s = Some (x, y) → s = x +:+ String c y ∧ string_forall (λ a, negb (Ascii.eqb a c)) x = true.
Proof.
  revert x y. induction s as [|a s IH]; intros x y; simpl; [done|].
  destruct (Ascii.eqb_spec a c) as [->|Hne]; [by intros [= <- <-]|].
  destruct (cut_at c s) as [[x1 y1]|]; simpl; [|done]. intros [= <- <-].
  destruct (IH _ _ eq_refl) as [-> Hx]. split; [done|]. simpl. rewrite Hx.
  by destruct (Ascii.eqb_spec a c).
Qed.

Lemma split_on_none c s :
  string_forall (λ a, negb (Ascii.eqb a c)) s = true → split_on c s = [s].
Proof.
  induction s as [|a s IH]; simpl; [done|].
  intros [Ha Hs]%andb_true_iff. apply negb_true_iff in Ha. by rewrite Ha, IH.
Qed.

Lemma split_on_app c s t :
  string_forall (λ a, negb (Ascii.eqb a c)) s = true →
  split_on c (s +:+ String c t) = s :: split_on c t.
Proof.
  induction s as [|a s IH].
  - intros _. simpl. by rewrite Ascii.eqb_refl.
  - simpl. intros [Ha Hs]%andb_true_iff. apply negb_true_iff in Ha. rewrite Ha.
    change (match split_on c (s +:+ String c t) with
            | w :: ws => String a w :: ws | [] => [String a ""] end = String a s :: split_on c t).
    by rewrite IH.
Qed.

Lemma string_map_id f s : string_forall (λ a, Ascii.eqb (f a) a) s = true → string_map f s = s.
Proof.
  induction s as [|a s IH]; simpl; [done|].
  intros [Ha%Ascii.eqb_eq Hs]%andb_true_iff. by rewrite Ha, IH.
Qed.

Lemma to_lower_map s : to_lower s = string_map lower_ascii s.
Proof. induction s as [|a s IH]; simpl; [done|]. by rewrite IH. Qed.

(** Deciding a statement about all bytes. *)
Definition all_bytes : list ascii := map (λ n, ascii_of_N (N.of_nat n)) (seq 0 256).

Lemma forall_bytes (p : ascii → bool) : forallb p all_bytes = true → ∀ a, p a = true.
Proof.
  intros Hp a. rewrite forallb_forall in Hp. apply Hp. unfold all_bytes. apply in_map_iff.
  exists (N.to_nat (N_of_ascii a)). rewrite N2Nat.id, ascii_N_embedding. split; [done|].
  apply in_seq. pose proof (N_ascii_bounded a). lia.
Qed.

Lemma implb_bytes (p q : ascii → bool) :
  forallb (λ a, implb (p a) (q a)) all_bytes = true → ∀ a, p a = true → q a = true.
Proof. intros Hall a Ha. pose proof (forall_bytes _ Hall a) as H. cbv beta in H. by rewrite Ha in H. Qed.

(** ** Trimming twice *)

Lemma strip_list_Some p l x : strip_list p l = Some x ↔ l = p ++ x.
Proof.
  revert l. induction p as [|a p IH]; intros [|b l]; simpl; try naive_solver.
  destruct (Ascii.eqb_spec a b) as [->|Hne]; [rewrite IH; naive_solver|naive_solver].
Qed.

Lemma strip_one_Some sp l x : strip_one sp l = Some x → ∃ p, p ∈ sp ∧ l = p ++ x.
Proof.
  induction sp as [|p sp IH]; simpl; [done|]. destruct (strip_list p l) as [y|] eqn:H.
  - intros [= <-]. exists p. split; [left|by apply strip_list_Some].
  - intros (q & Hq & ->)%IH. exists q. split; [by right|done].
Qed.

Lemma strip_one_None sp l : strip_one sp l = None ↔ ∀ p x, p ∈ sp → l ≠ p ++ x.
Proof.
  induction sp as [|p sp IH]; simpl; [split; [intros _ p x []%elem_of_nil|done]|].
  destruct (strip_list p l) as [y|] eqn:H.
  - split; [done|]. intros Hn. apply strip_list_Some in H. by destruct (Hn p y); [left|].
  - rewrite IH. split.
    + intros Hn q x [->|Hq]%elem_of_cons; [|by apply Hn]. intros Hl%strip_list_Some. congruence.
    + intros Hn q x Hq. apply Hn. by right.
Qed.

Lemma strip_all_spec sp fuel l :
  Forall (λ p, p ≠ []) sp → (length l < fuel)%nat →
  strip_one sp (strip_all fuel sp l) = None ∧ ∃ pre, l = pre ++ strip_all fuel sp l.
Proof.
  intros Hsp. revert l. induction fuel as [|fuel IH]; intros l Hf; [lia|]. simpl.
  destruct (strip_one sp l) as [x|] eqn:H; [|split; [done|by exists []]].
  apply strip_one_Some in H as (p & Hp & ->).
  assert (p ≠ []) as Hne by (by apply (proj1 (Forall_forall _ _) Hsp)).
  destruct (IH x) as [H1 [pre Hpre]].
  { rewrite length_app in Hf. destruct p; [done|]. simpl in Hf. lia. }
  split; [done|]. exists (p ++ pre). by rewrite <- app_assoc, <- Hpre.
Qed.

Lemma trim_left_spec sp l : Forall (λ p, p ≠ []) sp →
  strip_one sp (trim_left sp l) = None ∧ ∃ pre, l = pre ++ trim_left sp l.
Proof. intros Hsp. apply strip_all_spec; [done|lia]. Qed.

Lemma trim_left_stop sp l : strip_one sp l = None → trim_left sp l = l.
Proof. intros H. unfold trim_left. simpl. by rewrite H. Qed.

Lemma trim_space_idemp s : trim_space (trim_space s) = trim_space s.
Proof.
  unfold trim_space. cbv zeta. rewrite list_ascii_of_string_of_list_ascii.
  set (l := trim_left spaces (list_ascii_of_string s)).
  assert (Hne : Forall (λ p : list ascii, p ≠ []) spaces) by (repeat constructor; done).
  assert (Hne' : Forall (λ p : list ascii, p ≠ []) (map reverse spaces)) by (repeat constructor; done).
  destruct (trim_left_spec spaces (list_ascii_of_string s) Hne) as [Hl _]. fold l in Hl.
  destruct (trim_left_spec (map reverse spaces) (reverse l) Hne') as [Hr [pre Hpre]].
  set (r := trim_left (map reverse spaces) (reverse l)) in *. f_equal. f_equal.
  rewrite (trim_left_stop spaces (reverse r)).
  - by rewrite reverse_involutive, trim_left_stop.
  - apply strip_one_None. intros p x Hp Heq. apply (proj1 (strip_one_None spaces l) Hl p (x ++ reverse pre) Hp).
    rewrite app_assoc, <- Heq, <- reverse_app, <- Hpre. by rewrite reverse_involutive.
Qed.

(** ** Joining and splitting *)

Lemma split_on_join c l :
  l ≠ [] → Forall (λ s, string_forall (λ a, negb (Ascii.eqb a c)) s = true) l →
  split_on c (join l (String c "")) = l.
Proof.
  intros Hne Hl. induction Hl as [|s l Hs Hl IH]; [done|]. destruct l as [|t l].
  - by apply split_on_none.
  - change (join (s :: t :: l) (String c "")) with (s +:+ String c "" +:+ join (t :: l) (String c "")).
    change (String c "" +:+ join (t :: l) (String c "")) with (String c (join (t :: l) (String c ""))).
    rewrite split_on_app by done. by rewrite IH.
Qed.

Lemma split_on_pieces c s : Forall (λ w, string_forall (λ a, negb (Ascii.eqb a c)) w = true) (split_on c s).
Proof.
  induction s as [|a s IH]; simpl; [by repeat constructor|].
  destruct (Ascii.eqb a c) eqn:Ha; [by constructor|].
  destruct (split_on c s) as [|w ws]; [by repeat constructor; simpl; rewrite Ha|].
  inversion IH; subst. constructor; [|done]. simpl. by rewrite Ha.
Qed.

Lemma contains_any_false s cs : contains_any s cs = false ↔ string_forall (λ a, negb (a ∈? cs)) s = true.
Proof.
  induction s as [|a s IH]; simpl; [done|]. by rewrite orb_false_iff, andb_true_iff, negb_true_iff, IH.
Qed.

(** Trimming keeps a byte out. *)
Lemma trim_space_forall p s : string_forall p s = true → string_forall p (trim_space s) = true.
Proof.
  intros Hs%string_forall_list. unfold trim_space. cbv zeta. apply string_forall_list.
  rewrite list_ascii_of_string_of_list_ascii.
  assert (Hsub : ∀ sp l, Forall (λ p : list ascii, p ≠ []) sp → Forall (λ a, p a = true) l →
                   Forall (λ a, p a = true) (trim_left sp l)).
  { intros sp l Hsp Hl. destruct (trim_left_spec sp l Hsp) as [_ [pre Hpre]]. rewrite Hpre in Hl.
    by apply Forall_app in Hl as [_ ?]. }
  apply Forall_reverse, Hsub; [by repeat constructor|]. by apply Forall_reverse, Hsub; [repeat constructor|].
Qed.
