(* ===== verification/Tokens.v ===== *)
(** * API tokens (src/internal/domain/token/token.go)

    Minting, the secret with its embedded id, the encoded hash, and verification.
    Byte strings are [string]s; argon2id is the parameter [IDKey], the random
    bytes are arguments. *)

From S2P Require Import Prelude GoLib FleetModel Groups Identity Text.

(** ** Package encoding/base64, without padding *)

(** The alphabet: [url] selects the two characters of RFC 4648 section 5. *)
Definition sextet_char (url : bool) (n : N) : ascii :=
  if (n <? 26)%N then ascii_of_N (65 + n)
  else if (n <? 52)%N then ascii_of_N (97 + (n - 26))
  else if (n <? 62)%N then ascii_of_N (48 + (n - 52))
  else if (n =? 62)%N then (if url then "-" else "+")%char
  else (if url then "_" else "/")%char.

Definition char_sextet (url : bool) (a : ascii) : option N :=
  if is_upper a then Some (N_of_ascii a - 65)%N
  else if is_lower a then Some (N_of_ascii a - 97 + 26)%N
  else if is_digit a then Some (N_of_ascii a - 48 + 52)%N
  else if Ascii.eqb a (if url then "-" else "+")%char then Some 62%N
  else if Ascii.eqb a (if url then "_" else "/")%char then Some 63%N
  else None.

Section base64.
  Context (url : bool).

Fixpoint encode_bytes (l : list ascii) : list N :=
    match l with
    | [] => []
    | [a] => let a := N_of_ascii a in [a / 4; (a mod 4) * 16]%N
    | [a; b] => let a := N_of_ascii a in let b := N_of_ascii b in
        [a / 4; (a mod 4) * 16 + b / 16; (b mod 16) * 4]%N
    | a :: b :: c :: l => let a := N_of_ascii a in let b := N_of_ascii b in let c := N_of_ascii c in
        (a / 4 :: (a mod 4) * 16 + b / 16 :: (b mod 16) * 4 + c / 64 :: c mod 64 :: encode_bytes l)%N
    end.

  (** The decoder drops the bits a last, incomplete group leaves over. *)
Fixpoint decode_sextets (l : list N) : option (list ascii) :=
    match l with
    | [] => Some []
    | [_] => None
    | [s0; s1] => Some [ascii_of_N (s0 * 4 + s1 / 16)]
    | [s0; s1; s2] => Some [ascii_of_N (s0 * 4 + s1 / 16); ascii_of_N ((s1 mod 16) * 16 + s2 / 4)]
    | s0 :: s1 :: s2 :: s3 :: l =>
        r ← decode_sextets l;
        Some (ascii_of_N (s0 * 4 + s1 / 16) :: ascii_of_N ((s1 mod 16) * 16 + s2 / 4)
              :: ascii_of_N ((s2 mod 4) * 64 + s3) :: r)
    end%N.

Definition EncodeToString (s : string) : string :=
    string_of_list_ascii (map (sextet_char url) (encode_bytes (list_ascii_of_string s))).

  (** New lines in the text are skipped. *)
Definition DecodeString (s : string) : option string :=
    let l := delete_func (λ a, (a ∈? ["010"; "013"])%char) (list_ascii_of_string s) in
    sextets ← mapM (char_sextet url) l;
    string_of_list_ascii <$> decode_sextets sextets.
End base64.

Definition sextet_ok (url : bool) (n : N) : bool :=
  bool_decide (char_sextet url (sextet_char url n) = Some n) && (n <? 64)%N.

Lemma sextets_ok url n : (n < 64)%N → sextet_ok url n = true.
Proof.
  intros Hn.
  assert (Hall : forallb (sextet_ok url) (map N.of_nat (seq 0 64)) = true) by (destruct url; vm_compute; reflexivity).
  rewrite forallb_forall in Hall. apply Hall, in_map_iff. exists (N.to_nat n). split; [lia|]. apply in_seq. lia.
Qed.

Lemma char_of_sextet url n : (n < 64)%N → char_sextet url (sextet_char url n) = Some n.
Proof.
  intros Hn%(sextets_ok url). unfold sextet_ok in Hn. by apply andb_true_iff in Hn as [?%bool_decide_eq_true _].
Qed.

Lemma byte_bound a : (N_of_ascii a < 256)%N.
Proof. apply N_ascii_bounded. Qed.

Lemma byte_back a n : n = N_of_ascii a → ascii_of_N n = a.
Proof. intros ->. apply ascii_N_embedding. Qed.

#[local] Ltac Zify.zify_post_hook ::= Z.to_euclidean_division_equations.

(** Induction by groups of three bytes. *)
Lemma list_ind3 {A} (P : list A → Prop) :
  P [] → (∀ a, P [a]) → (∀ a b, P [a; b]) → (∀ a b c l, P l → P (a :: b :: c :: l)) → ∀ l, P l.
Proof.
  intros H0 H1 H2 H3. fix IH 1. intros [|a [|b [|c l]]]; [exact H0|apply H1|apply H2|apply H3, IH].
Qed.

Lemma encode_bytes_bound l : Forall (λ n, n < 64)%N (encode_bytes l).
Proof.
  induction l as [|a|a b|a b c l IH] using list_ind3; simpl; [constructor|..].
  - pose proof (byte_bound a). repeat (constructor; [lia|]). constructor.
  - pose proof (byte_bound a). pose proof (byte_bound b). repeat (constructor; [lia|]). constructor.
  - pose proof (byte_bound a). pose proof (byte_bound b). pose proof (byte_bound c).
    repeat (constructor; [lia|]). exact IH.
Qed.

Lemma decode_encode_bytes l : decode_sextets (encode_bytes l) = Some l.
Proof.
  induction l as [|a|a b|a b c l IH] using list_ind3; simpl; [done|..].
  - pose proof (byte_bound a). do 2 f_equal. apply byte_back. lia.
  - pose proof (byte_bound a). pose proof (byte_bound b). do 2 f_equal; [|f_equal]; apply byte_back; lia.
  - pose proof (byte_bound a). pose proof (byte_bound b). pose proof (byte_bound c). rewrite IH. simpl.
    do 2 f_equal; [|f_equal; [|f_equal]]; apply byte_back; lia.
Qed.

Definition base64_char (url : bool) (a : ascii) : bool :=
  match char_sextet url a with Some _ => true | None => false end.

Lemma EncodeToString_chars url s : string_forall (base64_char url) (EncodeToString url s) = true.
Proof.
  apply string_forall_list. unfold EncodeToString. rewrite list_ascii_of_string_of_list_ascii.
  apply Forall_map, Forall_forall. intros n Hn. unfold base64_char.
  rewrite char_of_sextet; [done|].
  by apply (proj1 (Forall_forall _ _) (encode_bytes_bound (list_ascii_of_string s))).
Qed.

(** Decoding undoes encoding. *)
Lemma DecodeString_EncodeToString url s : DecodeString url (EncodeToString url s) = Some s.
Proof.
  unfold DecodeString. cbv zeta.
  rewrite (delete_func_all _ (list_ascii_of_string (EncodeToString url s))).
  - unfold EncodeToString. rewrite list_ascii_of_string_of_list_ascii.
    rewrite (proj2 (mapM_Some (char_sextet url) _ (encode_bytes (list_ascii_of_string s)))).
    + simpl. rewrite decode_encode_bytes. simpl. by rewrite string_of_list_ascii_of_string.
    + change (map (sextet_char url)) with (fmap (M := list) (sextet_char url)).
      apply Forall2_fmap_l, Forall_Forall2_diag. eapply Forall_impl; [apply encode_bytes_bound|].
      intros n Hn. by apply char_of_sextet.
  - intros a Ha. pose proof (EncodeToString_chars url s) as Hc. apply string_forall_list in Hc.
    apply (proj1 (Forall_forall _ _) Hc) in Ha.
    apply negb_true_iff. revert a Ha.
    refine (implb_bytes (base64_char url) (λ a, negb (a ∈? ["010"; "013"])%char) _). by destruct url; vm_compute.
Qed.

(** ** Tokens *)

(** A Go [Kind] is a string: the four constants, or any other text. *)
Inductive TokenKind := Personal | Service | Device | Station | OtherTokenKind (s : string).

#[export] Instance TokenKind_eq_dec : EqDecision TokenKind.
Proof. solve_decision. Defined.

Record Token := mkToken {
  tok_ID : string; tok_Name : string; tok_Kind : TokenKind; tok_Subject : string;
  tok_Groups : list string; tok_Ceiling : string; tok_Hash : string;
  tok_Created : Time; Expires : Time; LastUsed : option Time
}.
#[export] Instance Token_eta : Eta Token := λ t,
  mkToken (tok_ID t) (tok_Name t) (tok_Kind t) (tok_Subject t) (tok_Groups t) (tok_Ceiling t)
    (tok_Hash t) (tok_Created t) (Expires t) (LastUsed t).

Definition prefix : string := "sxt_".
Definition saltLen : nat := 16.
Definition secretLen : nat := 24.

(** [idRe], [^[a-z0-9][a-z0-9-]{0,62}$]. *)
Definition tid_head (a : ascii) : bool := is_lower a || is_digit a.
Definition tid_char (a : ascii) : bool := tid_head a || Ascii.eqb a "-".
Definition idRe (id : string) : bool :=
  match id with
  | String a r => tid_head a && string_forall tid_char r && (String.length r <=? 62)%nat
  | EmptyString => false
  end.

Inductive TokenErr :=
  | TokenIncomplete | UnknownTokenKind (k : TokenKind) | BadCeiling (c : string) | TTLNotPositive | BadTokenID (id : string)
  | BadHash
  | TokenExists (id : string) | UnknownToken (id : string) | TokenDb.

Definition IDFromSecret (secret : string) : string :=
  match cut_prefix secret prefix with
  | None => ""
  | Some rest =>
      match cut_at "_" rest with
      | None => ""
      | Some (id, _) => if (id ==? "") || negb (idRe id) then "" else id
      end
  end.

Definition Expired (t : Token) (now : Time) : bool := negb (now <? Expires t).

Definition token_user (t : Token) : User := Build_User (tok_Subject t) (tok_Groups t) false.

Definition CeilingRole (t : Token) : Role * bool :=
  if tok_Ceiling t ==? "" then (None_, false) else (default None_ (ParseRole (tok_Ceiling t)), true).

Section hashing.
  (** argon2id with the parameters of the package. *)
  Context (IDKey : string → string → string).

Definition hashSecret (salt secret : string) : string :=
    "argon2id$65536,1,4$" +:+ EncodeToString false salt +:+ "$" +:+ EncodeToString false (IDKey secret salt).

Definition decodeHash (s : string) : res TokenErr (string * string) :=
    match split_on "$" s with
    | [p0; _; p2; p3] =>
        refuse p0 !=? "argon2id" with BadHash;
        match DecodeString false p2, DecodeString false p3 with
        | Some salt, Some key => Ok (salt, key)
        | _, _ => Err BadHash
        end
    | _ => Err BadHash
    end.

Definition Verify (t : Token) (secret : string) : bool :=
    match decodeHash (tok_Hash t) with
    | Err _ => false
    | Ok (salt, key) => IDKey secret salt ==? key
    end.

  (** [Mint], with the bytes [rand.Read] delivered for the secret and the salt. *)
Definition Mint (raw salt : string) (id name : string) (kind : TokenKind) (subject : string)
      (groups : list string) (ceiling : string) (now ttl : Z) : res TokenErr (Token * string) :=
    refuse (id ==? "") || (name ==? "") || (subject ==? "") with TokenIncomplete;
    refuse negb (kind ∈? [Personal; Service; Device; Station]) with UnknownTokenKind kind;
    refuse (ceiling !=? "") && negb (bool_decide (is_Some (ParseRole ceiling))) with BadCeiling ceiling;
    refuse ttl <=? 0 with TTLNotPositive;
    refuse negb (idRe id) with BadTokenID id;
    let secret := prefix +:+ id +:+ "_" +:+ EncodeToString true raw in
    Ok (mkToken id name kind subject groups ceiling (hashSecret salt secret) now (now + ttl) None, secret).

  (** *** Round trips *)

Lemma decodeHash_hashSecret salt secret : decodeHash (hashSecret salt secret) = Ok (salt, IDKey secret salt).
Proof.
    assert (Hd : ∀ s, string_forall (λ a, negb (Ascii.eqb a "$")) (EncodeToString false s) = true).
    { intros s. eapply string_forall_impl; [|apply EncodeToString_chars]. apply implb_bytes. by vm_compute. }
    unfold decodeHash, hashSecret.
    change ("argon2id$65536,1,4$" +:+ EncodeToString false salt +:+ "$" +:+ EncodeToString false (IDKey secret salt))
      with ("argon2id" +:+ String "$" ("65536,1,4" +:+ String "$"
              (EncodeToString false salt +:+ String "$" (EncodeToString false (IDKey secret salt))))).
    rewrite !split_on_app by (done || apply Hd). rewrite split_on_none by apply Hd.
    simpl. by rewrite !DecodeString_EncodeToString.
Qed.

Lemma tid_no_underscore id : idRe id = true → string_forall (λ a, negb (Ascii.eqb a "_")) id = true.
Proof.
    destruct id as [|a r]; [done|]. simpl. intros [[Ha Hr]%andb_true_iff _]%andb_true_iff.
    assert (Hc : ∀ b, tid_char b = true → negb (Ascii.eqb b "_") = true)
      by (apply implb_bytes; by vm_compute).
    rewrite (Hc a) by (unfold tid_char; by rewrite Ha). by eapply string_forall_impl.
Qed.

Lemma IDFromSecret_id id rest : idRe id = true → IDFromSecret (prefix +:+ id +:+ "_" +:+ rest) = id.
Proof.
    intros Hid. unfold IDFromSecret. rewrite cut_prefix_app.
    change (id +:+ "_" +:+ rest) with (id +:+ String "_" rest).
    rewrite cut_at_app by by apply tid_no_underscore. rewrite Hid. simpl.
    destruct id; [done|]. by rewrite orb_false_r, bool_decide_eq_false_2.
Qed.

Lemma Mint_Ok raw salt id name kind subject groups ceiling now ttl tok secret :
    Mint raw salt id name kind subject groups ceiling now ttl = Ok (tok, secret) →
    idRe id = true ∧ 0 < ttl ∧ secret = prefix +:+ id +:+ "_" +:+ EncodeToString true raw ∧
    tok = mkToken id name kind subject groups ceiling (hashSecret salt secret) now (now + ttl) None ∧
    (ceiling = "" ∨ is_Some (ParseRole ceiling)).
Proof.
    unfold Mint. destruct ((id ==? "") || (name ==? "") || (subject ==? "")); [done|].
    destruct (negb (kind ∈? [Personal; Service; Device; Station])); [done|].
    destruct ((ceiling !=? "") && negb (bool_decide (is_Some (ParseRole ceiling)))) eqn:Hc; [done|].
    destruct (Z.leb_spec ttl 0); [done|]. destruct (idRe id) eqn:Hid; [|done]. simpl.
    intros [= <- <-]. repeat (split; [done|]). apply andb_false_iff in Hc as [Hc|Hc].
    - left. by apply negb_false_iff, bool_decide_eq_true in Hc.
    - right. by apply negb_false_iff, bool_decide_eq_true in Hc.
Qed.

  (** A minted secret leads back to its record and opens it, and nothing else
      about the record does.  The id embedded in the secret is the id of the
      record; the stored hash decodes to the salt and the key that were encoded;
      the secret verifies; another text verifies exactly when argon2id gives it
      the same key under that salt; and the record expires after its positive
      lifetime, not before. *)
Theorem mint_round_trip raw salt id name kind subject groups ceiling now ttl tok secret :
    Mint raw salt id name kind subject groups ceiling now ttl = Ok (tok, secret) →
    IDFromSecret secret = tok_ID tok ∧
    decodeHash (tok_Hash tok) = Ok (salt, IDKey secret salt) ∧
    Verify tok secret = true ∧
    (∀ other, Verify tok other = true ↔ IDKey other salt = IDKey secret salt) ∧
    (∀ at_, Expired tok at_ = true ↔ now + ttl ≤ at_) ∧ now < Expires tok.
Proof.
    intros (Hid & Httl & Hsec & -> & _)%Mint_Ok. simpl. split; [|split; [|split; [|split; [|split]]]].
    - rewrite Hsec. by apply IDFromSecret_id.
    - apply decodeHash_hashSecret.
    - unfold Verify. simpl. rewrite decodeHash_hashSecret. by apply bool_decide_eq_true.
    - intros other. unfold Verify. simpl. rewrite decodeHash_hashSecret. apply bool_decide_eq_true.
    - intros at_. unfold Expired. simpl. rewrite negb_true_iff, Z.ltb_ge. done.
    - lia.
Qed.
End hashing.

(** A stand-in for argon2id that keeps its arguments apart. *)
Definition demo_key (secret salt : string) : string := salt +:+ secret.

Definition demo_token : res TokenErr (Token * string) :=
  Mint demo_key "RANDOM-RANDOM-RANDOM-24b" "sixteen-bytes-ok" "ci-1" "pipeline" Personal "u1" ["ops"] "viewer" 100 50.

Lemma mint_round_trip_witness :
  match demo_token with
  | Ok (tok, secret) => secret = "sxt_ci-1_UkFORE9NLVJBTkRPTS1SQU5ET00tMjRi" ∧ IDFromSecret secret = "ci-1" ∧
                        Verify demo_key tok secret = true
  | Err _ => False
  end.
Proof.
  destruct demo_token as [[tok secret]|e] eqn:Hm; [|vm_compute in Hm; discriminate].
  destruct (mint_round_trip demo_key _ _ _ _ _ _ _ _ _ _ _ _ Hm) as (Hid & _ & Hv & _).
  vm_compute in Hm. injection Hm as <- <-. split; [reflexivity|]. split; [exact Hid|exact Hv].
Defined.
