(* ===== verification/HostKeys.v ===== *)
(** * Host keys (src/internal/domain/fleet/hostkey.go)

    The SSH host public key of a device: the check of a reported key, its
    canonical text, its fingerprint and its record on the device. *)

From S2P Require Import Prelude GoLib FleetModel Text Tokens.

(** ** More of package strings: [Fields] *)

Definition flush (cur : list ascii) : list string :=
  match cur with [] => [] | _ => [string_of_list_ascii (reverse cur)] end.

(** The words between spaces ([unicode.IsSpace], by its encodings); [cur] is the
    word being read, reversed. *)
Fixpoint fields_from (fuel : nat) (l cur : list ascii) : list string :=
  match fuel with
  | O => flush cur
  | S fuel =>
      match strip_one spaces l, l with
      | Some r, _ => flush cur ++ fields_from fuel r []
      | None, a :: l => fields_from fuel l (a :: cur)
      | None, [] => flush cur
      end
  end.

Definition Fields (s : string) : list string :=
  let l := list_ascii_of_string s in fields_from (S (length l)) l [].

(** ** More of packages encoding/base64 and encoding/hex *)

(** The text without its padding, at most two characters. *)
Definition strip_padding (l : list ascii) : list ascii :=
  match reverse l with
  | "="%char :: "="%char :: r => reverse r
  | "="%char :: r => reverse r
  | _ => l
  end.

(** [StdEncoding.DecodeString]: whole groups of four, the last one padded. *)
Definition StdDecodeString (s : string) : option (list ascii) :=
  let l := delete_func (λ a, (a ∈? ["010"; "013"])%char) (list_ascii_of_string s) in
  if negb (Z.of_nat (length l) mod 4 =? 0) then None else
  sextets ← mapM (char_sextet false) (strip_padding l);
  decode_sextets sextets.

Definition hex_digit (n : N) : ascii := if (n <? 10)%N then ascii_of_N (48 + n) else ascii_of_N (87 + n).

(** [hex.EncodeToString]. *)
Fixpoint hex_encode (s : string) : string :=
  match s with
  | EmptyString => EmptyString
  | String a s => String (hex_digit (N_of_ascii a / 16)) (String (hex_digit (N_of_ascii a mod 16)) (hex_encode s))
  end.

(** [crypto/sha256]: the digest of a byte string. *)
Class Sha256 := sha256 : string → string.

(** ** The check *)

Definition maxHostKeyLen : Z := 1024.

Definition hostKeyAlgos : list string :=
  ["ssh-ed25519"; "ssh-rsa"; "ecdsa-sha2-nistp256"; "ecdsa-sha2-nistp384"; "ecdsa-sha2-nistp521"].

Definition control (a : ascii) : bool := in_range "000" "031" a || Ascii.eqb a "127".

(** [binary.BigEndian.Uint32]. *)
Definition be32 (a b c d : ascii) : N :=
  (((N_of_ascii a * 256 + N_of_ascii b) * 256 + N_of_ascii c) * 256 + N_of_ascii d)%N.

Definition sshBlobAlgo (blob : list ascii) : option string :=
  match blob with
  | a :: b :: c :: d :: rest =>
      let n := be32 a b c d in
      if (n =? 0)%N || (N.of_nat (length rest) <? n)%N then None
      else Some (string_of_list_ascii (take (N.to_nat n) rest))
  | _ => None
  end.

Definition NormalizeHostKey (raw : string) : res HostKeyErr string :=
  let key := trim_space raw in
  if key ==? "" then Err EmptyKey
  else if maxHostKeyLen <? len key then Err (KeyTooLong (len key))
  else if negb (string_forall (λ a, negb (control a)) key) then Err ControlCharacter
  else
    let fields := Fields key in
    match fields with
    | algo :: body :: _ =>
        if negb (algo ∈? hostKeyAlgos) then Err (UnsupportedAlgorithm algo)
        else match StdDecodeString body with
             | None => Err KeyNotBase64
             | Some blob => if sshBlobAlgo blob ==? Some algo then Ok (join fields " ") else Err (AlgorithmMismatch algo)
             end
    | _ => Err NotKeyForm
    end.

Definition HostKeyFingerprint `{Sha256} (key : string) : string :=
  match Fields key with
  | _ :: body :: _ =>
      match StdDecodeString body with
      | None => ""
      | Some blob => String.substring 0 12 (hex_encode (sha256 (string_of_list_ascii blob)))
      end
  | _ => ""
  end.

#[export] Instance ITAM_eta : Eta ITAM := λ i, Build_ITAM (Serial i) (Model i) (Owner i) (Site i) (Lifecycle i) (HostKeyID i).

Definition SetDeviceHostKey (tag pubkey : string) (force : bool) : Mutation := λ f,
  match Devices f !! tag with
  | None => Err (UnknownDevice tag)
  | Some d =>
      match NormalizeHostKey pubkey with
      | Err e => Err (BadHostKey e)
      | Ok key =>
          let cur := HostKeyID (d_ITAM d) in
          if (cur !=? "") && (cur !=? key) && negb force then Err (HostKeyOnFile tag cur key)
          else Ok (f <| Devices ::= <[tag := d <| d_ITAM ::= λ i, i <| HostKeyID := key |> |>]> |>)
      end
  end.

(** ** Words of a text *)

#[local] Arguments strip_one : simpl never.

(** No space starts inside [w] when [l] follows it. *)
Definition no_space_in (w l : list ascii) : Prop :=
  ∀ pre s, w = pre ++ s → s ≠ [] → strip_one spaces (s ++ l) = None.

Definition word (w : string) : Prop := w ≠ "" ∧ no_space_in (list_ascii_of_string w) [].

Lemma strip_one_shorter l r x : strip_one spaces (l ++ r) = None → strip_one spaces l = Some x → False.
Proof.
  intros Hn (p & Hp & ->)%strip_one_Some. apply (proj1 (strip_one_None _ _) Hn p (x ++ r) Hp). by rewrite app_assoc.
Qed.

Lemma no_space_in_weaken w l : no_space_in w l → no_space_in w [].
Proof.
  intros Hw pre s -> Hs. rewrite app_nil_r. destruct (strip_one spaces s) as [x|] eqn:Hx; [|done].
  exfalso. by eapply strip_one_shorter; [apply (Hw pre s)|].
Qed.

Lemma no_space_in_snoc w a l : no_space_in w (a :: l) → strip_one spaces (a :: l) = None → no_space_in (w ++ [a]) l.
Proof.
  intros Hw Ha pre s Heq Hs. destruct s as [|b s'] using rev_ind; [done|]. clear IHs'.
  rewrite app_assoc in Heq. apply app_inj_tail in Heq as [-> <-]. rewrite <- app_assoc. simpl.
  destruct s' as [|c s']; [done|]. by apply (Hw pre (c :: s')).
Qed.

Lemma flush_words cur l : no_space_in (reverse cur) l → Forall word (flush cur).
Proof.
  intros Hc. destruct cur as [|a cur]; simpl; [constructor|]. constructor; [|constructor]. split.
  - intros Hn. apply (f_equal list_ascii_of_string) in Hn. rewrite list_ascii_of_string_of_list_ascii in Hn.
    apply (f_equal length) in Hn. rewrite length_reverse in Hn. done.
  - rewrite list_ascii_of_string_of_list_ascii. by eapply no_space_in_weaken.
Qed.

Lemma spaces_not_nil : Forall (λ p : list ascii, p ≠ []) spaces.
Proof. by repeat constructor. Qed.

Lemma strip_one_length l r : strip_one spaces l = Some r → (length r < length l)%nat.
Proof.
  intros (p & Hp & ->)%strip_one_Some. pose proof (proj1 (Forall_forall _ _) spaces_not_nil p Hp) as Hne.
  rewrite length_app. destruct p; [done|]. simpl. lia.
Qed.

(** What a run of the splitter keeps: a property of words, of bytes, and the
    room the words take. *)
Lemma fields_from_words fuel l cur :
  (length l < fuel)%nat → no_space_in (reverse cur) l → Forall word (fields_from fuel l cur).
Proof.
  revert l cur. induction fuel as [|fuel IH]; intros l cur Hf Hc; [lia|]. simpl.
  destruct (strip_one spaces l) as [r|] eqn:Hl.
  - apply Forall_app. split; [by eapply flush_words|]. apply strip_one_length in Hl. apply IH; [lia|].
    intros pre s Heq Hs. by destruct pre, s.
  - destruct l as [|a l]; [by eapply flush_words|]. apply IH; [simpl in Hf; lia|]. rewrite reverse_cons.
    by apply no_space_in_snoc.
Qed.

Definition room (ws : list string) : nat := list_sum (map (λ w, S (String.length w)) ws).

Lemma length_string_of_list l : String.length (string_of_list_ascii l) = length l.
Proof. induction l as [|a l IH]; [done|]. by apply (f_equal S). Qed.

Lemma room_app ws vs : room (ws ++ vs) = (room ws + room vs)%nat.
Proof. unfold room. by rewrite map_app, list_sum_app. Qed.

Lemma room_flush cur : (room (flush cur) ≤ S (length cur))%nat.
Proof. destruct cur; unfold room; simpl; [lia|]. rewrite length_string_of_list, length_reverse. simpl. lia. Qed.

Lemma fields_from_room fuel l cur : (room (fields_from fuel l cur) ≤ S (length cur + length l))%nat.
Proof.
  revert l cur. induction fuel as [|fuel IH]; intros l cur; simpl; [pose proof (room_flush cur); lia|].
  destruct (strip_one spaces l) as [r|] eqn:Hl.
  - rewrite room_app. apply strip_one_length in Hl. specialize (IH r []). pose proof (room_flush cur). simpl in IH. lia.
  - destruct l as [|a l]; [pose proof (room_flush cur); lia|]. specialize (IH l (a :: cur)). simpl in *. lia.
Qed.

Lemma fields_from_forall p fuel l cur :
  Forall (λ a, p a = true) l → Forall (λ a, p a = true) cur →
  Forall (λ w, string_forall p w = true) (fields_from fuel l cur).
Proof.
  assert (Hfl : ∀ cur, Forall (λ a, p a = true) cur → Forall (λ w, string_forall p w = true) (flush cur)).
  { intros c Hc. destruct c; simpl; repeat constructor. apply string_forall_list.
    rewrite list_ascii_of_string_of_list_ascii. by apply Forall_reverse. }
  revert l cur. induction fuel as [|fuel IH]; intros l cur Hl Hc; simpl; [by apply Hfl|].
  destruct (strip_one spaces l) as [r|] eqn:Hr.
  - apply Forall_app. split; [by apply Hfl|]. apply strip_one_Some in Hr as (q & _ & ->).
    apply Forall_app in Hl as [_ Hl]. by apply IH.
  - destruct l as [|a l]; [by apply Hfl|]. apply Forall_cons in Hl as [Ha Hl]. apply IH; [done|]. by constructor.
Qed.

(** ** Words joined by blanks are read back *)

Definition blank : ascii := " "%char.

(** In no encoding of a space does a blank follow or precede another byte. *)
Definition lone_blank (p : list ascii) : bool := (length p =? 1)%nat || negb (existsb (Ascii.eqb blank) p).

Lemma spaces_lone p : p ∈ spaces → ∀ x y, p = x ++ blank :: y → x = [] ∧ y = [].
Proof.
  intros Hp x y ->. assert (Hall : forallb lone_blank spaces = true) by (vm_compute; reflexivity).
  rewrite forallb_forall in Hall. apply list_elem_of_In in Hp. specialize (Hall _ Hp). unfold lone_blank in Hall.
  rewrite existsb_app in Hall. simpl in Hall. rewrite orb_true_r in Hall. simpl in Hall. rewrite orb_false_r in Hall.
  apply Nat.eqb_eq in Hall. rewrite length_app in Hall. simpl in Hall. destruct x, y; simpl in Hall; try done; lia.
Qed.

Lemma no_space_before_blank w l : no_space_in w [] → no_space_in w (blank :: l).
Proof.
  intros Hw pre s -> Hs. apply strip_one_None. intros p x Hp Heq.
  apply app_eq_inv in Heq as [(k & -> & Hk)|(k & -> & Hk)].
  - destruct k as [|b k].
    + simpl in Hk. rewrite app_nil_r in Hw, Hs. specialize (Hw pre p eq_refl Hs).
      apply (proj1 (strip_one_None _ _) Hw p [] Hp). by rewrite !app_nil_r.
    + specialize (Hw pre (p ++ b :: k) eq_refl Hs). rewrite app_nil_r in Hw.
      by apply (proj1 (strip_one_None _ _) Hw p (b :: k) Hp).
  - destruct k as [|b k].
    + simpl in Hk. rewrite app_nil_r in Hp. specialize (Hw pre s eq_refl Hs).
      apply (proj1 (strip_one_None _ _) Hw s [] Hp). done.
    + simpl in Hk. injection Hk as <- ->. by destruct (spaces_lone _ Hp s k eq_refl) as [-> _].
Qed.

Lemma fields_from_word fuel w l cur :
  no_space_in (reverse cur ++ w) l →
  fields_from (length w + fuel) (w ++ l) cur = fields_from fuel l (reverse w ++ cur).
Proof.
  revert cur. induction w as [|a w IH]; intros cur Hc; [done|]. simpl.
  assert (Ha : strip_one spaces (a :: w ++ l) = None).
  { specialize (Hc (reverse cur) (a :: w) eq_refl). by apply Hc. }
  rewrite Ha, IH; [by rewrite reverse_cons, <- app_assoc|]. rewrite reverse_cons, <- app_assoc. done.
Qed.

Lemma flush_word w : w ≠ "" → flush (reverse (list_ascii_of_string w)) = [w].
Proof.
  intros Hw. unfold flush. destruct (reverse (list_ascii_of_string w)) as [|a l] eqn:E.
  - apply (f_equal reverse) in E. rewrite reverse_involutive in E.
    apply (f_equal string_of_list_ascii) in E. by rewrite string_of_list_ascii_of_string in E.
  - rewrite <- E, reverse_involutive. by rewrite string_of_list_ascii_of_string.
Qed.

Lemma list_ascii_app s t : list_ascii_of_string (s +:+ t) = list_ascii_of_string s ++ list_ascii_of_string t.
Proof. induction s as [|a s IH]; [done|]. by apply (f_equal (cons a)). Qed.

Lemma length_list_ascii s : length (list_ascii_of_string s) = String.length s.
Proof. induction s as [|a s IH]; [done|]. by apply (f_equal S). Qed.

Lemma Fields_join ws : Forall word ws → Fields (join ws " ") = ws.
Proof.
  unfold Fields. intros Hws. cut (∀ n, fields_from (length (list_ascii_of_string (join ws " ")) + S n)
    (list_ascii_of_string (join ws " ")) [] = ws).
  { intros H. specialize (H 0%nat). by rewrite Nat.add_1_r in H. }
  induction Hws as [|w ws [Hne Hw] Hws IH]; intros n; [done|]. destruct ws as [|v ws].
  - change (join [w] " ") with w. rewrite <- (app_nil_r (list_ascii_of_string w)) at 2.
    rewrite fields_from_word by done. simpl. rewrite app_nil_r. by apply flush_word.
  - change (join (w :: v :: ws) " ") with (w +:+ " " +:+ join (v :: ws) " "). set (t := join (v :: ws) " ") in *.
    rewrite list_ascii_app. change (list_ascii_of_string (" " +:+ t)) with (blank :: list_ascii_of_string t).
    rewrite length_app, <- Nat.add_assoc, fields_from_word by by apply no_space_before_blank.
    rewrite app_nil_r. simpl length.
    change (flush (reverse (list_ascii_of_string w)) ++ fields_from (length (list_ascii_of_string t) + S n) (list_ascii_of_string t) [] = w :: v :: ws).
    rewrite IH. by rewrite flush_word.
Qed.

Lemma word_starts w t : word w → strip_one spaces (list_ascii_of_string (w +:+ t)) = None ∨
  ∃ a t', t = String a t' ∧ a ≠ blank.
Proof.
  intros [Hne Hw]. destruct t as [|a t].
  - left. rewrite string_app_nil. rewrite <- (app_nil_r (list_ascii_of_string w)). apply (Hw []); [done|].
    by destruct w.
  - destruct (decide (a = blank)) as [->|Ha]; [|right; eauto]. left. rewrite list_ascii_app.
    apply (no_space_before_blank _ _ Hw []); [done|]. by destruct w.
Qed.

Lemma joined_starts w ws : Forall word (w :: ws) → strip_one spaces (list_ascii_of_string (join (w :: ws) " ")) = None.
Proof.
  intros [Hw _]%Forall_cons. destruct ws as [|v ws].
  - change (join [w] " ") with w. rewrite <- (string_app_nil w). by destruct (word_starts w "" Hw) as [|(a & t & ? & _)].
  - change (join (w :: v :: ws) " ") with (w +:+ String blank (join (v :: ws) " ")).
    destruct (word_starts w (String blank (join (v :: ws) " ")) Hw) as [|(a & t & [= <- _] & Hb)]; done.
Qed.

(** The last word of a joined text, and what is before it. *)
Lemma joined_ends w ws : Forall word (w :: ws) → ∃ pre v, word v ∧
  list_ascii_of_string (join (w :: ws) " ") = pre ++ list_ascii_of_string v ∧ (pre = [] ∨ ∃ p, pre = p ++ [blank]).
Proof.
  revert w. induction ws as [|v ws IH]; intros w [Hw Hws]%Forall_cons.
  - exists [], w. split; [done|]. split; [done|by left].
  - destruct (IH v Hws) as (pre & u & Hu & Heq & Hpre). exists (list_ascii_of_string w ++ blank :: pre), u.
    split; [done|]. change (join (w :: v :: ws) " ") with (w +:+ " " +:+ join (v :: ws) " ").
    rewrite list_ascii_app. change (list_ascii_of_string (" " +:+ join (v :: ws) " ")) with (blank :: list_ascii_of_string (join (v :: ws) " ")).
    rewrite Heq. split; [by rewrite <- app_assoc|]. right. destruct Hpre as [-> |[p ->]].
    + by exists (list_ascii_of_string w).
    + exists (list_ascii_of_string w ++ blank :: p). by rewrite <- app_assoc.
Qed.

Lemma joined_stays w ws : Forall word (w :: ws) →
  strip_one (map reverse spaces) (reverse (list_ascii_of_string (join (w :: ws) " "))) = None.
Proof.
  intros Hws. apply strip_one_None. intros p x (q & -> & Hq)%list_elem_of_fmap Heq.
  apply (f_equal reverse) in Heq. rewrite reverse_involutive, reverse_app, reverse_involutive in Heq.
  destruct (joined_ends w ws Hws) as (pre & v & [Hne Hv] & Hj & Hpre). rewrite Hj in Heq. symmetry in Heq.
  assert (Hvne : list_ascii_of_string v ≠ []) by (by destruct v).
  assert (Hqne : q ≠ []) by (by apply (proj1 (Forall_forall _ _) spaces_not_nil)).
  apply app_eq_inv in Heq as [(k & Hk1 & Hk2)|(k & Hk1 & Hk2)].
  - specialize (Hv k q Hk2 Hqne). apply (proj1 (strip_one_None _ _) Hv q []); [done|by rewrite !app_nil_r].
  - destruct k as [|c k] using rev_ind.
    + specialize (Hv [] q (eq_sym Hk2) Hqne). apply (proj1 (strip_one_None _ _) Hv q []); [done|by rewrite !app_nil_r].
    + clear IHk. destruct Hpre as [Hpre|[pr Hpre]].
      * rewrite Hpre in Hk1. by destruct (reverse x), k.
      * rewrite Hpre, app_assoc in Hk1. apply app_inj_tail in Hk1 as [_ <-]. rewrite <- app_assoc in Hk2. simpl in Hk2.
        by destruct (spaces_lone q Hq k _ Hk2) as [_ Hnil].
Qed.

Lemma trim_space_join w ws : Forall word (w :: ws) → trim_space (join (w :: ws) " ") = join (w :: ws) " ".
Proof.
  intros Hws. unfold trim_space. cbv zeta. rewrite (trim_left_stop spaces) by by apply joined_starts.
  rewrite trim_left_stop by by apply joined_stays. rewrite reverse_involutive. apply string_of_list_ascii_of_string.
Qed.

Lemma join_length w ws : S (String.length (join (w :: ws) " ")) = room (w :: ws).
Proof.
  revert w. induction ws as [|v ws IH]; intros w; [by unfold room; simpl; rewrite Nat.add_0_r|].
  change (join (w :: v :: ws) " ") with (w +:+ String blank (join (v :: ws) " ")). rewrite string_length_app.
  unfold room in *. simpl in *. specialize (IH v). lia.
Qed.

Lemma join_forall p ws : p blank = true → Forall (λ w, string_forall p w = true) ws → string_forall p (join ws " ") = true.
Proof.
  intros Hb Hws. induction Hws as [|w ws Hw Hws IH]; [done|]. destruct ws as [|v ws]; [done|].
  change (join (w :: v :: ws) " ") with (w +:+ String blank (join (v :: ws) " ")). rewrite string_forall_app, Hw.
  change (string_forall p (String blank (join (v :: ws) " "))) with (p blank && string_forall p (join (v :: ws) " ")).
  by rewrite Hb, IH.
Qed.

Lemma Fields_words s : Forall word (Fields s).
Proof. apply fields_from_words; [lia|]. intros pre x Heq Hx. by destruct pre, x. Qed.

Lemma Fields_length s w ws : Fields s = w :: ws → len (join (w :: ws) " ") ≤ len s.
Proof.
  intros Hs. pose proof (fields_from_room (S (length (list_ascii_of_string s))) (list_ascii_of_string s) []) as Hr.
  change (room (Fields s) ≤ S (length (list_ascii_of_string s)))%nat in Hr.
  rewrite Hs, <- join_length, length_list_ascii in Hr. unfold len. lia.
Qed.

Lemma Fields_forall p s : string_forall p s = true → Forall (λ w, string_forall p w = true) (Fields s).
Proof. intros Hs%string_forall_list. by apply fields_from_forall. Qed.

(** ** Properties *)

(** A recorded key: one bounded line without control characters, a known
    algorithm, and a body that decodes to a blob of that algorithm. *)
Definition key_line (k : string) : Prop :=
  len k ≤ maxHostKeyLen ∧ string_forall (λ a, negb (control a)) k = true ∧
  ∃ algo body rest blob, Fields k = algo :: body :: rest ∧ k = join (Fields k) " " ∧ algo ∈ hostKeyAlgos ∧
    StdDecodeString body = Some blob ∧ sshBlobAlgo blob = Some algo.

Lemma NormalizeHostKey_line raw k : NormalizeHostKey raw = Ok k → key_line k.
Proof.
  unfold NormalizeHostKey. set (key := trim_space raw).
  destruct (key ==? ""); [done|]. destruct (maxHostKeyLen <? len key) eqn:Hlen; [done|]. apply Z.ltb_ge in Hlen.
  destruct (string_forall _ key) eqn:Hctl; [|done]. simpl. pose proof (Fields_words key) as Hw.
  pose proof (Fields_forall _ _ Hctl) as Hf. destruct (Fields key) as [|algo [|body rest]] eqn:E; [done..|].
  destruct (algo ∈? hostKeyAlgos) eqn:Ha; [|done]. apply bool_decide_eq_true in Ha. simpl.
  destruct (StdDecodeString body) as [blob|] eqn:Hb; [|done].
  destruct (sshBlobAlgo blob ==? Some algo) eqn:Hs; [|done]. apply bool_decide_eq_true in Hs. intros [= <-].
  change (key_line (join (algo :: body :: rest) " ")).
  split; [by pose proof (Fields_length _ _ _ E); lia|]. split; [by apply join_forall|].
  exists algo, body, rest, blob. by rewrite (Fields_join (algo :: body :: rest)).
Qed.

Lemma key_line_normal k : key_line k → NormalizeHostKey k = Ok k.
Proof.
  intros (Hlen & Hctl & algo & body & rest & blob & HF & Hk & Ha & Hb & Hs).
  pose proof (Fields_words k) as Hw. rewrite HF in Hw, Hk.
  unfold NormalizeHostKey. rewrite Hk, trim_space_join, <- Hk by done.
  destruct (k ==? "") eqn:He; [apply bool_decide_eq_true in He; by rewrite He in HF|].
  destruct (Z.ltb_spec maxHostKeyLen (len k)); [lia|]. rewrite Hctl. cbv zeta. rewrite HF. simpl negb. cbv iota.
  rewrite bool_decide_eq_true_2 by done. simpl negb. cbv iota. rewrite Hb, bool_decide_eq_true_2 by done. by rewrite <- Hk.
Qed.

(** A recorded host key is canonical and is not replaced in passing.  When
    the record succeeds the device carries one bounded line whose algorithm is
    the one its blob names, a fixed point of the normalisation, and nothing else
    of the document changed; unless forced, the device carried that very key or
    none; and reporting the recorded key again, forced or not, changes nothing. *)
Theorem host_key_recorded tag pubkey force f f' :
  SetDeviceHostKey tag pubkey force f = Ok f' →
  ∃ d k, Devices f !! tag = Some d ∧ NormalizeHostKey pubkey = Ok k ∧ key_line k ∧ NormalizeHostKey k = Ok k ∧
    f' = f <| Devices ::= <[tag := d <| d_ITAM ::= λ i, i <| HostKeyID := k |> |>]> |> ∧
    (force = false → HostKeyID (d_ITAM d) = "" ∨ HostKeyID (d_ITAM d) = k) ∧
    ∀ again, SetDeviceHostKey tag k again f' = Ok f'.
Proof.
  unfold SetDeviceHostKey at 1. destruct (Devices f !! tag) as [d|] eqn:Hd; [|done].
  destruct (NormalizeHostKey pubkey) as [k|] eqn:Hk; [|done].
  destruct (_ && negb force) eqn:Hg; [done|]. intros [= <-]. exists d, k.
  pose proof (NormalizeHostKey_line _ _ Hk) as Hline. pose proof (key_line_normal _ Hline) as Hnorm.
  do 5 (split; [done|]). split.
  - intros ->. simpl in Hg. rewrite andb_true_r in Hg. apply andb_false_iff in Hg as [Hg|Hg];
      apply negb_false_iff, bool_decide_eq_true in Hg; auto.
  - intros again. unfold SetDeviceHostKey. simpl. rewrite lookup_insert_eq, Hnorm. simpl.
    rewrite (bool_decide_eq_true_2 (k = k)) by done. rewrite andb_false_r. simpl.
    f_equal. destruct f; unfold set_field; simpl. f_equal. by rewrite insert_insert_eq.
Qed.

(** ** A concrete key *)

Definition ed_key : string := "ssh-ed25519 AAAAC3NzaC1lZDI1NTE5AAAAIGPv5ZtLsK4H2d7rPmQ9oYwXcVbNfTgRjEuAiSkDlMz0".
Definition one_device : Fleet := zero_fleet <| Devices := {["lt-1" := zero_device]} |>.

Lemma host_key_recorded_witness :
  ∃ f', SetDeviceHostKey "lt-1" (" " +:+ ed_key +:+ "   lab 1 ") false one_device = Ok f' ∧
        SetDeviceHostKey "lt-1" (ed_key +:+ " lab 1") false f' = Ok f'.
Proof.
  destruct (SetDeviceHostKey "lt-1" (" " +:+ ed_key +:+ "   lab 1 ") false one_device) as [f'|e] eqn:E.
  - exists f'. split; [reflexivity|].
    destruct (host_key_recorded _ _ _ _ _ E) as (d & k & _ & Hk & _ & _ & _ & _ & Hagain).
    assert (Hn : NormalizeHostKey (" " +:+ ed_key +:+ "   lab 1 ") = Ok (ed_key +:+ " lab 1")) by (vm_compute; reflexivity).
    rewrite Hn in Hk. injection Hk as <-. apply Hagain.
  - exfalso. vm_compute in E. discriminate E.
Defined.
