(* ===== verification/WellFormed.v ===== *)
(** * The document invariant

    What the mutations promise each other about the fleet document: the group
    tree is a forest whose parents exist, every membership, assignment, binding,
    filter rule and wave names something that exists, and no assignment or
    binding is doubled.  [well_formed_command] shows that every mutation keeps
    it but for two situations ([safe_command]), which do break it
    ([unconfigure_leaves_dangling_assignment], [RemoveGroup_dangling_ring]). *)

From S2P Require Import Prelude GoLib Text HostKeys FleetModel Groups Filters Resolve Mutate DeviceOps Policies Apps Identity.

(** ** The invariant *)

Definition group_exists (f : Fleet) (g : string) : Prop := is_Some (f_Groups f !! g).

Definition target_exists (f : Fleet) (ref : string) : Prop :=
  match scope_of ref with
  | ROrg => True
  | RGroup g => group_exists f g
  | RDevice t => is_Some (Devices f !! t)
  | RBad => False
  end.

Definition assignment_ok (f : Fleet) (a : Assignment) : Prop :=
  is_Some (Policies f !! a_Policy a) ∧ target_exists f (Target a) ∧
  (a_Filter a = "" ∨ is_Some (Filters f !! a_Filter a)).

Definition triple (a : Assignment) : string * string * string := (a_Policy a, Target a, a_Filter a).

Definition policy_ok (p : Policy) : Prop :=
  (p_Settings p ≠ ∅ ∨ Conditions p ≠ []) ∧
  (∀ c, c ∈ Conditions p → Valid c = None) ∧
  (∀ k, k ∈ p_Enforced p → is_Some (p_Settings p !! k)).

Definition rule_groups_ok (f : Fleet) (r : FilterRule) : Prop :=
  Attr r = AttrGroup → (r_Op r = OpEq ∨ r_Op r = OpIn) →
  ∀ g, g ∈ r_Value r :: Values r → g = "" ∨ group_exists f g.

Definition filter_wf (f : Fleet) (fl : Filter) : Prop :=
  ValidateFilter fl = None ∧ ∀ r, r ∈ Rules fl → rule_groups_ok f r.

Definition binding_ok (f : Fleet) (b : AccessBinding) : Prop :=
  validate_binding b = None ∧ ∀ g, b_Scope b = group_ref g → group_exists f g.

Definition binding_key (b : AccessBinding) : string * string := (b_Group b, b_Scope b).

Definition ring_wf (f : Fleet) (r : RolloutRing) : Prop :=
  GroupList r ≠ [] ∧ 0 ≤ rr_SoakMinutes r ∧ 0 ≤ rr_MinHealthyPercent r ≤ 100 ∧
  ∀ g, g ∈ GroupList r → group_exists f g.

Record well_formed (f : Fleet) : Prop := {
  wf_group_slug : ∀ g, group_exists f g → ValidateSlug g = true;
  wf_parents : ∀ g grp, f_Groups f !! g = Some grp → Parent grp = "" ∨ group_exists f (Parent grp);
  wf_acyclic : acyclic (f_Groups f);
  wf_device_slug : ∀ t, is_Some (Devices f !! t) → ValidateSlug t = true;
  wf_members : ∀ t d g, Devices f !! t = Some d → g ∈ Groups d → group_exists f g;
  wf_policy : ∀ id p, Policies f !! id = Some p → ValidateSlug id = true ∧ policy_ok p;
  wf_filter : ∀ id fl, Filters f !! id = Some fl → ValidateSlug id = true ∧ filter_wf f fl;
  wf_assign : ∀ a, a ∈ Assignments f → assignment_ok f a;
  wf_assign_nodup : NoDup (triple <$> Assignments f);
  wf_access : ∀ b, b ∈ Access f → binding_ok f b;
  wf_access_nodup : NoDup (binding_key <$> Access f);
  wf_rollout : ∀ p, Rollout f = Some p → Rings p ≠ [] ∧ (∀ r, r ∈ Rings p → ring_wf f r) ∧
                 NoDup (r ← Rings p; GroupList r)
}.

(** ** Frames: what the invariant does not read *)

Record same_refs (f f' : Fleet) : Prop := {
  sr_groups : same_parents (f_Groups f) (f_Groups f');
  sr_devices : ∀ t, Groups <$> Devices f !! t = Groups <$> Devices f' !! t;
  sr_policies : Policies f = Policies f';
  sr_filters : Filters f = Filters f';
  sr_assignments : Assignments f = Assignments f';
  sr_access : Access f = Access f';
  sr_rollout : Rollout f = Rollout f'
}.

Lemma same_parents_exists gs gs' g :
  same_parents gs gs' → is_Some (gs !! g) ↔ is_Some (gs' !! g).
Proof. intros H. by rewrite <- !elem_of_dom, (same_parents_dom gs gs'). Qed.

Section frame.
  Context (f f' : Fleet).
  Context (Hg : ∀ g, group_exists f g → group_exists f' g).
  Context (Hd : ∀ t, is_Some (Devices f !! t) → is_Some (Devices f' !! t)).

Lemma target_exists_mono ref : target_exists f ref → target_exists f' ref.
Proof. unfold target_exists. destruct (scope_of ref); auto. Qed.

Lemma assignment_ok_mono a :
  (∀ id, is_Some (Policies f !! id) → is_Some (Policies f' !! id)) →
  (∀ id, is_Some (Filters f !! id) → is_Some (Filters f' !! id)) →
  assignment_ok f a → assignment_ok f' a.
Proof.
  intros Hp Hf (? & ? & Hfl). split_and!; [auto|by apply target_exists_mono|].
  destruct Hfl; [by left|right; auto].
Qed.

Lemma filter_wf_mono fl : filter_wf f fl → filter_wf f' fl.
Proof.
  intros [? Hr]. split; [done|]. intros r Hin Ha Ho g Hgin.
  destruct (Hr r Hin Ha Ho g Hgin) as [?|?]; [by left|right; auto].
Qed.

Lemma binding_ok_mono b : binding_ok f b → binding_ok f' b.
Proof. intros [? Hb]. split; [done|]. eauto. Qed.

Lemma ring_wf_mono r : ring_wf f r → ring_wf f' r.
Proof. intros (? & ? & ? & Hr). split_and!; try done; try lia. auto. Qed.
End frame.

Lemma well_formed_same f f' : same_refs f f' → well_formed f → well_formed f'.
Proof.
  intros [Hg Hd Hp Hf Ha Hb Hr] H.
  assert (He : ∀ g, group_exists f g ↔ group_exists f' g)
    by (intros g; by apply same_parents_exists).
  assert (Hde : ∀ t, is_Some (Devices f !! t) ↔ is_Some (Devices f' !! t))
    by (intros t; rewrite <- !(fmap_is_Some Groups), Hd; done).
  assert (He1 : ∀ g, group_exists f g → group_exists f' g) by (intros g; apply He).
  assert (Hd1 : ∀ t, is_Some (Devices f !! t) → is_Some (Devices f' !! t)) by (intros t; apply Hde).
  split.
  - intros g Hgx. by apply (wf_group_slug f H), He.
  - intros g grp Hgrp. pose proof (Hg g) as Hs. rewrite Hgrp in Hs.
    destruct (f_Groups f !! g) as [grp0|] eqn:Hg0; [|done]. simplify_eq/=.
    rewrite <- Hs. rewrite <- He. by apply (wf_parents f H g).
  - by apply (acyclic_same_parents (f_Groups f)), (wf_acyclic f H).
  - intros t Ht. by apply (wf_device_slug f H), Hde.
  - intros t d g Ht Hgd. pose proof (Hd t) as Hs. rewrite Ht in Hs.
    destruct (Devices f !! t) as [d0|] eqn:Ht0; [|done]. simplify_eq/=.
    apply He, (wf_members f H t d0); [done|]. by rewrite Hs.
  - rewrite <- Hp. apply (wf_policy f H).
  - rewrite <- Hf. intros id fl Hfl. destruct (wf_filter f H id fl Hfl) as [? ?].
    split; [done|]. by apply (filter_wf_mono f).
  - rewrite <- Ha. intros a Hin. apply (assignment_ok_mono f); try done.
    + intros id. by rewrite Hp.
    + intros id. by rewrite Hf.
    + by apply (wf_assign f H).
  - rewrite <- Ha. apply (wf_assign_nodup f H).
  - rewrite <- Hb. intros b Hin. apply (binding_ok_mono f); [done|]. by apply (wf_access f H).
  - rewrite <- Hb. apply (wf_access_nodup f H).
  - rewrite <- Hr. intros p Hpr. destruct (wf_rollout f H p Hpr) as (? & Hring & ?).
    split_and!; [done| |done]. intros r Hin. apply (ring_wf_mono f); auto.
Qed.

Lemma same_refs_group f name g g' :
  f_Groups f !! name = Some g → Parent g' = Parent g →
  same_refs f (f <| f_Groups ::= <[name := g']> |>).
Proof. intros Hg Hp. split; try done. by apply (same_parents_insert _ _ g). Qed.

Lemma same_refs_device f tag d d' :
  Devices f !! tag = Some d → Groups d' = Groups d →
  same_refs f (f <| Devices ::= <[tag := d']> |>).
Proof.
  intros Hd Hg. split; try done. intros t. simpl. destruct (decide (t = tag)) as [->|].
  - rewrite lookup_insert_eq, Hd. simpl. by rewrite Hg.
  - by rewrite lookup_insert_ne.
Qed.

Lemma same_refs_refl f : same_refs f f.
Proof. by split. Qed.

#[export] Hint Resolve same_refs_group same_refs_device same_refs_refl : sextant.

(** Edits of a scope's settings, enforcement, acceptances and apps. *)
Lemma with_scope_same_refs ref edit f f' : with_scope ref edit f = Ok f' → same_refs f f'.
Proof.
  unfold with_scope. destruct (scope_of ref) as [|g|t|]; [| | |done].
  - intros (s & _ & [= <-])%res_bind_Ok. by split.
  - destruct (f_Groups f !! g) eqn:Hg; [|done]. intros (s & _ & [= <-])%res_bind_Ok.
    by eapply same_refs_group.
  - destruct (Devices f !! t) eqn:Hd; [|done]. intros (s & _ & [= <-])%res_bind_Ok.
    by eapply same_refs_device.
Qed.

(** ** Policies, filters and assignments *)

Lemma conditions_ok_None id i cs :
  conditions_ok id i cs = None → ∀ c, c ∈ cs → Valid c = None.
Proof.
  revert i. induction cs as [|c cs IH]; intros i; simpl; [intros _ c Hc; by apply elem_of_nil in Hc|].
  destruct (Valid c) eqn:Hv; [done|]. intros H c' [->|Hc']%elem_of_cons; eauto.
Qed.

Lemma PutPolicy_Ok id p f f' :
  PutPolicy id p f = Ok f' →
  ValidateSlug id = true ∧ policy_ok p ∧ f' = f <| Policies ::= <[id := p]> |>.
Proof.
  unfold PutPolicy. destruct (ValidateSlug id); [|done]. simpl.
  destruct (bool_decide _ && _) eqn:Hsay; [done|].
  destruct (conditions_ok id 0 (Conditions p)) eqn:Hc; [done|].
  destruct (first_err _ _) eqn:He; [done|]. intros [= <-]. split_and!; [done| |done].
  split_and!.
  - apply andb_false_iff in Hsay as [Hs|Hs]; apply bool_decide_eq_false in Hs; [by left|right].
    by destruct (Conditions p).
  - by eapply conditions_ok_None.
  - intros k Hk. pose proof (proj1 (first_err_None _ _) He k Hk) as H. simpl in H.
    destruct (p_Settings p !! k); done.
Qed.

Lemma insert_is_Some {A} (m : gmap string A) k x j : is_Some (m !! j) → is_Some (<[k := x]> m !! j).
Proof. rewrite lookup_insert_is_Some'. auto. Qed.
#[export] Hint Resolve insert_is_Some : sextant.

Lemma well_formed_put_policy f id p :
  ValidateSlug id = true → policy_ok p → well_formed f → well_formed (f <| Policies ::= <[id := p]> |>).
Proof.
  intros Hs Hp H. split; try apply H.
  - simpl. intros id' p' [[<- <-]|[_ Hp']]%lookup_insert_Some; [done|]. by apply (wf_policy f H).
  - simpl. intros a Ha. apply (assignment_ok_mono f); simpl; auto using insert_is_Some.
    by apply (wf_assign f H).
Qed.

Lemma delete_is_Some {A} (m : gmap string A) k j : j ≠ k → is_Some (m !! j) → is_Some (delete k m !! j).
Proof. intros Hj. by rewrite lookup_delete_ne. Qed.

Lemma well_formed_del_policy f id :
  (∀ a, a ∈ Assignments f → a_Policy a ≠ id) → well_formed f →
  well_formed (f <| Policies ::= delete id |>).
Proof.
  intros Hno H. split; try apply H.
  - simpl. intros id' p' [_ Hp']%lookup_delete_Some. by apply (wf_policy f H).
  - simpl. intros a Ha. destruct (wf_assign f H a Ha) as (? & ? & ?). split_and!; [|done|done].
    simpl. apply delete_is_Some; auto.
Qed.

Lemma well_formed_put_filter f id fl :
  ValidateSlug id = true → filter_wf f fl → well_formed f →
  well_formed (f <| Filters ::= <[id := fl]> |>).
Proof.
  intros Hs Hp H. split; try apply H.
  - simpl. intros id' fl' [[<- <-]|[_ Hp']]%lookup_insert_Some; [done|]. by apply (wf_filter f H).
  - simpl. intros a Ha. apply (assignment_ok_mono f); simpl; auto using insert_is_Some.
    by apply (wf_assign f H).
Qed.

Lemma well_formed_del_filter f id :
  id ≠ "" → (∀ a, a ∈ Assignments f → a_Filter a ≠ id) → well_formed f →
  well_formed (f <| Filters ::= delete id |>).
Proof.
  intros Hid Hno H. split; try apply H.
  - simpl. intros id' p' [_ Hp']%lookup_delete_Some. by apply (wf_filter f H).
  - simpl. intros a Ha. destruct (wf_assign f H a Ha) as (? & ? & Hf). split_and!; [done|done|].
    destruct Hf; [by left|right]. simpl. apply delete_is_Some; auto.
Qed.

Lemma PutFilter_Ok id fl f f' :
  PutFilter id fl f = Ok f' →
  ValidateSlug id = true ∧ filter_wf f fl ∧ f' = f <| Filters ::= <[id := fl]> |>.
Proof.
  unfold PutFilter. destruct (ValidateSlug id); [|done]. simpl.
  destruct (ValidateFilter fl) eqn:Hv; [done|].
  destruct (first_err _ _) eqn:He; [done|]. intros [= <-]. split_and!; [done| |done].
  split; [done|]. intros r Hr Hattr Hop g Hg.
  pose proof (proj1 (first_err_None _ _) He r Hr) as Hrule. unfold filter_groups_exist in Hrule.
  rewrite Hattr in Hrule.
  assert ((r_Op r !=? OpEq) && (r_Op r !=? OpIn) = false) as Hops
    by (destruct Hop as [-> | ->]; done).
  rewrite Hops in Hrule. simpl in Hrule.
  pose proof (proj1 (first_err_None _ (_ :: _)) Hrule g Hg) as H. simpl in H.
  case_bool_decide; [by left|right]. unfold group_exists. by destruct (f_Groups f !! g).
Qed.

Lemma well_formed_assignments f l :
  (∀ a, a ∈ l → a ∈ Assignments f) → NoDup (triple <$> l) → well_formed f →
  well_formed (f <| Assignments := l |>).
Proof.
  intros Hsub Hnd H. split; try apply H; simpl; [|done].
  intros a Ha. by apply (wf_assign f H), Hsub.
Qed.

Lemma NoDup_fmap_delete_func {A B} (g : A → B) (p : A → bool) l :
  NoDup (g <$> l) → NoDup (g <$> delete_func p l).
Proof.
  unfold delete_func. induction l as [|a l IH]; [done|]. rewrite filter_cons.
  simpl. intros [Ha Hl]%NoDup_cons. case_decide; [|by apply IH].
  simpl. apply NoDup_cons. split; [|by apply IH].
  intros (b & Hb & Hin)%list_elem_of_fmap. apply Ha, list_elem_of_fmap.
  exists b. by apply list_elem_of_filter in Hin as [_ ?].
Qed.

Lemma well_formed_delete_assignments f p :
  well_formed f → well_formed (f <| Assignments ::= delete_func p |>).
Proof.
  intros H. apply (well_formed_assignments f); [|by apply NoDup_fmap_delete_func, wf_assign_nodup|done].
  intros a Ha. by apply elem_of_delete_func in Ha as [? _].
Qed.

Lemma validateTarget_None f ref : validateTarget f ref = None ↔ target_exists f ref.
Proof.
  unfold validateTarget, target_exists, group_exists.
  destruct (scope_of ref) as [|g|t|]; [done| | |done];
    [destruct (f_Groups f !! g)|destruct (Devices f !! t)]; split; done || by intros [].
Qed.

Lemma same_assignment_spec a b :
  same_assignment (a_Policy a) (Target a) (a_Filter a) b = true ↔ triple b = triple a.
Proof.
  unfold same_assignment, triple. rewrite !andb_true_iff, !bool_decide_eq_true.
  split; [intros [[? ?] ?]; congruence|by intros [= -> -> ->]].
Qed.

Lemma Assign_Ok a f f' :
  Assign a f = Ok f' →
  assignment_ok f a ∧ triple a ∉ triple <$> Assignments f ∧
  f' = f <| Assignments ::= λ l, l ++ [a] |>.
Proof.
  unfold Assign. destruct (Policies f !! a_Policy a) eqn:Hp; [|done].
  destruct (validateTarget f (Target a)) eqn:Ht; [done|].
  destruct (_ && _) eqn:Hf; [done|].
  destruct (existsb _ _) eqn:He; [done|]. intros [= <-]. split_and!; [| |done].
  - split_and!; [by eauto|by apply validateTarget_None|].
    apply andb_false_iff in Hf as [Hf|Hf].
    + apply negb_false_iff, bool_decide_eq_true in Hf. by left.
    + right. by destruct (Filters f !! a_Filter a).
  - intros (b & Hb & Hin)%list_elem_of_fmap. apply not_true_iff_false in He. apply He.
    apply existsb_elem. exists b. split; [done|]. by apply same_assignment_spec.
Qed.

Lemma well_formed_Assign a f f' : Assign a f = Ok f' → well_formed f → well_formed f'.
Proof.
  intros (Hok & Hni & ->)%Assign_Ok H. split; try apply H; simpl.
  - intros b [Hb|Hb]%elem_of_app; [by apply (wf_assign f H)|].
    by apply list_elem_of_singleton in Hb as ->.
  - rewrite fmap_app. apply NoDup_app. split_and!; [apply H| |apply NoDup_singleton].
    intros t Ht. simpl. intros ->%list_elem_of_singleton. done.
Qed.

Lemma well_formed_PutPolicy id p f f' : PutPolicy id p f = Ok f' → well_formed f → well_formed f'.
Proof. intros (? & ? & ->)%PutPolicy_Ok. by apply well_formed_put_policy. Qed.

Lemma well_formed_PutFilter id fl f f' : PutFilter id fl f = Ok f' → well_formed f → well_formed f'.
Proof. intros (? & ? & ->)%PutFilter_Ok. by apply well_formed_put_filter. Qed.

Lemma first_err_if_None {A E} (p : A → bool) (e : A → E) l :
  first_err (λ a, if p a then Some (e a) else None) l = None → ∀ a, a ∈ l → p a = false.
Proof.
  intros H a Ha. pose proof (proj1 (first_err_None _ _) H a Ha) as Hp. cbv beta in Hp.
  by destruct (p a).
Qed.

Lemma well_formed_DeletePolicy id f f' : DeletePolicy id f = Ok f' → well_formed f → well_formed f'.
Proof.
  unfold DeletePolicy. destruct (Policies f !! id); [|done].
  destruct (first_err _ _) eqn:He; [done|]. intros [= <-]. apply well_formed_del_policy.
  intros a Ha. apply (first_err_if_None _ _ _ He) in Ha. cbv beta in Ha. by apply bool_decide_eq_false in Ha.
Qed.

Lemma slug_nonempty s : ValidateSlug s = true → s ≠ "".
Proof. by intros H ->. Qed.

Lemma well_formed_DeleteFilter id f f' : DeleteFilter id f = Ok f' → well_formed f → well_formed f'.
Proof.
  unfold DeleteFilter. destruct (Filters f !! id) as [fl|] eqn:Hfl; [|done].
  destruct (first_err _ _) eqn:He; [done|]. intros [= <-] H.
  apply well_formed_del_filter; [|intros a Ha|done].
  - apply slug_nonempty. by destruct (wf_filter f H id fl Hfl).
  - apply (first_err_if_None _ _ _ He) in Ha. cbv beta in Ha. by apply bool_decide_eq_false in Ha.
Qed.

Lemma well_formed_Unassign p t fl f f' : Unassign p t fl f = Ok f' → well_formed f → well_formed f'.
Proof.
  unfold Unassign. destruct (bool_decide _); [done|]. intros [= <-].
  apply (well_formed_delete_assignments f).
Qed.

(** ** Access *)

Lemma well_formed_access f l :
  (∀ b, b ∈ l → binding_ok f b) → NoDup (binding_key <$> l) → well_formed f →
  well_formed (f <| Access := l |>).
Proof. intros Hb Hnd H. split; try apply H; done. Qed.

Lemma well_formed_Revoke g s f f' : Revoke g s f = Ok f' → well_formed f → well_formed f'.
Proof.
  unfold Revoke. destruct (bool_decide _); [done|]. intros [= <-] H.
  apply well_formed_access; [|apply NoDup_fmap_delete_func, H|done].
  intros b [Hb _]%elem_of_delete_func. by apply (wf_access f H).
Qed.

Lemma well_formed_Grant b f f' : Grant b f = Ok f' → well_formed f → well_formed f'.
Proof.
  unfold Grant. destruct (validate_binding b) eqn:Hv; [done|].
  assert (Hgoal : binding_ok f b → well_formed f →
    well_formed (f <| Access ::= λ l, delete_func (same_binding (b_Group b) (b_Scope b)) l ++ [b] |>)).
  { intros Hb H. apply (well_formed_access f); [| |done].
    - intros b' [[Hb' _]%elem_of_delete_func|Hb']%elem_of_app; [by apply (wf_access f H)|].
      by apply list_elem_of_singleton in Hb' as ->.
    - rewrite fmap_app. apply NoDup_app.
      split_and!; [apply NoDup_fmap_delete_func, H| |apply NoDup_singleton].
      intros k (b' & -> & [_ Hn]%elem_of_delete_func)%list_elem_of_fmap Hk.
      simpl in Hk. apply list_elem_of_singleton in Hk. unfold binding_key in Hk. injection Hk as H1 H2.
      unfold same_binding in Hn. rewrite H1, H2, !bool_decide_eq_true_2 in Hn; done. }
  destruct (cut_prefix _ _) as [g|] eqn:Hc.
  - destruct (f_Groups f !! g) eqn:Hg; [|done]. intros [= <-]. apply Hgoal. split; [done|].
    intros g' Hg'. rewrite Hg', cut_group_ref in Hc. injection Hc as ->. by eexists.
  - intros [= <-]. apply Hgoal. split; [done|].
    intros g' Hg'. by rewrite Hg', cut_group_ref in Hc.
Qed.

(** ** The rollout plan *)

Lemma ring_groups_ok_Ok f i seen gs seen' :
  ring_groups_ok f i seen gs = Ok seen' →
  (∀ g, g ∈ gs → group_exists f g) ∧ NoDup gs ∧ (∀ g, g ∈ gs → g ∉ seen) ∧
  seen' = reverse gs ++ seen.
Proof.
  revert seen. induction gs as [|g gs IH]; intros seen; simpl.
  - intros [= <-]. split_and!; [by intros ? ?%elem_of_nil|constructor|by intros ? ?%elem_of_nil|done].
  - destruct (f_Groups f !! g) eqn:Hg; [|done]. case_bool_decide as Hs; [done|].
    intros (H1 & H2 & H3 & ->)%IH. split_and!.
    + intros x [->|Hx]%elem_of_cons; [by eexists|auto].
    + constructor; [|done]. intros Hin. apply (H3 g Hin). left.
    + intros x [->|Hx]%elem_of_cons; [done|]. intros Hx'. apply (H3 x Hx). by right.
    + rewrite reverse_cons, <- (assoc_L (++)). done.
Qed.

Lemma rings_ok_Ok f i seen rings seen' :
  rings_ok f i seen rings = Ok seen' →
  (∀ r, r ∈ rings → ring_wf f r) ∧
  NoDup (r ← rings; GroupList r) ∧ (∀ g, g ∈ (r ← rings; GroupList r) → g ∉ seen).
Proof.
  revert i seen. induction rings as [|r rs IH]; intros i seen; simpl.
  - intros _. split_and!; [by intros ? ?%elem_of_nil|constructor|by intros ? ?%elem_of_nil].
  - intros (seen1 & H1 & (Hrs & Hnd & Hns)%IH)%res_bind_Ok. unfold ring_ok in H1.
    destruct (GroupList r) as [|g0 gl] eqn:Hgl; [done|].
    apply res_bind_Ok in H1 as (seen2 & (He & Hnd1 & Hns1 & ->)%ring_groups_ok_Ok & H1).
    destruct (Z.ltb_spec (rr_SoakMinutes r) 0) as [|Hsoak]; [done|].
    destruct (Z.ltb_spec (rr_MinHealthyPercent r) 0) as [|Hmin]; [done|].
    destruct (Z.ltb_spec 100 (rr_MinHealthyPercent r)) as [|Hmax]; [done|].
    injection H1 as <-. rewrite <- Hgl in *. split_and!.
    + intros r' [->|Hr']%elem_of_cons; [|by apply Hrs].
      split_and!; [by rewrite Hgl|done|done|done|exact He].
    + apply NoDup_app. split_and!; [done| |done]. intros g Hg Hg'.
      apply (Hns g Hg'). apply elem_of_app. left. by rewrite elem_of_reverse.
    + intros g [Hg|Hg]%elem_of_app; [by apply Hns1|].
      intros Hs. apply (Hns g Hg). apply elem_of_app. by right.
Qed.

Lemma well_formed_SetRolloutPlan p f f' :
  SetRolloutPlan p f = Ok f' → well_formed f → well_formed f'.
Proof.
  unfold SetRolloutPlan. destruct p as [plan|]; [|intros [= <-] H; split; try apply H; done].
  destruct (Rings plan) as [|r rs] eqn:Hr; [done|].
  intros (seen & (Hring & Hnd & _)%rings_ok_Ok & [= <-])%res_bind_Ok H. rewrite <- Hr in *.
  split; try apply H. simpl. intros p [= <-]. split_and!; [by rewrite Hr| |done].
  intros r' Hr'. by apply Hring.
Qed.

(** ** Documents that only grow

    References out of the tree survive when groups and devices are added or
    changed in place. *)
Lemma well_formed_grow f f' :
  (∀ g, group_exists f g → group_exists f' g) →
  (∀ t, is_Some (Devices f !! t) → is_Some (Devices f' !! t)) →
  Policies f' = Policies f → Filters f' = Filters f → Assignments f' = Assignments f →
  Access f' = Access f → Rollout f' = Rollout f →
  well_formed f →
  (∀ g, group_exists f' g → ValidateSlug g = true) →
  (∀ g grp, f_Groups f' !! g = Some grp → Parent grp = "" ∨ group_exists f' (Parent grp)) →
  acyclic (f_Groups f') →
  (∀ t, is_Some (Devices f' !! t) → ValidateSlug t = true) →
  (∀ t d g, Devices f' !! t = Some d → g ∈ Groups d → group_exists f' g) →
  well_formed f'.
Proof.
  intros He Hd Hp Hf Ha Hb Hr H H1 H2 H3 H4 H5. split; try done.
  - rewrite Hp. apply H.
  - rewrite Hf. intros id fl Hfl. destruct (wf_filter f H id fl Hfl). split; [done|].
    by apply (filter_wf_mono f f').
  - rewrite Ha. intros a Hin. apply (assignment_ok_mono f f'); try done.
    + by rewrite Hp.
    + by rewrite Hf.
    + by apply (wf_assign f H).
  - rewrite Ha. apply H.
  - rewrite Hb. intros b Hin. apply (binding_ok_mono f f'); [done|]. by apply (wf_access f H).
  - rewrite Hb. apply H.
  - rewrite Hr. intros q Hq. destruct (wf_rollout f H q Hq) as (? & Hring & ?).
    split_and!; [done| |done]. intros r Hin. apply (ring_wf_mono f f'); auto.
Qed.

(** ** Groups *)

(** The climb reaches the group iff the group is in the parent's chain. *)
Lemma walk_keeps_chain fuel gs cur seen chain a :
  a ∈ chain → a ∈ ancestry_walk fuel gs cur seen chain.
Proof.
  revert cur seen chain. induction fuel as [|fuel IH]; intros cur seen chain Ha; simpl; [done|].
  case_bool_decide; [done|]. case_bool_decide; [done|].
  destruct (gs !! cur); [|done]. apply IH. by right.
Qed.

Lemma climbs_to_walk fuel gs group cur seen chain :
  group ≠ "" → is_Some (gs !! group) → seen = list_to_set chain → group ∉ chain →
  climbs_to fuel gs group cur seen = true ↔
  group ∈ ancestry_walk fuel gs cur seen chain.
Proof.
  intros Hne [gg Hgg]. revert cur seen chain. induction fuel as [|fuel IH]; intros cur seen chain -> Hni;
    simpl; [done|].
  case_bool_decide as Hc; [by split|]. case_bool_decide as Hcg.
  - subst cur. rewrite (bool_decide_eq_false_2 (group ∈ _)) by (by rewrite elem_of_list_to_set).
    rewrite Hgg. split; [|done]. intros _. apply walk_keeps_chain. left.
  - case_bool_decide as Hs; [by split|]. destruct (gs !! cur) as [g|] eqn:Hg; simpl.
    + apply IH; [done|]. intros [?|?]%elem_of_cons; done.
    + destruct fuel as [|fuel]; simpl; [by split|]. by split.
Qed.

Lemma climbs_to_ancestry gs group parent :
  group ≠ "" → is_Some (gs !! group) →
  climbs_to (S (size gs)) gs group parent ∅ = true ↔ group ∈ ancestry gs parent.
Proof. intros Hne He. apply climbs_to_walk; [done|done|done|]. apply not_elem_of_nil. Qed.

Lemma well_formed_SetGroupParent g p f f' :
  SetGroupParent g p f = Ok f' → well_formed f → well_formed f'.
Proof.
  unfold SetGroupParent. destruct (f_Groups f !! g) as [grp|] eqn:Hg; [|done].
  destruct (_ && bool_decide _) eqn:Hp; [done|].
  destruct (_ && climbs_to _ _ _ _ _) eqn:Hc; [done|]. intros [= <-] H.
  assert (Hgne : g ≠ "") by (apply slug_nonempty, (wf_group_slug f H); by eexists).
  assert (Hpex : p = "" ∨ group_exists f p).
  { destruct (decide (p = "")) as [|Hpe]; [by left|right].
    rewrite (bool_decide_eq_false_2 (p = "")) in Hp by done. simpl in Hp.
    apply bool_decide_eq_false in Hp. unfold group_exists. by destruct (f_Groups f !! p). }
  assert (Hni : g ∉ ancestry (f_Groups f) p).
  { destruct (decide (p = "")) as [->|Hpe].
    - rewrite ancestry_empty by auto. apply not_elem_of_nil.
    - rewrite (bool_decide_eq_false_2 (p = "")) in Hc by done. cbn [negb andb] in Hc.
      rewrite <- climbs_to_ancestry by (done || by eexists). by rewrite Hc. }
  set (f' := f <| f_Groups ::= _ |>).
  assert (He : ∀ x, group_exists f x → group_exists f' x) by (intros x; apply insert_is_Some).
  assert (He' : ∀ x, group_exists f' x → group_exists f x).
  { intros x [gx Hx]. simpl in Hx. apply lookup_insert_Some in Hx as [[<- _]|[_ ?]]; by eexists. }
  apply (well_formed_grow f f'); try done.
  - intros x Hx. by apply (wf_group_slug f H), He'.
  - intros x gx Hx. simpl in Hx. apply lookup_insert_Some in Hx as [[<- <-]|[Hne Hx]].
    + destruct Hpex; [by left|right; by apply He].
    + destruct (wf_parents f H x gx Hx); [by left|right; by apply He].
  - apply acyclic_reparent; [apply H|by eexists|done].
  - apply H.
  - intros t d x Ht Hx. by apply He, (wf_members f H t d).
Qed.

Lemma AddGroup_Ok name g f f' :
  AddGroup name g f = Ok f' →
  ValidateSlug name = true ∧ f_Groups f !! name = None ∧
  (Parent g = "" ∨ group_exists f (Parent g)) ∧ f' = f <| f_Groups ::= <[name := g]> |>.
Proof.
  unfold AddGroup. destruct (ValidateSlug name); [|done]. simpl.
  destruct (f_Groups f !! name) eqn:Hn; [done|].
  destruct (_ && _) eqn:Hp; [done|]. intros [= <-]. split_and!; [done|done| |done].
  apply andb_false_iff in Hp as [Hp|Hp].
  - apply negb_false_iff, bool_decide_eq_true in Hp. by left.
  - right. apply bool_decide_eq_false in Hp. unfold group_exists. by destruct (f_Groups f !! Parent g).
Qed.

Lemma well_formed_AddGroup name g f f' : AddGroup name g f = Ok f' → well_formed f → well_formed f'.
Proof.
  intros (Hs & Hn & Hp & ->)%AddGroup_Ok H. set (f' := f <| f_Groups ::= _ |>).
  assert (Hno : ¬ group_exists f name) by (unfold group_exists; rewrite Hn; by intros []).
  assert (He : ∀ x, group_exists f x → group_exists f' x) by (intros x; apply insert_is_Some).
  apply (well_formed_grow f f'); try done.
  - intros x [gx Hx]. simpl in Hx. apply lookup_insert_Some in Hx as [[<- _]|[_ ?]]; [done|].
    apply (wf_group_slug f H). by eexists.
  - intros x gx Hx. simpl in Hx. apply lookup_insert_Some in Hx as [[<- <-]|[_ Hx]].
    + destruct Hp; [by left|right; by apply He].
    + destruct (wf_parents f H x gx Hx); [by left|right; by apply He].
  - apply acyclic_new; [apply H|done| |].
    + intros Heq. rewrite Heq in Hp. destruct Hp as [->|Hp]; [done|by apply Hno].
    + intros a ga Ha Heq. destruct (wf_parents f H a ga Ha) as [Hpe|Hpe]; rewrite Heq in Hpe;
        [by apply slug_nonempty in Hpe|done].
  - apply H.
  - intros t d x Ht Hx. by apply He, (wf_members f H t d).
Qed.

(** A device written over itself or anew, its groups existing. *)
Lemma well_formed_put_device f tag d :
  ValidateSlug tag = true → (∀ g, g ∈ Groups d → group_exists f g) → well_formed f →
  well_formed (f <| Devices ::= <[tag := d]> |>).
Proof.
  intros Hs Hg H. set (f' := f <| Devices ::= _ |>).
  apply (well_formed_grow f f'); try done; try apply H.
  - intros t. apply insert_is_Some.
  - intros t [d' Ht]. simpl in Ht. apply lookup_insert_Some in Ht as [[<- _]|[_ ?]]; [done|].
    apply (wf_device_slug f H). by eexists.
  - intros t d' g Ht Hin. simpl in Ht. apply lookup_insert_Some in Ht as [[<- <-]|[_ Ht]]; [by apply Hg|].
    by apply (wf_members f H t d').
Qed.

Lemma groups_exist_None f gs : groups_exist f gs = None → ∀ g, g ∈ gs → group_exists f g.
Proof.
  intros H g Hg. pose proof (proj1 (first_err_None _ _) H g Hg) as He. cbv beta in He.
  unfold group_exists. by destruct (f_Groups f !! g).
Qed.

Lemma AddDevice_Ok tag d now f f' :
  AddDevice tag d now f = Ok f' →
  ValidateSlug tag = true ∧ Devices f !! tag = None ∧ Hardware d ≠ "" ∧
  (Class d = "" ∨ ValidClass (Class d) = true) ∧
  (∀ g, g ∈ Groups d → group_exists f g) ∧ checkClassAllowed f (Class d) (Groups d) = None ∧
  f' = f <| Devices ::= <[tag :=
         d <| State := if State d ==? DeviceActive then DeviceProvisional else State d |>
           <| Enrolled := if IsZero (Enrolled d) then now else Enrolled d |> ]> |>.
Proof.
  unfold AddDevice. destruct (ValidateSlug tag); [|done]. simpl.
  destruct (Devices f !! tag) eqn:Ht; [done|].
  destruct (decide (Hardware d = "")) as [|Hh]; [by rewrite bool_decide_eq_true_2|].
  rewrite bool_decide_eq_false_2 by done.
  destruct (_ && _) eqn:Hc; [done|].
  destruct (groups_exist _ _) eqn:Hg; [done|]. destruct (checkClassAllowed _ _ _) eqn:Hcl; [done|].
  intros [= <-]. split_and!; [done|done|done| |by apply groups_exist_None|done|].
  - apply andb_false_iff in Hc as [Hc|Hc]; apply negb_false_iff in Hc;
      [left; by apply bool_decide_eq_true in Hc|by right].
  - destruct (State d ==? DeviceActive), (IsZero (Enrolled d)) eqn:Hz; simpl; rewrite ?Hz; by destruct d.
Qed.

Lemma well_formed_AddDevice tag d now f f' :
  AddDevice tag d now f = Ok f' → well_formed f → well_formed f'.
Proof. intros (? & _ & _ & _ & Hg & _ & ->)%AddDevice_Ok. by apply well_formed_put_device. Qed.

(** ** Devices *)

Lemma target_device_inv ref tag : scope_of ref = RDevice tag → ref = device_ref tag.
Proof. intros H. pose proof (scope_of_spec ref) as Hs. by rewrite H in Hs. Qed.

Lemma target_group_inv ref g : scope_of ref = RGroup g → ref = group_ref g.
Proof. intros H. pose proof (scope_of_spec ref) as Hs. by rewrite H in Hs. Qed.

Lemma well_formed_RemoveDevice tag f f' :
  RemoveDevice tag f = Ok f' → well_formed f → well_formed f'.
Proof.
  unfold RemoveDevice. destruct (Devices f !! tag) as [d0|]; [|done]. intros [= <-] H.
  split; simpl; try apply H.
  - intros t [d [_ Ht]%lookup_delete_Some]. apply (wf_device_slug f H). by eexists.
  - intros t d g [_ Ht]%lookup_delete_Some. by apply (wf_members f H t d).
  - intros a [Ha Hne]%elem_of_delete_func. apply bool_decide_eq_false in Hne.
    destruct (wf_assign f H a Ha) as (? & Ht & ?). split_and!; [done| |done].
    unfold target_exists in *. destruct (scope_of (Target a)) eqn:Hs; try done.
    simpl. apply delete_is_Some; [|done]. intros ->. by apply Hne, target_device_inv.
  - apply NoDup_fmap_delete_func, H.
Qed.

Lemma UpdateDevice_Ok tag p f f' :
  UpdateDevice tag p f = Ok f' →
  ∃ d d', Devices f !! tag = Some d ∧ f' = f <| Devices ::= <[tag := d']> |> ∧
    Groups d' = default (Groups d) (dp_Groups p) ∧ Class d' = default (Class d) (dp_Class p) ∧
    State d' = State d ∧
    (∀ gs, dp_Groups p = Some gs → groups_exist f gs = None ∧ rejectAncestorDuplication f gs = None) ∧
    (dp_Class p = None → dp_Groups p = None ∨ checkClassAllowed f (Class d') (Groups d') = None) ∧
    (dp_Class p ≠ None → checkClassAllowed f (Class d') (Groups d') = None).
Proof.
  unfold UpdateDevice. destruct (Devices f !! tag) as [d|]; [|done].
  destruct (match dp_Hardware p with Some h => _ | None => _ end); [done|].
  destruct p as [ph pc pu pg pl pi]; simpl. intros H. exists d.
  destruct pg as [gs|]; [destruct (groups_exist f gs) eqn:Hge; [done|];
    destruct (rejectAncestorDuplication f gs) eqn:Hra; [done|]|];
    destruct pc as [c|]; simpl in H;
    try (destruct (checkClassAllowed f _ _) eqn:Hcc; [done|]);
    injection H as <-; eexists; (split; [done|]); (split; [reflexivity|]);
    destruct ph, pu, pl, pi; simpl in *; split_and!; try done; try naive_solver.
Qed.

Lemma well_formed_UpdateDevice tag p f f' :
  UpdateDevice tag p f = Ok f' → well_formed f → well_formed f'.
Proof.
  intros (d & d' & Hd & -> & Hg & _ & _ & Hgs & _)%UpdateDevice_Ok H.
  apply well_formed_put_device; [apply (wf_device_slug f H); by eexists| |done].
  intros g Hin. rewrite Hg in Hin. destruct (dp_Groups p) as [gs|].
  - destruct (Hgs gs eq_refl) as [Hge _]. by apply (groups_exist_None f gs).
  - by apply (wf_members f H tag d).
Qed.

Lemma setDeviceState_same_refs tag s1 s2 f f' :
  setDeviceState tag s1 s2 f = Ok f' → same_refs f f'.
Proof.
  unfold setDeviceState. destruct (Devices f !! tag) eqn:Hd; [|done].
  destruct (negb _); [done|]. intros [= <-]. by eapply same_refs_device.
Qed.

Lemma well_formed_join_group name f tag f' :
  join_group name f tag = Ok f' → well_formed f ∧ group_exists f name →
  well_formed f' ∧ group_exists f' name.
Proof.
  unfold join_group. destruct (Devices f !! tag) as [d|] eqn:Hd; [|done].
  destruct (checkClassAllowed _ _ _); [done|]. case_bool_decide as Hin; [by intros [= <-]|].
  destruct (rejectAncestorDuplication _ _); [done|]. intros [= <-] [H Hn]. split; [|done].
  apply well_formed_put_device; [apply (wf_device_slug f H); by eexists| |done].
  simpl. intros g [Hg|Hg]%elem_of_app; [by apply (wf_members f H tag d)|].
  by apply list_elem_of_singleton in Hg as ->.
Qed.

Lemma well_formed_CreateGroupWithDevices name g tags f f' :
  CreateGroupWithDevices name g tags f = Ok f' → well_formed f → well_formed f'.
Proof.
  intros (f1 & H1 & H2)%res_bind_Ok H.
  assert (group_exists f1 name) as Hn.
  { apply AddGroup_Ok in H1 as (_ & _ & _ & ->). unfold group_exists. simpl. rewrite lookup_insert_eq. by eexists. }
  eapply (fold_res_inv (join_group name) (λ f, well_formed f ∧ group_exists f name) tags f1 f'); [|split|exact H2].
  - intros s a s' _ Hs Hj. by eapply well_formed_join_group.
  - by eapply well_formed_AddGroup.
  - done.
Qed.

Lemma well_formed_UpdateGroup name parent idp f f' :
  UpdateGroup name parent idp f = Ok f' → well_formed f → well_formed f'.
Proof.
  unfold UpdateGroup. destruct (f_Groups f !! name) as [g|] eqn:Hg; [|done].
  intros (f1 & H1 & [= <-])%res_bind_Ok H.
  assert (well_formed f1 ∧ group_exists f1 name) as [H' [g1 Hg1]].
  { destruct parent as [p|]; [|injection H1 as <-; split; [done|by eexists]].
    split; [by eapply well_formed_SetGroupParent|].
    unfold SetGroupParent in H1. rewrite Hg in H1. destruct (_ && bool_decide _); [done|]. destruct (_ && climbs_to _ _ _ _ _); [done|].
    injection H1 as <-. unfold group_exists. simpl. rewrite lookup_insert_eq. by eexists. }
  destruct idp; [|done]. eapply well_formed_same; [|exact H'].
  eapply same_refs_group; [exact Hg1|]. unfold grp. by rewrite Hg1.
Qed.

Lemma RemoveGroup_Ok name f f' :
  RemoveGroup name f = Ok f' →
  group_exists f name ∧ GroupChildren f name = [] ∧ GroupDevices f name = [] ∧
  (∀ a, a ∈ Assignments f → Target a ≠ group_ref name) ∧
  (∀ b, b ∈ Access f → b_Scope b ≠ group_ref name) ∧
  (∀ id fl r, Filters f !! id = Some fl → r ∈ Rules fl → rule_names_group name r = false) ∧
  (∀ p r, Rollout f = Some p → r ∈ Rings p → rr_Group r ≠ name) ∧
  f' = f <| f_Groups ::= delete name |>.
Proof.
  unfold RemoveGroup. destruct (f_Groups f !! name) as [g|] eqn:Hg; [|done].
  case_bool_decide as Hk; [|done]. case_bool_decide as Hd; [|done]. simpl.
  destruct (first_err _ (Assignments f)) eqn:Ha; [done|].
  destruct (first_err _ (Access f)) eqn:Hb; [done|].
  destruct (first_err _ (map_to_list _)) eqn:Hf; [done|].
  destruct (match Rollout f with None => _ | Some p => _ end) eqn:Hr; [done|].
  intros [= <-]. split_and!; [by eexists|done|done| | | | |done].
  - intros a Hin. apply (first_err_if_None _ _ _ Ha) in Hin. by apply bool_decide_eq_false in Hin.
  - intros b Hin. apply (first_err_if_None _ _ _ Hb) in Hin. by apply bool_decide_eq_false in Hin.
  - intros id fl r Hfl Hin. apply elem_of_map_to_list in Hfl.
    apply (first_err_if_None _ _ _ Hf) in Hfl. cbv beta in Hfl.
    apply not_true_iff_false. intros Hn. apply not_true_iff_false in Hfl. apply Hfl.
    apply existsb_elem. eauto.
  - intros p r Hp Hin. rewrite Hp in Hr. apply (first_err_if_None _ _ _ Hr) in Hin.
    by apply bool_decide_eq_false in Hin.
Qed.

(** No wave with a list of groups lists this one. *)
Definition unlisted (f : Fleet) (name : string) : Prop :=
  ∀ p r, Rollout f = Some p → r ∈ Rings p → name ∉ rr_Groups r.

Lemma well_formed_RemoveGroup name f f' :
  RemoveGroup name f = Ok f' → unlisted f name → well_formed f → well_formed f'.
Proof.
  intros (Hn & Hk & Hd & Ha & Hb & Hf & Hr & ->)%RemoveGroup_Ok Hun H.
  set (f' := f <| f_Groups ::= _ |>).
  assert (He : ∀ x, x ≠ name → group_exists f x → group_exists f' x) by (intros x; apply delete_is_Some).
  assert (Hsub : ∀ x gx, f_Groups f' !! x = Some gx → f_Groups f !! x = Some gx)
    by (intros x gx Hx; simpl in Hx; by apply lookup_delete_Some in Hx as [_ ?]).
  assert (Hne : name ≠ "") by (by apply slug_nonempty, (wf_group_slug f H)).
  split; simpl; try apply H.
  - intros x [gx Hx]. apply (wf_group_slug f H). exists gx. by apply Hsub.
  - intros x gx Hx%Hsub. destruct (wf_parents f H x gx Hx) as [|Hp]; [by left|right].
    apply He; [|done]. intros Heq. assert (x ∈ GroupChildren f name) as Hin.
    { apply elem_of_GroupChildren. exists gx. split; [done|]. unfold effective_parent.
      rewrite Heq, bool_decide_eq_false_2 by done. simpl.
      destruct Hn as [gn Hn]. by rewrite bool_decide_eq_false_2 by (by rewrite Hn). }
    rewrite Hk in Hin. by apply elem_of_nil in Hin.
  - by apply acyclic_delete, H.
  - intros t d g Ht Hg. apply He; [|by apply (wf_members f H t d)]. intros ->.
    assert (t ∈ GroupDevices f name) as Hin by (apply elem_of_GroupDevices; eauto).
    rewrite Hd in Hin. by apply elem_of_nil in Hin.
  - intros id fl Hfl. destruct (wf_filter f H id fl Hfl) as (? & ? & Hrules).
    split; [done|]. split; [done|]. intros r Hin Hattr Hop g Hg.
    destruct (Hrules r Hin Hattr Hop g Hg) as [|Hex]; [by left|right]. apply He; [|done]. intros ->.
    pose proof (Hf id fl r Hfl Hin) as Hno. unfold rule_names_group in Hno.
    apply elem_of_cons in Hg as [Hg|Hg].
    + by rewrite Hattr, Hg, !bool_decide_eq_true_2 in Hno.
    + rewrite Hattr, (bool_decide_eq_true_2 (name ∈ _)), orb_true_r in Hno by done. done.
  - intros a Hin. destruct (wf_assign f H a Hin) as (? & Ht & ?). split_and!; [done| |done].
    unfold target_exists in *. destruct (scope_of (Target a)) eqn:Hs; try done.
    apply He; [|done]. intros ->. by apply (Ha a), target_group_inv.
  - intros b Hin. destruct (wf_access f H b Hin) as [? Hg]. split; [done|].
    intros g Hsc. apply He; [|by apply Hg]. intros ->. by apply (Hb b).
  - intros p Hp. destruct (wf_rollout f H p Hp) as (? & Hring & ?). split_and!; [done| |done].
    intros r Hin. destruct (Hring r Hin) as (? & ? & ? & Hgr). split_and!; try done; try lia.
    intros g Hg. apply He; [|by apply Hgr]. intros ->. revert Hg. unfold GroupList.
    destruct (rr_Groups r) as [|g0 gs] eqn:Hrg.
    + destruct (rr_Group r !=? ""); [|by intros ?%elem_of_nil].
      intros Heq%list_elem_of_singleton. by apply (Hr p r).
    + rewrite <- Hrg. exact (Hun p r Hp Hin).
Qed.

Lemma well_formed_Prune f f' : PruneRedundantGroups f = Ok f' → well_formed f → well_formed f'.
Proof.
  intros [= <-] H. rewrite prune_fold_frame. set (f' := f <| Devices := _ |>).
  assert (Hdev : ∀ t d', Devices f' !! t = Some d' →
    ∃ d, Devices f !! t = Some d ∧ ∀ g, g ∈ Groups d' → g ∈ Groups d).
  { intros t d' Ht. simpl in Ht.
    destruct (prune_fold f (map_to_list (Devices f)).*1 t) as [_ Hl]; [apply NoDup_fst_map_to_list|].
    rewrite Ht in Hl. destruct (_ ∈? _).
    - destruct (Devices f !! t) as [d|]; [|done]. simpl in Hl. injection Hl as ->. exists d.
      split; [done|]. simpl. intros g [? _]%elem_of_delete_func. done.
    - exists d'. done. }
  apply (well_formed_grow f f'); try done; try apply H.
  - intros t [d Hd]. destruct (prune_result f t d Hd) as [_ HD]. by eexists.
  - intros t [d' Ht]. destruct (Hdev t d' Ht) as (d & ? & _). apply (wf_device_slug f H). by eexists.
  - intros t d' g Ht Hg. destruct (Hdev t d' Ht) as (d & ? & Hsub).
    apply (wf_members f H t d); auto.
Qed.

(** ** Assemblies *)

(** The removal deletes the policy: nothing but the pair it made may use it. *)
Definition unconfigure_safe (f : Fleet) (polID filterID : string) : Prop :=
  ∀ a, a ∈ Assignments f → a_Policy a = polID → a_Filter a = filterID.

Lemma well_formed_unconfigure f polID filterID :
  filterID ≠ "" → unconfigure_safe f polID filterID → well_formed f →
  well_formed (unconfigureHardware f polID filterID).
Proof.
  intros Hne Hsafe H. unfold unconfigureHardware.
  set (f1 := f <| Assignments ::= _ |>). set (f2 := f1 <| Policies ::= _ |>).
  assert (H1 : well_formed f1) by (by apply (well_formed_delete_assignments f)).
  assert (H2 : well_formed f2).
  { apply well_formed_del_policy; [|done]. intros a [Ha Hp]%elem_of_delete_func Heq.
    unfold pair_assignment in Hp. rewrite Heq, (Hsafe a Ha Heq) in Hp.
    by rewrite !bool_decide_eq_true_2 in Hp. }
  destruct (existsb _ _) eqn:He; [done|]. apply well_formed_del_filter; [done| |done].
  intros a Ha Heq. apply not_true_iff_false in He. apply He, existsb_elem.
  exists a. split; [done|]. by apply bool_decide_eq_true.
Qed.

Lemma well_formed_ConfigureHardware profile target settings enforced f f' :
  ConfigureHardware profile target settings enforced f = Ok f' →
  (settings = ∅ → unconfigure_safe f (HardwarePolicyID (trim_space profile))
                    (HardwareFilterID (trim_space profile))) →
  well_formed f → well_formed f'.
Proof.
  unfold ConfigureHardware. destruct (_ ==? ""); [done|]. destruct (_ || _); [done|].
  destruct (validHardwareTarget f target); [done|]. intros Hok Hsafe H.
  case_bool_decide as Hs.
  - injection Hok as <-. by apply well_formed_unconfigure; auto.
  - apply res_bind_Ok in Hok as (f1 & H1 & Hok).
    assert (well_formed f1) as Hf1.
    { destruct (Filters f !! _) as [ex|].
      - destruct (selectsExactly _ _ _); [|done]. by injection H1 as <-.
      - by eapply well_formed_PutFilter. }
    destruct (match Policies f1 !! _ with Some _ => _ | None => _ end); [done|].
    apply res_bind_Ok in Hok as (f2 & H2 & Hok).
    eapply well_formed_Assign; [exact Hok|]. apply (well_formed_delete_assignments f2).
    by eapply well_formed_PutPolicy.
Qed.

Lemma well_formed_ApplyProfile hash p f f' :
  ApplyProfile hash p f = Ok f' → well_formed f → well_formed f'.
Proof.
  unfold ApplyProfile. destruct (match Policies f !! _ with Some _ => _ | None => _ end); [done|].
  intros (f1 & H1 & (f2 & H2 & Hok)%res_bind_Ok)%res_bind_Ok H.
  assert (well_formed f1) as Hf1 by (by eapply well_formed_PutPolicy).
  assert (well_formed f2) as Hf2.
  { destruct (_ ==? ""); [by injection H2 as <-|].
    destruct (Filters f1 !! _) as [ex|].
    - destruct (selectsExactly _ _ _); [|done]. by injection H2 as <-.
    - by eapply well_formed_PutFilter. }
  destruct (existsb _ _).
  - injection Hok as <-. by apply (well_formed_delete_assignments f2).
  - eapply well_formed_Assign; [exact Hok|]. by apply (well_formed_delete_assignments f2).
Qed.

(** ** Every mutation of the package *)

Inductive Command :=
  | CSetScopeSetting (ref key : string) (v : Value)
  | CClearScopeSetting (ref key : string)
  | CSetScopeEnforce (ref key : string) (on : bool)
  | CSetAcceptance (ref key reason : string)
  | CClearAcceptance (ref key : string)
  | CSetScopeApps (ref kind : string) (names : list string)
  | CSetRolloutPlan (p : option RolloutPolicy)
  | CSetAssurance (a : Assurance)
  | CSetGroupParent (group parent : string)
  | CSetGroupAllowedClasses (group : string) (classes : list string)
  | CSetGroupPin (group target : string)
  | CSetDevicePin (tag ring : string)
  | CAddDevice (tag : string) (d : Device) (now : Time)
  | CRemoveDevice (tag : string)
  | CUpdateDevice (tag : string) (p : DevicePatch)
  | CRetireDevice (tag : string)
  | CReactivateDevice (tag : string)
  | CActivateProvisional (tag : string)
  | CAddGroup (name : string) (g : Group)
  | CCreateGroupWithDevices (name : string) (g : Group) (tags : list string)
  | CUpdateGroup (name : string) (parent idp : option string)
  | CRemoveGroup (name : string)
  | CPruneRedundantGroups
  | CSetDeviceIntent (tag intent : string) (force : bool)
  | CClearDeviceIntent (tag : string)
  | CSetDeviceHostKey (tag pubkey : string) (force : bool)
  | CAddStation (tag : string) (s : Station)
  | CRemoveStation (tag : string)
  | CAddSecretRef (name : string) (r : SecretRef)
  | CRemoveSecretRef (name : string)
  | CPutPolicy (id : string) (p : Policy)
  | CDeletePolicy (id : string)
  | CAssign (a : Assignment)
  | CUnassign (policy target filter : string)
  | CPutFilter (id : string) (fl : Filter)
  | CDeleteFilter (id : string)
  | CGrant (b : AccessBinding)
  | CRevoke (group scope : string)
  | CApplyProfile (p : Profile)
  | CConfigureHardware (profile target : string) (settings : Settings) (enforced : list string).

Section commands.
  Context (profile_hash : string → Settings → string).

Definition run_command (c : Command) : Mutation :=
  match c with
  | CSetScopeSetting ref key v => SetScopeSetting ref key v
  | CClearScopeSetting ref key => ClearScopeSetting ref key
  | CSetScopeEnforce ref key on => SetScopeEnforce ref key on
  | CSetAcceptance ref key reason => SetAcceptance ref key reason
  | CClearAcceptance ref key => ClearAcceptance ref key
  | CSetScopeApps ref kind names => SetScopeApps ref kind names
  | CSetRolloutPlan p => SetRolloutPlan p
  | CSetAssurance a => SetAssurance a
  | CSetGroupParent g p => SetGroupParent g p
  | CSetGroupAllowedClasses g cs => SetGroupAllowedClasses g cs
  | CSetGroupPin g t => SetGroupPin g t
  | CSetDevicePin t r => SetDevicePin t r
  | CAddDevice t d now => AddDevice t d now
  | CRemoveDevice t => RemoveDevice t
  | CUpdateDevice t p => UpdateDevice t p
  | CRetireDevice t => RetireDevice t
  | CReactivateDevice t => ReactivateDevice t
  | CActivateProvisional t => ActivateProvisional t
  | CAddGroup n g => AddGroup n g
  | CCreateGroupWithDevices n g ts => CreateGroupWithDevices n g ts
  | CUpdateGroup n p i => UpdateGroup n p i
  | CRemoveGroup n => RemoveGroup n
  | CPruneRedundantGroups => PruneRedundantGroups
  | CSetDeviceIntent t i force => SetDeviceIntent t i force
  | CClearDeviceIntent t => ClearDeviceIntent t
  | CSetDeviceHostKey t k force => SetDeviceHostKey t k force
  | CAddStation t s => AddStation t s
  | CRemoveStation t => RemoveStation t
  | CAddSecretRef n r => AddSecretRef n r
  | CRemoveSecretRef n => RemoveSecretRef n
  | CPutPolicy id p => PutPolicy id p
  | CDeletePolicy id => DeletePolicy id
  | CAssign a => Assign a
  | CUnassign p t fl => Unassign p t fl
  | CPutFilter id fl => PutFilter id fl
  | CDeleteFilter id => DeleteFilter id
  | CGrant b => Grant b
  | CRevoke g s => Revoke g s
  | CApplyProfile p => ApplyProfile profile_hash p
  | CConfigureHardware p t s e => ConfigureHardware p t s e
  end.

(** The two mutations with a precondition the code does not check: emptying a
    model's configuration deletes its policy whoever else assigns it, and the
    removal of a group looks at the waves of one group only. *)
Definition safe_command (f : Fleet) (c : Command) : Prop :=
  match c with
  | CConfigureHardware p _ s _ =>
      s = ∅ → unconfigure_safe f (HardwarePolicyID (trim_space p)) (HardwareFilterID (trim_space p))
  | CRemoveGroup name => unlisted f name
  | _ => True
  end.

Inductive command_step : Fleet → Fleet → Prop :=
  | run_step c f f' : safe_command f c → run_command c f = Ok f' → command_step f f'.

Lemma registry_same_refs c f f' :
  match c with
  | CSetScopeSetting _ _ _ | CClearScopeSetting _ _ | CSetScopeEnforce _ _ _
  | CClearAcceptance _ _ | CSetAcceptance _ _ _ | CSetScopeApps _ _ _ | CSetAssurance _
  | CSetGroupAllowedClasses _ _ | CSetGroupPin _ _ | CSetDevicePin _ _ | CRetireDevice _
  | CReactivateDevice _ | CActivateProvisional _ | CSetDeviceIntent _ _ _ | CClearDeviceIntent _
  | CSetDeviceHostKey _ _ _ | CAddStation _ _ | CRemoveStation _ | CAddSecretRef _ _ | CRemoveSecretRef _ => True
  | _ => False
  end → run_command c f = Ok f' → same_refs f f'.
Proof.
  destruct c; try done; simpl; intros _ Hok; try (by eapply with_scope_same_refs);
    try (by eapply setDeviceState_same_refs).
  - unfold SetAcceptance in Hok. destruct (_ ==? ""); [done|]. by eapply with_scope_same_refs.
  - unfold SetScopeApps in Hok. destruct (first_err _ _); [done|]. by eapply with_scope_same_refs.
  - injection Hok as <-. by split.
  - unfold SetGroupAllowedClasses in Hok. destruct (f_Groups f !! group) eqn:Hg; [|done].
    destruct (first_err _ _); [done|].
    destruct (match classes with [] => _ | _ :: _ => _ end); [done|]. injection Hok as <-.
    by eapply same_refs_group.
  - unfold SetGroupPin in Hok. destruct (f_Groups f !! group) eqn:Hg; [|done].
    injection Hok as <-. by eapply same_refs_group.
  - unfold SetDevicePin in Hok. destruct (Devices f !! tag) eqn:Hd; [|done].
    injection Hok as <-. by eapply same_refs_device.
  - unfold SetDeviceIntent in Hok. destruct (Devices f !! tag) eqn:Hd; [|done].
    destruct (Retired d); [done|]. destruct (_ ∈? _); [injection Hok as <-; by eapply same_refs_device|].
    destruct (_ ==? _); [|done]. destruct (_ && _); [done|].
    injection Hok as <-; by eapply same_refs_device.
  - unfold ClearDeviceIntent in Hok. destruct (Devices f !! tag) eqn:Hd; [|done].
    injection Hok as <-. by eapply same_refs_device.
  - unfold SetDeviceHostKey in Hok. destruct (Devices f !! tag) eqn:Hd; [|done].
    destruct (NormalizeHostKey _); [|done]. destruct (_ && _); [done|]. injection Hok as <-. by eapply same_refs_device.
  - unfold AddStation in Hok. destruct (negb _); [done|]. destruct (Stations f !! tag); [done|].
    injection Hok as <-. by split.
  - unfold RemoveStation in Hok. destruct (Stations f !! tag); [|done].
    injection Hok as <-. by split.
  - unfold AddSecretRef in Hok. destruct (negb _); [done|]. destruct (SecretRefs f !! name); [done|].
    injection Hok as <-. by split.
  - unfold RemoveSecretRef in Hok. destruct (SecretRefs f !! name); [|done].
    injection Hok as <-. by split.
Qed.

Lemma well_formed_run c f f' :
  safe_command f c → run_command c f = Ok f' → well_formed f → well_formed f'.
Proof.
  intros Hsafe Hok H. destruct c;
    try (by eapply well_formed_same; [|exact H]; eapply registry_same_refs; [|exact Hok]);
    simpl in *;
    eauto using well_formed_SetRolloutPlan, well_formed_SetGroupParent, well_formed_AddDevice,
      well_formed_RemoveDevice, well_formed_UpdateDevice, well_formed_AddGroup,
      well_formed_CreateGroupWithDevices, well_formed_UpdateGroup, well_formed_RemoveGroup,
      well_formed_Prune, well_formed_PutPolicy, well_formed_DeletePolicy, well_formed_Assign,
      well_formed_Unassign, well_formed_PutFilter, well_formed_DeleteFilter, well_formed_Grant,
      well_formed_Revoke, well_formed_ApplyProfile, well_formed_ConfigureHardware.
Qed.

Lemma well_formed_zero : well_formed zero_fleet.
Proof.
  split; try done.
  - by intros g [].
  - intros g Hg. inversion Hg as [? ? (_ & _ & [? ?] & _)|? ? ? (_ & _ & [? ?] & _)]; done.
  - by intros t [].
  - by intros a ?%elem_of_nil.
  - constructor.
  - by intros b ?%elem_of_nil.
  - constructor.
Qed.
End commands.

(** ** Properties *)

(** C38: the document invariant. A mutation of the package that succeeds keeps the
    document well formed - the group tree a forest of existing groups, every
    membership, assignment, binding, policy lock, filter rule and wave naming
    something that exists, no assignment or binding doubled - outside two
    situations the code does not refuse ([safe_command]): a hardware model's
    configuration is emptied while another assignment still uses its policy, or a
    group is removed that a wave of several groups lists.  Hence every document
    reached from the empty one by commands outside these two is well formed. *)
Theorem well_formed_command (profile_hash : string → Settings → string) :
  (∀ f c f', well_formed f → safe_command f c → run_command profile_hash c f = Ok f' →
     well_formed f') ∧
  (∀ f, rtc (command_step profile_hash) zero_fleet f → well_formed f).
Proof.
  split.
  - intros f c f' H Hs Hok. by eapply well_formed_run.
  - intros f. apply (rtc_ind_r (λ f, well_formed f)); [apply well_formed_zero|].
    intros f1 f2 _ [c f1' f2' Hs Hok] H1. by eapply well_formed_run.
Qed.

(** A run of commands from the empty document. *)
Definition run_commands (hash : string → Settings → string) (cs : list Command) : res FleetErr Fleet :=
  fold_res (λ f c, run_command hash c f) zero_fleet cs.

(** Commands without a precondition of their own. *)
Definition unconditional (c : Command) : Prop :=
  match c with CConfigureHardware _ _ _ _ | CRemoveGroup _ => False | _ => True end.

Lemma well_formed_run_commands hash cs f :
  Forall unconditional cs → run_commands hash cs = Ok f → well_formed f.
Proof.
  intros Hcs Hok. rewrite Forall_forall in Hcs. unfold run_commands in Hok.
  eapply (fold_res_inv (λ f c, run_command hash c f) well_formed cs zero_fleet f);
    [|apply well_formed_zero|exact Hok].
  intros s c s' Hc Hs Hrun. eapply well_formed_run; [|exact Hrun|done].
  specialize (Hcs c Hc). by destruct c.
Qed.

Definition no_hash (_ : string) (_ : Settings) : string := "00000000".

(** A group added to the empty document: the hypotheses of both halves hold. *)
Definition one_group : Fleet :=
  match run_command no_hash (CAddGroup "g1" zero_group) zero_fleet with Ok f => f | Err _ => zero_fleet end.

Lemma well_formed_command_witness :
  run_command no_hash (CAddGroup "g1" zero_group) zero_fleet = Ok one_group ∧
  f_Groups one_group !! "g1" ≠ None ∧ well_formed one_group.
Proof.
  split_and!; [vm_compute; reflexivity|vm_compute; discriminate|].
  apply (proj1 (well_formed_command no_hash) zero_fleet (CAddGroup "g1" zero_group) one_group).
  - apply (proj2 (well_formed_command no_hash) zero_fleet). apply rtc_refl.
  - exact I.
  - vm_compute. reflexivity.
Defined.

Definition key1 : Settings := {["key" := VBool true]}.
Definition policy1 : Policy := mkPolicy "p" "" key1 [] "" [] [].

(** Configuring a hardware model with no settings deletes its policy even
    when another assignment still uses it, and the document then holds an
    assignment of a policy that does not exist - the state DeletePolicy refuses
    to create.  The document is reached by commands alone. *)
Theorem unconfigure_leaves_dangling_assignment :
  match run_commands no_hash
    [CConfigureHardware "x1" "org" key1 [];
     CAssign (Build_Assignment "hw-x1" "org" "" 0);
     CConfigureHardware "x1" "org" ∅ []] with
  | Ok f => Assignments f = [Build_Assignment "hw-x1" "org" "" 0] ∧ Policies f !! "hw-x1" = None ∧
            ¬ well_formed f
  | Err _ => False
  end.
Proof.
  destruct (run_commands _ _) as [f|e] eqn:Hf; [|by vm_compute in Hf].
  assert (Assignments f = [Build_Assignment "hw-x1" "org" "" 0] ∧ Policies f !! "hw-x1" = None)
    as [Ha Hp].
  { assert (f = match run_commands no_hash
      [CConfigureHardware "x1" "org" key1 []; CAssign (Build_Assignment "hw-x1" "org" "" 0);
       CConfigureHardware "x1" "org" ∅ []] with Ok f => f | Err _ => zero_fleet end) as ->
      by (by rewrite Hf).
    vm_compute. split; reflexivity. }
  split_and!; [done|done|]. intros H.
  destruct (wf_assign f H (Build_Assignment "hw-x1" "org" "" 0)) as ([p Hp'] & _); [rewrite Ha; left|].
  simpl in Hp'. congruence.
Qed.

Definition wave (groups : list string) : RolloutRing := mkRing "" groups "" 0 0 false 0 0.

(** RemoveGroup checks a wave's single group but not its group list: a group
    of a multi-group wave can be removed, and the plan then names a group that
    does not exist and is not well formed.  The document is reached by commands
    alone. *)
Theorem RemoveGroup_dangling_ring :
  match run_commands no_hash
    [CAddGroup "g1" zero_group; CAddGroup "g2" zero_group;
     CSetRolloutPlan (Some (Build_RolloutPolicy [wave ["g1"; "g2"]] "" None));
     CRemoveGroup "g1"] with
  | Ok f => Rollout f = Some (Build_RolloutPolicy [wave ["g1"; "g2"]] "" None) ∧
            f_Groups f !! "g1" = None ∧
            (* the same plan would now be refused *)
            SetRolloutPlan (Rollout f) f = Err (RingUnknownGroup 0 "g1") ∧ ¬ well_formed f
  | Err _ => False
  end.
Proof.
  set (run := run_commands _ _).
  assert (Hrun : match run with
    | Ok f => Rollout f = Some (Build_RolloutPolicy [wave ["g1"; "g2"]] "" None) ∧ f_Groups f !! "g1" = None ∧
              SetRolloutPlan (Rollout f) f = Err (RingUnknownGroup 0 "g1")
    | Err _ => False end) by (vm_compute; split_and!; reflexivity).
  destruct run as [f|]; [|done]. destruct Hrun as (Hr & Hg & He). split_and!; [done..|]. intros H.
  destruct (wf_rollout f H _ Hr) as (_ & Hring & _). destruct (Hring (wave ["g1"; "g2"])) as (_ & _ & _ & Hex); [left|].
  destruct (Hex "g1") as [x Hx]; [left|congruence].
Qed.
