(* ===== verification/ScopeEdits.v ===== *)
(** * Scope edits and resolution

    How the edits of one scope (mutate.go, apps.go) show in what a device
    resolves (resolve.go, apps.go): only on the devices below the scope, and
    never through a lock set above it. *)

From S2P Require Import Prelude GoLib FleetModel Groups Filters Resolve Mutate Apps.

(** The scope a reference names. *)
Definition scope_at (f : Fleet) (ref : string) : option Scope :=
  match scope_of ref with
  | ROrg => Some (org_scope f)
  | RGroup g => g_scope <$> f_Groups f !! g
  | RDevice t => d_scope <$> Devices f !! t
  | RBad => None
  end.

(** What an edit of a scope leaves alone: everything but the scope it names. *)
Record scope_frame (ref : string) (f f' : Fleet) : Prop := {
  sf_org : ref ≠ "org" → Org f' = Org f;
  sf_group : ∀ g, group_ref g ≠ ref → f_Groups f' !! g = f_Groups f !! g;
  sf_group_tree : ∀ g, (λ x, (Parent x, IdpGroup x, g_Pin x, AllowedClasses x)) <$> f_Groups f' !! g =
                       (λ x, (Parent x, IdpGroup x, g_Pin x, AllowedClasses x)) <$> f_Groups f !! g;
  sf_device : ∀ t, device_ref t ≠ ref → Devices f' !! t = Devices f !! t;
  sf_device_rest : ∀ t, (λ d, d <| d_scope := zero_scope |>) <$> Devices f' !! t =
                        (λ d, d <| d_scope := zero_scope |>) <$> Devices f !! t;
  sf_rest : f' = f <| Org := Org f' |> <| f_Groups := f_Groups f' |> <| Devices := Devices f' |>
}.

Lemma with_scope_Ok ref edit f f' :
  with_scope ref edit f = Ok f' →
  ∃ s s', scope_at f ref = Some s ∧ edit s = Ok s' ∧ scope_at f' ref = Some s' ∧ scope_frame ref f f'.
Proof.
  unfold with_scope, scope_at. destruct (scope_of ref) as [|g|t|] eqn:Href; [| | |done].
  - intros (s & Hs & [= <-])%res_bind_Ok. exists (org_scope f), s. split_and!; try done.
    pose proof (scope_of_spec ref) as Hr. rewrite Href in Hr. by split; try destruct f.
  - destruct (f_Groups f !! g) as [x|] eqn:Hg; [|done]. intros (s & Hs & [= <-])%res_bind_Ok.
    pose proof (scope_of_spec ref) as Hr. rewrite Href in Hr. subst ref.
    exists (g_scope x), s. simpl. rewrite lookup_insert_eq. split_and!; try done.
    split; simpl; try done; try (by destruct f).
    + intros g' Hne. rewrite lookup_insert_ne; [done|]. congruence.
    + intros g'. destruct (decide (g' = g)) as [->|]; [|by rewrite lookup_insert_ne].
      rewrite lookup_insert_eq, Hg. done.
  - destruct (Devices f !! t) as [x|] eqn:Hd; [|done]. intros (s & Hs & [= <-])%res_bind_Ok.
    pose proof (scope_of_spec ref) as Hr. rewrite Href in Hr. subst ref.
    exists (d_scope x), s. simpl. rewrite lookup_insert_eq. split_and!; try done.
    split; simpl; try done; try (by destruct f).
    + intros t' Hne. rewrite lookup_insert_ne; [done|]. congruence.
    + intros t'. destruct (decide (t' = t)) as [->|]; [|by rewrite lookup_insert_ne].
      rewrite lookup_insert_eq, Hd. done.
Qed.

Lemma with_scope_missing ref edit f :
  scope_at f ref = None →
  with_scope ref edit f = Err match scope_of ref with
                              | RGroup g => UnknownGroup g | RDevice t => UnknownDevice t
                              | _ => BadScope ref end.
Proof.
  unfold scope_at, with_scope. destruct (scope_of ref) as [|g|t|]; try done.
  - by destruct (f_Groups f !! g).
  - by destruct (Devices f !! t).
Qed.

(** The three outcomes of an edit, in one match. *)
Lemma with_scope_cases ref edit f :
  match with_scope ref edit f, scope_at f ref with
  | Ok f', Some s => ∃ s', edit s = Ok s' ∧ scope_at f' ref = Some s' ∧ scope_frame ref f f'
  | Err e, Some s => edit s = Err e
  | Err _, None => True
  | Ok _, None => False
  end.
Proof.
  destruct (with_scope ref edit f) as [f'|e] eqn:H.
  - destruct (with_scope_Ok _ _ _ _ H) as (s & s' & -> & ? & ? & ?). eauto.
  - destruct (scope_at f ref) as [s|] eqn:Hs; [|done]. unfold with_scope, scope_at in *.
    destruct (scope_of ref) as [|g|t|]; [|destruct (f_Groups f !! g)|destruct (Devices f !! t)|];
      simplify_eq/=; try done; by apply res_bind_Err in H as [?|(? & _ & ?)].
Qed.

Section edit.
  Context (ref : string) (f f' : Fleet) (Hfr : scope_frame ref f f').

Lemma frame_parents : same_parents (f_Groups f) (f_Groups f').
Proof.
  intros g. pose proof (sf_group_tree _ _ _ Hfr g) as H.
  destruct (f_Groups f !! g), (f_Groups f' !! g); simplify_eq/=; congruence.
Qed.

Lemma frame_rest :
  Policies f' = Policies f ∧ Filters f' = Filters f ∧ Assignments f' = Assignments f.
Proof. rewrite (sf_rest _ _ _ Hfr). done. Qed.

Lemma frame_dev t : (dev f' t) <| d_scope := zero_scope |> = (dev f t) <| d_scope := zero_scope |>.
Proof.
  pose proof (sf_device_rest _ _ _ Hfr t) as H. unfold dev.
  destruct (Devices f !! t) as [d|], (Devices f' !! t) as [d'|]; try discriminate H; [|done].
  by apply (inj Some) in H.
Qed.

Lemma frame_groups_of t : Groups (dev f' t) = Groups (dev f t).
Proof. exact (f_equal Groups (frame_dev t)). Qed.

Lemma frame_reaches gs a : reaches f gs a ↔ reaches f' gs a.
Proof.
  unfold reaches, GroupAncestry. by setoid_rewrite (ancestry_same_parents _ _ _ frame_parents).
Qed.

Lemma frame_order t : scope_order f' t = scope_order f t.
Proof.
  unfold scope_order, expanded_groups, GroupAncestry. rewrite frame_groups_of. f_equal.
  apply list_bind_ext; [|done]. intros g. symmetry. apply ancestry_same_parents, frame_parents.
Qed.

Lemma frame_attr t d d' attr :
  d <| d_scope := zero_scope |> = d' <| d_scope := zero_scope |> →
  attr_value t d attr = attr_value t d' attr.
Proof. destruct d, d'; unfold attr_value; simpl; intros [= -> -> -> -> -> -> -> -> -> -> -> ->]. done. Qed.

Lemma frame_device_lookup t d :
  Devices f !! t = Some d →
  ∃ d', Devices f' !! t = Some d' ∧ d <| d_scope := zero_scope |> = d' <| d_scope := zero_scope |>.
Proof.
  intros Hd. pose proof (sf_device_rest _ _ _ Hfr t) as H. rewrite Hd in H.
  destruct (Devices f' !! t) as [d'|]; [|discriminate H]. exists d'. split; [done|].
  by apply (inj Some) in H.
Qed.

Lemma frame_rule_holds r t : rule_holds f r t → rule_holds f' r t.
Proof.
  intros Hr. pose proof Hr as (d & Hd & _).
  destruct (frame_device_lookup t d Hd) as (d' & Hd' & Heq).
  eapply (rule_holds_ext f f' r t d d'); [done|done| | |done].
  - intros attr. by apply frame_attr.
  - intros a. rewrite (f_equal Groups Heq : Groups d = Groups d'). apply frame_reaches.
Qed.

Lemma frame_rule_holds_inv r t : rule_holds f' r t → rule_holds f r t.
Proof.
  intros Hr. pose proof Hr as (d' & Hd' & _).
  assert (∃ d, Devices f !! t = Some d ∧ d <| d_scope := zero_scope |> = d' <| d_scope := zero_scope |>)
    as (d & Hd & Heq).
  { pose proof (sf_device_rest _ _ _ Hfr t) as H. rewrite Hd' in H.
    destruct (Devices f !! t) as [d|]; [|discriminate H]. exists d. split; [done|].
    by apply (inj Some) in H. }
  eapply (rule_holds_ext f' f r t d' d); [done|done| | |done].
  - intros attr. symmetry. by apply frame_attr.
  - intros a. rewrite (f_equal Groups Heq : Groups d = Groups d'). symmetry. apply frame_reaches.
Qed.

Lemma frame_filter_ok fl t : filter_ok f fl t ↔ filter_ok f' fl t.
Proof.
  destruct frame_rest as (_ & Hf & _).
  assert (Hr : ∀ r, rule_holds f r t ↔ rule_holds f' r t)
    by (intros r; split; [apply frame_rule_holds|apply frame_rule_holds_inv]).
  split; apply filter_ok_ext; try done; intros r; by rewrite Hr.
Qed.

(** The contributors of a device, before and after: those the edit does not
    touch, and the inline one of the edited scope. *)
Definition edited (tag : string) (c : contributor) : Prop :=
  inline c = true ∧ assignmentPosition (scopePositions f tag) ref tag = Some (specificity c).

Lemma contributes_edit tag c :
  contributes f tag c → contributes f' tag c ∨ edited tag c.
Proof.
  destruct frame_rest as (Hp & Hf & Ha).
  destruct 1 as [o Ho Hne|i a Hi Hne|Hne|i a p s Hi Hpo Hs Hfl].
  - destruct (decide (ref = "org")) as [Hr|Hr].
    + right. split; [done|]. apply assignmentPosition_spec. rewrite Hr. constructor.
    + left. constructor; [|done]. by rewrite (sf_org _ _ _ Hfr).
  - destruct (decide (group_ref a = ref)) as [Hr|Hr].
    + right. split; [done|]. apply assignmentPosition_spec. rewrite <- Hr. by constructor.
    + left. assert (grp f a = grp f' a) as Hg by (unfold grp; by rewrite (sf_group _ _ _ Hfr)).
      rewrite Hg in *. constructor; [by rewrite frame_order|done].
  - destruct (decide (device_ref tag = ref)) as [Hr|Hr].
    + right. split; [done|]. apply assignmentPosition_spec. rewrite <- Hr. by constructor.
    + left. assert (dev f tag = dev f' tag) as Hd by (unfold dev; by rewrite (sf_device _ _ _ Hfr)).
      rewrite Hd in *. rewrite <- frame_order. by constructor.
  - left. eapply contrib_policy; [by rewrite Ha|by rewrite Hp| |by apply frame_filter_ok].
    eapply target_position_order; [|exact Hs]. symmetry. apply frame_order.
Qed.
End edit.

Lemma scope_frame_sym ref f f' : scope_frame ref f f' → scope_frame ref f' f.
Proof.
  intros [H1 H2 H3 H4 H5 H6]. split; try (intros; symmetry; auto).
  rewrite H6. by destruct f, f'.
Qed.

Lemma edited_sym ref f f' tag c :
  scope_frame ref f f' → edited ref f' tag c → edited ref f tag c.
Proof.
  intros Hfr [Hi Hp]. split; [done|]. apply assignmentPosition_spec.
  apply assignmentPosition_spec in Hp. eapply target_position_order; [|exact Hp].
  by apply (frame_order ref).
Qed.

(** ** Properties *)

(** A lock must lock a value. *)
Definition locks_have_values (s : Scope) : Prop :=
  ∀ k, k ∈ sc_Enforced s → is_Some (sc_Settings s !! k).

Lemma enforce_edit key ref (on : bool) s s' :
  (if on then
     match sc_Settings s !! key with
     | None => Err (CannotEnforce key ref)
     | Some _ => if key ∈? sc_Enforced s then Ok s else Ok (s <| sc_Enforced ::= λ l, l ++ [key] |>)
     end
   else Ok (s <| sc_Enforced ::= delete_func (λ k, k ==? key) |>)) = Ok s' →
  sc_Settings s' = sc_Settings s ∧ (on = true → is_Some (sc_Settings s !! key)) ∧
  (∀ k, k ∈ sc_Enforced s' ↔ (k ∈ sc_Enforced s ∧ k ≠ key) ∨ (k = key ∧ on = true)) ∧
  (locks_have_values s → locks_have_values s').
Proof.
  destruct on.
  - destruct (sc_Settings s !! key) as [v|] eqn:Hv; [|done].
    case_bool_decide as Hin; intros [= <-]; (split_and!; [done|by eexists| |]); simpl; try done.
    + intros k. destruct (decide (k = key)) as [->|]; naive_solver.
    + intros k. rewrite elem_of_app, list_elem_of_singleton.
      destruct (decide (k = key)) as [->|]; naive_solver.
    + intros Hl k [Hk|Hk]%elem_of_app; simpl; [auto|].
      apply list_elem_of_singleton in Hk as ->. by eexists.
  - intros [= <-]. split_and!; [done|done| |]; simpl.
    + intros k. rewrite elem_of_delete_func, bool_decide_eq_false. naive_solver.
    + intros Hl k [Hk _]%elem_of_delete_func. auto.
Qed.

(** The settings mutations do exactly what they say at exactly the scope they
    name. They fail iff the scope does not exist (or an enforced key has no
    value there); setting, clearing and enforcing keep every lock on a value;
    clearing removes the value and its lock together; and everything else in the
    document is untouched. *)
Theorem scope_setting_ops ref key f :
  (∀ v, match SetScopeSetting ref key v f, scope_at f ref with
        | Ok f', Some s =>
            scope_at f' ref = Some (s <| sc_Settings ::= <[key := v]> |>) ∧ scope_frame ref f f' ∧
            (locks_have_values s → locks_have_values (s <| sc_Settings ::= <[key := v]> |>))
        | Err _, None => True
        | _, _ => False
        end) ∧
  match ClearScopeSetting ref key f, scope_at f ref with
  | Ok f', Some s =>
      ∃ s', scope_at f' ref = Some s' ∧ scope_frame ref f f' ∧
        sc_Settings s' = delete key (sc_Settings s) ∧
        (∀ k, k ∈ sc_Enforced s' ↔ k ∈ sc_Enforced s ∧ k ≠ key) ∧
        (locks_have_values s → locks_have_values s')
  | Err _, None => True
  | _, _ => False
  end ∧
  ∀ on, match SetScopeEnforce ref key on f, scope_at f ref with
  | Ok f', Some s =>
      ∃ s', scope_at f' ref = Some s' ∧ scope_frame ref f f' ∧
        sc_Settings s' = sc_Settings s ∧ (on = true → is_Some (sc_Settings s !! key)) ∧
        (∀ k, k ∈ sc_Enforced s' ↔ (k ∈ sc_Enforced s ∧ k ≠ key) ∨ (k = key ∧ on = true)) ∧
        (locks_have_values s → locks_have_values s')
  | Err _, Some s => on = true ∧ sc_Settings s !! key = None
  | Err _, None => True
  | Ok _, None => False
  end.
Proof.
  split_and!.
  - intros v. unfold SetScopeSetting.
    pose proof (with_scope_cases ref (λ s, Ok (s <| sc_Settings ::= <[key := v]> |>)) f) as H.
    destruct (with_scope _ _ f), (scope_at f ref) as [s|]; try done.
    destruct H as (s' & [= <-] & Hs' & Hfr). split_and!; [done|done|].
    intros Hl k Hk. apply lookup_insert_is_Some'. auto.
  - unfold ClearScopeSetting. pose proof (with_scope_cases ref (λ s, Ok (s <| sc_Settings ::= delete key |>
      <| sc_Enforced ::= delete_func (λ k, k ==? key) |>)) f) as H.
    destruct (with_scope _ _ f), (scope_at f ref) as [s|]; try done.
    destruct H as (s' & [= <-] & Hs' & Hfr). eexists. split_and!; [done|done|done| |]; simpl.
    + intros k. by rewrite elem_of_delete_func, bool_decide_eq_false.
    + intros Hl k [Hk Hne%bool_decide_eq_false]%elem_of_delete_func. simpl.
      rewrite lookup_delete_ne by done. auto.
  - intros on. unfold SetScopeEnforce. match goal with
    |- context [with_scope ref ?ed f] => pose proof (with_scope_cases ref ed f) as H end.
    destruct (with_scope _ _ f), (scope_at f ref) as [s|]; try done.
    + destruct H as (s' & He & Hs' & Hfr). exists s'. split; [done|]. split; [done|].
      by apply (enforce_edit key ref on).
    + destruct on; [|done]. destruct (sc_Settings s !! key); [|done].
      by destruct (key ∈? sc_Enforced s).
Qed.

(** What an edit of one scope can do to a device. A scope that is not on the
    device's chain changes nothing; one that is cannot change a key that a more
    general scope locks: whatever the edit sets, clears or enforces there, the
    locked value and its provenance stay. *)
Theorem scope_edit_respects_locks ref edit f f' tag key :
  with_scope ref edit f = Ok f' →
  match assignmentPosition (scopePositions f tag) ref tag with
  | None => Resolve f' tag = Resolve f tag
  | Some p =>
      ∀ c, best_of (is_locker f tag key) true c → specificity c < p →
        Resolve f' tag !! key = Resolve f tag !! key
  end.
Proof.
  intros (s & s' & _ & _ & _ & Hfr)%with_scope_Ok.
  pose proof (scope_frame_sym _ _ _ Hfr) as Hfr'.
  destruct (assignmentPosition (scopePositions f tag) ref tag) as [p|] eqn:Hp.
  - intros c [[[Hc [v Hv]] Hk] Hbest] Hlt.
    assert (Hc' : contributes f' tag c).
    { destruct (contributes_edit ref f f' Hfr tag c Hc) as [?|[_ He]]; [done|].
      rewrite Hp in He. injection He as ->. lia. }
    trans (Some (mkResolution v (source c) true)); [|symmetry]; apply Resolve_Some.
    + apply resolves_locked; [|done]. split; [split; [split; [done|by exists v]|done]|].
      intros c' [[Hcc' Hs'] Hk'].
      destruct (contributes_edit ref f' f Hfr' tag c' Hcc') as [Hold|He].
      * by apply Hbest.
      * apply (edited_sym ref f f') in He as [_ He]; [|done]. rewrite Hp in He. injection He as ->.
        right. apply better_spec. by left.
    + apply resolves_locked; [|done]. split; [split; [split; [done|by exists v]|done]|done].
  - apply Resolve_ext. intros c. split; intros Hc.
    + destruct (contributes_edit ref f' f Hfr' tag c Hc) as [?|He]; [done|].
      apply (edited_sym ref f f') in He as [_ He]; [|done]. congruence.
    + destruct (contributes_edit ref f f' Hfr tag c Hc) as [?|[_ He]]; [done|]. congruence.
Qed.

(** The root of the demo tree locks a key that the device then sets. *)
Definition demo_locked : Fleet :=
  demo_tree <| f_Groups ::= <["root" := zero_group <| g_scope := (demo_scope 1) <| sc_Enforced := ["key"] |> |> ]> |>.

Lemma scope_edit_respects_locks_witness :
  match SetScopeSetting "device:d1" "key" (VInt 7) demo_locked with
  | Ok f' => Resolve f' "d1" !! "key" = Some (mkResolution (VInt 1) (mkSource "group:root" "") true)
  | Err _ => False
  end.
Proof.
  destruct (SetScopeSetting "device:d1" "key" (VInt 7) demo_locked) as [f'|e] eqn:Hf'; [|discriminate Hf'].
  pose proof (scope_edit_respects_locks _ _ _ _ "d1" "key" Hf') as H.
  assert (assignmentPosition (scopePositions demo_locked "d1") "device:d1" "d1" = Some 5)
    as Hp by (vm_compute; reflexivity).
  rewrite Hp in H. clear Hp.
  pose proof (pick_best (locks_key "key") true demo_locked "d1" (chainFor demo_locked "d1") (reflexivity _)) as Hb.
  destruct (pick (locks_key "key") true (chainFor demo_locked "d1")) as [c|] eqn:Hc;
    [|vm_compute in Hc; discriminate Hc].
  apply (best_of_ext _ _ _ _ (chain_locker demo_locked "d1" "key")) in Hb.
  rewrite (H c Hb).
  - vm_compute. reflexivity.
  - vm_compute in Hc. injection Hc as <-. reflexivity.
Defined.
