(* ===== verification/Guards.v ===== *)
(** * Guards over the whole command set

    Two safety properties that no single mutation states: the class guardrail of
    groups.go (a device's class is allowed by every group it is in), and the
    two-step rule of intent.go (a device is only told to wipe itself after a
    lock, or by force). *)

From S2P Require Import Prelude GoLib FleetModel Groups Filters Resolve Mutate ScopeEdits DeviceOps Policies Apps Identity HostKeys WellFormed.

(** ** What most commands leave alone *)

(** The device fields the guards read. *)
Definition core (d : Device) : string * list string * string * string :=
  (State d, Groups d, Class d, Intent d).

Record core_frame (f f' : Fleet) : Prop := {
  cf_groups : ∀ g, AllowedClasses <$> f_Groups f' !! g = AllowedClasses <$> f_Groups f !! g;
  cf_devices : ∀ t, core <$> Devices f' !! t = core <$> Devices f !! t
}.

Lemma core_frame_same f f' :
  f_Groups f' = f_Groups f → Devices f' = Devices f → core_frame f f'.
Proof. intros Hg Hd. split; intros; by rewrite ?Hg, ?Hd. Qed.

Lemma core_frame_group f name g g' :
  f_Groups f !! name = Some g → AllowedClasses g' = AllowedClasses g →
  core_frame f (f <| f_Groups ::= <[name := g']> |>).
Proof.
  intros Hg Ha. split; [|done]. intros x. simpl. destruct (decide (x = name)) as [->|].
  - rewrite lookup_insert_eq, Hg. simpl. by rewrite Ha.
  - by rewrite lookup_insert_ne.
Qed.

Lemma core_frame_device f tag d d' :
  Devices f !! tag = Some d → core d' = core d →
  core_frame f (f <| Devices ::= <[tag := d']> |>).
Proof.
  intros Hd Hc. split; [done|]. intros x. simpl. destruct (decide (x = tag)) as [->|].
  - rewrite lookup_insert_eq, Hd. simpl. by rewrite Hc.
  - by rewrite lookup_insert_ne.
Qed.

Lemma core_frame_scope ref f f' : scope_frame ref f f' → core_frame f f'.
Proof.
  intros H. split.
  - intros g. pose proof (sf_group_tree _ _ _ H g) as Hg.
    destruct (f_Groups f !! g), (f_Groups f' !! g); simplify_eq/=; congruence.
  - intros t. pose proof (sf_device_rest _ _ _ H t) as Ht.
    destruct (Devices f !! t) as [d|], (Devices f' !! t) as [d'|]; try discriminate Ht; [|done].
    apply (inj Some) in Ht. simpl. f_equal. unfold core.
    rewrite (f_equal State Ht : State d' = State d), (f_equal Groups Ht : Groups d' = Groups d),
      (f_equal Class Ht : Class d' = Class d), (f_equal Intent Ht : Intent d' = Intent d). done.
Qed.

Lemma with_scope_core ref edit f f' : with_scope ref edit f = Ok f' → core_frame f f'.
Proof. intros (? & ? & _ & _ & _ & H)%with_scope_Ok. by eapply core_frame_scope. Qed.

(** Mutations of other tables. *)
Definition same_tree (f f' : Fleet) : Prop := f_Groups f' = f_Groups f ∧ Devices f' = Devices f.

Lemma same_tree_refl f : same_tree f f.
Proof. done. Qed.

Lemma same_tree_trans f g h : same_tree f g → same_tree g h → same_tree f h.
Proof. unfold same_tree. intros [-> ->] [-> ->]. done. Qed.

Lemma PutPolicy_tree id p f f' : PutPolicy id p f = Ok f' → same_tree f f'.
Proof. by intros (_ & _ & ->)%PutPolicy_Ok. Qed.

Lemma PutFilter_tree id fl f f' : PutFilter id fl f = Ok f' → same_tree f f'.
Proof. by intros (_ & _ & ->)%PutFilter_Ok. Qed.

Lemma Assign_tree a f f' : Assign a f = Ok f' → same_tree f f'.
Proof. by intros (_ & _ & ->)%Assign_Ok. Qed.

Lemma SetRolloutPlan_tree p f f' : SetRolloutPlan p f = Ok f' → same_tree f f'.
Proof.
  unfold SetRolloutPlan. destruct p as [plan|]; [|by intros [= <-]].
  destruct (Rings plan); [done|]. by intros (? & _ & [= <-])%res_bind_Ok.
Qed.

Lemma Grant_tree b f f' : Grant b f = Ok f' → same_tree f f'.
Proof.
  unfold Grant. destruct (validate_binding b); [done|].
  destruct (match cut_prefix _ _ with Some _ => _ | None => _ end); [done|]. by intros [= <-].
Qed.

Lemma ApplyProfile_tree hash p f f' : ApplyProfile hash p f = Ok f' → same_tree f f'.
Proof.
  unfold ApplyProfile. destruct (match Policies f !! _ with Some _ => _ | None => _ end); [done|].
  intros (f1 & H1%PutPolicy_tree & (f2 & H2 & Hok)%res_bind_Ok)%res_bind_Ok.
  assert (same_tree f1 f2) as H12.
  { destruct (_ ==? ""); [injection H2 as <-; apply same_tree_refl|].
    destruct (Filters f1 !! _) as [ex|].
    - destruct (selectsExactly _ _ _); [|done]. injection H2 as <-. apply same_tree_refl.
    - by eapply PutFilter_tree. }
  eapply same_tree_trans; [exact H1|]. eapply same_tree_trans; [exact H12|].
  destruct (existsb _ _); [by injection Hok as <-|]. by apply Assign_tree in Hok.
Qed.

Lemma ConfigureHardware_tree p t s e f f' : ConfigureHardware p t s e f = Ok f' → same_tree f f'.
Proof.
  unfold ConfigureHardware. destruct (_ ==? ""); [done|]. destruct (_ || _); [done|].
  destruct (validHardwareTarget f t); [done|]. case_bool_decide.
  - intros [= <-]. unfold unconfigureHardware. by destruct (existsb _ _).
  - intros (f1 & H1 & Hok)%res_bind_Ok.
    assert (same_tree f f1) as Hf1.
    { destruct (Filters f !! _) as [ex|].
      - destruct (selectsExactly _ _ _); [|done]. injection H1 as <-. apply same_tree_refl.
      - by eapply PutFilter_tree. }
    destruct (match Policies f1 !! _ with Some _ => _ | None => _ end); [done|].
    apply res_bind_Ok in Hok as (f2 & H2%PutPolicy_tree & Hok%Assign_tree).
    eapply same_tree_trans; [exact Hf1|]. eapply same_tree_trans; [exact H2|]. exact Hok.
Qed.

(** The commands that change neither a guardrail nor a device's core. *)
Definition quiet (c : Command) : bool :=
  match c with
  | CSetGroupAllowedClasses _ _ | CAddDevice _ _ _ | CRemoveDevice _ | CUpdateDevice _ _
  | CRetireDevice _ | CReactivateDevice _ | CActivateProvisional _ | CAddGroup _ _
  | CCreateGroupWithDevices _ _ _ | CRemoveGroup _ | CPruneRedundantGroups
  | CSetDeviceIntent _ _ _ | CClearDeviceIntent _ => false
  | _ => true
  end.

Lemma SetGroupParent_core g p f f' : SetGroupParent g p f = Ok f' → core_frame f f'.
Proof.
  unfold SetGroupParent. destruct (f_Groups f !! g) as [x|] eqn:Hg; [|done].
  destruct (_ && bool_decide _); [done|]. destruct (_ && climbs_to _ _ _ _ _); [done|].
  intros [= <-]. by eapply core_frame_group.
Qed.

Lemma core_frame_trans f g h : core_frame f g → core_frame g h → core_frame f h.
Proof. intros [H1 H2] [H3 H4]. split; intros; by rewrite ?H3, ?H4. Qed.

Lemma UpdateGroup_core n p i f f' : UpdateGroup n p i f = Ok f' → core_frame f f'.
Proof.
  unfold UpdateGroup. destruct (f_Groups f !! n) as [x|] eqn:Hg; [|done].
  intros (f1 & H1 & [= <-])%res_bind_Ok.
  assert (core_frame f f1) as Hf1.
  { destruct p; [by eapply SetGroupParent_core|]. injection H1 as <-. by apply core_frame_same. }
  destruct i; [|done]. eapply core_frame_trans; [exact Hf1|].
  destruct Hf1 as [Hgr _]. specialize (Hgr n). rewrite Hg in Hgr.
  destruct (f_Groups f1 !! n) as [x1|] eqn:Hg1; [|done].
  eapply core_frame_group; [exact Hg1|]. unfold grp. by rewrite Hg1.
Qed.

Lemma quiet_core hash c f f' : quiet c = true → run_command hash c f = Ok f' → core_frame f f'.
Proof.
  assert (Htree : same_tree f f' → core_frame f f') by (intros [? ?]; by apply core_frame_same).
  destruct c; try done; simpl; intros _ Hok; try (by eapply with_scope_core);
    try (by eauto using SetRolloutPlan_tree, PutPolicy_tree, PutFilter_tree, Assign_tree,
           Grant_tree, ApplyProfile_tree, ConfigureHardware_tree, SetGroupParent_core, UpdateGroup_core).
  - unfold SetAcceptance in Hok. destruct (_ ==? ""); [done|]. by eapply with_scope_core.
  - unfold SetScopeApps in Hok. destruct (first_err _ _); [done|]. by eapply with_scope_core.
  - injection Hok as <-. by apply core_frame_same.
  - unfold SetGroupPin in Hok. destruct (f_Groups f !! group) eqn:Hg; [|done].
    injection Hok as <-. by eapply core_frame_group.
  - unfold SetDevicePin in Hok. destruct (Devices f !! tag) eqn:Hd; [|done].
    injection Hok as <-. by eapply core_frame_device.
  - unfold SetDeviceHostKey in Hok. destruct (Devices f !! tag) eqn:Hd; [|done].
    destruct (NormalizeHostKey _); [|done]. destruct (_ && _); [done|]. injection Hok as <-. by eapply core_frame_device.
  - unfold AddStation in Hok. destruct (negb _); [done|]. destruct (Stations f !! tag); [done|].
    injection Hok as <-. by apply core_frame_same.
  - unfold RemoveStation in Hok. destruct (Stations f !! tag); [|done].
    injection Hok as <-. by apply core_frame_same.
  - unfold AddSecretRef in Hok. destruct (negb _); [done|]. destruct (SecretRefs f !! name); [done|].
    injection Hok as <-. by apply core_frame_same.
  - unfold RemoveSecretRef in Hok. destruct (SecretRefs f !! name); [|done].
    injection Hok as <-. by apply core_frame_same.
  - unfold DeletePolicy in Hok. destruct (Policies f !! id); [|done].
    destruct (first_err _ _); [done|]. injection Hok as <-. by apply core_frame_same.
  - unfold Unassign in Hok. destruct (bool_decide _); [done|]. injection Hok as <-. by apply core_frame_same.
  - unfold DeleteFilter in Hok. destruct (Filters f !! id); [|done].
    destruct (first_err _ _); [done|]. injection Hok as <-. by apply core_frame_same.
  - unfold Revoke in Hok. destruct (bool_decide _); [done|]. injection Hok as <-. by apply core_frame_same.
Qed.

(** ** The class guardrail *)

(** No device in service is in a group that does not allow its class. *)
Definition class_guard (f : Fleet) : Prop :=
  ∀ t d g grp, Devices f !! t = Some d → Retired d = false → g ∈ Groups d →
    f_Groups f !! g = Some grp → classAllowedBy grp (Class d) = true.

Lemma classAllowedBy_ext g g' c :
  AllowedClasses g = AllowedClasses g' → classAllowedBy g c = classAllowedBy g' c.
Proof. unfold classAllowedBy. by intros ->. Qed.

Lemma class_guard_frame f f' : core_frame f f' → class_guard f → class_guard f'.
Proof.
  intros [Hg Hd] H t d' g grp' Ht Hr Hin Hgrp.
  specialize (Hg g). specialize (Hd t). rewrite Ht in Hd. rewrite Hgrp in Hg.
  destruct (Devices f !! t) as [d|] eqn:Htd; [|done].
  destruct (f_Groups f !! g) as [grp|] eqn:Hgr; [|done].
  simpl in Hg, Hd. injection Hg as Hg. injection Hd as Hst Hgs Hcl Hin'.
  rewrite (classAllowedBy_ext grp' grp) by done. rewrite Hcl. apply (H t d g grp); try done.
  - unfold Retired in *. by rewrite <- Hst.
  - by rewrite <- Hgs.
Qed.

Lemma class_guard_put_device f t d :
  (Retired d = false → checkClassAllowed f (Class d) (Groups d) = None) →
  class_guard f → class_guard (f <| Devices ::= <[t := d]> |>).
Proof.
  intros Hd H t' d' g grp Ht Hr Hin Hgrp. simpl in Ht, Hgrp.
  apply lookup_insert_Some in Ht as [[<- <-]|[_ Ht]]; [|by apply (H t' d' g)].
  specialize (Hd Hr). by apply (proj1 (checkClassAllowed_None f _ _) Hd g).
Qed.

Lemma class_guard_check f t d :
  class_guard f → Devices f !! t = Some d → Retired d = false →
  checkClassAllowed f (Class d) (Groups d) = None.
Proof. intros H Ht Hr. apply checkClassAllowed_None. intros g grp Hin Hg. by apply (H t d g). Qed.

Lemma class_guard_sub f f' :
  (∀ t d', Devices f' !! t = Some d' → ∃ d, Devices f !! t = Some d ∧ State d = State d' ∧
     Class d = Class d' ∧ ∀ g, g ∈ Groups d' → g ∈ Groups d) →
  (∀ g grp, f_Groups f' !! g = Some grp → f_Groups f !! g = Some grp) →
  class_guard f → class_guard f'.
Proof.
  intros Hd Hg H t d' g grp Ht Hr Hin Hgrp. destruct (Hd t d' Ht) as (d & Htd & Hs & Hc & Hsub).
  rewrite <- Hc. apply (H t d g grp); auto. unfold Retired in *. by rewrite Hs.
Qed.

Lemma class_guard_AddGroup name g f f' :
  AddGroup name g f = Ok f' → well_formed f → class_guard f → class_guard f'.
Proof.
  intros (_ & Hn & _ & ->)%AddGroup_Ok Hwf H t d g' grp Ht Hr Hin Hgrp. simpl in *.
  apply lookup_insert_Some in Hgrp as [[<- _]|[_ Hgrp]]; [|by apply (H t d g')].
  destruct (wf_members f Hwf t d name Ht Hin) as [? ?]. congruence.
Qed.

Lemma class_guard_join name f t f' :
  join_group name f t = Ok f' → class_guard f → class_guard f'.
Proof.
  unfold join_group. destruct (Devices f !! t) as [d|] eqn:Hd; [|done].
  destruct (checkClassAllowed f (Class d) [name]) eqn:Hc; [done|].
  case_bool_decide as Hin; [by intros [= <-]|]. destruct (rejectAncestorDuplication _ _); [done|].
  intros [= <-] H. apply class_guard_put_device; [|done]. simpl. intros Hr.
  apply checkClassAllowed_None. intros g grp [Hg|Hg]%elem_of_app Hgrp.
  - by apply (H t d g).
  - by apply (proj1 (checkClassAllowed_None f _ _) Hc g).
Qed.

Lemma class_guard_SetGroupAllowedClasses group cs f f' :
  SetGroupAllowedClasses group cs f = Ok f' → class_guard f → class_guard f'.
Proof.
  unfold SetGroupAllowedClasses. destruct (f_Groups f !! group) as [x|] eqn:Hg; [|done].
  destruct (first_err _ cs); [done|].
  destruct (match cs with [] => _ | _ :: _ => _ end) eqn:Hc; [done|].
  intros [= <-] H t d g grp Ht Hr Hin Hgrp. simpl in Ht, Hgrp.
  apply lookup_insert_Some in Hgrp as [[<- <-]|[_ Hgrp]]; [|by apply (H t d g)].
  unfold classAllowedBy. simpl. destruct cs as [|c cs]; [done|].
  pose proof (proj1 (first_err_None _ _) Hc t) as Hcheck. cbv beta zeta in Hcheck.
  rewrite (dev_lookup f t d) in Hcheck by done.
  destruct (Class d ∈? c :: cs); [done|].
  exfalso. assert (Some (CannotRestrict group t (Class d)) = None) as Hx; [|done].
  apply Hcheck. apply elem_of_ActiveGroupDevices. eauto.
Qed.

Lemma class_guard_UpdateDevice t p f f' :
  UpdateDevice t p f = Ok f' → class_guard f → class_guard f'.
Proof.
  intros (d & d' & Hd & -> & Hg & Hc & Hs & _ & H1 & H2)%UpdateDevice_Ok H.
  apply class_guard_put_device; [|done]. intros Hr.
  destruct (dp_Class p) as [c|] eqn:Hpc; [by apply H2|].
  destruct (H1 eq_refl) as [Hpg|?]; [|done]. rewrite Hpg in Hg. simpl in Hg, Hc.
  rewrite Hc, Hg. eapply class_guard_check; [done|exact Hd|]. unfold Retired in *. by rewrite <- Hs.
Qed.

Lemma class_guard_setState t s1 s2 f f' :
  s1 = DeviceRetired ∨ s2 ≠ DeviceRetired →
  setDeviceState t s1 s2 f = Ok f' → class_guard f → class_guard f'.
Proof.
  intros Hs. unfold setDeviceState. destruct (Devices f !! t) as [d|] eqn:Hd; [|done].
  case_bool_decide as Hst; [|done]. simpl. intros [= <-] H.
  apply class_guard_put_device; [|done]. unfold Retired at 1. simpl. intros Hr.
  apply bool_decide_eq_false in Hr. destruct Hs as [|Hs]; [done|].
  apply (class_guard_check f t d); [done|done|]. apply bool_decide_eq_false. by rewrite Hst.
Qed.

Lemma class_guard_run hash c f f' :
  run_command hash c f = Ok f' → (∀ t, c ≠ CReactivateDevice t) →
  well_formed f → class_guard f → class_guard f'.
Proof.
  intros Hok Hne Hwf H. destruct (quiet c) eqn:Hq.
  { eapply class_guard_frame; [|exact H]. by eapply quiet_core. }
  destruct c; try done; simpl in Hok.
  - by eapply class_guard_SetGroupAllowedClasses.
  - apply AddDevice_Ok in Hok as (_ & _ & _ & _ & _ & Hc & ->).
    apply class_guard_put_device; [|done]. simpl. done.
  - unfold RemoveDevice in Hok. destruct (Devices f !! tag); [|done]. injection Hok as <-.
    apply (class_guard_sub f); [|done|done]. simpl. intros t d' [_ Ht]%lookup_delete_Some. eauto.
  - by eapply class_guard_UpdateDevice.
  - eapply class_guard_setState; [|exact Hok|done]. by left.
  - by destruct (Hne tag).
  - eapply class_guard_setState; [|exact Hok|done]. by right.
  - by eapply class_guard_AddGroup.
  - apply res_bind_Ok in Hok as (f1 & H1 & H2).
    eapply (fold_res_inv (join_group name) class_guard tags f1 f'); [|by eapply class_guard_AddGroup|exact H2].
    intros. by eapply class_guard_join.
  - apply RemoveGroup_Ok in Hok as (_ & _ & _ & _ & _ & _ & _ & ->).
    apply (class_guard_sub f); [simpl; eauto| |done].
    simpl. by intros x grp [_ ?]%lookup_delete_Some.
  - injection Hok as <-. apply (class_guard_sub f); [| |done].
    + intros t d' Ht. destruct (prune_fold f (map_to_list (Devices f)).*1 t) as [_ Hl];
        [apply NoDup_fst_map_to_list|]. rewrite Ht in Hl. destruct (_ ∈? _); [|by exists d'].
      destruct (Devices f !! t) as [d|]; [|done]. simpl in Hl. injection Hl as ->. exists d.
      split_and!; try done. simpl. by intros g [? _]%elem_of_delete_func.
    + intros g grp. rewrite prune_fold_frame. done.
  - unfold SetDeviceIntent in Hok. destruct (Devices f !! tag) as [d|] eqn:Hd; [|done].
    assert (f' = f <| Devices ::= <[tag := d <| Intent := intent |>]> |>) as ->.
    { destruct (Retired d); [done|]. destruct (_ ∈? _); [by injection Hok as <-|].
      destruct (_ ==? _); [|done]. destruct (_ && _); [done|]. by injection Hok as <-. }
    apply class_guard_put_device; [|done]. intros Hr. by apply (class_guard_check f tag d).
  - unfold ClearDeviceIntent in Hok. destruct (Devices f !! tag) as [d|] eqn:Hd; [|done].
    injection Hok as <-. apply class_guard_put_device; [|done].
    intros Hr. by apply (class_guard_check f tag d).
Qed.

(** The class guardrail. No command except ReactivateDevice puts a device in
    service into a group that does not allow its class: enrolling, moving,
    re-classing, narrowing a group's classes, activating - each keeps every
    non-retired device inside the guardrail of all its groups. *)
Theorem class_guardrail_kept (profile_hash : string → Settings → string) f c f' :
  well_formed f → class_guard f → (∀ t, c ≠ CReactivateDevice t) →
  run_command profile_hash c f = Ok f' → class_guard f'.
Proof. intros Hwf H Hne Hok. by eapply class_guard_run. Qed.

Definition demo_laptop : Device :=
  zero_device <| Hardware := "hw" |> <| Class := "laptop" |> <| Groups := ["g1"] |>
              <| State := DeviceProvisional |>.

(** One group, one laptop in it. *)
Definition demo_guard : Fleet :=
  zero_fleet <| f_Groups := {["g1" := zero_group]} |>
             <| Devices := {["d1" := demo_laptop <| Enrolled := 5 |> ]} |>.

Definition demo_guard_run : list Command :=
  [CAddGroup "g1" zero_group; CAddDevice "d1" (demo_laptop <| Enrolled := 5 |>) 9].

Lemma class_guardrail_kept_witness :
  match SetGroupAllowedClasses "g1" ["laptop"; "desktop"] demo_guard with
  | Ok f' => AllowedClasses (grp f' "g1") = ["laptop"; "desktop"] ∧ class_guard f'
  | Err _ => False
  end.
Proof.
  destruct (SetGroupAllowedClasses "g1" ["laptop"; "desktop"] demo_guard) as [f'|e] eqn:Hf';
    [|vm_compute in Hf'; discriminate Hf'].
  assert (well_formed demo_guard) as Hwf.
  { apply (well_formed_run_commands no_hash demo_guard_run); [repeat constructor|].
    vm_compute. reflexivity. }
  assert (class_guard demo_guard) as Hcg.
  { intros t d g grp _ _ _ Hg. simpl in Hg. apply lookup_singleton_Some in Hg as [_ <-]. reflexivity. }
  split.
  - assert (f' = match SetGroupAllowedClasses "g1" ["laptop"; "desktop"] demo_guard with
                 | Ok f => f | Err _ => demo_guard end) as -> by (rewrite Hf'; reflexivity).
    vm_compute. reflexivity.
  - refine (class_guardrail_kept no_hash demo_guard
      (CSetGroupAllowedClasses "g1" ["laptop"; "desktop"]) f' Hwf Hcg _ Hf').
    intros t Ht. discriminate Ht.
Defined.

(** Reactivation bypasses the guardrail. Narrowing a group's classes counts
    only devices in service, and ReactivateDevice does not ask: a retired laptop
    comes back into a group that has since been restricted to servers.  The
    document is reached by commands alone. *)
Theorem ReactivateDevice_bypasses_guardrail :
  match run_commands no_hash
    [CAddGroup "g1" zero_group; CAddDevice "d1" demo_laptop 1; CActivateProvisional "d1";
     CRetireDevice "d1"; CSetGroupAllowedClasses "g1" ["server"]; CReactivateDevice "d1"] with
  | Ok f => Retired (dev f "d1") = false ∧ Groups (dev f "d1") = ["g1"] ∧
            checkClassAllowed f (Class (dev f "d1")) ["g1"] = Some (ClassNotAllowed "laptop" "g1")
  | Err _ => False
  end.
Proof. vm_compute. split_and!; reflexivity. Qed.

(** ** The two-step rule of a wipe *)

Lemma intent_of_core f f' t d' :
  core_frame f f' → Devices f' !! t = Some d' →
  ∃ d, Devices f !! t = Some d ∧ Intent d = Intent d'.
Proof.
  intros [_ Hd] Ht. specialize (Hd t). rewrite Ht in Hd.
  destruct (Devices f !! t) as [d|]; [|done]. exists d. split; [done|]. simpl in Hd.
  apply (inj Some) in Hd. by injection Hd.
Qed.

Lemma join_group_intent name f t f' :
  join_group name f t = Ok f' →
  ∀ x d', Devices f' !! x = Some d' → ∃ d, Devices f !! x = Some d ∧ Intent d = Intent d'.
Proof.
  unfold join_group. destruct (Devices f !! t) as [d0|] eqn:Hd0; [|done].
  destruct (checkClassAllowed _ _ _); [done|]. case_bool_decide; [intros [= <-]; eauto|].
  destruct (rejectAncestorDuplication _ _); [done|]. intros [= <-] x d' Hx. simpl in Hx.
  apply lookup_insert_Some in Hx as [[<- <-]|[_ Hx]]; eauto.
Qed.

Lemma UpdateDevice_intent t p f f' :
  UpdateDevice t p f = Ok f' → ∃ d d', Devices f !! t = Some d ∧
    f' = f <| Devices ::= <[t := d']> |> ∧ Intent d' = Intent d.
Proof.
  unfold UpdateDevice. destruct (Devices f !! t) as [d|]; [|done].
  destruct (match dp_Hardware p with Some h => _ | None => _ end); [done|].
  destruct (match dp_Groups p with Some gs => _ | None => None end); [done|].
  destruct (match dp_Class p with Some _ => _ | None => _ end); [done|].
  intros [= <-]. exists d. eexists. split_and!; [done|reflexivity|].
  by destruct p as [[] [] [] [] [] []].
Qed.

Lemma setDeviceState_intent t s1 s2 f f' :
  setDeviceState t s1 s2 f = Ok f' →
  ∀ x d', Devices f' !! x = Some d' → ∃ d, Devices f !! x = Some d ∧ Intent d = Intent d'.
Proof.
  unfold setDeviceState. destruct (Devices f !! t) as [d|] eqn:Hd; [|done].
  destruct (negb _); [done|]. intros [= <-] x d' Hx. simpl in Hx.
  apply lookup_insert_Some in Hx as [[<- <-]|[_ Hx]]; eauto.
Qed.

Lemma prune_intent f f' :
  PruneRedundantGroups f = Ok f' →
  ∀ x d', Devices f' !! x = Some d' → ∃ d, Devices f !! x = Some d ∧ Intent d = Intent d'.
Proof.
  intros [= <-] x d' Hx.
  destruct (prune_fold f (map_to_list (Devices f)).*1 x) as [_ Hl]; [apply NoDup_fst_map_to_list|].
  rewrite Hx in Hl. destruct (_ ∈? _); [|by eauto].
  destruct (Devices f !! x) as [d|]; [|done]. simpl in Hl. injection Hl as ->. eauto.
Qed.

(** How a device's intent can come about in one command. *)
Definition intent_origin (f : Fleet) (c : Command) (t : string) (d' : Device) : Prop :=
  (∃ d, Devices f !! t = Some d ∧ Intent d = Intent d') ∨
  (∃ d now, c = CAddDevice t d now ∧ Intent d = Intent d') ∨
  (Intent d' = IntentNone ∧ c = CClearDeviceIntent t) ∨
  (∃ d force, c = CSetDeviceIntent t (Intent d') force ∧ Devices f !! t = Some d ∧
     Retired d = false ∧
     Intent d' ∈ [IntentLock; IntentReboot; IntentDiagnostics; IntentWipe] ∧
     (Intent d' = IntentWipe → Intent d = IntentLock ∨ force = true)).

Lemma run_intent hash c f f' t d' :
  run_command hash c f = Ok f' → Devices f' !! t = Some d' → intent_origin f c t d'.
Proof.
  intros Hok Ht. destruct (quiet c) eqn:Hq.
  { left. eapply intent_of_core; [|exact Ht]. by eapply quiet_core. }
  destruct c; try done; simpl in Hok.
  - unfold SetGroupAllowedClasses in Hok. destruct (f_Groups f !! group); [|done].
    destruct (first_err _ _); [done|]. destruct (match classes with [] => _ | _ :: _ => _ end); [done|].
    injection Hok as <-. left. eauto.
  - apply AddDevice_Ok in Hok as (_ & _ & _ & _ & _ & _ & ->). simpl in Ht.
    apply lookup_insert_Some in Ht as [[<- <-]|[_ Ht]]; [|left; eauto]. right; left. eauto.
  - unfold RemoveDevice in Hok. destruct (Devices f !! tag); [|done]. injection Hok as <-.
    simpl in Ht. apply lookup_delete_Some in Ht as [_ Ht]. left. eauto.
  - apply UpdateDevice_intent in Hok as (d & d1 & Hd & -> & Hi). simpl in Ht.
    apply lookup_insert_Some in Ht as [[<- <-]|[_ Ht]]; left; eauto.
  - left. by eapply setDeviceState_intent.
  - left. by eapply setDeviceState_intent.
  - left. by eapply setDeviceState_intent.
  - apply AddGroup_Ok in Hok as (_ & _ & _ & ->). left. eauto.
  - apply res_bind_Ok in Hok as (f1 & H1 & H2). apply AddGroup_Ok in H1 as (_ & _ & _ & ->).
    left. revert t d' Ht.
    eapply (fold_res_inv (join_group name) (λ fx, ∀ t d', Devices fx !! t = Some d' →
      ∃ d, Devices f !! t = Some d ∧ Intent d = Intent d')); [| |exact H2].
    + intros s a s' _ Hs Hj t d' Ht.
      destruct (join_group_intent _ _ _ _ Hj t d' Ht) as (d1 & Hd1 & <-). eauto.
    + simpl. eauto.
  - apply RemoveGroup_Ok in Hok as (_ & _ & _ & _ & _ & _ & _ & ->). left. eauto.
  - left. by eapply prune_intent.
  - unfold SetDeviceIntent in Hok. destruct (Devices f !! tag) as [d|] eqn:Hd; [|done].
    destruct (Retired d) eqn:Hr; [done|].
    case_bool_decide as Hin; [|case_bool_decide as Hw; [destruct (_ && _) eqn:Hg; [done|]|done]];
      injection Hok as <-; simpl in Ht; apply lookup_insert_Some in Ht as [[<- <-]|[_ Ht]];
      try (by left; eauto); right; right; right; exists d, force; simpl; split_and!; try done.
    + set_unfold in Hin. set_unfold. naive_solver.
    + intros ->. exfalso. revert Hin. apply (bool_decide_unpack (¬ _)). by vm_compute.
    + rewrite Hw. set_solver.
    + intros _. apply andb_false_iff in Hg as [Hg|Hg]; apply negb_false_iff in Hg; [|by right].
      left. by apply bool_decide_eq_true in Hg.
  - unfold ClearDeviceIntent in Hok. destruct (Devices f !! tag) as [d|] eqn:Hd; [|done].
    injection Hok as <-. simpl in Ht. apply lookup_insert_Some in Ht as [[<- <-]|[_ Ht]]; [|left; eauto].
    right; right; left. done.
Qed.

(** A device is told to wipe itself only in two deliberate steps. Over every
    command of the package: a wipe intent that was not there before was put
    there by SetDeviceIntent on a device that is not retired and was locked, or
    was forced (or came with the record of a newly added device). *)
Theorem wipe_needs_lock (profile_hash : string → Settings → string) f c f' t d' :
  run_command profile_hash c f = Ok f' → Devices f' !! t = Some d' → Intent d' = IntentWipe →
  (∃ d, Devices f !! t = Some d ∧ Intent d = IntentWipe) ∨
  (∃ d now, c = CAddDevice t d now ∧ Intent d = IntentWipe) ∨
  (∃ d force, c = CSetDeviceIntent t IntentWipe force ∧ Devices f !! t = Some d ∧
     Retired d = false ∧ (Intent d = IntentLock ∨ force = true)).
Proof.
  intros Hok Ht Hi. destruct (run_intent _ _ _ _ _ _ Hok Ht) as
    [(d & ? & Heq)|[(d & now & ? & Heq)|[[Hn _]|(d & force & Hc & Hd & Hr & _ & Hg)]]].
  - left. exists d. by rewrite Heq.
  - right; left. exists d, now. by rewrite Heq.
  - by rewrite Hi in Hn.
  - right; right. rewrite Hi in Hc. exists d, force. auto.
Qed.

Lemma wipe_needs_lock_witness :
  ∃ d force, CSetDeviceIntent "d1" IntentWipe true = CSetDeviceIntent "d1" IntentWipe force ∧
    Devices demo_guard !! "d1" = Some d ∧ Retired d = false ∧ (Intent d = IntentLock ∨ force = true).
Proof.
  destruct (SetDeviceIntent "d1" IntentWipe true demo_guard) as [f'|e] eqn:Hf';
    [|vm_compute in Hf'; discriminate Hf'].
  destruct (Devices f' !! "d1") as [d'|] eqn:Hd'.
  - assert (Intent d' = IntentWipe) as Hi.
    { assert (f' = match SetDeviceIntent "d1" IntentWipe true demo_guard with
                   | Ok f => f | Err _ => demo_guard end) as -> by (rewrite Hf'; reflexivity).
      vm_compute in Hd'. injection Hd' as <-. reflexivity. }
    destruct (wipe_needs_lock no_hash demo_guard (CSetDeviceIntent "d1" IntentWipe true) f' "d1" d'
                Hf' Hd' Hi) as [(d & Hd & Hw)|[(d & now & Hc & _)|H]].
    + vm_compute in Hd. injection Hd as <-. discriminate Hw.
    + discriminate Hc.
    + exact H.
  - assert (f' = match SetDeviceIntent "d1" IntentWipe true demo_guard with
                   | Ok f => f | Err _ => demo_guard end) as -> by (rewrite Hf'; reflexivity).
    vm_compute in Hd'. discriminate Hd'.
Defined.
