(* ===== verification/Rollout.v ===== *)
(** * The rollout decision engine (src/internal/domain/rollout/rollout.go)

    Rings with their gates, the durable state of a run, and [Decide]: the next
    action from the plan, the run, the observed ring and the clock. *)

From S2P Require Import Prelude GoLib FleetModel.

(** ** Rings *)

Record Ring := mkRgn {
  rg_Group : string;
  rg_Groups : list string;
  rg_Name : string;
  SoakMinutes : Z;
  MinHealthyPercent : Z;
  RequireApproval : bool;
  MinDevices : Z;
  MaxDevices : Z
}.
#[export] Instance Ring_eta : Eta Ring := fun r => mkRgn
  (rg_Group r) (rg_Groups r) (rg_Name r) (SoakMinutes r) (MinHealthyPercent r) (RequireApproval r)
  (MinDevices r) (MaxDevices r).

Definition RingGroupList (r : Ring) : list string :=
  match rg_Groups r with
  | _ :: _ => rg_Groups r
  | [] => if rg_Group r !=? "" then [rg_Group r] else []
  end.

Definition RunRingLabel (r : Ring) : string :=
  if rg_Name r !=? "" then rg_Name r else join (RingGroupList r) ", ".

Definition minHealthy (r : Ring) : Z :=
  if MinHealthyPercent r <=? 0 then 95 else MinHealthyPercent r.

Definition minPresent (r : Ring) (total : Z) : Z :=
  let want := MinDevices r in
  let want := if want <=? 0 then (total + 1) /t 2 else want in
  let want := if total <? want then total else want in
  if want <? 1 then 1 else want.

Record RingStatus := mkRingStatus {
  Total : Z; OnTarget : Z; Healthy : Z; Broken : Z; Absent : Z; Released : Z; GroupTotal : Z
}.
#[export] Instance RingStatus_eta : Eta RingStatus := fun r => mkRingStatus
  (Total r) (OnTarget r) (Healthy r) (Broken r) (Absent r) (Released r) (GroupTotal r).
Definition zero_status : RingStatus := mkRingStatus 0 0 0 0 0 0 0.

Definition Present (rs : RingStatus) : Z :=
  let p := Total rs - Absent rs in if 0 <? p then p else 0.

Definition Converged (r : Ring) (rs : RingStatus) : bool :=
  let p := Present rs in
  if p <? minPresent r (Total rs) then false
  else (0 <? p) && (minHealthy r <=? (Healthy rs * 100) /t p).

Definition EnoughEvidence (r : Ring) (rs : RingStatus) : bool :=
  minPresent r (Total rs) <=? Present rs.

Definition TooBroken (r : Ring) (rs : RingStatus) : bool :=
  let p := Present rs in
  if p ==? 0 then false else (100 - minHealthy r) <? (Broken rs * 100) /t p.

Definition NextRelease (r : Ring) (total released : Z) : Z :=
  if MaxDevices r <=? 0 then total
  else let next := released + MaxDevices r in if total <? next then total else next.

(** ** Runs *)

Inductive RunStatus := Active | Paused | Halted | Completed | Cancelled.
#[export] Instance RunStatus_eq_dec : EqDecision RunStatus.
Proof. solve_decision. Defined.

(** The text of an action, by the [Sprintf] that produces it and its
    arguments. *)
Inductive Reason :=
  | NoReason
  | RunIs (st : RunStatus)
  | AllRolledOut
  | PinRing (i : nat) (group target : string)
  | RingEmpty (i : nat) (group : string)
  | OverBudget (i : nat) (group : string) (broken budget : Z)
  | AllAbsent (i : nat) (group : string) (total : Z)
  | FewReachable (i : nat) (group : string) (present total needed : Z)
  | BelowGate (i : nat) (group : string) (healthy total gate : Z)
  | StartingSoak (i : nat) (group : string)
  | SoakingUntil (i : nat) (group : string) (until : Time)
  | NextBatch (i : nat) (label : string) (released total : Z)
  | LastSoaked
  | AwaitingApproval (i : nat) (label : string)
  | HealthySoaked (i : nat) (label : string)
  | PausedByOperator
  | CancelledByOperator
  | BuildFailedReason (detail : string).
#[export] Instance Reason_eq_dec : EqDecision Reason.
Proof. solve_decision. Defined.

Record State := mkState {
  s_Target : string;
  s_Rings : list Ring;
  ChangeID : string;
  ChangeTitle : string;
  s_Ring : nat;
  PromotedAt : gmap nat Time;
  ConvergedAt : gmap nat Time;
  ApprovedAt : gmap nat Time;
  BuildRequestedAt : gmap nat Time;
  Status : RunStatus;
  s_Reason : Reason;
  Waiting : Reason;
  WaitingSince : Time;
  Started : Time;
  Updated : Time
}.
#[export] Instance State_eta : Eta State := fun r => mkState
  (s_Target r) (s_Rings r) (ChangeID r) (ChangeTitle r) (s_Ring r) (PromotedAt r)
  (ConvergedAt r) (ApprovedAt r) (BuildRequestedAt r) (Status r) (s_Reason r) (Waiting r)
  (WaitingSince r) (Started r) (Updated r).

Definition NewState (target : string) (now : Time) : State :=
  mkState target [] "" "" 0 ∅ ∅ ∅ ∅ Active NoReason NoReason 0 now now.

Definition ApproveState (s : State) (now : Time) : State :=
  s <| ApprovedAt ::= <[s_Ring s := now]> |>.

(** ** Actions *)

Inductive ActionKind := Promote | Wait | Advance | WidenCohort | Halt | AwaitApproval | Done.
#[export] Instance ActionKind_eq_dec : EqDecision ActionKind.
Proof. solve_decision. Defined.

Record Action := mkAction { Kind : ActionKind; a_Reason : Reason }.

(** [Note]: the waiting clock moves only when the reason changes. *)
Definition Note (s : State) (a : Action) (now : Time) : State :=
  if (Kind a ==? Halt) || (Kind a ==? Done) then s <| Waiting := NoReason |> <| WaitingSince := 0 |>
  else if Waiting s !=? a_Reason a then s <| Waiting := a_Reason a |> <| WaitingSince := now |>
  else s.

Definition StuckFor (s : State) (now : Time) : Z :=
  if (Waiting s ==? NoReason) || IsZero (WaitingSince s) then 0 else time_sub now (WaitingSince s).

Definition StallWindow : Z := 45 * Minute.

(** A nil state is [None]. *)
Definition StalledFor (s : option State) (now : Time) (ring : nat) : Z :=
  match s with
  | None => 0
  | Some s =>
      if Status s !=? Active then 0
      else match PromotedAt s !! ring with
           | None => 0
           | Some promoted =>
               if IsZero promoted then 0
               else if match ConvergedAt s !! ring with
                       | Some c => negb (IsZero c) | None => false end then 0
               else let d := time_sub now promoted in if 0 <? d then d else 0
           end
  end.

(** The soak of a ring: [time.Duration(ring.SoakMinutes) * time.Minute]. *)
Definition soak (r : Ring) : Z := dur (SoakMinutes r) Minute.

Definition Decide (rings : list Ring) (s : State) (rs : RingStatus) (now : Time) : Action :=
  if Status s !=? Active then mkAction Done (RunIs (Status s))
  else match rings !! s_Ring s with
  | None => mkAction Done AllRolledOut
  | Some ring =>
  let i := s_Ring s in
  match PromotedAt s !! i with
  | None => mkAction Promote (PinRing i (rg_Group ring) (s_Target s))
  | Some _ =>
  if Total rs ==? 0 then mkAction Advance (RingEmpty i (rg_Group ring))
  else if TooBroken ring rs then
    mkAction Halt (OverBudget i (rg_Group ring) (Broken rs) (100 - minHealthy ring))
  else if Present rs ==? 0 then mkAction Wait (AllAbsent i (rg_Group ring) (Total rs))
  else if negb (EnoughEvidence ring rs) then
    mkAction Wait (FewReachable i (rg_Group ring) (Present rs) (Total rs) (minPresent ring (Total rs)))
  else if negb (Converged ring rs) then
    mkAction Wait (BelowGate i (rg_Group ring) (Healthy rs) (Total rs) (minHealthy ring))
  else
  match ConvergedAt s !! i with
  | None => mkAction Wait (StartingSoak i (rg_Group ring))
  | Some converged =>
  if time_sub now converged <? soak ring then
    mkAction Wait (SoakingUntil i (rg_Group ring) (converged + soak ring))
  else if (0 <? MaxDevices ring) && (Released rs <? GroupTotal rs) then
    mkAction WidenCohort (NextBatch i (RunRingLabel ring) (Released rs) (GroupTotal rs))
  else if bool_decide (S i = length rings) then mkAction Done LastSoaked
  else if RequireApproval ring && match ApprovedAt s !! i with Some _ => false | None => true end then
    mkAction AwaitApproval (AwaitingApproval i (RunRingLabel ring))
  else mkAction Advance (HealthySoaked i (RunRingLabel ring))
  end end end.

(** ** The gates as arithmetic *)

Lemma minHealthy_pos r : 1 ≤ minHealthy r.
Proof. unfold minHealthy. destruct (Z.leb_spec (MinHealthyPercent r) 0); lia. Qed.

Lemma minPresent_range r total : 0 ≤ total → 1 ≤ minPresent r total ≤ Z.max 1 total.
Proof.
  intros Ht. unfold minPresent. cbv zeta.
  set (w := if _ <=? 0 then _ else _).
  destruct (Z.ltb_spec total w); [destruct (Z.ltb_spec total 1)|destruct (Z.ltb_spec w 1)]; lia.
Qed.

(** A percentage threshold, truncated division included. *)
Lemma quot_ge_iff a p m : 0 < p → 1 ≤ m → m ≤ a /t p ↔ m * p ≤ a.
Proof.
  intros Hp Hm. destruct (Z.le_gt_cases 0 a) as [Ha|Ha].
  - rewrite Z.quot_div_nonneg by lia. split; intros H.
    + pose proof (Z.mul_div_le a p Hp). nia.
    + apply Z.div_le_lower_bound; lia.
  - split; intros H; [|nia]. exfalso.
    assert (a /t p ≤ 0); [|lia].
    rewrite <- (Z.opp_involutive a), Z.quot_opp_l by lia.
    pose proof (Z.quot_pos (- a) p). lia.
Qed.

Lemma Converged_spec r rs :
  Converged r rs = true ↔
  minPresent r (Total rs) ≤ Present rs ∧ 0 < Present rs ∧
  minHealthy r * Present rs ≤ Healthy rs * 100.
Proof.
  unfold Converged. destruct (Z.ltb_spec (Present rs) (minPresent r (Total rs))) as [Hp|Hp].
  - split; [done|lia].
  - rewrite andb_true_iff, Z.ltb_lt, Z.leb_le. split.
    + intros [Hp0 Hh]. apply quot_ge_iff in Hh; [done|done|apply minHealthy_pos].
    + intros (_ & Hp0 & Hh). split; [done|]. apply quot_ge_iff; [done|apply minHealthy_pos|done].
Qed.

Lemma TooBroken_spec r rs :
  minHealthy r ≤ 100 →
  TooBroken r rs = true ↔ Present rs ≠ 0 ∧ (101 - minHealthy r) * Present rs ≤ Broken rs * 100.
Proof.
  intros Hm. unfold TooBroken. case_bool_decide as Hp; [naive_solver|].
  assert (0 < Present rs) as Hp'.
  { unfold Present in *. destruct (Z.ltb_spec 0 (Total rs - Absent rs)); lia. }
  rewrite Z.ltb_lt. rewrite <- quot_ge_iff by lia. naive_solver lia.
Qed.

Lemma Present_nonneg rs : 0 ≤ Present rs.
Proof. unfold Present. destruct (Z.ltb_spec 0 (Total rs - Absent rs)); lia. Qed.

(** ** What the engine is looking at *)

(** The run is active and on a ring of the plan. *)
Definition on_ring (rings : list Ring) (s : State) (ring : Ring) : Prop :=
  Status s = Active ∧ rings !! s_Ring s = Some ring.

(** The gate of a ring: enough evidence, enough of it healthy, not too much of
    it broken. *)
Definition gate_passes (ring : Ring) (rs : RingStatus) : Prop :=
  Total rs ≠ 0 ∧ TooBroken ring rs = false ∧ Converged ring rs = true.

(** The soak since the recorded convergence is over. *)
Definition soaked (s : State) (ring : Ring) (now : Time) : Prop :=
  ∃ c, ConvergedAt s !! s_Ring s = Some c ∧ soak ring ≤ time_sub now c.

Definition fully_released (ring : Ring) (rs : RingStatus) : Prop :=
  MaxDevices ring ≤ 0 ∨ GroupTotal rs ≤ Released rs.

Definition approved (s : State) (ring : Ring) : Prop :=
  RequireApproval ring = true → is_Some (ApprovedAt s !! s_Ring s).

Definition last_ring (rings : list Ring) (s : State) : Prop := S (s_Ring s) = length rings.

(** The wave has proved itself. *)
Definition proved (s : State) (ring : Ring) (rs : RingStatus) (now : Time) : Prop :=
  gate_passes ring rs ∧ soaked s ring now ∧ fully_released ring rs.

Lemma Converged_evidence ring rs : Converged ring rs = true → EnoughEvidence ring rs = true ∧ Present rs ≠ 0.
Proof. intros (H1 & H2 & _)%Converged_spec. split; [by apply Z.leb_le|lia]. Qed.

(** The outcome of [Decide] by the situation it is in. *)
Inductive decision (rings : list Ring) (s : State) (rs : RingStatus) (now : Time) : ActionKind → Prop :=
  | decide_over : Status s ≠ Active → decision rings s rs now Done
  | decide_off_plan : Status s = Active → rings !! s_Ring s = None → decision rings s rs now Done
  | decide_promote ring : on_ring rings s ring → PromotedAt s !! s_Ring s = None →
      decision rings s rs now Promote
  | decide_empty ring : on_ring rings s ring → is_Some (PromotedAt s !! s_Ring s) → Total rs = 0 →
      decision rings s rs now Advance
  | decide_halt ring : on_ring rings s ring → is_Some (PromotedAt s !! s_Ring s) → Total rs ≠ 0 →
      TooBroken ring rs = true → decision rings s rs now Halt
  | decide_converging ring : on_ring rings s ring → is_Some (PromotedAt s !! s_Ring s) →
      Total rs ≠ 0 → TooBroken ring rs = false → Converged ring rs = false →
      decision rings s rs now Wait
  | decide_start_soak ring : on_ring rings s ring → is_Some (PromotedAt s !! s_Ring s) →
      gate_passes ring rs → ConvergedAt s !! s_Ring s = None → decision rings s rs now Wait
  | decide_soaking ring c : on_ring rings s ring → is_Some (PromotedAt s !! s_Ring s) →
      gate_passes ring rs → ConvergedAt s !! s_Ring s = Some c → time_sub now c < soak ring →
      decision rings s rs now Wait
  | decide_widen ring : on_ring rings s ring → is_Some (PromotedAt s !! s_Ring s) →
      gate_passes ring rs → soaked s ring now → ¬ fully_released ring rs →
      decision rings s rs now WidenCohort
  | decide_complete ring : on_ring rings s ring → is_Some (PromotedAt s !! s_Ring s) →
      proved s ring rs now → last_ring rings s → decision rings s rs now Done
  | decide_await ring : on_ring rings s ring → is_Some (PromotedAt s !! s_Ring s) →
      proved s ring rs now → ¬ last_ring rings s → ¬ approved s ring →
      decision rings s rs now AwaitApproval
  | decide_advance ring : on_ring rings s ring → is_Some (PromotedAt s !! s_Ring s) →
      proved s ring rs now → ¬ last_ring rings s → approved s ring →
      decision rings s rs now Advance.

Lemma Decide_decision rings s rs now : decision rings s rs now (Kind (Decide rings s rs now)).
Proof.
  unfold Decide. case_bool_decide as Hst; simpl; [|by apply decide_over].
  destruct (rings !! s_Ring s) as [ring|] eqn:Hr; [|by apply decide_off_plan].
  assert (on_ring rings s ring) as Hon by done.
  destruct (PromotedAt s !! s_Ring s) as [p|] eqn:Hp; [|by eapply decide_promote].
  assert (is_Some (PromotedAt s !! s_Ring s)) as Hps by (rewrite Hp; by eexists).
  case_bool_decide as Ht; [by eapply decide_empty|].
  destruct (TooBroken ring rs) eqn:Hb; [by eapply decide_halt|].
  destruct (Converged ring rs) eqn:Hc.
  2:{ case_bool_decide; simpl; [by eapply decide_converging|].
      destruct (EnoughEvidence ring rs); simpl; by eapply decide_converging. }
  destruct (Converged_evidence _ _ Hc) as [He Hpr]. rewrite bool_decide_eq_false_2, He by done. simpl.
  assert (gate_passes ring rs) as Hg by done.
  destruct (ConvergedAt s !! s_Ring s) as [c|] eqn:Hca; [|by eapply decide_start_soak].
  destruct (Z.ltb_spec (time_sub now c) (soak ring)) as [Hs|Hs]; [by eapply decide_soaking|].
  assert (soaked s ring now) as Hsk by (by exists c).
  destruct ((0 <? MaxDevices ring) && (Released rs <? GroupTotal rs)) eqn:Hw.
  { apply andb_true_iff in Hw as [?%Z.ltb_lt ?%Z.ltb_lt].
    apply (decide_widen _ _ _ _ ring); [done..|unfold fully_released; lia]. }
  assert (fully_released ring rs) as Hf
    by (apply andb_false_iff in Hw as [?%Z.ltb_ge|?%Z.ltb_ge]; unfold fully_released; lia).
  assert (proved s ring rs now) as Hpv by done.
  case_bool_decide as Hlast; [by apply (decide_complete _ _ _ _ ring)|].
  destruct (RequireApproval ring) eqn:Hra; [destruct (ApprovedAt s !! s_Ring s) eqn:Ha|]; simpl.
  - apply (decide_advance _ _ _ _ ring); try done. unfold approved. rewrite Ha. by eexists.
  - apply (decide_await _ _ _ _ ring); try done. unfold approved. rewrite Ha, Hra.
    intros Hn. destruct (Hn eq_refl). done.
  - apply (decide_advance _ _ _ _ ring); try done. unfold approved. by rewrite Hra.
Qed.

(** The situations exclude each other. *)
Lemma decision_functional rings s rs now k k' :
  decision rings s rs now k → decision rings s rs now k' → k = k'.
Proof.
  destruct 1; destruct 1; try done; exfalso;
    unfold on_ring, proved, gate_passes, soaked, is_Some in *;
    repeat match goal with
    | H : _ ∧ _ |- _ => destruct H
    | H : ∃ _, _ |- _ => destruct H
    | H : ¬ ?P, H' : ?P |- _ => destruct (H H')
    end; simplify_eq; try congruence; try lia.
Qed.

Lemma Decide_iff rings s rs now k :
  Kind (Decide rings s rs now) = k ↔ decision rings s rs now k.
Proof.
  split.
  - intros <-. apply Decide_decision.
  - intros Hk. exact (decision_functional _ _ _ _ _ _ (Decide_decision _ _ _ _) Hk).
Qed.

(** ** Properties *)

(** C7. The decision engine, completely: [Decide] takes an action exactly in
    the situation that calls for it. The situations cover every plan, run,
    observation and clock, and they exclude each other: promotion of the ring
    first; an empty ring is passed; a ring over its failure budget halts;
    short of evidence or of the health threshold it waits; it waits for the
    soak; a capped wave widens before anything else happens; and only a proved
    wave completes the run, waits for its approval or advances. *)
Theorem Decide_iff_decision rings s rs now k :
  Kind (Decide rings s rs now) = k ↔ decision rings s rs now k.
Proof. apply Decide_iff. Qed.

(** The two gates never contradict each other: a cohort whose healthy and
    broken devices are disjoint parts of its present devices is not both
    converged and over its failure budget, so a ring that halts the run is one
    that cannot have met its threshold, whatever the threshold up to 100. *)
Theorem gates_exclusive r rs
  (Hm : MinHealthyPercent r ≤ 100) (Hd : Healthy rs + Broken rs ≤ Present rs) :
  Converged r rs = true → TooBroken r rs = true → False.
Proof.
  assert (minHealthy r ≤ 100) as Hm' by (unfold minHealthy; destruct (Z.leb_spec (MinHealthyPercent r) 0); lia).
  intros (_ & Hp & Hh)%Converged_spec (_ & Hb)%(TooBroken_spec _ _ Hm'). nia.
Qed.

Definition demo_ring : Ring := mkRgn "canary" [] "Canary" 60 90 false 2 3.
Definition demo_status : RingStatus := mkRingStatus 10 10 9 1 0 10 10.

Lemma gates_exclusive_witness :
  Converged demo_ring demo_status = true ∧ ¬ (TooBroken demo_ring demo_status = true).
Proof.
  split; [reflexivity|]. intros H.
  apply (gates_exclusive demo_ring demo_status); [by vm_compute|by vm_compute|reflexivity|exact H].
Defined.

(** The devices released after [k] batches of a capped wave. *)
Definition released_after (r : Ring) (total : Z) (k : nat) : Z := Nat.iter k (NextRelease r total) 0.

Lemma NextRelease_capped r total released :
  0 < MaxDevices r → NextRelease r total released = Z.min total (released + MaxDevices r).
Proof.
  intros H. unfold NextRelease. destruct (Z.leb_spec (MaxDevices r) 0); [lia|].
  cbv zeta. destruct (Z.ltb_spec total (released + MaxDevices r)); lia.
Qed.

(** The cohorts of a capped wave: the [k]-th batch brings the release to
    [k] times the cap, bounded by the group, so the wave never overshoots its
    group, every batch short of it makes progress by at most the cap, and a
    group of [total] devices is fully released after at most [total] batches. *)
Theorem cohorts_widen r total (Hcap : 0 < MaxDevices r) (Ht : 0 ≤ total) :
  (∀ k, released_after r total k = Z.min total (Z.of_nat k * MaxDevices r)) ∧
  (∀ k, released_after r total k < total →
        released_after r total k < released_after r total (S k) ≤
        released_after r total k + MaxDevices r) ∧
  (∀ k, total ≤ Z.of_nat k → released_after r total k = total).
Proof.
  assert (∀ k, released_after r total k = Z.min total (Z.of_nat k * MaxDevices r)) as Hk.
  { induction k as [|k IH]; [simpl; lia|].
    change (released_after r total (S k)) with (NextRelease r total (released_after r total k)).
    rewrite NextRelease_capped, IH by done. nia. }
  split_and!; [done|..]; intros k; rewrite ?Hk; [|nia].
  change (S k) with (1 + k)%nat. nia.
Qed.

Lemma cohorts_widen_witness : released_after demo_ring 10 2 = 6 ∧ released_after demo_ring 10 10 = 10.
Proof.
  destruct (cohorts_widen demo_ring 10) as (H1 & _ & H3); [reflexivity|discriminate|].
  split; [exact (H1 2%nat)|by apply H3].
Defined.

(** The soak overflows: a wave's soak is exactly its minutes up to
    153,722,867 of them, and with one minute more (a value nothing rejects) the
    duration wraps to a negative number, so a wave that should soak for 292
    years is past its soak the moment it converges and the run moves on. *)
Theorem soak_overflows :
  (∀ r, 0 ≤ SoakMinutes r ≤ 153722867 → soak r = SoakMinutes r * Minute) ∧
  (let r := mkRgn "canary" [] "" 153722868 0 false 0 0 in
   let s := (NewState "rev" 1) <| PromotedAt := {[0%nat := 1]} |> <| ConvergedAt := {[0%nat := 1]} |> in
   soak r < 0 ∧
   Kind (Decide [r; demo_ring] s (mkRingStatus 1 1 1 0 0 1 1) 1) = Advance).
Proof.
  split; [|by vm_compute]. intros r Hr. unfold soak, dur. apply wrap64_id.
  unfold Minute, Second, min_int64, max_int64 in *. lia.
Qed.

(** The stall clock: an active run is stalled on a ring for [d > 0]
    exactly when the ring was promoted [d] ago (saturating like [Time.Sub]) and
    has no convergence on record; a run that is paused, halted, over or absent
    is never stalled. *)
Theorem StalledFor_spec s now ring d :
  0 < d →
  StalledFor s now ring = d ↔
  ∃ st p, s = Some st ∧ Status st = Active ∧ PromotedAt st !! ring = Some p ∧ IsZero p = false ∧
          (∀ c, ConvergedAt st !! ring = Some c → IsZero c = true) ∧ time_sub now p = d.
Proof.
  intros Hd. destruct s as [st|]; simpl; [|split; [lia|naive_solver]].
  case_bool_decide as Hs; simpl.
  2:{ split; [lia|]. intros (? & ? & ? & ? & _). simplify_eq. }
  destruct (PromotedAt st !! ring) as [p|] eqn:Hp.
  2:{ split; [lia|]. intros (? & ? & ? & _ & ? & _). simplify_eq. }
  destruct (IsZero p) eqn:Hz.
  { split; [lia|]. intros (? & ? & ? & _ & ? & ? & _). simplify_eq. congruence. }
  destruct (ConvergedAt st !! ring) as [c|] eqn:Hc; [destruct (IsZero c) eqn:Hcz|]; simpl.
  all: destruct (Z.ltb_spec 0 (time_sub now p)).
  all: split; [intros Hq; try lia; exists st, p; split_and!; try done; intros; simplify_eq; try done; lia|].
  all: intros (? & ? & ? & _ & ? & ? & Hconv & ?); simplify_eq; try lia.
  all: by rewrite (Hconv _ Hc) in Hcz.
Qed.

Lemma StalledFor_spec_witness :
  StalledFor (Some ((NewState "rev" 5) <| PromotedAt := {[0%nat := 10]} |>)) 70 0 = 60.
Proof.
  apply StalledFor_spec; [reflexivity|].
  eexists _, 10. split_and!; try reflexivity. intros c Hc. discriminate Hc.
Defined.
