(* ===== verification/Classes.v ===== *)
(** * Configuration shapes (src/internal/domain/fleet/classes.go)

    The fingerprint of what a device builds from, the partition of the fleet
    by it, and the samples the gate evaluates instead of every device. *)

From S2P Require Import Prelude GoLib FleetModel Groups Resolve Apps.

(** What the code takes from Go's libraries: the encodings of encoding/json
    and fmt, and crypto/sha256 cut to 16 bytes in hexadecimal. *)
Class GoJson := {
  json_value : Value → res string string;
  fmt_v : Value → string;
  fleet_fields : Fleet → res string (gmap string string);
  json_fields : gmap string string → res string string
}.
Class Fingerprint := sha256_16 : string → string.

Definition nl : string := String "010" "".
Definition fmt_t (b : bool) : string := if b then "true" else "false".

Section shapes.
  Context `{GoJson, Fingerprint}.

(** ** The shape of a device *)

(** The expanded ancestry of the device's groups, as a sorted set. *)
Definition shape_groups (f : Fleet) (d : Device) : list string :=
    sort_strings (elements (list_to_set (g ← Groups d; GroupAncestry f g) : gset string)).

Definition shape_setting (tag : string) (kr : string * Resolution) : string :=
    let val := match json_value (res_Value kr.2) with
               | Ok v => v
               | Err _ => "!unhashable:" +:+ tag +:+ ":" +:+ fmt_v (res_Value kr.2)
               end in
    "s:" +:+ kr.1 +:+ "=" +:+ val +:+ ";e=" +:+ fmt_t (res_Enforced kr.2) +:+ nl.

Definition shape_apps (prefix : string) (l : list string) : string :=
    prefix +:+ ":" +:+ join (sort_strings l) "," +:+ nl.

(** The text [classKey] builds before it is hashed. *)
Definition shape_text (f : Fleet) (tag : string) (d : Device) : string :=
    let '(pkgs, flats, ovs) := ResolveApps f tag in
    join
      (["hw=" +:+ Hardware d +:+ nl +:+ "class=" +:+ Class d +:+ nl; "pin=" +:+ d_Pin d +:+ nl] ++
       map (λ g, "g:" +:+ g +:+ ";pin=" +:+ g_Pin (grp f g) +:+ nl) (shape_groups f d) ++
       map (shape_setting tag) (ResolveSorted f tag) ++
       [shape_apps "p" pkgs; shape_apps "f" flats; shape_apps "o" ovs]) "".

Definition classKey (f : Fleet) (tag : string) (d : Device) : string :=
    sha256_16 (shape_text f tag d).

Definition ClassKeyOf (f : Fleet) (tag : string) : string :=
    match Devices f !! tag with
    | None => ""
    | Some d => if Retired d then "" else classKey f tag d
    end.

(** ** The partition *)

(** [m[key] = append(m[key], tag)]. *)
Definition append_at (m : gmap string (list string)) (key tag : string) : gmap string (list string) :=
    <[key := default [] (m !! key) ++ [tag]]> m.

Definition EquivalenceClasses (f : Fleet) : gmap string (list string) :=
    sort_strings <$>
    foldl (λ m tag, append_at m (classKey f tag (dev f tag)) tag) ∅
          (keys_where (λ _ d, negb (Retired d)) (Devices f)).

Definition Representatives (f : Fleet) : list string :=
    sort_strings (map (λ kv, default "" (head kv.2)) (map_to_list (EquivalenceClasses f))).

(** [if cur, seen := first[key]; !seen || tag < cur { first[key] = tag }]. *)
Definition keep_first (m : gmap string string) (key tag : string) : gmap string string :=
    match m !! key with
    | Some cur => if String.ltb tag cur then <[key := tag]> m else m
    | None => <[key := tag]> m
    end.

Definition first_of_class (f : Fleet) (tags : list string) : gmap string string :=
    foldl (λ m tag,
      match Devices f !! tag with
      | None => m
      | Some d => if Retired d then m else keep_first m (classKey f tag d) tag
      end) ∅ tags.

Definition SampleHosts (f : Fleet) (tags : list string) : list string :=
    if (length tags <=? 1)%nat then tags
    else sort_strings (map snd (map_to_list (first_of_class f tags))).

(** ** What the shapes leave out *)

Definition resolverInputs : list string :=
    ["org"; "groups"; "devices"; "policies"; "assignments"; "filters"].

Definition GeneratorGlobalsKey (f : Fleet) : string :=
    match fleet_fields f with
    | Err e => "!unhashable:" +:+ e
    | Ok doc =>
        match json_fields (foldl (λ m k, delete k m) doc resolverInputs) with
        | Err e => "!unhashable:" +:+ e
        | Ok rest => sha256_16 rest
        end
    end.
End shapes.

(** ** Lemmas *)

(** The entry of a key after the grouping loop: the loop's items with that key,
    in the order of the loop. *)
Lemma fold_append_at (k : string → string) l m key :
  foldl (λ m tag, append_at m (k tag) tag) m l !! key =
  match keep_if (λ tag, k tag ==? key) l with
  | [] => m !! key
  | ts => Some (default [] (m !! key) ++ ts)
  end.
Proof.
  revert m. induction l as [|a l IH]; intros m; [done|]. cbn [foldl]. rewrite IH.
  unfold append_at. rewrite keep_if_cons.
  destruct (k a ==? key) eqn:Hk; [apply bool_decide_eq_true in Hk|apply bool_decide_eq_false in Hk].
  - subst key. rewrite lookup_insert_eq. simpl.
    destruct (keep_if _ l); [done|]. by rewrite <- app_assoc.
  - by rewrite lookup_insert_ne.
Qed.

Definition active_tags (f : Fleet) : list string := keys_where (λ _ d, negb (Retired d)) (Devices f).

Lemma elem_of_active_tags f tag :
  tag ∈ active_tags f ↔ ∃ d, Devices f !! tag = Some d ∧ Retired d = false.
Proof.
  unfold active_tags. rewrite elem_of_keys_where.
  split; intros (d & Hd & Hr); exists d; (split; [done|]); by destruct (Retired d).
Qed.

Lemma sorted_in_order_trans (a b c : string) :
  in_order String.ltb a b → in_order String.ltb b c → in_order String.ltb a c.
Proof. unfold in_order. intros H1 H2. by eapply sw_ntrans. Qed.

Lemma in_order_refl (a : string) : in_order String.ltb a a.
Proof. unfold in_order. rewrite string_ltb_leb. by destruct (String.leb_total a a) as [-> | ->]. Qed.

Lemma head_sort_strings l t :
  head (sort_strings l) = Some t ↔ t ∈ l ∧ ∀ t', t' ∈ l → in_order String.ltb t t'.
Proof.
  assert (∀ x r, sort_strings l = x :: r → x ∈ l ∧ ∀ t', t' ∈ l → in_order String.ltb x t') as Hx.
  { intros x r Hs. split; [apply (elem_of_sort_strings x l); rewrite Hs; left|].
    intros t' Ht'. destruct (isort_head_least String.ltb _ _ _ Hs t' Ht') as [Hlt| ->];
      [exact Hlt|apply in_order_refl]. }
  destruct (sort_strings l) as [|x r] eqn:Hs; simpl.
  - split; [done|]. intros [Ht _]. apply elem_of_sort_strings in Ht. rewrite Hs in Ht.
    by apply elem_of_nil in Ht.
  - destruct (Hx x r eq_refl) as [Hin Hle]. split; [intros [= <-]; done|].
    intros [Ht Hleast]. f_equal. apply string_ltb_total; [by apply Hleast|by apply Hle].
Qed.

Lemma head_sort_app l l' :
  head (sort_strings (option_list (head (sort_strings l)) ++ l')) = head (sort_strings (l ++ l')).
Proof.
  destruct (head (sort_strings l)) as [x|] eqn:Hx; simpl.
  2:{ destruct (sort_strings l) eqn:Hs; [|done]. by apply isort_nil in Hs as ->. }
  apply head_sort_strings in Hx as [Hx Hle]. apply option_eq. intros t.
  rewrite !head_sort_strings. setoid_rewrite elem_of_cons. setoid_rewrite elem_of_app. split.
  - intros [Ht Hall]. split.
    + destruct Ht as [-> |Ht]; [by left|by right].
    + intros t' [Ht'|Ht']; [|apply Hall; by right].
      eapply sorted_in_order_trans; [apply Hall; by left|by apply Hle].
  - intros [Ht Hall]. split.
    + destruct Ht as [Ht|Ht]; [left|by right]. apply string_ltb_total; [by apply Hle|apply Hall; by left].
    + intros t' [-> |Ht']; [apply Hall; by left|apply Hall; by right].
Qed.

(** The entry of a key after the loop that keeps the least tag. *)
Lemma fold_keep_first (k : string → string) l m key :
  foldl (λ m tag, keep_first m (k tag) tag) m l !! key =
  head (sort_strings (option_list (m !! key) ++ keep_if (λ tag, k tag ==? key) l)).
Proof.
  revert m. induction l as [|a l IH]; intros m.
  { cbn [foldl]. change (keep_if _ []) with (@nil string). destruct (m !! key); reflexivity. }
  cbn [foldl]. rewrite IH, keep_if_cons.
  assert (keep_first m (k a) a !! key =
          head (sort_strings (option_list (m !! key) ++ if k a ==? key then [a] else []))) as ->.
  { unfold keep_first. destruct (k a ==? key) eqn:Hk; [apply bool_decide_eq_true in Hk|apply bool_decide_eq_false in Hk].
    - subst key. destruct (m !! k a) as [cur|] eqn:Hm; simpl; [|by rewrite lookup_insert_eq].
      destruct (String.ltb a cur) eqn:Hlt; [rewrite lookup_insert_eq|rewrite Hm]; symmetry;
        apply head_sort_strings; setoid_rewrite elem_of_cons; setoid_rewrite list_elem_of_singleton.
      + split; [by right|]. intros t [-> | ->]; [by apply (sw_asym a)|apply in_order_refl].
      + split; [by left|]. intros t [-> | ->]; [apply in_order_refl|done].
    - rewrite app_nil_r. transitivity (m !! key).
      + destruct (m !! k a); [destruct (String.ltb _ _)|]; by rewrite ?lookup_insert_ne.
      + by destruct (m !! key). }
  rewrite head_sort_app, <- app_assoc. by destruct (k a ==? key).
Qed.

Section sampling.
  Context `{GoJson, Fingerprint}.

(** The devices of one shape. *)
Definition same_shape (f : Fleet) (a b : string) : Prop :=
    classKey f a (dev f a) = classKey f b (dev f b).

(** The chosen device of a shape among [P]. *)
Definition first_of_shape (f : Fleet) (P : string → Prop) (tag : string) : Prop :=
    P tag ∧ ∀ t, P t → same_shape f t tag → in_order String.ltb tag t.

Lemma lookup_EquivalenceClasses f key ts :
    EquivalenceClasses f !! key = Some ts ↔
    ts ≠ [] ∧ ts = sort_strings (keep_if (λ tag, classKey f tag (dev f tag) ==? key) (active_tags f)).
Proof.
    unfold EquivalenceClasses. rewrite lookup_fmap, (fold_append_at (λ tag, classKey f tag (dev f tag))).
    fold (active_tags f). rewrite lookup_empty.
    destruct (keep_if _ _) as [|t l] eqn:Hl; simpl.
    - split; [done|]. intros [Hne ->]. by destruct Hne.
    - split; [intros [= <-]|intros [_ ->]; done]. split; [|done].
      intros Hn. by apply isort_nil in Hn.
Qed.

Lemma elem_of_Representatives f tag :
    tag ∈ Representatives f ↔ first_of_shape f (.∈ active_tags f) tag.
Proof.
    unfold Representatives. rewrite elem_of_sort_strings, list_elem_of_fmap.
    set (members := λ key, keep_if (λ t, classKey f t (dev f t) ==? key) (active_tags f)).
    assert (∀ key t, t ∈ members key ↔ t ∈ active_tags f ∧ classKey f t (dev f t) = key) as Hm.
    { intros key t. unfold members. by rewrite elem_of_keep_if, eqb_true. }
    split.
    - intros ([key ts] & -> & Hin). apply elem_of_map_to_list, lookup_EquivalenceClasses in Hin as [Hne Hts].
      destruct ts as [|t ts]; [done|]. simpl.
      assert (head (sort_strings (members key)) = Some t) as Hh by (unfold members; by rewrite <- Hts).
      apply head_sort_strings in Hh as [[Ht Hk]%Hm Hle]. split; [done|].
      intros t' Ht' Hsh. apply Hle, Hm. split; [done|]. by rewrite <- Hk.
    - intros [Ht Hle]. set (key := classKey f tag (dev f tag)).
      assert (head (sort_strings (members key)) = Some tag) as Hh.
      { apply head_sort_strings. rewrite Hm. split; [done|]. intros t' [Ht' Hk]%Hm. by apply Hle. }
      exists (key, sort_strings (members key)). split; [by simpl; rewrite Hh|].
      apply elem_of_map_to_list, lookup_EquivalenceClasses. split; [|done].
      intros Hn. by rewrite Hn in Hh.
Qed.

Lemma first_of_class_fold f tags :
    first_of_class f tags =
    foldl (λ m tag, keep_first m (classKey f tag (dev f tag)) tag) ∅
          (keep_if (λ tag, tag ∈? active_tags f) tags).
Proof.
    unfold first_of_class. generalize (∅ : gmap string string) as m.
    induction tags as [|t tags IH]; intros m; [done|]. cbn [foldl].
    rewrite IH, keep_if_cons. destruct (t ∈? active_tags f) eqn:Ht;
      [apply bool_decide_eq_true in Ht|apply bool_decide_eq_false in Ht]; rewrite elem_of_active_tags in Ht.
    - destruct Ht as (d & Hd & Hr). cbn [foldl]. unfold dev at 3. by rewrite Hd, Hr.
    - destruct (Devices f !! t) as [d|] eqn:Hd; [|done].
      destruct (Retired d) eqn:Hr; [done|]. destruct Ht. by exists d.
Qed.

Lemma elem_of_SampleHosts f tags tag :
    (1 < length tags)%nat →
    tag ∈ SampleHosts f tags ↔ first_of_shape f (λ t, t ∈ tags ∧ t ∈ active_tags f) tag.
Proof.
    intros Hlen. unfold SampleHosts. destruct (Nat.leb_spec (length tags) 1); [lia|].
    rewrite elem_of_sort_strings, list_elem_of_fmap, first_of_class_fold.
    set (l := keep_if (λ t, t ∈? active_tags f) tags).
    assert (∀ t, t ∈ l ↔ t ∈ tags ∧ t ∈ active_tags f) as Hl.
    { intros t. unfold l. by rewrite elem_of_keep_if, bool_decide_eq_true. }
    assert (∀ key t, t ∈ keep_if (λ t, classKey f t (dev f t) ==? key) l ↔
              (t ∈ tags ∧ t ∈ active_tags f) ∧ classKey f t (dev f t) = key) as Hm.
    { intros key t. by rewrite elem_of_keep_if, eqb_true, Hl. }
    split.
    - intros ([key t] & -> & Hin). apply elem_of_map_to_list in Hin.
      rewrite (fold_keep_first (λ t, classKey f t (dev f t))), lookup_empty in Hin.
      apply head_sort_strings in Hin as [[Ht Hk]%Hm Hle]. split; [done|].
      intros t' Ht' Hsh. apply Hle, Hm. split; [done|]. by rewrite <- Hk.
    - intros [Ht Hle]. exists (classKey f tag (dev f tag), tag). split; [done|].
      apply elem_of_map_to_list.
      rewrite (fold_keep_first (λ t, classKey f t (dev f t))), lookup_empty.
      apply head_sort_strings. simpl. rewrite Hm. split; [done|].
      intros t' [Ht' Hk]%Hm. by apply Hle.
Qed.

Lemma first_of_shape_exists f (l : list string) tag :
    tag ∈ l → ∃ r, first_of_shape f (.∈ l) r ∧ same_shape f r tag.
Proof.
    intros Ht. set (ms := keep_if (λ t, classKey f t (dev f t) ==? classKey f tag (dev f tag)) l).
    assert (∀ t, t ∈ ms ↔ t ∈ l ∧ same_shape f t tag) as Hm.
    { intros t. unfold ms. by rewrite elem_of_keep_if, eqb_true. }
    destruct (head (sort_strings ms)) as [r|] eqn:Hh.
    - apply head_sort_strings in Hh as [[Hr Hs]%Hm Hle]. exists r. split; [split; [done|]|done].
      intros t Ht' Hsh. apply Hle, Hm. split; [done|]. unfold same_shape in *. congruence.
    - destruct (sort_strings ms) eqn:Hs; [|done]. apply isort_nil in Hs.
      assert (tag ∈ ms) as Hin by (by apply Hm). rewrite Hs in Hin. by apply elem_of_nil in Hin.
Qed.

Lemma first_of_shape_ext f (P Q : string → Prop) t :
    (∀ x, P x ↔ Q x) → first_of_shape f P t ↔ first_of_shape f Q t.
Proof. unfold first_of_shape. intros H'. rewrite H'. by setoid_rewrite H'. Qed.

Lemma first_of_shape_unique f P a b :
    first_of_shape f P a → first_of_shape f P b → same_shape f a b → a = b.
Proof.
    intros [Ha Hla] [Hb Hlb] Hs. apply string_ltb_total; [by apply Hlb|].
    apply Hla; [done|]. by unfold same_shape in *.
Qed.

(** The hosts [l] that a sample [r] stands for, one host per shape. *)
Record samples (f : Fleet) (l r : list string) : Prop := {
    samples_in : ∀ t, t ∈ r → t ∈ l;
    samples_cover : ∀ t, t ∈ l → ∃ t', t' ∈ r ∧ same_shape f t' t;
    samples_once : ∀ t t', t ∈ r → t' ∈ r → same_shape f t t' → t = t'
}.

Lemma samples_of f l r :
    (∀ t, t ∈ r ↔ first_of_shape f (.∈ l) t) → samples f l r.
Proof.
    intros Hr. split.
    - intros t [Ht _]%Hr. done.
    - intros t (t' & Hf & Hs)%(first_of_shape_exists f). exists t'. by rewrite Hr.
    - intros t t' Ht%Hr Ht'%Hr. by apply first_of_shape_unique with (P := (.∈ l)).
Qed.

Lemma Representatives_samples f : samples f (active_tags f) (Representatives f).
Proof. apply samples_of. apply elem_of_Representatives. Qed.

Lemma SampleHosts_samples f tags :
    (1 < length tags)%nat → samples f (keep_if (λ t, t ∈? active_tags f) tags) (SampleHosts f tags).
Proof.
    intros Hlen. apply samples_of. intros t. rewrite elem_of_SampleHosts by done.
    apply first_of_shape_ext. intros x. by rewrite elem_of_keep_if, bool_decide_eq_true.
Qed.

(** The gate's samples are complete and minimal: whatever the encodings
    and the hash, the representatives of a fleet are active devices, every
    active device has the shape of exactly one of them, and the sample of two
    or more affected hosts stands the same way for the active ones among them
    (a single host is evaluated as it is). *)
Theorem gate_samples f tags :
    samples f (active_tags f) (Representatives f) ∧
    (if (length tags <=? 1)%nat then SampleHosts f tags = tags
     else samples f (keep_if (λ t, t ∈? active_tags f) tags) (SampleHosts f tags)).
Proof.
    split; [apply Representatives_samples|]. destruct (Nat.leb_spec (length tags) 1) as [Hl|Hl].
    - unfold SampleHosts. by rewrite (proj2 (Nat.leb_le _ _) Hl).
    - by apply SampleHosts_samples.
Qed.
End sampling.
