(* ===== verification/Verdicts.v ===== *)
(** * Memoised gate verdicts (src/internal/app/verdicts.go)

    The bounded cache of the shapes the gate has accepted, and the hosts an
    edit still has to have evaluated. *)

From S2P Require Import Prelude GoLib FleetModel Groups Resolve Apps Classes.

Definition maxVerdicts : nat := 4096%nat.

(** A nil cache is [None]. *)
Record verdictCache := mkCache { seen : gset string; c_order : list string }.

Definition newVerdictCache : verdictCache := mkCache ∅ [].

Section cache.
  Context `{GoJson, Fingerprint}.

Definition NUL : string := String "000" "".

Definition verdictKey (sourceKey globalsKey classKey : string) : string :=
    sha256_16 (sourceKey +:+ NUL +:+ globalsKey +:+ NUL +:+ classKey).

Definition known (c : option verdictCache) (key : string) : bool :=
    match c with None => false | Some c => key ∈? seen c end.

Definition record_key (c : verdictCache) (k : string) : verdictCache :=
    if k ∈? seen c then c else mkCache ({[k]} ∪ seen c) (c_order c ++ [k]).

(** [for len(c.order) > maxVerdicts { delete(c.seen, c.order[0]); ... }]. *)
Fixpoint evict (s : gset string) (o : list string) : verdictCache :=
    match o with
    | k :: rest => if (maxVerdicts <? length o)%nat then evict (s ∖ {[k]}) rest else mkCache s o
    | [] => mkCache s o
    end.

Definition record (c : option verdictCache) (keys : list string) : option verdictCache :=
    match c, keys with
    | None, _ | _, [] => c
    | Some c, _ => let c := foldl record_key c keys in Some (evict (seen c) (c_order c))
    end.

(** The key of a host, none for a host that has no shape. *)
Definition host_key (f : Fleet) (sourceKey h : string) : option string :=
    let classKey := ClassKeyOf f h in
    if classKey ==? "" then None else Some (verdictKey sourceKey (GeneratorGlobalsKey f) classKey).

(** [partitionHosts]: [sk] is the answer of the repository's [SourceKey],
    [None] when it has no such method. *)
Definition partitionHosts (sk : option (res string string)) (c : option verdictCache)
      (f : Fleet) (hosts : list string) : list string * list string :=
    match c, sk with
    | Some _, Some (Ok sourceKey) =>
        if sourceKey ==? "" then (hosts, [])
        else (delete_func (λ h, match host_key f sourceKey h with
                                | Some k => known c k | None => false end) hosts,
              h ← hosts; option_list (host_key f sourceKey h))
    | _, _ => (hosts, [])
    end.

(** ** The cache's invariant *)

Record cache_wf (c : verdictCache) : Prop := {
    cw_seen : ∀ k, k ∈ seen c ↔ k ∈ c_order c;
    cw_nodup : NoDup (c_order c)
}.

Lemma record_key_wf c k : cache_wf c → cache_wf (record_key c k).
Proof.
    intros [Hs Hn]. unfold record_key. case_bool_decide as Hk; [done|]. split; simpl.
    - intros k'. rewrite elem_of_union, elem_of_singleton, elem_of_app, list_elem_of_singleton, Hs. tauto.
    - apply NoDup_app. split_and!; [done| |apply NoDup_singleton].
      intros x Hx ->%list_elem_of_singleton. by rewrite <- Hs in Hx.
Qed.

Lemma record_keys_wf keys c : cache_wf c → cache_wf (foldl record_key c keys).
Proof. revert c. induction keys as [|k keys IH]; intros c Hc; simpl; [done|]. by apply IH, record_key_wf. Qed.

Lemma seen_record_keys keys c k :
    k ∈ seen (foldl record_key c keys) ↔ k ∈ seen c ∨ k ∈ keys.
Proof.
    revert c. induction keys as [|k' keys IH]; intros c; simpl.
    - rewrite elem_of_nil. tauto.
    - rewrite IH, elem_of_cons. unfold record_key. case_bool_decide as Hk; simpl.
      + split; [tauto|]. intros [Hx|[-> |Hx]]; tauto.
      + rewrite elem_of_union, elem_of_singleton. tauto.
Qed.

(** Eviction keeps the newest [maxVerdicts] keys. *)
Lemma evict_spec o s :
    cache_wf (mkCache s o) →
    cache_wf (evict s o) ∧ c_order (evict s o) = drop (length o - maxVerdicts) o.
Proof.
    revert s. induction o as [|k o IH]; intros s Hwf; [done|].
    cbn [evict]. destruct (Nat.ltb_spec maxVerdicts (length (k :: o))) as [Hl|Hl].
    - destruct (IH (s ∖ {[k]})) as [Hwf' Ho].
      + destruct Hwf as [Hs Hn]. apply NoDup_cons in Hn as [Hk Hn]. simpl in *. split; simpl; [|done].
        intros k'. rewrite elem_of_difference, elem_of_singleton, Hs, elem_of_cons.
        split; [tauto|]. intros Hk'. split; [by right|]. by intros ->.
      + split; [done|]. rewrite Ho. change (length (k :: o)) with (S (length o)) in *.
        replace (S (length o) - maxVerdicts)%nat with (S (length o - maxVerdicts)) by lia. done.
    - split; [done|]. simpl c_order. replace (length (k :: o) - maxVerdicts)%nat with O by lia. done.
Qed.

Lemma record_wf c keys c' :
    cache_wf c → record (Some c) keys = Some c' →
    cache_wf c' ∧ ((length (c_order c) ≤ maxVerdicts)%nat → (length (c_order c') ≤ maxVerdicts)%nat) ∧
    (∀ k, k ∈ seen c' → k ∈ seen c ∨ k ∈ keys).
Proof.
    intros Hwf. unfold record. destruct keys as [|k0 keys]; [intros [= <-]; naive_solver|].
    set (c1 := foldl record_key c (k0 :: keys)).
    assert (cache_wf c1) as H1 by (by apply record_keys_wf).
    intros [= <-]. destruct (evict_spec (c_order c1) (seen c1)) as [H2 Ho]; [by destruct c1|].
    split_and!; [done|intros _; rewrite Ho, length_drop; lia|].
    intros k Hk. apply (cw_seen _ H2) in Hk. rewrite Ho in Hk.
    apply (seen_record_keys (k0 :: keys)). apply (cw_seen _ H1). fold c1.
    by apply (elem_of_submseteq (drop (length (c_order c1) - maxVerdicts) (c_order c1))); 
      [|apply sublist_submseteq, sublist_drop].
Qed.

(** What a partition leaves out has a known key, and its keys are the keys of
    the hosts. *)
Lemma partition_todo sk c f hosts todo keys :
    partitionHosts sk c f hosts = (todo, keys) →
    (∀ h, h ∈ todo → h ∈ hosts) ∧
    (∀ h, h ∈ hosts → h ∉ todo →
       ∃ src k, sk = Some (Ok src) ∧ host_key f src h = Some k ∧ known c k = true) ∧
    (∀ k, k ∈ keys → ∃ src h, sk = Some (Ok src) ∧ h ∈ hosts ∧ host_key f src h = Some k).
Proof.
    unfold partitionHosts.
    assert ((hosts, @nil string) = (todo, keys) →
            (∀ h, h ∈ todo → h ∈ hosts) ∧
            (∀ h, h ∈ hosts → h ∉ todo →
               ∃ src k, sk = Some (Ok src) ∧ host_key f src h = Some k ∧ known c k = true) ∧
            (∀ k, k ∈ keys → ∃ src h, sk = Some (Ok src) ∧ h ∈ hosts ∧ host_key f src h = Some k)) as Hplain.
    { intros [= <- <-]. split_and!; [done|done|]. intros k Hk. by apply elem_of_nil in Hk. }
    destruct c as [c|]; [|done]. destruct sk as [[src|]|]; try done.
    case_bool_decide as Hsrc; [done|]. intros [= <- <-]. split_and!.
    - intros h [Hh _]%elem_of_delete_func. done.
    - intros h Hh Hn. exists src.
      destruct (host_key f src h) as [k|] eqn:Hk.
      + exists k. split_and!; try done. destruct (known (Some c) k) eqn:Hkn; [done|].
        destruct Hn. apply elem_of_delete_func. split; [done|]. by rewrite Hk.
      + destruct Hn. apply elem_of_delete_func. split; [done|]. by rewrite Hk.
    - intros k (h & Hk & Hh)%list_elem_of_bind. exists src, h. split_and!; [done|done|].
      destruct (host_key f src h) as [k'|]; simpl in Hk; [|by apply elem_of_nil in Hk].
      by apply list_elem_of_singleton in Hk as ->.
Qed.
End cache.
