(* ===== verification/Document.v ===== *)
(** * Reading and writing the document (src/internal/domain/fleet/migrate.go, model.go)

    The forward migration of an older fleet.json and the codec around it. *)

From Stdlib Require Import SpecFloat.
From S2P Require Import Prelude GoLib FleetModel.

Definition CurrentVersion : Z := 3.

Notation JsonDoc := (gmap string Value).

(** encoding/json on the document: into the version probe, into a generic map,
    into the [Fleet] struct, and back. *)
Class FleetJson := {
  unmarshal_probe : string → res string Z;
  unmarshal_doc : string → res string JsonDoc;
  unmarshal_fleet : string → res string Fleet;
  marshal_doc : JsonDoc → res string string;
  marshal_fleet : Fleet → res string string
}.

Inductive DecodeErr :=
  | ParseErr (e : string)
  | NewerVersion (v : Z)
  | UnsupportedVersion (v : Z)
  | NoMigration (v : Z)
  | MigrateErr (v : Z) (e : string)
  | ReencodeErr (e : string)
  | HalfMigrated (v : Z).

(** float64(v). *)
Definition float64 (v : Z) : Value := VFloat (binary_normalize 53 1024 v 0 false).

Definition migration := JsonDoc → res string JsonDoc.
Definition migrations : gmap Z migration := ∅.

Definition newline : string := String "010" "".

Section codec.
  Context `{FleetJson}.

(** The loop of [runMigrations]: [n] steps from version [v]. *)
Fixpoint run_steps (n : nat) (v : Z) (migs : gmap Z migration) (doc : JsonDoc)
      : res DecodeErr JsonDoc :=
    match n with
    | O => Ok doc
    | S n =>
        match migs !! v with
        | None => Err (NoMigration v)
        | Some m =>
            let! next := lift_err (MigrateErr v) (m doc) in
            run_steps n (v + 1) migs (<["version" := float64 (v + 1)]> next)
        end
    end.

Definition runMigrations (b : string) (from : Z) (migs : gmap Z migration) : res DecodeErr string :=
    let! doc := lift_err ParseErr (unmarshal_doc b) in
    let! doc := run_steps (Z.to_nat (CurrentVersion - from)) from migs doc in
    lift_err ReencodeErr (marshal_doc doc).

Definition decode (b : string) (migs : gmap Z migration) : res DecodeErr Fleet :=
    let! probe := lift_err ParseErr (unmarshal_probe b) in
    refuse CurrentVersion <? probe with NewerVersion probe;
    refuse probe <? 1 with UnsupportedVersion probe;
    let! b := (if probe <? CurrentVersion then runMigrations b probe migs else Ok b) in
    let! f := lift_err ParseErr (unmarshal_fleet b) in
    refuse Version f !=? CurrentVersion with HalfMigrated (Version f);
    Ok f.

Definition Decode (b : string) : res DecodeErr Fleet := decode b migrations.

Definition Encode (f : Fleet) : res string string :=
    let! b := marshal_fleet f in Ok (b +:+ newline).

(** ** Lemmas *)

Lemma lift_err_Ok {E E' A} (k : E → E') (r : res E A) a : lift_err k r = Ok a ↔ r = Ok a.
Proof. by destruct r; simpl; split; intros [= ->]. Qed.

Lemma decode_version b migs f : decode b migs = Ok f → Version f = CurrentVersion.
Proof.
    unfold decode. intros (probe & _ & Hd)%res_bind_Ok.
    destruct (CurrentVersion <? probe); [done|]. destruct (probe <? 1); [done|].
    apply res_bind_Ok in Hd as (b' & _ & (f' & _ & Hd)%res_bind_Ok).
    case_bool_decide as Hv; simpl in Hd; [|done].
    by injection Hd as <-.
Qed.

(** The stamp of the last step, and the gap that stops the walk. *)
Lemma run_steps_Ok n v migs doc doc' :
    run_steps n v migs doc = Ok doc' →
    (n ≠ 0%nat → doc' !! "version" = Some (float64 (v + Z.of_nat n))) ∧
    (∀ w, v ≤ w < v + Z.of_nat n → is_Some (migs !! w)).
Proof.
    revert v doc. induction n as [|n IH]; intros v doc; cbn [run_steps].
    - intros [= <-]. split; [done|lia].
    - destruct (migs !! v) as [m|] eqn:Hm; [|done].
      intros (next & _ & Hr)%res_bind_Ok.
      assert (∀ w, w = v → is_Some (migs !! w)) as Hhere by (intros w Hw; exists m; by rewrite Hw).
      destruct n as [|n].
      + injection Hr as <-. split; [intros _; rewrite lookup_insert_eq; do 2 f_equal; lia|].
        intros w Hw. apply Hhere. lia.
      + apply IH in Hr as [Hv Hall]. split.
        * intros _. rewrite Hv by done. do 2 f_equal. lia.
        * intros w Hw. destruct (decide (w = v)); [by apply Hhere|]. apply Hall. lia.
Qed.

(** Reading a document never misreads it: what [decode] returns is at the
    current version; a document of a newer version, or of none, is refused
    without being parsed; a current one is parsed as it is; and an older one is
    parsed only after every migration from its version to the current one has
    been found and run, and the result is stamped with the current version. *)
Theorem decode_spec b migs f :
    decode b migs = Ok f →
    Version f = CurrentVersion ∧
    ∃ probe, unmarshal_probe b = Ok probe ∧ 1 ≤ probe ≤ CurrentVersion ∧
      if decide (probe = CurrentVersion) then unmarshal_fleet b = Ok f
      else (∀ w, probe ≤ w < CurrentVersion → is_Some (migs !! w)) ∧
           ∃ doc doc' b', unmarshal_doc b = Ok doc ∧
             run_steps (Z.to_nat (CurrentVersion - probe)) probe migs doc = Ok doc' ∧
             doc' !! "version" = Some (float64 CurrentVersion) ∧
             marshal_doc doc' = Ok b' ∧ unmarshal_fleet b' = Ok f.
Proof.
    intros Hd. split; [by eapply decode_version|]. unfold decode in Hd.
    apply res_bind_Ok in Hd as (probe & Hp%lift_err_Ok & Hd). exists probe. split; [done|].
    destruct (Z.ltb_spec CurrentVersion probe) as [?|Hle]; [done|].
    destruct (Z.ltb_spec probe 1) as [?|Hge]; [done|]. split; [done|].
    apply res_bind_Ok in Hd as (b' & Hb & (f' & Hf%lift_err_Ok & Hd)%res_bind_Ok).
    assert (f' = f) as ->.
    { destruct (Version f' !=? CurrentVersion); [discriminate Hd|by injection Hd]. }
    destruct (decide (probe = CurrentVersion)) as [Heq|Hne];
      (destruct (Z.ltb_spec probe CurrentVersion) as [Hlt|Hlt]; try lia); [by injection Hb as ->|].
    unfold runMigrations in Hb.
    apply res_bind_Ok in Hb as (doc & Hdoc%lift_err_Ok & (doc' & Hrun & Hb%lift_err_Ok)%res_bind_Ok).
    pose proof (run_steps_Ok _ _ _ _ _ Hrun) as [Hstamp Hall]. split.
    - intros w Hw. apply Hall. lia.
    - exists doc, doc', b'. split_and!; try done. rewrite Hstamp by lia. do 2 f_equal. lia.
Qed.
End codec.

(** A codec on the two texts "v2" and "v3". *)
#[local] Instance demo_json : FleetJson := {
  unmarshal_probe b := if b ==? "v2" then Ok 2 else Ok 3;
  unmarshal_doc b := Ok ∅;
  unmarshal_fleet b := if b ==? "v3" then Ok zero_fleet else Err "parse";
  marshal_doc doc := Ok "v3";
  marshal_fleet f := Ok "v3"
}.

Definition demo_migs : gmap Z migration := {[2 := λ doc, Ok (<["org" := VNull]> doc)]}.

Lemma decode_spec_witness :
  decode "v2" demo_migs = Ok zero_fleet ∧ decode "v2" migrations = Err (NoMigration 2) ∧
  Version zero_fleet = CurrentVersion.
Proof.
  split; [reflexivity|]. split; [reflexivity|].
  destruct (decode_spec "v2" demo_migs zero_fleet) as [Hv _]; [reflexivity|exact Hv].
Defined.
