(* ===== verification/ConfigTx.v ===== *)
(** * The write transaction (src/internal/app/config.go, config_devices.go, hosts.go)

    The configuration service: a snapshot of the overlay's files, and the
    transaction every edit runs (load, mutate, write, gate, commit, push), with
    the git repository and the gate behind interfaces. *)

From S2P Require Import Prelude GoLib FleetModel Groups Resolve Apps Mutate DeviceOps Classes Verdicts Document.

(** ** The interfaces (src/internal/ports/ports.go) *)

Record Author := mkAuthor { au_Subject : string; au_Name : string; au_Email : string }.

Inductive ReadErr := NotExist | ReadFailed (e : string).
Inductive PushErr := ErrConflict | PushFailed (e : string).

Class ConfigRepo (W : Type) := {
  ReadFile : string → W → res ReadErr string;
  WriteFile : string → string → SE W string unit;
  CommitFile : string → Author → string → SE W string unit;
  HasRemote : bool;
  Sync : SE W string unit;
  Push : SE W PushErr unit;
  SourceKey : option (string → W → res string string)
}.

(** [Validate(ctx, repo.Dir(), hosts)]: nil is [None]. *)
Definition Gate (W : Type) := W → list string → option string.
Definition passGate {W} : Gate W := λ _ _, None.

(** The parsers of the overlay's other files; an absent file is empty bytes. *)
Class OverlayParsers := {
  Catalog : Type; HardwareProfiles : Type; ProfileSet : Type; Bundles : Type;
  ParseCatalog : string → res string Catalog;
  ParseHardwareProfiles : string → res string HardwareProfiles;
  ParseProfileSet : string → res string ProfileSet;
  ParseBundles : string → res string Bundles
}.

Definition FleetFile : string := "fleet.json".
Definition CatalogFile : string := "catalog.json".
Definition HardwareProfilesFile : string := "hardware-profiles.json".
Definition ProfilesFile : string := "profiles.json".
Definition BundlesFile : string := "bundles.json".
Definition maxPushRetries : nat := 5.

Inductive TxErr :=
  | ReadE (name : string) (e : ReadErr)
  | DecodeE (e : DecodeErr)
  | ParseE (name e : string)
  | MutateE (e : FleetErr)
  | EncodeE (e : string)
  | WriteE (e : string)
  | GateE (e : string)
  | RollbackE (gate write : string)
  | CommitE (e : string)
  | SyncE (e : string)
  | PushE (e : string)
  | GaveUp (tries : nat).

Record configSnapshot `{OverlayParsers} := mkSnapshot {
  sn_fleet : Fleet; sn_catalog : Catalog; sn_hardware : HardwareProfiles;
  sn_profiles : ProfileSet; sn_bundles : Bundles
}.

(** What a transaction changes, and what the service owns. *)
Record Tx (W : Type) := mkTx { tx_repo : W; tx_verdicts : option verdictCache }.
Arguments mkTx {W}. Arguments tx_repo {W}. Arguments tx_verdicts {W}.
Record ConfigService `{OverlayParsers} (W : Type) := mkService {
  cs_tx : Tx W; cs_snap : configSnapshot
}.
Arguments mkService {_ W}. Arguments cs_tx {_ W}. Arguments cs_snap {_ W}.

Section service.
  Context {W : Type} `{ConfigRepo W, GoJson, Fingerprint, FleetJson, OverlayParsers}.

Definition on_repo {E A} (k : E → TxErr) (m : SE W E A) : SE (Tx W) TxErr A := λ s,
    let '(r, w) := m (tx_repo s) in (lift_err k r, mkTx w (tx_verdicts s)).

Definition try {S E A} (k : E → TxErr) (r : res E A) : SE S TxErr A := se_lift (lift_err k r).

(** ** The transaction *)

Definition sample (f : Fleet) (hosts : list string) : list string :=
    match hosts with [] => Representatives f | _ => SampleHosts f hosts end.

Definition partition_now (f : Fleet) (hosts : list string) (s : Tx W) : list string * list string :=
    partitionHosts ((λ sk, sk FleetFile (tx_repo s)) <$> SourceKey) (tx_verdicts s) f hosts.

Definition applyTx (gate : Gate W) (mut : Mutation) (msg : string) (a : Author) (hosts : list string)
      : SE (Tx W) TxErr Fleet :=
    do! rd <- se_get (λ s, ReadFile FleetFile (tx_repo s));
    do! orig <- try (ReadE FleetFile) rd;
    do! f <- try DecodeE (Decode orig);
    do! f <- try MutateE (mut f);
    do! next <- try EncodeE (Encode f);
    if next ==? orig then se_ret f else
    run! on_repo WriteE (WriteFile FleetFile next);
    let hosts := sample f hosts in
    do! tk <- se_get (partition_now f hosts);
    if negb (hosts ==? []) && (tk.1 ==? []) then
      run! on_repo CommitE (CommitFile msg a FleetFile); se_ret f
    else
      do! verdict <- se_get (λ s, gate (tx_repo s) tk.1);
      match verdict with
      | Some err => λ s,
          let '(r, w) := WriteFile FleetFile orig (tx_repo s) in
          (match r with Ok _ => Err (GateE err) | Err werr => Err (RollbackE err werr) end,
           mkTx w (tx_verdicts s))
      | None =>
          run! se_modify (λ s, mkTx (tx_repo s) (record (tx_verdicts s) tk.2));
          run! on_repo CommitE (CommitFile msg a FleetFile);
          se_ret f
      end.

(** ** The service *)

(** A file that may be absent. *)
Definition read_optional (name : string) (w : W) : res ReadErr string :=
    match ReadFile name w with Err NotExist => Ok "" | r => r end.

Definition load (w : W) : res TxErr configSnapshot :=
    let! raw := lift_err (ReadE FleetFile) (ReadFile FleetFile w) in
    let! f := lift_err DecodeE (Decode raw) in
    let! craw := lift_err (ReadE CatalogFile) (read_optional CatalogFile w) in
    let! cat := lift_err (ParseE CatalogFile) (ParseCatalog craw) in
    let! hraw := lift_err (ReadE HardwareProfilesFile) (read_optional HardwareProfilesFile w) in
    let! hw := lift_err (ParseE HardwareProfilesFile) (ParseHardwareProfiles hraw) in
    let! praw := lift_err (ReadE ProfilesFile) (read_optional ProfilesFile w) in
    let! prof := lift_err (ParseE ProfilesFile) (ParseProfileSet praw) in
    let! braw := lift_err (ReadE BundlesFile) (read_optional BundlesFile w) in
    let! bundles := lift_err (ParseE BundlesFile) (ParseBundles braw) in
    Ok (mkSnapshot _ f cat hw prof bundles).

Definition reload : SE (ConfigService W) TxErr unit := λ s,
    match load (tx_repo (cs_tx s)) with
    | Ok sn => (Ok tt, mkService (cs_tx s) sn)
    | Err e => (Err e, s)
    end.

Definition NewConfigService (w : W) : res TxErr (ConfigService W) :=
    let! sn := load w in Ok (mkService (mkTx w (Some newVerdictCache)) sn).

Definition cs_Fleet (s : ConfigService W) : Fleet := sn_fleet (cs_snap s).

Definition applyOnce (mut : Mutation) (msg : string) (a : Author) (hosts : list string)
      (gate : Gate W) : SE (ConfigService W) TxErr unit := λ s,
    match applyTx gate mut msg a hosts (cs_tx s) with
    | (Err e, tx) => (Err e, mkService tx (cs_snap s))
    | (Ok f, tx) =>
        let prev := cs_snap s in
        (Ok tt, mkService tx (mkSnapshot _ f (sn_catalog prev) (sn_hardware prev)
                                (sn_profiles prev) (sn_bundles prev)))
    end.

Definition on_tx {E A} (k : E → TxErr) (m : SE W E A) : SE (ConfigService W) TxErr A := λ s,
    let '(r, tx) := on_repo k m (cs_tx s) in (r, mkService tx (cs_snap s)).

(** The retry loop, [n] attempts left. *)
Fixpoint apply_retry (n : nat) (mut : Mutation) (msg : string) (a : Author) (hosts : list string)
      (gate : Gate W) : SE (ConfigService W) TxErr unit :=
    match n with
    | O => se_err (GaveUp maxPushRetries)
    | S n =>
        run! on_tx SyncE Sync;
        run! reload;
        run! applyOnce mut msg a hosts gate;
        λ s, match Push (tx_repo (cs_tx s)) with
             | (Ok _, w) => (Ok tt, mkService (mkTx w (tx_verdicts (cs_tx s))) (cs_snap s))
             | (Err (PushFailed e), w) =>
                 (Err (PushE e), mkService (mkTx w (tx_verdicts (cs_tx s))) (cs_snap s))
             | (Err ErrConflict, w) =>
                 apply_retry n mut msg a hosts gate
                   (mkService (mkTx w (tx_verdicts (cs_tx s))) (cs_snap s))
             end
    end.

Definition applyWithGate (mut : Mutation) (msg : string) (a : Author) (hosts : list string)
      (gate : Gate W) : SE (ConfigService W) TxErr unit :=
    if HasRemote then apply_retry maxPushRetries mut msg a hosts gate
    else applyOnce mut msg a hosts gate.

Definition Apply (gate : Gate W) (mut : Mutation) (msg : string) (a : Author) (hosts : list string) :=
    applyWithGate mut msg a hosts gate.

Definition ApplyStructural (mut : Mutation) (msg : string) (a : Author) :=
    applyWithGate mut msg a [] passGate.

(** One round of [SyncLoop]. *)
Definition SyncTick : SE (ConfigService W) TxErr unit :=
    if HasRemote then run! on_tx SyncE Sync; reload else se_ret tt.

(** ** Housekeeping (config_devices.go) *)

Definition reap_mutation (stale : list string) : Mutation := λ f,
    fold_res (λ f tag,
      match Devices f !! tag with
      | Some d => if Provisional d then RemoveDevice tag f else Ok f
      | None => Ok f
      end) f stale.

Definition reap_message (stale : list string) : string :=
    "devices: drop " +:+ pretty (length stale) +:+ " enrolment(s) that never reported (" +:+
    join stale ", " +:+ ")".

Definition ReapAbandonedEnrolments (gate : Gate W) (now : Time) (a : Author)
      : SE (ConfigService W) TxErr (list string) :=
    do! stale <- se_get (λ s, AbandonedEnrolments (cs_Fleet s) (now - StaleProvisional));
    if stale ==? [] then se_ret [] else
    run! Apply gate (reap_mutation stale) (reap_message stale) a [];
    se_ret stale.
End service.

(** ** The blast radius (hosts.go) *)

(** [AffectedHosts]: nil, "validate everything", is the empty list. *)
Definition AffectedHosts (f : Fleet) (ref : string) : list string :=
  match cut_prefix ref "device:" with
  | Some tag => if Retired (dev f tag) then [] else [tag]
  | None =>
      match cut_prefix ref "group:" with
      | Some g => keys_where (λ _ d, negb (Retired d) &&
                                     existsb (λ dg, g ∈? GroupAncestry f dg) (Groups d)) (Devices f)
      | None => []
      end
  end.
