(* ===== verification/ConfigSafety.v ===== *)
(** * What the write transaction guarantees

    Theorems on ConfigTx: what reaches git and when, what is left behind on an
    error, the memoised gate, and the race with other writers. *)

From S2P Require Import Prelude GoLib FleetModel Groups Resolve Apps Mutate DeviceOps Classes Verdicts Document ConfigTx Identity.

(** ** What a repository promises *)

Record Commit := mkCommit { c_msg : string; c_author : Author; c_doc : string }.

(** The documented behaviour of [ports.ConfigRepo]: [tree] is fleet.json in the
    working tree, [history] and [remote] the commits of the branch here and on
    the remote, newest first, each with its fleet.json.  [remote] may advance by
    the commits of others at every network operation. *)
Class RepoLaws (W : Type) `{ConfigRepo W} := {
  tree : W → string;
  history : W → list Commit;
  remote : W → list Commit;
  read_law w s : ReadFile FleetFile w = Ok s → s = tree w;
  write_law s w r w' : WriteFile FleetFile s w = (r, w') →
    history w' = history w ∧ remote w' = remote w ∧ (r = Ok tt → tree w' = s);
  commit_law m a w r w' : CommitFile m a FleetFile w = (r, w') →
    tree w' = tree w ∧ remote w' = remote w ∧
    history w' = match r with Ok _ => mkCommit m a (tree w) :: history w | Err _ => history w end;
  sync_law w r w' : Sync w = (r, w') →
    (∃ others, remote w' = others ++ remote w) ∧
    (r = Ok tt → history w' = remote w' ∧
                 ∀ c l, remote w' = c :: l → tree w' = c_doc c);
  push_law w r w' : Push w = (r, w') →
    history w' = history w ∧ tree w' = tree w ∧
    match r with
    | Ok _ => (∃ mine, history w = mine ++ remote w) ∧ remote w' = history w
    | Err ErrConflict => ∃ others, remote w' = others ++ remote w
    | Err (PushFailed _) => (∃ others, remote w' = others ++ remote w) ∨
        (∃ mine, history w = mine ++ remote w) ∧ remote w' = history w
    end
}.

Section safety.
  Context {W : Type} `{Hrepo : ConfigRepo W, !RepoLaws W, GoJson, Fingerprint, FleetJson, OverlayParsers}.

Notation repo s := (tx_repo s).

(** What let the edit through: the gate, on the hosts not memoised, or the
    memory of it. *)
Definition let_through (gate : Gate W) (f' : Fleet) (hosts : list string) (w1 : W) (st st' : Tx W) : Prop :=
    let tk := partition_now f' (sample f' hosts) (mkTx w1 (tx_verdicts st)) in
    (sample f' hosts ≠ [] ∧ tk.1 = [] ∧ tx_verdicts st' = tx_verdicts st) ∨
    (gate w1 tk.1 = None ∧ tx_verdicts st' = record (tx_verdicts st) tk.2).

(** The edit that a transaction made. *)
Inductive committed (gate : Gate W) (mut : Mutation) (msg : string) (a : Author) (hosts : list string)
      (st : Tx W) (f' : Fleet) (st' : Tx W) : Prop :=
    | committed_noop orig f :
        ReadFile FleetFile (repo st) = Ok orig → Decode orig = Ok f → mut f = Ok f' →
        Encode f' = Ok orig → st' = st → committed gate mut msg a hosts st f' st'
    | committed_edit orig f next w1 :
        ReadFile FleetFile (repo st) = Ok orig → Decode orig = Ok f → mut f = Ok f' →
        Encode f' = Ok next → next ≠ orig →
        WriteFile FleetFile next (repo st) = (Ok tt, w1) →
        let_through gate f' hosts w1 st st' →
        tree (repo st') = next →
        history (repo st') = mkCommit msg a next :: history (repo st) →
        committed gate mut msg a hosts st f' st'.

(** How a transaction fails: before it wrote or after it restored the file; with
    a write that failed, so that the file is in doubt; or at the commit, with
    the file holding the edit. *)
Inductive failed (gate : Gate W) (msg : string) (a : Author) (hosts : list string)
      (st : Tx W) (e : TxErr) (st' : Tx W) : Prop :=
    | failed_clean :
        match e with ReadE _ _ | DecodeE _ | MutateE _ | EncodeE _ | GateE _ => True | _ => False end →
        tree (repo st') = tree (repo st) → tx_verdicts st' = tx_verdicts st →
        failed gate msg a hosts st e st'
    | failed_write :
        match e with WriteE _ | RollbackE _ _ => True | _ => False end →
        tx_verdicts st' = tx_verdicts st → failed gate msg a hosts st e st'
    | failed_commit f' next w1 :
        match e with CommitE _ => True | _ => False end →
        Encode f' = Ok next → WriteFile FleetFile next (repo st) = (Ok tt, w1) →
        let_through gate f' hosts w1 st st' → tree (repo st') = next →
        failed gate msg a hosts st e st'.

Lemma on_repo_inv {E A} (k : E → TxErr) (m : SE W E A) st r st' :
    on_repo k m st = (r, st') →
    ∃ r0, m (repo st) = (r0, repo st') ∧ r = lift_err k r0 ∧ tx_verdicts st' = tx_verdicts st.
Proof. unfold on_repo. destruct (m (repo st)) as [r0 w]. intros [= <- <-]. eauto. Qed.

Lemma commit_step msg a st f (r : res TxErr Fleet) st' :
    (se_bind (on_repo CommitE (CommitFile msg a FleetFile)) (λ _, se_ret f)) st = (r, st') →
    tx_verdicts st' = tx_verdicts st ∧ tree (repo st') = tree (repo st) ∧
    remote (repo st') = remote (repo st) ∧
    ((r = Ok f ∧ history (repo st') = mkCommit msg a (tree (repo st)) :: history (repo st)) ∨
     (∃ e, r = Err (CommitE e)) ∧ history (repo st') = history (repo st)).
Proof.
    intros [(u & s1 & Ho & Hk)|(e & Ho & ->)]%se_bind_inv;
      apply on_repo_inv in Ho as (r0 & Hc & Hr & Hv); apply commit_law in Hc as (Ht & Hrm & Hh).
    - injection Hk as <- <-. split_and!; try done. destruct r0; [by left|discriminate Hr].
    - split_and!; try done. destruct r0; [discriminate Hr|]. right. injection Hr as ->. eauto.
Qed.

Lemma try_inv {S E A B} (k : E → TxErr) (m : res E A) (g : A → SE S TxErr B) s r s' :
    se_bind (try k m) g s = (r, s') →
    (∃ a, m = Ok a ∧ g a s = (r, s')) ∨ (∃ e, m = Err e ∧ r = Err (k e) ∧ s' = s).
Proof. unfold try, se_bind, se_lift. destruct m; simpl; [eauto|]. intros [= <- <-]. eauto. Qed.

Lemma applyTx_spec gate mut msg a hosts st r st' :
    applyTx gate mut msg a hosts st = (r, st') →
    remote (repo st') = remote (repo st) ∧
    match r with
    | Ok f' => committed gate mut msg a hosts st f' st'
    | Err e => history (repo st') = history (repo st) ∧ failed gate msg a hosts st e st'
    end.
Proof.
    unfold applyTx. rewrite se_get_bind. intros Htx.
    apply try_inv in Htx as [(orig & Hread & Htx)|(e & _ & -> & ->)]; [|auto using failed_clean].
    apply try_inv in Htx as [(f & Hdec & Htx)|(e & _ & -> & ->)]; [|auto using failed_clean].
    apply try_inv in Htx as [(f' & Hmut & Htx)|(e & _ & -> & ->)]; [|auto using failed_clean].
    apply try_inv in Htx as [(next & Henc & Htx)|(e & _ & -> & ->)]; [|auto using failed_clean].
    case_bool_decide as Heq.
    { injection Htx as <- <-. subst next. split; [done|]. by econstructor. }
    apply se_bind_inv in Htx as [(u & s1 & Hw & Htx)|(e & Hw & ->)];
      apply on_repo_inv in Hw as (r0 & Hwr & Hr & Hv1);
      pose proof (write_law _ _ _ _ Hwr) as (Hh1 & Hr1 & Ht1).
    2:{ destruct r0; [discriminate Hr|]. injection Hr as ->. split; [done|]. split; [done|by apply failed_write]. }
    destruct r0 as [[]|]; [|discriminate Hr]. destruct s1 as [w1 v1]. simpl in *. subst v1.
    specialize (Ht1 eq_refl). rewrite se_get_bind in Htx.
    set (tk := partition_now f' (sample f' hosts) (mkTx w1 (tx_verdicts st))) in *.
    assert (Hread' : orig = tree (repo st)) by (by apply read_law).
    case_bool_decide as Hs; [|case_bool_decide as Htk]; cbn [negb andb] in Htx.
    2:{ apply commit_step in Htx as (Hv & Ht & Hrm & [[-> Hh]|[[e ->] Hh]]); simpl in *.
        - split; [congruence|]. eapply committed_edit; try done; try congruence.
          left. split_and!; [done|done|by rewrite Hv].
        - split; [congruence|]. split; [congruence|]. eapply failed_commit; try done; try congruence.
          left. split_and!; [done|done|by rewrite Hv]. }
    all: rewrite se_get_bind in Htx; cbn [tx_repo] in Htx;
      destruct (gate w1 tk.1) as [err|] eqn:Hg.
    1,3: cbn [tx_repo tx_verdicts] in Htx; destruct (WriteFile FleetFile orig w1) as [r2 w2] eqn:Hw2; injection Htx as <- <-;
      apply write_law in Hw2 as (Hh2 & Hr2 & Ht2); simpl; split; [congruence|];
      destruct r2 as [[]|]; (split; [congruence|]); [apply failed_clean; [done|simpl; rewrite Ht2 by done; congruence|done]|by apply failed_write].
    all: rewrite se_modify_bind in Htx; cbn [tx_repo tx_verdicts] in Htx;
      apply commit_step in Htx as (Hv & Ht & Hrm & Hres); simpl in *; (split; [congruence|]).
    all: assert (let_through gate f' hosts w1 st st') as Hlet by (right; split; [done|by rewrite Hv]).
    all: destruct Hres as [[-> Hh]|[[e ->] Hh]];
      [|split; [congruence|]; by eapply failed_commit; try done; congruence].
    all: eapply committed_edit; try done; congruence.
Qed.

(** ** The race with other writers *)

Lemma applyOnce_spec mut msg a hosts gate s r s' :
    applyOnce mut msg a hosts gate s = (r, s') →
    remote (repo (cs_tx s')) = remote (repo (cs_tx s)) ∧
    match r with
    | Ok _ => committed gate mut msg a hosts (cs_tx s) (cs_Fleet s') (cs_tx s')
    | Err e => history (repo (cs_tx s')) = history (repo (cs_tx s)) ∧
               failed gate msg a hosts (cs_tx s) e (cs_tx s')
    end.
Proof.
    unfold applyOnce. destruct (applyTx _ _ _ _ _ _) as [[f|e] tx] eqn:Htx;
      apply applyTx_spec in Htx; intros [= <- <-]; exact Htx.
Qed.

(** A transaction that started on the remote's head [base] and landed on it. *)
Definition landed (gate : Gate W) (mut : Mutation) (msg : string) (a : Author) (hosts : list string)
      (s s' : ConfigService W) : Prop :=
    ∃ st st', remote (repo (cs_tx s)) `suffix_of` history (repo st) ∧
      (∀ c l, history (repo st) = c :: l → tree (repo st) = c_doc c) ∧
      committed gate mut msg a hosts st (cs_Fleet s') st' ∧
      remote (repo (cs_tx s')) = history (repo st').

Lemma reload_inv s r s' : reload s = (r, s') → cs_tx s' = cs_tx s.
Proof. unfold reload. destruct (load _); by intros [= _ <-]. Qed.

Lemma on_tx_inv {E A} (k : E → TxErr) (m : SE W E A) (s : ConfigService W) r s' :
    on_tx k m s = (r, s') →
    ∃ r0, m (repo (cs_tx s)) = (r0, repo (cs_tx s')) ∧ r = lift_err k r0.
Proof.
    unfold on_tx. destruct (on_repo k m (cs_tx s)) as [r1 tx] eqn:Ho.
    apply on_repo_inv in Ho as (r0 & Hm & -> & _). intros [= <- <-]. eauto.
Qed.

Lemma apply_retry_spec n mut msg a hosts gate s r s' :
    apply_retry n mut msg a hosts gate s = (r, s') →
    remote (repo (cs_tx s)) `suffix_of` remote (repo (cs_tx s')) ∧
    (r = Ok tt → landed gate mut msg a hosts s s').
Proof.
    revert s. induction n as [|n IH]; intros s; cbn [apply_retry]; [by intros [= <- <-]|].
    intros [(u & s1 & Hs & Hk)|(e & Hs & ->)]%se_bind_inv;
      apply on_tx_inv in Hs as (r0 & Hsync & Hr0); apply sync_law in Hsync as [Hext Hok]; [|done].
    destruct r0 as [[]|]; [|discriminate Hr0]. destruct (Hok eq_refl) as [Hh1 Ht1]. clear Hok.
    apply se_bind_inv in Hk as [(u' & s2 & Hrl & Hk)|(e & Hrl & ->)]; apply reload_inv in Hrl as Hs2;
      [|by rewrite Hs2].
    apply se_bind_inv in Hk as [(u'' & s3 & Ha & Hk)|(e & Ha & ->)];
      apply applyOnce_spec in Ha as [Hrm Hc]; [|by rewrite Hrm, Hs2].
    destruct (Push (repo (cs_tx s3))) as [rp w] eqn:Hp. apply push_law in Hp as (Hhp & Htp & Hp).
    rewrite Hrm, Hs2 in Hp. rewrite Hs2 in Hc.
    destruct rp as [[]|[|e]]; simpl in *.
    - injection Hk as <- <-. destruct Hp as [[mine Hm] Hp]. simpl. split.
      + rewrite Hp, Hm. by apply suffix_app_r.
      + intros _. exists (cs_tx s1), (cs_tx s3). rewrite Hh1. split_and!; try done.
    - destruct Hp as [o Ho]. apply IH in Hk as [Hx Hl]. simpl in *. split.
      + etrans; [|exact Hx]. rewrite Ho. by apply suffix_app_r.
      + intros Hr. destruct (Hl Hr) as (st & st' & Hl1 & Hl2 & Hl3 & Hl4). exists st, st'.
        split_and!; try done. etrans; [|exact Hl1]. simpl. rewrite Ho. by apply suffix_app_r.
    - injection Hk as <- <-. split; [|done]. simpl.
      destruct Hp as [[o Ho]|[[mine Hm] Hp]]; [rewrite Ho|rewrite Hp, Hm]; by apply suffix_app_r.
Qed.
(** ** The memoised gate *)

(** The gate is a function of what the memo key names: it accepts a host when
    the host evaluates ([passes]), and whether a host evaluates depends on the
    source and on the host's globals and shape only. *)
Record gate_laws (gate : Gate W) (passes : W → string → Prop) : Prop := {
    gate_accepts w todo h : gate w todo = None → h ∈ todo → passes w h;
    passes_by_key sk w w' f f' src src' h h' k :
      SourceKey = Some sk → sk FleetFile w = Ok src → sk FleetFile w' = Ok src' →
      Encode f = Ok (tree w) → Encode f' = Ok (tree w') →
      host_key f src h = Some k → host_key f' src' h' = Some k →
      passes w h → passes w' h'
}.

(** Every remembered key stands for hosts that evaluate. *)
Definition cache_sound (passes : W → string → Prop) (c : option verdictCache) : Prop :=
    ∀ c', c = Some c' → cache_wf c' ∧
      ∀ sk w f src h k, SourceKey = Some sk → sk FleetFile w = Ok src → Encode f = Ok (tree w) →
        host_key f src h = Some k → k ∈ seen c' → passes w h.

Lemma let_through_sound gate passes f' hosts w1 st st' :
    gate_laws gate passes → cache_sound passes (tx_verdicts st) →
    Encode f' = Ok (tree w1) → let_through gate f' hosts w1 st st' →
    (∀ h, h ∈ sample f' hosts → passes w1 h) ∧ cache_sound passes (tx_verdicts st').
Proof.
    intros Hg Hc Henc Hlet. unfold let_through in Hlet.
    destruct (partition_now f' (sample f' hosts) (mkTx w1 (tx_verdicts st))) as [todo keys] eqn:Hp.
    apply partition_todo in Hp as (_ & Hskip & Hkeys). simpl in *.
    assert (∀ src, (λ sk : string → W → res string string, sk FleetFile w1) <$> SourceKey = Some (Ok src) →
              ∃ sk, SourceKey = Some sk ∧ sk FleetFile w1 = Ok src) as Hsk.
    { intros src Hs. destruct SourceKey as [sk|]; simplify_eq/=. eauto. }
    assert (∀ h, h ∈ sample f' hosts → h ∉ todo → passes w1 h) as Hknown.
    { intros h Hh Hn. destruct (Hskip h Hh Hn) as (src & k & Hs & Hk & Hkn).
      destruct (Hsk src Hs) as (sk & Hsk1 & Hsk2).
      destruct (tx_verdicts st) as [c|] eqn:Hv; [|discriminate Hkn].
      apply bool_decide_eq_true in Hkn. destruct (Hc c eq_refl) as [_ Hsound].
      by eapply Hsound. }
    destruct Hlet as [(_ & -> & ->)|[Hgate ->]].
    { split; [|done]. intros h Hh. apply Hknown; [done|]. apply not_elem_of_nil. }
    assert (∀ h, h ∈ sample f' hosts → passes w1 h) as Hall.
    { intros h Hh. destruct (decide (h ∈ todo)) as [Ht|Ht]; [|by apply Hknown].
      by eapply (gate_accepts _ _ Hg). }
    split; [done|]. intros c' Hrec.
    destruct (tx_verdicts st) as [c|] eqn:Hv; [|by destruct keys].
    destruct (Hc c eq_refl) as [Hwf Hsound].
    destruct (record_wf c keys c' Hwf Hrec) as (Hwf' & _ & Hin). split; [done|].
    intros sk w f src h k Hs1 Hs2 He Hk Hkin. destruct (Hin k Hkin) as [Hkc|Hkk]; [by eapply Hsound|].
    destruct (Hkeys k Hkk) as (src' & h' & Hs' & Hh' & Hk').
    destruct (Hsk src' Hs') as (sk' & Hsk1 & Hsk2). rewrite Hs1 in Hsk1. injection Hsk1 as <-.
    eapply (passes_by_key _ _ Hg sk w1 w f' f src' src h' h k); try done. by apply Hall.
Qed.

(** The active devices an edit answers for: those of its blast radius, the
    whole fleet for an unbounded one. *)
Definition radius (f : Fleet) (hosts : list string) : list string :=
    match hosts with [] => active_tags f | _ => keep_if (λ t, t ∈? active_tags f) hosts end.

Lemma sample_cover f hosts t :
    t ∈ radius f hosts → ∃ h, h ∈ sample f hosts ∧ same_shape f h t.
Proof.
    unfold radius, sample. destruct hosts as [|h0 hosts].
    - intros Ht. by apply (samples_cover _ _ _ (Representatives_samples f)).
    - intros Ht. destruct (decide (1 < length (h0 :: hosts))%nat) as [Hl|Hl].
      + by apply (samples_cover _ _ _ (SampleHosts_samples f _ Hl)).
      + unfold SampleHosts. destruct (Nat.leb_spec (length (h0 :: hosts)) 1); [|lia].
        exists t. split; [|done]. by apply elem_of_keep_if in Ht as [? _].
Qed.

Lemma failed_let_through gate msg a hosts st e st' passes :
    gate_laws gate passes → cache_sound passes (tx_verdicts st) →
    failed gate msg a hosts st e st' → cache_sound passes (tx_verdicts st').
Proof.
    intros Hg Hc [_ _ Hv|_ Hv|f' next w1 _ Henc Hw Hlet _]; [by rewrite Hv|by rewrite Hv|].
    eapply let_through_sound; [done|done| |done].
    apply write_law in Hw as (_ & _ & Ht). by rewrite Ht.
Qed.

(** ** Properties *)

(** C39. An edit is all or nothing in git: a transaction that returns an error
    adds no commit here or on the remote, and one that succeeds adds none when
    the document did not change and otherwise exactly one, carrying the
    mutated document, which the gate or its memory let through first.  An
    error of the mutation, of the codec - reading the document or writing the
    new one - or of the gate also leaves the working tree and the memory of the
    gate as they were. *)
Theorem transaction_all_or_nothing gate mut msg a hosts st r st' :
    applyTx gate mut msg a hosts st = (r, st') →
    remote (repo st') = remote (repo st) ∧
    match r with
    | Ok f' => committed gate mut msg a hosts st f' st'
    | Err e => history (repo st') = history (repo st) ∧
        (match e with DecodeE _ | MutateE _ | EncodeE _ | GateE _ => True | _ => False end →
         tree (repo st') = tree (repo st) ∧ tx_verdicts st' = tx_verdicts st)
    end.
Proof.
    intros Htx. apply applyTx_spec in Htx as [Hr Htx]. split; [done|]. destruct r as [f'|e]; [done|].
    destruct Htx as [Hh Hf]. split; [done|].
    destruct Hf as [_ Ht Hv|Hbad _|f' next w1 Hbad _ _ _ _]; [done|..]; by destruct e.
Qed.

(** C3. No writer's commit is lost: when a direct write with a remote succeeds,
    the mutation ran on the document of the remote's head as it was when the
    commit landed, whatever other writers pushed during the earlier attempts;
    the remote is exactly that history with at most the one new commit on top,
    carrying the mutated document, which is what readers now see.  And no
    outcome ever drops a commit of the remote. *)
Theorem write_loses_no_commit gate mut msg a hosts s r s' (Hremote : HasRemote = true) :
    Apply gate mut msg a hosts s = (r, s') →
    remote (repo (cs_tx s)) `suffix_of` remote (repo (cs_tx s')) ∧
    (r = Ok tt →
     ∃ base orig f next,
       remote (repo (cs_tx s)) `suffix_of` base ∧
       (∀ c l, base = c :: l → orig = c_doc c) ∧
       Decode orig = Ok f ∧ mut f = Ok (cs_Fleet s') ∧ Encode (cs_Fleet s') = Ok next ∧
       remote (repo (cs_tx s')) = if next ==? orig then base else mkCommit msg a next :: base).
Proof.
    unfold Apply, applyWithGate. rewrite Hremote. intros Ha. apply apply_retry_spec in Ha as [Hx Hl].
    split; [done|]. intros Hr. destruct (Hl Hr) as (st & st' & Hsuf & Hhd & Hc & Hrm).
    destruct Hc as [orig f Hread Hdec Hmut Henc ->|orig f next w1 Hread Hdec Hmut Henc Hne Hw Hlet Ht Hh];
      apply read_law in Hread as Hor.
    - exists (history (repo st)), orig, f, orig. split_and!; try done.
      + intros c l Hcl. rewrite Hor. by eapply Hhd.
      + by rewrite bool_decide_eq_true_2.
    - exists (history (repo st)), orig, f, next. split_and!; try done.
      + intros c l Hcl. rewrite Hor. by eapply Hhd.
      + rewrite bool_decide_eq_false_2 by done. congruence.
Qed.

(** C2. Remembering verdicts lets nothing through: with a gate whose verdict on
    a host depends only on what the memo key names, and a memory that holds
    only shapes that evaluate, an edit that is committed has an evaluating
    device of the same shape for every active device of its blast radius, just
    as if the whole sample had been evaluated; and whatever the outcome, the
    memory still holds only shapes that evaluate. *)
Theorem memoised_gate_is_sound gate passes mut msg a hosts st r st'
      (Hg : gate_laws gate passes) (Hc : cache_sound passes (tx_verdicts st)) :
    applyTx gate mut msg a hosts st = (r, st') →
    cache_sound passes (tx_verdicts st') ∧
    (∀ f', r = Ok f' → history (repo st') ≠ history (repo st) →
       ∃ w1, Encode f' = Ok (tree w1) ∧ tree w1 = tree (repo st') ∧
         ∀ t, t ∈ radius f' hosts → ∃ h, same_shape f' h t ∧ passes w1 h).
Proof.
    intros Htx. apply applyTx_spec in Htx as [_ Htx]. destruct r as [f'|e].
    - destruct Htx as [orig f _ _ _ _ ->|orig f next w1 _ _ _ Henc _ Hw Hlet Ht _]; [split; [done|naive_solver]|].
      apply write_law in Hw as (_ & _ & Htw). specialize (Htw eq_refl). subst next.
      destruct (let_through_sound _ _ _ _ _ _ _ Hg Hc Henc Hlet) as [Hall Hsound].
      split; [done|]. intros f1 [= <-] _. exists w1. split_and!; try done.
      intros t (h & Hh & Hs)%sample_cover. eauto.
    - split; [|done]. destruct Htx as [_ Hf]. by eapply failed_let_through.
Qed.
End safety.

(** ** A concrete repository

    A git repository as its texts and histories: [g_incoming] are the pushes of
    other writers that arrive before each network operation, [g_fail] the
    number of commits that will fail. *)

#[export] Instance Author_eq_dec : EqDecision Author.
Proof. solve_decision. Defined.
#[export] Instance Commit_eq_dec : EqDecision Commit.
Proof. solve_decision. Defined.

Record Git := mkGit {
  g_tree : string; g_hist : list Commit; g_remote : list Commit;
  g_incoming : list (list Commit); g_fail : nat
}.

Definition arrived (g : Git) : list Commit := default [] (head (g_incoming g)) ++ g_remote g.

Definition git_repo (has_remote memo : bool) : ConfigRepo Git := {|
  ReadFile name g := if name ==? FleetFile then Ok (g_tree g) else Err NotExist;
  WriteFile name s g :=
    (Ok tt, mkGit s (g_hist g) (g_remote g) (g_incoming g) (g_fail g));
  CommitFile m a name g :=
    match g_fail g with
    | S n => (Err "git commit: hook declined", mkGit (g_tree g) (g_hist g) (g_remote g) (g_incoming g) n)
    | O => (Ok tt, mkGit (g_tree g) (mkCommit m a (g_tree g) :: g_hist g) (g_remote g) (g_incoming g) O)
    end;
  HasRemote := has_remote;
  Sync g :=
    let r := arrived g in
    (Ok tt, mkGit match r with c :: _ => c_doc c | [] => g_tree g end r r (tail (g_incoming g)) (g_fail g));
  Push g :=
    let r := arrived g in
    if bool_decide (r `suffix_of` g_hist g)
    then (Ok tt, mkGit (g_tree g) (g_hist g) (g_hist g) (tail (g_incoming g)) (g_fail g))
    else (Err ErrConflict, mkGit (g_tree g) (g_hist g) r (tail (g_incoming g)) (g_fail g));
  SourceKey := if memo then Some (λ _ _, Ok "source") else None
|}.

Lemma suffix_of_mid (o r h : list Commit) : (o ++ r) `suffix_of` h → ∃ mine, h = mine ++ r.
Proof. intros [k ->]. exists (k ++ o). by rewrite app_assoc. Qed.

#[local] Program Instance git_laws hr memo : @RepoLaws Git (git_repo hr memo) := {|
  tree := g_tree; history := g_hist; remote := g_remote
|}.
Next Obligation. by intros hr memo w s [= <-]. Qed.
Next Obligation. by intros hr memo w s r w' [= <- <-]. Qed.
Next Obligation.
  intros hr memo m a w r w'. simpl. destruct (g_fail w); by intros [= <- <-].
Qed.
Next Obligation.
  intros hr memo w r w' [= <- <-]. simpl. split; [by eexists|]. intros _. split; [done|].
  intros c l ->. done.
Qed.
Next Obligation.
  intros hr memo w r w'. simpl. case_bool_decide as Hs; intros [= <- <-]; simpl.
  - split_and!; try done. by eapply suffix_of_mid.
  - split_and!; try done. by eexists.
Qed.

(** Two devices, one of which does not evaluate; the documents of the demo are
    numbered by their access bindings and by the setting of the good device. *)
Definition demo_binding : AccessBinding := {| b_Group := "ops"; b_Role := "viewer"; b_Scope := "org" |}.
Definition demo_device (hw : string) (set : bool) : Device :=
  zero_device <| Hardware := hw |>
    <| d_scope := if set then zero_scope <| sc_Settings := {["k" := VInt 1]} |> else zero_scope |>.
Definition demo_fleet (n : nat) (set : bool) : Fleet :=
  zero_fleet <| Devices := <["good" := demo_device "g" set]> {["bad" := demo_device "b" false]} |>
    <| Access := repeat demo_binding n |>.
Definition demo_doc (n : nat) (set : bool) : string := pretty n +:+ (if set then "+" else "-").

#[local] Instance demo_go_json : GoJson := {
  json_value v := Ok "1"; fmt_v v := "1"; fleet_fields f := Ok ∅; json_fields m := Ok "{}"
}.
#[local] Instance demo_print : Fingerprint := λ s, s.
#[local] Instance demo_codec : FleetJson := {
  unmarshal_probe b := Ok 3;
  unmarshal_doc b := Ok ∅;
  unmarshal_fleet b :=
    match List.find (λ p, demo_doc p.1 p.2 +:+ newline ==? b)
                    [(0, false); (0, true); (1, false); (1, true); (2, false)]%nat with
    | Some p => Ok (demo_fleet p.1 p.2)
    | None => Err "parse"
    end;
  marshal_doc d := Ok "";
  marshal_fleet f :=
    Ok (demo_doc (length (Access f)) (bool_decide (is_Some (sc_Settings (d_scope (dev f "good")) !! "k"))))
}.
#[local] Instance demo_parsers : OverlayParsers := {
  Catalog := unit; HardwareProfiles := unit; ProfileSet := unit; Bundles := unit;
  ParseCatalog _ := Ok tt; ParseHardwareProfiles _ := Ok tt; ParseProfileSet _ := Ok tt;
  ParseBundles _ := Ok tt
}.

Definition demo_author : Author := mkAuthor "u" "User" "u@x".
Definition demo_edit : Mutation := SetScopeSetting "device:good" "k" (VInt 1).
Definition demo_grant : Mutation := Grant demo_binding.
Definition demo_gate : Gate Git := λ _ todo,
  if (todo ==? []) || ("bad" ∈? todo) then Some "bad does not evaluate" else None.
Definition demo_git (incoming : list (list Commit)) (fail : nat) : Git :=
  mkGit (demo_doc 0 false +:+ newline) [] [] incoming fail.
Definition demo_service (g : Git) : ConfigService Git :=
  mkService (mkTx g (Some newVerdictCache)) (mkSnapshot _ (demo_fleet 0 false) tt tt tt tt).

(** *** A repository without a remote *)
Definition git_local : ConfigRepo Git := git_repo false true.
Definition git_unkeyed : ConfigRepo Git := git_repo false false.
Definition git_remote : ConfigRepo Git := git_repo true true.

Section local_repo.
  #[local] Existing Instance git_local.

Definition run_tx (gate : Gate Git) (mut : Mutation) (g : Git) : res TxErr Fleet * Tx Git :=
    applyTx gate mut "edit" demo_author [] (mkTx g (Some newVerdictCache)).

Lemma transaction_all_or_nothing_witness :
    ∃ e st', run_tx demo_gate demo_edit (demo_git [] 0) = (Err (GateE e), st') ∧
             g_tree (tx_repo st') = demo_doc 0 false +:+ newline ∧ g_hist (tx_repo st') = [].
Proof.
    destruct (run_tx demo_gate demo_edit (demo_git [] 0)) as [[f|[]] st'] eqn:Hrun;
      try (apply (f_equal fst) in Hrun; vm_compute in Hrun; discriminate Hrun).
    eexists _, st'. split; [reflexivity|].
    destruct (@transaction_all_or_nothing Git git_local (git_laws false true) _ _ _
                demo_gate demo_edit "edit" demo_author [] _ _ st' Hrun) as [_ [Hh Hclean]].
    destruct (Hclean I) as [Ht _]. split; [exact Ht|exact Hh].
Defined.

(** A structural write blinds the memoised gate: [ApplyStructural] runs no
    evaluation, yet it records every shape of the fleet as accepted.  On a
    fleet with a device that does not evaluate, an edit validated against the
    whole fleet is refused; after an unrelated access grant (structural) the
    same edit is committed, and the gate is never asked about that device. *)
Theorem structural_write_blinds_the_gate :
    let s0 := demo_service (demo_git [] 0) in
    fst (Apply demo_gate demo_edit "edit" demo_author [] s0) = Err (GateE "bad does not evaluate") ∧
    let '(r1, s1) := ApplyStructural demo_grant "grant" demo_author s0 in
    let '(r2, s2) := Apply demo_gate demo_edit "edit" demo_author [] s1 in
    r1 = Ok tt ∧ r2 = Ok tt ∧ length (g_hist (tx_repo (cs_tx s2))) = 2%nat ∧
    "bad" ∈ active_tags (cs_Fleet s2) ∧
    demo_gate (tx_repo (cs_tx s2)) ["bad"] ≠ None.
Proof. split; [vm_compute; reflexivity|]. vm_compute. split_and!; try done. left. Qed.

(** A commit that fails hides the edit: the file keeps the edit that git
    did not take, so the same edit made again finds nothing to change and is
    reported as done, although no commit was ever made. *)
Theorem failed_commit_then_false_success :
    let s0 := demo_service (demo_git [] 1) in
    let '(r1, s1) := Apply passGate demo_edit "edit" demo_author [] s0 in
    let '(r2, s2) := Apply passGate demo_edit "edit" demo_author [] s1 in
    r1 = Err (CommitE "git commit: hook declined") ∧ r2 = Ok tt ∧
    g_hist (tx_repo (cs_tx s2)) = [] ∧ cs_Fleet s1 = demo_fleet 0 false.
Proof. vm_compute. done. Qed.
End local_repo.

(** *** A memory that is used

    A codec that writes the demo fleets only, and a gate that evaluates a host by
    its shape: the machines of hardware [g] evaluate, the others do not. *)
Section memo.
  #[local] Existing Instance git_local.

Definition demo_numbers : list (nat * bool) := [(0, false); (0, true); (1, false); (1, true); (2, false)]%nat.
Definition numbered (p : nat * bool) : Fleet := demo_fleet p.1 p.2.
Definition numbered_doc (p : nat * bool) : string := demo_doc p.1 p.2 +:+ newline.

Definition same_keys (f g : Fleet) : bool :=
    (length (Access f) =? length (Access g))%nat &&
    forallb (λ h, host_key f "source" h ==? host_key g "source" h) ((map_to_list (Devices f)).*1 ++ (map_to_list (Devices g)).*1).

#[local] Instance memo_codec : FleetJson := {
  unmarshal_probe b := Ok 3;
  unmarshal_doc b := Ok ∅;
  unmarshal_fleet b := match List.find (λ p, numbered_doc p ==? b) demo_numbers with Some p => Ok (numbered p) | None => Err "parse" end;
  marshal_doc d := Ok "";
  marshal_fleet f := match List.find (λ p, same_keys f (numbered p)) demo_numbers with
                     | Some p => Ok (demo_doc p.1 p.2) | None => Err "no such fleet" end
}.

Definition evaluates (p : nat * bool) (h : string) : bool :=
    match host_key (numbered p) "source" h with Some k => contains k "hw=g" | None => false end.
Definition memo_passes (g : Git) (h : string) : Prop :=
    ∃ p, p ∈ demo_numbers ∧ numbered_doc p = g_tree g ∧ evaluates p h = true.
Definition memo_gate : Gate Git := λ g todo,
    match List.find (λ p, numbered_doc p ==? g_tree g) demo_numbers with
    | Some p => if forallb (evaluates p) todo && negb (todo ==? []) then None else Some "a host does not evaluate"
    | None => Some "no such fleet"
    end.

Lemma same_keys_host f g h : same_keys f g = true → host_key f "source" h = host_key g "source" h.
Proof.
    intros [_ Hk]%andb_true_iff. rewrite forallb_forall in Hk.
    assert (Hnone : ∀ e : Fleet, Devices e !! h = None → host_key e "source" h = None).
    { intros e He. unfold host_key, ClassKeyOf. by rewrite He. }
    destruct (decide (is_Some (Devices f !! h) ∨ is_Some (Devices g !! h))) as [Hin|Hno].
    - refine (bool_decide_eq_true_1 _ (Hk h _)). apply list_elem_of_In, elem_of_app.
      destruct Hin as [[d Hd]|[d Hd]]; [left|right]; apply list_elem_of_fmap; exists (h, d); by rewrite elem_of_map_to_list.
    - rewrite !Hnone; [done|apply eq_None_not_Some; tauto..].
Qed.

Lemma numbered_inj p q : p ∈ demo_numbers → q ∈ demo_numbers → numbered_doc p = numbered_doc q → p = q.
Proof.
    unfold demo_numbers. intros Hp Hq.
    repeat (apply elem_of_cons in Hp as [->|Hp]; [|]); [..|by apply elem_of_nil in Hp];
      repeat (apply elem_of_cons in Hq as [->|Hq]; [|]); try (by apply elem_of_nil in Hq); vm_compute; congruence.
Qed.

Lemma memo_encode f d : Encode f = Ok d → ∃ p, p ∈ demo_numbers ∧ numbered_doc p = d ∧ same_keys f (numbered p) = true.
Proof.
    unfold Encode. cbn [marshal_fleet memo_codec].
    destruct (List.find (λ p, same_keys f (numbered p)) demo_numbers) as [p|] eqn:Hf; [|done]. intros [= <-].
    apply find_some in Hf as [Hin Hs]. exists p. split; [by apply list_elem_of_In|]. by split.
Qed.

Lemma memo_gate_laws : gate_laws memo_gate memo_passes.
Proof.
    split.
    - intros w todo h. unfold memo_gate. destruct (List.find (λ p, numbered_doc p ==? g_tree w) demo_numbers) as [p|] eqn:Hf; [|done].
      destruct (forallb (evaluates p) todo) eqn:Hall; [|done]. intros _ Hh. apply find_some in Hf as [Hin Hd]. exists p.
      rewrite forallb_forall in Hall. split_and!; [by apply list_elem_of_In|exact (bool_decide_eq_true_1 _ Hd)|].
      by apply Hall, list_elem_of_In.
    - intros sk w w' f f' src src' h h' k [= <-] [= <-] [= <-] Hf Hf' Hk Hk' (p & Hp & Hd & He).
      apply memo_encode in Hf as (q & Hq & Hdq & Hs), Hf' as (q' & Hq' & Hdq' & Hs').
      assert (p = q) as -> by (apply numbered_inj; [done..|]; etrans; [exact Hd|by symmetry]).
      exists q'. split_and!; [done..|]. unfold evaluates in *.
      rewrite <- (same_keys_host _ _ h' Hs'), Hk'. by rewrite <- (same_keys_host _ _ h Hs), Hk in He.
Qed.

Lemma new_cache_sound (passes : Git → string → Prop) : cache_sound passes (Some newVerdictCache).
Proof.
    intros c [= <-]. split; [split; [|constructor]|].
    - intros k. simpl. rewrite elem_of_nil. set_solver.
    - intros sk w f src h k _ _ _ _ Hk. simpl in Hk. set_solver.
Qed.

(** Two edits of the good device, one after the other: a setting, evaluated, and
    a grant, which its memory answers. *)
Definition memo_start : Tx Git := mkTx (mkGit (numbered_doc (0%nat, false)) [] [] [] 0) (Some newVerdictCache).
Definition memo_first : Tx Git := (applyTx memo_gate demo_edit "edit" demo_author ["good"] memo_start).2.
Definition memo_second : Tx Git := (applyTx memo_gate demo_grant "grant" demo_author ["good"] memo_first).2.

(** The first edit is evaluated and remembered; the second is committed from that
    memory, without the gate; and what the memory holds then is sound: the good
    device evaluates in the committed tree, while the other one is refused. *)
Lemma memoised_gate_is_sound_witness :
    (partition_now (numbered (1%nat, true)) ["good"] (mkTx (tx_repo memo_second) (tx_verdicts memo_first))).1 = [] ∧
    length (g_hist (tx_repo memo_second)) = 2%nat ∧
    (∃ w1 h, g_tree w1 = numbered_doc (1%nat, true) ∧ same_shape (numbered (1%nat, true)) h "good" ∧ memo_passes w1 h) ∧
    cache_sound memo_passes (tx_verdicts memo_second) ∧
    (applyTx memo_gate demo_edit "edit" demo_author [] memo_start).1 = Err (GateE "a host does not evaluate").
Proof.
    split; [vm_compute; reflexivity|]. split; [vm_compute; reflexivity|].
    assert (Hs1 : cache_sound memo_passes (tx_verdicts memo_first)).
    { destruct (applyTx memo_gate demo_edit "edit" demo_author ["good"] memo_start) as [r st'] eqn:Hrun.
      unfold memo_first. rewrite Hrun.
      exact (proj1 (memoised_gate_is_sound memo_gate memo_passes demo_edit "edit" demo_author ["good"] memo_start r st'
        memo_gate_laws (new_cache_sound _) Hrun)). }
    assert (Hrun : applyTx memo_gate demo_grant "grant" demo_author ["good"] memo_first = (Ok (numbered (1%nat, true)), memo_second))
      by (vm_compute; reflexivity).
    destruct (memoised_gate_is_sound memo_gate memo_passes demo_grant "grant" demo_author ["good"] memo_first _ memo_second
      memo_gate_laws Hs1 Hrun) as [Hs2 Hall].
    split; [|split; [exact Hs2|vm_compute; reflexivity]].
    destruct (Hall _ eq_refl) as (w1 & Henc & _ & Hcov).
    { vm_compute. discriminate. }
    destruct (Hcov "good") as (h & Hsh & Hp); [apply (bool_decide_unpack _); vm_compute; exact I|].
    exists w1, h. split; [|split; [exact Hsh|exact Hp]].
    vm_compute in Henc. injection Henc as Henc. exact (eq_sym Henc).
Defined.
End memo.

(** *** A remote with another writer *)
Section remote_repo.
  #[local] Existing Instance git_remote.

Definition rival : Commit := mkCommit "rival" demo_author (demo_doc 1 false +:+ newline).

(** Another writer's commit arrives between the sync and the push: the edit is
    made again on top of it. *)
Lemma write_loses_no_commit_witness :
    let s := demo_service (demo_git [[]; [rival]] 0) in
    ∃ r s' base orig, Apply passGate demo_edit "edit" demo_author [] s = (r, s') ∧ r = Ok tt ∧
      base = [rival] ∧ orig = demo_doc 1 false +:+ newline ∧
      g_remote (tx_repo (cs_tx s')) =
        if (demo_doc 1 true +:+ newline) ==? orig then base
        else mkCommit "edit" demo_author (demo_doc 1 true +:+ newline) :: base.
Proof.
    intros s. destruct (Apply passGate demo_edit "edit" demo_author [] s) as [r s'] eqn:Hrun.
    assert (r = Ok tt) as -> by (apply (f_equal fst) in Hrun; vm_compute in Hrun; congruence).
    assert (s' = snd (Apply passGate demo_edit "edit" demo_author [] s)) as Hs' by (by rewrite Hrun).
    destruct (proj2 (@write_loses_no_commit Git git_remote (git_laws true true) _ _ _ _
      passGate demo_edit "edit" demo_author [] s _ s' eq_refl Hrun) eq_refl)
      as (base & orig & f & next & _ & Hhd & _ & _ & Hnext & Hr).
    exists (Ok tt), s', [rival], (demo_doc 1 false +:+ newline).
    do 4 (split; [reflexivity|]). rewrite Hs'. vm_compute. reflexivity.
Defined.
End remote_repo.
