(* ===== verification/Radius.v ===== *)
(** * The blast radius of an edit (src/internal/app/hosts.go)

    [AffectedHosts] names the devices a scoped edit can change: the gate
    evaluates a sample of these only. *)

From S2P Require Import Prelude GoLib FleetModel Groups Filters Resolve Mutate Apps ScopeEdits Classes Document ConfigTx.

Lemma AffectedHosts_group f g tag :
  tag ∈ AffectedHosts f (group_ref g) ↔
  ∃ d, Devices f !! tag = Some d ∧ Retired d = false ∧ reaches f (Groups d) g.
Proof.
  unfold AffectedHosts. change (cut_prefix (group_ref g) "device:") with (@None string).
  rewrite cut_group_ref, elem_of_keys_where. unfold reaches.
  split; intros (d & Hd & H); exists d; (split; [done|]).
  - apply andb_true_iff in H as [Hr He]. split; [by destruct (Retired d)|].
    apply existsb_exists in He as (dg & Hin & Hm). exists dg.
    split; [by apply list_elem_of_In|by apply bool_decide_eq_true in Hm].
  - destruct H as (Hr & dg & Hin & Hm). apply andb_true_iff. split; [by rewrite Hr|].
    apply existsb_exists. exists dg. split; [by apply list_elem_of_In|by apply bool_decide_eq_true].
Qed.

Lemma AffectedHosts_device f t :
  AffectedHosts f (device_ref t) = if Retired (dev f t) then [] else [t].
Proof. unfold AffectedHosts, device_ref. by rewrite cut_prefix_app. Qed.

(** A device outside the radius of an edit of [ref]. *)
Definition unaffected (f : Fleet) (ref tag : string) : Prop :=
  ref ≠ "org" ∧ tag ∈ active_tags f ∧ tag ∉ AffectedHosts f ref.

Lemma unaffected_group f ref tag g :
  unaffected f ref tag → reaches f (Groups (dev f tag)) g → group_ref g ≠ ref.
Proof.
  intros (_ & Hin & Hout) Hr <-. apply Hout, AffectedHosts_group.
  apply elem_of_active_tags in Hin as (d & Hd & Hret). exists d. split_and!; [done|done|].
  unfold dev in Hr. by rewrite Hd in Hr.
Qed.

Lemma unaffected_device f ref tag : unaffected f ref tag → device_ref tag ≠ ref.
Proof.
  intros (_ & Hin & Hout) <-. apply Hout. rewrite AffectedHosts_device.
  apply elem_of_active_tags in Hin as (d & Hd & Hret). unfold dev. rewrite Hd. simpl. rewrite Hret. left.
Qed.

Lemma unaffected_not_edited f ref tag c : unaffected f ref tag → ¬ edited ref f tag c.
Proof.
  intros Hu [_ Hp]. apply assignmentPosition_spec in Hp.
  destruct Hp as [|i a Hi|]; [by destruct Hu as [? _]| |].
  - eapply (unaffected_group _ _ _ a); [done| |done].
    apply elem_of_scope_order. by eapply list_elem_of_lookup_2.
  - by eapply unaffected_device.
Qed.

Section frame.
  Context (ref : string) (f f' : Fleet) (Hfr : scope_frame ref f f') (tag : string).
  Context (Hu : unaffected f ref tag).

Lemma unaffected_same_device : dev f' tag = dev f tag.
Proof. unfold dev. rewrite (sf_device _ _ _ Hfr); [done|]. by eapply unaffected_device. Qed.

Lemma unaffected_Resolve : Resolve f' tag = Resolve f tag.
Proof.
    apply Resolve_ext. intros c. split; intros Hc.
    - destruct (contributes_edit ref f' f (scope_frame_sym _ _ _ Hfr) tag c Hc) as [?|He]; [done|].
      apply (edited_sym _ _ _ _ _ Hfr) in He. by destruct (unaffected_not_edited _ _ _ _ Hu He).
    - destruct (contributes_edit ref f f' Hfr tag c Hc) as [?|He]; [done|].
      by destruct (unaffected_not_edited _ _ _ _ Hu He).
Qed.

Lemma unaffected_ancestry g : GroupAncestry f' g = GroupAncestry f g.
Proof. symmetry. eapply ancestry_same_parents, frame_parents, Hfr. Qed.

Lemma unaffected_grp g a : g ∈ Groups (dev f tag) → a ∈ GroupAncestry f g → grp f' a = grp f a.
Proof.
    intros Hg Ha. unfold grp. rewrite (sf_group _ _ _ Hfr); [done|].
    eapply unaffected_group; [exact Hu|]. by exists g.
Qed.

Lemma unaffected_ResolveApps : ResolveApps f' tag = ResolveApps f tag.
Proof.
    assert (app_scopes f' tag = app_scopes f tag) as Heq; [|by unfold ResolveApps; rewrite Heq].
    unfold app_scopes. rewrite unaffected_same_device. f_equal; [|f_equal].
    - unfold org_scope. rewrite (sf_org _ _ _ Hfr); [done|]. by destruct Hu.
    - pose proof unaffected_grp as Hgrp. revert Hgrp. generalize (Groups (dev f tag)) as gs.
      induction gs as [|g gs IH]; intros Hgrp; [done|]. rewrite !bind_cons, unaffected_ancestry. f_equal.
      + apply list_fmap_ext. intros i a Ha. rewrite (Hgrp g a); [done|left|by eapply list_elem_of_lookup_2].
      + apply IH. intros g' a Hg'. apply Hgrp. by right.
Qed.

Lemma unaffected_shape `{GoJson} : shape_text f' tag (dev f' tag) = shape_text f tag (dev f tag).
Proof.
    unfold shape_text, ResolveSorted. rewrite unaffected_ResolveApps, unaffected_Resolve, unaffected_same_device.
    destruct (ResolveApps f tag) as [[pkgs flats] ovs].
    assert (shape_groups f' (dev f tag) = shape_groups f (dev f tag)) as ->.
    { unfold shape_groups. do 3 f_equal. apply list_bind_ext; [|done]. intros g. apply unaffected_ancestry. }
    rewrite (map_ext_in _ (λ g, "g:" +:+ g +:+ ";pin=" +:+ g_Pin (grp f g) +:+ nl)); [done|].
    intros g Hg%list_elem_of_In. do 3 f_equal.
    unfold shape_groups in Hg. rewrite elem_of_sort_strings, elem_of_elements, elem_of_list_to_set in Hg.
    apply list_elem_of_bind in Hg as (g0 & Hg & Hg0). rewrite (unaffected_grp g0 g); done.
Qed.
End frame.

(** The blast radius is sound: after any edit of one scope (its settings,
    locks, acceptances or applications), an active device outside
    [AffectedHosts] of that scope resolves the same settings and applications
    as before and keeps its configuration shape, so evaluating only the radius
    loses nothing. *)
Theorem blast_radius_sound `{GoJson, Fingerprint} ref edit f f' tag
    (Hedit : with_scope ref edit f = Ok f') (Hu : unaffected f ref tag) :
  Resolve f' tag = Resolve f tag ∧ ResolveApps f' tag = ResolveApps f tag ∧
  ClassKeyOf f' tag = ClassKeyOf f tag.
Proof.
  apply with_scope_Ok in Hedit as (s & s' & _ & _ & _ & Hfr).
  split_and!; [by eapply unaffected_Resolve|by eapply unaffected_ResolveApps|].
  unfold ClassKeyOf, classKey. pose proof (unaffected_shape ref f f' Hfr tag Hu) as Hs.
  unfold dev in Hs. rewrite (sf_device _ _ _ Hfr) in * by (by eapply unaffected_device).
  destruct (Devices f !! tag) as [d|]; [|done]. simpl in Hs. by rewrite Hs.
Qed.

Definition demo_sites : Fleet :=
  zero_fleet <| f_Groups := <["a" := zero_group]> {["b" := zero_group]} |>
    <| Devices := <["d1" := zero_device <| Groups := ["a"] |>]> {["d2" := zero_device <| Groups := ["b"] |>]} |>.

Lemma blast_radius_sound_witness :
  ∃ f', SetScopeSetting "group:a" "k" (VInt 1) demo_sites = Ok f' ∧
    Resolve f' "d2" = Resolve demo_sites "d2" ∧ Resolve f' "d1" !! "k" ≠ None.
Proof.
  destruct (SetScopeSetting "group:a" "k" (VInt 1) demo_sites) as [f'|e] eqn:H; [|vm_compute in H; discriminate H].
  exists f'. split; [reflexivity|]. split.
  - refine (proj1 (@blast_radius_sound
      {| json_value v := Ok "1"; fmt_v v := "1"; fleet_fields f := Ok ∅; json_fields m := Ok "{}" |}
      (λ s, s) "group:a" _ demo_sites f' "d2" H _)).
    split; [done|]. split; [apply (bool_decide_unpack _); vm_compute; exact I|].
    apply (bool_decide_unpack _); vm_compute; exact I.
  - assert (f' = match SetScopeSetting "group:a" "k" (VInt 1) demo_sites with
                 | Ok f => f | Err _ => zero_fleet end) as -> by (by rewrite H).
    vm_compute. discriminate.
Defined.
