(* ===== verification/Engine.v ===== *)
(** * The rollout engine (src/internal/app/rollout.go, autorollout.go)

    The service around [Rollout.Decide]: its tick, the operator's actions, the
    ring branches and the automatic start.  The engine reads and edits the fleet
    only through the configuration service ([ConfigTx]). *)

From S2P Require Import Prelude GoLib FleetModel Groups Resolve Apps Mutate DeviceOps Classes Verdicts Document ConfigTx Rollout.

(** ** The ports the engine observes *)

Inductive BuildPhase := BuildBuilding | BuildDone | BuildFailed.
Record BuildState := mkBuild { Phase : BuildPhase; b_Detail : string }.
Record AuditEntry := mkEntry { Hash : string; e_Author : string; Subject : string }.

(** What the ports answer during one call.  [refs] is whether the update funnel
    is wired, [builder] the release builder when there is one. *)
Record Env (W : Type) := mkEnv {
  now : Time;
  get_err : option string;
  put_err : option string;
  conv : list string → string → res string RingStatus;
  builder : option (string → list string → res string BuildState);
  refs : bool;
  set_ref_err : string → string → option string;
  push_ref_err : string → option string;
  head_rev : res string string;
  audit_log : nat → res string (list AuditEntry);
  gate : Gate W
}.
Arguments now {W}. Arguments get_err {W}. Arguments put_err {W}. Arguments conv {W}.
Arguments builder {W}. Arguments refs {W}. Arguments set_ref_err {W}. Arguments push_ref_err {W}.
Arguments head_rev {W}. Arguments audit_log {W}. Arguments gate {W}. Arguments mkEnv {W}.

Inductive BellItem :=
  | RolloutDoneBell (audience target : string)
  | RiskHoldBell (audience subject : string)
  | DeliveryWaitsBell (audience change : string)
  | DeliveryStartedBell (audience title : string).

Inductive EngErr :=
  | StoreE (e : string) | NoRings | RingNamesUnknownGroup (g : string)
  | ConvE (e : string) | PinE (e : TxErr) | CohortE (tag : string) (e : TxErr)
  | RefE (branch e : string) | HeadE (e : string) | AuditE (e : string)
  | NeedsTarget | UnknownScopeGroup (g : string) | AlreadyActive (target : string)
  | NothingToCancel | NoActiveRun | NoActiveToPause | NoPausedRun.

(** What the engine owns: the configuration service, the stored run, the ring
    branches here and on the remote, the risk marker last reported and the
    notifications sent. *)
Record Engine `{OverlayParsers} (W : Type) := mkEngine {
  en_cfg : ConfigService W;
  en_run : option State;
  en_local : gmap string string;
  en_remote : gmap string string;
  riskHoldNotified : string;
  en_audience : list string;
  en_bell : list BellItem
}.
Arguments mkEngine {_ W}. Arguments en_cfg {_ W}. Arguments en_run {_ W}. Arguments en_local {_ W}.
Arguments en_remote {_ W}. Arguments riskHoldNotified {_ W}. Arguments en_audience {_ W}.
Arguments en_bell {_ W}.
#[export] Instance Engine_eta `{OverlayParsers} W : Eta (Engine W) := fun r => mkEngine
  (en_cfg r) (en_run r) (en_local r) (en_remote r) (riskHoldNotified r) (en_audience r) (en_bell r).

Definition engineAuthorName : string := "sextant-rollout".
Definition agentAuthorName : string := "sextant-agent".
Definition engineAuthor : Author := mkAuthor "" engineAuthorName "rollout@sextant".
Definition isMachineAuthor (name : string) : bool :=
  (name ==? engineAuthorName) || (name ==? agentAuthorName).

Definition RingBranch (group : string) : string := "rings/" +:+ group.
Definition RiskHighMarker : string := "[risk:high]".
Definition autoFlowLogDepth : nat := 200.
Definition expeditedSoak : Z := 5.

Definition ringFromFleet (r : RolloutRing) : Ring :=
  mkRgn (rr_Group r) (rr_Groups r) (rr_Name r) (rr_SoakMinutes r) (rr_MinHealthyPercent r)
    (rr_RequireApproval r) (rr_MinDevices r) (rr_MaxDevices r).

(** [planRings]: the configured plan, converted. *)
Definition planRings (f : Fleet) : res EngErr (list Ring) :=
  match Rollout f with
  | None => Err NoRings
  | Some p =>
      refuse Rings p ==? [] with NoRings;
      assert_none first_err (λ r, first_err (λ g,
          match f_Groups f !! g with None => Some (RingNamesUnknownGroup g) | Some _ => None end)
        (GroupList r)) (Rings p);
      Ok (map ringFromFleet (Rings p))
  end.

Definition runRings (f : Fleet) (st : option State) : res EngErr (list Ring) :=
  match st with
  | Some s => match s_Rings s with [] => planRings f | rings => Ok rings end
  | None => planRings f
  end.

(** [cohortFixup]. *)
Definition cohortFixup (f : Fleet) (rs : RingStatus) (ring : Ring) : RingStatus :=
  rs <| Released := Total rs |>
     <| GroupTotal := foldr Z.add 0 (map (λ g, Z.of_nat (length (ConvergingGroupDevices f g)))
                                       (RingGroupList ring)) |>.

(** *** The plan of one run ([StartWith]) *)

Record StartOpts := mkOpts {
  o_Groups : list string; Expedited : bool; o_ChangeID : string; o_ChangeTitle : string
}.

Definition scoped_rings (planned : list Ring) (groups : list string) : list Ring :=
  let test := default (mkRgn "" [] "" 0 0 false 0 0) (head planned) in
  match groups, RingGroupList test with
  | [g], [t] => if t ==? g then [test]
                else [test; mkRgn "" groups "" 30 0 false 0 0]
  | _, _ => [test; mkRgn "" groups "" 30 0 false 0 0]
  end.

Definition expedite (r : Ring) : Ring :=
  if (SoakMinutes r ==? 0) || (expeditedSoak <? SoakMinutes r) then r <| SoakMinutes := expeditedSoak |>
  else r.

Definition run_plan (f : Fleet) (opts : StartOpts) : res EngErr (list Ring) :=
  let! planned := planRings f in
  assert_none first_err (λ g, match f_Groups f !! g with
                              | None => Some (UnknownScopeGroup g) | Some _ => None end)
                        (o_Groups opts);
  let rings := match o_Groups opts with [] => planned | gs => scoped_rings planned gs end in
  Ok (if Expedited opts then map expedite rings else rings).

(** *** The damping walk *)

(** [promotedBaseline]: the pins of the ring groups, in plan order. *)
Definition ring_pins (f : Fleet) : list string :=
  match Rollout f with
  | None => []
  | Some p =>
      r ← Rings p; name ← GroupList r;
      match f_Groups f !! name with
      | Some g => if g_Pin g !=? "" then [g_Pin g] else []
      | None => []
      end
  end.

Definition baseline (f : Fleet) : string := default "" (head (ring_pins f)).
Definition atHead (f : Fleet) (rev : string) : bool := forallb (λ p, p ==? rev) (ring_pins f).

Record autoFlowScan := mkScan { roll : bool; riskHash : string; riskSubject : string }.

Fixpoint scan_log (base : string) (entries : list AuditEntry) (scan : autoFlowScan) : autoFlowScan :=
  match entries with
  | [] => mkScan true (riskHash scan) (riskSubject scan)
  | e :: entries =>
      if Hash e ==? base then scan
      else if isMachineAuthor (e_Author e) then scan_log base entries scan
      else scan_log base entries
             (if (riskHash scan ==? "") && contains (Subject e) RiskHighMarker
              then mkScan true (Hash e) (Subject e)
              else mkScan true (riskHash scan) (riskSubject scan))
  end.

(** *** The blast radius of a merged change (autorollout.go) *)

Definition deliveryGroups (f : Fleet) (hosts : list string) : list string :=
  sort_strings (elements (list_to_set
    (h ← hosts; match Devices f !! h with
                | Some d => match Groups d with g :: _ => [g] | [] => [] end
                | None => [] end) : gset string)).

Section engine.
  Context {W : Type} `{ConfigRepo W, GoJson, Fingerprint, FleetJson, OverlayParsers}.
  Context (env : Env W).

Notation M A := (SE (Engine W) EngErr A).

Definition the_fleet (s : Engine W) : Fleet := cs_Fleet (en_cfg s).

(** ** Ports *)

Definition store_get : M (option State) := λ s,
    match get_err env with Some e => (Err (StoreE e), s) | None => (Ok (en_run s), s) end.

Definition store_put (st : State) : M unit := λ s,
    match put_err env with
    | Some e => (Err (StoreE e), s)
    | None => (Ok tt, s <| en_run := Some st |>)
    end.

(** [s.cfg.Apply] with the engine as the author. *)
Definition cfg_apply (k : TxErr → EngErr) (mut : Mutation) (msg : string) (hosts : list string) : M unit := λ s,
    let '(r, c) := Apply (gate env) mut msg engineAuthor hosts (en_cfg s) in
    (lift_err k r, s <| en_cfg := c |>).

Definition bell (items : string → BellItem) : M unit :=
    se_modify (λ s, s <| en_bell ::= λ l, l ++ map items (en_audience s) |>).

(** ** Ring branches *)

Definition SetRef (name rev : string) : M bool := λ s,
    match set_ref_err env name rev with
    | Some e => (Err (RefE name e), s)
    | None => (Ok (negb (en_local s !! name ==? Some rev)), s <| en_local ::= <[name := rev]> |>)
    end.

Definition PushRef (name : string) : M unit := λ s,
    match push_ref_err env name with
    | Some e => (Err (RefE name e), s)
    | None => (Ok tt, s <| en_remote ::= partial_alter (λ _, en_local s !! name) name |>)
    end.

Definition moveRingRef (group rev : string) : M unit :=
    do! changed <- SetRef (RingBranch group) rev;
    PushRef (RingBranch group).

(** ** The waves *)

Definition pin_message (i : nat) (g target : string) : string :=
    "rollout: pin ring " +:+ pretty i +:+ " (" +:+ g +:+ ") to " +:+ target.

Definition pin_group (i : nat) (target g : string) : M unit :=
    do! f <- se_get the_fleet;
    cfg_apply PinE (SetGroupPin g target) (pin_message i g target) (AffectedHosts f (group_ref g)).

Definition release_device (g tag : string) : M unit :=
    cfg_apply (CohortE tag) (SetDevicePin tag g)
      ("rollout: release " +:+ tag +:+ " into wave " +:+ g +:+ " cohort") [tag].

(** The slice [active[released:next]] of a group. *)
Definition next_cohort (f : Fleet) (ring : Ring) (g : string) : list string :=
    let active := ConvergingGroupDevices f g in
    let released := length (ReleasedGroupDevices f g) in
    let next := NextRelease ring (Z.of_nat (length active)) (Z.of_nat released) in
    take (Z.to_nat next - released) (drop released active).

Definition releaseCohort (ring : Ring) : M unit :=
    if MaxDevices ring <=? 0 then se_ret tt else
    do! f <- se_get the_fleet;
    se_each (λ g, se_each (release_device g) (next_cohort f ring g)) (RingGroupList ring).

(** [ensureRingBuilt]: whether the promotion may proceed, and the run. *)
Definition ensureRingBuilt (f : Fleet) (st : State) (ring : Ring) : bool * State :=
    match builder env with
    | None => (true, st)
    | Some ensure =>
        match g ← RingGroupList ring; ActiveGroupDevices f g with
        | [] => (true, st)
        | hosts =>
            match ensure (s_Target st) hosts with
            | Err _ => (false, st)
            | Ok bs =>
                match Phase bs with
                | BuildDone => (true, st <| BuildRequestedAt ::= delete (s_Ring st) |>)
                | BuildFailed =>
                    (false, st <| Status := Halted |> <| s_Reason := BuildFailedReason (b_Detail bs) |>)
                | BuildBuilding =>
                    (false, match BuildRequestedAt st !! s_Ring st with
                            | Some _ => st
                            | None => st <| BuildRequestedAt ::= <[s_Ring st := now env]> |>
                            end)
                end
            end
        end
    end.

(** ** The tick *)

(** What [Decide] is told about the current ring: nothing before it is
    promoted. *)
Definition observe (f : Fleet) (rings : list Ring) (st : State) : res EngErr RingStatus :=
    match PromotedAt st !! s_Ring st, rings !! s_Ring st with
    | Some _, Some ring =>
        let! rs := lift_err ConvE (conv env (RingGroupList ring) (s_Target st)) in
        Ok (cohortFixup f rs ring)
    | _, _ => Ok zero_status
    end.

(** The effects of a promotion: pins, cohort, branches. *)
Definition promote (st : State) (ring : Ring) : M unit :=
    run! se_each (pin_group (s_Ring st) (s_Target st)) (RingGroupList ring);
    run! releaseCohort ring;
    if refs env then se_each (λ g, moveRingRef g (s_Target st)) (RingGroupList ring) else se_ret tt.

(** The end of a tick: the engine's explanation is kept and the run stored. *)
Definition finish (act : Action) (st : State) : M (option Action * option State) :=
    let st := (Note st act (now env)) <| Updated := now env |> in
    run! store_put st;
    se_ret (Some act, Some st).

Definition execute (rings : list Ring) (rs : RingStatus) (st : State) (act : Action)
      : M (option Action * option State) :=
    let ring := default (mkRgn "" [] "" 0 0 false 0 0) (rings !! s_Ring st) in
    match Kind act with
    | Promote =>
        do! f <- se_get the_fleet;
        let '(ready, st) := ensureRingBuilt f st ring in
        if negb ready then
          let st := st <| Updated := now env |> in
          run! store_put st;
          se_ret (Some act, Some st)
        else
          run! promote st ring;
          finish act (st <| PromotedAt ::= <[s_Ring st := now env]> |>)
    | WidenCohort =>
        run! releaseCohort ring;
        finish act (st <| ConvergedAt ::= delete (s_Ring st) |>)
    | Wait =>
        finish act
          (if (s_Ring st <? length rings)%nat && Converged ring rs
           then match ConvergedAt st !! s_Ring st with
                | Some _ => st
                | None => st <| ConvergedAt ::= <[s_Ring st := now env]> |>
                end
           else st)
    | AwaitApproval => finish act st
    | Advance => finish act (st <| s_Ring ::= S |>)
    | Halt => finish act (st <| Status := Halted |> <| s_Reason := a_Reason act |>)
    | Done =>
        run! bell (λ g, RolloutDoneBell g (substring 0 12 (s_Target st)));
        finish act (st <| Status := Completed |> <| s_Reason := a_Reason act |>)
    end.

Definition Tick : M (option Action * option State) :=
    do! st <- store_get;
    match st with
    | None => se_ret (None, None)
    | Some st =>
        if Status st !=? Active then se_ret (None, Some st) else
        do! f <- se_get the_fleet;
        do! rings <- se_lift (runRings f (Some st));
        do! rs <- se_lift (observe f rings st);
        execute rings rs st (Decide rings st rs (now env))
    end.

(** ** Starting a run *)

Definition StartWith (target : string) (opts : StartOpts) : M State :=
    if target ==? "" then se_err NeedsTarget else
    do! f <- se_get the_fleet;
    do! rings <- se_lift (run_plan f opts);
    do! cur <- store_get;
    if match cur with Some c => Status c ==? Active | None => false end
    then se_err (AlreadyActive match cur with Some c => s_Target c | None => "" end)
    else
      let st := (NewState target (now env)) <| s_Rings := rings |>
                  <| ChangeID := o_ChangeID opts |> <| ChangeTitle := o_ChangeTitle opts |> in
      run! store_put st;
      se_ret st.

Definition zero_opts : StartOpts := mkOpts [] false "" "".

(** ** Between runs *)

(** [FollowHead]: the idle branches track HEAD. *)
Definition FollowHead : M unit :=
    if negb (refs env) then se_ret tt else
    do! st <- store_get;
    if match st with
       | Some st => (Status st ==? Active) || (Status st ==? Paused) || (Status st ==? Halted)
       | None => false end
    then se_ret tt else
    do! f <- se_get the_fleet;
    match Rollout f with
    | None => se_ret tt
    | Some p =>
        do! head <- se_lift (lift_err HeadE (head_rev env));
        se_each (λ name,
          match f_Groups f !! name with
          | Some g => if g_Pin g !=? "" then se_ret tt else moveRingRef name head
          | None => se_ret tt
          end) (r ← Rings p; GroupList r)
    end.

(** [nonMachineCommitsSince]. *)
Definition nonMachineCommitsSince (base : string) : M autoFlowScan :=
    do! entries <- se_lift (lift_err AuditE (audit_log env autoFlowLogDepth));
    se_ret (scan_log base entries (mkScan false "" "")).

(** [holdForRisk] and [markRiskNotified]. *)
Definition holdForRisk (scan : autoFlowScan) : M unit :=
    do! seen <- se_get riskHoldNotified;
    if seen ==? riskHash scan then se_ret tt else
    run! se_modify (λ s, s <| riskHoldNotified := riskHash scan |>);
    bell (λ g, RiskHoldBell g (riskSubject scan)).

Definition maybeAutoStart : M unit :=
    if negb (refs env) then se_ret tt else
    do! f <- se_get the_fleet;
    if match Rollout f with None => true | Some p => Rings p ==? [] end || negb (AutoFlowEnabled (Rollout f))
    then se_ret tt else
    do! st <- store_get;
    if match st with Some st => (Status st !=? Completed) && (Status st !=? Cancelled) | None => false end
    then se_ret tt else
    do! head <- se_lift (lift_err HeadE (head_rev env));
    if baseline f ==? "" then se_ret tt
    else if atHead f head then se_ret tt
    else
      do! scan <- nonMachineCommitsSince (baseline f);
      if negb (roll scan) then se_ret tt
      else if riskHash scan !=? "" then holdForRisk scan
      else run! StartWith head zero_opts; se_ret tt.

(** ** The operator *)

Definition Cancel : M State :=
    do! st <- store_get;
    match st with
    | None => se_err NothingToCancel
    | Some st =>
        if negb ((Status st ==? Active) || (Status st ==? Paused) || (Status st ==? Halted))
        then se_err NothingToCancel
        else
          let st := (Note (st <| Status := Cancelled |>) (mkAction Done CancelledByOperator) (now env))
                      <| Updated := now env |> in
          run! store_put st;
          se_ret st
    end.

Definition Approve : M State :=
    do! st <- store_get;
    match st with
    | None => se_err NoActiveRun
    | Some st =>
        if Status st !=? Active then se_err NoActiveRun else
        let st := (ApproveState st (now env)) <| Updated := now env |> in
        run! store_put st;
        se_ret st
    end.

Definition Pause : M State :=
    do! st <- store_get;
    match st with
    | None => se_err NoActiveToPause
    | Some st =>
        if Status st !=? Active then se_err NoActiveToPause else
        let st := st <| Status := Paused |> <| s_Reason := PausedByOperator |> <| Updated := now env |> in
        run! store_put st;
        se_ret st
    end.

Definition Resume : M State :=
    do! st <- store_get;
    match st with
    | None => se_err NoPausedRun
    | Some st =>
        if Status st !=? Paused then se_err NoPausedRun else
        let st := st <| Status := Active |> <| s_Reason := NoReason |> <| Updated := now env |> in
        run! store_put st;
        se_ret st
    end.

(** ** One beat of [Run]

    Every part runs whatever the earlier ones returned. *)
Definition Reap : M (list string) := λ s,
    let '(r, c) := ReapAbandonedEnrolments (gate env) (now env) engineAuthor (en_cfg s) in
    (lift_err PinE r, s <| en_cfg := c |>).

Definition RunBeat (s : Engine W) : Engine W :=
    let s := (Tick s).2 in
    let s := (FollowHead s).2 in
    let s := (maybeAutoStart s).2 in
    (Reap s).2.

(** ** A merged change starts its own run (autorollout.go) *)

Record MergedChange := mkMerged {
  m_ID : string; m_Title : string; m_WholeFleet : bool; m_Hosts : list string
}.

Definition after_merge (cr : MergedChange) : M unit :=
    do! f <- se_get the_fleet;
    if match f_Assurance f with Some a => ManualRolloutOnly a | None => false end then se_ret tt else
    let groups := if m_WholeFleet cr then [] else deliveryGroups f (m_Hosts cr) in
    if negb (m_WholeFleet cr) && (groups ==? []) then se_ret tt else
    let target := match head_rev env with Ok h => h | Err _ => "" end in
    if target ==? "" then se_ret tt else λ s,
    match StartWith target (mkOpts groups false (m_ID cr) (m_Title cr)) s with
    | (Err _, s) => bell (λ g, DeliveryWaitsBell g (m_ID cr)) s
    | (Ok _, s) => bell (λ g, DeliveryStartedBell g (m_Title cr)) s
    end.
End engine.
