(* ===== verification/EngineProofs.v ===== *)
(** * What the rollout engine guarantees

    Theorems on Engine: the life of a run, the branches a tick may move, the
    frozen states, the automatic start, and a healthy run's completion. *)

From S2P Require Import Prelude GoLib FleetModel Groups Resolve Apps Mutate DeviceOps Classes Verdicts Document ConfigTx ConfigSafety Rollout Engine.

Section engine.
  Context {W : Type} `{ConfigRepo W, GoJson, Fingerprint, FleetJson, OverlayParsers}.
  Implicit Types (env : Env W) (s : Engine W).

(** ** What the effects leave alone *)

Definition same_run (s s' : Engine W) : Prop := en_run s' = en_run s.
#[export] Instance same_run_refl : Reflexive same_run.
Proof. done. Qed.
#[export] Instance same_run_trans : Transitive same_run.
Proof. intros a b c H1' H2'. unfold same_run in *. congruence. Qed.

Definition same_branches (s s' : Engine W) : Prop :=
    en_local s' = en_local s ∧ en_remote s' = en_remote s.
#[export] Instance same_branches_refl : Reflexive same_branches.
Proof. done. Qed.
#[export] Instance same_branches_trans : Transitive same_branches.
Proof. intros a b c [? ?] [? ?]. split; congruence. Qed.

Lemma cfg_apply_frame env k mut msg hosts s r s' :
    cfg_apply env k mut msg hosts s = (r, s') → s' = s <| en_cfg := en_cfg s' |>.
Proof. unfold cfg_apply. destruct (Apply _ _ _ _ _ _) as [r0 c]. by intros [= _ <-]. Qed.

Lemma cfg_apply_run env k mut msg hosts : respects same_run (cfg_apply env k mut msg hosts).
Proof. intros s r s' ->%cfg_apply_frame. done. Qed.
Lemma cfg_apply_branches env k mut msg hosts : respects same_branches (cfg_apply env k mut msg hosts).
Proof. intros s r s' ->%cfg_apply_frame. done. Qed.
Hint Resolve cfg_apply_run cfg_apply_branches : respects.

Lemma store_get_inv env s r s' : store_get env s = (r, s') →
    s' = s ∧ (∀ o, r = Ok o → o = en_run s).
Proof. unfold store_get. destruct (get_err env); intros [= <- <-]; split; try done. by intros o [= <-]. Qed.
Lemma store_get_run env : respects same_run (store_get env).
Proof. by intros s r s' [-> _]%store_get_inv. Qed.
Lemma store_get_branches env : respects same_branches (store_get env).
Proof. by intros s r s' [-> _]%store_get_inv. Qed.
Lemma store_put_inv env st s r s' : store_put env st s = (r, s') →
    s' = s ∧ r ≠ Ok tt ∨ s' = s <| en_run := Some st |> ∧ r = Ok tt.
Proof. unfold store_put. destruct (put_err env); intros [= <- <-]; [by left|by right]. Qed.
Lemma store_put_branches env st : respects same_branches (store_put env st).
Proof. by intros s r s' [[-> _]|[-> _]]%store_put_inv. Qed.
Lemma bell_run items : respects same_run (bell items).
Proof. by intros s r s' [= _ <-]. Qed.
Lemma bell_branches items : respects same_branches (bell items).
Proof. by intros s r s' [= _ <-]. Qed.
Hint Resolve store_get_run store_get_branches store_put_branches bell_run bell_branches : respects.

Lemma moveRingRef_run env g rev : respects same_run (moveRingRef env g rev).
Proof.
    unfold moveRingRef. respect.
    - unfold SetRef. intros s r s'. by destruct (set_ref_err _ _ _); intros [= _ <-].
    - unfold PushRef. intros s r s'. by destruct (push_ref_err _ _); intros [= _ <-].
Qed.
Hint Resolve moveRingRef_run : respects.

Lemma releaseCohort_run env ring : respects same_run (releaseCohort env ring).
Proof. unfold releaseCohort, release_device. respect. Qed.
Lemma releaseCohort_branches env ring : respects same_branches (releaseCohort env ring).
Proof. unfold releaseCohort, release_device. respect. Qed.
Lemma pin_group_run env i t g : respects same_run (pin_group env i t g).
Proof. unfold pin_group. respect. Qed.
Lemma pin_group_branches env i t g : respects same_branches (pin_group env i t g).
Proof. unfold pin_group. respect. Qed.
Hint Resolve releaseCohort_run releaseCohort_branches pin_group_run pin_group_branches : respects.
Lemma promote_run env st ring : respects same_run (promote env st ring).
Proof. unfold promote. respect. Qed.
Hint Resolve promote_run : respects.

(** ** What a tick makes of the run *)

(** The run without its explanations and its clock. *)
Definition core (st : State) : State :=
    st <| Waiting := NoReason |> <| WaitingSince := 0 |> <| Updated := 0 |>
       <| BuildRequestedAt := ∅ |> <| s_Reason := NoReason |>.

Lemma core_Note st a t u : core ((Note st a t) <| Updated := u |>) = core st.
Proof. unfold Note. destruct (_ || _); [done|]. by destruct (_ !=? _). Qed.

(** The builder said that a build of the target failed. *)
Definition build_failed env (target : string) : Prop :=
    ∃ ensure hosts bs, builder env = Some ensure ∧ ensure target hosts = Ok bs ∧ Phase bs = BuildFailed.

(** What a tick that decided [k] makes of the run. *)
Inductive tick_effect env (k : ActionKind) (rings : list Ring) (st st' : State) : Prop :=
    | te_hold : core st' = core st → tick_effect env k rings st st'
    | te_promote : PromotedAt st !! s_Ring st = None → (s_Ring st < length rings)%nat →
        core st' = core (st <| PromotedAt ::= <[s_Ring st := now env]> |>) → tick_effect env k rings st st'
    | te_converged : is_Some (PromotedAt st !! s_Ring st) →
        core st' = core (st <| ConvergedAt ::= <[s_Ring st := now env]> |>) → tick_effect env k rings st st'
    | te_widen : k = WidenCohort → core st' = core (st <| ConvergedAt ::= delete (s_Ring st) |>) → tick_effect env k rings st st'
    | te_advance : k = Advance → is_Some (PromotedAt st !! s_Ring st) → (s_Ring st < length rings)%nat →
        core st' = core (st <| s_Ring ::= S |>) → tick_effect env k rings st st'
    | te_halt : k = Halt ∨ build_failed env (s_Target st) → core st' = core (st <| Status := Halted |>) → tick_effect env k rings st st'
    | te_done : core st' = core (st <| Status := Completed |>) → tick_effect env k rings st st'.

Lemma finish_inv env act st s r s' :
    finish env act st s = (r, s') →
    s' = s ∨ ∃ st', s' = s <| en_run := Some st' |> ∧ core st' = core st.
Proof.
    unfold finish. intros [(u & s1 & H1' & H2')|(e & H1' & _)]%se_bind_inv;
      apply store_put_inv in H1' as [[-> _]|[-> _]]; auto.
    - injection H2' as _ <-. by left.
    - injection H2' as _ <-. right. eexists. split; [done|]. apply core_Note.
    - right. eexists. split; [done|]. apply core_Note.
Qed.

(** The end of a tick, after effects that leave the stored run alone. *)
Lemma run_finish_inv {A} env (m : SE (Engine W) EngErr A) act st s r s' :
    respects same_run m → se_bind m (λ _, finish env act st) s = (r, s') →
    en_run s' = en_run s ∨ ∃ st', en_run s' = Some st' ∧ core st' = core st.
Proof.
    intros Hm [(u & s1 & H1' & H2')|(e & H1' & _)]%se_bind_inv; apply Hm in H1'; [|by left].
    apply finish_inv in H2' as [->|(st' & -> & Hc)]; [left; exact H1'|right].
    by exists st'.
Qed.

Lemma ensureRingBuilt_core env f st ring :
    core (ensureRingBuilt env f st ring).2 = core st ∨
    (ensureRingBuilt env f st ring).1 = false ∧ build_failed env (s_Target st) ∧
    core (ensureRingBuilt env f st ring).2 = core (st <| Status := Halted |>).
Proof.
    unfold ensureRingBuilt. destruct (builder env) as [ensure|] eqn:Hb; [|by left].
    destruct (RingGroupList ring ≫= _) as [|h hosts]; [by left|].
    destruct (ensure _ _) as [bs|] eqn:He; [|by left]. destruct (Phase bs) eqn:Hp.
    - destruct (BuildRequestedAt st !! s_Ring st); by left.
    - by left.
    - right. split; [done|]. split; [|done]. by exists ensure, (h :: hosts), bs.
Qed.

Lemma core_ring st st' : core st' = core st → s_Ring st' = s_Ring st ∧ PromotedAt st' = PromotedAt st.
Proof. destruct st, st'. by intros [= -> -> -> -> -> -> -> -> -> ->]. Qed.

Lemma core_promoted st st' i t :
    core st' = core st → core (st' <| PromotedAt ::= <[i := t]> |>) = core (st <| PromotedAt ::= <[i := t]> |>).
Proof. destruct st, st'. by intros [= -> -> -> -> -> -> -> -> -> ->]. Qed.

Lemma execute_effect env rings rs st s r s' :
    Status st = Active →
    execute env rings rs st (Decide rings st rs (now env)) s = (r, s') →
    en_run s' = en_run s ∨ ∃ st', en_run s' = Some st' ∧ tick_effect env (Kind (Decide rings st rs (now env))) rings st st'.
Proof.
    intros Hact Hex. pose proof (Decide_decision rings st rs (now env)) as Hd.
    unfold execute in Hex. destruct (Kind (Decide rings st rs (now env))) eqn:Hk.
    - (* Promote *)
      inversion Hd as [|  |ring [_ Hr] Hp| | | | | | | | |].
      apply lookup_lt_Some in Hr as Hlt. rewrite se_get_bind in Hex.
      rewrite Hr in Hex. change (default _ (Some ring)) with ring in Hex. cbv beta in Hex.
      destruct (ensureRingBuilt env (the_fleet s) st ring) as [ready st1] eqn:Hb.
      pose proof (ensureRingBuilt_core env (the_fleet s) st ring) as Hc. rewrite Hb in Hc. simpl in Hc.
      destruct ready; cbn [negb] in Hex.
      + destruct Hc as [Hc|[? _]]; [|done].
        apply run_finish_inv in Hex as [?|(st' & Hs' & Hc')]; [by left| |respect].
        right. exists st'. split; [done|]. apply te_promote; [done|done|].
        destruct (core_ring _ _ Hc) as [Hri _]. rewrite Hc', Hri. by apply core_promoted.
      + apply se_bind_inv in Hex as [(u & s1 & H1' & [= _ <-])|(e & H1' & _)];
          apply store_put_inv in H1' as [[-> _]|[-> _]]; auto.
        * right. eexists. split; [done|].
          destruct Hc as [Hc|(_ & Hbf & Hc)]; [apply te_hold|apply te_halt; [by right|]]; by destruct st1, st.
        * right. eexists. split; [done|].
          destruct Hc as [Hc|(_ & Hbf & Hc)]; [apply te_hold|apply te_halt; [by right|]]; by destruct st1, st.
    - (* Wait *)
      assert (is_Some (PromotedAt st !! s_Ring st)) as Hp by (by inversion Hd).
      apply finish_inv in Hex as [->|(st' & -> & Hc)]; [by left|right]. exists st'. split; [done|].
      destruct (_ && _); [|by apply te_hold].
      destruct (ConvergedAt st !! s_Ring st); [by apply te_hold|by apply te_converged].
    - (* Advance *)
      assert (is_Some (PromotedAt st !! s_Ring st) ∧ (s_Ring st < length rings)%nat) as [Hp Hlt].
      { inversion Hd as [| | |ring [_ Hr] Hp| | | | | | | |ring [_ Hr] Hp]; split; try done;
          by apply lookup_lt_Some in Hr. }
      apply finish_inv in Hex as [->|(st' & -> & Hc)]; [by left|right]. exists st'. split; [done|].
      by apply te_advance.
    - (* WidenCohort *)
      apply run_finish_inv in Hex as [?|(st' & Hs' & Hc)]; [by left| |respect].
      right. exists st'. split; [done|]. by apply te_widen.
    - (* Halt *)
      apply finish_inv in Hex as [->|(st' & -> & Hc)]; [by left|right]. exists st'. split; [done|].
      apply te_halt; [by left|]. by destruct st', st.
    - (* AwaitApproval *)
      apply finish_inv in Hex as [->|(st' & -> & Hc)]; [by left|right]. exists st'. split; [done|].
      by apply te_hold.
    - (* Done *)
      apply run_finish_inv in Hex as [?|(st' & Hs' & Hc)]; [by left| |respect].
      right. exists st'. split; [done|]. apply te_done. by destruct st', st.
Qed.

Lemma Tick_inv env s r s' :
    Tick env s = (r, s') →
    s' = s ∨
    ∃ st rings rs, en_run s = Some st ∧ Status st = Active ∧
      runRings (the_fleet s) (Some st) = Ok rings ∧
      observe env (the_fleet s) rings st = Ok rs ∧
      execute env rings rs st (Decide rings st rs (now env)) s = (r, s').
Proof.
    unfold Tick. intros [(o & s1 & Hg & Hk)|(e & Hg & _)]%se_bind_inv;
      apply store_get_inv in Hg as [-> Ho]; [|by left].
    rewrite (Ho o eq_refl) in Hk. destruct (en_run s) as [st|]; [|injection Hk as _ <-; by left].
    case_bool_decide as Hact; cbn [negb] in Hk; [|injection Hk as _ <-; by left].
    rewrite se_get_bind in Hk.
    destruct (runRings (the_fleet s) (Some st)) as [rings|] eqn:Hr; [|injection Hk as _ <-; by left].
    apply se_bind_inv in Hk as [(rings' & s1 & [= <- <-] & Hk)|(e & Hk & _)];
      [|injection Hk as _ <-; by left].
    apply se_bind_inv in Hk as [(rs & s1 & Ho' & Hk)|(e & Hk & _)];
      [|injection Hk as _ <-; by left].
    injection Ho' as Ho' <-. right. by exists st, rings, rs.
Qed.

Lemma Tick_effect env s r s' :
    Tick env s = (r, s') →
    en_run s' = en_run s ∨
    ∃ st rings st' rs, en_run s = Some st ∧ Status st = Active ∧
      runRings (the_fleet s) (Some st) = Ok rings ∧ observe env (the_fleet s) rings st = Ok rs ∧ en_run s' = Some st' ∧
      tick_effect env (Kind (Decide rings st rs (now env))) rings st st'.
Proof.
    intros [->|(st & rings & rs & Hst & Hact & Hr & Ho & Hex)]%Tick_inv; [by left|].
    apply execute_effect in Hex as [?|(st' & Hs' & He)]; [by left| |done].
    right. by exists st, rings, st', rs.
Qed.

(** ** The life of a run *)

Inductive status_step : RunStatus → RunStatus → Prop :=
    | ss_active b : status_step Active b
    | ss_resume : status_step Paused Active
    | ss_cancel a : a = Paused ∨ a = Halted → status_step a Cancelled.

(** What one operation may make of a run it does not replace. *)
Record evolves (st st' : State) : Prop := {
    ev_identity : s_Target st' = s_Target st ∧ s_Rings st' = s_Rings st ∧
                  ChangeID st' = ChangeID st ∧ Started st' = Started st;
    ev_ring : (s_Ring st ≤ s_Ring st' ≤ S (s_Ring st))%nat;
    ev_promoted : ∀ i t, PromotedAt st !! i = Some t → PromotedAt st' !! i = Some t;
    ev_approved : ∀ i, is_Some (ApprovedAt st !! i) → is_Some (ApprovedAt st' !! i);
    ev_status : status_step (Status st) (Status st')
}.

(** A run as it starts. *)
Definition fresh_run (st : State) : Prop :=
    Status st = Active ∧ s_Ring st = 0%nat ∧ PromotedAt st = ∅ ∧ ConvergedAt st = ∅ ∧
    ApprovedAt st = ∅ ∧ s_Rings st ≠ [] ∧ s_Target st ≠ "".

Inductive run_step : option State → option State → Prop :=
    | rs_same o : run_step o o
    | rs_new o st' : fresh_run st' → (∀ st, o = Some st → Status st ≠ Active) → run_step o (Some st')
    | rs_evolve st st' : evolves st st' → run_step (Some st) (Some st').

Lemma core_fields st st' :
    core st' = core st →
    s_Target st' = s_Target st ∧ s_Rings st' = s_Rings st ∧ ChangeID st' = ChangeID st ∧
    Started st' = Started st ∧ s_Ring st' = s_Ring st ∧ PromotedAt st' = PromotedAt st ∧
    ConvergedAt st' = ConvergedAt st ∧ ApprovedAt st' = ApprovedAt st ∧ Status st' = Status st.
Proof. destruct st, st'. by intros [= -> -> -> -> -> -> -> -> -> ->]. Qed.

Lemma tick_effect_evolves env k rings st st' :
    Status st = Active → tick_effect env k rings st st' → evolves st st'.
Proof.
    intros Hact. destruct 1 as [Hc|Hp Hlt Hc|Hp Hc|_ Hc|_ Hp Hlt Hc|_ Hc|Hc];
      apply core_fields in Hc as (? & ? & ? & ? & Hr & Hpr & Hcv & Hap & Hs); simpl in *;
      (split; [done|lia| |by rewrite Hap|rewrite Hact; constructor]);
      intros i u Hi; rewrite Hpr; try done.
    rewrite lookup_insert_ne; [done|]. intros <-. congruence.
Qed.

(** A run that keeps its bookkeeping in order. *)
Record run_ok (st : State) : Prop := {
    ok_ring : s_Rings st = [] ∨ (s_Ring st ≤ length (s_Rings st))%nat;
    ok_promoted : ∀ i, is_Some (PromotedAt st !! i) → (i ≤ s_Ring st)%nat;
    ok_prefix : ∀ i, (i < s_Ring st)%nat → is_Some (PromotedAt st !! i);
    ok_converged : ∀ i, is_Some (ConvergedAt st !! i) → is_Some (PromotedAt st !! i)
}.

Lemma run_ok_core st st' : core st' = core st → run_ok st → run_ok st'.
Proof.
    intros (_ & Hr & _ & _ & Hri & Hp & Hc & _)%core_fields [H1' H2' H3' H4'].
    split; rewrite ?Hr, ?Hri, ?Hp, ?Hc; done.
Qed.

Lemma tick_effect_ok env k f rings st st' :
    runRings f (Some st) = Ok rings → tick_effect env k rings st st' → run_ok st → run_ok st'.
Proof.
    intros Hrings He [Hri Hp Hpre Hcv].
    assert (∀ n, (n ≤ length rings)%nat → s_Rings st = [] ∨ (n ≤ length (s_Rings st))%nat) as Hlen.
    { intros n Hn. simpl in Hrings. destruct (s_Rings st); [by left|right]. by injection Hrings as ->. }
    destruct He as [Hc|Hn Hlt Hc|Hn Hc|_ Hc|_ Hn Hlt Hc|_ Hc|Hc]; eapply run_ok_core; try exact Hc.
    - by split.
    - split; simpl.
      + done.
      + intros i. destruct (decide (i = s_Ring st)) as [->|]; [done|]. rewrite lookup_insert_ne; auto.
      + intros i Hi. rewrite lookup_insert_ne; [by apply Hpre|lia].
      + intros i Hi%Hcv. destruct (decide (i = s_Ring st)) as [->|].
        * rewrite lookup_insert_eq. by eexists.
        * by rewrite lookup_insert_ne.
    - split; simpl; try done. intros i Hi. destruct (decide (i = s_Ring st)) as [->|]; [done|].
      rewrite lookup_insert_ne in Hi by done. by apply Hcv.
    - split; simpl; try done. intros i Hi. apply Hcv. destruct Hi as [u Hu].
      apply lookup_delete_Some in Hu as [_ Hu]. by eexists.
    - split; simpl; try done.
      + apply Hlen. lia.
      + intros i Hi%Hp. lia.
      + intros i Hi. destruct (decide (i = s_Ring st)) as [->|]; [done|]. apply Hpre. lia.
    - by split.
    - by split.
Qed.

Lemma put_ret_inv {A} env st (x : A) s r s' :
    se_bind (store_put env st) (λ _, se_ret x) s = (r, s') →
    s' = s ∨ s' = s <| en_run := Some st |>.
Proof.
    intros [(u & s1 & Hp & [= _ <-])|(e & Hp & _)]%se_bind_inv;
      apply store_put_inv in Hp as [[-> _]|[-> _]]; auto.
Qed.

(** An operation that looks at the stored run and may put another. *)
Lemma store_get_bind_inv {A} env (k : option State → SE (Engine W) EngErr A) s r s' :
    se_bind (store_get env) k s = (r, s') → s' = s ∨ k (en_run s) s = (r, s').
Proof.
    intros [(o & s1 & Hg & Hk)|(e & Hg & _)]%se_bind_inv; apply store_get_inv in Hg as [-> Ho]; [|by left].
    right. by rewrite (Ho o eq_refl) in Hk.
Qed.

Lemma Approve_inv env s r s' :
    Approve env s = (r, s') →
    s' = s ∨ ∃ st, en_run s = Some st ∧ Status st = Active ∧
      s' = s <| en_run := Some ((ApproveState st (now env)) <| Updated := now env |>) |>.
Proof.
    intros [->|Hk]%store_get_bind_inv; [by left|]. destruct (en_run s) as [st|] eqn:Hs; [|injection Hk as _ <-; by left].
    case_bool_decide as Ha; cbn [negb] in Hk; [|injection Hk as _ <-; by left].
    apply put_ret_inv in Hk as [->| ->]; [by left|right]. by exists st.
Qed.

Lemma Pause_inv env s r s' :
    Pause env s = (r, s') →
    s' = s ∨ ∃ st, en_run s = Some st ∧ Status st = Active ∧
      s' = s <| en_run := Some (st <| Status := Paused |> <| s_Reason := PausedByOperator |>
                                   <| Updated := now env |>) |>.
Proof.
    intros [->|Hk]%store_get_bind_inv; [by left|]. destruct (en_run s) as [st|] eqn:Hs; [|injection Hk as _ <-; by left].
    case_bool_decide as Ha; cbn [negb] in Hk; [|injection Hk as _ <-; by left].
    apply put_ret_inv in Hk as [->| ->]; [by left|right]. by exists st.
Qed.

Lemma Resume_inv env s r s' :
    Resume env s = (r, s') →
    s' = s ∨ ∃ st, en_run s = Some st ∧ Status st = Paused ∧
      s' = s <| en_run := Some (st <| Status := Active |> <| s_Reason := NoReason |>
                                   <| Updated := now env |>) |>.
Proof.
    intros [->|Hk]%store_get_bind_inv; [by left|]. destruct (en_run s) as [st|] eqn:Hs; [|injection Hk as _ <-; by left].
    case_bool_decide as Ha; cbn [negb] in Hk; [|injection Hk as _ <-; by left].
    apply put_ret_inv in Hk as [->| ->]; [by left|right]. by exists st.
Qed.

Lemma Cancel_inv env s r s' :
    Cancel env s = (r, s') →
    s' = s ∨ ∃ st st', en_run s = Some st ∧ (Status st = Active ∨ Status st = Paused ∨ Status st = Halted) ∧
      s' = s <| en_run := Some st' |> ∧ core st' = core (st <| Status := Cancelled |>).
Proof.
    intros [->|Hk]%store_get_bind_inv; [by left|]. destruct (en_run s) as [st|] eqn:Hs; [|injection Hk as _ <-; by left].
    destruct ((Status st ==? Active) || (Status st ==? Paused) || (Status st ==? Halted)) eqn:Ha;
      cbn [negb] in Hk; [|injection Hk as _ <-; by left].
    apply put_ret_inv in Hk as [->| ->]; [by left|right]. exists st. eexists.
    split; [done|]. split; [|split; [done|apply core_Note]].
    apply orb_true_iff in Ha as [Ha|Ha]; [apply orb_true_iff in Ha as [Ha|Ha]|];
      apply bool_decide_eq_true in Ha; auto.
Qed.

(** A run never starts without a wave. *)
Lemma run_plan_nonempty f opts rings : run_plan f opts = Ok rings → rings ≠ [].
Proof.
    unfold run_plan. intros (planned & Hp & Hr)%res_bind_Ok.
    destruct (first_err _ _); [discriminate Hr|]. injection Hr as <-.
    assert (planned ≠ []) as Hne.
    { unfold planRings in Hp. destruct (Rollout f) as [p|]; [|discriminate Hp].
      destruct (Rings p) as [|x l] eqn:Hrs; [discriminate Hp|].
      rewrite bool_decide_eq_false_2 in Hp by done.
      destruct (first_err _ _); [discriminate Hp|]. by injection Hp as <-. }
    assert (match o_Groups opts with [] => planned | gs => scoped_rings planned gs end ≠ []) as Hne'.
    { destruct (o_Groups opts) as [|g gs]; [done|]. unfold scoped_rings.
      destruct gs; [|done]. match goal with |- context [RingGroupList ?r] => destruct (RingGroupList r) as [|t [|]] end;
        try done. by destruct (t ==? g). }
    destruct (Expedited opts); [intros Hm%map_eq_nil; by apply Hne'|exact Hne'].
Qed.

Lemma StartWith_inv env target opts s r s' :
    StartWith env target opts s = (r, s') →
    (s' = s ∧ ∀ st, r ≠ Ok st) ∨
    ∃ st, r = Ok st ∧ s' = s <| en_run := Some st |> ∧ fresh_run st ∧ s_Target st = target ∧
          Started st = now env ∧ run_plan (the_fleet s) opts = Ok (s_Rings st) ∧
          (∀ c, en_run s = Some c → Status c ≠ Active).
Proof.
    unfold StartWith. case_bool_decide as Ht; [intros [= <- <-]; by left|].
    rewrite se_get_bind. destruct (run_plan (the_fleet s) opts) as [rings|] eqn:Hplan.
    2:{ intros [(x & s1 & [= Hx _] & _)|(e1 & [= _ <-] & ->)]%se_bind_inv. by left. }
    intros [(x & s1 & [= <- <-] & Hk)|(e & [= ] & _)]%se_bind_inv.
    apply se_bind_inv in Hk as [(o & s1 & Hg & Hk)|(e & Hg & ->)];
      apply store_get_inv in Hg as [-> Ho]; [|by left]. rewrite (Ho o eq_refl) in Hk. clear Ho.
    destruct (match en_run s with Some c => Status c ==? Active | None => false end) eqn:Hact.
    { injection Hk as <- <-. by left. }
    assert (∀ c, en_run s = Some c → Status c ≠ Active) as Hidle.
    { intros c Hc. rewrite Hc in Hact. by apply bool_decide_eq_false in Hact. }
    apply se_bind_inv in Hk as [(u & s1 & Hp & Hk)|(e & Hp & ->)];
      apply store_put_inv in Hp as [[-> Hbad]|[-> Hok]]; try done; [by destruct u| |by left].
    injection Hk as <- <-. right. eexists. split; [done|]. split; [done|]. simpl.
    split_and!; try done. split_and!; try done. by eapply run_plan_nonempty.
Qed.

(** What the automatic start requires. *)
Record auto_start_due env (s : Engine W) (head : string) (entries : list AuditEntry) : Prop := {
    as_refs : refs env = true;
    as_auto : AutoFlowEnabled (Rollout (the_fleet s)) = true;
    as_idle : ∀ c, en_run s = Some c → Status c = Completed ∨ Status c = Cancelled;
    as_head : head_rev env = Ok head;
    as_pinned : baseline (the_fleet s) ≠ "";
    as_behind : atHead (the_fleet s) head = false;
    as_log : audit_log env autoFlowLogDepth = Ok entries;
    as_work : roll (scan_log (baseline (the_fleet s)) entries (mkScan false "" "")) = true;
    as_no_risk : riskHash (scan_log (baseline (the_fleet s)) entries (mkScan false "" "")) = ""
}.

Lemma holdForRisk_inv scan s r s' :
    holdForRisk scan s = (r, s') →
    en_run s' = en_run s ∧ en_local s' = en_local s ∧ en_remote s' = en_remote s ∧ en_cfg s' = en_cfg s.
Proof.
    unfold holdForRisk. rewrite se_get_bind. case_bool_decide; [by intros [= _ <-]|].
    rewrite se_modify_bind. by intros [= _ <-].
Qed.

Definition same_plane (s s' : Engine W) : Prop :=
    en_run s' = en_run s ∧ en_local s' = en_local s ∧ en_remote s' = en_remote s ∧ en_cfg s' = en_cfg s.

Lemma maybeAutoStart_inv env s r s' :
    maybeAutoStart env s = (r, s') →
    same_plane s s' ∨
    ∃ head entries st, auto_start_due env s head entries ∧
      s' = s <| en_run := Some st |> ∧ fresh_run st ∧ s_Target st = head ∧
      run_plan (the_fleet s) zero_opts = Ok (s_Rings st).
Proof.
    unfold maybeAutoStart. intros Hm.
    assert (∀ s0, s0 = s → same_plane s s0) as Hsame by (by intros s0 ->).
    destruct (refs env) eqn:Hrefs; cbn [negb] in Hm; [|injection Hm as _ <-; auto].
    rewrite se_get_bind in Hm. destruct (_ || _) eqn:Hauto in Hm; [injection Hm as _ <-; auto|].
    apply orb_false_iff in Hauto as [_ Hauto%negb_false_iff].
    apply store_get_bind_inv in Hm as [->|Hm]; [auto|].
    destruct (match en_run s with Some st => (Status st !=? Completed) && (Status st !=? Cancelled) | None => false end)
      eqn:Hidle; [injection Hm as _ <-; auto|].
    apply se_bind_inv in Hm as [(head & s1 & Hh & Hm)|(e & [= _ <-] & _)]; [|auto].
    injection Hh as Hhead <-.
    destruct (head_rev env) as [h|] eqn:Hhr; [|discriminate Hhead]. injection Hhead as ->.
    case_bool_decide as Hbase; [injection Hm as _ <-; auto|].
    destruct (atHead (the_fleet s) head) eqn:Hat; [injection Hm as _ <-; auto|].
    unfold nonMachineCommitsSince in Hm.
    apply se_bind_inv in Hm as [(scan & s1 & Hsc & Hm)|(e & Hsc & _)].
    2:{ apply se_bind_inv in Hsc as [(en & s1 & [= _ <-] & [= ])|(e' & [= _ <-] & _)]; auto. }
    apply se_bind_inv in Hsc as [(entries & s2 & Hlog & [= <- <-])|(e' & _ & [= ])].
    injection Hlog as Hlog <-. destruct (audit_log env autoFlowLogDepth) as [es|] eqn:Hal; [|discriminate Hlog].
    injection Hlog as ->.
    destruct (roll (scan_log _ entries _)) eqn:Hroll; cbn [negb] in Hm; [|injection Hm as _ <-; auto].
    case_bool_decide as Hrisk; cbn [negb] in Hm; [|left; by apply holdForRisk_inv in Hm].
    apply se_bind_inv in Hm as [(st & s1 & Hs & [= _ <-])|(e & Hs & _)];
      apply StartWith_inv in Hs as [[-> Hbad]|(st' & Hr & -> & Hf & Ht & _ & Hp & _)]; auto.
    - right. exists head, entries, st'. split_and!; try done. split; try done.
      intros c Hc. rewrite Hc in Hidle. apply andb_false_iff in Hidle as [Hi|Hi];
        apply negb_false_iff, bool_decide_eq_true in Hi; auto.
    - discriminate Hr.
Qed.

Lemma FollowHead_run env : respects same_run (FollowHead env).
Proof. unfold FollowHead. respect. Qed.

Lemma bell_inv items s r s' : bell items s = (r, s') → same_plane s s'.
Proof. by intros [= _ <-]. Qed.

Lemma after_merge_inv env cr s r s' :
    after_merge env cr s = (r, s') →
    en_cfg s' = en_cfg s ∧ same_branches s s' ∧
    (en_run s' = en_run s ∨
     ∃ st, en_run s' = Some st ∧ fresh_run st ∧ (∀ c, en_run s = Some c → Status c ≠ Active)).
Proof.
    unfold after_merge. rewrite se_get_bind. intros Hm.
    destruct (match f_Assurance (the_fleet s) with Some a => ManualRolloutOnly a | None => false end).
    { injection Hm as _ <-. split; [done|]. split; [done|by left]. }
    destruct (_ && _); [injection Hm as _ <-; split; [done|]; split; [done|by left]|].
    case_bool_decide; [injection Hm as _ <-; split; [done|]; split; [done|by left]|].
    destruct (StartWith _ _ _ s) as [[st|e] s1] eqn:Hs; apply bell_inv in Hm as (Hr & Hl & Hrm & Hc);
      apply StartWith_inv in Hs as [[-> Hbad]|(st' & Hok & -> & Hf & _ & _ & _ & Hidle)]; try done.
    - by destruct (Hbad st).
    - split; [done|]. split; [done|]. right. exists st'. by rewrite Hr.
    - split; [done|]. split; [done|]. left. done.
Qed.

(** ** Reachable engines *)

(** One operation of the engine or of its surroundings, under any answers of
    the ports; [es_config] is any change of the configuration by others. *)
Inductive engine_step : Engine W → Engine W → Prop :=
    | es_tick env s : engine_step s (Tick env s).2
    | es_follow env s : engine_step s (FollowHead env s).2
    | es_auto env s : engine_step s (maybeAutoStart env s).2
    | es_start env target opts s : engine_step s (StartWith env target opts s).2
    | es_merge env cr s : engine_step s (after_merge env cr s).2
    | es_cancel env s : engine_step s (Cancel env s).2
    | es_approve env s : engine_step s (Approve env s).2
    | es_pause env s : engine_step s (Pause env s).2
    | es_resume env s : engine_step s (Resume env s).2
    | es_reap env s : engine_step s (Reap env s).2
    | es_config c s : engine_step s (s <| en_cfg := c |>).

Lemma approve_evolves st t : Status st = Active → evolves st ((ApproveState st t) <| Updated := t |>).
Proof.
    intros Ha. split; simpl; try done; [lia| |rewrite Ha; constructor].
    intros i Hi. destruct (decide (i = s_Ring st)) as [->|]; [rewrite lookup_insert_eq; by eexists|].
    by rewrite lookup_insert_ne.
Qed.

Lemma core_evolves st st' b :
    core st' = core (st <| Status := b |>) → status_step (Status st) b → evolves st st'.
Proof.
    intros (? & ? & ? & ? & Hr & Hp & _ & Ha & Hs)%core_fields Hst. simpl in *.
    split; try done; [lia|by rewrite Hp|by rewrite Ha|by rewrite Hs].
Qed.

Lemma engine_step_run s s' : engine_step s s' → run_step (en_run s) (en_run s').
Proof.
    destruct 1 as [env s|env s|env s|env target opts s|env cr s|env s|env s|env s|env s|env s|c s].
    - destruct (Tick env s) as [r s'] eqn:Ht; simpl; apply Tick_effect in Ht.
      destruct Ht as [->|(st & rings & st' & rs & -> & Ha & _ & _ & -> & He)]; [constructor|].
      apply rs_evolve. by eapply tick_effect_evolves.
    - destruct (FollowHead env s) as [r s'] eqn:Ht; simpl; apply FollowHead_run in Ht. simpl. rewrite Ht. constructor.
    - destruct (maybeAutoStart env s) as [r s'] eqn:Ht; simpl; apply maybeAutoStart_inv in Ht.
      destruct Ht as [(-> & _)|(h & es & st & Hdue & -> & Hf & _)]; [constructor|].
      apply rs_new; [done|]. intros c Hc. destruct (as_idle _ _ _ _ Hdue c Hc) as [-> | ->]; done.
    - destruct (StartWith env target opts s) as [r s'] eqn:Ht; simpl; apply StartWith_inv in Ht.
      destruct Ht as [[-> _]|(st & _ & -> & Hf & _ & _ & _ & Hi)]; [constructor|]. by apply rs_new.
    - destruct (after_merge env cr s) as [r s'] eqn:Ht; simpl; apply after_merge_inv in Ht as (_ & _ & Ht).
      destruct Ht as [->|(st & -> & Hf & Hi)]; [constructor|]. by apply rs_new.
    - destruct (Cancel env s) as [r s'] eqn:Ht; simpl; apply Cancel_inv in Ht.
      destruct Ht as [->|(st & st' & -> & Ha & -> & Hc)]; [constructor|]. apply rs_evolve.
      eapply core_evolves; [exact Hc|]. destruct Ha as [-> |[-> | ->]]; constructor; auto.
    - destruct (Approve env s) as [r s'] eqn:Ht; simpl; apply Approve_inv in Ht.
      destruct Ht as [->|(st & -> & Ha & ->)]; [constructor|]. by apply rs_evolve, approve_evolves.
    - destruct (Pause env s) as [r s'] eqn:Ht; simpl; apply Pause_inv in Ht.
      destruct Ht as [->|(st & -> & Ha & ->)]; [constructor|]. apply rs_evolve.
      eapply (core_evolves _ _ Paused); [by destruct st|rewrite Ha; constructor].
    - destruct (Resume env s) as [r s'] eqn:Ht; simpl; apply Resume_inv in Ht.
      destruct Ht as [->|(st & -> & Ha & ->)]; [constructor|]. apply rs_evolve.
      eapply (core_evolves _ _ Active); [by destruct st|rewrite Ha; constructor].
    - unfold Reap. destruct (ReapAbandonedEnrolments _ _ _ _). constructor.
    - constructor.
Qed.

Definition runs_ok (s : Engine W) : Prop := ∀ st, en_run s = Some st → run_ok st.

Lemma fresh_run_ok st : fresh_run st → run_ok st.
Proof.
    intros (_ & Hr & Hp & Hc & _ & _ & _). split; rewrite ?Hr, ?Hp, ?Hc.
    - right. lia.
    - intros i [t Ht]. by rewrite lookup_empty in Ht.
    - lia.
    - intros i [t Ht]. by rewrite lookup_empty in Ht.
Qed.

Lemma run_ok_status st b : run_ok st → run_ok (st <| Status := b |>).
Proof. by intros []; split. Qed.

Lemma engine_step_ok s s' : engine_step s s' → runs_ok s → runs_ok s'.
Proof.
    unfold runs_ok. intros Hstep Hok.
    destruct Hstep as [env s|env s|env s|env target opts s|env cr s|env s|env s|env s|env s|env s|c s].
    - destruct (Tick env s) as [r s'] eqn:Ht; simpl; apply Tick_effect in Ht.
      destruct Ht as [->|(st & rings & st' & rs & Hs & _ & Hr & _ & -> & He)]; [done|].
      intros ? [= <-]. by eapply tick_effect_ok; [..|apply Hok].
    - destruct (FollowHead env s) as [r s'] eqn:Ht; simpl; apply FollowHead_run in Ht. by rewrite Ht.
    - destruct (maybeAutoStart env s) as [r s'] eqn:Ht; simpl; apply maybeAutoStart_inv in Ht.
      destruct Ht as [(-> & _)|(h & es & st & _ & -> & Hf & _)]; [done|].
      intros ? [= <-]. by apply fresh_run_ok.
    - destruct (StartWith env target opts s) as [r s'] eqn:Ht; simpl; apply StartWith_inv in Ht.
      destruct Ht as [[-> _]|(st & _ & -> & Hf & _)]; [done|]. intros ? [= <-]. by apply fresh_run_ok.
    - destruct (after_merge env cr s) as [r s'] eqn:Ht; simpl; apply after_merge_inv in Ht as (_ & _ & Ht).
      destruct Ht as [->|(st & -> & Hf & _)]; [done|]. intros ? [= <-]. by apply fresh_run_ok.
    - destruct (Cancel env s) as [r s'] eqn:Ht; simpl; apply Cancel_inv in Ht.
      destruct Ht as [->|(st & st' & Hs & _ & -> & Hc)]; [done|]. intros ? [= <-].
      eapply run_ok_core; [exact Hc|]. by apply run_ok_status, Hok.
    - destruct (Approve env s) as [r s'] eqn:Ht; simpl; apply Approve_inv in Ht.
      destruct Ht as [->|(st & Hs & _ & ->)]; [done|]. intros ? [= <-]. by destruct (Hok _ Hs); split.
    - destruct (Pause env s) as [r s'] eqn:Ht; simpl; apply Pause_inv in Ht.
      destruct Ht as [->|(st & Hs & _ & ->)]; [done|]. intros ? [= <-]. by destruct (Hok _ Hs); split.
    - destruct (Resume env s) as [r s'] eqn:Ht; simpl; apply Resume_inv in Ht.
      destruct Ht as [->|(st & Hs & _ & ->)]; [done|]. intros ? [= <-]. by destruct (Hok _ Hs); split.
    - unfold Reap. by destruct (ReapAbandonedEnrolments _ _ _ _).
    - done.
Qed.

(** ** Branches *)

(** Branches change only within [bs], and only to [rev]. *)
Definition moved (bs : list string) (rev : string) (s s' : Engine W) : Prop :=
    ∀ b, (en_local s' !! b = en_local s !! b ∨ b ∈ bs ∧ en_local s' !! b = Some rev) ∧
         (en_remote s' !! b = en_remote s !! b ∨ b ∈ bs ∧ en_remote s' !! b = Some rev).

#[export] Instance moved_refl bs rev : Reflexive (moved bs rev).
Proof. intros s b. auto. Qed.
#[export] Instance moved_trans bs rev : Transitive (moved bs rev).
Proof.
    intros s1 s2 s3 H12 H23 b. destruct (H12 b) as [Hl Hr], (H23 b) as [Hl' Hr'].
    split; [destruct Hl' as [-> |?]|destruct Hr' as [-> |?]]; auto.
Qed.

Lemma same_branches_moved bs rev s s' : same_branches s s' → moved bs rev s s'.
Proof. intros [Hl Hr] b. rewrite Hl, Hr. auto. Qed.

Lemma moveRingRef_moved env bs g rev :
    RingBranch g ∈ bs → respects (moved bs rev) (moveRingRef env g rev).
Proof.
    intros Hb s r s'. unfold moveRingRef, SetRef, PushRef, se_bind.
    destruct (set_ref_err env (RingBranch g) rev); [by intros [= _ <-]|].
    destruct (push_ref_err env (RingBranch g)); intros [= _ <-] b; simpl; (split; [|try by left]).
    1,2: destruct (decide (b = RingBranch g)) as [->|];
      [right; by rewrite lookup_insert_eq|left; by rewrite lookup_insert_ne].
    destruct (decide (b = RingBranch g)) as [->|]; [right|left; by rewrite lookup_partial_alter_ne].
    by rewrite lookup_partial_alter_eq, lookup_insert_eq.
Qed.

Lemma promote_moved env st ring :
    respects (moved (map RingBranch (RingGroupList ring)) (s_Target st)) (promote env st ring).
Proof.
    unfold promote. apply respects_bind; [typeclasses eauto| |intros _].
    { intros s r s' Hs. apply same_branches_moved. revert Hs. revert s r s'. fold (respects (E := EngErr) same_branches
        (se_each (pin_group env (s_Ring st) (s_Target st)) (RingGroupList ring))). respect. }
    apply respects_bind; [typeclasses eauto| |intros _].
    { intros s r s' Hs. apply same_branches_moved. by eapply releaseCohort_branches. }
    destruct (refs env); [|apply respects_ret, _]. apply respects_each; [typeclasses eauto..|].
    intros g Hg. apply moveRingRef_moved. apply list_elem_of_fmap. eauto.
Qed.

Lemma finish_branches env act st : respects same_branches (finish env act st).
Proof. unfold finish. respect. Qed.
Hint Resolve finish_branches : respects.

(** Only a promotion touches a branch. *)
Lemma execute_other_branches env rings rs st act :
    Kind act ≠ Promote → respects same_branches (execute env rings rs st act).
Proof. intros Hk. unfold execute. destruct (Kind act); [done|respect..]. Qed.

Lemma execute_branches env rings rs st s r s' :
    Status st = Active → execute env rings rs st (Decide rings st rs (now env)) s = (r, s') →
    same_branches s s' ∨
    ∃ ring, rings !! s_Ring st = Some ring ∧ PromotedAt st !! s_Ring st = None ∧
      (ensureRingBuilt env (the_fleet s) st ring).1 = true ∧
      moved (map RingBranch (RingGroupList ring)) (s_Target st) s s'.
Proof.
    intros Hact Hex. pose proof (Decide_decision rings st rs (now env)) as Hd.
    destruct (decide (Kind (Decide rings st rs (now env)) = Promote)) as [Hk|Hk];
      [|left; by eapply execute_other_branches].
    rewrite Hk in Hd. inversion Hd as [|  |ring [_ Hr] Hp| | | | | | | | |].
    unfold execute in Hex. rewrite Hk, Hr in Hex.
    change (default _ (Some ring)) with ring in Hex. rewrite se_get_bind in Hex.
    destruct (ensureRingBuilt env (the_fleet s) st ring) as [ready st1] eqn:Hb.
    destruct ready; cbn [negb] in Hex.
    - right. exists ring. rewrite Hb. split_and!; try done.
      assert (s_Target st1 = s_Target st) as Ht.
      { pose proof (ensureRingBuilt_core env (the_fleet s) st ring) as Hc. rewrite Hb in Hc.
        destruct Hc as [Hc|[? _]]; [|done]. by apply core_fields in Hc as [? _]. }
      rewrite <- Ht. apply se_bind_inv in Hex as [(u & s1 & Hpr & Hf)|(e & Hpr & _)].
      + etrans; [by eapply promote_moved|]. apply same_branches_moved. by eapply finish_branches.
      + by eapply promote_moved.
    - left. revert Hex. generalize s, r, s'. change (∀ s r s', ?m s = (r, s') → same_branches s s') with
        (respects (E := EngErr) same_branches m). respect.
Qed.

(** ** A healthy run *)

(** The wave an active run is at. *)
Definition at_wave (s : Engine W) (st : State) (ring : Ring) : Prop :=
    en_run s = Some st ∧ Status st = Active ∧ s_Rings st !! s_Ring st = Some ring.

(** What the engine observes of the wave, when the observation answers. *)
Definition sees env (s : Engine W) (st : State) (ring : Ring) (rs : RingStatus) : Prop :=
    ∃ rs0, conv env (RingGroupList ring) (s_Target st) = Ok rs0 ∧ rs = cohortFixup (the_fleet s) rs0 ring.

(** A tick that finds nothing against the wave: where it is promoted and observed
    it has devices and is within its budget of broken ones, and no build of the
    target has failed.  Ports may be down, builds take their time, promotions be
    refused, devices lag and approvals be outstanding. *)
Definition harmless env (s : Engine W) : Prop :=
    ∀ st ring, at_wave s st ring →
      (is_Some (PromotedAt st !! s_Ring st) → ∀ rs, sees env s st ring rs → Total rs ≠ 0 ∧ TooBroken ring rs = false) ∧
      ¬ build_failed env (s_Target st).

(** A tick that finds what the wave waits for: the release built and the promotion
    carried out, or the wave seen converged, or its soak over with the whole of it
    released, and, unless it is the last wave, the approval given that it asks for. *)
Definition fruitful env (s : Engine W) : Prop :=
    get_err env = None ∧ put_err env = None ∧
    ∃ st ring, at_wave s st ring ∧
      match PromotedAt st !! s_Ring st with
      | None => (ensureRingBuilt env (the_fleet s) st ring).1 = true ∧ (promote env st ring s).1 = Ok tt
      | Some _ => ∃ rs, sees env s st ring rs ∧
          match ConvergedAt st !! s_Ring st with
          | None => Converged ring rs = true
          | Some _ => proved st ring rs (now env) ∧ (last_ring (s_Rings st) st ∨ approved st ring)
          end
      end.

(** A tick that widens a capped wave by its next batch, which soaks anew. *)
Definition widens env (s : Engine W) : Prop :=
    ∃ st ring rs, at_wave s st ring ∧ sees env s st ring rs ∧ gate_passes ring rs ∧ soaked st ring (now env) ∧ ¬ fully_released ring rs.

(** Whatever else happens, short of the operator's pause and cancel. *)
Inductive meanwhile : Engine W → Engine W → Prop :=
    | mw_follow env s : meanwhile s (FollowHead env s).2
    | mw_auto env s : meanwhile s (maybeAutoStart env s).2
    | mw_start env target opts s : meanwhile s (StartWith env target opts s).2
    | mw_merge env cr s : meanwhile s (after_merge env cr s).2
    | mw_approve env s : meanwhile s (Approve env s).2
    | mw_resume env s : meanwhile s (Resume env s).2
    | mw_reap env s : meanwhile s (Reap env s).2
    | mw_config c s : meanwhile s (s <| en_cfg := c |>).

(** A course of harmless ticks, and of whatever else happens between them: the
    engines it passes through, with the number of fruitful ticks that were counted
    and that of the batches. *)
Inductive course : Engine W → list (Engine W) → nat → nat → Prop :=
    | co_end s : course s [] 0 0
    | co_fruitful env s l u w : harmless env s → fruitful env s →
        course (Tick env s).2 l u w → course s ((Tick env s).2 :: l) (S u) w
    | co_widens env s l u w : harmless env s → widens env s →
        course (Tick env s).2 l u w → course s ((Tick env s).2 :: l) u (S w)
    | co_held env s l u w : harmless env s → ¬ widens env s →
        course (Tick env s).2 l u w → course s ((Tick env s).2 :: l) u w
    | co_meanwhile s s1 l u w : meanwhile s s1 → course s1 l u w → course s (s1 :: l) u w.

(** How far a run has come: three stages for every wave. *)
Definition progress (st : State) : nat :=
    3 * s_Ring st + match PromotedAt st !! s_Ring st, ConvergedAt st !! s_Ring st with
                    | None, _ => 0 | Some _, None => 1 | Some _, Some _ => 2 end.

Definition same_plan (st st' : State) : Prop :=
    s_Target st' = s_Target st ∧ s_Rings st' = s_Rings st ∧ Started st' = Started st.

Record under_way (s : Engine W) (st : State) : Prop := {
    uw_run : en_run s = Some st;
    uw_active : Status st = Active;
    uw_ring : (s_Ring st < length (s_Rings st))%nat;
    uw_ok : run_ok st
}.

Lemma finish_put env act st s :
    put_err env = None →
    ∃ st', en_run (finish env act st s).2 = Some st' ∧ core st' = core st ∧
           en_cfg (finish env act st s).2 = en_cfg s.
Proof.
    intros Hp. unfold finish, store_put, se_bind. rewrite Hp. eexists. split; [done|].
    split; [apply core_Note|done].
Qed.

Lemma run_finish_put env (m : SE (Engine W) EngErr unit) act st s :
    put_err env = None → (m s).1 = Ok tt →
    ∃ st', en_run ((se_bind m (λ _, finish env act st)) s).2 = Some st' ∧ core st' = core st ∧
           en_cfg ((se_bind m (λ _, finish env act st)) s).2 = en_cfg (m s).2.
Proof.
    intros Hp Hm. unfold se_bind. destruct (m s) as [r s1]. simpl in Hm. subst r.
    by apply finish_put.
Qed.

Lemma Tick_run_active env s st rings rs :
    get_err env = None → en_run s = Some st → Status st = Active →
    runRings (the_fleet s) (Some st) = Ok rings → observe env (the_fleet s) rings st = Ok rs →
    Tick env s = execute env rings rs st (Decide rings st rs (now env)) s.
Proof.
    intros Hg Hs Ha Hr Ho. unfold Tick, store_get, se_bind at 1. rewrite Hg, Hs.
    rewrite bool_decide_eq_true_2 by done. cbn [negb]. rewrite se_get_bind. unfold se_bind, se_lift.
    by rewrite Hr, Ho.
Qed.

Lemma progress_core st st' : core st' = core st → progress st' = progress st.
Proof. intros (_ & _ & _ & _ & Hr & Hp & Hc & _)%core_fields. unfold progress. by rewrite Hr, Hp, Hc. Qed.

Lemma progress_below st : (s_Ring st < length (s_Rings st))%nat → (progress st < 3 * length (s_Rings st))%nat.
Proof. unfold progress. destruct (PromotedAt st !! s_Ring st), (ConvergedAt st !! s_Ring st); lia. Qed.

Lemma under_way_rings s st f : under_way s st → runRings f (Some st) = Ok (s_Rings st).
Proof. intros [_ _ Hlt _]. simpl. destruct (s_Rings st); [simpl in Hlt; lia|done]. Qed.

Lemma under_way_wave s st : under_way s st → ∃ ring, at_wave s st ring.
Proof. intros [Hr Ha Hlt _]. apply lookup_lt_is_Some in Hlt as [ring Hring]. by exists ring. Qed.

(** A promoted wave of a run is what the engine sees of it. *)
Lemma observe_sees env s st ring rs : at_wave s st ring → is_Some (PromotedAt st !! s_Ring st) →
    observe env (the_fleet s) (s_Rings st) st = Ok rs ↔ sees env s st ring rs.
Proof.
    intros (_ & _ & Hring) [t Hp]. unfold observe, sees. rewrite Hp, Hring.
    destruct (conv _ _ _) as [rs0|]; simpl; [|naive_solver]. split; [intros [= <-]; by exists rs0|by intros (? & [= <-] & ->)].
Qed.

(** No harmless tick stops a run or takes it back, but for the batch it widens. *)
Lemma harmless_tick env s st : under_way s st → harmless env s →
    ∃ st', en_run (Tick env s).2 = Some st' ∧ same_plan st st' ∧
      (Status st' = Completed ∨
       under_way (Tick env s).2 st' ∧ (progress st ≤ S (progress st'))%nat ∧ (¬ widens env s → (progress st ≤ progress st')%nat)).
Proof.
    intros Huw Hh. destruct (under_way_wave _ _ Huw) as (ring & Hw). pose proof Huw as [Hrun Hact Hlt Hok].
    destruct (Hh st ring Hw) as [Hgood Hnf]. destruct (Tick env s) as [r s'] eqn:Ht. simpl.
    assert (Hsame : en_run s' = en_run s → ∃ st', en_run s' = Some st' ∧ same_plan st st' ∧
      (Status st' = Completed ∨ under_way s' st' ∧ (progress st ≤ S (progress st'))%nat ∧ (¬ widens env s → (progress st ≤ progress st')%nat))).
    { intros Hs'. exists st. rewrite Hs'. split; [done|]. split; [done|]. right. split; [|lia]. by split; [rewrite Hs'|..]. }
    pose proof (Tick_effect _ _ _ _ Ht) as [?|(st0 & rings & st' & rs & Hs0 & _ & Hr & Ho & Hs' & He)]; [by apply Hsame|].
    rewrite Hrun in Hs0. injection Hs0 as <-. rewrite (under_way_rings _ _ _ Huw) in Hr. injection Hr as <-.
    pose proof (tick_effect_ok _ _ _ _ _ _ (under_way_rings _ _ (the_fleet s) Huw) He Hok) as Hok'.
    pose proof (Decide_decision (s_Rings st) st rs (now env)) as Hd.
    assert (Hon : ∀ ring', on_ring (s_Rings st) st ring' → ring' = ring).
    { intros ring' [_ Hr']. destruct Hw as (_ & _ & Hw). congruence. }
    exists st'. split; [done|].
    destruct He as [Hc|Hp _ Hc|Hp Hc|Hk Hc|Hk Hp _ Hc|Hk Hc|Hc]; pose proof (progress_core _ _ Hc) as Hpr;
      apply core_fields in Hc as (Ht' & Hrs & _ & Hst & Hri & _ & _ & _ & Hstat); simpl in Ht', Hrs, Hst, Hri, Hstat;
      (split; [done|]).
    all: try (right; split; [by split; [|congruence|rewrite Hri, Hrs; lia|]|]; rewrite Hpr; unfold progress; simpl; rewrite ?lookup_insert_eq).
    - lia.
    - rewrite Hp. destruct (ConvergedAt st !! s_Ring st); lia.
    - destruct Hp as [t ->]. destruct (ConvergedAt st !! s_Ring st); lia.
    - rewrite lookup_delete_eq. destruct (PromotedAt st !! s_Ring st) as [t|] eqn:Hp.
      + split; [destruct (ConvergedAt st !! s_Ring st); lia|]. intros Hno. exfalso. apply Hno. rewrite Hk in Hd.
        inversion Hd as [| | | | | | | |ring' Hr'%Hon _ Hgate Hsoak Hrel| | |]; subst ring'.
        exists st, ring, rs. split_and!; try done; try apply Hgate. apply (observe_sees _ _ _ _ _ Hw); [by rewrite Hp|done].
      + lia.
    - rewrite Hk in Hd. assert (Hsees : sees env s st ring rs) by (by apply (observe_sees _ _ _ _ _ Hw)).
      destruct (Hgood Hp rs Hsees) as [Htot _].
      inversion Hd as [| | |ring' _ _ Hempty| | | | | | | |ring' _ _ _ Hlast _]; [done|]. unfold last_ring in Hlast.
      right. split; [split; [done|congruence|rewrite Hri, Hrs; lia|done]|]. rewrite Hpr. unfold progress. simpl.
      destruct (PromotedAt st !! s_Ring st), (ConvergedAt st !! s_Ring st); lia.
    - exfalso. destruct Hk as [Hk|Hk]; [|done]. rewrite Hk in Hd.
      inversion Hd as [| | | |ring' Hr'%Hon Hp _ Hbroken| | | | | | |]; subst ring'.
      destruct (Hgood Hp rs) as [_ Hb]; [by apply (observe_sees _ _ _ _ _ Hw)|congruence].
    - by left.
Qed.

(** A fruitful tick takes the run a stage further. *)
Lemma fruitful_tick env s st : under_way s st → harmless env s → fruitful env s →
    ∃ st', en_run (Tick env s).2 = Some st' ∧ (Status st' = Completed ∨ (S (progress st) ≤ progress st')%nat).
Proof.
    intros Huw Hh (Hget & Hput & st0 & ring & Hw & Hf). pose proof Huw as [Hrun Hact Hlt Hok].
    assert (st0 = st) as -> by (destruct Hw as (Hw & _); congruence).
    assert (Hon : on_ring (s_Rings st) st ring) by (split; apply Hw). destruct (Hh st ring Hw) as [Hgood _].
    assert (Hdef : default (mkRgn "" [] "" 0 0 false 0 0) (s_Rings st !! s_Ring st) = ring).
    { destruct Hw as (_ & _ & Hring). by rewrite Hring. }
    assert (Htick : ∀ rs, observe env (the_fleet s) (s_Rings st) st = Ok rs →
      Tick env s = execute env (s_Rings st) rs st (Decide (s_Rings st) st rs (now env)) s).
    { intros rs Ho. eapply Tick_run_active; eauto using under_way_rings. }
    destruct (PromotedAt st !! s_Ring st) as [tp|] eqn:Hp; [destruct Hf as (rs & Hsees & Hf)|].
    - assert (Hps : is_Some (PromotedAt st !! s_Ring st)) by (rewrite Hp; by eexists).
      destruct (Hgood (mk_is_Some _ _ eq_refl) rs Hsees) as [Htot Hbr].
      rewrite (Htick rs) by (by apply (observe_sees _ _ _ _ _ Hw)).
      destruct (ConvergedAt st !! s_Ring st) as [tc|] eqn:Hc.
      + destruct Hf as [Hproved Hgo]. destruct (decide (S (s_Ring st) = length (s_Rings st))) as [Hlast|Hlast].
        * assert (Kind (Decide (s_Rings st) st rs (now env)) = Done) as Hk
            by (apply Decide_iff, (decide_complete _ _ _ _ ring); done).
          unfold execute. rewrite Hk. destruct (run_finish_put env (bell (λ g, RolloutDoneBell g (substring 0 12 (s_Target st))))
            (Decide (s_Rings st) st rs (now env))
            (st <| Status := Completed |> <| s_Reason := a_Reason (Decide (s_Rings st) st rs (now env)) |>) s Hput eq_refl) as (st' & Hs' & Hcore & _).
          exists st'. split; [exact Hs'|left]. by apply core_fields in Hcore as (_&_&_&_&_&_&_&_&->).
        * destruct Hgo as [?|Happ]; [done|].
          assert (Kind (Decide (s_Rings st) st rs (now env)) = Advance) as Hk
            by (apply Decide_iff, (decide_advance _ _ _ _ ring); done).
          unfold execute. rewrite Hk. edestruct finish_put as (st' & Hs' & Hcore & _); [exact Hput|].
          exists st'. split; [exact Hs'|right]. rewrite (progress_core _ _ Hcore). unfold progress. simpl.
          rewrite Hp, Hc. destruct (PromotedAt st !! S (s_Ring st)), (ConvergedAt st !! S (s_Ring st)); lia.
      + assert (Kind (Decide (s_Rings st) st rs (now env)) = Wait) as Hk
          by (apply Decide_iff, (decide_start_soak _ _ _ _ ring); done).
        unfold execute. rewrite Hk, Hdef, Hc, Hf. apply Nat.ltb_lt in Hlt as Hltb. rewrite Hltb. cbn [andb].
        edestruct finish_put as (st' & Hs' & Hcore & _); [exact Hput|].
        exists st'. split; [exact Hs'|right]. rewrite (progress_core _ _ Hcore). unfold progress. simpl.
        rewrite Hp, Hc, lookup_insert_eq. lia.
    - destruct Hf as [Hbuilt Hprom].
      assert (Kind (Decide (s_Rings st) st zero_status (now env)) = Promote) as Hk by (by apply Decide_iff, (decide_promote _ _ _ _ ring)).
      rewrite (Htick zero_status) by (unfold observe; by rewrite Hp). unfold execute. rewrite Hk, Hdef, se_get_bind.
      pose proof (ensureRingBuilt_core env (the_fleet s) st ring) as Hb.
      destruct (ensureRingBuilt env (the_fleet s) st ring) as [ready st1]. simpl in Hbuilt, Hb. subst ready. cbn [negb].
      destruct Hb as [Hb|[? _]]; [|done].
      assert (Heq : promote env st1 ring = promote env st ring).
      { apply core_fields in Hb as (Ht & _ & _ & _ & Hr & _). unfold promote. by rewrite Ht, Hr. }
      destruct (run_finish_put env (promote env st1 ring) (Decide (s_Rings st) st zero_status (now env))
        (st1 <| PromotedAt ::= <[s_Ring st1 := now env]> |>) s Hput) as (st' & Hs' & Hcore & _); [by rewrite Heq|].
      exists st'. split; [exact Hs'|right]. rewrite (progress_core _ _ Hcore). pose proof (progress_core _ _ Hb) as Hpr1.
      destruct (core_ring _ _ Hb) as [Hr1 _]. unfold progress in Hpr1 |- *. simpl. rewrite lookup_insert_eq.
      rewrite Hp in Hpr1. rewrite Hp. destruct (ConvergedAt st1 !! s_Ring st1); lia.
Qed.

Lemma meanwhile_step s s1 : meanwhile s s1 → engine_step s s1.
Proof. destruct 1; constructor. Qed.

(** What happens between the ticks leaves a run under way where it is. *)
Lemma meanwhile_run s s1 st : meanwhile s s1 → under_way s st →
    ∃ st1, under_way s1 st1 ∧ same_plan st st1 ∧ progress st1 = progress st.
Proof.
    intros Hm [Hrun Hact Hlt Hok].
    assert (Hoks : runs_ok s1).
    { apply (engine_step_ok s); [by apply meanwhile_step|]. intros st' Hst'. by assert (st' = st) as -> by congruence. }
    assert (Hsame : en_run s1 = en_run s → ∃ st1, under_way s1 st1 ∧ same_plan st st1 ∧ progress st1 = progress st).
    { intros He. exists st. split; [by split; [rewrite He|..]|done]. }
    revert Hsame Hoks. destruct Hm as [env s|env s|env target opts s|env cr s|env s|env s|env s|c s]; intros Hsame Hoks.
    - apply Hsame. destruct (FollowHead env s) as [r s'] eqn:Ht. by apply FollowHead_run in Ht.
    - destruct (maybeAutoStart env s) as [r s'] eqn:Ht; simpl in *; apply maybeAutoStart_inv in Ht.
      destruct Ht as [(? & _)|(h & es & st' & Hdue & _)]; [by apply Hsame|].
      destruct (as_idle _ _ _ _ Hdue st Hrun); congruence.
    - destruct (StartWith env target opts s) as [r s'] eqn:Ht; simpl in *; apply StartWith_inv in Ht.
      destruct Ht as [[-> _]|(st' & _ & _ & _ & _ & _ & _ & Hi)]; [by apply Hsame|]. by destruct (Hi st Hrun).
    - destruct (after_merge env cr s) as [r s'] eqn:Ht; simpl in *; apply after_merge_inv in Ht as (_ & _ & Ht).
      destruct Ht as [?|(st' & _ & _ & Hi)]; [by apply Hsame|]. by destruct (Hi st Hrun).
    - destruct (Approve env s) as [r s'] eqn:Ht; simpl in *; apply Approve_inv in Ht.
      destruct Ht as [->|(st' & Hs' & _ & ->)]; [by apply Hsame|]. assert (st' = st) as -> by congruence.
      eexists. split; [by split; [reflexivity|..|apply Hoks]|]. done.
    - destruct (Resume env s) as [r s'] eqn:Ht; simpl in *; apply Resume_inv in Ht.
      destruct Ht as [->|(st' & Hs' & ? & ->)]; [by apply Hsame|]. congruence.
    - apply Hsame. unfold Reap. by destruct (ReapAbandonedEnrolments _ _ _ _).
    - by apply Hsame.
Qed.

#[export] Instance same_plan_preorder : PreOrder same_plan.
Proof. split; [done|]. unfold same_plan. intros ???. intuition congruence. Qed.

(** Every fruitful tick takes a stage, every batch gives one back at most. *)
Lemma course_completes s st l u w : course s l u w → under_way s st → (3 * length (s_Rings st) + w ≤ u + progress st)%nat →
    ∃ s1 st1, s1 ∈ l ∧ en_run s1 = Some st1 ∧ Status st1 = Completed ∧ same_plan st st1.
Proof.
    intros Hc. revert st.
    assert (Hstep : ∀ env s l u w st k, harmless env s → under_way s st → (3 * length (s_Rings st) + w ≤ u + k)%nat →
      (∀ st', en_run (Tick env s).2 = Some st' → Status st' ≠ Completed → (k ≤ progress st')%nat) →
      (∀ st, under_way (Tick env s).2 st → (3 * length (s_Rings st) + w ≤ u + progress st)%nat →
         ∃ s1 st1, s1 ∈ l ∧ en_run s1 = Some st1 ∧ Status st1 = Completed ∧ same_plan st st1) →
      ∃ s1 st1, s1 ∈ (Tick env s).2 :: l ∧ en_run s1 = Some st1 ∧ Status st1 = Completed ∧ same_plan st st1).
    { clear. intros env s l u w st k Hh Huw Hle Hk IH. destruct (harmless_tick env s st Huw Hh) as (st' & Hs' & Hsame & [Hd|[Huw' _]]).
      - exists (Tick env s).2, st'. split; [left|done].
      - destruct (IH st' Huw') as (s1 & st1 & Hin & Hr & Hd & Hpl).
        + destruct Hsame as (_ & -> & _). destruct Huw' as [_ Ha _ _]. specialize (Hk st' Hs' ltac:(congruence)). lia.
        + exists s1, st1. split; [by right|]. split_and!; try done; by etrans. }
    induction Hc as [s|env s l u w Hh Hf Hc IH|env s l u w Hh Hwd Hc IH|env s l u w Hh Hno Hc IH|s s1 l u w Hm Hc IH]; intros st Huw Hle.
    - pose proof (progress_below st (uw_ring _ _ Huw)). lia.
    - destruct (fruitful_tick env s st Huw Hh Hf) as (st' & Hs' & Hp).
      eapply (Hstep env s l u w st (S (progress st))); [done|done|lia| |exact IH].
      intros st1 Hst1 Hnd. assert (st1 = st') as -> by congruence. by destruct Hp.
    - destruct (harmless_tick env s st Huw Hh) as (st' & Hs' & _ & Hp).
      eapply (Hstep env s l u w st (pred (progress st))); [done|done|lia| |exact IH].
      intros st1 Hst1 Hnd. assert (st1 = st') as -> by congruence. destruct Hp as [?|(_ & Hp & _)]; [done|lia].
    - destruct (harmless_tick env s st Huw Hh) as (st' & Hs' & _ & Hp).
      eapply (Hstep env s l u w st (progress st)); [done|done|lia| |exact IH].
      intros st1 Hst1 Hnd. assert (st1 = st') as -> by congruence. destruct Hp as [?|(_ & _ & Hp)]; [done|by apply Hp].
    - destruct (meanwhile_run _ _ _ Hm Huw) as (st1 & Huw1 & Hsame & Hp).
      destruct (IH st1 Huw1) as (s2 & st2 & Hin & Hr & Hd & Hpl); [destruct Hsame as (_ & -> & _); lia|].
      exists s2, st2. split; [by right|]. split_and!; try done; by etrans.
Qed.

(** ** Properties *)

(** C8. The life of a run: whatever the ports answer and whatever others do to
    the configuration, one operation of the engine leaves the stored run, moves
    it along its state machine (an active run may pause, halt, complete or be
    cancelled, a paused one resume or be cancelled, a halted one be cancelled,
    a finished one nothing) or replaces a run that is not active by a fresh one.
    The target, the wave plan and the start of a run never change, its wave
    never goes back nor skips one, and no promotion or approval is forgotten. *)
Theorem run_lifecycle s s' : engine_step s s' → run_step (en_run s) (en_run s').
Proof. apply engine_step_run. Qed.

(** The bookkeeping of every reachable run is in order: the wave index stays
    within the plan, the promoted waves are exactly those before the current one
    and possibly the current one, and convergence is recorded of promoted waves
    only. *)
Theorem reachable_runs_ok s0 s st :
    rtc engine_step s0 s → en_run s0 = None → en_run s = Some st → run_ok st.
Proof.
    intros Hr H0'. assert (runs_ok s0) as Hok by (intros st'; congruence). clear H0'.
    induction Hr as [s0|s0 s1 s Hstep _ IH]; [apply Hok|]. apply IH. by eapply engine_step_ok.
Qed.

(** The staging holds: a tick changes ring branches, here or on the remote,
    only when it promotes the current wave of an active run whose release is
    built, and then only the branches of that wave's groups, and only to the
    run's target; in every other situation no branch moves. *)
Theorem tick_moves_current_wave_only env s r s' :
    Tick env s = (r, s') →
    same_branches s s' ∨
    ∃ st rings ring, en_run s = Some st ∧ Status st = Active ∧
      runRings (the_fleet s) (Some st) = Ok rings ∧ rings !! s_Ring st = Some ring ∧
      PromotedAt st !! s_Ring st = None ∧
      (ensureRingBuilt env (the_fleet s) st ring).1 = true ∧
      moved (map RingBranch (RingGroupList ring)) (s_Target st) s s'.
Proof.
    intros [->|(st & rings & rs & Hs & Ha & Hr & _ & Hex)]%Tick_inv; [by left|].
    apply execute_branches in Hex as [?|(ring & ? & ? & ? & ?)]; [by left| |done].
    right. exists st, rings, ring. by split_and!.
Qed.

(** A held run freezes the engine: while the stored run is paused or halted,
    a tick, the following of HEAD and the automatic start all leave the engine
    exactly as it is - its run, its branches and its configuration. *)
Theorem held_run_freezes env s st (Hs : en_run s = Some st) (Hh : Status st = Paused ∨ Status st = Halted) :
    (Tick env s).2 = s ∧ (FollowHead env s).2 = s ∧ (maybeAutoStart env s).2 = s.
Proof.
    split_and!.
    - unfold Tick, store_get, se_bind. destruct (get_err env); [done|]. rewrite Hs.
      rewrite bool_decide_eq_false_2 by (by destruct Hh as [-> | ->]). done.
    - unfold FollowHead, store_get, se_bind. destruct (refs env); [|done]. cbn [negb].
      destruct (get_err env); [done|]. rewrite Hs. by destruct Hh as [-> | ->].
    - unfold maybeAutoStart. destruct (refs env); [|done]. cbn [negb]. rewrite se_get_bind.
      destruct (_ || _); [done|]. unfold store_get, se_bind. destruct (get_err env); [done|]. rewrite Hs.
      by destruct Hh as [-> | ->].
Qed.

(** C9. A healthy run completes.  After a run is started, take any course of
    ticks that find nothing against the current wave - no device-less wave, none
    over its budget of broken devices, no failed build - with anything else in
    between but a pause or a cancel by the operator: ports that do not answer,
    builds in progress, refused promotions, lagging devices, soaks that are not over,
    approvals outstanding, starts of other runs, edits of the configuration.  As
    soon as three ticks for every wave of its plan, and one more for every batch a
    capped wave was widened by, found what the run waited for - the release built
    and the promotion carried out; the wave seen converged; its soak over, the whole
    of it released and, but for the last wave, the approval given that it asks for -
    the run has been completed, with its target and its plan as they were. *)
Theorem healthy_run_completes env0 opts target s s' st l u w
      (Hstart : StartWith env0 target opts s = (Ok st, s'))
      (Hc : course s' l u w) (Hu : (3 * length (s_Rings st) + w ≤ u)%nat) :
    ∃ s1 st1, s1 ∈ l ∧ en_run s1 = Some st1 ∧ Status st1 = Completed ∧
      s_Target st1 = target ∧ s_Rings st1 = s_Rings st ∧ Started st1 = now env0.
Proof.
    apply StartWith_inv in Hstart as [[_ Hbad]|(st0 & [= <-] & -> & Hf & <- & Hst & _)]; [by destruct (Hbad st)|].
    pose proof (fresh_run_ok _ Hf) as Hok. destruct Hf as (Ha & Hi & Hp & Hcv & _ & Hne & _).
    destruct (course_completes _ st l u w Hc) as (s1 & st1 & Hin & Hr & Hd & Ht & Hrs & Hs).
    - split; [done|done| |done]. rewrite Hi. destruct (s_Rings st); [done|simpl; lia].
    - lia.
    - exists s1, st1. split_and!; try done; congruence.
Qed.
End engine.

(** * Concrete runs *)

(** ** The damping walk *)

(** The commits newer than the baseline; all of them when it is not there. *)
Fixpoint commits_above (base : string) (entries : list AuditEntry) : list AuditEntry :=
  match entries with
  | [] => []
  | e :: entries => if Hash e ==? base then [] else e :: commits_above base entries
  end.

Definition by_person (e : AuditEntry) : Prop := isMachineAuthor (e_Author e) = false.
Definition marked (e : AuditEntry) : Prop := contains (Subject e) RiskHighMarker = true.

Lemma scan_log_roll base entries scan :
  roll (scan_log base entries scan) = true ↔
  roll scan = true ∨ base ∉ map Hash entries ∨ ∃ e, e ∈ commits_above base entries ∧ by_person e.
Proof.
  revert scan. induction entries as [|e entries IH]; intros scan; simpl.
  - split; [intros _; right; left; apply not_elem_of_nil|done].
  - case_bool_decide as Hh.
    + split; [by left|]. intros [?|[Hn|(e' & He & _)]]; [done| |by apply elem_of_nil in He].
      destruct Hn. rewrite Hh. left.
    + assert (base ∉ Hash e :: map Hash entries ↔ base ∉ map Hash entries) as Hn
        by (rewrite not_elem_of_cons; naive_solver).
      assert ((∃ e0, e0 ∈ e :: commits_above base entries ∧ by_person e0) ↔
              by_person e ∨ ∃ e0, e0 ∈ commits_above base entries ∧ by_person e0) as He.
      { split.
        - intros (e0 & [-> |H0]%elem_of_cons & Hb); eauto.
        - intros [Hb|(e0 & H0 & Hb)]; [exists e; split; [left|done]|exists e0; split; [by right|done]]. }
      rewrite Hn, He. unfold by_person at 1.
      destruct (isMachineAuthor (e_Author e)); rewrite IH; [naive_solver|].
      destruct (_ && _); simpl; naive_solver.
Qed.

Lemma scan_log_risk base entries scan :
  riskHash (scan_log base entries scan) = "" →
  riskHash scan = "" ∧ ∀ e, e ∈ commits_above base entries → by_person e → marked e → Hash e = "".
Proof.
  revert scan. induction entries as [|e entries IH]; intros scan; simpl.
  - intros ->. split; [done|]. intros e He. by apply elem_of_nil in He.
  - case_bool_decide as Hh; [intros ->; split; [done|]; intros e' He; by apply elem_of_nil in He|].
    destruct (isMachineAuthor (e_Author e)) eqn:Hm.
    + intros [Hs Hall]%IH. split; [done|]. intros e' [-> |He]%elem_of_cons Hb; [|by apply Hall].
      unfold by_person in Hb. congruence.
    + intros [Hs Hall]%IH. destruct (riskHash scan ==? "") eqn:Hr; [|by apply bool_decide_eq_false in Hr].
      apply bool_decide_eq_true in Hr. split; [done|]. cbn [andb] in Hs.
      intros e' [-> |He]%elem_of_cons Hb Hmk; [|by apply Hall].
      unfold marked in Hmk. rewrite Hmk in Hs. exact Hs.
Qed.

Section cases.
  Context {W : Type} `{ConfigRepo W, GoJson, Fingerprint, FleetJson, OverlayParsers}.
  Implicit Types (env : Env W) (s : Engine W).

(** The automatic start: the engine starts a run by itself only when the
    funnel is wired, the plan allows it, no run is in flight, some pinned group
    is not at HEAD, and the log shows work that is not its own - a commit by a
    person above the promoted baseline, or no baseline within the window - none
    of it marked high-risk.  It then starts the full ladder towards HEAD, and
    changes nothing else. *)
Theorem automatic_start env s r s' :
    maybeAutoStart env s = (r, s') → en_run s' ≠ en_run s →
    ∃ head entries st,
      refs env = true ∧ AutoFlowEnabled (Rollout (the_fleet s)) = true ∧
      (∀ c, en_run s = Some c → Status c = Completed ∨ Status c = Cancelled) ∧
      head_rev env = Ok head ∧ atHead (the_fleet s) head = false ∧
      audit_log env autoFlowLogDepth = Ok entries ∧
      (baseline (the_fleet s) ∉ map Hash entries ∨
       ∃ e, e ∈ commits_above (baseline (the_fleet s)) entries ∧ by_person e) ∧
      (∀ e, e ∈ commits_above (baseline (the_fleet s)) entries → by_person e → marked e → Hash e = "") ∧
      s' = s <| en_run := Some st |> ∧ fresh_run st ∧ s_Target st = head ∧
      planRings (the_fleet s) = Ok (s_Rings st).
Proof.
    intros Ha Hne. apply maybeAutoStart_inv in Ha as [(Hr & _)|(h & es & st & Hdue & -> & Hf & Ht & Hp)]; [done|].
    destruct Hdue as [H1' H2' H3' H4' H5' H6' H7' H8' H9']. exists h, es, st.
    apply scan_log_roll in H8' as [?|Hw]; [done|]. apply scan_log_risk in H9' as [_ Hrisk].
    split_and!; try done. unfold run_plan in Hp. apply res_bind_Ok in Hp as (pl & -> & Hp). simpl in Hp.
    exact Hp.
Qed.

(** A merged change discards a held run: when the organisation lets merges
    roll out, a merge whose plan can be read replaces a paused or halted run by
    a fresh active one, although the automatic start leaves such a run to the
    operator; the hold, its reason and its progress are gone. *)
Theorem merge_discards_held_run env cr s c head rings
      (Hrun : en_run s = Some c) (Hheld : Status c = Paused ∨ Status c = Halted)
      (Hports : get_err env = None ∧ put_err env = None ∧ head_rev env = Ok head ∧ head ≠ "")
      (Hauto : f_Assurance (the_fleet s) = None) (Hwhole : m_WholeFleet cr = true)
      (Hplan : planRings (the_fleet s) = Ok rings) :
    ∃ st, en_run (after_merge env cr s).2 = Some st ∧ fresh_run st ∧ s_Target st = head ∧ s_Rings st = rings.
Proof.
    destruct Hports as (Hg & Hp & Hh & Hne). unfold after_merge. rewrite se_get_bind, Hauto, Hwhole.
    cbn [negb andb]. rewrite Hh. cbv zeta. rewrite bool_decide_eq_false_2 by done.
    destruct (StartWith env head _ s) as [r s1] eqn:Hs.
    pose proof (StartWith_inv _ _ _ _ _ _ Hs) as [[-> Hbad]|(st & -> & -> & Hf & Ht & _ & Hr & _)].
    - exfalso. apply (Hbad (((NewState head (now env)) <| s_Rings := rings |>)
                             <| ChangeID := m_ID cr |> <| ChangeTitle := m_Title cr |>)).
      unfold StartWith in Hs. rewrite bool_decide_eq_false_2 in Hs by done. rewrite se_get_bind in Hs.
      unfold run_plan in Hs. rewrite Hplan in Hs. unfold store_get, store_put, se_bind, se_lift in Hs. simpl in Hs.
      rewrite Hg in Hs. simpl in Hs. rewrite Hrun, bool_decide_eq_false_2 in Hs by (by destruct Hheld as [-> | ->]).
      rewrite Hp in Hs. simpl in Hs. apply (f_equal fst) in Hs. simpl in Hs. by rewrite <- Hs.
    - exists st. unfold run_plan in Hr. rewrite Hplan in Hr. simpl in Hr. injection Hr as ->. done.
Qed.
End cases.

(** ** Capped waves *)

Definition demo_member (g pin : string) : Device := zero_device <| Groups := [g] |> <| d_Pin := pin |>.
Definition capped (g : string) (cap : Z) : RolloutRing := mkRing g [] "" 0 0 false 0 cap.

Lemma keep_if_all {A} (p : A → bool) l : (∀ a, a ∈ l → p a = true) → keep_if p l = l.
Proof.
  induction l as [|a l IH]; intros Hp; [done|]. rewrite keep_if_cons, (Hp a) by left. f_equal.
  apply IH. intros b Hb. apply Hp. by right.
Qed.

(** A cap lasts one run: nothing clears the cohort marks of a finished run,
    so once every device of a capped wave has been released, the next run finds
    the whole group released - its promotion marks nobody, and its branch move
    offers the new target to every device at once, whatever the cap. *)
Theorem cap_is_spent_by_the_first_run f ring rr g
    (Hr : rolloutRing f g = Some rr) (Hcap : 0 < rr_MaxDevices rr)
    (Hall : ∀ tag, tag ∈ ConvergingGroupDevices f g → d_Pin (dev f tag) = g) :
  ReleasedGroupDevices f g = ConvergingGroupDevices f g ∧ next_cohort f ring g = [].
Proof.
  assert (ReleasedGroupDevices f g = ConvergingGroupDevices f g) as Heq.
  { unfold ReleasedGroupDevices. rewrite Hr. destruct (Z.leb_spec (rr_MaxDevices rr) 0); [lia|].
    apply keep_if_all. intros tag Ht. apply bool_decide_eq_true. by apply Hall. }
  split; [done|]. unfold next_cohort. rewrite Heq, drop_all. apply take_nil.
Qed.

Definition demo_capped (pins : string) : Fleet :=
  zero_fleet <| f_Groups := {["g" := zero_group]} |>
    <| Devices := <["a" := demo_member "g" pins]> {["b" := demo_member "g" "g"]} |>
    <| Rollout := Some {| Rings := [capped "g" 1]; ApproveRole := ""; AutoFlow := None |} |>.

Lemma cap_is_spent_by_the_first_run_witness :
  ReleasedGroupDevices (demo_capped "g") "g" = ["a"; "b"] ∧
  next_cohort (demo_capped "g") (ringFromFleet (capped "g" 1)) "g" = [].
Proof.
  destruct (cap_is_spent_by_the_first_run (demo_capped "g") (ringFromFleet (capped "g" 1)) (capped "g" 1) "g")
    as [H1 H2]; [reflexivity|reflexivity| |split; [vm_compute; reflexivity|exact H2]].
  intros tag Ht. assert (tag ∈ ["a"; "b"]) as Ht' by (revert Ht; vm_compute; exact id).
  apply elem_of_cons in Ht' as [-> |Ht']; [vm_compute; reflexivity|].
  apply list_elem_of_singleton in Ht' as ->. vm_compute; reflexivity.
Defined.

(** A late joiner wedges a capped wave: the next cohort is cut from the sorted
    group by the number of devices already released, as if those were its first
    ones.  When a device that sorts before a released one joins, the next cohort
    is the device already released: the widening marks it again, changes nothing,
    and every later tick does the same, so the joiner is never released. *)
Theorem late_joiner_wedges_capped_wave :
  let f := demo_capped "" in
  ConvergingGroupDevices f "g" = ["a"; "b"] ∧ ReleasedGroupDevices f "g" = ["b"] ∧
  next_cohort f (ringFromFleet (capped "g" 1)) "g" = ["b"] ∧
  match SetDevicePin "b" "g" f with
  | Ok f' => Devices f' = Devices f ∧ next_cohort f' (ringFromFleet (capped "g" 1)) "g" = ["b"]
  | Err _ => False
  end.
Proof. vm_compute. done. Qed.

(** An empty wave skips its sign-off: a wave that asks for approval but has no
    device is passed without one, since emptiness is tested before approval. *)
Theorem empty_wave_skips_approval ring rings s rs now
    (Hon : on_ring rings s ring) (Hp : is_Some (PromotedAt s !! s_Ring s)) (Hempty : Total rs = 0) :
  RequireApproval ring = true → ApprovedAt s !! s_Ring s = None →
  Kind (Decide rings s rs now) = Advance.
Proof. intros _ _. apply Decide_iff. by eapply decide_empty. Qed.

Lemma empty_wave_skips_approval_witness :
  let ring := mkRgn "test" [] "" 0 0 true 0 0 in
  Kind (Decide [ring; ring] ((NewState "rev" 1) <| PromotedAt := {[0%nat := 1]} |>) zero_status 2) = Advance.
Proof.
  intros ring. apply (empty_wave_skips_approval ring).
  - split; reflexivity.
  - by eexists.
  - reflexivity.
  - reflexivity.
  - reflexivity.
Defined.

(** ** A concrete engine

    One group with one device, a plan of one wave, and a repository whose
    document is the group's pin. *)
Definition plan_fleet (pin : string) : Fleet :=
  zero_fleet <| f_Groups := {["g" := zero_group <| g_Pin := pin |>]} |>
    <| Devices := {["a" := demo_member "g" ""]} |>
    <| Rollout := Some {| Rings := [mkRing "g" [] "" 1 0 false 0 0]; ApproveRole := ""; AutoFlow := None |} |>.

#[local] Instance pin_go_json : GoJson := {
  json_value v := Ok "1"; fmt_v v := "1"; fleet_fields f := Ok ∅; json_fields m := Ok "{}"
}.
#[local] Instance pin_print : Fingerprint := λ s, s.
#[local] Instance pin_codec : FleetJson := {
  unmarshal_probe b := Ok 3;
  unmarshal_doc b := Ok ∅;
  unmarshal_fleet b := Ok (plan_fleet (substring 0 (String.length b - 1) b));
  marshal_doc d := Ok "";
  marshal_fleet f := Ok (g_Pin (grp f "g"))
}.
#[local] Instance pin_parsers : OverlayParsers := {
  Catalog := unit; HardwareProfiles := unit; ProfileSet := unit; Bundles := unit;
  ParseCatalog _ := Ok tt; ParseHardwareProfiles _ := Ok tt; ParseProfileSet _ := Ok tt;
  ParseBundles _ := Ok tt
}.
#[local] Instance pin_repo : ConfigRepo Git := git_unkeyed.

Definition pin_service (pin : string) (hist : list Commit) : ConfigService Git :=
  mkService (mkTx (mkGit (pin +:+ newline) hist [] [] 0) None) (mkSnapshot _ (plan_fleet pin) tt tt tt tt).
Definition pin_engine (pin : string) (run : option State) : Engine Git :=
  mkEngine (pin_service pin []) run ∅ ∅ "" ["ops"] [].

Definition healthy_status : RingStatus := mkRingStatus 1 1 1 0 0 1 1.
Definition demo_log : list AuditEntry :=
  [mkEntry "r2" "Alice" "settings: dock"; mkEntry "r1" engineAuthorName "rollout: pin"].
Definition pin_env (t : Time) : Env Git := {|
  now := t; get_err := None; put_err := None; conv := λ _ _, Ok healthy_status; builder := None;
  refs := true; set_ref_err := λ _ _, None; push_ref_err := λ _, None; head_rev := Ok "r2";
  audit_log := λ _, Ok demo_log; gate := passGate
|}.

Definition pin_rings : list Ring := [mkRgn "g" [] "" 1 0 false 0 0].
Definition pin_run : State := (NewState "r2" 1) <| s_Rings := pin_rings |>.

(** The same ports with a release builder, and with a store that is down. *)
Definition built_env (t : Time) (phase : BuildPhase) (down : option string) : Env Git := {|
  now := t; get_err := down; put_err := down; conv := λ _ _, Ok healthy_status;
  builder := Some (λ _ _, Ok (mkBuild phase "")); refs := true; set_ref_err := λ _ _, None; push_ref_err := λ _, None;
  head_rev := Ok "r2"; audit_log := λ _, Ok demo_log; gate := passGate
|}.

Ltac pin_wave :=
  let st := fresh in let ring := fresh in let Hrun := fresh in let Hring := fresh in
  intros st ring (Hrun & _ & Hring); vm_compute in Hrun; injection Hrun as <-; vm_compute in Hring; injection Hring as <-.
Ltac pin_harmless :=
  pin_wave; split;
    [intros _ rs (rs0 & Hrs0 & ->); vm_compute in Hrs0; injection Hrs0 as <-; split; [vm_compute; discriminate|vm_compute; reflexivity]
    |intros (ensure & hosts & bs & Hb & He & Hp); vm_compute in Hb; injection Hb as <-; injection He as <-; vm_compute in Hp; discriminate Hp].
Ltac pin_held :=
  intros (st & ring & rs & (Hrun & _ & Hring) & _ & _ & (c & Hc & Hs) & _); vm_compute in Hrun; injection Hrun as <-;
  vm_compute in Hring; injection Hring as <-; vm_compute in Hc;
  first [discriminate Hc | injection Hc as <-; vm_compute in Hs; by apply Hs].

(** A tick while the release builds, one while the store is down, the promotion,
    another start, the convergence, a tick inside the soak, and the last. *)
Lemma pin_course : ∃ l, course (pin_engine "r1" (Some pin_run)) l 3 0.
Proof.
  eexists.
  eapply (co_held (built_env 2 BuildBuilding None)); [pin_harmless|pin_held|].
  eapply (co_held (built_env 3 BuildDone (Some "down"))); [pin_harmless|pin_held|].
  eapply (co_fruitful (built_env 4 BuildDone None)); [pin_harmless| |].
  { split; [reflexivity|]. split; [reflexivity|]. eexists _, _. split; [split; [vm_compute; reflexivity|split; vm_compute; reflexivity]|].
    vm_compute. split; reflexivity. }
  eapply co_meanwhile; [apply (mw_start (pin_env 4) "r3" zero_opts)|].
  eapply (co_fruitful (built_env 5 BuildDone None)); [pin_harmless| |].
  { split; [reflexivity|]. split; [reflexivity|]. eexists _, _. split; [split; [vm_compute; reflexivity|split; vm_compute; reflexivity]|].
    eexists. split; [eexists; split; [vm_compute; reflexivity|reflexivity]|]. vm_compute. reflexivity. }
  eapply (co_held (built_env Minute BuildDone None)); [pin_harmless|pin_held|].
  eapply (co_fruitful (built_env (10 * Minute) BuildDone None)); [pin_harmless| |apply co_end].
  split; [reflexivity|]. split; [reflexivity|]. eexists _, _. split; [split; [vm_compute; reflexivity|split; vm_compute; reflexivity]|].
  eexists. split; [eexists; split; [vm_compute; reflexivity|reflexivity]|]. split; [|left; vm_compute; reflexivity].
  split; [split; [vm_compute; discriminate|split; vm_compute; reflexivity]|].
  split; [eexists; split; [vm_compute; reflexivity|vm_compute; discriminate]|left; vm_compute; discriminate].
Qed.

Lemma healthy_run_completes_witness :
  ∃ l s1 st1, course (pin_engine "r1" (Some pin_run)) l 3 0 ∧ s1 ∈ l ∧
    en_run s1 = Some st1 ∧ Status st1 = Completed ∧ s_Target st1 = "r2" ∧ s_Rings st1 = pin_rings.
Proof.
  destruct pin_course as [l Hc]. exists l.
  destruct (healthy_run_completes (pin_env 1) zero_opts "r2" (pin_engine "r1" None)
    (pin_engine "r1" (Some pin_run)) pin_run l 3 0) as (s1 & st1 & Hin & Hr & Hd & Ht & Hrs & _);
    [reflexivity|exact Hc|reflexivity|].
  exists s1, st1. split_and!; done.
Defined.

Lemma run_lifecycle_witness :
  run_step (en_run (pin_engine "r1" (Some pin_run))) (en_run (Tick (pin_env 2) (pin_engine "r1" (Some pin_run))).2).
Proof. apply run_lifecycle. constructor. Defined.

Lemma reachable_runs_ok_witness :
  ∃ st, en_run (Tick (pin_env 2) (maybeAutoStart (pin_env 1) (pin_engine "r1" None)).2).2 = Some st ∧ run_ok st.
Proof.
  destruct (en_run (Tick (pin_env 2) (maybeAutoStart (pin_env 1) (pin_engine "r1" None)).2).2) as [st|] eqn:Hr.
  2:{ exfalso. revert Hr. vm_compute. discriminate. }
  exists st. split; [reflexivity|].
  eapply (reachable_runs_ok (pin_engine "r1" None)); [|reflexivity|exact Hr].
  eapply rtc_l; [apply (es_auto (pin_env 1))|]. eapply rtc_l; [apply (es_tick (pin_env 2))|constructor].
Defined.

Lemma tick_moves_current_wave_only_witness :
  let s := pin_engine "r1" (Some pin_run) in
  let s' := (Tick (pin_env 2) s).2 in
  en_remote s' !! "rings/g" = Some "r2" ∧
  (same_branches s s' ∨ moved ["rings/g"] "r2" s s').
Proof.
  intros s s'. split; [vm_compute; reflexivity|].
  destruct (Tick (pin_env 2) s) as [r t] eqn:Ht.
  destruct (tick_moves_current_wave_only (pin_env 2) s r t Ht)
    as [Hs|(st & rings & ring & Hst & _ & Hr & Hring & _ & _ & Hm)].
  - left. exact Hs.
  - right. injection Hst as <-. injection Hr as <-. injection Hring as <-. exact Hm.
Defined.

Lemma held_run_freezes_witness :
  let s := pin_engine "r1" (Some (pin_run <| Status := Halted |>)) in
  (Tick (pin_env 2) s).2 = s ∧ (FollowHead (pin_env 2) s).2 = s ∧ (maybeAutoStart (pin_env 2) s).2 = s.
Proof. intros s. apply (held_run_freezes (pin_env 2) s (pin_run <| Status := Halted |>)); [reflexivity|by right]. Defined.

Lemma automatic_start_witness :
  let s := pin_engine "r1" None in
  ∃ st, en_run (maybeAutoStart (pin_env 1) s).2 = Some st ∧ s_Target st = "r2" ∧ s_Rings st = pin_rings.
Proof.
  intros s. destruct (maybeAutoStart (pin_env 1) s) as [r s'] eqn:Ha.
  destruct (automatic_start (pin_env 1) s r s' Ha) as (h & es & st & _ & _ & _ & Hh & _ & _ & _ & _ & -> & _ & Ht & Hp).
  { intros Hn. assert (en_run (maybeAutoStart (pin_env 1) s).2 = en_run s) as Hx by (by rewrite Ha).
    revert Hx. vm_compute. discriminate. }
  injection Hh as <-. injection Hp as Hp. exists st. split; [reflexivity|]. split; [exact Ht|by rewrite <- Hp].
Defined.

Lemma merge_discards_held_run_witness :
  let s := pin_engine "r1" (Some (pin_run <| Status := Halted |>)) in
  ∃ st, en_run (after_merge (pin_env 2) (mkMerged "cr" "t" true []) s).2 = Some st ∧ Status st = Active.
Proof.
  intros s.
  destruct (merge_discards_held_run (pin_env 2) (mkMerged "cr" "t" true []) s
              (pin_run <| Status := Halted |>) "r2" pin_rings) as (st & Hr & Hf & _);
    [reflexivity|by right|by split_and!|reflexivity|reflexivity|reflexivity|].
  exists st. split; [exact Hr|]. exact (proj1 Hf).
Defined.
