(* ===== verification/Changes.v ===== *)
(** * Change requests (src/internal/domain/change/change.go)

    The status flow of a change request, its blast radius and its identifier. *)

From S2P Require Import Prelude GoLib FleetModel Groups Resolve.

(** ** Statuses *)

(** A Go [Status] is a string: the six constants, or anything else. *)
Inductive CRStatus := Draft | Building | Failed | Ready | Merged | Abandoned | OtherStatus (s : string).

#[export] Instance CRStatus_eq_dec : EqDecision CRStatus.
Proof. solve_decision. Defined.

Definition ValidStatus (s : CRStatus) : bool :=
  match s with OtherStatus _ => false | _ => true end.

Definition transitions (from : CRStatus) : list CRStatus :=
  match from with
  | Draft => [Building; Abandoned]
  | Building => [Ready; Failed]
  | Failed => [Draft; Building; Abandoned]
  | Ready => [Merged; Draft; Abandoned]
  | Merged | Abandoned | OtherStatus _ => []
  end.

Definition CanTransition (from to : CRStatus) : bool := existsb (λ t, t ==? to) (transitions from).

(** ** Change requests *)

Record CR := mkCR {
  cr_ID : string; Title : string;
  cr_Author : string; AuthorSubject : string;
  Branch : string; cr_Status : CRStatus; cr_Error : string;
  Created : Time; cr_Updated : Time;
  Hosts : list string; WholeFleet : bool
}.
#[export] Instance CR_eta : Eta CR := λ r,
  mkCR (cr_ID r) (Title r) (cr_Author r) (AuthorSubject r) (Branch r) (cr_Status r) (cr_Error r)
       (Created r) (cr_Updated r) (Hosts r) (WholeFleet r).

(** [RecordHosts]: no hosts means an unbounded edit. *)
Definition RecordHosts (hosts : list string) (c : CR) : CR :=
  match hosts with
  | [] => c <| WholeFleet := true |>
  | _ => c <| Hosts ::= λ hs, foldl add_new hs hosts |>
  end.

Definition GateHosts (c : CR) : list string :=
  if WholeFleet c || (Hosts c ==? []) then [] else Hosts c.

Definition cr_Open (c : CR) : bool := (cr_Status c !=? Merged) && (cr_Status c !=? Abandoned).

Inductive CRErr :=
  | InvalidID (id : string)
  | NeedsTitle
  | UnknownStatus (to : CRStatus)
  | CannotMove (id : string) (from to : CRStatus).

(** [idRe], [^[a-z0-9][a-z0-9-]{0,62}$]. *)
Definition id_head (a : ascii) : bool := is_lower a || is_digit a.
Definition id_char (a : ascii) : bool := id_head a || Ascii.eqb a "-".
Definition ValidID (id : string) : option CRErr :=
  match id with
  | String a r =>
      if id_head a && string_forall id_char r && (String.length r <=? 62)%nat then None
      else Some (InvalidID id)
  | EmptyString => Some (InvalidID id)
  end.

Definition BranchFor (id : string) : string := "cr/" +:+ id.

Definition NewCR (id title author authorSubject : string) (now : Time) : res CRErr CR :=
  assert_none ValidID id;
  refuse title ==? "" with NeedsTitle;
  Ok (mkCR id title author authorSubject (BranchFor id) Draft "" now now [] false).

Definition Transition (to : CRStatus) (now : Time) (c : CR) : res CRErr CR :=
  refuse negb (ValidStatus to) with UnknownStatus to;
  refuse negb (CanTransition (cr_Status c) to) with CannotMove (cr_ID c) (cr_Status c) to;
  Ok (c <| cr_Status := to |> <| cr_Updated := now |>).

(** ** The status flow *)

Lemma CanTransition_spec from to : CanTransition from to = true ↔ to ∈ transitions from.
Proof.
  unfold CanTransition. rewrite existsb_exists. split.
  - intros (x & Hx & Heq). apply bool_decide_eq_true in Heq. subst. by apply list_elem_of_In.
  - intros H. exists to. rewrite bool_decide_eq_true. split; [by apply list_elem_of_In|done].
Qed.

Lemma Transition_Ok to now c c' :
  Transition to now c = Ok c' ↔
  to ∈ transitions (cr_Status c) ∧ c' = c <| cr_Status := to |> <| cr_Updated := now |>.
Proof.
  unfold Transition. destruct (CanTransition (cr_Status c) to) eqn:Hc.
  - apply CanTransition_spec in Hc. split.
    + destruct (ValidStatus to); simpl; [|done]. by intros [= <-].
    + intros [_ ->]. destruct to; try done. by destruct (cr_Status c); apply list_elem_of_In in Hc; simpl in Hc; naive_solver.
  - split; [by destruct (ValidStatus to)|]. intros [Hin _]. apply CanTransition_spec in Hin. congruence.
Qed.

(** What every record keeps from the moment it is opened. *)
Definition same_change (c c' : CR) : Prop :=
  cr_ID c' = cr_ID c ∧ Title c' = Title c ∧ cr_Author c' = cr_Author c ∧
  AuthorSubject c' = AuthorSubject c ∧ Branch c' = Branch c ∧ Created c' = Created c.

#[export] Instance same_change_preorder : PreOrder same_change.
Proof. split; [by intros c|]. unfold same_change. intros a b c. naive_solver congruence. Qed.

Lemma same_change_status s t c : same_change c (c <| cr_Status := s |> <| cr_Updated := t |>).
Proof. done. Qed.

(** ** The blast radius *)

(** [wider c c']: whatever the gate checked for [c] it checks for [c']. *)
Definition radius_covers (c : CR) (h : string) : Prop := WholeFleet c = true ∨ h ∈ Hosts c.

Lemma RecordHosts_covers hosts c h :
  radius_covers (RecordHosts hosts c) h ↔ radius_covers c h ∨ hosts = [] ∨ h ∈ hosts.
Proof.
  unfold radius_covers, RecordHosts. destruct hosts as [|h0 hosts]; simpl; [naive_solver|].
  change (foldl add_new (add_new (Hosts c) h0) hosts) with (foldl add_new (Hosts c) (h0 :: hosts)).
  rewrite elem_of_fold_add_new. naive_solver.
Qed.

Lemma RecordHosts_same hosts c : same_change c (RecordHosts hosts c) ∧ cr_Status (RecordHosts hosts c) = cr_Status c.
Proof. by destruct hosts. Qed.

Lemma GateHosts_nil c : GateHosts c = [] ↔ WholeFleet c = true ∨ Hosts c = [].
Proof.
  unfold GateHosts. destruct (WholeFleet c); simpl; [naive_solver|].
  case_bool_decide as H; simpl; [naive_solver|]. split; [done|]. naive_solver.
Qed.
