(* ===== verification/ChangeFlow.v ===== *)
(** * The change flow (src/internal/app/change.go)

    A change request is a branch, a linked worktree and a record: edits commit
    on the branch, the gate proves it, a merge lands it on the main branch.  The
    service's lock makes every operation one step, except that [Submit] drops it
    around the gate and [Merge] drops the configuration service's lock before
    the push: these are sequences of steps ([beginSubmit], [submit_verdict],
    [finishSubmit]; [mergeSection], [publishMerge]). *)

From S2P Require Import Prelude GoLib FleetModel Groups Resolve Apps Mutate DeviceOps Classes Verdicts Document ConfigTx Changes Scrub.

(** ** The interfaces (src/internal/ports/ports.go, stores.go) *)

Class BranchRepo (W : Type) := {
  CreateBranch : string → SE W string unit;
  DeleteBranch : string → SE W string unit;
  AddWorktree : string → string → SE W string unit;
  RemoveWorktree : string → SE W string unit;
  MergeNoFF : string → string → Author → SE W string unit;
  ResetHard : string → SE W string unit;
  Diff : string → W → res string string;
  BranchMerged : string → W → res string bool;
  RepoHead : W → res string string;
  RepoDir : string;
  (** [branchPublisher], when the repository implements it: PushRef, DeleteRemoteRef. *)
  Publisher : option ((string → SE W string unit) * (string → SE W string unit));
  (** [OpenWorktree], and [os.Stat] on the directory of one. *)
  OpenWorktree : string → W → res string (ConfigRepo W);
  StatDir : string → W → bool
}.

Class ChangeStore (S : Type) := {
  st_Get : string → S → res string (option CR);
  st_Put : CR → SE S string unit;
  st_List : S → res string (list CR)
}.

Inductive ChErr :=
  | BadChange (e : CRErr)
  | StoreE (e : string)
  | UnknownChange (id : string)
  | ChangeExists (id : string)
  | BranchE (e : string)
  | UndoE (store branch : string)
  | NotEditable (id : string) (st : CRStatus)
  | NotReady (id : string) (st : CRStatus)
  | NotPending (id : string) (st : CRStatus)
  | Unidentified (id : string)
  | OwnApproval (id : string)
  | EditE (e : TxErr)
  | NoHead (e : string)
  | MergeE (e : string)
  | MergeRefused (gate : string)
  | MergeStuck (gate reset : string)
  | MergedUnrecorded (e : string)
  | MergedUnread (e : TxErr)
  | MergedUnpushed (e : PushErr).

(** What the flow tells people, and the after-merge callback. *)
Inductive ChangeEvent :=
  | GateFailedBell (recipient title reason : string)
  | ReviewNeededBell (audience title author : string)
  | MergedBell (recipient title by_ : string)
  | AfterMerge (cr : CR).

(** The service's collaborators, as they answer during one operation. *)
Record ChEnv (W : Type) := mkChEnv {
  ce_gate : string → Gate W;                    (* Validate(dir, hosts) *)
  ce_refgate : option (string → string → Gate W);  (* ValidateRef(dir, ref, hosts) *)
  ce_build : string → W → list string → option string;
  ce_now : Time;
  ce_notifier : bool; ce_approvers : list string; ce_afterMerge : bool
}.
Arguments mkChEnv {W}. Arguments ce_gate {W}. Arguments ce_refgate {W}. Arguments ce_build {W}.
Arguments ce_now {W}. Arguments ce_notifier {W}. Arguments ce_approvers {W}. Arguments ce_afterMerge {W}.

Record Flow `{OverlayParsers} (W S : Type) := mkFlow {
  fl_cfg : ConfigService W; fl_store : S; fl_events : list ChangeEvent
}.
Arguments mkFlow {_ W S}. Arguments fl_cfg {_ W S}. Arguments fl_store {_ W S}. Arguments fl_events {_ W S}.

Section flow.
  Context {W S : Type} `{Hrepo : ConfigRepo W, BranchRepo W, ChangeStore S, GoJson, Fingerprint, FleetJson, OverlayParsers}.

Notation M A := (SE (Flow W S) ChErr A).

(** ** The parts of the state *)

Definition world (s : Flow W S) : W := tx_repo (cs_tx (fl_cfg s)).

Definition on_cfg {A} (k : TxErr → ChErr) (m : SE (ConfigService W) TxErr A) : M A := λ s,
    let '(r, c) := m (fl_cfg s) in (lift_err k r, mkFlow c (fl_store s) (fl_events s)).

(** A transaction on a worktree shares the console's verdicts. *)
Definition on_verdicts {A} (k : TxErr → ChErr) (m : SE (Tx W) TxErr A) : M A := λ s,
    let '(r, tx) := m (cs_tx (fl_cfg s)) in
    (lift_err k r, mkFlow (mkService tx (cs_snap (fl_cfg s))) (fl_store s) (fl_events s)).

Definition on_world {E A} (k : E → ChErr) (m : SE W E A) : M A := λ s,
    let '(r, w) := m (world s) in
    (lift_err k r, mkFlow (mkService (mkTx w (tx_verdicts (cs_tx (fl_cfg s)))) (cs_snap (fl_cfg s)))
                     (fl_store s) (fl_events s)).

(** A best-effort step: its error is only logged. *)
Definition best_effort (m : SE W string unit) : M unit := on_world BranchE (λ w, (Ok tt, snd (m w))).

Definition st_put (k : string → ChErr) (cr : CR) : M unit := λ s,
    let '(r, st) := st_Put cr (fl_store s) in (lift_err k r, mkFlow (fl_cfg s) st (fl_events s)).

Definition raise (ev : ChangeEvent) : M unit := se_modify (λ s, mkFlow (fl_cfg s) (fl_store s) (fl_events s ++ [ev])).

Definition worktreeDir (id : string) : string := RepoDir +:+ "/.cr/" +:+ id.

(** ** Reading *)

Definition cr_check (o : option CRErr) : M unit :=
    match o with Some e => se_err (BadChange e) | None => se_ret tt end.

Definition mustGet (id : string) : M CR :=
    run! cr_check (ValidID id);
    do! g <- se_get (λ s, st_Get id (fl_store s));
    match g with
    | Err e => se_err (StoreE e)
    | Ok None => se_err (UnknownChange id)
    | Ok (Some cr) => se_ret cr
    end.

Definition GetChange (id : string) : M (option CR) :=
    run! cr_check (ValidID id);
    do! g <- se_get (λ s, st_Get id (fl_store s));
    se_lift (lift_err StoreE g).

Definition ListChanges : M (list CR) :=
    do! l <- se_get (λ s, st_List (fl_store s)); se_lift (lift_err StoreE l).

Definition ChangeDiff (id : string) : M string :=
    do! cr <- mustGet id;
    if negb (cr_Open cr) then se_err (NotPending id (cr_Status cr)) else
    do! d <- se_get (λ s, Diff (Branch cr) (world s));
    se_lift (lift_err BranchE d).

(** ** Worktrees and branches *)

Definition ensureWorktree (cr : CR) : M (ConfigRepo W) :=
    let dir := worktreeDir (cr_ID cr) in
    do! o <- se_get (λ s, OpenWorktree dir (world s));
    match o with
    | Ok wt => se_ret wt
    | Err _ =>
        run! on_world BranchE (AddWorktree dir (Branch cr));
        do! o <- se_get (λ s, OpenWorktree dir (world s));
        se_lift (lift_err BranchE o)
    end.

Definition publishBranch (cr : CR) : M unit :=
    match Publisher with
    | Some (PushRef, _) => best_effort (PushRef (Branch cr))
    | None => se_ret tt
    end.

Definition cleanup (cr : CR) : M unit :=
    let dir := worktreeDir (cr_ID cr) in
    do! there <- se_get (λ s, StatDir dir (world s));
    run! (if there then best_effort (RemoveWorktree dir) else se_ret tt);
    run! best_effort (DeleteBranch (Branch cr));
    match Publisher with
    | Some (_, DeleteRemoteRef) => best_effort (DeleteRemoteRef (Branch cr))
    | None => se_ret tt
    end.

Definition branchExists (b : string) (w : W) : bool := is_ok (BranchMerged b w).

(** ** The gate *)

Definition gateScope (repo : ConfigRepo W) (recorded : list string) (w : W) : list string :=
    match @ReadFile W repo FleetFile w with
    | Err _ => recorded
    | Ok raw =>
        match Decode raw with
        | Err _ => recorded
        | Ok f => match recorded with [] => Representatives f | _ => SampleHosts f recorded end
        end
    end.

Definition gateRef (env : ChEnv W) (branch : string) : string :=
    match ce_refgate env, Publisher with Some _, Some _ => branch | _, _ => "" end.

Definition validate (env : ChEnv W) (dir ref : string) (hosts : list string) (w : W) : option string :=
    match ce_refgate env with
    | Some rg => if ref ==? "" then ce_gate env dir w hosts else rg dir ref w hosts
    | None => ce_gate env dir w hosts
    end.

(** ** Opening and editing *)

Definition OpenChange (env : ChEnv W) (id title : string) (a : Author) : M CR :=
    match NewCR id title (au_Name a) (au_Subject a) (ce_now env) with
    | Err e => se_err (BadChange e)
    | Ok cr =>
        do! g <- se_get (λ s, st_Get id (fl_store s));
        match g with
        | Err e => se_err (StoreE e)
        | Ok (Some _) => se_err (ChangeExists id)
        | Ok None =>
            run! on_world BranchE (CreateBranch (Branch cr));
            λ s, match st_put StoreE cr s with
                 | (Ok _, s) => (Ok cr, s)
                 | (Err (StoreE e), s) =>
                     let '(r, s) := on_world BranchE (DeleteBranch (Branch cr)) s in
                     (match r with
                      | Err (BranchE d) => Err (UndoE e d)
                      | _ => Err (StoreE e)
                      end, s)
                 | (Err e, s) => (Err e, s)
                 end
        end
    end.

Definition editable (cr : CR) : bool := (cr_Status cr ==? Draft) || (cr_Status cr ==? Failed).

(** A reworked failed change moves back to draft. *)
Definition rework (now : Time) (cr : CR) : res ChErr CR :=
    if cr_Status cr ==? Failed
    then let! cr := lift_err BadChange (Transition Draft now cr) in Ok (cr <| cr_Error := "" |>)
    else Ok cr.

(** The end of an edit that committed. *)
Definition recordEdit (env : ChEnv W) (hosts : list string) (cr : CR) : M unit :=
    do! cr <- se_lift (rework (ce_now env) (RecordHosts hosts cr));
    let cr := cr <| cr_Updated := ce_now env |> in
    run! publishBranch cr;
    st_put StoreE cr.

Definition EditFile (env : ChEnv W) (id path content msg : string) (a : Author) : M unit :=
    do! cr <- mustGet id;
    if negb (editable cr) then se_err (NotEditable id (cr_Status cr)) else
    do! wt <- ensureWorktree cr;
    run! on_world BranchE (@WriteFile W wt path content);
    run! on_world BranchE (@CommitFile W wt msg a path);
    recordEdit env [] cr.

Definition Edit (env : ChEnv W) (id : string) (mut : Mutation) (msg : string) (a : Author)
      (hosts : list string) : M unit :=
    do! cr <- mustGet id;
    if negb (editable cr) then se_err (NotEditable id (cr_Status cr)) else
    do! wt <- ensureWorktree cr;
    run! on_verdicts EditE (@applyTx W wt _ _ _ (ce_gate env (worktreeDir id)) mut msg a hosts);
    recordEdit env hosts cr.

(** ** Submitting *)

Definition beginSubmit (env : ChEnv W) (id : string) : M (string * list string) :=
    do! cr <- mustGet id;
    do! wt <- ensureWorktree cr;
    do! cr <- se_lift (lift_err BadChange (Transition Building (ce_now env) cr));
    run! st_put StoreE cr;
    do! hosts <- se_get (λ s, gateScope wt (GateHosts cr) (world s));
    se_ret (worktreeDir (cr_ID cr), hosts).

Definition errNothingToValidate : string :=
    "this change carries no commits, so there is nothing to validate: edit it first, or abandon it".

(** What the gate and the builder say about the branch, outside the lock. *)
Definition submit_verdict (env : ChEnv W) (id dir : string) (hosts : list string) (w : W) : option string :=
    if match Diff (BranchFor id) w with Ok diff => trim_space diff ==? "" | Err _ => false end
    then Some errNothingToValidate
    else match validate env dir (gateRef env (BranchFor id)) hosts w with
         | Some e => Some e
         | None => if hosts ==? [] then None else ce_build env dir w hosts
         end.

Definition notify (env : ChEnv W) (ev : ChangeEvent) : M unit :=
    if ce_notifier env then raise ev else se_ret tt.

Definition finishSubmit (env : ChEnv W) (id : string) (gateErr : option string) : M CR :=
    do! cr <- mustGet id;
    do! cr <-
      match gateErr with
      | Some e =>
          do! cr <- se_lift (lift_err BadChange
                      (Transition Changes.Failed (ce_now env) (cr <| cr_Error := ScrubCredentials e |>)));
          run! (if AuthorSubject cr !=? "" then notify env (GateFailedBell (AuthorSubject cr) (Title cr) (cr_Error cr))
                else se_ret tt);
          se_ret cr
      | None =>
          do! cr <- se_lift (lift_err BadChange (Transition Ready (ce_now env) (cr <| cr_Error := "" |>)));
          run! se_each (λ g, notify env (ReviewNeededBell g (Title cr) (cr_Author cr))) (ce_approvers env);
          se_ret cr
      end;
    run! st_put StoreE cr;
    se_ret cr.

Definition Submit (env : ChEnv W) (id : string) : M CR :=
    do! dh <- beginSubmit env id;
    do! v <- se_get (λ s, submit_verdict env id dh.1 dh.2 (world s));
    finishSubmit env id v.

(** ** Merging *)

Definition four_eyes (f : Fleet) (id : string) (cr : CR) (a : Author) : option ChErr :=
    if match f_Assurance f with Some asr => RequireFourEyes asr | None => false end then
      if (AuthorSubject cr ==? "") || (au_Subject a ==? "") then Some (Unidentified id)
      else if AuthorSubject cr ==? au_Subject a then Some (OwnApproval id)
      else None
    else None.

Definition merge_message (cr : CR) : string := "merge change " +:+ cr_ID cr +:+ ": " +:+ Title cr.

(** The part of [Merge] under the configuration service's write lock. *)
Definition mergeSection (env : ChEnv W) (id : string) (a : Author) : M CR :=
    do! cr <- mustGet id;
    if cr_Status cr !=? Ready then se_err (NotReady id (cr_Status cr)) else
    do! refused <- se_get (λ s, four_eyes (cs_Fleet (fl_cfg s)) id cr a);
    match refused with
    | Some e => se_err e
    | None =>
        do! pre <- se_get (λ s, RepoHead (world s));
        do! pre <- se_lift (lift_err NoHead pre);
        run! on_world MergeE (MergeNoFF (Branch cr) (merge_message cr) a);
        do! verdict <- se_get (λ s, validate env RepoDir (gateRef env (Branch cr))
                                     (gateScope Hrepo (GateHosts cr) (world s)) (world s));
        match verdict with
        | Some err =>
            run! on_world (MergeStuck err) (ResetHard pre);
            se_err (MergeRefused err)
        | None =>
            do! cr <- se_lift (lift_err BadChange (Transition Merged (ce_now env) cr));
            run! st_put MergedUnrecorded cr;
            run! cleanup cr;
            run! on_cfg MergedUnread reload;
            se_ret cr
        end
    end.

(** The rest of [Merge]: the push, and what follows from it. *)
Definition publishMerge (env : ChEnv W) (a : Author) (cr : CR) : M CR :=
    run! (if HasRemote then on_world MergedUnpushed Push else se_ret tt);
    run! (if AuthorSubject cr !=? "" then notify env (MergedBell (AuthorSubject cr) (Title cr) (au_Name a))
          else se_ret tt);
    run! (if ce_afterMerge env then raise (AfterMerge cr) else se_ret tt);
    se_ret cr.

Definition Merge (env : ChEnv W) (id : string) (a : Author) : M CR :=
    do! cr <- mergeSection env id a; publishMerge env a cr.

Definition Abandon (env : ChEnv W) (id : string) : M CR :=
    do! cr <- mustGet id;
    do! cr <- se_lift (lift_err BadChange (Transition Abandoned (ce_now env) cr));
    run! cleanup cr;
    run! st_put StoreE cr;
    se_ret cr.

(** ** Reconciling with git *)

Definition reconcile_one (env : ChEnv W) (cr : CR) : M unit :=
    if (cr_Status cr ==? Abandoned) || (cr_Status cr ==? Merged) then
      do! there <- se_get (λ s, branchExists (Branch cr) (world s));
      if (Branch cr !=? "") && there then cleanup cr else se_ret tt
    else if cr_Status cr !=? Ready then se_ret tt
    else
      do! merged <- se_get (λ s, BranchMerged (Branch cr) (world s));
      match merged with
      | Ok true =>
          do! cr <- se_lift (lift_err BadChange (Transition Merged (ce_now env) cr));
          run! st_put StoreE cr;
          cleanup cr
      | _ => se_ret tt
      end.

Definition Reconcile (env : ChEnv W) : M unit :=
    do! l <- se_get (λ s, st_List (fl_store s));
    do! all <- se_lift (lift_err StoreE l);
    se_each (reconcile_one env) all.
End flow.
