(* ===== verification/ChangeProofs.v ===== *)
(** * What the change flow guarantees

    Theorems on ChangeFlow, against the contracts of the store and of git: the
    life of a record, the exclusivity of a submit, what a merge lands, and the
    reconciliation of records with git. *)

From S2P Require Import Prelude GoLib FleetModel Groups Resolve Apps Mutate DeviceOps Classes Verdicts Document ConfigTx ConfigSafety Changes Scrub ChangeFlow.

(** ** The contracts *)

(** A store answers with what was put; a put that failed may have been taken. *)
Class StoreLaws (S : Type) `{ChangeStore S} := {
  recs : S → gmap string CR;
  st_get_law id st r : st_Get id st = Ok r → r = recs st !! id;
  st_put_law c st r st' : st_Put c st = (r, st') →
    recs st' = <[cr_ID c := c]> (recs st) ∨ (r ≠ Ok tt ∧ recs st' = recs st);
  st_list_law st l : st_List st = Ok l →
    NoDup (cr_ID <$> l) ∧ (∀ c, c ∈ l → recs st !! cr_ID c = Some c) ∧
    (∀ id c, recs st !! id = Some c → cr_ID c = id → c ∈ l)
}.

(** Git keeps the branches, worktrees and published refs of the changes apart:
    [part w id] is what a world holds for the change [id].  The main branch is
    the [history] and [tree] of [RepoLaws]. *)
Definition main_kept {W} `{RepoLaws W} (w w' : W) : Prop :=
  history w' = history w ∧ tree w' = tree w ∧ remote w `suffix_of` remote w'.

Class BranchLaws (W : Type) `{ConfigRepo W, !RepoLaws W, BranchRepo W} := {
  Part : Type;
  part : W → string → Part;
  has_worktree : Part → Prop;
  (** operations of the main tree touch no change *)
  write_part s w r w' id : WriteFile FleetFile s w = (r, w') → part w' id = part w id;
  commit_part m a w r w' id : CommitFile m a FleetFile w = (r, w') → part w' id = part w id;
  sync_part w r w' id : Sync w = (r, w') → part w' id = part w id;
  push_part w r w' id : Push w = (r, w') → part w' id = part w id;
  reset_part rev w r w' id : ResetHard rev w = (r, w') → part w' id = part w id;
  merge_part b m a w r w' id : MergeNoFF b m a w = (r, w') → part w' id = part w id;
  (** operations of one change touch neither the main branch nor another change *)
  own_op (id : string) (m : SE W string unit) : Prop;
  create_own id : own_op id (CreateBranch (BranchFor id));
  delete_own id : own_op id (DeleteBranch (BranchFor id));
  add_own id b : own_op id (AddWorktree (worktreeDir id) b);
  remove_own id : own_op id (RemoveWorktree (worktreeDir id));
  push_own id f g : Publisher = Some (f, g) → own_op id (f (BranchFor id));
  unpush_own id f g : Publisher = Some (f, g) → own_op id (g (BranchFor id));
  wt_write_own id w wt n s : OpenWorktree (worktreeDir id) w = Ok wt → own_op id (@WriteFile W wt n s);
  wt_commit_own id w wt m a n : OpenWorktree (worktreeDir id) w = Ok wt → own_op id (@CommitFile W wt m a n);
  own_op_law id m w r w' : own_op id m → m w = (r, w') →
    main_kept w w' ∧ ∀ id', id' ≠ id → part w' id' = part w id';
  (** a worktree that exists is not added again *)
  open_has id w wt : OpenWorktree (worktreeDir id) w = Ok wt → has_worktree (part w id);
  add_refused id b w r w' : has_worktree (part w id) →
    AddWorktree (worktreeDir id) b w = (r, w') → part w' id = part w id;
  (** merging and resetting the main branch *)
  merge_law b m a w r w' : MergeNoFF b m a w = (r, w') →
    remote w `suffix_of` remote w' ∧
    match r with
    | Ok _ => (∃ theirs, history w' = mkCommit m a (tree w') :: theirs ++ history w) ∨
              (BranchMerged b w = Ok true ∧ history w' = history w)  (* already up to date *)
    | Err _ => history w' = history w
    end;
  reset_law rev w0 w r w' : RepoHead w0 = Ok rev → history w0 `suffix_of` history w →
    ResetHard rev w = (r, w') →
    remote w' = remote w ∧
    (r = Ok tt → history w' = history w0 ∧ ∀ c l, history w0 = c :: l → tree w' = c_doc c);
  (** whether a branch is merged is a matter of that branch and the main one *)
  merged_local id w w' : part w' id = part w id → history w' = history w →
    BranchMerged (BranchFor id) w' = BranchMerged (BranchFor id) w;
  merge_merges id m a w w' : MergeNoFF (BranchFor id) m a w = (Ok tt, w') →
    BranchMerged (BranchFor id) w' = Ok true
}.

Section proofs.
  Context {W S : Type} `{Hrepo : ConfigRepo W, !RepoLaws W, !BranchRepo W, !BranchLaws W, !ChangeStore S, !StoreLaws S}.
  Context `{GoJson, Fingerprint, FleetJson, OverlayParsers}.

Notation Fl := (Flow W S).
Notation records s := (recs (fl_store s)).

(** Every record is filed under its id, with the branch derived from it. *)
Definition filed (s : Fl) : Prop :=
    ∀ id c, records s !! id = Some c → cr_ID c = id ∧ Branch c = BranchFor id.

(** ** Frames *)

Definition same_records (s s' : Fl) : Prop := records s' = records s.
#[local] Instance same_records_preorder : PreOrder same_records.
Proof. split; [done|]. unfold same_records. intros ???. congruence. Qed.

Lemma on_world_records {E A} k (m : SE W E A) : respects same_records (on_world k m : SE Fl ChErr A).
Proof. intros s r s'. unfold on_world. destruct (m (world s)). by intros [= <- <-]. Qed.
Lemma on_verdicts_records {A} k (m : SE (Tx W) TxErr A) : respects same_records (on_verdicts k m : SE Fl ChErr A).
Proof. intros s r s'. unfold on_verdicts. destruct (m _). by intros [= <- <-]. Qed.
Lemma on_cfg_records {A} k (m : SE (ConfigService W) TxErr A) : respects same_records (on_cfg k m : SE Fl ChErr A).
Proof. intros s r s'. unfold on_cfg. destruct (m _). by intros [= <- <-]. Qed.
Lemma best_effort_records m : respects same_records (best_effort m : SE Fl ChErr unit).
Proof. apply on_world_records. Qed.
Lemma raise_records ev : respects same_records (raise ev : SE Fl ChErr unit).
Proof. by apply respects_modify. Qed.
#[local] Hint Resolve on_world_records on_verdicts_records on_cfg_records best_effort_records raise_records : respects.

Lemma cr_check_records o : respects same_records (cr_check o : SE Fl ChErr unit).
Proof. unfold cr_check. respect. Qed.
#[local] Hint Resolve cr_check_records : respects.

Lemma mustGet_records id : respects same_records (mustGet id : SE Fl ChErr CR).
Proof. unfold mustGet. respect. Qed.
Lemma ensureWorktree_records cr : respects same_records (ensureWorktree cr : SE Fl ChErr (ConfigRepo W)).
Proof. unfold ensureWorktree. respect. Qed.
Lemma publishBranch_records cr : respects same_records (publishBranch cr : SE Fl ChErr unit).
Proof. unfold publishBranch. respect. Qed.
Lemma cleanup_records cr : respects same_records (cleanup cr : SE Fl ChErr unit).
Proof. unfold cleanup. respect. Qed.
Lemma notify_records env ev : respects same_records (notify env ev : SE Fl ChErr unit).
Proof. unfold notify. respect. Qed.
#[local] Hint Resolve mustGet_records ensureWorktree_records publishBranch_records cleanup_records notify_records : respects.

Lemma publishMerge_records env a cr : respects same_records (publishMerge env a cr : SE Fl ChErr CR).
Proof. unfold publishMerge. respect. Qed.
#[local] Hint Resolve publishMerge_records : respects.

Lemma mustGet_inv id (s : Fl) r s' :
    mustGet id s = (r, s') → s' = s ∧ ∀ c, r = Ok c → records s !! id = Some c.
Proof.
    unfold mustGet, cr_check, se_bind, se_get. destruct (ValidID id); [by intros [= <- <-]|]. simpl.
    destruct (st_Get id (fl_store s)) as [[c|]|e] eqn:Hg; intros [= <- <-]; split; try done.
    intros c' [= <-]. by apply st_get_law in Hg.
Qed.

Lemma st_put_inv k c (s : Fl) r s' :
    st_put k c s = (r, s') →
    fl_cfg s' = fl_cfg s ∧ fl_events s' = fl_events s ∧
    (records s' = <[cr_ID c := c]> (records s) ∨ (r ≠ Ok tt ∧ records s' = records s)).
Proof.
    unfold st_put. destruct (st_Put c (fl_store s)) as [r0 st] eqn:Hp. apply st_put_law in Hp.
    intros [= <- <-]. simpl. split_and!; try done. destruct Hp as [?|[Hr ?]]; [by left|right].
    split; [|done]. destruct r0 as [[]|]; done.
Qed.

(** ** The operations as steps *)

Inductive FlowOp :=
  | OOpen (id title : string) (a : Author)
  | OEditFile (id path content msg : string) (a : Author)
  | OEdit (id : string) (mut : Mutation) (msg : string) (a : Author) (hosts : list string)
  | OBegin (id : string)
  | OFinish (id : string) (verdict : option string)
  | OMerge (id : string) (a : Author)
  | OPublish (a : Author) (cr : CR)
  | OAbandon (id : string)
  | OReconcile
  | OApply (gate : Gate W) (mut : Mutation) (msg : string) (a : Author) (hosts : list string)
  | OSync.

Definition void {A} (m : SE Fl ChErr A) : SE Fl ChErr unit := run! m; se_ret tt.

Definition flow_op (env : ChEnv W) (op : FlowOp) : SE Fl ChErr unit :=
    match op with
    | OOpen id title a => void (OpenChange env id title a)
    | OEditFile id path content msg a => EditFile env id path content msg a
    | OEdit id mut msg a hosts => Edit env id mut msg a hosts
    | OBegin id => void (beginSubmit env id)
    | OFinish id v => void (finishSubmit env id v)
    | OMerge id a => void (mergeSection env id a)
    | OPublish a cr => void (publishMerge env a cr)
    | OAbandon id => void (Abandon env id)
    | OReconcile => Reconcile env
    | OApply gate mut msg a hosts => on_cfg EditE (Apply gate mut msg a hosts)
    | OSync => on_cfg EditE SyncTick
    end.

(** What an operation may do to the record of a change. *)
Definition edited (env : ChEnv W) (hosts : list string) (c : CR) : CR :=
    (RecordHosts hosts c) <| cr_Status := Draft |>
      <| cr_Error := if cr_Status c ==? Changes.Failed then "" else cr_Error c |>
      <| cr_Updated := ce_now env |>.

Definition moved (env : ChEnv W) (to : CRStatus) (c : CR) : CR :=
    c <| cr_Status := to |> <| cr_Updated := ce_now env |>.

Definition judged (env : ChEnv W) (v : option string) (c : CR) : CR :=
    match v with
    | Some e => moved env Changes.Failed (c <| cr_Error := ScrubCredentials e |>)
    | None => moved env Ready (c <| cr_Error := "" |>)
    end.

Inductive record_step (env : ChEnv W) : FlowOp → CR → CR → Prop :=
    | rs_edit id mut msg a hosts c :
        cr_Status c = Draft ∨ cr_Status c = Changes.Failed → cr_ID c = id →
        record_step env (OEdit id mut msg a hosts) c (edited env hosts c)
    | rs_edit_file id path content msg a c :
        cr_Status c = Draft ∨ cr_Status c = Changes.Failed → cr_ID c = id →
        record_step env (OEditFile id path content msg a) c (edited env [] c)
    | rs_begin id c :
        cr_Status c = Draft ∨ cr_Status c = Changes.Failed → cr_ID c = id →
        record_step env (OBegin id) c (moved env Building c)
    | rs_finish id v c :
        cr_Status c = Building → cr_ID c = id →
        record_step env (OFinish id v) c (judged env v c)
    | rs_merge id a c :
        cr_Status c = Ready → cr_ID c = id → record_step env (OMerge id a) c (moved env Merged c)
    | rs_abandon id c :
        cr_Status c = Draft ∨ cr_Status c = Changes.Failed ∨ cr_Status c = Ready → cr_ID c = id →
        record_step env (OAbandon id) c (moved env Abandoned c)
    | rs_reconcile c :
        cr_Status c = Ready → record_step env OReconcile c (moved env Merged c).

Definition record_change (env : ChEnv W) (op : FlowOp) (id : string) (o o' : option CR) : Prop :=
    match o, o' with
    | Some c, Some c' => c' = c ∨ record_step env op c c'
    | None, Some c' => ∃ title a, op = OOpen id title a ∧
                         NewCR id title (au_Name a) (au_Subject a) (ce_now env) = Ok c'
    | None, None => True
    | Some _, None => False
    end.

Lemma record_change_refl env op id o : record_change env op id o o.
Proof. destruct o; simpl; auto. Qed.

(** A put of a legal successor is a legal change of the records. *)
Lemma put_change env op c c' (s : Fl) m id :
    records s !! cr_ID c = Some c → cr_ID c' = cr_ID c → record_step env op c c' →
    m = <[cr_ID c' := c']> (records s) ∨ m = records s →
    record_change env op id (records s !! id) (m !! id).
Proof.
    intros Hc Hid Hst [->| ->]; [|apply record_change_refl].
    destruct (decide (id = cr_ID c')) as [->|Hne].
    - rewrite lookup_insert_eq, Hid, Hc. simpl. by right.
    - rewrite lookup_insert_ne by congruence. apply record_change_refl.
Qed.

(** ** The puts of each operation *)

(** [puts c s s' r]: the operation put [c], or failed without putting it. *)
Definition puts {A} (c : CR) (s s' : Fl) (r : res ChErr A) : Prop :=
    records s' = <[cr_ID c := c]> (records s) ∨ (is_ok r = false ∧ records s' = records s).

Lemma puts_any {A} c (s s' : Fl) (r : res ChErr A) :
    puts c s s' r → records s' = <[cr_ID c := c]> (records s) ∨ records s' = records s.
Proof. intros [?|[_ ?]]; auto. Qed.

Lemma st_put_puts k c (s0 s : Fl) r s' :
    same_records s0 s → st_put k c s = (r, s') → puts c s0 s' r.
Proof.
    intros Hs Hp. apply st_put_inv in Hp as (_ & _ & [Hr|[Hr1 Hr]]); rewrite Hs in Hr; [by left|right].
    split; [|done]. by destruct r as [[]|].
Qed.

Lemma st_put_then {A} k c (m : SE Fl ChErr A) (s0 s : Fl) r s' :
    same_records s0 s → respects same_records m →
    se_bind (st_put k c) (λ _, m) s = (r, s') → puts c s0 s' r.
Proof.
    intros Hs Hm [(u & s1 & Hp & Hk)|(e & Hp & ->)]%se_bind_inv.
    - destruct (st_put_puts _ _ _ _ _ _ Hs Hp) as [Hr|[? _]]; [|done]. left. rewrite <- Hr. by eapply Hm.
    - eapply st_put_puts in Hp; [|exact Hs]. destruct Hp as [?|[_ ?]]; [by left|by right].
Qed.

Lemma rework_edited env hosts c :
    cr_Status c = Draft ∨ cr_Status c = Changes.Failed →
    ∃ c', rework (ce_now env) (RecordHosts hosts c) = Ok c' ∧
          c' <| cr_Updated := ce_now env |> = edited env hosts c.
Proof.
    assert (cr_Status (RecordHosts hosts c) = cr_Status c ∧ cr_Error (RecordHosts hosts c) = cr_Error c)
      as [Hs He] by (by destruct hosts).
    unfold rework, edited. rewrite Hs, <- He. clear He. revert Hs.
    generalize (RecordHosts hosts c) as c0. intros c0 Hs [Hc|Hc]; rewrite Hc in Hs |- *; simpl.
    - eexists. split; [done|]. destruct c0. simpl in *. by subst.
    - unfold Transition. rewrite Hs. simpl. eexists. done.
Qed.

Lemma recordEdit_puts env hosts c (s0 s : Fl) r s' :
    cr_Status c = Draft ∨ cr_Status c = Changes.Failed → same_records s0 s →
    recordEdit env hosts c s = (r, s') → puts (edited env hosts c) s0 s' r.
Proof.
    intros Hc Hs. destruct (rework_edited env hosts c Hc) as (c' & Hr & He). unfold recordEdit. rewrite Hr.
    unfold lift_err, se_lift at 1. intros [(u & s1 & Hp & Hk)|(e & Hp & ->)]%se_bind_inv.
    - injection Hp as <- <-. rewrite He in Hk.
      apply se_bind_inv in Hk as [(u & s2 & Hp & Hk)|(e & Hp & ->)]; apply publishBranch_records in Hp.
      + eapply st_put_puts; [|exact Hk]. by etrans.
      + right. split; [done|]. by rewrite Hp.
    - discriminate Hp.
Qed.

(** An operation on the change [id]: it fails before the record is read, or it
    puts at most the successor [next] of a record with an allowed status. *)
Definition on_record {A} (id : string) (allowed : CRStatus → Prop) (next : CR → CR)
      (s s' : Fl) (r : res ChErr A) : Prop :=
    (is_ok r = false ∧ same_records s s') ∨
    ∃ c, records s !! id = Some c ∧ allowed (cr_Status c) ∧ puts (next c) s s' r.

Lemma not_ok {A} (e : ChErr) (s s' : Fl) id allowed next :
    same_records s s' → on_record (A := A) id allowed next s s' (Err e).
Proof. by left. Qed.

Ltac fetch Hk c Hc :=
    let s1 := fresh "s1" in let Hg := fresh in let e := fresh "e" in
    apply se_bind_inv in Hk as [(c & s1 & Hg & Hk)|(e & Hg & ->)];
    apply mustGet_inv in Hg as [-> Hg]; [specialize (Hg c eq_refl); rename Hg into Hc|by apply not_ok].

Definition open_status (s : CRStatus) : Prop := s = Draft ∨ s = Changes.Failed.

Lemma editable_spec c : editable c = true ↔ open_status (cr_Status c).
Proof. unfold editable, open_status. rewrite orb_true_iff, !bool_decide_eq_true. done. Qed.

(** A transition inside an operation. *)
Lemma transition_step {A} env to c (k : CR → SE Fl ChErr A) (s s' : Fl) r :
    se_bind (se_lift (lift_err BadChange (Transition to (ce_now env) c))) k s = (r, s') →
    (to ∈ transitions (cr_Status c) ∧ k (moved env to c) s = (r, s')) ∨ (is_ok r = false ∧ s' = s).
Proof.
    unfold se_bind, se_lift. destruct (Transition to (ce_now env) c) as [c'|e] eqn:Ht; simpl.
    - apply Transition_Ok in Ht as [Hin ->]. by left.
    - intros [= <- <-]. by right.
Qed.

Lemma Edit_record env id mut msg a hosts (s : Fl) r s' :
    Edit env id mut msg a hosts s = (r, s') → on_record id open_status (edited env hosts) s s' r.
Proof.
    unfold Edit. intros Hk. fetch Hk c Hc.
    destruct (editable c) eqn:Hed; cbn [negb] in Hk; [|injection Hk as <- <-; by apply not_ok].
    apply editable_spec in Hed.
    apply se_bind_inv in Hk as [(wt & s1 & He & Hk)|(e & He & ->)]; apply ensureWorktree_records in He; [|by apply not_ok].
    apply se_bind_inv in Hk as [(f & s2 & Ht & Hk)|(e & Ht & ->)]; apply on_verdicts_records in Ht; [|apply not_ok; by etrans].
    right. exists c. split_and!; [done..|]. eapply recordEdit_puts; [done| |exact Hk]. by etrans.
Qed.

Lemma EditFile_record env id path content msg a (s : Fl) r s' :
    EditFile env id path content msg a s = (r, s') → on_record id open_status (edited env []) s s' r.
Proof.
    unfold EditFile. intros Hk. fetch Hk c Hc.
    destruct (editable c) eqn:Hed; cbn [negb] in Hk; [|injection Hk as <- <-; by apply not_ok].
    apply editable_spec in Hed.
    apply se_bind_inv in Hk as [(wt & s1 & He & Hk)|(e & He & ->)]; apply ensureWorktree_records in He; [|by apply not_ok].
    apply se_bind_inv in Hk as [(f & s2 & Ht & Hk)|(e & Ht & ->)]; apply on_world_records in Ht; [|apply not_ok; by etrans].
    apply se_bind_inv in Hk as [(u & s3 & Hco & Hk)|(e & Hco & ->)]; apply on_world_records in Hco;
      [|apply not_ok; etrans; [|exact Hco]; by etrans].
    right. exists c. split_and!; [done..|]. eapply recordEdit_puts; [done| |exact Hk].
    etrans; [|exact Hco]. by etrans.
Qed.

Lemma beginSubmit_record env id (s : Fl) r s' :
    beginSubmit env id s = (r, s') → on_record id open_status (moved env Building) s s' r.
Proof.
    unfold beginSubmit. intros Hk. fetch Hk c Hc.
    apply se_bind_inv in Hk as [(wt & s1 & He & Hk)|(e & He & ->)]; apply ensureWorktree_records in He; [|by apply not_ok].
    apply transition_step in Hk as [[Hin Hk]|[Hr ->]]; [|by left].
    right. exists c. split_and!; [done| |].
    - unfold open_status. destruct (cr_Status c); simpl in Hin; set_solver.
    - eapply (st_put_then _ _ _ _ _ _ _ He); [|exact Hk]. respect.
Qed.

Lemma finishSubmit_record env id v (s : Fl) r s' :
    finishSubmit env id v s = (r, s') → on_record id (λ st, st = Building) (judged env v) s s' r.
Proof.
    unfold finishSubmit. intros Hk. fetch Hk c Hc.
    apply se_bind_inv in Hk as [(c' & s1 & Hv & Hk)|(e & Hv & ->)].
    - assert (same_records s s1 ∧ c' = judged env v c ∧ cr_Status c = Building) as (Hs & -> & Hb).
      { destruct v as [e|]; apply transition_step in Hv as [[Hin Hv]|[? _]]; try done.
        all: apply se_bind_inv in Hv as [(u & s2 & Hn & Hv)|(? & _ & ?)]; [|done].
        all: injection Hv as <- <-; split_and!; try done;
          [|simpl in Hin; destruct (cr_Status c); set_solver].
        - revert Hn. generalize (AuthorSubject (moved env Changes.Failed (c <| cr_Error := ScrubCredentials e |>))).
          intros sub Hn. destruct (sub !=? ""); [by eapply notify_records|by injection Hn as _ <-].
        - eapply respects_each; [typeclasses eauto..| |exact Hn]. intros. apply notify_records. }
      right. exists c. split_and!; [done..|]. eapply (st_put_then _ _ _ _ _ _ _ Hs); [|exact Hk]. respect.
    - left. split; [done|]. destruct v as [e'|]; apply transition_step in Hv as [[Hin Hv]|[_ ->]]; try done.
      all: apply se_bind_inv in Hv as [(u & s2 & Hn & Hv)|(e2 & Hn & _)]; [by injection Hv|].
      + destruct (_ !=? ""); [by eapply notify_records|by injection Hn].
      + eapply respects_each; [typeclasses eauto..| |exact Hn]. intros. apply notify_records.
Qed.

Lemma Abandon_record env id (s : Fl) r s' :
    Abandon env id s = (r, s') →
    on_record id (λ st, st = Draft ∨ st = Changes.Failed ∨ st = Ready) (moved env Abandoned) s s' r.
Proof.
    unfold Abandon. intros Hk. fetch Hk c Hc.
    apply transition_step in Hk as [[Hin Hk]|[Hr ->]]; [|by left].
    apply se_bind_inv in Hk as [(u & s1 & Hcl & Hk)|(e & Hcl & ->)]; apply cleanup_records in Hcl; [|by apply not_ok].
    right. exists c. split_and!; [done| |].
    - destruct (cr_Status c); simpl in Hin; set_solver.
    - eapply (st_put_then _ _ _ _ _ _ _ Hcl); [|exact Hk]. respect.
Qed.

Lemma mergeSection_record env id a (s : Fl) r s' :
    mergeSection env id a s = (r, s') →
    on_record id (λ st, st = Ready) (moved env Merged) s s' r.
Proof.
    unfold mergeSection. intros Hk. assert (∀ A (r : res ChErr A) s', is_ok r = false → same_records s s' →
      on_record id (λ st, st = Ready) (moved env Merged) s s' r) as Hfail by (by left).
    apply se_bind_inv in Hk as [(c & s1 & Hg & Hk)|(e & Hg & ->)]; apply mustGet_inv in Hg as [-> Hc];
      [specialize (Hc c eq_refl)|by apply Hfail].
    case_bool_decide as Hr; cbn [negb] in Hk; [|injection Hk as <- <-; by apply Hfail].
    rewrite se_get_bind in Hk. destruct (four_eyes _ _ _ _); [injection Hk as <- <-; by apply Hfail|].
    rewrite se_get_bind in Hk. unfold se_lift at 1 in Hk.
    destruct (RepoHead (world s)) as [pre|e]; unfold se_bind at 1 in Hk; simpl in Hk;
      [|injection Hk as <- <-; by apply Hfail].
    apply se_bind_inv in Hk as [(u & s1 & Hm & Hk)|(e & Hm & ->)]; apply on_world_records in Hm; [|by apply Hfail].
    rewrite se_get_bind in Hk. destruct (validate _ _ _ _ _) as [err|].
    { apply se_bind_inv in Hk as [(u' & s2 & Hx & Hk)|(e & Hx & ->)]; apply on_world_records in Hx;
        apply Hfail; try done; [by injection Hk as <- _|injection Hk as _ <-; by etrans|by etrans]. }
    apply transition_step in Hk as [[Hin Hk]|[Hr' ->]]; [|by apply Hfail].
    apply se_bind_inv in Hk as [(u' & s2 & Hp & Hk)|(e & Hp & ->)]; apply st_put_puts with (s0 := s) in Hp; try done.
    - destruct Hp as [Hp|[? _]]; [|done].
      assert (same_records s2 s') as Hs2 by (eapply (respects_bind _ _ _ (cleanup_records _)); [|exact Hk]; intros; respect).
      right. exists c. split_and!; [done..|]. left. by rewrite <- Hp.
    - right. exists c. split_and!; [done..|]. destruct Hp as [Hp|[_ Hp]]; [by left|by right].
Qed.

Lemma NewCR_Ok id title au sub now c :
    NewCR id title au sub now = Ok c →
    cr_ID c = id ∧ Branch c = BranchFor id ∧ cr_Status c = Draft ∧ ValidID id = None.
Proof. unfold NewCR. destruct (ValidID id); [done|]. destruct (title ==? ""); [done|]. by intros [= <-]. Qed.

Lemma Open_record env id title a (s : Fl) r s' :
    OpenChange env id title a s = (r, s') →
    same_records s s' ∨
    ∃ c, NewCR id title (au_Name a) (au_Subject a) (ce_now env) = Ok c ∧ records s !! id = None ∧
         records s' = <[id := c]> (records s).
Proof.
    unfold OpenChange. destruct (NewCR id title _ _ _) as [c|e] eqn:Hn; [|intros [= <- <-]; by left].
    destruct (NewCR_Ok _ _ _ _ _ _ Hn) as (Hid & _). rewrite se_get_bind.
    destruct (st_Get id (fl_store s)) as [[c0|]|e] eqn:Hg; [intros [= <- <-]; by left| |intros [= <- <-]; by left].
    apply st_get_law in Hg. intros [(u & s1 & Hb & Hk)|(e & Hb & ->)]%se_bind_inv; apply on_world_records in Hb; [|by left].
    destruct (st_put StoreE c s1) as [rp s2] eqn:Hp. apply st_put_puts with (s0 := s) in Hp; [|done].
    apply puts_any in Hp. rewrite Hid in Hp.
    assert (same_records s2 s') as Hs.
    { destruct rp as [|[]]; try (by injection Hk as _ <-).
      destruct (on_world BranchE (DeleteBranch (Branch c)) s2) as [rd s3] eqn:Hd.
      injection Hk as _ <-. by apply on_world_records in Hd. }
    destruct Hp as [Hp|Hp]; [right; exists c; split_and!; [done..|by rewrite Hs]|left; by etrans].
Qed.

(** *** Reconciliation *)

Definition reconciled (env : ChEnv W) (s0 s : Fl) (id : string) : Prop :=
    records s !! id = records s0 !! id ∨
    ∃ c, records s0 !! id = Some c ∧ cr_Status c = Ready ∧ records s !! id = Some (moved env Merged c).

Lemma reconcile_one_record env c (s : Fl) r s' :
    reconcile_one env c s = (r, s') →
    same_records s s' ∨ (cr_Status c = Ready ∧ records s' = <[cr_ID c := moved env Merged c]> (records s)).
Proof.
    unfold reconcile_one. destruct (_ || _).
    { rewrite se_get_bind. destruct (_ && _); intros Hk; left; [by eapply cleanup_records|by injection Hk as _ <-]. }
    case_bool_decide as Hr; cbn [negb]; [|intros [= _ <-]; by left].
    rewrite se_get_bind. destruct (BranchMerged _ _) as [[]|]; try (intros [= _ <-]; by left).
    intros [[Hin Hk]|[_ ->]]%transition_step; [|by left].
    eapply st_put_then in Hk; [|reflexivity|apply cleanup_records].
    apply puts_any in Hk as [Hk|Hk]; [right; split; [done|exact Hk]|by left].
Qed.

Lemma reconcile_loop env l (s0 s : Fl) r s' :
    (∀ c, c ∈ l → records s0 !! cr_ID c = Some c) → (∀ id, reconciled env s0 s id) →
    se_each (reconcile_one env) l s = (r, s') → ∀ id, reconciled env s0 s' id.
Proof.
    revert s. induction l as [|c l IH]; intros s Hl Hs; simpl; [by intros [= _ <-]|].
    assert (∀ r s1, reconcile_one env c s = (r, s1) → ∀ id, reconciled env s0 s1 id) as Hone.
    { intros r1 s1 [Hsame|[Hr Hp]]%reconcile_one_record id; unfold reconciled.
      - rewrite Hsame. apply Hs.
      - rewrite Hp. destruct (decide (id = cr_ID c)) as [->|Hne].
        + right. exists c. split_and!; [apply Hl; left|done|by rewrite lookup_insert_eq].
        + rewrite lookup_insert_ne by done. apply Hs. }
    intros [(u & s1 & Ho & Hk)|(e & Ho & ->)]%se_bind_inv; [|by eapply Hone].
    eapply IH; [|by eapply Hone|exact Hk]. intros c' Hc'. apply Hl. by right.
Qed.

(** ** The life of a record *)

Lemma on_record_change {A} env op id allowed next (s s' : Fl) (r : res ChErr A) :
    filed s → on_record id allowed next s s' r → (∀ c, cr_ID (next c) = cr_ID c) →
    (∀ c, allowed (cr_Status c) → cr_ID c = id → record_step env op c (next c)) →
    ∀ i, record_change env op i (records s !! i) (records s' !! i).
Proof.
    intros Hf [[_ Hs]|(c & Hc & Hal & Hp)] Hid Hst i; [rewrite Hs; apply record_change_refl|].
    destruct (Hf _ _ Hc) as [Hci _].
    eapply put_change; [by rewrite Hci|apply Hid|by apply Hst|]. by apply puts_any in Hp.
Qed.

Lemma void_inv {A} (m : SE Fl ChErr A) s r s' : void m s = (r, s') → ∃ r0, m s = (r0, s').
Proof.
    unfold void. intros [(a & s1 & Hm & Hk)|(e & Hm & ->)]%se_bind_inv; [|eauto].
    injection Hk as _ <-. eauto.
Qed.

Lemma flow_op_change env op (s : Fl) r s' :
    filed s → flow_op env op s = (r, s') →
    ∀ id, record_change env op id (records s !! id) (records s' !! id).
Proof.
    intros Hf Hop.
    assert (same_records s s' → ∀ id, record_change env op id (records s !! id) (records s' !! id)) as Hsame.
    { intros -> id. apply record_change_refl. }
    destruct op; simpl in Hop; try (apply void_inv in Hop as [r0 Hop]).
    - apply Open_record in Hop as [Hs|(c & Hn & Hno & ->)]; [by apply Hsame|]. intros i.
      destruct (decide (i = id)) as [->|Hne]; [|rewrite lookup_insert_ne by done; apply record_change_refl].
      rewrite lookup_insert_eq, Hno. simpl. eauto 10.
    - apply EditFile_record in Hop. eapply on_record_change; [done|exact Hop|done|by constructor].
    - apply Edit_record in Hop. eapply on_record_change; [done|exact Hop|by destruct hosts|by constructor].
    - apply beginSubmit_record in Hop. eapply on_record_change; [done|exact Hop|done|by constructor].
    - apply finishSubmit_record in Hop. eapply on_record_change; [done|exact Hop|by destruct verdict|by constructor].
    - apply mergeSection_record in Hop. eapply on_record_change; [done|exact Hop|done|by constructor].
    - apply Hsame. by eapply publishMerge_records.
    - apply Abandon_record in Hop. eapply on_record_change; [done|exact Hop|done|by constructor].
    - unfold Reconcile in Hop. rewrite se_get_bind in Hop.
      destruct (st_List (fl_store s)) as [l|] eqn:Hl; [|injection Hop as _ <-; by apply Hsame].
      apply st_list_law in Hl as (_ & Hl & _). unfold se_bind, se_lift in Hop. simpl in Hop.
      pose proof (λ i, reconcile_loop env l s s r s' Hl (λ _, or_introl eq_refl) Hop i) as Hrec. intros i.
      destruct (Hrec i) as [->|(c & Hc & Hr & ->)]; [apply record_change_refl|]. rewrite Hc. simpl.
      right. by constructor.
    - apply Hsame. by eapply on_cfg_records.
    - apply Hsame. by eapply on_cfg_records.
Qed.

Lemma record_step_same env op c c' : record_step env op c c' → same_change c c'.
Proof.
    intros [| | |id [e|] c0| | |]; try done; unfold edited.
    - by destruct hosts.
Qed.

Lemma flow_op_filed env op (s : Fl) r s' : filed s → flow_op env op s = (r, s') → filed s'.
Proof.
    intros Hf Hop id c Hc. pose proof (flow_op_change env op s r s' Hf Hop id) as Hch. rewrite Hc in Hch.
    destruct (records s !! id) as [c0|] eqn:Hc0; simpl in Hch.
    - destruct (Hf _ _ Hc0) as [? ?]. destruct Hch as [->|Hst]; [done|].
      apply record_step_same in Hst as (? & _ & _ & _ & ? & _). split; congruence.
    - destruct Hch as (t & a & -> & Hn). by apply NewCR_Ok in Hn as (? & ? & _).
Qed.

(** ** What an operation touches in git *)

(** A relation on worlds, lifted to the flow. *)
Definition lifted (Q : relation W) : relation Fl := λ s s', Q (world s) (world s').

Section lifted.
    Context (Q : relation W) `{!PreOrder Q}.
#[local] Instance lifted_preorder : PreOrder (lifted Q).
Proof. split; [intros s; unfold lifted; reflexivity|]. intros s1 s2 s3 H12 H23. unfold lifted in *. by etrans. Qed.

Lemma on_world_lifted {E A} k (m : SE W E A) : respects Q m → respects (lifted Q) (on_world k m : SE Fl ChErr A).
Proof.
    intros Hm s r s'. unfold on_world. destruct (m (world s)) as [r0 w] eqn:Hw. intros [= _ <-]. by eapply Hm.
Qed.

Lemma best_effort_lifted m : respects Q m → respects (lifted Q) (best_effort m : SE Fl ChErr unit).
Proof.
    intros Hm. apply on_world_lifted. intros w r w'. destruct (m w) as [r0 w0] eqn:Hw. intros [= _ <-]. by eapply Hm.
Qed.

Lemma st_put_lifted k c : respects (lifted Q) (st_put k c : SE Fl ChErr unit).
Proof. intros s r s' Hp. apply st_put_inv in Hp as (Hc & _ & _). unfold lifted, world. rewrite Hc. reflexivity. Qed.

Lemma raise_lifted ev : respects (lifted Q) (raise ev : SE Fl ChErr unit).
Proof. apply respects_modify. intros s. unfold lifted. reflexivity. Qed.

Lemma notify_lifted env ev : respects (lifted Q) (notify env ev : SE Fl ChErr unit).
Proof. unfold notify. destruct (ce_notifier env); [apply raise_lifted|apply respects_ret; typeclasses eauto]. Qed.

Lemma mustGet_lifted id : respects (lifted Q) (mustGet id : SE Fl ChErr CR).
Proof. intros s r s' Hg. apply mustGet_inv in Hg as [-> _]. reflexivity. Qed.

(** A transaction writes and commits the document of its repository only. *)
Lemma applyTx_touches (R : ConfigRepo W) gate mut msg a hosts st r st' :
    (∀ s, respects Q (@WriteFile W R FleetFile s)) → respects Q (@CommitFile W R msg a FleetFile) →
    @applyTx W R _ _ _ gate mut msg a hosts st = (r, st') → Q (tx_repo st) (tx_repo st').
Proof.
    intros Hw Hc. set (Q' := λ st st' : Tx W, Q (tx_repo st) (tx_repo st')).
    assert (PreOrder Q') as HQ'.
    { split; [intros x; unfold Q'; reflexivity|]. intros x y z Hxy Hyz. unfold Q' in *. by etrans. }
    assert (∀ E A (k : E → TxErr) (m : SE W E A), respects Q m → respects Q' (on_repo k m)) as Hon.
    { intros E A k m Hm x rx x'. unfold on_repo. destruct (m (tx_repo x)) as [r0 w] eqn:Hm'.
      intros [= _ <-]. unfold Q'. simpl. by eapply Hm. }
    intros Htx. change (Q' st st'). revert Htx. revert st r st'.
    change (respects Q' (@applyTx W R _ _ _ gate mut msg a hosts)). unfold applyTx, try.
    assert (respects Q' (on_repo CommitE (@CommitFile W R msg a FleetFile))) as Hcommit by auto.
    assert (∀ s, respects Q' (on_repo WriteE (@WriteFile W R FleetFile s))) as Hwrite by auto.
    respect.
    - match goal with |- respects _ (λ _, let '(_, _) := @WriteFile _ _ _ ?orig _ in _) =>
        intros x rx x'; destruct (@WriteFile W R FleetFile orig (tx_repo x)) as [r2 w2] eqn:Hw2 end.
      intros [= _ <-]. unfold Q'. simpl. by eapply Hw.
    - apply respects_modify. intros x. unfold Q'. reflexivity.
Qed.
End lifted.

(** ** Changes do not touch each other *)

(** [id]'s branch, worktree and published ref are as before. *)
Definition part_kept (id : string) : relation W := λ w w', part w' id = part w id.
#[local] Instance part_kept_preorder id : PreOrder (part_kept id).
Proof. split; [by intros w|]. unfold part_kept. intros ???. congruence. Qed.

Notation keeps id := (lifted (part_kept id)).
#[local] Instance keeps_preorder id : PreOrder (keeps id) := lifted_preorder (part_kept id).

Lemma own_op_keeps id id' m : own_op id' m → id ≠ id' → respects (part_kept id) m.
Proof. intros Ho Hne w r w' Hm. by apply (own_op_law id' m w r w' Ho Hm). Qed.

Lemma ensureWorktree_keeps id cr :
    id ≠ cr_ID cr → respects (keeps id) (ensureWorktree cr : SE Fl ChErr (ConfigRepo W)).
Proof.
    intros Hne. assert (respects (keeps id)
      (on_world BranchE (AddWorktree (worktreeDir (cr_ID cr)) (Branch cr)) : SE Fl ChErr unit)).
    { apply on_world_lifted. eapply own_op_keeps; [apply add_own|done]. }
    unfold ensureWorktree. respect.
Qed.

Lemma ensureWorktree_idle cr (s : Fl) r s' :
    has_worktree (part (world s) (cr_ID cr)) → ensureWorktree cr s = (r, s') → keeps (cr_ID cr) s s'.
Proof.
    unfold ensureWorktree. rewrite se_get_bind. intros Hw.
    destruct (OpenWorktree _ _); [by intros [= _ <-]|].
    intros [(u & s1 & Ha & Hk)|(err & Ha & ->)]%se_bind_inv; unfold on_world in Ha;
      destruct (AddWorktree _ _ _) as [ra wa] eqn:Hadd; apply (add_refused _ _ _ _ _ Hw) in Hadd; injection Ha as _ Hs1.
    - rewrite se_get_bind in Hk. injection Hk as _ <-. subst s1. exact Hadd.
    - subst s'. exact Hadd.
Qed.

Lemma ensureWorktree_open cr (s : Fl) wt s' :
    ensureWorktree cr s = (Ok wt, s') → OpenWorktree (worktreeDir (cr_ID cr)) (world s') = Ok wt.
Proof.
    unfold ensureWorktree. rewrite se_get_bind. destruct (OpenWorktree _ _) as [wt0|] eqn:Ho.
    { intros [= <- <-]. done. }
    intros [(u & s1 & Ha & Hk)|(err & Ha & ?)]%se_bind_inv; [|done].
    rewrite se_get_bind in Hk. unfold se_lift in Hk. destruct (OpenWorktree _ (world s1)) eqn:Ho1; [|done].
    by injection Hk as <- <-.
Qed.

Lemma publishBranch_keeps id cr :
    Branch cr = BranchFor (cr_ID cr) → id ≠ cr_ID cr → respects (keeps id) (publishBranch cr : SE Fl ChErr unit).
Proof.
    intros Hb Hne. unfold publishBranch. destruct Publisher as [[f g]|] eqn:Hp; [|by respect].
    apply best_effort_lifted. rewrite Hb. eapply own_op_keeps; [by eapply push_own|done].
Qed.

Lemma cleanup_keeps id cr :
    Branch cr = BranchFor (cr_ID cr) → id ≠ cr_ID cr → respects (keeps id) (cleanup cr : SE Fl ChErr unit).
Proof.
    intros Hb Hne. unfold cleanup. rewrite Hb.
    assert (respects (keeps id) (best_effort (RemoveWorktree (worktreeDir (cr_ID cr))) : SE Fl ChErr unit)).
    { apply best_effort_lifted. eapply own_op_keeps; [apply remove_own|done]. }
    assert (respects (keeps id) (best_effort (DeleteBranch (BranchFor (cr_ID cr))) : SE Fl ChErr unit)).
    { apply best_effort_lifted. eapply own_op_keeps; [apply delete_own|done]. }
    destruct Publisher as [[f g]|] eqn:Hp; [|by respect].
    assert (respects (keeps id) (best_effort (g (BranchFor (cr_ID cr))) : SE Fl ChErr unit)).
    { apply best_effort_lifted. eapply own_op_keeps; [by eapply unpush_own|done]. }
    respect.
Qed.

(** The configuration service works on the main tree only. *)
Lemma Apply_part id gate mut msg a hosts (c : ConfigService W) r c' :
    Apply gate mut msg a hosts c = (r, c') → part_kept id (tx_repo (cs_tx c)) (tx_repo (cs_tx c')).
Proof.
    set (Q := λ c c' : ConfigService W, part_kept id (tx_repo (cs_tx c)) (tx_repo (cs_tx c'))).
    assert (PreOrder Q) as HQ by (split; [by intros ?|intros ?????; unfold Q, part_kept in *; congruence]).
    assert (respects Q (on_tx SyncE Sync)) as Hsync.
    { intros x rx x' (r0 & Hs & _)%on_tx_inv. by apply (sync_part _ _ _ id) in Hs. }
    assert (respects Q reload) as Hreload.
    { intros x rx x' Hr%reload_inv. unfold Q, part_kept. by rewrite Hr. }
    assert (respects Q (applyOnce mut msg a hosts gate)) as Honce.
    { intros x rx x'. unfold applyOnce. destruct (applyTx _ _ _ _ _ (cs_tx x)) as [[f|e] tx] eqn:Htx;
        intros [= _ <-]; (eapply applyTx_touches in Htx; [exact Htx|typeclasses eauto|..]);
        intros; intros w rw w' Hw; first [by eapply write_part|by eapply commit_part]. }
    revert c r c'. change (respects Q (Apply gate mut msg a hosts)). unfold Apply, applyWithGate.
    destruct HasRemote; [|done]. generalize maxPushRetries as n.
    induction n as [|n IH]; simpl; [by respect|].
    apply respects_bind; [typeclasses eauto|done|intros _]. apply respects_bind; [typeclasses eauto|done|intros _].
    apply respects_bind; [typeclasses eauto|done|intros _]. intros x rx x'.
    destruct (Push (tx_repo (cs_tx x))) as [rp w] eqn:Hp. apply (push_part _ _ _ id) in Hp.
    destruct rp as [|[|e]]; [by intros [= _ <-]| |by intros [= _ <-]].
    intros Hk%IH. unfold Q, part_kept in *. simpl in Hk. congruence.
Qed.

Lemma SyncTick_part id (c : ConfigService W) r c' :
    SyncTick c = (r, c') → part_kept id (tx_repo (cs_tx c)) (tx_repo (cs_tx c')).
Proof.
    unfold SyncTick. destruct HasRemote; [|by intros [= _ <-]].
    intros [(u & c1 & Hs & Hk)|(e & Hs & _)]%se_bind_inv; apply on_tx_inv in Hs as (r0 & Hs & _);
      apply (sync_part _ _ _ id) in Hs; [|done].
    apply reload_inv in Hk. unfold part_kept in *. by rewrite Hk.
Qed.

(** *** One operation, seen from another change or from a busy one *)

Ltac fetched Hf Hk c Hc Hid Hbr :=
    let s1 := fresh in
    apply se_bind_inv in Hk as [(c & s1 & Hc & Hk)|(? & Hc & _)]; apply mustGet_inv in Hc as [-> Hc];
    [specialize (Hc c eq_refl); destruct (Hf _ _ Hc) as [Hid Hbr]|reflexivity].

(** [id] is out of reach of an edit of [id']. *)
Definition out_of_reach (s : Fl) (id id' : string) (allowed : CRStatus → Prop) : Prop :=
    id ≠ id' ∨ ∀ c, records s !! id = Some c → ¬ allowed (cr_Status c).

Lemma recordEdit_keeps env hosts c id :
    open_status (cr_Status c) → Branch c = BranchFor (cr_ID c) → id ≠ cr_ID c →
    respects (keeps id) (recordEdit env hosts c : SE Fl ChErr unit).
Proof.
    intros Ho Hb Hne. destruct (rework_edited env hosts c Ho) as (c' & Hr & He). unfold recordEdit. rewrite Hr.
    intros s r s'. unfold lift_err, se_lift, se_bind at 1. rewrite He.
    assert (cr_ID (edited env hosts c) = cr_ID c ∧ Branch (edited env hosts c) = Branch c) as [Hi Hbr] by (by destruct hosts).
    revert s r s'. match goal with |- ∀ s r s', ?m s = _ → _ => change (respects (keeps id) m) end.
    apply respects_bind; [typeclasses eauto|apply publishBranch_keeps; congruence|].
    intros _. apply st_put_lifted. typeclasses eauto.
Qed.

Lemma Edit_keeps env id' mut msg a hosts id (s : Fl) r s' :
    filed s → out_of_reach s id id' open_status → Edit env id' mut msg a hosts s = (r, s') → keeps id s s'.
Proof.
    intros Hf Hout. unfold Edit. intros Hk. fetched Hf Hk c Hc Hid Hbr.
    destruct (editable c) eqn:Hed; cbn [negb] in Hk; [|by injection Hk as _ <-].
    apply editable_spec in Hed.
    assert (id ≠ cr_ID c) as Hne.
    { destruct Hout as [|Hout]; [congruence|]. intros ->. apply (Hout c); [congruence|exact Hed]. }
    apply se_bind_inv in Hk as [(wt & s1 & He & Hk)|(e & He & ->)];
      [pose proof (ensureWorktree_open _ _ _ _ He) as Hopen|]; apply (ensureWorktree_keeps id) in He; try done.
    apply se_bind_inv in Hk as [(f & s2 & Ht & Hk)|(e & Ht & ->)].
    all: etrans; [exact He|]; unfold on_verdicts in Ht; destruct (applyTx _ _ _ _ _ _) as [rt tx] eqn:Htx;
      eapply (applyTx_touches (part_kept id)) in Htx;
      [|intros n; eapply own_op_keeps; [by eapply wt_write_own|done]|eapply own_op_keeps; [by eapply wt_commit_own|done]];
      injection Ht as _ Hs2.
    - etrans; [|eapply recordEdit_keeps; [exact Hed|congruence|exact Hne|exact Hk]].
      subst s2. exact Htx.
    - subst s'. exact Htx.
Qed.

Lemma EditFile_keeps env id' path content msg a id (s : Fl) r s' :
    filed s → out_of_reach s id id' open_status → EditFile env id' path content msg a s = (r, s') → keeps id s s'.
Proof.
    intros Hf Hout. unfold EditFile. intros Hk. fetched Hf Hk c Hc Hid Hbr.
    destruct (editable c) eqn:Hed; cbn [negb] in Hk; [|by injection Hk as _ <-].
    apply editable_spec in Hed.
    assert (id ≠ cr_ID c) as Hne.
    { destruct Hout as [|Hout]; [congruence|]. intros ->. apply (Hout c); [congruence|exact Hed]. }
    apply se_bind_inv in Hk as [(wt & s1 & He & Hk)|(e & He & ->)];
      [pose proof (ensureWorktree_open _ _ _ _ He) as Hopen|]; apply (ensureWorktree_keeps id) in He; try done.
    etrans; [exact He|]. clear He.
    assert (∀ k n x, respects (keeps id) (on_world k (@WriteFile W wt n x) : SE Fl ChErr unit)) as Hw.
    { intros k n x. apply on_world_lifted. eapply own_op_keeps; [by eapply wt_write_own|done]. }
    assert (∀ k n, respects (keeps id) (on_world k (@CommitFile W wt msg a n) : SE Fl ChErr unit)) as Hco.
    { intros k n. apply on_world_lifted. eapply own_op_keeps; [by eapply wt_commit_own|done]. }
    apply (respects_bind (keeps id)) in Hk; [exact Hk|apply Hw|]. intros _.
    apply respects_bind; [typeclasses eauto|apply Hco|]. intros _.
    apply recordEdit_keeps; [exact Hed|congruence|exact Hne].
Qed.

Lemma Open_keeps env id' title a id (s : Fl) r s' :
    (id ≠ id' ∨ records s !! id ≠ None) → OpenChange env id' title a s = (r, s') → keeps id s s'.
Proof.
    intros Hid. unfold OpenChange. destruct (NewCR id' title _ _ _) as [c|e] eqn:Hn; [|by intros [= _ <-]].
    destruct (NewCR_Ok _ _ _ _ _ _ Hn) as (Hci & Hb & _). rewrite se_get_bind, Hb.
    destruct (st_Get id' (fl_store s)) as [[c0|]|e] eqn:Hg; [by intros [= _ <-]| |by intros [= _ <-]].
    apply st_get_law in Hg. assert (id ≠ id') as Hne by (destruct Hid; congruence).
    assert (∀ k, respects (keeps id) (on_world k (CreateBranch (BranchFor id')) : SE Fl ChErr unit)) as Hcr.
    { intros k. apply on_world_lifted. eapply own_op_keeps; [apply create_own|done]. }
    assert (∀ k, respects (keeps id) (on_world k (DeleteBranch (BranchFor id')) : SE Fl ChErr unit)) as Hde.
    { intros k. apply on_world_lifted. eapply own_op_keeps; [apply delete_own|done]. }
    apply (respects_bind (keeps id)); [apply Hcr|]. intros _ s1 r1 s1'.
    destruct (st_put StoreE c s1) as [rp s2] eqn:Hp. eapply st_put_lifted in Hp; [|apply (part_kept_preorder id)].
    intros Hk. etrans; [exact Hp|]. destruct rp as [|[]]; try (by injection Hk as _ <-).
    destruct (on_world BranchE (DeleteBranch _) s2) as [rd s3] eqn:Hd. injection Hk as _ <-. by eapply Hde.
Qed.

Lemma beginSubmit_keeps env id' id (s : Fl) r s' :
    filed s →
    (id ≠ id' ∨ ∃ c, records s !! id = Some c ∧ cr_Status c = Building ∧ has_worktree (part (world s) id)) →
    beginSubmit env id' s = (r, s') → keeps id s s'.
Proof.
    intros Hf Hout. unfold beginSubmit. intros Hk. fetched Hf Hk c Hc Hid Hbr.
    destruct Hout as [Hne|(c0 & Hc0 & Hb & Hw)].
    - apply (respects_bind (keeps id) (ensureWorktree c)) in Hk; [exact Hk|apply ensureWorktree_keeps; congruence|].
      intros wt. apply respects_bind; [typeclasses eauto|by respect|]. intros c1.
      apply respects_bind; [typeclasses eauto|apply st_put_lifted; typeclasses eauto|]. respect.
    - destruct (decide (id = id')) as [<-|Hne].
      + assert (c = c0) as -> by congruence. rewrite <- Hid in Hw.
        apply se_bind_inv in Hk as [(wt & s1 & He & Hk)|(e & He & ->)]; apply ensureWorktree_idle in He; rewrite Hid in *; try done.
        apply transition_step in Hk as [[Hin Hk]|[_ ->]]; [|done]. rewrite Hb in Hin. simpl in Hin. set_solver.
      + apply (respects_bind (keeps id) (ensureWorktree c)) in Hk; [exact Hk|apply ensureWorktree_keeps; congruence|].
        intros wt. apply respects_bind; [typeclasses eauto|by respect|]. intros c1.
        apply respects_bind; [typeclasses eauto|apply st_put_lifted; typeclasses eauto|]. respect.
Qed.

Lemma finishSubmit_keeps env id' v id : respects (keeps id) (finishSubmit env id' v : SE Fl ChErr CR).
Proof.
    assert (∀ i, respects (keeps id) (mustGet i : SE Fl ChErr CR)) by (intros; by apply mustGet_lifted; typeclasses eauto).
    assert (∀ e ev, respects (keeps id) (notify e ev : SE Fl ChErr unit)) by (intros; apply notify_lifted; typeclasses eauto).
    assert (∀ k c, respects (keeps id) (st_put k c : SE Fl ChErr unit)) by (intros; apply st_put_lifted; typeclasses eauto).
    unfold finishSubmit. respect.
Qed.

Lemma Abandon_keeps env id' id (s : Fl) r s' :
    filed s → out_of_reach s id id' (λ st, st = Draft ∨ st = Changes.Failed ∨ st = Ready) →
    Abandon env id' s = (r, s') → keeps id s s'.
Proof.
    intros Hf Hout. unfold Abandon. intros Hk. fetched Hf Hk c Hc Hid Hbr.
    apply transition_step in Hk as [[Hin Hk]|[_ ->]]; [|done].
    assert (id ≠ cr_ID c) as Hne.
    { destruct Hout as [|Hout]; [congruence|]. intros ->. apply (Hout c); [congruence|].
      destruct (cr_Status c); simpl in Hin; set_solver. }
    apply (respects_bind (keeps id)) in Hk; [exact Hk|by apply (cleanup_keeps id (moved env Abandoned c)); simpl; congruence|].
    intros _. apply respects_bind; [typeclasses eauto|apply st_put_lifted; typeclasses eauto|by respect].
Qed.

Lemma reload_keeps k id : respects (keeps id) (on_cfg k reload : SE Fl ChErr unit).
Proof.
    intros s r s'. unfold on_cfg. destruct (reload (fl_cfg s)) as [r0 c] eqn:Hr. apply reload_inv in Hr.
    intros [= _ <-]. unfold lifted, part_kept, world. simpl. by rewrite Hr.
Qed.

Lemma mergeSection_keeps env id' a id (s : Fl) r s' :
    filed s → out_of_reach s id id' (λ st, st = Ready) → mergeSection env id' a s = (r, s') → keeps id s s'.
Proof.
    intros Hf Hout. unfold mergeSection. intros Hk. fetched Hf Hk c Hc Hid Hbr.
    case_bool_decide as Hr; cbn [negb] in Hk; [|by injection Hk as _ <-].
    assert (id ≠ cr_ID c) as Hne.
    { destruct Hout as [|Hout]; [congruence|]. intros ->. apply (Hout c); [congruence|done]. }
    assert (∀ E (k : E → ChErr) (m : SE W E unit), respects (part_kept id) m → respects (keeps id) (on_world k m : SE Fl ChErr unit)) as Hon
      by (intros; by apply on_world_lifted).
    assert (∀ b m, respects (part_kept id) (MergeNoFF b m a)) by (intros ???? Hm ?; by eapply merge_part).
    assert (∀ rev, respects (part_kept id) (ResetHard rev)) by (intros ??? Hm ?; by eapply reset_part).
    assert (∀ k c, respects (keeps id) (st_put k c : SE Fl ChErr unit)) by (intros; apply st_put_lifted; typeclasses eauto).
    assert (respects (keeps id) (cleanup (moved env Merged c) : SE Fl ChErr unit)) as Hcl.
    { apply cleanup_keeps; simpl; congruence. }
    rewrite se_get_bind in Hk. destruct (four_eyes _ _ _ _); [by injection Hk as _ <-|]. revert Hk.
    match goal with |- ?m s = _ → _ => enough (respects (keeps id) m) as Hm by apply Hm end.
    apply respects_bind; [typeclasses eauto|by respect|]. intros pre.
    apply respects_bind; [typeclasses eauto|by respect|]. intros pre'.
    apply respects_bind; [typeclasses eauto|by apply Hon|]. intros _.
    apply respects_bind; [typeclasses eauto|by respect|]. intros verdict.
    destruct verdict; [by respect|]. intros s1 r1 s1' [[_ Hk]|[_ ->]]%transition_step; [|done]. revert Hk.
    match goal with |- ?m s1 = _ → _ => enough (respects (keeps id) m) as Hm by apply Hm end.
    pose proof (reload_keeps MergedUnread id). respect.
Qed.

Lemma publishMerge_keeps env a c id : respects (keeps id) (publishMerge env a c : SE Fl ChErr CR).
Proof.
    assert (respects (keeps id) (on_world MergedUnpushed Push : SE Fl ChErr unit)).
    { apply on_world_lifted. intros w r w' Hp. by eapply push_part. }
    assert (∀ e ev, respects (keeps id) (notify e ev : SE Fl ChErr unit)) by (intros; apply notify_lifted; typeclasses eauto).
    assert (∀ ev, respects (keeps id) (raise ev : SE Fl ChErr unit)) by (intros; apply raise_lifted; typeclasses eauto).
    unfold publishMerge. respect.
Qed.

Lemma reconcile_one_keeps env c id :
    Branch c = BranchFor (cr_ID c) → id ≠ cr_ID c ∨ cr_Status c = Building →
    respects (keeps id) (reconcile_one env c : SE Fl ChErr unit).
Proof.
    intros Hb Hid. unfold reconcile_one. destruct (decide (cr_Status c = Building)) as [->|Hnb]; [by respect|].
    assert (id ≠ cr_ID c) as Hne by (by destruct Hid).
    pose proof (cleanup_keeps id c Hb Hne). destruct (_ || _); [by respect|]. destruct (_ !=? _); [by respect|].
    apply respects_bind; [typeclasses eauto|by respect|]. intros merged.
    destruct merged as [[]|]; [|by respect..].
    intros s r s' [[_ Hk]|[_ ->]]%transition_step; [|done]. revert Hk.
    match goal with |- ?m s = _ → _ => enough (respects (keeps id) m) as Hm by apply Hm end.
    apply respects_bind; [typeclasses eauto|apply st_put_lifted; typeclasses eauto|].
    intros _. by apply cleanup_keeps.
Qed.

(** ** A submit has its change to itself *)

(** The change [id] is being gated: recorded as building, its worktree open. *)
Definition gated (id : string) (c : CR) (s : Fl) : Prop :=
    filed s ∧ records s !! id = Some c ∧ cr_Status c = Building ∧ has_worktree (part (world s) id).

Lemma gated_op env op id c (s : Fl) r s' :
    gated id c s → (∀ v, op ≠ OFinish id v) → flow_op env op s = (r, s') →
    gated id c s' ∧ part (world s') id = part (world s) id.
Proof.
    intros (Hf & Hc & Hb & Hw) Hnot Hop. destruct (Hf _ _ Hc) as [Hid Hbr].
    assert (records s' !! id = Some c) as Hc'.
    { pose proof (flow_op_change _ _ _ _ _ Hf Hop id) as Hch. rewrite Hc in Hch.
      destruct (records s' !! id) as [c'|]; simpl in Hch; [|done]. destruct Hch as [->|Hst]; [done|].
      destruct Hst as [?????? [] | ?????? [] | ?? [] | ????? | ??? | ?? [|[]] | ?]; congruence. }
    assert (keeps id s s') as Hk; [|split; [|exact Hk]; split_and!; try done; [by eapply flow_op_filed|by rewrite Hk]].
    assert (∀ P : CRStatus → Prop, ¬ P Building → ∀ id', out_of_reach s id id' P) as Hout.
    { intros P HP id'. right. intros c' Hc1. assert (c' = c) as -> by congruence. by rewrite Hb. }
    destruct op; simpl in Hop; try (apply void_inv in Hop as [r0 Hop]).
    - eapply Open_keeps; [|exact Hop]. right. by rewrite Hc.
    - eapply EditFile_keeps; [done|by apply Hout; intros []|exact Hop].
    - eapply Edit_keeps; [done|by apply Hout; intros []|exact Hop].
    - eapply beginSubmit_keeps; [done| |exact Hop]. right. eauto.
    - by eapply finishSubmit_keeps.
    - eapply mergeSection_keeps; [done|by apply Hout|exact Hop].
    - by eapply publishMerge_keeps.
    - eapply Abandon_keeps; [done|by apply Hout; naive_solver|exact Hop].
    - unfold Reconcile in Hop. rewrite se_get_bind in Hop.
      destruct (st_List (fl_store s)) as [l|] eqn:Hl; [|by injection Hop as _ <-].
      apply st_list_law in Hl as (_ & Hl & _). unfold se_bind, se_lift in Hop. simpl in Hop.
      eapply respects_each; [typeclasses eauto..| |exact Hop]. intros c' Hc1%Hl.
      destruct (Hf _ _ Hc1) as [_ Hb1]. apply reconcile_one_keeps; [done|].
      destruct (decide (id = cr_ID c')) as [->|]; [right; congruence|by left].
    - unfold on_cfg in Hop. destruct (Apply _ _ _ _ _ (fl_cfg s)) as [ra ca] eqn:Ha.
      injection Hop as _ <-. by eapply Apply_part.
    - unfold on_cfg in Hop. destruct (SyncTick (fl_cfg s)) as [ra ca] eqn:Ha.
      injection Hop as _ <-. by eapply SyncTick_part.
Qed.

(** Any operation of the console other than the end of the submit of [id]. *)
Definition other_step (id : string) (s s' : Fl) : Prop :=
    ∃ env op r, (∀ v, op ≠ OFinish id v) ∧ flow_op env op s = (r, s').

Lemma gated_steps id c (s s' : Fl) :
    rtc (other_step id) s s' → gated id c s → gated id c s' ∧ part (world s') id = part (world s) id.
Proof.
    induction 1 as [s|s s1 s2 (env & op & r & Hn & Hop) _ IH]; [done|]. intros Hg.
    destruct (gated_op _ _ _ _ _ _ _ Hg Hn Hop) as [Hg1 Hp1]. destruct (IH Hg1) as [Hg2 Hp2].
    split; [done|congruence].
Qed.

Lemma beginSubmit_gated env id (s : Fl) dh s1 :
    filed s → beginSubmit env id s = (Ok dh, s1) →
    ∃ c, records s !! id = Some c ∧ open_status (cr_Status c) ∧ gated id (moved env Building c) s1 ∧
         dh.1 = worktreeDir id.
Proof.
    intros Hf Hbegin. pose proof (flow_op_filed env (OBegin id) s (Ok tt) s1 Hf) as Hf1.
    pose proof (beginSubmit_record _ _ _ _ _ Hbegin) as [[? _]|(c & Hc & Ho & Hp)]; [done|].
    destruct (Hf _ _ Hc) as [Hid Hbr]. destruct Hp as [Hp|[? _]]; [|done].
    assert (has_worktree (part (world s1) id) ∧ dh.1 = worktreeDir id) as [Hw Hdir].
    { unfold beginSubmit in Hbegin.
      apply se_bind_inv in Hbegin as [(c' & s2 & Hc' & Hbegin)|(? & _ & ?)]; [|done]. apply mustGet_inv in Hc' as [-> Hc'].
      assert (c' = c) as -> by (specialize (Hc' c' eq_refl); congruence).
      apply se_bind_inv in Hbegin as [(wt & s2 & He & Hk)|(e & _ & ?)]; [|done].
      apply ensureWorktree_open, open_has in He. rewrite Hid in He.
      apply transition_step in Hk as [[_ Hk]|[? _]]; [|done].
      apply se_bind_inv in Hk as [(u & s3 & Hput & Hk)|(e & _ & ?)]; [|done].
      rewrite se_get_bind in Hk. injection Hk as <- <-. eapply st_put_lifted in Hput; [|apply (part_kept_preorder id)].
      rewrite Hput. split; [done|]. simpl. by rewrite Hid. }
    exists c. split_and!; [done..| |done]. split_and!; [|simpl in Hp; by rewrite Hp, Hid, lookup_insert_eq|done|done].
    apply Hf1. simpl. unfold void, se_bind. by rewrite Hbegin.
Qed.

(** ** Properties *)

(** C34. The life of a change request: whatever an operation of the change flow
    or of the configuration service returns, every record is left as it was,
    opened as a draft, or moved along the status flow by the operation meant for
    it - edits only in draft or failed, a verdict only while building, a merge
    (or its reconciliation) only from ready, nothing from merged or abandoned -
    keeping its identity, author and branch. *)
Theorem change_lifecycle env op (s : Fl) r s' :
    filed s → flow_op env op s = (r, s') →
    filed s' ∧ ∀ id, record_change env op id (records s !! id) (records s' !! id) ∧
      ∀ c c', records s !! id = Some c → records s' !! id = Some c' → same_change c c'.
Proof.
    intros Hf Hop. split; [by eapply flow_op_filed|]. intros id.
    pose proof (flow_op_change _ _ _ _ _ Hf Hop id) as Hch. split; [done|].
    intros c c' Hc Hc'. rewrite Hc, Hc' in Hch. simpl in Hch.
    destruct Hch as [->|Hst]; [reflexivity|by eapply record_step_same].
Qed.

(** C13. A submit has its change to itself although it runs the gate without the
    lock: between its two locked halves no operation of the console - of this
    change or another, of the configuration service or of the reconciliation -
    changes the record or the branch and worktree of the change, so the verdict
    taken anywhere in between is recorded for the very branch that was gated.
    The other side of it: a change whose submit never finishes stays building
    for ever, whatever else is done. *)
Theorem submit_has_its_change env env' id (s s1 s2 s3 : Fl) dh :
    filed s → beginSubmit env id s = (Ok dh, s1) →
    rtc (other_step id) s1 s2 → rtc (other_step id) s2 s3 →
    ∃ c, records s !! id = Some c ∧ open_status (cr_Status c) ∧
      records s3 !! id = Some (moved env Building c) ∧
      part (world s2) id = part (world s1) id ∧
      ∀ r s4, let v := submit_verdict env id dh.1 dh.2 (world s2) in
        finishSubmit env' id v s3 = (r, s4) →
        part (world s4) id = part (world s1) id ∧
        (is_ok r = true → records s4 !! id = Some (judged env' v (moved env Building c))).
Proof.
    intros Hf Hbegin H12 H23. destruct (beginSubmit_gated _ _ _ _ _ Hf Hbegin) as (c & Hc & Ho & Hg & _).
    destruct (gated_steps _ _ _ _ H12 Hg) as [Hg2 Hp2]. destruct (gated_steps _ _ _ _ H23 Hg2) as [Hg3 Hp3].
    destruct Hg3 as (Hf3 & Hr3 & _ & _). exists c. split_and!; [done..|]. intros r s4 v Hfin.
    pose proof (finishSubmit_keeps env' id v id _ _ _ Hfin) as Hk. unfold lifted, part_kept in Hk.
    split; [congruence|]. intros Hok.
    apply finishSubmit_record in Hfin as [[? _]|(c3 & Hc3 & _ & Hp)]; [congruence|].
    assert (c3 = moved env Building c) as -> by congruence.
    destruct Hp as [->|[? _]]; [|congruence]. destruct (Hf3 _ _ Hr3) as [Hid _].
    replace (cr_ID (judged env' v (moved env Building c))) with id by (by destruct v).
    by rewrite lookup_insert_eq.
Qed.
End proofs.
