(* ===== verification/MergeProofs.v ===== *)
(** * Landing a change (src/internal/app/change.go, Merge and Reconcile)

    What a merge that returns has done to git and to the records, on every
    outcome, and what the reconciliation makes of the records git disagrees
    with. *)

From S2P Require Import Prelude GoLib FleetModel Groups Resolve Apps Mutate DeviceOps Classes Verdicts Document ConfigTx ConfigSafety Changes Scrub ChangeFlow ChangeProofs.

Section merges.
  Context {W S : Type} `{Hrepo : ConfigRepo W, !RepoLaws W, !BranchRepo W, !BranchLaws W, !ChangeStore S, !StoreLaws S}.
  Context `{GoJson, Fingerprint, FleetJson, OverlayParsers}.

Notation Fl := (Flow W S).
Notation records s := (recs (fl_store s)).

(** ** The main branch *)

#[local] Instance main_kept_preorder : PreOrder (main_kept : relation W).
Proof.
    split; [by intros w|]. intros w1 w2 w3 (Hh & Ht & Hr) (Hh' & Ht' & Hr').
    split_and!; [congruence|congruence|by etrans].
Qed.

#[local] Instance lifted_main_preorder : PreOrder (lifted (S := S) main_kept : relation Fl) := lifted_preorder main_kept.

Lemma own_op_main id (m : SE W string unit) : own_op id m → respects main_kept m.
Proof. intros Ho w r w' Hm. by apply (own_op_law id m w r w' Ho Hm). Qed.

Lemma cleanup_main c :
    Branch c = BranchFor (cr_ID c) → respects (lifted main_kept) (cleanup c : SE Fl ChErr unit).
Proof.
    intros Hb. assert (∀ m, own_op (cr_ID c) m → respects (lifted main_kept) (best_effort m : SE Fl ChErr unit)) as Hbe.
    { intros m Hm. by eapply best_effort_lifted, own_op_main. }
    unfold cleanup. rewrite Hb. pose proof (Hbe _ (remove_own (cr_ID c))). pose proof (Hbe _ (delete_own (cr_ID c))).
    destruct Publisher as [[f g]|] eqn:Hp; [|by respect]. pose proof (Hbe _ (unpush_own (cr_ID c) f g Hp)). respect.
Qed.

Lemma four_eyes_None f id c a :
    four_eyes f id c a = None ↔
    ∀ asr, f_Assurance f = Some asr → RequireFourEyes asr = true →
      AuthorSubject c ≠ "" ∧ au_Subject a ≠ "" ∧ AuthorSubject c ≠ au_Subject a.
Proof.
    unfold four_eyes. destruct (f_Assurance f) as [asr|]; [|naive_solver].
    destruct (RequireFourEyes asr) eqn:Hr; [|naive_solver congruence].
    case_bool_decide as H1'; [split; [done|intros Hx; by destruct (Hx asr)]|].
    case_bool_decide as H2'; [split; [done|intros Hx; by destruct (Hx asr) as (_ & ? & _)]|]. simpl.
    case_bool_decide as H3'; [split; [done|intros Hx; by destruct (Hx asr) as (_ & _ & ?)]|].
    split; [|done]. intros _ ? [= <-] _. done.
Qed.

Lemma cleanup_ok c (s : Fl) r s' : cleanup c s = (r, s') → r = Ok tt.
Proof.
    assert (∀ m s, ∃ s', best_effort m s = (Ok tt, s' : Fl)) as Hbe by (intros m x; by eexists).
    unfold cleanup. rewrite se_get_bind. intros Hk.
    apply se_bind_inv in Hk as [(u & s1 & _ & Hk)|(e & Hk & ->)].
    2:{ destruct (StatDir _ _); [|done]. destruct (Hbe (RemoveWorktree (worktreeDir (cr_ID c))) s) as [? Hx]. congruence. }
    apply se_bind_inv in Hk as [(u' & s2 & _ & Hk)|(e & Hk & ->)]; [|done].
    destruct Publisher as [[f g]|]; [|by injection Hk as <- _].
    destruct (Hbe (g (Branch c)) s2) as [? Hx]. congruence.
Qed.

Lemma reload_Ok (c c' : ConfigService W) : reload c = (Ok tt, c') → cs_tx c' = cs_tx c ∧ load (tx_repo (cs_tx c')) = Ok (cs_snap c').
Proof. unfold reload. destruct (load _) eqn:Hl; [|done]. by intros [= <-]. Qed.

Lemma on_world_run {E A} (k : E → ChErr) (m : SE W E A) (s : Fl) r s' :
    on_world k m s = (r, s') →
    ∃ r0, m (world s) = (r0, world s') ∧ r = lift_err k r0 ∧ fl_store s' = fl_store s ∧ cs_snap (fl_cfg s') = cs_snap (fl_cfg s).
Proof. unfold on_world. destruct (m (world s)) as [r0 w]. intros [= <- <-]. eauto. Qed.

(** ** A merge *)

(** The merge commit of [c] by [a] is on top of the main branch of [s], unless
    git says the branch was in it already. *)
Definition landed_on (c : CR) (a : Author) (s s' : Fl) : Prop :=
    (∃ theirs, history (world s') =
       mkCommit (merge_message c) a (tree (world s')) :: theirs ++ history (world s)) ∨
    (BranchMerged (Branch c) (world s) = Ok true ∧ history (world s') = history (world s)).

(** The gate accepted the merged tree, on the change's radius in it. *)
Definition proved_merged (env : ChEnv W) (c : CR) (s' : Fl) : Prop :=
    ∃ w, history w = history (world s') ∧ tree w = tree (world s') ∧
         validate env RepoDir (gateRef env (Branch c)) (gateScope Hrepo (GateHosts c) w) w = None.

Definition merge_outcome (env : ChEnv W) (a : Author) (c : CR) (s : Fl) (r : res ChErr CR) (s' : Fl) : Prop :=
    match r with
    | Ok c' => c' = moved env Merged c ∧ records s' = <[cr_ID c := c']> (records s) ∧
               landed_on c a s s' ∧ proved_merged env c s' ∧ load (world s') = Ok (cs_snap (fl_cfg s'))
    | Err (MergedUnrecorded _) => landed_on c a s s' ∧ proved_merged env c s'
    | Err (MergedUnread _) => records s' = <[cr_ID c := moved env Merged c]> (records s) ∧
                              landed_on c a s s' ∧ proved_merged env c s'
    | Err (MergeRefused _) => records s' = records s ∧ history (world s') = history (world s) ∧
                              (∀ x l, history (world s) = x :: l → tree (world s') = c_doc x)
    | Err (MergeStuck _ _) => records s' = records s
    | Err _ => records s' = records s ∧ history (world s') = history (world s)
    end.

Lemma merge_tail env a c (s s1 : Fl) r s' :
    Branch c = BranchFor (cr_ID c) → cr_Status c = Ready →
    same_records s s1 → landed_on c a s s1 → proved_merged env c s1 →
    (do! c' <- se_lift (lift_err BadChange (Transition Merged (ce_now env) c));
     run! st_put MergedUnrecorded c'; run! cleanup c'; run! on_cfg MergedUnread reload; se_ret c') s1 = (r, s') →
    merge_outcome env a c s r s'.
Proof.
    intros Hb Hr Hs Hl Hp. unfold Transition. rewrite Hr. simpl. unfold se_lift, se_bind at 1.
    assert (∀ s2 : Fl, main_kept (world s1) (world s2) → landed_on c a s s2 ∧ proved_merged env c s2) as Hkeep.
    { intros s2 (Hh & Ht & _). split.
      - unfold landed_on. rewrite Hh, Ht. exact Hl.
      - destruct Hp as (w & H3 & H4 & H5). exists w. split_and!; [congruence..|done]. }
    intros [(u & s2 & Hput & Hk)|(e & Hput & ->)]%se_bind_inv.
    2:{ pose proof Hput as Hput'. eapply (st_put_lifted main_kept) in Hput. destruct (Hkeep _ Hput).
        unfold st_put in Hput'. destruct (st_Put _ _) as [[|e'] st]; [done|]. by injection Hput' as <- _. }
    pose proof (st_put_lifted main_kept _ _ _ _ _ Hput) as Hm. apply st_put_inv in Hput as (_ & _ & [Hrec|[? _]]); [|by destruct u].
    rewrite Hs in Hrec.
    apply se_bind_inv in Hk as [(u' & s3 & Hcl & Hk)|(e & Hcl & ->)]; [|by apply cleanup_ok in Hcl].
    pose proof (cleanup_main (moved env Merged c) Hb _ _ _ Hcl) as Hm3. apply cleanup_records in Hcl.
    rewrite <- Hcl in Hrec. destruct (Hkeep s3) as [Hl3 Hp3]; [by etrans|].
    unfold on_cfg, se_bind in Hk. destruct (reload (fl_cfg s3)) as [[[]|e] cf] eqn:Hre.
    - injection Hk as <- <-. apply reload_Ok in Hre as [Htx Hload].
      assert (world (mkFlow cf (fl_store s3) (fl_events s3)) = world s3) as Hw by (unfold world; simpl; by rewrite Htx).
      split_and!; [done|exact Hrec|..]; unfold landed_on, proved_merged; rewrite ?Hw; try done.
      simpl. unfold world in *. by rewrite <- Htx.
    - injection Hk as <- <-. apply reload_inv in Hre as Htx.
      assert (world (mkFlow cf (fl_store s3) (fl_events s3)) = world s3) as Hw by (unfold world; simpl; by rewrite Htx).
      split_and!; [exact Hrec|..]; unfold landed_on, proved_merged; by rewrite ?Hw.
Qed.

Lemma mergeSection_outcome env id a (s : Fl) r s' c :
    filed s → records s !! id = Some c → cr_Status c = Ready →
    four_eyes (cs_Fleet (fl_cfg s)) id c a = None →
    mergeSection env id a s = (r, s') → merge_outcome env a c s r s'.
Proof.
    intros Hf Hc Hr Hfe. destruct (Hf _ _ Hc) as [Hid Hbr]. unfold mergeSection.
    intros [(c' & s1 & Hg & Hk)|(e & Hg & ->)]%se_bind_inv.
    2:{ unfold mustGet, cr_check, se_bind, se_get in Hg. destruct (ValidID id); [by injection Hg as <- <-|]. simpl in Hg.
        destruct (st_Get id (fl_store s)) as [[c'|]|e'] eqn:Hst; [done|..]; by injection Hg as <- <-. }
    apply mustGet_inv in Hg as [-> Hg]. assert (c' = c) as -> by (specialize (Hg c' eq_refl); congruence).
    rewrite (bool_decide_eq_true_2 _ Hr) in Hk. cbn [negb] in Hk. rewrite se_get_bind, Hfe in Hk.
    rewrite se_get_bind in Hk. unfold se_lift at 1 in Hk.
    destruct (RepoHead (world s)) as [pre|e] eqn:Hhead; unfold se_bind at 1 in Hk; simpl in Hk; [|by injection Hk as <- <-].
    apply se_bind_inv in Hk as [(u & s1 & Hm & Hk)|(e & Hm & ->)];
      apply on_world_run in Hm as (r0 & Hm & Hr0 & Hst & _); apply merge_law in Hm as [_ Hm].
    2:{ destruct r0; [done|]. injection Hr0 as ->. split; [by rewrite Hst|done]. }
    destruct r0; [|done].
    assert (history (world s) `suffix_of` history (world s1)) as Hsuf.
    { destruct Hm as [[t Hm]|[_ Hm]]; rewrite Hm; [|done]. by apply suffix_cons_r, suffix_app_r. }
    rewrite se_get_bind in Hk. destruct (validate _ _ _ _ _) as [err|] eqn:Hv.
    - apply se_bind_inv in Hk as [(u' & s2 & Hx & Hk)|(e & Hx & ->)];
        apply on_world_run in Hx as (r1 & Hx & Hr1 & Hst2 & _); pose proof (reset_law _ _ _ _ _ Hhead Hsuf Hx) as [_ Hreset].
      + injection Hk as <- <-. destruct r1 as [[]|]; [|done]. destruct (Hreset eq_refl) as [Hh Ht].
        split_and!; [by rewrite Hst2, Hst|done|done].
      + destruct r1; [done|]. injection Hr1 as ->. simpl. by rewrite Hst2, Hst.
    - eapply merge_tail; [congruence|done| | | |exact Hk].
      + unfold same_records. by rewrite Hst.
      + exact Hm.
      + by exists (world s1).
Qed.

(** ** Reconciliation *)

Lemma reconcile_one_other env c id (s : Fl) r s' :
    id ≠ cr_ID c → reconcile_one env c s = (r, s') → records s' !! id = records s !! id.
Proof.
    intros Hne [Hs|[_ Hp]]%reconcile_one_record; [by rewrite Hs|]. by rewrite Hp, lookup_insert_ne.
Qed.

Lemma reconcile_one_main env c :
    Branch c = BranchFor (cr_ID c) → respects (lifted main_kept) (reconcile_one env c : SE Fl ChErr unit).
Proof.
    intros Hb. pose proof (cleanup_main c Hb). unfold reconcile_one.
    destruct (_ || _); [by respect|]. destruct (_ !=? _); [by respect|].
    apply respects_bind; [typeclasses eauto|by respect|]. intros merged. destruct merged as [[]|]; [|by respect..].
    intros s r s' [[_ Hk]|[_ ->]]%transition_step; [|reflexivity]. revert Hk.
    match goal with |- ?m s = _ → _ => enough (respects (lifted main_kept) m) as Hm by apply Hm end.
    apply respects_bind; [typeclasses eauto|apply st_put_lifted; typeclasses eauto|]. intros _. by apply cleanup_main.
Qed.

(** The answer of git about the branch of [id]. *)
Definition git_merged (w : W) (id : string) : Prop := BranchMerged (BranchFor id) w = Ok true.

Lemma git_merged_kept id (s s' : Fl) :
    lifted main_kept s s' → lifted (part_kept id) s s' → (git_merged (world s') id ↔ git_merged (world s) id).
Proof. intros (Hh & _ & _) Hp. unfold git_merged. by rewrite (merged_local id (world s) (world s')). Qed.

Lemma reconcile_one_ready env c (s : Fl) s' :
    Branch c = BranchFor (cr_ID c) → cr_Status c = Ready →
    reconcile_one env c s = (Ok tt, s') →
    (git_merged (world s) (cr_ID c) ∧ records s' = <[cr_ID c := moved env Merged c]> (records s)) ∨
    (¬ git_merged (world s) (cr_ID c) ∧ s' = s).
Proof.
    intros Hb Hr. unfold reconcile_one, git_merged. rewrite Hr, Hb.
    change ((Ready ==? Abandoned) || (Ready ==? Merged)) with false.
    change (Ready !=? Ready) with false. cbv iota. rewrite se_get_bind. destruct (BranchMerged _ (world s)) as [[]|] eqn:Hm;
      [|intros [= <-]; right; split; congruence..].
    unfold Transition. rewrite Hr. simpl. unfold se_bind at 1, se_lift.
    intros Hk. left. split; [done|].
    eapply st_put_then in Hk; [|reflexivity|apply cleanup_records]. by destruct Hk as [?|[? _]].
Qed.

Lemma reconcile_each_other env l id (s : Fl) r s' :
    id ∉ cr_ID <$> l → se_each (reconcile_one env) l s = (r, s') → records s' !! id = records s !! id.
Proof.
    revert s. induction l as [|c l IH]; intros s; simpl; [by intros _ [= _ <-]|].
    intros [Hne Hni]%not_elem_of_cons [(u & s1 & Ho & Hk)|(e & Ho & ->)]%se_bind_inv.
    - rewrite (IH s1 Hni Hk). by eapply reconcile_one_other.
    - by eapply reconcile_one_other.
Qed.

(** Every ready record of the list is judged by git; the other records are let be. *)
Lemma reconcile_all env l (s : Fl) s' :
    filed s → NoDup (cr_ID <$> l) → (∀ c, c ∈ l → records s !! cr_ID c = Some c) →
    se_each (reconcile_one env) l s = (Ok tt, s') →
    ∀ c, c ∈ l → cr_Status c = Ready →
      (git_merged (world s) (cr_ID c) ∧ records s' !! cr_ID c = Some (moved env Merged c)) ∨
      (¬ git_merged (world s) (cr_ID c) ∧ records s' !! cr_ID c = Some c).
Proof.
    revert s. induction l as [|c0 l IH]; intros s Hf Hnd Hl Hk c Hin Hr; [by apply elem_of_nil in Hin|].
    cbn in Hnd. apply NoDup_cons in Hnd as [Hni Hnd]. simpl in Hk.
    apply se_bind_inv in Hk as [([] & s1 & Ho & Hk)|(e & _ & ?)]; [|done].
    assert (records s !! cr_ID c0 = Some c0) as Hc0 by (apply Hl; left). destruct (Hf _ _ Hc0) as [_ Hb0].
    assert (∀ i, i ∈ (cr_ID <$> l) → records s1 !! i = records s !! i) as Hrest.
    { intros i Hi. eapply reconcile_one_other; [|exact Ho]. by intros ->. }
    assert (filed s1) as Hf1.
    { intros i x Hx. pose proof (reconcile_loop env [c0] s s (Ok tt) s1) as Hrec.
      destruct (Hrec) with (id := i) as [Heq|(y & Hy & _ & Hy')]; [..|rewrite Heq in Hx; by apply Hf|].
      - intros c1 ->%list_elem_of_singleton. done.
      - by left.
      - simpl. unfold se_bind. by rewrite Ho.
      - assert (x = moved env Merged y) as -> by congruence. by apply (Hf i y) in Hy. }
    apply elem_of_cons in Hin as [->|Hin].
    - rewrite (reconcile_each_other env l (cr_ID c0) s1 _ s' Hni Hk).
      destruct (reconcile_one_ready env c0 s s1 Hb0 Hr Ho) as [[Hg ->]|[Hg ->]]; [left|by right].
      by rewrite lookup_insert_eq.
    - assert (cr_ID c ∈ cr_ID <$> l) as Hci by (by apply list_elem_of_fmap_2).
      assert (cr_ID c ≠ cr_ID c0) as Hne by (intros Heq; by rewrite Heq in Hci).
      destruct (IH s1 Hf1 Hnd) with (c := c) as [[Hg Hx]|[Hg Hx]]; try done.
      + intros x Hx. rewrite Hrest; [apply Hl; by right|by apply list_elem_of_fmap_2].
      + left. split; [|done]. rewrite <- (git_merged_kept _ s s1); [done|by eapply reconcile_one_main|].
        eapply reconcile_one_keeps; [exact Hb0|by left|exact Ho].
      + right. split; [|done]. rewrite <- (git_merged_kept _ s s1); [done|by eapply reconcile_one_main|].
        eapply reconcile_one_keeps; [exact Hb0|by left|exact Ho].
Qed.

Lemma Reconcile_records env (s s' : Fl) id c :
    filed s → Reconcile env s = (Ok tt, s') → records s !! id = Some c →
    (cr_Status c = Ready ∧ git_merged (world s) id ∧ records s' !! id = Some (moved env Merged c)) ∨
    ((cr_Status c = Ready → ¬ git_merged (world s) id) ∧ records s' !! id = Some c).
Proof.
    intros Hf Hop Hc. destruct (Hf _ _ Hc) as [Hid _]. unfold Reconcile in Hop. rewrite se_get_bind in Hop.
    destruct (st_List (fl_store s)) as [l|] eqn:Hl; [|done].
    apply st_list_law in Hl as (Hnd & Hl & Hall). unfold se_bind, se_lift in Hop. simpl in Hop.
    assert (c ∈ l) as Hin by (eapply Hall; [exact Hc|done]).
    destruct (decide (cr_Status c = Ready)) as [Hr|Hr].
    - destruct (reconcile_all env l s s' Hf Hnd Hl Hop c Hin Hr) as [[? ?]|[? ?]]; rewrite Hid in *; [left|right]; auto.
    - right. split; [done|].
      destruct (reconcile_loop env l s s _ s' Hl (λ _, or_introl eq_refl) Hop id) as [->|(c' & Hc' & Hr' & _)]; [done|].
      exfalso. apply Hr. congruence.
Qed.

Lemma unrecorded_is_merged env id a e (s0 s : Fl) :
    filed s0 → mergeSection env id a s0 = (Err (MergedUnrecorded e), s) →
    git_merged (world s) id ∧
    ∃ c, records s0 !! id = Some c ∧ (records s !! id = Some c ∧ cr_Status c = Ready ∨
                                      records s !! id = Some (moved env Merged c)).
Proof.
    intros Hf Hk. unfold mergeSection in Hk.
    apply se_bind_inv in Hk as [(c & s1 & Hg & Hk)|(? & Hg & [= <-])].
    2:{ exfalso. unfold mustGet, cr_check, se_bind, se_get in Hg. destruct (ValidID id); [done|]. simpl in Hg.
        destruct (st_Get id (fl_store s0)) as [[c'|]|e'] eqn:Hst; done. }
    apply mustGet_inv in Hg as [-> Hc]. specialize (Hc c eq_refl). destruct (Hf _ _ Hc) as [Hid Hbr].
    case_bool_decide as Hr; cbn [negb] in Hk; [|done].
    rewrite se_get_bind in Hk. destruct (four_eyes _ _ _ _) as [fe|] eqn:Hfe.
    { exfalso. injection Hk as -> _. unfold four_eyes in Hfe. by repeat case_match. }
    rewrite se_get_bind in Hk. unfold se_lift at 1 in Hk.
    destruct (RepoHead (world s0)) as [pre|?] eqn:Hhead; unfold se_bind at 1 in Hk; simpl in Hk; [|done].
    apply se_bind_inv in Hk as [(u & s1 & Hm & Hk)|(? & Hm & [= <-])];
      apply on_world_run in Hm as (r0 & Hm & Hr0 & Hst & _); [|by destruct r0].
    destruct r0 as [[]|]; [|done]. rewrite Hbr in Hm. apply merge_merges in Hm.
    rewrite se_get_bind in Hk. destruct (validate _ _ _ _ _) as [err|] eqn:Hv.
    { exfalso. apply se_bind_inv in Hk as [(u' & s2 & Hx & Hk)|(? & Hx & [= <-])]; [done|].
      apply on_world_run in Hx as (r1 & _ & Hr1 & _). by destruct r1. }
    unfold Transition in Hk. rewrite Hr in Hk. simpl in Hk. unfold se_lift, se_bind at 1 in Hk.
    apply se_bind_inv in Hk as [(u' & s2 & Hp & Hk)|(? & Hp & [= <-])].
    - exfalso. apply se_bind_inv in Hk as [(u3 & s3 & Hcl & Hk)|(? & Hcl & [= <-])]; [|by apply cleanup_ok in Hcl].
      unfold on_cfg, se_bind in Hk. by destruct (reload (fl_cfg s3)) as [[[]|?] cf].
    - pose proof (st_put_inv _ _ _ _ _ Hp) as (Hcfg & _ & Hrec). unfold git_merged, world. rewrite Hcfg. split; [exact Hm|].
      exists c. split; [done|]. rewrite Hst in Hrec. destruct Hrec as [->|[_ ->]]; [right|by left].
      simpl. by rewrite Hid, lookup_insert_eq.
Qed.

(** ** Properties *)

(** A merge lands what the gate proved, approved by someone else: either it
    is refused without touching anything, or the change was ready and, when the
    organisation asks for four eyes, author and approver are known and differ;
    then success means the merge commit is on top of the main branch (or the branch
    was in it already), the gate
    accepted that very tree on the change's radius in it, the record says merged
    and readers see the merged document; a merged tree the gate refuses is taken
    back to the head before it with the record untouched; and a failure to
    record or to reread leaves the merge in git.  A push that then succeeds puts
    exactly this history on the remote. *)
Theorem merge_lands env id a (s : Fl) r s' (Hf : filed s) :
    mergeSection env id a s = (r, s') →
    ((is_ok r = false ∧ s' = s) ∨
     ∃ c, records s !! id = Some c ∧ cr_Status c = Ready ∧
       (∀ asr, f_Assurance (cs_Fleet (fl_cfg s)) = Some asr → RequireFourEyes asr = true →
          AuthorSubject c ≠ "" ∧ au_Subject a ≠ "" ∧ AuthorSubject c ≠ au_Subject a) ∧
       merge_outcome env a c s r s') ∧
    (∀ c' r2 s2, HasRemote = true → publishMerge env a c' s' = (Ok r2, s2) →
       remote (world s2) = history (world s') ∧ history (world s2) = history (world s')).
Proof.
    intros Hk. split.
    - destruct (records s !! id) as [c|] eqn:Hc.
      + destruct (decide (cr_Status c = Ready ∧ four_eyes (cs_Fleet (fl_cfg s)) id c a = None)) as [[Hr Hfe]|Hno].
        * right. exists c. split_and!; [done|done|by eapply four_eyes_None|by eapply mergeSection_outcome].
        * left. unfold mergeSection in Hk. apply se_bind_inv in Hk as [(c' & s1 & Hg & Hk)|(? & Hg & ->)];
            apply mustGet_inv in Hg as [-> Hg]; [|done]. specialize (Hg c' eq_refl). assert (c' = c) as -> by congruence.
          case_bool_decide as Hr; cbn [negb] in Hk; [|by injection Hk as <- <-].
          rewrite se_get_bind in Hk. destruct (four_eyes _ _ _ _) eqn:Hfe; [by injection Hk as <- <-|].
          exfalso. by apply Hno.
      + left. unfold mergeSection in Hk. apply se_bind_inv in Hk as [(c' & s1 & Hg & Hk)|(? & Hg & ->)];
          apply mustGet_inv in Hg as [-> Hg]; [|done]. specialize (Hg c' eq_refl). congruence.
    - intros c' r2 s2 Hrem. unfold publishMerge. rewrite Hrem.
      intros [([] & s3 & Hp & Hrest)|(e & _ & ?)]%se_bind_inv; [|done].
      apply on_world_run in Hp as (r0 & Hp & Hr0 & _). destruct r0 as [[]|]; [|done].
      apply push_law in Hp as (Hh & Ht & _ & Hrm).
      assert (world s2 = world s3) as ->; [|done].
      assert (PreOrder (λ x y : Fl, world y = world x)) by (split; [by intros ?|intros ?????; congruence]).
      enough (respects (λ x y : Fl, world y = world x)
        (run! (if AuthorSubject c' !=? "" then notify env (MergedBell (AuthorSubject c') (Title c') (au_Name a)) else se_ret tt);
         run! (if ce_afterMerge env then raise (AfterMerge c') else se_ret tt); se_ret c')) as Hw by by eapply Hw.
      assert (∀ ev, respects (λ x y : Fl, world y = world x) (raise ev : SE Fl ChErr unit)) by (intros; by apply respects_modify).
      unfold notify. respect.
Qed.

(** The records follow git: a reconciliation that returns has marked merged
    every ready change whose branch git says is in the main branch and no other
    record, without touching the main branch; so a merge that landed but could
    not be recorded is recorded by the next reconciliation. *)
Theorem reconcile_follows_git env (s s' : Fl) (Hf : filed s) :
    Reconcile env s = (Ok tt, s') →
    (∀ id c, records s !! id = Some c →
       (cr_Status c = Ready ∧ git_merged (world s) id ∧ records s' !! id = Some (moved env Merged c)) ∨
       ((cr_Status c = Ready → ¬ git_merged (world s) id) ∧ records s' !! id = Some c)) ∧
    main_kept (world s) (world s') ∧
    (∀ env0 id a e s0, filed s0 → mergeSection env0 id a s0 = (Err (MergedUnrecorded e), s) →
       ∃ c, records s' !! id = Some c ∧ cr_Status c = Merged).
Proof.
    intros Hop. split_and!.
    - intros id c Hc. by eapply Reconcile_records.
    - unfold Reconcile in Hop. rewrite se_get_bind in Hop.
      destruct (st_List (fl_store s)) as [l|] eqn:Hl; [|by injection Hop].
      apply st_list_law in Hl as (_ & Hl & _). unfold se_bind, se_lift in Hop. simpl in Hop.
      eapply (respects_each (lifted main_kept)); [|exact Hop]. intros c Hc%Hl.
      destruct (Hf _ _ Hc) as [_ Hb]. by apply reconcile_one_main.
    - intros env0 id a e s0 Hf0 Hm. destruct (unrecorded_is_merged _ _ _ _ _ _ Hf0 Hm) as (Hg & c & _ & [[Hc Hr]|Hc]).
      + destruct (Reconcile_records env s s' id c Hf Hop Hc) as [(_ & _ & ?)|[Hn _]]; [by eexists|]. by destruct Hn.
      + destruct (Reconcile_records env s s' id _ Hf Hop Hc) as [(? & _)|[_ Hn]]; [done|]. by eexists.
Qed.
End merges.
