(* ===== verification/ChangeCases.v ===== *)
(** * The change flow on a concrete repository

    A repository of texts and histories that keeps the contracts of
    ChangeProofs, the flow run on it, and what the runs show: the ways a merge
    recorded as merged is dropped, and what the four-eyes rule does not look at. *)

From S2P Require Import Prelude GoLib FleetModel Groups Resolve Apps Mutate DeviceOps Classes Verdicts Document ConfigTx ConfigSafety Changes Scrub ChangeFlow ChangeProofs MergeProofs.

(** ** The repository *)

Record Rep := mkRep {
  rp_main : Git;
  rp_branches : gmap string (list Commit);
  rp_trees : gmap string string;          (* worktree directory -> fleet.json *)
  rp_published : gmap string (list Commit)
}.
#[export] Instance Rep_eta : Eta Rep := λ r, mkRep (rp_main r) (rp_branches r) (rp_trees r) (rp_published r).

Definition rep_dir : string := "/repo".
Definition tree_dir (id : string) : string := rep_dir +:+ "/.cr/" +:+ id.
(** The branch that belongs to a worktree directory. *)
Definition branch_of (dir : string) : string := BranchFor (trim_prefix dir (rep_dir +:+ "/.cr/")).

Definition on_main {E A} (m : SE Git E A) : SE Rep E A := λ r,
  let '(x, g) := m (rp_main r) in (x, r <| rp_main := g |>).

Definition base_repo : ConfigRepo Git := git_repo true false.

#[export] Instance rep_repo : ConfigRepo Rep := {|
  ReadFile name r := @ReadFile Git base_repo name (rp_main r);
  WriteFile name s := on_main (@WriteFile Git base_repo name s);
  CommitFile m a name := on_main (@CommitFile Git base_repo m a name);
  HasRemote := true;
  Sync := on_main (@Sync Git base_repo);
  Push := on_main (@Push Git base_repo);
  SourceKey := None
|}.

Definition doc_of (h : list Commit) : string := match h with c :: _ => c_doc c | [] => "" end.

(** A worktree: its own file, its own branch. *)
Definition rep_worktree (dir : string) : ConfigRepo Rep := {|
  ReadFile name r := match rp_trees r !! dir with
                     | Some t => if name ==? FleetFile then Ok t else Err NotExist
                     | None => Err NotExist end;
  WriteFile name s r := (Ok tt, r <| rp_trees ::= <[dir := s]> |>);
  CommitFile m a name r :=
    let b := branch_of dir in
    (Ok tt, r <| rp_branches ::= alter (λ h, mkCommit m a (default "" (rp_trees r !! dir)) :: h) b |>);
  HasRemote := false;
  Sync := se_ret tt;
  Push := se_ret tt;
  SourceKey := None
|}.

Definition rev_of (h : list Commit) : string := pretty (N.of_nat (length h)).

#[export] Instance rep_branch_repo : BranchRepo Rep := {|
  CreateBranch b r := match rp_branches r !! b with
    | Some _ => (Err "branch exists", r)
    | None => (Ok tt, r <| rp_branches ::= <[b := g_hist (rp_main r)]> |>) end;
  DeleteBranch b r := match rp_branches r !! b with
    | Some _ => (Ok tt, r <| rp_branches ::= delete b |>)
    | None => (Err "no such branch", r) end;
  AddWorktree dir b r := match rp_trees r !! dir, rp_branches r !! b with
    | None, Some h => (Ok tt, r <| rp_trees ::= <[dir := doc_of h]> |>)
    | _, _ => (Err "cannot add worktree", r) end;
  RemoveWorktree dir r := (Ok tt, r <| rp_trees ::= delete dir |>);
  MergeNoFF b m a r :=
    let g := rp_main r in
    match rp_branches r !! b with
    | None => (Err "not something we can merge", r)
    | Some h =>
        if bool_decide (h `suffix_of` g_hist g) then (Ok tt, r)
        else if bool_decide (g_hist g `suffix_of` h)
        then (Ok tt, r <| rp_main := mkGit (doc_of h) (mkCommit m a (doc_of h) :: h) (g_remote g) (g_incoming g) (g_fail g) |>)
        else (Err "merge conflict", r)
    end;
  ResetHard rev r :=
    let g := rp_main r in
    match List.find (λ n, rev_of (drop n (g_hist g)) ==? rev) (seq 0 (S (length (g_hist g)))) with
    | Some n => let h := drop n (g_hist g) in
        (Ok tt, r <| rp_main := mkGit match h with c :: _ => c_doc c | [] => g_tree g end h
                                  (g_remote g) (g_incoming g) (g_fail g) |>)
    | None => (Err "unknown revision", r)
    end;
  Diff b r := match rp_branches r !! b with
    | Some h => Ok (if doc_of h ==? doc_of (g_hist (rp_main r)) then "" else doc_of h)
    | None => Err "unknown revision" end;
  BranchMerged b r := match rp_branches r !! b with
    | Some h => Ok (bool_decide (h `suffix_of` g_hist (rp_main r)))
    | None => Err "no such branch" end;
  RepoHead r := Ok (rev_of (g_hist (rp_main r)));
  RepoDir := rep_dir;
  Publisher := Some
    (λ b r, match rp_branches r !! b with
            | Some h => (Ok tt, r <| rp_published ::= <[b := h]> |>)
            | None => (Err "no such ref", r) end,
     λ b r, (Ok tt, r <| rp_published ::= delete b |>));
  OpenWorktree dir r := match rp_trees r !! dir with
    | Some _ => Ok (rep_worktree dir) | None => Err "not a worktree" end;
  StatDir dir r := bool_decide (is_Some (rp_trees r !! dir))
|}.

(** ** It keeps the contracts *)

#[export] Program Instance rep_laws : RepoLaws Rep := {|
  tree r := g_tree (rp_main r); history r := g_hist (rp_main r); remote r := g_remote (rp_main r)
|}.
Next Obligation. by intros w s [= <-]. Qed.
Next Obligation. by intros w s r w' [= <- <-]. Qed.
Next Obligation. intros m a w r w'. unfold CommitFile. simpl. unfold on_main. simpl. destruct (g_fail (rp_main w)); by intros [= <- <-]. Qed.
Next Obligation.
  intros w r w' [= <- <-]. simpl. split; [by eexists|]. intros _. split; [done|]. by intros c l ->.
Qed.
Next Obligation.
  intros w r w'. unfold Push. simpl. unfold on_main. simpl. case_bool_decide as Hs; intros [= <- <-]; simpl.
  - split_and!; try done. by eapply suffix_of_mid.
  - split_and!; try done. by eexists.
Qed.

Definition rep_part (r : Rep) (id : string) : option (list Commit) * option string * option (list Commit) :=
  (rp_branches r !! BranchFor id, rp_trees r !! tree_dir id, rp_published r !! BranchFor id).

Definition rep_own (id : string) (m : SE Rep string unit) : Prop :=
  ∀ w r w', m w = (r, w') → main_kept w w' ∧ ∀ id', id' ≠ id → rep_part w' id' = rep_part w id'.

Lemma branch_ne id id' : id' ≠ id → BranchFor id ≠ BranchFor id'.
Proof. intros Hne Heq. by apply string_app_inj in Heq. Qed.
Lemma tree_ne id id' : id' ≠ id → tree_dir id ≠ tree_dir id'.
Proof. intros Hne Heq. by apply string_app_inj, string_app_inj in Heq. Qed.
Lemma branch_of_dir id : branch_of (tree_dir id) = BranchFor id.
Proof. 
  unfold branch_of, trim_prefix, tree_dir.
  change (rep_dir +:+ "/.cr/" +:+ id) with ((rep_dir +:+ "/.cr/") +:+ id). by rewrite cut_prefix_app.
Qed.

Lemma main_kept_same (w w' : Rep) : rp_main w' = rp_main w → main_kept w w'.
Proof. unfold main_kept. simpl. by intros ->. Qed.

(** The lookups of another change in an edited world. *)
Ltac other_part Hne :=
  unfold rep_part; simpl;
  rewrite ?lookup_insert_ne, ?lookup_delete_ne, ?lookup_alter_ne
    by (first [by apply branch_ne|by apply tree_ne]); reflexivity.

Ltac own :=
  intros w r w'; simpl; repeat case_match; intros [= _ <-];
  (split; [by apply main_kept_same|intros id' Hne; other_part Hne]).

Lemma rep_own_create id : rep_own id (CreateBranch (BranchFor id)).
Proof. own. Qed.
Lemma rep_own_delete id : rep_own id (DeleteBranch (BranchFor id)).
Proof. own. Qed.
Lemma rep_own_add id b : rep_own id (AddWorktree (tree_dir id) b).
Proof. own. Qed.
Lemma rep_own_remove id : rep_own id (RemoveWorktree (tree_dir id)).
Proof. own. Qed.
Lemma rep_own_write id n s : rep_own id (@WriteFile Rep (rep_worktree (tree_dir id)) n s).
Proof. own. Qed.
Lemma rep_own_commit id m a n : rep_own id (@CommitFile Rep (rep_worktree (tree_dir id)) m a n).
Proof.
  intros w r w'. unfold CommitFile. simpl. rewrite branch_of_dir. intros [= _ <-].
  split; [by apply main_kept_same|intros id' Hne; other_part Hne].
Qed.

#[export] Program Instance rep_branch_laws : BranchLaws Rep := {|
  part := rep_part; has_worktree p := is_Some p.1.2; own_op := rep_own
|}.
Next Obligation. by intros s w r w' id [= _ <-]. Qed.
Next Obligation.
  intros m a w r w' id. unfold CommitFile. simpl. unfold on_main. simpl.
  destruct (g_fail (rp_main w)); by intros [= _ <-].
Qed.
Next Obligation. by intros w r w' id [= _ <-]. Qed.
Next Obligation.
  intros w r w' id. unfold Push. simpl. unfold on_main. simpl. case_bool_decide; by intros [= _ <-].
Qed.
Next Obligation. intros rev w r w' id. unfold ResetHard, rep_branch_repo. cbv zeta. destruct (List.find _ _); by intros [= _ <-]. Qed.
Next Obligation. intros b m a w r w' id. simpl. repeat case_match; by intros [= _ <-]. Qed.
Next Obligation. apply rep_own_create. Qed.
Next Obligation. apply rep_own_delete. Qed.
Next Obligation. apply rep_own_add. Qed.
Next Obligation. apply rep_own_remove. Qed.
Next Obligation. intros id f g [= <- <-]. own. Qed.
Next Obligation. intros id f g [= <- <-]. own. Qed.
Next Obligation. intros id w wt n s. simpl. case_match; [|done]. intros [= <-]. apply rep_own_write. Qed.
Next Obligation. intros id w wt m a n. simpl. case_match; [|done]. intros [= <-]. apply rep_own_commit. Qed.
Next Obligation. intros id m w r w' Ho Hm. by apply Ho in Hm. Qed.
Next Obligation. intros id w wt. simpl. case_match; [|done]. intros _. unfold rep_part. simpl. by eexists. Qed.
Next Obligation.
  intros id b w r w' [t Ht]. change (rp_trees w !! tree_dir id = Some t) in Ht.
  change (worktreeDir id) with (tree_dir id). unfold AddWorktree, rep_branch_repo. rewrite Ht. by intros [= _ <-].
Qed.
Next Obligation.
  intros b m a w r w'. simpl. destruct (rp_branches w !! b) as [h|] eqn:Hb; [|by intros [= <- <-]].
  case_bool_decide as H1; [intros [= <- <-]; split; [done|]; by right|].
  case_bool_decide as H2; intros [= <- <-]; simpl; [|done]. split; [done|]. left. destruct H2 as [t ->]. by exists t.
Qed.
Next Obligation.
  intros rev w0 w r w' [= <-] [l Hl]. unfold ResetHard, rep_branch_repo. cbv zeta.
  destruct (List.find _ _) as [n|] eqn:Hf; [|by intros [= <- <-]].
  apply List.find_some in Hf as [Hin Heq]. apply bool_decide_eq_true in Heq.
  unfold rev_of in Heq. apply (inj pretty), Nat2N.inj in Heq. intros [= <- <-]. simpl.
  assert (drop n (g_hist (rp_main w)) = g_hist (rp_main w0)) as ->.
  { simpl in Hl. rewrite Hl in *. rewrite length_drop, length_app in Heq.
    apply in_seq in Hin. rewrite length_app in Hin. assert (n = length l) as -> by lia. by rewrite drop_app_length. }
  split; [done|]. intros _. split; [done|]. by intros c l' ->.
Qed.
Next Obligation.
  intros id w w' Hp Hh. unfold rep_part in Hp. simpl in *. injection Hp as Hb _ _. by rewrite Hb, Hh.
Qed.
Next Obligation.
  intros id m a w w'. simpl. destruct (rp_branches w !! BranchFor id) as [h|] eqn:Hb; [|done].
  case_bool_decide as H1; [intros [= <-]; try rewrite Hb; by rewrite bool_decide_eq_true_2|].
  case_bool_decide as H2; [|done]. intros [= <-]. simpl. try rewrite Hb. rewrite bool_decide_eq_true_2; [done|].
  by apply suffix_cons_r.
Qed.

(** ** A store whose puts may fail *)

Record Shelf := mkShelf { sh_map : gmap string CR; sh_fails : list bool }.

#[export] Instance shelf_store : ChangeStore Shelf := {|
  st_Get id s := Ok (sh_map s !! id);
  st_Put c s := match sh_fails s with
    | true :: l => (Err "store down", mkShelf (sh_map s) l)
    | l => (Ok tt, mkShelf (<[cr_ID c := c]> (sh_map s)) (tail l)) end;
  st_List s := Ok (omap (λ p, if p.1 ==? cr_ID p.2 then Some p.2 else None) (map_to_list (sh_map s)))
|}.

Lemma elem_of_shelf (m : gmap string CR) c :
  c ∈ omap (λ p, if p.1 ==? cr_ID p.2 then Some p.2 else None) (map_to_list m) ↔ m !! cr_ID c = Some c.
Proof.
  rewrite list_elem_of_omap. split.
  - intros ([k c'] & Hin%elem_of_map_to_list & Hx). simpl in Hx. case_bool_decide; [|done].
    injection Hx as <-. by subst.
  - intros Hm. exists (cr_ID c, c). rewrite elem_of_map_to_list. split; [done|]. simpl.
    by rewrite bool_decide_eq_true_2.
Qed.

Lemma shelf_ids_sub (l : list (string * CR)) id :
  id ∈ cr_ID <$> omap (λ p, if p.1 ==? cr_ID p.2 then Some p.2 else None) l → id ∈ l.*1.
Proof.
  rewrite list_elem_of_fmap. intros (c & -> & Hc). apply list_elem_of_omap in Hc as ([k c'] & Hin & Hx).
  simpl in Hx. case_bool_decide as Hk; [|done]. injection Hx as <-. rewrite <- Hk.
  apply list_elem_of_fmap. by exists (k, c').
Qed.

#[export] Program Instance shelf_laws : StoreLaws Shelf := {| recs := sh_map |}.
Next Obligation. by intros id st r [= <-]. Qed.
Next Obligation.
  intros c st r st'. simpl. destruct (sh_fails st) as [|[] l]; intros [= <- <-]; simpl; [by left|by right|by left].
Qed.
Next Obligation.
  intros st l [= <-]. split_and!.
  - pose proof (NoDup_fst_map_to_list (sh_map st)) as Hnd. revert Hnd.
    generalize (map_to_list (sh_map st)) as l. induction l as [|[k c] l IH]; [constructor|].
    cbn [fmap list_fmap fst]. intros [Hni Hnd]%NoDup_cons. simpl. case_bool_decide as Hk; [|by apply IH].
    cbn. apply NoDup_cons. split; [|by apply IH]. intros Hin. apply Hni. rewrite Hk. by apply shelf_ids_sub in Hin.
  - intros c Hc. by apply elem_of_shelf.
  - intros id c Hc Hid. apply elem_of_shelf. by rewrite Hid.
Qed.

(** ** The demo *)

#[local] Existing Instances demo_go_json demo_print demo_codec demo_parsers.

Definition first_doc : string := demo_doc 0 false +:+ newline.
Definition first_commit : Commit := mkCommit "init" demo_author first_doc.

(** A console with four eyes required; [incoming] are the pushes of other
    writers, [fails] the puts that fail. *)
Definition eyes : Fleet := (demo_fleet 0 false)
  <| f_Assurance := Some (Build_Assurance true false false false) |>.
Definition console (incoming : list (list Commit)) (fails : list bool) : Flow Rep Shelf :=
  mkFlow (mkService (mkTx (mkRep (mkGit first_doc [first_commit] [first_commit] incoming 0) ∅ ∅ ∅) None)
            (mkSnapshot _ eyes tt tt tt tt))
         (mkShelf ∅ fails) [].

Definition ch_env : ChEnv Rep :=
  mkChEnv (λ _ _ _, None) None (λ _ _ _, None) 7 true ["reviewers"] true.
Definition alice : Author := mkAuthor "alice" "Alice" "a@x".
Definition bob : Author := mkAuthor "bob" "Bob" "b@x".

(** Alice opens a change, [editor] edits it, it is submitted. *)
Definition prepared (editor : Author) (incoming : list (list Commit)) (fails : list bool) : Flow Rep Shelf :=
  snd ((run! OpenChange ch_env "c1" "Setting" alice;
        run! Edit ch_env "c1" demo_edit "edit" editor ["good"];
        Submit ch_env "c1") (console incoming fails)).

Definition status_of (s : Flow Rep Shelf) : option CRStatus := cr_Status <$> sh_map (fl_store s) !! "c1".

Definition merged_doc : string := demo_doc 0 true +:+ newline.
Definition other_commit : Commit := mkCommit "other" demo_author (demo_doc 1 false +:+ newline).
Definition carries (doc : string) (h : list Commit) : bool := existsb (λ c, c_doc c ==? doc) h.

(** ** Witnesses *)

Lemma void_run {A} (m : SE (Flow Rep Shelf) ChErr A) s r s' :
  m s = (r, s') → void m s = (match r with Ok _ => Ok tt | Err e => Err e end, s').
Proof. unfold void, se_bind. intros ->. by destruct r. Qed.

Lemma filed_console incoming fails : filed (console incoming fails).
Proof. intros id c Hc. by simplify_map_eq. Qed.

Lemma filed_opened editor incoming fails r s :
  (run! OpenChange ch_env "c1" "Setting" alice;
   Edit ch_env "c1" demo_edit "edit" editor ["good"]) (console incoming fails) = (r, s) → filed s.
Proof.
  pose proof (filed_console incoming fails) as Hf.
  intros [(c & s1 & Ho%void_run & Hk)|(e & Ho%void_run & ->)]%se_bind_inv;
    apply (flow_op_filed ch_env (OOpen "c1" "Setting" alice) _ _ _ Hf) in Ho; [|done].
  by eapply (flow_op_filed ch_env (OEdit "c1" demo_edit "edit" editor ["good"])).
Qed.

Lemma filed_prepared editor incoming fails : filed (prepared editor incoming fails).
Proof.
  unfold prepared. destruct ((run! OpenChange ch_env "c1" "Setting" alice;
   run! Edit ch_env "c1" demo_edit "edit" editor ["good"];
   Submit ch_env "c1") (console incoming fails)) as [r s] eqn:Hk. simpl.
  apply se_bind_inv in Hk as [(c & s1 & Ho & Hk)|(e & Ho & ->)].
  2:{ apply (filed_opened editor incoming fails (Err e) s). unfold se_bind. by rewrite Ho. }
  assert (∀ re se, Edit ch_env "c1" demo_edit "edit" editor ["good"] s1 = (re, se) → filed se) as Hed.
  { intros re se He. apply (filed_opened editor incoming fails re se). unfold se_bind. by rewrite Ho. }
  apply se_bind_inv in Hk as [([] & s2 & He & Hk)|(e & He & ->)]; apply Hed in He; [|done].
  unfold Submit in Hk. apply se_bind_inv in Hk as [(dh & s3 & Hb%void_run & Hk)|(e & Hb%void_run & ->)];
    apply (flow_op_filed ch_env (OBegin "c1") _ _ _ He) in Hb; [|done].
  rewrite se_get_bind in Hk. apply void_run in Hk. by eapply (flow_op_filed ch_env (OFinish "c1" _)).
Qed.

Lemma change_lifecycle_witness :
  let op := OOpen "c1" "Setting" alice in
  let '(r, s') := flow_op ch_env op (console [] []) in
  filed s' ∧ record_change ch_env op "c1" None (sh_map (fl_store s') !! "c1") ∧ status_of s' = Some Draft.
Proof.
  intros op. destruct (flow_op ch_env op (console [] [])) as [r s'] eqn:Hop.
  destruct (change_lifecycle ch_env op (console [] []) r s' (filed_console [] []) Hop) as [Hf Hl].
  split; [exact Hf|]. split; [exact (proj1 (Hl "c1"))|].
  assert (s' = snd (flow_op ch_env op (console [] []))) as -> by (by rewrite Hop). vm_compute. reflexivity.
Defined.

(** The submit of a change, with another change opened and a sync in between. *)
Definition drafted : Flow Rep Shelf :=
  snd ((run! OpenChange ch_env "c1" "Setting" alice;
        Edit ch_env "c1" demo_edit "edit" alice ["good"]) (console [] [])).

Lemma filed_drafted : filed drafted.
Proof.
  unfold drafted. destruct ((run! OpenChange ch_env "c1" "Setting" alice;
    Edit ch_env "c1" demo_edit "edit" alice ["good"]) (console [] [])) as [r s] eqn:Hk. by apply filed_opened in Hk.
Qed.

Lemma submit_has_its_change_witness :
  let '(r1, s1) := beginSubmit ch_env "c1" drafted in
  let '(r2, s2) := flow_op ch_env (OOpen "c2" "Other" bob) s1 in
  let '(r3, s3) := flow_op ch_env OSync s2 in
  is_ok r1 = true ∧ status_of s3 = Some Building ∧
  rep_part (world s2) "c1" = rep_part (world s1) "c1".
Proof.
  destruct (beginSubmit ch_env "c1" drafted) as [[dh|e] s1] eqn:H1;
    [|apply (f_equal (is_ok ∘ fst)) in H1; vm_compute in H1; discriminate H1].
  destruct (flow_op ch_env (OOpen "c2" "Other" bob) s1) as [r2 s2] eqn:H2.
  destruct (flow_op ch_env OSync s2) as [r3 s3] eqn:H3.
  destruct (submit_has_its_change ch_env ch_env "c1" drafted s1 s2 s3 dh filed_drafted H1) as (c & Hc & _ & Hc3 & Hp & _).
  - apply rtc_once. exists ch_env, (OOpen "c2" "Other" bob), r2. split; [discriminate|exact H2].
  - apply rtc_once. exists ch_env, OSync, r3. split; [discriminate|exact H3].
  - split; [reflexivity|]. split; [|exact Hp]. unfold status_of. change (sh_map (fl_store s3)) with (recs (fl_store s3)).
    rewrite Hc3. reflexivity.
Defined.

Lemma merge_lands_witness :
  let '(r, s') := mergeSection ch_env "c1" bob (prepared alice [] []) in
  is_ok r = true ∧ status_of s' = Some Merged ∧ landed_on (mkCR "c1" "Setting" "Alice" "alice" "cr/c1" Ready "" 7 7 ["good"] false)
    bob (prepared alice [] []) s'.
Proof.
  destruct (mergeSection ch_env "c1" bob (prepared alice [] [])) as [r s'] eqn:Hm.
  assert (is_ok r = true) as Hok.
  { change (is_ok r) with (is_ok (fst (r, s'))). rewrite <- Hm. vm_compute. reflexivity. }
  destruct (proj1 (merge_lands ch_env "c1" bob (prepared alice [] []) r s' (filed_prepared _ _ _) Hm)) as [[Hbad _]|(c & Hc & Hr & _ & Ho)].
  { rewrite Hok in Hbad. discriminate Hbad. }
  assert (c = mkCR "c1" "Setting" "Alice" "alice" "cr/c1" Ready "" 7 7 ["good"] false) as ->.
  { assert (Some c = recs (fl_store (prepared alice [] [])) !! "c1") as Hx by (symmetry; exact Hc).
    assert (recs (fl_store (prepared alice [] [])) !! "c1" =
            Some (mkCR "c1" "Setting" "Alice" "alice" "cr/c1" Ready "" 7 7 ["good"] false)) as Hy by (vm_compute; reflexivity).
    rewrite Hy in Hx. by injection Hx. }
  destruct r as [c'|e]; [|discriminate Hok]. destruct Ho as (-> & Hrec & Hl & _). split; [reflexivity|]. split; [|exact Hl].
  unfold status_of. change (sh_map (fl_store s')) with (recs (fl_store s')). rewrite Hrec. vm_compute. reflexivity.
Defined.

(** The put after the merge fails; the next reconciliation records it. *)
Definition before_unrecorded : Flow Rep Shelf := prepared alice [] [false; false; false; false; true].
Definition unrecorded : Flow Rep Shelf := snd (mergeSection ch_env "c1" bob before_unrecorded).

Lemma unrecorded_run : mergeSection ch_env "c1" bob before_unrecorded = (Err (MergedUnrecorded "store down"), unrecorded).
Proof.
  unfold unrecorded. rewrite (surjective_pairing (mergeSection ch_env "c1" bob before_unrecorded)) at 1.
  apply (f_equal2 pair); [vm_compute; reflexivity|reflexivity].
Qed.

Lemma reconcile_follows_git_witness :
  status_of unrecorded = Some Ready ∧ fst (Reconcile ch_env unrecorded) = Ok tt ∧
  ∃ c, sh_map (fl_store (snd (Reconcile ch_env unrecorded))) !! "c1" = Some c ∧ cr_Status c = Merged.
Proof.
  split; [vm_compute; reflexivity|].
  assert (fst (Reconcile ch_env unrecorded) = Ok tt) as Hr by (vm_compute; reflexivity). split; [exact Hr|].
  assert (filed unrecorded) as Hf.
  { eapply (flow_op_filed ch_env (OMerge "c1" bob) before_unrecorded); [apply filed_prepared|].
    exact (void_run _ _ _ _ unrecorded_run). }
  assert (Reconcile ch_env unrecorded = (Ok tt, snd (Reconcile ch_env unrecorded))) as Hrec.
  { rewrite (surjective_pairing (Reconcile ch_env unrecorded)) at 1. by rewrite Hr. }
  exact (proj2 (proj2 (reconcile_follows_git ch_env unrecorded _ Hf Hrec)) ch_env "c1" bob _ before_unrecorded
           (filed_prepared _ _ _) unrecorded_run).
Defined.

(** ** What the flow does not hold *)

(** A merge recorded as merged can be lost.  The merge is made on the local
    main branch without a sync and pushed after the write lock is released.
    When another writer's commit reached the remote first, the push is refused,
    and the next sync resets the main branch to the remote: the change is
    recorded as merged, its branch is gone, and no commit carries it.  And when a
    sync runs between the merge and its push, the merge is dropped the same way
    while the push - of nothing - succeeds: the author is told the change landed
    and the delivery is started. *)
Theorem recorded_merge_can_be_lost :
  (let '(r1, s1) := Merge ch_env "c1" bob (prepared alice [[other_commit]] []) in
   let '(r2, s2) := flow_op ch_env OSync s1 in
   r1 = Err (MergedUnpushed ErrConflict) ∧ r2 = Ok tt ∧ status_of s2 = Some Merged ∧
   g_hist (rp_main (world s2)) = [other_commit; first_commit] ∧ rp_branches (world s2) = ∅ ∧
   rp_published (world s2) = ∅) ∧
  (let '(r1, s1) := mergeSection ch_env "c1" bob (prepared alice [] []) in
   let '(r2, s2) := flow_op ch_env OSync s1 in
   match r1 with
   | Ok c =>
       let '(r3, s3) := publishMerge ch_env bob c s2 in
       carries merged_doc (g_hist (rp_main (world s1))) = true ∧ r2 = Ok tt ∧ is_ok r3 = true ∧
       status_of s3 = Some Merged ∧ g_remote (rp_main (world s3)) = [first_commit] ∧
       g_hist (rp_main (world s3)) = [first_commit] ∧ rp_branches (world s3) = ∅ ∧
       In (AfterMerge c) (fl_events s3) ∧ In (MergedBell "alice" "Setting" "Bob") (fl_events s3)
   | Err _ => False
   end).
Proof. vm_compute. split_and!; auto 10. Qed.

(** Four eyes look at who opened a change only: with four eyes required, Bob
    puts his own edit on the change Alice opened, approves it, and the only
    commit that lands is his. *)
Theorem four_eyes_ignore_editors :
  let s := prepared bob [] [] in
  let '(r, s') := Merge ch_env "c1" bob s in
  is_ok r = true ∧ status_of s' = Some Merged ∧
  g_remote (rp_main (world s')) =
    [mkCommit "merge change c1: Setting" bob merged_doc; mkCommit "edit" bob merged_doc; first_commit].
Proof. vm_compute. split_and!; reflexivity. Qed.
