(* ===== verification/Sql.v ===== *)
(** * Statements against the database (src/internal/adapters/postgres)

    The stores of the control plane issue single SQL statements.  A statement
    runs on the tables atomically, or it fails and leaves them alone; which ones
    fail is a script the state carries ([outages]), so every theorem about a
    store holds for every pattern of outages. *)

From S2P Require Import Prelude GoLib.

Inductive DbErr := Unreachable.

Record Pg (T : Type) := mkPg { tables : T; outages : list bool }.
Arguments mkPg {T} _ _.
Arguments tables {T} _.
Arguments outages {T} _.

(** One statement: what it does to the tables and what it returns. *)
Definition statement {T A : Type} (f : T → A * T) : SE (Pg T) DbErr A := λ s,
  match outages s with
  | true :: r => (Err Unreachable, mkPg (tables s) r)
  | o => let '(a, t) := f (tables s) in (Ok a, mkPg t (tail o))
  end.

Definition query {T A : Type} (f : T → A) : SE (Pg T) DbErr A := statement (λ t, (f t, t)).
Definition exec {T : Type} (f : T → T) : SE (Pg T) DbErr unit := statement (λ t, (tt, f t)).

Lemma statement_Ok {T A} (f : T → A * T) s a s' :
  statement f s = (Ok a, s') → f (tables s) = (a, tables s').
Proof.
  unfold statement. destruct (outages s) as [|[] o]; [|done|];
    destruct (f (tables s)) as [a1 t]; by intros [= -> <-].
Qed.

Lemma statement_Err {T A} (f : T → A * T) s e s' :
  statement f s = (Err e, s') → tables s' = tables s.
Proof.
  unfold statement. destruct (outages s) as [|[] o]; [|by intros [= <-]|];
    destruct (f (tables s)) as [a1 t]; done.
Qed.

Lemma query_tables {T A} (f : T → A) s r s' :
  query f s = (r, s') → tables s' = tables s ∧ ∀ a, r = Ok a → a = f (tables s).
Proof.
  intros E. destruct r as [a|e].
  - apply statement_Ok in E. simpl in E. split; [congruence|]. intros b [= <-]. congruence.
  - split; [by eapply statement_Err|done].
Qed.

Lemma exec_tables {T} (f : T → T) s r s' :
  exec f s = (r, s') → tables s' = match r with Ok _ => f (tables s) | Err _ => tables s end.
Proof.
  intros E. destruct r as [[]|e]; [|by eapply statement_Err].
  apply statement_Ok in E. simpl in E. congruence.
Qed.

(** No outage scripted: every statement succeeds. *)
Definition live {T} (t : T) : Pg T := mkPg t [].

Lemma statement_live {T A} (f : T → A * T) t : statement f (live t) = (Ok (f t).1, live (f t).2).
Proof. unfold statement. simpl. by destruct (f t). Qed.

(** [ORDER BY key DESC] and [ORDER BY key]: rows with equal keys in an order
    the database does not promise, here that of the table. *)
Definition order_by_desc {A} (key : A → Z) : list A → list A := isort (λ a b, key b <? key a).
Definition order_by {A} (key : A → Z) : list A → list A := isort (λ a b, key a <? key b).

#[export] Instance order_by_desc_sw {A} (key : A → Z) : StrictWeak (λ a b, key b <? key a).
Proof. split; intros *; rewrite ?Z.ltb_lt, ?Z.ltb_ge; lia. Qed.
#[export] Instance order_by_sw {A} (key : A → Z) : StrictWeak (λ a b, key a <? key b).
Proof. split; intros *; rewrite ?Z.ltb_lt, ?Z.ltb_ge; lia. Qed.

Lemma elem_of_order_by_desc {A} (key : A → Z) l x : x ∈ order_by_desc key l ↔ x ∈ l.
Proof. apply elem_of_isort. Qed.
Lemma elem_of_order_by {A} (key : A → Z) l x : x ∈ order_by key l ↔ x ∈ l.
Proof. apply elem_of_isort. Qed.

(** A service returns the store's error as its own. *)
Definition db_step {S A E} (wrap : DbErr → E) (m : SE S DbErr A) : SE S E A := λ s,
  match m s with (Ok a, s') => (Ok a, s') | (Err e, s') => (Err (wrap e), s') end.

Lemma db_step_inv {S A E} (wrap : DbErr → E) (m : SE S DbErr A) s r s' :
  db_step wrap m s = (r, s') → ∃ r0, m s = (r0, s') ∧
    r = match r0 with Ok a => Ok a | Err e => Err (wrap e) end.
Proof. unfold db_step. destruct (m s) as [[a|e] s1]; intros [= <- <-]; eauto. Qed.

(** A relation on tables that every statement respects whatever it returns. *)
Definition tables_rel {T} (R : relation T) : relation (Pg T) := λ s s', R (tables s) (tables s').

#[export] Instance tables_rel_preorder {T} (R : relation T) `{!PreOrder R} : PreOrder (tables_rel R).
Proof. unfold tables_rel. split; [by intros s|]. intros a b c ??. by etrans. Qed.

Lemma respects_statement {T A} (R : relation T) `{!Reflexive R} (f : T → A * T) :
  (∀ t, R t (f t).2) → respects (tables_rel R) (statement f).
Proof.
  unfold tables_rel. intros Hf s [a|e] s' E.
  - apply statement_Ok in E. specialize (Hf (tables s)). by rewrite E in Hf.
  - apply statement_Err in E. by rewrite E.
Qed.

Lemma respects_db_step {S A E} (R : relation S) (wrap : DbErr → E) (m : SE S DbErr A) :
  respects R m → respects R (db_step wrap m).
Proof. intros Hm s r s' (r0 & E0 & _)%db_step_inv. by eapply Hm. Qed.
