(* ===== verification/Stations.v ===== *)
(** * What an imaging station reports (src/internal/domain/discovery/discovery.go,
      src/internal/app/discovery.go, src/internal/adapters/postgres/discovered.go)

    MAC addresses in their canonical form, the discovered set of a station, and
    the report that replaces it. *)

From S2P Require Import Prelude GoLib FleetModel Sql Text.

(** ** MAC addresses *)

Definition is_hex (a : ascii) : bool := is_digit a || in_range "a" "f" a.

(** [macRE], [^([0-9a-f]{2}:){5}[0-9a-f]{2}$]: [n] more octets follow. *)
Fixpoint mac_octets (n : nat) (s : string) : bool :=
  match s with
  | String a (String b r) =>
      is_hex a && is_hex b &&
      match n, r with
      | O, EmptyString => true
      | S n, String c r => Ascii.eqb c ":" && mac_octets n r
      | _, _ => false
      end
  | _ => false
  end.
Definition macRE (s : string) : bool := mac_octets 5 s.

Definition hyphen_to_colon (a : ascii) : ascii := if Ascii.eqb a "-" then ":"%char else a.
Definition NormalizeMAC (mac : string) : string :=
  string_map hyphen_to_colon (to_lower (trim_space mac)).

(** ** Discovered devices *)

(** A Go [Phase] is a string: the four constants, or any other text. *)
Definition Phase := string.
Definition PhaseDiscovered : Phase := "discovered".
Definition PhaseInstalling : Phase := "installing".
Definition PhaseInstalled : Phase := "installed".
Definition PhaseRunning : Phase := "running".

Record Discovered := mkDiscovered {
  disc_MAC : string; disc_Serial : string; disc_Vendor : string; disc_Model : string;
  disc_CPU : string; disc_Cores : Z; disc_MemGB : Z; disc_DiskGB : Z; disc_Firmware : string;
  disc_Facter : string; disc_Phase : Phase; disc_LastSeen : Time
}.
#[export] Instance Discovered_eta : Eta Discovered := λ r,
  mkDiscovered (disc_MAC r) (disc_Serial r) (disc_Vendor r) (disc_Model r) (disc_CPU r)
    (disc_Cores r) (disc_MemGB r) (disc_DiskGB r) (disc_Firmware r) (disc_Facter r)
    (disc_Phase r) (disc_LastSeen r).

Definition NormalizePhase (p : Phase) : Phase :=
  let q := to_lower (trim_space p) in
  if (q ==? "pxe") || (q ==? "netboot") || (q ==? "seen") then PhaseDiscovered
  else if (q ==? PhaseDiscovered) || (q ==? PhaseInstalling) || (q ==? PhaseInstalled) then q
  else p.

Definition maxStringField : Z := 256.
Definition maxFacterBytes : Z := 512 * 1024.
Definition MaxBatch : Z := 4096.

Inductive StationErr :=
  | BadMAC (mac : string)
  | NeedsPhase
  | PhaseAfterEnrolment (p : Phase)
  | FieldTooLong
  | FacterTooLarge
  | NegativeCount
  | BatchTooLarge (n : nat)
  | ListedTwice (mac : string)
  | NeedsStation
  | StationDb (e : DbErr).

(** [Validate].  The string fields are checked in the order of a map range; the
    refusal does not depend on it, the field its text names does. *)
Definition ValidateDiscovered (d : Discovered) : option StationErr :=
  if negb (macRE (disc_MAC d)) then Some (BadMAC (disc_MAC d))
  else if disc_Phase d ==? "" then Some NeedsPhase
  else if negb (disc_Phase d ∈? [PhaseDiscovered; PhaseInstalling; PhaseInstalled])
       then Some (PhaseAfterEnrolment (disc_Phase d))
  else if existsb (λ v, maxStringField <? len v)
            [disc_Serial d; disc_Vendor d; disc_Model d; disc_CPU d; disc_Firmware d]
       then Some FieldTooLong
  else if maxFacterBytes <? len (disc_Facter d) then Some FacterTooLarge
  else if (disc_Cores d <? 0) || (disc_MemGB d <? 0) || (disc_DiskGB d <? 0) then Some NegativeCount
  else None.

Definition normalise_discovered (d : Discovered) : Discovered :=
  d <| disc_MAC := NormalizeMAC (disc_MAC d) |> <| disc_Phase := NormalizePhase (disc_Phase d) |>.

(** The loop of [Report.Validate]: the devices are normalised in place, so the
    normalised list is its result. *)
Fixpoint validate_each (seen : list string) (l : list Discovered) : res StationErr (list Discovered) :=
  match l with
  | [] => Ok []
  | d :: l =>
      let d := normalise_discovered d in
      assert_none ValidateDiscovered d;
      refuse disc_MAC d ∈? seen with ListedTwice (disc_MAC d);
      let! rest := validate_each (disc_MAC d :: seen) l in
      Ok (d :: rest)
  end.

Definition ValidateReport (l : list Discovered) : res StationErr (list Discovered) :=
  refuse MaxBatch <? Z.of_nat (length l) with BatchTooLarge (length l);
  validate_each [] l.

(** ** The store and the service *)

(** The [discovered] table of a tenant, keyed by station and MAC. *)
Notation DiscTable := (gmap (string * string) Discovered).

Definition stamp (now : Time) (d : Discovered) : Discovered :=
  if disc_LastSeen d ==? 0 then d <| disc_LastSeen := now |> else d.

(** [DiscoveredStore.Report]: the delete and the inserts are one transaction. *)
Definition replace_station (station : string) (devices : list Discovered) (now : Time) (t : DiscTable) : DiscTable :=
  foldl (λ t d, <[(station, disc_MAC d) := stamp now d]> t)
        (filter (λ kv, kv.1.1 ≠ station) t) devices.

Definition StoreReport (station : string) (devices : list Discovered) (now : Time)
  : SE (Pg DiscTable) DbErr unit := exec (replace_station station devices now).

Definition mac_less (a b : Discovered) : bool := String.ltb (disc_MAC a) (disc_MAC b).

Definition station_rows (station : string) (t : DiscTable) : list Discovered :=
  isort mac_less (map snd (filter (λ kv, kv.1.1 = station) (map_to_list t))).

Definition StoreList (station : string) : SE (Pg DiscTable) DbErr (list Discovered) :=
  query (station_rows station).

Definition StoreRemove (station mac : string) : SE (Pg DiscTable) DbErr unit :=
  exec (delete (station, mac)).

Definition Report (station : string) (devices : list Discovered) (now : Time)
  : SE (Pg DiscTable) StationErr unit :=
  if station ==? "" then se_err NeedsStation else
  do! normal <- se_lift (ValidateReport devices);
  db_step StationDb (StoreReport station normal now).

Definition ListDiscovered (station : string) : SE (Pg DiscTable) StationErr (list Discovered) :=
  db_step StationDb (StoreList station).

Definition GetDiscovered (station mac : string) : SE (Pg DiscTable) StationErr (option Discovered) :=
  let mac := NormalizeMAC mac in
  do! l <- db_step StationDb (StoreList station);
  se_ret (List.find (λ d, disc_MAC d ==? mac) l).

Definition RemoveDiscovered (station mac : string) : SE (Pg DiscTable) StationErr unit :=
  db_step StationDb (StoreRemove station (NormalizeMAC mac)).

(** ** Canonical addresses *)

Definition mac_char (a : ascii) : bool := is_hex a || Ascii.eqb a ":".

Lemma mac_octets_chars n s : mac_octets n s = true → string_forall mac_char s = true.
Proof.
  unfold mac_char. revert s. induction n as [|n IH]; intros [|a [|b r]]; try done; simpl.
  - intros [[-> ->]%andb_true_iff Hr]%andb_true_iff. by destruct r.
  - intros [[-> ->]%andb_true_iff Hr]%andb_true_iff. destruct r as [|c r]; [done|].
    apply andb_true_iff in Hr as [Hc Hr]. simpl. rewrite Hc, orb_true_r. by apply IH.
Qed.

Lemma NormalizeMAC_canonical s : macRE s = true → NormalizeMAC s = s.
Proof.
  intros Hs%mac_octets_chars. unfold NormalizeMAC. rewrite trim_space_graphic.
  - rewrite to_lower_map, (string_map_id lower_ascii), string_map_id; [done| |];
      eapply string_forall_impl; try exact Hs; by apply implb_bytes; vm_compute.
  - eapply string_forall_impl; [|exact Hs]. by apply implb_bytes; vm_compute.
Qed.

Lemma ValidateDiscovered_mac d : ValidateDiscovered d = None → macRE (disc_MAC d) = true.
Proof. unfold ValidateDiscovered. by destruct (macRE (disc_MAC d)). Qed.

Lemma validate_each_Ok seen l l' :
  validate_each seen l = Ok l' ↔
  l' = map normalise_discovered l ∧ (∀ d, d ∈ l' → ValidateDiscovered d = None) ∧
  NoDup (map disc_MAC l') ∧ (∀ d, d ∈ l' → disc_MAC d ∉ seen).
Proof.
  revert seen l'. induction l as [|d l IH]; intros seen l'; simpl.
  { split; [|by intros (-> & _)]. intros [= <-]. split; [done|].
    split; [by intros ? ?%elem_of_nil|]. split; [constructor|]. by intros ? ?%elem_of_nil. }
  set (n := normalise_discovered d). destruct (ValidateDiscovered n) as [e|] eqn:Hv.
  { split; [done|]. intros (-> & Hok & _). specialize (Hok n ltac:(left)). congruence. }
  case_bool_decide as Hs.
  { split; [done|]. intros (-> & _ & _ & Hn). by destruct (Hn n ltac:(left)). }
  rewrite res_bind_Ok. split.
  - intros (r & (-> & Hok & Hnd & Hns)%IH & [= <-]). split; [done|]. repeat split.
    + intros x [->|Hx]%elem_of_cons; auto.
    + constructor; [|done]. intros (x & Hx & Hin)%list_elem_of_fmap.
      destruct (Hns x Hin). apply elem_of_cons. left. exact (eq_sym Hx).
    + intros x [->|Hx]%elem_of_cons; [done|]. intros Hin. destruct (Hns x Hx). by right.
  - intros (-> & Hok & Hnd & Hns). apply NoDup_cons in Hnd as [Hn Hnd].
    exists (map normalise_discovered l). split; [|done]. apply IH. split; [done|].
    split; [intros x Hx; apply Hok; by right|]. split; [done|].
    intros x Hx [Heq|Hin]%elem_of_cons; [|by apply (Hns x); [right|]].
    apply Hn. apply list_elem_of_fmap. exists x. split; [exact (eq_sym Heq)|done].
Qed.

Lemma ValidateReport_Ok l l' :
  ValidateReport l = Ok l' ↔
  Z.of_nat (length l) ≤ MaxBatch ∧ l' = map normalise_discovered l ∧
  (∀ d, d ∈ l' → ValidateDiscovered d = None) ∧ NoDup (map disc_MAC l').
Proof.
  unfold ValidateReport. destruct (Z.ltb_spec MaxBatch (Z.of_nat (length l))) as [Hb|Hb].
  - split; [done|]. lia.
  - rewrite validate_each_Ok. split; [naive_solver|]. intros (_ & -> & Hok & Hnd).
    split; [done|]. split; [done|]. split; [done|]. by intros ? _ ?%elem_of_nil.
Qed.

(** ** The table after a report *)

Lemma stamp_mac now d : disc_MAC (stamp now d) = disc_MAC d.
Proof. unfold stamp. by case_bool_decide. Qed.

Definition at_mac (mac : string) (d : Discovered) : bool := disc_MAC d ==? mac.

Lemma insert_rows_lookup station now l t st mac :
  NoDup (map disc_MAC l) →
  foldl (λ t d, <[(station, disc_MAC d) := stamp now d]> t) t l !! (st, mac) =
  match (if st ==? station then List.find (at_mac mac) l else None) with
  | Some d => Some (stamp now d)
  | None => (t : DiscTable) !! (st, mac)
  end.
Proof.
  revert t. induction l as [|d l IH]; intros t Hnd; simpl.
  { by case_bool_decide. }
  apply NoDup_cons in Hnd as [Hd Hnd]. rewrite IH by done.
  destruct (decide (st = station)) as [->|Hst].
  - rewrite bool_decide_eq_true_2 by done. unfold at_mac at 2.
    destruct (decide (disc_MAC d = mac)) as [<-|Hm].
    + rewrite bool_decide_eq_true_2 by done.
      destruct (List.find (at_mac (disc_MAC d)) l) as [x|] eqn:Hf; [|by rewrite lookup_insert_eq].
      apply find_some in Hf as [Hin Hx%bool_decide_eq_true]. destruct Hd. rewrite <- Hx.
      by apply list_elem_of_fmap_2, list_elem_of_In.
    + rewrite bool_decide_eq_false_2 by done.
      destruct (List.find (at_mac mac) l); [done|]. rewrite lookup_insert_ne by congruence. done.
  - rewrite bool_decide_eq_false_2 by done. rewrite lookup_insert_ne by congruence. done.
Qed.

Lemma replace_station_lookup station l now t st mac :
  NoDup (map disc_MAC l) →
  replace_station station l now t !! (st, mac) =
  if st ==? station then stamp now <$> List.find (at_mac mac) l else t !! (st, mac).
Proof.
  intros Hnd. unfold replace_station. rewrite insert_rows_lookup by done.
  case_bool_decide as Hst.
  - destruct (List.find (at_mac mac) l); [done|]. simpl. rewrite map_lookup_filter.
    destruct (t !! (st, mac)); [|done]. simpl. case_guard; [done|]. done.
  - rewrite map_lookup_filter. destruct (t !! (st, mac)); [|done]. simpl. by case_guard.
Qed.

(** Every stored row is filed under its own, canonical address. *)
Definition disc_keyed (t : DiscTable) : Prop := ∀ st mac d, t !! (st, mac) = Some d → disc_MAC d = mac.

Lemma find_unique {A} (p : A → bool) l x :
  x ∈ l → p x = true → (∀ y, y ∈ l → p y = true → y = x) → List.find p l = Some x.
Proof.
  intros Hx Hp Hu. destruct (List.find p l) as [y|] eqn:Hf.
  - apply find_some in Hf as [Hin Hy]. by rewrite (Hu y) by (done || by apply list_elem_of_In).
  - apply list_elem_of_In in Hx. pose proof (find_none _ _ Hf x Hx). congruence.
Qed.

Lemma station_rows_find station mac t :
  disc_keyed t → List.find (at_mac mac) (station_rows station t) = t !! (station, mac).
Proof.
  intros Hk. assert (Hrow : ∀ d, d ∈ station_rows station t ↔ t !! (station, disc_MAC d) = Some d).
  { intros d. unfold station_rows. rewrite elem_of_isort, list_elem_of_fmap. split.
    - intros ([[st m] d'] & Hd & [Hst Hin]%list_elem_of_filter). simpl in *. subst.
      apply elem_of_map_to_list in Hin. by rewrite (Hk _ _ _ Hin).
    - intros Hl. exists ((station, disc_MAC d), d). split; [done|].
      apply list_elem_of_filter. split; [done|]. by apply elem_of_map_to_list. }
  destruct (t !! (station, mac)) as [d|] eqn:Hl.
  - pose proof (Hk _ _ _ Hl) as Hm. apply find_unique.
    + apply Hrow. by rewrite Hm.
    + by apply bool_decide_eq_true_2.
    + intros y Hy%Hrow Hp%bool_decide_eq_true. rewrite Hp in Hy. congruence.
  - destruct (List.find _ _) as [d|] eqn:Hf; [|done].
    apply find_some in Hf as [Hin%list_elem_of_In%Hrow Hp%bool_decide_eq_true].
    rewrite Hp in Hin. congruence.
Qed.

(** *** A report and what the console reads back *)

Lemma find_map_normal mac ds :
  List.find (at_mac mac) (map normalise_discovered ds) =
  normalise_discovered <$> List.find (λ d, NormalizeMAC (disc_MAC d) ==? mac) ds.
Proof.
  induction ds as [|d ds IH]; simpl; [done|]. unfold at_mac at 1. simpl.
  by destruct (NormalizeMAC (disc_MAC d) ==? mac).
Qed.

Definition disc_typed (t : DiscTable) : Prop := ∀ st mac d, t !! (st, mac) = Some d →
  disc_MAC d = mac ∧ ValidateDiscovered d = None.

Lemma stamp_valid now d : ValidateDiscovered (stamp now d) = ValidateDiscovered d.
Proof. unfold stamp. by case_bool_decide. Qed.

(** What a station reports is what the console reads back.  A report either
    is refused and leaves the table alone, or it replaces exactly the rows of
    its station: every row is then valid, filed under its canonical address and
    seen at some instant, and [Get], asked with any spelling of an address,
    returns the device reported with a spelling of the same address, normalised
    and stamped.  The other stations keep their rows. *)
Theorem report_read_back station ds now s r s' mac :
  disc_typed (tables s) → outages s = [] →
  Report station ds now s = (r, s') →
  disc_typed (tables s') ∧
  match r with
  | Err _ => tables s' = tables s
  | Ok _ =>
      (GetDiscovered station mac s').1 =
        Ok (stamp now ∘ normalise_discovered <$>
            List.find (λ d, NormalizeMAC (disc_MAC d) ==? NormalizeMAC mac) ds) ∧
      (∀ d, d ∈ ds → macRE (NormalizeMAC (disc_MAC d)) = true ∧
         NormalizeMAC (NormalizeMAC (disc_MAC d)) = NormalizeMAC (disc_MAC d)) ∧
      (∀ st m, st ≠ station → tables s' !! (st, m) = tables s !! (st, m))
  end.
Proof.
  intros Hty Hup. unfold Report. case_bool_decide as Hst; [by intros [= <- <-]|].
  unfold se_bind, se_lift. destruct (ValidateReport ds) as [n|e] eqn:Hv; [|by intros [= <- <-]].
  apply ValidateReport_Ok in Hv as (_ & -> & Hok & Hnd).
  unfold db_step, StoreReport, exec, statement. rewrite Hup. simpl. intros [= <- <-]. simpl.
  assert (Hlk := replace_station_lookup station (map normalise_discovered ds) now (tables s)).
  assert (Hty' : disc_typed (replace_station station (map normalise_discovered ds) now (tables s))).
  { intros st m d. rewrite Hlk by done. case_bool_decide; [|apply Hty].
    destruct (List.find _ _) as [x|] eqn:Hf; [|done]. intros [= <-].
    apply find_some in Hf as [Hin%list_elem_of_In Hm%bool_decide_eq_true].
    rewrite stamp_mac, stamp_valid. auto. }
  split; [done|]. split; [|split].
  - unfold GetDiscovered, se_bind, db_step, StoreList, query, statement, se_ret. simpl. f_equal.
    change (λ d, disc_MAC d ==? NormalizeMAC mac) with (at_mac (NormalizeMAC mac)).
    rewrite station_rows_find by (intros st m d Hd; by apply (Hty' st m d)).
    rewrite Hlk by done. rewrite bool_decide_eq_true_2 by done.
    rewrite find_map_normal. by destruct (List.find _ ds).
  - intros d Hd. assert (Hin : normalise_discovered d ∈ map normalise_discovered ds)
      by by apply list_elem_of_fmap_2.
    apply Hok, ValidateDiscovered_mac in Hin. simpl in Hin. split; [done|]. by apply NormalizeMAC_canonical.
  - intros st m Hne. rewrite Hlk by done. by rewrite bool_decide_eq_false_2.
Qed.

(** A station reports two devices, one spelt the Windows way. *)
Definition lease (mac : string) : Discovered :=
  mkDiscovered mac "" "" "" "" 0 0 0 "" "" " PXE" 0.

Definition lab_report : list Discovered := [lease "AA-BB-CC-DD-EE-01"; lease "aa:bb:cc:dd:ee:02 "].

Definition lab_after : Pg DiscTable := snd (Report "nuc-1" lab_report 7 (live ∅)).

Lemma report_read_back_witness :
  Report "nuc-1" lab_report 7 (live ∅) = (Ok tt, lab_after) ∧
  (GetDiscovered "nuc-1" " AA:bb-CC:dd-EE:01" lab_after).1 =
    Ok (Some ((lease "aa:bb:cc:dd:ee:01") <| disc_Phase := "discovered" |> <| disc_LastSeen := 7 |>)).
Proof.
  assert (Hrep : Report "nuc-1" lab_report 7 (live ∅) = (Ok tt, lab_after)).
  { rewrite (surjective_pairing (Report _ _ _ _)). apply f_equal2; [vm_compute; reflexivity|reflexivity]. }
  split; [exact Hrep|].
  assert (Hty : disc_typed (tables (live ∅))).
  { intros st m d Hd. change (tables (live ∅)) with (∅ : DiscTable) in Hd. by rewrite lookup_empty in Hd. }
  destruct (report_read_back "nuc-1" lab_report 7 (live ∅) (Ok tt) lab_after " AA:bb-CC:dd-EE:01"
              Hty eq_refl Hrep) as (_ & Hget & _).
  rewrite Hget. vm_compute. reflexivity.
Defined.
