(* ===== verification/Imaging.v ===== *)
(** * Image jobs: the life cycle and the ceremony
      (src/internal/domain/imaging/imaging.go, provision.go,
       src/internal/domain/observed/posture.go)

    The statuses of an image job and their transitions, the posture a device
    reports, and [Advance], which moves a job along the provisioning ceremony. *)

From S2P Require Import Prelude GoLib FleetModel Sql Text Stations.

(** ** The observed posture *)

Inductive SBState := SBUnknown | SBOff | SBAudit | SBEnforcing | SBOther (s : string).
Inductive TPM2State := TPM2Unknown | TPM2Absent | TPM2Present | TPM2Bound | TPM2Other (s : string).

#[export] Instance SBState_eq_dec : EqDecision SBState.
Proof. solve_decision. Defined.
#[export] Instance TPM2State_eq_dec : EqDecision TPM2State.
Proof. solve_decision. Defined.

Definition ValidSB (s : SBState) : bool := match s with SBOther _ => false | _ => true end.
Definition ValidTPM2 (s : TPM2State) : bool := match s with TPM2Other _ => false | _ => true end.

Inductive PostureErr := UnknownSB (s : SBState) | UnknownTPM2 (s : TPM2State).

Definition validatePosture (sb : SBState) (tpm2 : TPM2State) : option PostureErr :=
  if negb (ValidSB sb) then Some (UnknownSB sb)
  else if negb (ValidTPM2 tpm2) then Some (UnknownTPM2 tpm2) else None.

Inductive PostureStep := PostureComplete | StepEnableAudit | StepEnforceSB | StepEnrollTPM2 | StepNoTPM2.

(** [tpm2_step] is the second half of the function: TPM2, once Secure Boot is
    where it has to be. *)
Definition tpm2_step (tpm2 : TPM2State) (wantTPM2 : bool) : PostureStep :=
  if wantTPM2 then
    match tpm2 with
    | TPM2Unknown => PostureComplete
    | TPM2Absent => StepNoTPM2
    | TPM2Present => StepEnrollTPM2
    | _ => PostureComplete
    end
  else PostureComplete.

Definition NextPostureStep (sb : SBState) (tpm2 : TPM2State) (wantSB wantTPM2 : bool) : PostureStep :=
  if wantSB then
    match sb with
    | SBUnknown => PostureComplete
    | SBOff => StepEnableAudit
    | SBAudit => StepEnforceSB
    | _ => tpm2_step tpm2 wantTPM2
    end
  else tpm2_step tpm2 wantTPM2.

(** ** Statuses of a job *)

(** A Go [Status] is a string: the nine constants, or anything else, of which
    the empty string is one. *)
Inductive JobStatus :=
  | Pending | Imaging | Installed | SBPending | SBEnrolled | TPM2Enrolled | Done | Failed | Canceled
  | OtherStatus (s : string).

#[export] Instance JobStatus_eq_dec : EqDecision JobStatus.
Proof. solve_decision. Defined.

Definition ValidStatus (s : JobStatus) : bool := match s with OtherStatus _ => false | _ => true end.

Definition Terminal (s : JobStatus) : bool := (s ==? Done) || (s ==? Canceled).

Definition Phase_of (s : JobStatus) : string :=
  match s with
  | Pending | Imaging | Installed => "install"
  | SBPending | SBEnrolled => "secureboot"
  | TPM2Enrolled => "tpm2"
  | Done => "done"
  | _ => "halted"
  end.

Definition CanTransition (s to : JobStatus) : bool :=
  if negb (ValidStatus to) then false else
  match s with
  | Pending => (to ==? Imaging) || (to ==? Failed) || (to ==? Canceled)
  | Imaging => (to ==? Installed) || (to ==? Failed) || (to ==? Canceled)
  | Installed => (to ==? SBPending) || (to ==? SBEnrolled) || (to ==? TPM2Enrolled) || (to ==? Done)
                 || (to ==? Failed) || (to ==? Canceled)
  | SBPending => (to ==? SBEnrolled) || (to ==? Failed) || (to ==? Canceled)
  | SBEnrolled => (to ==? TPM2Enrolled) || (to ==? Done) || (to ==? Failed) || (to ==? Canceled)
  | TPM2Enrolled => (to ==? Done) || (to ==? Failed) || (to ==? Canceled)
  | Failed => (to ==? Pending) || (to ==? Canceled)
  | _ => false
  end.

Definition NeedsProvisioning (s : JobStatus) : bool :=
  match s with Installed | SBPending | SBEnrolled | TPM2Enrolled => true | _ => false end.

(** ** Jobs *)

Record Job := mkJob {
  job_Station : string; job_MAC : string; job_Tag : string; job_Hardware : string; job_Rev : string;
  job_Status : JobStatus; job_Progress : Z; job_Step : string; job_Message : string
}.
#[export] Instance Job_eta : Eta Job := λ r,
  mkJob (job_Station r) (job_MAC r) (job_Tag r) (job_Hardware r) (job_Rev r) (job_Status r)
        (job_Progress r) (job_Step r) (job_Message r).

(** [tagRE], [^[a-z0-9][a-z0-9-]*$]. *)
Definition slug_head (a : ascii) : bool := is_lower a || is_digit a.
Definition tagRE (s : string) : bool :=
  match s with
  | String a r => slug_head a && string_forall (λ b, slug_head b || Ascii.eqb b "-") r
  | EmptyString => false
  end.

Inductive JobErr :=
  | JobNeedsStation
  | JobBadMAC (mac : string)
  | JobBadTag (tag : string)
  | JobNeedsHardware
  | JobBadStatus (s : JobStatus)
  | JobBadProgress (n : Z)
  | NoSuchJob (station mac : string)
  | IllegalMove (mac : string) (from to : JobStatus)
  | MovedMeanwhile (mac : string)
  | JobDb (e : DbErr).

Definition NoStatus : JobStatus := OtherStatus "".

Definition ValidateJob (j : Job) : option JobErr :=
  if job_Station j ==? "" then Some JobNeedsStation
  else if negb (macRE (job_MAC j)) then Some (JobBadMAC (job_MAC j))
  else if negb (tagRE (job_Tag j)) then Some (JobBadTag (job_Tag j))
  else if trim_space (job_Hardware j) ==? "" then Some JobNeedsHardware
  else if (job_Status j !=? NoStatus) && negb (ValidStatus (job_Status j))
       then Some (JobBadStatus (job_Status j))
  else if (job_Progress j <? 0) || (100 <? job_Progress j) then Some (JobBadProgress (job_Progress j))
  else None.

(** ** The ceremony *)

Definition AckSBEnrolled : string := "sb-enrolled".
Definition AckSBEnrollFailed : string := "sb-enroll-failed".
Definition AckTPM2Enrolled : string := "tpm2-enrolled".
Definition AckTPM2EnrollFailed : string := "tpm2-enroll-failed".

Definition sb_failed_text : string := "Secure Boot key enrolment failed on the device".
Definition tpm2_failed_text : string := "TPM2 enrolment failed on the device".

(** The switch on the posture, reached when the ack did not decide. *)
Definition advance_posture (current : JobStatus) (sb : SBState) (tpm2 : TPM2State) (wantSB wantTPM2 : bool)
  : JobStatus * string * bool :=
  match current with
  | Installed =>
      if negb wantSB then
        if (sb !=? SBUnknown) || (tpm2 !=? TPM2Unknown) then (Done, "", true) else (current, "", false)
      else if sb ==? SBEnforcing then (SBEnrolled, "", true)
      else if (sb ==? SBOff) || (sb ==? SBAudit) then (SBPending, "", true)
      else if (sb ==? SBUnknown) && (tpm2 !=? TPM2Unknown) then (Done, "", true)
      else (current, "", false)
  | SBPending => if sb ==? SBEnforcing then (SBEnrolled, "", true) else (current, "", false)
  | SBEnrolled =>
      if negb wantTPM2 then (Done, "", true)
      else if tpm2 ==? TPM2Absent then (Done, "", true)
      else (current, "", false)
  | TPM2Enrolled => if sb ==? SBEnforcing then (Done, "", true) else (current, "", false)
  | _ => (current, "", false)
  end.

Definition Advance (current : JobStatus) (sb : SBState) (tpm2 : TPM2State) (ack : string)
    (wantSB wantTPM2 : bool) : JobStatus * string * bool :=
  if ack ==? AckSBEnrollFailed then (Failed, sb_failed_text, current !=? Failed)
  else if ack ==? AckTPM2EnrollFailed then (Failed, tpm2_failed_text, current !=? Failed)
  else if (ack ==? AckTPM2Enrolled) && CanTransition current TPM2Enrolled then (TPM2Enrolled, "", true)
  else if (ack ==? AckSBEnrolled) && CanTransition current SBEnrolled then (SBEnrolled, "", true)
  else advance_posture current sb tpm2 wantSB wantTPM2.

(** ** The transition graph *)

(** Every transition climbs: the way along the install and the ceremony, failure,
    and back to the start only from failure. *)
Definition rank (s : JobStatus) : Z :=
  match s with
  | Pending => 0 | Imaging => 1 | Installed => 2 | SBPending => 3 | SBEnrolled => 4
  | TPM2Enrolled => 5 | Done => 6 | Failed => 7 | Canceled => 8 | OtherStatus _ => 9
  end.

Lemma CanTransition_rank s to :
  CanTransition s to = true → rank s < rank to ∨ (s = Failed ∧ to = Pending).
Proof. destruct s, to; vm_compute; try done; auto. Qed.

Lemma CanTransition_valid s to :
  CanTransition s to = true → ValidStatus s = true ∧ ValidStatus to = true ∧ Terminal s = false.
Proof. destruct s, to; vm_compute; done. Qed.

Lemma Terminal_stuck s to : Terminal s = true → CanTransition s to = false.
Proof. destruct s, to; vm_compute; done. Qed.
