(* ===== verification/Notify.v ===== *)
(** * Notifications (src/internal/domain/notify/notify.go, src/internal/app/notify.go)

    A notification addresses one person or one group; [Emit] stamps, checks and
    stores it.  The store is the list of stored notifications, newest first; mail
    is the list of deliveries handed to the mailer. *)

From S2P Require Import Prelude GoLib FleetModel.

(** A Go [Kind] is a string: the eight constants, or any other text. *)
Inductive NKind :=
  | ApprovalNeeded | ChangeMerged | RolloutDone | GateFailed | WipeExecuted
  | WritePending | WriteApplied | ElevationRequested | OtherKind (s : string).

#[export] Instance NKind_eq_dec : EqDecision NKind.
Proof. solve_decision. Defined.

Definition ValidKind (k : NKind) : bool := match k with OtherKind _ => false | _ => true end.

Record Notification := mkNotification {
  n_ID : string; n_Tenant : string; Recipient : string; Audience : string; n_Kind : NKind;
  n_Title : string; n_Body : string; n_Link : string; n_Read : bool; CreatedAt : Time
}.
#[export] Instance Notification_eta : Eta Notification := λ r,
  mkNotification (n_ID r) (n_Tenant r) (Recipient r) (Audience r) (n_Kind r) (n_Title r)
    (n_Body r) (n_Link r) (n_Read r) (CreatedAt r).

(** A notification as its emitter builds it: the service fills in the rest. *)
Definition to_audience (g : string) (k : NKind) (title body link : string) : Notification :=
  mkNotification "" "" "" g k title body link false 0.

Inductive NotifyErr := EmptyID | UnknownKind (k : NKind) | EmptyTitle | NotOneAddressee | StoreDown.

Definition ValidateNotification (n : Notification) : option NotifyErr :=
  if n_ID n ==? "" then Some EmptyID
  else if negb (ValidKind (n_Kind n)) then Some (UnknownKind (n_Kind n))
  else if trim_space (n_Title n) ==? "" then Some EmptyTitle
  else if Bool.eqb (Recipient n ==? "") (Audience n ==? "") then Some NotOneAddressee
  else None.

Definition ForReader (n : Notification) (subject : string) (memberships : list string) : bool :=
  if Recipient n !=? "" then Recipient n ==? subject
  else existsb (λ m, m ==? Audience n) memberships.

Definition mailWorthy (k : NKind) : bool :=
  match k with ApprovalNeeded | ElevationRequested | GateFailed | WipeExecuted => true | _ => false end.

(** ** The service *)

(** The ports of the service: the randomness of an id, the clock, the directory
    that turns a person or a group into addresses, and its settings. *)
Record NotifyEnv := mkNotifyEnv {
  ne_id : nat → string; ne_now : nat → Time; ne_tenant : string;
  ne_mail : bool;
  EmailForSubject : string → res unit (option string);
  EmailsForAudience : string → res unit (list string);
  consoleURL : string
}.

Record Mail := mkMail { mail_to : list string; mail_subject : string; mail_body : string }.

(** What the service leaves behind: the stored notifications, newest first, the
    mails handed to the mailer, and a script of store failures. *)
Record Bell := mkBell { inbox : list Notification; outbox : list Mail; emitted : nat; bell_down : nat → bool }.
#[export] Instance Bell_eta : Eta Bell := λ b, mkBell (inbox b) (outbox b) (emitted b) (bell_down b).

(** [mailNotification]: [None] when there is nobody to mail or the directory
    fails, which its caller drops. *)
Definition mailNotification (ne : NotifyEnv) (n : Notification) : option Mail :=
  let body := if (n_Link n !=? "") && (consoleURL ne !=? "")
              then n_Body n +:+ String "010" (String "010" (consoleURL ne +:+ n_Link n)) else n_Body n in
  let send to := match to with [] => None | _ => Some (mkMail to (n_Title n) body) end in
  if Recipient n !=? "" then
    match EmailForSubject ne (Recipient n) with Ok (Some email) => send [email] | _ => None end
  else match EmailsForAudience ne (Audience n) with Ok emails => send emails | Err _ => None end.

Definition deliverEmail (ne : NotifyEnv) (n : Notification) (b : Bell) : Bell :=
  if negb (ne_mail ne) || negb (mailWorthy (n_Kind n)) then b
  else match mailNotification ne n with Some m => b <| outbox ::= cons m |> | None => b end.

Definition Emit (ne : NotifyEnv) (n : Notification) : SE Bell NotifyErr unit := λ b,
  let i := emitted b in
  let n := n <| n_ID := ne_id ne i |> <| n_Tenant := ne_tenant ne |> <| CreatedAt := ne_now ne i |> in
  let b := b <| emitted := S i |> in
  match ValidateNotification n with
  | Some e => (Err e, b)
  | None => if bell_down b i then (Err StoreDown, b)
            else (Ok tt, deliverEmail ne n (b <| inbox ::= cons n |>))
  end.

(** Emitters drop the outcome: [_ = s.notifier.Emit(...)]. *)
Definition emit_each (ne : NotifyEnv) (ns : list Notification) (b : Bell) : Bell :=
  foldl (λ b n, snd (Emit ne n b)) b ns.

(** ** Addressing *)

(** A validated notification has one addressee: for a person, that person
    alone; for a group, exactly the holders of it. *)
Lemma ForReader_spec n subject memberships :
  ValidateNotification n = None →
  ForReader n subject memberships = true ↔
  (Recipient n ≠ "" ∧ Audience n = "" ∧ subject = Recipient n) ∨
  (Recipient n = "" ∧ Audience n ≠ "" ∧ Audience n ∈ memberships).
Proof.
  unfold ValidateNotification, ForReader. intros Hv.
  destruct (n_ID n ==? ""), (ValidKind (n_Kind n)), (trim_space (n_Title n) ==? ""); try done.
  simpl in Hv. destruct (Recipient n ==? "") eqn:HR, (Audience n ==? "") eqn:HA; try done.
  - apply bool_decide_eq_true in HR. apply bool_decide_eq_false in HA. simpl. split.
    + intros (m & Hm & Heq%bool_decide_eq_true)%existsb_exists. right.
      split; [done|]. split; [done|]. rewrite <- Heq. by apply list_elem_of_In.
    + intros [(? & _)|(_ & _ & Hin)]; [done|]. apply existsb_exists.
      exists (Audience n). split; [by apply list_elem_of_In|by apply bool_decide_eq_true].
  - apply bool_decide_eq_false in HR. apply bool_decide_eq_true in HA. simpl.
    rewrite bool_decide_eq_true. split.
    + intros Heq. left. split; [done|]. split; [done|]. by symmetry.
    + intros [(_ & _ & Heq)|(Hne & _)]; [by symmetry|done].
Qed.
