(* ===== verification/Observed.v ===== *)
(** * The observed plane (src/internal/domain/observed/observed.go,
      src/internal/app/inventory.go, src/internal/adapters/postgres/postgres.go)

    What a device reports, how reports are folded into its stored status, the
    notification a wipe outcome raises, and the aggregate a rollout reads. *)

From S2P Require Import Prelude GoLib FleetModel Sql Text Stations Imaging Notify Rollout.

(** ** A check-in *)

Record Usage := mkUsage { CPUPct : Z; MemUsedMB : Z; MemTotalMB : Z; DiskUsedGB : Z; DiskTotalGB : Z }.
Record Health := mkHealth { h_State : string; FailedUnits : list string }.
Record IntegrationState := mkIntegration { i_State : string; i_Detail : string }.

(** A nil [Integrations] map is [None]: the store tells it from an empty one. *)
Notation Integrations := (option (gmap string IntegrationState)).

Record CheckIn := mkCheckIn {
  c_Tag : string; c_Revision : string; c_Phase : Phase; c_Error : string;
  c_SB : SBState; c_TPM2 : TPM2State; c_Ack : string; c_Usage : Usage; c_Health : Health;
  c_Integrations : Integrations
}.
#[export] Instance CheckIn_eta : Eta CheckIn := λ c,
  mkCheckIn (c_Tag c) (c_Revision c) (c_Phase c) (c_Error c) (c_SB c) (c_TPM2 c) (c_Ack c)
    (c_Usage c) (c_Health c) (c_Integrations c).

Definition Up (i : Integrations) (name : string) : bool :=
  match i ≫= lookup name with Some st => i_State st ==? "up" | None => false end.
Definition ReportedIntegration (i : Integrations) (name : string) : bool :=
  match i ≫= lookup name with Some _ => true | None => false end.

Definition Degraded (h : Health) : bool := negb (FailedUnits h ==? []) || (h_State h ==? "degraded").

Definition ReportedUsage (u : Usage) : bool := (0 <? CPUPct u) || (0 <? MemTotalMB u) || (0 <? DiskTotalGB u).

Inductive ObsErr :=
  | BadUsage | NeedsTag | TagTooLong | UnknownPhase (p : Phase) | CheckInTooLong | UnknownAck (a : string)
  | TooManyIntegrations (n : nat) | BadIntegration | BadPosture (e : PostureErr)
  | FactsTooLarge | FactsNotJSON | ObsDb (e : DbErr).

Definition validateUsage (u : Usage) : option ObsErr :=
  if (CPUPct u <? 0) || (100 <? CPUPct u) then Some BadUsage
  else if (MemUsedMB u <? 0) || (MemTotalMB u <? 0) || (DiskUsedGB u <? 0) || (DiskTotalGB u <? 0) then Some BadUsage
  else if (MemTotalMB u <? MemUsedMB u) && (0 <? MemTotalMB u) then Some BadUsage
  else if (DiskTotalGB u <? DiskUsedGB u) && (0 <? DiskTotalGB u) then Some BadUsage
  else None.

Definition ValidPhase (p : Phase) : bool :=
  p ∈? [PhaseDiscovered; PhaseInstalling; PhaseInstalled; PhaseRunning].

Definition AckLock : string := "lock".
Definition AckWipe : string := "wipe".
Definition AckWipeRefused : string := "wipe-refused".
Definition AckWipeFailed : string := "wipe-failed".
Definition AckRebooted : string := "rebooted".
Definition AckDiagnostics : string := "diagnostics".
Definition AckDiagnosticsFailed : string := "diagnostics-failed".

Definition acks : list string := [
  ""; AckLock; AckWipe; AckWipeRefused; AckWipeFailed; AckRebooted;
  AckSBEnrolled; AckSBEnrollFailed; AckTPM2Enrolled; AckTPM2EnrollFailed;
  AckDiagnostics; AckDiagnosticsFailed].

Definition maxIntegrations : nat := 16.

(** One entry of the map; which bad entry is met first depends on the order of
    the range, the refusal does not. *)
Definition good_integration (e : string * IntegrationState) : bool :=
  negb ((e.1 ==? "") || (64 <? len e.1)) && (i_State e.2 ∈? [""; "up"; "down"])
  && negb (256 <? len (i_Detail e.2)).

Definition validateIntegrations (i : Integrations) : option ObsErr :=
  let m := default ∅ i in
  if (maxIntegrations <? size m)%nat then Some (TooManyIntegrations (size m))
  else if forallb good_integration (map_to_list m) then None else Some BadIntegration.

Definition ValidateCheckIn (c : CheckIn) : option ObsErr :=
  if c_Tag c ==? "" then Some NeedsTag
  else if 63 <? len (c_Tag c) then Some TagTooLong
  else if (c_Phase c !=? "") && negb (ValidPhase (c_Phase c)) then Some (UnknownPhase (c_Phase c))
  else if (128 <? len (c_Revision c)) || (4096 <? len (c_Error c)) then Some CheckInTooLong
  else if negb (c_Ack c ∈? acks) then Some (UnknownAck (c_Ack c))
  else match validateUsage (c_Usage c) with
       | Some e => Some e
       | None => match validateIntegrations (c_Integrations c) with
                 | Some e => Some e
                 | None => BadPosture <$> validatePosture (c_SB c) (c_TPM2 c)
                 end
       end.

(** ** The stored status *)

Record DeviceStatus := mkStatus {
  st_Tag : string; st_Revision : string; st_Phase : Phase; st_Error : string; LastSeen : Time;
  st_SB : SBState; st_TPM2 : TPM2State; st_Ack : string; st_Usage : Usage; st_Health : Health;
  st_Integrations : Integrations
}.
#[export] Instance DeviceStatus_eta : Eta DeviceStatus := λ s,
  mkStatus (st_Tag s) (st_Revision s) (st_Phase s) (st_Error s) (LastSeen s) (st_SB s) (st_TPM2 s)
    (st_Ack s) (st_Usage s) (st_Health s) (st_Integrations s).

Definition OnlineWindow : Z := 3 * Minute.
Definition InactiveWindow : Z := 14 * 24 * Hour.
Definition AbsentWindow : Z := Hour.

Definition Online (s : DeviceStatus) (now : Time) : bool :=
  (LastSeen s !=? 0) && (time_sub now (LastSeen s) <=? OnlineWindow).

Definition DeviceHealthy (s : DeviceStatus) (target : string) (now : Time) : bool :=
  (st_Revision s ==? target) && Online s now
  && ((st_Phase s ==? "") || (st_Phase s ==? PhaseRunning)) && (st_Error s ==? "").

(** ** The device_status table of a tenant *)

Notation StatusTable := (gmap string DeviceStatus).

Definition first_row (c : CheckIn) (now : Time) : DeviceStatus :=
  mkStatus (c_Tag c) (c_Revision c) (c_Phase c) (c_Error c) now (c_SB c) (c_TPM2 c) (c_Ack c)
    (c_Usage c) (c_Health c) (c_Integrations c).

Definition keep_text (old new : string) : string := if new ==? "" then old else new.

Definition merge_usage (old new : Usage) : Usage := mkUsage
  (if CPUPct new =? 0 then CPUPct old else CPUPct new)
  (if MemTotalMB new =? 0 then MemUsedMB old else MemUsedMB new)
  (if MemTotalMB new =? 0 then MemTotalMB old else MemTotalMB new)
  (if DiskTotalGB new =? 0 then DiskUsedGB old else DiskUsedGB new)
  (if DiskTotalGB new =? 0 then DiskTotalGB old else DiskTotalGB new).

Definition merge_health (old new : Health) : Health := if h_State new ==? "" then old else new.

(** The [DO UPDATE SET] of the statement. *)
Definition merge_row (old : DeviceStatus) (c : CheckIn) (now : Time) : DeviceStatus :=
  mkStatus (st_Tag old) (keep_text (st_Revision old) (c_Revision c)) (keep_text (st_Phase old) (c_Phase c))
    (c_Error c) now
    (if c_SB c ==? SBUnknown then st_SB old else c_SB c)
    (if c_TPM2 c ==? TPM2Unknown then st_TPM2 old else c_TPM2 c)
    (keep_text (st_Ack old) (c_Ack c))
    (merge_usage (st_Usage old) (c_Usage c))
    (merge_health (st_Health old) (c_Health c))
    (match c_Integrations c with None => st_Integrations old | i => i end).

Definition upsert_row (old : option DeviceStatus) (c : CheckIn) (now : Time) : DeviceStatus :=
  match old with None => first_row c now | Some old => merge_row old c now end.

(** The statement, with the two states of the table it reads: [WITH prev] sees
    the snapshot taken when the statement begins, the conflicting row is read
    when it is locked.  They are one state unless another statement on the same
    row commits in between. *)
Definition upsert_over (snapshot : StatusTable) (c : CheckIn) (now : Time) (t : StatusTable)
  : bool * StatusTable :=
  let row := upsert_row (t !! c_Tag c) c now in
  (negb ((st_Ack <$> snapshot !! c_Tag c) ==? Some (st_Ack row)), <[c_Tag c := row]> t).

Definition UpsertStatus (c : CheckIn) (now : Time) : SE (Pg StatusTable) DbErr bool :=
  statement (λ t, upsert_over t c now t).

Definition GetStatus (tag : string) : SE (Pg StatusTable) DbErr (option DeviceStatus) := query (lookup tag).

Definition tag_less (a b : DeviceStatus) : bool := String.ltb (st_Tag a) (st_Tag b).
Definition ListStatus : SE (Pg StatusTable) DbErr (list DeviceStatus) :=
  query (λ t, isort tag_less (map snd (map_to_list t))).

(** ** What a rollout reads of a ring *)

Definition phase_running (s : DeviceStatus) : bool := (st_Phase s ==? "") || (st_Phase s ==? PhaseRunning).

(** The rows [WHERE tenant = $1 AND tag = ANY($2)]. *)
Definition ring_rows (tags : list string) (t : StatusTable) : list DeviceStatus :=
  map snd (filter (λ kv, kv.1 ∈ tags) (map_to_list t)).

(** [COUNT( * ) FILTER (WHERE p)]. *)
Definition count_rows (p : DeviceStatus → bool) (l : list DeviceStatus) : Z := Z.of_nat (length (keep_if p l)).

Definition present_row (now : Time) (s : DeviceStatus) : bool := now - AbsentWindow <=? LastSeen s.
Definition recent_row (now : Time) (s : DeviceStatus) : bool := now - OnlineWindow <=? LastSeen s.

Definition ring_counts (tags : list string) (target : string) (now : Time) (t : StatusTable) : RingStatus :=
  let rows := ring_rows tags t in
  let present := count_rows (present_row now) rows in
  let total := Z.of_nat (length tags) in
  mkRingStatus total
    (count_rows (λ s, (st_Revision s ==? target) && present_row now s) rows)
    (count_rows (λ s, (st_Revision s ==? target) && recent_row now s && phase_running s && (st_Error s ==? "")) rows)
    (count_rows (λ s, (st_Revision s ==? target) && recent_row now s
                      && (negb (st_Error s ==? "") || (negb (st_Phase s ==? "") && negb (st_Phase s ==? PhaseRunning)))) rows)
    (total - present) 0 0.

(** [groupTags]: the groups of the wave, each resolved by the config snapshot. *)
Definition groupTags (Tags : string → list string) (groups : list string) : list string := groups ≫= Tags.

Definition ConvergenceRingStatus (Tags : string → list string) (groups : list string) (target : string) (now : Time)
  : SE (Pg StatusTable) DbErr RingStatus :=
  let tags := groupTags Tags groups in
  if tags ==? [] then se_ret zero_status else query (ring_counts tags target now).

(** *** Stragglers: the reason of each device that holds the ring *)

Inductive StragglerReason := NotSeenYet | Away | NotOnTarget | Offline | DeviceError (text : string) | StuckPhase (p : Phase).

Definition straggler_reason (target : string) (now : Time) (s : option DeviceStatus) : StragglerReason :=
  match s with
  | None => NotSeenYet
  | Some s =>
      if LastSeen s <? now - AbsentWindow then Away
      else if st_Revision s !=? target then NotOnTarget
      else if LastSeen s <? now - OnlineWindow then Offline
      else if st_Error s !=? "" then DeviceError (String.substring 0 120 (st_Error s))
      else StuckPhase (st_Phase s)
  end.

Definition is_straggler (target : string) (now : Time) (s : option DeviceStatus) : bool :=
  match s with
  | None => true
  | Some s => (st_Revision s !=? target) || (LastSeen s <? now - OnlineWindow) || (st_Error s !=? "")
              || ((st_Phase s !=? "") && (st_Phase s !=? PhaseRunning))
  end.

Definition ring_stragglers (tags : list string) (target : string) (now : Time) (t : StatusTable)
  : list (string * StragglerReason) :=
  take 20 (map (λ tag, (tag, straggler_reason target now (t !! tag)))
               (keep_if (λ tag, is_straggler target now (t !! tag)) (sort_strings tags))).

Definition RingStragglers (Tags : string → list string) (groups : list string) (target : string) (now : Time)
  : SE (Pg StatusTable) DbErr (list (string * StragglerReason)) :=
  let tags := groupTags Tags groups in
  if tags ==? [] then se_ret [] else query (ring_stragglers tags target now).

(** ** The inventory service *)

Definition isWipeAck (ack : string) : bool := ack ∈? [AckWipe; AckWipeRefused; AckWipeFailed].

Definition wipe_text (tag ack : string) : string * string :=
  if ack ==? AckWipeRefused then
    ("Wipe refused: " +:+ tag, "The device declined the wipe intent (unarmed or an interlock blocked it).")
  else if ack ==? AckWipeFailed then
    ("Wipe failed: " +:+ tag, "The device attempted a crypto-wipe but did not complete it. Investigate the device.")
  else ("Device wiped: " +:+ tag, "The device confirmed a crypto-wipe. Its disk key is destroyed.").

Definition wipe_note (tag ack g : string) : Notification :=
  let '(title, body) := wipe_text tag ack in to_audience g WipeExecuted title body ("/devices/" +:+ tag).

(** What the service is wired with: the check of [json.Valid], the notifier and
    the groups that own the fleet. *)
Record InvEnv := mkInvEnv {
  json_valid : string → bool; inv_notify : option NotifyEnv; wipeAudience : list string
}.

Record Inv := mkInv {
  inv_status : Pg StatusTable; inv_facts : Pg (gmap string (string * Time));
  inv_bell : Bell; inv_seen : list string
}.
#[export] Instance Inv_eta : Eta Inv := λ s, mkInv (inv_status s) (inv_facts s) (inv_bell s) (inv_seen s).

Definition on_status {A} (m : SE (Pg StatusTable) DbErr A) : SE Inv ObsErr A := λ s,
  let '(r, t) := m (inv_status s) in
  (match r with Ok a => Ok a | Err e => Err (ObsDb e) end, s <| inv_status := t |>).
Definition on_facts {A} (m : SE (Pg (gmap string (string * Time))) DbErr A) : SE Inv ObsErr A := λ s,
  let '(r, t) := m (inv_facts s) in
  (match r with Ok a => Ok a | Err e => Err (ObsDb e) end, s <| inv_facts := t |>).

Definition maxFactsBytes : Z := 256 * 1024.

Definition check_facts (ie : InvEnv) (facts : string) : option ObsErr :=
  if 0 <? len facts then
    if maxFactsBytes <? len facts then Some FactsTooLarge
    else if negb (json_valid ie facts) then Some FactsNotJSON else None
  else None.

Definition emitWipe (ie : InvEnv) (ne : NotifyEnv) (tag ack : string) (b : Bell) : Bell :=
  emit_each ne (map (wipe_note tag ack) (wipeAudience ie)) b.

Definition PutFacts (tag facts : string) (now : Time) : SE (Pg (gmap string (string * Time))) DbErr unit :=
  exec <[tag := (facts, now)]>.

(** What follows the upsert: the promotion hook, the notification, the facts. *)
Definition after_upsert (ie : InvEnv) (c : CheckIn) (ackChanged : bool) (facts : string) (now : Time)
  : SE Inv ObsErr unit :=
  run! se_modify (λ s, s <| inv_seen ::= cons (c_Tag c) |>);
  run! (match inv_notify ie with
        | Some ne => if ackChanged && isWipeAck (c_Ack c)
                     then se_modify (λ s, s <| inv_bell ::= emitWipe ie ne (c_Tag c) (c_Ack c) |>)
                     else se_ret tt
        | None => se_ret tt
        end);
  if 0 <? len facts then on_facts (PutFacts (c_Tag c) facts now) else se_ret tt.

Definition RecordCheckIn (ie : InvEnv) (c : CheckIn) (facts : string) (now : Time) : SE Inv ObsErr unit :=
  match ValidateCheckIn c with
  | Some e => se_err e
  | None =>
      match check_facts ie facts with
      | Some e => se_err e
      | None => do! ackChanged <- on_status (UpsertStatus c now); after_upsert ie c ackChanged facts now
      end
  end.

Definition RecordFacts (ie : InvEnv) (tag facts : string) (now : Time) : SE Inv ObsErr unit :=
  if tag ==? "" then se_err NeedsTag
  else if len facts =? 0 then se_ret tt
  else if maxFactsBytes <? len facts then se_err FactsTooLarge
  else if negb (json_valid ie facts) then se_err FactsNotJSON
  else on_facts (PutFacts tag facts now).

(** ** The aggregate agrees with the health rule *)

Definition of_tag (t : StatusTable) (p : DeviceStatus → bool) (tag : string) : bool :=
  match t !! tag with Some s => p s | None => false end.

Definition count_tags (tags : list string) (p : string → bool) : Z := Z.of_nat (length (keep_if p tags)).

Lemma keep_if_fmap {A B} (f : A → B) (p : B → bool) (l : list A) :
  keep_if p (map f l) = map f (keep_if (λ a, p (f a)) l).
Proof. induction l as [|a l IH]; simpl; [done|]. rewrite !keep_if_cons, IH. by destruct (p (f a)). Qed.

Lemma NoDup_map_filter {A B} (f : A → B) (P : A → Prop) `{!∀ a, Decision (P a)} (l : list A) :
  NoDup (map f l) → NoDup (map f (filter P l)).
Proof.
  induction l as [|a l IH]; [done|]. simpl. intros [Hn Hnd]%NoDup_cons. rewrite filter_cons.
  destruct (decide (P a)); [|auto]. simpl. apply NoDup_cons. split; [|auto].
  intros (b & Hb & [_ Hin]%list_elem_of_filter)%list_elem_of_fmap. apply Hn. rewrite Hb.
  by apply list_elem_of_fmap_2.
Qed.

Lemma count_rows_tags tags t p :
  NoDup tags → count_rows p (ring_rows tags t) = count_tags tags (of_tag t p).
Proof.
  intros Hnd. unfold count_rows, count_tags, ring_rows. rewrite keep_if_fmap, length_map. f_equal.
  rewrite <- (length_map fst). apply Permutation_length, NoDup_Permutation.
  - do 2 apply NoDup_map_filter. apply (NoDup_fst_map_to_list t).
  - by apply NoDup_filter.
  - intros tag. rewrite elem_of_keep_if, list_elem_of_fmap. unfold of_tag. split.
    + intros ([k s] & Hk & [[Hin Hl]%list_elem_of_filter Hp]%elem_of_keep_if). simpl in *. subst k.
      apply elem_of_map_to_list in Hl. by rewrite Hl.
    + intros [Hin Hp]. destruct (t !! tag) as [s|] eqn:Hl; [|done].
      exists (tag, s). split; [done|]. apply elem_of_keep_if. split; [|done].
      apply list_elem_of_filter. split; [done|]. by apply elem_of_map_to_list.
Qed.

Lemma keep_if_length_le {A} (p q : A → bool) (l : list A) :
  (∀ a, p a = true → q a = true) → (length (keep_if p l) ≤ length (keep_if q l))%nat.
Proof.
  intros Hpq. induction l as [|a l IH]; [done|]. rewrite !keep_if_cons.
  destruct (p a) eqn:Hp; [rewrite (Hpq a Hp); simpl; lia|]. destruct (q a); simpl; lia.
Qed.

Lemma keep_if_length_sum {A} (p q r : A → bool) (l : list A) :
  (∀ a, p a = true → q a = true → False) → (∀ a, p a = true → r a = true) → (∀ a, q a = true → r a = true) →
  (length (keep_if p l) + length (keep_if q l) ≤ length (keep_if r l))%nat.
Proof.
  intros Hd Hp Hq. induction l as [|a l IH]; [done|]. rewrite !keep_if_cons.
  specialize (Hd a). specialize (Hp a). specialize (Hq a).
  destruct (p a), (q a), (r a); simpl; try lia; naive_solver lia.
Qed.

Lemma count_tags_total tags p : 0 ≤ count_tags tags p ≤ Z.of_nat (length tags).
Proof. unfold count_tags, keep_if. pose proof (length_filter (λ a, p a = true) tags). lia. Qed.

Lemma Online_recent s now :
  LastSeen s ≠ 0 → Online s now = recent_row now s.
Proof.
  intros Hs. unfold Online, recent_row. rewrite bool_decide_eq_false_2 by done. simpl.
  apply eq_iff_eq_true. rewrite !Z.leb_le. unfold time_sub, OnlineWindow, Minute, Second, min_int64, max_int64. lia.
Qed.

(** The aggregate a rollout decides on is the health rule.  Over the tags of
    a ring, each listed once, with every stored row stamped: [Healthy] counts
    the devices that [DeviceHealthy] accepts, the present population is the
    devices seen within the absent window, nobody is counted healthy and broken
    at once, and healthy and broken devices are on target, those present, those
    members. *)
Theorem ring_status_counts tags target now t :
  NoDup tags → map_Forall (λ _ s, LastSeen s ≠ 0) t →
  let rs := ring_counts tags target now t in
  Rollout.Healthy rs = count_tags tags (of_tag t (λ s, DeviceHealthy s target now)) ∧
  Present rs = count_tags tags (of_tag t (present_row now)) ∧
  0 ≤ Rollout.Healthy rs ∧ 0 ≤ Broken rs ∧ Rollout.Healthy rs + Broken rs ≤ OnTarget rs ∧
  OnTarget rs ≤ Present rs ∧ Present rs ≤ Total rs ∧ 0 ≤ Absent rs.
Proof.
  intros Hnd Hseen rs. subst rs. unfold ring_counts, Present. simpl.
  rewrite !count_rows_tags by done.
  set (present := count_tags tags (of_tag t (present_row now))).
  pose proof (count_tags_total tags (of_tag t (present_row now))) as Hp. fold present in Hp.
  assert (Hpre : (if 0 <? Z.of_nat (length tags) - (Z.of_nat (length tags) - present)
                  then Z.of_nat (length tags) - (Z.of_nat (length tags) - present) else 0) = present).
  { destruct (Z.ltb_spec 0 (Z.of_nat (length tags) - (Z.of_nat (length tags) - present))); lia. }
  rewrite Hpre. split; [|split; [done|]].
  - unfold count_tags. do 2 f_equal. unfold keep_if. apply list_filter_iff. intros tag. unfold of_tag.
    destruct (t !! tag) as [s|] eqn:Hl; [|done]. unfold DeviceHealthy.
    by rewrite (Online_recent s now) by (by apply (Hseen tag)).
  - split; [apply count_tags_total|]. split; [apply count_tags_total|].
    split; [|split; [|lia]].
    + unfold count_tags. rewrite <- Nat2Z.inj_add. apply inj_le, keep_if_length_sum;
        intros tag; unfold of_tag; destruct (t !! tag) as [s|]; try done.
      * unfold phase_running. intros Ha Hb. rewrite !andb_true_iff in Ha, Hb.
        destruct Ha as [[_ Hph] He], Hb as [_ Hb]. rewrite He in Hb. simpl in Hb.
        apply andb_true_iff in Hb as [Hb1 Hb2]. apply negb_true_iff in Hb1, Hb2.
        by rewrite Hb1, Hb2 in Hph.
      * rewrite !andb_true_iff. intros [[[-> Hr] _] _]. split; [done|]. revert Hr.
        unfold recent_row, present_row, OnlineWindow, AbsentWindow, Hour, Minute, Second.
        rewrite !Z.leb_le. lia.
      * rewrite !andb_true_iff. intros [[-> Hr] _]. split; [done|]. revert Hr.
        unfold recent_row, present_row, OnlineWindow, AbsentWindow, Hour, Minute, Second.
        rewrite !Z.leb_le. lia.
    + apply inj_le, keep_if_length_le. intros tag. unfold of_tag. destruct (t !! tag) as [s|]; [|done].
      intros [_ Hp']%andb_true_iff. done.
Qed.

Definition beat (tag rev err : string) (ack : string) : CheckIn :=
  mkCheckIn tag rev "running" err SBUnknown TPM2Unknown ack (mkUsage 0 0 0 0 0) (mkHealth "" []) None.

(** Three laptops: one healthy, one failing, one closed for two hours. *)
Definition lab_status : StatusTable :=
  <["a" := first_row (beat "a" "r1" "" "") (10 * Hour)]>
  (<["b" := first_row (beat "b" "r1" "boot failed" "") (10 * Hour)]>
  (<["c" := first_row (beat "c" "r1" "" "") (8 * Hour)]> ∅)).

Lemma ring_status_counts_witness :
  ring_counts ["a"; "b"; "c"; "d"] "r1" (10 * Hour) lab_status = mkRingStatus 4 2 1 1 2 0 0 ∧
  Present (ring_counts ["a"; "b"; "c"; "d"] "r1" (10 * Hour) lab_status) =
    count_tags ["a"; "b"; "c"; "d"] (of_tag lab_status (present_row (10 * Hour))).
Proof.
  split; [vm_compute; reflexivity|].
  apply (ring_status_counts ["a"; "b"; "c"; "d"] "r1" (10 * Hour) lab_status).
  - by apply (bool_decide_eq_true_1 (NoDup ["a"; "b"; "c"; "d"])).
  - unfold lab_status. repeat (apply map_Forall_insert_2; [by vm_compute|]). apply map_Forall_empty.
Defined.

(** ** The news of a wipe *)

Definition one_beat (st : StatusTable * list bool) (c : CheckIn) (now : Time) : StatusTable * list bool :=
  let '(changed, t) := upsert_over st.1 c now st.1 in
  (t, st.2 ++ [changed && isWipeAck (c_Ack c)]).

(** Beats of the device one after another: the table and what each of them
    reports as news. *)
Definition beats (cs : list (CheckIn * Time)) (t : StatusTable) : StatusTable * list bool :=
  foldl (λ st ct, one_beat st ct.1 ct.2) (t, []) cs.

Lemma upsert_row_ack old c now : st_Ack (upsert_row old c now) = keep_text (default "" (st_Ack <$> old)) (c_Ack c).
Proof. destruct old; simpl; [done|]. unfold keep_text. by case_bool_decide. Qed.

Lemma beats_quiet cs tag a t out :
  isWipeAck a = true → st_Ack <$> t !! tag = Some a →
  (∀ ct, ct ∈ cs → c_Tag ct.1 = tag ∧ (c_Ack ct.1 = "" ∨ c_Ack ct.1 = a)) →
  (foldl (λ st ct, one_beat st ct.1 ct.2) (t, out) cs).2 = out ++ map (λ _, false) cs.
Proof.
  revert t out. induction cs as [|[c now] cs IH]; intros t out Ha Ht Hcs; simpl; [by rewrite app_nil_r|].
  destruct (Hcs (c, now) ltac:(left)) as [Htag Hack]. simpl in Htag, Hack.
  assert (Hrow : st_Ack (upsert_row (t !! c_Tag c) c now) = a).
  { rewrite upsert_row_ack, Htag, Ht. unfold keep_text. simpl.
    destruct Hack as [->| ->]; [done|]. by case_bool_decide. }
  unfold one_beat at 2. unfold upsert_over. simpl.
  assert (Hch : negb ((st_Ack <$> t !! c_Tag c) ==? Some (st_Ack (upsert_row (t !! c_Tag c) c now))) = false).
  { rewrite Hrow, Htag, Ht. by rewrite bool_decide_eq_true_2. }
  rewrite Hch. simpl. rewrite IH.
  - by rewrite <- app_assoc.
  - done.
  - rewrite Htag, lookup_insert_eq. simpl. f_equal. by rewrite Htag in Hrow.
  - intros ct Hct. apply Hcs. by right.
Qed.

(** A wipe outcome is news once.  When a device's beats arrive one after
    another, the beat that brings a wipe outcome the table does not hold is the
    only one that reports a change, however often the device echoes it or
    leaves it out afterwards. *)
Theorem wipe_notified_once tag a c now cs t :
  isWipeAck a = true → c_Tag c = tag → c_Ack c = a → st_Ack <$> t !! tag ≠ Some a →
  (∀ ct, ct ∈ cs → c_Tag ct.1 = tag ∧ (c_Ack ct.1 = "" ∨ c_Ack ct.1 = a)) →
  (beats ((c, now) :: cs) t).2 = true :: map (λ _, false) cs.
Proof.
  intros Ha Htag Hack Ht Hcs. unfold beats. simpl.
  assert (Hrow : st_Ack (upsert_row (t !! c_Tag c) c now) = a).
  { rewrite upsert_row_ack, Hack. unfold keep_text. case_bool_decide as He; [|done].
    rewrite He in Ha. done. }
  unfold one_beat at 2. unfold upsert_over. simpl. rewrite Hrow, Hack, Ha, Htag.
  rewrite bool_decide_eq_false_2 by done. simpl.
  rewrite (beats_quiet cs tag a); [done|done| |done].
  rewrite lookup_insert_eq. simpl. f_equal. by rewrite Htag in Hrow.
Qed.

Lemma wipe_notified_once_witness :
  (beats [(beat "a" "" "" "wipe", 11 * Hour); (beat "a" "" "" "", 12 * Hour); (beat "a" "" "" "wipe", 13 * Hour)]
     lab_status).2 = [true; false; false].
Proof.
  apply (wipe_notified_once "a" "wipe" (beat "a" "" "" "wipe") (11 * Hour)
           [(beat "a" "" "" "", 12 * Hour); (beat "a" "" "" "wipe", 13 * Hour)] lab_status).
  - vm_compute. reflexivity.
  - reflexivity.
  - reflexivity.
  - vm_compute. discriminate.
  - intros ct Hct. apply elem_of_cons in Hct as [->|Hct]; [by vm_compute; auto|].
    apply elem_of_cons in Hct as [->|Hct]; [by vm_compute; auto|by apply elem_of_nil in Hct].
Defined.

(** Two beats of a device whose statements overlap: both begin on the same
    snapshot, the second updates the row the first wrote, and both report the
    outcome as news. *)
Theorem overlapping_beats_notify_twice :
  let c := beat "a" "" "" "wipe" in
  let '(first, t1) := upsert_over lab_status c (11 * Hour) lab_status in
  let '(second, t2) := upsert_over lab_status c (11 * Hour) t1 in
  first = true ∧ second = true ∧ st_Ack <$> t1 !! "a" = Some "wipe".
Proof. by vm_compute. Qed.

(** ** What a row remembers *)

Definition last_text (ts : list string) : string := foldl keep_text "" ts.

Lemma last_default {A} (l : list A) a d d' : List.last (a :: l) d = List.last (a :: l) d'.
Proof. revert a. induction l as [|b l IH]; intros a; [done|]. apply IH. Qed.

Lemma keep_text_first x : keep_text "" x = x.
Proof. unfold keep_text. by case_bool_decide. Qed.

(** A light heartbeat never erases richer state: after any beats of a device the
    row holds the last revision, phase and ack that were not empty, and the
    error of the last beat. *)
Theorem row_remembers c now cs :
  let row := foldl (λ r ct, Some (upsert_row r ct.1 ct.2)) (Some (first_row c now)) cs in
  st_Revision <$> row = Some (last_text (c_Revision c :: map (c_Revision ∘ fst) cs)) ∧
  st_Phase <$> row = Some (last_text (c_Phase c :: map (c_Phase ∘ fst) cs)) ∧
  st_Ack <$> row = Some (last_text (c_Ack c :: map (c_Ack ∘ fst) cs)) ∧
  st_Error <$> row = Some (List.last (map (c_Error ∘ fst) cs) (c_Error c)).
Proof.
  unfold last_text. simpl. rewrite !keep_text_first.
  assert (Hgen : ∀ r, let row := foldl (λ r ct, Some (upsert_row r ct.1 ct.2)) (Some r) cs in
    st_Revision <$> row = Some (foldl keep_text (st_Revision r) (map (c_Revision ∘ fst) cs)) ∧
    st_Phase <$> row = Some (foldl keep_text (st_Phase r) (map (c_Phase ∘ fst) cs)) ∧
    st_Ack <$> row = Some (foldl keep_text (st_Ack r) (map (c_Ack ∘ fst) cs)) ∧
    st_Error <$> row = Some (List.last (map (c_Error ∘ fst) cs) (st_Error r))).
  { induction cs as [|[c1 n1] cs IH]; intros r; [done|]. simpl.
    destruct (IH (merge_row r c1 n1)) as (Hr & Hp & Ha & He). rewrite Hr, Hp, Ha, He. simpl.
    repeat (split; [done|]). f_equal. destruct (map (c_Error ∘ fst) cs); [done|]. apply last_default. }
  exact (Hgen (first_row c now)).
Qed.
