(* ===== verification/ImageJobs.v ===== *)
(** * Image jobs: the store, the service and its interleavings
      (src/internal/adapters/postgres/image_jobs.go, src/internal/app/imaging.go)

    The [image_jobs] table of a tenant, the service over it, and the steps of
    calls that run at the same time: a call that moves a job reads it in one
    statement and writes it in another. *)

From S2P Require Import Prelude GoLib FleetModel Sql Text Stations Imaging Observed.

(** ** The table *)

Record JobRow := mkJobRow { row_job : Job; row_created : Time; row_updated : Time }.
#[export] Instance JobRow_eta : Eta JobRow := λ r, mkJobRow (row_job r) (row_created r) (row_updated r).

(** Keyed by station and MAC. *)
Notation JobTable := (gmap (string * string) JobRow).
Notation JobKey := (string * string)%type.

Definition upsert_job (job : Job) (now : Time) (t : JobTable) : JobTable :=
  let job := if job_Status job ==? NoStatus then job <| job_Status := Pending |> else job in
  let k := (job_Station job, job_MAC job) in
  let created := match t !! k with Some r => row_created r | None => now end in
  <[k := mkJobRow job created now]> t.

Definition UpsertJob (job : Job) (now : Time) : SE (Pg JobTable) DbErr unit := exec (upsert_job job now).

Definition rows_of (p : JobRow → bool) (t : JobTable) : list JobRow := keep_if p (map snd (map_to_list t)).

Definition ListByStation (station : string) : SE (Pg JobTable) DbErr (list Job) :=
  query (λ t, map row_job (order_by_desc row_updated (rows_of (λ r, job_Station (row_job r) ==? station) t))).

Definition pending_rows (station : string) (t : JobTable) : list Job :=
  map row_job (order_by row_created (rows_of (λ r, (job_Station (row_job r) ==? station)
    && ((job_Status (row_job r) ==? Pending) || (job_Status (row_job r) ==? Imaging))) t)).
Definition ListPending (station : string) : SE (Pg JobTable) DbErr (list Job) := query (pending_rows station).

Definition GetJobRow (station mac : string) : SE (Pg JobTable) DbErr (option Job) :=
  query (λ t, row_job <$> t !! (station, mac)).

Definition active_by_tag (tag : string) (t : JobTable) : option Job :=
  row_job <$> head (order_by_desc row_updated
    (rows_of (λ r, (job_Tag (row_job r) ==? tag) && negb (Terminal (job_Status (row_job r)))) t)).
Definition GetActiveByTag (tag : string) : SE (Pg JobTable) DbErr (option Job) := query (active_by_tag tag).

Definition clamp_progress (n : Z) : Z := if n <? 0 then 0 else if 100 <? n then 100 else n.

Definition update_progress (station mac : string) (progress : Z) (step : string) (now : Time) (t : JobTable) : JobTable :=
  match t !! (station, mac) with
  | Some r => <[(station, mac) := r <| row_job ::= λ j, j <| job_Progress := clamp_progress progress |> <| job_Step := step |> |>
                                    <| row_updated := now |>]> t
  | None => t
  end.
Definition UpdateProgress (station mac : string) (progress : Z) (step : string) (now : Time)
  : SE (Pg JobTable) DbErr unit := exec (update_progress station mac progress step now).

(** A status change starts a new step: progress and label are reset. *)
Definition moved_job (to : JobStatus) (message : string) (j : Job) : Job :=
  j <| job_Status := to |> <| job_Message := message |> <| job_Progress := 0 |> <| job_Step := "" |>.

Definition transition_row (k : JobKey) (from to : JobStatus) (message : string) (now : Time) (t : JobTable)
  : bool * JobTable :=
  match t !! k with
  | Some r => if job_Status (row_job r) ==? from
              then (true, <[k := mkJobRow (moved_job to message (row_job r)) (row_created r) now]> t)
              else (false, t)
  | None => (false, t)
  end.
Definition TransitionStatus (station mac : string) (from to : JobStatus) (message : string) (now : Time)
  : SE (Pg JobTable) DbErr bool := statement (transition_row (station, mac) from to message now).

Definition DeleteJob (station mac : string) : SE (Pg JobTable) DbErr unit := exec (delete (station, mac)).

(** ** The service *)

Definition Dispatch (job : Job) (now : Time) : SE (Pg JobTable) JobErr unit :=
  let job := job <| job_MAC := NormalizeMAC (job_MAC job) |> in
  let job := if job_Status job ==? NoStatus then job <| job_Status := Pending |> else job in
  match ValidateJob job with
  | Some e => se_err e
  | None => db_step JobDb (UpsertJob job now)
  end.

(** A conditional write a call has decided on: the compare-and-swap of
    [TransitionStatus]. *)
Record Cas := mkCas { cas_station : string; cas_mac : string; cas_from : JobStatus; cas_to : JobStatus; cas_message : string }.

(** [Report] up to its write, and the write. *)
Definition report_read (station mac : string) (to : JobStatus) (message : string) : SE (Pg JobTable) JobErr Cas :=
  let mac := NormalizeMAC mac in
  do! job <- db_step JobDb (GetJobRow station mac);
  match job with
  | None => se_err (NoSuchJob station mac)
  | Some job =>
      if negb (CanTransition (job_Status job) to) then se_err (IllegalMove mac (job_Status job) to)
      else let message := if (to !=? Failed) && (to !=? Installed) then "" else message in
           se_ret (mkCas station mac (job_Status job) to message)
  end.

Definition cas_write (c : Cas) (now : Time) : SE (Pg JobTable) JobErr bool :=
  db_step JobDb (TransitionStatus (cas_station c) (cas_mac c) (cas_from c) (cas_to c) (cas_message c) now).

Definition ReportJob (station mac : string) (to : JobStatus) (message : string) (now : Time)
  : SE (Pg JobTable) JobErr unit :=
  do! c <- report_read station mac to message;
  do! applied <- cas_write c now;
  if applied then se_ret tt else se_err (MovedMeanwhile (cas_mac c)).

Definition ReportProgress (station mac : string) (progress : Z) (step : string) (now : Time)
  : SE (Pg JobTable) JobErr unit :=
  db_step JobDb (UpdateProgress station (NormalizeMAC mac) progress step now).

Definition WizardIntent (tag : string) (s : Pg JobTable) : string * Pg JobTable :=
  match GetActiveByTag tag s with
  | (Ok (Some job), s) => (if NeedsProvisioning (job_Status job) then "provision" else "", s)
  | (_, s) => ("", s)
  end.

(** What a report of the device makes of its job: the write to attempt, if any. *)
Definition device_move (c : CheckIn) (wantSB wantTPM2 : bool) (job : Job) : option Cas :=
  let '(to, message, ok) := Advance (job_Status job) (c_SB c) (c_TPM2 c) (c_Ack c) wantSB wantTPM2 in
  if negb ok || negb (CanTransition (job_Status job) to) then None
  else Some (mkCas (job_Station job) (job_MAC job) (job_Status job) to message).

Definition advance_read (c : CheckIn) (wantSB wantTPM2 : bool) : SE (Pg JobTable) JobErr (option Cas) :=
  do! job <- db_step JobDb (GetActiveByTag (c_Tag c));
  se_ret (job ≫= device_move c wantSB wantTPM2).

Definition AdvanceFromDevice (c : CheckIn) (wantSB wantTPM2 : bool) (now : Time) : SE (Pg JobTable) JobErr unit :=
  do! cas <- advance_read c wantSB wantTPM2;
  match cas with
  | None => se_ret tt
  | Some cas => do! applied <- cas_write cas now; se_ret tt
  end.

Definition CancelJob (station mac : string) (now : Time) : SE (Pg JobTable) JobErr unit :=
  ReportJob station mac Canceled "" now.

Definition RemoveJob (station mac : string) : SE (Pg JobTable) JobErr unit :=
  db_step JobDb (DeleteJob station (NormalizeMAC mac)).

(** ** Calls that run at the same time

    The database orders the statements.  A world is the tables and the writes
    that calls have decided on and not issued yet; each step is one statement. *)

Record World := mkWorld { w_db : Pg JobTable; in_flight : list Cas }.

Inductive call_step : World → World → Prop :=
  | step_report_read w station mac to message r db :
      report_read station mac to message (w_db w) = (r, db) →
      call_step w (mkWorld db (match r with Ok c => c :: in_flight w | Err _ => in_flight w end))
  | step_advance_read w c wantSB wantTPM2 r db :
      advance_read c wantSB wantTPM2 (w_db w) = (r, db) →
      call_step w (mkWorld db (match r with Ok (Some c) => c :: in_flight w | _ => in_flight w end))
  | step_write w l1 c l2 now r db :
      in_flight w = l1 ++ c :: l2 → cas_write c now (w_db w) = (r, db) → call_step w (mkWorld db (l1 ++ l2))
  | step_progress w station mac progress label now r db :
      ReportProgress station mac progress label now (w_db w) = (r, db) → call_step w (mkWorld db (in_flight w))
  | step_remove w station mac r db :
      RemoveJob station mac (w_db w) = (r, db) → call_step w (mkWorld db (in_flight w)).

(** A dispatch, as the console issues it, carries no message. *)
Inductive step : World → World → Prop :=
  | step_dispatch w job now r db :
      job_Message job = "" → Dispatch job now (w_db w) = (r, db) → step w (mkWorld db (in_flight w))
  | step_call w w' : call_step w w' → step w w'.

(** ** Typing *)

(** A message rests only on a failed or an installed job. *)
Definition message_ok (s : JobStatus) (message : string) : Prop := message ≠ "" → s = Failed ∨ s = Installed.

Definition row_ok (k : JobKey) (r : JobRow) : Prop :=
  (job_Station (row_job r), job_MAC (row_job r)) = k ∧ ValidateJob (row_job r) = None ∧
  ValidStatus (job_Status (row_job r)) = true ∧ message_ok (job_Status (row_job r)) (job_Message (row_job r)).

Definition table_ok (t : JobTable) : Prop := map_Forall row_ok t.

Definition cas_ok (c : Cas) : Prop :=
  CanTransition (cas_from c) (cas_to c) = true ∧ message_ok (cas_to c) (cas_message c).

Definition world_ok (w : World) : Prop := table_ok (tables (w_db w)) ∧ Forall cas_ok (in_flight w).

Lemma ValidateJob_moved to message j :
  ValidateJob j = None → ValidStatus to = true → ValidateJob (moved_job to message j) = None.
Proof.
  unfold ValidateJob. simpl. intros Hj Hto. rewrite Hto.
  destruct (job_Station j ==? ""), (macRE (job_MAC j)), (tagRE (job_Tag j)), (trim_space (job_Hardware j) ==? "");
    try done.
  simpl in *. by rewrite andb_false_r.
Qed.

Lemma ValidateJob_progress n label j :
  ValidateJob j = None → ValidateJob (j <| job_Progress := clamp_progress n |> <| job_Step := label |>) = None.
Proof.
  unfold ValidateJob, clamp_progress. simpl.
  destruct (job_Station j ==? ""), (macRE (job_MAC j)), (tagRE (job_Tag j)), (trim_space (job_Hardware j) ==? "");
    try done.
  simpl. destruct ((job_Status j !=? NoStatus) && negb (ValidStatus (job_Status j))); [done|].
  intros _. destruct (Z.ltb_spec n 0); [done|]. destruct (Z.ltb_spec 100 n); [done|].
  destruct (Z.ltb_spec n 0); [lia|]. by destruct (Z.ltb_spec 100 n); [lia|].
Qed.

Lemma transition_row_ok k from to message now t :
  table_ok t → CanTransition from to = true → message_ok to message →
  table_ok (transition_row k from to message now t).2.
Proof.
  intros Ht Hc Hm. unfold transition_row. destruct (t !! k) as [r|] eqn:Hk; [|done].
  case_bool_decide as Hs; [|done]. simpl. apply map_Forall_insert_2; [|done].
  destruct (Ht k r Hk) as (Hkey & Hv & _ & _). apply CanTransition_valid in Hc as (_ & Hto & _).
  split; [done|]. split; [by apply ValidateJob_moved|]. done.
Qed.

Lemma update_progress_ok station mac n label now t :
  table_ok t → table_ok (update_progress station mac n label now t).
Proof.
  intros Ht. unfold update_progress. destruct (t !! (station, mac)) as [r|] eqn:Hk; [|done].
  apply map_Forall_insert_2; [|done]. destruct (Ht _ r Hk) as (Hkey & Hv & Hst & Hm).
  split; [done|]. split; [by apply ValidateJob_progress|]. done.
Qed.

Lemma upsert_job_ok job now t :
  table_ok t → ValidateJob job = None → ValidStatus (job_Status job) = true → job_Message job = "" →
  table_ok (upsert_job job now t).
Proof.
  intros Ht Hv Hs Hm. unfold upsert_job.
  rewrite bool_decide_eq_false_2 by (intros Hn; by rewrite Hn in Hs).
  apply map_Forall_insert_2; [|done]. split; [done|]. split; [done|]. split; [done|].
  unfold message_ok. simpl. by rewrite Hm.
Qed.

Lemma dispatch_status_valid job :
  ValidateJob job = None → job_Status job ≠ NoStatus → ValidStatus (job_Status job) = true.
Proof.
  unfold ValidateJob. intros Hv Hn.
  destruct (job_Station job ==? ""), (macRE (job_MAC job)), (tagRE (job_Tag job)), (trim_space (job_Hardware job) ==? "");
    try done.
  rewrite bool_decide_eq_false_2 in Hv by done. simpl in Hv. by destruct (ValidStatus (job_Status job)).
Qed.

Lemma Dispatch_ok job now db r db' :
  table_ok (tables db) → job_Message job = "" → Dispatch job now db = (r, db') → table_ok (tables db').
Proof.
  intros Ht Hm. unfold Dispatch.
  set (j := if _ ==? NoStatus then _ else _).
  assert (Hj : job_Message j = "" ∧ job_Status j ≠ NoStatus).
  { subst j. simpl. by case_bool_decide. }
  destruct (ValidateJob j) as [e|] eqn:Hv; [by intros [= _ <-]|].
  intros (r0 & E0 & _)%db_step_inv. apply exec_tables in E0. rewrite E0. destruct r0; [|done].
  destruct Hj. apply upsert_job_ok; auto using dispatch_status_valid.
Qed.

Lemma Advance_message s sb tpm2 ack wantSB wantTPM2 to message :
  Advance s sb tpm2 ack wantSB wantTPM2 = (to, message, true) → message_ok to message.
Proof.
  unfold Advance, message_ok.
  intros Heq. repeat case_match; try (inversion Heq; subst; by auto).
  unfold advance_posture in Heq. repeat case_match; by inversion Heq.
Qed.

(** What the read half of a call decides on, and that it only reads. *)
Lemma report_read_spec station mac to message db r db' :
  report_read station mac to message db = (r, db') →
  tables db' = tables db ∧ ∀ c, r = Ok c → cas_ok c.
Proof.
  unfold report_read. intros [(job & s1 & E1 & E2)|(e & E1 & ->)]%se_bind_inv.
  - apply db_step_inv in E1 as (r0 & E1 & _). apply query_tables in E1 as [E1 _].
    destruct job as [job|]; [|injection E2 as <- <-; by split].
    destruct (CanTransition (job_Status job) to) eqn:Hc; simpl in E2; injection E2 as <- <-; [|by split].
    split; [done|]. intros c [= <-]. split; [done|]. unfold message_ok. simpl.
    destruct (decide (to = Failed)) as [->|Hf]; [by auto|].
    destruct (decide (to = Installed)) as [->|Hi]; [by auto|].
    by rewrite !bool_decide_eq_false_2.
  - apply db_step_inv in E1 as (r0 & E1 & _). apply query_tables in E1 as [E1 _]. by split.
Qed.

Lemma device_move_ok c wantSB wantTPM2 job cas :
  device_move c wantSB wantTPM2 job = Some cas → cas_ok cas.
Proof.
  unfold device_move. destruct (Advance _ _ _ _ _ _) as [[to message] ok] eqn:Ha.
  destruct ok; simpl; [|done]. destruct (CanTransition (job_Status job) to) eqn:Hc; simpl; [|done].
  intros [= <-]. split; [done|]. by eapply Advance_message.
Qed.

Lemma advance_read_spec c wantSB wantTPM2 db r db' :
  advance_read c wantSB wantTPM2 db = (r, db') →
  tables db' = tables db ∧ (∀ cas, r = Ok (Some cas) → cas_ok cas) ∧
  (∀ o, r = Ok o → o = active_by_tag (c_Tag c) (tables db) ≫= device_move c wantSB wantTPM2).
Proof.
  unfold advance_read. intros [(job & s1 & E1 & E2)|(e & E1 & ->)]%se_bind_inv;
    apply db_step_inv in E1 as (r0 & E1 & Hr0); apply query_tables in E1 as [E1 Hq].
  - injection E2 as <- <-. split; [done|]. split.
    + intros cas [= Heq]. destruct job as [j|]; [|done]. by eapply device_move_ok.
    + intros o [= <-]. destruct r0 as [a|]; [|done]. injection Hr0 as ->. by rewrite (Hq a eq_refl).
  - by split.
Qed.

Lemma cas_write_spec c now db r db' :
  cas_write c now db = (r, db') →
  tables db' = tables db ∨
  tables db' = (transition_row (cas_station c, cas_mac c) (cas_from c) (cas_to c) (cas_message c) now (tables db)).2.
Proof.
  unfold cas_write. intros (r0 & E & _)%db_step_inv. destruct r0 as [a|].
  - right. apply statement_Ok in E. by rewrite E.
  - left. by eapply statement_Err.
Qed.

Lemma call_step_ok w w' : call_step w w' → world_ok w → world_ok w'.
Proof.
  intros Hs [Ht Hf]. destruct Hs as [w st mac to msg r db E|w c b1 b2 r db E|w l1 c l2 now r db Hfl E
    |w st mac n label now r db E|w st mac r db E]; unfold world_ok; simpl.
  - apply report_read_spec in E as [-> Hc]. split; [done|]. destruct r; [|done]. constructor; auto.
  - apply advance_read_spec in E as (-> & Hc & _). split; [done|]. destruct r as [[c'|]|]; [|done..].
    constructor; auto.
  - rewrite Hfl in Hf. apply Forall_app in Hf as [Hf1 Hf2]. apply Forall_cons in Hf2 as [[Hc1 Hc2] Hf2].
    split; [|by apply Forall_app]. apply cas_write_spec in E as [-> | ->]; [done|].
    by apply transition_row_ok.
  - unfold ReportProgress in E. apply db_step_inv in E as (r0 & E & _). apply exec_tables in E. rewrite E.
    split; [|done]. destruct r0; [by apply update_progress_ok|done].
  - unfold RemoveJob in E. apply db_step_inv in E as (r0 & E & _). apply exec_tables in E. rewrite E.
    split; [|done]. destruct r0; [by apply map_Forall_delete|done].
Qed.

(** C31. The job table stays typed under any interleaving.  Whatever calls
    dispatch, read, write, tick and remove jobs in whatever order, and whichever
    statements fail, every stored job sits under its own station and canonical
    MAC, passes the domain's validation, has one of the nine statuses, and
    carries a message - failure detail, or a recovery key - only while it is
    failed or installed; every write still in flight is a legal transition. *)
Theorem image_jobs_typed w w' : world_ok w → rtc step w w' → world_ok w'.
Proof.
  intros Hw Hs. induction Hs as [|a b c Hab _ IH]; [done|]. apply IH.
  destruct Hab as [w1 job now r db Hm E|]; [|by eapply call_step_ok].
  destruct Hw as [Ht Hf]. split; [|done]. by eapply Dispatch_ok.
Qed.

Definition demo_job : Job := mkJob "nuc-1" "AA-BB-CC-DD-EE-01" "lab-1" "hw" "r1" NoStatus 0 "" "".
Definition demo_db : Pg JobTable := (Dispatch demo_job 1 (live ∅)).2.
Definition demo_world : World := mkWorld demo_db [].
Definition demo_key : JobKey := ("nuc-1", "aa:bb:cc:dd:ee:01").
Definition status_at (db : Pg JobTable) : option JobStatus := job_Status ∘ row_job <$> tables db !! demo_key.

Lemma dispatch_demo : step (mkWorld (live ∅) []) demo_world.
Proof. apply (step_dispatch (mkWorld (live ∅) []) demo_job 1 (Dispatch demo_job 1 (live ∅)).1); [done|]. apply surjective_pairing. Qed.

Lemma image_jobs_typed_witness : world_ok demo_world ∧ status_at demo_db = Some Pending.
Proof.
  split; [|vm_compute; reflexivity].
  apply (image_jobs_typed (mkWorld (live ∅) [])); [|apply rtc_once, dispatch_demo].
  split; [apply map_Forall_empty|constructor].
Defined.

(** ** The history of a job *)

(** What a job keeps between its dispatch and its removal. *)
Definition same_assignment (r r' : JobRow) : Prop :=
  job_Station (row_job r') = job_Station (row_job r) ∧ job_MAC (row_job r') = job_MAC (row_job r) ∧
  job_Tag (row_job r') = job_Tag (row_job r) ∧ job_Hardware (row_job r') = job_Hardware (row_job r) ∧
  job_Rev (row_job r') = job_Rev (row_job r) ∧ row_created r' = row_created r.

Definition moves (s s' : JobStatus) : Prop := CanTransition s s' = true.

(** Every row of [t'] continues a row of [t]. *)
Definition continues (t t' : JobTable) : Prop := ∀ k r', t' !! k = Some r' →
  ∃ r, t !! k = Some r ∧ same_assignment r r' ∧ rtc moves (job_Status (row_job r)) (job_Status (row_job r')).

#[export] Instance continues_preorder : PreOrder continues.
Proof.
  split.
  - intros t k r Hk. exists r. split; [done|]. split; [by unfold same_assignment|constructor].
  - intros t1 t2 t3 H12 H23 k r3 H3. destruct (H23 k r3 H3) as (r2 & H2 & Ha2 & Hm2).
    destruct (H12 k r2 H2) as (r1 & H1 & Ha1 & Hm1). exists r1. split; [done|]. split; [|by etrans].
    unfold same_assignment in *. intuition congruence.
Qed.

Lemma continues_insert t k r r' :
  t !! k = Some r → same_assignment r r' → rtc moves (job_Status (row_job r)) (job_Status (row_job r')) →
  continues t (<[k := r']> t).
Proof.
  intros Hk Ha Hm k1 r1. destruct (decide (k1 = k)) as [->|Hne].
  - rewrite lookup_insert_eq. intros [= <-]. by exists r.
  - rewrite lookup_insert_ne by done. intros H1. exists r1. split; [done|].
    split; [by unfold same_assignment|constructor].
Qed.

Lemma call_step_continues w w' :
  call_step w w' → world_ok w → continues (tables (w_db w)) (tables (w_db w')).
Proof.
  intros Hs [Ht Hf]. destruct Hs as [w st mac to msg r db E|w c b1 b2 r db E|w l1 c l2 now r db Hfl E
    |w st mac n label now r db E|w st mac r db E]; simpl.
  - by apply report_read_spec in E as [-> _].
  - by apply advance_read_spec in E as [-> _].
  - rewrite Hfl in Hf. apply Forall_app in Hf as [_ Hf2]. apply Forall_cons in Hf2 as [[Hc _] _].
    apply cas_write_spec in E as [-> | ->]; [done|]. unfold transition_row.
    destruct (tables (w_db w) !! _) as [r0|] eqn:Hk; [|done]. case_bool_decide as Hst; [|done].
    simpl. eapply continues_insert; [done|by unfold same_assignment|]. apply rtc_once. simpl.
    by rewrite Hst.
  - unfold ReportProgress in E. apply db_step_inv in E as (r0 & E & _). apply exec_tables in E. rewrite E.
    destruct r0; [|done]. unfold update_progress. destruct (tables (w_db w) !! _) as [r0|] eqn:Hk; [|done].
    eapply continues_insert; [done|by unfold same_assignment|constructor].
  - unfold RemoveJob in E. apply db_step_inv in E as (r0 & E & _). apply exec_tables in E. rewrite E.
    destruct r0; [|done]. intros k r1 Hk. apply lookup_delete_Some in Hk as [_ Hk].
    exists r1. split; [done|]. split; [by unfold same_assignment|constructor].
Qed.

Lemma moves_terminal s s' : rtc moves s s' → Terminal s = true → s' = s.
Proof.
  intros Hm. induction Hm as [|a b c Hab _ IH]; [done|]. intros Ht.
  unfold moves in Hab. by rewrite Terminal_stuck in Hab.
Qed.

(** Between dispatches the domain's transitions are the only way a job
    moves, even when reports race.  After any interleaving of reports, device
    beats, progress ticks, cancellations and removals, with their reads and
    writes in any order, every job that is still there is the job that was
    dispatched - same station, MAC, tag, profile, revision - its status was
    reached from the earlier one along legal transitions, and a finished or
    cancelled job has not moved. *)
Theorem job_history w w' k r' :
  world_ok w → rtc call_step w w' → tables (w_db w') !! k = Some r' →
  ∃ r, tables (w_db w) !! k = Some r ∧ same_assignment r r' ∧
       rtc moves (job_Status (row_job r)) (job_Status (row_job r')) ∧
       (Terminal (job_Status (row_job r)) = true → job_Status (row_job r') = job_Status (row_job r)).
Proof.
  intros Hw Hs Hk.
  assert (Hc : continues (tables (w_db w)) (tables (w_db w'))).
  { clear Hk. induction Hs as [|a b c Hab _ IH]; [done|].
    etrans; [by apply call_step_continues|]. apply IH. by eapply call_step_ok. }
  destruct (Hc k r' Hk) as (r & Hr & Ha & Hm). exists r. repeat (split; [done|]).
  intros Ht. by apply moves_terminal.
Qed.

(** Two reports race on one job: the station claims it while an operator cancels
    it.  Both read it pending; the first write wins, the second matches no row. *)
Definition claim : Cas := mkCas "nuc-1" "aa:bb:cc:dd:ee:01" Pending Imaging "".
Definition cancel : Cas := mkCas "nuc-1" "aa:bb:cc:dd:ee:01" Pending Canceled "".

Definition reads (to : JobStatus) (w : World) : World :=
  let o := report_read "nuc-1" "AA-bb-cc-dd-ee-01" to "" (w_db w) in
  mkWorld o.2 (match o.1 with Ok c => c :: in_flight w | Err _ => in_flight w end).
Definition both_read : World := reads Canceled (reads Imaging demo_world).
Definition claimed : World := mkWorld (cas_write claim 2 (w_db both_read)).2 [cancel].
Definition lost : World := mkWorld (cas_write cancel 3 (w_db claimed)).2 [].

Lemma reads_step to w : call_step w (reads to w).
Proof. unfold reads. apply (step_report_read w "nuc-1" "AA-bb-cc-dd-ee-01" to ""). apply surjective_pairing. Qed.

Lemma racing_reports : rtc call_step demo_world lost.
Proof.
  eapply rtc_l; [apply (reads_step Imaging)|]. eapply rtc_l; [apply (reads_step Canceled)|].
  eapply rtc_l.
  { apply (step_write both_read [cancel] claim [] 2 (cas_write claim 2 (w_db both_read)).1); [|apply surjective_pairing].
    vm_compute. reflexivity. }
  apply rtc_once, (step_write claimed [] cancel [] 3 (cas_write cancel 3 (w_db claimed)).1); [reflexivity|].
  apply surjective_pairing.
Qed.

Lemma job_history_witness :
  ∃ r, tables (w_db demo_world) !! demo_key = Some r ∧ status_at (w_db lost) = Some Imaging ∧
       rtc moves (job_Status (row_job r)) Imaging.
Proof.
  destruct (tables (w_db lost) !! demo_key) as [r'|] eqn:Hk; [|vm_compute in Hk; discriminate].
  assert (Hst : status_at (w_db lost) = Some Imaging) by (vm_compute; reflexivity).
  destruct (job_history demo_world lost demo_key r') as (r & Hr & _ & Hm & _).
  - split; [|constructor]. eapply (Dispatch_ok demo_job 1 (live ∅)); [apply map_Forall_empty|reflexivity|].
    apply surjective_pairing.
  - exact racing_reports.
  - exact Hk.
  - exists r. split; [exact Hr|]. split; [exact Hst|].
    unfold status_at in Hst. rewrite Hk in Hst. injection Hst as Hst. by rewrite <- Hst.
Defined.

