(* ===== verification/Ceremony.v ===== *)
(** * The provisioning ceremony, driven by the device alone (src/internal/app/imaging.go, src/internal/domain/imaging/provision.go) *)

From S2P Require Import Prelude GoLib FleetModel Sql Text Stations Imaging Observed ImageJobs.
(** ** The ceremony, driven by the device alone *)

Definition beat_status (s : JobStatus) (c : CheckIn) (wantSB wantTPM2 : bool) : JobStatus :=
  let '(to, _, ok) := Advance s (c_SB c) (c_TPM2 c) (c_Ack c) wantSB wantTPM2 in
  if ok && CanTransition s to then to else s.

(** [k] is the one job of the tag. *)
Definition only_job (tag : string) (k : JobKey) (t : JobTable) : Prop :=
  ∀ k' r', t !! k' = Some r' → job_Tag (row_job r') = tag → k' = k.

Lemma elem_of_rows_of p t r : r ∈ rows_of p t ↔ p r = true ∧ ∃ k, t !! k = Some r.
Proof.
  unfold rows_of. rewrite elem_of_keep_if, list_elem_of_fmap. split.
  - intros ((k & -> & Hin) & Hp). destruct k as [k r0]. apply elem_of_map_to_list in Hin. eauto.
  - intros (Hp & k & Hk). split; [|done]. exists (k, r). split; [done|]. by apply elem_of_map_to_list.
Qed.

Lemma active_by_tag_only tag k t r :
  only_job tag k t → t !! k = Some r → job_Tag (row_job r) = tag →
  active_by_tag tag t = if Terminal (job_Status (row_job r)) then None else Some (row_job r).
Proof.
  intros Ho Hk Htag. unfold active_by_tag.
  set (p := λ r0 : JobRow, (job_Tag (row_job r0) ==? tag) && negb (Terminal (job_Status (row_job r0)))).
  assert (Hin : ∀ x, x ∈ order_by_desc row_updated (rows_of p t) ↔ x = r ∧ Terminal (job_Status (row_job r)) = false).
  { intros x. rewrite elem_of_order_by_desc, elem_of_rows_of. subst p. simpl. split.
    - intros ([Hx%bool_decide_eq_true Ht%negb_true_iff]%andb_true_iff & k' & Hk').
      rewrite (Ho k' x Hk' Hx), Hk in Hk'. by injection Hk' as <-.
    - intros [-> Ht]. split; [|by exists k]. rewrite Ht. simpl. by rewrite andb_true_r, bool_decide_eq_true. }
  destruct (order_by_desc row_updated (rows_of p t)) as [|x l]; simpl.
  - destruct (Terminal (job_Status (row_job r))) eqn:Ht; [done|].
    assert (Hn : r ∈ []) by by apply Hin. by apply elem_of_nil in Hn.
  - destruct (proj1 (Hin x) ltac:(left)) as [-> ->]. done.
Qed.

(** A beat moves the one job of its device as [beat_status] says. *)
Lemma advance_beat c wantSB wantTPM2 now k t r :
  table_ok t → only_job (c_Tag c) k t → t !! k = Some r → job_Tag (row_job r) = c_Tag c →
  ∃ t' r', AdvanceFromDevice c wantSB wantTPM2 now (live t) = (Ok tt, live t') ∧ t' !! k = Some r' ∧
    table_ok t' ∧ only_job (c_Tag c) k t' ∧ same_assignment r r' ∧
    job_Status (row_job r') = beat_status (job_Status (row_job r)) c wantSB wantTPM2.
Proof.
  intros Hok Ho Hk Htag. pose proof (active_by_tag_only _ _ _ _ Ho Hk Htag) as Hact.
  unfold AdvanceFromDevice, advance_read, GetActiveByTag, query, se_bind, db_step.
  rewrite statement_live. simpl. rewrite Hact.
  destruct (Terminal (job_Status (row_job r))) eqn:Ht.
  { exists t, r. split; [done|]. split; [done|]. split; [done|]. split; [done|]. split; [by unfold same_assignment|].
    unfold beat_status. destruct (Advance _ _ _ _ _ _) as [[to m] ok]. rewrite Terminal_stuck by done.
    by rewrite andb_false_r. }
  unfold beat_status. simpl. destruct (device_move c wantSB wantTPM2 (row_job r)) as [cas|] eqn:Hd.
  - pose proof (device_move_ok _ _ _ _ _ Hd) as [Hc Hm]. unfold device_move in Hd.
    destruct (Advance _ _ _ _ _ _) as [[to m] ok] eqn:Ha.
    destruct ok; simpl in Hd; [|done]. destruct (CanTransition (job_Status (row_job r)) to) eqn:Hct; [|done].
    injection Hd as <-. simpl in *. unfold cas_write, db_step, TransitionStatus. simpl.
    rewrite statement_live. unfold transition_row.
    destruct (Hok k r Hk) as (Hkey & _). rewrite Hkey, Hk, bool_decide_eq_true_2 by done. simpl.
    eexists _, _. split; [done|]. split; [apply lookup_insert_eq|].
    pose proof (transition_row_ok k (job_Status (row_job r)) to m now t Hok Hct Hm) as Hok'.
    unfold transition_row in Hok'. rewrite Hk, bool_decide_eq_true_2 in Hok' by done.
    split; [exact Hok'|]. split; [|by unfold same_assignment].
    intros k' r' Hk' Htag'. destruct (decide (k' = k)) as [->|Hne]; [done|].
    rewrite lookup_insert_ne in Hk' by done. by eapply Ho.
  - unfold device_move in Hd. exists t, r. split; [done|]. split; [done|]. split; [done|]. split; [done|].
    split; [by unfold same_assignment|].
    destruct (Advance _ _ _ _ _ _) as [[to m] ok]. destruct ok; [|done]. simpl in *.
    by destruct (CanTransition (job_Status (row_job r)) to).
Qed.

(** The check-ins of a device, each followed by the advancement of its job. *)
Fixpoint device_beats (cs : list (CheckIn * Time)) (wantSB wantTPM2 : bool) : SE (Pg JobTable) JobErr unit :=
  match cs with
  | [] => se_ret tt
  | (c, now) :: cs => run! AdvanceFromDevice c wantSB wantTPM2 now; device_beats cs wantSB wantTPM2
  end.

Lemma device_beats_status cs wantSB wantTPM2 tag k t r :
  table_ok t → only_job tag k t → t !! k = Some r → job_Tag (row_job r) = tag →
  (∀ ct, ct ∈ cs → c_Tag ct.1 = tag) →
  ∃ t' r', device_beats cs wantSB wantTPM2 (live t) = (Ok tt, live t') ∧ t' !! k = Some r' ∧
    same_assignment r r' ∧
    job_Status (row_job r') =
      foldl (λ s ct, beat_status s ct.1 wantSB wantTPM2) (job_Status (row_job r)) cs.
Proof.
  revert t r. induction cs as [|[c now] cs IH]; intros t r Hok Ho Hk Htag Hcs.
  { exists t, r. split; [done|]. split; [done|]. by split; [unfold same_assignment|]. }
  pose proof (Hcs (c, now) ltac:(left)) as Hc. simpl in Hc.
  rewrite <- Hc in Ho, Htag, Hcs.
  destruct (advance_beat c wantSB wantTPM2 now k t r) as (t1 & r1 & E1 & Hk1 & Hok1 & Ho1 & Ha1 & Hs1); [exact Hok|exact Ho|exact Hk|exact Htag|].
  assert (Htag1 : job_Tag (row_job r1) = c_Tag c) by (destruct Ha1 as (_ & _ & -> & _); done).
  rewrite <- Hc in IH.
  destruct (IH t1 r1) as (t2 & r2 & E2 & Hk2 & Ha2 & Hs2); [exact Hok1|exact Ho1|exact Hk1|exact Htag1| |].
  { intros ct Hct. apply Hcs. by right. }
  exists t2, r2. simpl. rewrite (se_bind_Ok _ _ _ _ _ E1). split; [done|]. split; [done|].
  split; [unfold same_assignment in *; intuition congruence|]. by rewrite Hs2, Hs1.
Qed.

(** *** Progress *)

Definition in_ceremony (s : JobStatus) : Prop := 2 ≤ rank s ≤ 6.
Definition no_failure (c : CheckIn) : Prop := c_Ack c ≠ AckSBEnrollFailed ∧ c_Ack c ≠ AckTPM2EnrollFailed.

Lemma beat_status_no_failure s c wantSB wantTPM2 :
  no_failure c →
  beat_status s c wantSB wantTPM2 =
    (let '(to, _, ok) :=
       if (c_Ack c ==? AckTPM2Enrolled) && CanTransition s TPM2Enrolled then (TPM2Enrolled, "", true)
       else if (c_Ack c ==? AckSBEnrolled) && CanTransition s SBEnrolled then (SBEnrolled, "", true)
       else advance_posture s (c_SB c) (c_TPM2 c) wantSB wantTPM2 in
     if ok && CanTransition s to then to else s).
Proof.
  intros [H1 H2]. unfold beat_status, Advance. by rewrite (bool_decide_eq_false_2 _ H1), (bool_decide_eq_false_2 _ H2).
Qed.

Lemma beat_status_climbs s c wantSB wantTPM2 :
  in_ceremony s → no_failure c →
  in_ceremony (beat_status s c wantSB wantTPM2) ∧ rank s ≤ rank (beat_status s c wantSB wantTPM2).
Proof.
  intros Hs Hc. rewrite beat_status_no_failure by done. unfold in_ceremony in *.
  destruct s; simpl in Hs; try lia;
    destruct (c_Ack c ==? AckTPM2Enrolled), (c_Ack c ==? AckSBEnrolled), (c_SB c), (c_TPM2 c), wantSB, wantTPM2;
    vm_compute; split; try split; discriminate.
Qed.

Lemma beats_climb cs s wantSB wantTPM2 :
  in_ceremony s → Forall (λ ct, no_failure ct.1) cs →
  let s' := foldl (λ s (ct : CheckIn * Time), beat_status s ct.1 wantSB wantTPM2) s cs in
  in_ceremony s' ∧ rank s ≤ rank s'.
Proof.
  intros Hs Hf. revert s Hs. induction Hf as [|ct cs Hct _ IH]; intros s Hs; simpl; [split; [done|lia]|].
  destruct (beat_status_climbs s ct.1 wantSB wantTPM2 Hs Hct) as [Hs1 Hle].
  destruct (IH _ Hs1) as [Hs2 Hle2]. split; [done|lia].
Qed.

(** The three milestones. *)
Lemma beat_enforcing s c wantTPM2 :
  in_ceremony s → no_failure c → c_SB c = SBEnforcing → 4 ≤ rank (beat_status s c true wantTPM2).
Proof.
  intros Hs Hc Hsb. rewrite beat_status_no_failure, Hsb by done. unfold in_ceremony in *.
  destruct s; simpl in Hs; try lia;
    destruct (c_Ack c ==? AckTPM2Enrolled), (c_Ack c ==? AckSBEnrolled), (c_TPM2 c), wantTPM2;
    vm_compute; discriminate.
Qed.

Lemma beat_sealed s c wantSB wantTPM2 :
  in_ceremony s → 4 ≤ rank s → c_Ack c = AckTPM2Enrolled → 5 ≤ rank (beat_status s c wantSB wantTPM2).
Proof.
  intros Hs Hr Ha. rewrite beat_status_no_failure by (unfold no_failure; by rewrite Ha).
  rewrite Ha. unfold in_ceremony in *.
  destruct s; simpl in Hs, Hr; try lia; destruct (c_SB c), (c_TPM2 c), wantSB, wantTPM2; vm_compute; discriminate.
Qed.

Lemma beat_verified s c wantSB wantTPM2 :
  in_ceremony s → 5 ≤ rank s → no_failure c → c_SB c = SBEnforcing → beat_status s c wantSB wantTPM2 = Done.
Proof.
  intros Hs Hr Hc Hsb. rewrite beat_status_no_failure, Hsb by done. unfold in_ceremony in *.
  destruct s; simpl in Hs, Hr; try lia;
    destruct (c_Ack c ==? AckTPM2Enrolled), (c_Ack c ==? AckSBEnrolled), (c_TPM2 c), wantSB, wantTPM2;
    vm_compute; done.
Qed.

Lemma Done_rank s : in_ceremony s → rank Done ≤ rank s → s = Done.
Proof. unfold in_ceremony. destruct s; simpl; done || lia. Qed.

(** The ceremony completes on what the device reports.  An installed job of
    a device whose configuration wants Secure Boot, with no failure reported,
    becomes done once its check-ins have shown Secure Boot enforcing, then
    acknowledged the sealing, then shown Secure Boot enforcing again, whatever
    beats come before, between and after: no operator and no station is needed. *)
Theorem ceremony_completes l1 b1 l2 b2 l3 b3 l4 wantTPM2 tag k t r :
  let cs := l1 ++ b1 :: l2 ++ b2 :: l3 ++ b3 :: l4 in
  table_ok t → only_job tag k t → t !! k = Some r → job_Tag (row_job r) = tag →
  job_Status (row_job r) = Installed →
  Forall (λ ct, c_Tag ct.1 = tag ∧ no_failure ct.1) cs →
  c_SB b1.1 = SBEnforcing → c_Ack b2.1 = AckTPM2Enrolled → c_SB b3.1 = SBEnforcing →
  ∃ t' r', device_beats cs true wantTPM2 (live t) = (Ok tt, live t') ∧ t' !! k = Some r' ∧
    same_assignment r r' ∧ job_Status (row_job r') = Done.
Proof.
  intros cs Hok Ho Hk Htag Hst Hall Hb1 Hb2 Hb3.
  destruct (device_beats_status cs true wantTPM2 tag k t r) as (t' & r' & E & Hk' & Ha & Hs); [done..| |].
  { intros ct Hct. by apply (proj1 (Forall_forall _ _) Hall ct Hct). }
  exists t', r'. repeat (split; [done|]). rewrite Hs, Hst. clear -Hall Hb1 Hb2 Hb3. subst cs.
  assert (Hnf : Forall (λ ct : CheckIn * Time, no_failure ct.1) (l1 ++ b1 :: l2 ++ b2 :: l3 ++ b3 :: l4))
    by (eapply Forall_impl; [exact Hall|]; by intros ct []).
  apply Forall_app in Hnf as [N1 Hnf]. apply Forall_cons in Hnf as [Nb1 Hnf].
  apply Forall_app in Hnf as [N2 Hnf]. apply Forall_cons in Hnf as [Nb2 Hnf].
  apply Forall_app in Hnf as [N3 Hnf]. apply Forall_cons in Hnf as [Nb3 N4].
  rewrite foldl_app; simpl. rewrite foldl_app; simpl. rewrite foldl_app; simpl.
  destruct (beats_climb l1 Installed true wantTPM2 ltac:(by vm_compute) N1) as [C1 _].
  set (s1 := foldl _ Installed l1) in *.
  destruct (beat_status_climbs s1 b1.1 true wantTPM2 C1 Nb1) as [C1' _].
  pose proof (beat_enforcing s1 b1.1 wantTPM2 C1 Nb1 Hb1) as R1.
  destruct (beats_climb l2 _ true wantTPM2 C1' N2) as [C2 R2].
  set (s2 := foldl _ (beat_status s1 b1.1 true wantTPM2) l2) in *.
  destruct (beat_status_climbs s2 b2.1 true wantTPM2 C2 Nb2) as [C2' _].
  pose proof (beat_sealed s2 b2.1 true wantTPM2 C2 ltac:(lia) Hb2) as R2'.
  destruct (beats_climb l3 _ true wantTPM2 C2' N3) as [C3 R3].
  set (s3 := foldl _ (beat_status s2 b2.1 true wantTPM2) l3) in *.
  rewrite (beat_verified s3 b3.1 true wantTPM2 C3 ltac:(lia) Nb3 Hb3).
  destruct (beats_climb l4 Done true wantTPM2 ltac:(by vm_compute) N4) as [C4 R4].
  by apply Done_rank.
Qed.

Definition posture_beat (sb : SBState) (ack : string) : CheckIn * Time :=
  ((beat "lab-1" "r1" "" ack) <| c_SB := sb |>, 9).

Definition installed_job : JobTable :=
  <[demo_key := mkJobRow (mkJob "nuc-1" "aa:bb:cc:dd:ee:01" "lab-1" "hw" "r1" Installed 0 "" "") 1 1]> ∅.

Lemma ceremony_completes_witness :
  ∃ t' r', device_beats [posture_beat SBOff ""; posture_beat SBEnforcing ""; posture_beat SBEnforcing "tpm2-enrolled";
                         posture_beat SBEnforcing ""] true true (live installed_job) = (Ok tt, live t') ∧
    t' !! demo_key = Some r' ∧ job_Status (row_job r') = Done.
Proof.
  destruct (ceremony_completes [posture_beat SBOff ""] (posture_beat SBEnforcing "") []
              (posture_beat SBEnforcing "tpm2-enrolled") [] (posture_beat SBEnforcing "") [] true "lab-1" demo_key
              installed_job (mkJobRow (mkJob "nuc-1" "aa:bb:cc:dd:ee:01" "lab-1" "hw" "r1" Installed 0 "" "") 1 1))
    as (t' & r' & E & Hk & _ & Hs); [| |by vm_compute|reflexivity|reflexivity| |reflexivity|reflexivity|reflexivity|].
  - apply map_Forall_insert_2; [|apply map_Forall_empty]. split; [reflexivity|]. split; [by vm_compute|].
    split; [reflexivity|]. intros Hn. by destruct Hn.
  - intros k' r' Hk' _. unfold installed_job in Hk'. apply lookup_insert_Some in Hk' as [[<- _]|[_ Hk']]; [done|]. by rewrite lookup_empty in Hk'.
  - repeat (constructor; [split; [reflexivity|split; vm_compute; discriminate]|]). constructor.
  - exists t', r'. split; [exact E|]. split; [exact Hk|exact Hs].
Defined.

(** Where the configuration wants Secure Boot but not the TPM2 unlock, the
    executor's acknowledgement of the keys completes the job: the device boots
    on with Secure Boot off, and no beat ever shows it enforcing. *)
Theorem done_without_enforcing :
  foldl (λ s ct, beat_status s ct.1 true false) Installed
    [posture_beat SBOff ""; posture_beat SBOff "sb-enrolled"; posture_beat SBOff ""] = Done.
Proof. by vm_compute. Qed.

(** Without Secure Boot in the configuration a sealing acknowledgement still
    moves the job, into a state that only enforcing Secure Boot completes. *)
Theorem sealed_without_secure_boot_waits n :
  foldl (λ s ct, beat_status s ct.1 false true) Installed
    (posture_beat SBOff "tpm2-enrolled" :: repeat (posture_beat SBOff "") n) = TPM2Enrolled.
Proof. simpl. change (beat_status Installed _ _ _) with TPM2Enrolled. induction n as [|n IH]; [done|]. exact IH. Qed.

