(* ===== verification/Credentials.v ===== *)
(** * Token service and bound credentials (src/internal/app/token.go, cred.go,
      device_cred.go, station_cred.go, src/internal/adapters/postgres/tokens.go,
      the authorization of src/internal/http/api/checkin.go and station.go)

    The token table, the service that mints and authenticates API tokens, and
    the credentials bound to one device or one station. *)

From S2P Require Import Prelude GoLib FleetModel Groups Identity Sql Text Tokens.

(** ** The api_tokens table *)

Notation TokenTable := (gmap string Token).

(** On a conflict the record keeps its creation time and its last use. *)
Definition put_token (tok : Token) (t : TokenTable) : TokenTable :=
  match t !! tok_ID tok with
  | Some old => <[tok_ID tok := tok <| tok_Created := tok_Created old |> <| LastUsed := LastUsed old |>]> t
  | None => <[tok_ID tok := tok]> t
  end.
Definition PutToken (tok : Token) : SE (Pg TokenTable) DbErr unit := exec (put_token tok).
Definition GetToken (id : string) : SE (Pg TokenTable) DbErr (option Token) := query (lookup id).
Definition tokens_where (p : Token → bool) (t : TokenTable) : list Token :=
  order_by_desc tok_Created (keep_if p (map snd (map_to_list t))).
Definition ListBySubject (subject : string) : SE (Pg TokenTable) DbErr (list Token) :=
  query (tokens_where (λ tok, tok_Subject tok ==? subject)).
Definition ListByKind (kind : TokenKind) : SE (Pg TokenTable) DbErr (list Token) :=
  query (tokens_where (λ tok, tok_Kind tok ==? kind)).
Definition DeleteToken (id : string) : SE (Pg TokenTable) DbErr unit := exec (delete id).
Definition TouchLastUsed (id : string) (at_ : Time) : SE (Pg TokenTable) DbErr unit :=
  exec (alter (λ tok, tok <| LastUsed := Some at_ |>) id).

(** [_ = s.store.TouchLastUsed(...)]: the outcome is dropped. *)
Definition touch (id : string) (now : Time) (s : Pg TokenTable) : Pg TokenTable := snd (TouchLastUsed id now s).

Section service.
  Context (IDKey : string → string → string).

  (** ** The token service *)

Record MintRequest := mkMintRequest {
    r_ID : string; r_Name : string; r_Kind : TokenKind; r_Subject : string;
    r_Groups : list string; r_Ceiling : string; r_TTL : Z
}.

Definition DefaultTTL : Z := 30 * 24 * Hour.

Definition token_db {A} (m : SE (Pg TokenTable) DbErr A) : SE (Pg TokenTable) TokenErr A :=
    db_step (λ _, TokenDb) m.

Definition MintToken (raw salt : string) (req : MintRequest) (now : Time) : SE (Pg TokenTable) TokenErr (Token * string) :=
    do! existing <- token_db (GetToken (r_ID req));
    match existing with
    | Some _ => se_err (TokenExists (r_ID req))
    | None =>
        let ttl := if r_TTL req <=? 0 then DefaultTTL else r_TTL req in
        do! minted <- se_lift (Mint IDKey raw salt (r_ID req) (r_Name req) (r_Kind req) (r_Subject req)
                                 (r_Groups req) (r_Ceiling req) now ttl);
        run! token_db (PutToken minted.1);
        se_ret minted
    end.

Definition RevokeToken (id : string) : SE (Pg TokenTable) TokenErr unit :=
    do! tok <- token_db (GetToken id);
    match tok with
    | None => se_err (UnknownToken id)
    | Some _ => token_db (DeleteToken id)
    end.

  (** The groups the directory lists; [None] without a directory. *)
Definition prune_groups (dir : option (res unit (list string))) (groups : list string) : list string :=
    match dir, groups with
    | Some (Ok existing), _ :: _ => keep_if (λ g, g ∈? existing) groups
    | _, _ => groups
    end.

Definition principal (dir : option (res unit (list string))) (tok : Token) : User * Role :=
    let u := token_user tok in
    (Build_User (u_Subject u) (prune_groups dir (u_Groups u)) (u_Service u),
     let '(r, has) := CeilingRole tok in if has then r else None_).

Definition Authenticate (dir : option (res unit (list string))) (secret : string) (now : Time) (s : Pg TokenTable)
    : option (User * Role) * Pg TokenTable :=
    let id := IDFromSecret secret in
    if id ==? "" then (None, s) else
    match GetToken id s with
    | (Ok (Some tok), s) =>
        if (tok_Kind tok ==? Device) || (tok_Kind tok ==? Station) then (None, s)
        else if Expired tok now || negb (Verify IDKey tok secret) then (None, s)
        else (Some (principal dir tok), touch id now s)
    | (_, s) => (None, s)
    end.

  (** ** Bound credentials *)

Definition boundCredTTL : Z := 5 * 365 * 24 * Hour.

Definition issueBound (raw salt : string) (kind : TokenKind) (id name subject : string) (now : Time)
    : SE (Pg TokenTable) TokenErr string :=
    do! minted <- se_lift (Mint IDKey raw salt id name kind subject [] "" now boundCredTTL);
    run! token_db (PutToken minted.1);
    se_ret minted.2.

Definition authenticateBound (secret : string) (want : TokenKind) (now : Time) (s : Pg TokenTable)
    : option string * Pg TokenTable :=
    let id := IDFromSecret secret in
    if id ==? "" then (None, s) else
    match GetToken id s with
    | (Ok (Some tok), s) =>
        if tok_Kind tok !=? want then (None, s)
        else if Expired tok now || negb (Verify IDKey tok secret) then (None, s)
        else (Some (tok_Subject tok), touch id now s)
    | (_, s) => (None, s)
    end.

Definition deviceTokenID (tag : string) : string := "device-" +:+ tag.
Definition stationTokenID (tag : string) : string := "station-" +:+ tag.

Definition bound_id (kind : TokenKind) (tag : string) : string :=
    match kind with Station => stationTokenID tag | _ => deviceTokenID tag end.
Definition bound_name (kind : TokenKind) (tag : string) : string :=
    match kind with Station => "station:" +:+ tag | _ => "device:" +:+ tag end.

  (** [DeviceCredentials] at [Device], [StationCredentials] at [Station]. *)
Definition IssueCredential (raw salt : string) (kind : TokenKind) (tag : string) (now : Time)
    : SE (Pg TokenTable) TokenErr string :=
    issueBound raw salt kind (bound_id kind tag) (bound_name kind tag) tag now.

Definition RevokeCredential (kind : TokenKind) (tag : string) : SE (Pg TokenTable) DbErr unit :=
    DeleteToken (bound_id kind tag).

Definition HasCredential (kind : TokenKind) (tag : string) : SE (Pg TokenTable) DbErr bool :=
    do! tok <- GetToken (bound_id kind tag); se_ret (bool_decide (is_Some tok)).

Definition AuthenticateTag (kind : TokenKind) (secret claimedTag : string) (now : Time) (s : Pg TokenTable)
    : bool * Pg TokenTable :=
    let '(tag, s) := authenticateBound secret kind now s in
    (match tag with Some tag => tag ==? claimedTag | None => false end, s).

  (** The loop over the listed credentials: a failed delete is logged and passed
      over. *)
Fixpoint revoke_orphans (known : list string) (toks : list Token) (revoked : Z) (s : Pg TokenTable)
    : Z * Pg TokenTable :=
    match toks with
    | [] => (revoked, s)
    | t :: toks =>
        if tok_Subject t ∈? known then revoke_orphans known toks revoked s
        else match DeleteToken (tok_ID t) s with
             | (Err _, s) => revoke_orphans known toks revoked s
             | (Ok _, s) => revoke_orphans known toks (revoked + 1) s
             end
    end.

Definition ReconcileWithFleet (known : list string) : SE (Pg TokenTable) DbErr Z :=
    if known ==? [] then se_ret 0 else
    do! toks <- ListByKind Device;
    λ s, let '(n, s) := revoke_orphans known toks 0 s in (Ok n, s).

  (** ** Who may speak for a tag

      [authorized] of the check-in and of the station report: the bound
      credential, or the shared bridge token ([shared], empty when disabled) for
      a tag that has no credential of its own. *)
Definition authorized (kind : TokenKind) (devs : bool) (shared secret tag : string) (now : Time) (s : Pg TokenTable)
    : bool * Pg TokenTable :=
    let bridge s :=
      if (shared ==? "") || (secret !=? shared) then (false, s)
      else if devs && (tag !=? "") then
        match HasCredential kind tag s with
        | (Ok has, s) => (negb has, s)
        | (Err _, s) => (false, s)
        end
      else (true, s) in
    if devs && (tag !=? "") then
      let '(ok, s) := AuthenticateTag kind secret tag now s in
      if ok then (true, s) else bridge s
    else bridge s.
End service.

(** ** The table stays bound *)

(** What a record in the table promises: it is filed under its id, and a record
    of a machine is filed under the id of the machine it speaks for. *)
Definition bound_row (id : string) (tok : Token) : Prop :=
  tok_ID tok = id ∧ ∀ kind, kind = Device ∨ kind = Station → tok_Kind tok = kind → id = bound_id kind (tok_Subject tok).

Definition bound_ok (t : TokenTable) : Prop := map_Forall bound_row t.

Definition keeps (t t' : TokenTable) : Prop := bound_ok t → bound_ok t'.
#[export] Instance keeps_preorder : PreOrder keeps.
Proof. unfold keeps. split; [by intros t|]. intros a b c ??. auto. Qed.

Definition keeps_bound : relation (Pg TokenTable) := tables_rel keeps.
#[export] Instance keeps_bound_preorder : PreOrder keeps_bound.
Proof. unfold keeps_bound. apply _. Qed.

Lemma keeps_put tok : bound_row (tok_ID tok) tok → respects keeps_bound (PutToken tok).
Proof.
  intros Hb. apply respects_statement; [apply _|]. intros t Ht. simpl. unfold put_token.
  destruct (t !! tok_ID tok); by apply map_Forall_insert_2.
Qed.

Lemma keeps_get id : respects keeps_bound (GetToken id).
Proof. apply respects_statement; [apply _|]. by intros t Ht. Qed.

Lemma keeps_list kind : respects keeps_bound (ListByKind kind).
Proof. apply respects_statement; [apply _|]. by intros t Ht. Qed.

Lemma keeps_delete id : respects keeps_bound (DeleteToken id).
Proof. apply respects_statement; [apply _|]. intros t Ht. simpl. by apply map_Forall_delete. Qed.

Lemma keeps_touch id now : respects keeps_bound (TouchLastUsed id now).
Proof.
  apply respects_statement; [apply _|]. intros t Ht. simpl. intros k tok Hk.
  apply lookup_alter_Some in Hk as [(-> & old & Hold & ->)|[_ Hk]]; [|by apply Ht].
  exact (Ht k old Hold).
Qed.

#[export] Hint Resolve keeps_get keeps_list keeps_delete keeps_touch respects_db_step : respects.

Lemma touch_None id now s k : tables (touch id now s) !! k = None → tables s !! k = None.
Proof.
  unfold touch. destruct (TouchLastUsed id now s) as [r s'] eqn:E. apply exec_tables in E. simpl. rewrite E.
  destruct r; [by rewrite lookup_alter_None|done].
Qed.

Section calls.
  Context (IDKey : string → string → string).

Lemma keeps_mint raw salt req now :
    r_Kind req = Personal ∨ r_Kind req = Service →
    respects keeps_bound (MintToken IDKey raw salt req now).
Proof.
    intros Hk. unfold MintToken. apply respects_bind; [apply _|apply respects_db_step, keeps_get|].
    intros [old|]; [apply respects_err, _|].
    intros s r s' [((tok & sec) & s1 & E1 & E2)|(e & E1 & _)]%se_bind_inv; [|by injection E1 as _ <-].
    injection E1 as E1 <-. apply Mint_Ok in E1 as (_ & _ & _ & -> & _).
    revert E2. apply (respects_bind keeps_bound); [|intros _; apply respects_ret, _].
    apply respects_db_step, keeps_put. split; [done|]. simpl. intros kind [-> | ->] Heq; destruct Hk; congruence.
Qed.

Lemma keeps_issue raw salt kind tag now :
    kind = Device ∨ kind = Station → respects keeps_bound (IssueCredential IDKey raw salt kind tag now).
Proof.
    intros Hk s r s'. unfold IssueCredential, issueBound.
    intros [((tok & sec) & s1 & E1 & E2)|(e & E1 & _)]%se_bind_inv; [|by injection E1 as _ <-].
    injection E1 as E1 <-. apply Mint_Ok in E1 as (_ & _ & _ & -> & _).
    revert E2. apply (respects_bind keeps_bound); [|intros _; apply respects_ret, _].
    apply respects_db_step, keeps_put. split; [done|]. simpl. by intros k _ <-.
Qed.

Lemma keeps_revoke id : respects keeps_bound (RevokeToken id).
Proof.
    unfold RevokeToken. apply respects_bind; [apply _|apply respects_db_step, keeps_get|].
    intros [tok|]; [apply respects_db_step, keeps_delete|apply respects_err, _].
Qed.

Lemma authenticateBound_state secret kind now s r s' :
    authenticateBound IDKey secret kind now s = (r, s') → keeps_bound s s' ∧
    (∀ tag, r = Some tag → ∃ tok, tables s !! IDFromSecret secret = Some tok ∧ tok_Kind tok = kind ∧
       tok_Subject tok = tag ∧ Expired tok now = false ∧ Verify IDKey tok secret = true) ∧
    (∀ id, tables s' !! id = None → tables s !! id = None).
Proof.
    unfold authenticateBound. case_bool_decide; [intros [= <- <-]; split; [done|]; by split|].
    destruct (GetToken (IDFromSecret secret) s) as [r0 s1] eqn:E.
    pose proof (query_tables _ _ _ _ E) as [Ht Hq].
    assert (Hk : keeps_bound s s1) by (by unfold keeps_bound, tables_rel; rewrite Ht).
    destruct r0 as [[tok|]|]; try (intros [= <- <-]; rewrite Ht; by split).
    case_bool_decide as Hkind; simpl; [|intros [= <- <-]; rewrite Ht; by split].
    destruct (Expired tok now) eqn:Hexp; simpl; [intros [= <- <-]; rewrite Ht; by split|].
    destruct (Verify IDKey tok secret) eqn:Hv; simpl; [|intros [= <- <-]; rewrite Ht; by split].
    intros [= <- <-]. split; [|split].
    - etrans; [exact Hk|]. unfold touch. eapply keeps_touch. apply surjective_pairing.
    - intros tag [= <-]. exists tok. by rewrite <- (Hq _ eq_refl).
    - intros id. rewrite <- Ht. apply touch_None.
Qed.

Lemma revoke_orphans_keeps known toks n s n' s' :
    revoke_orphans known toks n s = (n', s') → keeps_bound s s'.
Proof.
    revert n s. induction toks as [|t toks IH]; intros n s; simpl; [by intros [= _ <-]|].
    case_bool_decide; [apply IH|]. destruct (DeleteToken (tok_ID t) s) as [[u|e] s1] eqn:E;
      intros E2%IH; (etrans; [by eapply keeps_delete|done]).
Qed.

  (** A call of the services, from any caller the console gives them: operators
      mint personal and service tokens only. *)
Inductive cred_step : relation (Pg TokenTable) :=
    | cs_mint raw salt req now s r s' : r_Kind req = Personal ∨ r_Kind req = Service →
        MintToken IDKey raw salt req now s = (r, s') → cred_step s s'
    | cs_issue raw salt kind tag now s r s' : kind = Device ∨ kind = Station →
        IssueCredential IDKey raw salt kind tag now s = (r, s') → cred_step s s'
    | cs_revoke id s r s' : RevokeToken id s = (r, s') → cred_step s s'
    | cs_unenrol kind tag s r s' : RevokeCredential kind tag s = (r, s') → cred_step s s'
    | cs_auth dir secret now s r s' : Authenticate IDKey dir secret now s = (r, s') → cred_step s s'
    | cs_bound kind secret tag now s r s' : AuthenticateTag IDKey kind secret tag now s = (r, s') → cred_step s s'
    | cs_reconcile known s r s' : ReconcileWithFleet known s = (r, s') → cred_step s s'.

Lemma Authenticate_state dir secret now s r s' :
    Authenticate IDKey dir secret now s = (r, s') → keeps_bound s s' ∧
    (∀ p, r = Some p → ∃ tok, tables s !! IDFromSecret secret = Some tok ∧
       tok_Kind tok ≠ Device ∧ tok_Kind tok ≠ Station ∧ Expired tok now = false ∧
       Verify IDKey tok secret = true ∧ p = principal dir tok).
Proof.
    unfold Authenticate. case_bool_decide; [intros [= <- <-]; by split|].
    destruct (GetToken (IDFromSecret secret) s) as [r0 s1] eqn:E.
    pose proof (query_tables _ _ _ _ E) as [Ht Hq].
    assert (Hk : keeps_bound s s1) by (by unfold keeps_bound, tables_rel; rewrite Ht).
    destruct r0 as [[tok|]|]; try (intros [= <- <-]; by split).
    destruct ((tok_Kind tok ==? Device) || (tok_Kind tok ==? Station)) eqn:Hkind; [intros [= <- <-]; by split|].
    destruct (Expired tok now || negb (Verify IDKey tok secret)) eqn:Hv; [intros [= <- <-]; by split|].
    intros [= <- <-]. split.
    - etrans; [exact Hk|]. unfold touch. eapply keeps_touch. apply surjective_pairing.
    - intros p [= <-]. exists tok. rewrite <- (Hq _ eq_refl).
      apply orb_false_iff in Hkind as [K1%bool_decide_eq_false K2%bool_decide_eq_false].
      apply orb_false_iff in Hv as [V1 V2%negb_false_iff]. done.
Qed.

Lemma cred_step_keeps s s' : cred_step s s' → keeps_bound s s'.
Proof.
    intros Hs. destruct Hs as [raw salt req now s r s' Hk E|raw salt kind tag now s r s' Hk E|id s r s' E
      |kind tag s r s' E|dir secret now s r s' E|kind secret tag now s r s' E|known s r s' E].
    - by eapply keeps_mint.
    - by eapply keeps_issue.
    - by eapply keeps_revoke.
    - by eapply keeps_delete.
    - by apply Authenticate_state in E as [? _].
    - unfold AuthenticateTag in E. destruct (authenticateBound IDKey secret kind now s) as [o s1] eqn:E1.
      injection E as _ <-. by apply authenticateBound_state in E1 as [? _].
    - unfold ReconcileWithFleet in E. case_bool_decide; [by injection E as _ <-|].
      apply se_bind_inv in E as [(toks & s1 & E1 & E2)|(e & E1 & _)]; [|by eapply keeps_list].
      destruct (revoke_orphans known toks 0 s1) as [n s2] eqn:E3. injection E2 as _ <-.
      etrans; [by eapply keeps_list|by eapply revoke_orphans_keeps].
Qed.

Lemma cred_reachable o s : rtc cred_step (mkPg ∅ o) s → bound_ok (tables s).
Proof.
    intros Hs. assert (Hk : keeps_bound (mkPg ∅ o) s).
    { induction Hs as [|a b c Hab _ IH]; [done|]. etrans; [by apply cred_step_keeps|done]. }
    apply Hk. simpl. apply map_Forall_empty.
Qed.

  (** C27. Only a machine's own credential speaks for it.  In every table the
      services can produce, and under any outage of the database, a check-in or a
      station report is accepted for a tag only on the unexpired, verified
      credential filed under that tag, or on the shared bridge token while the
      tag has no credential at all; so a leaked credential is good for one
      machine, and the bridge cannot downgrade a machine that has one. *)
Theorem only_its_credential_speaks o s kind shared secret tag now s' :
    rtc cred_step (mkPg ∅ o) s → kind = Device ∨ kind = Station → tag ≠ "" →
    authorized IDKey kind true shared secret tag now s = (true, s') →
    (∃ tok, tables s !! bound_id kind tag = Some tok ∧ IDFromSecret secret = bound_id kind tag ∧
       tok_Kind tok = kind ∧ tok_Subject tok = tag ∧ Expired tok now = false ∧ Verify IDKey tok secret = true) ∨
    (shared ≠ "" ∧ secret = shared ∧ tables s !! bound_id kind tag = None).
Proof.
    intros Hok%cred_reachable Hkind Htag. unfold authorized. rewrite bool_decide_eq_false_2 by done. simpl.
    unfold AuthenticateTag. destruct (authenticateBound IDKey secret kind now s) as [r s1] eqn:E.
    apply authenticateBound_state in E as (_ & Hsome & Hnone).
    destruct (match r with Some t => t ==? tag | None => false end) eqn:Hm.
    - destruct r as [t|]; [|done]. apply bool_decide_eq_true in Hm. subst t. intros _. left.
      destruct (Hsome tag eq_refl) as (tok & Hl & Hk & Hsub & Hx & Hv).
      destruct (Hok _ _ Hl) as [_ Hb]. specialize (Hb kind Hkind Hk). rewrite Hsub in Hb.
      exists tok. by rewrite <- Hb.
    - intros Hbr. right.
      destruct ((shared ==? "") || (secret !=? shared)) eqn:Hsh; [done|].
      apply orb_false_iff in Hsh as [S1%bool_decide_eq_false S2%negb_false_iff].
      apply bool_decide_eq_true in S2. split; [done|]. split; [done|].
      unfold HasCredential in Hbr. destruct (se_bind (GetToken (bound_id kind tag)) _ s1) as [[has|e] s2] eqn:E2; [|done].
      apply se_bind_inv in E2 as [(o' & s3 & E3 & E4)|(e & _ & ?)]; [|done]. injection E4 as <- <-.
      apply query_tables in E3 as [_ Hq]. specialize (Hq _ eq_refl). subst o'.
      injection Hbr as Hh _. apply negb_true_iff, bool_decide_eq_false in Hh.
      by apply eq_None_not_Some, Hnone in Hh.
Qed.

  (** ** The life of a credential *)

Lemma live_get id s : outages s = [] → GetToken id s = (Ok (tables s !! id), s).
Proof. intros Ho. unfold GetToken, query, statement. rewrite Ho. destruct s; simpl in *; by subst. Qed.

Lemma live_put tok s : outages s = [] → PutToken tok s = (Ok tt, live (put_token tok (tables s))).
Proof. intros Ho. unfold PutToken, exec, statement. by rewrite Ho. Qed.

Lemma live_delete id s : outages s = [] → DeleteToken id s = (Ok tt, live (delete id (tables s))).
Proof. intros Ho. unfold DeleteToken, exec, statement. by rewrite Ho. Qed.

Lemma live_bound secret kind now s :
    outages s = [] →
    (authenticateBound IDKey secret kind now s).1 =
    if IDFromSecret secret ==? "" then None else
    tok ← tables s !! IDFromSecret secret;
    if (tok_Kind tok ==? kind) && negb (Expired tok now) && Verify IDKey tok secret then Some (tok_Subject tok) else None.
Proof.
    intros Ho. unfold authenticateBound. case_bool_decide; [done|]. rewrite live_get by done.
    destruct (tables s !! IDFromSecret secret) as [tok|]; [|done]. simpl.
    destruct (tok_Kind tok ==? kind), (Expired tok now), (Verify IDKey tok secret); done.
Qed.

Lemma AuthenticateTag_fst kind secret tag now s :
    (AuthenticateTag IDKey kind secret tag now s).1 = ((authenticateBound IDKey secret kind now s).1 ==? Some tag).
Proof.
    unfold AuthenticateTag. destruct (authenticateBound IDKey secret kind now s) as [[t|] s1]; simpl; [|done].
    apply bool_decide_ext. split; [by intros ->|by intros [=]].
Qed.

Lemma issue_Ok raw salt kind tag now s secret s' :
    outages s = [] → IssueCredential IDKey raw salt kind tag now s = (Ok secret, s') →
    ∃ tok, tables s' !! bound_id kind tag = Some tok ∧ outages s' = [] ∧ IDFromSecret secret = bound_id kind tag ∧
      bound_id kind tag ≠ "" ∧ tok_Kind tok = kind ∧ tok_Subject tok = tag ∧ Expires tok = now + boundCredTTL ∧
      tok_Hash tok = hashSecret IDKey salt secret.
Proof.
    intros Ho. unfold IssueCredential, issueBound.
    intros [((tok & sec) & s1 & E1 & E2)|(e & _ & ?)]%se_bind_inv; [|done].
    injection E1 as E1 <-. apply Mint_Ok in E1 as (Hid & _ & Hsec & -> & _).
    assert (Hfrom : IDFromSecret sec = bound_id kind tag) by (rewrite Hsec; by apply IDFromSecret_id).
    clear Hsec. revert E2. unfold se_bind, token_db, db_step. simpl.
    rewrite live_put by done. unfold put_token. simpl.
    assert (Hne : bound_id kind tag ≠ "") by (by destruct kind).
    destruct (tables s !! bound_id kind tag) as [old|]; intros [= <- <-]; simpl; rewrite lookup_insert_eq;
      eexists; (split; [reflexivity|]); simpl; repeat (split; [done|]); done.
Qed.

Lemma Verify_hash tok salt secret other :
    tok_Hash tok = hashSecret IDKey salt secret →
    Verify IDKey tok other = (IDKey other salt ==? IDKey secret salt).
Proof. intros Hh. unfold Verify. by rewrite Hh, decodeHash_hashSecret. Qed.

  (** The life of a bound credential.  Once issued, the secret authenticates
      its machine until five years have passed and not after, never another
      machine, and never the operator API; revoking it ends it, and so does
      issuing the next one, unless argon2id gives both secrets one key. *)
Theorem credential_life raw salt kind tag now s secret s' :
    outages s = [] → kind = Device ∨ kind = Station →
    IssueCredential IDKey raw salt kind tag now s = (Ok secret, s') →
    (∀ t other, (AuthenticateTag IDKey kind secret other t s').1 = true ↔ other = tag ∧ t < now + boundCredTTL) ∧
    (∀ dir t, (Authenticate IDKey dir secret t s').1 = None) ∧
    (∀ s2 t, RevokeCredential kind tag s' = (Ok tt, s2) → (AuthenticateTag IDKey kind secret tag t s2).1 = false) ∧
    (∀ raw2 salt2 now2 secret2 s2 t, IssueCredential IDKey raw2 salt2 kind tag now2 s' = (Ok secret2, s2) →
       IDKey secret salt2 ≠ IDKey secret2 salt2 → (AuthenticateTag IDKey kind secret tag t s2).1 = false).
Proof.
    intros Ho Hkind (tok & Hl & Ho' & Hid & Hne & Hk & Hsub & Hexp & Hhash)%issue_Ok; [|done].
    assert (Hbd : ∀ t, (authenticateBound IDKey secret kind t s').1 = if t <? now + boundCredTTL then Some tag else None).
    { intros t. rewrite live_bound, Hid by done. rewrite bool_decide_eq_false_2 by done. rewrite Hl. simpl.
      rewrite Hk, bool_decide_eq_true_2, (Verify_hash _ _ _ _ Hhash), bool_decide_eq_true_2 by done.
      unfold Expired. rewrite Hexp, negb_involutive, Hsub. by destruct (t <? now + boundCredTTL). }
    split; [|split; [|split]].
    - intros t other. rewrite AuthenticateTag_fst, Hbd, bool_decide_eq_true.
      destruct (Z.ltb_spec t (now + boundCredTTL)); [split; [by intros [= ->]|by intros [-> _]]|].
      split; [done|lia].
    - intros dir t. destruct (Authenticate IDKey dir secret t s') as [r s2] eqn:E.
      apply Authenticate_state in E as [_ Hp]. destruct r as [p|]; [|done].
      destruct (Hp p eq_refl) as (tok' & Hl' & K1 & K2 & _). rewrite Hid, Hl in Hl'. injection Hl' as <-.
      rewrite Hk in K1, K2. by destruct Hkind.
    - intros s2 t E. unfold RevokeCredential in E. rewrite live_delete in E by done. injection E as <-.
      rewrite AuthenticateTag_fst, live_bound, Hid by done. rewrite (bool_decide_eq_false_2 _ Hne). simpl.
      by rewrite lookup_delete_eq.
    - intros raw2 salt2 now2 secret2 s2 t (tok2 & Hl2 & Ho2 & _ & _ & Hk2 & _ & _ & Hh2)%issue_Ok Hdiff; [|done].
      rewrite AuthenticateTag_fst, live_bound, Hid by done. rewrite (bool_decide_eq_false_2 _ Hne). rewrite Hl2. simpl.
      rewrite (Verify_hash _ _ _ _ Hh2), (bool_decide_eq_false_2 _ Hdiff), andb_false_r. done.
Qed.
End calls.

(** ** Concrete machines *)

Definition demo_db : Pg TokenTable := (IssueCredential demo_key "first" "salt-1" Device "lab-1" 100 (live ∅)).2.

Lemma credential_life_witness :
  ∃ secret, IssueCredential demo_key "first" "salt-1" Device "lab-1" 100 (live ∅) = (Ok secret, demo_db) ∧
    (AuthenticateTag demo_key Device secret "lab-1" 200 demo_db).1 = true ∧
    (AuthenticateTag demo_key Device secret "lab-2" 200 demo_db).1 = false.
Proof.
  set (o := IssueCredential demo_key "first" "salt-1" Device "lab-1" 100 (live ∅)).
  assert (Ho : o.1 = Ok "sxt_device-lab-1_Zmlyc3Q") by (vm_compute; reflexivity).
  assert (E : o = (Ok "sxt_device-lab-1_Zmlyc3Q", demo_db))
    by (rewrite (surjective_pairing o); apply f_equal2; [exact Ho|reflexivity]).
  exists "sxt_device-lab-1_Zmlyc3Q". split; [exact E|].
  destruct (credential_life demo_key "first" "salt-1" Device "lab-1" 100 (live ∅) _ demo_db eq_refl (or_introl eq_refl) E)
    as (Hauth & _). split.
  - apply Hauth. split; [reflexivity|]. vm_compute. reflexivity.
  - apply not_true_is_false. intros H%Hauth. destruct H as [H _]. discriminate.
Defined.

Lemma only_its_credential_speaks_witness :
  (∃ tok, tables demo_db !! bound_id Device "lab-1" = Some tok ∧ tok_Kind tok = Device ∧
     Verify demo_key tok "sxt_device-lab-1_Zmlyc3Q" = true) ∨ tables demo_db !! bound_id Device "lab-1" = None.
Proof.
  set (a := authorized demo_key Device true "bridge" "sxt_device-lab-1_Zmlyc3Q" "lab-1" 200 demo_db).
  assert (E : a = (true, a.2)) by (rewrite (surjective_pairing a) at 1; apply f_equal2; [vm_compute; reflexivity|reflexivity]).
  destruct (only_its_credential_speaks demo_key [] demo_db Device "bridge" "sxt_device-lab-1_Zmlyc3Q" "lab-1" 200 a.2)
    as [(tok & Hl & _ & Hk & _ & _ & Hv)|(_ & Hs & _)].
  - apply rtc_once. eapply (cs_issue demo_key "first" "salt-1" Device "lab-1" 100 (live ∅)); [by left|].
    apply surjective_pairing.
  - by left.
  - discriminate.
  - exact E.
  - left. by exists tok.
  - discriminate.
Defined.

(** An operator may name a personal token like the credential of a machine that
    has none yet: the machine, still on the bridge, is then refused. *)
Theorem squatted_id_blocks_the_bridge :
  let req := mkMintRequest "device-lab-1" "mine" Personal "u1" [] "" 0 in
  let s := (MintToken demo_key "raw" "salt" req 100 (live ∅)).2 in
  (authorized demo_key Device true "bridge" "bridge" "lab-1" 200 (live ∅)).1 = true ∧
  (authorized demo_key Device true "bridge" "bridge" "lab-1" 200 s).1 = false.
Proof. split; vm_compute; reflexivity. Qed.

(** ** The sweep *)

Definition orphan (known : list string) (tok : Token) : bool := negb (tok_Subject tok ∈? known).

Lemma revoke_orphans_lookup known toks n s id :
  outages s = [] →
  let '(_, s') := revoke_orphans known toks n s in
  outages s' = [] ∧
  tables s' !! id = if existsb (λ tok, orphan known tok && (tok_ID tok ==? id)) toks then None else tables s !! id.
Proof.
  revert n s. induction toks as [|tok toks IH]; intros n s Ho; simpl; [done|]. unfold orphan at 1.
  destruct (tok_Subject tok ∈? known); simpl; [by apply IH|].
  rewrite live_delete by done. specialize (IH (n + 1) (live (delete (tok_ID tok) (tables s))) eq_refl).
  destruct (revoke_orphans known toks (n + 1) _) as [n' s']. destruct IH as [Ho' Hl]. split; [done|].
  rewrite Hl. simpl. case_bool_decide as Hid; simpl.
  - subst id. rewrite lookup_delete_eq. by destruct (existsb _ toks).
  - by rewrite lookup_delete_ne.
Qed.

(** The sweep at startup revokes the orphans and nothing else.  Against a
    fleet document that lists some device, every device credential whose device
    is not in it is gone afterwards and every other record is as it was; against
    an empty document nothing happens. *)
Theorem reconcile_revokes_orphans known s r s' id :
  outages s = [] → map_Forall bound_row (tables s) →
  ReconcileWithFleet known s = (r, s') →
  is_ok r = true ∧
  tables s' !! id =
    (tok ← tables s !! id;
     if (known !=? []) && (tok_Kind tok ==? Device) && negb (tok_Subject tok ∈? known) then None else Some tok).
Proof.
  intros Ho Hb. unfold ReconcileWithFleet. destruct (known ==? []) eqn:Hkn.
  { intros [= <- <-]. split; [done|]. simpl. by destruct (tables s !! id). }
  unfold se_bind, ListByKind, query, statement. rewrite Ho. simpl.
  set (toks := tokens_where _ (tables s)).
  pose proof (revoke_orphans_lookup known toks 0 (mkPg (tables s) []) id eq_refl) as Hl.
  destruct (revoke_orphans known toks 0 _) as [n s2]. destruct Hl as [_ Hl]. intros [= <- <-]. split; [done|].
  rewrite Hl. simpl. clear Hl.
  assert (Htoks : ∀ tok, tok ∈ toks ↔ tok_Kind tok = Device ∧ tables s !! tok_ID tok = Some tok).
  { intros tok. subst toks. unfold tokens_where. rewrite elem_of_order_by_desc, elem_of_keep_if, list_elem_of_fmap.
    rewrite bool_decide_eq_true. split.
    - intros [([k tok'] & -> & Hin%elem_of_map_to_list) Hk]. simpl in *. split; [done|].
      by rewrite (proj1 (Hb k tok' Hin)).
    - intros [Hk Hin]. split; [|done]. exists (tok_ID tok, tok). split; [done|]. by apply elem_of_map_to_list. }
  destruct (existsb _ toks) eqn:Hex.
  - apply existsb_exists in Hex as (tok & Hin%list_elem_of_In & [Ho1 Hid%bool_decide_eq_true]%andb_true_iff).
    apply Htoks in Hin as [Hk Hl]. rewrite Hid in Hl. rewrite Hl. simpl. rewrite bool_decide_eq_true_2 by done.
    unfold orphan in Ho1. by rewrite Ho1.
  - destruct (tables s !! id) as [tok|] eqn:Hl; [|done]. simpl.
    destruct (tok_Kind tok ==? Device) eqn:Hk; simpl; [apply bool_decide_eq_true in Hk|done].
    destruct (tok_Subject tok ∈? known) eqn:Hs; simpl; [done|].
    apply not_true_iff_false in Hex. destruct Hex. apply existsb_exists. exists tok.
    pose proof (proj1 (Hb id tok Hl)) as Hid. split.
    + apply list_elem_of_In, Htoks. by rewrite Hid.
    + unfold orphan. rewrite Hs. simpl. by apply bool_decide_eq_true.
Qed.

Lemma reconcile_revokes_orphans_witness :
  tables (ReconcileWithFleet ["lab-2"] demo_db).2 !! "device-lab-1" = None ∧
  is_Some (tables demo_db !! "device-lab-1").
Proof.
  split; [|apply (bool_decide_eq_true_1 (is_Some (tables demo_db !! "device-lab-1"))); vm_compute; reflexivity].
  destruct (reconcile_revokes_orphans ["lab-2"] demo_db (ReconcileWithFleet ["lab-2"] demo_db).1
              (ReconcileWithFleet ["lab-2"] demo_db).2 "device-lab-1") as [_ Hl].
  - reflexivity.
  - assert (Hb : bound_ok (tables demo_db)).
    { apply (cred_reachable demo_key []). apply rtc_once.
      eapply (cs_issue demo_key "first" "salt-1" Device "lab-1" 100 (live ∅)); [by left|]. apply surjective_pairing. }
    exact Hb.
  - apply surjective_pairing.
  - rewrite Hl. vm_compute. reflexivity.
Defined.
