(* ===== verification/Elevation.v ===== *)
(** * Elevation requests (src/internal/domain/elevation/elevation.go,
      src/internal/app/elevation.go, src/internal/adapters/postgres/elevation.go)

    A device asks, an administrator answers, the device polls.  The store keeps
    facts, the state is computed from them and the clock; answering is a read and
    a write, which other answers may come between. *)

From S2P Require Import Prelude GoLib FleetModel Sql Text Notify.

(** ** The domain *)

(** A Go [State] is a string: the four constants, or any other text. *)
Inductive ElState := ElPending | ElApproved | ElDenied | ElExpired | ElOther (s : string).

#[export] Instance ElState_eq_dec : EqDecision ElState.
Proof. solve_decision. Defined.

Definition TTL : Z := 5 * Minute.

Record Request := mkRequest {
  el_ID : string; el_Tag : string; el_User : string; el_Action : string; el_Reason : string;
  el_State : ElState; el_Created : Time; Decided : Time; DecidedBy : string
}.
#[export] Instance Request_eta : Eta Request := λ r,
  mkRequest (el_ID r) (el_Tag r) (el_User r) (el_Action r) (el_Reason r) (el_State r) (el_Created r)
    (Decided r) (DecidedBy r).

Inductive ElErr :=
  | NoID | NoDevice | NoUser | NoCreation
  | AlreadyAnswered (s : ElState) | NoApprover | NoSuchRequest | ElDb (e : DbErr).

Definition ValidRequest (r : Request) : option ElErr :=
  if trim_space (el_ID r) ==? "" then Some NoID
  else if trim_space (el_Tag r) ==? "" then Some NoDevice
  else if trim_space (el_User r) ==? "" then Some NoUser
  else if el_Created r ==? 0 then Some NoCreation else None.

Definition Resolve (r : Request) (now : Time) : ElState :=
  if el_State r !=? ElPending then el_State r
  else if TTL <=? time_sub now (el_Created r) then ElExpired else ElPending.

Definition Grants (r : Request) (now : Time) : bool :=
  (el_State r ==? ElApproved) && (Decided r !=? 0)
  && (time_sub (Decided r) (el_Created r) <? TTL) && (time_sub now (el_Created r) <? TTL).

Definition Decide (r : Request) (approve : bool) (by_ : string) (now : Time) : res ElErr Request :=
  let s := Resolve r now in
  refuse s !=? ElPending with AlreadyAnswered s;
  refuse trim_space by_ ==? "" with NoApprover;
  Ok (r <| el_State := if approve then ElApproved else ElDenied |> <| Decided := now |> <| DecidedBy := by_ |>).

Definition Waited (r : Request) (now : Time) : Z :=
  if Decided r !=? 0 then time_sub (Decided r) (el_Created r)
  else let d := time_sub now (el_Created r) in if d <? TTL then d else TTL.

(** ** The elevation_requests table of a tenant *)

Record ElRow := mkElRow {
  er_id : string; er_tag : string; er_user : string; er_action : string; er_reason : string;
  approved : option bool; er_created : Time; decided_at : option Time; decided_by : string
}.
#[export] Instance ElRow_eta : Eta ElRow := λ r,
  mkElRow (er_id r) (er_tag r) (er_user r) (er_action r) (er_reason r) (approved r) (er_created r)
    (decided_at r) (decided_by r).

Notation ElTable := (gmap string ElRow).

(** The values [Put] binds. *)
Definition row_of (r : Request) : ElRow :=
  let decided := match el_State r with ElApproved | ElDenied => true | _ => false end in
  mkElRow (el_ID r) (el_Tag r) (el_User r) (el_Action r) (el_Reason r)
    (if decided then Some (el_State r ==? ElApproved) else None) (el_Created r)
    (if decided then Some (Decided r) else None) (DecidedBy r).

Definition put_request (r : Request) (t : ElTable) : ElTable :=
  match t !! el_ID r with
  | Some old => <[el_ID r := old <| approved := approved (row_of r) |> <| decided_at := decided_at (row_of r) |>
                                 <| decided_by := decided_by (row_of r) |>]> t
  | None => <[el_ID r := row_of r]> t
  end.
Definition PutRequest (r : Request) : SE (Pg ElTable) DbErr unit := exec (put_request r).

(** The state is reconstructed from the facts. *)
Definition scanElevation (row : ElRow) : Request :=
  let r := mkRequest (er_id row) (er_tag row) (er_user row) (er_action row) (er_reason row)
             ElPending (er_created row) 0 (decided_by row) in
  match decided_at row with
  | None => r
  | Some d => r <| Decided := d |>
                <| el_State := match approved row with Some true => ElApproved | _ => ElDenied end |>
  end.

Definition GetRequest (id : string) : SE (Pg ElTable) DbErr (option Request) :=
  query (λ t, scanElevation <$> t !! id).

Definition undecided (t : ElTable) : list Request :=
  map scanElevation (order_by er_created (keep_if (λ row, bool_decide (decided_at row = None)) (map snd (map_to_list t)))).
Definition PendingRequests : SE (Pg ElTable) DbErr (list Request) := query undecided.

(** ** The service *)

Definition trimTo (s : string) (n : nat) : string :=
  let s := trim_space s in
  if (n <? String.length s)%nat then String.substring 0 n s else s.

Definition reasonOrNone (reason : string) : string :=
  if trim_space reason ==? "" then "no reason given" else reason.

(** The notifier and the approver groups. *)
Record ElEnv := mkElEnv { el_notify : option NotifyEnv; approvers : list string }.

Definition ask_note (r : Request) (g : string) : Notification :=
  to_audience g ElevationRequested (el_User r +:+ " needs approval on " +:+ el_Tag r)
    (el_Action r +:+ " (" +:+ reasonOrNone (el_Reason r) +:+ "). Expires in 5m0s.") "/elevation".

Definition announce (ee : ElEnv) (r : Request) (b : Bell) : Bell :=
  match el_notify ee with
  | None => b
  | Some ne => emit_each ne (map (ask_note r) (approvers ee)) b
  end.

Record El := mkEl { el_db : Pg ElTable; el_bell : Bell }.
#[export] Instance El_eta : Eta El := λ s, mkEl (el_db s) (el_bell s).

Definition on_db {A} (m : SE (Pg ElTable) DbErr A) : SE El ElErr A := λ s,
  let '(r, db) := m (el_db s) in
  (match r with Ok a => Ok a | Err e => Err (ElDb e) end, s <| el_db := db |>).

(** [Raise], with the random id it drew. *)
Definition Raise (ee : ElEnv) (id tag user action reason : string) (now : Time) : SE El ElErr Request :=
  let r := mkRequest id (trim_space tag) (trim_space user) (trimTo action 200) (trimTo reason 500) ElPending now 0 "" in
  match ValidRequest r with
  | Some e => se_err e
  | None =>
      run! on_db (PutRequest r);
      run! se_modify (λ s, s <| el_bell ::= announce ee r |>);
      se_ret r
  end.

Definition Poll (tag id : string) (now : Time) : SE El ElErr (option Request) :=
  do! r <- on_db (GetRequest id);
  match r with
  | Some r => if el_Tag r !=? tag then se_ret None else se_ret (Some (r <| el_State := Resolve r now |>))
  | None => se_ret None
  end.

Definition PendingQueue (now : Time) : SE El ElErr (list Request) :=
  do! all_ <- on_db PendingRequests;
  se_ret (keep_if (λ r, Resolve r now ==? ElPending) all_).

(** [Decide] of the service: up to its write, and the write. *)
Definition decide_read (id : string) (approve : bool) (by_ : string) (now : Time) : SE El ElErr Request :=
  do! r <- on_db (GetRequest id);
  match r with
  | None => se_err NoSuchRequest
  | Some r => se_lift (Decide r approve by_ now)
  end.

Definition DecideRequest (id : string) (approve : bool) (by_ : string) (now : Time) : SE El ElErr Request :=
  do! decided <- decide_read id approve by_ now;
  run! on_db (PutRequest decided);
  se_ret decided.

(** ** Answers that run at the same time *)

(** A verdict an administrator gave and the domain accepted. *)
Record Verdict := mkVerdict { v_id : string; v_approve : bool; v_by : string; v_at : Time }.

(** The service, the answers read and not written yet, and the verdicts so far. *)
Record ElWorld := mkElWorld { ew_svc : El; ew_flight : list Request; verdicts : list Verdict }.

Inductive el_step : ElWorld → ElWorld → Prop :=
  | es_raise w ee id tag user action reason now r s :
      Raise ee id tag user action reason now (ew_svc w) = (r, s) → el_step w (mkElWorld s (ew_flight w) (verdicts w))
  | es_read w id approve by_ now r s :
      decide_read id approve by_ now (ew_svc w) = (r, s) →
      el_step w (match r with
                 | Ok d => mkElWorld s (d :: ew_flight w) (mkVerdict id approve by_ now :: verdicts w)
                 | Err _ => mkElWorld s (ew_flight w) (verdicts w)
                 end)
  | es_write w l1 d l2 r s :
      ew_flight w = l1 ++ d :: l2 → on_db (PutRequest d) (ew_svc w) = (r, s) →
      el_step w (mkElWorld s (l1 ++ l2) (verdicts w))
  | es_poll w tag id now r s : Poll tag id now (ew_svc w) = (r, s) → el_step w (mkElWorld s (ew_flight w) (verdicts w))
  | es_queue w now r s : PendingQueue now (ew_svc w) = (r, s) → el_step w (mkElWorld s (ew_flight w) (verdicts w)).

(** ** The store keeps what the service writes *)

(** A request as the service writes it: a decision has its instant. *)
Definition storable (r : Request) : Prop :=
  (el_State r = ElPending ∧ Decided r = 0) ∨ el_State r = ElApproved ∨ el_State r = ElDenied.

Lemma scan_row_of r : storable r → scanElevation (row_of r) = r.
Proof. destruct r as [id tag user action reason st cr d by_]. by intros [[? ?]|[?|?]]; simpl in *; subst. Qed.

(** ** Soundness of a grant *)

Definition approved_by (vs : list Verdict) (id by_ : string) (created at_ : Time) : Prop :=
  mkVerdict id true by_ at_ ∈ vs ∧ at_ - created < TTL ∧ trim_space by_ ≠ "".

Definition row_sound (vs : list Verdict) (id : string) (row : ElRow) : Prop :=
  er_id row = id ∧
  (approved row = Some true → ∃ d, decided_at row = Some d ∧ approved_by vs id (decided_by row) (er_created row) d).

(** An answer in flight was read from a row that is still there. *)
Definition flight_sound (vs : list Verdict) (t : ElTable) (d : Request) : Prop :=
  (∃ row, t !! el_ID d = Some row ∧ er_created row = el_Created d) ∧
  (el_State d = ElApproved ∨ el_State d = ElDenied) ∧
  (el_State d = ElApproved → approved_by vs (el_ID d) (DecidedBy d) (el_Created d) (Decided d)).

Definition el_ok (w : ElWorld) : Prop :=
  map_Forall (row_sound (verdicts w)) (tables (el_db (ew_svc w))) ∧
  Forall (flight_sound (verdicts w) (tables (el_db (ew_svc w)))) (ew_flight w).

Lemma row_sound_mono v vs id row : row_sound vs id row → row_sound (v :: vs) id row.
Proof.
  intros [Hid Ha]. split; [done|]. intros (d & Hd & Hv & Hr)%Ha. exists d. split; [done|].
  split; [by right|done].
Qed.

Lemma flight_sound_mono v vs t d : flight_sound vs t d → flight_sound (v :: vs) t d.
Proof. intros (Hr & Hs & Ha). split; [done|]. split; [done|]. intros (Hv & Hrest)%Ha. split; [by right|done]. Qed.

Definition created_kept (t t' : ElTable) : Prop :=
  ∀ id row, t !! id = Some row → ∃ row', t' !! id = Some row' ∧ er_created row' = er_created row.

Lemma put_request_kept r t : created_kept t (put_request r t).
Proof.
  intros id row Hrow. unfold put_request. destruct (t !! el_ID r) as [old|] eqn:Hold.
  - destruct (decide (id = el_ID r)) as [->|Hne].
    + rewrite lookup_insert_eq. eexists. split; [done|]. simpl. congruence.
    + rewrite lookup_insert_ne by done. eauto.
  - rewrite lookup_insert_ne by congruence. eauto.
Qed.

Lemma flight_sound_kept vs t t' d : created_kept t t' → flight_sound vs t d → flight_sound vs t' d.
Proof.
  intros Hk [(row & Hrow & Hc) Hrest]. split; [|done]. destruct (Hk _ _ Hrow) as (row' & Hrow' & Hc').
  exists row'. split; [done|congruence].
Qed.

(** Writing a new request, or an answer that was in flight. *)
Lemma put_request_sound vs r t :
  map_Forall (row_sound vs) t →
  el_State r = ElPending ∨ flight_sound vs t r →
  map_Forall (row_sound vs) (put_request r t).
Proof.
  intros Ht Hr. unfold put_request. destruct (t !! el_ID r) as [old|] eqn:Hold; apply map_Forall_insert_2; try done.
  - split; [exact (proj1 (Ht _ _ Hold))|]. simpl. destruct Hr as [Hp|((row & Hrow & Hc) & Hst & Ha)].
    + by rewrite Hp.
    + rewrite Hrow in Hold. injection Hold as <-.
      destruct Hst as [Hs|Hs]; rewrite Hs; simpl; [|done]. intros _. exists (Decided r). split; [done|].
      rewrite Hc. by apply Ha.
  - split; [done|]. simpl. destruct Hr as [Hp|((row & Hrow & _) & _)]; [by rewrite Hp|congruence].
Qed.

Lemma on_db_inv {A} (m : SE (Pg ElTable) DbErr A) s r s' :
  on_db m s = (r, s') → ∃ r0, m (el_db s) = (r0, el_db s') ∧ el_bell s' = el_bell s ∧
    r = match r0 with Ok a => Ok a | Err e => Err (ElDb e) end.
Proof. unfold on_db. destruct (m (el_db s)) as [r0 db] eqn:E. intros [= <- <-]. eauto. Qed.

Lemma put_inv r s o s' :
  on_db (PutRequest r) s = (o, s') →
  tables (el_db s') = match o with Ok _ => put_request r (tables (el_db s)) | Err _ => tables (el_db s) end.
Proof.
  intros (r0 & E & _ & ->)%on_db_inv. apply exec_tables in E. by destruct r0.
Qed.

Lemma get_inv id s o s' :
  on_db (GetRequest id) s = (o, s') →
  tables (el_db s') = tables (el_db s) ∧
  ∀ r, o = Ok r → r = scanElevation <$> tables (el_db s) !! id.
Proof.
  intros (r0 & E & _ & ->)%on_db_inv. apply query_tables in E as [Ht Hq]. split; [done|].
  destruct r0; [|done]. intros r [= <-]. by apply Hq.
Qed.

Lemma time_sub_lt a b : time_sub a b < TTL ↔ a - b < TTL.
Proof. unfold time_sub, TTL, Minute, Second, min_int64, max_int64. lia. Qed.

Lemma scan_id row : el_ID (scanElevation row) = er_id row ∧ el_Created (scanElevation row) = er_created row ∧
  el_Tag (scanElevation row) = er_tag row ∧ DecidedBy (scanElevation row) = decided_by row.
Proof. unfold scanElevation. by destruct (decided_at row). Qed.

(** What an accepted answer is. *)
Lemma decide_read_inv id approve by_ now s r s' :
  decide_read id approve by_ now s = (r, s') →
  tables (el_db s') = tables (el_db s) ∧
  ∀ d, r = Ok d → ∃ row, tables (el_db s) !! id = Some row ∧ el_ID d = er_id row ∧ el_Created d = er_created row ∧
    el_State d = (if approve then ElApproved else ElDenied) ∧ Decided d = now ∧ DecidedBy d = by_ ∧
    now - el_Created d < TTL ∧ trim_space by_ ≠ "" ∧ decided_at row = None.
Proof.
  unfold decide_read. intros [(o & s1 & E1 & E2)|(e & E1 & ->)]%se_bind_inv; apply get_inv in E1 as [Ht Hq]; [|by split].
  destruct o as [req|]; [|by injection E2 as <- <-; split]. injection E2 as E2 <-. split; [done|].
  intros d ->. specialize (Hq _ eq_refl). destruct (tables (el_db s) !! id) as [row|]; [|done].
  injection Hq as ->. exists row. split; [done|]. revert E2. unfold Decide.
  destruct (Resolve (scanElevation row) now !=? ElPending) eqn:Hr; [done|].
  destruct (trim_space by_ ==? "") eqn:Hby; [done|]. apply bool_decide_eq_false in Hby.
  intros [= <-]. simpl.
  apply negb_false_iff, bool_decide_eq_true in Hr. unfold Resolve in Hr.
  destruct (scan_id row) as (Hi & Hc & _ & _). rewrite Hi, Hc.
  destruct (el_State (scanElevation row) !=? ElPending) eqn:Hp.
  - apply negb_true_iff, bool_decide_eq_false in Hp. congruence.
  - apply negb_false_iff, bool_decide_eq_true in Hp. destruct (Z.leb_spec TTL (time_sub now (el_Created (scanElevation row)))) as [|Hlt]; [done|].
    rewrite Hc, time_sub_lt in Hlt. split; [done|]. split; [done|]. split; [done|]. split; [done|].
    split; [done|]. split; [done|]. split; [done|]. unfold scanElevation in Hp.
    destruct (decided_at row); [|done]. simpl in Hp. by destruct (approved row) as [[]|].
Qed.

Lemma el_step_ok w w' : el_step w w' → el_ok w → el_ok w'.
Proof.
  intros Hs [Hr Hf]. destruct Hs as [w ee id tag user action reason now r s E|w id ap by_ now r s E|w l1 d l2 r s Hfl E
    |w tag id now r s E|w now r s E]; unfold el_ok; simpl.
  - unfold Raise in E. destruct (ValidRequest _); [by injection E as _ <-|].
    set (q := mkRequest _ _ _ _ _ _ _ _ _) in E.
    apply se_bind_inv in E as [(u & s1 & E1 & E2)|(e & E1 & _)]; apply put_inv in E1.
    + injection E2 as _ <-. simpl. rewrite E1. split; [by apply put_request_sound; [|left]|].
      eapply Forall_impl; [exact Hf|]. intros d Hd. eapply flight_sound_kept; [apply put_request_kept|done].
    + by rewrite E1.
  - apply decide_read_inv in E as [Ht Hd]. destruct r as [d|e]; simpl; rewrite Ht; [|done].
    destruct (Hd d eq_refl) as (row & Hrow & Hid & Hc & Hst & Hat & Hby & Hlt & Htr & _).
    pose proof (proj1 (Hr _ _ Hrow)) as Hrid. split.
    + eapply map_Forall_impl; [exact Hr|]. intros. by apply row_sound_mono.
    + constructor; [|eapply Forall_impl; [exact Hf|]; intros; by apply flight_sound_mono].
      split; [exists row; split; [by rewrite Hid, Hrid|done]|].
      split; [rewrite Hst; destruct ap; by auto|]. intros Happ. rewrite Happ in Hst. destruct ap; [|done].
      split; [rewrite Hid, Hrid, Hby, Hat; left|]. by rewrite Hat, Hby.
  - rewrite Hfl in Hf. apply Forall_app in Hf as [Hf1 Hf2]. apply Forall_cons in Hf2 as [Hd Hf2].
    apply put_inv in E. rewrite E. destruct r; [|split; [done|by apply Forall_app]].
    split; [by apply put_request_sound; [|right]|].
    apply Forall_app; split; (eapply Forall_impl; [eassumption|]; intros x Hx;
      eapply flight_sound_kept; [apply put_request_kept|done]).
  - unfold Poll in E. apply se_bind_inv in E as [(o & s1 & E1 & E2)|(e & E1 & _)]; apply get_inv in E1 as [Ht _].
    + destruct o as [q|]; [destruct (el_Tag q !=? tag)|]; injection E2 as _ <-; by rewrite Ht.
    + by rewrite Ht.
  - unfold PendingQueue in E. apply se_bind_inv in E as [(o & s1 & E1 & E2)|(e & E1 & _)];
      apply on_db_inv in E1 as (r0 & E1 & _); apply query_tables in E1 as [Ht _].
    + injection E2 as _ <-. by rewrite Ht.
    + by rewrite Ht.
Qed.

(** C32. A grant is an approval.  Whatever asks, answers, polls and outages come
    in whatever order, with the reads and writes of answers interleaved: when a
    device polls a request and the answer grants it, the request is the device's
    own, an administrator with a name approved exactly this request, within five
    minutes of the ask, and the five minutes are not over. *)
Theorem grant_has_an_approval o b w tag id now r s :
  rtc el_step (mkElWorld (mkEl (mkPg ∅ o) b) [] []) w →
  Poll tag id now (ew_svc w) = (Ok (Some r), s) → Grants r now = true →
  el_Tag r = tag ∧ el_ID r = id ∧
  mkVerdict id true (DecidedBy r) (Decided r) ∈ verdicts w ∧ trim_space (DecidedBy r) ≠ "" ∧
  Decided r - el_Created r < TTL ∧ now - el_Created r < TTL.
Proof.
  intros Hsteps Hpoll Hg.
  assert (Hok : el_ok w).
  { assert (Hok0 : el_ok (mkElWorld (mkEl (mkPg ∅ o) b) [] [])) by (split; [apply map_Forall_empty|constructor]).
    revert Hok0. clear Hpoll. induction Hsteps as [|x y z Hxy _ IH]; [done|].
    intros Hx. apply IH. by eapply el_step_ok. }
  destruct Hok as [Hrows _]. unfold Poll in Hpoll.
  apply se_bind_inv in Hpoll as [(q & s1 & E1 & E2)|(e & _ & ?)]; [|done].
  apply get_inv in E1 as [_ Hq]. specialize (Hq _ eq_refl).
  destruct q as [q|]; [|done]. destruct (tables (el_db (ew_svc w)) !! id) as [row|] eqn:Hrow; [|done].
  injection Hq as ->. destruct (el_Tag (scanElevation row) !=? tag) eqn:Htag; [done|]. injection E2 as <- _.
  apply negb_false_iff, bool_decide_eq_true in Htag. unfold Grants in Hg. simpl in *.
  rewrite !andb_true_iff in Hg. destruct Hg as [[[Hst _] H1%Z.ltb_lt%time_sub_lt] H2%Z.ltb_lt%time_sub_lt].
  apply bool_decide_eq_true in Hst. destruct (Hrows _ _ Hrow) as [Hid Ha].
  destruct (scan_id row) as (Hi & Hc & _ & Hb). rewrite Hi, Hb, Hc in *. split; [done|]. split; [done|].
  assert (Happ : approved row = Some true ∧ decided_at row = Some (Decided (scanElevation row))).
  { revert Hst. unfold Resolve, scanElevation. destruct (decided_at row) as [d|]; simpl.
    - destruct (approved row) as [[]|]; simpl; done.
    - by destruct (TTL <=? time_sub now (er_created row)). }
  destruct Happ as [Happ Hd]. destruct (Ha Happ) as (d & Hd' & Hv & Hlt & Htr).
  rewrite Hd in Hd'. injection Hd' as Hd'. rewrite Hd'. done.
Qed.

(** One after another, the second answer is refused. *)
Theorem answered_once id ap by_ now s d s' ap2 by2 now2 :
  outages (el_db s) = [] → map_Forall (λ k row, er_id row = k) (tables (el_db s)) →
  DecideRequest id ap by_ now s = (Ok d, s') →
  (DecideRequest id ap2 by2 now2 s').1 = Err (AlreadyAnswered (if ap then ElApproved else ElDenied)).
Proof.
  intros Ho Hkey. unfold DecideRequest at 1.
  intros [(d1 & s1 & E1 & E2)|(e & _ & ?)]%se_bind_inv; [|done].
  pose proof E1 as E1'. apply decide_read_inv in E1 as [Ht Hd].
  destruct (Hd d1 eq_refl) as (row & Hrow & Hid & Hc & Hst & _). rewrite (Hkey _ _ Hrow) in Hid.
  apply se_bind_inv in E2 as [(u & s2 & E2 & E3)|(e & _ & ?)]; [|done]. injection E3 as <- <-.
  assert (Ho2 : outages (el_db s2) = []).
  { revert E1' E2. unfold decide_read, se_bind, on_db, GetRequest, query, statement, PutRequest, exec.
    destruct s as [[t ou] be]. simpl in *. subst ou. destruct (t !! id) as [r0|]; simpl; [|done].
    unfold se_lift, statement. intros [= _ <-]. simpl. by intros [= _ <-]. }
  pose proof (put_inv _ _ _ _ E2) as Ht2. destruct u.
  assert (Hl : ∃ row2, tables (el_db s2) !! id = Some row2 ∧ el_State (scanElevation row2) = el_State d1).
  { rewrite Ht2, Ht. unfold put_request. rewrite Hid, Hrow, lookup_insert_eq. eexists. split; [done|].
    unfold scanElevation, row_of. simpl. rewrite Hst. by destruct ap. }
  destruct Hl as (row2 & Hl & Hs2).
  unfold DecideRequest, decide_read, se_bind, on_db, GetRequest, query, statement. rewrite Ho2. simpl. rewrite Hl. simpl.
  unfold se_lift, Decide, Resolve. rewrite Hs2, Hst. by destruct ap.
Qed.

(** ** Two administrators at once *)

Definition no_notify : ElEnv := mkElEnv None [].
Definition quiet : Bell := mkBell [] [] 0 (λ _, false).
Definition asked : El := (Raise no_notify "e1" "lt-1" "bbuijs" "wifi" "office" 1000 (mkEl (live ∅) quiet)).2.
Definition answer (approve : bool) (by_ : string) (now : Time) : res ElErr Request :=
  (decide_read "e1" approve by_ now asked).1.
Definition write_answer (o : res ElErr Request) (s : El) : El :=
  match o with Ok d => (on_db (PutRequest d) s).2 | Err _ => s end.
Definition granted (s : El) (now : Time) : option bool :=
  match (Poll "lt-1" "e1" now s).1 with Ok (Some r) => Some (Grants r now) | _ => None end.

Definition read_svc : El := (decide_read "e1" true "anna" 2000 asked).2.
Definition demo_decided : Request := mkRequest "e1" "lt-1" "bbuijs" "wifi" "office" ElApproved 1000 2000 "anna".
Definition demo_verdict : Verdict := mkVerdict "e1" true "anna" 2000.
Definition asked_world : ElWorld := mkElWorld asked [] [].
Definition read_world : ElWorld := mkElWorld read_svc [demo_decided] [demo_verdict].
Definition approved_world : ElWorld := mkElWorld (on_db (PutRequest demo_decided) read_svc).2 [] [demo_verdict].

Lemma answer_demo : answer true "anna" 2000 = Ok demo_decided.
Proof. vm_compute. reflexivity. Qed.

Lemma approved_reached : rtc el_step (mkElWorld (mkEl (live ∅) quiet) [] []) approved_world.
Proof.
  eapply rtc_l.
  { apply (es_raise (mkElWorld (mkEl (live ∅) quiet) [] []) no_notify "e1" "lt-1" "bbuijs" "wifi" "office" 1000
             (Raise no_notify "e1" "lt-1" "bbuijs" "wifi" "office" 1000 (mkEl (live ∅) quiet)).1 asked).
    apply surjective_pairing. }
  eapply rtc_l.
  { pose proof (es_read asked_world "e1" true "anna" 2000 (answer true "anna" 2000) read_svc (surjective_pairing _)) as Hs.
    rewrite answer_demo in Hs. exact Hs. }
  apply rtc_once.
  apply (es_write read_world [] demo_decided [] (on_db (PutRequest demo_decided) read_svc).1); [reflexivity|].
  apply surjective_pairing.
Qed.

Lemma grant_has_an_approval_witness :
  granted (ew_svc approved_world) 3000 = Some true ∧ mkVerdict "e1" true "anna" 2000 ∈ verdicts approved_world.
Proof.
  assert (Hp : (Poll "lt-1" "e1" 3000 (ew_svc approved_world)).1 = Ok (Some demo_decided)) by (vm_compute; reflexivity).
  assert (Hg : Grants demo_decided 3000 = true) by (vm_compute; reflexivity).
  split; [unfold granted; rewrite Hp, Hg; reflexivity|].
  destruct (grant_has_an_approval [] quiet approved_world "lt-1" "e1" 3000 demo_decided
              (Poll "lt-1" "e1" 3000 (ew_svc approved_world)).2) as (_ & _ & Hv & _).
  - exact approved_reached.
  - rewrite <- Hp. apply surjective_pairing.
  - exact Hg.
  - exact Hv.
Defined.

(** Both administrators read the request while it waits, so the domain accepts
    both answers; the denial written last takes back the grant the device has
    already been given, and the record names only the second administrator. *)
Theorem two_verdicts :
  is_ok (answer true "anna" 2000) = true ∧ is_ok (answer false "bram" 2001) = true ∧
  let s1 := write_answer (answer true "anna" 2000) asked in
  let s2 := write_answer (answer false "bram" 2001) s1 in
  granted s1 3000 = Some true ∧ granted s2 3000 = Some false.
Proof. repeat split; vm_compute; reflexivity. Qed.

(** A reason is cut at 500 bytes, in the middle of a character if need be. *)
Theorem trimTo_splits_a_character :
  trimTo (String.concat "" (repeat "x" 499) +:+ String "195" (String "169" "")) 500 =
  String.concat "" (repeat "x" 499) +:+ String "195" "".
Proof. vm_compute. reflexivity. Qed.
