(* ===== verification/Forge.v ===== *)
(** * The console's forge credential (src/internal/domain/forge/identity.go,
      src/internal/app/forge_identity.go, src/internal/adapters/postgres/git_identity.go)

    Validation, the netrc line, and the service that stores the sealed token and
    writes the file git reads. *)

From S2P Require Import Prelude GoLib FleetModel Sql Text.

(** ** The domain *)

Inductive ForgeErr :=
  | HostRequired | HostWhitespace | HostIsURL | HostHasPath
  | UsernameRequired | UsernameWhitespace | TokenRequired | TokenWhitespace
  | ForgeDisabled | SealFailed | CannotDecrypt | ForgeDb (e : DbErr) | NetrcNotWritten.

Definition blank_chars : list ascii := list_ascii_of_string (String "032" (String "009" (String "013" (String "010" "")))).
Definition token_chars : list ascii := blank_chars ++ ["011"; "012"]%char.

Definition ValidateForge (host username token : string) : option ForgeErr :=
  let host := trim_space host in
  if host ==? "" then Some HostRequired
  else if contains_any host blank_chars then Some HostWhitespace
  else if contains host "://" then Some HostIsURL
  else if contains_any host ["/"; "?"; "#"]%char then Some HostHasPath
  else if trim_space username ==? "" then Some UsernameRequired
  else if contains_any username blank_chars then Some UsernameWhitespace
  else if token ==? "" then Some TokenRequired
  else if contains_any token token_chars then Some TokenWhitespace
  else None.

Definition newline : string := String "010" "".

Definition Netrc (host username token : string) : string :=
  "machine " +:+ host +:+ " login " +:+ username +:+ " password " +:+ token +:+ newline.

(** ** How a netrc is read: whitespace-separated words *)

Fixpoint words (space : ascii → bool) (s : string) : list string :=
  match s with
  | EmptyString => []
  | String a s' =>
      if space a then words space s'
      else match s' with
           | EmptyString => [String a EmptyString]
           | String b _ =>
               if space b then String a EmptyString :: words space s'
               else match words space s' with
                    | w :: ws => String a w :: ws
                    | [] => [String a EmptyString]
                    end
           end
  end.

Definition no_space (space : ascii → bool) (s : string) : bool := string_forall (λ a, negb (space a)) s.

Lemma words_step space a b r :
  space a = false → space b = false →
  words space (String a (String b r)) =
    match words space (String b r) with w :: ws => String a w :: ws | [] => [String a ""] end.
Proof. intros Ha Hb. simpl. by rewrite Ha, Hb. Qed.

Lemma words_cons space w c rest :
  w ≠ "" → no_space space w = true → space c = true →
  words space (w +:+ String c rest) = w :: words space rest.
Proof.
  intros Hne Hns Hc. induction w as [|a w IH]; [done|]. clear Hne.
  unfold no_space in Hns. simpl in Hns. apply andb_true_iff in Hns as [Ha%negb_true_iff Hw].
  destruct w as [|b w].
  - simpl. by rewrite Ha, Hc.
  - specialize (IH ltac:(done) Hw). simpl in Hw. apply andb_true_iff in Hw as [Hb%negb_true_iff _].
    change (String a (String b w) +:+ String c rest) with (String a (String b (w +:+ String c rest))).
    rewrite words_step by done.
    change (String b (w +:+ String c rest)) with (String b w +:+ String c rest). by rewrite IH.
Qed.

Lemma words_skip space c rest : space c = true → words space (String c rest) = words space rest.
Proof. intros Hc. simpl. by rewrite Hc. Qed.

Lemma contains_any_no s cs : contains_any s cs = false ↔ no_space (λ a, a ∈? cs) s = true.
Proof.
  unfold no_space. induction s as [|a s IH]; simpl; [done|]. rewrite orb_false_iff, andb_true_iff, <- IH, negb_true_iff. done.
Qed.

(** The netrc line reads back as what was validated.  For a host without
    surrounding space, git's words of the line are the host, the account and the
    token, whole and in place: nothing that passed validation can add a word, a
    directive or a second machine. *)
Theorem netrc_round_trip host username token :
  ValidateForge host username token = None → trim_space host = host →
  words (λ a, a ∈? blank_chars) (Netrc host username token) =
    ["machine"; host; "login"; username; "password"; token].
Proof.
  unfold ValidateForge. intros Hv Hh. rewrite Hh in Hv.
  destruct (host ==? "") eqn:H1; [done|]. destruct (contains_any host blank_chars) eqn:H2; [done|].
  destruct (contains host "://"); [done|]. destruct (contains_any host ["/"; "?"; "#"]%char); [done|].
  destruct (trim_space username ==? "") eqn:H3; [done|].
  destruct (contains_any username blank_chars) eqn:H4; [done|].
  destruct (token ==? "") eqn:H5; [done|]. destruct (contains_any token token_chars) eqn:H6; [done|].
  apply bool_decide_eq_false in H1, H3, H5. apply contains_any_no in H2, H4, H6.
  assert (H6' : no_space (λ a, a ∈? blank_chars) token = true).
  { unfold no_space in *. eapply string_forall_impl; [|exact H6]. apply implb_bytes. by vm_compute. }
  assert (Hu : username ≠ "") by (intros ->; by apply H3).
  unfold Netrc, newline.
  change ("machine " +:+ host +:+ " login " +:+ username +:+ " password " +:+ token +:+ String "010" "") with
    ("machine" +:+ String "032" (host +:+ String "032" ("login" +:+ String "032" (username +:+ String "032"
       ("password" +:+ String "032" (token +:+ String "010" "")))))).
  rewrite !words_cons by (done || by vm_compute). by simpl.
Qed.

Lemma netrc_round_trip_witness :
  words (λ a, a ∈? blank_chars) (Netrc "forge.example.org" "sextant-bot" "s3cr3t") =
    ["machine"; "forge.example.org"; "login"; "sextant-bot"; "password"; "s3cr3t"].
Proof. apply netrc_round_trip; vm_compute; reflexivity. Defined.

(** The host is trimmed for the check only: a vertical tab before it passes and
    is written, and the line then has no machine of that name.  A vertical tab in
    the account passes too. *)
Theorem vertical_tab_passes :
  ValidateForge (String "011" (String "032" "forge.example.org")) (String "a" (String "011" "b")) "t" = None ∧
  words (λ a, a ∈? blank_chars) (Netrc (String "011" (String "032" "forge.example.org")) "bot" "t") =
    ["machine"; String "011" ""; "forge.example.org"; "login"; "bot"; "password"; "t"].
Proof. split; vm_compute; reflexivity. Qed.

(** ** The service *)

Record Identity := mkIdentity { f_Host : string; f_Username : string; TokenEnc : string; f_Updated : Time; UpdatedBy : string }.
#[export] Instance Identity_eta : Eta Identity := λ i,
  mkIdentity (f_Host i) (f_Username i) (TokenEnc i) (f_Updated i) (UpdatedBy i).

(** The row of the tenant, and the netrc file: a write of the file replaces it
    by a rename, so it happens whole or not at all. *)
Record ForgeState := mkForge { fg_db : Pg (option Identity); fg_file : Pg (option string) }.
#[export] Instance ForgeState_eta : Eta ForgeState := λ s, mkForge (fg_db s) (fg_file s).

Definition forge_db {A} (m : SE (Pg (option Identity)) DbErr A) : SE ForgeState ForgeErr A := λ s,
  let '(r, db) := m (fg_db s) in
  (match r with Ok a => Ok a | Err e => Err (ForgeDb e) end, s <| fg_db := db |>).

(** The sealing key: encryption under a nonce, and its inverse. *)
Class Sealer := {
  sealer_enabled : bool;
  Seal : string → string → res unit string;
  Open : string → option string
}.

Class SealerLaws (sl : Sealer) : Prop := {
  open_seal : ∀ nonce plain sealed, Seal nonce plain = Ok sealed → Open sealed = Some plain
}.

Section service.
  Context `{sl : Sealer} (netrcPath : string).

Definition ForgeEnabled : bool := sealer_enabled && (netrcPath !=? "").

Definition writeNetrc (host username token : string) : SE ForgeState ForgeErr unit := λ s,
    let '(r, f) := exec (λ _, Some (Netrc host username token)) (fg_file s) in
    (match r with Ok _ => Ok tt | Err _ => Err NetrcNotWritten end, s <| fg_file := f |>).

Definition removeNetrc : SE ForgeState ForgeErr unit := λ s,
    let '(r, f) := exec (λ _, None) (fg_file s) in
    (match r with Ok _ => Ok tt | Err _ => Err NetrcNotWritten end, s <| fg_file := f |>).

Definition CurrentIdentity : SE ForgeState ForgeErr (option Identity) :=
    do! id <- forge_db (query (λ t, t));
    se_ret (option_map (λ i, i <| TokenEnc := "" |>) id).

Definition SetIdentity (nonce host username token by_ : string) (now : Time) : SE ForgeState ForgeErr unit :=
    if negb ForgeEnabled then se_err ForgeDisabled else
    match ValidateForge host username token with
    | Some e => se_err e
    | None =>
        match Seal nonce token with
        | Err _ => se_err SealFailed
        | Ok sealed =>
            run! forge_db (exec (λ _, Some (mkIdentity host username sealed now by_)));
            writeNetrc host username token
        end
    end.

Definition ClearIdentity : SE ForgeState ForgeErr unit :=
    run! forge_db (exec (λ _, None));
    if netrcPath !=? "" then removeNetrc else se_ret tt.

Definition ApplyIdentity : SE ForgeState ForgeErr bool :=
    if negb ForgeEnabled then se_ret false else
    do! id <- forge_db (query (λ t, t));
    match id with
    | None => se_ret false
    | Some i =>
        match Open (TokenEnc i) with
        | None => se_err CannotDecrypt
        | Some token => run! writeNetrc (f_Host i) (f_Username i) token; se_ret true
        end
    end.

  Context `{!SealerLaws sl}.

  (** The store and the file agree after a start.  Whatever of a rotation
      failed, once the next start has applied the stored identity the file git
      reads is the line of the credential that was stored last; and a rotation
      that succeeded is applied at once, to the same line. *)
Theorem rotation_is_applied nonce host username token by_ now s r s1 s2 :
    SetIdentity nonce host username token by_ now s = (r, s1) →
    ApplyIdentity s1 = (Ok true, s2) →
    match r with
    | Ok _ => tables (fg_file s1) = Some (Netrc host username token) ∧ tables (fg_file s2) = tables (fg_file s1)
    | Err NetrcNotWritten => tables (fg_file s1) = tables (fg_file s) ∧
                             tables (fg_file s2) = Some (Netrc host username token)
    | Err _ => tables (fg_file s1) = tables (fg_file s) ∧ tables (fg_db s1) = tables (fg_db s)
    end.
Proof.
    intros Hset Happ. unfold ApplyIdentity in Happ. destruct ForgeEnabled eqn:Hen; [|done]. simpl in Happ.
    apply se_bind_inv in Happ as [(id & s3 & E1 & E2)|(e & _ & ?)]; [|done].
    unfold forge_db in E1. destruct (query _ (fg_db s1)) as [q db] eqn:Eq. destruct q as [id'|]; [|done].
    injection E1 as <- <-. apply query_tables in Eq as [Hdb Hq]. specialize (Hq _ eq_refl). subst id'.
    unfold SetIdentity in Hset. rewrite Hen in Hset. simpl in Hset.
    destruct (ValidateForge host username token) as [e|] eqn:Hv.
    { injection Hset as <- <-. destruct e; try done.
      unfold ValidateForge in Hv. by repeat (case_match; try done). }
    destruct (Seal nonce token) as [sealed|] eqn:Hseal; [|by injection Hset as <- <-].
    apply se_bind_inv in Hset as [(u & s4 & E3 & E4)|(e & E3 & ->)].
    - unfold forge_db in E3. destruct (exec _ (fg_db s)) as [x db4] eqn:Ex. destruct x as [[]|]; [|done].
      injection E3 as _ <-. apply exec_tables in Ex.
      unfold writeNetrc in E4. simpl in E4. destruct (exec _ (fg_file s)) as [y f] eqn:Ef. apply exec_tables in Ef.
      injection E4 as <- <-. simpl in *. rewrite Ex in E2.
      cbn -[writeNetrc] in E2. rewrite (open_seal nonce token sealed Hseal) in E2.
      apply se_bind_inv in E2 as [(v & s5 & E5 & E6)|(e & _ & ?)]; [|done]. injection E6 as <-.
      unfold writeNetrc in E5. simpl in E5. destruct (exec _ f) as [z f2] eqn:Ef2. apply exec_tables in Ef2.
      destruct z as [[]|]; [|done]. injection E5 as _ <-. simpl. rewrite Ef2.
      destruct y as [[]|]; [by rewrite Ef|by rewrite Ef].
    - unfold forge_db in E3. destruct (exec _ (fg_db s)) as [x db4] eqn:Ex. apply exec_tables in Ex.
      destruct x; [done|]. injection E3 as <- <-. simpl. by rewrite Ex.
Qed.
End service.

(** A stand-in for the sealing key. *)
#[export] Instance demo_sealer : Sealer := {|
  sealer_enabled := true;
  Seal nonce plain := Ok ("sealed:" +:+ plain);
  Open sealed := cut_prefix sealed "sealed:"
|}.

#[export] Instance demo_sealer_laws : SealerLaws demo_sealer.
Proof. split. intros nonce plain sealed [= <-]. apply cut_prefix_app. Qed.

(** A rotation whose file write fails, and the start after it. *)
Definition full_disk : ForgeState := mkForge (live None) (mkPg None [true]).
Definition after_set : ForgeState := (SetIdentity "/home/sextant/.netrc" "n1" "forge.example.org" "bot" "t1" "anna" 5 full_disk).2.
Definition after_start : ForgeState := (ApplyIdentity "/home/sextant/.netrc" after_set).2.

Lemma rotation_is_applied_witness :
  tables (fg_file after_set) = None ∧ tables (fg_file after_start) = Some (Netrc "forge.example.org" "bot" "t1").
Proof.
  assert (E1 : SetIdentity "/home/sextant/.netrc" "n1" "forge.example.org" "bot" "t1" "anna" 5 full_disk =
               (Err NetrcNotWritten, after_set)) by (vm_compute; reflexivity).
  assert (E2 : ApplyIdentity "/home/sextant/.netrc" after_set = (Ok true, after_start)) by (vm_compute; reflexivity).
  destruct (rotation_is_applied "/home/sextant/.netrc" "n1" "forge.example.org" "bot" "t1" "anna" 5 full_disk
              (Err NetrcNotWritten) after_set after_start E1 E2) as [H1 H2].
  split; [exact H1|exact H2].
Defined.

(** Clearing deletes the row first: when the file cannot be removed the
    credential stays live, nothing records it, and the next start leaves it. *)
Theorem clear_can_leave_the_file :
  let s := mkForge (live (Some (mkIdentity "forge.example.org" "bot" "sealed:t1" 5 "anna")))
                   (mkPg (Some (Netrc "forge.example.org" "bot" "t1")) [true]) in
  let s1 := (ClearIdentity "/home/sextant/.netrc" s).2 in
  let s2 := (ApplyIdentity "/home/sextant/.netrc" s1).2 in
  tables (fg_db s2) = None ∧ tables (fg_file s2) = Some (Netrc "forge.example.org" "bot" "t1").
Proof. split; vm_compute; reflexivity. Qed.
