(* ===== verification/DeviceSecrets.v ===== *)
(** * Secrets of a device (src/internal/domain/secret/secret.go,
      src/internal/app/device_secrets.go, src/internal/app/diagnostics.go,
      src/internal/adapters/postgres/device_secrets.go, diagnostics.go)

    The recovery key and the administrator password of a device, and its
    diagnostics bundle: sealed before they reach a table, opened for a person
    whose name the table keeps, and a bundle only within its retention. *)

From S2P Require Import Prelude GoLib FleetModel Text Sql Forge.

(** ** The domain *)

Inductive SecretKind := LUKS | Admin | OtherSecret (s : string).
#[export] Instance SecretKind_eq_dec : EqDecision SecretKind.
Proof. solve_decision. Defined.
#[export] Program Instance SecretKind_countable : Countable SecretKind :=
  inj_countable (λ k, match k with LUKS => inl false | Admin => inl true | OtherSecret s => inr s end)
    (λ x, Some match x with inl false => LUKS | inl true => Admin | inr s => OtherSecret s end) _.
Next Obligation. by intros []. Qed.

Definition ValidSecretKind (k : SecretKind) : bool := match k with OtherSecret _ => false | _ => true end.

Definition secret_kind_text (k : SecretKind) : string :=
  match k with LUKS => "luks" | Admin => "admin" | OtherSecret s => s end.

Record SecretMeta := mkMeta {
  sm_Tag : string; sm_Kind : SecretKind; CreatedBy : string; sm_Created : Time;
  RevealedBy : string; Revealed : option Time
}.

Definition EverRevealed (m : SecretMeta) : bool := RevealedBy m !=? "".

Inductive SecretErr :=
  | UnknownSecretKind (k : SecretKind) | EmptySecret (k : SecretKind) (tag : string) | SealerDisabled
  | SealE | OpenE | RecordE (e : DbErr) | SecretDb (e : DbErr)
  | BundleUnconfigured | BundleSize (n : Z) | ExpireE (e : DbErr).

(** ** The device_secrets table of a tenant *)

Record SecretRow := mkSecretRow {
  sr_cipher : string; sr_created : Time; sr_createdBy : string; sr_revealed : option Time; sr_revealedBy : string
}.
#[export] Instance SecretRow_eta : Eta SecretRow := λ r,
  mkSecretRow (sr_cipher r) (sr_created r) (sr_createdBy r) (sr_revealed r) (sr_revealedBy r).

Notation SecretTable := (gmap (string * SecretKind) SecretRow).

Definition metaOf (tag : string) (k : SecretKind) (r : SecretRow) : SecretMeta :=
  mkMeta tag k (sr_createdBy r) (sr_created r) (sr_revealedBy r) (sr_revealed r).

Definition PutSecret (tag : string) (k : SecretKind) (cipher createdBy : string) (now : Time)
    : SE (Pg SecretTable) DbErr unit :=
  exec <[(tag, k) := mkSecretRow cipher now createdBy None ""]>.

Definition GetSecret (tag : string) (k : SecretKind) : SE (Pg SecretTable) DbErr (option SecretRow) := query (lookup (tag, k)).

Definition kind_less (a b : SecretMeta) : bool :=
  String.ltb (secret_kind_text (sm_Kind a)) (secret_kind_text (sm_Kind b)).
Definition secrets_of (tag : string) (t : SecretTable) : list SecretMeta :=
  isort kind_less (map (λ kv, metaOf kv.1.1 kv.1.2 kv.2) (keep_if (λ kv, kv.1.1 ==? tag) (map_to_list t))).
Definition ListSecrets (tag : string) : SE (Pg SecretTable) DbErr (list SecretMeta) := query (secrets_of tag).

Definition MarkRevealed (tag : string) (k : SecretKind) (by_ : string) (now : Time) : SE (Pg SecretTable) DbErr unit :=
  exec (alter (λ r, r <| sr_revealed := Some now |> <| sr_revealedBy := by_ |>) (tag, k)).

(** ** The diagnostics bundle of a device *)

Record BundleRow := mkBundle { bd_cipher : string; bd_created : Time }.
Notation BundleTable := (gmap string BundleRow).
Record BundleMeta := mkBundleMeta { bm_Tag : string; bm_Size : Z; bm_Created : Time }.

Definition DiagnosticsRetention : Z := 14 * 24 * Hour.
Definition MaxDiagnosticsBundle : Z := 4 * 1024 * 1024.

Definition bundle_meta (tag : string) (r : BundleRow) : BundleMeta := mkBundleMeta tag (len (bd_cipher r)) (bd_created r).
Definition bundle_expired (m : BundleMeta) (now : Time) : bool := DiagnosticsRetention <? time_sub now (bm_Created m).

(** ** The service *)

Section service.
  Context `{sl : Sealer}.

Definition StoreSecret (nonce tag : string) (k : SecretKind) (plaintext createdBy : string) (now : Time)
    : SE (Pg SecretTable) SecretErr unit :=
    if negb (ValidSecretKind k) then se_err (UnknownSecretKind k)
    else if plaintext ==? "" then se_err (EmptySecret k tag)
    else if negb sealer_enabled then se_err SealerDisabled
    else match Seal nonce plaintext with
         | Err _ => se_err SealE
         | Ok sealed => db_step SecretDb (PutSecret tag k sealed createdBy now)
         end.

Definition RevealSecret (tag : string) (k : SecretKind) (by_ : string) (now : Time)
    : SE (Pg SecretTable) SecretErr (option string) :=
    if negb (ValidSecretKind k) then se_err (UnknownSecretKind k) else
    do! row <- db_step SecretDb (GetSecret tag k);
    match row with
    | None => se_ret None
    | Some r =>
        match Open (sr_cipher r) with
        | None => se_err OpenE
        | Some plain => run! db_step RecordE (MarkRevealed tag k by_ now); se_ret (Some plain)
        end
    end.

(** ** The service of the bundles *)

Definition PutBundle (nonce tag bundle : string) (now : Time) : SE (Pg BundleTable) SecretErr unit :=
    if negb sealer_enabled then se_err BundleUnconfigured
    else if (len bundle =? 0) || (MaxDiagnosticsBundle <? len bundle) then se_err (BundleSize (len bundle))
    else match Seal nonce bundle with
         | Err _ => se_err SealE
         | Ok sealed => db_step SecretDb (exec <[tag := mkBundle sealed now]>)
         end.

Definition expire (tag : string) : SE (Pg BundleTable) SecretErr unit := db_step ExpireE (exec (delete tag)).

Definition GetBundle (tag : string) (now : Time) : SE (Pg BundleTable) SecretErr (option (string * BundleMeta)) :=
    if negb sealer_enabled then se_ret None else
    do! row <- db_step SecretDb (query (lookup tag));
    match row with
    | None => se_ret None
    | Some r =>
        let m := bundle_meta tag r in
        if bundle_expired m now then run! expire tag; se_ret None
        else match Open (bd_cipher r) with
             | None => se_err OpenE
             | Some bundle => se_ret (Some (bundle, m))
             end
    end.

Definition MetaBundle (tag : string) (now : Time) : SE (Pg BundleTable) SecretErr (option BundleMeta) :=
    if negb sealer_enabled then se_ret None else
    do! row <- db_step SecretDb (query (λ t, bundle_meta tag <$> t !! tag));
    match row with
    | None => se_ret None
    | Some m => if bundle_expired m now then run! expire tag; se_ret None else se_ret (Some m)
    end.

Definition DeleteBundle (tag : string) : SE (Pg BundleTable) SecretErr unit := db_step SecretDb (exec (delete tag)).

(** ** Properties *)

(** Every row is the seal of something. *)
Definition at_rest (t : SecretTable) : Prop :=
    ∀ key r, t !! key = Some r → ∃ nonce plain, plain ≠ "" ∧ Seal nonce plain = Ok (sr_cipher r).

Lemma StoreSecret_inv nonce tag k plain by_ now s r s' :
    StoreSecret nonce tag k plain by_ now s = (r, s') →
    match r with
    | Ok _ => ValidSecretKind k = true ∧ plain ≠ "" ∧ ∃ sealed, Seal nonce plain = Ok sealed ∧
              tables s' = <[(tag, k) := mkSecretRow sealed now by_ None ""]> (tables s)
    | Err _ => tables s' = tables s
    end.
Proof.
    unfold StoreSecret. destruct (ValidSecretKind k); [|by intros [= <- <-]]. simpl.
    destruct (plain ==? "") eqn:Hp; [by intros [= <- <-]|]. apply bool_decide_eq_false in Hp.
    destruct sealer_enabled; [|by intros [= <- <-]]. simpl.
    destruct (Seal nonce plain) as [sealed|]; [|by intros [= <- <-]].
    intros (r0 & E & ->)%db_step_inv. apply exec_tables in E. destruct r0; [|done]. split; [done|]. eauto.
Qed.

(** What a reveal returns and leaves behind. *)
Definition reveal_outcome (tag : string) (k : SecretKind) (by_ : string) (now : Time) (t : SecretTable)
      (r : res SecretErr (option string)) (t' : SecretTable) : Prop :=
    match r with
    | Ok (Some plain) => ∃ row, t !! (tag, k) = Some row ∧ Open (sr_cipher row) = Some plain ∧
        t' = <[(tag, k) := row <| sr_revealed := Some now |> <| sr_revealedBy := by_ |>]> t
    | Ok None => t !! (tag, k) = None ∧ t' = t
    | Err OpenE => (∃ row, t !! (tag, k) = Some row ∧ Open (sr_cipher row) = None) ∧ t' = t
    | Err (UnknownSecretKind _) => ValidSecretKind k = false ∧ t' = t
    | Err (SecretDb _) | Err (RecordE _) => t' = t
    | Err _ => False
    end.

Lemma RevealSecret_inv tag k by_ now s r s' :
    RevealSecret tag k by_ now s = (r, s') → reveal_outcome tag k by_ now (tables s) r (tables s').
Proof.
    unfold RevealSecret. destruct (ValidSecretKind k) eqn:Hk; [|by intros [= <- <-]]. simpl.
    intros [(row & s1 & E1 & E)|(e & E1 & ->)]%se_bind_inv; apply db_step_inv in E1 as (r0 & E1 & Hr);
      unfold GetSecret in E1; apply query_tables in E1 as [Ht Hq]; [|destruct r0; [done|]; by injection Hr as ->].
    destruct r0 as [row0|]; [|done]. injection Hr as <-. specialize (Hq _ eq_refl).
    destruct row as [row|]; [|by injection E as <- <-].
    destruct (Open (sr_cipher row)) as [plain|] eqn:Ho; [|injection E as <- <-; split; [by exists row|done]].
    apply se_bind_inv in E as [([] & s2 & E2 & E)|(e & E2 & ->)]; apply db_step_inv in E2 as (r1 & E2 & Hr1);
      unfold MarkRevealed in E2; apply exec_tables in E2; (destruct r1; [try done|try done]).
    - injection E as <- <-. exists row. split; [done|]. split; [done|].
      rewrite E2, Ht. apply map_eq. intros key. destruct (decide (key = (tag, k))) as [->|Hne].
      + by rewrite lookup_alter_eq, lookup_insert_eq, <- Hq.
      + by rewrite lookup_alter_ne, lookup_insert_ne.
    - injection Hr1 as ->. simpl. by rewrite E2.
Qed.

(** Every row a store wrote is a seal, and a reveal changes no seal. *)
Lemma at_rest_kept nonce tag k plain by_ now reader s r s' r2 s2 :
    at_rest (tables s) → StoreSecret nonce tag k plain by_ now s = (r, s') →
    RevealSecret tag k reader now s' = (r2, s2) → at_rest (tables s2).
Proof.
    intros Hat Hst%StoreSecret_inv Hre%RevealSecret_inv.
    assert (Hat' : at_rest (tables s')).
    { destruct r as [[]|]; [|by rewrite Hst]. destruct Hst as (_ & Hp & sealed & Hs & ->).
      intros key row. destruct (decide (key = (tag, k))) as [->|Hne].
      - rewrite lookup_insert_eq. intros [= <-]. simpl. eauto.
      - rewrite lookup_insert_ne by done. apply Hat. }
    assert (Hsame : tables s2 = tables s' → at_rest (tables s2)) by (by intros ->).
    destruct r2 as [[x|]|e]; [|by apply Hsame, Hre|destruct e; try done; by apply Hsame, Hre].
    destruct Hre as (row & Hrow & _ & ->).
    intros key row'. destruct (decide (key = (tag, k))) as [->|Hne].
    - rewrite lookup_insert_eq. intros [= <-]. simpl. by eapply Hat'.
    - rewrite lookup_insert_ne by done. apply Hat'.
Qed.

Context `{!SealerLaws sl}.

(** A secret comes back as it was stored, and not without a trace.  After a
    store that reported success, a reveal - whatever of it fails - either
    returns the very text that was stored and leaves the reader's name and the
    time on the record, or returns an error, no text, and the record as it was;
    it never says there is no such secret and never fails to decrypt.  Storing
    again makes the record read as never revealed. *)
Theorem escrow_round_trip nonce tag k plain by_ now reader now' s s1 r s2 :
    StoreSecret nonce tag k plain by_ now s = (Ok tt, s1) →
    RevealSecret tag k reader now' s1 = (r, s2) →
    (∃ row, tables s1 !! (tag, k) = Some row ∧
            EverRevealed (metaOf tag k row) = false ∧ CreatedBy (metaOf tag k row) = by_) ∧
    match r with
    | Ok (Some x) => x = plain ∧ ∃ row, tables s2 !! (tag, k) = Some row ∧
                       sr_revealedBy row = reader ∧ sr_revealed row = Some now'
    | Ok None => False
    | Err e => tables s2 = tables s1 ∧ match e with SecretDb _ | RecordE _ => True | _ => False end
    end.
Proof.
    intros (Hk & Hp & sealed & Hs & Ht1)%StoreSecret_inv Hr%RevealSecret_inv.
    assert (Hrow : tables s1 !! (tag, k) = Some (mkSecretRow sealed now by_ None "")) by (by rewrite Ht1, lookup_insert_eq).
    assert (Hopen : Open sealed = Some plain) by (by eapply open_seal).
    split; [by eexists|]. destruct r as [[x|]|e]; simpl in Hr.
    - destruct Hr as (row & Hrow' & Ho & ->). rewrite Hrow in Hrow'. injection Hrow' as <-. simpl in Ho.
      split; [congruence|]. eexists. by rewrite lookup_insert_eq.
    - destruct Hr as [Hn _]. congruence.
    - destruct e; try done; [destruct Hr; congruence|]. destruct Hr as [(row & Hrow' & Ho) _].
      rewrite Hrow in Hrow'. injection Hrow' as <-. simpl in Ho. congruence.
Qed.

(** A bundle is served within its retention and said to be gone only when it
    is.  With the sealing key in place, what a read of a diagnostics bundle
    returns is the bundle on file, no older than fourteen days; an absent answer
    means the table holds none any more, an expired one included; and a deletion
    that failed is an error, never an absent answer. *)
Theorem bundle_within_retention tag now s r s' :
    sealer_enabled = true → GetBundle tag now s = (r, s') →
    match r with
    | Ok (Some (bundle, m)) => time_sub now (bm_Created m) ≤ DiagnosticsRetention ∧ tables s' = tables s ∧
        ∃ row, tables s !! tag = Some row ∧ Open (bd_cipher row) = Some bundle ∧ m = bundle_meta tag row
    | Ok None => tables s' !! tag = None ∧ ∀ other, other ≠ tag → tables s' !! other = tables s !! other
    | Err e => tables s' = tables s ∧
        (e = ExpireE Unreachable → ∃ row, tables s !! tag = Some row ∧ bundle_expired (bundle_meta tag row) now = true)
    end.
Proof.
    unfold GetBundle. intros ->. simpl.
    intros [(row & s1 & E1 & E)|(e & E1 & ->)]%se_bind_inv; apply db_step_inv in E1 as (r0 & E1 & Hr);
      apply query_tables in E1 as [Ht Hq]; [|destruct r0; [done|]; injection Hr as ->; by split].
    destruct r0 as [row0|]; [|done]. injection Hr as <-. specialize (Hq _ eq_refl).
    destruct row as [row|].
    2: { injection E as <- <-. rewrite Ht. done. }
    destruct (bundle_expired (bundle_meta tag row) now) eqn:Hx.
    - unfold expire in E. apply se_bind_inv in E as [([] & s2 & E2 & E)|(e & E2 & ->)];
        apply db_step_inv in E2 as (r1 & E2 & Hr1); apply exec_tables in E2; (destruct r1; [try done|try done]).
      + injection E as <- <-. rewrite E2, Ht. split; [apply lookup_delete_eq|]. intros other Ho. by rewrite lookup_delete_ne.
      + injection Hr1 as ->. split; [by rewrite E2|]. intros _. exists row. by rewrite <- Hq.
    - destruct (Open (bd_cipher row)) as [bundle|] eqn:Ho; injection E as <- <-; [|by split].
      unfold bundle_expired in Hx. apply Z.ltb_ge in Hx. split_and!; [done|done|]. exists row. by rewrite <- Hq.
Qed.
End service.

(** Without the key - a deployment that lost it, or took it out - every read says
    that there is no bundle, and the bundles stay. *)
Theorem keyless_reads_say_gone `{sl : Sealer} tag now s :
  sealer_enabled = false → GetBundle tag now s = (Ok None, s) ∧ MetaBundle tag now s = (Ok None, s).
Proof. intros Hk. unfold GetBundle, MetaBundle. by rewrite Hk. Qed.

(** ** Concrete devices *)

Definition vault : Pg SecretTable := (StoreSecret "n" "lt-1" LUKS "phrase" "station:nuc-1" 5 (live ∅)).2.
Definition vault_read : Pg SecretTable := (RevealSecret "lt-1" LUKS "anna" 9 vault).2.

Lemma escrow_round_trip_witness :
  ∃ row, tables vault_read !! ("lt-1", LUKS) = Some row ∧ sr_revealedBy row = "anna".
Proof.
  assert (E1 : StoreSecret "n" "lt-1" LUKS "phrase" "station:nuc-1" 5 (live ∅) = (Ok tt, vault)) by reflexivity.
  assert (E2 : RevealSecret "lt-1" LUKS "anna" 9 vault = (Ok (Some "phrase"), vault_read)) by reflexivity.
  destruct (escrow_round_trip _ _ _ _ _ _ _ _ _ _ _ _ E1 E2) as [_ [_ (row & Hrow & Hby & _)]].
  exists row. split; [exact Hrow|exact Hby].
Defined.

Definition bundles : Pg BundleTable := (PutBundle "n" "lt-1" "journal" 5 (live ∅)).2.

Lemma bundle_within_retention_witness :
  tables (GetBundle "lt-1" (6 + DiagnosticsRetention) bundles).2 !! "lt-1" = None.
Proof.
  assert (E : (GetBundle "lt-1" (6 + DiagnosticsRetention) bundles).1 = Ok None) by (vm_compute; reflexivity).
  destruct (GetBundle "lt-1" (6 + DiagnosticsRetention) bundles) as [r s'] eqn:Eg. simpl in E. subst r.
  exact (proj1 (bundle_within_retention "lt-1" _ _ _ _ eq_refl Eg)).
Defined.
