(* ===== verification/Incident.v ===== *)
(** * The compliance engine (src/internal/domain/incident/incident.go)

    From what each device is observed to run and what it should run, the list of
    action items, most urgent first. *)

From S2P Require Import Prelude GoLib FleetModel Text Observed Rollout.

(** ** Incidents *)

Inductive IKind :=
  | Behind | Offline | NeverSeen | Errored | ErroredStale | WipeFailed | WipeRefused
  | RolloutStalled | UnknownConfig | CoreOutdated | PolicyCondition.

#[export] Instance IKind_eq_dec : EqDecision IKind.
Proof. solve_decision. Defined.

(** The Go value of the constant, which orders the list. *)
Definition kind_string (k : IKind) : string :=
  match k with
  | Behind => "behind" | Offline => "offline" | NeverSeen => "never-seen" | Errored => "errored"
  | ErroredStale => "errored-stale" | WipeFailed => "wipe-failed" | WipeRefused => "wipe-refused"
  | RolloutStalled => "rollout-stalled" | UnknownConfig => "unknown-config"
  | CoreOutdated => "core-outdated" | PolicyCondition => "policy-condition"
  end.

Inductive Severity := Info | Warning | Critical.
#[export] Instance Severity_eq_dec : EqDecision Severity.
Proof. solve_decision. Defined.
Definition severity_int (s : Severity) : Z := match s with Info => 0 | Warning => 1 | Critical => 2 end.

Record ConditionFailure := mkFailure { cf_Policy : string; cf_Name : string; cf_Detail : string }.

Record Observation := mkObservation {
  o_Tag : string; o_Group : string; Deployed : string; o_Target : string;
  DeployedRelease : Z; TargetRelease : Z; o_Head : string; HeadRelease : Z;
  DeployedCore : string; TargetCore : string; TargetCorePinned : Time;
  o_Online : bool; o_LastSeen : Time; o_Error : string; o_Ack : string; o_Failed : list ConditionFailure
}.
#[export] Instance Observation_eta : Eta Observation := λ o,
  mkObservation (o_Tag o) (o_Group o) (Deployed o) (o_Target o) (DeployedRelease o) (TargetRelease o)
    (o_Head o) (HeadRelease o) (DeployedCore o) (TargetCore o) (TargetCorePinned o) (o_Online o)
    (o_LastSeen o) (o_Error o) (o_Ack o) (o_Failed o).

Record Incident := mkIncident {
  in_Kind : IKind; in_Severity : Severity; in_Tag : string; in_Group : string; in_Scope : string;
  in_Title : string; in_Detail : string; in_Action : string; in_Since : Time
}.

Record RunObservation := mkRunObservation {
  ro_Ring : string; ro_Target : string; ro_Stalled : Z; OffTarget : list string; ro_Since : Time
}.

(** ** Wording *)

Definition CoreGrace : Z := 14 * 24 * Hour.

Definition humanDays (d : Z) : string :=
  let days := d /t (24 * Hour) in if days <=? 1 then "a day" else pretty days +:+ " days".

(** [d.Round(time.Minute)] of a duration that is not negative: half away from zero. *)
Definition round_minute (d : Z) : Z := (d + 30 * Second) /t Minute * Minute.

Definition two_digits (n : Z) : string := if n <? 10 then "0" +:+ pretty n else pretty n.

Definition humanDuration (d : Z) : string :=
  let d := round_minute d in
  let h := d /t Hour in
  if 0 <? h then pretty h +:+ "h" +:+ two_digits (Z.rem (d /t Minute) 60) +:+ "m"
  else pretty (d /t Minute) +:+ "m".

Definition nameSome (names : list string) (max : nat) : string :=
  if (length names <=? max)%nat then join names ", "
  else join (take max names) ", " +:+ " and " +:+ pretty (length names - max)%nat +:+ " more".

Definition short (rev : string) : string :=
  if (12 <? String.length rev)%nat then String.substring 0 12 rev else rev.

(** ** The judgments *)

Definition unknownConfig (o : Observation) : bool :=
  o_Online o && (Deployed o !=? "") && (DeployedRelease o =? 0)
  && (o_Target o !=? "") && (0 <? TargetRelease o)
  && (o_Head o !=? "") && (0 <? HeadRelease o)
  && (Deployed o !=? o_Target o) && (Deployed o !=? o_Head o).

Definition onTarget (o : Observation) : bool :=
  if Deployed o ==? "" then false
  else if o_Target o !=? "" then Deployed o ==? o_Target o
  else (o_Head o !=? "") && (Deployed o ==? o_Head o).

Section detect.
  (** The form of an instant in a text. *)
  Context (format_time : Time → string).

Definition raise (o : Observation) (k : IKind) (sev : Severity) (title detail action : string) (since : Time) : Incident :=
    mkIncident k sev (o_Tag o) (o_Group o) (if o_Group o ==? "" then "org" else "group:" +:+ o_Group o)
      title detail action since.

Definition presence_incidents (o : Observation) (now : Time) : list Incident :=
    if (o_LastSeen o ==? 0) && (Deployed o ==? "") then
      [raise o NeverSeen Warning (o_Tag o +:+ " has never checked in") "Enrolled but no report received yet."
         "Verify it was imaged and can reach the console." 0]
    else if negb (o_Online o) && (InactiveWindow <? time_sub now (o_LastSeen o)) then
      [raise o Offline Warning (o_Tag o +:+ " has been offline for over two weeks")
         ("Last seen " +:+ format_time (o_LastSeen o) +:+ ".")
         "Locate the machine; if it is retired in practice, retire it in the fleet too." (o_LastSeen o)]
    else [].

Definition source_incidents (o : Observation) : list Incident :=
    if unknownConfig o then
      [raise o UnknownConfig Warning (o_Tag o +:+ " runs an unrecognised configuration")
         ("Reports revision " +:+ short (Deployed o) +:+ " which is not a release of this fleet's config.")
         "The device is following a source other than its ring branch, or was built by hand. Check the updater's remote and branch on the device." 0]
    else [].

  (** The wording and the severity of a device off its target. *)
Definition behind_incident (o : Observation) : Incident :=
    let plain := raise o Behind Warning (o_Tag o +:+ " is behind")
      ("Running " +:+ short (Deployed o) +:+ ", target is " +:+ short (o_Target o) +:+ ".")
      "The update has not landed; check the rollout and the device logs." 0 in
    if (0 <? DeployedRelease o) && (0 <? TargetRelease o) then
      let diff := TargetRelease o - DeployedRelease o in
      if 0 <? diff then
        raise o Behind Warning (o_Tag o +:+ " is behind")
          ("Not on spec: running " +:+ short (Deployed o) +:+ ", its ring is pinned to " +:+ short (o_Target o) +:+ ".")
          "The update has not landed; check the rollout and the device logs." 0
      else if diff <? 0 then
        if (0 <? HeadRelease o) && (DeployedRelease o <=? HeadRelease o) then
          raise o Behind Info (o_Tag o +:+ " is waiting for its ring to catch up")
            ("Running " +:+ short (Deployed o) +:+ ", which is this fleet's own configuration but newer than the "
               +:+ short (o_Target o) +:+ " its ring is pinned to. A freshly imaged device starts here.")
            "Nothing to do: the next promotion moves the ring past it. If it persists across promotions, check whether the rollout is stuck." 0
        else
          raise o Behind Warning (o_Tag o +:+ " is ahead of its target")
            ("Running " +:+ short (Deployed o) +:+ "; its ring is pinned to " +:+ short (o_Target o) +:+ ", which is older.")
            "The device runs something the rollout did not stage: an out-of-band change, or a stale pin. Check the pin." 0
      else plain
    else plain.

Definition off_target (o : Observation) : bool :=
    negb (unknownConfig o) && o_Online o && (o_Target o !=? "") && (Deployed o !=? "") && (Deployed o !=? o_Target o).

Definition behind_incidents (o : Observation) : list Incident := if off_target o then [behind_incident o] else [].

Definition core_lags (o : Observation) : bool :=
    (DeployedCore o !=? "") && (TargetCore o !=? "") && (DeployedCore o !=? TargetCore o).
Definition core_overdue (o : Observation) (now : Time) : bool :=
    (TargetCorePinned o !=? 0) && (CoreGrace <? time_sub now (TargetCorePinned o)).

Definition core_incidents (o : Observation) (now : Time) : list Incident :=
    if core_lags o then
      let late := core_overdue o now in
      [raise o CoreOutdated (if late then Critical else Warning) (o_Tag o +:+ " is running an older DAWO core")
         (if late then "The fleet moved to a newer DAWO core " +:+ humanDays (time_sub now (TargetCorePinned o)) +:+
             " ago and this device never took it: it is running an older kernel, older hardening and older packages."
          else "The fleet moved to a newer DAWO core; this device still runs the previous one.")
         "Check that the device converges: it may be off, or refusing the new generation. The activation log on the device says which."
         (TargetCorePinned o)]
    else [].

Definition condition_incident (o : Observation) (c : ConditionFailure) : Incident :=
    raise o PolicyCondition Warning
      (o_Tag o +:+ " does not meet " +:+ (if cf_Name c ==? "" then cf_Policy c else cf_Name c))
      (cf_Detail c)
      "This is a condition, not a setting: the fleet cannot correct it by converging. Free the resource on the device, or change the policy if the requirement is wrong." 0.

Definition error_incidents (o : Observation) : list Incident :=
    if o_Error o ==? "" then []
    else if onTarget o then
      [raise o ErroredStale Warning (o_Tag o +:+ " reported an error before reaching its target") (o_Error o)
         "It is running the revision it should. This is the last failure it saw, not a current one - comin's flag stays set until something new is evaluated. Worth reading, not worth chasing." 0]
    else [raise o Errored Critical (o_Tag o +:+ " reported an error") (o_Error o)
            "Open the device and inspect the failure." 0].

Definition wipe_incidents (o : Observation) : list Incident :=
    if o_Ack o ==? AckWipeFailed then
      [raise o WipeFailed Critical (o_Tag o +:+ " wipe did not complete")
         "The device attempted a crypto-wipe but did not confirm completion."
         "Verify the disk key is destroyed before reusing the device." 0]
    else if o_Ack o ==? AckWipeRefused then
      [raise o WipeRefused Warning (o_Tag o +:+ " refused the wipe")
         "The device declined the wipe intent (unarmed or an interlock blocked it)."
         "Re-arm the device or clear the interlock, then retry." 0]
    else [].

  (** The body of the loop over the observations, in its order. *)
Definition incidents_of (now : Time) (o : Observation) : list Incident :=
    presence_incidents o now ++ source_incidents o ++ behind_incidents o ++ core_incidents o now
    ++ map (condition_incident o) (o_Failed o) ++ error_incidents o ++ wipe_incidents o.

Definition less (a b : Incident) : bool :=
    if negb (severity_int (in_Severity a) =? severity_int (in_Severity b))
    then severity_int (in_Severity b) <? severity_int (in_Severity a)
    else if in_Kind a !=? in_Kind b then String.ltb (kind_string (in_Kind a)) (kind_string (in_Kind b))
    else String.ltb (in_Tag a) (in_Tag b).

Definition sortBySeverity : list Incident → list Incident := isort less.

Definition Detect (obs : list Observation) (now : Time) : list Incident :=
    sortBySeverity (obs ≫= incidents_of now).

Definition DetectRollout (run : RunObservation) : list Incident :=
    if ro_Stalled run <? StallWindow then [] else
    let detail := "Promoted " +:+ humanDuration (ro_Stalled run) +:+ " ago and still not on " +:+ short (ro_Target run) +:+ "." in
    let detail := match OffTarget run with
                  | [] => detail
                  | l => detail +:+ " " +:+ pretty (length l) +:+ " device(s) still off target: " +:+ nameSome l 3 +:+ "."
                  end in
    [mkIncident RolloutStalled Warning "" "" "org" ("Rollout stalled on ring " +:+ ro_Ring run) detail
       "The devices are not reaching the target. Check the device's activation log (a failed activation makes the updater refuse the new generation) and the rollout monitor."
       (ro_Since run)].
End detect.

(** ** The rules *)

(** What calls for an action item, and how urgent it is. *)
Inductive calls_for (o : Observation) (now : Time) : IKind → Severity → Prop :=
  | cf_never : o_LastSeen o = 0 → Deployed o = "" → calls_for o now NeverSeen Warning
  | cf_offline : ¬ (o_LastSeen o = 0 ∧ Deployed o = "") → o_Online o = false →
      InactiveWindow < time_sub now (o_LastSeen o) → calls_for o now Offline Warning
  | cf_unknown : unknownConfig o = true → calls_for o now UnknownConfig Warning
  | cf_waiting : off_target o = true → TargetRelease o < DeployedRelease o → 0 < TargetRelease o →
      0 < HeadRelease o → DeployedRelease o ≤ HeadRelease o → calls_for o now Behind Info
  | cf_behind : off_target o = true →
      ¬ (TargetRelease o < DeployedRelease o ∧ 0 < TargetRelease o ∧ 0 < HeadRelease o ∧
         DeployedRelease o ≤ HeadRelease o) → calls_for o now Behind Warning
  | cf_core : core_lags o = true → core_overdue o now = false → calls_for o now CoreOutdated Warning
  | cf_core_late : core_lags o = true → core_overdue o now = true → calls_for o now CoreOutdated Critical
  | cf_condition c : c ∈ o_Failed o → calls_for o now PolicyCondition Warning
  | cf_stale : o_Error o ≠ "" → onTarget o = true → calls_for o now ErroredStale Warning
  | cf_error : o_Error o ≠ "" → onTarget o = false → calls_for o now Errored Critical
  | cf_wipe_failed : o_Ack o = AckWipeFailed → calls_for o now WipeFailed Critical
  | cf_wipe_refused : o_Ack o = AckWipeRefused → calls_for o now WipeRefused Warning.

Section rules.
  Context (format_time : Time → string).

Lemma behind_spec o now k sev :
    off_target o = true →
    (in_Kind (behind_incident o) = k ∧ in_Severity (behind_incident o) = sev ↔
     k = Behind ∧ calls_for o now Behind sev).
Proof.
    intros Hoff. unfold behind_incident.
    destruct (Z.ltb_spec 0 (DeployedRelease o)), (Z.ltb_spec 0 (TargetRelease o)); simpl.
    2-4: split; [intros [<- <-]; split; [done|apply cf_behind; [done|lia]]|intros [-> Hc]; inversion Hc; subst; lia || done].
    destruct (Z.ltb_spec 0 (TargetRelease o - DeployedRelease o)); simpl;
      [split; [intros [<- <-]; split; [done|apply cf_behind; [done|lia]]|intros [-> Hc]; inversion Hc; subst; lia || done]|].
    destruct (Z.ltb_spec (TargetRelease o - DeployedRelease o) 0); simpl;
      [|split; [intros [<- <-]; split; [done|apply cf_behind; [done|lia]]|intros [-> Hc]; inversion Hc; subst; lia || done]].
    destruct (Z.ltb_spec 0 (HeadRelease o)), (Z.leb_spec (DeployedRelease o) (HeadRelease o)); simpl.
    2-4: split; [intros [<- <-]; split; [done|apply cf_behind; [done|lia]]|intros [-> Hc]; inversion Hc; subst; lia || done].
    split; [intros [<- <-]; split; [done|by apply cf_waiting; [|lia..]]|].
    intros [-> Hc]. inversion Hc; subst; [done|]. tauto || lia.
Qed.

  (** [states l P]: the items of [l] are of the observation and exactly those
      kinds and severities that [P] gives. *)
Definition states (o : Observation) (l : list Incident) (P : IKind → Severity → Prop) : Prop :=
    (∀ i, i ∈ l → in_Tag i = o_Tag o ∧ P (in_Kind i) (in_Severity i)) ∧
    (∀ k sev, P k sev → ∃ i, i ∈ l ∧ in_Kind i = k ∧ in_Severity i = sev).

Lemma states_nil o (P : IKind → Severity → Prop) : (∀ k sev, ¬ P k sev) → states o [] P.
Proof. intros HP. split; [by intros i ?%elem_of_nil|]. intros k sev H. by destruct (HP k sev). Qed.

Lemma states_one o k sev title detail action since (P : IKind → Severity → Prop) :
    (∀ k' sev', P k' sev' ↔ k' = k ∧ sev' = sev) → states o [raise o k sev title detail action since] P.
Proof.
    intros HP. split.
    - intros i ->%list_elem_of_singleton. split; [done|]. by apply HP.
    - intros k' sev' [-> ->]%HP. eexists. split; [left|done].
Qed.

Lemma states_app o l1 l2 P1 P2 :
    states o l1 P1 → states o l2 P2 → states o (l1 ++ l2) (λ k sev, P1 k sev ∨ P2 k sev).
Proof.
    intros [A1 B1] [A2 B2]. split.
    - intros i [Hi|Hi]%elem_of_app; [destruct (A1 i Hi)|destruct (A2 i Hi)]; auto.
    - intros k sev [(i & Hi & Hk)%B1|(i & Hi & Hk)%B2]; exists i; split; try done; apply elem_of_app; auto.
Qed.

Lemma states_ext o l (P Q : IKind → Severity → Prop) : (∀ k sev, P k sev ↔ Q k sev) → states o l P → states o l Q.
Proof. intros HPQ [A B]. split; [intros i Hi; by rewrite <- HPQ; apply A|]. intros k sev. rewrite <- HPQ. apply B. Qed.

Definition only (ks : list IKind) (o : Observation) (now : Time) (k : IKind) (sev : Severity) : Prop :=
    k ∈ ks ∧ calls_for o now k sev.

  (** A kind that the rules give under one condition, at one severity. *)
Ltac one_rule := intros k' sev'; unfold only; split;
    [intros [Hk Hc]; revert Hk; destruct Hc; rewrite ?list_elem_of_singleton, ?elem_of_cons, ?elem_of_nil;
     intros Hk; repeat (destruct Hk as [Hk|Hk]); try done; try congruence; try (split; congruence); try tauto; try (split; [done|]; tauto)
    |intros [-> ->]; split; [rewrite ?list_elem_of_singleton, ?elem_of_cons; tauto|]].

Lemma presence_states o now : states o (presence_incidents format_time o now) (only [NeverSeen; Offline] o now).
Proof.
    unfold presence_incidents.
    destruct ((o_LastSeen o ==? 0) && (Deployed o ==? "")) eqn:Hn.
    - apply andb_true_iff in Hn as [H1%bool_decide_eq_true H2%bool_decide_eq_true].
      apply states_one. one_rule. by apply cf_never.
    - assert (Hnn : ¬ (o_LastSeen o = 0 ∧ Deployed o = "")).
      { intros [H1 H2]. by rewrite H1, H2 in Hn. }
      destruct (negb (o_Online o) && (InactiveWindow <? time_sub now (o_LastSeen o))) eqn:Hoff.
      + apply andb_true_iff in Hoff as [H1%negb_true_iff H2%Z.ltb_lt].
        apply states_one. one_rule. by apply cf_offline.
      + apply andb_false_iff in Hoff. apply states_nil. intros k sev [Hk Hc]. revert Hk.
        destruct Hc; rewrite ?elem_of_cons, ?elem_of_nil; intros Hk; try (intuition done).
        destruct Hoff as [Hoff%negb_false_iff|Hoff%Z.ltb_ge]; [congruence|lia].
Qed.

Lemma source_states o now : states o (source_incidents o) (only [UnknownConfig] o now).
Proof.
    unfold source_incidents. destruct (unknownConfig o) eqn:Hu.
    - apply states_one. one_rule. by apply cf_unknown.
    - apply states_nil. intros k sev [Hk%list_elem_of_singleton Hc]. destruct Hc; congruence.
Qed.

Lemma behind_states o now : states o (behind_incidents o) (only [Behind] o now).
Proof.
    unfold behind_incidents. destruct (off_target o) eqn:Hoff.
    - pose proof (behind_spec o now) as Hb. split.
      + intros i ->%list_elem_of_singleton.
        destruct (proj1 (Hb _ _ Hoff) (conj eq_refl eq_refl)) as [Hk Hc]. split.
        * unfold behind_incident. by repeat case_match.
        * rewrite Hk. split; [left|done].
      + intros k sev [->%list_elem_of_singleton Hc]. exists (behind_incident o). split; [left|].
        by apply (Hb _ _ Hoff).
    - apply states_nil. intros k sev [Hk%list_elem_of_singleton Hc]. destruct Hc; congruence.
Qed.

Lemma core_states o now : states o (core_incidents o now) (only [CoreOutdated] o now).
Proof.
    unfold core_incidents. destruct (core_lags o) eqn:Hl; [destruct (core_overdue o now) eqn:Hd|].
    - apply states_one. one_rule. by apply cf_core_late.
    - apply states_one. one_rule. by apply cf_core.
    - apply states_nil. intros k sev [Hk%list_elem_of_singleton Hc]. destruct Hc; congruence.
Qed.

Lemma condition_states o now : states o (map (condition_incident o) (o_Failed o)) (only [PolicyCondition] o now).
Proof.
    split.
    - intros i (c & -> & Hc)%list_elem_of_fmap. split; [done|]. split; [left|]. by apply (cf_condition _ _ c).
    - intros k sev [->%list_elem_of_singleton Hc]. inversion Hc as [| | | | | | |c Hin| | | |]; subst.
      exists (condition_incident o c). split; [by apply list_elem_of_fmap_2|done].
Qed.

Lemma error_states o now : states o (error_incidents o) (only [ErroredStale; Errored] o now).
Proof.
    unfold error_incidents. destruct (o_Error o ==? "") eqn:He.
    - apply bool_decide_eq_true in He. apply states_nil. intros k sev [Hk Hc]. revert Hk.
      destruct Hc; rewrite ?elem_of_cons, ?elem_of_nil; intros Hk; intuition (done || congruence).
    - apply bool_decide_eq_false in He. destruct (onTarget o) eqn:Ht.
      + apply states_one. one_rule. by apply cf_stale.
      + apply states_one. one_rule. by apply cf_error.
Qed.

Lemma wipe_states o now : states o (wipe_incidents o) (only [WipeFailed; WipeRefused] o now).
Proof.
    assert (Hdiff : AckWipeFailed ≠ AckWipeRefused) by done.
    unfold wipe_incidents. destruct (o_Ack o ==? AckWipeFailed) eqn:H1; [apply bool_decide_eq_true in H1|].
    - apply states_one. one_rule. by apply cf_wipe_failed.
    - apply bool_decide_eq_false in H1. destruct (o_Ack o ==? AckWipeRefused) eqn:H2.
      + apply bool_decide_eq_true in H2. apply states_one. one_rule. by apply cf_wipe_refused.
      + apply bool_decide_eq_false in H2. apply states_nil. intros k sev [Hk Hc]. revert Hk.
        destruct Hc; rewrite ?elem_of_cons, ?elem_of_nil; intros Hk; intuition (done || congruence).
Qed.

Lemma incidents_of_states o now : states o (incidents_of format_time now o) (calls_for o now).
Proof.
    unfold incidents_of.
    eapply states_ext; [|repeat first [apply states_app; [by apply presence_states|]|apply states_app; [by apply source_states|]
      |apply states_app; [by apply behind_states|]|apply states_app; [by apply core_states|]
      |apply states_app; [by apply condition_states|]|apply states_app; [by apply error_states|]]; by apply wipe_states].
    intros k sev. cbv beta. unfold only. split; [intros H; repeat destruct H as [H|H]; by destruct H|].
    intros Hc. rewrite !elem_of_cons. destruct k; try tauto. inversion Hc.
Qed.
End rules.

(** ** The order *)

Lemma kind_string_inj k k' : kind_string k = kind_string k' → k = k'.
Proof. destruct k, k'; done. Qed.

#[export] Instance less_sw : StrictWeak less.
Proof.
  split.
  - intros a b. unfold less. rewrite (Z.eqb_sym (severity_int (in_Severity b))).
    destruct (Z.eqb_spec (severity_int (in_Severity a)) (severity_int (in_Severity b))) as [E|E]; simpl.
    + rewrite (bool_decide_ext (in_Kind b = in_Kind a) (in_Kind a = in_Kind b)) by (split; congruence).
      destruct (in_Kind a ==? in_Kind b); simpl; apply sw_asym.
    + rewrite Z.ltb_lt, Z.ltb_ge. lia.
  - intros a b c. unfold less.
    destruct (Z.eqb_spec (severity_int (in_Severity b)) (severity_int (in_Severity a))) as [E1|E1],
      (Z.eqb_spec (severity_int (in_Severity c)) (severity_int (in_Severity b))) as [E2|E2],
      (Z.eqb_spec (severity_int (in_Severity c)) (severity_int (in_Severity a))) as [E3|E3];
      simpl; rewrite ?Z.ltb_ge; try lia.
    destruct (in_Kind b ==? in_Kind a) eqn:K1, (in_Kind c ==? in_Kind b) eqn:K2, (in_Kind c ==? in_Kind a) eqn:K3; simpl;
      repeat match goal with
      | H : bool_decide _ = true |- _ => apply bool_decide_eq_true in H
      | H : bool_decide _ = false |- _ => apply bool_decide_eq_false in H
      end; try congruence; try apply sw_ntrans;
      match goal with
         | K : in_Kind b = in_Kind a |- _ => intros _; rewrite K; done
         | K : in_Kind c = in_Kind b |- _ => intros A _; rewrite K; done
         | K : in_Kind c = in_Kind a |- _ => intros A B; exfalso; rewrite K in B;
             pose proof (kind_string_inj _ _ (string_ltb_total _ _ A B)); congruence
         end.
Qed.

(** The compliance list is its rules.  An item of a kind and a severity is in
    the list for a device exactly when the device's observation calls for it;
    the list is every item of every device and nothing else, most urgent first;
    and no observation calls both for "unrecognised configuration" and for
    "behind", nor for a current and a past error, nor is a device that reported
    nothing of a core accused of an old one. *)
Theorem Detect_rules format_time obs now :
  (∀ tag k sev, (∃ i, i ∈ Detect format_time obs now ∧ in_Tag i = tag ∧ in_Kind i = k ∧ in_Severity i = sev) ↔
                ∃ o, o ∈ obs ∧ o_Tag o = tag ∧ calls_for o now k sev) ∧
  Detect format_time obs now ≡ₚ obs ≫= incidents_of format_time now ∧
  StronglySorted (in_order less) (Detect format_time obs now) ∧
  (∀ o s1 s2, calls_for o now UnknownConfig s1 → calls_for o now Behind s2 → False) ∧
  (∀ o s1 s2, calls_for o now Errored s1 → calls_for o now ErroredStale s2 → False) ∧
  (∀ o s, DeployedCore o = "" ∨ TargetCore o = "" → ¬ calls_for o now CoreOutdated s).
Proof.
  unfold Detect, sortBySeverity. split; [|split; [apply isort_perm|split; [apply isort_sorted, _|split; [|split]]]].
  - intros tag k sev. split.
    + intros (i & Hi & <- & <- & <-). rewrite elem_of_isort in Hi.
      apply list_elem_of_bind in Hi as (o & Hi & Ho). exists o. split; [done|].
      destruct (proj1 (incidents_of_states format_time o now) i Hi) as [Ht Hc]. by rewrite Ht.
    + intros (o & Ho & <- & Hc). destruct (proj2 (incidents_of_states format_time o now) k sev Hc) as (i & Hi & Hk & Hs).
      exists i. split; [|split; [|done]].
      * rewrite elem_of_isort. apply list_elem_of_bind. by exists o.
      * by apply (proj1 (incidents_of_states format_time o now) i Hi).
  - intros o s1 s2 H1 H2. assert (Hu : unknownConfig o = true) by by inversion H1.
    assert (Hoff : off_target o = true) by by inversion H2. unfold off_target in Hoff. by rewrite Hu in Hoff.
  - intros o s1 s2 H1 H2. inversion H1; inversion H2; congruence.
  - intros o s Hcore Hc. assert (Hl : core_lags o = true) by by inversion Hc. unfold core_lags in Hl.
    destruct Hcore as [Hcore|Hcore]; rewrite Hcore in Hl; simpl in Hl; [done|]. by rewrite andb_false_r in Hl.
Qed.
