(* ===== verification/Visibility.v ===== *)
(** * Read visibility (src/internal/domain/fleet/visibility.go)

    The document narrowed to what one principal may read, and what it discloses. *)

From S2P Require Import Prelude GoLib FleetModel Groups.

(** A range over a map that keeps the keys [p] accepts. *)
Lemma lookup_filter_keys {A} (p : string → bool) (m : gmap string A) k :
  filter (λ kv, p kv.1 = true) m !! k = if p k then m !! k else None.
Proof.
  destruct (p k) eqn:Hp.
  - destruct (m !! k) as [a|] eqn:Hk.
    + by apply map_lookup_filter_Some.
    + apply map_lookup_filter_None. by left.
  - apply map_lookup_filter_None. right. intros a _. simpl. by rewrite Hp.
Qed.

Section visible.
  Context (canView : string → bool).

Definition view_scope (scope : string) : bool := (scope ==? "org") || canView scope.

  (** The loop over the assignments: those kept, and the policies and filters
      they reference, by the kind of their target. *)
Definition kept_assignments (f : Fleet) : list Assignment := keep_if (λ a, view_scope (Target a)) (Assignments f).
Definition keepPolicy (f : Fleet) (id : string) : bool := existsb (λ a, a_Policy a ==? id) (kept_assignments f).
Definition keepFilterOrgOnly (f : Fleet) (id : string) : bool :=
    existsb (λ a, (a_Filter a !=? "") && (Target a ==? "org") && (a_Filter a ==? id)) (kept_assignments f).
Definition keepFilterFull (f : Fleet) (id : string) : bool :=
    existsb (λ a, (a_Filter a !=? "") && negb (Target a ==? "org") && (a_Filter a ==? id)) (kept_assignments f).

Definition redact (fl : Filter) : Filter := {| fl_Name := fl_Name fl; Match := Match fl; Rules := [] |}.

Definition visible_filter (f : Fleet) (id : string) (fl : Filter) : option Filter :=
    if keepFilterFull f id then Some fl
    else if keepFilterOrgOnly f id then Some (redact fl) else None.

Definition VisibleTo (f : Fleet) : Fleet :=
    if canView "org" then f else
    mkFleet (Version f) (Org f)
      (filter (λ kv, canView ("group:" +:+ kv.1) = true) (f_Groups f))
      (filter (λ kv, canView ("device:" +:+ kv.1) = true) (Devices f))
      ∅ ∅
      (filter (λ kv, keepPolicy f kv.1 = true) (Policies f))
      (kept_assignments f)
      (map_imap (visible_filter f) (Filters f))
      (keep_if (λ b, view_scope (b_Scope b)) (Access f))
      None (f_Assurance f).

  (** ** What is kept *)

Lemma VisibleTo_groups f name :
    canView "org" = false → f_Groups (VisibleTo f) !! name = if canView ("group:" +:+ name) then f_Groups f !! name else None.
Proof. intros Ho. unfold VisibleTo. rewrite Ho. apply (lookup_filter_keys (λ k, canView ("group:" +:+ k))). Qed.

Lemma VisibleTo_devices f tag :
    canView "org" = false → Devices (VisibleTo f) !! tag = if canView ("device:" +:+ tag) then Devices f !! tag else None.
Proof. intros Ho. unfold VisibleTo. rewrite Ho. apply (lookup_filter_keys (λ k, canView ("device:" +:+ k))). Qed.

Lemma VisibleTo_policies f id :
    canView "org" = false → Policies (VisibleTo f) !! id = if keepPolicy f id then Policies f !! id else None.
Proof. intros Ho. unfold VisibleTo. rewrite Ho. apply (lookup_filter_keys (keepPolicy f)). Qed.

Lemma VisibleTo_filters f id :
    canView "org" = false → Filters (VisibleTo f) !! id = Filters f !! id ≫= visible_filter f id.
Proof. intros Ho. unfold VisibleTo. rewrite Ho. simpl. by rewrite map_lookup_imap. Qed.

  (** ** Two documents a principal may not tell apart *)

  (** What the rules let the principal read: what concerns the organisation and
      what sits at a scope it may view. *)
Definition readable (ref : string) : Prop := ref = "org" ∨ canView ref = true.

Definition filter_face (fl : Filter) : string * string := (fl_Name fl, Match fl).

  (** The two documents agree on what is readable. *)
Record same_to_viewer (f f' : Fleet) : Prop := {
    sv_version : Version f = Version f';
    sv_org : Org f = Org f';
    sv_assurance : f_Assurance f = f_Assurance f';
    sv_groups : ∀ name, canView ("group:" +:+ name) = true → f_Groups f !! name = f_Groups f' !! name;
    sv_devices : ∀ tag, canView ("device:" +:+ tag) = true → Devices f !! tag = Devices f' !! tag;
    sv_assignments : filter (λ a, Target a = "org" ∨ canView (Target a) = true) (Assignments f) =
                     filter (λ a, Target a = "org" ∨ canView (Target a) = true) (Assignments f');
    sv_policies : ∀ a, a ∈ Assignments f → readable (Target a) →
      Policies f !! a_Policy a = Policies f' !! a_Policy a;
    sv_filters : ∀ a, a ∈ Assignments f → canView (Target a) = true → Target a ≠ "org" → a_Filter a ≠ "" →
      Filters f !! a_Filter a = Filters f' !! a_Filter a;
    sv_faces : ∀ a, a ∈ Assignments f → Target a = "org" → a_Filter a ≠ "" →
      filter_face <$> Filters f !! a_Filter a = filter_face <$> Filters f' !! a_Filter a;
    sv_access : filter (λ b, b_Scope b = "org" ∨ canView (b_Scope b) = true) (Access f) =
                filter (λ b, b_Scope b = "org" ∨ canView (b_Scope b) = true) (Access f')
  }.

Lemma view_scope_true ref : view_scope ref = true ↔ readable ref.
Proof. unfold view_scope, readable. by rewrite orb_true_iff, bool_decide_eq_true. Qed.

Lemma keep_readable {A} (scope : A → string) l :
    keep_if (λ a, view_scope (scope a)) l = filter (λ a, scope a = "org" ∨ canView (scope a) = true) l.
Proof. unfold keep_if. apply list_filter_iff. intros a. by rewrite view_scope_true. Qed.

Lemma same_assignments f f' : same_to_viewer f f' → kept_assignments f = kept_assignments f'.
Proof. intros Hs. unfold kept_assignments. rewrite !keep_readable. apply Hs. Qed.

Lemma elem_of_kept f a : a ∈ kept_assignments f ↔ a ∈ Assignments f ∧ readable (Target a).
Proof. unfold kept_assignments. rewrite elem_of_keep_if, view_scope_true. tauto. Qed.

Lemma keepPolicy_true f id :
    keepPolicy f id = true → ∃ a, a ∈ Assignments f ∧ readable (Target a) ∧ a_Policy a = id.
Proof.
    unfold keepPolicy. intros (a & Ha & He)%existsb_exists. apply bool_decide_eq_true in He.
    apply list_elem_of_In, elem_of_kept in Ha as [? ?]. eauto.
Qed.

Lemma keepFilterFull_true f id : keepFilterFull f id = true →
    ∃ a, a ∈ Assignments f ∧ canView (Target a) = true ∧ Target a ≠ "org" ∧ a_Filter a ≠ "" ∧ a_Filter a = id.
Proof.
    unfold keepFilterFull. intros (a & Ha & He)%existsb_exists. apply list_elem_of_In, elem_of_kept in Ha as [? Hr].
    rewrite !andb_true_iff, !negb_true_iff, !bool_decide_eq_false, bool_decide_eq_true in He.
    destruct He as [[? ?] ?]. destruct Hr; [done|eauto 6].
Qed.

Lemma keepFilterOrgOnly_true f id : keepFilterOrgOnly f id = true →
    ∃ a, a ∈ Assignments f ∧ Target a = "org" ∧ a_Filter a ≠ "" ∧ a_Filter a = id.
Proof.
    unfold keepFilterOrgOnly. intros (a & Ha & He)%existsb_exists. apply list_elem_of_In, elem_of_kept in Ha as [? Hr].
    rewrite !andb_true_iff, negb_true_iff, bool_decide_eq_false, !bool_decide_eq_true in He.
    destruct He as [[? ?] ?]. eauto 6.
Qed.

Lemma kept_determine f f' : kept_assignments f = kept_assignments f' →
    keepPolicy f = keepPolicy f' ∧ keepFilterFull f = keepFilterFull f' ∧ keepFilterOrgOnly f = keepFilterOrgOnly f'.
Proof. unfold keepPolicy, keepFilterFull, keepFilterOrgOnly. by intros ->. Qed.

Lemma fleet_eq (a b : Fleet) :
    Version a = Version b → Org a = Org b → f_Groups a = f_Groups b → Devices a = Devices b →
    Stations a = Stations b → SecretRefs a = SecretRefs b → Policies a = Policies b →
    Assignments a = Assignments b → Filters a = Filters b → Access a = Access b →
    Rollout a = Rollout b → f_Assurance a = f_Assurance b → a = b.
Proof. destruct a, b. simpl. intros; by subst. Qed.

  (** A viewer reads nothing else.  The narrowed document of a principal
      without an org binding is a function of what the rules name: two documents
      that agree on the visible groups, devices, assignments and bindings, on the
      policies and the filters those assignments reference - of a filter reached
      only from the org, its name and match kind - narrow to the same document,
      whatever the hidden groups, devices, rules, stations, secret references
      and rollout plan say. *)
Theorem viewer_reads_nothing_else f f' :
    canView "org" = false → same_to_viewer f f' → VisibleTo f = VisibleTo f'.
Proof.
    intros Ho Hs. destruct (kept_determine f f' (same_assignments f f' Hs)) as (Hp & Hff & Hfo).
    apply fleet_eq; try (unfold VisibleTo; rewrite Ho; simpl; rewrite ?keep_readable;
                         apply Hs || by apply same_assignments || reflexivity).
    - apply map_eq. intros name. rewrite !VisibleTo_groups by done.
      destruct (canView ("group:" +:+ name)) eqn:Hv; [by apply Hs|done].
    - apply map_eq. intros tag. rewrite !VisibleTo_devices by done.
      destruct (canView ("device:" +:+ tag)) eqn:Hv; [by apply Hs|done].
    - apply map_eq. intros id. rewrite !VisibleTo_policies, <- Hp by done.
      destruct (keepPolicy f id) eqn:Hv; [|done]. apply keepPolicy_true in Hv as (a & ? & ? & <-). by apply Hs.
    - apply map_eq. intros id. rewrite !VisibleTo_filters by done. unfold visible_filter.
      rewrite <- Hff, <- Hfo. destruct (keepFilterFull f id) eqn:Hv.
      { apply keepFilterFull_true in Hv as (a & ? & ? & ? & ? & <-). by rewrite (sv_filters f f' Hs a). }
      destruct (keepFilterOrgOnly f id) eqn:Hv2.
      + apply keepFilterOrgOnly_true in Hv2 as (a & Ha & Ht & Hn & <-).
        pose proof (sv_faces f f' Hs a Ha Ht Hn) as Hr. unfold redact.
        destruct (Filters f !! a_Filter a), (Filters f' !! a_Filter a); try done. injection Hr as Hn1 Hm.
        simpl. by rewrite Hn1, Hm.
      + by destruct (Filters f !! id), (Filters f' !! id).
Qed.
End visible.

(** ** Concrete viewers *)

(** A viewer of group "a" and of its devices. *)
Definition view_a (ref : string) : bool := (ref ==? "group:a") || (ref ==? "device:lt-1").

Definition member_of (gs : list string) : Device := zero_device <| Groups := gs |>.

(** An org-wide assignment behind a filter whose rules name a department. *)
Definition behind (g : string) : Filter :=
  {| fl_Name := "pilot"; Match := "any"; Rules := [{| Attr := "group"; r_Op := "eq"; r_Value := g; Values := [] |}] |}.
Definition org_wide : Assignment := {| a_Policy := "usb"; Target := "org"; a_Filter := "f1"; Priority := 0 |}.

Definition dept : Fleet := zero_fleet
  <| f_Groups := <["a" := zero_group <| Parent := "hq" |>]> (<["hq" := zero_group]> (<["b" := zero_group]> ∅)) |>
  <| Devices := <["lt-1" := member_of ["a"; "b"]]> (<["lt-2" := member_of ["b"]]> ∅) |>
  <| Assignments := [org_wide] |> <| Filters := <["f1" := behind "b"]> ∅ |>.

(** The same fleet with another department in place of "b", which the filter
    names. *)
Definition dept' : Fleet := dept
  <| f_Groups := <["a" := zero_group <| Parent := "hq" |>]> (<["c" := zero_group]> ∅) |>
  <| Devices := <["lt-1" := member_of ["a"; "b"]]> (<["lt-9" := member_of ["c"]]> ∅) |>
  <| Filters := <["f1" := behind "c"]> ∅ |>.

Lemma viewer_reads_nothing_else_witness :
  VisibleTo view_a dept = VisibleTo view_a dept' ∧ view_a "org" = false ∧
  Filters (VisibleTo view_a dept) !! "f1" = Some {| fl_Name := "pilot"; Match := "any"; Rules := [] |}.
Proof.
  split; [|split; reflexivity]. apply (viewer_reads_nothing_else view_a dept dept'); [reflexivity|].
  split; try reflexivity.
  - intros name Hn. apply orb_true_iff in Hn as [Hn%bool_decide_eq_true|Hn%bool_decide_eq_true].
    + apply (string_app_inj "group:" name "a") in Hn as ->. reflexivity.
    + discriminate.
  - intros tag Hn. apply orb_true_iff in Hn as [Hn%bool_decide_eq_true|Hn%bool_decide_eq_true].
    + discriminate.
    + apply (string_app_inj "device:" tag "lt-1") in Hn as ->. reflexivity.
  - intros a ->%list_elem_of_singleton Hv. discriminate.
  - intros a ->%list_elem_of_singleton _ _. reflexivity.
Defined.

(** The records that stay still name hidden groups: the parent of a visible group
    and the other memberships of a visible device. *)
Theorem hidden_groups_are_named :
  let v := VisibleTo view_a dept in
  f_Groups v !! "hq" = None ∧ f_Groups v !! "b" = None ∧
  Parent (grp v "a") = "hq" ∧ Groups (dev v "lt-1") = ["a"; "b"].
Proof. repeat split; vm_compute; reflexivity. Qed.
