(* ===== verification/Catalog.v ===== *)
(** * The settings catalog (src/internal/domain/fleet/catalog.go, classes.go)

    The vocabulary of the settings: the control of an entry, the parsing of what
    a form or the API submits into a typed value, and the order in which the
    console shows the entries. *)

From Stdlib Require Import SpecFloat.
From S2P Require Import Prelude GoLib FleetModel Groups Policies DeviceOps Text.

(** ** Numbers as text *)

Fixpoint digits_val (acc : Z) (s : string) : Z :=
  match s with
  | EmptyString => acc
  | String a s => digits_val (10 * acc + (Z.of_N (N_of_ascii a) - 48)) s
  end.

Fixpoint digit_prefix (s : string) : string :=
  match s with
  | String a s => if is_digit a then String a (digit_prefix s) else EmptyString
  | EmptyString => EmptyString
  end.

(** [fmt.Sscanf(s, "%d", &n)] of a text without leading space: a sign, digits,
    and whatever follows; an out-of-range number is an error. *)
Definition Sscanf_d (s : string) : option Z :=
  let '(neg, r) := match s with
                   | String a r => if Ascii.eqb a "-" then (true, r)
                                   else if Ascii.eqb a "+" then (false, r) else (false, s)
                   | EmptyString => (false, s)
                   end in
  let ds := digit_prefix r in
  if ds ==? "" then None else
  let n := if neg : bool then - digits_val 0 ds else digits_val 0 ds in
  if (min_int64 <=? n) && (n <=? max_int64) then Some n else None.

(** *** [strconv.FormatFloat(x, 'f', -1, 64)]

    The shortest decimal that reads back as [x]: with [v] the value, [lo] and
    [hi] half the distances to its neighbours, all times [scale], the largest
    power of ten of which a multiple lies between them, and the nearest such
    multiple.  The ends count when the significand is even. *)
Record Bounds := mkBounds { v : Z; lo : Z; hi : Z; even : bool; scale : Z }.

Definition near (b : Bounds) (k c : Z) : bool :=
  let p := 10 ^ (- k) in
  let d := if 0 <=? k then c * 10 ^ k * scale b - v b else c * scale b - v b * p in
  let h := (if d <? 0 then lo b else hi b) * (if 0 <=? k then 1 else p) in
  if even b then Z.abs d <=? h else Z.abs d <? h.

Definition candidate (b : Bounds) (k : Z) : option Z :=
  let num := if 0 <=? k then v b else v b * 10 ^ (- k) in
  let den := if 0 <=? k then scale b * 10 ^ k else scale b in
  let c := num / den in
  List.find (near b k) (if 2 * (num mod den) <=? den then [c; c + 1] else [c + 1; c]).

Fixpoint shortest (fuel : nat) (b : Bounds) (k : Z) : Z * Z :=
  match fuel with
  | O => (0, 0)
  | S fuel => match candidate b k with Some c => (c, k) | None => shortest fuel b (k - 1) end
  end.

Definition zeros (n : nat) : string := string_of_list_ascii (replicate n "0"%char).

(** [c * 10^k] written out, without an exponent. *)
Definition decimal (c k : Z) : string :=
  if 0 <=? k then pretty (c * 10 ^ k) else
  let frac := pretty (c mod 10 ^ (- k)) in
  pretty (c / 10 ^ (- k)) +:+ "." +:+ zeros (Z.to_nat (- k) - String.length frac) +:+ frac.

(** The neighbour below a power of two is nearer. *)
Definition bounds (m : positive) (e : Z) : Bounds :=
  let sh := Z.max 0 (2 - e) in
  let hi := 2 ^ (e + sh - 1) in
  let lo := if (Z.pos m =? 2 ^ 52) && (-1074 <? e) then 2 ^ (e + sh - 2) else hi in
  mkBounds (Z.pos m * 2 ^ (e + sh)) lo hi (Z.even (Z.pos m)) (2 ^ sh).

(** Decimal exponents of a binary64: at most 308, at least -324. *)
Definition FormatFloat (x : spec_float) : string :=
  match x with
  | S754_zero s => if s then "-0" else "0"
  | S754_infinity s => if s then "-Inf" else "+Inf"
  | S754_nan => "NaN"
  | S754_finite s m e =>
      let '(c, k) := shortest 640 (bounds m e) 309 in
      (if s then "-" else "") +:+ decimal c k
  end.

(** ** Entries *)

Record CatalogEntry := mkEntry {
  ce_Name : string; ce_Label : string; ce_Type : string; WidgetHint : string;
  ce_Description : string; ce_Default : option Value; RiskClass : string; Secret : bool;
  Classes : list string
}.

Definition AppliesTo (e : CatalogEntry) (class : string) : bool :=
  (Classes e ==? []) || (class ==? "") || (class ∈? Classes e).

Definition DisplayName (e : CatalogEntry) : string :=
  if ce_Label e !=? "" then ce_Label e else ce_Name e.

(** A Go [Widget] is a string; these are the ones [knownWidget] accepts. *)
Inductive Widget :=
  | WidgetToggle | WidgetNumber | WidgetSelect | WidgetText
  | WidgetSecret | WidgetCode | WidgetTimeRange | WidgetFixedList.
#[export] Instance Widget_eq_dec : EqDecision Widget.
Proof. solve_decision. Defined.

Definition knownWidget (w : string) : option Widget :=
  if w ==? "toggle" then Some WidgetToggle else if w ==? "number" then Some WidgetNumber
  else if w ==? "select" then Some WidgetSelect else if w ==? "text" then Some WidgetText
  else if w ==? "secret" then Some WidgetSecret else if w ==? "code" then Some WidgetCode
  else if w ==? "timerange" then Some WidgetTimeRange else if w ==? "fixedlist" then Some WidgetFixedList
  else None.

Definition type_widget (type : string) : Widget :=
  let t := to_lower type in
  if t ==? "boolean" then WidgetToggle
  else if contains t "integer" then WidgetNumber
  else if has_prefix t "one of" then WidgetSelect
  else if has_prefix t "list of" then WidgetCode
  else WidgetText.

Definition widget (e : CatalogEntry) : Widget :=
  if Secret e then WidgetSecret
  else match knownWidget (WidgetHint e) with Some w => w | None => type_widget (ce_Type e) end.

(** [strings.Trim] of double quotes. *)
Fixpoint drop_while (p : ascii → bool) (l : list ascii) : list ascii :=
  match l with a :: r => if p a then drop_while p r else l | [] => [] end.
Definition trim_quotes (s : string) : string :=
  let q := Ascii.eqb "034" in
  string_of_list_ascii (reverse (drop_while q (reverse (drop_while q (list_ascii_of_string s))))).

Definition Options (e : CatalogEntry) : list string :=
  if negb (has_prefix (to_lower (ce_Type e)) "one of ") then []
  else keep_if (λ v, v !=? "")
         (map (λ part, trim_quotes (trim_space part))
              (split_on "," (substring 7 (String.length (ce_Type e) - 7) (ce_Type e)))).

Definition Category (e : CatalogEntry) : string :=
  match cut_at "." (ce_Name e) with
  | Some (c, _) => if c ==? "" then "general" else c
  | None => "general"
  end.

(** ** Values *)

(** [timeRangeRE]. *)
Definition clock (a b c d : ascii) : bool :=
  (((a ∈? ["0"; "1"]%char) && is_digit b) || (Ascii.eqb a "2" && in_range "0" "3" b))
  && in_range "0" "5" c && is_digit d.
Definition timeRangeRE (s : string) : bool :=
  match list_ascii_of_string s with
  | [a; b; c1; c; d; dash; a'; b'; c2; c'; d'] =>
      clock a b c d && clock a' b' c' d' && Ascii.eqb c1 ":" && Ascii.eqb dash "-" && Ascii.eqb c2 ":"
  | _ => false
  end.

Inductive CatalogErr :=
  | NotAReference (name : string)
  | NotABool (name : string)
  | NotAnInteger (name : string)
  | NotPositive (name : string)
  | NotUnsigned (name : string)
  | NotAnOption (name : string) (options : list string)
  | NotATimeRange (name : string)
  | NoItems (name : string)
  | ItemNotText (name : string) (i : nat)
  | ItemLineBreak (name : string) (i : nat)
  | CannotTake (name : string)
  | CatalogParse (e : string)
  | DuplicateEntry (name : string).

Definition line_feed : ascii := "010".

Definition list_items (s : string) : list string :=
  keep_if (λ v, v !=? "") (map trim_space (split_on line_feed s)).

Definition ParseValue (e : CatalogEntry) (s : string) : res CatalogErr Value :=
  let name := ce_Name e in
  match widget e with
  | WidgetSecret => if (s !=? "") && negb (ValidateSlug s) then Err (NotAReference name) else Ok (VString s)
  | WidgetToggle =>
      if s ∈? ["true"; "on"] then Ok (VBool true)
      else if s ∈? ["false"; "off"; ""] then Ok (VBool false)
      else Err (NotABool name)
  | WidgetNumber =>
      match Sscanf_d s with
      | None => Err (NotAnInteger name)
      | Some n =>
          if pretty n !=? s then Err (NotAnInteger name) else
          let t := to_lower (ce_Type e) in
          if contains t "positive" && (n <=? 0) then Err (NotPositive name)
          else if (contains t "unsigned" || contains t "non-negative") && (n <? 0) then Err (NotUnsigned name)
          else Ok (VInt n)
      end
  | WidgetSelect => if s ∈? Options e then Ok (VString s) else Err (NotAnOption name (Options e))
  | WidgetTimeRange => if timeRangeRE s then Ok (VString s) else Err (NotATimeRange name)
  | WidgetCode | WidgetFixedList =>
      match list_items s with
      | [] => Err (NoItems name)
      | out => Ok (VList (VString <$> out))
      end
  | WidgetText => Ok (VString s)
  end.

Fixpoint raw_items (name : string) (i : nat) (l : list Value) : res CatalogErr (list string) :=
  match l with
  | [] => Ok []
  | VString s :: l =>
      if contains_any s [line_feed; "013"%char] then Err (ItemLineBreak name i)
      else let! out := raw_items name (S i) l in Ok (s :: out)
  | _ :: _ => Err (ItemNotText name i)
  end.

Definition RawFromValue (e : CatalogEntry) (v : Value) : res CatalogErr string :=
  match v with
  | VNull => Ok ""
  | VString s => Ok s
  | VBool b => Ok (if b then "true" else "false")
  | VFloat x => Ok (FormatFloat x)
  | VList l => let! out := raw_items (ce_Name e) 1 l in Ok (join out (String line_feed ""))
  | _ => Err (CannotTake (ce_Name e))
  end.

(** ** The catalog *)

Record SettingsCatalog := mkCatalog { Entries : list CatalogEntry; byName : gmap string CatalogEntry }.

Fixpoint index_entries (seen : gmap string CatalogEntry) (l : list CatalogEntry)
    : res CatalogErr (gmap string CatalogEntry) :=
  match l with
  | [] => Ok seen
  | e :: l => match seen !! ce_Name e with Some _ => Err (DuplicateEntry (ce_Name e)) | None =>
      index_entries (<[ce_Name e := e]> seen) l end
  end.

Definition entry_less (a b : CatalogEntry) : bool := String.ltb (ce_Name a) (ce_Name b).

(** [ParseCatalog], from what [json.Unmarshal] makes of the file: no bytes are
    no entries. *)
Definition BuildCatalog (entries : list CatalogEntry) : res CatalogErr SettingsCatalog :=
  let entries := isort entry_less entries in
  let! m := index_entries ∅ entries in Ok (mkCatalog entries m).

Definition Lookup (c : SettingsCatalog) (name : string) : option CatalogEntry := byName c !! name.

Definition Categories (c : SettingsCatalog) : list string :=
  sort_strings (remove_dups (map Category (Entries c))).

Definition has_suffix (s suffix : string) : bool :=
  has_prefix (string_of_list_ascii (reverse (list_ascii_of_string s)))
             (string_of_list_ascii (reverse (list_ascii_of_string suffix))).

(** [strings.Join(parts[:i], ".") + ".enable"], for [i] from the last part down. *)
Fixpoint enclosing_gate (c : SettingsCatalog) (parts : list string) (i : nat) : string :=
  match i with
  | O => ""
  | S j =>
      let q := join (take i parts) "." +:+ ".enable" in
      match Lookup c q with Some _ => q | None => enclosing_gate c parts j end
  end.

Definition Requires (c : SettingsCatalog) (key : string) : string :=
  if has_suffix key ".enable" then "" else
  let parts := split_on "." key in enclosing_gate c parts (length parts - 1).

Definition gate_less (c : SettingsCatalog) (a b : CatalogEntry) : bool :=
  let ga := Requires c (ce_Name a) in
  let gb := Requires c (ce_Name b) in
  if ga !=? gb then String.ltb ga gb else String.ltb (ce_Name a) (ce_Name b).

Definition SortGateFirst (c : SettingsCatalog) : list CatalogEntry → list CatalogEntry := isort (gate_less c).

Definition ByCategory (c : SettingsCatalog) (cat : string) : list CatalogEntry :=
  SortGateFirst c (keep_if (λ e, Category e ==? cat) (Entries c)).

(** ** The classes a scope covers (classes.go) *)

Definition ClassesIn (f : Fleet) (target : string) : list string :=
  sort_strings (remove_dups (map (λ tag, Class (dev f tag)) (TargetDevices f target))).

Definition ReachesNothing (f : Fleet) (e : CatalogEntry) (target : string) : bool * list string :=
  match ClassesIn f target with
  | [] => (false, [])
  | classes => (negb (existsb (AppliesTo e) classes), classes)
  end.

(** ** Numbers read back *)

Lemma digit_char_val (n : N) : (n < 10)%N →
  is_digit (pretty_N_char n) = true ∧ Z.of_N (N_of_ascii (pretty_N_char n)) - 48 = Z.of_N n.
Proof.
  intros Hn. destruct n as [|p]; [done|]. do 4 (destruct p as [p|p|]; try done; try lia).
Qed.

Lemma digits_val_go (x : N) s :
  digits_val 0 (pretty_N_go x s) = digits_val (Z.of_N x) s ∧
  (string_forall is_digit s = true → string_forall is_digit (pretty_N_go x s) = true).
Proof.
  revert s. induction (N.lt_wf_0 x) as [x _ IH]. intros s.
  destruct (decide (x = 0%N)) as [->|Hx]; [done|].
  rewrite pretty_N_go_step by lia.
  pose proof (N.mod_lt x 10) as Hm. destruct (digit_char_val (x mod 10)) as [Hd Hv]; [lia|].
  destruct (IH (x / 10)%N) with (s := String (pretty_N_char (x mod 10)) s) as (H1 & H2).
  { apply N.div_lt; lia. }
  split.
  - rewrite H1. simpl. rewrite Hv. f_equal. pose proof (N.div_mod x 10). lia.
  - intros Hs. apply H2. simpl. by rewrite Hd, Hs.
Qed.

Lemma pretty_N_digits (x : N) :
  string_forall is_digit (pretty x) = true ∧ digits_val 0 (pretty x) = Z.of_N x ∧ pretty x ≠ "".
Proof.
  unfold pretty, pretty_N. case_decide as Hx; [subst; done|].
  destruct (digits_val_go x "") as (H1 & H2). split; [by apply H2|]. split; [done|].
  intros He. rewrite He in H1. simpl in H1. lia.
Qed.

Lemma digit_prefix_all s : string_forall is_digit s = true → digit_prefix s = s.
Proof.
  induction s as [|a s IH]; simpl; [done|]. intros [Ha Hs]%andb_true_iff. by rewrite Ha, IH.
Qed.

Lemma digits_unsigned s : string_forall is_digit s = true →
  match s with
  | String a r => if Ascii.eqb a "-" then (true, r)
                  else if Ascii.eqb a "+" then (false, r) else (false, s)
  | EmptyString => (false, s)
  end = (false, s).
Proof.
  destruct s as [|a s]; [done|]. simpl. intros [Ha _]%andb_true_iff.
  destruct (Ascii.eqb_spec a "-") as [->|]; [done|]. by destruct (Ascii.eqb_spec a "+") as [->|].
Qed.

Lemma Sscanf_pretty n : min_int64 ≤ n ≤ max_int64 → Sscanf_d (pretty n) = Some n.
Proof.
  intros [Hlo Hhi].
  assert (Hpos : ∀ x, string_forall is_digit (pretty (N.pos x)) = true ∧ digits_val 0 (pretty (N.pos x)) = Z.pos x
                   ∧ pretty (N.pos x) ≠ "") by (intros x; apply (pretty_N_digits (N.pos x))).
  assert (Hr : (min_int64 <=? n) && (n <=? max_int64) = true) by (apply andb_true_iff; lia).
  destruct n as [|x|x]; [done| |]; destruct (Hpos x) as (Hd & Hv & Hne); unfold Sscanf_d.
  - change (pretty (Z.pos x)) with (pretty (N.pos x)). rewrite digits_unsigned, digit_prefix_all by done.
    rewrite bool_decide_eq_false_2 by done. by rewrite Hv, Hr.
  - change (pretty (Z.neg x)) with (String "-" (pretty (N.pos x))). cbn [Ascii.eqb Bool.eqb andb].
    cbv zeta. rewrite digit_prefix_all by done. rewrite bool_decide_eq_false_2 by done. rewrite Hv.
    change (- Z.pos x) with (Z.neg x). by rewrite Hr.
Qed.

(** *** A float that is an integer prints as the integer *)

Lemma near_integer b k c z :
  v b = z * scale b → 0 < scale b → 0 ≤ lo b → 0 ≤ hi b → 2 * lo b ≤ scale b → 2 * hi b ≤ scale b → 0 ≤ k →
  near b k c = true → c * 10 ^ k = z.
Proof.
  intros Hv Hs Hl0 Hh0 Hl Hh Hk. unfold near. rewrite (proj2 (Z.leb_le 0 k)) by done. rewrite Hv.
  set (d := c * 10 ^ k * scale b - z * scale b). rewrite Z.mul_1_r.
  assert (Hb : 2 * (if d <? 0 then lo b else hi b) ≤ scale b) by (destruct (d <? 0); lia).
  intros Hd.
  assert (Habs : 2 * Z.abs d ≤ scale b) by (destruct (even b); lia).
  subst d. assert (Hf : Z.abs ((c * 10 ^ k - z) * scale b) = Z.abs (c * 10 ^ k - z) * scale b).
  { rewrite Z.abs_mul. f_equal. lia. }
  rewrite <- Z.mul_sub_distr_r, Hf in Habs. nia.
Qed.

Lemma candidate_integer b z : v b = z * scale b → 0 < scale b → 0 < hi b → candidate b 0 = Some z.
Proof.
  intros Hv Hs Hh. unfold candidate. simpl. rewrite Z.mul_1_r, Hv, Z.div_mul, Z.mod_mul by lia.
  rewrite (proj2 (Z.leb_le (2 * 0) (scale b))) by lia. simpl. unfold near. simpl.
  rewrite Hv, !Z.mul_1_r, Z.sub_diag. simpl. rewrite ?Z.mul_1_r.
  assert (Hin : (if even b then 0 <=? hi b else 0 <? hi b) = true) by (destruct (even b); lia).
  rewrite Z.abs_0. by rewrite Hin.
Qed.

Lemma shortest_integer b z fuel k :
  v b = z * scale b → 0 < scale b → 0 ≤ lo b → 0 < hi b → 2 * lo b ≤ scale b → 2 * hi b ≤ scale b →
  0 ≤ k < Z.of_nat fuel →
  ∃ c k', shortest fuel b k = (c, k') ∧ 0 ≤ k' ∧ c * 10 ^ k' = z.
Proof.
  intros Hv Hs Hl0 Hh0 Hl Hh. revert k. induction fuel as [|fuel IH]; intros k Hk; [lia|]. simpl.
  destruct (candidate b k) as [c|] eqn:Hc.
  - exists c, k. split; [done|]. split; [lia|]. apply find_some in Hc as [_ Hn].
    by apply (near_integer b); try lia.
  - destruct (decide (k = 0)) as [->|Hk0]; [by rewrite (candidate_integer b z) in Hc|].
    apply IH. lia.
Qed.

(** [z] is the value of [x], a float below 2^53 and so without a fraction bit to
    spare. *)
Inductive float_of (z : Z) : spec_float → Prop :=
  | float_zero : z = 0 → float_of z (S754_zero false)
  | float_int s m e : e ≤ 0 → Z.pos m = Z.abs z * 2 ^ (- e) → s = (z <? 0) → float_of z (S754_finite s m e).

Lemma FormatFloat_integer z x : float_of z x → FormatFloat x = pretty z.
Proof.
  destruct 1 as [->|s m e He Hm ->]; [done|]. unfold FormatFloat.
  assert (Hsh : Z.max 0 (2 - e) = 2 - e) by lia.
  assert (Hpow : 2 ^ (2 - e) = 4 * 2 ^ (- e)) by (replace (2 - e) with (2 + - e) by lia; rewrite Z.pow_add_r by lia; lia).
  assert (Hpos : 0 < 2 ^ (- e)) by (apply Z.pow_pos_nonneg; lia).
  destruct (shortest_integer (bounds m e) (Z.abs z) 640 309) as (c & k & -> & Hk & Hz).
  1-6: unfold bounds; simpl; rewrite ?Hsh, ?Hpow.
  - replace (e + (2 - e)) with 2 by lia. rewrite Hm. lia.
  - lia.
  - destruct (_ && _); [apply Z.pow_nonneg; lia|]. apply Z.pow_nonneg; lia.
  - replace (e + (2 - e) - 1) with 1 by lia. done.
  - replace (e + (2 - e) - 1) with 1 by lia. replace (e + (2 - e) - 2) with 0 by lia. destruct (_ && _); lia.
  - replace (e + (2 - e) - 1) with 1 by lia. lia.
  - lia.
  - unfold decimal. rewrite (proj2 (Z.leb_le 0 k)), Hz by done. destruct z as [|p|p]; [lia| |]; done.
Qed.

(** ** What a setting may hold *)

Definition one_line (s : string) : Prop := string_forall (λ a, negb (a ∈? [line_feed; "013"%char])) s = true.
Definition is_item (s : string) : Prop :=
  s ≠ "" ∧ trim_space s = s ∧ string_forall (λ a, negb (Ascii.eqb a line_feed)) s = true.

(** The values of an entry, by its control. *)
Inductive holds (e : CatalogEntry) : Value → Prop :=
  | holds_reference s : widget e = WidgetSecret → s = "" ∨ ValidateSlug s = true → holds e (VString s)
  | holds_bool b : widget e = WidgetToggle → holds e (VBool b)
  | holds_integer n : widget e = WidgetNumber → min_int64 ≤ n ≤ max_int64 →
      (contains (to_lower (ce_Type e)) "positive" = true → 0 < n) →
      (contains (to_lower (ce_Type e)) "unsigned" = true ∨ contains (to_lower (ce_Type e)) "non-negative" = true → 0 ≤ n) →
      holds e (VInt n)
  | holds_option s : widget e = WidgetSelect → s ∈ Options e → holds e (VString s)
  | holds_range s : widget e = WidgetTimeRange → timeRangeRE s = true → holds e (VString s)
  | holds_items l : widget e = WidgetCode ∨ widget e = WidgetFixedList → l ≠ [] → Forall is_item l →
      holds e (VList (VString <$> l))
  | holds_text s : widget e = WidgetText → holds e (VString s).

(** The same value as the API decodes it from JSON, which has one number type. *)
Inductive json_form : Value → Value → Prop :=
  | form_bool b : json_form (VBool b) (VBool b)
  | form_text s : json_form (VString s) (VString s)
  | form_number n x : float_of n x → json_form (VInt n) (VFloat x)
  | form_items l : Forall one_line l → json_form (VList (VString <$> l)) (VList (VString <$> l)).

Lemma list_items_join l : l ≠ [] → Forall is_item l → list_items (join l (String line_feed "")) = l.
Proof.
  intros Hne Hl. unfold list_items. rewrite split_on_join; [|done|].
  - induction Hl as [|s l (Hs & Ht & _) _ IH]; [done|]. rewrite map_cons, keep_if_cons, Ht.
    rewrite bool_decide_eq_false_2 by done. simpl. f_equal. destruct l; [done|]. by apply IH.
  - eapply Forall_impl; [exact Hl|]. by intros s (_ & _ & ?).
Qed.

Lemma list_items_are s : Forall is_item (list_items s).
Proof.
  apply Forall_forall. intros w. unfold list_items. rewrite elem_of_keep_if, negb_true_iff, bool_decide_eq_false.
  intros [(t & -> & Ht)%list_elem_of_fmap Hne]. split; [done|]. split; [apply trim_space_idemp|].
  apply trim_space_forall. by apply (proj1 (Forall_forall _ _) (split_on_pieces line_feed s)).
Qed.

Lemma raw_items_ok name i l : Forall one_line l → raw_items name i (VString <$> l) = Ok l.
Proof.
  intros Hl. revert i. induction Hl as [|s l Hs _ IH]; intros i; [done|]. simpl.
  apply contains_any_false in Hs. rewrite Hs. by rewrite IH.
Qed.

Lemma holds_parse e v : holds e v → ∃ s, ParseValue e s = Ok v ∧ ∀ w, json_form v w → RawFromValue e w = Ok s.
Proof.
  unfold ParseValue.
  destruct 1 as [s Hw Hs|b Hw|n Hw Hn Hpos Huns|s Hw Hs|s Hw Hs|l Hw Hne Hl|s Hw]; try rewrite Hw.
  - exists s. split; [|by inversion 1]. destruct (s !=? "") eqn:He; [|done]. apply neqb_true in He.
    by destruct Hs as [?| ->].
  - exists (if b then "true" else "false"). split; [by destruct b|by inversion 1].
  - exists (pretty n). split.
    + rewrite Sscanf_pretty by done. rewrite bool_decide_eq_true_2 by done. simpl.
      destruct (contains (to_lower (ce_Type e)) "positive"); simpl.
      * rewrite (proj2 (Z.leb_gt n 0)) by (by apply Hpos). rewrite (proj2 (Z.ltb_ge n 0)) by (specialize (Hpos eq_refl); lia).
        by rewrite andb_false_r.
      * destruct (_ || _) eqn:Hu; [|done]. apply orb_true_iff in Hu. by rewrite (proj2 (Z.ltb_ge n 0)) by (by apply Huns).
    + inversion 1; subst. simpl. by rewrite (FormatFloat_integer n).
  - exists s. split; [|by inversion 1]. by rewrite bool_decide_eq_true_2.
  - exists s. split; [|by inversion 1]. by rewrite Hs.
  - exists (join l (String line_feed "")). rewrite list_items_join by done. split.
    + destruct Hw as [-> | ->]; by destruct l.
    + inversion 1 as [| | |l' Hl' Heq]; subst. apply list_fmap_eq_inj in Heq; [|by intros ?? [= ->]]. subst.
      simpl. by rewrite raw_items_ok.
  - exists s. split; [done|by inversion 1].
Qed.

Lemma parse_holds e s v : ParseValue e s = Ok v → holds e v.
Proof.
  unfold ParseValue. destruct (widget e) eqn:Hw.
  - case_bool_decide; [intros [= <-]; by constructor|]. case_bool_decide; [intros [= <-]; by constructor|done].
  - destruct (Sscanf_d s) as [n|] eqn:Hn; [|done]. destruct (pretty n !=? s) eqn:Hp; [done|].
    assert (Hr : min_int64 ≤ n ≤ max_int64).
    { unfold Sscanf_d in Hn. repeat case_match; try done; simplify_eq; lia. }
    destruct (contains _ "positive" && (n <=? 0)) eqn:Hpos; [done|].
    destruct ((_ || _) && (n <? 0)) eqn:Huns; [done|]. intros [= <-]. constructor; [done|done| |].
    + intros Hc. rewrite Hc in Hpos. simpl in Hpos. lia.
    + intros Hc. rewrite (proj2 (orb_true_iff _ _) Hc) in Huns. simpl in Huns. lia.
  - case_bool_decide; [|done]. intros [= <-]. by apply holds_option.
  - intros [= <-]. by apply holds_text.
  - destruct ((s !=? "") && negb (ValidateSlug s)) eqn:Hs; [done|]. intros [= <-]. apply holds_reference; [done|].
    apply andb_false_iff in Hs as [Hs|Hs]; [left; by apply negb_false_iff, bool_decide_eq_true in Hs|right].
    by apply negb_false_iff.
  - pose proof (list_items_are s) as Hi. destruct (list_items s) as [|x l] eqn:Hl; [done|].
    intros [= <-]. apply (holds_items e (x :: l)); [by left|done|done].
  - destruct (timeRangeRE s) eqn:Hs; [|done]. intros [= <-]. by apply holds_range.
  - pose proof (list_items_are s) as Hi. destruct (list_items s) as [|x l] eqn:Hl; [done|].
    intros [= <-]. apply (holds_items e (x :: l)); [by right|done|done].
Qed.

(** The parser of settings is exactly its types, and the API and the form
    meet in it.  A text parses to a value only when the value is one the control
    holds - a reference, a boolean, an integer of the declared sign, a listed
    option, a time range, a non-empty list of trimmed lines, a text - every such
    value has a text, and the JSON form of the value is rendered to that text, so
    a list stays the list and a number never turns into an exponent. *)
Theorem settings_round_trip e v :
  (holds e v ↔ ∃ s, ParseValue e s = Ok v) ∧
  (∀ w s, holds e v → json_form v w → RawFromValue e w = Ok s → ParseValue e s = Ok v) ∧
  (∀ w, holds e v → json_form v w → is_ok (RawFromValue e w) = true).
Proof.
  split; [split; [intros (s & Hs & _)%holds_parse; eauto|intros [s Hs]; by eapply parse_holds]|]. split.
  - intros w s (s' & Hs' & Hj)%holds_parse Hw. rewrite (Hj w Hw). by intros [= ->].
  - intros w (s' & _ & Hj)%holds_parse Hw. by rewrite (Hj w Hw).
Qed.

(** ** Gates lead *)

Lemma has_suffix_app p s : has_suffix (p +:+ s) s = true.
Proof.
  unfold has_suffix. apply has_prefix_spec.
  assert (Hp : ∀ a b : string, list_ascii_of_string (a +:+ b) = list_ascii_of_string a ++ list_ascii_of_string b).
  { intros a b. induction a as [|c a IH]; [done|]. exact (f_equal (cons c) IH). }
  assert (Hq : ∀ a b, string_of_list_ascii (a ++ b) = string_of_list_ascii a +:+ string_of_list_ascii b).
  { intros a b. induction a as [|c a IH]; [done|]. exact (f_equal (String c) IH). }
  rewrite Hp, reverse_app, Hq. eauto.
Qed.

Lemma enclosing_gate_spec c parts i :
  enclosing_gate c parts i = "" ∨
  (∃ p, enclosing_gate c parts i = p +:+ ".enable") ∧ is_Some (Lookup c (enclosing_gate c parts i)).
Proof.
  induction i as [|i IH]; [by left|]. cbn [enclosing_gate]. cbv zeta.
  destruct (Lookup c (join (take (S i) parts) "." +:+ ".enable")) eqn:Hl; [|done]. right. split; [eauto|]. by rewrite Hl.
Qed.

Lemma Requires_spec c key : Requires c key ≠ "" →
  has_suffix key ".enable" = false ∧ has_suffix (Requires c key) ".enable" = true ∧ is_Some (Lookup c (Requires c key)).
Proof.
  unfold Requires. destruct (has_suffix key ".enable"); [done|]. intros Hne. split; [done|].
  destruct (enclosing_gate_spec c (split_on "." key) (length (split_on "." key) - 1)) as [?|[[p Hp] ?]]; [done|].
  split; [|done]. rewrite Hp. apply has_suffix_app.
Qed.

(** A gate is itself ungated, and the catalog has it. *)
Lemma Requires_gate c key : Requires c key ≠ "" → Requires c (Requires c key) = "".
Proof. intros (_ & Hs & _)%Requires_spec. unfold Requires at 1. by rewrite Hs. Qed.

(** A comparison by a text first. *)
Lemma by_text_sw {A} (k : A → string) (less : A → A → bool) : StrictWeak less →
  StrictWeak (λ a b, if k a !=? k b then String.ltb (k a) (k b) else less a b).
Proof.
  intros Hsw. split.
  - intros a b. rewrite (bool_decide_ext (k b = k a) (k a = k b)) by (split; congruence).
    destruct (k a ==? k b); simpl; [apply sw_asym|apply (sw_asym (less := String.ltb))].
  - intros a b c.
    destruct (decide (k b = k a)) as [E1|E1], (decide (k c = k b)) as [E2|E2], (decide (k c = k a)) as [E3|E3];
      rewrite ?(bool_decide_eq_true_2 _ E1), ?(bool_decide_eq_false_2 _ E1), ?(bool_decide_eq_true_2 _ E2),
        ?(bool_decide_eq_false_2 _ E2), ?(bool_decide_eq_true_2 _ E3), ?(bool_decide_eq_false_2 _ E3); simpl;
      try congruence; try (apply (sw_ntrans (less := less))); try (apply (sw_ntrans (less := String.ltb))).
    intros H1 H2. exfalso. rewrite E3 in H2. by apply E1, string_ltb_total.
Qed.

#[export] Instance gate_less_sw c : StrictWeak (gate_less c).
Proof.
  apply (by_text_sw (λ e, Requires c (ce_Name e)) (λ a b, String.ltb (ce_Name a) (ce_Name b))).
  split; intros; [by apply (sw_asym (less := String.ltb))|by eapply (sw_ntrans (less := String.ltb))].
Qed.

(** A switch is shown before everything it switches, in any listing. *)
Theorem gates_lead c l i j x y :
  SortGateFirst c l !! i = Some x → SortGateFirst c l !! j = Some y →
  Requires c (ce_Name x) = ce_Name y → ce_Name y ≠ "" → (j < i)%nat.
Proof.
  intros Hi Hj Hr Hne.
  pose proof (Requires_gate c (ce_Name x)) as Hg. rewrite Hr in Hg. specialize (Hg Hne).
  destruct (decide (j < i)%nat); [done|]. exfalso.
  destruct (decide (i = j)) as [->|Hij].
  { rewrite Hi in Hj. injection Hj as ->. congruence. }
  pose proof (isort_sorted (gate_less c) l) as Hs. fold (SortGateFirst c l) in Hs.
  assert (Ho : in_order (gate_less c) x y).
  { rewrite <- (take_drop (S i) (SortGateFirst c l)) in Hs.
    eapply StronglySorted_app_1_elem_of; [exact Hs| |].
    - apply (list_elem_of_lookup_2 _ i). rewrite lookup_take_lt by lia. done.
    - apply (list_elem_of_lookup_2 _ (j - S i)). rewrite lookup_drop. by replace (S i + (j - S i))%nat with j by lia. }
  unfold in_order, gate_less in Ho. rewrite Hg, Hr in Ho.
  rewrite bool_decide_eq_false_2 in Ho by done. simpl in Ho. by destruct (ce_Name y).
Qed.

(** ** The catalog finds its entries *)

Lemma index_entries_lookup l seen m : index_entries seen l = Ok m →
  NoDup (map ce_Name l) ∧ (∀ e, e ∈ l → seen !! ce_Name e = None) ∧
  ∀ k, m !! k = match List.find (λ e, ce_Name e ==? k) l with Some e => Some e | None => seen !! k end.
Proof.
  revert seen. induction l as [|e l IH]; intros seen; simpl.
  { intros [= <-]. split; [constructor|]. split; [by intros e []%elem_of_nil|done]. }
  destruct (seen !! ce_Name e) eqn:Hs; [done|]. intros (Hnd & Hfresh & Hm)%IH. split; [|split].
  - constructor; [|done]. intros (e' & He & Hin)%list_elem_of_fmap. apply Hfresh in Hin.
    rewrite <- He, lookup_insert_eq in Hin. done.
  - intros e' [->|Hin]%elem_of_cons; [done|]. apply Hfresh in Hin.
    by apply lookup_insert_None in Hin as [? _].
  - intros k. rewrite Hm. destruct (decide (ce_Name e = k)) as [<-|Hne].
    + rewrite bool_decide_eq_true_2 by done. destruct (List.find _ l) as [e'|] eqn:Hf.
      * apply find_some in Hf as [Hin He%bool_decide_eq_true]. apply list_elem_of_In, Hfresh in Hin.
        by rewrite He, lookup_insert_eq in Hin.
      * by rewrite lookup_insert_eq.
    + rewrite bool_decide_eq_false_2 by done. destruct (List.find _ l); [done|]. by rewrite lookup_insert_ne.
Qed.

Lemma Lookup_BuildCatalog entries c : BuildCatalog entries = Ok c →
  NoDup (map ce_Name (Entries c)) ∧ Entries c ≡ₚ entries ∧
  ∀ e, e ∈ entries → Lookup c (ce_Name e) = Some e.
Proof.
  unfold BuildCatalog. intros (m & Hm & [= <-])%res_bind_Ok. apply index_entries_lookup in Hm as (Hnd & _ & Hm).
  split; [done|]. split; [apply isort_perm|]. intros e He. unfold Lookup. simpl. rewrite Hm.
  destruct (List.find _ _) as [e'|] eqn:Hf.
  - apply find_some in Hf as [Hin Hn%bool_decide_eq_true]. f_equal. apply list_elem_of_In in Hin.
    apply list_elem_of_lookup in Hin as [i Hi].
    rewrite <- (elem_of_isort entry_less) in He. apply list_elem_of_lookup in He as [j Hj].
    assert (i = j) as ->; [|congruence].
    eapply NoDup_lookup; [exact Hnd| |]; rewrite list_lookup_fmap; [by rewrite Hi|rewrite Hj; simpl; by rewrite Hn].
  - rewrite <- (elem_of_isort entry_less), list_elem_of_In in He. pose proof (find_none _ _ Hf e He) as H.
    simpl in H. by rewrite bool_decide_eq_true_2 in H.
Qed.

(** ** A listing, a value, a scope *)

Definition plain (name type : string) : CatalogEntry := mkEntry name "" type "" "" None "" false [].

Example printing_listing :
  match BuildCatalog [plain "printing.drivers" "list of string"; plain "printing.enable" "boolean";
                      plain "printing.discover" "boolean"] with
  | Ok c => map ce_Name (ByCategory c "printing")
  | Err _ => []
  end = ["printing.enable"; "printing.discover"; "printing.drivers"].
Proof. vm_compute. reflexivity. Qed.

Example allowlist_stays_a_list :
  let e := plain "usbDevices.allowlist" "list of string" in
  (let! s := RawFromValue e (VList [VString "1d6b:0002"; VString "0bda:8153"]) in ParseValue e s) =
    Ok (VList [VString "1d6b:0002"; VString "0bda:8153"]) ∧
  (let! s := RawFromValue (plain "n" "positive integer") (VFloat (S754_finite false 8589934592000000 (-33))) in
   ParseValue (plain "n" "positive integer") s) = Ok (VInt 1000000).
Proof. split; vm_compute; reflexivity. Qed.

(** The check that a setting reaches some device looks at the direct members of a
    group only: a laptop setting is refused at a site whose own devices are
    servers, although the laptops of its desks inherit from it. *)
Definition mixed_site : Fleet := zero_fleet
  <| f_Groups := <["site" := zero_group]> (<["desks" := zero_group <| Parent := "site" |>]> ∅) |>
  <| Devices := <["s1" := zero_device <| Groups := ["site"] |> <| Class := "server" |>]>
               (<["l1" := zero_device <| Groups := ["desks"] |> <| Class := "laptop" |>]> ∅) |>.

Theorem reaches_nothing_ignores_subgroups :
  let e := mkEntry "desktop.gnome.enable" "" "boolean" "" "" None "" false ["laptop"] in
  ReachesNothing mixed_site e "group:site" = (true, ["server"]) ∧
  "site" ∈ GroupAncestry mixed_site "desks" ∧ Groups (dev mixed_site "l1") = ["desks"] ∧
  AppliesTo e (Class (dev mixed_site "l1")) = true.
Proof.
  split; [vm_compute; reflexivity|]. split; [|split; vm_compute; reflexivity].
  apply (bool_decide_unpack _). vm_compute. exact I.
Qed.
