(* ===== verification/SettingsGuard.v ===== *)
(** * Saving settings (src/internal/app/config_settings.go, settings_guard.go,
    settings_coherence.go)

    The path every transport shares: a batch of changes at one scope is checked
    against the catalog and compiled to one mutation; two guards refuse a save
    that would leave a machine unbootable or with two desktops. *)

From S2P Require Import Prelude GoLib FleetModel Groups Filters Resolve Mutate DeviceOps ScopeEdits Classes Verdicts Document ConfigTx Radius Text Sql Imaging Observed Catalog.

(** ** A batch of changes *)

Record SettingChange := mkChange { sg_Key : string; RawValue : string; sg_Enforce : bool; sg_Clear : bool }.

Inductive SettingErr :=
  | ChangeRequestRequired
  | UnknownSetting (key : string)
  | NoValueChosen (key : string)
  | ReachesNoDevice (key : string) (classes : list string) (scope : string) (present : list string)
  | BadValue (e : CatalogErr)
  | UnknownReference (ref : string)
  | WouldBrick (tag : string)
  | InvalidCombination (a b tag : string)
  | SettingTx (e : TxErr).

Definition requireDirectEditAllowed (f : Fleet) : option SettingErr :=
  match f_Assurance f with
  | Some a => if RequireChangeRequest a then Some ChangeRequestRequired else None
  | None => None
  end.

(** The typed value of an entry: what the catalog parses, and for a secret a
    reference the organisation has registered. *)
Definition typed_value (f : Fleet) (entry : CatalogEntry) (raw : string) : res SettingErr Value :=
  let! val := lift_err BadValue (ParseValue entry raw) in
  if widget entry ==? WidgetSecret then
    match val with
    | VString ref => if (ref !=? "") && negb (HasSecretRef f ref) then Err (UnknownReference ref) else Ok val
    | _ => Ok val
    end
  else Ok val.

Definition set_mutation (scope key : string) (val : Value) (enforce : option bool) : Mutation := λ f,
  let! f := SetScopeSetting scope key val f in
  match enforce with Some on => SetScopeEnforce scope key on f | None => Ok f end.

Definition change_mutation (cat : SettingsCatalog) (f : Fleet) (scope : string) (c : SettingChange)
    : res SettingErr Mutation :=
  if sg_Clear c then Ok (ClearScopeSetting scope (sg_Key c)) else
  match Lookup cat (sg_Key c) with
  | None => Err (UnknownSetting (sg_Key c))
  | Some entry =>
      let! val := typed_value f entry (trim_space (RawValue c)) in
      Ok (set_mutation scope (sg_Key c) val (Some (sg_Enforce c)))
  end.

Fixpoint change_mutations (cat : SettingsCatalog) (f : Fleet) (scope : string) (l : list SettingChange)
    : res SettingErr (list Mutation) :=
  match l with
  | [] => Ok []
  | c :: l => let! m := change_mutation cat f scope c in
              let! ms := change_mutations cat f scope l in Ok (m :: ms)
  end.

Definition combined (muts : list Mutation) : Mutation := λ f, fold_res (λ f m, m f) f muts.

Definition SettingsMutation (cat : SettingsCatalog) (f : Fleet) (scope : string) (changes : list SettingChange)
    : res SettingErr (Mutation * string * list string) :=
  let! muts := change_mutations cat f scope changes in
  Ok (combined muts, "settings: update " +:+ pretty (length changes) +:+ " at " +:+ scope, AffectedHosts f scope).

Section service.
  Context {W : Type} `{ConfigRepo W, GoJson, Fingerprint, FleetJson, OverlayParsers}.
  (** The catalog of a snapshot, whose type the transaction leaves open. *)
  Context (catalog_of : ConfigTx.Catalog → SettingsCatalog).

Definition cs_Catalog (s : ConfigService W) : SettingsCatalog := catalog_of (sn_catalog (cs_snap s)).

Definition setting_tx {A} (m : SE (ConfigService W) TxErr A) : SE (ConfigService W) SettingErr A := λ s,
    let '(r, s') := m s in (lift_err SettingTx r, s').

Definition SetSetting (gate : Gate W) (scope key rawValue : string) (enforce : option bool) (a : Author)
      : SE (ConfigService W) SettingErr unit := λ s,
    let f := cs_Fleet s in
    match requireDirectEditAllowed f, Lookup (cs_Catalog s) key with
    | Some e, _ => (Err e, s)
    | None, None => (Err (UnknownSetting key), s)
    | None, Some entry =>
        let raw := trim_space rawValue in
        if raw ==? "" then (Err (NoValueChosen key), s) else
        let '(nothing, classes) := ReachesNothing f entry scope in
        if nothing : bool then (Err (ReachesNoDevice key (Classes entry) scope classes), s) else
        match typed_value f entry raw with
        | Err e => (Err e, s)
        | Ok val =>
            let msg := "settings: set " +:+ key +:+ " at " +:+ scope +:+
                       (match enforce with Some true => " (enforced)" | _ => "" end) in
            setting_tx (Apply gate (set_mutation scope key val enforce) msg a (AffectedHosts f scope)) s
        end
    end.

Definition ClearSetting (gate : Gate W) (scope key : string) (a : Author)
      : SE (ConfigService W) SettingErr unit := λ s,
    match requireDirectEditAllowed (cs_Fleet s) with
    | Some e => (Err e, s)
    | None => setting_tx (Apply gate (ClearScopeSetting scope key) ("settings: clear " +:+ key +:+ " at " +:+ scope) a
                            (AffectedHosts (cs_Fleet s) scope)) s
    end.

Definition ApplySettingsMarked (gate : Gate W) (scope : string) (changes : list SettingChange) (marker : string)
      (a : Author) : SE (ConfigService W) SettingErr unit := λ s,
    match requireDirectEditAllowed (cs_Fleet s) with
    | Some e => (Err e, s)
    | None =>
        if changes ==? [] then (Ok tt, s) else
        match SettingsMutation (cs_Catalog s) (cs_Fleet s) scope changes with
        | Err e => (Err e, s)
        | Ok (mut, msg, hosts) => setting_tx (Apply gate mut (msg +:+ marker) a hosts) s
        end
    end.

Definition ApplySettings (gate : Gate W) (scope : string) (changes : list SettingChange) (a : Author) :=
    ApplySettingsMarked gate scope changes "" a.
End service.

(** ** The guards *)

Definition keyGuardSecureBoot : string := "secureboot.enable".

Definition turnsOff (changes : list SettingChange) : bool :=
  existsb (λ c, (sg_Key c ==? keyGuardSecureBoot) && negb (sg_Clear c) && (RawValue c ==? "false")) changes.
Definition clears (changes : list SettingChange) : bool :=
  existsb (λ c, (sg_Key c ==? keyGuardSecureBoot) && sg_Clear c) changes.

(** The body of the loop over the affected devices. *)
Definition guard_device (f : Fleet) (scope : string) (off cleared : bool) (tag : string)
    : SE (Pg StatusTable) SettingErr unit :=
  match Resolve f tag !! keyGuardSecureBoot with
  | Some r =>
      if negb (match res_Value r with VBool b => b | _ => false end) then se_ret tt
      else if cleared && negb off && (src_Scope (res_Source r) !=? scope) then se_ret tt
      else λ s, match GetStatus tag s with
                | (Ok (Some st), s) =>
                    if st_SB st ==? SBEnforcing then (Err (WouldBrick tag), s) else (Ok tt, s)
                | (_, s) => (Ok tt, s)
                end
  | None => se_ret tt
  end.

(** [configured]: both the configuration and the observed plane are there. *)
Definition GuardBrickingSettings (configured : bool) (f : Fleet) (scope : string) (changes : list SettingChange)
    : SE (Pg StatusTable) SettingErr unit :=
  if negb configured then se_ret tt else
  let off := turnsOff changes in
  let cleared := clears changes in
  if negb off && negb cleared then se_ret tt
  else se_each (guard_device f scope off cleared) (AffectedHosts f scope).

Definition exclusivePairs : list (string * string) := [("desktop.gnome.enable", "desktop.plasma.enable")].

Definition changed (changes : list SettingChange) : gmap string string :=
  foldl (λ m c, if sg_Clear c then m else <[sg_Key c := RawValue c]> m) ∅ changes.

Definition effective (f : Fleet) (m : gmap string string) (tag key : string) : bool :=
  match m !! key with
  | Some raw => raw ==? "true"
  | None => match Resolve f tag !! key with
            | Some r => match res_Value r with VBool b => b | _ => false end
            | None => false
            end
  end.

Definition GuardExclusiveSettings (configured : bool) (f : Fleet) (scope : string) (changes : list SettingChange)
    : option SettingErr :=
  if negb configured then None else
  let m := changed changes in
  if negb (existsb (λ p, negb (m !! p.1 ==? None) || negb (m !! p.2 ==? None)) exclusivePairs) then None
  else first_err (λ tag, first_err (λ p,
         if effective f m tag p.1 && effective f m tag p.2 then Some (InvalidCombination p.1 p.2 tag) else None)
         exclusivePairs) (AffectedHosts f scope).

(** ** One key under edits of a group *)

Lemma scope_frame_refl ref f : scope_frame ref f f.
Proof. split; try done. by destruct f. Qed.

Lemma scope_frame_trans ref f g h : scope_frame ref f g → scope_frame ref g h → scope_frame ref f h.
Proof.
  intros [A1 A2 A3 A4 A5 A6] [B1 B2 B3 B4 B5 B6]. split; intros.
  - by rewrite B1, A1.
  - by rewrite B2, A2.
  - by rewrite B3, A3.
  - by rewrite B4, A4.
  - by rewrite B5, A5.
  - rewrite B6, A6. by destruct f, g, h.
Qed.

Lemma edited_group f g tag c :
  contributes f tag c → edited (group_ref g) f tag c →
  ∃ i, scope_order f tag !! i = Some g ∧
       c = inline_contributor (1 + Z.of_nat i) (group_ref g) (g_scope (grp f g)).
Proof.
  intros Hc [Hi Hp]. apply assignmentPosition_spec in Hp.
  remember (group_ref g) as ref eqn:Href. remember (specificity c) as p eqn:Hpc.
  destruct Hp as [|i a Ha|]; [discriminate Href| |discriminate Href].
  apply group_ref_inj in Href. subst a. exists i. split; [done|].
  destruct Hc as [o Ho Hne|j b Hb Hne|Hne|j a' p s' Hj Hpo Hs' Hfl]; simpl in *; [lia| | |done].
  - assert (j = i) as -> by lia. rewrite Ha in Hb. by injection Hb as ->.
  - apply lookup_lt_Some in Ha. lia.
Qed.

Lemma better_same g a b c :
  specificity a = specificity b → inline a = inline b → order a = order b → better g c a = better g c b.
Proof. unfold better. by intros -> -> ->. Qed.

Lemma scope_at_grp f g s : scope_at f (group_ref g) = Some s → g_scope (grp f g) = s.
Proof.
  unfold scope_at, grp. rewrite scope_of_group. destruct (f_Groups f !! g); [|done]. by intros [= <-].
Qed.

Section group_edit.
  Context (g : string) (f f' : Fleet) (Hfr : scope_frame (group_ref g) f f') (s s' : Scope).
  Context (Hs : scope_at f (group_ref g) = Some s) (Hs' : scope_at f' (group_ref g) = Some s').
  Context (tag key : string) (v : Value).

  (** What the edits may do to the key at the group: nothing, give it the value
      and keep its lock, or drop it where it was not the source. *)
Definition harmless (r : Resolution) : Prop :=
    (sc_Settings s' !! key = sc_Settings s !! key ∧ (key ∈ sc_Enforced s' ↔ key ∈ sc_Enforced s)) ∨
    (sc_Settings s' !! key = Some v ∧ (key ∈ sc_Enforced s → key ∈ sc_Enforced s')) ∨
    (sc_Settings s' !! key = None ∧ src_Scope (res_Source r) ≠ group_ref g).

Lemma old_contributor c : contributes f tag c →
    contributes f' tag c ∨
    ∃ i, scope_order f tag !! i = Some g ∧ c = inline_contributor (1 + Z.of_nat i) (group_ref g) s.
Proof.
    intros Hc. destruct (contributes_edit _ _ _ Hfr tag c Hc) as [?|He]; [by left|right].
    apply edited_group in He; [|done]. by rewrite (scope_at_grp _ _ _ Hs) in He.
Qed.

Lemma new_contributor c : contributes f' tag c →
    contributes f tag c ∨
    ∃ i, scope_order f tag !! i = Some g ∧ c = inline_contributor (1 + Z.of_nat i) (group_ref g) s'.
Proof.
    intros Hc. destruct (contributes_edit _ _ _ (scope_frame_sym _ _ _ Hfr) tag c Hc) as [?|He]; [by left|right].
    apply edited_group in He; [|done]. rewrite (scope_at_grp _ _ _ Hs') in He.
    by rewrite (frame_order _ _ _ Hfr) in He.
Qed.

Lemma edited_contributes i x : scope_order f tag !! i = Some g → sc_Settings s' !! key = Some x →
    contributes f' tag (inline_contributor (1 + Z.of_nat i) (group_ref g) s').
Proof.
    intros Hi Hx. rewrite <- (scope_at_grp _ _ _ Hs') in *. rewrite <- (frame_order _ _ _ Hfr) in Hi.
    apply contrib_group; [done|]. by eapply scope_nonempty_setting.
Qed.
Lemma old_contributes i x : scope_order f tag !! i = Some g → sc_Settings s !! key = Some x →
    contributes f tag (inline_contributor (1 + Z.of_nat i) (group_ref g) s).
Proof.
    intros Hi Hx. rewrite <- (scope_at_grp _ _ _ Hs) in *.
    apply contrib_group; [done|]. by eapply scope_nonempty_setting.
Qed.

  (** A contributor and its place after the edits. *)
Definition twin (a b : contributor) : Prop :=
    a = b ∨ ∃ i, scope_order f tag !! i = Some g ∧
      a = inline_contributor (1 + Z.of_nat i) (group_ref g) s ∧
      b = inline_contributor (1 + Z.of_nat i) (group_ref g) s'.

Lemma twin_ranks a b d e d' : twin a b → twin d e → better d' a d = better d' b e.
Proof.
    intros Hab Hde. transitivity (better d' a e).
    - apply better_same; destruct Hde as [->|(i & _ & -> & ->)]; done.
    - unfold better. destruct Hab as [->|(i & _ & -> & ->)]; done.
Qed.

Lemma twin_best (P P' : contributor → Prop) d c c' :
    best_of P d c → best_of P' d c' →
    (∃ c1, twin c c1 ∧ P' c1) → (∃ c2, twin c2 c' ∧ P c2) → twin c c'.
Proof.
    intros [Hc Hbest] [Hc' Hbest'] (c1 & Ht1 & H1) (c2 & Ht2 & H2).
    destruct (Hbest c2 H2) as [->|Hb]; [done|]. destruct (Hbest' c1 H1) as [->|Hb']; [done|].
    rewrite (twin_ranks _ _ _ _ d Ht1 Ht2) in Hb.
    pose proof (better_trans _ _ _ _ Hb Hb') as Hx. by rewrite better_irrefl in Hx.
Qed.

Lemma enforced_inline p r sc : key ∈ enforced (inline_contributor p r sc) ↔ key ∈ sc_Enforced sc.
Proof. unfold inline_contributor, enforcedSet. simpl. apply elem_of_list_to_set. Qed.

  (** Where the winner stands afterwards. *)
Lemma stands_in r c : harmless r → source c = res_Source r → is_setter f tag key c → settings c !! key = Some v →
    ∃ c1, twin c c1 ∧ is_setter f' tag key c1 ∧ (key ∈ enforced c → key ∈ enforced c1).
Proof.
    intros Hh Hsrc [Hc Hk] Hv. destruct (old_contributor c Hc) as [Hc'|(i & Hi & ->)].
    { exists c. split; [by left|]. done. }
    exists (inline_contributor (1 + Z.of_nat i) (group_ref g) s'). simpl in Hv.
    assert (Hx : ∃ x, sc_Settings s' !! key = Some x ∧ (key ∈ sc_Enforced s → key ∈ sc_Enforced s')).
    { destruct Hh as [[He Hl]|[[He Hl]|[_ Hne]]]; [exists v; rewrite He; split; [done|tauto]|by exists v|].
      rewrite <- Hsrc in Hne. done. }
    destruct Hx as (x & Hx & Hl). split; [right; eauto|]. split.
    - split; [by eapply edited_contributes|]. simpl. eauto.
    - rewrite !enforced_inline. done.
Qed.

  (** Where a contributor of the key comes from. *)
Lemma comes_from r c : harmless r → is_setter f' tag key c →
    (∃ c2, twin c2 c ∧ is_setter f tag key c2 ∧ (key ∈ enforced c → key ∈ enforced c2)) ∨ settings c !! key = Some v.
Proof.
    intros Hh [Hc Hk]. destruct (new_contributor c Hc) as [Hc'|(i & Hi & ->)].
    { left. exists c. split; [by left|]. done. }
    simpl in *. destruct Hk as [x Hx]. destruct Hh as [[He Hl]|[[He Hl]|[He _]]]; [left|right; done|congruence].
    exists (inline_contributor (1 + Z.of_nat i) (group_ref g) s). rewrite He in Hx. split; [right; eauto|]. split.
    - split; [by eapply old_contributes|]. simpl. eauto.
    - rewrite enforced_inline. unfold enforcedSet. rewrite elem_of_list_to_set. by apply Hl.
Qed.

Lemma twin_value r c c' : harmless r → twin c c' → settings c !! key = Some v → is_Some (settings c' !! key) →
    settings c' !! key = Some v.
Proof.
    intros Hh [->|(i & Hi & -> & ->)]; [done|]. simpl. intros Hv [x Hx].
    destruct Hh as [[He _]|[[He _]|[He _]]]; congruence.
Qed.

Lemma group_edit_keeps r : harmless r → Resolve f tag !! key = Some r → res_Value r = v →
    ∃ r', Resolve f' tag !! key = Some r' ∧ res_Value r' = v.
Proof.
    intros Hh Hr Hv. apply Resolve_Some in Hr.
    assert (Hw : ∃ c, is_setter f tag key c ∧ settings c !! key = Some v ∧ source c = res_Source r).
    { destruct Hr as [c x [[Hc _] _] Hx|c x _ [Hc _] Hx]; simpl in *; subst x; eauto. }
    destruct Hw as (w & Hw & Hwv & Hwsrc). destruct (stands_in r w Hh Hwsrc Hw Hwv) as (w1 & _ & Hw1 & _).
    destruct (Resolve f' tag !! key) as [r'|] eqn:Hr'; [|by destruct (proj1 (Resolve_None f' tag key) Hr' w1)].
    exists r'. split; [done|]. apply Resolve_Some in Hr'.
    destruct Hr as [c x Hbest Hx|c x Hno Hbest Hx], Hr' as [c' x' Hbest' Hx'|c' x' Hno' Hbest' Hx']; simpl in *; subst x.
    - pose proof Hbest as [[Hc Hcl] _]. pose proof Hbest' as [[Hc' Hcl'] _].
      destruct (comes_from _ c' Hh Hc') as [(c2 & Ht2 & H2 & Hl2)|]; [|congruence].
      destruct (stands_in _ c Hh eq_refl Hc Hx) as (c1 & Ht1 & H1 & Hl1).
      assert (twin c c') as Ht.
      { eapply twin_best; [exact Hbest|exact Hbest'| |].
        - exists c1. split; [done|]. split; [done|by apply Hl1].
        - exists c2. split; [done|]. split; [done|by apply Hl2]. }
      pose proof (twin_value _ c c' Hh Ht Hx) as Hfin. rewrite Hfin in Hx' by (rewrite Hx'; eauto). congruence.
    - exfalso. destruct Hbest as [[Hc Hcl] _]. destruct (stands_in _ c Hh eq_refl Hc Hx) as (c1 & _ & H1 & Hl1).
      apply (Hno' c1). split; [done|by apply Hl1].
    - destruct Hbest' as [[Hc' Hcl'] _]. destruct (comes_from _ c' Hh Hc') as [(c2 & _ & H2 & Hl2)|]; [|congruence].
      exfalso. apply (Hno c2). split; [done|by apply Hl2].
    - pose proof Hbest as [Hc _]. pose proof Hbest' as [Hc' _].
      destruct (comes_from _ c' Hh Hc') as [(c2 & Ht2 & H2 & _)|]; [|congruence].
      destruct (stands_in _ c Hh eq_refl Hc Hx) as (c1 & Ht1 & H1 & _).
      assert (twin c c') as Ht by (eapply twin_best; [exact Hbest|exact Hbest'|eauto|eauto]).
      pose proof (twin_value _ c c' Hh Ht Hx) as Hfin. rewrite Hfin in Hx' by (rewrite Hx'; eauto). congruence.
Qed.
End group_edit.

(** ** What a batch does at its scope *)

Notation K := keyGuardSecureBoot.

(** A change of the guarded key is spelt as the guard reads it, and keeps a lock
    of the scope. *)
Definition plain_change (cat : SettingsCatalog) (sc : Scope) (c : SettingChange) : Prop :=
  sg_Key c = K → sg_Clear c = false → ∀ e, Lookup cat K = Some e →
  widget e = WidgetToggle ∧
  (ParseValue e (trim_space (RawValue c)) = Ok (VBool false) → RawValue c = "false") ∧
  (K ∈ sc_Enforced sc → sg_Enforce c = true).

(** The key at the scope, against what it was before the batch. *)
Definition effect (s0 : Scope) (cleared : bool) (s1 : Scope) : Prop :=
  (sc_Settings s1 !! K = sc_Settings s0 !! K ∧ (K ∈ sc_Enforced s1 ↔ K ∈ sc_Enforced s0)) ∨
  (sc_Settings s1 !! K = Some (VBool true) ∧ (K ∈ sc_Enforced s0 → K ∈ sc_Enforced s1)) ∨
  (sc_Settings s1 !! K = None ∧ cleared = true).

Lemma set_mutation_Ok scope key val on f f' :
  set_mutation scope key val (Some on) f = Ok f' →
  ∃ s s', scope_at f scope = Some s ∧ scope_at f' scope = Some s' ∧ scope_frame scope f f' ∧
    sc_Settings s' = <[key := val]> (sc_Settings s) ∧
    ∀ k, k ∈ sc_Enforced s' ↔ (k ∈ sc_Enforced s ∧ k ≠ key) ∨ (k = key ∧ on = true).
Proof.
  unfold set_mutation. intros (f1 & H1 & H2)%res_bind_Ok.
  apply with_scope_Ok in H1 as (s & s1 & Hs & [= <-] & Hs1 & Hf1).
  apply with_scope_Ok in H2 as (s1' & s2 & Hs1' & He & Hs2 & Hf2).
  rewrite Hs1 in Hs1'. injection Hs1' as <-. apply enforce_edit in He as (Hset & _ & Henf & _).
  exists s, s2. split; [done|]. split; [done|]. split; [by eapply scope_frame_trans|]. split; [done|]. exact Henf.
Qed.

Lemma change_effect cat f0 scope c m f f' s0 cl :
  change_mutation cat f0 scope c = Ok m → m f = Ok f' →
  plain_change cat s0 c → (sg_Key c = K → sg_Clear c = false → RawValue c ≠ "false") →
  ∃ s1 s2, scope_at f scope = Some s1 ∧ scope_at f' scope = Some s2 ∧ scope_frame scope f f' ∧
    (effect s0 cl s1 → effect s0 (cl || ((sg_Key c ==? K) && sg_Clear c)) s2).
Proof.
  unfold change_mutation. intros Hm Hf Hplain Hoff.
  assert (Hkeep : ∀ s1 s2 : Scope, sc_Settings s2 !! K = sc_Settings s1 !! K → (K ∈ sc_Enforced s2 ↔ K ∈ sc_Enforced s1) →
            ∀ b, effect s0 cl s1 → effect s0 (cl || b) s2).
  { intros s1 s2 Hv Hl b. unfold effect. rewrite Hv, Hl. intros [?|[?|[? ->]]]; auto. }
  destruct (sg_Clear c) eqn:Hc.
  - injection Hm as <-. apply with_scope_Ok in Hf as (s1 & s2 & Hs1 & [= <-] & Hs2 & Hfr).
    exists s1. eexists. split; [done|]. split; [exact Hs2|]. split; [done|]. destruct (decide (sg_Key c = K)) as [Hk|Hk].
    + intros _. right. right. simpl. rewrite Hk, lookup_delete_eq, bool_decide_eq_true_2 by done.
      by rewrite orb_true_r.
    + apply Hkeep; simpl; [by rewrite lookup_delete_ne|]. rewrite elem_of_delete_func, bool_decide_eq_false. naive_solver.
  - destruct (Lookup cat (sg_Key c)) as [e|] eqn:He; [|done]. apply res_bind_Ok in Hm as (val & Hval & [= <-]).
    apply set_mutation_Ok in Hf as (s1 & s2 & Hs1 & Hs2 & Hfr & Hset & Henf).
    exists s1, s2. split; [done|]. split; [done|]. split; [done|]. destruct (decide (sg_Key c = K)) as [Hk|Hk].
    + rewrite Hk in He. destruct (Hplain Hk Hc e He) as (Hw & Hsp & Hlock).
      unfold typed_value in Hval. apply res_bind_Ok in Hval as (v0 & Hv0 & Hv1).
      rewrite Hw in Hv1. simpl in Hv1. injection Hv1 as ->.
      destruct (ParseValue e (trim_space (RawValue c))) as [v1|] eqn:Hp; [|done]. injection Hv0 as ->.
      assert (Hb : ∃ b, val = VBool b).
      { unfold ParseValue in Hp. rewrite Hw in Hp. repeat case_match; simplify_eq; eauto. }
      destruct Hb as [b ->].
      destruct b; [|by destruct (Hoff Hk eq_refl); apply Hsp].
      intros _. right. left. rewrite Hset, Hk, lookup_insert_eq. split; [done|]. intros Hin.
      apply Henf. right. split; [done|]. by apply Hlock.
    + apply Hkeep; [by rewrite Hset, lookup_insert_ne|]. rewrite Henf. naive_solver.
Qed.

Lemma batch_effect cat f0 scope changes muts f f' s0 s1 cl :
  change_mutations cat f0 scope changes = Ok muts → combined muts f = Ok f' →
  (∀ c, c ∈ changes → plain_change cat s0 c) → turnsOff changes = false →
  scope_at f scope = Some s1 → effect s0 cl s1 →
  ∃ s2, scope_at f' scope = Some s2 ∧ scope_frame scope f f' ∧ effect s0 (cl || clears changes) s2.
Proof.
  revert muts f s1 cl. induction changes as [|c l IH]; intros muts f s1 cl Hm Hf Hpl Hoff Hs1 He.
  - injection Hm as <-. injection Hf as <-. exists s1. split; [done|]. split; [apply scope_frame_refl|].
    by rewrite orb_false_r.
  - cbn [change_mutations] in Hm. apply res_bind_Ok in Hm as (m & Hc & Hm). apply res_bind_Ok in Hm as (ms & Hms & [= <-]).
    unfold combined in Hf. cbn [fold_res] in Hf. apply res_bind_Ok in Hf as (f1 & H1 & H2).
    unfold turnsOff in Hoff. cbn [existsb] in Hoff. apply orb_false_iff in Hoff as [Hoff1 Hoff].
    destruct (change_effect cat f0 scope c m f f1 s0 cl Hc H1) as (s1' & s2 & Hs1' & Hs2 & Hfr & Heff).
    { apply Hpl. left. }
    { intros Hk Hcl Hr. rewrite Hk, Hcl, Hr in Hoff1. by rewrite bool_decide_eq_true_2 in Hoff1. }
    rewrite Hs1 in Hs1'. injection Hs1' as <-.
    destruct (IH ms f1 s2 (cl || ((sg_Key c ==? K) && sg_Clear c)) Hms H2) as (s3 & Hs3 & Hfr3 & Heff3); auto.
    { intros c' Hc'. apply Hpl. by right. }
    exists s3. split; [done|]. split; [by eapply scope_frame_trans|].
    unfold clears. cbn [existsb]. rewrite orb_assoc. exact Heff3.
Qed.

Lemma change_frame cat f0 scope c m f f' :
  change_mutation cat f0 scope c = Ok m → m f = Ok f' → is_Some (scope_at f scope) ∧ scope_frame scope f f'.
Proof.
  unfold change_mutation. intros Hc H1. destruct (sg_Clear c).
  - injection Hc as <-. by apply with_scope_Ok in H1 as (? & ? & -> & _ & _ & ?).
  - destruct (Lookup cat (sg_Key c)) as [e|]; [|done]. apply res_bind_Ok in Hc as (val & _ & [= <-]).
    by apply set_mutation_Ok in H1 as (? & ? & -> & _ & ? & _).
Qed.

Lemma batch_frame cat f0 scope changes muts f f' :
  change_mutations cat f0 scope changes = Ok muts → combined muts f = Ok f' →
  scope_frame scope f f' ∧ (scope_at f scope = None → f' = f).
Proof.
  revert muts f. induction changes as [|c l IH]; intros muts f Hm Hf.
  { injection Hm as <-. injection Hf as <-. split; [apply scope_frame_refl|done]. }
  cbn [change_mutations] in Hm. apply res_bind_Ok in Hm as (m & Hc & Hm). apply res_bind_Ok in Hm as (ms & Hms & [= <-]).
  unfold combined in Hf. cbn [fold_res] in Hf. apply res_bind_Ok in Hf as (f2 & H1 & H2).
  destruct (change_frame _ _ _ _ _ _ _ Hc H1) as [[sc Hsc] Hfr]. destruct (IH _ _ Hms H2) as [Hfr2 _].
  split; [by eapply scope_frame_trans|]. intros Hn. congruence.
Qed.

(** ** The loop of the guard, with the database up *)

Lemma guard_device_live f scope off cl tag s :
  outages s = [] → (guard_device f scope off cl tag s).2 = s.
Proof.
  intros Ho. unfold guard_device, GetStatus, query, statement. destruct s as [t o]. simpl in Ho. subst o.
  repeat case_match; simplify_eq/=; done.
Qed.

Lemma se_each_live {A} (body : A → SE (Pg StatusTable) SettingErr unit) l s s' :
  (∀ a, a ∈ l → (body a s).2 = s) → se_each body l s = (Ok tt, s') → ∀ a, a ∈ l → (body a s).1 = Ok tt.
Proof.
  intros Hb. induction l as [|x l IH]; simpl; [by intros _ a []%elem_of_nil|].
  intros [(u & s1 & H1 & H2)|(e & _ & ?)]%se_bind_inv; [|done].
  assert (s1 = s) as -> by (rewrite <- (Hb x) by (by left); by rewrite H1).
  intros a [->|Ha]%elem_of_cons; [by rewrite H1; destruct u|]. apply IH; [|done..]. intros b Hin. apply Hb. by right.
Qed.

Definition secure_boot_on (f : Fleet) (tag : string) : Prop :=
  ∃ r, Resolve f tag !! K = Some r ∧ res_Value r = VBool true.

(** A device the guard has looked at and let through. *)
Lemma guard_device_passed f scope off cl tag s st r :
  outages s = [] → (guard_device f scope off cl tag s).1 = Ok tt →
  tables s !! tag = Some st → st_SB st = SBEnforcing → Resolve f tag !! K = Some r → res_Value r = VBool true →
  cl = true ∧ off = false ∧ src_Scope (res_Source r) ≠ scope.
Proof.
  intros Ho Hg Hst Hsb Hr Hv. unfold guard_device in Hg. rewrite Hr, Hv in Hg. simpl in Hg.
  destruct (cl && negb off && (src_Scope (res_Source r) !=? scope)) eqn:Hc.
  - rewrite !andb_true_iff, !negb_true_iff, bool_decide_eq_false in Hc. naive_solver.
  - unfold GetStatus, query, statement in Hg. rewrite Ho in Hg. simpl in Hg. rewrite Hst in Hg.
    rewrite bool_decide_eq_true_2 in Hg by done. done.
Qed.

(** C26. A guarded save at a group never turns Secure Boot off under enforcing
    firmware.  Where the guard lets a batch pass with the database up, every
    active device that reports enforcing and resolves Secure Boot to on still
    does after the batch, provided the batch spells "off" as the guard reads it
    ("false") and releases no lock of the group. *)
Theorem guard_keeps_secure_boot cat f s s' g changes mut msg hosts f' tag d st :
  let scope := group_ref g in
  outages s = [] → GuardBrickingSettings true f scope changes s = (Ok tt, s') →
  SettingsMutation cat f scope changes = Ok (mut, msg, hosts) → mut f = Ok f' →
  (∀ sc c, scope_at f scope = Some sc → c ∈ changes → plain_change cat sc c) →
  Devices f !! tag = Some d → Retired d = false →
  tables s !! tag = Some st → st_SB st = SBEnforcing →
  secure_boot_on f tag → secure_boot_on f' tag.
Proof.
  intros scope Ho Hg Hm Hf Hpl Hd Hret Hst Hsb (r & Hr & Hv).
  unfold SettingsMutation in Hm. apply res_bind_Ok in Hm as (muts & Hmuts & [= <- _ _]).
  destruct (batch_frame cat f scope changes muts f f' Hmuts Hf) as [Hfr Hnone].
  destruct (scope_at f scope) as [sc|] eqn:Hsc; [|rewrite (Hnone eq_refl); by exists r].
  assert (Hloop : turnsOff changes = true ∨ clears changes = true → tag ∈ AffectedHosts f scope →
            clears changes = true ∧ turnsOff changes = false ∧ src_Scope (res_Source r) ≠ scope).
  { intros Hor Hin. unfold GuardBrickingSettings in Hg. cbn [negb] in Hg.
    destruct (negb (turnsOff changes) && negb (clears changes)) eqn:Hn.
    { apply andb_true_iff in Hn as [H1%negb_true_iff H2%negb_true_iff]. destruct Hor; congruence. }
    apply (guard_device_passed f scope _ _ tag s st r Ho); [|done..].
    apply (se_each_live _ _ _ _ (λ a _, guard_device_live f scope _ _ a s Ho) Hg tag Hin). }
  destruct (decide (tag ∈ AffectedHosts f scope)) as [Hin|Hout].
  - assert (Hoff : turnsOff changes = false).
    { destruct (turnsOff changes) eqn:H; [|done]. destruct (Hloop (or_introl eq_refl) Hin) as (_ & ? & _). done. }
    destruct (batch_effect cat f scope changes muts f f' sc sc false Hmuts Hf) as (sc' & Hsc' & _ & He); auto.
    { left. done. }
    destruct (group_edit_keeps g f f' Hfr sc sc' Hsc Hsc' tag K (VBool true) r) as (r' & ? & ?); [|done..|by exists r'].
    destruct He as [?|[?|[Hn Hcl]]]; [by left|by right; left|right; right]. split; [done|]. simpl in Hcl.
    apply Hloop; auto.
  - assert (Hu : unaffected f scope tag).
    { split; [done|]. split; [|done]. apply elem_of_active_tags. eauto. }
    exists r. split; [|done]. rewrite (unaffected_Resolve scope f f' Hfr tag Hu). done.
Qed.

(** ** Saves *)

Definition sb_catalog : SettingsCatalog :=
  match BuildCatalog [plain K "boolean"] with Ok c => c | Err _ => mkCatalog [] ∅ end.

Definition on_scope : Scope := zero_scope <| sc_Settings := {[K := VBool true]} |>.
Definition off_scope : Scope := zero_scope <| sc_Settings := {[K := VBool false]} |>.

(** One laptop of a group that turns Secure Boot on, with firmware that enforces
    it. *)
Definition pilot : Fleet := zero_fleet
  <| f_Groups := {["pilot" := zero_group <| g_scope := on_scope |>]} |>
  <| Devices := {["sb-on" := zero_device <| Groups := ["pilot"] |>]} |>.

Definition enforcing : StatusTable :=
  (upsert_over ∅ (mkCheckIn "sb-on" "r1" "running" "" SBEnforcing TPM2Unknown "" (mkUsage 0 0 0 0 0) (mkHealth "" []) None)
     5 ∅).2.

Definition set_sb (raw : string) (enforce : bool) : SettingChange := mkChange K raw enforce false.
Definition clear_sb : SettingChange := mkChange K "" false true.

(** The outcome of a save under a script of outages: the guard's answer, and what
    the laptop resolves afterwards. *)
Definition save (o : list bool) (f : Fleet) (scope : string) (changes : list SettingChange)
    : res SettingErr unit * option Value :=
  ((GuardBrickingSettings true f scope changes (mkPg enforcing o)).1,
   match SettingsMutation sb_catalog f scope changes with
   | Ok (mut, _, _) => match mut f with Ok f' => res_Value <$> Resolve f' "sb-on" !! K | Err _ => None end
   | Err _ => None
   end).

Lemma guard_keeps_secure_boot_witness :
  save [] pilot "group:pilot" [set_sb "false" false] = (Err (WouldBrick "sb-on"), Some (VBool false)) ∧
  match SettingsMutation sb_catalog pilot "group:pilot" [set_sb "on" true] with
  | Ok (mut, _, _) => match mut pilot with Ok f' => secure_boot_on f' "sb-on" | Err _ => False end
  | Err _ => False
  end.
Proof.
  split; [vm_compute; reflexivity|].
  assert (Hrun : match SettingsMutation sb_catalog pilot "group:pilot" [set_sb "on" true] with
                 | Ok (mut, _, _) => is_ok (mut pilot) | Err _ => false end = true) by (vm_compute; reflexivity).
  destruct (SettingsMutation sb_catalog pilot "group:pilot" [set_sb "on" true]) as [[[mut msg] hosts]|e] eqn:Hm;
    [|discriminate Hrun].
  destruct (mut pilot) as [f'|e] eqn:Hf; [|discriminate Hrun].
  eapply (guard_keeps_secure_boot sb_catalog pilot (mkPg enforcing []) (mkPg enforcing []) "pilot" [set_sb "on" true]
            mut msg hosts f' "sb-on"); [reflexivity|reflexivity|exact Hm|exact Hf| |reflexivity|reflexivity|reflexivity|reflexivity|].
  - intros sc c Hsc ->%list_elem_of_singleton _ _ e He. vm_compute in He. injection He as <-.
    split; [reflexivity|]. split; [|reflexivity]. intros Hp. vm_compute in Hp. discriminate Hp.
  - eexists. split; [vm_compute; reflexivity|reflexivity].
Defined.

(** Five saves the guard lets through although they take Secure Boot away
    from a machine whose firmware enforces it: turned off for the whole
    organisation, whose radius is the empty list, so no device is looked at;
    spelt "off", which the catalog reads as false and the guard does not;
    cleared at the device itself, whose provenance is "device" and not the
    scope's name; unlocked, so that a more specific "off" takes over; and turned
    off while the observed plane cannot be read. *)
Theorem bricking_guard_bypasses :
  let org := pilot <| Org := Some on_scope |> <| f_Groups := {["pilot" := zero_group]} |> in
  let own := pilot <| f_Groups := {["pilot" := zero_group]} |>
                   <| Devices := {["sb-on" := zero_device <| Groups := ["pilot"] |> <| d_scope := on_scope |>]} |> in
  let locked := pilot <| f_Groups := {["pilot" := zero_group <| g_scope := on_scope <| sc_Enforced := [K] |> |>]} |>
                      <| Devices := {["sb-on" := zero_device <| Groups := ["pilot"] |> <| d_scope := off_scope |>]} |> in
  Forall (λ f, res_Value <$> Resolve f "sb-on" !! K = Some (VBool true)) [org; pilot; own; locked] ∧
  save [] org "org" [set_sb "false" false] = (Ok tt, Some (VBool false)) ∧
  save [] pilot "group:pilot" [set_sb "off" false] = (Ok tt, Some (VBool false)) ∧
  save [] own "device:sb-on" [clear_sb] = (Ok tt, None) ∧
  save [] locked "group:pilot" [set_sb "true" false] = (Ok tt, Some (VBool false)) ∧
  save [true] pilot "group:pilot" [set_sb "false" false] = (Ok tt, Some (VBool false)).
Proof.
  split; [repeat constructor; vm_compute; reflexivity|]. repeat split; vm_compute; reflexivity.
Qed.
