(* ===== verification/EnrolmentRings.v ===== *)
(** * Rings and enrolment (src/internal/app/enrolment_rings.go)

    A new device exists in the commit that enrolled it, not in the older commit
    its ring is pinned to: before it is imaged its rings are advanced to that
    commit, if that changes no device that is already in them. *)

From S2P Require Import Prelude GoLib FleetModel Groups Resolve Apps Classes Document Engine.

Inductive RingErr :=
  | ReadAt (rev e : string)
  | DecodeAt (rev : string) (e : DecodeErr)
  | RingBehind (group : string) (changed : list string)
  | AdvanceFailed (group e : string)
  | RingPushFailed (group e : string).

(** The ring branches, here and on the remote, and a script of what git answers
    to one command after the other. *)
Record Refs := mkRefs { heads : gmap string string; remote_heads : gmap string string; git_script : list (option string) }.
#[export] Instance Refs_eta : Eta Refs := λ r, mkRefs (heads r) (remote_heads r) (git_script r).

Definition git_command (f : Refs → Refs) : SE Refs string unit := λ s,
  match git_script s with
  | Some e :: rest => (Err e, s <| git_script := rest |>)
  | script => (Ok tt, (f s) <| git_script := tail script |>)
  end.

Definition SetRef (branch rev : string) : SE Refs string unit :=
  git_command (λ s, s <| heads ::= <[branch := rev]> |>).
Definition PushRef (branch : string) : SE Refs string unit :=
  git_command (λ s, match heads s !! branch with
                    | Some rev => s <| remote_heads ::= <[branch := rev]> |>
                    | None => s
                    end).

Record RingAdvance := mkAdvance { ra_Group : string; ra_From : string; ra_To : string }.

Definition withoutGroupPins (f : Fleet) : Fleet := f <| f_Groups ::= fmap (λ g, g <| g_Pin := "" |>) |>.

(** The rings that cover the devices and are pinned elsewhere: [pins]. *)
Definition covering_groups (f : Fleet) (tags : list string) : list string :=
  tag ← tags; match Devices f !! tag with
              | Some d => g ← Groups d; GroupAncestry f g
              | None => []
              end.
Definition pin_of (f : Fleet) (rev anc : string) : option string :=
  match f_Groups f !! anc with
  | Some grp => if (g_Pin grp !=? "") && (g_Pin grp !=? rev) then Some (g_Pin grp) else None
  | None => None
  end.
Definition ring_pins_of (f : Fleet) (tags : list string) (rev : string) : gmap string string :=
  foldl (λ m anc, match pin_of f rev anc with Some p => <[anc := p]> m | None => m end) ∅ (covering_groups f tags).

Definition in_subtree (f : Fleet) (group tag : string) : bool :=
  existsb (λ g, group ∈? GroupAncestry f g) (Groups (dev f tag)).

Section rings.
  Context `{GoJson, Fingerprint, FleetJson}.
  (** [reader.FileAt(rev, path)]. *)
  Context (FileAt : string → string → res string string).

Definition document_at (pin : string) : res RingErr Fleet :=
    match FileAt pin "fleet.json" with
    | Err e => Err (ReadAt pin e)
    | Ok raw => match Decode raw with Err e => Err (DecodeAt pin e) | Ok old => Ok old end
    end.

Definition globalsDiffer (old now : Fleet) : bool := GeneratorGlobalsKey old !=? GeneratorGlobalsKey now.

Definition membersChangedBetween (now : Fleet) (group pin : string) (enrolling : list string)
      : res RingErr (list string) :=
    let! old := document_at pin in
    let old := withoutGroupPins old in
    let now := withoutGroupPins now in
    Ok (keep_if (λ tag, negb (tag ∈? enrolling) && in_subtree old group tag
                        && (globalsDiffer old now || (ClassKeyOf old tag !=? ClassKeyOf now tag)))
          (sorted_keys (Devices old))).

Definition ring_git {A} (k : string → RingErr) (m : SE Refs string A) : SE Refs RingErr A := λ s,
    let '(r, s') := m s in (match r with Ok a => Ok a | Err e => Err (k e) end, s').

Fixpoint advance_rings (f : Fleet) (pins : gmap string string) (tags : list string) (rev : string) (groups : list string)
      : SE Refs RingErr (list RingAdvance) :=
    match groups with
    | [] => se_ret []
    | g :: groups =>
        let pin := default "" (pins !! g) in
        do! changed <- se_lift (membersChangedBetween f g pin tags);
        if changed !=? [] then se_err (RingBehind g changed) else
        run! ring_git (AdvanceFailed g) (SetRef (RingBranch g) rev);
        run! ring_git (RingPushFailed g) (PushRef (RingBranch g));
        do! out <- advance_rings f pins tags rev groups;
        se_ret (mkAdvance g pin rev :: out)
    end.

Definition EnsureRingsContain (f : Fleet) (tags : list string) (rev : string) : SE Refs RingErr (list RingAdvance) :=
    if (rev ==? "") || (tags ==? []) then se_ret [] else
    let pins := ring_pins_of f tags rev in
    advance_rings f pins tags rev (sorted_keys pins).

(** ** The pins *)

Lemma ring_pins_lookup f tags rev g p :
    ring_pins_of f tags rev !! g = Some p ↔ g ∈ covering_groups f tags ∧ pin_of f rev g = Some p.
Proof.
    unfold ring_pins_of. assert (Hgen : ∀ l (m : gmap string string), foldl (λ m anc, match pin_of f rev anc with Some p => <[anc := p]> m | None => m end) m l !! g =
      if g ∈? l then match pin_of f rev g with Some p => Some p | None => m !! g end else m !! g).
    { induction l as [|a l IH]; intros m; [done|]. cbn [foldl]. rewrite IH.
      destruct (decide (g = a)) as [->|Hne].
      - rewrite (bool_decide_eq_true_2 (a ∈ a :: l)) by left.
        destruct (pin_of f rev a) as [q|]; [rewrite lookup_insert_eq|]; by destruct (a ∈? l).
      - rewrite (bool_decide_ext (g ∈ a :: l) (g ∈ l)) by (rewrite elem_of_cons; naive_solver).
        destruct (pin_of f rev a) as [q|]; [rewrite lookup_insert_ne by done|]; done. }
    rewrite Hgen, lookup_empty. case_bool_decide as Hin.
    - destruct (pin_of f rev g); naive_solver.
    - naive_solver.
Qed.

(** ** What a moved branch says *)

  (** No device that was in the ring at its pin builds differently now. *)
Definition same_builds (now : Fleet) (tags : list string) (group pin : string) : Prop :=
    ∃ old, document_at pin = Ok old ∧
    let old := withoutGroupPins old in
    let now := withoutGroupPins now in
    ∀ tag, is_Some (Devices old !! tag) → tag ∉ tags → in_subtree old group tag = true →
      ClassKeyOf old tag = ClassKeyOf now tag ∧ GeneratorGlobalsKey old = GeneratorGlobalsKey now.

Lemma members_unchanged now g pin tags :
    membersChangedBetween now g pin tags = Ok [] → same_builds now tags g pin.
Proof.
    unfold membersChangedBetween. intros (old & Hold & Hk)%res_bind_Ok. exists old. split; [done|]. cbv zeta.
    intros tag Hd Hn Hin. change (Devices (withoutGroupPins old)) with (Devices old) in *. injection Hk as Hk.
    assert (Hno : tag ∉ keep_if (λ tag, negb (tag ∈? tags) && in_subtree (withoutGroupPins old) g tag
                        && (globalsDiffer (withoutGroupPins old) (withoutGroupPins now)
                            || (ClassKeyOf (withoutGroupPins old) tag !=? ClassKeyOf (withoutGroupPins now) tag)))
          (sorted_keys (Devices old))) by (rewrite Hk; by intros ?%elem_of_nil).
    rewrite elem_of_keep_if, elem_of_sorted_keys, Hin, (bool_decide_eq_false_2 (tag ∈ tags)) in Hno by done.
    simpl in Hno. unfold globalsDiffer in Hno.
    destruct (orb _ _) eqn:Hor in Hno; [by destruct Hno|]. apply orb_false_iff in Hor as [Hg Hk2].
    apply negb_false_iff, bool_decide_eq_true in Hg, Hk2. done.
Qed.

Lemma members_err now g pin tags e : membersChangedBetween now g pin tags = Err e →
    (∃ rev x, e = ReadAt rev x) ∨ (∃ rev x, e = DecodeAt rev x).
Proof.
    unfold membersChangedBetween, document_at. intros [He|(? & _ & ?)]%res_bind_Err; [|done].
    destruct (FileAt pin "fleet.json") as [raw|x]; [destruct (Decode raw) as [old|x]; [done|]|]; injection He as <-; eauto.
Qed.

Lemma git_command_cases f s r s' : git_command f s = (r, s') →
    (∃ e, r = Err e ∧ heads s' = heads s ∧ remote_heads s' = remote_heads s) ∨
    (r = Ok tt ∧ heads s' = heads (f s) ∧ remote_heads s' = remote_heads (f s)).
Proof.
    unfold git_command. destruct (git_script s) as [|[e|] rest]; intros [= <- <-]; [right|left; exists e|right]; repeat split.
Qed.
  (** The state of the branches against an earlier one: only rings among
      [groups] that pass the comparison moved, and they moved to [rev]. *)
Definition advanced (f : Fleet) (pins : gmap string string) (tags : list string) (rev : string) (groups : list string)
      (s s' : Refs) : Prop :=
    ∀ b, (heads s' !! b = heads s !! b ∧ remote_heads s' !! b = remote_heads s !! b) ∨
      ∃ g, b = RingBranch g ∧ g ∈ groups ∧ same_builds f tags g (default "" (pins !! g)) ∧
        heads s' !! b = Some rev ∧ (remote_heads s' !! b = remote_heads s !! b ∨ remote_heads s' !! b = Some rev).

Lemma advanced_refl f pins tags rev groups s s' :
    heads s' = heads s → remote_heads s' = remote_heads s → advanced f pins tags rev groups s s'.
Proof. intros Eh Er b. left. by rewrite Eh, Er. Qed.

Lemma advanced_step f pins tags rev g groups s s1 s2 :
    heads s1 = <[RingBranch g := rev]> (heads s) →
    (remote_heads s1 = remote_heads s ∨ remote_heads s1 = <[RingBranch g := rev]> (remote_heads s)) →
    same_builds f tags g (default "" (pins !! g)) →
    advanced f pins tags rev groups s1 s2 → advanced f pins tags rev (g :: groups) s s2.
Proof.
    intros Hh Hr Hsame Ha b. specialize (Ha b).
    assert (Hcase : b = RingBranch g ∨ heads s1 !! b = heads s !! b ∧ remote_heads s1 !! b = remote_heads s !! b).
    { destruct (decide (b = RingBranch g)) as [->|Hne]; [by left|right]. rewrite Hh, lookup_insert_ne by done.
      split; [done|]. destruct Hr as [-> | ->]; [done|]. by rewrite lookup_insert_ne. }
    destruct Hcase as [-> |[E1 E2]].
    - right. exists g. split; [done|]. split; [left|]. split; [done|].
      assert (Hr' : remote_heads s1 !! RingBranch g = remote_heads s !! RingBranch g ∨
                    remote_heads s1 !! RingBranch g = Some rev).
      { destruct Hr as [-> | ->]; [by left|right]. apply lookup_insert_eq. }
      destruct Ha as [[A1 A2]|(g' & _ & _ & _ & A1 & A2)].
      + rewrite A1, A2, Hh, lookup_insert_eq. done.
      + split; [done|]. destruct A2 as [-> | ->]; [done|by right].
    - rewrite E1, E2 in Ha. destruct Ha as [?|(g' & -> & Hg' & ?)]; [by left|right].
      exists g'. split; [done|]. split; [by right|done].
Qed.

Lemma advance_rings_spec f pins tags rev groups s r s' :
    advance_rings f pins tags rev groups s = (r, s') →
    advanced f pins tags rev groups s s' ∧
    match r with
    | Ok _ => ∀ g, g ∈ groups → heads s' !! RingBranch g = Some rev ∧ remote_heads s' !! RingBranch g = Some rev
    | Err (RingBehind g changed) => g ∈ groups ∧ changed ≠ []
    | Err _ => True
    end.
Proof.
    revert s r s'. induction groups as [|g groups IH]; intros s r s'.
    { intros [= <- <-]. split; [by apply advanced_refl|]. by intros g []%elem_of_nil. }
    cbn [advance_rings]. cbv zeta. set (pin := default "" (pins !! g)).
    intros [(ch & s0 & E & Hrest)|(e & E & ->)]%se_bind_inv.
    2:{ unfold se_lift in E. injection E as He <-. split; [by apply advanced_refl|].
        by apply members_err in He as [(? & ? & ->)|(? & ? & ->)]. }
    unfold se_lift in E. injection E as Hch <-.
    destruct (ch !=? []) eqn:Hne.
    { injection Hrest as <- <-. split; [by apply advanced_refl|]. split; [left|by apply negb_true_iff, bool_decide_eq_false in Hne]. }
    apply negb_false_iff, bool_decide_eq_true in Hne. subst ch. apply members_unchanged in Hch.
    apply se_bind_inv in Hrest as [(u & s1 & E1 & Hrest)|(e & E1 & ->)]; unfold ring_git in E1;
      destruct (SetRef (RingBranch g) rev s) as [r1 sx] eqn:Hset; destruct r1 as [u1|e1]; simplify_eq;
      apply git_command_cases in Hset as [(e2 & ? & Hh1 & Hr1)|(? & Hh1 & Hr1)]; try done.
    2:{ split; [by apply advanced_refl|done]. }
    simpl in Hh1, Hr1.
    apply se_bind_inv in Hrest as [(u2 & s2 & E2 & Hrest)|(e & E2 & ->)]; unfold ring_git in E2;
      destruct (PushRef (RingBranch g) s1) as [r2 sy] eqn:Hpush; destruct r2 as [u3|e3]; simplify_eq;
      apply git_command_cases in Hpush as [(e4 & ? & Hh2 & Hr2)|(? & Hh2 & Hr2)]; try done.
    2:{ split; [|done]. eapply advanced_step; [by rewrite Hh2|left; by rewrite Hr2|exact Hch|].
        by apply advanced_refl. }
    rewrite Hh1, lookup_insert_eq in Hh2, Hr2. simpl in Hh2, Hr2. rewrite Hr1 in Hr2.
    rewrite Hh1 in Hh2.
    assert (Hout : ∃ r3, advance_rings f pins tags rev groups s2 = (r3, s') ∧
              match r with Ok _ => ∃ out, r3 = Ok out | Err e => r3 = Err e end).
    { apply se_bind_inv in Hrest as [(out & s3 & E3 & [= <- <-])|(e & E3 & ->)]; [exists (Ok out)|exists (Err e)]; eauto. }
    destruct Hout as (r3 & E3 & Hr3). destruct (IH _ _ _ E3) as [Ha Hok]. split.
    - eapply advanced_step; [exact Hh2|right; exact Hr2|exact Hch|exact Ha].
    - destruct r as [out|e].
      + destruct Hr3 as [out' ->]. intros g' [->|Hg']%elem_of_cons; [|by apply Hok].
        destruct (Ha (RingBranch g)) as [[A1 A2]|(g'' & Hb & Hg'' & _ & _)].
        * by rewrite A1, A2, Hh2, Hr2, !lookup_insert_eq.
        * apply string_app_inj in Hb. subst g''. by apply Hok.
      + subst r3. destruct e; try done. destruct Hok. split; [by right|done].
Qed.
End rings.

Section property.
  Context `{GoJson, Fingerprint, FleetJson} (FileAt : string → string → res string string).

(** Advancing a ring for an enrolment rebuilds nobody.  Whatever git does,
    a branch that moved is the ring of a group over one of the enrolled devices,
    pinned at another revision; it moved to the enrolment's commit; and no other
    device that was in the group at the pin has another configuration shape in
    the current document, nor does what the shapes leave out differ.  On success
    every pinned ring over the devices stands at the commit, here and on the
    remote; a ring refused as behind has changed members to name. *)
Theorem enrolment_rebuilds_nobody f tags rev s r s' :
  EnsureRingsContain FileAt f tags rev s = (r, s') →
  (∀ b, (heads s' !! b = heads s !! b ∧ remote_heads s' !! b = remote_heads s !! b) ∨
        ∃ g p, b = RingBranch g ∧ g ∈ covering_groups f tags ∧ pin_of f rev g = Some p ∧
          same_builds FileAt f tags g p ∧ heads s' !! b = Some rev ∧
          (remote_heads s' !! b = remote_heads s !! b ∨ remote_heads s' !! b = Some rev)) ∧
  match r with
  | Ok _ => rev ≠ "" → ∀ g p, g ∈ covering_groups f tags → pin_of f rev g = Some p →
              heads s' !! RingBranch g = Some rev ∧ remote_heads s' !! RingBranch g = Some rev
  | Err (RingBehind g changed) => g ∈ covering_groups f tags ∧ changed ≠ []
  | Err _ => True
  end.
Proof.
  unfold EnsureRingsContain. destruct ((rev ==? "") || (tags ==? [])) eqn:Hempty.
  { intros [= <- <-]. split; [by left|]. intros Hrev g p Hg _. apply orb_true_iff in Hempty as [He|He];
      apply bool_decide_eq_true in He; [done|]. subst tags. by apply elem_of_nil in Hg. }
  intros E. apply advance_rings_spec in E as [Ha Hr].
  assert (Hin : ∀ g, g ∈ sorted_keys (ring_pins_of f tags rev) →
            ∃ p, ring_pins_of f tags rev !! g = Some p ∧ g ∈ covering_groups f tags ∧ pin_of f rev g = Some p).
  { intros g [p Hp]%elem_of_sorted_keys. exists p. split; [done|]. by apply ring_pins_lookup. }
  split.
  - intros b. destruct (Ha b) as [?|(g & -> & Hg & Hsame & ? & ?)]; [by left|right].
    destruct (Hin g Hg) as (p & Hp & Hcov & Hpin). rewrite Hp in Hsame. by exists g, p.
  - destruct r as [out|e].
    + intros _ g p Hg Hp. apply Hr, elem_of_sorted_keys. exists p. by apply ring_pins_lookup.
    + destruct e; try done. destruct Hr as [Hg Hne]. by destruct (Hin _ Hg) as (_ & _ & ? & _).
Qed.

(** The comparison reads fleet.json and nothing else of a revision: the lock file
    that fixes the core, the overlay's modules and its profiles may differ. *)
Theorem compares_the_document_only (FileAt' : string → string → res string string) f tags rev s :
  (∀ at_, FileAt at_ "fleet.json" = FileAt' at_ "fleet.json") →
  EnsureRingsContain FileAt f tags rev s = EnsureRingsContain FileAt' f tags rev s.
Proof.
  intros Heq. unfold EnsureRingsContain. destruct (_ || _); [done|].
  generalize (ring_pins_of f tags rev) as pins. intros pins. generalize (sorted_keys pins) as groups.
  intros groups. revert s. induction groups as [|g groups IH]; intros s; [done|].
  cbn [advance_rings]. cbv zeta. unfold membersChangedBetween, document_at. rewrite Heq.
  unfold se_bind. destruct (se_lift _ s) as [[ch|] s0]; [|done]. destruct (ch !=? []); [done|].
  destruct (ring_git _ _ s0) as [[u1|] s1]; [|done]. destruct (ring_git _ _ s1) as [[u2|] s2]; [|done].
  by rewrite IH.
Qed.
End property.

(** ** Two rings *)

#[local] Instance ring_json : GoJson := {
  json_value v := Ok (match v with VBool true => "1" | _ => "0" end); fmt_v v := ""; fleet_fields f := Ok ∅; json_fields m := Ok "{}"
}.
#[local] Instance ring_print : Fingerprint := λ s, s.

(** Laptops in two rings pinned at "p1"; a setting of the second is newer than
    the pin when [late] says so. *)
Definition ring_fleet (late enrolled : bool) : Fleet := zero_fleet
  <| f_Groups := <["a" := zero_group <| g_Pin := "p1" |>]>
       {["b" := zero_group <| g_Pin := "p1" |> <| g_scope := zero_scope <| sc_Settings := {["k" := VBool late]} |> |> ]} |>
  <| Devices := <["a1" := zero_device <| Groups := ["a"] |>]> (<["b1" := zero_device <| Groups := ["b"] |>]>
       (if enrolled then {["new" := zero_device <| Groups := ["a"; "b"] |>]} else ∅)) |>.

#[local] Instance ring_codec : FleetJson := {
  unmarshal_probe b := Ok 3; unmarshal_doc b := Ok ∅;
  unmarshal_fleet b := Ok (ring_fleet false false);
  marshal_doc d := Ok ""; marshal_fleet f := Ok ""
}.

Definition at_pin (rev path : string) : res string string := Ok "document".
Definition both_at (rev : string) : Refs :=
  mkRefs {[RingBranch "a" := rev; RingBranch "b" := rev]} {[RingBranch "a" := rev; RingBranch "b" := rev]} [].

Lemma enrolment_rebuilds_nobody_witness :
  let o := EnsureRingsContain at_pin (ring_fleet false true) ["new"] "p9" (both_at "p1") in
  is_ok o.1 = true ∧ heads o.2 !! RingBranch "b" = Some "p9".
Proof.
  cbv zeta. destruct (EnsureRingsContain at_pin (ring_fleet false true) ["new"] "p9" (both_at "p1")) as [r s'] eqn:E.
  assert (Hok : is_ok (EnsureRingsContain at_pin (ring_fleet false true) ["new"] "p9" (both_at "p1")).1 = true)
    by (vm_compute; reflexivity).
  rewrite E in Hok. simpl in *. split; [exact Hok|].
  destruct (enrolment_rebuilds_nobody at_pin _ _ _ _ _ _ E) as [_ Hr]. destruct r as [out|e]; [|discriminate Hok].
  apply (Hr ltac:(discriminate) "b" "p1").
  - apply (bool_decide_unpack _). vm_compute. exact I.
  - vm_compute. reflexivity.
Defined.

(** An error after a move: the first ring is advanced and pushed before the
    second is found to be behind. *)
Theorem refused_after_a_move :
  let o := EnsureRingsContain at_pin (ring_fleet true true) ["new"] "p9" (both_at "p1") in
  match o.1 with Ok _ => None | Err e => Some e end = Some (RingBehind "b" ["b1"]) ∧
  remote_heads o.2 !! RingBranch "a" = Some "p9" ∧ remote_heads o.2 !! RingBranch "b" = Some "p1".
Proof. split; [|split]; vm_compute; reflexivity. Qed.
