(* ===== verification/Api.v ===== *)
(** * The API's gatekeeper and handlers (src/internal/http/api)

    [/api/v1]: a request is authenticated, passes the write switch and the CSRF
    check, and runs one handler; a handler decodes the body, asks for a role at a
    scope, makes one call to a service and answers.  The services are those of
    the other files, over one state: the engine with the configuration service
    in it, the records of the change flow, the tables of tokens and statuses. *)

From S2P Require Import Prelude GoLib FleetModel Groups Filters Resolve Apps Mutate DeviceOps Policies Identity Visibility Classes Verdicts Document ConfigTx Changes ChangeFlow Text Sql Tokens Credentials Imaging Observed Catalog SettingsGuard Rollout Engine.

(** ** Principals (authz.go) *)

Record principal := mkPrincipal {
  pr_user : User; pr_name : string; pr_email : string;
  csrf : string;      (* set only for a session *)
  bearer : bool;      (* a token: no ambient credential *)
  ceiling : Role; hasCap : bool
}.
#[export] Instance principal_eta : Eta principal := λ p,
  mkPrincipal (pr_user p) (pr_name p) (pr_email p) (csrf p) (bearer p) (ceiling p) (hasCap p).

Definition svc_principal : principal :=
  mkPrincipal (Build_User "svc:api" [] true) "api" "" "" true None_ false.

(** [Authz], the static token, the write switch and which services are there. *)
Record ApiConfig := mkApiConfig {
  ac_token : string; ac_write : bool; ac_tokenAuth : bool; ac_sessions : bool;
  ac_baseViewer : list string; ac_baseEditor : list string; ac_baseOwner : list string;
  ac_devCreds : bool; ac_inventory : bool
}.

(** A session as [SessionUser] reads it from the cookies. *)
Record session := mkSession { se_user : User; se_name : string; se_email : string; se_csrf : string }.

Definition bearerToken (authorization : string) : string :=
  match cut_prefix authorization "Bearer " with Some t => t | None => "" end.

Definition verifyCSRF (p : principal) (header : string) : bool :=
  bearer p || ((csrf p !=? "") && (csrf p ==? header)).

(** The ceiling narrows, never widens. *)
Definition clamp (p : principal) (got : Role) : Role :=
  if hasCap p && (role_rank (ceiling p) <? role_rank got) then ceiling p else got.

Definition role_at (ac : ApiConfig) (f : Fleet) (p : principal) (ref : string) : Role :=
  clamp p (RoleAt (H := fleet_directory f)
             (IdentityResolver f (ac_baseViewer ac) (ac_baseEditor ac) (ac_baseOwner ac)) (pr_user p) ref).

Definition holds (ac : ApiConfig) (f : Fleet) (p : principal) (ref : string) (role : Role) : bool :=
  Meets (role_at ac f p ref) role.

Definition canView (ac : ApiConfig) (f : Fleet) (p : principal) (ref : string) : bool := holds ac f p ref Viewer.

Definition author (p : principal) : Author :=
  let u := pr_user p in
  if u_Subject u ==? "" then mkAuthor "" "sextant" "sextant@localhost"
  else if u_Service u then mkAuthor (u_Subject u) "sextant-api" "api@sextant"
  else mkAuthor (u_Subject u)
         (if pr_name p ==? "" then u_Subject u else pr_name p)
         (if pr_email p ==? "" then u_Subject u +:+ "@idp" else pr_email p).

(** ** Errors and their statuses (api.go) *)

Inductive ApiErr :=
  | forbidden (ref : string) (needs got : Role)
  | errNoTokenChaining
  | errServiceNeedsID
  | malformedBody
  | nothingToUpdate
  | deviceRetired
  | unknownSetting (key : string)
  | rawErr (e : CatalogErr)
  | badPage (what : string)
  | settingE (e : SettingErr)
  | configE (e : TxErr)
  | changeE (e : ChErr)
  | rolloutE (e : EngErr)
  | tokenE (e : TokenErr)
  | dbE
  | badRequest (e : ApiErr).

(** What [errors.As] and [errors.Is] look for. *)
Inductive ErrKind := KForbidden | KValidation | KConflict | KGovernance | KUnavailable | KBad.
#[export] Instance ErrKind_eq_dec : EqDecision ErrKind.
Proof. solve_decision. Defined.

Section errors.
  (** The kinds an error text of git, of the gate or of a store stands for. *)
  Context (kind : string → list ErrKind).

Definition tx_kinds (e : TxErr) : list ErrKind :=
    match e with
    | ReadE _ (ReadFailed e) | EncodeE e | WriteE e | GateE e | CommitE e | SyncE e | PushE e => kind e
    | RollbackE g w => kind g ++ kind w
    | GaveUp _ => [KConflict]
    | _ => []
    end.

Definition change_kinds (e : ChErr) : list ErrKind :=
    match e with
    | ChangeFlow.StoreE e | BranchE e | NoHead e | MergeE e | MergeRefused e | MergedUnrecorded e => kind e
    | UndoE a b | MergeStuck a b => kind a ++ kind b
    | EditE e | MergedUnread e => tx_kinds e
    | MergedUnpushed ErrConflict => [KConflict]
    | MergedUnpushed (PushFailed e) => kind e
    | _ => []
    end.

Definition rollout_kinds (e : EngErr) : list ErrKind :=
    match e with
    | StoreE e | ConvE e | RefE _ e | HeadE e | AuditE e => kind e
    | PinE e | CohortE _ e => tx_kinds e
    | _ => []
    end.

Fixpoint kinds (e : ApiErr) : list ErrKind :=
    match e with
    | forbidden _ _ _ | errNoTokenChaining => [KForbidden]
    | nothingToUpdate | deviceRetired | badPage _ => [KValidation]
    | settingE ChangeRequestRequired => [KGovernance]
    | settingE (SettingTx e) | configE e => tx_kinds e
    | changeE e => change_kinds e
    | rolloutE e => rollout_kinds e
    | badRequest e => KBad :: kinds e
    | _ => []
    end.

(** The status [fail] answers with. *)
Definition fail_status (e : ApiErr) : Z :=
    let ks := kinds e in
    if KForbidden ∈? ks then 403
    else if KValidation ∈? ks then 422
    else if (KConflict ∈? ks) || (KGovernance ∈? ks) then 409
    else if KUnavailable ∈? ks then 503
    else if KBad ∈? ks then 400
    else 500.

Definition settingErr (e : ApiErr) : ApiErr :=
    if (KValidation ∈? kinds e) || (KGovernance ∈? kinds e) then e else badRequest e.
End errors.

(** [wrapChangeErr] looks for phrases in the message: the errors whose own text
    has one of them. *)
Definition wrapChangeErr (e : ChErr) : ApiErr :=
  match e with
  | UnknownChange _ | BadChange (CannotMove _ _ _) | Unidentified _ | OwnApproval _ | NotEditable _ _
  | NotReady _ _ | NotPending _ _ | ChangeExists _ | BadChange (InvalidID _) => badRequest (changeE e)
  | _ => changeE e
  end.

(** [rejectingMut]: an error of the mutation is the caller's. *)
Definition rejecting (e : TxErr) : ApiErr :=
  match e with MutateE _ => badRequest (configE e) | _ => configE e end.

Definition rejecting_change (e : ChErr) : ApiErr :=
  match e with EditE (MutateE _) => badRequest (changeE e) | _ => wrapChangeErr e end.

(** ** Answers *)

Inductive Answer :=
  | Fields (l : list (string * string))        (* a JSON object of strings *)
  | AChange (cr : CR)
  | ARun (st : Rollout.State)
  | ATick (act : option Action) (st : option Rollout.State)
  | AToken (t : Token) (secret : string).

Record Reply := mkReply { status : Z; answer : Answer }.

Definition said (st : Z) (s : string) : Reply := mkReply st (Fields [("status", s)]).
Definition refusal (st : Z) (s : string) : Reply := mkReply st (Fields [("error", s)]).

Definition credential_notice : string := "store this device credential now; it is not shown again".
Definition credential_gap : string := "credential not issued; re-issue before the device checks in".

(** The fields about a credential, by what [Issue] returned. *)
Definition credential_fields (r : res TokenErr string) : list (string * string) :=
  match r with
  | Ok secret => [("credential", secret); ("notice", credential_notice)]
  | Err _ => [("credentialError", credential_gap)]
  end.

(** ** Bodies and routes *)

(** A decoded body; [None] is malformed, too large or with an unknown field. *)
Notation Body A := (option A).

Record EnrollIn := mkEnrollIn {
  ei_Tag : string; ei_Hardware : string; ei_Class : string; ei_Groups : list string;
  ei_AssignedUser : string; ei_Labels : gmap string string
}.
Record SettingIn := mkSettingIn {
  si_Scope : string; si_Key : string; si_Value : Value; si_Enforce : option bool; si_Clear : bool
}.
Record TokenIn := mkTokenIn {
  ti_ID : string; ti_Name : string; ti_Kind : string; ti_Ceiling : string; ti_Groups : list string; ti_TTLDays : Z
}.

(** The mutating routes, with their path values; of them only the caller's own
    preferences (PUT /api/v1/me/preferences) are left out. *)
Inductive Route :=
  | PostDevice (b : Body EnrollIn)
  | PatchDevice (tag : string) (b : Body DevicePatch)
  | DeleteDevice (tag : string)
  | RetirePost (tag : string)
  | ReactivatePost (tag : string)
  | CredentialPost (tag : string)
  | IntentPost (tag : string) (b : Body (string * bool))
  | IntentDelete (tag : string)
  | PostGroup (b : Body (string * string * string))
  | PatchGroup (name : string) (b : Body (option string * option string))
  | DeleteGroup (name : string)
  | PutApps (b : Body (string * string * list string))
  | PutPlan (b : Body (option RolloutPolicy))
  | PutAssurance (b : Body Assurance)
  | PostSetting (b : Body SettingIn)
  | DeleteSetting (b : Body (string * string))
  | PutPolicyR (id : string) (b : Body Policy)
  | DeletePolicyR (id : string)
  | PostAssignment (b : Body Assignment)
  | DeleteAssignment (b : Body (string * string * string))
  | PutFilterR (id : string) (b : Body Filter)
  | DeleteFilterR (id : string)
  | PostSecretRef (b : Body (string * string))
  | DeleteSecretRef (name : string)
  | PostAccess (b : Body AccessBinding)
  | DeleteAccess (b : Body (string * string))
  | PostChange (b : Body (string * string))
  | PostChangeEdit (id : string) (b : Body SettingIn)
  | PostChangeSubmit (id : string)
  | PostChangeMerge (id : string)
  | PostChangeAbandon (id : string)
  | PostRollout (b : Body string)
  | PostRolloutTick
  | DeleteRollout
  | PostToken (b : Body TokenIn)
  | DeleteToken_ (id : string).

(** ** The state and the collaborators of one request *)

Record Api `{OverlayParsers} (W S : Type) := mkApi {
  ap_engine : Engine W; ap_changes : S; ap_events : list ChangeEvent;
  ap_tokens : Pg TokenTable; ap_status : Pg StatusTable
}.
Arguments mkApi {_ W S}. Arguments ap_engine {_ W S}. Arguments ap_changes {_ W S}.
Arguments ap_events {_ W S}. Arguments ap_tokens {_ W S}. Arguments ap_status {_ W S}.
#[export] Instance Api_eta `{OverlayParsers} W S : Eta (Api W S) := λ s,
  mkApi (ap_engine s) (ap_changes s) (ap_events s) (ap_tokens s) (ap_status s).

Record ApiEnv (W : Type) := mkApiEnv {
  ae_now : Time; ae_raw : string; ae_salt : string;          (* the clock, and [rand.Read] *)
  ae_dir : option (res unit (list string));                  (* the directory, for a token's groups *)
  ae_gate : Gate W; ae_change : ChEnv W; ae_rollout : Env W
}.
Arguments mkApiEnv {W}. Arguments ae_now {W}. Arguments ae_raw {W}. Arguments ae_salt {W}. Arguments ae_dir {W}.
Arguments ae_gate {W}. Arguments ae_change {W}. Arguments ae_rollout {W}.

Section api.
  Context {W S : Type}
    `{ConfigRepo W, BranchRepo W, ChangeStore S, GoJson, Fingerprint, FleetJson, OverlayParsers}.
  Context (catalog_of : ConfigTx.Catalog → SettingsCatalog) (IDKey : string → string → string).
  Context (kind : string → list ErrKind).
  Context (ac : ApiConfig) (env : ApiEnv W).

Notation M A := (SE (Api W S) ApiErr A).

Definition ap_config (s : Api W S) : ConfigService W := en_cfg (ap_engine s).
Definition api_fleet (s : Api W S) : Fleet := cs_Fleet (ap_config s).

Definition on_config {E A} (k : E → ApiErr) (m : SE (ConfigService W) E A) : M A := λ s,
    let '(r, c) := m (ap_config s) in (lift_err k r, s <| ap_engine := (ap_engine s) <| en_cfg := c |> |>).

Definition on_engine {A} (k : EngErr → ApiErr) (m : SE (Engine W) EngErr A) : M A := λ s,
    let '(r, e) := m (ap_engine s) in (lift_err k r, s <| ap_engine := e |>).

Definition on_flow {A} (k : ChErr → ApiErr) (m : SE (Flow W S) ChErr A) : M A := λ s,
    let '(r, fl) := m (mkFlow (ap_config s) (ap_changes s) (ap_events s)) in
    (lift_err k r, mkApi ((ap_engine s) <| en_cfg := fl_cfg fl |>) (fl_store fl) (fl_events fl)
                     (ap_tokens s) (ap_status s)).

Definition on_tokens {E A} (k : E → ApiErr) (m : SE (Pg TokenTable) E A) : M A := λ s,
    let '(r, t) := m (ap_tokens s) in (lift_err k r, s <| ap_tokens := t |>).

Definition on_status {E A} (k : E → ApiErr) (m : SE (Pg StatusTable) E A) : M A := λ s,
    let '(r, t) := m (ap_status s) in (lift_err k r, s <| ap_status := t |>).

(** ** What every handler uses *)

Definition decode {A} (b : Body A) : M A :=
    match b with Some a => se_ret a | None => se_err (badRequest malformedBody) end.

Definition require (p : principal) (ref : string) (role : Role) : M unit := λ s,
    let got := role_at ac (api_fleet s) p ref in
    (if Meets got role then Ok tt else Err (forbidden ref role got), s).

Definition api_apply (p : principal) (mut : Mutation) (msg : string) (hosts : list string) : M unit :=
    on_config rejecting (Apply (ae_gate env) mut msg (author p) hosts).

(** [app.AffectedHosts(a.cfg.Fleet(), ref)] at the call. *)
Definition apply_at (p : principal) (ref : string) (mut : Mutation) (msg : string) : M unit := λ s,
    api_apply p mut msg (AffectedHosts (api_fleet s) ref) s.

(** [Issue], whose error the handler answers with. *)
Definition issue (tag : string) : M (res TokenErr string) := λ s,
    let '(r, t) := IssueCredential IDKey (ae_raw env) (ae_salt env) Tokens.Device tag (ae_now env) (ap_tokens s) in
    (Ok r, s <| ap_tokens := t |>).

(** [Revoke], whose error is only logged. *)
Definition revoke (tag : string) : M unit := λ s,
    (Ok tt, if ac_devCreds ac then s <| ap_tokens := snd (RevokeCredential Tokens.Device tag (ap_tokens s)) |> else s).

Definition with_credential (st : Z) (tag : string) (fields : list (string * string)) : M Reply :=
    if ac_devCreds ac
    then do! r <- issue tag; se_ret (mkReply st (Fields (fields ++ credential_fields r)))
    else se_ret (mkReply st (Fields fields)).

(** ** Devices (handlers.go, fleet_ops.go, me.go, intent.go) *)

Definition postDevice (p : principal) (b : Body EnrollIn) : M Reply :=
    do! i <- decode b;
    run! (if ei_Groups i ==? [] then require p "org" Editor else se_ret tt);
    run! se_each (λ g, require p (group_ref g) Editor) (ei_Groups i);
    let d := zero_device <| Hardware := ei_Hardware i |> <| Class := ei_Class i |> <| Groups := ei_Groups i |>
               <| AssignedUser := ei_AssignedUser i |> <| Labels := ei_Labels i |> in
    run! api_apply p (AddDevice (ei_Tag i) d (ae_now env))
           ("devices: enroll " +:+ ei_Tag i +:+ " (" +:+ ei_Hardware i +:+ ")") [ei_Tag i];
    with_credential 201 (ei_Tag i) [("status", "enrolled"); ("tag", ei_Tag i)].

Definition patchDevice (p : principal) (tag : string) (b : Body DevicePatch) : M Reply :=
    do! i <- decode b;
    run! require p (device_ref tag) Editor;
    run! (match dp_Groups i with
          | Some gs => λ s, se_each (λ g, require p (group_ref g) Editor)
                              (GroupMembershipDelta (Groups (dev (api_fleet s) tag)) gs) s
          | None => se_ret tt
          end);
    run! api_apply p (UpdateDevice tag i) ("devices: update " +:+ tag) [tag];
    se_ret (said 200 "updated").

Definition deleteDevice (p : principal) (tag : string) : M Reply :=
    run! require p (device_ref tag) Editor;
    run! api_apply p (RemoveDevice tag) ("devices: remove " +:+ tag) [];
    run! revoke tag;
    se_ret (said 200 "removed").

Definition postDeviceRetire (p : principal) (tag : string) : M Reply :=
    run! require p (device_ref tag) Editor;
    run! api_apply p (RetireDevice tag) ("devices: retire " +:+ tag) [];
    run! revoke tag;
    se_ret (said 200 "retired").

Definition postDeviceReactivate (p : principal) (tag : string) : M Reply :=
    run! require p (device_ref tag) Editor;
    run! api_apply p (ReactivateDevice tag) ("devices: reactivate " +:+ tag) [tag];
    with_credential 200 tag [("status", "active")].

Definition postDeviceCredential (p : principal) (tag : string) : M Reply :=
    run! require p (device_ref tag) Editor;
    do! f <- se_get api_fleet;
    match Devices f !! tag with
    | Some d =>
        if negb (canView ac f p (device_ref tag)) then se_ret (refusal 404 ("unknown device " +:+ tag))
        else if Retired d then se_err deviceRetired
        else do! r <- issue tag;
             match r with
             | Ok secret => se_ret (mkReply 200 (Fields (credential_fields (Ok secret))))
             | Err e => se_err (tokenE e)
             end
    | None => se_ret (refusal 404 ("unknown device " +:+ tag))
    end.

Definition postDeviceIntent (p : principal) (tag : string) (b : Body (string * bool)) : M Reply :=
    do! i <- decode b;
    run! require p "org" Owner_;
    do! f <- se_get api_fleet;
    if negb (canView ac f p (device_ref tag)) then se_ret (refusal 404 ("unknown device " +:+ tag)) else
    run! api_apply p (SetDeviceIntent tag i.1 i.2) ("intent: " +:+ i.1 +:+ " " +:+ tag) [];
    se_ret (mkReply 200 (Fields [("status", "armed"); ("intent", i.1)])).

Definition deleteDeviceIntent (p : principal) (tag : string) : M Reply :=
    run! require p "org" Owner_;
    run! api_apply p (ClearDeviceIntent tag) ("intent: clear " +:+ tag) [];
    se_ret (said 200 "cleared").

(** ** Groups, apps, the plan and the assurance *)

Definition postGroup (p : principal) (b : Body (string * string * string)) : M Reply :=
    do! i <- decode b;
    let '(name, parent, idp) := i in
    run! require p (if parent !=? "" then group_ref parent else "org") Owner_;
    run! api_apply p (AddGroup name (zero_group <| Parent := parent |> <| IdpGroup := idp |>))
           ("groups: add " +:+ name) [];
    se_ret (said 201 "created").

Definition patchGroup (p : principal) (name : string) (b : Body (option string * option string)) : M Reply :=
    do! i <- decode b;
    if (i.1 ==? None) && (i.2 ==? None) then se_err nothingToUpdate else
    run! require p "org" Owner_;
    run! apply_at p (group_ref name) (UpdateGroup name i.1 i.2) ("groups: update " +:+ name);
    se_ret (said 200 "updated").

Definition deleteGroup (p : principal) (name : string) : M Reply :=
    run! require p "org" Owner_;
    run! api_apply p (RemoveGroup name) ("groups: remove " +:+ name) [];
    se_ret (said 200 "removed").

Definition putApps (p : principal) (b : Body (string * string * list string)) : M Reply :=
    do! i <- decode b;
    let '(scope, k, names) := i in
    run! require p scope Editor;
    run! apply_at p scope (SetScopeApps scope k names)
           ("apps: set " +:+ k +:+ " at " +:+ scope +:+ " (" +:+ pretty (length names) +:+ ")");
    se_ret (said 200 "updated").

Definition putRolloutPlan (p : principal) (b : Body (option RolloutPolicy)) : M Reply :=
    do! plan <- decode b;
    run! require p "org" Owner_;
    run! api_apply p (SetRolloutPlan plan)
           (match plan with None => "rollout: clear plan" | Some _ => "rollout: replace plan" end) [];
    se_ret (said 200 "updated").

Definition putAssurance (p : principal) (b : Body Assurance) : M Reply :=
    do! i <- decode b;
    run! require p "org" Owner_;
    run! api_apply p (SetAssurance i)
           ("assurance: four-eyes " +:+ (if RequireFourEyes i then "true" else "false")) [];
    se_ret (said 200 "updated").

(** ** Settings (handlers.go) *)

Definition one_change (key raw : string) (clear : bool) : list SettingChange := [mkChange key raw false clear].

Definition guard_bricking (scope : string) (changes : list SettingChange) : M unit := λ s,
    on_status (λ e, badRequest (settingE e))
      (GuardBrickingSettings (ac_inventory ac) (api_fleet s) scope changes) s.

Definition guard_exclusive (scope : string) (changes : list SettingChange) : M unit := λ s,
    (match GuardExclusiveSettings true (api_fleet s) scope changes with
     | Some e => Err (badRequest (settingE e)) | None => Ok tt end, s).

Definition setting_tx {A} (m : SE (ConfigService W) SettingErr A) : M A :=
    on_config (λ e, settingErr kind (settingE e)) m.

Definition postSetting (p : principal) (b : Body SettingIn) : M Reply :=
    do! i <- decode b;
    run! require p (si_Scope i) Editor;
    do! cat <- se_get (λ s, cs_Catalog catalog_of (ap_config s));
    match Lookup cat (si_Key i) with
    | None => se_err (badRequest (unknownSetting (si_Key i)))
    | Some entry =>
        do! raw <- se_lift (lift_err (λ e, badRequest (rawErr e)) (RawFromValue entry (si_Value i)));
        run! guard_exclusive (si_Scope i) (one_change (si_Key i) raw false);
        run! guard_bricking (si_Scope i) (one_change (si_Key i) raw false);
        run! setting_tx (SetSetting catalog_of (ae_gate env) (si_Scope i) (si_Key i) raw (si_Enforce i) (author p));
        se_ret (said 200 "applied")
    end.

Definition deleteSetting (p : principal) (b : Body (string * string)) : M Reply :=
    do! i <- decode b;
    let '(scope, key) := i in
    run! require p scope Editor;
    run! guard_bricking scope (one_change key "" true);
    run! setting_tx (ClearSetting (ae_gate env) scope key (author p));
    se_ret (said 200 "applied").

(** ** Policies, filters, secret references, access *)

Definition owner_edit (p : principal) (mut : Mutation) (msg : string) : M Reply :=
    run! require p "org" Owner_;
    run! api_apply p mut msg [];
    se_ret (said 200 "applied").

Definition putPolicy (p : principal) (id : string) (b : Body Policy) : M Reply :=
    do! pol <- decode b; owner_edit p (PutPolicy id pol) ("policies: put " +:+ id).
Definition deletePolicy (p : principal) (id : string) : M Reply :=
    owner_edit p (DeletePolicy id) ("policies: delete " +:+ id).
Definition putFilter (p : principal) (id : string) (b : Body Filter) : M Reply :=
    do! fl <- decode b; owner_edit p (PutFilter id fl) ("filters: put " +:+ id).
Definition deleteFilter (p : principal) (id : string) : M Reply :=
    owner_edit p (DeleteFilter id) ("filters: delete " +:+ id).

Definition postAssignment (p : principal) (b : Body Assignment) : M Reply :=
    do! a <- decode b;
    run! require p (Target a) Owner_;
    run! apply_at p (Target a) (Assign a) ("policies: assign " +:+ a_Policy a +:+ " to " +:+ Target a);
    se_ret (said 200 "applied").

Definition deleteAssignment (p : principal) (b : Body (string * string * string)) : M Reply :=
    do! i <- decode b;
    let '(policy, target, filter) := i in
    run! require p target Owner_;
    run! apply_at p target (Unassign policy target filter) ("policies: unassign " +:+ policy +:+ " from " +:+ target);
    se_ret (said 200 "applied").

Definition postSecretRef (p : principal) (b : Body (string * string)) : M Reply :=
    do! i <- decode b;
    run! require p "org" Owner_;
    let name := trim_space i.1 in
    run! on_config (λ e, badRequest (configE e))
           (ApplyStructural (AddSecretRef name {| sr_Description := trim_space i.2 |})
              ("secrets: register reference " +:+ name) (author p));
    se_ret (mkReply 201 (Fields [("name", name)])).

Definition deleteSecretRef (p : principal) (name : string) : M Reply :=
    run! require p "org" Owner_;
    run! on_config (λ e, settingErr kind (configE e))
           (Apply (ae_gate env) (RemoveSecretRef name) ("secrets: remove reference " +:+ name) (author p) []);
    se_ret (mkReply 200 (Fields [("name", name)])).

Definition postAccess (p : principal) (b : Body AccessBinding) : M Reply :=
    do! i <- decode b;
    run! require p (b_Scope i) Owner_;
    run! api_apply p (Grant i)
           ("access: grant " +:+ b_Group i +:+ " " +:+ b_Role i +:+ " at " +:+ b_Scope i) [];
    se_ret (said 200 "applied").

Definition deleteAccess (p : principal) (b : Body (string * string)) : M Reply :=
    do! i <- decode b;
    let '(group, scope) := i in
    run! require p scope Owner_;
    run! api_apply p (Revoke group scope) ("access: revoke " +:+ group +:+ " at " +:+ scope) [];
    se_ret (said 200 "applied").

(** ** Changes and rollouts (changes.go) *)

Definition postChange (p : principal) (b : Body (string * string)) : M Reply :=
    do! i <- decode b;
    run! require p "org" Editor;
    do! cr <- on_flow (λ e, badRequest (changeE e)) (OpenChange (ae_change env) i.1 i.2 (author p));
    se_ret (mkReply 201 (AChange cr)).

Definition edit_mutation (i : SettingIn) : Mutation :=
    if si_Clear i then ClearScopeSetting (si_Scope i) (si_Key i)
    else set_mutation (si_Scope i) (si_Key i) (si_Value i) (si_Enforce i).

Definition postChangeEdit (p : principal) (id : string) (b : Body SettingIn) : M Reply :=
    do! i <- decode b;
    run! require p (si_Scope i) Editor;
    let verb := if si_Clear i then "clear" else "set" in
    run! on_flow rejecting_change
           (Edit (ae_change env) id (edit_mutation i)
              ("change " +:+ id +:+ ": " +:+ verb +:+ " " +:+ si_Key i +:+ " at " +:+ si_Scope i) (author p) []);
    se_ret (said 200 "applied").

Definition postChangeSubmit (p : principal) (id : string) : M Reply :=
    run! require p "org" Editor;
    do! cr <- on_flow wrapChangeErr (Submit (ae_change env) id);
    se_ret (mkReply 200 (AChange cr)).
Definition postChangeMerge (p : principal) (id : string) : M Reply :=
    run! require p "org" Owner_;
    do! cr <- on_flow wrapChangeErr (Merge (ae_change env) id (author p));
    se_ret (mkReply 200 (AChange cr)).
Definition postChangeAbandon (p : principal) (id : string) : M Reply :=
    run! require p "org" Editor;
    do! cr <- on_flow wrapChangeErr (Abandon (ae_change env) id);
    se_ret (mkReply 200 (AChange cr)).

Definition postRollout (p : principal) (b : Body string) : M Reply :=
    do! target <- decode b;
    run! require p "org" Owner_;
    do! st <- on_engine (λ e, badRequest (rolloutE e)) (StartWith (ae_rollout env) target zero_opts);
    se_ret (mkReply 201 (ARun st)).
Definition postRolloutTick (p : principal) : M Reply :=
    run! require p "org" Owner_;
    do! r <- on_engine rolloutE (Tick (ae_rollout env));
    se_ret (mkReply 200 (ATick r.1 r.2)).
Definition deleteRollout (p : principal) : M Reply :=
    run! require p "org" Owner_;
    do! st <- on_engine (λ e, badRequest (rolloutE e)) (Cancel (ae_rollout env));
    se_ret (mkReply 200 (ARun st)).

(** ** Tokens (tokens.go) *)

Definition ttl_of (days : Z) : Z := if 0 <? days then dur (wrap64 (days * 24)) Hour else 0.

Definition postToken (p : principal) (b : Body TokenIn) : M Reply :=
    do! i <- decode b;
    let u := pr_user p in
    if bearer p && negb (u_Service u) then se_err errNoTokenChaining else
    let service := ti_Kind i ==? "service" in
    run! (if service then
            run! require p "org" Owner_;
            if ti_ID i ==? "" then se_err (badRequest errServiceNeedsID) else se_ret tt
          else se_ret tt);
    let req := mkMintRequest (ti_ID i) (ti_Name i) (if service then Service else Personal)
                 (if service then "svc:" +:+ ti_ID i else u_Subject u)
                 (if service then ti_Groups i else u_Groups u) (ti_Ceiling i) (ttl_of (ti_TTLDays i)) in
    do! minted <- on_tokens (λ e, badRequest (tokenE e))
                    (MintToken IDKey (ae_raw env) (ae_salt env) req (ae_now env));
    se_ret (mkReply 201 (AToken minted.1 minted.2)).

Definition tokenOwned (p : principal) (id : string) : M (option Token) :=
    do! toks <- on_tokens (λ _, dbE) (ListBySubject (u_Subject (pr_user p)));
    se_ret (List.find (λ t, tok_ID t ==? id) toks).

Definition deleteToken (p : principal) (id : string) : M Reply :=
    do! tok <- tokenOwned p id;
    run! (match tok with
          | Some t => if tok_Subject t !=? u_Subject (pr_user p) then require p "org" Owner_ else se_ret tt
          | None => require p "org" Owner_
          end);
    run! on_tokens (λ e, badRequest (tokenE e)) (RevokeToken id);
    se_ret (said 200 "revoked").

(** ** The gatekeeper (api.go) *)

Definition handle (p : principal) (r : Route) : M Reply :=
    match r with
    | PostDevice b => postDevice p b
    | PatchDevice tag b => patchDevice p tag b
    | DeleteDevice tag => deleteDevice p tag
    | RetirePost tag => postDeviceRetire p tag
    | ReactivatePost tag => postDeviceReactivate p tag
    | CredentialPost tag => postDeviceCredential p tag
    | IntentPost tag b => postDeviceIntent p tag b
    | IntentDelete tag => deleteDeviceIntent p tag
    | PostGroup b => postGroup p b
    | PatchGroup name b => patchGroup p name b
    | DeleteGroup name => deleteGroup p name
    | PutApps b => putApps p b
    | PutPlan b => putRolloutPlan p b
    | PutAssurance b => putAssurance p b
    | PostSetting b => postSetting p b
    | DeleteSetting b => deleteSetting p b
    | PutPolicyR id b => putPolicy p id b
    | DeletePolicyR id => deletePolicy p id
    | PostAssignment b => postAssignment p b
    | DeleteAssignment b => deleteAssignment p b
    | PutFilterR id b => putFilter p id b
    | DeleteFilterR id => deleteFilter p id
    | PostSecretRef b => postSecretRef p b
    | DeleteSecretRef name => deleteSecretRef p name
    | PostAccess b => postAccess p b
    | DeleteAccess b => deleteAccess p b
    | PostChange b => postChange p b
    | PostChangeEdit id b => postChangeEdit p id b
    | PostChangeSubmit id => postChangeSubmit p id
    | PostChangeMerge id => postChangeMerge p id
    | PostChangeAbandon id => postChangeAbandon p id
    | PostRollout b => postRollout p b
    | PostRolloutTick => postRolloutTick p
    | DeleteRollout => deleteRollout p
    | PostToken b => postToken p b
    | DeleteToken_ id => deleteToken p id
    end.

(** [authenticate]: the static token, then a scoped token, then the session. *)
Definition authenticate (authorization : string) (se : option session) (s : Api W S)
    : option principal * Api W S :=
    let got := bearerToken authorization in
    if (ac_token ac !=? "") && (got !=? "") && (got ==? ac_token ac) then (Some svc_principal, s) else
    let '(found, s) :=
      if ac_tokenAuth ac && (got !=? "") then
        let '(r, t) := Authenticate IDKey (ae_dir env) got (ae_now env) (ap_tokens s) in (r, s <| ap_tokens := t |>)
      else (None, s) in
    match found with
    | Some (u, c) =>
        let name := match tables (ap_tokens s) !! IDFromSecret got with Some t => tok_Name t | None => "" end in
        (Some (mkPrincipal u name "" "" true c (c !=? None_)), s)
    | None =>
        match se with
        | Some x => if ac_sessions ac
                    then (Some (mkPrincipal (se_user x) (se_name x) (se_email x) (se_csrf x) false None_ false), s)
                    else (None, s)
        | None => (None, s)
        end
    end.

Record Request := mkRequest {
  rq_authorization : string; rq_csrf : string; rq_session : option session; rq_route : Route
}.

(** [wrap] around a mutating handler. *)
Definition serve (rq : Request) (s : Api W S) : Reply * Api W S :=
    if (ac_token ac ==? "") && negb (ac_sessions ac) && negb (ac_tokenAuth ac)
    then (refusal 403 "api disabled: no token or session auth configured", s) else
    let '(found, s) := authenticate (rq_authorization rq) (rq_session rq) s in
    match found with
    | None => (refusal 401 "unauthorized", s)
    | Some p =>
        if negb (ac_write ac) then (refusal 403 "server is read-only (--write not set)", s)
        else if negb (verifyCSRF p (rq_csrf rq)) then (refusal 403 "missing or invalid X-CSRF-Token", s)
        else match handle p (rq_route rq) s with
             | (Ok reply, s) => (reply, s)
             | (Err e, s) => (mkReply (fail_status kind e) (Fields []), s)
             end
    end.
End api.
