(* ===== verification/ApiProofs.v ===== *)
(** * What the API lets through

    Theorems on Api: a request that changes anything came from a principal that
    holds what its route demands; and what a delegated principal can do to the
    roles of others. *)

From S2P Require Import Prelude GoLib FleetModel Groups Filters Resolve Apps Mutate DeviceOps Policies Identity Visibility ScopeEdits Guards Classes Verdicts Document ConfigTx Changes ChangeFlow Text Sql Tokens Credentials Imaging Observed Catalog SettingsGuard Rollout Engine Api.

(** ** What each route demands *)

(** The rights a change of the fleet requires, by what the request touches;
    [f] is the document the request is judged on. *)
Inductive needs (f : Fleet) : Route → string → Role → Prop :=
  | needs_enroll_unattached i : ei_Groups i = [] → needs f (PostDevice (Some i)) "org" Editor
  | needs_enroll_group i g : g ∈ ei_Groups i → needs f (PostDevice (Some i)) (group_ref g) Editor
  | needs_patch tag i : needs f (PatchDevice tag (Some i)) (device_ref tag) Editor
  | needs_move tag i gs g : dp_Groups i = Some gs →
      ¬ (g ∈ Groups (dev f tag) ↔ g ∈ gs) → needs f (PatchDevice tag (Some i)) (group_ref g) Editor
  | needs_remove tag : needs f (DeleteDevice tag) (device_ref tag) Editor
  | needs_retire tag : needs f (RetirePost tag) (device_ref tag) Editor
  | needs_reactivate tag : needs f (ReactivatePost tag) (device_ref tag) Editor
  | needs_credential tag : needs f (CredentialPost tag) (device_ref tag) Editor
  | needs_intent tag b : needs f (IntentPost tag b) "org" Owner_
  | needs_no_intent tag : needs f (IntentDelete tag) "org" Owner_
  | needs_root_group name idp : needs f (PostGroup (Some (name, "", idp))) "org" Owner_
  | needs_subgroup name parent idp : parent ≠ "" →
      needs f (PostGroup (Some (name, parent, idp))) (group_ref parent) Owner_
  | needs_regroup name b : needs f (PatchGroup name b) "org" Owner_
  | needs_ungroup name : needs f (DeleteGroup name) "org" Owner_
  | needs_apps scope k names : needs f (PutApps (Some (scope, k, names))) scope Editor
  | needs_plan b : needs f (PutPlan b) "org" Owner_
  | needs_assurance b : needs f (PutAssurance b) "org" Owner_
  | needs_setting i : needs f (PostSetting (Some i)) (si_Scope i) Editor
  | needs_clear scope key : needs f (DeleteSetting (Some (scope, key))) scope Editor
  | needs_policy id b : needs f (PutPolicyR id b) "org" Owner_
  | needs_no_policy id : needs f (DeletePolicyR id) "org" Owner_
  | needs_assign a : needs f (PostAssignment (Some a)) (Target a) Owner_
  | needs_unassign policy target filter :
      needs f (DeleteAssignment (Some (policy, target, filter))) target Owner_
  | needs_filter id b : needs f (PutFilterR id b) "org" Owner_
  | needs_no_filter id : needs f (DeleteFilterR id) "org" Owner_
  | needs_secret b : needs f (PostSecretRef b) "org" Owner_
  | needs_no_secret name : needs f (DeleteSecretRef name) "org" Owner_
  | needs_grant i : needs f (PostAccess (Some i)) (b_Scope i) Owner_
  | needs_revoke group scope : needs f (DeleteAccess (Some (group, scope))) scope Owner_
  | needs_change b : needs f (PostChange b) "org" Editor
  | needs_edit id i : needs f (PostChangeEdit id (Some i)) (si_Scope i) Editor
  | needs_submit id : needs f (PostChangeSubmit id) "org" Editor
  | needs_merge id : needs f (PostChangeMerge id) "org" Owner_
  | needs_abandon id : needs f (PostChangeAbandon id) "org" Editor
  | needs_rollout b : needs f (PostRollout b) "org" Owner_
  | needs_tick : needs f PostRolloutTick "org" Owner_
  | needs_cancel : needs f DeleteRollout "org" Owner_
  | needs_service i : ti_Kind i = "service" → needs f (PostToken (Some i)) "org" Owner_.

(** The two rules on tokens that are not about a scope: a scoped token mints
    none, and a token of another principal takes the organisation's owner. *)
Definition token_rules (ac : ApiConfig) (f : Fleet) (p : principal) (t : TokenTable) (r : Route) : Prop :=
  match r with
  | PostToken _ => bearer p = true → u_Service (pr_user p) = true
  | DeleteToken_ id =>
      holds ac f p "org" Owner_ = true ∨
      ∃ key tok, t !! key = Some tok ∧ tok_ID tok = id ∧ tok_Subject tok = u_Subject (pr_user p)
  | _ => True
  end.

Lemma RoleAt_groups rv u u' ref {dir : Directory} :
  u_Service u = false → u_Service u' = false → (∀ g, g ∈ u_Groups u → g ∈ u_Groups u') →
  role_le (RoleAt rv u ref) (RoleAt rv u' ref).
Proof.
  intros Hs Hs' Hg. rewrite (RoleAt_le rv u' ref) by done.
  destruct (proj1 (RoleAt_le rv u ref (RoleAt rv u ref) Hs) (reflexivity _))
    as [?|[(r & Hb & ?)|(r & (b & ? & ? & ? & ?) & ?)]]; [by left|right; left|right; right].
  - exists r. split; [|done]. unfold baseline_grants in *. naive_solver.
  - exists r. split; [|done]. exists b. auto.
Qed.

Lemma prune_groups_sub dir groups g : g ∈ prune_groups dir groups → g ∈ groups.
Proof.
  unfold prune_groups. destruct dir as [[existing|]|]; [|done..]. destruct groups; [done|].
  by intros [? _]%elem_of_keep_if.
Qed.

Lemma clamp_min p got : hasCap p = true → role_rank (clamp p got) = Z.min (role_rank got) (role_rank (ceiling p)).
Proof.
  intros Hc. unfold clamp. rewrite Hc. simpl.
  destruct (Z.ltb_spec (role_rank (ceiling p)) (role_rank got)); lia.
Qed.

Section proofs.
  Context {W S : Type}
    `{ConfigRepo W, BranchRepo W, ChangeStore S, GoJson, Fingerprint, FleetJson, OverlayParsers}.
  Context (catalog_of : ConfigTx.Catalog → SettingsCatalog) (IDKey : string → string → string).
  Context (kind : string → list ErrKind).
  Context (ac : ApiConfig) (env : ApiEnv W).

Notation St := (Api W S).

(** ** What an answer leaves alone *)

(** Everything but the stamp of a token's last use. *)
Definition unstamped (t : TokenTable) : TokenTable := (λ tok, tok <| LastUsed := None |>) <$> t.

Record same_data (s s' : St) : Prop := {
    sd_engine : ap_engine s' = ap_engine s;
    sd_changes : ap_changes s' = ap_changes s;
    sd_events : ap_events s' = ap_events s;
    sd_tokens : unstamped (tables (ap_tokens s')) = unstamped (tables (ap_tokens s));
    sd_status : tables (ap_status s') = tables (ap_status s)
}.

#[export] Instance same_data_preorder : PreOrder same_data.
Proof.
    split; [by intros s|]. intros a b c [A1 A2 A3 A4 A5] [B1 B2 B3 B4 B5]. split; congruence.
Qed.

(** A part of a handler either leaves the data alone or runs where [P] holds. *)
Definition demands {A} (P : St → Prop) (m : SE St ApiErr A) : Prop :=
    ∀ s r s', m s = (r, s') → same_data s s' ∨ P s.

Lemma demands_true {A} (P : St → Prop) (m : SE St ApiErr A) : (∀ s, P s) → demands P m.
Proof. intros HP s r s' _. by right. Qed.

Lemma demands_decode {A B} (P : St → Prop) (b : option A) (k : A → SE St ApiErr B) :
    (∀ a, b = Some a → demands P (k a)) → demands P (se_bind (decode b) k).
Proof.
    intros Hk s r s'. destruct b as [a|]; [by apply Hk|]. intros [= _ <-]. by left.
Qed.

(** After a [require] that passes, the right may be used. *)
Lemma demands_require {B} (P : St → Prop) p ref role (k : unit → SE St ApiErr B) :
    demands (λ s, holds ac (api_fleet s) p ref role = true → P s) (k tt) →
    demands P (se_bind (require ac p ref role) k).
Proof.
    intros Hk s r s'. unfold se_bind, require. destruct (Meets _ _) eqn:Hm; [|intros [= _ <-]; by left].
    intros E. destruct (Hk _ _ _ E) as [?|HP]; [by left|]. right. by apply HP.
Qed.

Lemma demands_only {A} (P : St → Prop) p ref role (k : unit → SE St ApiErr A) :
    (∀ s, holds ac (api_fleet s) p ref role = true → P s) → demands P (se_bind (require ac p ref role) k).
Proof. intros HP. by apply demands_require, demands_true. Qed.

Lemma demands_err {A} (P : St → Prop) e : demands P (se_err (A := A) e).
Proof. intros s r s' E. injection E as _ <-. by left. Qed.

Lemma demands_skip {A B} (P : St → Prop) (a : A) (k : A → SE St ApiErr B) :
    demands P (k a) → demands P (se_bind (se_ret a) k).
Proof. done. Qed.

Lemma demands_weaken {A} (P Q : St → Prop) (m : SE St ApiErr A) :
    (∀ s, P s → Q s) → demands P m → demands Q m.
Proof. intros HPQ Hm s r s' E. destruct (Hm _ _ _ E); auto. Qed.

Lemma se_each_require p role refs (s : St) :
    (se_each (λ g, require ac p (group_ref g) role) refs s).2 = s ∧
    ((se_each (λ g, require ac p (group_ref g) role) refs s).1 = Ok tt →
     ∀ g, g ∈ refs → holds ac (api_fleet s) p (group_ref g) role = true).
Proof.
    induction refs as [|x refs IH]; simpl.
    - split; [done|]. intros _ g Hg. by apply elem_of_nil in Hg.
    - unfold se_bind at 1 2, require at 1 3. unfold holds in *. destruct (Meets _ _) eqn:Hm; [|done].
      destruct IH as [IH1 IH2]. split; [done|]. intros Hok g [->|Hg]%elem_of_cons; auto.
Qed.

Lemma demands_each {B} (P : St → Prop) p refs role (k : unit → SE St ApiErr B) :
    (∀ s, (∀ g, g ∈ refs → holds ac (api_fleet s) p (group_ref g) role = true) → P s) →
    demands P (se_bind (se_each (λ g, require ac p (group_ref g) role) refs) k).
Proof.
    intros HP s r s'. unfold se_bind. destruct (se_each_require p role refs s) as [Hs Hok].
    destruct (se_each _ refs s) as [[[]|e] s1]; simpl in *; subst s1.
    - intros _. right. auto.
    - intros [= _ <-]. by left.
Qed.

(** ** Every route *)

Definition allowed (p : principal) (r : Route) (s : St) : Prop :=
    (∀ ref role, needs (api_fleet s) r ref role → holds ac (api_fleet s) p ref role = true) ∧
    token_rules ac (api_fleet s) p (tables (ap_tokens s)) r.

Lemma postDevice_demands p b : demands (allowed p (PostDevice b)) (postDevice IDKey ac env p b).
Proof.
    apply demands_decode. intros i ->. destruct (ei_Groups i ==? []) eqn:Hg.
    - apply bool_decide_eq_true in Hg. apply demands_only. intros s Hs. split; [|done].
      intros ref role Hn. inversion Hn; subst; [done|]. exfalso.
      match goal with Hin : _ ∈ ei_Groups i |- _ => rewrite Hg in Hin; by apply elem_of_nil in Hin end.
    - apply bool_decide_eq_false in Hg. apply demands_skip, demands_each. intros s Hs. split; [|done].
      intros ref role Hn. inversion Hn; subst; [done|auto].
Qed.

Lemma patchDevice_demands p tag b : demands (allowed p (PatchDevice tag b)) (patchDevice ac env p tag b).
Proof.
    apply demands_decode. intros i ->. apply demands_require.
    intros s r s'. unfold se_bind at 1. destruct (dp_Groups i) as [gs|] eqn:Hg.
    - destruct (se_each_require p Editor (GroupMembershipDelta (Groups (dev (api_fleet s) tag)) gs) s) as [Hs Hok].
      destruct (se_each _ _ s) as [[[]|e] s1]; simpl in *; subst s1; [|intros [= _ <-]; by left].
      intros _. right. intros Hdev. split; [|done]. intros ref role Hn. inversion Hn; subst; [done|].
      apply Hok; [done|]. simplify_eq. unfold GroupMembershipDelta.
      rewrite elem_of_app, !elem_of_elements, !elem_of_difference, !elem_of_list_to_set.
      destruct (decide (g ∈ Groups (dev (api_fleet s) tag))), (decide (g ∈ gs)); tauto.
    - intros _. right. intros Hdev. split; [|done]. intros ref role Hn. inversion Hn; subst; congruence.
Qed.

Lemma ListBySubject_inv subject s r s' :
    ListBySubject subject s = (r, s') →
    tables s' = tables s ∧
    ∀ l, r = Ok l → ∀ t, t ∈ l → ∃ key, tables s !! key = Some t ∧ tok_Subject t = subject.
Proof.
    intros E. unfold ListBySubject in E. apply query_tables in E as [Ht Hr]. split; [done|].
    intros l ->. specialize (Hr l eq_refl) as ->. intros t. unfold tokens_where.
    rewrite elem_of_order_by_desc, elem_of_keep_if, list_elem_of_fmap.
    intros [([key t'] & -> & Hin%elem_of_map_to_list) Hs%bool_decide_eq_true]. exists key. auto.
Qed.

Lemma on_tokens_data {E A} (k : E → ApiErr) (m : SE (Pg TokenTable) E A) (s : St) r s' :
    on_tokens k m s = (r, s') → (∀ r t', m (ap_tokens s) = (r, t') → tables t' = tables (ap_tokens s)) →
    same_data s s'.
Proof.
    unfold on_tokens. intros E1 Hm. destruct (m (ap_tokens s)) as [r0 t'] eqn:Ht. injection E1 as _ <-.
    specialize (Hm _ _ eq_refl). split; try done. simpl. by rewrite Hm.
Qed.

Lemma same_data_fleet (s s' : St) : same_data s s' → api_fleet s' = api_fleet s.
Proof. unfold api_fleet, ap_config. by intros [-> _ _ _ _]. Qed.

Lemma deleteToken_demands p id : demands (allowed p (DeleteToken_ id)) (deleteToken ac p id).
Proof.
    intros s r s' E. unfold deleteToken, tokenOwned in E.
    apply se_bind_inv in E as [(tok & s1 & E1 & E)|(e & E1 & ->)].
    2: { left. apply se_bind_inv in E1 as [(? & ? & _ & [=])|(? & E1 & _)].
         eapply on_tokens_data; [exact E1|]. intros r t' Ht. by apply ListBySubject_inv in Ht as [? _]. }
    apply se_bind_inv in E1 as [(toks & s1' & E1 & [= <- <-])|(? & _ & [=])].
    assert (same_data s s1') as Hs.
    { eapply on_tokens_data; [exact E1|]. intros r0 t' Ht. by apply ListBySubject_inv in Ht as [? _]. }
    assert (Hl : ∀ t, t ∈ toks → ∃ key, tables (ap_tokens s) !! key = Some t ∧ tok_Subject t = u_Subject (pr_user p)).
    { unfold on_tokens in E1. destruct (ListBySubject _ _) as [r0 t'] eqn:Ht.
      apply ListBySubject_inv in Ht as [_ Ht]. destruct r0 as [l|]; simpl in E1; [|done].
      injection E1 as -> _. by apply Ht. }
    assert (Hneed : ∀ ref role, needs (api_fleet s) (DeleteToken_ id) ref role → holds ac (api_fleet s) p ref role = true)
      by (intros ref role Hn; inversion Hn).
    assert (Hown : holds ac (api_fleet s) p "org" Owner_ = true → allowed p (DeleteToken_ id) s).
    { intros Ho. split; [done|]. by left. }
    assert (Hreq : ∀ (k : unit → SE St ApiErr Reply), se_bind (require ac p "org" Owner_) k s1' = (r, s') →
              same_data s s' ∨ allowed p (DeleteToken_ id) s).
    { intros k Ek. unfold se_bind, require in Ek. rewrite (same_data_fleet _ _ Hs) in Ek. unfold holds in Hown.
      destruct (Meets _ _); [right; auto|]. injection Ek as _ <-. by left. }
    destruct (List.find _ toks) as [t|] eqn:Hf; [|by eapply Hreq].
    apply find_some in Hf as [Hin Hid]. apply bool_decide_eq_true in Hid.
    apply list_elem_of_In, Hl in Hin as (key & Hk & Hsub). right. split; [done|]. right. eauto.
Qed.

Ltac one_need :=
    split; [intros ref role Hn; inversion Hn; subst; done|done].
Ltac scoped := apply demands_only; intros s Hs; one_need.
Ltac bodied b := apply demands_decode; intros b ->.

Lemma postToken_demands p b : demands (allowed p (PostToken b)) (postToken IDKey ac env p b).
Proof.
    bodied i. cbv zeta. destruct (bearer p && negb (u_Service (pr_user p))) eqn:Hb; [apply demands_err|].
    assert (Hchain : bearer p = true → u_Service (pr_user p) = true).
    { intros Hp. rewrite Hp in Hb. by apply negb_false_iff. }
    destruct (ti_Kind i ==? "service") eqn:Hk.
    - intros s r s' E. unfold se_bind, require in E. unfold allowed, holds.
      destruct (Meets _ _) eqn:Hm; [|injection E as _ <-; by left].
      right. split; [|done]. intros ref role Hn. by inversion Hn; subst.
    - apply bool_decide_eq_false in Hk. apply demands_true. intros s. split; [|done].
      intros ref role Hn. by inversion Hn; subst.
Qed.

Lemma handle_demands p r : demands (allowed p r) (handle catalog_of IDKey kind ac env p r).
Proof.
    destruct r; simpl;
      eauto using postDevice_demands, patchDevice_demands, deleteToken_demands, postToken_demands;
      try (by scoped);
      try (unfold postDeviceIntent, putRolloutPlan, putAssurance, putPolicy, putFilter, postSecretRef,
             postChange, postRollout, postAccess, postAssignment, postSetting, postChangeEdit; bodied i; by scoped).
    - bodied i. destruct i as [[name parent] idp]. destruct (parent !=? "") eqn:Hp.
      + apply negb_true_iff, bool_decide_eq_false in Hp. scoped.
      + apply negb_false_iff, bool_decide_eq_true in Hp as ->. scoped.
    - bodied i. destruct (_ && _); [apply demands_err|]. scoped.
    - bodied i. destruct i as [[scope k] names]. scoped.
    - bodied i. destruct i as [scope key]. scoped.
    - bodied i. destruct i as [[policy target] filter]. scoped.
    - bodied i. destruct i as [group scope]. scoped.
Qed.

(** ** Who is asking *)

Lemma touch_unstamped id now t : unstamped (tables (touch id now t)) = unstamped (tables t).
Proof.
    unfold touch, TouchLastUsed. destruct (exec _ t) as [r t'] eqn:E. simpl.
    apply exec_tables in E as ->. destruct r; [|done]. unfold unstamped. apply map_eq. intros key.
    rewrite !lookup_fmap. destruct (decide (key = id)) as [->|].
    - rewrite lookup_alter_eq. by destruct (tables t !! id).
    - by rewrite lookup_alter_ne.
Qed.

Lemma Authenticate_inv dir secret now t o t' :
    Authenticate IDKey dir secret now t = (o, t') →
    unstamped (tables t') = unstamped (tables t) ∧
    ∀ u c, o = Some (u, c) → ∃ tok, tables t !! IDFromSecret secret = Some tok ∧
      tok_Kind tok ≠ Tokens.Device ∧ tok_Kind tok ≠ Station ∧ Expired tok now = false ∧
      Verify IDKey tok secret = true ∧ (u, c) = Credentials.principal dir tok.
Proof.
    unfold Authenticate. destruct (IDFromSecret secret ==? ""); [by intros [= <- <-]|].
    destruct (GetToken (IDFromSecret secret) t) as [[[tok|]|e] t1] eqn:Eg; unfold GetToken in Eg;
      apply query_tables in Eg as [Ht1 Hg]; [|intros [= <- <-]; by rewrite Ht1..].
    specialize (Hg _ eq_refl).
    destruct ((tok_Kind tok ==? Tokens.Device) || (tok_Kind tok ==? Station)) eqn:Hk;
      [intros [= <- <-]; by rewrite Ht1|].
    destruct (Expired tok now || negb (Verify IDKey tok secret)) eqn:Hv; [intros [= <- <-]; by rewrite Ht1|].
    intros [= <- <-]. split; [by rewrite touch_unstamped, Ht1|]. intros u c [= <- <-]. exists tok.
    apply orb_false_iff in Hk as [Hk1%bool_decide_eq_false Hk2%bool_decide_eq_false].
    apply orb_false_iff in Hv as [Hv1 Hv2%negb_false_iff]. by split_and!.
Qed.

(** The three ways to be somebody: the static token, a live token of the table,
    a session. *)
Inductive speaks (authorization : string) (se : option session) (s : St) : principal → Prop :=
    | speaks_static : ac_token ac ≠ "" → authorization = "Bearer " +:+ ac_token ac →
        speaks authorization se s svc_principal
    | speaks_token secret tok name :
        ac_tokenAuth ac = true → authorization = "Bearer " +:+ secret →
        tables (ap_tokens s) !! IDFromSecret secret = Some tok →
        tok_Kind tok ≠ Tokens.Device → tok_Kind tok ≠ Station →
        Expired tok (ae_now env) = false → Verify IDKey tok secret = true →
        speaks authorization se s
          (let '(u, c) := Credentials.principal (ae_dir env) tok in
           mkPrincipal u name "" "" true c (c !=? None_))
    | speaks_session x : ac_sessions ac = true → se = Some x →
        speaks authorization se s (mkPrincipal (se_user x) (se_name x) (se_email x) (se_csrf x) false None_ false).

Lemma bearerToken_inv h got : bearerToken h = got → got ≠ "" → h = "Bearer " +:+ got.
Proof.
    unfold bearerToken. destruct (cut_prefix h "Bearer ") as [t|] eqn:E; intros <-; [|done].
    intros _. by apply cut_prefix_Some in E.
Qed.

Lemma authenticate_inv authorization se (s : St) o s' :
    authenticate IDKey ac env authorization se s = (o, s') →
    same_data s s' ∧ ∀ p, o = Some p → speaks authorization se s p.
Proof.
    unfold authenticate. intros E. set (got := bearerToken authorization) in *.
    destruct ((ac_token ac !=? "") && (got !=? "") && (got ==? ac_token ac)) eqn:Hst.
    { injection E as <- <-. split; [done|]. intros p [= <-].
      apply andb_true_iff in Hst as [[Ht%negb_true_iff%bool_decide_eq_false Hg%negb_true_iff%bool_decide_eq_false]%andb_true_iff
        He%bool_decide_eq_true].
      apply speaks_static; [done|]. rewrite <- He. by apply bearerToken_inv. }
    assert (Hse : ∀ s1 : St, match se with
              | Some x => if ac_sessions ac
                    then (Some (mkPrincipal (se_user x) (se_name x) (se_email x) (se_csrf x) false None_ false), s1)
                    else (None, s1)
              | None => (None, s1) end = (o, s') → s' = s1 ∧ ∀ p, o = Some p → speaks authorization se s p).
    { intros s1. destruct se as [x|]; [|by intros [= <- <-]]. destruct (ac_sessions ac) eqn:Hs; [|by intros [= <- <-]].
      intros [= <- <-]. split; [done|]. intros p [= <-]. by eapply speaks_session. }
    destruct (ac_tokenAuth ac && (got !=? "")) eqn:Hta; [|by apply Hse in E as [-> ?]].
    apply andb_true_iff in Hta as [Hta Hg%negb_true_iff%bool_decide_eq_false].
    destruct (Authenticate IDKey (ae_dir env) got (ae_now env) (ap_tokens s)) as [r t'] eqn:Ea.
    apply Authenticate_inv in Ea as [Hun Hr].
    assert (Hd : same_data s (s <| ap_tokens := t' |>)) by (split; try done; simpl; by rewrite Hun).
    destruct r as [[u c]|].
    - injection E as <- <-. split; [done|]. intros p [= <-].
      destruct (Hr u c eq_refl) as (tok & Ht & Hk1 & Hk2 & He & Hv & Hp).
      pose proof (speaks_token authorization se s got tok
        (match tables t' !! IDFromSecret got with Some t => tok_Name t | None => "" end) Hta
        (bearerToken_inv _ _ eq_refl Hg) Ht Hk1 Hk2 He Hv) as Hsp. by rewrite <- Hp in Hsp.
    - by apply Hse in E as [-> ?].
Qed.

Lemma token_rules_unstamped f p t t' r :
    unstamped t' = unstamped t → token_rules ac f p t' r → token_rules ac f p t r.
Proof.
    intros Hun. destruct r; try done; simpl. intros [?|(key & tok & Ht & Hid & Hsub)]; [by left|]. right.
    assert (Hk : unstamped t' !! key = unstamped t !! key) by (by rewrite Hun).
    unfold unstamped in Hk. rewrite !lookup_fmap, Ht in Hk.
    destruct (t !! key) as [tok'|] eqn:Ht'; [|done]. simpl in Hk. injection Hk as Hk1 _ _ Hk4 _ _ _ _ _.
    exists key, tok'. split_and!; congruence.
Qed.

(** C17: a request to the API changes nothing - no document, change request,
    rollout, credential or record, the stamp of a token's last use apart -
    unless the server is in write mode, the request speaks for somebody (the
    static token, a live token of the table or a session), carries the session's
    CSRF token where it has no bearer token, and that principal holds, on the
    document the request is judged on, every role its route demands at every
    scope it touches: both groups a device moves between, the group a device
    joins, the scope of a setting, the organisation for what concerns all.  A
    scoped token mints no token, and another principal's token is revoked only
    by the owner of the organisation. *)
Theorem api_enforces_roles rq (s : St) reply s' :
    serve catalog_of IDKey kind ac env rq s = (reply, s') →
    same_data s s' ∨
    ∃ p, speaks (rq_authorization rq) (rq_session rq) s p ∧ ac_write ac = true ∧
         (bearer p = true ∨ (csrf p ≠ "" ∧ rq_csrf rq = csrf p)) ∧
         (∀ ref role, needs (api_fleet s) (rq_route rq) ref role → holds ac (api_fleet s) p ref role = true) ∧
         token_rules ac (api_fleet s) p (tables (ap_tokens s)) (rq_route rq).
Proof.
    unfold serve. destruct (_ && negb (ac_tokenAuth ac)); [intros [= _ <-]; by left|].
    destruct (authenticate _ _ _ _ _ s) as [[p|] s1] eqn:Ea; apply authenticate_inv in Ea as [Hd Hp];
      [|intros [= _ <-]; by left].
    destruct (ac_write ac); [|intros [= _ <-]; by left]. simpl.
    destruct (verifyCSRF p (rq_csrf rq)) eqn:Hc; [|intros [= _ <-]; by left]. simpl.
    destruct (handle _ _ _ _ _ p (rq_route rq) s1) as [r s2] eqn:Eh.
    assert (Hs2 : same_data s1 s2 ∨ allowed p (rq_route rq) s1) by (by eapply handle_demands).
    intros E. assert (s' = s2) as -> by (destruct r; congruence).
    destruct Hs2 as [Hs2|[Ha Ht]]; [left; by etrans|]. right. exists p. rewrite (same_data_fleet _ _ Hd) in Ha.
    split_and!; try done; [by apply Hp| |].
    - unfold verifyCSRF in Hc. destruct (bearer p); [by left|]. right. simpl in Hc.
      apply andb_true_iff in Hc as [Hc%negb_true_iff%bool_decide_eq_false Hh%bool_decide_eq_true]. done.
    - rewrite (same_data_fleet _ _ Hd) in Ht. by eapply token_rules_unstamped; [|exact Ht]; destruct Hd.
Qed.

(** ** A token and its owner *)

(** C21: a token is its owner, narrowed.  A request whose bearer secret is not the
    server's static token speaks for somebody only through a record of the table
    that is alive, that the secret verifies against and that is no credential of
    a machine; and what it may do at any scope of any document is exactly the
    lower of what a user with the record's groups (those the directory still
    knows) holds there and the record's ceiling - never more than its owner. *)
Theorem token_is_its_owner_narrowed authorization se (s : St) secret p :
    speaks authorization se s p → bearer p = true →
    authorization = "Bearer " +:+ secret → secret ≠ ac_token ac →
    ∃ tok, tables (ap_tokens s) !! IDFromSecret secret = Some tok ∧
      Expired tok (ae_now env) = false ∧ Verify IDKey tok secret = true ∧
      tok_Kind tok ≠ Tokens.Device ∧ tok_Kind tok ≠ Station ∧
      pr_user p = Build_User (tok_Subject tok) (prune_groups (ae_dir env) (tok_Groups tok)) false ∧
      ∀ f ref, let owner groups := RoleAt (H := fleet_directory f)
                   (IdentityResolver f (ac_baseViewer ac) (ac_baseEditor ac) (ac_baseOwner ac))
                   (Build_User (tok_Subject tok) groups false) ref in
        role_le (role_at ac f p ref) (owner (tok_Groups tok)) ∧
        (tok_Ceiling tok = "" → role_at ac f p ref = owner (u_Groups (pr_user p))) ∧
        (∀ r, ParseRole (tok_Ceiling tok) = Some r →
           role_rank (role_at ac f p ref) = Z.min (role_rank (owner (u_Groups (pr_user p)))) (role_rank r)).
Proof.
    intros Hsp Hb Ha Hne. destruct Hsp as [Ht Hau|secret' tok name Hta Hau Htok Hk1 Hk2 He Hv|]; [| |done].
    { rewrite Hau in Ha. by apply string_app_inj in Ha. }
    rewrite Hau in Ha. apply string_app_inj in Ha as ->. exists tok.
    destruct (Credentials.principal (ae_dir env) tok) as [u c] eqn:Hp.
    assert (Hu : u = Build_User (tok_Subject tok) (prune_groups (ae_dir env) (tok_Groups tok)) false ∧
                 c = (if tok_Ceiling tok ==? "" then None_ else default None_ (ParseRole (tok_Ceiling tok)))).
    { unfold Credentials.principal, CeilingRole in Hp. destruct (tok_Ceiling tok ==? ""); by injection Hp as <- <-. }
    destruct Hu as [-> Hc]. split_and!; try done. intros f ref owner. simpl.
    assert (Hle : role_le (owner (prune_groups (ae_dir env) (tok_Groups tok))) (owner (tok_Groups tok))).
    { apply RoleAt_groups; [done|done|]. intros g. apply prune_groups_sub. }
    unfold role_at. simpl. change (RoleAt _ _ ref) with (owner (prune_groups (ae_dir env) (tok_Groups tok))) at 1 2 3.
    split_and!.
    - etrans; [|exact Hle]. unfold clamp, role_le. destruct (hasCap _ && _) eqn:Hcap; [|done].
      apply andb_true_iff in Hcap as [_ Hlt%Z.ltb_lt]. lia.
    - intros Hce. rewrite Hce in Hc. simpl in Hc. subst c. done.
    - intros r Hr. assert (Hce : tok_Ceiling tok ≠ "") by (intros Hce; by rewrite Hce in Hr).
      rewrite (bool_decide_eq_false_2 _ Hce), Hr in Hc. simpl in Hc. subst c. rewrite clamp_min; [done|]. simpl.
      unfold ParseRole in Hr. repeat case_match; by simplify_eq.
Qed.
End proofs.
