(* ===== verification/ApiRoles.v ===== *)
(** * What the API can do to roles

    Every route, and the roles of every user at every scope: who could have
    moved them. *)

From S2P Require Import Prelude GoLib FleetModel Groups Filters Resolve Apps Mutate DeviceOps Policies Identity Visibility ScopeEdits WellFormed Guards Classes Verdicts Document ConfigTx ConfigSafety Changes ChangeFlow Text Sql Tokens Credentials Imaging Observed Catalog SettingsGuard Rollout Engine Api ApiProofs.

(** ** Roles of a document *)

Section roles.
  Context (ac : ApiConfig).

Definition role_in (f : Fleet) (u : User) (ref : string) : Role :=
    RoleAt (H := fleet_directory f)
      (IdentityResolver f (ac_baseViewer ac) (ac_baseEditor ac) (ac_baseOwner ac)) u ref.

Definition governing (f : Fleet) (ref : string) : list string := governingScopes (H := fleet_directory f) ref.

Definition grants_in (f : Fleet) (u : User) (ref : string) (r : Role) : Prop :=
    grants (H := fleet_directory f)
      (IdentityResolver f (ac_baseViewer ac) (ac_baseEditor ac) (ac_baseOwner ac)) u ref r.

Lemma role_in_ext f f' u ref :
    (∀ r, grants_in f u ref r ↔ grants_in f' u ref r) → role_in f' u ref = role_in f u ref.
Proof.
    intros Hg. destruct (u_Service u) eqn:Hs; [unfold role_in, RoleAt; by rewrite Hs|].
    apply role_le_antisym; unfold role_in; rewrite RoleAt_le by done.
    - pose proof (proj1 (RoleAt_le (H := fleet_directory f') (IdentityResolver f' (ac_baseViewer ac)
        (ac_baseEditor ac) (ac_baseOwner ac)) u ref (role_in f' u ref) Hs) (reflexivity _)) as Hr.
      fold (role_in f' u ref). destruct Hr as [?|[(r & Hb & ?)|(r & Hb & ?)]]; [by left|right; left; eauto|].
      right; right. exists r. split; [by apply Hg|done].
    - pose proof (proj1 (RoleAt_le (H := fleet_directory f) (IdentityResolver f (ac_baseViewer ac)
        (ac_baseEditor ac) (ac_baseOwner ac)) u ref (role_in f u ref) Hs) (reflexivity _)) as Hr.
      fold (role_in f u ref). destruct Hr as [?|[(r & Hb & ?)|(r & Hb & ?)]]; [by left|right; left; eauto|].
      right; right. exists r. split; [by apply Hg|done].
Qed.

Lemma role_in_same f f' u ref :
    Access f' = Access f → governing f' ref = governing f ref → role_in f' u ref = role_in f u ref.
Proof.
    intros Ha Hg. apply role_in_ext. intros r. unfold grants_in, grants, governing in *. simpl in *.
    by rewrite Ha, Hg.
Qed.

(** What governs a device is what governs its groups. *)
Lemma elem_of_governing f ref s :
    s ∈ governing f ref ↔
    s = "org" ∨ ∃ a, s = group_ref a ∧
      match scope_of ref with
      | RGroup g => a ∈ GroupAncestry f g
      | RDevice t => ∃ g, g ∈ Groups (dev f t) ∧ a ∈ GroupAncestry f g
      | _ => False
      end.
Proof.
    unfold governing, governingScopes. rewrite elem_of_cons. destruct (scope_of ref) as [|g|t|].
    - rewrite elem_of_nil. naive_solver.
    - rewrite list_elem_of_fmap. simpl. naive_solver.
    - rewrite list_elem_of_fmap. setoid_rewrite list_elem_of_bind. simpl. naive_solver.
    - rewrite elem_of_nil. naive_solver.
Qed.

Lemma role_in_frame f f' u ref :
    Access f' = Access f → same_parents (f_Groups f) (f_Groups f') →
    (∀ t, scope_of ref = RDevice t → Groups (dev f' t) = Groups (dev f t)) →
    role_in f' u ref = role_in f u ref.
Proof.
    intros Ha Hp Hd. apply role_in_same; [done|]. unfold governing, governingScopes.
    assert (Han : ∀ g, GroupAncestry f' g = GroupAncestry f g).
    { intros g. symmetry. by apply ancestry_same_parents. }
    f_equal. destruct (scope_of ref) as [|g|t|]; try done; simpl.
    - by rewrite Han.
    - rewrite (Hd t eq_refl). f_equal. apply list_bind_ext; [|done]. apply Han.
Qed.

(** [holds] at a scope holds wherever that scope governs. *)
Definition demanded (ref : string) : Role :=
    match scope_of ref with RDevice _ => Editor | _ => Owner_ end.

(** Who could have moved a role from [f] to [f']: somebody who held, on the
    document [f0] he was judged on, the role demanded at the scope or at one that
    governs it after. *)
Definition moved_by (p : principal) (f0 f f' : Fleet) : Prop :=
    ∀ u ref, role_in f' u ref ≠ role_in f u ref →
      ∃ ref0, holds ac f0 p ref0 (demanded ref) = true ∧ (ref0 = ref ∨ ref0 ∈ governing f' ref).

Lemma moved_same p f0 f f' : (∀ u ref, role_in f' u ref = role_in f u ref) → moved_by p f0 f f'.
Proof. intros Hs u ref Hne. by destruct Hne. Qed.

Lemma Meets_trans r a b : Meets r a = true → Meets a b = true → Meets r b = true.
Proof. unfold Meets. rewrite !Z.leb_le. lia. Qed.

Lemma holds_weaker f p ref a b : holds ac f p ref a = true → Meets a b = true → holds ac f p ref b = true.
Proof. unfold holds. apply Meets_trans. Qed.

Lemma owner_meets_demanded ref : Meets Owner_ (demanded ref) = true.
Proof. unfold demanded. by destruct (scope_of ref). Qed.

(** The organisation's owner may move anything. *)
Lemma moved_owner p f0 f f' : holds ac f0 p "org" Owner_ = true → moved_by p f0 f f'.
Proof.
    intros Ho u ref _. exists "org". split; [eapply holds_weaker; [exact Ho|apply owner_meets_demanded]|].
    right. apply elem_of_governing. by left.
Qed.

Lemma moved_frame p f0 f f' :
    Access f' = Access f → same_parents (f_Groups f) (f_Groups f') →
    (∀ t, Groups (dev f' t) ≠ Groups (dev f t) → holds ac f0 p (device_ref t) Editor = true) →
    moved_by p f0 f f'.
Proof.
    intros Ha Hp Hd u ref Hne.
    destruct (scope_of ref) as [|g|t|] eqn:Href; try (destruct Hne; apply role_in_frame; auto; by rewrite Href).
    destruct (decide (Groups (dev f' t) = Groups (dev f t))) as [He|He].
    - destruct Hne. apply role_in_frame; auto. rewrite Href. by intros ? [= <-].
    - exists ref. split; [|by left]. unfold demanded. rewrite Href.
      pose proof (scope_of_spec ref) as Hr. rewrite Href in Hr. rewrite Hr. by apply Hd.
Qed.

(** ** The mutations a delegate may make *)

Lemma moved_scope p ref f0 f f' : scope_frame ref f f' → moved_by p f0 f f'.
Proof.
    intros Hfr. apply moved_frame.
    - by rewrite (sf_rest _ _ _ Hfr).
    - by eapply frame_parents.
    - intros t Hne. destruct Hne. by eapply frame_groups_of.
Qed.

Lemma moved_with_scope p ref edit f0 f f' : with_scope ref edit f = Ok f' → moved_by p f0 f f'.
Proof. intros (? & ? & _ & _ & _ & Hfr)%with_scope_Ok. by eapply moved_scope. Qed.

(** A document that differs in one device. *)
Lemma moved_device p f0 f f' tag :
    Access f' = Access f → f_Groups f' = f_Groups f → (∀ t, t ≠ tag → Devices f' !! t = Devices f !! t) →
    holds ac f0 p (device_ref tag) Editor = true → moved_by p f0 f f'.
Proof.
    intros Ha Hg Hd Hh. apply moved_frame; [done|by rewrite Hg|]. intros t Hne.
    destruct (decide (t = tag)) as [->|Ht]; [done|]. destruct Hne. unfold dev. by rewrite Hd.
Qed.

Lemma moved_UpdateDevice p tag patch f0 f f' :
    UpdateDevice tag patch f = Ok f' → holds ac f0 p (device_ref tag) Editor = true → moved_by p f0 f f'.
Proof.
    unfold UpdateDevice. intros Hok Hh. destruct (Devices f !! tag); [|done].
    repeat match type of Hok with
      | (if ?b then _ else _) = _ => destruct b; [done|]
      | match ?o with Some _ => Err _ | None => _ end = _ => destruct o; [done|]
      end.
    injection Hok as <-. eapply moved_device; [done|done| |exact Hh]. intros t Ht. simpl. by rewrite lookup_insert_ne.
Qed.

Lemma moved_state p tag to_ from_ f0 f f' :
    setDeviceState tag to_ from_ f = Ok f' → holds ac f0 p (device_ref tag) Editor = true → moved_by p f0 f f'.
Proof.
    unfold setDeviceState. destruct (Devices f !! tag); [|done]. destruct (_ !=? _); [done|]. intros [= <-] Hh.
    eapply moved_device; [done|done| |exact Hh]. intros t Ht. simpl. by rewrite lookup_insert_ne.
Qed.

Lemma moved_RemoveDevice p tag f0 f f' :
    RemoveDevice tag f = Ok f' → holds ac f0 p (device_ref tag) Editor = true → moved_by p f0 f f'.
Proof.
    unfold RemoveDevice. destruct (Devices f !! tag); [|done]. intros [= <-] Hh.
    eapply moved_device; [done|done| |exact Hh]. intros t Ht. simpl. by rewrite lookup_delete_ne.
Qed.

(** A group outside the tree is governed by the organisation only. *)
Lemma holds_outside f p g role :
    GroupAncestry f g = [] → holds ac f p (group_ref g) role = true → holds ac f p "org" role = true.
Proof.
    intros Hg. unfold holds, role_at, RoleAt, governingScopes. rewrite scope_of_group. simpl. by rewrite Hg.
Qed.

(** A new device is governed by the groups it joins, and all of them had to be
    the requester's. *)
Lemma moved_AddDevice p tag d now f0 f f' :
    AddDevice tag d now f = Ok f' →
    (Groups d = [] → holds ac f0 p "org" Editor = true) →
    (∀ g, g ∈ Groups d → holds ac f0 p (group_ref g) Editor = true) → moved_by p f0 f f'.
Proof.
    unfold AddDevice. destruct (negb _); [done|]. destruct (Devices f !! tag); [done|].
    destruct (_ ==? ""); [done|]. destruct (_ && _); [done|].
    destruct (groups_exist f (Groups d)) eqn:Hex; [done|]. destruct (checkClassAllowed _ _ _); [done|].
    intros [= <-] Horg Hgs u ref Hne.
    destruct (scope_of ref) as [|g|t|] eqn:Href;
      try (destruct Hne; apply role_in_frame; [done|done|]; by rewrite Href).
    destruct (decide (t = tag)) as [->|Ht].
    2: { destruct Hne. apply role_in_frame; [done|done|]. rewrite Href. intros ? [= <-]. unfold dev. simpl.
         by rewrite lookup_insert_ne. }
    unfold demanded. rewrite Href. destruct (Groups d) as [|g gs] eqn:Hg.
    - exists "org". split; [auto|]. right. apply elem_of_governing. by left.
    - specialize (Hgs g (list_elem_of_here _ _)). unfold groups_exist in Hex. rewrite first_err_None in Hex.
      specialize (Hex g (list_elem_of_here _ _)).
      destruct (decide (g = "")) as [->|Hg0].
      { exists "org". split; [apply (holds_outside f0 p ""); [apply ancestry_empty; by left|done]|].
        right. apply elem_of_governing. by left. }
      exists (group_ref g). split; [done|]. right. apply elem_of_governing. right.
      exists g. split; [done|]. rewrite Href. exists g. split.
      + unfold dev. simpl. rewrite lookup_insert_eq. simpl.
        destruct (_ ==? _), (IsZero _); simpl; rewrite Hg; left.
      + apply ancestry_self; [done|]. simpl. by destruct (f_Groups f !! g).
Qed.

(** *** A new group *)

Section new_group.
  Context (f : Fleet) (name : string) (x : Group) (Hnew : f_Groups f !! name = None).
  Notation f' := (f <| f_Groups ::= <[name := x]> |>).

Lemma new_group_mono a g : a ∈ GroupAncestry f g → a ∈ GroupAncestry f' g.
Proof.
    unfold GroupAncestry. rewrite !elem_of_ancestry. simpl.
    assert (Hmono : ∀ y, is_Some (f_Groups f !! y) → is_Some (<[name:=x]> (f_Groups f) !! y)).
    { intros y Hy. destruct (decide (y = name)) as [->|]; [by rewrite lookup_insert_eq|by rewrite lookup_insert_ne]. }
    intros (Hne & Hg & Hr). split_and!; [done|auto|]. eapply rtc_subrel; [|exact Hr].
    intros c q (Hc & Hq & Heq & gc & Hgc & Hp). split_and!; try done; [auto|]. exists gc. split; [|done].
    rewrite lookup_insert_ne; [done|]. congruence.
Qed.

Lemma new_group_outside a g : name ∉ GroupAncestry f' g → a ∈ GroupAncestry f' g → a ∈ GroupAncestry f g.
Proof.
    unfold GroupAncestry. intros Hni. rewrite !elem_of_ancestry. simpl. intros (Hne & Hg & Hr).
    assert (Hold : ∀ y, y ∈ ancestry (f_Groups f') g → is_Some (f_Groups f !! y)).
    { intros y Hy. destruct (decide (y = name)) as [->|Hn]; [done|].
      apply ancestry_exists in Hy as [_ Hy]. simpl in Hy. by rewrite lookup_insert_ne in Hy. }
    assert (Hself : g ∈ ancestry (f_Groups f') g) by (by apply ancestry_self).
    split_and!; [done|by apply Hold|].
    assert (Hgen : ∀ y z, y ∈ ancestry (f_Groups f') g → rtc (link (<[name:=x]> (f_Groups f))) y z → rtc (link (f_Groups f)) y z).
    { intros y z Hy Hyz. induction Hyz as [|y y' z Hl _ IH]; [done|].
      assert (Hy' : y' ∈ ancestry (f_Groups f') g).
      { apply elem_of_ancestry in Hy as (? & ? & ?). apply elem_of_ancestry. split_and!; try done.
        by eapply rtc_r. }
      apply rtc_l with y'; [|by apply IH]. destruct Hl as (Hc & Hq & _ & gc & Hgc & Hp).
      split_and!; [done|done|by apply Hold|]. exists gc. split; [|done].
      rewrite lookup_insert_ne in Hgc; [done|]. intros <-. by apply Hni. }
    by apply Hgen.
Qed.

Lemma new_group_governing ref s :
    group_ref name ∉ governing f' ref → s ∈ governing f' ref ↔ s ∈ governing f ref.
Proof.
    rewrite !elem_of_governing. intros Hni.
    assert (Hout : ∀ g, (∃ r, scope_of ref = RGroup r ∧ g = r) ∨ (∃ t, scope_of ref = RDevice t ∧ g ∈ Groups (dev f t)) →
              name ∉ GroupAncestry f' g).
    { intros g Hg Hin. apply Hni. right. exists name. split; [done|].
      destruct Hg as [(r & -> & ->)|(t & -> & Hg)]; [done|]. eauto. }
    destruct (scope_of ref) as [|r|t|]; try done; split; (intros [?|(a & -> & Ha)]; [by left|right; exists a; split; [done|]]).
    - apply new_group_outside in Ha; [done|]. apply Hout. left. eauto.
    - by apply new_group_mono.
    - destruct Ha as (g & Hg & Ha). exists g. split; [done|]. apply new_group_outside in Ha; [done|]. apply Hout. eauto.
    - destruct Ha as (g & Hg & Ha). exists g. split; [done|]. by apply new_group_mono.
Qed.
End new_group.

Lemma moved_AddGroup p name x f0 f f' :
    AddGroup name x f = Ok f' →
    holds ac f0 p (if Parent x !=? "" then group_ref (Parent x) else "org") Owner_ = true → moved_by p f0 f f'.
Proof.
    unfold AddGroup. destruct (ValidateSlug name) eqn:Hsl; [|done]. simpl.
    destruct (f_Groups f !! name) eqn:Hnew; [done|].
    destruct ((Parent x !=? "") && (f_Groups f !! Parent x ==? None)) eqn:Hpar; [done|]. intros [= <-].
    destruct (Parent x !=? "") eqn:Hp; [|by apply moved_owner].
    apply negb_true_iff, bool_decide_eq_false in Hp. simpl in Hpar. apply bool_decide_eq_false in Hpar.
    intros Hh u ref Hne.
    destruct (decide (group_ref name ∈ governing (f <| f_Groups ::= <[name := x]> |>) ref)) as [Hin|Hni].
    - exists (group_ref (Parent x)). split; [eapply holds_weaker; [exact Hh|apply owner_meets_demanded]|]. right.
      assert (Hup : Parent x ∈ GroupAncestry (f <| f_Groups ::= <[name := x]> |>) name).
      { apply elem_of_ancestry. simpl. rewrite lookup_insert_eq. split_and!; [by apply slug_nonempty|done|].
        apply rtc_once. split_and!; [by apply slug_nonempty|done| |exists x; by rewrite lookup_insert_eq].
        rewrite lookup_insert_ne by congruence. by destruct (f_Groups f !! Parent x). }
      revert Hin. rewrite !elem_of_governing. intros [?|(a & Ha%group_ref_inj & Hin)]; [done|]. subst a. right.
      exists (Parent x). split; [done|]. destruct (scope_of ref) as [|r|t|]; try done.
      + by eapply ancestry_trans.
      + destruct Hin as (g & Hg & Hin). exists g. split; [done|]. by eapply ancestry_trans.
    - destruct Hne. apply role_in_ext. intros r. unfold grants_in, grants. simpl. fold (governing f ref).
      split; intros (b & H1 & H2 & H3 & H4); exists b; split_and!; try done.
      + eapply new_group_governing in Hni; [|done]. by apply Hni.
      + eapply new_group_governing in Hni; [|done]. by apply Hni.
Qed.

(** *** The access list *)

Lemma moved_bindings p scope f0 f f' :
    f_Groups f' = f_Groups f → Devices f' = Devices f →
    (∀ b, b_Scope b ≠ scope → b ∈ Access f' ↔ b ∈ Access f) →
    holds ac f0 p scope Owner_ = true → moved_by p f0 f f'.
Proof.
    intros Hg Hd Hb Hh u ref Hne. destruct (decide (scope ∈ governing f' ref)) as [Hin|Hni].
    - exists scope. split; [eapply holds_weaker; [exact Hh|apply owner_meets_demanded]|by right].
    - destruct Hne. assert (Hgov : governing f ref = governing f' ref).
      { unfold governing, governingScopes. simpl. unfold GroupAncestry, dev. by rewrite Hg, Hd. }
      apply role_in_ext. intros r. unfold grants_in, grants. simpl. fold (governing f ref). fold (governing f' ref).
      rewrite Hgov. split; intros (b & H1 & H2 & H3 & H4); exists b; split_and!; try done;
        (apply Hb; [|done]); congruence.
Qed.

Lemma moved_Grant p b f0 f f' : Grant b f = Ok f' → holds ac f0 p (b_Scope b) Owner_ = true → moved_by p f0 f f'.
Proof.
    unfold Grant. destruct (validate_binding b); [done|].
    destruct (match cut_prefix _ _ with Some _ => _ | None => _ end); [done|]. intros [= <-].
    apply moved_bindings; try done. intros b' Hb'. simpl. unfold delete_func.
    rewrite elem_of_app, list_elem_of_filter, list_elem_of_singleton. split.
    - intros [[_ ?] | ->]; done.
    - intros ?. left. split; [|done]. unfold same_binding. rewrite (bool_decide_eq_false_2 _ Hb').
      by rewrite andb_false_r.
Qed.

Lemma moved_Revoke p group scope f0 f f' :
    Revoke group scope f = Ok f' → holds ac f0 p scope Owner_ = true → moved_by p f0 f f'.
Proof.
    unfold Revoke. destruct (bool_decide _); [done|]. intros [= <-].
    apply moved_bindings; try done. intros b' Hb'. simpl. unfold delete_func.
    rewrite list_elem_of_filter. split; [by intros [_ ?]|]. intros ?. split; [|done].
    unfold same_binding. rewrite (bool_decide_eq_false_2 _ Hb'). by rewrite andb_false_r.
Qed.
End roles.

(** ** The handlers *)

Section handlers.
  Context {W S : Type}
    `{ConfigRepo W, BranchRepo W, ChangeStore S, GoJson, Fingerprint, FleetJson, OverlayParsers}.
  Context (catalog_of : ConfigTx.Catalog → SettingsCatalog) (IDKey : string → string → string).
  Context (kind : string → list ErrKind).
  Context (ac : ApiConfig) (env : ApiEnv W).

Notation St := (Api W S).

(** The snapshot a request is judged on is the document in the tree. *)
Definition current (c : ConfigService W) : Prop :=
    ∀ raw f, ReadFile FleetFile (tx_repo (cs_tx c)) = Ok raw → Decode raw = Ok f → f = cs_Fleet c.

Definition in_tree (w : W) (f : Fleet) : Prop := ∃ raw, ReadFile FleetFile w = Ok raw ∧ Decode raw = Ok f.

(** The document an attempt starts from: that of the tree just synchronised, on
    the first attempt or after pushes that another writer was faster than. *)
Inductive found (w : W) (f : Fleet) : Prop :=
    | found_at_once w1 : Sync w = (Ok tt, w1) → in_tree w1 f → found w f
    | found_again w1 w3 gate mut msg a hosts memo f1 st' : Sync w = (Ok tt, w1) →
        applyTx gate mut msg a hosts (mkTx w1 memo) = (Ok f1, st') → Push (tx_repo st') = (Err ErrConflict, w3) →
        found w3 f → found w f.

(** What the service may hold before it edits: what it held, or what an edit
    reads - at the remote where there is one, in the tree where there is none. *)
Definition stood (c : ConfigService W) (f : Fleet) : Prop :=
    f = cs_Fleet c ∨ (if HasRemote then found else in_tree) (tx_repo (cs_tx c)) f.

Lemma applyTx_runs gate mut msg a hosts (st : Tx W) f' st' :
    applyTx gate mut msg a hosts st = (Ok f', st') →
    ∃ raw f, ReadFile FleetFile (tx_repo st) = Ok raw ∧ Decode raw = Ok f ∧ mut f = Ok f'.
Proof.
    unfold applyTx. rewrite se_get_bind. unfold try, se_bind at 1, se_lift at 1.
    destruct (ReadFile FleetFile (tx_repo st)) as [raw|] eqn:Hr; [|done]. simpl.
    unfold se_bind at 1, se_lift at 1. destruct (Decode raw) as [f|] eqn:Hd; [|done]. simpl.
    unfold se_bind at 1, se_lift at 1. destruct (mut f) as [f1|] eqn:Hm; [|done]. simpl.
    unfold se_bind at 1, se_lift at 1. destruct (Encode f1) as [next|] eqn:He; [|done]. simpl.
    intros E. exists raw, f. split_and!; try done. rewrite Hm. f_equal.
    destruct (next ==? raw); [by injection E as -> _|].
    apply se_bind_inv in E as [(? & s1 & _ & E)|(? & _ & [=])].
    rewrite se_get_bind in E. destruct (negb _ && _).
    - apply se_bind_inv in E as [(? & s2 & _ & E)|(? & _ & [=])]. by injection E as -> _.
    - rewrite se_get_bind in E. destruct (gate _ _).
      + destruct (WriteFile _ _ _) as [[]]; discriminate E.
      + rewrite se_modify_bind in E. apply se_bind_inv in E as [(? & s2 & _ & E)|(? & _ & [=])].
        by injection E as -> _.
Qed.

Lemma applyOnce_lands mut msg a hosts gate (c : ConfigService W) r c' :
    applyOnce mut msg a hosts gate c = (r, c') →
    match r with
    | Ok _ => ∃ f f1, in_tree (tx_repo (cs_tx c)) f ∧ mut f = Ok (cs_Fleet c') ∧
                applyTx gate mut msg a hosts (cs_tx c) = (Ok f1, cs_tx c')
    | Err _ => cs_Fleet c' = cs_Fleet c
    end.
Proof.
    unfold applyOnce. destruct (applyTx gate mut msg a hosts (cs_tx c)) as [[f'|e] tx] eqn:E; intros [= <- <-]; [|done].
    pose proof (applyTx_runs _ _ _ _ _ _ _ _ E) as (raw & f & Hr & Hd & Hm). exists f, f'. split_and!; try done. by exists raw.
Qed.

Lemma reload_lands (c : ConfigService W) r c' : reload c = (r, c') →
    tx_repo (cs_tx c') = tx_repo (cs_tx c) ∧ (r = Ok tt ∧ in_tree (tx_repo (cs_tx c)) (cs_Fleet c') ∨ cs_Fleet c' = cs_Fleet c ∧ ∃ e, r = Err e).
Proof.
    unfold reload. destruct (load _) as [sn|e] eqn:Hl; intros [= <- <-]; [|split; [done|right; eauto]]. split; [done|left]. split; [done|].
    unfold load in Hl. apply res_bind_Ok in Hl as (raw & Hr & Hl). destruct (ReadFile FleetFile _) as [raw'|] eqn:Hread; [|done].
    injection Hr as ->. apply res_bind_Ok in Hl as (f & Hf & Hl). destruct (Decode raw) as [f'|] eqn:Hd; [|done]. injection Hf as ->.
    repeat (apply res_bind_Ok in Hl as (? & _ & Hl)). injection Hl as <-. by exists raw.
Qed.

Lemma retry_lands n mut msg a hosts gate (c : ConfigService W) r c' :
    apply_retry n mut msg a hosts gate c = (r, c') →
    cs_Fleet c' = cs_Fleet c ∨
    ∃ f, found (tx_repo (cs_tx c)) f ∧ (cs_Fleet c' = f ∨ mut f = Ok (cs_Fleet c')).
Proof.
    revert c. induction n as [|n IH]; intros c; cbn [apply_retry]; [intros [= _ <-]; by left|].
    intros [([] & c1 & Hs & Hk)|(e & Hs & _)]%se_bind_inv; unfold on_tx, on_repo in Hs;
      destruct (Sync (tx_repo (cs_tx c))) as [r1 w1] eqn:Hsync; injection Hs as Hr1 <-; [|by left].
    destruct r1 as [[]|]; [|done]. clear Hr1.
    apply se_bind_inv in Hk as [([] & c2 & Hrl & Hk)|(e & Hrl & _)]; apply reload_lands in Hrl as [Hw [[Hr Hin]|[Hf He]]];
      try done; [|by destruct He|by left]. simpl in Hw, Hin. clear Hr.
    pose proof (found_at_once _ _ _ Hsync Hin) as Hfound.
    apply se_bind_inv in Hk as [([] & c3 & Ha & Hk)|(e & Ha & _)]; apply applyOnce_lands in Ha.
    2: { right. exists (cs_Fleet c2). split; [done|by left]. }
    destruct Ha as (f & f1 & Hf & Hm & Htx). rewrite Hw in Hf. right.
    assert (Hbase : found (tx_repo (cs_tx c)) f) by (by apply found_at_once with w1).
    destruct (Push (tx_repo (cs_tx c3))) as [[[]|[|e]] w3] eqn:Hp; [injection Hk as _ <-; eauto| |injection Hk as _ <-; eauto].
    apply IH in Hk as [Hk|(f' & Hf' & Hk)]; simpl in *; [exists f; split; [done|right; by rewrite Hk]|].
    exists f'. split; [|done]. destruct (cs_tx c2) as [w2 memo]; simpl in Hw; subst w2.
    by eapply found_again; [exact Hsync|exact Htx|exact Hp|].
Qed.

Lemma Apply_lands gate mut msg a hosts (c : ConfigService W) r c' :
    Apply gate mut msg a hosts c = (r, c') →
    ∃ f, stood c f ∧ (cs_Fleet c' = f ∨ mut f = Ok (cs_Fleet c')).
Proof.
    unfold Apply, applyWithGate, stood. destruct HasRemote.
    - intros [Hs|(f & Hf & Hm)]%retry_lands; [exists (cs_Fleet c); split; by left|]. exists f. split; [by right|done].
    - intros Ho%applyOnce_lands. destruct r; [|exists (cs_Fleet c); split; by left].
      destruct Ho as (f & _ & Hf & Hm & _). exists f. split; by right.
Qed.

(** A handler, judged on the fleet of the service, leaves one that stood alone or
    moves it along [R]. *)
Definition lands {A} (R : Fleet → Fleet → Fleet → Prop) (m : SE St ApiErr A) : Prop :=
    ∀ s r s', m s = (r, s') →
      ∃ f, stood (ap_config s) f ∧ (api_fleet s' = f ∨ R (api_fleet s) f (api_fleet s')).

Lemma lands_left (R : Fleet → Fleet → Fleet → Prop) (s s' : St) : api_fleet s' = api_fleet s →
    ∃ f, stood (ap_config s) f ∧ (api_fleet s' = f ∨ R (api_fleet s) f (api_fleet s')).
Proof. intros Hs. exists (api_fleet s). split; by left. Qed.

Definition keeps_fleet {A} (m : SE St ApiErr A) : Prop := ∀ s r s', m s = (r, s') → api_fleet s' = api_fleet s.

Lemma lands_keeps {A} R (m : SE St ApiErr A) : keeps_fleet m → lands R m.
Proof. intros Hm s r s' E. by eapply lands_left, Hm. Qed.

Lemma keeps_bind {A B} (m : SE St ApiErr A) (k : A → SE St ApiErr B) :
    keeps_fleet m → (∀ a, keeps_fleet (k a)) → keeps_fleet (se_bind m k).
Proof.
    intros Hm Hk s r s' [(a & s1 & E1 & E2)|(e & E1 & _)]%se_bind_inv; [|by eapply Hm].
    rewrite (Hk _ _ _ _ E2). by eapply Hm.
Qed.

Lemma lands_then {A B} R (m : SE St ApiErr A) (k : A → SE St ApiErr B) :
    lands R m → (∀ a, keeps_fleet (k a)) → lands R (se_bind m k).
Proof.
    intros Hm Hk s r s' [(a & s1 & E1 & E2)|(e & E1 & _)]%se_bind_inv; [|by eapply Hm].
    rewrite (Hk _ _ _ _ E2). by eapply Hm.
Qed.

(** A step that changes nothing at all, before the rest. *)
Definition pure {A} (m : SE St ApiErr A) : Prop := ∀ s, (m s).2 = s.

Lemma lands_pure {A B} R (m : SE St ApiErr A) (k : A → SE St ApiErr B) :
    pure m → (∀ a, lands R (k a)) → lands R (se_bind m k).
Proof.
    intros Hm Hk s r s'. unfold se_bind. specialize (Hm s). destruct (m s) as [[a|e] s1]; simpl in Hm; subst s1.
    - by apply Hk.
    - intros [= _ <-]. by apply lands_left.
Qed.

Lemma lands_decode {A B} R (b : option A) (k : A → SE St ApiErr B) :
    (∀ a, b = Some a → lands R (k a)) → lands R (se_bind (decode b) k).
Proof.
    intros Hk. destruct b as [a|]; [by apply Hk|]. intros s r s' [= _ <-]. by apply lands_left.
Qed.

Lemma lands_require {B} R p ref role (k : unit → SE St ApiErr B) :
    lands (λ f0 f f', holds ac f0 p ref role = true → R f0 f f') (k tt) →
    lands R (se_bind (require ac p ref role) k).
Proof.
    intros Hk s r s'. unfold se_bind, require. destruct (Meets _ _) eqn:Hm; [|intros [= _ <-]; by apply lands_left].
    intros E. destruct (Hk _ _ _ E) as (f & Hf & HR). exists f. split; [done|]. destruct HR as [?|HR]; [by left|right; by apply HR].
Qed.

Lemma lands_each {B} R p refs role (k : unit → SE St ApiErr B) :
    lands (λ f0 f f', (∀ g, g ∈ refs → holds ac f0 p (group_ref g) role = true) → R f0 f f') (k tt) →
    lands R (se_bind (se_each (λ g, require ac p (group_ref g) role) refs) k).
Proof.
    intros Hk s r s'. unfold se_bind. destruct (se_each_require ac p role refs s) as [Hs Hok].
    destruct (se_each _ refs s) as [[[]|e] s1]; simpl in *; subst s1; [|intros [= _ <-]; by apply lands_left].
    intros E. destruct (Hk _ _ _ E) as (f & Hf & HR). exists f. split; [done|]. destruct HR as [?|HR]; [by left|right].
    apply HR. by apply Hok.
Qed.

Lemma lands_apply (R : Fleet → Fleet → Fleet → Prop) {E} (k : E → ApiErr) (m : SE (ConfigService W) E unit) (R' : Fleet → Fleet → Prop) :
    (∀ c r c', m c = (r, c') → ∃ f, stood c f ∧ (cs_Fleet c' = f ∨ R' f (cs_Fleet c'))) →
    (∀ f0 f f', R' f f' → R f0 f f') → lands R (on_config k m).
Proof.
    intros Hm HR s r s'. unfold on_config. destruct (m (ap_config s)) as [r0 c'] eqn:E0. intros [= _ <-].
    destruct (Hm _ _ _ E0) as (f & Hf & [?|?]); exists f; (split; [done|]); [by left|right; by apply HR].
Qed.

Lemma lands_api_apply (R : Fleet → Fleet → Fleet → Prop) p mut msg hosts :
    (∀ f0 f f', mut f = Ok f' → R f0 f f') → lands R (api_apply env p mut msg hosts).
Proof. intros HR. apply (lands_apply R _ _ (λ f f', mut f = Ok f')); [|exact HR]. intros c r c' E. by eapply Apply_lands. Qed.

Lemma lands_apply_at (R : Fleet → Fleet → Fleet → Prop) p ref mut msg :
    (∀ f0 f f', mut f = Ok f' → R f0 f f') → lands R (apply_at env p ref mut msg).
Proof. intros HR s. unfold apply_at. by apply lands_api_apply. Qed.

(** Where anything goes, nothing is asked of how the fleet came about. *)
Lemma lands_any {A} (R : Fleet → Fleet → Fleet → Prop) (m : SE St ApiErr A) : (∀ f0 f f', R f0 f f') → lands R m.
Proof. intros HR s r s' _. exists (api_fleet s). split; [by left|by right]. Qed.

(** *** What keeps the fleet *)

Lemma keeps_ret {A} (a : A) : keeps_fleet (se_ret a).
Proof. intros s r s' E. by injection E as _ <-. Qed.
Lemma keeps_err {A} e : keeps_fleet (se_err (A := A) e).
Proof. intros s r s' E. by injection E as _ <-. Qed.
Lemma snap_kept_get {A} (g : St → A) : keeps_fleet (se_get g).
Proof. intros s r s' E. by injection E as _ <-. Qed.
Lemma keeps_tokens {E A} (k : E → ApiErr) (m : SE (Pg TokenTable) E A) : keeps_fleet (on_tokens k m).
Proof. intros s r s'. unfold on_tokens. destruct (m _). by intros [= _ <-]. Qed.
Lemma keeps_status {E A} (k : E → ApiErr) (m : SE (Pg StatusTable) E A) : keeps_fleet (on_status k m).
Proof. intros s r s'. unfold on_status. destruct (m _). by intros [= _ <-]. Qed.
Lemma snap_kept_issue tag : keeps_fleet (issue IDKey env tag).
Proof. intros s r s'. unfold issue. destruct (IssueCredential _ _ _ _ _ _ _). by intros [= _ <-]. Qed.
Lemma snap_kept_revoke tag : keeps_fleet (revoke ac tag).
Proof. intros s r s'. unfold revoke. destruct (ac_devCreds ac); by intros [= _ <-]. Qed.
Lemma keeps_require p ref role : keeps_fleet (require ac p ref role).
Proof. intros s r s' E. by injection E as _ <-. Qed.

Lemma keeps_credential st tag fields : keeps_fleet (with_credential IDKey ac env st tag fields).
Proof.
    unfold with_credential. destruct (ac_devCreds ac); [|apply keeps_ret].
    apply keeps_bind; [apply snap_kept_issue|intros; apply keeps_ret].
Qed.

Lemma keeps_guard scope changes : keeps_fleet (guard_bricking ac scope changes).
Proof. intros s. unfold guard_bricking. by apply keeps_status. Qed.

(** *** The change flow outside a merge *)

Definition same_snap (s s' : Flow W S) : Prop := cs_snap (fl_cfg s') = cs_snap (fl_cfg s).
#[local] Instance same_snap_preorder : PreOrder same_snap.
Proof. split; [done|]. unfold same_snap. intros ???. congruence. Qed.

Lemma on_world_snap {E A} k (m : SE W E A) : respects same_snap (on_world k m : SE (Flow W S) ChErr A).
Proof. intros s r s'. unfold on_world. destruct (m (world s)). by intros [= <- <-]. Qed.
Lemma on_verdicts_snap {A} k (m : SE (Tx W) TxErr A) : respects same_snap (on_verdicts k m : SE (Flow W S) ChErr A).
Proof. intros s r s'. unfold on_verdicts. destruct (m _). by intros [= <- <-]. Qed.
Lemma best_effort_snap m : respects same_snap (best_effort m : SE (Flow W S) ChErr unit).
Proof. apply on_world_snap. Qed.
Lemma st_put_snap k c : respects same_snap (st_put k c : SE (Flow W S) ChErr unit).
Proof. intros s r s'. unfold st_put. destruct (st_Put _ _). by intros [= <- <-]. Qed.
Lemma raise_snap ev : respects same_snap (raise ev : SE (Flow W S) ChErr unit).
Proof. by apply respects_modify. Qed.
#[local] Hint Resolve on_world_snap on_verdicts_snap best_effort_snap st_put_snap raise_snap : respects.

Lemma cr_check_snap o : respects same_snap (cr_check o : SE (Flow W S) ChErr unit).
Proof. unfold cr_check. respect. Qed.
#[local] Hint Resolve cr_check_snap : respects.
Lemma mustGet_snap id : respects same_snap (mustGet id : SE (Flow W S) ChErr CR).
Proof. unfold mustGet. respect. Qed.
Lemma ensureWorktree_snap cr : respects same_snap (ensureWorktree cr : SE (Flow W S) ChErr (ConfigRepo W)).
Proof. unfold ensureWorktree. respect. Qed.
Lemma publishBranch_snap cr : respects same_snap (publishBranch cr : SE (Flow W S) ChErr unit).
Proof. unfold publishBranch. respect. Qed.
Lemma cleanup_snap cr : respects same_snap (cleanup cr : SE (Flow W S) ChErr unit).
Proof. unfold cleanup. respect. Qed.
Lemma notify_snap e ev : respects same_snap (notify e ev : SE (Flow W S) ChErr unit).
Proof. unfold notify. respect. Qed.
#[local] Hint Resolve mustGet_snap ensureWorktree_snap publishBranch_snap cleanup_snap notify_snap : respects.
Lemma recordEdit_snap e hosts cr : respects same_snap (recordEdit e hosts cr : SE (Flow W S) ChErr unit).
Proof. unfold recordEdit. respect. Qed.
Lemma finishSubmit_snap e id v : respects same_snap (finishSubmit e id v : SE (Flow W S) ChErr CR).
Proof. unfold finishSubmit. respect. Qed.
Lemma beginSubmit_snap e id : respects same_snap (beginSubmit e id : SE (Flow W S) ChErr _).
Proof. unfold beginSubmit. respect. Qed.
#[local] Hint Resolve recordEdit_snap finishSubmit_snap beginSubmit_snap : respects.

Lemma Open_snap e id title a : respects same_snap (OpenChange e id title a : SE (Flow W S) ChErr CR).
Proof.
    unfold OpenChange. respect. intros s r s'.
    destruct (st_put ChangeFlow.StoreE _ s) as [[?|e0] s1] eqn:E1; apply st_put_snap in E1; [by intros [= <- <-]|].
    destruct e0; try (intros [= <- <-]; exact E1).
    destruct (on_world BranchE _ s1) as [r2 s2] eqn:E2. apply on_world_snap in E2. intros [= _ <-]. by etrans.
Qed.
Lemma Edit_snap e id mut msg a hosts : respects same_snap (Edit e id mut msg a hosts : SE (Flow W S) ChErr unit).
Proof. unfold Edit. respect. Qed.
Lemma Submit_snap e id : respects same_snap (Submit e id : SE (Flow W S) ChErr CR).
Proof. unfold Submit. respect. Qed.
Lemma Abandon_snap e id : respects same_snap (Abandon e id : SE (Flow W S) ChErr CR).
Proof. unfold Abandon. respect. Qed.

Lemma keeps_flow {A} (k : ChErr → ApiErr) (m : SE (Flow W S) ChErr A) :
    respects same_snap m → keeps_fleet (on_flow k m).
Proof.
    intros Hm s r s'. unfold on_flow. destruct (m _) as [r0 fl] eqn:E. apply Hm in E. intros [= _ <-].
    unfold api_fleet, ap_config, cs_Fleet. simpl. by rewrite E.
Qed.

(** *** Every route *)

Lemma set_mutation_frame scope key v enforce f f' :
    set_mutation scope key v enforce f = Ok f' → scope_frame scope f f'.
Proof.
    unfold set_mutation. intros (f1 & (? & ? & _ & _ & _ & Hset)%with_scope_Ok & Hlock)%res_bind_Ok.
    destruct enforce as [on|]; [|by injection Hlock as <-].
    apply with_scope_Ok in Hlock as (? & ? & _ & _ & _ & Hlock). by eapply scope_frame_trans.
Qed.

Lemma SetSetting_lands gate scope key raw enforce a (c : ConfigService W) r c' :
    SetSetting catalog_of gate scope key raw enforce a c = (r, c') →
    ∃ f, stood c f ∧ (cs_Fleet c' = f ∨ scope_frame scope f (cs_Fleet c')).
Proof.
    assert (Hleft : ∃ f, stood c f ∧ (cs_Fleet c = f ∨ scope_frame scope f (cs_Fleet c))) by (exists (cs_Fleet c); split; by left).
    unfold SetSetting. destruct (requireDirectEditAllowed _); [by intros [= _ <-]|].
    destruct (Lookup _ _) as [entry|]; [|by intros [= _ <-]]. destruct (trim_space raw ==? ""); [by intros [= _ <-]|].
    destruct (ReachesNothing _ _ _) as [[] classes]; [by intros [= _ <-]|].
    destruct (typed_value _ _ _) as [val|]; [|by intros [= _ <-]].
    unfold SettingsGuard.setting_tx. destruct (Apply _ _ _ _ _ c) as [r0 c0] eqn:E. intros [= _ <-].
    apply Apply_lands in E as (f & Hf & [?|E]); exists f; (split; [done|]); [by left|]. right. by eapply set_mutation_frame.
Qed.

Lemma ClearSetting_lands gate scope key a (c : ConfigService W) r c' :
    ClearSetting gate scope key a c = (r, c') →
    ∃ f, stood c f ∧ (cs_Fleet c' = f ∨ ClearScopeSetting scope key f = Ok (cs_Fleet c')).
Proof.
    unfold ClearSetting. destruct (requireDirectEditAllowed _); [intros [= _ <-]; exists (cs_Fleet c); split; by left|].
    unfold SettingsGuard.setting_tx. destruct (Apply _ _ _ _ _ c) as [r0 c0] eqn:E. intros [= _ <-].
    by eapply Apply_lands.
Qed.

Notation mine p := (moved_by ac p).

Lemma postSetting_lands p b : lands (mine p) (postSetting catalog_of kind ac env p b).
Proof.
    apply lands_decode. intros i ->. apply lands_pure; [done|]. intros [].
    apply lands_pure; [done|]. intros cat. destruct (Lookup _ _) as [entry|]; [|by apply lands_keeps, keeps_err].
    apply lands_pure; [done|]. intros raw. apply lands_pure; [done|]. intros [].
    intros s r s' E. apply se_bind_inv in E as [([] & s1 & E1 & E)|(e & E1 & _)].
    2: { by eapply lands_left, keeps_guard. }
    assert (ap_config s1 = ap_config s) as Hcfg.
    { unfold guard_bricking, on_status in E1. destruct (GuardBrickingSettings _ _ _ _ _). by injection E1 as _ <-. }
    apply se_bind_inv in E as [([] & s2 & E2 & E)|(e & E2 & _)];
      [injection E as _ <-|]; unfold setting_tx, on_config in E2; rewrite Hcfg in E2;
      destruct (SetSetting _ _ _ _ _ _ _ _) as [r0 c'] eqn:Es; injection E2 as _ <-;
      (apply SetSetting_lands in Es as (f & Hf & [?|?]); exists f; (split; [done|]); [by left|right; by eapply moved_scope]).
Qed.

Lemma deleteSetting_lands p b : lands (mine p) (deleteSetting kind ac env p b).
Proof.
    apply lands_decode. intros [scope key] ->. apply lands_pure; [done|]. intros [].
    intros s r s' E. apply se_bind_inv in E as [([] & s1 & E1 & E)|(e & E1 & _)].
    2: { by eapply lands_left, keeps_guard. }
    assert (ap_config s1 = ap_config s) as Hcfg.
    { unfold guard_bricking, on_status in E1. destruct (GuardBrickingSettings _ _ _ _ _). by injection E1 as _ <-. }
    apply se_bind_inv in E as [([] & s2 & E2 & E)|(e & E2 & _)];
      [injection E as _ <-|]; unfold setting_tx, on_config in E2; rewrite Hcfg in E2;
      destruct (ClearSetting _ _ _ _ _) as [r0 c'] eqn:Es; injection E2 as _ <-;
      (apply ClearSetting_lands in Es as (f & Hf & [?|?]); exists f; (split; [done|]); [by left|right; by eapply moved_with_scope]).
Qed.

Lemma Apply_assign p a f0 f f' : Assign a f = Ok f' → mine p f0 f f'.
Proof. intros (_ & _ & ->)%Assign_Ok. by apply moved_same. Qed.

Lemma Apply_unassign p policy target filter f0 f f' : Unassign policy target filter f = Ok f' → mine p f0 f f'.
Proof. unfold Unassign. destruct (bool_decide _); [done|]. intros [= <-]. by apply moved_same. Qed.

Lemma set_apps_moved p scope k names f0 f f' : SetScopeApps scope k names f = Ok f' → mine p f0 f f'.
Proof. unfold SetScopeApps. destruct (first_err _ _); [done|]. by apply moved_with_scope. Qed.

(** After the owner of the organisation is asked for, anything goes. *)
Lemma lands_owner {B} p (k : unit → SE St ApiErr B) : lands (mine p) (se_bind (require ac p "org" Owner_) k).
Proof. apply lands_require, lands_any. intros f0 f f' Ho. by apply moved_owner. Qed.

Lemma postDevice_lands p b : lands (mine p) (postDevice IDKey ac env p b).
Proof.
    apply lands_decode. intros i ->. destruct (ei_Groups i ==? []) eqn:Hg.
    - apply bool_decide_eq_true in Hg. apply lands_require, lands_each. cbv zeta. apply lands_then.
      + apply lands_api_apply. intros f0 f f' Hok Hgs Horg. eapply moved_AddDevice; [exact Hok|done|].
        simpl. rewrite Hg. intros g Hin. by apply elem_of_nil in Hin.
      + intros []. apply keeps_credential.
    - apply bool_decide_eq_false in Hg. apply lands_pure; [done|]. intros []. apply lands_each. cbv zeta.
      apply lands_then.
      + apply lands_api_apply. intros f0 f f' Hok Hgs. eapply moved_AddDevice; [exact Hok|done|done].
      + intros []. apply keeps_credential.
Qed.

Lemma patchDevice_lands p tag b : lands (mine p) (patchDevice ac env p tag b).
Proof.
    apply lands_decode. intros i ->. apply lands_require.
    assert (Hrest : lands (λ f0 f f', holds ac f0 p (device_ref tag) Editor = true → mine p f0 f f')
              (se_bind (api_apply env p (UpdateDevice tag i) ("devices: update " +:+ tag) [tag])
                 (λ _, se_ret (said 200 "updated")))).
    { apply lands_then; [|intros; apply keeps_ret]. apply lands_api_apply.
      intros f0 f f' Hok Hh. by eapply moved_UpdateDevice. }
    apply lands_pure; [|by intros []]. intros s. destruct (dp_Groups i); [|done]. by apply se_each_require.
Qed.

Lemma device_edit_lands {B} p tag mut msg hosts (k : unit → SE St ApiErr B) :
    (∀ f0 f f', mut f = Ok f' → holds ac f0 p (device_ref tag) Editor = true → mine p f0 f f') →
    (∀ a, keeps_fleet (k a)) →
    lands (mine p) (se_bind (require ac p (device_ref tag) Editor) (λ _, se_bind (api_apply env p mut msg hosts) k)).
Proof. intros Hm Hk. apply lands_require, lands_then; [by apply lands_api_apply|done]. Qed.

Lemma scope_edit_lands {B} p ref role mut msg (k : unit → SE St ApiErr B) :
    (∀ f0 f f', mut f = Ok f' → mine p f0 f f') → (∀ a, keeps_fleet (k a)) →
    lands (mine p) (se_bind (require ac p ref role) (λ _, se_bind (apply_at env p ref mut msg) k)).
Proof.
    intros Hm Hk. apply lands_require, lands_then; [|done]. apply lands_apply_at. auto.
Qed.

Lemma flow_lands {A B} p ref role (k : ChErr → ApiErr) (m : SE (Flow W S) ChErr A) (k' : A → SE St ApiErr B) :
    respects same_snap m → (∀ a, keeps_fleet (k' a)) →
    lands (mine p) (se_bind (require ac p ref role) (λ _, se_bind (on_flow k m) k')).
Proof.
    intros Hm Hk. apply lands_require, lands_keeps, keeps_bind; [by apply keeps_flow|done].
Qed.

Lemma keeps_postToken p b : keeps_fleet (postToken IDKey ac env p b).
Proof.
    unfold postToken. apply keeps_bind; [destruct b; [apply keeps_ret|apply keeps_err]|]. intros i. cbv zeta.
    destruct (_ && _); [apply keeps_err|]. apply keeps_bind.
    - destruct (_ ==? _); [|apply keeps_ret]. apply keeps_bind; [apply keeps_require|]. intros [].
      destruct (_ ==? _); [apply keeps_err|apply keeps_ret].
    - intros []. apply keeps_bind; [apply keeps_tokens|intros; apply keeps_ret].
Qed.

Lemma keeps_deleteToken p id : keeps_fleet (deleteToken ac p id).
Proof.
    unfold deleteToken, tokenOwned. repeat (apply keeps_bind; [|intros]); try apply keeps_tokens; try apply keeps_ret.
    destruct a as [t|]; [destruct (_ !=? _); [apply keeps_require|apply keeps_ret]|apply keeps_require].
Qed.

Lemma keeps_postCredential p tag : keeps_fleet (postDeviceCredential IDKey ac env p tag).
Proof.
    unfold postDeviceCredential. apply keeps_bind; [apply keeps_require|]. intros []. apply keeps_bind; [apply snap_kept_get|].
    intros f. destruct (Devices f !! tag) as [d|]; [|apply keeps_ret].
    destruct (negb _); [apply keeps_ret|]. destruct (Retired d); [apply keeps_err|].
    apply keeps_bind; [apply snap_kept_issue|]. intros [secret|e]; [apply keeps_ret|apply keeps_err].
Qed.

Lemma handle_lands p r : lands (mine p) (handle catalog_of IDKey kind ac env p r).
Proof.
    pose proof @keeps_ret as Hret. pose proof @keeps_credential as Hcred.
    assert (Hrev : ∀ tag (s : Reply), keeps_fleet (se_bind (revoke ac tag) (λ _, se_ret s))) by
      (intros; apply keeps_bind; [apply snap_kept_revoke|intros; apply keeps_ret]).
    destruct r; simpl; try (by apply lands_owner);
      try (unfold postDeviceIntent, putRolloutPlan, putAssurance, putPolicy, putFilter, postSecretRef, postRollout;
           apply lands_decode; intros ? ->; by apply lands_owner);
      auto using postDevice_lands, patchDevice_lands, postSetting_lands, deleteSetting_lands,
        lands_keeps, keeps_postToken, keeps_deleteToken, keeps_postCredential.
    - apply device_edit_lands; [|auto]. intros f0 f f'. apply moved_RemoveDevice.
    - apply device_edit_lands; [|auto]. intros f0 f f'. apply moved_state.
    - apply device_edit_lands; [|auto]. intros f0 f f'. apply moved_state.
    - apply lands_decode. intros [[name parent] idp] ->. apply lands_require, lands_then; [|auto].
      apply lands_api_apply. intros f0 f f' Hok Hh. by eapply moved_AddGroup.
    - apply lands_decode. intros i ->. destruct (_ && _); [apply lands_keeps, keeps_err|apply lands_owner].
    - apply lands_decode. intros [[scope k] names] ->. apply scope_edit_lands; [|auto]. intros f0 f f'. apply set_apps_moved.
    - apply lands_decode. intros a ->. apply scope_edit_lands; [|auto]. intros f0 f f'. apply Apply_assign.
    - apply lands_decode. intros [[policy target] filter] ->. apply scope_edit_lands; [|auto].
      intros f0 f f'. apply Apply_unassign.
    - apply lands_decode. intros i ->. apply lands_require, lands_then; [|auto]. apply lands_api_apply.
      intros f0 f f'. apply moved_Grant.
    - apply lands_decode. intros [group scope] ->. apply lands_require, lands_then; [|auto]. apply lands_api_apply.
      intros f0 f f'. apply moved_Revoke.
    - apply lands_decode. intros i ->. apply flow_lands; [apply Open_snap|auto].
    - apply lands_decode. intros i ->. apply flow_lands; [apply Edit_snap|auto].
    - apply flow_lands; [apply Submit_snap|auto].
    - apply flow_lands; [apply Abandon_snap|auto].
Qed.

(** C16: nobody gains or loses a role through the API at the hands of somebody
    without authority there.  Whatever request the API serves, there is a document
    that stood before the request's edit - the one the console held, or the one the
    edit reads: in the tree, or with a remote the one just synchronised, on the
    first attempt or after refused pushes - such that where a role of any user at
    any scope differs from it afterwards, the request speaks for a principal who
    held, on the document the console held before the request, the owner's role -
    for the scope of a device the editor's - at that scope or at one that governs
    it afterwards.  Without a remote, where the console holds what is in its tree,
    the document that stood is the one it held: a delegate can hand out, take or
    move roles only inside the subtrees delegated to him. *)
Theorem roles_confined rq (s : St) reply s' :
    serve catalog_of IDKey kind ac env rq s = (reply, s') →
    ∃ before, stood (ap_config s) before ∧
      (HasRemote = false → current (ap_config s) → before = api_fleet s) ∧
      ∀ u ref, role_in ac (api_fleet s') u ref ≠ role_in ac before u ref →
        ∃ p ref0, speaks IDKey ac env (rq_authorization rq) (rq_session rq) s p ∧
          holds ac (api_fleet s) p ref0 match scope_of ref with RDevice _ => Editor | _ => Owner_ end = true ∧
          (ref0 = ref ∨ ref0 ∈ governing (api_fleet s') ref).
Proof.
    intros E. enough (∃ before, stood (ap_config s) before ∧ (api_fleet s' = before ∨
        ∃ p, speaks IDKey ac env (rq_authorization rq) (rq_session rq) s p ∧ moved_by ac p (api_fleet s) before (api_fleet s')))
      as (before & Hst & Hm).
    { exists before. split; [done|]. split.
      - intros Hlocal Hc. destruct Hst as [?|Hf]; [done|]. rewrite Hlocal in Hf. destruct Hf as (raw & Hr & Hd). by apply (Hc raw).
      - intros u ref Hne. destruct Hm as [Hs|(p & Hp & Hm)]; [by rewrite Hs in Hne|].
        destruct (Hm u ref Hne) as (ref0 & Hh & Hg). by exists p, ref0. }
    assert (Hkeep : api_fleet s' = api_fleet s → ∃ before, stood (ap_config s) before ∧ (api_fleet s' = before ∨
        ∃ p, speaks IDKey ac env (rq_authorization rq) (rq_session rq) s p ∧ moved_by ac p (api_fleet s) before (api_fleet s')))
      by (intros Hs; exists (api_fleet s); split; by left).
    revert E. unfold serve. destruct (_ && negb (ac_tokenAuth ac)); [intros [= _ <-]; by apply Hkeep|].
    destruct (authenticate _ _ _ _ _ s) as [[p|] s1] eqn:Ea; apply authenticate_inv in Ea as [Hd Hp];
      pose proof (same_data_fleet _ _ Hd) as Hf; [|intros [= _ <-]; by apply Hkeep].
    destruct (ac_write ac); [|intros [= _ <-]; by apply Hkeep]. simpl.
    destruct (verifyCSRF p (rq_csrf rq)); [|intros [= _ <-]; by apply Hkeep]. simpl.
    destruct (handle _ _ _ _ _ p (rq_route rq) s1) as [r s2] eqn:Eh. intros E.
    assert (s' = s2) as -> by (destruct r; congruence).
    assert (Hcfg : ap_config s1 = ap_config s) by (destruct Hd as [He _ _ _ _]; unfold ap_config; by rewrite He).
    destruct (handle_lands p (rq_route rq) s1 r s2 Eh) as (before & Hst & Hm). rewrite Hcfg in Hst. rewrite Hf in Hm.
    exists before. split; [done|]. destruct Hm as [?|Hm]; [by left|right]. exists p. by split; [apply Hp|].
Qed.
End handlers.

(** * Concrete requests *)

(** ** The world *)

(** Two departments; lt-1 is in both, and the team [ga] edits the first. *)
Definition camp_groups : gmap string Group := <["a" := zero_group]> {["b" := zero_group]}.
Definition camp (groups : option (list string)) (n : nat) : Fleet :=
  zero_fleet <| f_Groups := camp_groups |>
    <| Devices := match groups with
                  | Some gs => {["lt-1" := zero_device <| Hardware := "g" |> <| Groups := gs |>]} | None => ∅ end |>
    <| Access := [{| b_Group := "ga"; b_Role := "editor"; b_Scope := "group:a" |};
                  {| b_Group := "head-a"; b_Role := "owner"; b_Scope := "group:a" |}] ++
                 repeat {| b_Group := "new"; b_Role := "viewer"; b_Scope := "group:a" |} n |>.

Definition camp_text (groups : option (list string)) (n : nat) : string :=
  match groups with Some gs => join gs "," | None => "gone" end +:+ ";" +:+ pretty n.
Definition camps : list (option (list string) * nat) := [(Some ["a"; "b"], 0%nat); (None, 0%nat); (Some ["a"], 0%nat)].

#[export] Instance camp_go_json : GoJson := {
  json_value v := Ok "1"; fmt_v v := "1"; fleet_fields f := Ok ∅; json_fields m := Ok "{}"
}.
#[export] Instance camp_print : Fingerprint := λ s, s.
#[export] Instance camp_codec : FleetJson := {
  unmarshal_probe b := Ok 3;
  unmarshal_doc b := Ok ∅;
  unmarshal_fleet b :=
    match List.find (λ p, camp_text p.1 p.2 +:+ newline ==? b) camps with
    | Some p => Ok (camp p.1 p.2)
    | None => Err "parse"
    end;
  marshal_doc d := Ok "";
  marshal_fleet f := Ok (camp_text (Groups <$> Devices f !! "lt-1") (length (Access f) - 2))
}.
#[export] Instance camp_parsers : OverlayParsers := {
  Catalog := unit; HardwareProfiles := unit; ProfileSet := unit; Bundles := unit;
  ParseCatalog _ := Ok tt; ParseHardwareProfiles _ := Ok tt; ParseProfileSet _ := Ok tt;
  ParseBundles _ := Ok tt
}.
#[export] Instance camp_repo : ConfigRepo Git := git_repo false false.

(** No change flow here: no branches and an empty store. *)
#[export] Instance camp_branches : BranchRepo Git := {
  CreateBranch _ w := (Err "no branches", w); DeleteBranch _ w := (Err "no branches", w);
  AddWorktree _ _ w := (Err "no branches", w); RemoveWorktree _ w := (Err "no branches", w);
  MergeNoFF _ _ _ w := (Err "no branches", w); ResetHard _ w := (Err "no branches", w);
  Diff _ _ := Err "no branches"; BranchMerged _ _ := Err "no branches"; RepoHead _ := Err "no branches";
  RepoDir := "/srv/overlay"; Publisher := None; OpenWorktree _ _ := Err "no branches"; StatDir _ _ := false
}.
#[export] Instance camp_store : ChangeStore unit := {
  st_Get _ _ := Ok None; st_Put _ s := (Ok tt, s); st_List _ := Ok []
}.

Definition camp_catalog (c : ConfigTx.Catalog) : SettingsCatalog := mkCatalog [] ∅.
Definition camp_kind (e : string) : list ErrKind := [].
Definition camp_config : ApiConfig := mkApiConfig "" true true true [] [] [] true true.
Definition camp_env : ApiEnv Git :=
  mkApiEnv 200 "raw" "salt" None passGate
    (mkChEnv (λ _, passGate) None (λ _ _ _, None) 200 false [] false)
    (mkEnv 200 None None (λ _ _, Err "no inventory") None false (λ _ _, None) (λ _, None) (Err "no head") (λ _, Ok []) passGate).

Definition camp_state : Api Git unit :=
  mkApi
    (mkEngine
       (mkService (mkTx (mkGit (camp_text (Some ["a"; "b"]) 0 +:+ newline) [] [] [] 0) None)
          (mkSnapshot _ (camp (Some ["a"; "b"]) 0) tt tt tt tt))
       None ∅ ∅ "" [] [])
    tt [] (live ∅) (live ∅).

(** Somebody signed in at the console, and a request of his browser. *)
Definition signed_in (name : string) (groups : list string) : session := mkSession (Build_User name groups false) name "" "t".
Definition browser (name : string) (groups : list string) (r : Route) : Request :=
  mkRequest "" "t" (Some (signed_in name groups)) r.

Definition camp_serve (rq : Request) (s : Api Git unit) : Reply * Api Git unit :=
  serve camp_catalog demo_key camp_kind camp_config camp_env rq s.

Definition history_of (s : Api Git unit) : nat := length (g_hist (tx_repo (cs_tx (ap_config s)))).

(** ** Witnesses *)

Lemma api_enforces_roles_witness :
  ∃ p, speaks demo_key camp_config camp_env "" (Some (signed_in "eve" ["ga"])) camp_state p ∧
       holds camp_config (api_fleet camp_state) p (device_ref "lt-1") Editor = true.
Proof.
  destruct (camp_serve (browser "eve" ["ga"] (DeleteDevice "lt-1")) camp_state) as [reply s'] eqn:E.
  destruct (api_enforces_roles camp_catalog demo_key camp_kind camp_config camp_env _ _ _ _ E)
    as [[Heng _ _ _ _]|(p & Hsp & _ & _ & Hn & _)].
  - exfalso. assert (Hh : history_of s' = 1%nat).
    { change s' with (reply, s').2. rewrite <- E. vm_compute. reflexivity. }
    unfold history_of, ap_config in Hh. rewrite Heng in Hh. vm_compute in Hh. discriminate.
  - exists p. split; [exact Hsp|]. apply Hn. apply needs_remove.
Defined.

Lemma camp_current : current (ap_config camp_state).
Proof.
  intros raw f Hr Hd. vm_compute in Hr. injection Hr as <-.
  assert (Hc : Decode (camp_text (Some ["a"; "b"]) 0 +:+ newline) = Ok (camp (Some ["a"; "b"]) 0)) by reflexivity.
  change (Decode (camp_text (Some ["a"; "b"]) 0 +:+ newline) = Ok f) in Hd. rewrite Hc in Hd. by injection Hd as <-.
Qed.

(** The same console over a remote, to which somebody pushes between the page and
    the edit that lt-1 is no longer in department b. *)
Section remote_camp.
#[local] Instance remote_repo : ConfigRepo Git := git_repo true false.

Definition remote_serve (rq : Request) (s : Api Git unit) : Reply * Api Git unit :=
    serve camp_catalog demo_key camp_kind camp_config camp_env rq s.
Definition at_remote (c : ConfigService Git) (f : Fleet) : Prop := stood c f.
End remote_camp.

Definition remote_state : Api Git unit :=
  let first := mkCommit "init" demo_author (camp_text (Some ["a"; "b"]) 0 +:+ newline) in
  let moved := mkCommit "move" demo_author (camp_text (Some ["a"]) 0 +:+ newline) in
  mkApi
    (mkEngine
       (mkService (mkTx (mkGit (camp_text (Some ["a"; "b"]) 0 +:+ newline) [first] [first] [[moved]] 0) None)
          (mkSnapshot _ (camp (Some ["a"; "b"]) 0) tt tt tt tt))
       None ∅ ∅ "" [] [])
    tt [] (live ∅) (live ∅).

Definition ann_grants : Request :=
  browser "ann" ["head-a"] (PostAccess (Some {| b_Group := "new"; b_Role := "viewer"; b_Scope := "group:a" |})).
Definition zoe : User := Build_User "zoe" ["new"] false.

Lemma roles_confined_witness :
  (∃ p ref0, speaks demo_key camp_config camp_env "" (Some (signed_in "ann" ["head-a"])) camp_state p ∧
    holds camp_config (api_fleet camp_state) p ref0 Owner_ = true) ∧
  let s' := (remote_serve ann_grants remote_state).2 in
  Groups (dev (api_fleet remote_state) "lt-1") = ["a"; "b"] ∧ Groups (dev (api_fleet s') "lt-1") = ["a"] ∧
  ∃ before, at_remote (ap_config remote_state) before ∧
    (role_in camp_config (api_fleet s') zoe "group:a" ≠ role_in camp_config before zoe "group:a" →
     ∃ p ref0, speaks demo_key camp_config camp_env "" (Some (signed_in "ann" ["head-a"])) remote_state p ∧
       holds camp_config (api_fleet remote_state) p ref0 Owner_ = true).
Proof.
  split.
  - destruct (camp_serve ann_grants camp_state) as [reply s'] eqn:E.
    destruct (roles_confined camp_catalog demo_key camp_kind camp_config camp_env _ _ _ _ E) as (before & _ & Hb & Hm).
    specialize (Hb eq_refl camp_current). subst before.
    destruct (Hm zoe "group:a") as (p & ref0 & Hsp & Hh & _).
    + change s' with (reply, s').2. rewrite <- E. vm_compute. discriminate.
    + exists p, ref0. split; [exact Hsp|exact Hh].
  - split; [reflexivity|]. split; [vm_compute; reflexivity|].
    destruct (remote_serve ann_grants remote_state) as [reply s'] eqn:E.
    destruct (roles_confined (H := git_repo true false) camp_catalog demo_key camp_kind camp_config camp_env _ _ _ _ E)
      as (before & Hst & _ & Hm).
    exists before. split; [exact Hst|]. intros Hne. destruct (Hm zoe "group:a" Hne) as (p & ref0 & Hsp & Hh & _).
    exists p, ref0. split; [exact Hsp|exact Hh].
Defined.

(** Ann, who owns department a, has a token for reading and one for deploying. *)
Definition ann_tokens : Pg TokenTable :=
  let mint id ceiling s := (MintToken demo_key "raw" "salt"
    (mkMintRequest id id Personal "ann" ["head-a"] ceiling 0) 100 s).2 in
  mint "reader" "viewer" (mint "deploy" "" (live ∅)).

Definition reader_secret : string := "sxt_reader_" +:+ EncodeToString true "raw".

Lemma token_is_its_owner_narrowed_witness :
  ∃ p, speaks demo_key camp_config camp_env ("Bearer " +:+ reader_secret) None (camp_state <| ap_tokens := ann_tokens |>) p ∧
       role_rank (role_at camp_config (camp None 0) p "group:a") = 1.
Proof.
  destruct (tables ann_tokens !! IDFromSecret reader_secret) as [tok|] eqn:Htok;
    [|apply (f_equal (λ o, bool_decide (is_Some o))) in Htok; vm_compute in Htok; discriminate].
  assert (Hfacts : tok_Kind tok = Personal ∧ Expired tok 200 = false ∧ Verify demo_key tok reader_secret = true ∧
                   tok_Subject tok = "ann" ∧ tok_Groups tok = ["head-a"] ∧ tok_Ceiling tok = "viewer").
  { revert Htok. vm_compute. intros [= <-]. done. }
  destruct Hfacts as (Hk & He & Hv & Hs & Hg & Hc).
  pose proof (speaks_token demo_key camp_config camp_env ("Bearer " +:+ reader_secret) None
    (camp_state <| ap_tokens := ann_tokens |>) reader_secret tok "reader" eq_refl eq_refl Htok
    ltac:(by rewrite Hk) ltac:(by rewrite Hk) He Hv) as Hsp.
  destruct (Credentials.principal (ae_dir camp_env) tok) as [u c] eqn:Hp.
  eexists. split; [exact Hsp|].
  destruct (token_is_its_owner_narrowed demo_key camp_config camp_env ("Bearer " +:+ reader_secret) None
    (camp_state <| ap_tokens := ann_tokens |>) reader_secret _ Hsp eq_refl eq_refl) as (tok' & Htok' & _ & _ & _ & _ & Hu & Hrole).
  { vm_compute. discriminate. }
  simpl in Htok'. rewrite Htok in Htok'. injection Htok' as <-.
  destruct (Hrole (camp None 0) "group:a") as (_ & _ & Hmin). rewrite (Hmin Viewer) by (by rewrite Hc).
  rewrite Hu, Hs, Hg. vm_compute. reflexivity.
Defined.

(** ** Around the rules *)

(** A device leaves a group its editor does not control.  Moving lt-1 out of
    department b takes an editor of b, and the request is refused; but whoever
    edits one of the groups of a device may remove the device and enrol it again,
    and the second enrolment names only the groups it joins. *)
Theorem leaves_by_reenrolling :
  let move := browser "eve" ["ga"] (PatchDevice "lt-1" (Some (Build_DevicePatch None None None (Some ["a"]) None None))) in
  let remove := browser "eve" ["ga"] (DeleteDevice "lt-1") in
  let enrol := browser "eve" ["ga"] (PostDevice (Some (mkEnrollIn "lt-1" "g" "" ["a"] "" ∅))) in
  let '(r1, s1) := camp_serve move camp_state in
  let '(r2, s2) := camp_serve remove s1 in
  let '(r3, s3) := camp_serve enrol s2 in
  (status r1, status r2, status r3) = (403, 200, 201) ∧
  Groups (dev (api_fleet s1) "lt-1") = ["a"; "b"] ∧ Groups (dev (api_fleet s3) "lt-1") = ["a"].
Proof. vm_compute. done. Qed.

(** A ceiling does not bind what asks for no role: a token held down to viewer
    revokes the other tokens of its owner. *)
Theorem viewer_token_revokes :
  let s := camp_state <| ap_tokens := ann_tokens |> in
  let rq := mkRequest ("Bearer " +:+ reader_secret) "" None (DeleteToken_ "deploy") in
  let '(r, s') := camp_serve rq s in
  status r = 200 ∧ is_Some (tables (ap_tokens s) !! "deploy") ∧ tables (ap_tokens s') !! "deploy" = None.
Proof. vm_compute. split_and!; try done. by eexists. Qed.

(** Anybody signed in, with no role anywhere, may mint a token for himself and
    choose its id: the id a device's credential will have makes the console
    refuse that device the shared token it checks in with. *)
Theorem stranger_locks_a_device_out :
  let rq := browser "eve" [] (PostToken (Some (mkTokenIn "device-lt-1" "mine" "" "" [] 0))) in
  let '(r, s') := camp_serve rq camp_state in
  status r = 201 ∧
  (authorized demo_key Tokens.Device true "bridge" "bridge" "lt-1" 200 (ap_tokens camp_state)).1 = true ∧
  (authorized demo_key Tokens.Device true "bridge" "bridge" "lt-1" 300 (ap_tokens s')).1 = false.
Proof. vm_compute. done. Qed.

(** The answer to a setting that the git server refused blames the caller: a
    fetch, a push, a write or a commit that fails is a 500 on the routes that edit
    groups, devices, policies or access, and a 400 with git's text in it on those
    of settings. *)
Theorem outage_blamed_on_the_caller kind e (Hplain : kind e = []) tx :
  tx ∈ [SyncE e; PushE e; WriteE e; CommitE e] →
  fail_status kind (settingErr kind (settingE (SettingTx tx))) = 400 ∧
  fail_status kind (rejecting tx) = 500.
Proof.
  intros Hin.
  assert (Htx : tx_kinds kind tx = [] ∧ rejecting tx = configE tx).
  { repeat (apply elem_of_cons in Hin as [-> | Hin]; [by rewrite <- Hplain|]). by apply elem_of_nil in Hin. }
  destruct Htx as [Hk Hr]. rewrite Hr. unfold settingErr, fail_status. simpl. rewrite Hk. simpl. by rewrite Hk.
Qed.

Lemma outage_blamed_on_the_caller_witness :
  fail_status camp_kind (settingErr camp_kind (settingE (SettingTx (SyncE "could not resolve host")))) = 400 ∧
  fail_status camp_kind (rejecting (SyncE "could not resolve host")) = 500.
Proof. apply (outage_blamed_on_the_caller camp_kind "could not resolve host"); [reflexivity|left]. Defined.
