(* ===== verification/DevicePlane.v ===== *)
(** * The device-facing API (src/internal/http/api/checkin.go, elevation.go,
      intent_nonce.go, bridge_notice.go, device_auth.go, wired in
      src/cmd/sextant/capabilities.go)

    What a device may ask of the control plane: its check-in, the upload of its
    diagnostics, and its elevation requests.  One state holds every store a
    request can reach; a handler is a computation over it that ends in a reply,
    early replies being errors of the monad.  A JSON body is its decoded value. *)

From S2P Require Import Prelude GoLib FleetModel Groups Filters Resolve Mutate DeviceOps Classes Document ConfigTx Text Sql Stations Imaging Notify Observed ImageJobs Tokens Credentials Elevation Forge DeviceSecrets HostKeys Api.

(** ** The throttled warning (bridge_notice.go) *)

Definition bridgeNoticeEvery : Z := Hour.

(** The subjects seen, and the warnings logged, newest first. *)
Record Bridge := mkBridge { br_seen : gmap string Time; br_warned : list (string * Time) }.

Definition warn (subject : string) (now : Time) (b : Bridge) : Bridge :=
  let fresh := match br_seen b !! subject with None => true | Some last => bridgeNoticeEvery <=? time_sub now last end in
  if fresh then mkBridge (<[subject := now]> (br_seen b)) ((subject, now) :: br_warned b) else b.

(** ** The replay guard of the wipe (intent_nonce.go) *)

(** [hmac.New(sha256.New, key)] over a message. *)
Class HmacSha256 := hmac : string → string → string.

Definition intentNonceWindow : Z := 15 * 60.
Definition fleetIntentWipe : string := "wipe".
Definition nul : string := String "000" "".

Definition intent_message (tag intent : string) (ts : Z) : string :=
  tag +:+ nul +:+ intent +:+ nul +:+ pretty ts.

Definition signIntentNonce `{HmacSha256} (key tag intent : string) (ts : Z) : string :=
  hex_encode (hmac key (intent_message tag intent ts)).

(** [ts] and [now] are 64-bit: the difference wraps. *)
Definition verifyIntentNonce `{HmacSha256} (key tag intent : string) (ts now : Z) (nonce : string) : bool :=
  if (len key =? 0) || (nonce ==? "") || (ts =? 0) then false
  else if (wrap64 (now - ts) <? 0) || (intentNonceWindow <? wrap64 (now - ts)) then false
  else signIntentNonce key tag intent ts ==? nonce.

(** [deriveIntentKey]: the key of the guard, apart from the sealing key. *)
Definition deriveIntentKey `{Sha256} (b64 : string) : string :=
  if b64 ==? "" then "" else
  match StdDecodeString b64 with
  | None | Some [] => ""
  | Some raw => sha256 ("sextant-intent-nonce" +:+ nul +:+ string_of_list_ascii raw)
  end.

(** ** Replies *)

Record jobView := mkJobView {
  jv_MAC : string; jv_Tag : string; jv_Hardware : string; jv_Status : JobStatus; jv_Rev : string; jv_Credential : string
}.

Inductive DBody :=
  | NoBody
  | ErrorText (s : string)
  | IntentBody (intent : string) (signed : option (string * Z))
  | ElevationAnswer (id : string) (st : ElState) (granted : bool)
  | JobList (jobs : list jobView)
  | TagBody (tag : string).

(** [rp_stored] is the header [X-Recovery-Key-Stored]. *)
Record DReply := mkDReply { rp_status : Z; rp_body : DBody; rp_stored : bool }.

Definition deny (st : Z) (s : string) : DReply := mkDReply st (ErrorText s) false.
Definition no_content (stored : bool) : DReply := mkDReply 204 NoBody stored.

(** ** State and wiring *)

Record Plane `{OverlayParsers} (W : Type) := mkPlane {
  pl_cfg : ConfigService W; pl_tokens : Pg TokenTable; pl_inv : Inv; pl_jobs : Pg JobTable;
  pl_secrets : Pg SecretTable; pl_bundles : Pg BundleTable; pl_el : El; pl_disc : Pg DiscTable;
  pl_bridge : Bridge; pl_station_bridge : Bridge
}.
Arguments mkPlane {_ W}. Arguments pl_cfg {_ W}. Arguments pl_tokens {_ W}. Arguments pl_inv {_ W}.
Arguments pl_jobs {_ W}. Arguments pl_secrets {_ W}. Arguments pl_bundles {_ W}. Arguments pl_el {_ W}.
Arguments pl_disc {_ W}. Arguments pl_bridge {_ W}. Arguments pl_station_bridge {_ W}.
#[export] Instance Plane_eta `{OverlayParsers} W : Eta (Plane W) := λ s,
  mkPlane (pl_cfg s) (pl_tokens s) (pl_inv s) (pl_jobs s) (pl_secrets s) (pl_bundles s) (pl_el s) (pl_disc s)
    (pl_bridge s) (pl_station_bridge s).

(** Which services are wired, the keys, and what a request draws: the clock in
    nanoseconds, a sealing nonce, an id, and the random bytes of credentials. *)
Record PlaneEnv (W : Type) := mkPlaneEnv {
  pe_devs : bool; pe_stations : bool; pe_shared : string; pe_key : string; pe_gate_token : string;
  pe_secrets : bool; pe_diag : bool; pe_imaging : bool; pe_elevation : bool; pe_issuer : bool; pe_config : bool;
  pe_inv : InvEnv; pe_el : ElEnv; pe_gate : Gate W;
  pe_now : Time; pe_nonce : string; pe_id : string; pe_raw : string → string; pe_salt : string
}.
Arguments mkPlaneEnv {W}. Arguments pe_devs {W}. Arguments pe_stations {W}. Arguments pe_shared {W}. Arguments pe_key {W}.
Arguments pe_gate_token {W}. Arguments pe_secrets {W}. Arguments pe_diag {W}. Arguments pe_imaging {W}.
Arguments pe_elevation {W}. Arguments pe_issuer {W}. Arguments pe_config {W}. Arguments pe_inv {W}.
Arguments pe_el {W}. Arguments pe_gate {W}. Arguments pe_now {W}. Arguments pe_nonce {W}. Arguments pe_id {W}.
Arguments pe_raw {W}. Arguments pe_salt {W}.

Record checkinBody := mkCheckinBody {
  cb_CheckIn : CheckIn; cb_Facts : string; cb_AckNonce : string; cb_AckTs : Z; cb_RecoveryKey : string
}.

Definition maxRecoveryKey : Z := 256.
Definition agent : Author := mkAuthor "" "sextant-agent" "agent@sextant".
Definition KeySecureBoot : string := "secureboot.enable".
Definition KeyTPM2 : string := "diskUnlock.tpm2.enable".


(** A body that was read: in bounds, or too large. *)
Inductive Ask := AskTooLarge | AskMalformed | Asked (user action reason : string).

Inductive DeviceRoute :=
  | PostCheckin (b : option checkinBody)
  | PostDiagnostics (tag : string) (b : option string)
  | PostElevation (tag : string) (b : Ask)
  | GetElevation (tag id : string).

Section plane.
  Context {W : Type} `{ConfigRepo W, GoJson, Fingerprint, FleetJson, OverlayParsers}.
  Context `{hm : HmacSha256, sl : Sealer}.
  Context (IDKey : string → string → string) (env : PlaneEnv W).

Notation M A := (SE (Plane W) DReply A).

Definition pl_fleet (s : Plane W) : Fleet := cs_Fleet (pl_cfg s).

(** A call whose error the handler answers, and one whose error it drops. *)
Definition on_inventory {A} (k : ObsErr → DReply) (m : SE Inv ObsErr A) : M A := λ s,
    let '(r, i) := m (pl_inv s) in (lift_err k r, s <| pl_inv := i |>).
Definition on_bundles {A} (k : SecretErr → DReply) (m : SE (Pg BundleTable) SecretErr A) : M A := λ s,
    let '(r, t) := m (pl_bundles s) in (lift_err k r, s <| pl_bundles := t |>).
Definition on_elevation {A} (k : ElErr → DReply) (m : SE El ElErr A) : M A := λ s,
    let '(r, e) := m (pl_el s) in (lift_err k r, s <| pl_el := e |>).
Definition try_config (m : SE (ConfigService W) TxErr unit) (s : Plane W) : Plane W :=
    s <| pl_cfg := (m (pl_cfg s)).2 |>.

(** ** Who speaks *)

(** [authorized] with the warning of the bridge. *)
Definition lets_in (secret tag : string) (s : Plane W) : bool * Plane W :=
    let '(ok, t) := authorized IDKey Device (pe_devs env) (pe_shared env) secret tag (pe_now env) (pl_tokens s) in
    let own := pe_devs env && (tag !=? "") && (AuthenticateTag IDKey Device secret tag (pe_now env) (pl_tokens s)).1 in
    let s := s <| pl_tokens := t |> in
    (ok, if ok && negb own then s <| pl_bridge ::= warn tag (pe_now env) |> else s).

(** The [retired] predicate of the wiring. *)
Definition retired (s : Plane W) (tag : string) : bool :=
    match Devices (pl_fleet s) !! tag with Some d => Retired d | None => false end.

(** [deviceFromRequest], and the same checks of the check-in. *)
Definition speaks_for (secret tag : string) : M unit := λ s,
    if secret ==? "" then (Err (deny 401 "unauthorized"), s) else
    let '(ok, s) := lets_in secret tag s in
    if negb ok then (Err (deny 401 "unauthorized"), s)
    else if retired s tag then (Err (deny 410 "device is retired"), s)
    else (Ok tt, s).

(** ** The check-in *)

(** The promotion hook of [InventoryService], which [RecordCheckIn] calls. *)
Definition promote (tag : string) (s : Plane W) : Plane W :=
    match Devices (pl_fleet s) !! tag with
    | Some d => if Provisional d
                then try_config (Apply (pe_gate env) (ActivateProvisional tag)
                                   ("devices: " +:+ tag +:+ " reported for the first time") agent [tag]) s
                else s
    | None => s
    end.

(** [InventoryService.CheckIn]; the hook runs when the status was written, and
    touches nothing the rest of the call reads. *)
Definition record_checkin (c : CheckIn) (facts : string) : M unit := λ s,
    let '(r, s') := on_inventory (λ _, deny 400 "check-in refused") (RecordCheckIn (pe_inv env) c facts (pe_now env)) s in
    (r, if inv_seen (pl_inv s') ==? inv_seen (pl_inv s) then s' else promote (c_Tag c) s').

(** The guard drops the outcome of a wipe that no fresh nonce vouches for. *)
Definition guard_ack (b : checkinBody) : CheckIn :=
    let c := cb_CheckIn b in
    if (0 <? len (pe_key env)) && isWipeAck (c_Ack c) &&
       negb (verifyIntentNonce (pe_key env) (c_Tag c) fleetIntentWipe (cb_AckTs b) (Unix (pe_now env)) (cb_AckNonce b))
    then c <| c_Ack := "" |> else c.

(** The escrow of a recovery key: whether it was stored. *)
Definition escrow (tag key : string) : M bool := λ s,
    if key ==? "" then (Ok false, s)
    else if maxRecoveryKey <? len key then (Err (deny 400 "recovery key exceeds the expected size"), s)
    else if negb (pe_secrets env && sealer_enabled) then (Ok false, s)
    else match StoreSecret (pe_nonce env) tag LUKS key ("device:" +:+ tag) (pe_now env) (pl_secrets s) with
         | (Ok _, t) => (Ok true, s <| pl_secrets := t |>)
         | (Err _, t) => (Ok false, s <| pl_secrets := t |>)
         end.

(** A completed intent is cleared by the beat that carries its outcome. *)
Definition clear_completed (c : CheckIn) (acks : list string) (intent msg : string) (s : Plane W) : Plane W :=
    if (c_Ack c ∈? acks) && (Intent (dev (pl_fleet s) (c_Tag c)) ==? intent)
    then try_config (ApplyStructural (ClearDeviceIntent (c_Tag c)) (msg +:+ c_Tag c) agent) s else s.

Definition wants (f : Fleet) (tag key : string) : bool :=
    match ResolveValues f tag !! key with Some (VBool b) => b | _ => false end.

(** The [provision] hook of the wiring; its error is dropped. *)
Definition provision (c : CheckIn) : M unit := λ s,
    let s := clear_completed c [AckRebooted] IntentReboot "intent: reboot completed on " s in
    let s := clear_completed c [AckDiagnostics; AckDiagnosticsFailed] IntentDiagnostics
               "intent: diagnostics completed on " s in
    (Ok tt, if pe_imaging env
            then let f := pl_fleet s in
                 s <| pl_jobs := (AdvanceFromDevice c (wants f (c_Tag c) KeySecureBoot) (wants f (c_Tag c) KeyTPM2)
                                    (pe_now env) (pl_jobs s)).2 |>
            else s).

(** The [intent] hook: the operator's intent, or the one of the wizard. *)
Definition pending_intent (tag : string) : M string := λ s,
    let it := Intent (dev (pl_fleet s) tag) in
    if it !=? "" then (Ok it, s)
    else if negb (pe_imaging env) then (Ok "", s)
    else let '(it, jobs) := WizardIntent tag (pl_jobs s) in (Ok it, s <| pl_jobs := jobs |>).

Definition intent_reply (tag action : string) (stored : bool) : DReply :=
    if action ==? "" then no_content stored else
    let ts := Unix (pe_now env) in
    mkDReply 200 (IntentBody action
      (if (action ==? fleetIntentWipe) && (0 <? len (pe_key env))
       then Some (signIntentNonce (pe_key env) tag fleetIntentWipe ts, ts) else None)) stored.

Definition handleCheckin (secret : string) (b : option checkinBody) : M DReply :=
    if negb (pe_devs env) && (pe_shared env ==? "") then se_err (deny 403 "check-in disabled: no device auth configured")
    else if secret ==? "" then se_err (deny 401 "unauthorized")
    else match b with
    | None => se_err (deny 400 "bad check-in body")
    | Some b =>
        let tag := c_Tag (cb_CheckIn b) in
        run! speaks_for secret tag;
        let c := guard_ack b in
        run! record_checkin c (cb_Facts b);
        do! stored <- escrow tag (cb_RecoveryKey b);
        run! provision c;
        do! action <- pending_intent tag;
        se_ret (intent_reply tag action stored)
    end.

(** ** Diagnostics *)

Definition handleDiagnostics (secret tag : string) (b : option string) : M DReply :=
    run! speaks_for secret tag;
    if negb (pe_diag env && sealer_enabled) then se_err (deny 503 "diagnostics store unavailable; retry later")
    else match b with
    | None => se_err (deny 413 "bundle too large or unreadable")
    | Some body =>
        if MaxDiagnosticsBundle <? len body then se_err (deny 413 "bundle too large or unreadable")
        else if len body =? 0 then se_err (deny 400 "empty bundle")
        else run! on_bundles (λ _, deny 500 "could not store bundle") (PutBundle (pe_nonce env) tag body (pe_now env));
             se_ret (no_content false)
    end.

(** ** Elevation requests *)

Definition handleElevationRaise (secret tag : string) (b : Ask) : M DReply :=
    run! speaks_for secret tag;
    if negb (pe_elevation env) then se_err (deny 503 "elevation requests are not enabled")
    else match b with
    | AskTooLarge => se_err (deny 413 "request too large or unreadable")
    | AskMalformed => se_err (deny 400 "malformed request")
    | Asked user action reason =>
        do! r <- on_elevation (λ _, deny 400 "request refused")
                   (Raise (pe_el env) (pe_id env) tag user action reason (pe_now env));
        se_ret (mkDReply 201 (ElevationAnswer (el_ID r) (el_State r) false) false)
    end.

Definition handleElevationPoll (secret tag id : string) : M DReply :=
    run! speaks_for secret tag;
    if negb (pe_elevation env) then se_err (deny 503 "elevation requests are not enabled")
    else do! r <- on_elevation (λ _, deny 500 "could not read the request") (Poll tag id (pe_now env));
         match r with
         | None => se_err (deny 404 "no such request")
         | Some r => se_ret (mkDReply 200 (ElevationAnswer (el_ID r) (el_State r) (Grants r (pe_now env))) false)
         end.

Definition device_handler (secret : string) (r : DeviceRoute) : M DReply :=
    match r with
    | PostCheckin b => handleCheckin secret b
    | PostDiagnostics tag b => handleDiagnostics secret tag b
    | PostElevation tag b => handleElevationRaise secret tag b
    | GetElevation tag id => handleElevationPoll secret tag id
    end.

(** A handler's early reply is the reply. *)
Definition reply_of (m : M DReply) (s : Plane W) : DReply * Plane W :=
    match m s with (Ok r, s) => (r, s) | (Err r, s) => (r, s) end.

Definition serve_device (authorization : string) (r : DeviceRoute) : Plane W → DReply * Plane W :=
    reply_of (device_handler (bearerToken authorization) r).

(** ** The question of the gate runner (device_auth.go) *)

(** The body: too large, not JSON, or a credential. *)
Inductive CredentialAsk := CredTooLarge | CredMalformed | Credential (secret : string).

Definition device_auth (authorization : string) (b : CredentialAsk) (s : Plane W) : DReply * Plane W :=
    if (pe_gate_token env ==? "") || negb (pe_devs env) || (bearerToken authorization !=? pe_gate_token env)
    then (deny 401 "unauthorized", s)
    else match b with
    | CredTooLarge => (deny 413 "request too large", s)
    | CredMalformed => (deny 400 "malformed request", s)
    | Credential secret =>
        if trim_space secret ==? "" then (deny 400 "malformed request", s) else
        let '(tag, t) := authenticateBound IDKey secret Device (pe_now env) (pl_tokens s) in
        let s := s <| pl_tokens := t |> in
        match tag with
        | None => (deny 403 "not a valid device credential", s)
        | Some tag => (mkDReply 200 (TagBody tag) false, s)
        end
    end.
End plane.

(** ** Routing: the patterns of a [ServeMux]

    A pattern is a method and a path whose segments are literal or a wildcard. *)

Definition wildcard (seg : string) : bool := has_prefix seg "{".

Fixpoint segments_match (pat path : list string) : bool :=
  match pat, path with
  | [], [] => true
  | p :: pat, s :: path => (if wildcard p then s !=? "" else p ==? s) && segments_match pat path
  | _, _ => false
  end.

Definition pattern_matches (pat method path : string) : bool :=
  match cut_at " " pat with
  | Some (m, p) => (m ==? method) && segments_match (split_on "/" p) (split_on "/" path)
  | None => false
  end.

Definition routed (patterns : list string) (method path : string) : bool :=
  existsb (λ pat, pattern_matches pat method path) patterns.

(** What [Routes] registers on the inner mux. *)
Definition checkin_patterns : list string := [
  "POST /api/checkin"; "POST /api/device/{tag}/diagnostics";
  "POST /api/device/{tag}/elevation"; "GET /api/device/{tag}/elevation/{id}"].

(** What [observedCapability] mounts of it on the server's mux. *)
Definition mounted_patterns : list string := ["POST /api/checkin"; "POST /api/device/{tag}/diagnostics"].

(** A request reaches a handler when both muxes route it. *)
Definition reaches_device_api (method path : string) : bool :=
  routed mounted_patterns method path && routed checkin_patterns method path.
