(* ===== verification/StationApi.v ===== *)
(** * The station-facing API (src/internal/http/api/station.go)

    What an imaging station may ask: its discovery report, its jobs, the claim
    that hands out credentials, and the status of a job, which may carry a
    recovery key to seal and a host key to record.  The state, the environment
    and the replies are those of DevicePlane. *)

From S2P Require Import Prelude GoLib FleetModel Groups Filters Resolve Mutate DeviceOps Classes Document ConfigTx Text Sql Stations Imaging Notify Observed ImageJobs Tokens Credentials Elevation Forge DeviceSecrets HostKeys Api DevicePlane.

Definition LUKSRecoveryPrefix : string := "luks-recovery-key: ".

(** The decoded body of a job status; [progress] is a pointer. *)
Record jobStatusBody := mkJobStatusBody {
  js_Status : JobStatus; js_Message : string; js_Progress : option Z; js_Step : string; js_HostKey : string
}.

Inductive StationRoute :=
  | PostReport (tag : string) (b : option (list Discovered))
  | GetJobs (tag : string)
  | PostClaim (tag : string)
  | PostJobStatus (tag mac : string) (b : option jobStatusBody).

Section station.
  Context {W : Type} `{ConfigRepo W, GoJson, Fingerprint, FleetJson, OverlayParsers}.
  Context `{sha : Sha256, sl : Sealer}.
  Context (IDKey : string → string → string) (env : PlaneEnv W).

Notation M A := (SE (Plane W) DReply A).

Definition on_jobs {A} (k : JobErr → DReply) (m : SE (Pg JobTable) JobErr A) : M A := λ s,
    let '(r, t) := m (pl_jobs s) in (lift_err k r, s <| pl_jobs := t |>).
Definition on_discovered {A} (k : StationErr → DReply) (m : SE (Pg DiscTable) StationErr A) : M A := λ s,
    let '(r, t) := m (pl_disc s) in (lift_err k r, s <| pl_disc := t |>).

(** ** Who speaks *)

(** [authorized]: as for a device, with the credentials of stations. *)
Definition lets_in_station (secret station : string) (s : Plane W) : bool * Plane W :=
    let now := pe_now env in
    let '(ok, t) := authorized IDKey Tokens.Station (pe_stations env) (pe_shared env) secret station now (pl_tokens s) in
    let own := pe_stations env && (AuthenticateTag IDKey Tokens.Station secret station now (pl_tokens s)).1 in
    let s := s <| pl_tokens := t |> in
    (ok, if ok && negb own then s <| pl_station_bridge ::= warn station now |> else s).

(** [authStation], which the report spells out for itself. *)
Definition authStation (secret station : string) : M unit := λ s,
    if negb (pe_stations env) && (pe_shared env ==? "") then (Err (deny 403 "station endpoints disabled"), s)
    else if station ==? "" then (Err (deny 400 "station tag required"), s)
    else let '(ok, s) := lets_in_station secret station s in
         (if ok then Ok tt else Err (deny 401 "unauthorized"), s).

(** ** Reports and jobs *)

Definition handleReport (secret station : string) (b : option (list Discovered)) : M DReply :=
    run! authStation secret station;
    match b with
    | None => se_err (deny 400 "bad report body")
    | Some ds =>
        run! on_discovered (λ _, deny 400 "report refused") (Report station ds (pe_now env));
        se_ret (no_content false)
    end.

Definition need_imaging : M unit :=
    if pe_imaging env then se_ret tt else se_err (deny 503 "imaging execution not configured").

(** [ImagingService.Pending]. *)
Definition PendingJobs (station : string) : M (list Job) :=
    on_jobs (λ _, deny 500 "internal error") (db_step JobDb (ListPending station)).

Definition view (j : Job) : jobView :=
    mkJobView (job_MAC j) (job_Tag j) (job_Hardware j) (job_Status j) (job_Rev j) "".

Definition handleJobs (secret station : string) : M DReply :=
    run! authStation secret station;
    run! need_imaging;
    do! jobs <- PendingJobs station;
    se_ret (mkDReply 200 (JobList (map view jobs)) false).

(** ** The claim *)

Definition claimed_view (j : Job) (credential : string) : jobView :=
    mkJobView (job_MAC j) (job_Tag j) (job_Hardware j) Imaging (job_Rev j) credential.

(** One job of the loop: a credential that cannot be minted withholds the job, a
    status that cannot be written does not. *)
Definition claim_job (station : string) (j : Job) (s : Plane W) : option jobView * Plane W :=
    let '(cred, s) :=
      if pe_issuer env
      then let '(r, t) := IssueCredential IDKey (pe_raw env (job_MAC j)) (pe_salt env) Device (job_Tag j) (pe_now env) (pl_tokens s) in
           (match r with Ok x => Some x | Err _ => None end, s <| pl_tokens := t |>)
      else (Some "", s) in
    match cred with
    | None => (None, s)
    | Some x =>
        (Some (claimed_view j x),
         if job_Status j ==? Pending
         then s <| pl_jobs := (ReportJob station (job_MAC j) Imaging "" (pe_now env) (pl_jobs s)).2 |> else s)
    end.

Fixpoint claim_jobs (station : string) (jobs : list Job) (s : Plane W) : list jobView * Plane W :=
    match jobs with
    | [] => ([], s)
    | j :: jobs =>
        let '(v, s) := claim_job station j s in
        let '(vs, s) := claim_jobs station jobs s in
        (match v with Some v => v :: vs | None => vs end, s)
    end.

Definition handleClaim (secret station : string) : M DReply :=
    run! authStation secret station;
    run! need_imaging;
    do! jobs <- PendingJobs station;
    λ s, let '(vs, s) := claim_jobs station jobs s in (Ok (mkDReply 200 (JobList vs) false), s).

(** ** The status of a job *)

(** [ImagingService.Get]: the tag of a job, or nothing when there is none or the
    table cannot be read. *)
Definition job_tag (station mac : string) (s : Plane W) : option string * Plane W :=
    let '(r, t) := GetJobRow station (NormalizeMAC mac) (pl_jobs s) in
    (match r with Ok (Some j) => Some (job_Tag j) | _ => None end, s <| pl_jobs := t |>).

Definition sealLUKS (station mac key : string) (s : Plane W) : bool * Plane W :=
    if negb (pe_secrets env && sealer_enabled) then (false, s) else
    match job_tag station mac s with
    | (None, s) => (false, s)
    | (Some tag, s) =>
        let '(r, t) := StoreSecret (pe_nonce env) tag LUKS key ("station:" +:+ station) (pe_now env) (pl_secrets s) in
        (match r with Ok _ => true | Err _ => false end, s <| pl_secrets := t |>)
    end.

Definition station_author (station : string) : Author := mkAuthor ("station:" +:+ station) "sextant-station" "station@sextant".

Definition recordHostKey (station mac key : string) (s : Plane W) : bool * Plane W :=
    if negb (pe_config env) then (false, s) else
    match job_tag station mac s with
    | (None, s) => (false, s)
    | (Some tag, s) =>
        let msg := "devices: record host key for " +:+ tag +:+ " (sha256:" +:+ HostKeyFingerprint key +:+ ")" in
        let '(r, c) := ApplyStructural (SetDeviceHostKey tag key true) msg (station_author station) (pl_cfg s) in
        (match r with Ok _ => true | Err _ => false end, s <| pl_cfg := c |>)
    end.

(** The host key a report carries, checked before anything moves. *)
Definition reported_key (b : jobStatusBody) : M string :=
    if js_HostKey b ==? "" then se_ret ""
    else if js_Status b !=? Installed then se_err (deny 400 "hostKey is only accepted with status installed")
    else match NormalizeHostKey (js_HostKey b) with
         | Err _ => se_err (deny 400 "bad hostKey")
         | Ok key => se_ret key
         end.

(** A step that has to succeed before the job may move. *)
Definition demand (st : Z) (text : string) (m : Plane W → bool * Plane W) : M unit := λ s,
    let '(ok, s) := m s in (if ok then Ok tt else Err (deny st text), s).

(** The transition of a report: what it seals, what it records, what it moves. *)
Definition job_transition (station mac hostKey : string) (b : jobStatusBody) : M unit :=
    if js_Status b ==? NoStatus then se_ret tt
    else if negb (ValidStatus (js_Status b)) then se_err (deny 400 "unknown status")
    else
      do! msg <- match cut_prefix (js_Message b) LUKSRecoveryPrefix with
                 | Some key => run! demand 503 "device-secret store unavailable" (sealLUKS station mac key); se_ret ""
                 | None => se_ret (js_Message b)
                 end;
      run! (if hostKey ==? "" then se_ret tt
            else demand 503 "host key not recorded" (recordHostKey station mac hostKey));
      on_jobs (λ _, deny 409 "status refused") (ReportJob station mac (js_Status b) msg (pe_now env)).

Definition job_progress (station mac : string) (b : jobStatusBody) : M unit :=
    match js_Progress b with
    | None => if js_Step b ==? "" then se_ret tt
              else on_jobs (λ _, deny 409 "progress refused") (ReportProgress station mac 0 (js_Step b) (pe_now env))
    | Some n => on_jobs (λ _, deny 409 "progress refused") (ReportProgress station mac n (js_Step b) (pe_now env))
    end.

Definition handleJobStatus (secret station mac : string) (b : option jobStatusBody) : M DReply :=
    run! authStation secret station;
    run! need_imaging;
    match b with
    | None => se_err (deny 400 "bad status body")
    | Some b =>
        do! hostKey <- reported_key b;
        run! job_transition station mac hostKey b;
        run! job_progress station mac b;
        if (js_Status b ==? NoStatus) && (js_Progress b ==? None) && (js_Step b ==? "")
        then se_err (deny 400 "status report needs a status or progress")
        else se_ret (no_content false)
    end.

Definition station_handler (secret : string) (r : StationRoute) : M DReply :=
    match r with
    | PostReport tag b => handleReport secret tag b
    | GetJobs tag => handleJobs secret tag
    | PostClaim tag => handleClaim secret tag
    | PostJobStatus tag mac b => handleJobStatus secret tag mac b
    end.

Definition serve_station (authorization : string) (r : StationRoute) : Plane W → DReply * Plane W :=
    reply_of (station_handler (bearerToken authorization) r).
End station.
