(* ===== verification/PlaneProofs.v ===== *)
(** * What a device can do

    A device's request touches that device's rows and no others, a wipe outcome
    enters its record only with a nonce the server signed in the last quarter of
    an hour, and a recovery key is confirmed only when it can be opened again. *)

From S2P Require Import Prelude GoLib FleetModel Groups Filters Resolve Mutate DeviceOps Classes Document ConfigTx Text Sql Stations Imaging Notify Observed ImageJobs Tokens Credentials Elevation Forge DeviceSecrets HostKeys Api DevicePlane StationApi.

(** ** Frames *)

(** Everything but the tokens (their last use) and the warnings is as it was. *)
Record same_plane `{OverlayParsers} {W} (s s' : Plane W) : Prop := {
  sp_cfg : pl_cfg s' = pl_cfg s; sp_inv : pl_inv s' = pl_inv s; sp_jobs : pl_jobs s' = pl_jobs s;
  sp_secrets : pl_secrets s' = pl_secrets s; sp_bundles : pl_bundles s' = pl_bundles s;
  sp_el : pl_el s' = pl_el s; sp_disc : pl_disc s' = pl_disc s
}.

#[export] Instance same_plane_preorder `{OverlayParsers} {W} : PreOrder (same_plane (W := W)).
Proof.
  split; [by split|]. intros a b c [] []. split; congruence.
Qed.

(** The clauses of [owned] that a step leaves alone. *)
Ltac only_rows := split; try done; [intros ?Ht; split; [done|by left]|by left|..].

Section owned.
  Context {W : Type} `{ConfigRepo W, GoJson, Fingerprint, FleetJson, OverlayParsers}.

(** A mutation that marks one device - its state or its operator's intent - and
    touches nothing else of the document. *)
Definition marks_only (tag : string) (f f' : Fleet) : Prop :=
    ∃ d st it, Devices f !! tag = Some d ∧ f' = f <| Devices ::= <[tag := d <| State := st |> <| Intent := it |>]> |>.

(** A transaction in the agent's name whose mutation marks the device only. *)
Definition agent_edit (tag : string) (c c' : ConfigService W) : Prop :=
    ∃ gate mut msg hosts, (∀ f f', mut f = Ok f' → marks_only tag f f') ∧ c' = (Apply gate mut msg agent hosts c).2.

(** What the request under [id] may become: a pending one, which bears the
    trimmed tag when it is new and the tag it had when it is not. *)
Definition raised (tag : string) (old : option ElRow) (r : ElRow) : Prop :=
    er_tag r = match old with Some o => er_tag o | None => trim_space tag end ∧ approved r = None ∧ decided_at r = None.

(** Only rows of [tag] differ: status, facts, secrets, bundle, jobs; at most one
    pending elevation request under the fresh id [id]; and of the document at
    most the marks of that device. *)
Record owned (tag id : string) (s s' : Plane W) : Prop := {
  ow_status : ∀ t, t ≠ tag → tables (inv_status (pl_inv s')) !! t = tables (inv_status (pl_inv s)) !! t;
  ow_facts : ∀ t, t ≠ tag → tables (inv_facts (pl_inv s')) !! t = tables (inv_facts (pl_inv s)) !! t;
  ow_secrets : ∀ t k, t ≠ tag → tables (pl_secrets s') !! (t, k) = tables (pl_secrets s) !! (t, k);
  ow_bundles : ∀ t, t ≠ tag → tables (pl_bundles s') !! t = tables (pl_bundles s) !! t;
  ow_jobs : table_ok (tables (pl_jobs s)) → table_ok (tables (pl_jobs s')) ∧
    ∀ k, tables (pl_jobs s') !! k = tables (pl_jobs s) !! k ∨
      ∃ r r', tables (pl_jobs s) !! k = Some r ∧ tables (pl_jobs s') !! k = Some r' ∧
              job_Tag (row_job r) = tag ∧ job_Tag (row_job r') = tag ∧
              job_Message (row_job r') ∈ [""; sb_failed_text; tpm2_failed_text];
  ow_el : ∀ i, tables (el_db (pl_el s')) !! i = tables (el_db (pl_el s)) !! i ∨
    (i = id ∧ ∃ r, tables (el_db (pl_el s')) !! i = Some r ∧ raised tag (tables (el_db (pl_el s)) !! i) r);
  ow_cfg : rtc (agent_edit tag) (pl_cfg s) (pl_cfg s');
  ow_disc : pl_disc s' = pl_disc s
}.

#[export] Instance owned_preorder tag id : PreOrder (owned tag id).
Proof using Type.
  split.
  - intros s. only_rows.
  - intros a b c [] []. split; intros.
    + by rewrite ow_status1, ow_status0.
    + by rewrite ow_facts1, ow_facts0.
    + by rewrite ow_secrets1, ow_secrets0.
    + by rewrite ow_bundles1, ow_bundles0.
    + destruct ow_jobs0 as [Hb Hab]; [done|]. destruct ow_jobs1 as [Hc Hbc]; [done|]. split; [done|]. intros k.
      destruct (Hab k) as [E1|(r & r' & E1 & E2 & T1 & T2 & M1)], (Hbc k) as [E3|(x & x' & E3 & E4 & T3 & T4 & M2)].
      * left. congruence.
      * right. exists x, x'. split_and!; try congruence.
      * right. exists r, r'. split_and!; try congruence.
      * right. exists r, x'. split_and!; try congruence.
    + destruct (ow_el1 i) as [-> |(-> & r & Hr & Ht & Hd)]; [apply ow_el0|]. right. split; [done|]. exists r. split; [done|].
      split; [|done]. destruct (ow_el0 id) as [<-|(_ & r0 & Hr0 & Ht0 & _)]; [done|]. rewrite Hr0 in Ht. congruence.
    + by etrans.
    + congruence.
Qed.

Lemma same_plane_owned tag id (s s' : Plane W) : same_plane s s' → owned tag id s s'.
Proof using Type.
  intros [Hcfg Hinv Hjobs Hsec Hbun Hel Hdisc]. split; rewrite ?Hcfg, ?Hinv, ?Hjobs, ?Hsec, ?Hbun, ?Hel; try done; [intros Ht; split; [done|by left]|by left].
Qed.

Lemma marks_activate tag f f' : ActivateProvisional tag f = Ok f' → marks_only tag f f'.
Proof using Type.
  unfold ActivateProvisional, setDeviceState. destruct (Devices f !! tag) as [d|] eqn:Hd; [|done].
  destruct (_ !=? _); [done|]. intros [= <-]. exists d, DeviceActive, (Intent d). split; [done|]. by destruct d.
Qed.
Lemma marks_clear tag f f' : ClearDeviceIntent tag f = Ok f' → marks_only tag f f'.
Proof using Type.
  unfold ClearDeviceIntent. destruct (Devices f !! tag) as [d|] eqn:Hd; [|done].
  intros [= <-]. exists d, (State d), IntentNone. split; [done|]. by destruct d.
Qed.
End owned.

Section device.
  Context {W : Type} `{ConfigRepo W, GoJson, Fingerprint, FleetJson, OverlayParsers}.
  Context `{hm : HmacSha256, sl : Sealer}.
  Context (IDKey : string → string → string) (env : PlaneEnv W).

Notation admitted secret tag s :=
    ((authorized IDKey Device (pe_devs env) (pe_shared env) secret tag (pe_now env) (pl_tokens s)).1 = true).

(** ** Who speaks *)

Lemma speaks_for_inv secret tag (s : Plane W) r s' :
    speaks_for IDKey env secret tag s = (r, s') →
    same_plane s s' ∧ (r = Ok tt → secret ≠ "" ∧ admitted secret tag s ∧ retired s tag = false).
Proof.
    unfold speaks_for, lets_in. destruct (secret ==? "") eqn:Hs; [by intros [= <- <-]|].
    apply bool_decide_eq_false in Hs.
    destruct (authorized _ _ _ _ _ _ _ _) as [ok t] eqn:Ha. simpl.
    set (s1 := if ok && _ then _ else _).
    assert (Hsame : same_plane s s1) by (subst s1; by destruct (ok && _)).
    assert (Hret : retired s1 tag = retired s tag).
    { unfold retired, pl_fleet. by rewrite (sp_cfg _ _ Hsame). }
    destruct ok; simpl; [|by intros [= <- <-]]. rewrite Hret.
    destruct (retired s tag) eqn:Hr; intros [= <- <-]; by split.
Qed.

(** ** The parts of a handler *)

Lemma RecordCheckIn_owned c facts now ie i r i' :
    RecordCheckIn ie c facts now i = (r, i') →
    (∀ t, t ≠ c_Tag c → tables (inv_status i') !! t = tables (inv_status i) !! t) ∧
    (∀ t, t ≠ c_Tag c → tables (inv_facts i') !! t = tables (inv_facts i) !! t) ∧
    (tables (inv_status i') = tables (inv_status i) ∨
     tables (inv_status i') = <[c_Tag c := upsert_row (tables (inv_status i) !! c_Tag c) c now]> (tables (inv_status i))).
Proof.
    unfold RecordCheckIn. destruct (ValidateCheckIn c); [intros [= _ <-]; auto|].
    destruct (check_facts ie facts); [intros [= _ <-]; auto|].
    assert (Hup : ∀ r0 i1, Observed.on_status (UpsertStatus c now) i = (r0, i1) →
      inv_facts i1 = inv_facts i ∧ (tables (inv_status i1) = tables (inv_status i) ∨
      tables (inv_status i1) = <[c_Tag c := upsert_row (tables (inv_status i) !! c_Tag c) c now]> (tables (inv_status i)))).
    { intros r0 i1. unfold Observed.on_status. destruct (UpsertStatus c now (inv_status i)) as [r1 t] eqn:E. intros [= _ <-].
      split; [done|]. simpl. unfold UpsertStatus in E. destruct r1 as [b|e].
      - apply statement_Ok in E. unfold upsert_over in E. right. congruence.
      - apply statement_Err in E. by left. }
    intros [(ch & i1 & E1 & E2)|(e & E1 & _)]%se_bind_inv; apply Hup in E1 as [Hf Hs].
    - assert (Hafter : inv_status i' = inv_status i1 ∧ ∀ t, t ≠ c_Tag c → tables (inv_facts i') !! t = tables (inv_facts i1) !! t).
      { unfold after_upsert in E2. rewrite se_modify_bind in E2.
        apply se_bind_inv in E2 as [(u & i2 & E3 & E4)|(e & E3 & _)].
        - assert (Hi2 : inv_status i2 = inv_status i1 ∧ inv_facts i2 = inv_facts i1).
          { destruct (inv_notify ie) as [ne|]; [|by injection E3 as _ <-].
            destruct (ch && isWipeAck (c_Ack c)); by injection E3 as _ <-. }
          destruct Hi2 as [Hi2 Hi2']. destruct (0 <? len facts); [|injection E4 as _ <-; rewrite Hi2, Hi2'; by split].
          unfold Observed.on_facts in E4. destruct (PutFacts (c_Tag c) facts now (inv_facts i2)) as [r1 t] eqn:Ep.
          injection E4 as _ <-. simpl. split; [done|]. intros t' Ht'. unfold PutFacts in Ep. apply exec_tables in Ep.
          rewrite Ep. destruct r1; [by rewrite lookup_insert_ne, Hi2'|by rewrite Hi2'].
        - destruct (inv_notify ie) as [ne|]; [destruct (ch && isWipeAck (c_Ack c)); discriminate E3|discriminate E3]. }
      destruct Hafter as [Ha1 Ha2]. rewrite Ha1. split_and!; [|intros t Ht; rewrite Ha2 by done; by rewrite Hf|done].
      intros t Ht. destruct Hs as [-> | ->]; [done|by rewrite lookup_insert_ne].
    - rewrite Hf. split_and!; [|done|done]. intros t Ht. destruct Hs as [-> | ->]; [done|by rewrite lookup_insert_ne].
Qed.

Lemma try_config_same m (s : Plane W) :
    pl_inv (try_config m s) = pl_inv s ∧ pl_jobs (try_config m s) = pl_jobs s ∧
    pl_secrets (try_config m s) = pl_secrets s ∧ pl_bundles (try_config m s) = pl_bundles s ∧
    pl_el (try_config m s) = pl_el s ∧ pl_disc (try_config m s) = pl_disc s.
Proof. done. Qed.

Lemma try_config_owned gate mut msg hosts tag id (s : Plane W) :
    (∀ f f', mut f = Ok f' → marks_only tag f f') → owned tag id s (try_config (Apply gate mut msg agent hosts) s).
Proof.
    intros Hm. only_rows. apply rtc_once. by exists gate, mut, msg, hosts.
Qed.

Lemma promote_owned tag id (s : Plane W) : owned tag id s (promote env tag s).
Proof.
    unfold promote. destruct (Devices (pl_fleet s) !! tag) as [d|]; [|done].
    destruct (Provisional d); [apply try_config_owned, marks_activate|done].
Qed.

Lemma promote_inv tag (s : Plane W) : pl_inv (promote env tag s) = pl_inv s.
Proof. unfold promote. destruct (Devices (pl_fleet s) !! tag) as [d|]; [|done]. by destruct (Provisional d). Qed.

Lemma record_checkin_owned c facts id : respects (owned (c_Tag c) id) (record_checkin (W := W) env c facts).
Proof.
    intros s r s'. unfold record_checkin, on_inventory.
    destruct (RecordCheckIn _ c facts _ (pl_inv s)) as [r0 i] eqn:E. intros [= _ <-].
    apply RecordCheckIn_owned in E as (Hs & Hf & _).
    assert (Ho : owned (c_Tag c) id s (s <| pl_inv := i |>)).
    { only_rows. }
    case_bool_decide; [done|]. etrans; [exact Ho|]. apply promote_owned.
Qed.

Lemma StoreSecret_at nonce tag k plain by_ now db r db' :
    StoreSecret nonce tag k plain by_ now db = (r, db') →
    tables db' = tables db ∨ ∃ row, tables db' = <[(tag, k) := row]> (tables db).
Proof.
    intros Hst%StoreSecret_inv. destruct r as [[]|]; [right|by left]. destruct Hst as (_ & _ & sealed & _ & ->). eauto.
Qed.

Lemma escrow_owned tag key id : respects (owned tag id) (escrow (W := W) env tag key).
Proof.
    intros s r s'. unfold escrow. destruct (key ==? ""); [by intros [= _ <-]|].
    destruct (maxRecoveryKey <? len key); [by intros [= _ <-]|]. destruct (negb _); [by intros [= _ <-]|].
    destruct (StoreSecret _ _ _ _ _ _ _) as [[[]|] t] eqn:E; intros [= _ <-]; apply StoreSecret_at in E;
      (split; try done; [|intros Ht; split; [done|by left]|by left]); intros t' k Ht'; simpl;
      (destruct E as [-> |[row ->]]; [done|]); rewrite lookup_insert_ne by congruence; done.
Qed.

Lemma Advance_texts current sb tpm2 ack wantSB wantTPM2 to message ok :
    Advance current sb tpm2 ack wantSB wantTPM2 = (to, message, ok) → message ∈ [""; sb_failed_text; tpm2_failed_text].
Proof.
    unfold Advance. destruct (ack ==? AckSBEnrollFailed); [intros [= _ <- _]; right; left|].
    destruct (ack ==? AckTPM2EnrollFailed); [intros [= _ <- _]; right; right; left|].
    destruct (_ && _); [intros [= _ <- _]; left|]. destruct (_ && _); [intros [= _ <- _]; left|].
    unfold advance_posture. intros Heq. assert (message = "") as ->; [|left].
    repeat case_match; congruence.
Qed.

(** The job a device moves is its own. *)
Lemma active_by_tag_at tag t j : table_ok t → active_by_tag tag t = Some j →
    ∃ r, t !! (job_Station j, job_MAC j) = Some r ∧ row_job r = j ∧ job_Tag j = tag.
Proof.
    unfold active_by_tag. intros Ht Hj.
    destruct (order_by_desc _ _) as [|r l] eqn:E; [done|]. simpl in Hj. injection Hj as <-.
    assert (Hr : r ∈ order_by_desc row_updated
      (rows_of (λ r, (job_Tag (row_job r) ==? tag) && negb (Terminal (job_Status (row_job r)))) t)) by (rewrite E; left).
    apply elem_of_order_by_desc in Hr. unfold rows_of in Hr.
    apply elem_of_keep_if in Hr as [Hr Hp]. apply andb_true_iff in Hp as [Htag%bool_decide_eq_true _].
    apply list_elem_of_fmap in Hr as ([k r'] & -> & Hk%elem_of_map_to_list). simpl in *.
    destruct (Ht k r' Hk) as (Hkey & _). exists r'. by rewrite Hkey.
Qed.

Lemma AdvanceFromDevice_owned c sb tpm2 now db r db' :
    table_ok (tables db) → AdvanceFromDevice c sb tpm2 now db = (r, db') →
    table_ok (tables db') ∧ ∀ k, tables db' !! k = tables db !! k ∨
      ∃ r r', tables db !! k = Some r ∧ tables db' !! k = Some r' ∧
              job_Tag (row_job r) = c_Tag c ∧ job_Tag (row_job r') = c_Tag c ∧
              ∃ to message, row_job r' = moved_job to message (row_job r) ∧
                Advance (job_Status (row_job r)) (c_SB c) (c_TPM2 c) (c_Ack c) sb tpm2 = (to, message, true).
Proof.
    intros Ht. unfold AdvanceFromDevice.
    intros [(o & db1 & E1 & E2)|(e & E1 & _)]%se_bind_inv; apply advance_read_spec in E1 as (Hdb & Hok & Ho);
      [|rewrite Hdb; split; [done|by left]].
    destruct o as [cas|]; [|injection E2 as _ <-; rewrite Hdb; split; [done|by left]].
    specialize (Hok cas eq_refl) as [Hcan Hmsg]. specialize (Ho _ eq_refl). symmetry in Ho.
    assert (E3 : ∃ r3, cas_write cas now db1 = (r3, db')).
    { apply se_bind_inv in E2 as [(a & s2 & E2 & E3)|(e & E2 & _)]; [injection E3 as _ <-|]; eauto. }
    destruct E3 as [r3 [-> | ->]%cas_write_spec]; rewrite Hdb; [split; [done|by left]|].
    split; [by apply transition_row_ok|]. intros k.
    destruct (active_by_tag (c_Tag c) (tables db)) as [j|] eqn:Ha; [|done]. simpl in Ho.
    apply active_by_tag_at in Ha as (row & Hrow & Hj & Htag); [|done].
    unfold device_move in Ho. destruct (Advance _ _ _ _ _ _) as [[to message] ok] eqn:Hadv.
    destruct (negb ok || _) eqn:Hn; [done|]. injection Ho as <-. simpl in *.
    apply orb_false_iff in Hn as [Hn _]. apply negb_false_iff in Hn as ->.
    unfold transition_row. rewrite Hrow, Hj. rewrite bool_decide_eq_true_2 by done. simpl.
    destruct (decide (k = (job_Station j, job_MAC j))) as [->|Hne]; [|left; by rewrite lookup_insert_ne].
    right. exists row, (mkJobRow (moved_job to message j) (row_created row) now). rewrite lookup_insert_eq.
    rewrite Hj. split_and!; try done. by exists to, message.
Qed.

Lemma clear_completed_owned c acks intent msg id (s : Plane W) : owned (c_Tag c) id s (clear_completed c acks intent msg s).
Proof.
    unfold clear_completed. destruct (_ && _); [|done].
    exact (try_config_owned passGate (ClearDeviceIntent (c_Tag c)) _ [] _ id s (marks_clear _)).
Qed.

Lemma provision_owned c id : respects (owned (c_Tag c) id) (provision (W := W) env c).
Proof.
    intros s r s'. unfold provision. set (s1 := clear_completed c [AckRebooted] _ _ s).
    set (s2 := clear_completed c _ _ _ s1). intros [= _ <-].
    assert (H12 : owned (c_Tag c) id s s2) by (etrans; eapply clear_completed_owned).
    destruct (pe_imaging env); [|done]. etrans; [exact H12|]. split; try done; [|by left]. simpl. intros Ht.
    destruct (AdvanceFromDevice _ _ _ _ _) as [r0 db'] eqn:E. simpl.
    apply AdvanceFromDevice_owned in E as [Hok Hk]; [|done]. split; [done|]. intros k.
    destruct (Hk k) as [?|(x & x' & ? & ? & ? & ? & to & message & Hm & Hadv)]; [by left|right].
    exists x, x'. split_and!; try done. rewrite Hm. by eapply Advance_texts.
Qed.

Lemma pending_intent_same tag : respects (owned tag (pe_id env)) (pending_intent (W := W) env tag).
Proof.
    intros s r s'. unfold pending_intent. destruct (_ !=? ""); [by intros [= _ <-]|].
    destruct (negb _); [by intros [= _ <-]|].
    destruct (WizardIntent tag (pl_jobs s)) as [it jobs] eqn:E. intros [= _ <-].
    assert (Hj : tables jobs = tables (pl_jobs s)).
    { unfold WizardIntent in E. destruct (GetActiveByTag tag (pl_jobs s)) as [r0 t] eqn:Eg.
      unfold GetActiveByTag in Eg. apply query_tables in Eg as [Hg _].
      destruct r0 as [[j|]|]; injection E as _ <-; exact Hg. }
    split; try done; [|by left]. simpl. rewrite Hj. intros Ht. split; [done|by left].
Qed.

Lemma guard_ack_tag b : c_Tag (guard_ack env b) = c_Tag (cb_CheckIn b).
Proof. unfold guard_ack. by destruct (_ && _). Qed.

Lemma PutBundle_owned nonce tag body now k id : respects (owned tag id) (on_bundles (W := W) k (PutBundle nonce tag body now)).
Proof.
    intros s r s'. unfold on_bundles. destruct (PutBundle _ _ _ _ _) as [r0 t] eqn:E. intros [= _ <-].
    assert (Hb : ∀ t', t' ≠ tag → tables t !! t' = tables (pl_bundles s) !! t').
    { intros t' Hne. unfold PutBundle in E. destruct (negb sealer_enabled); [by injection E as _ <-|].
      destruct (_ || _); [by injection E as _ <-|]. destruct (Seal nonce body); [|by injection E as _ <-].
      apply db_step_inv in E as (r1 & E & _). apply exec_tables in E. rewrite E.
      destruct r1; [by rewrite lookup_insert_ne|done]. }
    only_rows.
Qed.

(** What a write of a pending request leaves under an id. *)
Lemma put_pending rq (t : ElTable) i : el_State rq = ElPending →
    put_request rq t !! i = t !! i ∨
    (i = el_ID rq ∧ ∃ r, put_request rq t !! i = Some r ∧ approved r = None ∧ decided_at r = None ∧
       er_tag r = match t !! i with Some o => er_tag o | None => el_Tag rq end).
Proof.
    intros Hp. unfold put_request. destruct (decide (i = el_ID rq)) as [->|Hi].
    - right. split; [done|]. destruct (t !! el_ID rq) as [o|]; rewrite lookup_insert_eq; (eexists; split; [done|]); simpl; by rewrite Hp.
    - left. destruct (t !! el_ID rq); by rewrite lookup_insert_ne.
Qed.

Lemma Raise_owned tag user action reason k : respects (owned tag (pe_id env))
    (on_elevation (W := W) k (Raise (pe_el env) (pe_id env) tag user action reason (pe_now env))).
Proof.
    intros s r s'. unfold on_elevation. destruct (Raise _ _ _ _ _ _ _ _) as [r0 e] eqn:E. intros [= _ <-].
    split; try done; [intros Ht; split; [done|by left]|]. intros i. simpl.
    unfold Raise in E. set (rq := Elevation.mkRequest _ _ _ _ _ _ _ _ _) in E.
    destruct (ValidRequest rq); [injection E as _ <-; by left|].
    assert (Hput : ∀ r1 e1, on_db (PutRequest rq) (pl_el s) = (r1, e1) →
      tables (el_db e1) = tables (el_db (pl_el s)) ∨ tables (el_db e1) = put_request rq (tables (el_db (pl_el s)))).
    { intros r1 e1. unfold on_db. destruct (PutRequest rq (el_db (pl_el s))) as [r2 db] eqn:Ep. intros [= _ <-]. simpl.
      unfold PutRequest in Ep. apply exec_tables in Ep. destruct r2; [by right|by left]. }
    assert (He : tables (el_db e) = tables (el_db (pl_el s)) ∨ tables (el_db e) = put_request rq (tables (el_db (pl_el s)))).
    { apply se_bind_inv in E as [(u & e1 & E1 & E2)|(er & E1 & _)]; apply Hput in E1; [|done].
      rewrite se_modify_bind in E2. injection E2 as _ <-. exact E1. }
    destruct He as [-> | ->]; [by left|]. destruct (put_pending rq (tables (el_db (pl_el s))) i) as [?|(-> & x & Hx & Ha & Hd & Ht)]; [done|by left|].
    right. split; [done|]. exists x. by split_and!.
Qed.

Lemma Poll_owned tag id now k t i : respects (owned t i) (on_elevation (W := W) k (Poll tag id now)).
Proof.
    intros s r s'. unfold on_elevation. destruct (Poll tag id now (pl_el s)) as [r0 e] eqn:E. intros [= _ <-].
    assert (He : tables (el_db e) = tables (el_db (pl_el s))).
    { unfold Poll in E.
      assert (Hq : ∀ r1 e1, on_db (GetRequest id) (pl_el s) = (r1, e1) → tables (el_db e1) = tables (el_db (pl_el s))).
      { intros r1 e1. unfold on_db. destruct (GetRequest id (el_db (pl_el s))) as [r2 db] eqn:Ep. intros [= _ <-]. simpl.
        unfold GetRequest in Ep. by apply query_tables in Ep as [Ep _]. }
      apply se_bind_inv in E as [(o & e1 & E1 & E2)|(er & E1 & _)]; apply Hq in E1; [|done].
      destruct o as [rq|]; [|by injection E2 as _ <-]. destruct (_ !=? tag); by injection E2 as _ <-. }
    split; try done; [intros Ht; split; [done|by left]|]. intros j. simpl. rewrite He. by left.
Qed.
End device.

#[export] Hint Resolve record_checkin_owned escrow_owned provision_owned pending_intent_same PutBundle_owned Raise_owned Poll_owned : respects.

(** ** The properties *)

Section speaks.
  Context {W : Type} `{ConfigRepo W, GoJson, Fingerprint, FleetJson, OverlayParsers}.
  Context `{hm : HmacSha256, sl : Sealer}.
  Context (IDKey : string → string → string) (env : PlaneEnv W).

Definition route_tag (r : DeviceRoute) : string :=
    match r with
    | PostCheckin (Some b) => c_Tag (cb_CheckIn b)
    | PostCheckin None => ""
    | PostDiagnostics tag _ | PostElevation tag _ | GetElevation tag _ => tag
    end.

(** The caller proved that it speaks for [tag], and the tag is not parked. *)
Definition may_speak (secret tag : string) (s : Plane W) : Prop :=
    secret ≠ "" ∧ retired s tag = false ∧
    (authorized IDKey Device (pe_devs env) (pe_shared env) secret tag (pe_now env) (pl_tokens s)).1 = true.

Definition confined (secret tag : string) (s s' : Plane W) : Prop :=
    owned tag (pe_id env) s s' ∧ (same_plane s s' ∨ may_speak secret tag s).

Lemma confined_after {A} secret tag (k : unit → SE (Plane W) DReply A) s r s' :
    respects (owned tag (pe_id env)) (k tt) →
    se_bind (speaks_for IDKey env secret tag) k s = (r, s') → confined secret tag s s'.
Proof.
    intros Hk [([] & s1 & E1 & E2)|(e & E1 & ->)]%se_bind_inv; apply speaks_for_inv in E1 as [Hs Hok].
    - specialize (Hok eq_refl) as (Hsec & Ha & Hr). split; [|by right]. etrans; [by apply same_plane_owned|].
      by eapply Hk.
    - split; [by apply same_plane_owned|by left].
Qed.

Lemma confined_refl secret tag s : confined secret tag s s.
Proof. split; [done|by left]. Qed.

Lemma device_handler_confined secret r s res s' :
    device_handler IDKey env secret r s = (res, s') → confined secret (route_tag r) s s'.
Proof.
    destruct r as [[b|]|tag b|tag b|tag id]; simpl.
    - unfold handleCheckin. destruct (_ && _); [intros [= _ <-]; apply confined_refl|].
      destruct (_ ==? ""); [intros [= _ <-]; apply confined_refl|]. apply confined_after.
      rewrite <- (guard_ack_tag env b). respect.
    - unfold handleCheckin. destruct (_ && _); [intros [= _ <-]; apply confined_refl|].
      destruct (_ ==? ""); intros [= _ <-]; apply confined_refl.
    - unfold handleDiagnostics. apply confined_after. respect.
    - unfold handleElevationRaise. apply confined_after. respect.
    - unfold handleElevationPoll. apply confined_after. respect.
Qed.


(** ** The wipe *)

Lemma signed_since key tag ts now nonce :
    min_int64 ≤ ts ≤ max_int64 → 0 ≤ now ≤ max_int64 →
    verifyIntentNonce key tag fleetIntentWipe ts now nonce = true →
    nonce = signIntentNonce key tag fleetIntentWipe ts ∧ now - intentNonceWindow ≤ ts ≤ now.
Proof.
    intros Hts Hnow. unfold verifyIntentNonce. destruct (_ || (ts =? 0)); [done|]. simpl.
    destruct (_ || _) eqn:Hw; [done|]. intros Hn%bool_decide_eq_true. split; [done|].
    apply orb_false_iff in Hw as [Hlo%Z.ltb_ge Hhi%Z.ltb_ge].
    unfold wrap64, intentNonceWindow, min_int64, max_int64 in *.
    pose proof (Z.div_mod (now - ts + 9223372036854775808) 18446744073709551616 ltac:(lia)) as Hd.
    pose proof (Z.mod_pos_bound (now - ts + 9223372036854775808) 18446744073709551616 ltac:(lia)) as Hb.
    set (q := (now - ts + 9223372036854775808) / 18446744073709551616) in *.
    set (m := (now - ts + 9223372036854775808) mod 18446744073709551616) in *. nia.
Qed.

(** The acknowledgement a report leaves on the row of its device. *)
Lemma recorded_ack c now old : st_Ack (upsert_row old c now) = c_Ack c ∨
    (∃ row, old = Some row ∧ st_Ack (upsert_row old c now) = st_Ack row).
Proof.
    destruct old as [row|]; [|by left]. simpl. unfold keep_text. destruct (c_Ack c ==? ""); [right|left]; eauto.
Qed.

Lemma only_record_moves_status secret b s res s' :
    handleCheckin IDKey env secret (Some b) s = (res, s') →
    tables (inv_status (pl_inv s')) = tables (inv_status (pl_inv s)) ∨
    tables (inv_status (pl_inv s')) = <[c_Tag (cb_CheckIn b) := upsert_row (tables (inv_status (pl_inv s)) !! c_Tag (cb_CheckIn b))
       (guard_ack env b) (pe_now env)]> (tables (inv_status (pl_inv s))).
Proof.
    unfold handleCheckin. destruct (_ && _); [intros [= _ <-]; by left|].
    destruct (_ ==? ""); [intros [= _ <-]; by left|].
    intros [([] & s1 & E1 & E)|(e & E1 & _)]%se_bind_inv; apply speaks_for_inv in E1 as [Hsp _];
      rewrite <- (sp_inv _ _ Hsp); [|by left].
    assert (Hrest : ∀ r s2, record_checkin env (guard_ack env b) (cb_Facts b) s1 = (r, s2) →
      tables (inv_status (pl_inv s2)) = tables (inv_status (pl_inv s1)) ∨
      tables (inv_status (pl_inv s2)) = <[c_Tag (cb_CheckIn b) := upsert_row (tables (inv_status (pl_inv s1)) !! c_Tag (cb_CheckIn b))
        (guard_ack env b) (pe_now env)]> (tables (inv_status (pl_inv s1)))).
    { intros r s2. unfold record_checkin, on_inventory.
      destruct (RecordCheckIn _ _ _ _ (pl_inv s1)) as [r0 i] eqn:Er. intros [= _ <-].
      apply RecordCheckIn_owned in Er as (_ & _ & Hi). rewrite guard_ack_tag in Hi.
      case_bool_decide; [exact Hi|]. rewrite promote_inv. exact Hi. }
    assert (Hkeep : respects (λ a b : Plane W, pl_inv b = pl_inv a)
      (do! stored <- escrow env (c_Tag (cb_CheckIn b)) (cb_RecoveryKey b);
       run! provision env (guard_ack env b); do! action <- pending_intent env (c_Tag (cb_CheckIn b));
       se_ret (intent_reply env (c_Tag (cb_CheckIn b)) action stored))).
    { assert (PreOrder (λ a b : Plane W, pl_inv b = pl_inv a)) by (split; [done|intros ????? ; congruence]).
      apply respects_bind; [typeclasses eauto| |intros stored; apply respects_bind; [typeclasses eauto| |intros _;
        apply respects_bind; [typeclasses eauto| |intros action; by intros x ? ? [= _ <-]]]].
      - intros x r x'. unfold escrow. destruct (_ ==? ""); [by intros [= _ <-]|].
        destruct (_ <? _); [by intros [= _ <-]|]. destruct (negb _); [by intros [= _ <-]|].
        by destruct (StoreSecret _ _ _ _ _ _ _) as [[]]; intros [= _ <-].
      - intros x r x'. unfold provision. cbv zeta. intros [= _ <-]. destruct (pe_imaging env); simpl;
          unfold clear_completed; repeat (destruct (_ && _)); done.
      - intros x r x'. unfold pending_intent. destruct (_ !=? ""); [by intros [= _ <-]|].
        destruct (negb _); [by intros [= _ <-]|]. by destruct (WizardIntent _ _); intros [= _ <-]. }
    apply se_bind_inv in E as [([] & s2 & E2 & E)|(e & E2 & _)]; apply Hrest in E2; [|done].
    by rewrite (Hkeep _ _ _ E).
Qed.

(** C24: what a wipe outcome on record rests on.  If after a check-in the row of the
    device says that a wipe was executed, refused or failed, then it said so
    before, or this report echoed a nonce which is the server's signature over
    this very tag and the second it names, at most fifteen minutes ago and not in
    the future - or the server has no key, because no sealing key is configured:
    then the guard is off and the report was taken at its word. *)
Theorem wipe_outcome_vouched authorization b s reply s' row :
    0 ≤ Unix (pe_now env) ≤ max_int64 → min_int64 ≤ cb_AckTs b ≤ max_int64 →
    serve_device IDKey env authorization (PostCheckin (Some b)) s = (reply, s') →
    tables (inv_status (pl_inv s')) !! c_Tag (cb_CheckIn b) = Some row → isWipeAck (st_Ack row) = true →
    (∃ before, tables (inv_status (pl_inv s)) !! c_Tag (cb_CheckIn b) = Some before ∧ st_Ack before = st_Ack row) ∨
    (pe_key env ≠ "" ∧ cb_AckNonce b = signIntentNonce (pe_key env) (c_Tag (cb_CheckIn b)) fleetIntentWipe (cb_AckTs b) ∧
     Unix (pe_now env) - intentNonceWindow ≤ cb_AckTs b ≤ Unix (pe_now env)) ∨
    (pe_key env = "" ∧ st_Ack row = c_Ack (cb_CheckIn b)).
Proof.
    intros Hnow Hts Hserve Hrow Hwipe.
    assert (Hst : ∃ res, handleCheckin IDKey env (bearerToken authorization) (Some b) s = (res, s')).
    { revert Hserve. unfold serve_device, reply_of. simpl.
      destruct (handleCheckin _ _ _ _ s) as [[x|x] s1]; intros [= _ <-]; eauto. }
    destruct Hst as [res [Hsame|Hput]%only_record_moves_status]; [left; rewrite <- Hsame; eauto|].
    rewrite Hput, lookup_insert_eq in Hrow. injection Hrow as <-.
    destruct (recorded_ack (guard_ack env b) (pe_now env) (tables (inv_status (pl_inv s)) !! c_Tag (cb_CheckIn b)))
      as [Hack|(old & Hold & Hack)]; [|left; eauto].
    right. rewrite Hack in *. unfold guard_ack in *.
    destruct (decide (pe_key env = "")) as [Hk|Hk]; [right; by rewrite Hk|left]. split; [done|].
    assert (Hl : (0 <? len (pe_key env)) = true) by (unfold len; destruct (pe_key env); [done|apply Z.ltb_lt; simpl; lia]).
    rewrite Hl in Hwipe. simpl in Hwipe.
    destruct (isWipeAck (c_Ack (cb_CheckIn b))) eqn:Hw; simpl in Hwipe; [|congruence].
    destruct (verifyIntentNonce _ _ _ _ _ _) eqn:Hv; simpl in Hwipe; [|done].
    by apply signed_since.
Qed.

(** ** The recovery key *)

Lemma escrow_stored `{!SealerLaws sl} tag key s s' :
    escrow env tag key s = (Ok true, s') →
    ∃ row, tables (pl_secrets s') !! (tag, LUKS) = Some row ∧ Open (sr_cipher row) = Some key ∧
           sr_createdBy row = "device:" +:+ tag.
Proof.
    unfold escrow. destruct (key ==? ""); [done|]. destruct (maxRecoveryKey <? len key); [done|].
    destruct (negb _); [done|]. destruct (StoreSecret _ _ _ _ _ _ _) as [[[]|] t] eqn:E; [|done].
    intros [= <-]. simpl. apply StoreSecret_inv in E as (_ & _ & sealed & Hs & ->). rewrite lookup_insert_eq.
    eexists. split; [done|]. split; [by eapply open_seal|done].
Qed.

Lemma deny_not_stored secret b s e s' :
    handleCheckin IDKey env secret (Some b) s = (Err e, s') → rp_stored e = false.
Proof.
    unfold handleCheckin. destruct (_ && _); [by intros [= <- _]|]. destruct (_ ==? ""); [by intros [= <- _]|].
    intros [([] & s1 & E1 & E)|(x & E1 & [= ->])]%se_bind_inv.
    - apply se_bind_inv in E as [([] & s2 & E2 & E)|(x & E2 & [= ->])].
      + apply se_bind_inv in E as [(st & s3 & E3 & E)|(x & E3 & [= ->])].
        * apply se_bind_inv in E as [([] & s4 & E4 & E)|(x & E4 & [= ->])]; [|discriminate E4].
          apply se_bind_inv in E as [(a & s5 & E5 & E)|(x & E5 & [= ->])]; [discriminate E|].
          revert E5. unfold pending_intent. destruct (_ !=? ""); [done|]. destruct (negb _); [done|].
          by destruct (WizardIntent _ _).
        * revert E3. unfold escrow. destruct (_ ==? ""); [done|]. destruct (_ <? _); [by intros [= <- _]|].
          destruct (negb _); [done|]. by destruct (StoreSecret _ _ _ _ _ _ _) as [[]].
      + revert E2. unfold record_checkin, on_inventory. destruct (RecordCheckIn _ _ _ _ _) as [[u|o] i]; simpl; by intros [= <- _].
    - revert E1. unfold speaks_for. destruct (secret ==? ""); [by intros [= <- _]|].
      destruct (lets_in _ _ _ _ _) as [[] s2]; simpl; [|by intros [= <- _]]. by destruct (retired s2 _); intros [= <- _].
Qed.

(** A device may delete its recovery key when it is told so.  A check-in
    answered with the header [X-Recovery-Key-Stored] leaves, under the tag of the
    device, a sealed secret that opens to exactly the key the device reported. *)
Theorem recovery_key_confirmed `{!SealerLaws sl} authorization b s reply s' :
    serve_device IDKey env authorization (PostCheckin (Some b)) s = (reply, s') → rp_stored reply = true →
    ∃ row, tables (pl_secrets s') !! (c_Tag (cb_CheckIn b), LUKS) = Some row ∧
           Open (sr_cipher row) = Some (cb_RecoveryKey b) ∧ sr_createdBy row = "device:" +:+ c_Tag (cb_CheckIn b).
Proof.
    unfold serve_device, reply_of. simpl.
    destruct (handleCheckin _ _ _ _ s) as [[x|x] s0] eqn:E; intros [= <- <-]; intros Hst;
      [|by rewrite (deny_not_stored _ _ _ _ _ E) in Hst].
    revert E. unfold handleCheckin. destruct (_ && _); [done|]. destruct (_ ==? ""); [done|].
    intros [([] & s1 & _ & E)|(? & _ & [=])]%se_bind_inv.
    apply se_bind_inv in E as [([] & s2 & _ & E)|(? & _ & [=])].
    apply se_bind_inv in E as [(st & s3 & E3 & E)|(? & _ & [=])].
    apply se_bind_inv in E as [([] & s4 & E4 & E)|(? & _ & [=])].
    apply se_bind_inv in E as [(a & s5 & E5 & E)|(? & _ & [=])]. injection E as <- <-.
    assert (st = true) as -> by (revert Hst; unfold intent_reply, no_content; by destruct (a ==? "")).
    apply escrow_stored in E3 as (row & Hrow & Ho & Hby). exists row. split; [|done].
    assert (Hs5 : pl_secrets s5 = pl_secrets s4).
    { revert E5. unfold pending_intent. destruct (_ !=? ""); [by intros [= _ <-]|].
      destruct (negb _); [by intros [= _ <-]|]. by destruct (WizardIntent _ _); intros [= _ <-]. }
    assert (Hs4 : pl_secrets s4 = pl_secrets s3).
    { revert E4. unfold provision. cbv zeta. intros [= <-]. destruct (pe_imaging env); simpl;
        unfold clear_completed; repeat (destruct (_ && _)); done. }
    by rewrite Hs5, Hs4.
Qed.
End speaks.
