(* ===== verification/StationProofs.v ===== *)
(** * What a station can do

    No recovery key comes to rest in the message of a job, whatever devices and
    stations send; and an install report that is accepted has sealed the key it
    carried, recorded the host key, and moved the job. *)

From S2P Require Import Prelude GoLib FleetModel Groups Filters Resolve Mutate DeviceOps Classes Document ConfigTx ConfigSafety ApiRoles Text Sql Stations Imaging Notify Observed ImageJobs Tokens Credentials Elevation Forge DeviceSecrets HostKeys Api DevicePlane StationApi PlaneProofs.

(** ** Job tables without plain recovery keys *)

Definition plain_key (message : string) : bool := has_prefix message LUKSRecoveryPrefix.

Definition no_plain_key (t : JobTable) : Prop := map_Forall (λ _ r, plain_key (job_Message (row_job r)) = false) t.

(** The tables a request may find and leave. *)
Definition jobs_ok (t : JobTable) : Prop := table_ok t ∧ no_plain_key t.
Definition jobs_kept `{OverlayParsers} {W} (s s' : Plane W) : Prop :=
  jobs_ok (tables (pl_jobs s)) → jobs_ok (tables (pl_jobs s')).

#[export] Instance jobs_kept_preorder `{OverlayParsers} {W} : PreOrder (jobs_kept (W := W)).
Proof. unfold jobs_kept. split; [by intros s|]. intros a b c ?? ?. auto. Qed.

Lemma jobs_kept_same `{OverlayParsers} {W} (s s' : Plane W) : tables (pl_jobs s') = tables (pl_jobs s) → jobs_kept s s'.
Proof. unfold jobs_kept. by intros ->. Qed.

Lemma plain_key_cut m : cut_prefix m LUKSRecoveryPrefix = None ↔ plain_key m = false.
Proof. unfold plain_key, has_prefix. by destruct (cut_prefix m LUKSRecoveryPrefix). Qed.

Lemma device_texts_plain m : m ∈ [""; sb_failed_text; tpm2_failed_text] → plain_key m = false.
Proof.
  intros Hm. assert (Hall : forallb (λ m, negb (plain_key m)) [""; sb_failed_text; tpm2_failed_text] = true)
    by (vm_compute; reflexivity).
  rewrite forallb_forall in Hall. apply negb_true_iff, Hall. by apply list_elem_of_In.
Qed.

Lemma transition_plain k from to message now t :
  no_plain_key t → plain_key message = false → no_plain_key (transition_row k from to message now t).2.
Proof.
  intros Ht Hm. unfold transition_row. destruct (t !! k) as [r|] eqn:Hk; [|done].
  case_bool_decide; [|done]. by apply map_Forall_insert_2.
Qed.

Lemma ReportJob_spec station mac to message now db r db' :
  ReportJob station mac to message now db = (r, db') →
  tables db' = tables db ∨
  ∃ j, tables db !! (station, NormalizeMAC mac) = Some j ∧ CanTransition (job_Status (row_job j)) to = true ∧
    tables db' = (transition_row (station, NormalizeMAC mac) (job_Status (row_job j)) to
      (if (to !=? Failed) && (to !=? Installed) then "" else message) now (tables db)).2.
Proof.
  unfold ReportJob.
  intros [(c & db1 & E1 & E2)|(e & E1 & _)]%se_bind_inv.
  - assert (Hw : ∃ r2, cas_write c now db1 = (r2, db')).
    { apply se_bind_inv in E2 as [(a & s2 & E2 & E3)|(e & E2 & _)]; [|eauto].
      destruct a; injection E3 as _ <-; eauto. }
    destruct Hw as [r2 Hw]. pose proof (report_read_spec _ _ _ _ _ _ _ E1) as [Hdb _].
    unfold report_read in E1. apply se_bind_inv in E1 as [(job & s1 & E1 & E3)|(e & _ & [=])].
    apply db_step_inv in E1 as (r0 & E1 & Hr0). unfold GetJobRow in E1. apply query_tables in E1 as [_ Hq].
    destruct r0 as [a|]; [|done]. injection Hr0 as ->. specialize (Hq a eq_refl).
    destruct a as [j|]; [|done]. destruct (CanTransition (job_Status j) to) eqn:Hc; [|done]. simpl in E3.
    injection E3 as <- <-. symmetry in Hq. apply fmap_Some in Hq as (row & Hrow & ->).
    apply cas_write_spec in Hw as [-> | ->]; rewrite Hdb; [by left|right]. simpl. by exists row.
  - apply report_read_spec in E1 as [-> _]. by left.
Qed.

Lemma ReportJob_ok station mac to message now db r db' :
  plain_key message = false → ReportJob station mac to message now db = (r, db') →
  jobs_ok (tables db) → jobs_ok (tables db').
Proof.
  intros Hm HR [Ht Hn]. apply ReportJob_spec in HR as [-> |(j & Hj & Hc & ->)]; [done|]. split.
  - apply transition_row_ok; [done|done|]. unfold message_ok.
    destruct (decide (to = Failed)) as [->|Hf]; [by auto|].
    destruct (decide (to = Installed)) as [->|Hi]; [by auto|].
    by rewrite !bool_decide_eq_false_2.
  - apply transition_plain; [done|]. by destruct (_ && _).
Qed.

Lemma ReportProgress_ok station mac n label now db r db' :
  ReportProgress station mac n label now db = (r, db') → jobs_ok (tables db) → jobs_ok (tables db').
Proof.
  unfold ReportProgress. intros (r0 & E & _)%db_step_inv [Ht Hn]. apply exec_tables in E. rewrite E.
  destruct r0; [|done]. split; [by apply update_progress_ok|]. unfold update_progress.
  destruct (tables db !! _) as [row|] eqn:Hk; [|done]. apply map_Forall_insert_2; [|done]. exact (Hn _ row Hk).
Qed.

Section station.
  Context {W : Type} `{ConfigRepo W, GoJson, Fingerprint, FleetJson, OverlayParsers}.
  Context `{hm : HmacSha256, sha : Sha256, sl : Sealer}.
  Context (IDKey : string → string → string).

Lemma owned_jobs_kept tag id (s s' : Plane W) : owned tag id s s' → jobs_kept s s'.
Proof.
    intros Ho [Ht Hn]. destruct (ow_jobs _ _ _ _ Ho Ht) as [Ht' Hk]. split; [done|].
    intros k r Hr. destruct (Hk k) as [E|(x & x' & _ & E & _ & _ & Hm)].
    - apply (Hn k). congruence.
    - rewrite E in Hr. injection Hr as <-. by apply device_texts_plain.
Qed.

Lemma authStation_jobs env secret station : respects (jobs_kept (W := W)) (authStation IDKey env secret station).
Proof.
    intros s r s'. unfold authStation, lets_in_station. destruct (_ && _); [by intros [= _ <-]|].
    destruct (station ==? ""); [by intros [= _ <-]|].
    destruct (authorized _ _ _ _ _ _ _ _) as [ok t]. cbv zeta. intros E. apply jobs_kept_same.
    by destruct ok, (pe_stations env && _); injection E as _ <-.
Qed.

Lemma on_jobs_kept {A} (k : JobErr → DReply) (m : SE (Pg JobTable) JobErr A) :
    (∀ db r db', m db = (r, db') → jobs_ok (tables db) → jobs_ok (tables db')) → respects (jobs_kept (W := W)) (on_jobs k m).
Proof.
    intros Hm s r s'. unfold on_jobs. destruct (m (pl_jobs s)) as [r0 t] eqn:E. intros [= _ <-] Hok. by eapply Hm.
Qed.

Lemma on_discovered_jobs {A} (k : StationErr → DReply) (m : SE (Pg DiscTable) StationErr A) : respects (jobs_kept (W := W)) (on_discovered k m).
Proof. intros s r s'. unfold on_discovered. destruct (m (pl_disc s)). intros [= _ <-]. by apply jobs_kept_same. Qed.

Lemma PendingJobs_kept station : respects (jobs_kept (W := W)) (PendingJobs station).
Proof.
    apply on_jobs_kept. intros db r db' (r0 & E & _)%db_step_inv. unfold ListPending in E.
    by apply query_tables in E as [-> _].
Qed.

Lemma claim_jobs_kept env station jobs (s : Plane W) : jobs_kept s (claim_jobs IDKey env station jobs s).2.
Proof.
    revert s. induction jobs as [|j jobs IH]; intros s; simpl; [done|].
    destruct (claim_job IDKey env station j s) as [v s1] eqn:E. specialize (IH s1).
    destruct (claim_jobs IDKey env station jobs s1) as [vs s2]. simpl in *. etrans; [|exact IH].
    unfold claim_job in E.
    assert (Hrep : ∀ s0 : Plane W, pl_jobs s0 = (ReportJob station (job_MAC j) Imaging "" (pe_now env) (pl_jobs s)).2 → jobs_kept s s0).
    { intros s0 Hs0 Hok. rewrite Hs0. destruct (ReportJob _ _ _ _ _ _) as [r db] eqn:Er.
      exact (ReportJob_ok _ _ _ "" _ _ _ _ eq_refl Er Hok). }
    destruct (pe_issuer env).
    - destruct (IssueCredential _ _ _ _ _ _ _) as [[x|e] t]; [|injection E as _ <-; by apply jobs_kept_same].
      destruct (job_Status j ==? Pending); injection E as _ <-; [by apply Hrep|by apply jobs_kept_same].
    - destruct (job_Status j ==? Pending); injection E as _ <-; [by apply Hrep|done].
Qed.

Lemma job_tag_same station mac (s : Plane W) : tables (pl_jobs (job_tag station mac s).2) = tables (pl_jobs s).
Proof.
    unfold job_tag. destruct (GetJobRow _ _ _) as [r t] eqn:E. simpl. unfold GetJobRow in E. by apply query_tables in E as [-> _].
Qed.

Lemma sealLUKS_jobs env station mac key (s : Plane W) : tables (pl_jobs (sealLUKS env station mac key s).2) = tables (pl_jobs s).
Proof.
    unfold sealLUKS. destruct (negb _); [done|]. pose proof (job_tag_same station mac s) as Hs.
    destruct (job_tag station mac s) as [[tag|] s1]; [|done]. by destruct (StoreSecret _ _ _ _ _ _ _).
Qed.

Lemma recordHostKey_jobs env station mac key (s : Plane W) : tables (pl_jobs (recordHostKey env station mac key s).2) = tables (pl_jobs s).
Proof.
    unfold recordHostKey. destruct (negb _); [done|]. pose proof (job_tag_same station mac s) as Hs.
    destruct (job_tag station mac s) as [[tag|] s1]; [|done]. by destruct (ApplyStructural _ _ _ _).
Qed.

Lemma demand_jobs st text (m : Plane W → bool * Plane W) :
    (∀ s, tables (pl_jobs (m s).2) = tables (pl_jobs s)) → respects jobs_kept (demand st text m).
Proof.
    intros Hm s r s'. unfold demand. specialize (Hm s). destruct (m s) as [ok s1]. intros [= _ <-]. by apply jobs_kept_same.
Qed.

Lemma job_transition_kept env station mac hostKey b : respects (jobs_kept (W := W)) (job_transition env station mac hostKey b).
Proof.
    unfold job_transition. destruct (_ ==? NoStatus); [apply respects_ret; typeclasses eauto|].
    destruct (negb _); [apply respects_err; typeclasses eauto|].
    intros s r s' [(msg & s1 & E1 & E)|(e & E1 & _)]%se_bind_inv.
    - assert (Hm : plain_key msg = false ∧ jobs_kept s s1).
      { destruct (cut_prefix _ _) as [key|] eqn:Hc.
        - apply se_bind_inv in E1 as [([] & s2 & E1 & E2)|(e & _ & [=])]. injection E2 as <- <-. split; [done|].
          eapply demand_jobs; [|exact E1]. intros ?. apply sealLUKS_jobs.
        - injection E1 as <- <-. split; [by apply plain_key_cut|done]. }
      destruct Hm as [Hm Hs1]. etrans; [exact Hs1|]. revert E. apply respects_bind; [typeclasses eauto| |intros _].
      + destruct (hostKey ==? ""); [apply respects_ret; typeclasses eauto|]. apply demand_jobs. intros ?. apply recordHostKey_jobs.
      + apply on_jobs_kept. intros db r1 db' Er. by eapply ReportJob_ok.
    - destruct (cut_prefix _ _) as [key|]; [|discriminate E1].
      apply se_bind_inv in E1 as [([] & s2 & _ & [=])|(e' & E1 & _)].
      eapply demand_jobs; [|exact E1]. intros ?. apply sealLUKS_jobs.
Qed.

Lemma job_progress_kept env station mac b : respects (jobs_kept (W := W)) (job_progress env station mac b).
Proof.
    assert (Hp : ∀ n, respects (jobs_kept (W := W)) (on_jobs (λ _, deny 409 "progress refused") (ReportProgress station mac n (js_Step b) (pe_now env)))).
    { intros n. apply on_jobs_kept. intros *. apply ReportProgress_ok. }
    unfold job_progress. destruct (js_Progress b); [apply Hp|].
    destruct (_ ==? ""); [apply respects_ret; typeclasses eauto|apply Hp].
Qed.
End station.

#[export] Hint Resolve authStation_jobs on_discovered_jobs PendingJobs_kept job_transition_kept job_progress_kept : respects.

Section requests.
  Context {W : Type} `{ConfigRepo W, GoJson, Fingerprint, FleetJson, OverlayParsers}.
  Context `{hm : HmacSha256, sha : Sha256, sl : Sealer}.
  Context (IDKey : string → string → string).

Lemma station_handler_kept env secret r : respects (jobs_kept (W := W)) (station_handler IDKey env secret r).
Proof.
    destruct r as [tag b|tag|tag|tag mac b]; simpl.
    - unfold handleReport. respect.
    - unfold handleJobs, need_imaging. respect.
    - unfold handleClaim, need_imaging. respect.
      intros s r s'. pose proof (claim_jobs_kept IDKey env tag a1 s) as Hc.
      destruct (claim_jobs IDKey env tag a1 s) as [vs s1]. by intros [= _ <-].
    - unfold handleJobStatus, need_imaging, reported_key. respect.
Qed.

(** One request of a device or of a station, whatever is wired and drawn. *)
Inductive plane_step : Plane W → Plane W → Prop :=
  | device_request env authorization r s reply s' :
      serve_device IDKey env authorization r s = (reply, s') → plane_step s s'
  | station_request env authorization r s reply s' :
      serve_station IDKey env authorization r s = (reply, s') → plane_step s s'.

(** C25: a recovery key never rests in the clear in the message of a job.  From a
    well-typed job table without one, no sequence of requests of devices and
    stations - authorised or not, on any status, with any outages - leads to a
    job whose message begins with the recovery-key marker. *)
Theorem recovery_key_never_rests s s' : rtc plane_step s s' →
    table_ok (tables (pl_jobs s)) → no_plain_key (tables (pl_jobs s)) → no_plain_key (tables (pl_jobs s')).
Proof.
    intros Hsteps Ht Hn. assert (Hok : jobs_ok (tables (pl_jobs s))) by done. clear Ht Hn.
    induction Hsteps as [s|s s1 s2 Hstep _ IH]; [by apply Hok|]. apply IH.
    destruct Hstep as [env au r s reply s1 E|env au r s reply s1 E].
    - eapply owned_jobs_kept; [|exact Hok]. unfold serve_device, reply_of in E.
      destruct (device_handler _ _ _ _ s) as [[x|x] s0] eqn:Eh; injection E as _ <-;
        by apply device_handler_confined in Eh as [? _].
    - revert Hok. unfold serve_station, reply_of in E.
      destruct (station_handler _ _ _ _ s) as [[x|x] s0] eqn:Eh; injection E as _ <-; by eapply station_handler_kept.
Qed.
End requests.

(** ** What an accepted report has done *)

Lemma ReportJob_done station mac to message now db db' :
  ReportJob station mac to message now db = (Ok tt, db') →
  ∃ j, tables db !! (station, NormalizeMAC mac) = Some j ∧
    tables db' !! (station, NormalizeMAC mac) =
      Some (mkJobRow (moved_job to (if (to !=? Failed) && (to !=? Installed) then "" else message) (row_job j)) (row_created j) now).
Proof.
  unfold ReportJob. intros [(c & db1 & E1 & E2)|(e & _ & [=])]%se_bind_inv.
  apply se_bind_inv in E2 as [([] & s2 & E2 & [= <-])|(e & _ & [=])].
  pose proof (report_read_spec _ _ _ _ _ _ _ E1) as [Hdb _].
  unfold report_read in E1. apply se_bind_inv in E1 as [(job & s1 & E1 & E3)|(e & _ & [=])].
  apply db_step_inv in E1 as (r0 & E1 & Hr0). unfold GetJobRow in E1. apply query_tables in E1 as [_ Hq].
  destruct r0 as [a|]; [|done]. injection Hr0 as ->. specialize (Hq a eq_refl).
  destruct a as [j|]; [|done]. destruct (CanTransition (job_Status j) to) eqn:Hc; [|done]. simpl in E3.
  injection E3 as <- <-. symmetry in Hq. apply fmap_Some in Hq as (row & Hrow & ->).
  unfold cas_write in E2. apply db_step_inv in E2 as (r2 & E2 & Hr2). destruct r2 as [ap|]; [|done]. injection Hr2 as <-.
  apply statement_Ok in E2. rewrite Hdb in E2. unfold transition_row in E2. simpl in E2. rewrite Hrow in E2.
  rewrite bool_decide_eq_true_2 in E2 by done. injection E2 as <-. exists row. split; [done|]. by rewrite lookup_insert_eq.
Qed.

Section accepted.
  Context {W : Type} `{ConfigRepo W, GoJson, Fingerprint, FleetJson, OverlayParsers}.
  Context `{hm : HmacSha256, sha : Sha256, sl : Sealer, !SealerLaws sl}.
  Context (IDKey : string → string → string).

(** A structural write that succeeded: the served document is the mutation's. *)
Lemma applyOnce_Ok gate mut msg a hosts (c : ConfigService W) c' :
    applyOnce mut msg a hosts gate c = (Ok tt, c') → ∃ f0, mut f0 = Ok (cs_Fleet c').
Proof.
    unfold applyOnce. destruct (applyTx _ _ _ _ _ _) as [[f'|e] tx] eqn:E; [|done]. intros [= <-].
    apply applyTx_runs in E as (raw & f & _ & _ & Hm). by exists f.
Qed.

Lemma apply_retry_Ok n gate mut msg a hosts (c : ConfigService W) c' :
    apply_retry n mut msg a hosts gate c = (Ok tt, c') → ∃ f0, mut f0 = Ok (cs_Fleet c').
Proof.
    revert c. induction n as [|n IH]; intros c; cbn [apply_retry]; [done|].
    intros [([] & c1 & _ & E)|(e & _ & [=])]%se_bind_inv.
    apply se_bind_inv in E as [([] & c2 & _ & E)|(e & _ & [=])].
    apply se_bind_inv in E as [([] & c3 & E3 & E)|(e & _ & [=])]. apply applyOnce_Ok in E3.
    destruct (Push _) as [[[]|[|e]] w]; [by injection E as <-|by eapply IH|done].
Qed.

Lemma ApplyStructural_Ok mut msg a (c : ConfigService W) c' :
    ApplyStructural mut msg a c = (Ok tt, c') → ∃ f0, mut f0 = Ok (cs_Fleet c').
Proof. unfold ApplyStructural, applyWithGate. destruct HasRemote; [apply apply_retry_Ok|apply applyOnce_Ok]. Qed.

(** The tag of the job of a machine. *)
Definition tag_of_job (station mac : string) (s : Plane W) : option string :=
    job_Tag ∘ row_job <$> tables (pl_jobs s) !! (station, NormalizeMAC mac).

Lemma job_tag_Some station mac (s : Plane W) tag s' :
    job_tag station mac s = (Some tag, s') →
    tag_of_job station mac s = Some tag ∧ pl_secrets s' = pl_secrets s ∧ pl_cfg s' = pl_cfg s.
Proof.
    unfold job_tag, tag_of_job. destruct (GetJobRow _ _ _) as [r t] eqn:E. unfold GetJobRow in E.
    apply query_tables in E as [_ Hq]. destruct r as [[j|]|]; [|done..]. intros [= <- <-].
    specialize (Hq _ eq_refl). destruct (tables (pl_jobs s) !! _) as [row|] eqn:Hr; [|done]. injection Hq as ->.
    done.
Qed.

(** The key of the message is in the store, under the tag of the job. *)
Definition sealed_key (tag station key : string) (s : Plane W) : Prop :=
    ∃ row, tables (pl_secrets s) !! (tag, LUKS) = Some row ∧ Open (sr_cipher row) = Some key ∧
           sr_createdBy row = "station:" +:+ station.

Lemma sealLUKS_true env station mac key (s s' : Plane W) : sealLUKS env station mac key s = (true, s') →
    ∃ tag, tag_of_job station mac s = Some tag ∧ sealed_key tag station key s'.
Proof.
    unfold sealLUKS. destruct (negb _); [done|].
    destruct (job_tag station mac s) as [[tag|] s1] eqn:Ej; [|done]. apply job_tag_Some in Ej as (Ht & _).
    destruct (StoreSecret _ _ _ _ _ _ _) as [[[]|] t] eqn:E; [|done]. intros [= <-]. exists tag. split; [done|].
    apply StoreSecret_inv in E as (_ & _ & sealed & Hs & Hput). unfold sealed_key. simpl. rewrite Hput, lookup_insert_eq.
    eexists. split; [done|]. split; [by eapply open_seal|done].
Qed.

(** The host key is on the record of the device. *)
Definition recorded_key (tag key : string) (s : Plane W) : Prop :=
    ∃ d, Devices (pl_fleet s) !! tag = Some d ∧ HostKeyID (d_ITAM d) = key.

Lemma recordHostKey_true env station mac key (s s' : Plane W) :
    NormalizeHostKey key = Ok key → recordHostKey env station mac key s = (true, s') →
    (∃ tag, tag_of_job station mac s = Some tag ∧ recorded_key tag key s') ∧ pl_secrets s' = pl_secrets s.
Proof.
    unfold recordHostKey. intros Hn. destruct (negb _); [done|].
    destruct (job_tag station mac s) as [[tag|] s1] eqn:Ej; [|done]. apply job_tag_Some in Ej as (Ht & Hsec & _).
    destruct (ApplyStructural _ _ _ _) as [[[]|] c] eqn:E; [|done]. intros [= <-]. split; [|done].
    exists tag. split; [done|]. apply ApplyStructural_Ok in E as [f0 Hm].
    apply host_key_recorded in Hm as (d & k & _ & Hk & _ & _ & Hf & _). rewrite Hn in Hk. injection Hk as <-.
    unfold recorded_key, pl_fleet. simpl. rewrite Hf. simpl. rewrite lookup_insert_eq. by eexists.
Qed.

Lemma reported_key_Ok b (s : Plane W) key s' : reported_key b s = (Ok key, s') → s' = s ∧
    (js_HostKey b = "" ∧ key = "" ∨
     js_HostKey b ≠ "" ∧ NormalizeHostKey (js_HostKey b) = Ok key ∧ NormalizeHostKey key = Ok key ∧ key ≠ "").
Proof.
    unfold reported_key. destruct (js_HostKey b ==? "") eqn:He.
    - apply bool_decide_eq_true in He. intros [= <- <-]. auto.
    - apply bool_decide_eq_false in He. destruct (_ !=? Installed); [done|].
      destruct (NormalizeHostKey (js_HostKey b)) as [k|] eqn:Hk; [|done]. intros [= <- <-]. split; [done|]. right.
      pose proof (key_line_normal _ (NormalizeHostKey_line _ _ Hk)) as Hn. split_and!; try done.
      intros ->. by vm_compute in Hn.
Qed.

Lemma demand_Ok st text (m : Plane W → bool * Plane W) s u s' : demand st text m s = (Ok u, s') → m s = (true, s').
Proof. unfold demand. destruct (m s) as [[] s1]; by intros [= _ <-]. Qed.

(** An accepted install report has done what the next boot depends on.  When
    the handler accepts a report with a status, the job carries that status; a
    recovery key in the message is sealed under the tag of the job and opens to
    what the station sent; and a host key it carried is, in canonical form, the
    key on the record of that device in the served document. *)
Theorem install_report_lands env secret station mac b s reply s' :
    handleJobStatus IDKey env secret station mac (Some b) s = (Ok reply, s') → js_Status b ≠ NoStatus →
    ∃ tag row, tables (pl_jobs s') !! (station, NormalizeMAC mac) = Some row ∧ job_Tag (row_job row) = tag ∧
      job_Status (row_job row) = js_Status b ∧
      (∀ key, js_Message b = LUKSRecoveryPrefix +:+ key → sealed_key tag station key s') ∧
      (js_HostKey b ≠ "" → ∃ k, NormalizeHostKey (js_HostKey b) = Ok k ∧ recorded_key tag k s').
Proof.
    unfold handleJobStatus. intros E Hst.
    apply se_bind_inv in E as [(? & s1 & _ & E)|(? & _ & [=])].
    apply se_bind_inv in E as [(? & s2 & _ & E)|(? & _ & [=])].
    apply se_bind_inv in E as [(hk & s3 & E3 & E)|(? & _ & [=])]. apply reported_key_Ok in E3 as [-> Hhk].
    apply se_bind_inv in E as [([] & s4 & E4 & E)|(? & _ & [=])].
    apply se_bind_inv in E as [(? & s5 & E5 & E)|(? & _ & [=])].
    assert (s' = s5) as -> by (revert E; destruct (_ && _); [done|by intros [= _ <-]]). clear E.
    (* the transition *)
    revert E4. unfold job_transition. rewrite bool_decide_eq_false_2 by done. destruct (negb _); [done|].
    intros [(msg & s6 & E6 & E4)|(? & _ & [=])]%se_bind_inv.
    apply se_bind_inv in E4 as [([] & s7 & E7 & E4)|(? & _ & [=])].
    assert (Hseal : tables (pl_jobs s6) = tables (pl_jobs s2) ∧ ∀ key, js_Message b = LUKSRecoveryPrefix +:+ key →
      ∃ tag, tag_of_job station mac s2 = Some tag ∧ sealed_key tag station key s6).
    { destruct (cut_prefix (js_Message b) LUKSRecoveryPrefix) as [key0|] eqn:Hc.
      - apply se_bind_inv in E6 as [([] & s8 & E6 & [= _ <-])|(? & _ & [=])]. apply demand_Ok in E6.
        split; [by rewrite <- (sealLUKS_jobs env station mac key0 s2), E6|]. intros key Hkey.
        rewrite Hkey, cut_prefix_app in Hc. injection Hc as <-. by eapply sealLUKS_true.
      - injection E6 as _ <-. split; [done|]. intros key Hkey. by rewrite Hkey, cut_prefix_app in Hc. }
    assert (Hrec : tables (pl_jobs s7) = tables (pl_jobs s6) ∧ pl_secrets s7 = pl_secrets s6 ∧
      (js_HostKey b ≠ "" → ∃ tag, tag_of_job station mac s6 = Some tag ∧ recorded_key tag hk s7)).
    { destruct Hhk as [[Hno ->]|(Hne & _ & Hn & Hk)].
      - simpl in E7. injection E7 as <-. split_and!; done.
      - rewrite bool_decide_eq_false_2 in E7 by done. apply demand_Ok in E7. split.
        + by rewrite <- (recordHostKey_jobs env station mac hk s6), E7.
        + apply recordHostKey_true in E7 as [? ?]; [|done]. split; [done|]. auto. }
    destruct Hseal as [Hj6 Hseal], Hrec as (Hj7 & Hsec7 & Hrec).
    unfold on_jobs in E4. destruct (ReportJob _ _ _ _ _ (pl_jobs s7)) as [[[]|] db] eqn:Er; [|done].
    injection E4 as <-. apply ReportJob_done in Er as (j & Hj & Hdb). rewrite Hj7, Hj6 in Hj.
    assert (Htag : ∀ x, tables (pl_jobs x) = tables (pl_jobs s2) → tag_of_job station mac x = Some (job_Tag (row_job j))).
    { intros y Hy. unfold tag_of_job. by rewrite Hy, Hj. }
    (* the progress *)
    assert (Hprog : pl_secrets s5 = pl_secrets s7 ∧ pl_fleet s5 = pl_fleet s7 ∧
      ∃ row, tables (pl_jobs s5) !! (station, NormalizeMAC mac) = Some row ∧
        job_Tag (row_job row) = job_Tag (row_job j) ∧ job_Status (row_job row) = js_Status b).
    { assert (Hp : ∀ n k u (x : Plane W), on_jobs k (ReportProgress station mac n (js_Step b) (pe_now env)) (s7 <| pl_jobs := db |>) = (Ok u, x) →
        pl_secrets x = pl_secrets s7 ∧ pl_fleet x = pl_fleet s7 ∧ ∃ row, tables (pl_jobs x) !! (station, NormalizeMAC mac) = Some row ∧
        job_Tag (row_job row) = job_Tag (row_job j) ∧ job_Status (row_job row) = js_Status b).
      { intros n k u y. unfold on_jobs. destruct (ReportProgress _ _ _ _ _ _) as [r1 db1] eqn:Ep. intros [= _ <-].
        split; [done|]. split; [done|]. simpl in *. unfold ReportProgress in Ep. apply db_step_inv in Ep as (r0 & Ep & _).
        apply exec_tables in Ep. rewrite Ep. destruct r0 as [[]|]; [|by eexists].
        unfold update_progress. rewrite Hdb, lookup_insert_eq. by eexists. }
      revert E5. unfold job_progress. destruct (js_Progress b) as [n|]; [apply Hp|].
      destruct (js_Step b ==? ""); [|apply Hp]. intros [= _ <-]. split; [done|]. split; [done|]. simpl. rewrite Hdb. by eexists. }
    destruct Hprog as (Hsec & Hfl & row & Hrow & Htr & Hsr). exists (job_Tag (row_job j)), row. split_and!; try done.
    - intros key Hkey. destruct (Hseal key Hkey) as (tag & Ht & Hs). rewrite (Htag s2 eq_refl) in Ht. injection Ht as <-.
      unfold sealed_key. by rewrite Hsec, Hsec7.
    - intros Hne. destruct Hhk as [[? _]|(_ & Hk & _)]; [done|]. exists hk. split; [done|].
      destruct (Hrec Hne) as (tag & Ht & Hr). rewrite (Htag s6 Hj6) in Ht. injection Ht as <-.
      unfold recorded_key. by rewrite Hfl.
Qed.
End accepted.

(** * Concrete devices and stations *)

(** ** The world *)

(** The document holds one device; its text is the host key on record. *)
Definition yard (key : string) : Fleet :=
  zero_fleet <| Devices := {["lt-1" := zero_device <| d_ITAM := zero_itam <| HostKeyID := key |> |>]} |>.
Definition yard_text (key : string) : string := "key:" +:+ key.

#[export] Instance yard_go_json : GoJson := {
  json_value v := Ok "1"; fmt_v v := "1"; fleet_fields f := Ok ∅; json_fields m := Ok "{}"
}.
#[export] Instance yard_print : Fingerprint := λ s, s.
#[export] Instance yard_codec : FleetJson := {
  unmarshal_probe b := Ok 3;
  unmarshal_doc b := Ok ∅;
  unmarshal_fleet b :=
    match cut_prefix b "key:" with
    | Some r => Ok (yard (String.substring 0 (String.length r - 1) r))
    | None => Err "parse"
    end;
  marshal_doc d := Ok "";
  marshal_fleet f := Ok (yard_text (HostKeyID (d_ITAM (dev f "lt-1"))))
}.
#[export] Instance yard_parsers : OverlayParsers := {
  Catalog := unit; HardwareProfiles := unit; ProfileSet := unit; Bundles := unit;
  ParseCatalog _ := Ok tt; ParseHardwareProfiles _ := Ok tt; ParseProfileSet _ := Ok tt;
  ParseBundles _ := Ok tt
}.
#[export] Instance yard_repo : ConfigRepo Git := git_repo false false.
#[export] Instance yard_hmac : HmacSha256 := λ key m, key +:+ m.
#[export] Instance yard_sha : Sha256 := λ s, s.

Definition yard_mac : string := "aa:bb:cc:dd:ee:01".
Definition yard_job (st : JobStatus) : Job := mkJob "nuc-1" yard_mac "lt-1" "hw" "r1" st 0 "" "".
Definition yard_jobs (st : JobStatus) : JobTable := {[("nuc-1", yard_mac) := mkJobRow (yard_job st) 1 1]}.

Definition second : Time := time_unix 1000.
Definition yard_inv : InvEnv := mkInvEnv (λ _, true) None [].
Definition yard_env (now : Time) (raw : string) : PlaneEnv Git :=
  mkPlaneEnv true true "bridge" "k" "" true true true true true true yard_inv (mkElEnv None []) passGate
    now "n" "e1" (λ _, raw) "salt".

Definition yard_plane (key : string) (st : JobStatus) : Plane Git :=
  mkPlane (mkService (mkTx (mkGit (yard_text key +:+ newline) [] [] [] 0) None) (mkSnapshot _ (yard key) tt tt tt tt))
    (live ∅) (mkInv (live ∅) (live ∅) quiet []) (live (yard_jobs st)) (live ∅) (live ∅) (mkEl (live ∅) quiet) (live ∅)
    (mkBridge ∅ []) (mkBridge ∅ []).

Definition bridge : string := "Bearer bridge".

(** A report of the device, with its ack, the echo of a nonce, and a key. *)
Definition beat (ack nonce : string) (ts : Z) (key : string) : checkinBody :=
  mkCheckinBody (mkCheckIn "lt-1" "r1" "" "" SBUnknown TPM2Unknown ack (mkUsage 0 0 0 0 0) (mkHealth "" []) None)
    "" nonce ts key.

Definition from_device (now : Time) (b : checkinBody) (s : Plane Git) : DReply * Plane Git :=
  serve_device demo_key (yard_env now "raw") bridge (PostCheckin (Some b)) s.
Definition from_station (now : Time) (raw : string) (r : StationRoute) (s : Plane Git) : DReply * Plane Git :=
  serve_station demo_key (yard_env now raw) bridge r s.

Definition sealed_text (s : Plane Git) : option string := tables (pl_secrets s) !! ("lt-1", LUKS) ≫= Open ∘ sr_cipher.
Definition ack_of (s : Plane Git) : option string := st_Ack <$> tables (inv_status (pl_inv s)) !! "lt-1".
Definition host_key_of (s : Plane Git) : string := HostKeyID (d_ITAM (dev (pl_fleet s) "lt-1")).
Definition job_of (s : Plane Git) : option Job := row_job <$> tables (pl_jobs s) !! ("nuc-1", yard_mac).

(** ** Witnesses *)

Definition escrowed : DReply * Plane Git := from_device second (beat "" "" 0 "phrase") (yard_plane "" Installed).

Lemma recovery_key_confirmed_witness :
  ∃ row, tables (pl_secrets escrowed.2) !! ("lt-1", LUKS) = Some row ∧ Open (sr_cipher row) = Some "phrase".
Proof.
  destruct (recovery_key_confirmed demo_key (yard_env second "raw") bridge (beat "" "" 0 "phrase") (yard_plane "" Installed)
              escrowed.1 escrowed.2) as (row & Hr & Ho & _); [apply surjective_pairing|vm_compute; reflexivity|].
  exists row. split; [exact Hr|exact Ho].
Defined.


(** The device echoes what it was given with the wipe. *)
Definition wipe_ack : checkinBody := beat AckWipe (signIntentNonce "k" "lt-1" fleetIntentWipe 1000) 1000 "".
Definition wiped : Plane Git := (from_device second wipe_ack (yard_plane "" Done)).2.

Lemma wipe_outcome_vouched_witness :
  ack_of wiped = Some AckWipe ∧ cb_AckNonce wipe_ack = signIntentNonce "k" "lt-1" fleetIntentWipe 1000.
Proof.
  assert (Ha : ack_of wiped = Some AckWipe) by (vm_compute; reflexivity). split; [exact Ha|].
  unfold ack_of in Ha. destruct (tables (inv_status (pl_inv wiped)) !! "lt-1") as [row|] eqn:Hrow; [|discriminate Ha].
  injection Ha as Ha.
  destruct (wipe_outcome_vouched demo_key (yard_env second "raw") bridge wipe_ack (yard_plane "" Done)
              (from_device second wipe_ack (yard_plane "" Done)).1 wiped row) as [(before & Hb & _)|[(_ & Hn & _)|[Hk _]]].
  - vm_compute. split; discriminate.
  - vm_compute. split; discriminate.
  - apply surjective_pairing.
  - exact Hrow.
  - rewrite Ha. reflexivity.
  - vm_compute in Hb. discriminate.
  - exact Hn.
  - discriminate Hk.
Defined.

(** The report of an install, with the key of the disk and the key of the host. *)
Definition install_report (phrase key : string) : jobStatusBody :=
  mkJobStatusBody Installed (LUKSRecoveryPrefix +:+ phrase) None "" key.
Definition installed : DReply * Plane Git :=
  from_station second "raw" (PostJobStatus "nuc-1" yard_mac (Some (install_report "phrase" ed_key))) (yard_plane "" Imaging).

Lemma install_report_lands_witness :
  ∃ s', installed = (no_content false, s') ∧ sealed_key "lt-1" "nuc-1" "phrase" s' ∧ recorded_key "lt-1" ed_key s'.
Proof.
  set (h := handleJobStatus demo_key (yard_env second "raw") "bridge" "nuc-1" yard_mac
              (Some (install_report "phrase" ed_key)) (yard_plane "" Imaging)).
  assert (Hok : h.1 = Ok (no_content false)) by (vm_compute; reflexivity).
  assert (Hi : installed = (no_content false, h.2)).
  { unfold installed, from_station, serve_station, reply_of. simpl station_handler. change (bearerToken bridge) with "bridge".
    fold h. destruct h as [r s']. simpl in Hok. by rewrite Hok. }
  exists h.2. split; [exact Hi|].
  destruct (install_report_lands demo_key (yard_env second "raw") "bridge" "nuc-1" yard_mac (install_report "phrase" ed_key)
              (yard_plane "" Imaging) (no_content false) h.2) as (tag & row & Hrow & Htag & _ & Hseal & Hkey).
  - rewrite <- Hok. apply surjective_pairing.
  - discriminate.
  - assert (Ht : tag = "lt-1").
    { assert (Hj : job_Tag ∘ row_job <$> tables (pl_jobs h.2) !! ("nuc-1", yard_mac) = Some "lt-1") by (vm_compute; reflexivity).
      change (tables (pl_jobs h.2) !! ("nuc-1", yard_mac) = Some row) in Hrow. rewrite Hrow in Hj. simpl in Hj. congruence. }
    subst tag. rewrite Ht in Hseal, Hkey. split; [by apply Hseal|].
    destruct (Hkey ltac:(discriminate)) as (k & Hk & Hr).
    assert (Hn : NormalizeHostKey ed_key = Ok ed_key) by (vm_compute; reflexivity).
    change (js_HostKey (install_report "phrase" ed_key)) with ed_key in Hk. rewrite Hn in Hk. by injection Hk as <-.
Defined.

Lemma recovery_key_never_rests_witness : no_plain_key (tables (pl_jobs installed.2)).
Proof.
  apply (recovery_key_never_rests demo_key (yard_plane "" Imaging)).
  - apply rtc_once. eapply (station_request demo_key (yard_env second "raw") bridge). apply surjective_pairing.
  - intros k r. unfold yard_plane, yard_jobs. simpl. intros [<- <-]%lookup_singleton_Some. vm_compute. done.
  - intros k r. unfold yard_plane, yard_jobs. simpl. intros [<- <-]%lookup_singleton_Some. vm_compute. done.
Defined.

(** ** Around the rules *)

Definition other_key : string := "ssh-ed25519 AAAAC3NzaC1lZDI1NTE5AAAAIAAAAAAAAAAAAAAAAAAAAAAAAAAAAAAAAAAAAAAAAAAA".

(** A report on a machine whose install is long done is refused, and by then has
    replaced the recovery key and the host key of the device. *)
Theorem refused_report_rewrites_the_keys :
  let s := from_station second "raw" (PostJobStatus "nuc-1" yard_mac (Some (install_report "mine" other_key)))
             ((yard_plane ed_key Done) <| pl_secrets := pl_secrets escrowed.2 |>) in
  rp_status s.1 = 409 ∧ job_of s.2 = Some (yard_job Done) ∧
  sealed_text s.2 = Some "mine" ∧ host_key_of s.2 = other_key.
Proof. vm_compute. split_and!; reflexivity. Qed.

(** The label of a progress tick is stored as it comes. *)
Theorem step_carries_the_key :
  let s := from_station second "raw" (PostJobStatus "nuc-1" yard_mac
             (Some (mkJobStatusBody NoStatus "" None (LUKSRecoveryPrefix +:+ "phrase") ""))) (yard_plane "" Imaging) in
  rp_status s.1 = 204 ∧ job_Step <$> job_of s.2 = Some (LUKSRecoveryPrefix +:+ "phrase").
Proof. vm_compute. split; reflexivity. Qed.

Definition handed_out (r : DReply) : list string := match rp_body r with JobList l => map jv_Credential l | _ => [] end.

(** A station that claims again is handed a second credential, which ends the
    first: an image that was written with it cannot report. *)
Theorem claimed_twice :
  let s1 := from_station second "first" (PostClaim "nuc-1") (yard_plane "" Pending) in
  let s2 := from_station (time_unix 2000) "other" (PostClaim "nuc-1") s1.2 in
  handed_out s1.1 = ["sxt_device-lt-1_Zmlyc3Q"] ∧ handed_out s2.1 = ["sxt_device-lt-1_b3RoZXI"] ∧
  (AuthenticateTag demo_key Device "sxt_device-lt-1_Zmlyc3Q" "lt-1" (time_unix 3000) (pl_tokens s1.2)).1 = true ∧
  (AuthenticateTag demo_key Device "sxt_device-lt-1_Zmlyc3Q" "lt-1" (time_unix 3000) (pl_tokens s2.2)).1 = false.
Proof. vm_compute. split_and!; reflexivity. Qed.

(** The same acknowledgement, sent again within the window after the device said
    something else, is recorded as a wipe once more. *)
Theorem replay_within_the_window :
  let s1 := (from_device (time_unix 1300) (beat AckLock "" 0 "") wiped).2 in
  let s2 := (from_device (time_unix 1600) wipe_ack s1).2 in
  ack_of s1 = Some AckLock ∧ ack_of s2 = Some AckWipe.
Proof. vm_compute. split; reflexivity. Qed.

(** The bridge token speaks for a device that has its own credential, under a
    name the queue trims to that of the device. *)
Theorem bridge_raises_for_another :
  let s0 := (from_station second "first" (PostClaim "nuc-1") (yard_plane "" Pending)).2 in
  let ask tag := serve_device demo_key (yard_env second "raw") bridge (PostElevation tag (Asked "bbuijs" "sudo" "")) s0 in
  rp_status (ask "lt-1").1 = 401 ∧ rp_status (ask "lt-1 ").1 = 201 ∧
  er_tag <$> tables (el_db (pl_el (ask "lt-1 ").2)) !! "e1" = Some "lt-1".
Proof. vm_compute. split_and!; reflexivity. Qed.

(** The elevation endpoints are registered and not mounted. *)
Theorem elevation_not_mounted :
  routed checkin_patterns "POST" "/api/device/lt-1/elevation" = true ∧
  reaches_device_api "POST" "/api/device/lt-1/elevation" = false ∧
  reaches_device_api "GET" "/api/device/lt-1/elevation/e1" = false ∧
  reaches_device_api "POST" "/api/device/lt-1/diagnostics" = true.
Proof. vm_compute. split_and!; reflexivity. Qed.
