(* ===== verification/RepoFiles.v ===== *)
(** * The config repository's files (src/internal/adapters/git/git.go)

    A file system with directories, files and symbolic links, the resolution of
    a path in it, and the adapter's operations on the files of the working
    tree, each of which first confines the name to the repository. *)

From S2P Require Import Prelude GoLib Text.

(** ** The file system

    A path is the list of its components below the root directory, which always
    exists. *)

Inductive node := NDir | NFile (data : string) | NLink (target : string).
Notation path := (list string) (only parsing).
Notation FS := (gmap (list string) node).

#[export] Instance node_eq_dec : EqDecision node.
Proof. solve_decision. Defined.

Inductive FsErr := ENOENT | ENOTDIR | ELOOP | EISDIR | EEXIST | ENOTEMPTY | EBUSY.

Definition node_at (fs : FS) (p : path) : option node :=
  match p with [] => Some NDir | _ => fs !! p end.

Definition IsAbs (s : string) : bool := has_prefix s "/".
Definition components (s : string) : list string := split_on "/" s.

(** [filepath.Dir] of a clean absolute path. *)
Definition Dir (p : path) : path := removelast p.

(** Resolves the components [todo] from the directory [cur], at most [links]
    links deep: the path reached, and whether it exists.  Only the last
    component may be missing, and a link there is followed when [follow]. *)
Fixpoint walk (fs : FS) (links : nat) (follow : bool) : path → list string → res FsErr (path * bool) :=
  fix go (cur : path) (todo : list string) {struct todo} :=
    match todo with
    | [] => Ok (cur, true)
    | c :: rest =>
        if (c ==? "") || (c ==? ".") then go cur rest
        else if c ==? ".." then go (Dir cur) rest
        else
          let q := cur ++ [c] in
          match node_at fs q with
          | None => match rest with [] => Ok (q, false) | _ => Err ENOENT end
          | Some NDir => go q rest
          | Some (NFile _) => match rest with [] => Ok (q, true) | _ => Err ENOTDIR end
          | Some (NLink target) =>
              if (rest ==? []) && negb follow then Ok (q, true)
              else match links with
                   | O => Err ELOOP
                   | S links => walk fs links follow (if IsAbs target then [] else cur) (components target ++ rest)
                   end
          end
    end.

Definition existing (r : res FsErr (path * bool)) : res FsErr path :=
  match r with Ok (q, true) => Ok q | Ok (_, false) => Err ENOENT | Err e => Err e end.

(** The kernel follows 40 links, [filepath.EvalSymlinks] 255. *)
Definition kernel_links : nat := 40.
Definition eval_links : nat := 255.

Definition Stat (fs : FS) (p : path) : res FsErr path := existing (walk fs kernel_links true [] p).
Definition Lstat (fs : FS) (p : path) : res FsErr path := existing (walk fs kernel_links false [] p).
Definition EvalSymlinks (fs : FS) (p : path) : res FsErr path := existing (walk fs eval_links true [] p).

(** ** Package os *)

Definition os_ReadFile (fs : FS) (p : path) : res FsErr string :=
  let! q := Stat fs p in
  match node_at fs q with
  | Some (NFile d) => Ok d | Some NDir => Err EISDIR | Some (NLink _) => Err ELOOP | None => Err ENOENT
  end.

Definition os_WriteFile (p : path) (data : string) : SE FS FsErr unit := λ fs,
  match walk fs kernel_links true [] p with
  | Err e => (Err e, fs)
  | Ok (q, _) => match node_at fs q with
                 | Some NDir => (Err EISDIR, fs)
                 | _ => (Ok tt, <[q := NFile data]> fs)
                 end
  end.

Definition os_Mkdir (p : path) : SE FS FsErr unit := λ fs,
  match walk fs kernel_links false [] p with
  | Err e => (Err e, fs)
  | Ok (_, true) => (Err EEXIST, fs)
  | Ok (q, false) => (Ok tt, <[q := NDir]> fs)
  end.

Definition is_dir (fs : FS) (r : res FsErr path) : bool :=
  match r with Ok q => node_at fs q ==? Some NDir | Err _ => false end.

(** [os.MkdirAll], of the path given from its last component. *)
Fixpoint mkdir_all (rp : path) : SE FS FsErr unit := λ fs,
  match Stat fs (reverse rp) with
  | Ok q => (if node_at fs q ==? Some NDir then Ok tt else Err ENOTDIR, fs)
  | Err _ =>
      match rp with
      | [] => (Ok tt, fs)
      | _ :: parent =>
          match mkdir_all parent fs with
          | (Err e, fs) => (Err e, fs)
          | (Ok _, fs) =>
              match os_Mkdir (reverse rp) fs with
              | (Ok _, fs) => (Ok tt, fs)
              | (Err e, fs) => (if is_dir fs (Lstat fs (reverse rp)) then Ok tt else Err e, fs)
              end
          end
      end
  end.

Definition MkdirAll (p : path) : SE FS FsErr unit := mkdir_all (reverse p).

(** The names in a directory. *)
Definition entry_of (q : path) (e : path * node) : option (string * node) :=
  match last e.1 with Some n => if Dir e.1 ==? q then Some (n, e.2) else None | None => None end.
Definition entries (fs : FS) (q : path) : list (string * node) := omap (entry_of q) (map_to_list fs).

(** [os.Remove]: the link itself, never what it names. *)
Definition os_Remove (p : path) : SE FS FsErr unit := λ fs,
  match walk fs kernel_links false [] p with
  | Err e => (Err e, fs)
  | Ok (_, false) => (Err ENOENT, fs)
  | Ok (q, true) =>
      if q ==? [] then (Err EBUSY, fs)
      else if (node_at fs q ==? Some NDir) && negb (entries fs q ==? []) then (Err ENOTEMPTY, fs)
      else (Ok tt, delete q fs)
  end.

(** ** Lexical paths *)

Definition clean_step (p : path) (c : string) : path :=
  if (c ==? "") || (c ==? ".") then p else if c ==? ".." then Dir p else p ++ [c].

(** [filepath.Join] of a clean absolute directory and a name. *)
Definition Join (dir : path) (name : string) : path := foldl clean_step dir (components name).

(** [filepath.Rel] of clean absolute paths; the same path is the empty list. *)
Fixpoint Rel (base targ : path) : list string :=
  match base, targ with
  | [], _ => targ
  | b :: bs, t :: ts => if b ==? t then Rel bs ts else repeat ".." (length base) ++ targ
  | _ :: _, [] => repeat ".." (length base)
  end.

(** [rel == ".." || strings.HasPrefix(rel, "../")]. *)
Definition escapes (rel : list string) : bool := match rel with c :: _ => c ==? ".." | [] => false end.

(** ** The adapter *)

Inductive RepoErr := BadPath (name : string) | Escapes (name : string) | Unresolved (e : FsErr) | Os (e : FsErr).

Fixpoint nearest (fs : FS) (rd : path) : res FsErr path :=
  match Lstat fs (reverse rd) with
  | Ok _ => Ok (reverse rd)
  | Err ENOENT => match rd with [] => Ok [] | _ :: parent => nearest fs parent end
  | Err e => Err e
  end.
Definition nearestExisting (fs : FS) (dir : path) : res FsErr path := nearest fs (reverse dir).

Section repo.
  (** The working tree: a clean absolute path. *)
  Context (dir : list string).

Definition safePath (name : string) (fs : FS) : res RepoErr path :=
    refuse (name ==? "") || IsAbs name with BadPath name;
    let p := Join dir name in
    refuse escapes (Rel dir p) with Escapes name;
    let! realRoot := lift_err Unresolved (EvalSymlinks fs dir) in
    let! anchor := lift_err Unresolved (nearestExisting fs (Dir p)) in
    let! realAnchor := lift_err Unresolved (EvalSymlinks fs anchor) in
    refuse escapes (Rel realRoot realAnchor) with Escapes name;
    Ok p.

Definition on_fs {A} (m : SE FS FsErr A) : SE FS RepoErr A := λ fs, let '(r, fs) := m fs in (lift_err Os r, fs).

Definition repo_ReadFile (name : string) (fs : FS) : res RepoErr string :=
    let! p := safePath name fs in lift_err Os (os_ReadFile fs p).

Definition repo_WriteFile (name data : string) : SE FS RepoErr unit :=
    do! p <- (λ fs, (safePath name fs, fs));
    run! on_fs (MkdirAll (Dir p));
    on_fs (os_WriteFile p data).

Definition repo_RemoveFile (name : string) : SE FS RepoErr unit :=
    do! p <- (λ fs, (safePath name fs, fs));
    on_fs (os_Remove p).

Definition repo_ListFiles (name : string) (fs : FS) : res RepoErr (list string) :=
    let! p := safePath name fs in
    match Stat fs p with
    | Err ENOENT => Ok []
    | Err e => Err (Os e)
    | Ok q => refuse node_at fs q !=? Some NDir with Os ENOTDIR;
              Ok (sort_strings (map fst (keep_if (λ e, e.2 !=? NDir) (entries fs q))))
    end.
End repo.

(** ** Resolution *)

(** A name that [walk] takes as an entry of the directory. *)
Definition proper (c : string) : Prop := c ≠ "" ∧ c ≠ "." ∧ c ≠ "..".

Lemma walk_entry fs l f cur c rest : proper c →
  walk fs l f cur (c :: rest) =
    match node_at fs (cur ++ [c]) with
    | None => match rest with [] => Ok (cur ++ [c], false) | _ => Err ENOENT end
    | Some NDir => walk fs l f (cur ++ [c]) rest
    | Some (NFile _) => match rest with [] => Ok (cur ++ [c], true) | _ => Err ENOTDIR end
    | Some (NLink target) =>
        if (rest ==? []) && negb f then Ok (cur ++ [c], true)
        else match l with
             | O => Err ELOOP
             | S l => walk fs l f (if IsAbs target then [] else cur) (components target ++ rest)
             end
    end.
Proof.
  intros (H1 & H2 & H3). destruct l; cbn [walk];
    rewrite (bool_decide_eq_false_2 _ H1), (bool_decide_eq_false_2 _ H2), (bool_decide_eq_false_2 _ H3); reflexivity.
Qed.

Inductive step_case (c : string) : Prop :=
  | step_stay : (c ==? "") || (c ==? ".") = true → step_case c
  | step_up : (c ==? "") || (c ==? ".") = false → c ==? ".." = true → step_case c
  | step_in : proper c → step_case c.

Lemma step_cases c : step_case c.
Proof.
  destruct ((c ==? "") || (c ==? ".")) eqn:H1; [by constructor 1|].
  destruct (c ==? "..") eqn:H2; [by constructor 2|]. constructor 3.
  apply orb_false_iff in H1 as [Ha%bool_decide_eq_false Hb%bool_decide_eq_false].
  apply bool_decide_eq_false in H2. by repeat split.
Qed.

Lemma walk_nil fs l f cur : walk fs l f cur [] = Ok (cur, true).
Proof. by destruct l. Qed.
Lemma walk_stay fs l f cur c rest : (c ==? "") || (c ==? ".") = true → walk fs l f cur (c :: rest) = walk fs l f cur rest.
Proof. intros Hc. destruct l; cbn [walk]; by rewrite Hc. Qed.
Lemma walk_up fs l f cur c rest : (c ==? "") || (c ==? ".") = false → c ==? ".." = true →
  walk fs l f cur (c :: rest) = walk fs l f (Dir cur) rest.
Proof. intros Hc Hu. destruct l; cbn [walk]; by rewrite Hc, Hu. Qed.

(** An induction along the steps of a resolution. *)
Lemma walk_ind (P : nat → list string → Prop) :
  (∀ l, P l []) →
  (∀ l c rest, P l rest → (∀ l' pre, l = S l' → P l' (pre ++ rest)) → P l (c :: rest)) →
  ∀ l todo, P l todo.
Proof.
  intros Hnil Hcons l. induction l as [|l IHl]; intros todo; induction todo as [|c rest IH]; auto.
  all: apply Hcons; [done|]; intros l' pre [= <-]; apply IHl.
Qed.

(** A directory tree: what exists lies in a directory. *)
Definition tree (fs : FS) : Prop := ∀ p c, node_at fs (p ++ [c]) ≠ None → node_at fs p = Some NDir.

Lemma root_dir fs : node_at fs [] = Some NDir.
Proof. done. Qed.

Lemma tree_up fs p : tree fs → node_at fs p = Some NDir → node_at fs (Dir p) = Some NDir.
Proof.
  intros Ht. destruct p as [|c p _] using rev_ind; [done|]. unfold Dir. rewrite removelast_last.
  intros Hn. apply (Ht _ c). by rewrite Hn.
Qed.

(** Resolving a path whose beginning resolves to [R] goes on from [R], a
    directory, unless it is refused on the way. *)
Lemma walk_app fs k a : tree fs → ∀ cur R, node_at fs cur = Some NDir → walk fs k true cur a = Ok (R, true) →
  ∀ l b f, b ≠ [] →
  walk fs l f cur (a ++ b) = Err ELOOP ∨ walk fs l f cur (a ++ b) = Err ENOTDIR ∨
  node_at fs R = Some NDir ∧ ∃ l', walk fs l f cur (a ++ b) = walk fs l' f R b.
Proof.
  intros Htree. revert k a.
  apply (walk_ind (λ k a, ∀ cur R, node_at fs cur = Some NDir → walk fs k true cur a = Ok (R, true) → ∀ l b f, b ≠ [] → _ ∨ _ ∨ _)).
  - intros k cur R Hd. rewrite walk_nil. intros [= <-] l b f _. right. right. split; [done|]. by exists l.
  - intros k c a IH IHl cur R Hd Hw l b f Hb. rewrite <- app_comm_cons.
    destruct (step_cases c) as [Hc|Hc Hu|Hc].
    + rewrite walk_stay in Hw |- * by done. eauto.
    + rewrite walk_up in Hw |- * by done. eauto using tree_up.
    + rewrite walk_entry in Hw |- * by done. destruct (node_at fs (cur ++ [c])) as [[|d|t]|] eqn:Hn.
      * eauto.
      * destruct a; [|done]. right. left. by destruct b.
      * rewrite andb_false_r in Hw. replace ((a ++ b ==? []) && negb f) with false.
        2: { symmetry. apply andb_false_iff. left. apply bool_decide_eq_false. by intros [_ ?]%app_eq_nil. }
        destruct k as [|k]; [done|]. destruct l as [|l]; [by left|].
        rewrite app_assoc. eapply IHl; [done| |exact Hw|done]. by destruct (IsAbs t).
      * by destruct a.
Qed.

(** And it is not refused with as many links as the beginning took. *)
Lemma walk_through fs k a b : ∀ cur R, node_at fs R = Some NDir → walk fs k true cur a = Ok (R, true) →
  ∃ l', walk fs k true cur (a ++ b) = walk fs l' true R b.
Proof.
  revert k a. apply (walk_ind (λ k a, ∀ cur R, node_at fs R = Some NDir → walk fs k true cur a = Ok (R, true) →
    ∃ l', walk fs k true cur (a ++ b) = walk fs l' true R b)).
  - intros k cur R _. rewrite walk_nil. intros [= <-]. by exists k.
  - intros k c a IH IHl cur R HR Hw. rewrite <- app_comm_cons. destruct (step_cases c) as [Hc|Hc Hu|Hc].
    + rewrite walk_stay in Hw |- * by done. eauto.
    + rewrite walk_up in Hw |- * by done. eauto.
    + rewrite walk_entry in Hw |- * by done. destruct (node_at fs (cur ++ [c])) as [[|d|t]|] eqn:Hn.
      * eauto.
      * destruct a; [|done]. injection Hw as <-. by rewrite Hn in HR.
      * rewrite andb_false_r in Hw |- *. destruct k as [|k]; [done|]. rewrite app_assoc. by eapply (IHl k _ eq_refl).
      * by destruct a.
Qed.

(** More links, or more files, never change where an existing path leads. *)
Lemma walk_grow fs fs' l f todo : fs ⊆ fs' → ∀ cur q l', walk fs l f cur todo = Ok (q, true) → (l ≤ l')%nat →
  walk fs' l' f cur todo = Ok (q, true).
Proof.
  intros Hfs. revert l todo.
  apply (walk_ind (λ l todo, ∀ cur q l', walk fs l f cur todo = Ok (q, true) → (l ≤ l')%nat → _)).
  - intros l cur q l'. by rewrite !walk_nil.
  - intros l c rest IH IHl cur q l' Hw Hl. destruct (step_cases c) as [Hc|Hc Hu|Hc].
    + rewrite walk_stay in Hw |- * by done. eauto.
    + rewrite walk_up in Hw |- * by done. eauto.
    + rewrite walk_entry in Hw |- * by done. destruct (node_at fs (cur ++ [c])) as [n|] eqn:Hn; [|by destruct rest].
      assert (Hn' : node_at fs' (cur ++ [c]) = Some n).
      { unfold node_at in *. destruct (cur ++ [c]); [done|]. by eapply lookup_weaken. }
      rewrite Hn'. destruct n as [|d|t]; [eauto|done|].
      destruct ((rest ==? []) && negb f); [done|]. destruct l as [|l]; [done|]. destruct l' as [|l']; [lia|].
      eapply (IHl l); [done|exact Hw|lia].
Qed.

(** What exists without following a last link exists following it, or is a link
    that leads nowhere; what is missing is missing either way. *)
Lemma walk_missing fs l todo : ∀ cur q, walk fs l false cur todo = Ok (q, false) → walk fs l true cur todo = Ok (q, false).
Proof.
  revert l todo. apply (walk_ind (λ l todo, ∀ cur q, walk fs l false cur todo = Ok (q, false) → _)).
  - intros l cur q. by rewrite !walk_nil.
  - intros l c rest IH IHl cur q Hw. destruct (step_cases c) as [Hc|Hc Hu|Hc].
    + rewrite walk_stay in Hw |- * by done. eauto.
    + rewrite walk_up in Hw |- * by done. eauto.
    + rewrite walk_entry in Hw |- * by done. destruct (node_at fs (cur ++ [c])) as [[|d|t]|]; [eauto|done| |done].
      rewrite andb_false_r. rewrite andb_true_r in Hw. destruct (rest ==? []); [done|].
      destruct l as [|l]; [done|]. by eapply (IHl l).
Qed.

Lemma walk_missing_grow fs l l' todo cur q q' :
  walk fs l true cur todo = Ok (q, false) → walk fs l' true cur todo = Ok (q', true) → False.
Proof.
  revert l' cur q q'. revert l todo.
  apply (walk_ind (λ l todo, ∀ l' cur q q', walk fs l true cur todo = Ok (q, false) → walk fs l' true cur todo = Ok (q', true) → False)).
  - intros l l' cur q q'. by rewrite !walk_nil.
  - intros l c rest IH IHl l' cur q q' Hw Hw'. destruct (step_cases c) as [Hc|Hc Hu|Hc].
    + rewrite walk_stay in Hw, Hw' by done. eauto.
    + rewrite walk_up in Hw, Hw' by done. eauto.
    + rewrite walk_entry in Hw, Hw' by done. destruct (node_at fs (cur ++ [c])) as [[|d|t]|]; [eauto|by destruct rest| |by destruct rest].
      rewrite andb_false_r in Hw, Hw'. destruct l as [|l]; [done|]. destruct l' as [|l']; [done|].
      by eapply (IHl l).
Qed.

(** ** The nearest existing ancestor *)

Lemma reverse_cons_app (c : string) l : reverse (c :: l) = reverse l ++ [c].
Proof. apply reverse_cons. Qed.

Lemma nearest_spec fs rd a : nearest fs rd = Ok a →
  ∃ rest, reverse rd = a ++ rest ∧
    match rest with [] => True | c :: _ => Lstat fs (a ++ [c]) = Err ENOENT end.
Proof.
  revert a. induction rd as [|c rd IH]; intros a; cbn [nearest].
  - change (reverse []) with (@nil string). unfold Lstat. rewrite walk_nil. intros [= <-]. by exists [].
  - destruct (Lstat fs (reverse (c :: rd))) as [q|e] eqn:Hl; [intros [= <-]; exists []; by rewrite app_nil_r|].
    destruct e; try done. intros (rest & Hr & Hm)%IH. rewrite reverse_cons. exists (rest ++ [c]).
    rewrite Hr, <- app_assoc. split; [done|]. destruct rest as [|c' rest]; [|done].
    rewrite app_nil_r in Hr. by rewrite reverse_cons, Hr in Hl.
Qed.

Lemma Rel_prefix base targ : escapes (Rel base targ) = false → base `prefix_of` targ.
Proof.
  revert targ. induction base as [|b base IH]; intros targ; [by exists targ|].
  destruct targ as [|t targ]; simpl; [done|]. destruct (b ==? t) eqn:Hb; [|done].
  apply bool_decide_eq_true in Hb as ->. intros [k ->]%IH. by exists k.
Qed.

Lemma tree_absent fs p c s : tree fs → node_at fs (p ++ [c]) = None → node_at fs (p ++ c :: s) = None.
Proof.
  intros Ht Hn. induction s as [|z s IH] using rev_ind; [done|].
  destruct (node_at fs (p ++ c :: s ++ [z])) eqn:He; [|done].
  assert (Hd : node_at fs (p ++ c :: s) = Some NDir).
  { apply (Ht _ z). rewrite <- app_assoc. simpl. by rewrite He. }
  by rewrite IH in Hd.
Qed.

Lemma node_at_app fs (p : path) c : node_at fs (p ++ [c]) = fs !! (p ++ [c]).
Proof. by destruct p. Qed.

(** The directories [r ++ s] along [s]. *)
Fixpoint mk_dirs (r : path) (s : list string) (fs : FS) : FS :=
  match s with [] => fs | c :: s => mk_dirs (r ++ [c]) s (<[r ++ [c] := NDir]> fs) end.

Lemma mk_dirs_snoc r s c fs : mk_dirs r (s ++ [c]) fs = <[r ++ s ++ [c] := NDir]> (mk_dirs r s fs).
Proof.
  revert r fs. induction s as [|d s IH]; intros r fs; simpl; [done|]. by rewrite IH, <- app_assoc.
Qed.

Lemma mk_dirs_outside r s fs q : ¬ r `prefix_of` q → mk_dirs r s fs !! q = fs !! q.
Proof.
  induction s as [|c s IH] using rev_ind; intros Hq; [done|]. rewrite mk_dirs_snoc, lookup_insert_ne, IH; [done|done|].
  intros <-. apply Hq. by exists (s ++ [c]).
Qed.

Lemma mk_dirs_longer r s fs q : (length (r ++ s) < length q)%nat → mk_dirs r s fs !! q = fs !! q.
Proof.
  induction s as [|c s IH] using rev_ind; intros Hq; [done|]. rewrite mk_dirs_snoc, lookup_insert_ne.
  - apply IH. rewrite !length_app in *. simpl in *. lia.
  - intros <-. lia.
Qed.

(** What leads somewhere exists all along. *)
Lemma walk_prefix fs k a : ∀ cur b R, walk fs k true cur (a ++ b) = Ok (R, true) → ∃ q, walk fs k true cur a = Ok (q, true).
Proof.
  revert k a. apply (walk_ind (λ k a, ∀ cur b R, walk fs k true cur (a ++ b) = Ok (R, true) → ∃ q, walk fs k true cur a = Ok (q, true))).
  - intros k cur b R _. exists cur. apply walk_nil.
  - intros k c a IH IHl cur b R. rewrite <- app_comm_cons. destruct (step_cases c) as [Hc|Hc Hu|Hc].
    + rewrite !walk_stay by done. eauto.
    + rewrite !walk_up by done. eauto.
    + rewrite !walk_entry by done. destruct (node_at fs (cur ++ [c])) as [[|d|t]|].
      * eauto.
      * destruct a; simpl; [|done]. intros _. eauto.
      * rewrite !andb_false_r. destruct k as [|k]; [done|]. rewrite app_assoc. intros Hw. by eapply (IHl k _ eq_refl).
      * by destruct (a ++ b).
Qed.

Section make.
  Context (fs : FS) (k : nat).

(** Nothing is made along a path that exists. *)
Lemma mkdir_all_existing (a r : path) : walk fs k true [] a = Ok (r, true) → (mkdir_all (reverse a) fs).2 = fs.
Proof.
  revert r. induction a as [|c b IH] using rev_ind; intros r Hw; [done|].
  rewrite reverse_snoc. cbn [mkdir_all]. rewrite <- reverse_snoc, reverse_involutive.
  destruct (Stat fs (b ++ [c])); [done|]. destruct (walk_prefix _ _ _ _ _ _ Hw) as [rb Hb].
  specialize (IH rb Hb). destruct (mkdir_all (reverse b) fs) as [[[]|] fs1]; simpl in IH; subst fs1; [|done].
  unfold os_Mkdir. destruct (walk fs kernel_links false [] (b ++ [c])) as [[q [|]]|] eqn:Hm; [done| |done].
  apply walk_missing in Hm. by destruct (walk_missing_grow _ _ _ _ _ _ _ Hm Hw).
Qed.

  Context (a r : path) (c1 : string) (rest : list string).
  Hypothesis Ha : walk fs k true [] a = Ok (r, true).
  Hypothesis Hfs : tree fs.
  Hypothesis Hproper : Forall proper (c1 :: rest).
  Hypothesis Hgone : Lstat fs (a ++ [c1]) = Err ENOENT.

Lemma gone_node : node_at fs (r ++ [c1]) = None ∧ node_at fs r = Some NDir.
Proof using Ha Hproper Hgone Hfs.
  unfold Lstat in Hgone.
  destruct (walk_app _ _ _ Hfs _ _ (root_dir _) Ha kernel_links [c1] false) as [H|[H|[Hd [l' H]]]]; [done| | |].
  1, 2: by rewrite H in Hgone.
  split; [|done].
  rewrite H, walk_entry in Hgone by (by inversion Hproper). destruct (node_at fs (r ++ [c1])) as [[]|]; simpl in Hgone; try done.
  by rewrite walk_nil in Hgone.
Qed.

(** The first directories of the missing part have been made. *)
Record made (s : list string) (fs' : FS) : Prop := {
  made_eq : fs' = mk_dirs r s fs;
  made_tree : tree fs';
  made_walk : walk fs' k true [] (a ++ s) = Ok (r ++ s, true);
  made_dir : node_at fs' (r ++ s) = Some NDir
}.

Lemma made_nil : made [] fs.
Proof using Ha Hproper Hgone Hfs. split; rewrite ?app_nil_r; try done. apply gone_node. Qed.

(** What is still to be made is absent. *)
Lemma made_absent s c u fs' : made s fs' → c1 :: rest = s ++ c :: u → node_at fs' (r ++ s ++ [c]) = None.
Proof using Ha Hproper Hgone Hfs.
  intros [-> _ _ _] Hs. rewrite app_assoc, node_at_app, mk_dirs_longer by (rewrite !length_app; simpl; lia).
  rewrite <- node_at_app, <- app_assoc.
  destruct s as [|d s]; simpl in Hs |- *; injection Hs as <- _; [apply gone_node|].
  apply tree_absent; [done|apply gone_node].
Qed.

Lemma made_step s c u fs' : made s fs' → c1 :: rest = s ++ c :: u → made (s ++ [c]) (<[r ++ s ++ [c] := NDir]> fs').
Proof using Ha Hproper Hgone Hfs.
  intros Hm Hs. pose proof (made_absent _ _ _ _ Hm Hs) as Hn. destruct Hm as [Heq Ht Hw Hd].
  rewrite app_assoc, node_at_app, <- app_assoc in Hn.
  assert (Hsub : fs' ⊆ <[r ++ s ++ [c] := NDir]> fs') by by apply insert_subseteq.
  assert (Hkeep : ∀ p n, node_at fs' p = Some n → node_at (<[r ++ s ++ [c] := NDir]> fs') p = Some n).
  { intros p n. unfold node_at. destruct p; [done|]. intros Hp. by eapply lookup_weaken. }
  assert (Hin : node_at (<[r ++ s ++ [c] := NDir]> fs') (r ++ s ++ [c]) = Some NDir).
  { rewrite app_assoc, node_at_app. apply lookup_insert_eq. }
  split.
  - by rewrite mk_dirs_snoc, Heq.
  - intros p z Hz. destruct (decide (p ++ [z] = r ++ s ++ [c])) as [Heqp|Hne].
    + rewrite app_assoc in Heqp. apply app_inj_tail in Heqp as [-> _]. by apply Hkeep.
    + rewrite node_at_app, lookup_insert_ne, <- node_at_app in Hz by done. apply Hkeep. by eapply Ht.
  - rewrite (app_assoc a s [c]). pose proof (walk_grow _ _ _ _ _ Hsub _ _ k Hw (le_n k)) as Hw'.
    destruct (walk_through _ _ _ [c] _ _ (Hkeep _ _ Hd) Hw') as [l' ->].
    rewrite walk_entry.
    + rewrite <- app_assoc, Hin. apply walk_nil.
    + rewrite Hs in Hproper. apply Forall_app in Hproper as [_ Hp]. by inversion Hp.
  - exact Hin.
Qed.

Lemma missing_walk l f s : s `prefix_of` (c1 :: rest) → s ≠ [] → ∃ e, existing (walk fs l f [] (a ++ s)) = Err e.
Proof using Ha Hproper Hgone Hfs.
  intros [u Hu] Hne. destruct s as [|d s]; [done|]. injection Hu as <- _.
  destruct (walk_app _ _ _ Hfs _ _ (root_dir _) Ha l (c1 :: s) f) as [->|[->|[_ [l' ->]]]]; [done|eauto..|].
  rewrite walk_entry by (by inversion Hproper). rewrite (proj1 gone_node). destruct s; eauto.
Qed.

(** [os.MkdirAll] makes a beginning of the missing part, all of it when it succeeds. *)
Lemma mkdir_all_made s : s `prefix_of` (c1 :: rest) →
  ∃ s', s' `prefix_of` s ∧ made s' (mkdir_all (reverse (a ++ s)) fs).2 ∧
    ((mkdir_all (reverse (a ++ s)) fs).1 = Ok tt → s' = s).
Proof using Ha Hproper Hgone Hfs.
  induction s as [|c s IH] using rev_ind; intros Hs.
  - exists []. rewrite app_nil_r, (mkdir_all_existing a r Ha). split; [done|]. split; [apply made_nil|done].
  - destruct (missing_walk kernel_links true (s ++ [c])) as [e He]; [done|by destruct s|]. fold (Stat fs (a ++ s ++ [c])) in He.
    rewrite app_assoc, reverse_snoc. cbn [mkdir_all]. rewrite <- reverse_snoc, reverse_involutive, <- app_assoc, He.
    destruct IH as (s' & Hs' & Hm & Hall); [etrans; [|exact Hs]; by exists [c]|].
    assert (Hpre : s `prefix_of` s ++ [c]) by by exists [c].
    destruct (mkdir_all (reverse (a ++ s)) fs) as [[[]|e1] fs1]; simpl in Hm, Hall.
    2: { exists s'. split; [by etrans|done]. }
    rewrite (Hall eq_refl) in Hm. destruct Hs as [u Hu]. rewrite <- app_assoc in Hu. simpl in Hu.
    unfold os_Mkdir. rewrite app_assoc.
    destruct (walk_app _ _ _ (made_tree _ _ Hm) _ _ (root_dir _) (made_walk _ _ Hm) kernel_links [c] false) as [Hw|[Hw|[_ [l' Hw]]]]; [done|..];
      rewrite Hw; cbv beta iota.
    1, 2: exists s; split; [done|]; split; [exact Hm|]; simpl;
      unfold Lstat; rewrite Hw; done.
    rewrite walk_entry.
    2: { rewrite Hu in Hproper. apply Forall_app in Hproper as [_ Hp]. by inversion Hp. }
    rewrite <- app_assoc, (made_absent _ _ _ _ Hm Hu). cbv beta iota. exists (s ++ [c]). split; [done|].
    split; [|done]. exact (made_step _ _ _ _ Hm Hu).
Qed.
End make.

(** ** Confinement *)

#[local] Opaque walk.

Section last_component.
  Context (fs : FS) (k : nat) (a r : path) (z : string).
  Hypothesis Hfs : tree fs.
  Hypothesis Ha : walk fs k true [] a = Ok (r, true).
  Hypothesis Hz : proper z.

(** Where the last component of a path leads. *)
Lemma walk_last l f :
  (∃ e, walk fs l f [] (a ++ [z]) = Err e) ∨
  (∃ t, fs !! (r ++ [z]) = Some (NLink t) ∧ f = true) ∨
  walk fs l f [] (a ++ [z]) = Ok (r ++ [z], negb (node_at fs (r ++ [z]) ==? None)).
Proof using Hfs Ha Hz.
  destruct (walk_app _ _ _ Hfs _ _ (root_dir _) Ha l [z] f) as [H|[H|[_ [l' H]]]]; [done|eauto..|]. rewrite H, walk_entry by done.
  destruct (node_at fs (r ++ [z])) as [[|d|t]|] eqn:Hn; [|by right; right|destruct f; [|by right; right]|by right; right].
  - right. right. by rewrite walk_nil.
  - right. left. exists t. by rewrite <- node_at_app.
Qed.

Lemma write_last data : ∃ fs', (os_WriteFile (a ++ [z]) data fs).2 = fs' ∧
  (fs' = fs ∨ fs' = <[r ++ [z] := NFile data]> fs ∨ ∃ t, fs !! (r ++ [z]) = Some (NLink t)).
Proof using Hfs Ha Hz.
  eexists. split; [done|]. unfold os_WriteFile.
  destruct (walk_last kernel_links true) as [[e ->]|[(t & Ht & _)| ->]]; [by left|eauto|].
  destruct (node_at fs (r ++ [z])) as [[]|]; simpl; eauto.
Qed.

Lemma read_last data : os_ReadFile fs (a ++ [z]) = Ok data →
  fs !! (r ++ [z]) = Some (NFile data) ∨ ∃ t, fs !! (r ++ [z]) = Some (NLink t).
Proof using Hfs Ha Hz.
  unfold os_ReadFile, Stat. destruct (walk_last kernel_links true) as [[e ->]|[(t & Ht & _)| ->]]; [done|eauto|].
  rewrite node_at_app. destruct (fs !! (r ++ [z])) as [[]|] eqn:Hn; simpl; rewrite ?node_at_app, ?Hn; try done.
  intros [= ->]. by left.
Qed.

Lemma remove_last : (os_Remove (a ++ [z]) fs).2 = fs ∨ (os_Remove (a ++ [z]) fs).2 = delete (r ++ [z]) fs.
Proof using Hfs Ha Hz.
  unfold os_Remove. destruct (walk_last kernel_links false) as [[e ->]|[(t & _ & Hf)| ->]]; [by left|done|].
  destruct (negb _); [|by left]. destruct (_ ==? []); [by left|]. destruct (_ && _); [by left|by right].
Qed.
End last_component.

Lemma Join_proper dir name : Forall proper dir → Forall proper (Join dir name).
Proof.
  unfold Join. generalize (components name). intros cs. revert dir. induction cs as [|c cs IH]; intros dir Hd; [done|].
  simpl. apply IH. unfold clean_step. destruct (step_cases c) as [Hc|Hc Hu|(H1 & H2 & H3)].
  - by rewrite Hc.
  - rewrite Hc, Hu. destruct dir as [|x dir _] using rev_ind; [done|]. unfold Dir. rewrite removelast_last.
    by apply Forall_app in Hd as [? _].
  - rewrite (bool_decide_eq_false_2 _ H1), (bool_decide_eq_false_2 _ H2), (bool_decide_eq_false_2 _ H3). simpl.
    apply Forall_app. split; [done|]. by repeat constructor.
Qed.

Lemma existing_Ok r q : existing r = Ok q → r = Ok (q, true).
Proof. destruct r as [[q' []]|]; simpl; by intros [= ->]. Qed.

Lemma EvalSymlinks_Ok fs p q : EvalSymlinks fs p = Ok q → walk fs eval_links true [] p = Ok (q, true).
Proof. unfold EvalSymlinks. intros H. exact (existing_Ok _ _ H). Qed.

Section confined.
  Context (dir : list string) (fs : FS).
  Hypothesis Hdir : Forall proper dir.
  Hypothesis Hfs : tree fs.

(** The last component of the name is a link: the one the check does not resolve. *)
Definition ends_in_link (name : string) : Prop :=
  ∃ p d c t, safePath dir name fs = Ok p ∧ EvalSymlinks fs (Dir p) = Ok d ∧ last p = Some c ∧
    fs !! (d ++ [c]) = Some (NLink t).

Definition inside (q : path) : Prop := ∃ root, EvalSymlinks fs dir = Ok root ∧ root `prefix_of` q.

(** What the check has seen: the existing part of the directory leads to [r],
    inside the repository, and [rest] is missing. *)
Lemma safePath_Ok name p : safePath dir name fs = Ok p → p = [] ∨
  ∃ a r rest z, p = a ++ rest ++ [z] ∧ Forall proper (rest ++ [z]) ∧ walk fs eval_links true [] a = Ok (r, true) ∧
    (∀ q, r `prefix_of` q → inside q) ∧ match rest with [] => EvalSymlinks fs (Dir p) = Ok r | c :: _ => Lstat fs (a ++ [c]) = Err ENOENT end.
Proof using Hdir.
  unfold safePath. destruct (_ || _); [done|]. cbv zeta. pose proof (Join_proper dir name Hdir) as Hp.
  set (j := Join dir name) in *. destruct (escapes (Rel dir j)); [done|].
  destruct (EvalSymlinks fs dir) as [root|] eqn:Hroot; simpl; [|done].
  destruct (nearestExisting fs (Dir j)) as [a|] eqn:Hn; simpl; [|done].
  destruct (EvalSymlinks fs a) as [r|] eqn:Hr; simpl; [|done]. destruct (escapes (Rel root r)) eqn:He; [done|].
  intros [= <-]. destruct j as [|z b _] using rev_ind; [by left|]. right.
  unfold Dir in Hn |- *. rewrite removelast_last in Hn |- *. unfold nearestExisting in Hn.
  apply nearest_spec in Hn as (rest & Hb & Hm). rewrite reverse_involutive in Hb. subst b.
  exists a, r, rest, z. rewrite <- app_assoc. split; [done|]. rewrite <- app_assoc in Hp. apply Forall_app in Hp as [_ Hp].
  split; [done|]. split; [exact (EvalSymlinks_Ok _ _ _ Hr)|]. split.
  - intros q Hq. exists root. split; [done|]. by etrans; [apply Rel_prefix|].
  - destruct rest; [by rewrite app_nil_r|exact Hm].
Qed.

(** Only the repository's files are touched, or the target of a link the name ends in. *)
Lemma write_confined name data q :
  (repo_WriteFile dir name data fs).2 !! q ≠ fs !! q → inside q ∨ ends_in_link name.
Proof using Hdir Hfs.
  unfold repo_WriteFile, se_bind. destruct (safePath dir name fs) as [p|] eqn:Hs; [|done].
  destruct (safePath_Ok _ _ Hs) as [->|(a & r & rest & z & -> & Hp & Hw & Hin & Hmiss)]; [done|].
  assert (Hd : Dir (a ++ rest ++ [z]) = a ++ rest) by (unfold Dir; by rewrite app_assoc, removelast_last).
  rewrite Hd. apply Forall_app in Hp as [Hpr Hz]. inversion Hz as [|? ? Hz' _]; subst. unfold MkdirAll, on_fs.
  assert (Hm : ∃ s, (rest = [] → s = []) ∧ tree (mkdir_all (reverse (a ++ rest)) fs).2 ∧ (mkdir_all (reverse (a ++ rest)) fs).2 = mk_dirs r s fs ∧
    ((mkdir_all (reverse (a ++ rest)) fs).1 = Ok tt →
      walk (mkdir_all (reverse (a ++ rest)) fs).2 eval_links true [] (a ++ rest) = Ok (r ++ rest, true)) ∧
    (∀ c u, rest = c :: u → (mkdir_all (reverse (a ++ rest)) fs).1 = Ok tt →
      (mkdir_all (reverse (a ++ rest)) fs).2 !! (r ++ rest ++ [z]) = None)).
  { destruct rest as [|c rest].
    - exists []. rewrite !app_nil_r, (mkdir_all_existing fs eval_links a r Hw). done.
    - destruct (mkdir_all_made fs eval_links a r c rest Hw Hfs Hpr Hmiss (c :: rest)) as (s & Hs' & Hmade & Hall); [done|].
      exists s. split; [done|]. split; [by apply Hmade|]. split; [by apply Hmade|]. split.
      + intros Hok. rewrite (Hall Hok) in Hmade. by apply Hmade.
      + intros c' u _ Hok. rewrite (Hall Hok) in Hmade. rewrite (made_eq _ _ _ _ _ _ Hmade), mk_dirs_longer, app_assoc.
        * rewrite <- node_at_app, <- app_assoc. apply tree_absent; [done|]. by eapply (gone_node fs eval_links a r c rest).
        * rewrite !length_app. simpl. lia. }
  destruct Hm as (s & Hnil & Htree & Heq & Hwalk & Hnone).
  destruct (mkdir_all (reverse (a ++ rest)) fs) as [[[]|e] fs1]; simpl in *.
  2: { subst fs1. intros Hne. left. apply Hin. destruct (decide (r `prefix_of` q)); [done|]. by rewrite mk_dirs_outside in Hne. }
  specialize (Hwalk eq_refl). destruct (write_last _ _ _ _ _ Htree Hwalk Hz' data) as (fs2 & Hw2 & Hcase).
  rewrite app_assoc. destruct (os_WriteFile ((a ++ rest) ++ [z]) data fs1) as [r2 fs2']. simpl in Hw2 |- *. subst fs2'.
  destruct Hcase as [->|[->|[t Ht]]]; intros Hne.
  - left. apply Hin. subst fs1. destruct (decide (r `prefix_of` q)); [done|]. by rewrite mk_dirs_outside in Hne.
  - left. apply Hin. destruct (decide (r `prefix_of` q)) as [|Hq]; [done|].
    rewrite lookup_insert_ne in Hne; [|by intros <-; apply Hq; exists (rest ++ [z]); rewrite app_assoc].
    subst fs1. by rewrite mk_dirs_outside in Hne.
  - right. destruct rest as [|c rest].
    + exists (a ++ [] ++ [z]), r, z, t. split; [exact Hs|]. split; [exact Hmiss|]. split; [apply last_snoc|].
      rewrite Heq, (Hnil eq_refl), app_nil_r in Ht. exact Ht.
    + rewrite <- app_assoc in Ht. by rewrite (Hnone c rest eq_refl eq_refl) in Ht.
Qed.

Lemma read_confined name data : repo_ReadFile dir name fs = Ok data →
  (∃ q, fs !! q = Some (NFile data) ∧ inside q) ∨ ends_in_link name.
Proof using Hdir Hfs.
  unfold repo_ReadFile. destruct (safePath dir name fs) as [p|] eqn:Hs; simpl; [|done].
  destruct (os_ReadFile fs p) as [d|] eqn:Hr; simpl; [|done]. intros [= ->].
  destruct (safePath_Ok _ _ Hs) as [->|(a & r & rest & z & -> & Hp & Hw & Hin & Hmiss)].
  - unfold os_ReadFile, Stat in Hr. rewrite walk_nil in Hr. discriminate Hr.
  - destruct rest as [|c rest].
    + simpl in Hr, Hp. inversion Hp as [|? ? Hz _]; subst.
      destruct (read_last _ _ _ _ _ Hfs Hw Hz _ Hr) as [Hd|[t Ht]].
      * left. exists (r ++ [z]). split; [done|]. apply Hin. by exists [z].
      * right. exists (a ++ [] ++ [z]), r, z, t. split; [exact Hs|]. split; [exact Hmiss|]. split; [apply last_snoc|exact Ht].
    + destruct (missing_walk fs eval_links a r c (rest ++ [z]) Hw Hfs Hp Hmiss kernel_links true (c :: rest ++ [z])) as [e He]; [done..|].
      unfold os_ReadFile, Stat in Hr. simpl in Hr. by rewrite He in Hr.
Qed.

(** A removal never follows the last link. *)
Lemma remove_confined name q : (repo_RemoveFile dir name fs).2 !! q ≠ fs !! q → inside q.
Proof using Hdir Hfs.
  unfold repo_RemoveFile, se_bind. destruct (safePath dir name fs) as [p|] eqn:Hs; [|done]. unfold on_fs.
  assert (Hcase : (os_Remove p fs).2 = fs ∨ ∃ r, (∀ q, r `prefix_of` q → inside q) ∧ r `prefix_of` r ∧
    ∃ z, (os_Remove p fs).2 = delete (r ++ [z]) fs).
  { destruct (safePath_Ok _ _ Hs) as [->|(a & r & rest & z & -> & Hp & Hw & Hin & Hmiss)].
    - left. unfold os_Remove. by rewrite walk_nil.
    - destruct rest as [|c rest].
      + inversion Hp as [|? ? Hz _]; subst.
        destruct (remove_last _ _ _ _ _ Hfs Hw Hz) as [H|H]; [by left|right]. exists r. eauto.
      + left. destruct (missing_walk fs eval_links a r c (rest ++ [z]) Hw Hfs Hp Hmiss kernel_links false (c :: rest ++ [z])) as [e He]; [done..|].
        unfold os_Remove. simpl. by destruct (walk fs kernel_links false [] (a ++ c :: rest ++ [z])) as [[? []]|]. }
  destruct (os_Remove p fs) as [r0 fs1]. simpl in *. destruct Hcase as [->|(r & Hin & _ & z & ->)]; [done|].
  destruct (decide (r `prefix_of` q)) as [|Hq]; [eauto|]. rewrite lookup_delete_ne; [done|].
  intros <-. apply Hq. by exists [z].
Qed.
End confined.

(** ** The properties *)

(** C11: whatever name an operation is given, it reads, creates, replaces and
    removes nothing outside the real directory of the repository, unless the
    last component of the name is itself a symbolic link in a directory of the
    repository; a removal never does. *)
Theorem repo_stays_inside dir fs name :
  Forall proper dir → tree fs →
  (∀ data, repo_ReadFile dir name fs = Ok data →
     (∃ q, fs !! q = Some (NFile data) ∧ inside dir fs q) ∨ ends_in_link dir fs name) ∧
  (∀ data q, (repo_WriteFile dir name data fs).2 !! q ≠ fs !! q → inside dir fs q ∨ ends_in_link dir fs name) ∧
  (∀ q, (repo_RemoveFile dir name fs).2 !! q ≠ fs !! q → inside dir fs q).
Proof.
  intros Hdir Hfs. split; [intros data; by apply read_confined|]. split; [intros data q; by apply write_confined|].
  intros q. by apply remove_confined.
Qed.

(** The directory tree, decided. *)
Definition treeb (fs : FS) : bool := forallb (λ e, node_at fs (Dir e.1) ==? Some NDir) (map_to_list fs).

Lemma treeb_tree fs : treeb fs = true → tree fs.
Proof.
  intros Ht p c Hn. rewrite node_at_app in Hn. destruct (fs !! (p ++ [c])) as [n|] eqn:He; [|done].
  apply elem_of_map_to_list in He. unfold treeb in Ht. rewrite forallb_forall in Ht.
  apply list_elem_of_In in He. specialize (Ht _ He). apply bool_decide_eq_true in Ht. unfold Dir in Ht.
  cbn [fst] in Ht. by rewrite removelast_last in Ht.
Qed.

(** A repository at /srv/overlay, in which a merged change has planted links. *)
Definition demo_dir : list string := ["srv"; "overlay"].
Definition demo_fs : FS := list_to_map [
  (["etc"], NDir); (["etc"; "shadow"], NFile "root:x"); (["srv"], NDir); (["srv"; "overlay"], NDir);
  (["srv"; "overlay"; "overlays"], NDir); (["srv"; "overlay"; "overlays"; "vpn.nix"], NLink "/etc/shadow");
  (["srv"; "overlay"; "out"], NLink "../../etc")].

Lemma demo_tree_ok : tree demo_fs.
Proof. apply treeb_tree. vm_compute. reflexivity. Qed.

Lemma repo_stays_inside_witness :
  (repo_WriteFile demo_dir "out/passwd" "x" demo_fs).1 = Err (Escapes "out/passwd") ∧
  inside demo_dir demo_fs ["srv"; "overlay"; "a"; "b.nix"].
Proof.
  split; [vm_compute; reflexivity|].
  destruct (repo_stays_inside demo_dir demo_fs "a/b.nix") as (_ & Hw & _).
  - repeat constructor; done.
  - exact demo_tree_ok.
  - destruct (Hw "x" ["srv"; "overlay"; "a"; "b.nix"]) as [H|(p & d & c & t & Hp & Hd & Hl & Ht)].
    + vm_compute. discriminate.
    + exact H.
    + exfalso. vm_compute in Hp. injection Hp as <-. vm_compute in Hd. discriminate Hd.
Defined.

(** The check resolves the links on the way, not the last one: a link planted in
    the tree is read and written through. *)
Theorem planted_link_followed :
  repo_ReadFile demo_dir "overlays/vpn.nix" demo_fs = Ok "root:x" ∧
  (repo_WriteFile demo_dir "overlays/vpn.nix" "owned" demo_fs).1 = Ok tt ∧
  (repo_WriteFile demo_dir "overlays/vpn.nix" "owned" demo_fs).2 !! ["etc"; "shadow"] = Some (NFile "owned").
Proof. split_and!; vm_compute; reflexivity. Qed.
