(* ===== verification/GitRepo.v ===== *)
(** * The git commands of the config repository (src/internal/adapters/git/git.go)

    Each operation is a sequence of git processes over the repository, and the
    reading of what they print.  The git program is a parameter: what a process
    with given arguments answers, and what it does to the repository. *)

From S2P Require Import Prelude GoLib FleetModel Text Catalog ConfigTx HostKeys.

(** ** What is read from git *)

Definition unit_separator : ascii := "031".

(** [strconv.ParseInt(s, 10, 64)]. *)
Definition unsigned (s : string) : string :=
  match s with
  | String a r => if Ascii.eqb a "-" || Ascii.eqb a "+" then r else s
  | EmptyString => s
  end.
Definition ParseInt (s : string) : option Z := if string_forall is_digit (unsigned s) then Sscanf_d s else None.

Record LogEntry := mkLogEntry {
  le_Hash : string; le_Author : string; le_Email : string; le_When : Time; le_Subject : string
}.

Definition parse_log_line (line : string) : option LogEntry :=
  match split_on unit_separator line with
  | [hash; author; email; sec; subject] =>
      match ParseInt sec with
      | Some sec => Some (mkLogEntry hash author email (time_unix sec) subject)
      | None => None
      end
  | _ => None
  end.

Definition parse_log (out : string) : list LogEntry := omap parse_log_line (split_on line_feed (trim_space out)).

(** [--format=%H%x1f%an%x1f%ae%x1f%at%x1f%s], of a commit at a second. *)
Definition log_format : string := "--format=%H%x1f%an%x1f%ae%x1f%at%x1f%s".
Definition log_line (hash author email : string) (sec : Z) (subject : string) : string :=
  join [hash; author; email; pretty sec; subject] (String unit_separator "").

Definition transient_messages : list string := [
  "could not resolve host"; "temporary failure in name resolution"; "connection refused"; "connection reset";
  "connection timed out"; "operation timed out"; "early eof"].
Definition isTransientNet (msg : string) : bool := existsb (contains (to_lower msg)) transient_messages.

Definition rejection_messages : list string := ["non-fast-forward"; "fetch first"; "updates were rejected"; "! [rejected]"].
Definition isNonFastForward (msg : string) : bool := existsb (contains (to_lower msg)) rejection_messages.

Definition rev_head (a : ascii) : bool := is_lower a || is_upper a || is_digit a.
Definition rev_char (a : ascii) : bool := rev_head a || (a ∈? ["."; "_"; "/"; "-"]%char).
(** [revishRe]; its [$] is the end of the text. *)
Definition revishRe (rev : string) : bool :=
  match rev with String a r => rev_head a && string_forall rev_char r | EmptyString => false end.

(** The lines of the tree and the status that the fingerprint keeps. *)
Definition tab : string := String "009" "".
Definition has_suffix (s suf : string) : bool :=
  let n := String.length suf in let m := String.length s in
  (n <=? m)%nat && (String.substring (m - n) n s ==? suf).
Definition keyed_line (exclude line : string) : bool :=
  negb ((line ==? "") || has_suffix line (tab +:+ exclude) || has_suffix line (" " +:+ exclude)).
Definition keyed_section (exclude section : string) : string :=
  foldr (λ line k, line +:+ String line_feed k) (String "000" "") (keep_if (keyed_line exclude) (split_on line_feed section)).

(** ** The operations *)

(** What a process printed, and the text of its failure. *)
Record Run := mkRun { g_stdout : string; g_combined : string; g_failed : option string }.

Inductive GitErr :=
  | GitSays (step text : string)
  | GitWraps (step err : string)
  | LostRace (text : string)
  | UnknownRevision (rev : string)
  | InvalidRevision (rev : string)
  | NotANumber (rev : string).

Section git.
  Context {W : Type} `{Sha256}.
  (** The git program, and whether the context of the call has ended by now. *)
  Context (git : list string → W → Run * W) (cancelled : W → bool).
  Context (dir remote : string).

Notation M A := (SE W GitErr A).

Definition run (args : list string) : M Run := λ w, let '(o, w) := git args w in (Ok o, w).
Definition in_repo (args : list string) : list string := ["-C"; dir] ++ args.

(** [CombinedOutput]: the error says what git printed. *)
Definition combined (step : string) (args : list string) : M unit :=
  do! o <- run (in_repo args);
  match g_failed o with Some _ => se_err (GitSays step (trim_space (g_combined o))) | None => se_ret tt end.
(** [Output]: the error wraps that of the process. *)
Definition output (step : string) (args : list string) : M string :=
  do! o <- run (in_repo args);
  match g_failed o with Some e => se_err (GitWraps step e) | None => se_ret (g_stdout o) end.

(** [runNet], with [retries] attempts left after this one: nil is [None]. *)
Fixpoint net_attempt (retries : nat) (args : list string) (w : W) : option string * W :=
  let '(o, w) := git (in_repo args) w in
  match g_failed o with
  | None => (None, w)
  | Some _ =>
      let msg := trim_space (g_combined o) in
      if negb (isTransientNet msg) then (Some msg, w)
      else match retries with
           | O => (Some msg, w)
           | S n => if cancelled w then (Some msg, w) else net_attempt n args w
           end
  end.
Definition runNet (args : list string) (w : W) : option string * W := net_attempt 2 args w.

Definition net (k : string → option GitErr) (args : list string) : M unit := λ w,
  let '(failed, w) := runNet args w in
  match failed ≫= k with Some e => (Err e, w) | None => (Ok tt, w) end.

Definition or_default (s d : string) : string := if s ==? "" then d else s.

Definition Commit (msg : string) (a : Author) (files : list string) : M unit :=
  run! combined "git add" (["add"; "--"] ++ files);
  combined "git commit" ["-c"; "user.name=" +:+ or_default (au_Name a) "sextant";
                         "-c"; "user.email=" +:+ or_default (au_Email a) "sextant@localhost"; "commit"; "-m"; msg].

Definition branch : M string :=
  do! o <- run (in_repo ["rev-parse"; "--abbrev-ref"; "HEAD"]);
  let b := trim_space (g_stdout o) in
  se_ret (if negb (g_failed o ==? None) || (b ==? "") || (b ==? "HEAD") then "main" else b).

Definition SyncRemote : M unit :=
  if remote ==? "" then se_ret tt else
  run! net (λ msg, Some (GitSays "git fetch" msg)) ["fetch"; remote];
  do! b <- branch;
  combined "git reset" ["reset"; "--hard"; remote +:+ "/" +:+ b].

Definition PushHead : M unit :=
  if remote ==? "" then se_ret tt else
  do! b <- branch;
  net (λ msg, Some (if isNonFastForward msg then LostRace msg else GitSays "git push" msg)) ["push"; remote; "HEAD:" +:+ b].

Definition CommitCount (rev : string) : M Z :=
  do! out <- output "git rev-list" ["rev-list"; "--count"; rev];
  match ParseInt (trim_space out) with Some n => se_ret n | None => se_err (NotANumber rev) end.

Definition log_limit (limit : Z) : Z := if (limit <=? 0) || (1000 <? limit) then 100 else limit.

Definition Log (limit : Z) : M (list LogEntry) :=
  do! out <- output "git log" ["log"; "-n" +:+ pretty (log_limit limit); log_format];
  se_ret (parse_log out).

Definition refs_heads (name : string) : string := "refs/heads/" +:+ name.

(** Whether the ref moved. *)
Definition MoveRef (name rev : string) : M bool :=
  let ref := refs_heads name in
  do! cur <- run (in_repo ["rev-parse"; "--verify"; "-q"; ref]);
  do! full <- run (in_repo ["rev-parse"; "--verify"; "--end-of-options"; rev +:+ "^{commit}"]);
  match g_failed full with
  | Some _ => se_err (UnknownRevision rev)
  | None =>
      let target := trim_space (g_stdout full) in
      if trim_space (g_stdout cur) ==? target then se_ret false
      else run! combined "git update-ref" ["update-ref"; "--"; ref; target]; se_ret true
  end.

Definition DeleteRemoteRef (name : string) : M unit :=
  if remote ==? "" then se_ret tt else
  net (λ msg, if contains msg "remote ref does not exist" then None else Some (GitSays "git delete remote ref" msg))
    ["push"; "--delete"; "--"; remote; refs_heads name].

Definition PushRefForce (name : string) : M unit :=
  if remote ==? "" then se_ret tt else
  net (λ msg, Some (GitSays "git push ref" msg)) ["push"; "--force"; "--"; remote; refs_heads name +:+ ":" +:+ refs_heads name].

Definition HeadRev : M string :=
  do! out <- output "git rev-parse HEAD" ["rev-parse"; "HEAD"]; se_ret (trim_space out).

(** The 16 bytes of the digest, in hexadecimal. *)
Definition TreeKey (exclude : string) : M string :=
  do! tree <- output "git ls-tree" ["ls-tree"; "-r"; "HEAD"];
  do! status <- output "git status" ["status"; "--porcelain"; "-uall"];
  se_ret (hex_encode (String.substring 0 16 (sha256 (keyed_section exclude tree +:+ keyed_section exclude status)))).

Definition RemoteHead (url : string) : M string :=
  do! o <- run ["ls-remote"; url; "HEAD"];
  match g_failed o with
  | Some e => se_err (GitWraps "git ls-remote" e)
  | None => se_ret (default "" (head (Fields (trim_space (g_stdout o)))))
  end.

Definition FileAt (rev file : string) : M string :=
  if negb (revishRe rev) then se_err (InvalidRevision rev)
  else output "git show" ["show"; rev +:+ ":" +:+ file; "--"].
End git.

(** ** Reading the log *)

Lemma ParseInt_pretty n : min_int64 ≤ n ≤ max_int64 → ParseInt (pretty n) = Some n.
Proof.
  intros Hn. unfold ParseInt. rewrite Sscanf_pretty by done.
  assert (Hd : string_forall is_digit (unsigned (pretty n)) = true); [|by rewrite Hd].
  assert (Hpos : ∀ x, string_forall is_digit (pretty (N.pos x)) = true) by (intros x; apply (pretty_N_digits (N.pos x))).
  assert (Hu : ∀ s, string_forall is_digit s = true → unsigned s = s).
  { intros [|a s]; [done|]. simpl. intros [Ha _]%andb_true_iff.
    destruct (Ascii.eqb_spec a "-") as [->|]; [done|]. by destruct (Ascii.eqb_spec a "+") as [->|]. }
  destruct n as [|x|x]; [done| |].
  - change (pretty (Z.pos x)) with (pretty (N.pos x)). by rewrite Hu.
  - change (pretty (Z.neg x)) with (String "-" (pretty (N.pos x))). apply Hpos.
Qed.

Definition without (c : ascii) (s : string) : Prop := string_forall (λ a, negb (Ascii.eqb a c)) s = true.

Lemma pretty_without c n : is_digit c = false → c ≠ "-"%char → without c (pretty (n : Z)).
Proof.
  intros Hc Hm.
  assert (Hpos : ∀ x, without c (pretty (N.pos x))).
  { intros x. eapply string_forall_impl; [|apply (pretty_N_digits (N.pos x))]. intros a Ha.
    destruct (Ascii.eqb_spec a c) as [->|]; [by rewrite Hc in Ha|done]. }
  destruct n as [|x|x].
  - change (pretty 0) with "0". unfold without. cbn [string_forall]. destruct (Ascii.eqb_spec "0" c) as [<-|]; [discriminate Hc|done].
  - apply Hpos.
  - change (pretty (Z.neg x)) with (String "-" (pretty (N.pos x))). unfold without. cbn [string_forall].
    destruct (Ascii.eqb_spec "-" c) as [<-|]; [done|]. apply Hpos.
Qed.

(** A field of a commit as git prints it on its line. *)
Definition field_ok (s : string) : Prop := without unit_separator s ∧ without line_feed s.

Record commit := mkCommit { k_Hash : string; k_Author : string; k_Email : string; k_Sec : Z; k_Subject : string }.
Definition commit_line (k : commit) : string := log_line (k_Hash k) (k_Author k) (k_Email k) (k_Sec k) (k_Subject k).
Definition commit_entry (k : commit) : LogEntry :=
  mkLogEntry (k_Hash k) (k_Author k) (k_Email k) (time_unix (k_Sec k)) (k_Subject k).
Definition commit_ok (k : commit) : Prop :=
  field_ok (k_Hash k) ∧ field_ok (k_Author k) ∧ field_ok (k_Email k) ∧ field_ok (k_Subject k) ∧
  min_int64 ≤ k_Sec k ≤ max_int64.

Lemma parse_commit_line k : commit_ok k → parse_log_line (commit_line k) = Some (commit_entry k).
Proof.
  intros ([Hh _] & [Ha _] & [He _] & [Hs _] & Ht). unfold parse_log_line, commit_line, log_line.
  rewrite split_on_join; [by rewrite ParseInt_pretty|done|].
  repeat constructor; try done. by apply pretty_without.
Qed.

Lemma join_without c l sep : without c sep → Forall (without c) l → without c (join l sep).
Proof.
  intros Hsep Hl. induction Hl as [|s l Hs Hl IH]; [done|]. destruct l as [|t l]; [done|].
  change (join (s :: t :: l) sep) with (s +:+ sep +:+ join (t :: l) sep). unfold without in *.
  by rewrite !string_forall_app, Hs, Hsep.
Qed.

Lemma commit_line_lf k : commit_ok k → without line_feed (commit_line k).
Proof.
  intros ([_ Hh] & [_ Ha] & [_ He] & [_ Hs] & _). apply join_without; [done|].
  repeat constructor; try done. by apply pretty_without.
Qed.

(** A text that begins with a printable character and does not end in a space
    loses only the line feed after it. *)
Lemma trim_space_line a s :
  graphic a = true → strip_one (map reverse spaces) (reverse (list_ascii_of_string (String a s))) = None →
  trim_space (String a s +:+ String line_feed "") = String a s.
Proof.
  intros Ha Hend. unfold trim_space. cbv zeta.
  assert (Hl : list_ascii_of_string (String a s +:+ String line_feed "") = list_ascii_of_string (String a s) ++ [line_feed]).
  { generalize (String a s). intros t. induction t as [|b t IH]; [done|]. simpl. by f_equal. }
  rewrite Hl. set (l := list_ascii_of_string (String a s)) in *.
  assert (Hstart : ∀ x, strip_one spaces (a :: x) = None).
  { intros x. assert (Hsp : forallb (starts_outside graphic) spaces = true) by (vm_compute; reflexivity).
    revert Hsp. generalize spaces. intros sp. induction sp as [|enc sp IH]; [done|]. simpl.
    intros [He Hsp]%andb_true_iff. rewrite (IH Hsp). destruct enc as [|b enc]; [done|]. simpl.
    destruct (Ascii.eqb_spec b a) as [->|]; [|done]. simpl in He. by rewrite Ha in He. }
  rewrite (trim_left_stop spaces (l ++ [line_feed])) by apply (Hstart (list_ascii_of_string s ++ [line_feed])).
  rewrite reverse_snoc. unfold trim_left. cbn [strip_all length].
  assert (Hlf : strip_one (map reverse spaces) (line_feed :: reverse l) = Some (reverse l)) by (vm_compute; reflexivity).
  rewrite Hlf. cbn [strip_all]. rewrite Hend.
  rewrite reverse_involutive. apply string_of_list_ascii_of_string.
Qed.

(** The log read back is the commits git printed, one line each, newest
    first, when no field holds the separators and the seconds fit; the line of
    a commit that does hold one is left out. *)
Theorem log_round_trip l a s :
  l ≠ [] → Forall commit_ok l → join (map commit_line l) (String line_feed "") = String a s →
  graphic a = true → strip_one (map reverse spaces) (reverse (list_ascii_of_string (String a s))) = None →
  parse_log (join (map commit_line l) (String line_feed "") +:+ String line_feed "") = map commit_entry l.
Proof.
  intros Hne Hl Hout Ha Hend. unfold parse_log. rewrite Hout at 1. rewrite trim_space_line by done. rewrite <- Hout.
  rewrite split_on_join.
  - induction Hl as [|k l Hk Hl IH]; [done|]. simpl. rewrite parse_commit_line by done. f_equal. clear -Hl.
    induction Hl as [|k l Hk Hl IH]; [done|]. simpl. by rewrite parse_commit_line, IH.
  - by destruct l.
  - apply Forall_fmap. eapply Forall_impl; [exact Hl|]. intros k Hk. by apply commit_line_lf.
Qed.

Definition demo_commit (n : Z) (subject : string) : commit := mkCommit "c0ffee" "Bram" "b@x" n subject.

Lemma log_round_trip_witness :
  parse_log (join (map commit_line [demo_commit 20 "fleet: add lt-1"; demo_commit 10 "init"]) (String line_feed "")
               +:+ String line_feed "")
  = [mkLogEntry "c0ffee" "Bram" "b@x" (time_unix 20) "fleet: add lt-1";
     mkLogEntry "c0ffee" "Bram" "b@x" (time_unix 10) "init"].
Proof.
  apply (log_round_trip [demo_commit 20 "fleet: add lt-1"; demo_commit 10 "init"] "c"
    (String.substring 1 200 (join (map commit_line [demo_commit 20 "fleet: add lt-1"; demo_commit 10 "init"]) (String line_feed "")))).
  - done.
  - repeat constructor; vm_compute; done.
  - vm_compute. reflexivity.
  - reflexivity.
  - vm_compute. reflexivity.
Defined.

(** ** Network commands *)

Section network.
  Context {W : Type} (git : list string → W → Run * W) (cancelled : W → bool) (dir : string).

(** What successive processes of one command answered. *)
Inductive processes (args : list string) : W → list Run → W → Prop :=
  | pr_nil w : processes args w [] w
  | pr_cons w o w1 l w2 : git (in_repo dir args) w = (o, w1) → processes args w1 l w2 → processes args w (o :: l) w2.

Definition says (o : Run) : string := trim_space (g_combined o).
Definition failed_transiently (o : Run) : Prop := g_failed o ≠ None ∧ isTransientNet (says o) = true.
Definition answer (o : Run) : option string := match g_failed o with Some _ => Some (says o) | None => None end.

Lemma net_one w o w1 args : git (in_repo dir args) w = (o, w1) → processes args w ([] ++ [o]) w1.
Proof. intros Hg. econstructor; [exact Hg|constructor]. Qed.

Lemma net_attempts n args w r w' : net_attempt git cancelled dir n args w = (r, w') →
  ∃ l o, processes args w (l ++ [o]) w' ∧ (length l ≤ n)%nat ∧ Forall failed_transiently l ∧ r = answer o ∧
    (failed_transiently o → length l = n ∨ cancelled w' = true).
Proof.
  revert w. induction n as [|n IH]; intros w; cbn [net_attempt];
    destruct (git (in_repo dir args) w) as [o w1] eqn:Hg; cbv beta iota;
    destruct (g_failed o) as [e|] eqn:Hf; cbv zeta; fold (says o).
  1: intros Hr; exists [], o; assert (r = Some (says o) ∧ w' = w1) as [-> ->] by (by destruct (negb _); injection Hr).
  2, 4: intros [= <- <-]; exists [], o.
  1-3: split_and!; [by apply net_one|simpl; lia|done|by unfold answer; rewrite Hf|by intros [? ?]; left || rewrite Hf in *].
  destruct (isTransientNet (says o)) eqn:Ht; simpl.
  - destruct (cancelled w1) eqn:Hc.
    + intros [= <- <-]. exists [], o. split_and!; [by apply net_one|simpl; lia|done|by unfold answer; rewrite Hf|by right].
    + intros (l & o' & Hp & Hlen & Hl & Hr & Hlast)%IH. exists (o :: l), o'. split_and!; [by econstructor|simpl; lia| |done|].
      * constructor; [|done]. split; [by rewrite Hf|done].
      * intros Hfail. destruct (Hlast Hfail) as [<-|]; [by left|by right].
  - intros [= <- <-]. exists [], o. split_and!; [by apply net_one|simpl; lia|done|by unfold answer; rewrite Hf|].
    intros [_ Ht']. by rewrite Ht in Ht'.
Qed.

(** A network command is at most three processes: every one but the last
    failed for a passing reason, the answer is that of the last, and a last one
    that failed for a passing reason was the third, or the caller was gone. *)
Theorem network_attempts args w r w' : runNet git cancelled dir args w = (r, w') →
  ∃ l o, processes args w (l ++ [o]) w' ∧ (length l ≤ 2)%nat ∧ Forall failed_transiently l ∧ r = answer o ∧
    (failed_transiently o → length l = 2%nat ∨ cancelled w' = true).
Proof. apply net_attempts. Qed.
End network.

(** A remote that answers the third time. *)
Definition demo_remote (args : list string) (w : list (list string)) : Run * list (list string) :=
  (mkRun "" "fatal: Could not resolve host: forge" (if (length w <? 2)%nat then Some "exit status 128" else None), args :: w).

Lemma network_attempts_witness : ∃ l o, length l = 2%nat ∧ g_failed o = None ∧
  processes demo_remote "/srv" ["fetch"; "origin"] [] (l ++ [o]) (runNet demo_remote (λ _, false) "/srv" ["fetch"; "origin"] []).2.
Proof.
  destruct (network_attempts demo_remote (λ _, false) "/srv" ["fetch"; "origin"] [] _ _ (surjective_pairing _))
    as (l & o & Hp & Hlen & _ & Hr & Hlast).
  assert (Ho : answer o = None) by (rewrite <- Hr; vm_compute; reflexivity).
  exists l, o. assert (Hl : length l = 2%nat).
  { assert (Hn : ∀ w l w', processes demo_remote "/srv" ["fetch"; "origin"] w l w' → length w' = (length w + length l)%nat).
    { induction 1 as [|w1 o1 w2 l1 w3 Hg _ IH]; [simpl; lia|]. injection Hg as <- <-. rewrite IH. simpl. lia. }
    specialize (Hn _ _ _ Hp). rewrite length_app in Hn. change (3 = 0 + (length l + 1))%nat in Hn. lia. }
  split; [exact Hl|]. split; [|exact Hp]. unfold answer in Ho. by destruct (g_failed o).
Defined.

(** ** A revision is an argument *)

(** A process that is only written down. *)
Definition recorder (args : list string) (w : list (list string)) : Run * list (list string) := (mkRun "7" "7" None, args :: w).

(** The count hands git whatever it is given: a revision a device reports as
    [--all] is an option, while the reading of a file takes none. *)
Theorem count_takes_an_option :
  CommitCount recorder "/srv" "--all" [] = (Ok 7, [["-C"; "/srv"; "rev-list"; "--count"; "--all"]]) ∧
  FileAt recorder "/srv" "--all" "flake.lock" [] = (Err (InvalidRevision "--all"), []).
Proof. split; vm_compute; reflexivity. Qed.
