(* ===== verification/Compliance.v ===== *)
(** * What the observed plane says of the plan (src/internal/app/compliance.go,
      baseline.go, coreversion.go, config.go)

    The observation of every device against its target, the action items they
    call for, those of a stalled rollout, and the two-state baseline verdict;
    with the release numbers and the core versions of revisions, memoised. *)

From S2P Require Import Prelude GoLib FleetModel Groups Filters Resolve Policies Text Sql Catalog Rollout Imaging Notify Observed Engine Incident DevicePlane.
From Stdlib Require Import SpecFloat.

(** ** Measurements (internal/domain/observed/observed.go) *)

(** [float64(n)]. *)
Definition float_of (n : Z) : spec_float := binary_normalize 53 1024 n 0 false.

Definition pct (part whole : Z) : spec_float :=
  if whole <=? 0 then float_of 0
  else SFdiv 53 1024 (SFmul 53 1024 (float_of part) (float_of 100)) (float_of whole).

Definition Metrics (u : Usage) : gmap string spec_float :=
  let m := ∅ in
  let m := if 0 <? CPUPct u then <["cpu.used_percent" := float_of (CPUPct u)]> m else m in
  let m := if 0 <? MemTotalMB u then
             <["memory.free_percent" := pct (MemTotalMB u - MemUsedMB u) (MemTotalMB u)]>
             (<["memory.total_mb" := float_of (MemTotalMB u)]> m)
           else m in
  if 0 <? DiskTotalGB u then
    <["disk.free_percent" := pct (DiskTotalGB u - DiskUsedGB u) (DiskTotalGB u)]>
    (<["disk.free_gb" := float_of (DiskTotalGB u - DiskUsedGB u)]>
     (<["disk.total_gb" := float_of (DiskTotalGB u)]> m))
  else m.

Definition trimNum (v : spec_float) : string := FormatFloat v.

Definition measured (c : Condition) (metrics : gmap string spec_float) : string :=
  let m := Metric c +:+ " is " +:+ trimNum (default (float_of 0) (metrics !! Metric c))
             +:+ ", and this policy requires " +:+ c_Op c +:+ " " +:+ trimNum (c_Value c) +:+ "." in
  let d := trim_space (Detail c) in
  if d !=? "" then d +:+ " (" +:+ m +:+ ")" else m.

Definition failedConditions (f : Fleet) (tag : string) (metrics : gmap string spec_float) : list ConditionFailure :=
  pc ← ConditionsFor f tag;
  let '(holds, known) := Holds (pc_Condition pc) metrics in
  if negb known || holds then []
  else [mkFailure (pc_Policy pc) (pc_Name pc) (measured (pc_Condition pc) metrics)].

(** ** Targets *)

Definition primaryGroup (d : Device) : string := default "" (head (Groups d)).

Definition pin_of (f : Fleet) (g : string) : option string :=
  match f_Groups f !! g with
  | Some grp => if g_Pin grp !=? "" then Some (g_Pin grp) else None
  | None => None
  end.

(** The nearest pin of the first membership that has one above it. *)
Definition TargetRevision (f : Fleet) (d : Device) : string :=
  default "" (head (omap (pin_of f) (Groups d ≫= λ g, reverse (GroupAncestry f g)))).

(** ** The revisions of the repository, memoised *)

Record CoreVersion := mkCore { cv_Rev : string; cv_URL : string; cv_Modified : Time }.

Record LockNode := mkLockNode {
  ln_Inputs : gmap string Value; ln_Rev : string; ln_LastModified : Z; ln_URL : string;
  ln_Type : string; ln_Owner : string; ln_Repo : string
}.
Record flakeLock := mkLock { lk_Root : string; lk_Nodes : gmap string LockNode }.

Definition FlakeLockFile : string := "flake.lock".
Definition coreInput : string := "dawo".

(** [json.Unmarshal] into the lock document. *)
Class LockJson := unmarshal_lock : string → option flakeLock.

Definition coreNodeName (doc : flakeLock) : string :=
  let root := if lk_Root doc ==? "" then "root" else lk_Root doc in
  match lk_Nodes doc !! root ≫= λ n, ln_Inputs n !! coreInput with
  | Some (VString name) => if name !=? "" then name else coreInput
  | _ => coreInput
  end.

Definition node_core (n : LockNode) : CoreVersion :=
  mkCore (ln_Rev n)
    (if (ln_URL n ==? "") && (ln_Owner n !=? "") && (ln_Repo n !=? "")
     then ln_Type n +:+ ":" +:+ ln_Owner n +:+ "/" +:+ ln_Repo n else ln_URL n)
    (if 0 <? ln_LastModified n then time_unix (ln_LastModified n) else 0).

Definition parseFlakeLock `{LockJson} (raw : string) : option CoreVersion :=
  match unmarshal_lock raw with
  | None => None
  | Some doc =>
      match lk_Nodes doc !! coreNodeName doc with
      | Some n => if ln_Rev n ==? "" then None else Some (node_core n)
      | None => None
      end
  end.

(** What the repository answers at a moment; [None] for a repository without
    the operation, and an answer of [None] for a failed one. *)
Record Revisions := mkRevisions {
  rv_head : option (option string);
  rv_count : option (string → option Z);
  rv_file : option (string → string → option string)
}.

(** The memos of the service; a remembered miss is [None].  The last is the lock
    of the working tree, with the snapshot it was read under. *)
Record Memos := mkMemos {
  relCache : gmap string Z; coreAtCache : gmap string (option CoreVersion);
  coreCache : option (nat * option CoreVersion)
}.
#[export] Instance Memos_eta : Eta Memos := λ m, mkMemos (relCache m) (coreAtCache m) (coreCache m).
Definition no_memos : Memos := mkMemos ∅ ∅ None.

Section revisions.
  Context `{LockJson} (rv : Revisions).

Definition Head : string := match rv_head rv with Some (Some rev) => rev | _ => "" end.

Definition ReleaseNumber (rev : string) (m : Memos) : Z * Memos :=
    if rev ==? "" then (0, m) else
    match relCache m !! rev with
    | Some n => (n, m)
    | None =>
        match rv_count rv with
        | None => (0, m)
        | Some count => match count rev with
                        | None => (0, m)
                        | Some n => (n, m <| relCache ::= <[rev := n]> |>)
                        end
        end
    end.

Definition CoreVersionAt (rev : string) (m : Memos) : option CoreVersion * Memos :=
    if rev ==? "" then (None, m) else
    match coreAtCache m !! rev with
    | Some core => (core, m)
    | None =>
        match rv_file rv with
        | None => (None, m)
        | Some file =>
            let core := match file rev FlakeLockFile with None => None | Some raw => parseFlakeLock raw end in
            (core, m <| coreAtCache ::= <[rev := core]> |>)
        end
    end.

(** The pin of the working tree under the current snapshot. *)
Definition CoreVersionNow (snap : nat) (lock : option string) (m : Memos) : option CoreVersion * Memos :=
    match coreCache m with
    | Some (s, core) => if (s =? snap)%nat then (core, m) else
        let core := lock ≫= parseFlakeLock in (core, m <| coreCache := Some (snap, core) |>)
    | None => let core := lock ≫= parseFlakeLock in (core, m <| coreCache := Some (snap, core) |>)
    end.
End revisions.

(** ** Observations *)

Section observe.
  Context `{LockJson} (rv : Revisions) (f : Fleet).

(** What the device last reported, added to what is known of it. *)
Definition with_status (tag : string) (st : option (DeviceStatus * bool)) (o : Observation) : Observation :=
    match st with
    | None => o
    | Some (st, online) =>
        o <| Deployed := st_Revision st |> <| o_Online := online |> <| o_LastSeen := LastSeen st |>
          <| o_Error := st_Error st |> <| o_Ack := st_Ack st |> <| o_Failed := failedConditions f tag (Metrics (st_Usage st)) |>
    end.

Definition observe (head : string) (headRelease : Z) (byTag : gmap string (DeviceStatus * bool))
      (e : string * Device) (m : Memos) : Observation * Memos :=
    let '(tag, d) := e in
    let o := mkObservation tag (primaryGroup d) "" (TargetRevision f d) 0 0 head headRelease "" "" 0 false 0 "" "" [] in
    let o := with_status tag (byTag !! tag) o in
    let '(n, m) := ReleaseNumber rv (Deployed o) m in
    let o := o <| DeployedRelease := n |> in
    let '(n, m) := ReleaseNumber rv (o_Target o) m in
    let o := o <| TargetRelease := n |> in
    let '(core, m) := CoreVersionAt rv (Deployed o) m in
    let o := match core with Some c => o <| DeployedCore := cv_Rev c |> | None => o end in
    let '(core, m) := CoreVersionAt rv (o_Target o) m in
    let o := match core with
             | Some c => o <| TargetCore := cv_Rev c |> <| TargetCorePinned := cv_Modified c |>
             | None => o end in
    (o, m).

Fixpoint observe_all (head : string) (headRelease : Z) (byTag : gmap string (DeviceStatus * bool))
      (l : list (string * Device)) (m : Memos) : list Observation * Memos :=
    match l with
    | [] => ([], m)
    | e :: l =>
        let '(o, m) := observe head headRelease byTag e m in
        let '(os, m) := observe_all head headRelease byTag l m in (o :: os, m)
    end.

Definition live_devices : list (string * Device) := delete_func (λ e, Retired e.2) (map_to_list (Devices f)).

(** ** The run *)

Definition currentRing (st : State) : option Ring :=
    match s_Rings st !! s_Ring st with
    | Some r => Some r
    | None => match Rollout f with
              | None => None
              | Some p => ringFromFleet <$> Rings p !! s_Ring st
              end
    end.

Definition offTargetTags (ring : Ring) (obs : list Observation) (target : string) : list string :=
    let deployed := list_to_map (rev (map (λ o, (o_Tag o, Deployed o)) obs)) : gmap string string in
    sort_strings (foldl (λ out tag, if (tag ∈? out) || (default "" (deployed !! tag) ==? target) then out else out ++ [tag])
                    [] (g ← RingGroupList ring; ReleasedGroupDevices f g)).

(** [runs] is the rollout store's answer, [None] for a view without one. *)
Definition runIncidents (runs : option (res string (option State))) (obs : list Observation) (now : Time) : list Incident :=
    match runs with
    | Some (Ok (Some st)) =>
        let stalled := StalledFor (Some st) now (s_Ring st) in
        if stalled =? 0 then []
        else match currentRing st with
             | None => []
             | Some ring =>
                 DetectRollout (mkRunObservation (RunRingLabel ring) (s_Target st) stalled
                   (offTargetTags ring obs (s_Target st)) (default 0 (PromotedAt st !! s_Ring st)))
             end
    | _ => []
    end.
End observe.

Definition by_tag (views : list DeviceStatus) (now : Time) : gmap string (DeviceStatus * bool) :=
  list_to_map (rev (map (λ st, (st_Tag st, (st, Online st now))) views)).

(** The compliance view: the status store and the memos. *)
Record Comp := mkComp { cm_status : Pg StatusTable; cm_memos : Memos }.

Definition Incidents `{LockJson} (rv : Revisions) (format_time : Time → string) (f : Fleet)
    (runs : option (res string (option State))) (now : Time) : SE Comp DbErr (list Incident) := λ s,
  let '(views, db) := ListStatus (cm_status s) in
  match views with
  | Err e => (Err e, mkComp db (cm_memos s))
  | Ok views =>
      let head := Head rv in
      let '(headRelease, m) := ReleaseNumber rv head (cm_memos s) in
      let '(obs, m) := observe_all rv f head headRelease (by_tag views now) (live_devices f) m in
      let out := Detect format_time obs now in
      let run := runIncidents f runs obs now in
      (Ok (match run with [] => out | _ => sortBySeverity (out ++ run) end), mkComp db m)
  end.

(** ** The baseline *)

Definition BaselineRecency : string := "no recent check-in".
Definition BaselineDrift : string := "profile drift".
Definition BaselinePosture : string := "security posture".
Definition BaselineRevision : string := "behind ring revision".

Record Baseline := mkBaseline { Compliant : bool; Failures : list string }.

Section baseline.
  (** As in the profiles: the digest in a profile's stamp. *)
  Context (profile_hash : string → Settings → string).

Definition stale_policy (profiles : gmap string Profile) (p : Policy) : bool :=
  match cut_at "@" (p_Profile p) with
  | None => false
  | Some (name, _) => match profiles !! name with
                      | Some src => p_Profile p !=? Provenance profile_hash src
                      | None => false
                      end
  end.

(** The devices a policy with a stale stamp reaches. *)
Definition drifted (f : Fleet) (profiles : gmap string Profile) (tag : string) : bool :=
  existsb (λ a, match Policies f !! a_Policy a with
                | Some p => stale_policy profiles p && (tag ∈? AssignmentDevices f a)
                | None => false
                end) (Assignments f).

Definition wants (f : Fleet) (tag key : string) : bool :=
  match ResolveValues f tag !! key with Some (VBool b) => b | _ => false end.

Definition recency_fails (st : option DeviceStatus) (now : Time) : bool :=
  match st with None => true | Some st => InactiveWindow <? time_sub now (LastSeen st) end.

Definition posture_fails (f : Fleet) (tag : string) (st : option DeviceStatus) : bool :=
  let sb := wants f tag KeySecureBoot in
  let tpm := wants f tag KeyTPM2 in
  (sb || tpm) &&
  match st with
  | None => true
  | Some st => negb ((negb sb || (st_SB st ==? SBEnforcing)) && (negb tpm || (st_TPM2 st ==? TPM2Bound)))
  end.

Definition revision_fails (f : Fleet) (d : Device) (st : option DeviceStatus) : bool :=
  match st with
  | None => false
  | Some st => (TargetRevision f d !=? "") && (st_Revision st !=? TargetRevision f d)
  end.

Definition Verdict (f : Fleet) (profiles : gmap string Profile) (now : Time) (tag : string)
    (st : option DeviceStatus) : Baseline :=
  match Devices f !! tag with
  | None => mkBaseline false []
  | Some d =>
      if Retired d || Provisional d then mkBaseline false [] else
      let fails := (if recency_fails st now then [BaselineRecency] else [])
                   ++ (if drifted f profiles tag then [BaselineDrift] else [])
                   ++ (if posture_fails f tag st then [BaselinePosture] else [])
                   ++ (if revision_fails f d st then [BaselineRevision] else []) in
      mkBaseline (bool_decide (fails = [])) fails
  end.
End baseline.

(** ** Memos *)

(** What is remembered is what the repository answers. *)
Definition memo_sound (rv : Revisions) (m : Memos) : Prop :=
  ∀ rev n, relCache m !! rev = Some n → rv_count rv ≫= (λ count, count rev) = Some n.

Lemma ReleaseNumber_spec rv rev m : memo_sound rv m →
  (ReleaseNumber rv rev m).1 = (if rev ==? "" then 0 else default 0 (rv_count rv ≫= λ count, count rev)) ∧
  memo_sound rv (ReleaseNumber rv rev m).2.
Proof.
  intros Hm. unfold ReleaseNumber. destruct (rev ==? ""); [done|]. destruct (relCache m !! rev) as [n|] eqn:Hr.
  - by rewrite (Hm _ _ Hr).
  - destruct (rv_count rv) as [count|] eqn:Hc; [|done]. simpl. destruct (count rev) as [n|] eqn:Hn; [|done]. simpl.
    split; [done|]. intros rev' n'. simpl. rewrite lookup_insert_Some, Hc. simpl. intros [[<- <-]|[_ H]]; [done|].
    specialize (Hm _ _ H). by rewrite Hc in Hm.
Qed.

(** A revision that could not be read once is never looked up again. *)
Theorem core_miss_is_forever `{LockJson} rv rv' rev m :
  rev ≠ "" → coreAtCache m !! rev = None → (∃ file, rv_file rv = Some file ∧ file rev FlakeLockFile = None) →
  (CoreVersionAt rv' rev (CoreVersionAt rv rev m).2).1 = None.
Proof.
  intros Hr Hm (file & Hf & Hn). unfold CoreVersionAt. rewrite (bool_decide_eq_false_2 _ Hr), Hm, Hf, Hn. cbv zeta. simpl.
  by rewrite lookup_insert_eq.
Qed.

(** ** Measurements *)

(** A device that reported no measurement breaks no condition; the conditions
    that fail are those of a policy of the device whose metric was reported and
    does not hold. *)
Lemma failedConditions_spec f tag metrics cf : cf ∈ failedConditions f tag metrics ↔
  ∃ pc, pc ∈ ConditionsFor f tag ∧ Holds (pc_Condition pc) metrics = (false, true) ∧
    cf = mkFailure (pc_Policy pc) (pc_Name pc) (measured (pc_Condition pc) metrics).
Proof.
  unfold failedConditions. rewrite list_elem_of_bind. split.
  - intros (pc & Hcf & Hpc). exists pc. destruct (Holds (pc_Condition pc) metrics) as [[] []]; simpl in Hcf;
      try by apply elem_of_nil in Hcf. apply list_elem_of_singleton in Hcf. done.
  - intros (pc & Hpc & Hh & ->). exists pc. rewrite Hh. split; [|done]. by apply list_elem_of_singleton.
Qed.

Lemma Holds_known c metrics : (Holds c metrics).2 = true → is_Some (metrics !! Metric c).
Proof. unfold Holds. destruct (metrics !! Metric c); [eauto|done]. Qed.

Lemma Metrics_none : Metrics (mkUsage 0 0 0 0 0) = ∅.
Proof. reflexivity. Qed.

(** ** The observation of a device *)

Section observed.
  Context `{LockJson} (rv : Revisions) (f : Fleet).

Lemma observe_tag head n bt e m : o_Tag (observe rv f head n bt e m).1 = e.1.
Proof.
  destruct e as [tag d]. unfold observe. cbv zeta.
  set (o := with_status f tag (bt !! tag) _).
  assert (Ho : o_Tag o = tag) by (subst o; unfold with_status; by destruct (bt !! tag) as [[]|]).
  destruct (ReleaseNumber rv (Deployed o) m) as [n1 m1].
  destruct (ReleaseNumber rv _ m1) as [n2 m2].
  destruct (CoreVersionAt rv _ m2) as [[c1|] m3]; destruct (CoreVersionAt rv _ m3) as [[c2|] m4]; exact Ho.
Qed.

Lemma observe_all_tags head n bt l m o : o ∈ (observe_all rv f head n bt l m).1 → ∃ d, (o_Tag o, d) ∈ l.
Proof.
  revert m. induction l as [|e l IH]; intros m; simpl; [by intros ?%elem_of_nil|].
  pose proof (observe_tag head n bt e m) as Ht. destruct (observe rv f head n bt e m) as [o1 m1]. simpl in Ht.
  specialize (IH m1). destruct (observe_all rv f head n bt l m1) as [os m2]. simpl in *.
  intros [->|Ho]%elem_of_cons.
  - exists e.2. rewrite Ht, <- surjective_pairing. left.
  - destruct (IH Ho) as [d Hd]. exists d. by right.
Qed.
End observed.

(** Sorting with the run's items adds nothing else. *)
Lemma elem_of_sortBySeverity l i : i ∈ sortBySeverity l ↔ i ∈ l.
Proof. apply elem_of_isort. Qed.

Lemma Detect_tag format_time obs now i : i ∈ Detect format_time obs now → ∃ o, o ∈ obs ∧ in_Tag i = o_Tag o ∧
  calls_for o now (in_Kind i) (in_Severity i).
Proof.
  unfold Detect. rewrite elem_of_sortBySeverity, list_elem_of_bind. intros (o & Hi & Ho). exists o. split; [done|].
  by apply (incidents_of_states format_time o now).
Qed.

(** The compliance view answers whenever the status store does; every item is
    of a device of the fleet that is not retired, whose observation calls for it,
    or is the stall of the run in flight: an active run, on a wave that its own
    snapshot or the plan names, promoted at least the stall window ago and never
    converged. *)
Theorem incidents_of_the_fleet `{LockJson} rv format_time f runs now s l s' :
  Incidents rv format_time f runs now s = (Ok l, s') →
  (∀ i, i ∈ l →
    (∃ d, Devices f !! in_Tag i = Some d ∧ Retired d = false ∧ in_Kind i ≠ RolloutStalled) ∨
    (in_Kind i = RolloutStalled ∧ ∃ st ring, runs = Some (Ok (Some st)) ∧ currentRing f st = Some ring ∧
       StallWindow ≤ StalledFor (Some st) now (s_Ring st))) ∧
  StronglySorted (in_order less) l.
Proof.
  unfold Incidents. destruct (ListStatus (cm_status s)) as [[views|e] db]; [|done].
  destruct (ReleaseNumber rv (Head rv) (cm_memos s)) as [hr m] eqn:Hh.
  pose proof (observe_all_tags rv f (Head rv) hr (by_tag views now) (live_devices f) m) as Htags.
  destruct (observe_all rv f (Head rv) hr (by_tag views now) (live_devices f) m) as [obs m']. simpl in Htags. cbv zeta.
  set (run := runIncidents f runs obs now). intros [= <- _].
  assert (Hdev : ∀ i, i ∈ Detect format_time obs now →
    ∃ d, Devices f !! in_Tag i = Some d ∧ Retired d = false ∧ in_Kind i ≠ RolloutStalled).
  { intros i (o & Ho & -> & Hc)%Detect_tag. destruct (Htags o Ho) as [d Hd]. exists d.
    unfold live_devices, delete_func in Hd. apply list_elem_of_filter in Hd as [Hr Hd]. split; [by apply elem_of_map_to_list|].
    split; [exact Hr|]. by inversion Hc. }
  assert (Hrun : ∀ i, i ∈ run → in_Kind i = RolloutStalled ∧ ∃ st ring, runs = Some (Ok (Some st)) ∧
    currentRing f st = Some ring ∧ StallWindow ≤ StalledFor (Some st) now (s_Ring st)).
  { subst run. unfold runIncidents. destruct runs as [[[st|]|]|]; try by intros i ?%elem_of_nil.
    intros i. cbv zeta. destruct (_ =? 0); [by intros ?%elem_of_nil|].
    destruct (currentRing f st) as [ring|] eqn:Hring; [|by intros ?%elem_of_nil].
    unfold DetectRollout. cbn [ro_Stalled]. destruct (_ <? StallWindow) eqn:Hw; [by intros ?%elem_of_nil|].
    cbv zeta. intros ->%list_elem_of_singleton. split; [done|]. exists st, ring. apply Z.ltb_ge in Hw. done. }
  assert (Hall : ∀ i, i ∈ (match run with [] => Detect format_time obs now | _ :: _ => sortBySeverity (Detect format_time obs now ++ run) end) →
    i ∈ Detect format_time obs now ∨ i ∈ run).
  { intros i. destruct run; [by left|]. by rewrite elem_of_sortBySeverity, elem_of_app. }
  split.
  - intros i [Hi|Hi]%Hall; [left; by apply Hdev|right; by apply Hrun].
  - unfold Detect. by destruct run; apply isort_sorted, _.
Qed.

(** ** The devices a stalled wave waits for *)

Lemma collect_spec (skip : string → bool) l acc :
  NoDup acc →
  let r := foldl (λ out tag, if (tag ∈? out) || skip tag then out else out ++ [tag]) acc l in
  NoDup r ∧ ∀ x, x ∈ r ↔ x ∈ acc ∨ x ∈ l ∧ skip x = false.
Proof.
  revert acc. induction l as [|t l IH]; intros acc Hn; cbv zeta; simpl.
  - split; [done|]. intros x. rewrite elem_of_nil. tauto.
  - destruct (t ∈? acc) eqn:Ht; simpl; [|destruct (skip t) eqn:Hs].
    + destruct (IH acc Hn) as [H1 H2]. split; [done|]. intros x. rewrite H2, elem_of_cons.
      apply bool_decide_eq_true in Ht. split; [tauto|]. intros [?|[[->|?] ?]]; tauto.
    + destruct (IH acc Hn) as [H1 H2]. split; [done|]. intros x. rewrite H2, elem_of_cons.
      split; [tauto|]. intros [?|[[->|?] Hx]]; [tauto|by rewrite Hs in Hx|tauto].
    + apply bool_decide_eq_false in Ht. destruct (IH (acc ++ [t])) as [H1 H2].
      { apply NoDup_app. split; [done|]. split; [|apply NoDup_singleton]. by intros x Hx ->%list_elem_of_singleton. }
      split; [done|]. intros x. rewrite H2, elem_of_app, list_elem_of_singleton, elem_of_cons.
      split; [intros [[?| ->]|[? ?]]|intros [?|[[->|?] ?]]]; tauto.
Qed.

(** The devices a stall names are exactly those of the wave that the target
    was offered to - released, in a capped wave - and that do not report it,
    each once, in order. *)
Theorem off_target_exact f ring obs target :
  StronglySorted (in_order String.ltb) (offTargetTags f ring obs target) ∧
  NoDup (offTargetTags f ring obs target) ∧
  ∀ tag, tag ∈ offTargetTags f ring obs target ↔
    (∃ g, g ∈ RingGroupList ring ∧ tag ∈ ReleasedGroupDevices f g) ∧
    default "" ((list_to_map (rev (map (λ o, (o_Tag o, Deployed o)) obs)) : gmap string string) !! tag) ≠ target.
Proof.
  unfold offTargetTags. set (dep := list_to_map _). cbv zeta.
  destruct (collect_spec (λ tag, default "" (dep !! tag) ==? target)
    (g ← RingGroupList ring; ReleasedGroupDevices f g) [] (NoDup_nil_2)) as [Hn Hx].
  split; [apply isort_sorted, _|]. split; [|].
  - by unfold sort_strings; rewrite isort_perm.
  - intros tag. unfold sort_strings. rewrite elem_of_isort, Hx, elem_of_nil, list_elem_of_bind, bool_decide_eq_false. split.
    + intros [[]|[(g & Ht & Hg) Hd]]. eauto.
    + intros [(g & Hg & Ht) Hd]. right. split; [|done]. by exists g.
Qed.

(** ** Targets *)

(** The target is a pin on the way up from a membership; without one there is
    nothing to be behind of. *)
Lemma TargetRevision_spec f d :
  (TargetRevision f d ≠ "" → ∃ g anc, g ∈ Groups d ∧ anc ∈ GroupAncestry f g ∧ pin_of f anc = Some (TargetRevision f d)) ∧
  (TargetRevision f d = "" → ∀ g anc, g ∈ Groups d → anc ∈ GroupAncestry f g → pin_of f anc = None).
Proof.
  unfold TargetRevision. set (l := Groups d ≫= _).
  assert (Hl : ∀ x, x ∈ l ↔ ∃ g, g ∈ Groups d ∧ x ∈ GroupAncestry f g).
  { intros x. subst l. rewrite list_elem_of_bind. split; intros (g & H1 & H2); exists g; split; try done; by apply elem_of_reverse. }
  clearbody l. assert (Hp : ∀ p anc, pin_of f anc = Some p → p ≠ "").
  { intros p anc. unfold pin_of. destruct (f_Groups f !! anc) as [grp|]; [|done]. destruct (g_Pin grp ==? "") eqn:He; [done|].
    apply bool_decide_eq_false in He. simpl. by intros [= <-]. }
  destruct (omap (pin_of f) l) as [|p ps] eqn:Ho; simpl.
  - split; [done|]. intros _ g anc Hg Ha. destruct (pin_of f anc) as [p|] eqn:Hpin; [|done].
    assert (Hin : p ∈ omap (pin_of f) l) by (apply list_elem_of_omap; exists anc; split; [apply Hl; eauto|done]).
    rewrite Ho in Hin. by apply elem_of_nil in Hin.
  - assert (Hin : p ∈ omap (pin_of f) l) by (rewrite Ho; left).
    apply list_elem_of_omap in Hin as (anc & Ha & Hpin). apply Hl in Ha as (g & Hg & Ha). split; [eauto|].
    intros ->. by destruct (Hp _ _ Hpin).
Qed.

(** ** The baseline *)

(** The criteria, one by one. *)
Inductive falls_short (profile_hash : string → Settings → string) (f : Fleet) (profiles : gmap string Profile)
    (now : Time) (tag : string) (d : Device) (st : option DeviceStatus) : string → Prop :=
  | fs_never : st = None → falls_short profile_hash f profiles now tag d st BaselineRecency
  | fs_absent s : st = Some s → InactiveWindow < time_sub now (LastSeen s) →
      falls_short profile_hash f profiles now tag d st BaselineRecency
  | fs_drift a p name rest src : a ∈ Assignments f → Policies f !! a_Policy a = Some p →
      cut_at "@" (p_Profile p) = Some (name, rest) → profiles !! name = Some src →
      p_Profile p ≠ Provenance profile_hash src → tag ∈ AssignmentDevices f a →
      falls_short profile_hash f profiles now tag d st BaselineDrift
  | fs_secure_boot : wants f tag KeySecureBoot = true → (∀ s, st = Some s → st_SB s ≠ SBEnforcing) →
      falls_short profile_hash f profiles now tag d st BaselinePosture
  | fs_tpm : wants f tag KeyTPM2 = true → (∀ s, st = Some s → st_TPM2 s ≠ TPM2Bound) →
      falls_short profile_hash f profiles now tag d st BaselinePosture
  | fs_revision s : st = Some s → TargetRevision f d ≠ "" → st_Revision s ≠ TargetRevision f d →
      falls_short profile_hash f profiles now tag d st BaselineRevision.

Lemma posture_fails_spec f tag st : posture_fails f tag st = true ↔
  (wants f tag KeySecureBoot = true ∧ ∀ s, st = Some s → st_SB s ≠ SBEnforcing) ∨
  (wants f tag KeyTPM2 = true ∧ ∀ s, st = Some s → st_TPM2 s ≠ TPM2Bound).
Proof.
  unfold posture_fails. cbv zeta. destruct st as [s|].
  - rewrite andb_true_iff, negb_true_iff, andb_false_iff, !orb_false_iff, !orb_true_iff, !negb_false_iff, !bool_decide_eq_false.
    split.
    + intros [_ [[? ?]|[? ?]]]; [left|right]; (split; [done|]); by intros ? [= <-].
    + intros [[? H]|[? H]]; (split; [tauto|]); [left|right]; (split; [done|]); by apply H.
  - rewrite andb_true_r, orb_true_iff. split; [intros [?|?]; [left|right]; by split|tauto].
Qed.

Lemma drifted_spec profile_hash f profiles tag : drifted profile_hash f profiles tag = true ↔
  ∃ a p name rest src, a ∈ Assignments f ∧ Policies f !! a_Policy a = Some p ∧ cut_at "@" (p_Profile p) = Some (name, rest) ∧
    profiles !! name = Some src ∧ p_Profile p ≠ Provenance profile_hash src ∧ tag ∈ AssignmentDevices f a.
Proof.
  unfold drifted. rewrite existsb_exists. split.
  - intros (a & Ha & Hp). apply list_elem_of_In in Ha. destruct (Policies f !! a_Policy a) as [p|] eqn:Hpol; [|done].
    apply andb_true_iff in Hp as [Hs Ht%bool_decide_eq_true]. unfold stale_policy in Hs.
    destruct (cut_at "@" (p_Profile p)) as [[name rest]|] eqn:Hc; [|done]. destruct (profiles !! name) as [src|] eqn:Hsrc; [|done].
    apply negb_true_iff, bool_decide_eq_false in Hs. by exists a, p, name, rest, src.
  - intros (a & p & name & rest & src & Ha & Hp & Hc & Hsrc & Hne & Ht). exists a. split; [by apply list_elem_of_In|].
    rewrite Hp. unfold stale_policy. rewrite Hc, Hsrc, (bool_decide_eq_false_2 _ Hne), (bool_decide_eq_true_2 _ Ht). done.
Qed.

Lemma elem_of_guard (b : bool) (x y : string) : x ∈ (if b then [y] else []) ↔ b = true ∧ x = y.
Proof. destruct b; rewrite ?list_elem_of_singleton, ?elem_of_nil; naive_solver. Qed.

(** The baseline of a device in service names exactly the criteria it falls
    short of, and is met exactly when there is none; a device that is retired,
    not yet installed or unknown has no verdict. *)
Theorem baseline_exact profile_hash f profiles now tag st :
  match Devices f !! tag with
  | Some d =>
      if Retired d || Provisional d then Verdict profile_hash f profiles now tag st = mkBaseline false []
      else (∀ x, x ∈ Failures (Verdict profile_hash f profiles now tag st) ↔ falls_short profile_hash f profiles now tag d st x) ∧
           (Compliant (Verdict profile_hash f profiles now tag st) = true ↔
            ∀ x, ¬ falls_short profile_hash f profiles now tag d st x)
  | None => Verdict profile_hash f profiles now tag st = mkBaseline false []
  end.
Proof.
  unfold Verdict. destruct (Devices f !! tag) as [d|]; [|done]. destruct (Retired d || Provisional d); [done|]. cbv zeta.
  set (fails := (if recency_fails st now then _ else _) ++ _).
  assert (Hf : ∀ x, x ∈ fails ↔ falls_short profile_hash f profiles now tag d st x).
  { intros x. subst fails. rewrite !elem_of_app, !elem_of_guard, posture_fails_spec, drifted_spec. split.
    - intros [[Hr ->]|[[(a & p & name & rest & src & H) ->]|[[Hp ->]|[Hr ->]]]].
      + destruct st as [s|]; [|by apply fs_never]. apply Z.ltb_lt in Hr. by eapply fs_absent.
      + destruct H as (? & ? & ? & ? & ? & ?). by eapply fs_drift.
      + destruct Hp as [[? ?]|[? ?]]; [by apply fs_secure_boot|by apply fs_tpm].
      + unfold revision_fails in Hr. destruct st as [s|]; [|done].
        apply andb_true_iff in Hr as [H1%negb_true_iff%bool_decide_eq_false H2%negb_true_iff%bool_decide_eq_false].
        by eapply fs_revision.
    - intros [->|s -> Hw|a p name rest src ? ? ? ? ? ?|? ?|? ?|s -> Ht Hrev].
      + by left.
      + left. split; [by apply Z.ltb_lt|done].
      + right. left. split; [|done]. by exists a, p, name, rest, src.
      + right. right. left. tauto.
      + right. right. left. tauto.
      + right. right. right. split; [|done]. unfold revision_fails.
        by rewrite (bool_decide_eq_false_2 _ Ht), (bool_decide_eq_false_2 _ Hrev). }
  clearbody fails. split; [exact Hf|]. cbn [Compliant]. rewrite bool_decide_eq_true. split.
  - intros -> x Hx%Hf. by apply elem_of_nil in Hx.
  - intros Hno. destruct fails as [|x fails]; [done|]. destruct (Hno x). apply Hf. left.
Qed.

(** ** A capped wave *)

(** The wave offers "r2" to one of its two devices; the other follows main, where
    the configuration is already at "r3". *)
Definition capped_wave : Fleet :=
  zero_fleet <| f_Groups := {["g" := zero_group <| g_Pin := "r2" |>]} |>
             <| Devices := {["lt-1" := zero_device <| Groups := ["g"] |> <| d_Pin := "g" |>;
                             "lt-2" := zero_device <| Groups := ["g"] |>]} |>
             <| Rollout := Some (Build_RolloutPolicy [mkRing "g" [] "first" 0 0 false 0 1] "" None) |>.

Definition seen_at (now : Time) (tag rev : string) : DeviceStatus :=
  mkStatus tag rev "" "" now SBUnknown TPM2Unknown "" (mkUsage 0 0 0 0 0) (mkHealth "" []) None.
Definition wave_status (now : Time) : StatusTable :=
  {["lt-1" := seen_at now "lt-1" "r2"; "lt-2" := seen_at now "lt-2" "r3"]}.
Definition wave_revisions : Revisions :=
  mkRevisions (Some (Some "r3"))
    (Some (λ rev, if rev ==? "r2" then Some 2 else if rev ==? "r3" then Some 3 else None)) None.
#[local] Instance no_lock : LockJson := λ _, None.

Definition wave_view (now : Time) : res DbErr (list Incident) * Comp :=
  Incidents wave_revisions (λ _, "") capped_wave None now (mkComp (live (wave_status now)) no_memos).

(** The device the wave has not released yet is reported behind and off its
    baseline, at the revision the console itself gives it. *)
Theorem unreleased_judged_behind :
  ReleasedGroupDevices capped_wave "g" = ["lt-1"] ∧ TargetRevision capped_wave (dev capped_wave "lt-2") = "r2" ∧
  match (wave_view Hour).1 with Ok l => map (λ i, (in_Tag i, kind_string (in_Kind i))) l | Err _ => [] end = [("lt-2", "behind")] ∧
  Failures (Verdict (λ _ _, "") capped_wave ∅ Hour "lt-2" (Some (seen_at Hour "lt-2" "r3"))) = [BaselineRevision].
Proof. split_and!; vm_compute; reflexivity. Qed.

Lemma incidents_of_the_fleet_witness : ∃ i, (wave_view Hour).1 = Ok [i] ∧ in_Kind i ≠ RolloutStalled ∧ is_Some (Devices capped_wave !! in_Tag i).
Proof.
  destruct (wave_view Hour) as [r s'] eqn:Hv.
  assert (Hr : ∃ i, r = Ok [i] ∧ in_Kind i = Behind).
  { change r with (r, s').1. rewrite <- Hv. eexists. split; [vm_compute; reflexivity|reflexivity]. }
  destruct Hr as (i & -> & Hk). exists i. split; [done|]. rewrite Hk. split; [done|].
  destruct (incidents_of_the_fleet wave_revisions (λ _, "") capped_wave None Hour _ [i] s' Hv) as [H _].
  destruct (H i ltac:(left)) as [(d & Hd & _)|[Hs _]]; [by exists d|]. by rewrite Hk in Hs.
Defined.

(** A revision that the clone could not read when it was first asked about stays
    unknown once the clone has it, while its number does not. *)
Theorem fetched_too_late :
  let lock := mkLock "" {["dawo" := mkLockNode ∅ "core1" 0 "" "" "" ""]} in
  let before := mkRevisions None (Some (λ _, None)) (Some (λ _ _, None)) in
  let after := mkRevisions None (Some (λ _, Some 7)) (Some (λ _ _, Some "lock")) in
  let m := (@CoreVersionAt (λ _, Some lock) before "r7" (ReleaseNumber before "r7" no_memos).2).2 in
  (ReleaseNumber after "r7" m).1 = 7 ∧
  (@CoreVersionAt (λ _, Some lock) after "r7" m).1 = None ∧
  cv_Rev <$> (@CoreVersionAt (λ _, Some lock) after "r7" no_memos).1 = Some "core1".
Proof. split_and!; vm_compute; reflexivity. Qed.
