(* ===== verification/Evidence.v ===== *)
(** * The audit evidence (src/internal/app/evidence.go)

    The document of a period: its commits, its change requests, its rollout
    promotions, and the controls in force, read from the history, the change
    store and the fleet document. *)

From S2P Require Import Prelude GoLib FleetModel Resolve Changes Text Catalog GitRepo.

Record EvidenceRollout := mkEvRollout { er_When : Time; er_Subject : string; er_Hash : string }.

Record Evidence := mkEvidence {
  ev_From : Time; ev_To : Time; ev_GeneratedAt : Time; ev_Controls : Assurance;
  ev_Commits : list LogEntry; ev_Changes : list CR; ev_Rollouts : list EvidenceRollout
}.

Inductive EvErr := BadPeriod | LogUnavailable | LogFails (e : string) | TooFarBack | StoreFails (e : string).

Definition evidenceLogDepth : Z := 1000.
Definition no_controls : Assurance := Build_Assurance false false false false.
Definition pin_prefix : string := "rollout: pin ring".

Definition in_period (from to : Time) (e : LogEntry) : bool := negb (le_When e <? from) && (le_When e <? to).
Definition promotion (e : LogEntry) : option EvidenceRollout :=
  if has_prefix (le_Subject e) pin_prefix then Some (mkEvRollout (le_When e) (le_Subject e) (le_Hash e)) else None.

(** The guard against a log that was cut off inside the period. *)
Definition truncated (from : Time) (entries : list LogEntry) : bool :=
  (Z.of_nat (length entries) =? evidenceLogDepth)
  && match last entries with Some e => from <? le_When e | None => false end.

Definition touched (from to : Time) (c : CR) : bool := negb (cr_Updated c <? from) && (Created c <? to).

(** [log] is the repository's log, [None] when it keeps none, and [changes] the
    change store's list, [None] for a service without one. *)
Definition Export (f : Fleet) (log : option (Z → res string (list LogEntry))) (changes : option (res string (list CR)))
    (now from to : Time) : res EvErr Evidence :=
  refuse negb (from <? to) with BadPeriod;
  match log with
  | None => Err LogUnavailable
  | Some log =>
      match log evidenceLogDepth with
      | Err e => Err (LogFails e)
      | Ok entries =>
          let commits := keep_if (in_period from to) entries in
          refuse truncated from entries with TooFarBack;
          let ev crs := mkEvidence from to now (default no_controls (f_Assurance f)) commits crs (omap promotion commits) in
          match changes with
          | None => Ok (ev [])
          | Some (Err e) => Err (StoreFails e)
          | Some (Ok crs) => Ok (ev (keep_if (touched from to) crs))
          end
      end
  end.

(** ** The log the export reads *)

(** What git prints of the newest [n] commits of a history, which it lists in an
    order of its own; the dates are those of the authors. *)
Definition printed (n : nat) (history : list commit) : string :=
  join (map commit_line (take n history)) (String line_feed "") +:+ String line_feed "".
Definition git_log (history : list commit) (limit : Z) : res string (list LogEntry) :=
  Ok (parse_log (printed (Z.to_nat (log_limit limit)) history)).

Definition dated (k : commit) : Time := time_unix (k_Sec k).
(** No text of the commit holds the separator of the fields. *)
Definition readable (k : commit) : bool :=
  string_forall (λ a, negb (Ascii.eqb a unit_separator)) (k_Author k) &&
  string_forall (λ a, negb (Ascii.eqb a unit_separator)) (k_Email k) &&
  string_forall (λ a, negb (Ascii.eqb a unit_separator)) (k_Subject k).

(** What git keeps to: every field on one line, a hash of printable characters, a
    date of 64 bits, and a subject without blanks at its end. *)
Record printed_ok (k : commit) : Prop := {
  pk_hash : field_ok (k_Hash k) ∧ ∃ a s, k_Hash k = String a s ∧ graphic a = true;
  pk_lines : without line_feed (k_Author k) ∧ without line_feed (k_Email k) ∧ without line_feed (k_Subject k);
  pk_date : min_int64 ≤ k_Sec k ≤ max_int64;
  pk_end : strip_one (map reverse spaces) (reverse (list_ascii_of_string (k_Subject k))) = None
}.

Lemma split_on_pos c s : (1 ≤ length (split_on c s))%nat.
Proof. destruct s as [|a s]; simpl; [lia|]. destruct (Ascii.eqb a c); simpl; [lia|]. destruct (split_on c s); simpl; lia. Qed.

Lemma split_on_length c s t :
  length (split_on c (s +:+ String c t)) = (length (split_on c s) + length (split_on c t))%nat.
Proof.
  induction s as [|a s IH].
  - change ("" +:+ String c t) with (String c t). simpl. rewrite (proj2 (Ascii.eqb_eq c c) eq_refl). done.
  - change (String a s +:+ String c t) with (String a (s +:+ String c t)). cbn [split_on]. destruct (Ascii.eqb a c); [by simpl; rewrite IH|].
    pose proof (split_on_pos c s). pose proof (split_on_pos c (s +:+ String c t)).
    destruct (split_on c s) as [|w ws], (split_on c (s +:+ String c t)) as [|w' ws']; simpl in *; lia.
Qed.

Lemma split_on_more c s : string_forall (λ a, negb (Ascii.eqb a c)) s = false → (2 ≤ length (split_on c s))%nat.
Proof.
  induction s as [|a s IH]; simpl; [done|]. destruct (Ascii.eqb a c); simpl; [intros _; pose proof (split_on_pos c s); lia|].
  intros Hs%IH. destruct (split_on c s); simpl in *; lia.
Qed.

(** A line is read when no field holds the separator, and is dropped otherwise. *)
Lemma parse_line_readable k : printed_ok k → parse_log_line (commit_line k) = if readable k then Some (commit_entry k) else None.
Proof.
  intros [[Hh _] (Ha & He & Hs) Hd _]. destruct (readable k) eqn:Hr.
  - apply parse_commit_line. unfold readable in Hr. apply andb_true_iff in Hr as [[H1 H2]%andb_true_iff H3].
    unfold commit_ok, field_ok. naive_solver.
  - assert (Hlen : (6 ≤ length (split_on unit_separator (commit_line k)))%nat).
    { assert (Hstep : ∀ s t, length (split_on unit_separator (s +:+ String unit_separator "" +:+ t)) =
                             (length (split_on unit_separator s) + length (split_on unit_separator t))%nat)
        by (intros; apply split_on_length).
      unfold commit_line, log_line. cbn [join]. rewrite !Hstep. unfold readable in Hr.
      pose proof (split_on_pos unit_separator (k_Hash k)). pose proof (split_on_pos unit_separator (k_Author k)).
      pose proof (split_on_pos unit_separator (k_Email k)). pose proof (split_on_pos unit_separator (pretty (k_Sec k))).
      pose proof (split_on_pos unit_separator (k_Subject k)).
      apply andb_false_iff in Hr as [[Hr|Hr]%andb_false_iff|Hr]; apply split_on_more in Hr; lia. }
    unfold parse_log_line. by destruct (split_on unit_separator (commit_line k)) as [|? [|? [|? [|? [|? [|? ?]]]]]]; simpl in Hlen; try lia.
Qed.

Lemma commit_line_one k : printed_ok k → without line_feed (commit_line k).
Proof.
  intros [[[_ Hh] _] (Ha & He & Hs) _ _]. apply join_without; [done|]. repeat constructor; try done. by apply pretty_without.
Qed.

(** The subject ends the text. *)
Lemma printed_end l k : ∃ p, join (map commit_line (l ++ [k])) (String line_feed "") = p +:+ String unit_separator (k_Subject k).
Proof.
  assert (Hk : ∃ p, commit_line k = p +:+ String unit_separator (k_Subject k)).
  { exists (join [k_Hash k; k_Author k; k_Email k; pretty (k_Sec k)] (String unit_separator "")).
    unfold commit_line, log_line. cbn [join]. by rewrite !string_app_assoc. }
  destruct Hk as [q Hq]. induction l as [|x l [p IH]]; [by exists q|].
  exists (commit_line x +:+ String line_feed "" +:+ p). rewrite !string_app_assoc, <- IH.
  destruct l; done.
Qed.

Lemma ascii_bytes_app s t : list_ascii_of_string (s +:+ t) = list_ascii_of_string s ++ list_ascii_of_string t.
Proof. induction s as [|a s IH]; [done|]. simpl. by f_equal. Qed.

(** No space reaches over a byte that is in none. *)
Lemma strip_one_up_to sp (c : ascii) l m : strip_one sp l = None → (∀ p, p ∈ sp → c ∉ p) → strip_one sp (l ++ c :: m) = None.
Proof.
  intros Hn Hc. apply strip_one_None. intros p x Hp Heq. apply app_eq_inv in Heq as [(k & -> & Hk)|(k & -> & Hk)].
  - by apply (proj1 (strip_one_None sp _) Hn p k Hp).
  - destruct k as [|b k]; simpl in Hk.
    + rewrite app_nil_r in Hp. by apply (proj1 (strip_one_None sp _) Hn l [] Hp); rewrite app_nil_r.
    + injection Hk as -> _. apply (Hc _ Hp). apply elem_of_app. right. left.
Qed.

Lemma printed_stops l k : printed_ok k →
  strip_one (map reverse spaces) (reverse (list_ascii_of_string (join (map commit_line (l ++ [k])) (String line_feed "")))) = None.
Proof.
  intros Hk. destruct (printed_end l k) as [p ->]. rewrite ascii_bytes_app, reverse_app. cbn [list_ascii_of_string].
  rewrite reverse_cons, <- (assoc_L (++)). apply strip_one_up_to; [exact (pk_end k Hk)|].
  assert (Hs : forallb (λ p, negb (bool_decide (unit_separator ∈ p))) (map reverse spaces) = true) by (vm_compute; reflexivity).
  intros q Hq Hin. rewrite forallb_forall in Hs. specialize (Hs q (proj1 (list_elem_of_In _ _) Hq)).
  by rewrite bool_decide_eq_true_2 in Hs.
Qed.

(** The log read back: the readable commits among those that were printed. *)
Lemma parse_printed n history : (∀ k, k ∈ history → printed_ok k) →
  parse_log (printed n history) = commit_entry <$> keep_if readable (take n history).
Proof.
  intros Hok. unfold printed. assert (Htake : ∀ k, k ∈ take n history → printed_ok k).
  { intros k Hk. apply Hok. rewrite <- (take_drop n history). apply elem_of_app. by left. }
  revert Htake. generalize (take n history). clear. intros l Hl. destruct l as [|k0 l'] eqn:Heq; [vm_compute; reflexivity|].
  rewrite <- Heq in *. assert (Hlast : ∃ m k, l = m ++ [k]).
  { destruct l as [|x l] using rev_ind; [done|eauto]. }
  unfold parse_log. assert (Htrim : trim_space (join (map commit_line l) (String line_feed "") +:+ String line_feed "") = join (map commit_line l) (String line_feed "")).
  { assert (Hh : ∃ a s, join (map commit_line l) (String line_feed "") = String a s ∧ graphic a = true).
    { destruct (pk_hash k0 (Hl k0 ltac:(rewrite Heq; left))) as (_ & a & s & Hs & Ha). rewrite Heq. cbn [map].
      unfold commit_line at 1. unfold log_line. rewrite Hs. cbn [join]. destruct (map commit_line l'); eauto. }
    destruct Hh as (a & s & Hs & Ha). rewrite Hs. apply trim_space_line; [done|]. rewrite <- Hs.
    destruct Hlast as (m & k & ->). apply printed_stops, Hl, elem_of_app. right. left. }
  rewrite Htrim, split_on_join.
  - clear -Hl. induction l as [|k l IH]; [done|].
    change (omap parse_log_line (map commit_line (k :: l))) with
      (match parse_log_line (commit_line k) with Some e => e :: omap parse_log_line (map commit_line l) | None => omap parse_log_line (map commit_line l) end).
    rewrite parse_line_readable by (apply Hl; left). rewrite keep_if_cons. rewrite IH by (intros x Hx; apply Hl; by right).
    by destruct (readable k).
  - by rewrite Heq.
  - apply Forall_fmap, Forall_forall. intros k Hk. by apply commit_line_one, Hl.
Qed.

(** ** Completeness *)

(** The authors' dates run backwards along the log. *)
Definition dates_descend (history : list commit) : Prop := StronglySorted (λ a b, dated b ≤ dated a) history.

Lemma sorted_take_drop n history e l : dates_descend history → last (take n history) = Some l → e ∈ drop n history →
  dated e ≤ dated l.
Proof.
  intros Hs Hl He. rewrite <- (take_drop n history) in Hs. apply StronglySorted_app in Hs as (H & _ & _).
  apply (H l e); [|done]. by apply last_Some_elem_of.
Qed.

Lemma keep_if_every {A} (p : A → bool) l : (∀ a, a ∈ l → p a = true) → keep_if p l = l.
Proof.
  induction l as [|a l IH]; intros Hp; [done|]. rewrite keep_if_cons, (Hp a) by left. f_equal.
  apply IH. intros b Hb. apply Hp. by right.
Qed.

(** An export whose guard let it through although the log goes on: a commit among
    the thousand could not be read, or the oldest of them is dated at or before
    the first instant. *)
Lemma guard_passed from history : (1000 < length history)%nat →
  truncated from (commit_entry <$> keep_if readable (take 1000 history)) = false →
  (∃ k, k ∈ take 1000 history ∧ readable k = false) ∨ ∃ l, last (take 1000 history) = Some l ∧ dated l ≤ from.
Proof.
  intros Hlen Htr. destruct (existsb (λ k, negb (readable k)) (take 1000 history)) eqn:He.
  { apply existsb_exists in He as (k & Hk%list_elem_of_In & Hr). left. exists k. split; [done|]. by apply negb_true_iff. }
  right. assert (Hall : keep_if readable (take 1000 history) = take 1000 history).
  { apply keep_if_every. intros k Hk. destruct (readable k) eqn:Hr; [done|]. exfalso.
    apply not_true_iff_false in He. apply He, existsb_exists. exists k. rewrite Hr. by apply list_elem_of_In in Hk. }
  rewrite Hall in Htr. unfold truncated in Htr. rewrite length_fmap, length_take_le in Htr by lia.
  change (Z.of_nat 1000 =? evidenceLogDepth) with true in Htr. rewrite fmap_last in Htr.
  destruct (last (take 1000 history)) as [l|] eqn:Hl; simpl in Htr.
  - apply Z.ltb_ge in Htr. by exists l.
  - apply last_None in Hl. apply (f_equal length) in Hl. rewrite length_take_le in Hl by lia. done.
Qed.

(** C18: what an export that is given states, over any history of commits whose
    fields are each on one line, whose hashes are printable, whose dates are of 64
    bits and whose subjects end in no blank.  Of the thousand commits git lists
    first, it states exactly those of the period whose texts hold no field
    separator, in git's order; the change requests are those touched in the
    period; the promotions are its commits that pin a ring.  A commit of the
    period that is missing holds a separator, or lies beyond the thousand - and
    then the guard against that did not fire, because a commit among the thousand
    could not be read, or because the oldest of them is dated at or before the
    first instant; where the dates run backwards along the log, the missing
    commit is in that last case dated at the very first instant. *)
Theorem evidence_complete f history changes now from to ev :
  (∀ k, k ∈ history → printed_ok k) →
  Export f (Some (git_log history)) changes now from to = Ok ev →
  from < to ∧
  ev_Commits ev = commit_entry <$> keep_if (λ k, readable k && in_period from to (commit_entry k)) (take 1000 history) ∧
  (∀ k, k ∈ history → from ≤ dated k < to → commit_entry k ∈ ev_Commits ev ∨ readable k = false ∨
     k ∈ drop 1000 history ∧
     ((∃ k', k' ∈ take 1000 history ∧ readable k' = false) ∨
      ∃ l, last (take 1000 history) = Some l ∧ dated l ≤ from ∧ (dates_descend history → dated k = from))) ∧
  (∀ crs, changes = Some (Ok crs) → ev_Changes ev = keep_if (touched from to) crs) ∧
  (∀ r, r ∈ ev_Rollouts ev ↔ ∃ e, e ∈ ev_Commits ev ∧ has_prefix (le_Subject e) pin_prefix = true ∧
     r = mkEvRollout (le_When e) (le_Subject e) (le_Hash e)).
Proof.
  intros Hok. unfold Export, git_log. change (Z.to_nat (log_limit evidenceLogDepth)) with 1000%nat.
  rewrite (parse_printed 1000 history Hok). destruct (Z.ltb_spec from to) as [Hft|]; [|done]. simpl negb. cbv iota zeta.
  set (entries := commit_entry <$> keep_if readable (take 1000 history)). destruct (truncated from entries) eqn:Htr; [done|]. intros Hex.
  assert (Hin : ∀ k, in_period from to (commit_entry k) = true ↔ from ≤ dated k < to).
  { intros k. unfold in_period. change (le_When (commit_entry k)) with (dated k).
    rewrite andb_true_iff, negb_true_iff, Z.ltb_ge, Z.ltb_lt. tauto. }
  assert (Hkeep : keep_if (in_period from to) entries =
    commit_entry <$> keep_if (λ k, readable k && in_period from to (commit_entry k)) (take 1000 history)).
  { subst entries. generalize (take 1000 history). intros l. induction l as [|k l IH]; [done|].
    rewrite !keep_if_cons. destruct (readable k); cbn [andb]; [|done]. rewrite fmap_cons, keep_if_cons.
    destruct (in_period from to (commit_entry k)); [by rewrite IH|done]. }
  assert (H : ev_Commits ev = keep_if (in_period from to) entries ∧ ev_Rollouts ev = omap promotion (ev_Commits ev) ∧
              ∀ crs, changes = Some (Ok crs) → ev_Changes ev = keep_if (touched from to) crs).
  { destruct changes as [[crs|]|]; [|done|]; injection Hex as <-; split_and!; try done. by intros crs' [= <-]. }
  clear Hex. destruct H as (Hc & Hr & Hch). split; [done|]. split; [by rewrite Hc|]. split; [|split; [done|]].
  - intros k Hk Hp. destruct (readable k) eqn:Hread; [|by right; left]. rewrite <- (take_drop 1000 history), elem_of_app in Hk.
    destruct Hk as [Hk|Hk].
    + left. rewrite Hc, Hkeep. apply list_elem_of_fmap. exists k. split; [done|]. apply elem_of_keep_if.
      split; [done|]. rewrite Hread. by apply Hin.
    + right; right. split; [done|]. assert (Hlen : (1000 < length history)%nat).
      { destruct (Nat.lt_ge_cases 1000 (length history)) as [|Hle]; [done|]. rewrite drop_ge in Hk by done. by apply elem_of_nil in Hk. }
      destruct (guard_passed from history Hlen Htr) as [?|(l & Hl & Hd)]; [by left|right]. exists l. split_and!; [done..|].
      intros Hs. pose proof (sorted_take_drop _ _ _ _ Hs Hl Hk). lia.
  - intros r. rewrite Hr, list_elem_of_omap. unfold promotion. split.
    + intros (e & He & Hp). exists e. destruct (has_prefix (le_Subject e) pin_prefix); [|done]. by injection Hp as <-.
    + intros (e & He & Hp & ->). exists e. by rewrite Hp.
Qed.

(** ** Cases *)

Definition by_bram (sec : Z) (subject : string) : commit := mkCommit "c0ffee" "Bram" "b@x" sec subject.

(** Ever fewer commits than the export reads, two of them in the period. *)
Definition short_history : list commit := [by_bram 40 "late"; by_bram 25 "rollout: pin ring 0 (g) to r1"; by_bram 20 "fleet: add lt-1"; by_bram 5 "init"].

Lemma short_history_ok k : k ∈ short_history → printed_ok k.
Proof.
  unfold short_history. rewrite !elem_of_cons, elem_of_nil. intros [->|[->|[->|[->|[]]]]];
    (split; [split; [split; vm_compute; reflexivity|eexists _, _; split; reflexivity]|split_and!; vm_compute; reflexivity
            |vm_compute; split; discriminate|vm_compute; reflexivity]).
Qed.

Lemma evidence_complete_witness : ∃ ev,
  Export zero_fleet (Some (git_log short_history)) None (time_unix 50) (time_unix 10) (time_unix 30) = Ok ev ∧
  commit_entry (by_bram 20 "fleet: add lt-1") ∈ ev_Commits ev ∧ length (ev_Commits ev) = 2%nat ∧
  mkEvRollout (time_unix 25) "rollout: pin ring 0 (g) to r1" "c0ffee" ∈ ev_Rollouts ev.
Proof.
  destruct (Export zero_fleet (Some (git_log short_history)) None (time_unix 50) (time_unix 10) (time_unix 30)) as [ev|] eqn:Hev;
    [|vm_compute in Hev; discriminate Hev].
  exists ev. split; [done|].
  destruct (evidence_complete zero_fleet short_history None _ _ _ ev short_history_ok Hev) as (_ & Hc & Hin & _ & Hr).
  assert (Hall : ∀ k, k ∈ short_history → readable k = true → time_unix 10 ≤ dated k < time_unix 30 → commit_entry k ∈ ev_Commits ev).
  { intros k Hk Hread Hp. destruct (Hin k Hk Hp) as [|[Hno|[Hd _]]]; [done|congruence|]. vm_compute in Hd. by apply elem_of_nil in Hd. }
  split; [apply Hall; [unfold short_history; set_solver|reflexivity|vm_compute; split; [discriminate|reflexivity]]|].
  split; [rewrite Hc; vm_compute; reflexivity|].
  apply Hr. exists (commit_entry (by_bram 25 "rollout: pin ring 0 (g) to r1")). split; [|split; [vm_compute; reflexivity|reflexivity]].
  apply Hall; [unfold short_history; set_solver|reflexivity|vm_compute; split; [discriminate|reflexivity]].
Defined.

(** What a full log of one commit after another leads to. *)
Definition subjects_of (history : list commit) (from to : Z) : option (list string) :=
  match Export zero_fleet (Some (git_log history)) None (time_unix 50) (time_unix from) (time_unix to) with
  | Ok ev => Some (map le_Subject (filter (λ e, le_Subject e ≠ "fleet: edit") (ev_Commits ev))) | Err _ => None
  end.
Definition long (n : nat) : list commit := replicate n (by_bram 20 "fleet: edit").

(** The guard fires on a period the log does not reach back to; one commit with a
    separator in its author's name switches it off, and the commits beyond the
    thousand are left out in silence. *)
Theorem evidence_guard_switched_off :
  subjects_of (long 1000 ++ [by_bram 15 "fleet: wipe lt-1"]) 10 30 = None ∧
  subjects_of (mkCommit "c1" (String "B" (String unit_separator "ram")) "b@x" 25 "fleet: edit" :: long 999 ++ [by_bram 15 "fleet: wipe lt-1"]) 10 30 = Some [].
Proof. vm_compute. split; reflexivity. Qed.

(** The guard compares strictly: when the thousandth commit is dated exactly at
    the first instant, an older one of the same instant is left out in silence. *)
Theorem evidence_boundary_missed :
  subjects_of (long 999 ++ [by_bram 10 "merge change a"; by_bram 10 "merge change b"]) 10 30 = Some ["merge change a"].
Proof. vm_compute. reflexivity. Qed.

(** The log git printed, read the way the repository reads it: a commit whose
    author's name holds a unit separator is not in the export, which succeeds. *)
Theorem evidence_without_a_commit :
  let printed := join [log_line "c0" "Bram" "b@x" 20 "fleet: wipe lt-1"; log_line "c1" (String "B" (String unit_separator "ram")) "b@x" 15 "fleet: wipe lt-2"]
                   (String line_feed "") +:+ String line_feed "" in
  match Export zero_fleet (Some (λ _, Ok (parse_log printed))) None (time_unix 50) (time_unix 10) (time_unix 30) with
  | Ok ev => map le_Subject (ev_Commits ev) = ["fleet: wipe lt-1"]
  | Err _ => False
  end.
Proof. vm_compute. reflexivity. Qed.
