(* ===== verification/Overlays.v ===== *)
(** * Custom overlays (src/internal/app/config_overlays.go)

    The Nix modules an operator writes in the console: files of the repository
    beside the fleet document, written and removed by a transaction of their
    own, with the gate and the push retries of the other one. *)

From S2P Require Import Prelude GoLib FleetModel Groups Resolve Apps Mutate DeviceOps Classes Verdicts Document ConfigTx Text.

(** The rest of the repository's interface (src/internal/ports/ports.go). *)
Class FilesRepo (W : Type) := {
  RemoveFile : string → SE W string unit;
  ListFiles : string → W → res string (list string)
}.

Inductive OverlayErr :=
  | BadName (name : string) | NoContent (name : string) | OvRead (e : ReadErr) | OvList (e : string)
  | OvTx (e : TxErr).

Definition overlayDir : string := "overlays".
Definition overlay_head (a : ascii) : bool := is_lower a || is_digit a.
Definition overlay_char (a : ascii) : bool := overlay_head a || Ascii.eqb a "-".
(** [overlayNameRE]. *)
Definition overlayName (name : string) : bool :=
  match name with
  | String a r => overlay_head a && string_forall overlay_char r && (len r <=? 62)
  | EmptyString => false
  end.
Definition overlayPath (name : string) : string := overlayDir +:+ "/" +:+ name +:+ ".nix".

(** [strings.CutSuffix(f, ".nix")]. *)
Definition cut_nix (f : string) : option string :=
  let n := String.length f in
  if (4 <=? n)%nat && (String.substring (n - 4) 4 f ==? ".nix") then Some (String.substring 0 (n - 4) f) else None.

Section overlays.
  Context {W : Type} `{ConfigRepo W, !FilesRepo W, GoJson, Fingerprint, FleetJson, OverlayParsers}.

Notation M A := (SE (ConfigService W) TxErr A).

Definition repo_of (s : ConfigService W) : W := tx_repo (cs_tx s).

Definition ListOverlays (s : ConfigService W) : res OverlayErr (list string) :=
    match ListFiles overlayDir (repo_of s) with
    | Err e => Err (OvList e)
    | Ok files => Ok (omap cut_nix files)
    end.

Definition ReadOverlay (name : string) (s : ConfigService W) : res OverlayErr string :=
    refuse negb (overlayName name) with BadName name;
    lift_err OvRead (ReadFile (overlayPath name) (repo_of s)).

(** The gate's verdict on the working tree, undone when it refuses. *)
Definition judge (gate : Gate W) (path : string) (orig : option string) (msg : string) (a : Author) : M unit :=
    do! verdict <- se_get (λ s, gate (repo_of s) (Representatives (cs_Fleet s)));
    match verdict with
    | Some err => λ s,
        let '(r, s) := on_tx id (λ w, match (match orig with Some o => WriteFile path o w | None => RemoveFile path w end) with
                                      | (Ok _, w) => (Err (GateE err), w)
                                      | (Err rerr, w) => (Err (RollbackE err rerr), w)
                                      end) s in (r : res TxErr unit, s)
    | None => on_tx CommitE (CommitFile msg a path)
    end.

(** [content] is [None] for a removal. *)
Definition auxOnce (gate : Gate W) (path : string) (content : option string) (msg : string) (a : Author) : M unit :=
    do! orig <- se_get (λ s, match ReadFile path (repo_of s) with Ok o => Some o | Err _ => None end);
    match content with
    | None =>
        match orig with
        | None => se_ret tt
        | Some _ => run! on_tx WriteE (RemoveFile path); judge gate path orig msg a
        end
    | Some c =>
        if bool_decide (orig = Some c) then se_ret tt
        else run! on_tx WriteE (WriteFile path c); judge gate path orig msg a
    end.

Fixpoint aux_retry (n : nat) (gate : Gate W) (path : string) (content : option string) (msg : string) (a : Author) : M unit :=
    match n with
    | O => se_err (GaveUp maxPushRetries)
    | S n =>
        run! on_tx SyncE Sync;
        run! auxOnce gate path content msg a;
        λ s, match Push (repo_of s) with
             | (Ok _, w) => (Ok tt, mkService (mkTx w (tx_verdicts (cs_tx s))) (cs_snap s))
             | (Err (PushFailed e), w) => (Err (PushE e), mkService (mkTx w (tx_verdicts (cs_tx s))) (cs_snap s))
             | (Err ErrConflict, w) =>
                 aux_retry n gate path content msg a (mkService (mkTx w (tx_verdicts (cs_tx s))) (cs_snap s))
             end
    end.

Definition auxApply (gate : Gate W) (path : string) (content : option string) (msg : string) (a : Author) : M unit :=
    if HasRemote then aux_retry maxPushRetries gate path content msg a else auxOnce gate path content msg a.

Definition as_overlay {A} (m : M A) : SE (ConfigService W) OverlayErr A := λ s, let '(r, s) := m s in (lift_err OvTx r, s).

Definition WriteOverlay (gate : Gate W) (name code : string) (a : Author) : SE (ConfigService W) OverlayErr unit :=
    if negb (overlayName name) then se_err (BadName name)
    else if trim_space code ==? "" then se_err (NoContent name)
    else as_overlay (auxApply gate (overlayPath name) (Some code) ("overlays: write " +:+ name) a).

Definition DeleteOverlay (gate : Gate W) (name : string) (a : Author) : SE (ConfigService W) OverlayErr unit :=
    if negb (overlayName name) then se_err (BadName name)
    else as_overlay (auxApply gate (overlayPath name) None ("overlays: remove " +:+ name) a).

(** ** The working tree and its commits *)

(** A commit records a path and what it holds, [None] when it is gone. *)
Record FileCommit := mkFileCommit { fc_msg : string; fc_author : Author; fc_path : string; fc_content : option string }.

(** What the operations do to the files of the tree and to the commits. *)
Class FileLaws := {
  file : W → string → option string;
  commits : W → list FileCommit;
  read_file w p d : ReadFile p w = Ok d → file w p = Some d;
  read_absent w p : ReadFile p w = Err NotExist → file w p = None;
  write_file p d w r w' : WriteFile p d w = (r, w') →
    commits w' = commits w ∧ (∀ q, q ≠ p → file w' q = file w q) ∧ (r = Ok tt → file w' p = Some d);
  remove_file p w r w' : RemoveFile p w = (r, w') →
    commits w' = commits w ∧ (∀ q, q ≠ p → file w' q = file w q) ∧ (r = Ok tt → file w' p = None);
  commit_file m a p w r w' : CommitFile m a p w = (r, w') →
    (∀ q, file w' q = file w q) ∧
    commits w' = match r with Ok _ => mkFileCommit m a p (file w p) :: commits w | Err _ => commits w end
}.
Context `{!FileLaws}.

Lemma on_tx_spec {E A} (k : E → TxErr) (m : SE W E A) (s : ConfigService W) r s' : on_tx k m s = (r, s') →
  ∃ r0, m (repo_of s) = (r0, repo_of s') ∧ r = lift_err k r0 ∧ cs_snap s' = cs_snap s.
Proof using Type.
  unfold on_tx, on_repo, repo_of. destruct (m (tx_repo (cs_tx s))) as [r0 w] eqn:Hm. intros [= <- <-]. by exists r0.
Qed.

(** How the attempt ends, the tree holding [content] at the path on entry. *)
Inductive judged (gate : Gate W) (path : string) (orig content : option string) (msg : string) (a : Author)
    (s s' : ConfigService W) : res TxErr unit → Prop :=
  | jd_committed :
      gate (repo_of s) (Representatives (cs_Fleet s)) = None →
      commits (repo_of s') = mkFileCommit msg a path content :: commits (repo_of s) →
      file (repo_of s') path = content → judged gate path orig content msg a s s' (Ok tt)
  | jd_commit_failed e :
      gate (repo_of s) (Representatives (cs_Fleet s)) = None →
      commits (repo_of s') = commits (repo_of s) →
      file (repo_of s') path = content → judged gate path orig content msg a s s' (Err (CommitE e))
  | jd_refused err :
      gate (repo_of s) (Representatives (cs_Fleet s)) = Some err →
      commits (repo_of s') = commits (repo_of s) →
      file (repo_of s') path = orig → judged gate path orig content msg a s s' (Err (GateE err))
  | jd_dirty err e :
      gate (repo_of s) (Representatives (cs_Fleet s)) = Some err →
      commits (repo_of s') = commits (repo_of s) → judged gate path orig content msg a s s' (Err (RollbackE err e)).

Definition same_elsewhere (path : string) (s s' : ConfigService W) : Prop :=
  cs_snap s' = cs_snap s ∧ ∀ q, q ≠ path → file (repo_of s') q = file (repo_of s) q.

Lemma judge_spec gate path orig msg a s r s' : judge gate path orig msg a s = (r, s') →
  same_elsewhere path s s' ∧ judged gate path orig (file (repo_of s) path) msg a s s' r.
Proof using Type*.
  unfold judge. rewrite se_get_bind. destruct (gate (repo_of s) (Representatives (cs_Fleet s))) as [err|] eqn:Hg.
  - match goal with |- context [on_tx id ?m s] => destruct (on_tx id m s) as [r1 s1] eqn:Hm end. intros [= <- <-].
    apply on_tx_spec in Hm as (r0 & Hm & -> & Hsnap).
    assert (H7 : commits (repo_of s1) = commits (repo_of s) ∧ (∀ q, q ≠ path → file (repo_of s1) q = file (repo_of s) q) ∧
      match r0 with Err (GateE e) => e = err ∧ file (repo_of s1) path = orig | Err (RollbackE e _) => e = err | _ => False end).
    { destruct orig as [o|].
      - destruct (WriteFile path o (repo_of s)) as [[[]|e] w] eqn:Hw; injection Hm as <- <-;
          destruct (write_file _ _ _ _ _ Hw) as (? & ? & Hp); split_and!; auto.
      - destruct (RemoveFile path (repo_of s)) as [[[]|e] w] eqn:Hw; injection Hm as <- <-;
          destruct (remove_file _ _ _ _ Hw) as (? & ? & Hp); split_and!; auto. }
    destruct H7 as (Hc & Hq & Hr). split; [by split|].
    destruct r0 as [|[]]; try done; simpl.
    + destruct Hr as [-> Hr]. by apply jd_refused.
    + subst. by apply jd_dirty.
  - intros Hm. apply on_tx_spec in Hm as (r0 & Hm & -> & Hsnap). apply commit_file in Hm as [Hq Hc].
    split; [by split|]. destruct r0 as [[]|e]; simpl.
    + by apply jd_committed.
    + by apply jd_commit_failed.
Qed.

(** The outcomes of one attempt. *)
Inductive attempt (gate : Gate W) (path : string) (content : option string) (msg : string) (a : Author)
    (s s' : ConfigService W) : res TxErr unit → Prop :=
  | at_unchanged : s' = s → (file (repo_of s) path = content ∨ content = None ∧ ∃ e, ReadFile path (repo_of s) = Err e) →
      attempt gate path content msg a s s' (Ok tt)
  | at_write_failed e : commits (repo_of s') = commits (repo_of s) → attempt gate path content msg a s s' (Err (WriteE e))
  | at_judged orig s1 r : (∀ d, ReadFile path (repo_of s) = Ok d → orig = Some d) →
      ((∃ e, ReadFile path (repo_of s) = Err e) → orig = None) →
      commits (repo_of s1) = commits (repo_of s) → file (repo_of s1) path = content → cs_snap s1 = cs_snap s →
      judged gate path orig content msg a s1 s' r → attempt gate path content msg a s s' r.

Lemma auxOnce_spec gate path content msg a s r s' : auxOnce gate path content msg a s = (r, s') →
  same_elsewhere path s s' ∧ attempt gate path content msg a s s' r.
Proof using Type*.
  unfold auxOnce. rewrite se_get_bind. cbv beta.
  set (orig := match ReadFile path (repo_of s) with Ok o => Some o | Err _ => None end).
  assert (Ho : (∀ d, ReadFile path (repo_of s) = Ok d → orig = Some d) ∧ ((∃ e, ReadFile path (repo_of s) = Err e) → orig = None)).
  { subst orig. destruct (ReadFile path (repo_of s)); (split; [intros d|intros [e0 He]]); congruence. }
  destruct Ho as [Ho1 Ho2].
  assert (Hnone : orig = None → ∃ e, ReadFile path (repo_of s) = Err e).
  { subst orig. destruct (ReadFile path (repo_of s)); [done|eauto]. }
  assert (Hsome : ∀ d, orig = Some d → file (repo_of s) path = Some d).
  { intros d. subst orig. destruct (ReadFile path (repo_of s)) eqn:Hr; [|done]. intros [= ->]. by apply read_file. }
  clearbody orig.
  assert (Hstep : ∀ m : SE W string unit, (∀ r0 w', m (repo_of s) = (r0, w') → commits w' = commits (repo_of s) ∧
      (∀ q, q ≠ path → file w' q = file (repo_of s) q) ∧ (r0 = Ok tt → file w' path = content)) →
    (run! on_tx WriteE m; judge gate path orig msg a) s = (r, s') →
    same_elsewhere path s s' ∧ attempt gate path content msg a s s' r).
  { intros m Hm [([] & s1 & Hr1 & Hr2)|(e & Hr1 & ->)]%se_bind_inv; apply on_tx_spec in Hr1 as (r0 & Hr0 & Hlift & Hsnap);
      destruct (Hm _ _ Hr0) as (Hc & Hq & Hp); destruct r0 as [[]|e0]; simpl in Hlift; try discriminate Hlift.
    - apply judge_spec in Hr2 as [[Hsn Hqq] Hj]. specialize (Hp eq_refl). split.
      + split; [by rewrite Hsn|]. intros q Hne. rewrite (Hqq q Hne). by apply Hq.
      + rewrite Hp in Hj. by eapply at_judged.
    - injection Hlift as ->. split; [by split|]. by apply at_write_failed. }
  destruct content as [c|].
  - case_bool_decide as Heq.
    + intros [= <- <-]. split; [done|]. apply at_unchanged; [done|]. left. by rewrite (Hsome c Heq).
    + apply Hstep. intros r0 w' Hw. destruct (write_file _ _ _ _ _ Hw) as (? & ? & ?). auto.
  - destruct orig as [o|].
    + apply Hstep. intros r0 w' Hw. destruct (remove_file _ _ _ _ Hw) as (? & ? & ?). auto.
    + intros [= <- <-]. split; [done|]. apply at_unchanged; [done|]. right. split; [done|]. by apply Hnone.
Qed.
End overlays.

(** One attempt at an overlay touches no other file, and what it commits is
    that one file with that content, in a tree the gate accepted on the
    representatives of the fleet as it was last loaded.  An attempt the gate
    refuses commits nothing and leaves the file as it was, if it could be read
    or was absent; one that succeeds leaves the file as asked, unless it was a
    removal of a file that could not be read. *)
Theorem overlay_all_or_nothing {W : Type} `{ConfigRepo W, !FilesRepo W, GoJson, Fingerprint, OverlayParsers, !FileLaws}
    (gate : Gate W) path content msg a (s s' : ConfigService W) r :
  auxOnce gate path content msg a s = (r, s') →
  (∀ q, q ≠ path → file (repo_of s') q = file (repo_of s) q) ∧
  (commits (repo_of s') = commits (repo_of s) ∨
   r = Ok tt ∧ commits (repo_of s') = mkFileCommit msg a path content :: commits (repo_of s) ∧
     file (repo_of s') path = content ∧
     ∃ s1, file (repo_of s1) path = content ∧ cs_Fleet s1 = cs_Fleet s ∧ gate (repo_of s1) (Representatives (cs_Fleet s)) = None) ∧
  (∀ e, r = Err (GateE e) → commits (repo_of s') = commits (repo_of s) ∧
     ((∀ why, ReadFile path (repo_of s) ≠ Err (ReadFailed why)) → file (repo_of s') path = file (repo_of s) path)) ∧
  (r = Ok tt → file (repo_of s') path = content ∨ content = None ∧ ∃ e, ReadFile path (repo_of s) = Err e).
Proof.
  intros [[Hsnap Hq] Ha]%auxOnce_spec. split; [done|]. destruct Ha as [-> Hf|e Hc|orig s1 r Ho1 Ho2 Hc Hf Hs Hj].
  - split; [by left|]. split; [done|]. intros _. tauto.
  - split; [by left|]. done.
  - assert (Hfl : cs_Fleet s1 = cs_Fleet s) by (unfold cs_Fleet; by rewrite Hs).
    destruct Hj as [Hg Hcm Hp|e Hg Hcm Hp|err Hg Hcm Hp|err e Hg Hcm]; rewrite Hc in Hcm; rewrite Hfl in Hg.
    + split; [right; split_and!; eauto|]. split; [done|]. by left.
    + split; [by left|]. done.
    + split; [by left|]. split; [|done]. intros e _. split; [done|]. intros Hread. rewrite Hp.
      destruct (ReadFile path (repo_of s)) as [d|[|why]] eqn:Hr.
      * rewrite (Ho1 d eq_refl). symmetry. by apply read_file.
      * rewrite Ho2 by eauto. symmetry. by apply read_absent.
      * by destruct (Hread why).
    + split; [by left|]. done.
Qed.

(** ** A repository of files

    Its files, the commits, how many commits will fail, the files that cannot be
    read, and the files the remote holds. *)
Record Tree := mkTree {
  t_files : gmap string string; t_commits : list FileCommit; t_fail : nat; t_hidden : list string;
  t_remote : option (gmap string string)
}.

#[local] Instance tree_repo (has_remote : bool) : ConfigRepo Tree := {|
  ReadFile p t := if p ∈? t_hidden t then Err (ReadFailed "permission denied")
                  else match t_files t !! p with Some d => Ok d | None => Err NotExist end;
  WriteFile p d t := (Ok tt, mkTree (<[p := d]> (t_files t)) (t_commits t) (t_fail t) (t_hidden t) (t_remote t));
  CommitFile m a p t :=
    match t_fail t with
    | S n => (Err "git commit: hook declined", mkTree (t_files t) (t_commits t) n (t_hidden t) (t_remote t))
    | O => (Ok tt, mkTree (t_files t) (mkFileCommit m a p (t_files t !! p) :: t_commits t) O (t_hidden t) (t_remote t))
    end;
  HasRemote := has_remote;
  Sync t := (Ok tt, mkTree (default (t_files t) (t_remote t)) (t_commits t) (t_fail t) (t_hidden t) (t_remote t));
  Push t := (Ok tt, t);
  SourceKey := None
|}.
#[local] Instance tree_files : FilesRepo Tree := {|
  RemoveFile p t := (Ok tt, mkTree (delete p (t_files t)) (t_commits t) (t_fail t) (t_hidden t) (t_remote t));
  ListFiles d t := Ok (omap (λ p, cut_prefix p (d +:+ "/")) (sorted_keys (t_files t)))
|}.
#[local] Program Instance tree_laws hr : @FileLaws Tree (tree_repo hr) tree_files := {|
  file t p := t_files t !! p; commits := t_commits
|}.
Next Obligation.
  intros hr t p d. simpl. destruct (p ∈? t_hidden t); [done|]. destruct (t_files t !! p); [|done]. by intros [= ->].
Qed.
Next Obligation. intros hr t p. simpl. destruct (p ∈? t_hidden t); [done|]. by destruct (t_files t !! p). Qed.
Next Obligation.
  intros hr p d t r t'. simpl. intros [= <- <-]. simpl. split; [done|]. split.
  - intros q Hq. by rewrite lookup_insert_ne by congruence.
  - intros _. apply lookup_insert_eq.
Qed.
Next Obligation.
  intros hr p t r t'. simpl. intros [= <- <-]. simpl. split; [done|]. split.
  - intros q Hq. by rewrite lookup_delete_ne by congruence.
  - intros _. apply lookup_delete_eq.
Qed.
Next Obligation. intros hr m a p t r t'. simpl. destruct (t_fail t); intros [= <- <-]; done. Qed.

#[local] Instance bare_parsers : OverlayParsers := {
  Catalog := unit; HardwareProfiles := unit; ProfileSet := unit; Bundles := unit;
  ParseCatalog _ := Ok tt; ParseHardwareProfiles _ := Ok tt; ParseProfileSet _ := Ok tt;
  ParseBundles _ := Ok tt
}.
#[local] Instance plain_json : GoJson := {
  json_value v := Ok "1"; fmt_v v := "1"; fleet_fields f := Ok ∅; json_fields m := Ok "{}"
}.
#[local] Instance plain_print : Fingerprint := λ s, s.

Definition nix_service (f : Fleet) (t : Tree) : ConfigService Tree := mkService (mkTx t None) (mkSnapshot _ f tt tt tt tt).
Definition nobody : Author := mkAuthor "u" "User" "u@x".
Definition vpn : string := "overlays/vpn.nix".
Definition files_of (s : ConfigService Tree) : gmap string string := t_files (repo_of s).

(** A module that does not evaluate. *)
Definition nix_gate : Gate Tree := λ t hosts, if t_files t !! vpn ==? Some "broken" then Some "does not evaluate" else None.
Definition write_vpn (hr : bool) (code : string) (s : ConfigService Tree) : res OverlayErr unit * ConfigService Tree :=
  WriteOverlay (H := tree_repo hr) nix_gate "vpn" code nobody s.

Lemma overlay_all_or_nothing_witness :
  ∃ s', auxOnce (H := tree_repo false) nix_gate vpn (Some "broken") "m" nobody
          (nix_service zero_fleet (mkTree {[vpn := "old"]} [] 0 [] None)) = (Err (GateE "does not evaluate"), s') ∧
        files_of s' !! vpn = Some "old" ∧ t_commits (repo_of s') = [].
Proof.
  destruct (auxOnce (H := tree_repo false) nix_gate vpn (Some "broken") "m" nobody
              (nix_service zero_fleet (mkTree {[vpn := "old"]} [] 0 [] None))) as [r s'] eqn:Hrun.
  assert (Hr : r = Err (GateE "does not evaluate")).
  { change r with (r, s').1. rewrite <- Hrun. vm_compute. reflexivity. }
  subst r. exists s'. split; [done|].
  destruct (@overlay_all_or_nothing Tree (tree_repo false) tree_files _ _ _ (tree_laws false) nix_gate vpn (Some "broken") "m" nobody _ s' _ Hrun)
    as (_ & _ & Hgate & _).
  destruct (Hgate _ eq_refl) as [Hc Hf]. split; [|exact Hc].
  etrans; [apply Hf|vm_compute; reflexivity]. intros why. vm_compute. discriminate.
Defined.

(** A file that cannot be read counts as absent: its removal is reported done,
    and a replacement the gate refuses removes it. *)
Theorem unreadable_overlay_is_lost :
  let s := nix_service zero_fleet (mkTree {[vpn := "old"]} [] 0 [vpn] None) in
  let gone := DeleteOverlay (H := tree_repo false) nix_gate "vpn" nobody s in
  let refused := write_vpn false "broken" s in
  gone.1 = Ok tt ∧ files_of gone.2 !! vpn = Some "old" ∧
  refused.1 = Err (OvTx (GateE "does not evaluate")) ∧ files_of refused.2 !! vpn = None.
Proof. vm_compute. split_and!; reflexivity. Qed.

(** A commit that failed leaves the module in the tree, and the same write made
    again is reported done without one. *)
Theorem overlay_done_without_commit :
  let s1 := write_vpn false "{ }" (nix_service zero_fleet (mkTree ∅ [] 1 [] None)) in
  let s2 := write_vpn false "{ }" s1.2 in
  s1.1 = Err (OvTx (CommitE "git commit: hook declined")) ∧ s2.1 = Ok tt ∧ t_commits (repo_of s2.2) = [].
Proof. vm_compute. split_and!; reflexivity. Qed.

(** The gate is asked about the fleet of the last load, not of the tree the sync
    brought: the devices another writer added since are not evaluated. *)
Definition asked_gate : Gate Tree := λ t hosts, Some (join hosts ",").
Theorem overlay_judged_on_stale_fleet :
  let incoming := {["fleet.json" := "with lt-9"; vpn := "old"]} in
  let s := nix_service (zero_fleet <| Devices := {["lt-1" := zero_device]} |>) (mkTree ∅ [] 0 [] (Some incoming)) in
  let r := WriteOverlay (H := tree_repo true) asked_gate "vpn" "new" nobody s in
  r.1 = Err (OvTx (GateE "lt-1")) ∧ files_of r.2 !! "fleet.json" = Some "with lt-9".
Proof. vm_compute. split; reflexivity. Qed.
