(* ===== verification/People.v ===== *)
(** * What the database keeps of people (src/internal/adapters/postgres/notify.go,
      users.go, prefs.go, src/internal/domain/identity/prefs.go)

    The notifications and the markers of who has read them, the address book of
    the operators who have logged in, and their preferences. *)

From S2P Require Import Prelude GoLib FleetModel Sql Text Observed Notify Elevation.

(** ** The tables of a tenant *)

Record SeenUser := mkSeen { su_Email : string; su_Name : string; su_Groups : list string; su_Seen : Time }.
Record Prefs := mkPrefs { pr_Timezone : string; pr_Locale : string }.

Record People := mkPeople {
  pd_notifs : gmap string Notification; pd_reads : gmap (string * string) Time; pd_elev : ElTable;
  pd_seen : gmap string SeenUser; pd_prefs : gmap string (Prefs * Time); pd_status : StatusTable
}.
#[export] Instance People_eta : Eta People := λ p,
  mkPeople (pd_notifs p) (pd_reads p) (pd_elev p) (pd_seen p) (pd_prefs p) (pd_status p).

(** ** Notifications *)

(** [ON CONFLICT (tenant, id) DO NOTHING]. *)
Definition add_notification (n : Notification) (t : People) : People :=
  match pd_notifs t !! n_ID n with
  | Some _ => t
  | None => t <| pd_notifs ::= <[n_ID n := n]> |>
  end.
Definition AddNotification (n : Notification) : SE (Pg People) DbErr unit := exec (add_notification n).

(** [n.recipient = $2 OR n.audience = ANY($3)]. *)
Definition addressed (subject : string) (memberships : list string) (n : Notification) : bool :=
  (Recipient n ==? subject) || (Audience n ∈? memberships).

Definition list_limit (limit : Z) : nat := Z.to_nat (if (limit <=? 0) || (200 <? limit) then 50 else limit).

Definition read_by (subject : string) (t : People) (n : Notification) : bool :=
  match pd_reads t !! (n_ID n, subject) with Some _ => true | None => false end.

Definition addressed_rows (subject : string) (memberships : list string) (t : People) : list Notification :=
  keep_if (addressed subject memberships) (map snd (map_to_list (pd_notifs t))).

Definition list_for (subject : string) (memberships : list string) (limit : Z) (t : People) : list Notification :=
  map (λ n, n <| n_Read := read_by subject t n |>)
    (take (list_limit limit) (order_by_desc CreatedAt (addressed_rows subject memberships t))).
Definition ListFor (subject : string) (memberships : list string) (limit : Z) : SE (Pg People) DbErr (list Notification) :=
  query (list_for subject memberships limit).

Definition unread (subject : string) (memberships : list string) (t : People) : Z :=
  Z.of_nat (length (delete_func (read_by subject t) (addressed_rows subject memberships t))).
Definition UnreadCount (subject : string) (memberships : list string) : SE (Pg People) DbErr Z :=
  query (unread subject memberships).

(** [ON CONFLICT DO NOTHING]. *)
Definition mark (now : Time) (subject : string) (reads : gmap (string * string) Time) (id : string) : gmap (string * string) Time :=
  match reads !! (id, subject) with Some _ => reads | None => <[(id, subject) := now]> reads end.

Definition MarkRead (subject id : string) (now : Time) : SE (Pg People) DbErr unit :=
  exec (λ t, t <| pd_reads ::= λ reads, mark now subject reads id |>).
Definition mark_all (subject : string) (memberships : list string) (now : Time) (t : People) : People :=
  t <| pd_reads ::= λ reads, foldl (mark now subject) reads (map n_ID (addressed_rows subject memberships t)) |>.
Definition MarkAllRead (subject : string) (memberships : list string) (now : Time) : SE (Pg People) DbErr unit :=
  exec (mark_all subject memberships now).

(** ** The address book *)

Definition RecordUser (subject email name : string) (groups : list string) (now : Time) : SE (Pg People) DbErr unit :=
  exec (λ t, t <| pd_seen ::= <[subject := mkSeen email name groups now]> |>).

Definition email_of (subject : string) (t : People) : option string :=
  match pd_seen t !! subject with
  | None => None
  | Some u => if su_Email u ==? "" then None else Some (su_Email u)
  end.
Definition email_for_subject (subject : string) : SE (Pg People) DbErr (option string) := query (email_of subject).

Definition emails_of (group : string) (t : People) : list string :=
  map su_Email (keep_if (λ u, (group ∈? su_Groups u) && (su_Email u !=? "")) (map snd (map_to_list (pd_seen t)))).
Definition emails_for_audience (group : string) : SE (Pg People) DbErr (list string) := query (emails_of group).

(** ** Preferences *)

Definition SupportedLocales : list string := ["en"; "nl"].
Inductive PrefsErr := UnknownTimezone (z : string) | UnsupportedLocale (l : string).

(** [load_location] is [time.LoadLocation], of the zones the host knows. *)
Definition ValidatePrefs (load_location : string → bool) (p : Prefs) : option PrefsErr :=
  if (pr_Timezone p !=? "") && negb (load_location (pr_Timezone p)) then Some (UnknownTimezone (pr_Timezone p))
  else if (pr_Locale p !=? "") && negb (pr_Locale p ∈? SupportedLocales) then Some (UnsupportedLocale (pr_Locale p))
  else None.

Definition GetPrefs (subject : string) : SE (Pg People) DbErr (option Prefs) := query (λ t, fst <$> pd_prefs t !! subject).
Definition PutPrefs (subject : string) (p : Prefs) (now : Time) : SE (Pg People) DbErr unit :=
  exec (λ t, t <| pd_prefs ::= <[subject := (p, now)]> |>).

(** ** Who sees what *)

(** The rows the emitter stores: under their identifier, valid. *)
Definition inbox_ok (t : People) : Prop :=
  ∀ id n, pd_notifs t !! id = Some n → n_ID n = id ∧ ValidateNotification n = None.

Lemma add_notification_ok n t : ValidateNotification n = None → inbox_ok t → inbox_ok (add_notification n t).
Proof.
  intros Hn Ht id m. unfold add_notification. destruct (pd_notifs t !! n_ID n); [apply Ht|]. simpl.
  rewrite lookup_insert_Some. intros [[<- <-]|[_ H]]; [done|]. by apply Ht.
Qed.

Lemma addressed_ForReader n subject memberships :
  ValidateNotification n = None → subject ≠ "" → "" ∉ memberships →
  addressed subject memberships n = ForReader n subject memberships.
Proof.
  intros Hv Hs Hm. apply eq_bool_prop_intro. rewrite !Is_true_true. rewrite (ForReader_spec _ _ _ Hv). unfold addressed.
  rewrite orb_true_iff, !bool_decide_eq_true.
  assert (Hone : Recipient n = "" ∧ Audience n ≠ "" ∨ Recipient n ≠ "" ∧ Audience n = "").
  { unfold ValidateNotification in Hv. destruct (n_ID n ==? ""), (ValidKind (n_Kind n)), (trim_space (n_Title n) ==? ""); try done.
    simpl in Hv. destruct (Recipient n ==? "") eqn:HR, (Audience n ==? "") eqn:HA; try done;
      rewrite ?bool_decide_eq_true, ?bool_decide_eq_false in *; tauto. }
  split.
  - intros [<-|Ha].
    + destruct Hone as [[HR _]|[HR HA]]; [by rewrite HR in Hs|]. left. done.
    + destruct Hone as [[HR HA]|[HR HA]]; [right; done|]. by rewrite HA in Ha.
  - intros [(HR & _ & ->)|(HR & HA & Hin)]; [by left|by right].
Qed.

Lemma elem_of_addressed_rows subject memberships t n :
  n ∈ addressed_rows subject memberships t ↔ addressed subject memberships n = true ∧ ∃ id, pd_notifs t !! id = Some n.
Proof.
  unfold addressed_rows, keep_if. rewrite list_elem_of_filter, list_elem_of_fmap. split.
  - intros [Ha ([id m] & -> & Hm%elem_of_map_to_list)]. split; [done|]. by exists id.
  - intros [Ha [id Hid]]. split; [done|]. exists (id, n). split; [done|]. by apply elem_of_map_to_list.
Qed.

Lemma mark_lookup now subject reads id id' s' : mark now subject reads id !! (id', s') =
  match reads !! (id', s') with
  | Some x => Some x
  | None => if bool_decide (id' = id ∧ s' = subject) then Some now else None
  end.
Proof.
  unfold mark. destruct (decide (id' = id ∧ s' = subject)) as [[-> ->]|Hne].
  - destruct (reads !! (id, subject)) as [x|] eqn:Hr; [by rewrite Hr|]. rewrite lookup_insert_eq. by rewrite bool_decide_eq_true_2.
  - rewrite (bool_decide_eq_false_2 _ Hne). destruct (reads !! (id, subject)); [by destruct (reads !! (id', s'))|].
    rewrite lookup_insert_ne by naive_solver. by destruct (reads !! (id', s')).
Qed.

Lemma mark_all_lookup now subject l reads id s' : foldl (mark now subject) reads l !! (id, s') =
  match reads !! (id, s') with
  | Some x => Some x
  | None => if bool_decide (id ∈ l ∧ s' = subject) then Some now else None
  end.
Proof.
  revert reads. induction l as [|i l IH]; intros reads; cbn [foldl].
  - destruct (reads !! (id, s')); [done|]. rewrite bool_decide_eq_false_2; [done|]. by intros [Hin%elem_of_nil _].
  - rewrite IH, mark_lookup. destruct (reads !! (id, s')); [done|].
    destruct (decide (id = i ∧ s' = subject)) as [[-> ->]|Hne].
    + rewrite (bool_decide_eq_true_2 (i = i ∧ subject = subject)) by done.
      rewrite (bool_decide_eq_true_2 (i ∈ i :: l ∧ subject = subject)) by (split; [left|done]). done.
    + rewrite (bool_decide_eq_false_2 _ Hne).
      rewrite (bool_decide_ext (id ∈ l ∧ s' = subject) (id ∈ i :: l ∧ s' = subject)); [done|]. rewrite elem_of_cons. naive_solver.
Qed.

(** The inbox of a reader holds notifications addressed to them or to a group
    of theirs and no others, at most the page asked for, newest first, each
    marked read exactly when they read it; marking all as read leaves them
    nothing unread, changes no notification, and changes what no other reader
    has read. *)
Theorem inbox_of_a_reader subject memberships limit now t :
  inbox_ok t → subject ≠ "" → "" ∉ memberships →
  (∀ n, n ∈ list_for subject memberships limit t →
     ForReader n subject memberships = true ∧ n_Read n = read_by subject t n ∧
     ∃ m, pd_notifs t !! n_ID n = Some m ∧ m <| n_Read := n_Read n |> = n) ∧
  (length (list_for subject memberships limit t) ≤ 200)%nat ∧
  StronglySorted (λ a b, CreatedAt b ≤ CreatedAt a) (list_for subject memberships limit t) ∧
  (∀ id n, pd_notifs t !! id = Some n → ForReader n subject memberships = true →
     (length (addressed_rows subject memberships t) ≤ list_limit limit)%nat → n_ID n ∈ map n_ID (list_for subject memberships limit t)) ∧
  unread subject memberships (mark_all subject memberships now t) = 0 ∧
  pd_notifs (mark_all subject memberships now t) = pd_notifs t ∧
  (∀ other n, other ≠ subject → read_by other (mark_all subject memberships now t) n = read_by other t n).
Proof.
  intros Hok Hs Hm. unfold list_for. set (rows := order_by_desc CreatedAt (addressed_rows subject memberships t)).
  assert (Hrow : ∀ n, n ∈ rows ↔ addressed subject memberships n = true ∧ ∃ id, pd_notifs t !! id = Some n)
    by (intros n; subst rows; by rewrite elem_of_order_by_desc, elem_of_addressed_rows).
  split_and!.
  - intros n (m & -> & Hin)%list_elem_of_fmap. apply subseteq_take, Hrow in Hin as [Ha [id Hid]].
    destruct (Hok id m Hid) as [Hi Hv]. split; [|split; [done|]].
    + change (ForReader m subject memberships = true). by rewrite <- (addressed_ForReader m subject memberships Hv Hs Hm).
    + exists m. split; [by simpl; rewrite Hi|by destruct m].
  - rewrite length_map, length_take. unfold list_limit. destruct ((limit <=? 0) || (200 <? limit)) eqn:Hl; [lia|].
    apply orb_false_iff in Hl as [_ Hl%Z.ltb_ge]. lia.
  - assert (Hsort : StronglySorted (λ a b, CreatedAt b ≤ CreatedAt a) (take (list_limit limit) rows)).
    { assert (Hr : StronglySorted (λ a b, CreatedAt b ≤ CreatedAt a) rows).
      { pose proof (isort_sorted (λ a b, CreatedAt b <? CreatedAt a) (addressed_rows subject memberships t)) as Hi.
        fold (order_by_desc CreatedAt (addressed_rows subject memberships t)) in Hi. fold rows in Hi. clear -Hi.
        induction Hi as [|a l Hl IH Ha]; constructor; [done|]. eapply Forall_impl; [exact Ha|].
        intros b. unfold in_order. by rewrite Z.ltb_ge. }
      rewrite <- (take_drop (list_limit limit) rows) in Hr. by apply StronglySorted_app in Hr as (_ & ? & _). }
    clear Hrow. induction Hsort as [|a l Hl IH Ha]; simpl; constructor; [done|]. apply Forall_fmap.
    eapply Forall_impl; [exact Ha|]. done.
  - intros id n Hid Hf Hlen. destruct (Hok id n Hid) as [Hi Hv]. rewrite take_ge.
    2: { subst rows. unfold order_by_desc. by rewrite (Permutation_length (isort_perm _ _)). }
    rewrite map_map. apply list_elem_of_fmap. exists n. split; [done|]. apply Hrow.
    split; [|by exists id]. by rewrite addressed_ForReader.
  - unfold unread. enough (delete_func (read_by subject (mark_all subject memberships now t)) (addressed_rows subject memberships t) = []) as Hnil.
    { change (addressed_rows subject memberships (mark_all subject memberships now t)) with (addressed_rows subject memberships t).
      by rewrite Hnil. }
    destruct (delete_func _ _) as [|n l] eqn:Hd; [done|]. exfalso.
    assert (Hn : n ∈ n :: l) by left. rewrite <- Hd in Hn. apply list_elem_of_filter in Hn as [Hread Hn].
    unfold read_by, mark_all in Hread. simpl in Hread. rewrite mark_all_lookup in Hread.
    destruct (pd_reads t !! (n_ID n, subject)); [done|]. rewrite bool_decide_eq_true_2 in Hread; [done|].
    split; [|done]. apply list_elem_of_fmap. by exists n.
  - done.
  - intros other n Ho. unfold read_by, mark_all. simpl. rewrite mark_all_lookup.
    destruct (pd_reads t !! (n_ID n, other)); [done|]. rewrite bool_decide_eq_false_2; [done|]. by intros [_ ?].
Qed.
