(* ===== verification/Retention.v ===== *)
(** * Storage limits and erasure (src/internal/app/retention.go, erasure.go,
      src/internal/adapters/postgres/retention.go, erasure.go)

    The sweep that removes records past their window, and the removal of one
    person's records on request, with its preview and its report. *)

From S2P Require Import Prelude GoLib FleetModel Groups Resolve Apps Mutate DeviceOps Classes Verdicts Document ConfigTx Sql Text Observed Notify Elevation People.

(** ** Deletions *)

Section delete.
  Context {K A : Type} `{Countable K} (p : K → A → bool).

(** [DELETE ... WHERE], and the rows affected. *)
Definition delete_where (m : gmap K A) : Z * gmap K A :=
    (Z.of_nat (size (filter (λ kv, p kv.1 kv.2 = true) m)), filter (λ kv, p kv.1 kv.2 = false) m).
Definition count_where (m : gmap K A) : Z := Z.of_nat (size (filter (λ kv, p kv.1 kv.2 = true) m)).

Lemma delete_where_lookup m k a : (delete_where m).2 !! k = Some a ↔ m !! k = Some a ∧ p k a = false.
Proof. simpl. by rewrite map_lookup_filter_Some. Qed.
End delete.

Section retention.

(** What of the table a deletion answers with. *)
Definition deleting {T A} (f : T → A * T) : SE (Pg T) DbErr A := statement f.

Definition DeleteNotificationsBefore (cutoff : Time) : SE (Pg People) DbErr Z :=
    run! exec (λ t, t <| pd_reads ::= λ reads,
      (delete_where (λ k _, match pd_notifs t !! k.1 with Some n => CreatedAt n <? cutoff | None => false end) reads).2 |>);
    deleting (λ t, let '(n, rows) := delete_where (λ _ n, CreatedAt n <? cutoff) (pd_notifs t) in (n, t <| pd_notifs := rows |>)).

Definition DeleteElevationBefore (cutoff : Time) : SE (Pg People) DbErr Z :=
    deleting (λ t, let '(n, rows) := delete_where (λ _ r, er_created r <? cutoff) (pd_elev t) in (n, t <| pd_elev := rows |>)).

Definition DeleteSeenUsersBefore (cutoff : Time) : SE (Pg People) DbErr Z :=
    deleting (λ t, let '(n, rows) := delete_where (λ _ u, su_Seen u <? cutoff) (pd_seen t) in (n, t <| pd_seen := rows |>)).

Definition DeleteDeviceStatusBefore (cutoff : Time) (known : gset string) : SE (Pg People) DbErr Z :=
    if bool_decide (known = ∅) then se_ret 0
    else deleting (λ t, let '(n, rows) := delete_where (λ tag s, (LastSeen s <? cutoff) && negb (bool_decide (tag ∈ known))) (pd_status t) in
                        (n, t <| pd_status := rows |>)).
End retention.

(** ** The sweep *)

(** The windows; zero disables a kind. *)
Record RetentionPolicy := mkPolicyR { rp_Notifications : Z; rp_Elevation : Z; rp_SeenUsers : Z; rp_DeviceStatus : Z }.
Definition day : Z := 24 * Hour.
Definition DefaultRetention : RetentionPolicy := mkPolicyR (180 * day) (365 * day) (365 * day) (180 * day).

Record RetentionResult := mkResult { rr_Notifications : Z; rr_Elevation : Z; rr_SeenUsers : Z; rr_DeviceStatus : Z }.
Definition RetentionTotal (r : RetentionResult) : Z :=
  rr_Notifications r + rr_Elevation r + rr_SeenUsers r + rr_DeviceStatus r.

(** One kind: the number removed, and the first failure of the sweep so far. *)
Definition sweep_kind (window : Z) (kind : string) (m : SE (Pg People) DbErr Z) (s : option string * Pg People)
    : Z * (option string * Pg People) :=
  if window <=? 0 then (0, s) else
  match m s.2 with
  | (Ok n, db) => (n, (s.1, db))
  | (Err _, db) => (0, (match s.1 with Some e => Some e | None => Some kind end, db))
  end.

(** [known] is the tags of the fleet document, [None] for a sweeper without one. *)
Definition Sweep (p : RetentionPolicy) (known : option (gset string)) (now : Time) (db : Pg People)
    : RetentionResult * option string * Pg People :=
  let '(n1, s) := sweep_kind (rp_Notifications p) "notifications" (DeleteNotificationsBefore (now - rp_Notifications p)) (None, db) in
  let '(n2, s) := sweep_kind (rp_Elevation p) "elevation" (DeleteElevationBefore (now - rp_Elevation p)) s in
  let '(n3, s) := sweep_kind (rp_SeenUsers p) "seen users" (DeleteSeenUsersBefore (now - rp_SeenUsers p)) s in
  let '(n4, s) := match known with
                  | None => (0, s)
                  | Some known => if bool_decide (known = ∅) then (0, s)
                                  else sweep_kind (rp_DeviceStatus p) "device status" (DeleteDeviceStatusBefore (now - rp_DeviceStatus p) known) s
                  end in
  (mkResult n1 n2 n3 n4, s.1, s.2).

(** ** Erasure *)

Record PersonalDataCounts := mkCounts { pc_SeenUser : Z; pc_Prefs : Z; pc_Notifications : Z; pc_Elevation : Z; pc_ElevationDecided : Z }.
#[export] Instance PersonalDataCounts_eta : Eta PersonalDataCounts := λ c,
  mkCounts (pc_SeenUser c) (pc_Prefs c) (pc_Notifications c) (pc_Elevation c) (pc_ElevationDecided c).
Definition no_counts : PersonalDataCounts := mkCounts 0 0 0 0 0.
Definition CountsTotal (c : PersonalDataCounts) : Z := pc_SeenUser c + pc_Prefs c + pc_Notifications c + pc_Elevation c.

Definition personal_note (subject : string) (n : Notification) : bool := (Recipient n ==? subject) && (Recipient n !=? "").
Definition has_row {A} (k : string) (m : gmap string A) : Z := match m !! k with Some _ => 1 | None => 0 end.

(** The counts so far survive an error. *)
Definition so_far {A} (c : PersonalDataCounts) (m : SE (Pg People) DbErr A) : SE (Pg People) (PersonalDataCounts * DbErr) A :=
  db_step (λ e, (c, e)) m.

Definition CountPersonalData (subject username : string) : SE (Pg People) (PersonalDataCounts * DbErr) PersonalDataCounts :=
  do! c <- (if subject ==? "" then se_ret no_counts else
    do! n <- so_far no_counts (query (λ t, has_row subject (pd_seen t)));
    let c := no_counts <| pc_SeenUser := n |> in
    do! n <- so_far c (query (λ t, has_row subject (pd_prefs t)));
    let c := c <| pc_Prefs := n |> in
    do! n <- so_far c (query (λ t, count_where (λ _, personal_note subject) (pd_notifs t)));
    se_ret (c <| pc_Notifications := n |>));
  if username ==? "" then se_ret c else
  do! n <- so_far c (query (λ t, count_where (λ _ r, er_user r ==? username) (pd_elev t)));
  let c := c <| pc_Elevation := n |> in
  do! n <- so_far c (query (λ t, count_where (λ _ r, (decided_by r ==? username) && (er_user r !=? username)) (pd_elev t)));
  se_ret (c <| pc_ElevationDecided := n |>).

Definition ErasePersonalData (subject username : string) : SE (Pg People) (PersonalDataCounts * DbErr) PersonalDataCounts :=
  do! c <- (if subject ==? "" then se_ret no_counts else
    run! so_far no_counts (exec (λ t, t <| pd_reads ::= λ reads, (delete_where (λ k _, k.2 ==? subject) reads).2 |>));
    do! n <- so_far no_counts (statement (λ t, let '(n, rows) := delete_where (λ _, personal_note subject) (pd_notifs t) in (n, t <| pd_notifs := rows |>)));
    let c := no_counts <| pc_Notifications := n |> in
    do! n <- so_far c (statement (λ t, (has_row subject (pd_prefs t), t <| pd_prefs ::= delete subject |>)));
    let c := c <| pc_Prefs := n |> in
    do! n <- so_far c (statement (λ t, (has_row subject (pd_seen t), t <| pd_seen ::= delete subject |>)));
    se_ret (c <| pc_SeenUser := n |>));
  if username ==? "" then se_ret c else
  do! n <- so_far c (statement (λ t, let '(n, rows) := delete_where (λ _ r, er_user r ==? username) (pd_elev t) in (n, t <| pd_elev := rows |>)));
  se_ret (c <| pc_Elevation := n |>).

(** What remains: one of the remarks of the report. *)
Inductive Remark := GitHistory | DecidedForOthers (n : Z) | NoSubjectSearched | NoUsernameSearched | NoDocumentSearched | BundlesPerDevice.

Record ErasureReport := mkErReport {
  ep_Subject : string; ep_Username : string; ep_Removed : PersonalDataCounts; DevicesCleared : list string;
  Remaining : list Remark; DryRun : bool
}.
#[export] Instance ErasureReport_eta : Eta ErasureReport := λ r,
  mkErReport (ep_Subject r) (ep_Username r) (ep_Removed r) (DevicesCleared r) (Remaining r) (DryRun r).

Inductive ErasureErr := NoIdentifier | EraseStore (e : DbErr) | ClearUser (tag : string) (e : TxErr).

Definition remaining (subject username : string) (document : bool) (rep : ErasureReport) : list Remark :=
  [GitHistory]
  ++ (if 0 <? pc_ElevationDecided (ep_Removed rep) then [DecidedForOthers (pc_ElevationDecided (ep_Removed rep))] else [])
  ++ (if subject ==? "" then [NoSubjectSearched] else [])
  ++ (if username ==? "" then [NoUsernameSearched] else [])
  ++ (if document then [] else [NoDocumentSearched])
  ++ [BundlesPerDevice].

Section erasure.
  Context {W : Type} `{ConfigRepo W, GoJson, Fingerprint, FleetJson, OverlayParsers}.

(** The database, and the configuration when it is wired. *)
Record Registry := mkRegistry { rg_db : Pg People; rg_cfg : option (ConfigService W) }.

Definition names_person (subject username : string) (d : Device) : bool :=
    let u := trim_space (AssignedUser d) in
    (u !=? "") && (equal_fold u subject || equal_fold u username).

Definition assigned_to (subject username : string) (f : Fleet) : list string :=
    map fst (keep_if (λ e, names_person subject username e.2) (map_to_list (Devices f))).

Definition clear_patch : DevicePatch := Build_DevicePatch None None (Some "") None None None.
Definition erasure_author : Author := mkAuthor "" "erasure" "erasure@sextant".

Fixpoint clear_users (gate : Gate W) (tags : list string) (s : ConfigService W) : option ErasureErr * ConfigService W :=
    match tags with
    | [] => (None, s)
    | tag :: tags =>
        match Apply gate (UpdateDevice tag clear_patch) ("devices: clear assigned user on " +:+ tag +:+ " (erasure request)")
                erasure_author [tag] s with
        | (Err e, s) => (Some (ClearUser tag e), s)
        | (Ok _, s) => clear_users gate tags s
        end
    end.

(** The report comes with the error. *)
Definition erasure_run (gate : Gate W) (subject0 username0 : string) (dry : bool) (s : Registry)
      : (ErasureReport * option ErasureErr) * Registry :=
    let subject := trim_space subject0 in
    let username := trim_space username0 in
    if (subject ==? "") && (username ==? "") then ((mkErReport "" "" no_counts [] [] false, Some NoIdentifier), s) else
    let rep := mkErReport subject username no_counts [] [] dry in
    match (if dry then CountPersonalData else ErasePersonalData) subject username (rg_db s) with
    | (Err (c, e), db) => ((rep <| ep_Removed := c |>, Some (EraseStore e)), mkRegistry db (rg_cfg s))
    | (Ok c, db) =>
        let rep := rep <| ep_Removed := c |> in
        match rg_cfg s with
        | None => ((rep <| Remaining := remaining subject username false rep |>, None), mkRegistry db None)
        | Some cfg =>
            let rep := rep <| DevicesCleared := assigned_to subject username (cs_Fleet cfg) |> in
            let '(e, cfg) := if dry then (None, cfg) else clear_users gate (DevicesCleared rep) cfg in
            match e with
            | Some e => ((rep, Some e), mkRegistry db (Some cfg))
            | None => ((rep <| Remaining := remaining subject username true rep |>, None), mkRegistry db (Some cfg))
            end
        end
    end.

Definition ErasurePreview (gate : Gate W) (subject username : string) := erasure_run gate subject username true.
Definition Erase (gate : Gate W) (subject username : string) := erasure_run gate subject username false.
End erasure.

(** ** What a deletion may take *)

(** A table lost rows of a kind and nothing else. *)
Definition gone_only {K A} `{Countable K} (P : K → A → Prop) (m m' : gmap K A) : Prop :=
  ∀ k, m' !! k = m !! k ∨ m' !! k = None ∧ ∃ a, m !! k = Some a ∧ P k a.

#[export] Instance gone_only_preorder {K A} `{Countable K} (P : K → A → Prop) : PreOrder (gone_only P).
Proof.
  split; [by intros m k; left|]. intros a b c Hab Hbc k. destruct (Hbc k) as [->|[-> (x & Hx & HP)]]; [apply Hab|].
  right. split; [done|]. destruct (Hab k) as [Heq|[Hn _]]; [|by rewrite Hx in Hn]. exists x. by rewrite <- Heq.
Qed.

Lemma gone_only_delete {K A} `{Countable K} (p : K → A → bool) (P : K → A → Prop) m :
  (∀ k a, p k a = true → P k a) → gone_only P m (delete_where p m).2.
Proof.
  intros HP k. destruct (m !! k) as [a|] eqn:Hk.
  - destruct (p k a) eqn:Hp; [right|left].
    + split; [|by eauto]. apply eq_None_not_Some. intros [b Hb]. apply delete_where_lookup in Hb as [Hb Hpb]. congruence.
    + by apply delete_where_lookup.
  - left. apply eq_None_not_Some. intros [b Hb]. apply delete_where_lookup in Hb as [Hb _]. congruence.
Qed.

Lemma gone_only_key {A} (P : string → A → Prop) k m : (∀ a, P k a) → gone_only P m (delete k m).
Proof.
  intros HP j. destruct (decide (j = k)) as [->|]; [|left; by rewrite lookup_delete_ne].
  destruct (m !! k) as [a|] eqn:Hk; [right; rewrite lookup_delete_eq; eauto|left; by rewrite lookup_delete_eq].
Qed.

(** Every table but the read markers, row by row. *)
Record lost (N : string → Notification → Prop) (R : string * string → Time → Prop) (E : string → ElRow → Prop)
    (S_ : string → SeenUser → Prop) (P : string → Prefs * Time → Prop) (D : string → DeviceStatus → Prop) (t t' : People) : Prop := {
  l_notifs : gone_only N (pd_notifs t) (pd_notifs t'); l_reads : gone_only R (pd_reads t) (pd_reads t');
  l_elev : gone_only E (pd_elev t) (pd_elev t'); l_seen : gone_only S_ (pd_seen t) (pd_seen t');
  l_prefs : gone_only P (pd_prefs t) (pd_prefs t'); l_status : gone_only D (pd_status t) (pd_status t')
}.

#[export] Instance lost_preorder N R E S_ P D : PreOrder (lost N R E S_ P D).
Proof. split; [by intros t; split|]. intros a b c [] []. split; by etrans. Qed.

(** ** The sweep *)

Section sweep.
  Context (p : RetentionPolicy) (known : option (gset string)) (now : Time).

(** Past its window, of a kind that has one. *)
Definition past (window created : Z) : Prop := 0 < window ∧ created < now - window.

(** A marker goes with a notification past its window. *)
Definition swept : relation People :=
  lost (λ _ n, past (rp_Notifications p) (CreatedAt n)) (λ _ _, 0 < rp_Notifications p)
       (λ _ r, past (rp_Elevation p) (er_created r)) (λ _ u, past (rp_SeenUsers p) (su_Seen u)) (λ _ _, False)
       (λ tag s, past (rp_DeviceStatus p) (LastSeen s) ∧ ∃ kn, known = Some kn ∧ kn ≠ ∅ ∧ tag ∉ kn).

#[export] Instance swept_preorder : PreOrder swept.
Proof. unfold swept. apply _. Qed.

Lemma sweep_kind_swept window kind m (s : option string * Pg People) :
  (0 < window → respects (tables_rel swept) m) → tables_rel swept s.2 (sweep_kind window kind m s).2.2.
Proof using Type.
  intros Hm. unfold sweep_kind. destruct (Z.leb_spec window 0) as [|Hw]; [done|]. specialize (Hm Hw).
  destruct (m s.2) as [[n|e] db] eqn:Hr; simpl; by eapply Hm.
Qed.

Ltac one_table := intros t; cbn [snd]; split; try reflexivity; apply gone_only_delete.

Lemma notifications_swept : 0 < rp_Notifications p → respects (tables_rel swept) (DeleteNotificationsBefore (now - rp_Notifications p)).
Proof using Type.
  intros Hw. unfold DeleteNotificationsBefore. apply respects_bind; [apply _| |intros ?].
  - apply respects_statement; [apply _|]. one_table. done.
  - apply respects_statement; [apply _|]. one_table. intros k n Hn%Z.ltb_lt. by split.
Qed.
Lemma elevation_swept : 0 < rp_Elevation p → respects (tables_rel swept) (DeleteElevationBefore (now - rp_Elevation p)).
Proof using Type. intros Hw. apply respects_statement; [apply _|]. one_table. intros k n Hn%Z.ltb_lt. by split. Qed.
Lemma seen_swept : 0 < rp_SeenUsers p → respects (tables_rel swept) (DeleteSeenUsersBefore (now - rp_SeenUsers p)).
Proof using Type. intros Hw. apply respects_statement; [apply _|]. one_table. intros k n Hn%Z.ltb_lt. by split. Qed.
Lemma status_swept kn : known = Some kn → kn ≠ ∅ → 0 < rp_DeviceStatus p →
  respects (tables_rel swept) (DeleteDeviceStatusBefore (now - rp_DeviceStatus p) kn).
Proof using Type.
  intros Hk Hne Hw. unfold DeleteDeviceStatusBefore. rewrite bool_decide_eq_false_2 by done.
  apply respects_statement; [apply _|]. one_table.
  intros k n [Hn%Z.ltb_lt Hin%negb_true_iff%bool_decide_eq_false]%andb_true_iff. split; [by split|]. by exists kn.
Qed.
End sweep.

(** Whichever statements fail, only what may go went. *)
Lemma sweep_swept p known now db : swept p known now (tables db) (tables (Sweep p known now db).2).
Proof.
  unfold Sweep.
  pose proof (sweep_kind_swept p known now _ "notifications" _ (None, db) (notifications_swept p known now)) as R1.
  destruct (sweep_kind (rp_Notifications p) "notifications" _ (None, db)) as [n1 s1].
  pose proof (sweep_kind_swept p known now _ "elevation" _ s1 (elevation_swept p known now)) as R2.
  destruct (sweep_kind (rp_Elevation p) "elevation" _ s1) as [n2 s2].
  pose proof (sweep_kind_swept p known now _ "seen users" _ s2 (seen_swept p known now)) as R3.
  destruct (sweep_kind (rp_SeenUsers p) "seen users" _ s2) as [n3 s3].
  set (last := match known with None => (0, s3) | Some kn => _ end).
  assert (R4 : tables_rel (swept p known now) s3.2 last.2.2).
  { subst last. destruct known as [kn|]; [|done]. case_bool_decide as Hkn; [done|].
    apply sweep_kind_swept. intros Hw. by apply status_swept. }
  destruct last as [n4 s4]. cbn [snd] in *.
  etrans; [exact R1|]. etrans; [exact R2|]. etrans; [exact R3|exact R4].
Qed.

(** A sweep of one kind on a database that answers. *)
Lemma sweep_kind_live window kind m e t n t' : (0 < window → m (live t) = (Ok n, live t')) →
  ∃ n', sweep_kind window kind m (e, live t) = (n', (e, live (if window <=? 0 then t else t'))).
Proof.
  intros Hm. unfold sweep_kind. destruct (Z.leb_spec window 0); [by exists 0|]. cbn [snd fst]. rewrite Hm by done. by exists n.
Qed.

Definition stale_marker (t : People) (cutoff : Time) (k : string * string) : bool :=
  match pd_notifs t !! k.1 with Some n => CreatedAt n <? cutoff | None => false end.

Definition without_notifications (p : RetentionPolicy) (now : Time) (t : People) : People :=
  let cutoff := now - rp_Notifications p in
  if rp_Notifications p <=? 0 then t
  else t <| pd_reads ::= λ reads, (delete_where (λ k _, stale_marker t cutoff k) reads).2 |>
         <| pd_notifs ::= λ rows, (delete_where (λ _ n, CreatedAt n <? cutoff) rows).2 |>.
Definition without_elevation (p : RetentionPolicy) (now : Time) (t : People) : People :=
  if rp_Elevation p <=? 0 then t
  else t <| pd_elev ::= λ rows, (delete_where (λ _ r, er_created r <? now - rp_Elevation p) rows).2 |>.
Definition without_seen (p : RetentionPolicy) (now : Time) (t : People) : People :=
  if rp_SeenUsers p <=? 0 then t
  else t <| pd_seen ::= λ rows, (delete_where (λ _ u, su_Seen u <? now - rp_SeenUsers p) rows).2 |>.

(** What the sweep leaves of every table but the check-ins. *)
Lemma sweep_live p known now t : ∃ r st,
  Sweep p known now (live t) = (r, None, live ((without_seen p now (without_elevation p now (without_notifications p now t))) <| pd_status := st |>)).
Proof.
  unfold Sweep.
  edestruct (sweep_kind_live (rp_Notifications p) "notifications" (DeleteNotificationsBefore (now - rp_Notifications p)) None t) as [n1 ->]; [done|].
  change (if rp_Notifications p <=? 0 then t else _) with (without_notifications p now t).
  edestruct (sweep_kind_live (rp_Elevation p) "elevation" (DeleteElevationBefore (now - rp_Elevation p)) None (without_notifications p now t)) as [n2 ->]; [done|].
  change (if rp_Elevation p <=? 0 then _ else _) with (without_elevation p now (without_notifications p now t)).
  set (t2 := without_elevation p now (without_notifications p now t)).
  edestruct (sweep_kind_live (rp_SeenUsers p) "seen users" (DeleteSeenUsersBefore (now - rp_SeenUsers p)) None t2) as [n3 ->]; [done|].
  change (if rp_SeenUsers p <=? 0 then _ else _) with (without_seen p now t2). set (t3 := without_seen p now t2).
  assert (Hkeep : ∀ r : RetentionResult, ∃ r0 st, (r, @None string, live t3) = (r0, None, live (t3 <| pd_status := st |>)))
    by (intros r; exists r, (pd_status t3); by destruct t3).
  destruct known as [kn|]; [|exact (Hkeep (mkResult n1 n2 n3 0))].
  case_bool_decide as Hkn; [exact (Hkeep (mkResult n1 n2 n3 0))|].
  unfold sweep_kind, DeleteDeviceStatusBefore. rewrite bool_decide_eq_false_2 by done.
  destruct (rp_DeviceStatus p <=? 0); [exact (Hkeep (mkResult n1 n2 n3 0))|].
  eexists _, _. reflexivity.
Qed.

Lemma kept_where {K A} `{Countable K} (created : A → Z) window now (m : gmap K A) k a :
  (if window <=? 0 then m else (delete_where (λ _ a, created a <? now - window) m).2) !! k = Some a ↔
  m !! k = Some a ∧ ¬ past now window (created a).
Proof.
  unfold past. destruct (Z.leb_spec window 0); [split; [intros Hk; split; [done|lia]|by intros [? _]]|].
  rewrite delete_where_lookup, Z.ltb_ge. split; (intros [? Hc]; split; [done|lia]).
Qed.

(** A sweep, whichever of its statements fail, removes nothing but records
    past their window, of a kind that has one; a check-in only of a tag the
    fleet document does not hold, and none when that document is empty or not
    known; no preference is touched.  When the database answers, no failure is
    reported and everything past its window is gone, with the read markers of
    the notifications that went and no others. *)
Theorem sweep_keeps_the_window p known now db :
  let '(_, e, db') := Sweep p known now db in
  swept p known now (tables db) (tables db') ∧
  (outages db = [] → e = None ∧
    (∀ id n, pd_notifs (tables db') !! id = Some n ↔ pd_notifs (tables db) !! id = Some n ∧ ¬ past now (rp_Notifications p) (CreatedAt n)) ∧
    (∀ id r, pd_elev (tables db') !! id = Some r ↔ pd_elev (tables db) !! id = Some r ∧ ¬ past now (rp_Elevation p) (er_created r)) ∧
    (∀ s u, pd_seen (tables db') !! s = Some u ↔ pd_seen (tables db) !! s = Some u ∧ ¬ past now (rp_SeenUsers p) (su_Seen u)) ∧
    (∀ k x, pd_reads (tables db') !! k = Some x ↔ pd_reads (tables db) !! k = Some x ∧
       ¬ ∃ n, pd_notifs (tables db) !! k.1 = Some n ∧ past now (rp_Notifications p) (CreatedAt n))).
Proof.
  pose proof (sweep_swept p known now db) as Hs. destruct (Sweep p known now db) as [[r e] db'] eqn:Hrun. split; [exact Hs|].
  intros Ho. destruct db as [t o]. simpl in Ho. subst o. destruct (sweep_live p known now t) as (r1 & st & Heq).
  change (mkPg t []) with (live t) in Hrun. rewrite Heq in Hrun. injection Hrun as _ <- <-. split; [done|]. cbn [tables live].
  unfold without_seen, without_elevation, without_notifications. split_and!.
  - intros id n. rewrite <- (kept_where CreatedAt).
    by destruct (rp_Notifications p <=? 0), (rp_Elevation p <=? 0), (rp_SeenUsers p <=? 0).
  - intros id x. rewrite <- (kept_where er_created).
    by destruct (rp_Notifications p <=? 0), (rp_Elevation p <=? 0), (rp_SeenUsers p <=? 0).
  - intros id x. rewrite <- (kept_where su_Seen).
    by destruct (rp_Notifications p <=? 0), (rp_Elevation p <=? 0), (rp_SeenUsers p <=? 0).
  - intros k x. unfold past. destruct (Z.leb_spec (rp_Notifications p) 0) as [Hw|Hw].
    + transitivity (pd_reads t !! k = Some x); [by destruct (rp_Elevation p <=? 0), (rp_SeenUsers p <=? 0)|].
      split; [intros Hk; split; [done|]; intros (n & _ & ? & _); lia|by intros [? _]].
    + transitivity ((delete_where (λ k _, stale_marker t (now - rp_Notifications p) k) (pd_reads t)).2 !! k = Some x);
        [by destruct (rp_Elevation p <=? 0), (rp_SeenUsers p <=? 0)|].
      rewrite delete_where_lookup. unfold stale_marker. split; intros [Hk Hc]; (split; [done|]).
      * intros (n & Hn & _ & Hp). rewrite Hn in Hc. apply Z.ltb_ge in Hc. lia.
      * destruct (pd_notifs t !! k.1) as [n|]; [|done]. apply Z.ltb_ge. destruct (Z.le_gt_cases (now - rp_Notifications p) (CreatedAt n)); [done|].
        destruct Hc. exists n. split; [done|]. lia.
Qed.

(** ** Erasure *)

Section erased.
  Context (subject username : string).

(** Only the person's rows went. *)
Definition erased : relation People :=
  lost (λ _ n, subject ≠ "" ∧ Recipient n = subject) (λ k _, subject ≠ "" ∧ k.2 = subject)
       (λ _ r, username ≠ "" ∧ er_user r = username) (λ s _, subject ≠ "" ∧ s = subject)
       (λ s _, subject ≠ "" ∧ s = subject) (λ _ _, False).

#[export] Instance erased_preorder : PreOrder erased.
Proof. unfold erased. apply _. Qed.

Lemma so_far_respects {A} c (f : People → A * People) :
  (∀ t, erased t (f t).2) → respects (tables_rel erased) (so_far c (statement f)).
Proof using Type. intros Hf. apply respects_db_step, respects_statement; [apply _|done]. Qed.

Lemma erase_respects : respects (tables_rel erased) (ErasePersonalData subject username).
Proof using Type.
  unfold ErasePersonalData. apply respects_bind; [apply _| |intros c].
  - destruct (subject ==? "") eqn:Hs; [apply respects_ret; apply _|]. apply bool_decide_eq_false in Hs.
    repeat (apply respects_bind; [apply _| |intros ?]); [..|apply respects_ret; apply _]; apply so_far_respects;
      intros t; cbn [snd]; (split; try reflexivity).
    + apply gone_only_delete. intros k x Hk%bool_decide_eq_true. done.
    + apply gone_only_delete. intros k n [Hr%bool_decide_eq_true _]%andb_true_iff. done.
    + by apply gone_only_key.
    + by apply gone_only_key.
  - destruct (username ==? "") eqn:Hu; [apply respects_ret; apply _|]. apply bool_decide_eq_false in Hu.
    apply respects_bind; [apply _| |intros n; apply respects_ret; apply _]. apply so_far_respects.
    intros t. cbn [snd]. split; try reflexivity. apply gone_only_delete. intros k r Hk%bool_decide_eq_true. done.
Qed.

(** Nothing of the person is left. *)
Definition nothing_of (t : People) : Prop :=
  (subject ≠ "" → (∀ id n, pd_notifs t !! id = Some n → Recipient n ≠ subject) ∧ (∀ id x, pd_reads t !! (id, subject) = Some x → False) ∧
                  pd_prefs t !! subject = None ∧ pd_seen t !! subject = None) ∧
  (username ≠ "" → ∀ id r, pd_elev t !! id = Some r → er_user r ≠ username).

Lemma has_row_gone {A} (m : gmap string A) k : delete k m !! k = None.
Proof. apply lookup_delete_eq. Qed.

Lemma so_far_statement {A} c (f : People → A * People) s r s' : so_far c (statement f) s = (r, s') →
  match r with Ok a => f (tables s) = (a, tables s') | Err (c', _) => c' = c ∧ tables s' = tables s end.
Proof using Type.
  intros (r0 & Hr & ->)%db_step_inv. destruct r0 as [a|e]; [by apply statement_Ok|]. split; [done|by eapply statement_Err].
Qed.

Definition subject_part : SE (Pg People) (PersonalDataCounts * DbErr) PersonalDataCounts :=
  if subject ==? "" then se_ret no_counts else
    run! so_far no_counts (exec (λ t, t <| pd_reads ::= λ reads, (delete_where (λ k _, k.2 ==? subject) reads).2 |>));
    do! n <- so_far no_counts (statement (λ t, let '(n, rows) := delete_where (λ _, personal_note subject) (pd_notifs t) in (n, t <| pd_notifs := rows |>)));
    let c := no_counts <| pc_Notifications := n |> in
    do! n <- so_far c (statement (λ t, (has_row subject (pd_prefs t), t <| pd_prefs ::= delete subject |>)));
    let c := c <| pc_Prefs := n |> in
    do! n <- so_far c (statement (λ t, (has_row subject (pd_seen t), t <| pd_seen ::= delete subject |>)));
    se_ret (c <| pc_SeenUser := n |>).

Lemma subject_part_Ok s c s' : subject_part s = (Ok c, s') →
  (subject ≠ "" → (∀ id n, pd_notifs (tables s') !! id = Some n → Recipient n ≠ subject) ∧
     (∀ id x, pd_reads (tables s') !! (id, subject) = Some x → False) ∧
     pd_prefs (tables s') !! subject = None ∧ pd_seen (tables s') !! subject = None) ∧
  pd_elev (tables s') = pd_elev (tables s) ∧ pc_Elevation c = 0 ∧ pc_ElevationDecided c = 0 ∧
  pc_SeenUser c = (if subject ==? "" then 0 else has_row subject (pd_seen (tables s))) ∧
  pc_Prefs c = (if subject ==? "" then 0 else has_row subject (pd_prefs (tables s))) ∧
  pc_Notifications c = (if subject ==? "" then 0 else count_where (λ _, personal_note subject) (pd_notifs (tables s))).
Proof using Type.
  unfold subject_part. destruct (subject ==? "") eqn:Hs.
  - intros [= <- <-]. apply bool_decide_eq_true in Hs. done.
  - apply bool_decide_eq_false in Hs.
    intros [(n0 & s0 & H0 & Hk)|(? & _ & [=])]%se_bind_inv.
    apply se_bind_inv in Hk as [(n1 & s1 & H1 & Hk)|(? & _ & [=])].
    apply se_bind_inv in Hk as [(n2 & s2 & H2 & Hk)|(? & _ & [=])].
    apply se_bind_inv in Hk as [(n3 & s3 & H3 & Hk)|(? & _ & [=])]. injection Hk as <- <-.
    apply so_far_statement in H0, H1, H2, H3. destruct s as [t o], s0 as [t0 o0], s1 as [t1 o1], s2 as [t2 o2], s3 as [t3 o3].
    cbn [tables] in *. injection H0 as _ <-. injection H1 as <- <-. injection H2 as <- <-. injection H3 as <- <-.
    split; [|done]. intros _. split_and!.
    + intros id n [_ Hn]%(delete_where_lookup (λ _, personal_note subject)) Heq. unfold personal_note in Hn.
      rewrite Heq, (bool_decide_eq_true_2 (subject = subject)), (bool_decide_eq_false_2 _ Hs) in Hn by done. done.
    + intros id x Hx. change ((delete_where (λ (k : string * string) (_ : Time), k.2 ==? subject) (pd_reads t)).2 !! (id, subject) = Some x) in Hx.
      apply delete_where_lookup in Hx as [_ Hx]. cbn [snd] in Hx. by rewrite bool_decide_eq_true_2 in Hx.
    + apply has_row_gone.
    + apply has_row_gone.
Qed.

Lemma erase_Ok s c s' : ErasePersonalData subject username s = (Ok c, s') →
  nothing_of (tables s') ∧ pc_ElevationDecided c = 0 ∧
  pc_SeenUser c = (if subject ==? "" then 0 else has_row subject (pd_seen (tables s))) ∧
  pc_Prefs c = (if subject ==? "" then 0 else has_row subject (pd_prefs (tables s))) ∧
  pc_Notifications c = (if subject ==? "" then 0 else count_where (λ _, personal_note subject) (pd_notifs (tables s))) ∧
  pc_Elevation c = (if username ==? "" then 0 else count_where (λ _ r, er_user r ==? username) (pd_elev (tables s))).
Proof using Type.
  unfold ErasePersonalData. intros [(c1 & s1 & H1 & Hk)|(? & _ & [=])]%se_bind_inv.
  apply (subject_part_Ok s c1 s1) in H1 as (Hn & He & Hc1 & Hc2 & Hc3 & Hc4 & Hc5).
  destruct (username ==? "") eqn:Hu.
  - injection Hk as <- <-. apply bool_decide_eq_true in Hu. split; [by split|]. done.
  - apply bool_decide_eq_false in Hu. apply se_bind_inv in Hk as [(n & s2 & H2 & Hk)|(? & _ & [=])]. injection Hk as <- <-.
    apply so_far_statement in H2. destruct s1 as [t1 o1], s2 as [t2 o2]. cbn [tables] in *. injection H2 as <- <-. rewrite <- He.
    split; [|done]. split; [exact Hn|]. intros _ id r Hr.
    change ((delete_where (λ (_ : string) r, er_user r ==? username) (pd_elev t1)).2 !! id = Some r) in Hr.
    apply delete_where_lookup in Hr as [_ Hr]. by apply bool_decide_eq_false in Hr.
Qed.

Lemma count_live t : ∃ c, CountPersonalData subject username (live t) = (Ok c, live t) ∧
  pc_SeenUser c = (if subject ==? "" then 0 else has_row subject (pd_seen t)) ∧
  pc_Prefs c = (if subject ==? "" then 0 else has_row subject (pd_prefs t)) ∧
  pc_Notifications c = (if subject ==? "" then 0 else count_where (λ _, personal_note subject) (pd_notifs t)) ∧
  pc_Elevation c = (if username ==? "" then 0 else count_where (λ _ r, er_user r ==? username) (pd_elev t)).
Proof using Type.
  unfold CountPersonalData. destruct (subject ==? ""), (username ==? ""); eexists; (split; [reflexivity|]); done.
Qed.
End erased.

(** What went, table by table: exactly the rows under the identifiers given. *)
Record erased_rows (subject username : string) (t t' : People) : Prop := {
  er_notifs : ∀ id n, pd_notifs t' !! id = Some n ↔ pd_notifs t !! id = Some n ∧ ¬ (subject ≠ "" ∧ Recipient n = subject);
  er_reads : ∀ k x, pd_reads t' !! k = Some x ↔ pd_reads t !! k = Some x ∧ ¬ (subject ≠ "" ∧ k.2 = subject);
  er_prefs : ∀ s x, pd_prefs t' !! s = Some x ↔ pd_prefs t !! s = Some x ∧ ¬ (subject ≠ "" ∧ s = subject);
  er_seen : ∀ s x, pd_seen t' !! s = Some x ↔ pd_seen t !! s = Some x ∧ ¬ (subject ≠ "" ∧ s = subject);
  er_elev : ∀ id r, pd_elev t' !! id = Some r ↔ pd_elev t !! id = Some r ∧ ¬ (username ≠ "" ∧ er_user r = username);
  er_status : ∀ tag, pd_status t' !! tag = pd_status t !! tag
}.

Lemma gone_exactly {K A} `{Countable K} (P : K → A → Prop) (m m' : gmap K A) :
  gone_only P m m' → (∀ k a, m' !! k = Some a → ¬ P k a) → ∀ k a, m' !! k = Some a ↔ m !! k = Some a ∧ ¬ P k a.
Proof.
  intros Hg Hn k a. split.
  - intros Ha. split; [|by apply Hn]. destruct (Hg k) as [<-|[Hx _]]; [done|congruence].
  - intros [Ha HP]. destruct (Hg k) as [-> |[_ (x & Hx & HPx)]]; [done|]. rewrite Ha in Hx. by injection Hx as ->.
Qed.

Lemma erased_exactly subject username t t' :
  erased subject username t t' → nothing_of subject username t' → erased_rows subject username t t'.
Proof.
  intros [H1 H2 H3 H4 H5 H6] [Hs Hu]. split.
  - apply gone_exactly; [exact H1|]. intros id n Hn [Hne Hr]. destruct (Hs Hne) as (Hno & _). by apply (Hno id n).
  - apply gone_exactly; [exact H2|]. intros [id s] x Hx [Hne Hr]. simpl in Hr. subst s. destruct (Hs Hne) as (_ & Hno & _).
    by apply (Hno id x).
  - apply gone_exactly; [exact H5|]. intros s x Hx [Hne ->]. destruct (Hs Hne) as (_ & _ & Hno & _). congruence.
  - apply gone_exactly; [exact H4|]. intros s x Hx [Hne ->]. destruct (Hs Hne) as (_ & _ & _ & Hno). congruence.
  - apply gone_exactly; [exact H3|]. intros id r Hr [Hne He]. by apply (Hu Hne id r).
  - intros tag. destruct (H6 tag) as [?|[_ (x & _ & [])]]. done.
Qed.

(** C14: what an erasure takes.  Whichever of its statements fail, it takes no row
    but those under the identifiers given.  When it succeeds exactly these are
    gone: the notifications to the subject and the subject's read markers,
    preferences and address-book entry, and the elevation requests the username
    raised; everything else is as it was - the requests the person decided for
    others among it, with the person's name in them.  A preview of the same
    tables, taken before, gives the same count for each of notifications,
    preferences, address book and requests, and the same total; the read markers
    are deleted without being counted, by either. *)
Theorem erasure_is_exact subject username db r db' :
  ErasePersonalData subject username db = (r, db') →
  erased subject username (tables db) (tables db') ∧
  (∀ c, r = Ok c → erased_rows subject username (tables db) (tables db') ∧
     ∃ c0, CountPersonalData subject username (live (tables db)) = (Ok c0, live (tables db)) ∧
       CountsTotal c = CountsTotal c0 ∧ pc_SeenUser c = pc_SeenUser c0 ∧ pc_Prefs c = pc_Prefs c0 ∧
       pc_Notifications c = pc_Notifications c0 ∧ pc_Elevation c = pc_Elevation c0).
Proof.
  intros Hrun. pose proof (erase_respects subject username _ _ _ Hrun) as Her. split; [exact Her|]. intros c ->.
  apply erase_Ok in Hrun as (Hn & _ & H1 & H2 & H3 & H4). split; [by apply erased_exactly|].
  destruct (count_live subject username (tables db)) as (c0 & Hc & K1 & K2 & K3 & K4). exists c0. split; [done|].
  unfold CountsTotal. rewrite H1, H2, H3, H4, K1, K2, K3, K4. done.
Qed.

(** ** Cases *)

(** The report of an erasure never carries the remark about requests the person
    decided for others: the erasure does not count them. *)
Theorem erasure_omits_decided {W : Type} `{ConfigRepo W, GoJson, Fingerprint, FleetJson, OverlayParsers}
    (gate : Gate W) subject username s n :
  DecidedForOthers n ∉ Remaining (Erase gate subject username s).1.1.
Proof.
  unfold Erase, erasure_run. cbv zeta. destruct (_ && _); [apply not_elem_of_nil|].
  destruct (ErasePersonalData _ _ (rg_db s)) as [[c|[c e]] db] eqn:Hr; [|apply not_elem_of_nil].
  apply erase_Ok in Hr as (_ & Hz & _).
  assert (Hrem : ∀ document rep, ep_Removed rep = c → DecidedForOthers n ∉ remaining (trim_space subject) (trim_space username) document rep).
  { intros document rep Hrep. unfold remaining. rewrite Hrep, Hz. change (0 <? 0) with false. cbv iota.
    destruct (trim_space subject ==? ""), (trim_space username ==? ""), document; simpl; set_solver. }
  destruct (rg_cfg s) as [cfg|]; [|by apply Hrem].
  destruct (clear_users gate _ cfg) as [[e|] cfg']; [apply not_elem_of_nil|]. by apply Hrem.
Qed.

Definition note_to (id recipient audience : string) (created : Time) : Notification :=
  mkNotification id "default" recipient audience WipeExecuted "Device wiped" "" "" false created.

(** An operator known to the console as "4711" and to a device as "bbuijs". *)
Definition registry : People :=
  mkPeople {["n1" := note_to "n1" "4711" "" 10; "n2" := note_to "n2" "" "owners" 20]}
    {[("n1", "4711") := 11; ("n2", "anna") := 21]}
    {["e1" := mkElRow "e1" "lt-1" "bbuijs" "wifi" "office" None 10 None "";
      "e2" := mkElRow "e2" "lt-2" "jjansen" "sudo" "" (Some true) 10 (Some 12) "4711"]}
    {["4711" := mkSeen "b@x" "Bram" ["owners"] 30]} {["4711" := (mkPrefs "" "nl", 5)]} ∅.

Definition erase_demo := ErasePersonalData "4711" "bbuijs" (live registry).

Lemma erasure_is_exact_witness :
  erased_rows "4711" "bbuijs" registry (tables erase_demo.2) ∧ pd_elev (tables erase_demo.2) !! "e1" = None ∧
  decided_by <$> pd_elev (tables erase_demo.2) !! "e2" = Some "4711".
Proof.
  destruct (erasure_is_exact "4711" "bbuijs" (live registry) erase_demo.1 erase_demo.2 (surjective_pairing _)) as [_ Hok].
  destruct (Hok (mkCounts 1 1 1 1 0)) as [Hrows _]; [vm_compute; reflexivity|]. split; [exact Hrows|]. split.
  - apply eq_None_not_Some. intros [r Hr]. apply (er_elev _ _ _ _ Hrows) in Hr as [Hr Hno]. apply Hno.
    vm_compute in Hr. injection Hr as <-. split; [discriminate|reflexivity].
  - assert (He : pd_elev (tables erase_demo.2) !! "e2" =
                   Some (mkElRow "e2" "lt-2" "jjansen" "sudo" "" (Some true) 10 (Some 12) "4711")).
    { apply (er_elev _ _ _ _ Hrows). split; [reflexivity|]. intros [_ Hu]. discriminate Hu. }
    by rewrite He.
Defined.

(** A decision is filed under the console's name for the operator; the preview
    looks for it under the device's. *)
Theorem decided_counted_under_the_wrong_name :
  pc_ElevationDecided <$> (match (CountPersonalData "4711" "bbuijs" (live registry)).1 with Ok c => Some c | Err _ => None end) = Some 0 ∧
  decided_by <$> pd_elev registry !! "e2" = Some "4711".
Proof. vm_compute. split; reflexivity. Qed.

Definition year_sweep (known : option (gset string)) (now : Time) (t : People) := Sweep (mkPolicyR 10 10 10 10) known now (live t).

Lemma sweep_keeps_the_window_witness :
  let '(_, e, db') := year_sweep None 25 registry in
  e = None ∧ pd_notifs (tables db') !! "n1" = None ∧ pd_notifs (tables db') !! "n2" = Some (note_to "n2" "" "owners" 20).
Proof.
  pose proof (sweep_keeps_the_window (mkPolicyR 10 10 10 10) None 25 (live registry)) as Hs. unfold year_sweep.
  destruct (Sweep (mkPolicyR 10 10 10 10) None 25 (live registry)) as [[r e] db']. destruct Hs as [_ Hl].
  destruct (Hl eq_refl) as (He & Hn & _). split; [exact He|]. split.
  - apply eq_None_not_Some. intros [n Hk]. apply Hn in Hk as [Hk Hp]. apply Hp. vm_compute in Hk. injection Hk as <-. split; vm_compute; reflexivity.
  - apply Hn. split; [vm_compute; reflexivity|]. intros [_ Hp]. vm_compute in Hp. discriminate Hp.
Defined.

(** A marker can be left on a notification that does not exist, and no sweep
    takes it. *)
Theorem marker_of_nothing :
  let t := tables (MarkRead "4711" "no-such-id" 1 (live registry)).2 in
  let '(_, e, db') := year_sweep (Some {["lt-1"]}) (time_unix 1000) t in
  e = None ∧ pd_notifs (tables db') = ∅ ∧ pd_reads (tables db') !! ("no-such-id", "4711") = Some 1.
Proof. vm_compute. split_and!; reflexivity. Qed.

Lemma inbox_of_a_reader_witness : map n_ID (list_for "4711" ["owners"] 50 registry) = ["n2"; "n1"] ∧
  unread "4711" ["owners"] (mark_all "4711" ["owners"] 40 registry) = 0.
Proof.
  destruct (inbox_of_a_reader "4711" ["owners"] 50 40 registry) as (_ & _ & _ & _ & Hu & _).
  - intros id n. unfold registry. simpl. rewrite lookup_insert. case_decide as Hid.
    + intros [= <-]. by rewrite <- Hid.
    + intros [<- <-]%lookup_singleton_Some. done.
  - done.
  - by intros ?%list_elem_of_singleton.
  - split; [vm_compute; reflexivity|exact Hu].
Defined.
