(* ===== verification/EvalGate.v ===== *)
(** * The evaluation gate (src/internal/adapters/nix)

    The hosts a change must evaluate, the batches they are forced in, one nix
    process after another or several at once, and the path over nix-eval-jobs
    that reads a verdict per host; the wording of a rejection; the build of a
    change and the publication of a release.  The programs are a parameter:
    what a process prints and whether it failed; that a batch exceeds its own
    time-out is one of the ways its process may fail. *)

From S2P Require Import Prelude GoLib FleetModel Text Catalog.

(** ** Processes *)

(** What a command answers: standard output, and standard error after it when
    the command failed. *)
Record Proc := mkProc { p_out : string; p_failed : option string }.

Inductive GateErr :=
  | ValidationError (detail : string)
  | InvalidHost (host : string)
  | NoHosts
  | RevisionUnread (err : string)
  | NotACommit (rev : string)
  | OutputUnreadable
  | NoResults
  | ContextEnded
  | NotConfigured
  | CutOff (what : string)
  | Killed (what : string).

(** ** The wording of a rejection *)

Definition store_prefix : string := "/nix/store/".
Definition hash_char (a : ascii) : bool := is_lower a || is_digit a.
Definition path_char (a : ascii) : bool := negb (a ∈? [" "; "'"; "034"; "010"]%char).

(** The longest prefix of bytes that satisfy [p], and the rest. *)
Fixpoint span_bytes (p : ascii → bool) (s : string) : string * string :=
  match s with
  | EmptyString => (EmptyString, EmptyString)
  | String a r => if p a then let '(x, y) := span_bytes p r in (String a x, y) else (EmptyString, s)
  end.

(** The expression of a store path at the start of [s] (32 characters of the
    hash, a dash, up to a blank, a quote or a line end): what follows it. *)
Definition store_path (s : string) : option string :=
  if has_prefix s store_prefix then
    let r := String.substring 11 (String.length s - 11) s in
    let h := String.substring 0 32 r in
    if (String.length h =? 32)%nat && string_forall hash_char h then
      match String.substring 32 (String.length r - 32) r with
      | String a rest => if Ascii.eqb a "-" then Some (span_bytes path_char rest).2 else None
      | EmptyString => None
      end
    else None
  else None.

(** [storePathRe.ReplaceAllString]. *)
Fixpoint strip_store (fuel : nat) (s : string) : string :=
  match fuel with
  | O => s
  | S fuel =>
      match store_path s with
      | Some rest => "<store>" +:+ strip_store fuel rest
      | None => match s with EmptyString => EmptyString | String a r => String a (strip_store fuel r) end
      end
  end.

Definition errorLines (lines : list string) : list string :=
  keep_if (λ l, let low := to_lower l in
    contains low "error" || contains low "assertion" || contains low "failed" || contains low "cannot") lines.

Definition maxLines : nat := 12.
Definition last_lines (l : list string) : list string :=
  if (maxLines <? length l)%nat then drop (length l - maxLines) l else l.
Definition noise (l : string) : bool := (l ==? "") || has_prefix l "at " || has_prefix l "warning:".
Definition no_reason : string := "gate rejected the change (no parsable reason in nix output)".

Definition sanitize (out : string) : string :=
  let out := strip_store (S (String.length out)) out in
  let keep := delete_func noise (map trim_space (split_on line_feed out)) in
  let keep :=
    if (maxLines <? length keep)%nat && (errorLines (last_lines keep) ==? []) && negb (errorLines keep ==? [])
    then errorLines keep else keep in
  let keep := last_lines keep in
  if keep ==? [] then no_reason else join keep (String line_feed "").

(** ** Hosts *)

(** [^[a-z0-9][a-z0-9-]{0,62}$], the expression of a slug. *)
Definition hostRe (s : string) : bool := ValidateSlug s.

Definition dq : string := String "034" "".
Definition quoted (s : string) : string := dq +:+ s +:+ dq.

Record EvalGate := mkEvalGate {
  eg_HostVariants : list string; eg_ChunkSize : Z; eg_Workers : Z; eg_JobsBin : string; eg_MaxMemoryMB : Z
}.

Definition variants_of (l : list string) : list string := match l with [] => [""] | _ => l end.
(** Every host with every variant, in the order of the two loops. *)
Definition variant_names (variants hosts : list string) : list string :=
  h ← hosts; v ← variants_of variants; [h +:+ v].

Fixpoint check_hosts (names : list string) : option string :=
  match names with [] => None | n :: l => if hostRe n then check_hosts l else Some n end.

Definition expandVariants (variants hosts : list string) : res GateErr (list string) :=
  let names := variant_names variants hosts in
  match check_hosts names with Some n => Err (InvalidHost n) | None => Ok names end.

(** [chunk]: batches of at most [size], one batch when it is not positive. *)
Fixpoint chunk_from (fuel : nat) (xs : list string) (size : nat) : list (list string) :=
  match fuel, xs with
  | S fuel, _ :: _ => take size xs :: chunk_from fuel (drop size xs) size
  | _, _ => []
  end.
Definition chunk (xs : list string) (size : Z) : list (list string) :=
  if (size <=? 0) || (Z.of_nat (length xs) <=? size) then [xs] else chunk_from (length xs) xs (Z.to_nat size).

Definition defaultChunkSize : Z := 50.
Definition chunk_size (g : EvalGate) : Z := if eg_ChunkSize g <=? 0 then defaultChunkSize else eg_ChunkSize g.

(** The text between the brackets. *)
Definition name_list (names : list string) : string := foldr (λ n k, quoted n +:+ " " +:+ k) "" names.

Definition applyExprExact (names : list string) : res GateErr string :=
  match check_hosts names with
  | Some n => Err (InvalidHost n)
  | None => Ok ("cfgs: map (n: cfgs.${n}.config.system.build.toplevel.drvPath) [ " +:+ name_list names +:+ "]")
  end.

Definition flake_attr (repoDir : string) : string := repoDir +:+ "#nixosConfigurations".
Definition eval_args (repoDir apply : string) : list string :=
  ["eval"; "--json"; flake_attr repoDir; "--apply"; apply; "--no-warn-dirty"].

(** ** Results per host *)

Record jobLine := mkJob { j_Attr : string; j_Error : string }.

Class NixJson := {
  unmarshal_names : string → option (list string);
  unmarshal_job : string → option jobLine
}.

Definition maxScanLine : nat := Z.to_nat (8 * 1024 * 1024).

(** The results among the lines of the output, in order. *)
Definition job_of `{NixJson} (line : string) : option jobLine :=
  let line := trim_space line in
  if has_prefix line "{" then j ← unmarshal_job line; if j_Attr j ==? "" then None else Some j else None.
Definition job_lines `{NixJson} (out : string) : list jobLine := omap job_of (split_on line_feed out).

Definition no_result : string := "the evaluator produced no result for this host; it may have exceeded its memory budget".

(** The failed hosts with their reasons. *)
Definition record_job (failed : gmap string string) (j : jobLine) : gmap string string :=
  if j_Error j ==? "" then failed else <[j_Attr j := sanitize (j_Error j)]> failed.
Definition account (seen : list string) (failed : gmap string string) (n : string) : gmap string string :=
  if n ∈? seen then failed else <[n := no_result]> failed.

Definition parseJobLines `{NixJson} (out : string) (want : list string) : res GateErr (gmap string string) :=
  refuse existsb (λ l, (maxScanLine <=? String.length l)%nat) (split_on line_feed out) with OutputUnreadable;
  let jobs := job_lines out in
  let seen := map j_Attr jobs in
  refuse seen ==? [] with NoResults;
  Ok (foldl (account seen) (foldl record_job ∅ jobs) want).

(** [strings.TrimRight] of line ends. *)
Definition trim_newlines (s : string) : string :=
  string_of_list_ascii (reverse (list_ascii_of_string (span_bytes (λ a, Ascii.eqb a line_feed) (string_of_list_ascii (reverse (list_ascii_of_string s)))).2)).

Definition nl : string := String line_feed "".
Definition describeFailures (failed : gmap string string) : string :=
  let names := sort_strings (elements (dom failed)) in
  let why n := default "" (failed !! n) in
  match names with
  | [n] => n +:+ " does not build:" +:+ nl +:+ why n
  | _ => trim_newlines (pretty (length names) +:+ " hosts do not build (" +:+ join names ", " +:+ ")." +:+ nl +:+
           foldr (λ n k, nl +:+ n +:+ ":" +:+ nl +:+ why n +:+ nl +:+ k) "" names)
  end.

Definition jobsExpr (repoDir rev : string) (names : list string) : res GateErr string :=
  match check_hosts names with
  | Some n => Err (InvalidHost n)
  | None => Ok ("let f = builtins.getFlake " +:+ quoted ("git+file://" +:+ repoDir +:+ "?rev=" +:+ rev) +:+ "; in " +:+
      "builtins.listToAttrs (map (n: { name = n; value = f.nixosConfigurations.${n}.config.system.build.toplevel; }) [ " +:+
      name_list names +:+ "])")
  end.

Definition workers (g : EvalGate) : Z := if 1 <? eg_Workers g then eg_Workers g else 1.
Definition jobs_args (g : EvalGate) (expr : string) : list string :=
  ["--expr"; expr; "--workers"; pretty (workers g); "--no-instantiate"] ++
  (if 0 <? eg_MaxMemoryMB g then ["--max-memory-size"; pretty (eg_MaxMemoryMB g)] else []).

(** ** The gate *)

Section gate.
  Context {W : Type} `{NixJson}.
  Context (proc : string → list string → W → Proc * W).

(** [allHostNames]: attrNames forces no configuration. *)
Definition allHostNames (repoDir : string) (w : W) : res GateErr (list string) * W :=
  let '(o, w) := proc "nix" (eval_args repoDir "builtins.attrNames") w in
  (match p_failed o with
   | Some _ => Err (ValidationError (sanitize (p_out o)))
   | None => match unmarshal_names (p_out o) with
             | None => Err (ValidationError "gate could not read the host set from nix")
             | Some names => Ok names
             end
   end, w).

Definition resolveHosts (g : EvalGate) (repoDir : string) (hosts : list string) (w : W) : res GateErr (list string) * W :=
  match hosts with
  | [] => allHostNames repoDir w
  | _ => (expandVariants (eg_HostVariants g) hosts, w)
  end.

(** One batch in one process: nil is [None]. *)
Definition evalNames (repoDir : string) (names : list string) (w : W) : option GateErr * W :=
  match applyExprExact names with
  | Err e => (Some e, w)
  | Ok apply =>
      let '(o, w) := proc "nix" (eval_args repoDir apply) w in
      (match p_failed o with Some _ => Some (ValidationError (sanitize (p_out o))) | None => None end, w)
  end.

(** One batch after another. *)
Fixpoint eval_seq (repoDir : string) (batches : list (list string)) (w : W) : option GateErr * W :=
  match batches with
  | [] => (None, w)
  | b :: batches =>
      match evalNames repoDir b w with
      | (Some e, w) => (Some e, w)
      | (None, w) => eval_seq repoDir batches w
      end
  end.

(** Several at once.  A worker waits for a batch, evaluates one, or is gone;
    the feeder hands out batches until there are none or the context ended. *)
Inductive Worker := Idle | Busy (batch : list string) | Gone.
#[global] Instance Worker_eq_dec : EqDecision Worker.
Proof. solve_decision. Defined.

Record Pool := mkPool {
  po_jobs : list (list string); po_closed : bool; po_workers : list Worker;
  po_errs : list GateErr; po_cancelled : bool; po_world : W
}.

(** [leaves] says whether the caller's own context may end during the run; a
    process whose context ended may be killed, whatever it had printed. *)
Inductive pool_step (repoDir : string) (leaves : bool) : Pool → Pool → Prop :=
  | feed i b jobs ws errs c w : ws !! i = Some Idle →
      pool_step repoDir leaves (mkPool (b :: jobs) false ws errs c w) (mkPool jobs false (<[i := Busy b]> ws) errs c w)
  | feed_end ws errs c w :
      pool_step repoDir leaves (mkPool [] false ws errs c w) (mkPool [] true ws errs c w)
  | feed_stop jobs ws errs w :
      pool_step repoDir leaves (mkPool jobs false ws errs true w) (mkPool jobs true ws errs true w)
  | batch_passes i b jobs cl ws errs c w w' : ws !! i = Some (Busy b) → evalNames repoDir b w = (None, w') →
      pool_step repoDir leaves (mkPool jobs cl ws errs c w) (mkPool jobs cl (<[i := Idle]> ws) errs c w')
  | batch_fails i b jobs cl ws errs c w e w' : ws !! i = Some (Busy b) → evalNames repoDir b w = (Some e, w') →
      pool_step repoDir leaves (mkPool jobs cl ws errs c w) (mkPool jobs cl (<[i := Gone]> ws) (errs ++ [e]) true w')
  | batch_killed i b jobs cl ws errs w out : ws !! i = Some (Busy b) →
      pool_step repoDir leaves (mkPool jobs cl ws errs true w)
        (mkPool jobs cl (<[i := Gone]> ws) (errs ++ [ValidationError (sanitize out)]) true w)
  | worker_ends i jobs ws errs c w : ws !! i = Some Idle →
      pool_step repoDir leaves (mkPool jobs true ws errs c w) (mkPool jobs true (<[i := Gone]> ws) errs c w)
  | caller_leaves jobs cl ws errs w : leaves = true →
      pool_step repoDir leaves (mkPool jobs cl ws errs false w) (mkPool jobs cl ws errs true w).

Definition pool_start (n : nat) (batches : list (list string)) (w : W) : Pool :=
  mkPool batches false (replicate n Idle) [] false w.
Definition pool_over (p : Pool) : Prop := po_closed p = true ∧ ∀ i x, po_workers p !! i = Some x → x = Gone.
(** The first error, or that of the context. *)
Definition pool_result (p : Pool) : option GateErr :=
  match po_errs p with
  | e :: _ => Some e
  | [] => if po_cancelled p then Some ContextEnded else None
  end.

Definition pool_size (g : EvalGate) (batches : list (list string)) : nat :=
  if eg_Workers g <=? Z.of_nat (length batches) then Z.to_nat (eg_Workers g) else length batches.
Definition in_turn (g : EvalGate) (batches : list (list string)) : bool :=
  (eg_Workers g <=? 1) || (length batches =? 1)%nat.

Inductive evalBatches (g : EvalGate) (repoDir : string) (leaves : bool) (batches : list (list string)) (w : W)
    : option GateErr → W → Prop :=
  | batches_in_turn v w' : in_turn g batches = true → eval_seq repoDir batches w = (v, w') →
      evalBatches g repoDir leaves batches w v w'
  | batches_at_once p : in_turn g batches = false →
      rtc (pool_step repoDir leaves) (pool_start (pool_size g batches) batches w) p → pool_over p →
      evalBatches g repoDir leaves batches w (pool_result p) (po_world p).

(** Through nix-eval-jobs. *)
Definition headRev (repoDir : string) (w : W) : res GateErr string * W :=
  let '(o, w) := proc "git" ["-C"; repoDir; "rev-parse"; "HEAD"] w in
  (match p_failed o with
   | Some e => Err (RevisionUnread e)
   | None => let rev := trim_space (p_out o) in
             if (String.length rev =? 40)%nat then Ok rev else Err (NotACommit rev)
   end, w).

Definition evalWithJobs (g : EvalGate) (repoDir : string) (names : list string) (w : W) : option GateErr * W :=
  match headRev repoDir w with
  | (Err e, w) => (Some e, w)
  | (Ok rev, w) =>
      match jobsExpr repoDir rev names with
      | Err e => (Some e, w)
      | Ok expr =>
          let '(o, w) := proc (eg_JobsBin g) (jobs_args g expr) w in
          let says := Some (ValidationError (sanitize (p_out o))) in
          (match parseJobLines (p_out o) names with
           | Err e => if negb (p_failed o ==? None) then says else Some e
           | Ok failed =>
               if negb (failed ==? ∅) then Some (ValidationError (describeFailures failed))
               else if negb (p_failed o ==? None) then says else None
           end, w)
      end
  end.

Inductive Validate (g : EvalGate) (repoDir : string) (leaves : bool) (hosts : list string) (w : W)
    : option GateErr → W → Prop :=
  | hosts_unresolved e w' : resolveHosts g repoDir hosts w = (Err e, w') → Validate g repoDir leaves hosts w (Some e) w'
  | nothing_to_build w' : resolveHosts g repoDir hosts w = (Ok [], w') → Validate g repoDir leaves hosts w None w'
  | through_jobs names w1 v w' : resolveHosts g repoDir hosts w = (Ok names, w1) → names ≠ [] → eg_JobsBin g ≠ "" →
      evalWithJobs g repoDir names w1 = (v, w') → Validate g repoDir leaves hosts w v w'
  | in_batches names w1 v w' : resolveHosts g repoDir hosts w = (Ok names, w1) → names ≠ [] → eg_JobsBin g = "" →
      evalBatches g repoDir leaves (chunk names (chunk_size g)) w1 v w' → Validate g repoDir leaves hosts w v w'.

(** ** Builds *)

Definition target (repoDir host : string) : string :=
  flake_attr repoDir +:+ "." +:+ quoted host +:+ ".config.system.build.toplevel".
Definition targets (variants : list string) (repoDir : string) (hosts : list string) : res GateErr (list string) :=
  refuse hosts ==? [] with NoHosts;
  let! names := expandVariants variants hosts in
  Ok (map (target repoDir) names).

Definition build_args (batch : list string) : list string := ["build"; "--no-link"; "--no-warn-dirty"] ++ batch.
Definition copy_args (dest : string) (batch : list string) : list string := ["copy"; "--no-warn-dirty"; "--to"; dest] ++ batch.

Definition Build (variants : list string) (repoDir : string) (hosts : list string) (w : W) : option GateErr * W :=
  match targets variants repoDir hosts with
  | Err e => (Some e, w)
  | Ok targets =>
      let '(o, w) := proc "nix" (build_args targets) w in
      (match p_failed o with Some _ => Some (ValidationError (sanitize (p_out o))) | None => None end, w)
  end.

Record Publisher := mkPublisher { pb_HostVariants : list string; pb_CacheDir : string; pb_KeyFile : string; pb_ChunkSize : Z }.

Definition killed (out : string) : bool :=
  if contains out "error:" then false
  else existsb (contains out) ["signal: killed"; "Killed"; "out of memory"; "Out of memory"; "exit status 137"].

(** [expired w]: the context of the run has ended. *)
Definition buildFailure (expired : W → bool) (what out : string) (w : W) : GateErr :=
  if expired w then CutOff what else if killed out then Killed what else ValidationError (sanitize out).

Definition building : string := "building the release".
Definition copying : string := "copying the release into the cache".

Fixpoint publish_batches (expired : W → bool) (dest : string) (batches : list (list string)) (w : W) : option GateErr * W :=
  match batches with
  | [] => (None, w)
  | b :: batches =>
      let '(o, w) := proc "nix" (build_args b) w in
      if negb (p_failed o ==? None) then (Some (buildFailure expired building (p_out o) w), w) else
      let '(o, w) := proc "nix" (copy_args dest b) w in
      if negb (p_failed o ==? None) then (Some (buildFailure expired copying (p_out o) w), w) else
      publish_batches expired dest batches w
  end.

Definition cache_url (p : Publisher) : string :=
  "file://" +:+ pb_CacheDir p +:+ "?secret-key=" +:+ pb_KeyFile p +:+ "&compression=zstd".

Definition Publish (p : Publisher) (expired : W → bool) (repoDir : string) (hosts : list string) (w : W) : option GateErr * W :=
  if (pb_CacheDir p ==? "") || (pb_KeyFile p ==? "") then (Some NotConfigured, w) else
  match targets (pb_HostVariants p) repoDir hosts with
  | Err e => (Some e, w)
  | Ok targets => publish_batches expired (cache_url p) (chunk targets (pb_ChunkSize p)) w
  end.
End gate.

(** ** Batches *)

Lemma chunk_from_concat fuel xs size : (0 < size)%nat → (length xs ≤ fuel)%nat → concat (chunk_from fuel xs size) = xs.
Proof.
  intros Hs. revert xs. induction fuel as [|fuel IH]; intros [|x xs] Hf; simpl in *; [done|lia|done|].
  rewrite IH; [by rewrite take_drop|]. rewrite length_drop. simpl. lia.
Qed.

Lemma chunk_concat xs size : concat (chunk xs size) = xs.
Proof.
  unfold chunk. destruct (Z.leb_spec size 0); simpl; [apply app_nil_r|].
  destruct (Z.leb_spec (Z.of_nat (length xs)) size); [apply app_nil_r|]. apply chunk_from_concat; lia.
Qed.

Lemma elem_of_batches xs size n : n ∈ xs ↔ ∃ b, b ∈ chunk xs size ∧ n ∈ b.
Proof.
  rewrite <- (chunk_concat xs size) at 1. rewrite list_elem_of_In, in_concat. by setoid_rewrite <- list_elem_of_In.
Qed.

Lemma chunk_from_bounded fuel xs size b : b ∈ chunk_from fuel xs size → (length b ≤ size)%nat.
Proof.
  revert xs. induction fuel as [|fuel IH]; intros [|x xs]; simpl; try by intros ?%elem_of_nil.
  intros [->|Hb]%elem_of_cons; [rewrite length_take; lia|by apply IH in Hb].
Qed.

Lemma chunk_bounded xs size b : 0 < size → b ∈ chunk xs size → (length b ≤ Z.to_nat size)%nat.
Proof.
  intros Hs. unfold chunk. destruct (Z.leb_spec size 0); [lia|]. simpl.
  destruct (Z.leb_spec (Z.of_nat (length xs)) size); [intros ->%list_elem_of_singleton; lia|]. apply chunk_from_bounded.
Qed.

Lemma elem_of_variant_names variants hosts n : n ∈ variant_names variants hosts ↔
  ∃ h x, h ∈ hosts ∧ x ∈ variants_of variants ∧ n = h +:+ x.
Proof.
  unfold variant_names. rewrite list_elem_of_bind. split.
  - intros (h & (x & Hn & Hx)%list_elem_of_bind & Hh). apply list_elem_of_singleton in Hn as ->. by exists h, x.
  - intros (h & x & Hh & Hx & ->). exists h. split; [|done]. apply list_elem_of_bind. exists x.
    split; [by apply list_elem_of_singleton|done].
Qed.

Lemma check_hosts_None names : check_hosts names = None ↔ Forall (λ n, hostRe n = true) names.
Proof.
  induction names as [|n names IH]; simpl; [done|]. rewrite Forall_cons. destruct (hostRe n).
  - rewrite IH. tauto.
  - split; [done|]. by intros [? _].
Qed.

Lemma expandVariants_Ok variants hosts names : expandVariants variants hosts = Ok names → names = variant_names variants hosts.
Proof. unfold expandVariants. destruct (check_hosts _); [done|]. congruence. Qed.

(** ** The pool *)

Section pool.
  Context {W : Type} `{NixJson}.
  Context (proc : string → list string → W → Proc * W) (repoDir : string).

Notation step leaves := (pool_step proc repoDir leaves).
Notation pool := (Pool (W := W)).

(** A batch that some process accepted. *)
Definition passed (b : list string) : Prop := ∃ w w', evalNames proc repoDir b w = (None, w').

(** Nothing is lost: a batch is to be handed out, in a worker's hands, accepted,
    or there is an error to report. *)
Record pool_inv (batches : list (list string)) (p : pool) : Prop := {
  inv_accounted : ∀ b, b ∈ batches → po_errs p = [] →
    b ∈ po_jobs p ∨ (∃ i, po_workers p !! i = Some (Busy b)) ∨ passed b;
  inv_closed : po_closed p = true → po_cancelled p = false → po_jobs p = [];
  inv_gone : po_closed p = false → po_cancelled p = false → ∀ i, po_workers p !! i ≠ Some Gone;
  inv_errs : po_errs p ≠ [] → po_cancelled p = true
}.

Lemma pool_inv_start n batches w : pool_inv batches (pool_start n batches w).
Proof.
  split; simpl; [by left|done| |done]. intros _ _ i Hi. by apply lookup_replicate in Hi as [Hx _].
Qed.

Lemma pool_inv_step leaves batches p p' : pool_inv batches p → step leaves p p' → pool_inv batches p'.
Proof.
  intros [Ha Hc Hg He] Hs. destruct Hs as [i b jobs ws errs c w Hi| |jobs ws errs w|i b jobs cl ws errs c w w' Hi Hb
    |i b jobs cl ws errs c w e w' Hi Hb|i b jobs cl ws errs w out Hi|i jobs ws errs c w Hi|jobs cl ws errs w Hl]; simpl in *.
  - split; simpl; [|done| |done].
    + intros x Hx Hn. destruct (Ha x Hx Hn) as [[->|Hj]%elem_of_cons|[[k Hk]|Hp]]; [|by left| |by right; right].
      * right; left. exists i. apply list_lookup_insert_eq. by eapply lookup_lt_Some.
      * right; left. exists k. rewrite list_lookup_insert_ne; [done|]. intros ->. congruence.
    + intros _ Hf k. destruct (decide (k = i)) as [->|Hk]; [|rewrite list_lookup_insert_ne by done; by apply Hg].
      rewrite list_lookup_insert_eq by (by eapply lookup_lt_Some). done.
  - by split; simpl.
  - by split; simpl.
  - split; simpl; [|done| |done].
    + intros x Hx Hn. destruct (Ha x Hx Hn) as [Hj|[[k Hk]|Hp]]; [by left| |by right; right].
      destruct (decide (k = i)) as [->|Hki]; [|right; left; exists k; by rewrite list_lookup_insert_ne].
      right; right. exists w, w'. congruence.
    + intros Hcl Hf k. destruct (decide (k = i)) as [->|Hk]; [|rewrite list_lookup_insert_ne by done; by apply Hg].
      rewrite list_lookup_insert_eq by (by eapply lookup_lt_Some). done.
  - split; simpl; [|done..]. intros x _ Hn. by destruct errs.
  - split; simpl; [|done..]. intros x _ Hn. by destruct errs.
  - split; simpl; [|done..]. intros x Hx Hn. destruct (Ha x Hx Hn) as [Hj|[[k Hk]|Hp]]; [by left| |by right; right].
    right; left. exists k. rewrite list_lookup_insert_ne; [done|]. intros ->. congruence.
  - by split; simpl.
Qed.

Lemma pool_inv_reach leaves batches p0 p : pool_inv batches p0 → rtc (step leaves) p0 p → pool_inv batches p.
Proof. intros Hi Hr. induction Hr as [|x y z Hxy _ IH]; [done|]. apply IH. by eapply pool_inv_step. Qed.

(** What is accepted has been accepted batch by batch. *)
Lemma pool_sound leaves n batches w p :
  rtc (step leaves) (pool_start n batches w) p → pool_over p → pool_result p = None → ∀ b, b ∈ batches → passed b.
Proof.
  intros Hr [Hcl Hg] Hres b Hb. destruct (pool_inv_reach _ _ _ _ (pool_inv_start n batches w) Hr) as [Ha Hc _ He].
  unfold pool_result in Hres. destruct (po_errs p) as [|e errs] eqn:Herr; [|done].
  destruct (po_cancelled p) eqn:Hca; [done|]. destruct (Ha b Hb eq_refl) as [Hj|[[i Hi]|Hp]]; [|by apply Hg in Hi|done].
  rewrite Hc in Hj by done. by apply elem_of_nil in Hj.
Qed.

(** Where every batch is accepted and the caller stays, nothing is refused. *)
Definition untroubled (p : pool) : Prop := po_errs p = [] ∧ po_cancelled p = false.

Lemma pool_complete n batches w p :
  (∀ b, b ∈ batches → ∀ w, (evalNames proc repoDir b w).1 = None) →
  rtc (step false) (pool_start n batches w) p → pool_result p = None.
Proof.
  intros Hall Hr.
  assert (Hinv : untroubled p ∧ (∀ b, b ∈ po_jobs p → b ∈ batches) ∧ (∀ i b, po_workers p !! i = Some (Busy b) → b ∈ batches)).
  { assert (H0 : let p := pool_start n batches w in
      untroubled p ∧ (∀ b, b ∈ po_jobs p → b ∈ batches) ∧ (∀ i b, po_workers p !! i = Some (Busy b) → b ∈ batches)).
    { split; [done|]. split; [done|]. intros i b Hi. simpl in Hi. by apply lookup_replicate in Hi as [Hx _]. }
    induction Hr as [|x y z Hxy _ IH]; [exact H0|]. apply IH. clear IH. destruct H0 as ([He Hc] & Hj & Hw).
    destruct Hxy as [i b jobs ws errs c wd Hi| | |i b jobs cl ws errs c wd w' Hi Hb|i b jobs cl ws errs c wd e w' Hi Hb
      |i b jobs cl ws errs wd out Hi|i jobs ws errs c wd Hi|]; simpl in *; try done.
    - split; [done|]. split; [intros x Hx; apply Hj; by right|]. intros k x.
      destruct (decide (k = i)) as [->|Hk]; [|rewrite list_lookup_insert_ne by done; apply Hw].
      rewrite list_lookup_insert_eq by (by eapply lookup_lt_Some). intros [= <-]. apply Hj. left.
    - split; [done|]. split; [done|]. intros k x.
      destruct (decide (k = i)) as [->|Hk]; [|rewrite list_lookup_insert_ne by done; apply Hw].
      rewrite list_lookup_insert_eq by (by eapply lookup_lt_Some). done.
    - specialize (Hall b (Hw i b Hi) wd). by rewrite Hb in Hall.
    - split; [done|]. split; [done|]. intros k x.
      destruct (decide (k = i)) as [->|Hk]; [|rewrite list_lookup_insert_ne by done; apply Hw].
      rewrite list_lookup_insert_eq by (by eapply lookup_lt_Some). done. }
  destruct Hinv as [[He Hc] _]. unfold pool_result. by rewrite He, Hc.
Qed.
End pool.

(** ** The pool comes to an end *)

Definition weight (x : Worker) : nat := match x with Idle => 1 | Busy _ => 2 | Gone => 0 end.
Definition is_busy (x : Worker) : bool := match x with Busy _ => true | _ => false end.
Definition left_to_do {W} (p : Pool (W := W)) : nat :=
  2 * length (po_jobs p) + sum_list_with weight (po_workers p) +
  (if po_closed p then 0 else 1) + (if po_cancelled p then 0 else 1).

Lemma sum_insert {A} (f : A → nat) l i x y : l !! i = Some x →
  (sum_list_with f (<[i := y]> l) + f x = sum_list_with f l + f y)%nat.
Proof.
  revert i. induction l as [|z l IH]; intros [|i]; simpl; intros Hi; try done.
  - injection Hi as ->. lia.
  - specialize (IH i Hi). lia.
Qed.

Lemma sum_replicate_idle n : sum_list_with weight (replicate n Idle) = n.
Proof. induction n as [|n IH]; simpl; [done|]. by rewrite IH. Qed.

Section ends.
  Context {W : Type} `{NixJson}.
  Context (proc : string → list string → W → Proc * W) (repoDir : string) (leaves : bool).

Notation step := (pool_step proc repoDir leaves).

Lemma step_works p p' : step p p' → (left_to_do p' < left_to_do p)%nat.
Proof.
  intros Hs. destruct Hs as [i b jobs ws errs c w Hi| | |i b jobs cl ws errs c w w' Hi Hb
    |i b jobs cl ws errs c w e w' Hi Hb|i b jobs cl ws errs w out Hi|i jobs ws errs c w Hi|]; unfold left_to_do; simpl; try lia.
  - pose proof (sum_insert weight ws i Idle (Busy b) Hi). simpl in *. lia.
  - pose proof (sum_insert weight ws i (Busy b) Idle Hi). simpl in *. lia.
  - pose proof (sum_insert weight ws i (Busy b) Gone Hi). simpl in *. destruct c; lia.
  - pose proof (sum_insert weight ws i (Busy b) Gone Hi). simpl in *. lia.
  - pose proof (sum_insert weight ws i Idle Gone Hi). simpl in *. lia.
Qed.

Lemma nsteps_bounded k p p' : nsteps step k p p' → (k + left_to_do p' ≤ left_to_do p)%nat.
Proof. intros Hk. induction Hk as [|k x y z Hxy _ IH]; [lia|]. apply step_works in Hxy. lia. Qed.

(** A worker that is not gone has a step. *)
Lemma busy_steps p i b : po_workers p !! i = Some (Busy b) → ∃ p', step p p'.
Proof.
  destruct p as [jobs cl ws errs c w]. simpl. intros Hi.
  destruct (evalNames proc repoDir b w) as [[e|] w'] eqn:Hb; eexists; [by eapply batch_fails|by eapply batch_passes].
Qed.

Lemma workers_kept p p' : step p p' → length (po_workers p') = length (po_workers p).
Proof. intros []; simpl; rewrite ?length_insert; done. Qed.

Lemma pool_progress batches p : pool_inv proc repoDir batches p → (0 < length (po_workers p))%nat →
  pool_over p ∨ ∃ p', step p p'.
Proof.
  intros [_ _ Hg _] Hn.
  destruct (decide (Exists (λ x, is_busy x = true) (po_workers p))) as [Hb|Hnb].
  { apply Exists_exists in Hb as ([| b|] & Hx & [=]). apply list_elem_of_lookup in Hx as [i Hi]. right. by eapply busy_steps. }
  destruct (decide (Idle ∈ po_workers p)) as [Hidle|Hni].
  { apply list_elem_of_lookup in Hidle as [i Hi]. right. destruct p as [jobs [] ws errs c w]; simpl in *.
    - eexists. by eapply worker_ends.
    - destruct jobs as [|b jobs]; eexists; [apply feed_end|by eapply feed]. }
  assert (Hall : ∀ i x, po_workers p !! i = Some x → x = Gone).
  { intros i [| b|] Hi; [|exfalso|done].
    - by apply list_elem_of_lookup_2 in Hi.
    - apply Hnb, Exists_exists. exists (Busy b). split; [by eapply list_elem_of_lookup_2|done]. }
  destruct p as [jobs [] ws errs [] w]; simpl in *; [by left..| |].
  - right. eexists. apply feed_stop.
  - exfalso. destruct ws as [|x ws]; [simpl in Hn; lia|]. apply (Hg eq_refl eq_refl 0%nat). by rewrite (Hall 0%nat x).
Qed.
End ends.

(** ** What the gate says *)

Section verdict.
  Context {W : Type} `{NixJson}.
  Context (proc : string → list string → W → Proc * W) (repoDir : string).

Lemma pool_ends_somewhere leaves batches p : pool_inv proc repoDir batches p → (0 < length (po_workers p))%nat →
  ∃ p', rtc (pool_step proc repoDir leaves) p p' ∧ pool_over p'.
Proof.
  remember (left_to_do p) as k eqn:Hk. revert p Hk. induction (lt_wf k) as [k _ IH]. intros p -> Hi Hn.
  destruct (pool_progress proc repoDir leaves batches p Hi Hn) as [Ho|[p1 Hs]]; [by exists p|].
  destruct (IH (left_to_do p1) (step_works proc repoDir leaves p p1 Hs) p1 eq_refl) as (p' & Hr & Ho).
  - by eapply pool_inv_step.
  - by rewrite (workers_kept proc repoDir leaves p p1 Hs).
  - exists p'. split; [|done]. by eapply rtc_l.
Qed.

Lemma pool_size_bounds g batches : in_turn g batches = false → batches ≠ [] →
  (0 < pool_size g batches)%nat ∧ Z.of_nat (pool_size g batches) ≤ eg_Workers g ∧ (pool_size g batches ≤ length batches)%nat.
Proof.
  unfold in_turn, pool_size. intros [Hw%Z.leb_gt Hl]%orb_false_iff Hne.
  destruct batches as [|b l]; [done|]. destruct (Z.leb_spec (eg_Workers g) (Z.of_nat (length (b :: l)))); simpl length in *; lia.
Qed.

(** The gate answers whatever its programs do and whenever the caller leaves:
    the pool of evaluators takes at most two steps for a batch, one for a worker
    and two more, and it stops nowhere but at its end. *)
Lemma chunk_nonempty xs size : chunk xs size ≠ [].
Proof.
  unfold chunk. destruct (Z.leb_spec size 0); [done|]. destruct (Z.leb_spec (Z.of_nat (length xs)) size); [done|]. simpl.
  destruct xs; simpl in *; [lia|done].
Qed.

Lemma evalBatches_answers g leaves batches w : batches ≠ [] → ∃ v w', evalBatches proc g repoDir leaves batches w v w'.
Proof.
  intros Hne. destruct (in_turn g batches) eqn:Ht.
  - destruct (eval_seq proc repoDir batches w) as [v w'] eqn:Hs. exists v, w'. by apply batches_in_turn.
  - destruct (pool_size_bounds g batches Ht Hne) as [Hn _].
    destruct (pool_ends_somewhere leaves batches (pool_start (pool_size g batches) batches w)) as (p & Hr & Ho).
    + apply pool_inv_start.
    + simpl. by rewrite length_replicate.
    + exists (pool_result p), (po_world p). by eapply batches_at_once.
Qed.

(** The gate answers, whatever its programs do and whenever its caller
    leaves; a run of the pool of evaluators is at most two steps for a batch,
    one for a worker and two more, and it stops nowhere but at its end, where
    every worker is gone. *)
Theorem gate_answers g leaves hosts w :
  (∃ v w', Validate proc g repoDir leaves hosts w v w') ∧
  ∀ n batches, (0 < n)%nat →
    (∀ k p, nsteps (pool_step proc repoDir leaves) k (pool_start n batches w) p → (k ≤ 2 * length batches + n + 2)%nat) ∧
    (∀ p, rtc (pool_step proc repoDir leaves) (pool_start n batches w) p →
       pool_over p ∨ ∃ p', pool_step proc repoDir leaves p p').
Proof.
  split.
  - destruct (resolveHosts proc g repoDir hosts w) as [[names|e] w1] eqn:Hr.
    + destruct names as [|n names]; [exists None, w1; by apply nothing_to_build|].
      destruct (decide (eg_JobsBin g = "")) as [Hj|Hj].
      * destruct (evalBatches_answers g leaves (chunk (n :: names) (chunk_size g)) w1 (chunk_nonempty _ _)) as (v & w' & Hb).
        exists v, w'. by eapply in_batches.
      * destruct (evalWithJobs proc g repoDir (n :: names) w1) as [v w'] eqn:Hv. exists v, w'. by eapply through_jobs.
    + exists (Some e), w1. by apply hosts_unresolved.
  - intros n batches Hn. split.
    + intros k p Hk. apply nsteps_bounded in Hk. unfold left_to_do at 2 in Hk. simpl in Hk. rewrite sum_replicate_idle in Hk. lia.
    + intros p Hr. apply (pool_progress proc repoDir leaves batches).
      * eapply pool_inv_reach; [apply pool_inv_start|exact Hr].
      * clear -Hr Hn. assert (Hl : (0 < length (po_workers (pool_start n batches w)))%nat) by (simpl; by rewrite length_replicate).
        induction Hr as [|x y z Hxy _ IH]; [done|]. apply IH. by rewrite (workers_kept _ _ _ _ _ Hxy).
Qed.

(** *** The verdict *)

Section law.
  Context (good : string → bool).
  (** Nix forces the derivations named in the expression and fails when one of
      them does not evaluate. *)
  Hypothesis nix_forces : ∀ names apply w, applyExprExact names = Ok apply →
    p_failed (proc "nix" (eval_args repoDir apply) w).1 = None ↔ Forall (λ n, good n = true) names.

Definition evaluates (n : string) : Prop := hostRe n = true ∧ good n = true.

Lemma evalNames_spec b w : (evalNames proc repoDir b w).1 = None ↔ Forall evaluates b.
Proof.
  unfold evalNames. destruct (applyExprExact b) as [apply|e] eqn:Ha.
  - specialize (nix_forces b apply w Ha). destruct (proc "nix" (eval_args repoDir apply) w) as [o w']. simpl in *.
    unfold applyExprExact in Ha. destruct (check_hosts b) eqn:Hc; [done|]. apply check_hosts_None in Hc.
    unfold evaluates. rewrite Forall_and, <- nix_forces. destruct (p_failed o); naive_solver.
  - unfold applyExprExact in Ha. destruct (check_hosts b) as [n|] eqn:Hc; [|done]. simpl. split; [done|]. intros Hb. exfalso.
    assert (Hn : check_hosts b = None) by (apply check_hosts_None; eapply Forall_impl; [exact Hb|by intros x [? _]]). congruence.
Qed.

Lemma eval_seq_spec batches w : (eval_seq proc repoDir batches w).1 = None ↔ ∀ b, b ∈ batches → Forall evaluates b.
Proof.
  revert w. induction batches as [|b l IH]; intros w; simpl.
  { split; [|done]. by intros _ b ?%elem_of_nil. }
  pose proof (evalNames_spec b w) as Hb. destruct (evalNames proc repoDir b w) as [[e|] w1]; simpl in *.
  - split; [done|]. intros Hl. destruct (proj2 Hb); [|done]. apply Hl. left.
  - rewrite IH. split.
    + intros Hl x [->|Hx]%elem_of_cons; [by apply Hb|by apply Hl].
    + intros Hl x Hx. apply Hl. by right.
Qed.

Lemma evalBatches_spec g leaves batches w v w' : evalBatches proc g repoDir leaves batches w v w' →
  (v = None → ∀ b, b ∈ batches → Forall evaluates b) ∧
  (leaves = false → (∀ b, b ∈ batches → Forall evaluates b) → v = None).
Proof.
  intros [v1 w1 _ Hs|p _ Hr Ho].
  - pose proof (eval_seq_spec batches w) as Hsp. rewrite Hs in Hsp. simpl in Hsp. split; [|intros _]; apply Hsp.
  - split.
    + intros Hres b Hb. destruct (pool_sound proc repoDir leaves _ _ _ _ Hr Ho Hres b Hb) as (w1 & w2 & Hp).
      apply (evalNames_spec b w1). by rewrite Hp.
    + intros -> Hall. eapply pool_complete; [|exact Hr]. intros b Hb w1. by apply evalNames_spec, Hall.
Qed.

(** C6: whatever the size of a batch and the number of evaluators, and however
    they are scheduled, a change the gate lets through has every host of its
    radius, in every variant, well named and evaluating; and where they all are
    and the caller stays, the gate lets it through. *)
Theorem gate_verdict_exact g leaves hosts w names w1 v w' :
  eg_JobsBin g = "" → resolveHosts proc g repoDir hosts w = (Ok names, w1) →
  Validate proc g repoDir leaves hosts w v w' →
  (v = None → ∀ n, n ∈ names → evaluates n) ∧
  (leaves = false → (∀ n, n ∈ names → evaluates n) → v = None) ∧
  (hosts ≠ [] → ∀ n, n ∈ names ↔ ∃ h x, h ∈ hosts ∧ x ∈ variants_of (eg_HostVariants g) ∧ n = h +:+ x).
Proof.
  intros Hj Hres Hv.
  assert (Hn : hosts ≠ [] → ∀ n, n ∈ names ↔ ∃ h x, h ∈ hosts ∧ x ∈ variants_of (eg_HostVariants g) ∧ n = h +:+ x).
  { intros Hne n. destruct hosts as [|h l]; [done|]. apply (f_equal fst), expandVariants_Ok in Hres as ->.
    apply elem_of_variant_names. }
  destruct Hv as [e w2 He|w2 He|ns w2 v w3 He Hne Hjb _|ns w2 v w3 He Hne _ Hb]; rewrite Hres in He; simplify_eq.
  - split; [by intros _ n ?%elem_of_nil|]. by split.
  - destruct (evalBatches_spec _ _ _ _ _ _ Hb) as [H1 H2].
    assert (Heq : (∀ n, n ∈ ns → evaluates n) ↔ ∀ b, b ∈ chunk ns (chunk_size g) → Forall evaluates b).
    { setoid_rewrite (elem_of_batches ns (chunk_size g)). split.
      - intros Hn1 b Hb1. apply Forall_forall. intros n Hn2. apply Hn1. by exists b.
      - intros Hb1 n (b & Hb2 & Hn2). specialize (Hb1 b Hb2). rewrite Forall_forall in Hb1. by apply Hb1. }
    rewrite Heq. by split_and!.
Qed.
End law.
End verdict.

(** ** Results per host *)

Lemma record_jobs_empty jobs m : foldl record_job m jobs = ∅ → m = ∅ ∧ ∀ j, j ∈ jobs → j_Error j = "".
Proof.
  revert m. induction jobs as [|j jobs IH]; intros m; cbn [foldl].
  { intros ->. split; [done|]. by intros j ?%elem_of_nil. }
  intros [Hm Hj]%IH. unfold record_job in Hm. case_bool_decide as He.
  - split; [done|]. by intros x [->|Hx]%elem_of_cons; [|apply Hj].
  - by apply insert_non_empty in Hm.
Qed.

Lemma account_empty seen want m : foldl (account seen) m want = ∅ → m = ∅ ∧ ∀ n, n ∈ want → n ∈ seen.
Proof.
  revert m. induction want as [|n want IH]; intros m; cbn [foldl].
  { intros ->. split; [done|]. by intros j ?%elem_of_nil. }
  intros [Hm Hj]%IH. unfold account in Hm. case_bool_decide as He.
  - split; [done|]. by intros x [->|Hx]%elem_of_cons; [|apply Hj].
  - by apply insert_non_empty in Hm.
Qed.

(** C23: nix-eval-jobs lets a change through only with a result for every host of
    its radius and an error for none, from a process that did not fail, whose
    expression names the staged revision; a host whose line went missing with a
    worker is refused. *)
Theorem jobs_account_for_all {W : Type} `{NixJson} (proc : string → list string → W → Proc * W) g repoDir names w w' :
  evalWithJobs proc g repoDir names w = (None, w') →
  ∃ rev expr o w1, (headRev proc repoDir w).1 = Ok rev ∧ String.length rev = 40%nat ∧ jobsExpr repoDir rev names = Ok expr ∧
    proc (eg_JobsBin g) (jobs_args g expr) w1 = (o, w') ∧ p_failed o = None ∧
    (∀ n, n ∈ names → ∃ j, j ∈ job_lines (p_out o) ∧ j_Attr j = n) ∧
    (∀ j, j ∈ job_lines (p_out o) → j_Error j = "").
Proof.
  unfold evalWithJobs. destruct (headRev proc repoDir w) as [[rev|e] w1] eqn:Hr; [|done].
  destruct (jobsExpr repoDir rev names) as [expr|e] eqn:He; [|done].
  destruct (proc (eg_JobsBin g) (jobs_args g expr) w1) as [o w2] eqn:Hp. unfold parseJobLines. cbv zeta.
  destruct (existsb _ _); [by destruct (negb _)|]. destruct (map j_Attr _ ==? []); [by destruct (negb _)|].
  case_bool_decide as Hf; [|done]. apply account_empty in Hf as [[_ Herr]%record_jobs_empty Hseen]. simpl.
  case_bool_decide as Ho; [|done]. intros [= <-]. exists rev, expr, o, w1. split_and!; try done.
  - unfold headRev in Hr. destruct (proc "git" _ w) as [q w3]. destruct (p_failed q); [done|].
    destruct (Nat.eqb_spec (String.length (trim_space (p_out q))) 40) as [Hl|]; [|done]. injection Hr as <- _. exact Hl.
  - intros n Hn. apply Hseen, list_elem_of_fmap in Hn as (j & -> & Hj). by exists j.
Qed.

(** A rejection gives a reason. *)
Lemma join_nonempty s l sep : s ≠ "" → join (s :: l) sep ≠ "".
Proof. destruct s; [done|]. destruct l; done. Qed.

Lemma last_lines_nonempty (l : list string) : l ≠ [] → last_lines l ≠ [] ∧ ∀ x : string, x ∈ last_lines l → x ∈ l.
Proof.
  intros Hl. unfold last_lines. destruct (Nat.ltb_spec maxLines (length l)) as [Hm|]; [|done]. split.
  - intros Hd. apply (f_equal length) in Hd. rewrite length_drop in Hd. unfold maxLines in *. simpl in Hd. lia.
  - intros x Hx. by apply (subseteq_drop (length l - maxLines) l).
Qed.

Lemma sanitize_speaks out : sanitize out ≠ "".
Proof.
  unfold sanitize. cbv zeta. set (keep := delete_func noise _).
  match goal with |- context [last_lines ?k] => match k with keep => fail 1 | _ => set (kept := k) end end.
  assert (Hk : ∀ x, x ∈ kept → x ≠ "").
  { intros x Hx. assert (Hx1 : x ∈ keep) by (unfold kept in Hx; destruct (_ && _); [by apply elem_of_keep_if in Hx as [? _]|done]).
    apply elem_of_delete_func in Hx1 as [_ Hn]. unfold noise in Hn. intros ->. done. }
  destruct (decide (last_lines kept = [])) as [->|Hne]; [done|]. rewrite bool_decide_eq_false_2 by done.
  destruct (last_lines kept) as [|s l] eqn:Hl; [done|]. apply join_nonempty, Hk.
  destruct (decide (kept = [])) as [Hn|Hn]; [by rewrite Hn in Hl|].
  apply (proj2 (last_lines_nonempty kept Hn)). rewrite Hl. left.
Qed.

(** ** Releases *)

(** The batches were built, and copied once they were. *)
Inductive published {W : Type} (proc : string → list string → W → Proc * W) (dest : string) : list (list string) → W → W → Prop :=
  | published_all w : published proc dest [] w w
  | published_batch b l w w1 w2 w3 out out' : proc "nix" (build_args b) w = (mkProc out None, w1) →
      proc "nix" (copy_args dest b) w1 = (mkProc out' None, w2) → published proc dest l w2 w3 → published proc dest (b :: l) w w3.

Lemma publish_batches_Ok {W : Type} (proc : string → list string → W → Proc * W) expired dest batches w w' :
  publish_batches proc expired dest batches w = (None, w') → published proc dest batches w w'.
Proof.
  revert w. induction batches as [|b l IH]; intros w; simpl; [intros [= <-]; constructor|].
  destruct (proc "nix" (build_args b) w) as [[o [e|]] w1] eqn:Hb; [done|]. simpl.
  destruct (proc "nix" (copy_args dest b) w1) as [[o' [e|]] w2] eqn:Hc; [done|]. simpl. intros Hp. by econstructor; [..|apply IH].
Qed.

(** A published release has every host of the ring, in every variant, built and
    copied with the key, a bounded number of them in a process; a publication
    that ran out of time is not a rejection. *)
Theorem release_published {W : Type} (proc : string → list string → W → Proc * W) p expired repoDir hosts w v w' :
  Publish proc p expired repoDir hosts w = (v, w') →
  (v = None → ∃ batches, published proc (cache_url p) batches w w' ∧ pb_KeyFile p ≠ "" ∧
     (∀ h x, h ∈ hosts → x ∈ variants_of (pb_HostVariants p) → ∃ b, b ∈ batches ∧ target repoDir (h +:+ x) ∈ b) ∧
     (0 < pb_ChunkSize p → ∀ b, b ∈ batches → (length b ≤ Z.to_nat (pb_ChunkSize p))%nat)).
Proof.
  unfold Publish. destruct (_ || _) eqn:Hc; [by intros [= <- _]|]. apply orb_false_iff in Hc as [_ Hk%eqb_false].
  unfold targets. destruct (hosts ==? []); [by intros [= <- _]|].
  destruct (expandVariants (pb_HostVariants p) hosts) as [names|e] eqn:He; [|by intros [= <- _]]. cbn [res_bind].
  intros Hp ->. apply publish_batches_Ok in Hp. eexists. split; [exact Hp|]. split; [done|]. split.
  - intros h x Hh Hx. apply elem_of_batches, list_elem_of_fmap. exists (h +:+ x). split; [done|].
    apply expandVariants_Ok in He as ->. apply elem_of_variant_names. by exists h, x.
  - intros Hs b. by apply chunk_bounded.
Qed.

(** ** Cases *)

(** An evaluation that was cut off is reported as a rejection; the publication
    tells the two apart. *)
Theorem cut_off_is_rejected (proc := λ (_ : string) (_ : list string) (w : unit), (mkProc "" (Some "signal: killed"), w)) :
  (evalNames proc "/srv" ["lt-1"] tt).1 = Some (ValidationError no_reason) ∧
  (Build proc [] "/srv" ["lt-1"] tt).1 = Some (ValidationError no_reason) ∧
  (Publish proc (mkPublisher [] "/cache" "/key" 0) (λ _, true) "/srv" ["lt-1"] tt).1 = Some (CutOff building).
Proof. vm_compute. split_and!; reflexivity. Qed.

(** A tag the fleet document accepts whose variants the gate does not. *)
Theorem long_tag_never_validates :
  let tag := string_of_list_ascii (replicate 61 "a"%char) in
  ValidateSlug tag = true ∧ expandVariants [""; "-sb"] [tag] = Err (InvalidHost (tag +:+ "-sb")).
Proof. vm_compute. split; reflexivity. Qed.

(** A nix under which one host does not evaluate. *)
Definition demo_good (n : string) : bool := n !=? "broken".
Definition demo_nix (_ : string) (args : list string) (w : unit) : Proc * unit :=
  (match args with
   | [_; _; _; _; apply; _] =>
       if forallb demo_good (split_on "034" apply) then mkProc "[]" None else mkProc "error: assertion failed" (Some "exit status 1")
   | _ => mkProc "" (Some "usage")
   end, w).
#[local] Instance demo_json : NixJson := {| unmarshal_names _ := None; unmarshal_job _ := None |}.

Definition plain (s : string) : bool := string_forall (λ a, negb (Ascii.eqb a "034")) s.

Lemma slug_plain n : hostRe n = true → plain n = true.
Proof.
  destruct n as [|a r]; [done|]. unfold hostRe, ValidateSlug, plain. intros [[Ha Hr]%andb_true_iff _]%andb_true_iff. simpl.
  apply andb_true_iff. split; [revert a Ha; apply implb_bytes; by vm_compute|].
  eapply string_forall_impl; [|exact Hr]. apply implb_bytes. by vm_compute.
Qed.

Lemma split_names (names : list string) pre : Forall (λ n, hostRe n = true) names →
  plain pre = true → demo_good pre = true → demo_good (pre +:+ "]") = true →
  forallb demo_good (split_on "034" (pre +:+ name_list names +:+ "]")) = true ↔ Forall (λ n, demo_good n = true) names.
Proof.
  intros Hn. revert pre. induction Hn as [|n names Hr Hn IH]; intros pre Hp Hg Hg'.
  - change (name_list [] +:+ "]") with "]". rewrite split_on_none by (unfold plain in Hp; by rewrite string_forall_app, Hp).
    cbn [forallb]. rewrite Hg'. split; [constructor|done].
  - change (name_list (n :: names)) with (quoted n +:+ " " +:+ name_list names).
    replace (pre +:+ (quoted n +:+ " " +:+ name_list names) +:+ "]")
      with (pre +:+ String "034" (n +:+ String "034" (" " +:+ name_list names +:+ "]")))
      by (unfold quoted; rewrite !string_app_assoc; done).
    rewrite split_on_app by done. rewrite split_on_app by (by apply slug_plain). cbn [forallb]. rewrite Hg. simpl andb.
    rewrite andb_true_iff, (IH " ") by done. by rewrite Forall_cons.
Qed.

Lemma demo_nix_forces names apply w : applyExprExact names = Ok apply →
  p_failed (demo_nix "nix" (eval_args "/srv" apply) w).1 = None ↔ Forall (λ n, demo_good n = true) names.
Proof.
  unfold applyExprExact. destruct (check_hosts names) eqn:Hc; [done|]. intros [= <-]. apply check_hosts_None in Hc.
  unfold demo_nix, eval_args. cbn [fst].
  rewrite <- (split_names names "cfgs: map (n: cfgs.${n}.config.system.build.toplevel.drvPath) [ " Hc) by done.
  destruct (forallb _ _); done.
Qed.

(** Three batches on two evaluators, however they are scheduled: refused with a
    host that does not evaluate, let through without. *)
Definition demo_gate : EvalGate := mkEvalGate [] 1 2 "" 0.

Lemma gate_verdict_exact_witness :
  (∃ v w', Validate demo_nix demo_gate "/srv" false ["lt-1"; "broken"; "lt-3"] tt v w') ∧
  (∀ v w', Validate demo_nix demo_gate "/srv" false ["lt-1"; "broken"; "lt-3"] tt v w' → v ≠ None) ∧
  (∀ v w', Validate demo_nix demo_gate "/srv" false ["lt-1"; "lt-2"; "lt-3"] tt v w' → v = None).
Proof.
  split; [apply gate_answers|]. split.
  - intros v w' Hv Hn. destruct (gate_verdict_exact demo_nix "/srv" demo_good demo_nix_forces demo_gate false ["lt-1"; "broken"; "lt-3"] tt
      ["lt-1"; "broken"; "lt-3"] tt v w' eq_refl eq_refl Hv) as [H1 _].
    destruct (H1 Hn "broken") as [_ Hg]; [by right; left|]. done.
  - intros v w' Hv. destruct (gate_verdict_exact demo_nix "/srv" demo_good demo_nix_forces demo_gate false ["lt-1"; "lt-2"; "lt-3"] tt
      ["lt-1"; "lt-2"; "lt-3"] tt v w' eq_refl eq_refl Hv) as (_ & H2 & _).
    apply H2; [done|]. intros n Hn. repeat (apply elem_of_cons in Hn as [->|Hn]; [done|]). by apply elem_of_nil in Hn.
Defined.

(** Two workers of nix-eval-jobs, one of which was killed for its memory. *)
#[local] Instance jobs_json : NixJson := {|
  unmarshal_names _ := None;
  unmarshal_job line := if contains line "lt-1" then Some (mkJob "lt-1" "") else if contains line "lt-2" then Some (mkJob "lt-2" "") else None |}.
Definition demo_jobs (lines : list string) (name : string) (_ : list string) (w : unit) : Proc * unit :=
  (mkProc (if name ==? "git" then string_of_list_ascii (replicate 40 "a"%char) else join lines (String line_feed "")) None, w).

Lemma jobs_account_for_all_witness :
  evalWithJobs (H := jobs_json) (demo_jobs ["{lt-1}"]) (demo_gate) "/srv" ["lt-1"; "lt-2"] tt
    = (Some (ValidationError (describeFailures {["lt-2" := no_result]})), tt) ∧
  ∃ j, j ∈ job_lines (H := jobs_json) (join ["{lt-1}"; "warning"; "{lt-2}"] (String line_feed "")) ∧ j_Attr j = "lt-2".
Proof.
  split; [vm_compute; reflexivity|].
  destruct (jobs_account_for_all (H := jobs_json) (demo_jobs ["{lt-1}"; "warning"; "{lt-2}"]) demo_gate "/srv" ["lt-1"; "lt-2"] tt tt)
    as (rev & expr & o & w1 & _ & _ & _ & Hp & _ & Hn & _); [vm_compute; reflexivity|].
  injection Hp as <- _. apply (Hn "lt-2"). by right; left.
Defined.
