(* ===== verification/GateRunner.v ===== *)
(** * The gate runner (src/cmd/gate-runner)

    The service that evaluates for the console: its start, the staging of a
    candidate in a scratch worktree, the validation endpoint, the syntax check,
    the bump of an input, the release builds as jobs that are polled and
    cancelled, and the question who may read the binary cache.  The machine it
    runs on - git, nix, files - is a class. *)

From S2P Require Import Prelude GoLib FleetModel Text Catalog HostKeys EvalGate.

(** ** More of package strings *)

(** [strings.Index] and [strings.LastIndex]. *)
Fixpoint index_of (s sub : string) : option nat :=
  if has_prefix s sub then Some 0%nat else
  match s with EmptyString => None | String _ r => S <$> index_of r sub end.
Fixpoint last_index (s sub : string) : option nat :=
  match s with
  | EmptyString => if sub ==? "" then Some 0%nat else None
  | String _ r => match last_index r sub with
                  | Some i => Some (S i)
                  | None => if has_prefix s sub then Some 0%nat else None
                  end
  end.
(** [s[i:]] and [s[:i]]. *)
Definition from (i : nat) (s : string) : string := String.substring i (String.length s - i) s.
Definition upto (i : nat) (s : string) : string := String.substring 0 i s.

(** [filepath.Dir] of a clean absolute path. *)
Definition dir_of (p : string) : string :=
  match last_index p "/" with Some O => "/" | Some i => upto i p | None => "." end.
Definition path_join (d n : string) : string := if d ==? "/" then "/" +:+ n else d +:+ "/" +:+ n.

(** ** The machine *)

Class Machine (W : Type) := {
  m_git : string → list string → W → option string * W;
  m_exists : string → W → bool;
  m_mkdir : string → W → option string * W;
  m_write : string → string → W → option string * W;
  m_read : string → W → res string string;
  m_temp : string → W → res string string * W;
  m_remove : string → W → W;
  m_run : string → string → list string → W → Proc * W
}.

(** ** Requests and answers *)

Record validateRequest := mkValidate { vq_Hosts : list string; vq_Fleet : string; vq_Ref : string }.
#[global] Instance validateRequest_eq_dec : EqDecision validateRequest.
Proof. solve_decision. Defined.
Record validateResponse := mkVerdict { vr_OK : bool; vr_Error : string; vr_Detail : string }.
Definition rejected (error : string) : validateResponse := mkVerdict false error "".
Record buildRequest := mkBuildRequest { bq_Rev : string; bq_Hosts : list string }.
Record buildResponse := mkBuildResponse { br_Phase : string; br_Detail : string }.
#[global] Instance buildResponse_eq_dec : EqDecision buildResponse.
Proof. solve_decision. Defined.
Record parseResponse := mkParsed { ps_OK : bool; ps_Error : string }.
Record bumpResponse := mkBump { bp_OK : bool; bp_Error : string; bp_Lock : string; bp_Rev : string }.
(** A bump is answered in JSON, but a caller without the token in plain text. *)
Inductive BumpAnswer := PlainText (text : string) | BumpBody (r : bumpResponse).
Definition no_bump (e : string) : BumpAnswer := BumpBody (mkBump false e "" "").

(** The decoders of the bodies, and of the revisions of a lock's nodes; the
    quoting of the verb %q. *)
Class RunnerJson := {
  decode_validate : string → option validateRequest;
  decode_build : string → option buildRequest;
  decode_parse : string → option string;
  decode_bump : string → res string string;
  decode_lock_revs : string → res string (gmap string string);
  go_quote : string → string
}.

(** [io.ReadAll(io.LimitReader(body, n))]. *)
Definition limited (n : nat) (body : string) : string := upto n body.
Definition MiB : nat := Z.to_nat (1024 * 1024).

Record server := mkServer {
  sv_workdir : string; sv_remote : string; sv_branch : string; sv_variants : list string;
  sv_token : string; sv_cacheToken : string; sv_consoleURL : string; sv_cacheDir : string; sv_publisher : bool
}.

(** ** Who may ask *)

(** A header of exactly the scheme and a blank carries no token. *)
Definition bearerToken (authorization : string) : string :=
  if (7 <? len authorization) && (upto 7 authorization ==? "Bearer ") then from 7 authorization else "".
Definition authorized (s : server) (authorization : string) : bool :=
  (sv_token s ==? "") || (bearerToken authorization ==? sv_token s).

Definition isLoopback (addr : string) : bool :=
  let host := match last_index addr ":" with Some i => upto i addr | None => addr end in
  host ∈? ["127.0.0.1"; "localhost"; "::1"; "[::1]"].

Definition splitVariants (s : string) : list string := if s ==? "" then [] else split_on "," s.

(** ** The start *)

Record Flags := mkFlags {
  fl_addr : string; fl_remote : string; fl_evalSecs : Z; fl_maxConcurrent : Z; fl_chunkSize : Z; fl_evalWorkers : Z;
  fl_cacheDir : string; fl_cacheKey : string; fl_token : string
}.
Inductive Refusal := NoRemote | BadTimeout | BadConcurrency | BadChunk | BadWorkers | NoToken | CacheUnusable (e : string) | HalfACache | CloneFailed (e : string).

(** The checks before anything is touched; [None] lets the service start. *)
Definition check_flags (f : Flags) : option Refusal :=
  if fl_remote f ==? "" then Some NoRemote
  else if fl_evalSecs f <=? 0 then Some BadTimeout
  else if fl_maxConcurrent f <=? 0 then Some BadConcurrency
  else if fl_chunkSize f <=? 0 then Some BadChunk
  else if fl_evalWorkers f <=? 0 then Some BadWorkers
  else if (fl_token f ==? "") && negb (isLoopback (fl_addr f)) then Some NoToken
  else None.

Section machine.
  Context {W : Type} `{Machine W, RunnerJson}.
  Context (s : server).

Definition cache_info : string := "StoreDir: /nix/store" +:+ String line_feed "WantMassQuery: 1" +:+ String line_feed "Priority: 30" +:+ String line_feed "".
Definition ensureCacheInfo (cacheDir : string) (w : W) : option string * W :=
  match m_mkdir cacheDir w with
  | (Some e, w) => (Some e, w)
  | (None, w) => let info := path_join cacheDir "nix-cache-info" in
                 if m_exists info w then (None, w) else m_write info cache_info w
  end.

Definition sync (w : W) : option string * W :=
  match m_git (sv_workdir s) ["fetch"; "--quiet"; "origin"; sv_branch s] w with
  | (Some e, w) => (Some e, w)
  | (None, w) => m_git (sv_workdir s) ["reset"; "--hard"; "--quiet"; "origin/" +:+ sv_branch s] w
  end.

Definition ensureClone (w : W) : option string * W :=
  if m_exists (path_join (sv_workdir s) ".git") w then sync w else
  match m_mkdir (dir_of (sv_workdir s)) w with
  | (Some e, w) => (Some e, w)
  | (None, w) => m_git "" ["clone"; "--branch"; sv_branch s; sv_remote s; sv_workdir s] w
  end.

Definition cloneUsable (w : W) : option string * W := m_git (sv_workdir s) ["rev-parse"; "--is-inside-work-tree"] w.

Definition start (f : Flags) (w : W) : option Refusal * W :=
  match check_flags f with
  | Some r => (Some r, w)
  | None =>
      let cached := (fl_cacheDir f !=? "") && (fl_cacheKey f !=? "") in
      let half := (fl_cacheDir f !=? "") || (fl_cacheKey f !=? "") in
      let '(r, w) := if cached then (let '(e, w) := ensureCacheInfo (fl_cacheDir f) w in (CacheUnusable <$> e, w))
                     else if half then (Some HalfACache, w) else (None, w) in
      match r with
      | Some r => (Some r, w)
      | None => let '(e, w) := ensureClone w in (CloneFailed <$> e, w)
      end
  end.

(** ** Staging *)

Inductive StageErr := Stage (e : string) | BadRef (ref : string) | FetchRef (ref e : string) | MergeConflict (e : string).

Definition ref_head (a : ascii) : bool := is_lower a || is_upper a || is_digit a.
Definition ref_char (a : ascii) : bool := ref_head a || (a ∈? ["."; "_"; "/"; "-"]%char).
Definition refRE (ref : string) : bool :=
  match ref with String a r => ref_head a && string_forall ref_char r | EmptyString => false end.

Definition scratch : string := path_join (dir_of (sv_workdir s)) "validate".
Definition candidateRef : string := "refs/gate/candidate".
Definition as_runner : list string := ["-c"; "user.name=gate-runner"; "-c"; "user.email=gate@localhost"].

Definition staged (k : string → StageErr) (m : W → option string * W) : SE W StageErr unit := λ w,
  let '(e, w) := m w in (match e with Some e => Err (k e) | None => Ok tt end, w).

(** The worktree, detached at the branch. *)
Definition checkout : SE W StageErr unit := λ w,
  if m_exists (path_join scratch ".git") w
  then staged Stage (m_git scratch ["checkout"; "--detach"; "--force"; "origin/" +:+ sv_branch s]) w
  else let '(_, w) := m_git (sv_workdir s) ["worktree"; "remove"; "--force"; scratch] w in
       staged Stage (m_git (sv_workdir s) ["worktree"; "add"; "--detach"; scratch; "origin/" +:+ sv_branch s]) w.

(** The branch of the change, merged; a failed merge is undone. *)
Definition merge_ref (ref : string) : SE W StageErr unit :=
  if negb (refRE ref) || contains ref ".." then se_err (BadRef ref) else
  run! staged (FetchRef ref) (m_git (sv_workdir s) ["fetch"; "--quiet"; "--force"; "origin"; ref +:+ ":" +:+ candidateRef]);
  λ w, match m_git scratch (as_runner ++ ["merge"; "--no-edit"; "--quiet"; candidateRef]) w with
       | (None, w) => (Ok tt, w)
       | (Some e, w) => let '(_, w) := m_git scratch ["merge"; "--abort"] w in (Err (MergeConflict e), w)
       end.

Definition stageCandidate (fleetDoc ref : string) : SE W StageErr string :=
  run! checkout;
  run! (if ref ==? "" then se_ret tt else merge_ref ref);
  run! staged Stage (m_write (path_join scratch "fleet.json") fleetDoc);
  run! staged Stage (m_git scratch ["add"; "fleet.json"]);
  run! staged Stage (m_git scratch (as_runner ++ ["commit"; "--quiet"; "--no-verify"; "--allow-empty"; "-m"; "candidate"]));
  se_ret scratch.

(** ** Validation *)

Definition maxDetail : nat := 500.
Definition shortDetail (e : string) : string :=
  let t := trim_space e in
  if (maxDetail <? String.length t)%nat then "..." +:+ from (String.length t - maxDetail) t else t.

(** The text of a staging error. *)
Definition stage_text (e : StageErr) : string :=
  match e with
  | Stage e | MergeConflict e => e
  | BadRef ref => "refusing to fetch ref " +:+ go_quote ref +:+ ": not a plain branch name"
  | FetchRef ref e => "fetch " +:+ ref +:+ ": " +:+ e
  end.

(** [evaluate dir hosts] is the evaluation gate, with the text of its error;
    [admitted] says that a slot came before the request's context ended. *)
Definition handleValidate (evaluate : string → list string → W → option string * W) (authorization body : string) (admitted : bool)
    (w : W) : (Z * validateResponse) * W :=
  if negb (authorized s authorization) then ((401, rejected "unauthorized"), w) else
  match decode_validate (limited (4 * MiB) body) with
  | None => ((400, rejected "bad request body"), w)
  | Some req =>
      if vq_Fleet req ==? "" then ((400, rejected "missing fleet.json"), w) else
      if negb admitted then ((503, rejected "validation queue saturated, retry later"), w) else
      match sync w with
      | (Some _, w) => ((500, rejected "overlay sync failed"), w)
      | (None, w) =>
          match stageCandidate (vq_Fleet req) (vq_Ref req) w with
          | (Err (MergeConflict e), w) =>
              ((422, mkVerdict false ("change does not merge onto " +:+ sv_branch s) (shortDetail e)), w)
          | (Err e, w) => ((500, mkVerdict false "staging candidate failed" (shortDetail (stage_text e))), w)
          | (Ok dir, w) =>
              match evaluate dir (vq_Hosts req) w with
              | (Some e, w) => ((422, rejected e), w)
              | (None, w) => ((200, mkVerdict true "" ""), w)
              end
          end
      end
  end.

(** ** The syntax check *)

Definition parseErrorLine_of (ln : string) : option string :=
  let ln := trim_space ln in
  i ← index_of (to_lower ln) "error:";
  let msg := trim_space (from (i + 6) ln) in
  Some ("syntax error: " +:+
    match last_index msg "/sextant-parse-" with
    | None => msg
    | Some j => match index_of (from j msg) ".nix:" with
                | None => msg
                | Some k => "at line " +:+ from (j + k + 5) msg
                end
    end).
Fixpoint first_some {A B} (f : A → option B) (l : list A) : option B :=
  match l with [] => None | a :: l => match f a with Some b => Some b | None => first_some f l end end.

Definition parseErrorLine (out : string) : string :=
  match first_some parseErrorLine_of (split_on line_feed out) with
  | Some m => m
  | None => let t := trim_space out in if t ==? "" then "syntax error" else t
  end.

Definition unparsed (e : string) : parseResponse := mkParsed false e.
Definition handleParse (authorization body : string) (w : W) : (Z * parseResponse) * W :=
  if negb (authorized s authorization) then ((401, unparsed "unauthorized"), w) else
  match decode_parse (limited MiB body) with
  | None => ((400, unparsed "bad request body"), w)
  | Some code =>
      if code ==? "" then ((400, unparsed "missing code"), w) else
      match m_temp "sextant-parse-*.nix" w with
      | (Err _, w) => ((500, unparsed "scratch file"), w)
      | (Ok f, w) =>
          match m_write f code w with
          | (Some _, w) => ((500, unparsed "scratch write"), m_remove f w)
          | (None, w) =>
              let '(o, w) := m_run "" "nix-instantiate" ["--parse"; f] w in
              let w := m_remove f w in
              match p_failed o with
              | Some _ => ((200, unparsed (parseErrorLine (p_out o))), w)
              | None => ((200, mkParsed true ""), w)
              end
          end
      end
  end.

(** ** The bump of an input *)

Definition input_char (a : ascii) : bool := ref_head a || (a ∈? ["_"; "-"]%char).
Definition inputNameRe (n : string) : bool :=
  (1 <=? String.length n)%nat && (String.length n <=? 64)%nat && string_forall input_char n.

(** The ellipsis before the last bytes. *)
Definition tail (t : string) (n : nat) : string :=
  if (String.length t <=? n)%nat then t
  else String "226" (String "128" (String "166" "")) +:+ from (String.length t - n) t.

Inductive BumpErr := BumpIO (e : string) | CopyFailed (out : string) | LockFailed (input out : string) | LockUnreadable (e : string).

(** The lock of a scratch copy of the clone, with the input moved, and the
    revision its node of that name pins. *)
Definition bumpInput (input : string) (w : W) : res BumpErr (string * string) * W :=
  match m_temp "bump-*" w with
  | (Err e, w) => (Err (BumpIO e), w)
  | (Ok dir, w) =>
      let '(o, w) := m_run "" "cp" ["-a"; sv_workdir s +:+ "/."; dir] w in
      match p_failed o with
      | Some _ => (Err (CopyFailed (p_out o)), m_remove dir w)
      | None =>
          let '(o, w) := m_run dir "nix" ["flake"; "lock"; "--update-input"; input] w in
          match p_failed o with
          | Some _ => (Err (LockFailed input (tail (p_out o) 2000)), m_remove dir w)
          | None =>
              let r := match m_read (path_join dir "flake.lock") w with
                       | Err e => Err (BumpIO e)
                       | Ok raw => match decode_lock_revs raw with
                                   | Err e => Err (LockUnreadable e)
                                   | Ok revs => Ok (raw, default "" (revs !! input))
                                   end
                       end in (r, m_remove dir w)
          end
      end
  end.

Definition bump_text (e : BumpErr) : string :=
  match e with
  | BumpIO e => e
  | CopyFailed out => "scratch copy: " +:+ out
  | LockFailed input out => "nix flake lock --update-input " +:+ input +:+ ": " +:+ out
  | LockUnreadable e => "parse new flake.lock: " +:+ e
  end.

(** A reader of at most 4 KiB; no answer when the context ends in the queue. *)
Definition handleBump (authorization body : string) (admitted : bool) (w : W) : option (Z * BumpAnswer) * W :=
  if negb (authorized s authorization) then (Some (401, PlainText "unauthorized"), w) else
  match decode_bump (limited 4096 body) with
  | Err e => (Some (400, no_bump ("bad request: " +:+ e)), w)
  | Ok input =>
      if negb (inputNameRe input) then (Some (400, no_bump "bad input name"), w) else
      if negb admitted then (None, w) else
      match bumpInput input w with
      | (Err e, w) => (Some (422, no_bump (bump_text e)), w)
      | (Ok (lock, rev), w) => (Some (200, BumpBody (mkBump true "" lock rev)), w)
      end
  end.

(** ** A release build *)

Definition revRe (rev : string) : bool :=
  (6 <=? String.length rev)%nat && (String.length rev <=? 40)%nat
  && string_forall (λ a, is_digit a || in_range "a"%char "f"%char a) rev.

(** [publish dir hosts] is the publisher; the removal of the worktree at the end
    only warns. *)
Definition buildAtRev (publish : string → list string → W → option string * W) (req : buildRequest) (w : W) : option string * W :=
  match m_git (sv_workdir s) ["fetch"; "--quiet"; "origin"; sv_branch s] w with
  | (Some e, w) => (Some ("fetch before build: " +:+ e), w)
  | (None, w) =>
      let dir := path_join (dir_of (sv_workdir s)) ("build-" +:+ bq_Rev req) in
      let '(_, w) := m_git (sv_workdir s) ["worktree"; "remove"; "--force"; dir] w in
      match m_git (sv_workdir s) ["worktree"; "add"; "--detach"; dir; bq_Rev req] w with
      | (Some e, w) => (Some ("checkout " +:+ bq_Rev req +:+ ": " +:+ e), w)
      | (None, w) =>
          let '(r, w) := publish dir (bq_Hosts req) w in
          let '(_, w) := m_git (sv_workdir s) ["worktree"; "remove"; "--force"; dir] w in
          (r, w)
      end
  end.
End machine.
