(* ===== verification/RunnerJobs.v ===== *)
(** * The release builds and the cache of the gate runner

    The build endpoint as a state machine: polls start jobs, cancels reach the
    ones in flight, and a job files its verdict when its turn has come
    (src/cmd/gate-runner/build.go).  The question who may read the cache, with
    the answers of the console that are kept (main.go). *)

From S2P Require Import Prelude GoLib FleetModel Text Catalog HostKeys EvalGate GateRunner.

(** ** Jobs *)

Section jobs.
  Context `{Sha256}.

Definition nul : string := String "000" "".
Definition buildKey (rev : string) (hosts : list string) : string :=
  rev +:+ "-" +:+ hex_encode (upto 8 (sha256 (join (sort_strings hosts) nul))).
End jobs.

Definition Building : buildResponse := mkBuildResponse "building" "".
Definition BuildDone : buildResponse := mkBuildResponse "done" "".
Definition BuildFailedR (detail : string) : buildResponse := mkBuildResponse "failed" detail.

(** A job in the background: what it builds, and whether its context was ended. *)
Record Job := mkJobR { jb_key : string; jb_request : buildRequest; jb_cancelled : bool }.

(** The two maps under the lock, and the jobs in flight by a number of their own;
    a cancel function is the number of its job. *)
Record Builds (W : Type) := mkBuilds {
  bs_builds : gmap string buildResponse; bs_cancels : gmap string nat; bs_jobs : gmap nat Job; bs_next : nat; bs_world : W
}.
Arguments mkBuilds {W}. Arguments bs_builds {W}. Arguments bs_cancels {W}. Arguments bs_jobs {W}. Arguments bs_next {W}. Arguments bs_world {W}.
Definition no_builds {W} (w : W) : Builds W := mkBuilds ∅ ∅ ∅ 0 w.

Section builds.
  Context {W : Type} `{Sha256, RunnerJson}.
  Context (s : server).
  (** A build, once it is its turn: [buildAtRev] of the runner. *)
  Context (build : buildRequest → W → option string * W).

Definition refuse_build (detail : string) : buildResponse := BuildFailedR detail.

Definition poll (req : buildRequest) (b : Builds W) : buildResponse * Builds W :=
  let key := buildKey (bq_Rev req) (bq_Hosts req) in
  match bs_builds b !! key with
  | Some job => (job, b)
  | None => (Building, mkBuilds (<[key := Building]> (bs_builds b)) (<[key := bs_next b]> (bs_cancels b))
                         (<[bs_next b := mkJobR key req false]> (bs_jobs b)) (S (bs_next b)) (bs_world b))
  end.

Definition handleBuild (authorization body : string) (b : Builds W) : (Z * buildResponse) * Builds W :=
  if negb (authorized s authorization) then ((401, refuse_build "unauthorized"), b) else
  if negb (sv_publisher s) then ((501, refuse_build "release cache not configured on this runner"), b) else
  match decode_build (limited MiB body) with
  | None => ((400, refuse_build "bad request body"), b)
  | Some req =>
      if negb (revRe (bq_Rev req)) then ((400, refuse_build "rev must be a commit hash"), b) else
      if bq_Hosts req ==? [] then ((400, refuse_build "hosts required"), b) else
      let '(r, b) := poll req b in ((200, r), b)
  end.

(** Every cancel function is called and forgotten. *)
Definition cancel_jobs (cancels : gmap string nat) (jobs : gmap nat Job) : gmap nat Job :=
  map_imap (λ n j, Some (if bool_decide (cancels !! jb_key j = Some n) then mkJobR (jb_key j) (jb_request j) true else j)) jobs.
Definition handleBuildCancel (authorization : string) (b : Builds W) : (Z * Z) * Builds W :=
  if negb (authorized s authorization) then ((401, 0), b) else
  ((200, Z.of_nat (size (bs_cancels b))),
   mkBuilds (bs_builds b) ∅ (cancel_jobs (bs_cancels b) (bs_jobs b)) (bs_next b) (bs_world b)).

(** The end of a job: a cancelled one leaves no verdict. *)
Definition file_verdict (j : Job) (err : option string) (builds : gmap string buildResponse) : gmap string buildResponse :=
  if jb_cancelled j then delete (jb_key j) builds
  else <[jb_key j := match err with Some e => BuildFailedR e | None => BuildDone end]> builds.
Definition runBuild (n : nat) (b : Builds W) : Builds W :=
  match bs_jobs b !! n with
  | None => b
  | Some j =>
      let '(err, w) := build (jb_request j) (bs_world b) in
      mkBuilds (file_verdict j err (bs_builds b)) (delete (jb_key j) (bs_cancels b)) (delete n (bs_jobs b)) (bs_next b) w
  end.

(** Whatever reaches the runner, and jobs in any order. *)
Inductive build_step : Builds W → Builds W → Prop :=
  | a_poll authorization body b : build_step b (handleBuild authorization body b).2
  | a_cancel authorization b : build_step b (handleBuildCancel authorization b).2
  | a_job_ends n b : build_step b (runBuild n b).

(** How a job ended: what was to be built, whether it had been cancelled by then,
    and what its build answered in the world of that moment. *)
Record Ended := mkEnded { ed_request : buildRequest; ed_cancelled : bool; ed_error : option string }.

(** The runner after a history, with the jobs that ended in it, newest first. *)
Inductive build_history (w0 : W) : list Ended → Builds W → Prop :=
  | h_start : build_history w0 [] (no_builds w0)
  | h_poll authorization body l b : build_history w0 l b → build_history w0 l (handleBuild authorization body b).2
  | h_cancel authorization l b : build_history w0 l b → build_history w0 l (handleBuildCancel authorization b).2
  | h_ends n j l b : build_history w0 l b → bs_jobs b !! n = Some j →
      build_history w0 (mkEnded (jb_request j) (jb_cancelled j) (build (jb_request j) (bs_world b)).1 :: l) (runBuild n b).
End builds.

(** ** The cache *)

Definition cacheVerifyTTL : Z := 5 * Minute.
Definition cacheCap : nat := 4096.

(** A request: its path, the password of its Basic credentials if it has any,
    the clock when it is read, what the console would answer when asked - a
    status, or nothing when it cannot be reached - and the clock then. *)
Record CacheRequest := mkCacheRequest {
  cq_path : string; cq_basic : option string; cq_now : Time; cq_console : option Z; cq_answered : Time
}.
Inductive CacheAnswer := NotFound | CacheUnauthorized | Served (path : string).

Section cache.
  Context `{Sha256}.
  Context (s : server).

Definition cred_key (cred : string) : string := hex_encode (sha256 cred).

(** The console is asked; only its yes is kept, and past the cap what has
    expired is dropped. *)
Definition ask_console (cred : string) (q : CacheRequest) (verified : gmap string Time) : bool * gmap string Time :=
  if cq_console q ==? Some 200 then
    let verified := <[cred_key cred := cq_answered q + cacheVerifyTTL]> verified in
    (true, if (cacheCap <? size verified)%nat then filter (λ kv, negb (kv.2 <? cq_answered q) = true) verified else verified)
  else (false, verified).

Definition deviceCredentialValid (cred : string) (q : CacheRequest) (verified : gmap string Time) : bool * gmap string Time :=
  match verified !! cred_key cred with
  | Some expiry => if cq_now q <? expiry then (true, verified) else ask_console cred q verified
  | None => ask_console cred q verified
  end.

Definition cacheAuthorized (q : CacheRequest) (verified : gmap string Time) : bool * gmap string Time :=
  if (sv_cacheToken s ==? "") && (sv_consoleURL s ==? "") then (true, verified) else
  match cq_basic q with
  | None => (false, verified)
  | Some pass =>
      if pass ==? "" then (false, verified)
      else if (sv_cacheToken s !=? "") && (pass ==? sv_cacheToken s) then (true, verified)
      else if sv_consoleURL s !=? "" then deviceCredentialValid pass q verified else (false, verified)
  end.

(** What is served is the file server's business; directories are not. *)
Definition handleCache (q : CacheRequest) (verified : gmap string Time) : CacheAnswer * gmap string Time :=
  if sv_cacheDir s ==? "" then (NotFound, verified) else
  match cacheAuthorized q verified with
  | (false, verified) => (CacheUnauthorized, verified)
  | (true, verified) => (if has_suffix (cq_path q) "/" then NotFound else Served (cq_path q), verified)
  end.

(** A sequence of requests. *)
Definition serve_cache (qs : list CacheRequest) : gmap string Time :=
  foldl (λ verified q, (handleCache q verified).2) ∅ qs.
End cache.

(** ** The jobs under any interleaving *)

Section jobs_sound.
  Context {W : Type} `{Sha256, RunnerJson}.
  Context (s : server) (build : buildRequest → W → option string * W).

Notation step := (build_step s build).

(** A job of the release ended in this history, uncancelled, with this answer. *)
Definition ended (l : list Ended) (key : string) (err : option string) : Prop :=
  ∃ req, mkEnded req false err ∈ l ∧ buildKey (bq_Rev req) (bq_Hosts req) = key ∧ bq_Hosts req ≠ [] ∧ revRe (bq_Rev req) = true.

Lemma ended_more x l key err : ended l key err → ended (x :: l) key err.
Proof. intros (req & Hin & Hr). exists req. split; [by right|done]. Qed.

(** A verdict that is given: building, or that of a job that ended. *)
Definition verdict_of_history (l : list Ended) (k : string) (r : buildResponse) : Prop :=
  r = Building ∨ (r = BuildDone ∧ ended l k None) ∨ ∃ e, r = BuildFailedR e ∧ ended l k (Some e).

(** A build is in flight exactly while it is reported as building, under one
    job; what can be cancelled is exactly what runs and was not; a verdict is
    that of a finished build of this revision and these hosts. *)
Record jobs_inv (l : list Ended) (b : Builds W) : Prop := {
  inv_building : ∀ k, bs_builds b !! k = Some Building ↔ ∃ n j, bs_jobs b !! n = Some j ∧ jb_key j = k;
  inv_one : ∀ n n' j j', bs_jobs b !! n = Some j → bs_jobs b !! n' = Some j' → jb_key j = jb_key j' → n = n';
  inv_cancel : ∀ k n, bs_cancels b !! k = Some n ↔ ∃ j, bs_jobs b !! n = Some j ∧ jb_key j = k ∧ jb_cancelled j = false;
  inv_fresh : ∀ n, (bs_next b ≤ n)%nat → bs_jobs b !! n = None;
  inv_asked : ∀ n j, bs_jobs b !! n = Some j → jb_key j = buildKey (bq_Rev (jb_request j)) (bq_Hosts (jb_request j)) ∧
    bq_Hosts (jb_request j) ≠ [] ∧ revRe (bq_Rev (jb_request j)) = true;
  inv_verdict : ∀ k r, bs_builds b !! k = Some r → verdict_of_history l k r
}.

Lemma jobs_inv_none w : jobs_inv [] (no_builds w).
Proof.
  split; simpl; intros *; rewrite ?lookup_empty; try done.
  - split; [done|]. by intros (n & j & Hn & _).
  - split; [done|]. by intros (j & Hn & _).
Qed.

Lemma jobs_inv_poll req l b : bq_Hosts req ≠ [] → revRe (bq_Rev req) = true → jobs_inv l b → jobs_inv l (poll req b).2.
Proof.
  intros Hh Hr [Hb Ho Hc Hf Ha Hv]. unfold poll. set (key := buildKey _ _).
  destruct (bs_builds b !! key) as [r|] eqn:Hk; [done|].
  assert (Hnk : ∀ n j, bs_jobs b !! n = Some j → jb_key j ≠ key).
  { intros n j Hj He. assert (bs_builds b !! key = Some Building) by (apply Hb; by exists n, j). congruence. }
  assert (Hnew : ∀ n j, <[bs_next b := mkJobR key req false]> (bs_jobs b) !! n = Some j →
    (n = bs_next b ∧ j = mkJobR key req false) ∨ (n ≠ bs_next b ∧ bs_jobs b !! n = Some j ∧ jb_key j ≠ key)).
  { intros n j. rewrite lookup_insert_Some. intros [[<- <-]|[Hn Hj]]; [by left|right]. split_and!; [done..|by eapply Hnk]. }
  split; simpl.
  - intros k. rewrite lookup_insert_Some. split.
    + intros [[<- _]|[Hne Hk2]].
      * exists (bs_next b), (mkJobR key req false). by rewrite lookup_insert_eq.
      * apply Hb in Hk2 as (n & j & Hj & He). exists n, j. split; [|done]. rewrite lookup_insert_ne; [done|].
        intros <-. rewrite Hf in Hj by done. done.
    + intros (n & j & [[-> ->]|(Hn & Hj & Hjk)]%Hnew & He); [by left|]. right. split; [congruence|]. apply Hb. by exists n, j.
  - intros n n' j j' H1 H2 He. apply Hnew in H1 as [[-> ->]|(Hn & Hj & Hjk)]; apply Hnew in H2 as [[-> ->]|(Hn' & Hj' & Hjk')];
      simpl in *; [done|congruence..|by eapply Ho].
  - intros k n. rewrite lookup_insert_Some. split.
    + intros [[<- <-]|[Hne Hk2]].
      * exists (mkJobR key req false). by rewrite lookup_insert_eq.
      * apply Hc in Hk2 as (j & Hj & He & Hcj). exists j. split; [|done]. rewrite lookup_insert_ne; [done|].
        intros <-. rewrite Hf in Hj by done. done.
    + intros (j & [[-> ->]|(Hn & Hj & Hjk)]%Hnew & He & Hcj); [by left|]. right. split; [congruence|]. apply Hc. by exists j.
  - intros n Hn. rewrite lookup_insert_ne by lia. apply Hf. lia.
  - intros n j [[-> ->]|(Hn & Hj & Hjk)]%Hnew; [done|by eapply Ha].
  - intros k r. rewrite lookup_insert_Some. intros [[<- <-]|[_ Hk2]]; [by left|by eapply Hv].
Qed.

Lemma lookup_cancel_jobs cancels jobs n j' : cancel_jobs cancels jobs !! n = Some j' ↔
  ∃ j, jobs !! n = Some j ∧ j' = if bool_decide (cancels !! jb_key j = Some n) then mkJobR (jb_key j) (jb_request j) true else j.
Proof.
  unfold cancel_jobs. rewrite map_lookup_imap. destruct (jobs !! n) as [j|]; simpl; [|naive_solver].
  split; [intros [= <-]; by exists j|by intros (x & [= <-] & ->)].
Qed.

Lemma jobs_inv_cancel l b : jobs_inv l b →
  jobs_inv l (mkBuilds (bs_builds b) ∅ (cancel_jobs (bs_cancels b) (bs_jobs b)) (bs_next b) (bs_world b)) ∧
  ∀ n j, cancel_jobs (bs_cancels b) (bs_jobs b) !! n = Some j → jb_cancelled j = true.
Proof.
  intros [Hb Ho Hc Hf Ha Hv].
  assert (Hj : ∀ n j', cancel_jobs (bs_cancels b) (bs_jobs b) !! n = Some j' →
    ∃ j, bs_jobs b !! n = Some j ∧ jb_key j' = jb_key j ∧ jb_request j' = jb_request j ∧ jb_cancelled j' = true).
  { intros n j' (j & Hj & ->)%lookup_cancel_jobs. exists j. split; [done|]. case_bool_decide as Hk; [done|]. split_and!; [done..|].
    destruct (jb_cancelled j) eqn:Hcj; [done|]. destruct Hk. apply Hc. by exists j. }
  split; [|intros n j (x & _ & _ & _ & Hx)%Hj; done]. split; simpl.
  - intros k. rewrite Hb. split; intros (n & j & Hn & Hk).
    + eexists n, _. split; [apply lookup_cancel_jobs; by exists j|]. by case_bool_decide.
    + apply Hj in Hn as (x & Hx & He & _). exists n, x. split; [done|congruence].
  - intros n n' j j' (x & Hx & He & _)%Hj (x' & Hx' & He' & _)%Hj Hk. eapply Ho; [done..|congruence].
  - intros k n. split; [done|]. intros (j & (x & _ & _ & _ & Hx)%Hj & _ & Hcj). congruence.
  - intros n Hn. destruct (cancel_jobs _ _ !! n) as [j|] eqn:Hx; [|done]. apply Hj in Hx as (x & Hx & _). by rewrite Hf in Hx.
  - intros n j (x & Hx & -> & -> & _)%Hj. by eapply Ha.
  - done.
Qed.

Lemma jobs_inv_run n j l b : jobs_inv l b → bs_jobs b !! n = Some j →
  jobs_inv (mkEnded (jb_request j) (jb_cancelled j) (build (jb_request j) (bs_world b)).1 :: l) (runBuild build n b).
Proof.
  intros [Hb Ho Hc Hf Ha Hv] Hn. unfold runBuild. rewrite Hn.
  destruct (build (jb_request j) (bs_world b)) as [err w]. cbn [fst].
  assert (Hd : ∀ m x, delete n (bs_jobs b) !! m = Some x ↔ bs_jobs b !! m = Some x ∧ jb_key x ≠ jb_key j).
  { intros m x. rewrite lookup_delete_Some. split; [|intros [Hm Hk]; split; [intros <-; congruence|done]].
    intros [Hm Hx]. split; [done|]. intros He. by rewrite (Ho m n x j Hx Hn He) in Hm. }
  assert (Hfv : ∀ k r, file_verdict j err (bs_builds b) !! k = Some r ↔
    k ≠ jb_key j ∧ bs_builds b !! k = Some r ∨
    k = jb_key j ∧ jb_cancelled j = false ∧ r = match err with Some e => BuildFailedR e | None => BuildDone end).
  { intros k r. unfold file_verdict. destruct (jb_cancelled j); [rewrite lookup_delete_Some|rewrite lookup_insert_Some]; naive_solver. }
  split; simpl.
  - intros k. rewrite Hfv. split.
    + intros [[Hk Hx]|(-> & _ & Hx)]; [|by destruct err]. apply Hb in Hx as (m & x & Hm & He). exists m, x.
      split; [|done]. apply Hd. split; [done|congruence].
    + intros (m & x & [Hm Hne]%Hd & He). left. split; [congruence|]. apply Hb. by exists m, x.
  - intros m m' x x' [Hm _]%Hd [Hm' _]%Hd. by apply Ho.
  - intros k m. rewrite lookup_delete_Some, Hc. split.
    + intros [Hk (x & Hm & He & Hcx)]. exists x. split; [|done]. apply Hd. split; [done|congruence].
    + intros (x & [Hm Hne]%Hd & He & Hcx). split; [congruence|by exists x].
  - intros m Hm. rewrite lookup_delete_None. right. by apply Hf.
  - intros m x [Hm _]%Hd. by eapply Ha.
  - intros k r [[_ Hx]|(-> & Hcj & ->)]%Hfv.
    + destruct (Hv _ _ Hx) as [?|[[? ?]|(e & ? & ?)]]; [by left|right; left|right; right; exists e]; (split; [done|by apply ended_more]).
    + destruct (Ha n j Hn) as (Hk & Hh & Hr). right.
      assert (He : ended (mkEnded (jb_request j) (jb_cancelled j) err :: l) (jb_key j) err).
      { exists (jb_request j). rewrite Hcj. split; [left|done]. }
      destruct err as [e|]; [right; by exists e|by left].
Qed.

Lemma jobs_inv_request l b b' : jobs_inv l b →
  (∃ authorization body, b' = (handleBuild s authorization body b).2) ∨
  (∃ authorization, b' = (handleBuildCancel s authorization b).2) → jobs_inv l b'.
Proof.
  intros Hi [(authorization & body & ->)|(authorization & ->)].
  - unfold handleBuild. destruct (negb (authorized _ _)); [done|]. destruct (negb (sv_publisher s)); [done|].
    destruct (decode_build _) as [req|]; [|done]. destruct (revRe (bq_Rev req)) eqn:Hr; [|done]. simpl.
    case_bool_decide as Hh; [done|]. pose proof (jobs_inv_poll req l b Hh Hr Hi) as Hp.
    destruct (poll req b) as [r b2]. done.
  - unfold handleBuildCancel. destruct (negb (authorized _ _)); [done|]. by apply jobs_inv_cancel.
Qed.

Lemma jobs_inv_history w l b : build_history s build w l b → jobs_inv l b.
Proof.
  induction 1 as [|authorization body l b _ IH|authorization l b _ IH|n j l b _ IH Hn].
  - apply jobs_inv_none.
  - eapply jobs_inv_request; [exact IH|left; eauto].
  - eapply jobs_inv_request; [exact IH|right; eauto].
  - by apply jobs_inv_run.
Qed.

(** Every state the steps reach has a history. *)
Lemma reached_history w b : rtc step (no_builds w) b → ∃ l, build_history s build w l b.
Proof.
  apply (rtc_ind_r (λ b, ∃ l, build_history s build w l b)); [exists []; constructor|].
  intros b1 b2 _ [authorization body x|authorization x|n x] [l Hl].
  - exists l. by constructor.
  - exists l. by constructor.
  - destruct (bs_jobs x !! n) as [j|] eqn:Hn; [eexists; by apply h_ends|]. exists l. unfold runBuild. by rewrite Hn.
Qed.

(** C10: under any interleaving of polls, cancels and jobs that end, a release is
    reported as building exactly while one job of it is in flight; the jobs that
    can be cancelled are exactly those in flight that were not cancelled, and a
    cancel reaches every one; a release is reported as done only when a job of
    that revision and those hosts ended in this history, uncancelled and without
    an error, and as failed only with the error such a job ended with. *)
Theorem build_jobs_sound w l b : build_history s build w l b →
  (∀ k, bs_builds b !! k = Some Building ↔ ∃ n j, bs_jobs b !! n = Some j ∧ jb_key j = k) ∧
  (∀ n n' j j', bs_jobs b !! n = Some j → bs_jobs b !! n' = Some j' → jb_key j = jb_key j' → n = n') ∧
  (∀ k n, bs_cancels b !! k = Some n ↔ ∃ j, bs_jobs b !! n = Some j ∧ jb_key j = k ∧ jb_cancelled j = false) ∧
  (∀ authorization n j, authorized s authorization = true →
     bs_jobs (handleBuildCancel s authorization b).2 !! n = Some j → jb_cancelled j = true) ∧
  (∀ k r, bs_builds b !! k = Some r → r = Building ∨ (r = BuildDone ∧ ended l k None) ∨ ∃ e, r = BuildFailedR e ∧ ended l k (Some e)).
Proof.
  intros Hi%jobs_inv_history. destruct (jobs_inv_cancel l b Hi) as [_ Hc]. destruct Hi as [Hb Ho Hcn _ _ Hv]. split_and!; [done..| |done].
  intros authorization n j Ha. unfold handleBuildCancel. rewrite Ha. apply Hc.
Qed.

(** A build that failed once is reported as failed for the life of the process,
    whatever is asked of the runner. *)
Theorem failed_build_is_forever w b b' k e : rtc step (no_builds w) b →
  bs_builds b !! k = Some (BuildFailedR e) → rtc step b b' → bs_builds b' !! k = Some (BuildFailedR e).
Proof.
  intros Hr Hk Hr'. revert Hr Hk. induction Hr' as [|x y z Hxy _ IH]; [done|]. intros Hr Hk. apply IH; [by eapply rtc_r|]. clear IH.
  apply reached_history in Hr as [l Hi%jobs_inv_history]. destruct Hxy as [authorization body x|authorization x|n x].
  - unfold handleBuild. destruct (negb (authorized _ _)); [done|]. destruct (negb (sv_publisher s)); [done|].
    destruct (decode_build _) as [req|]; [|done]. destruct (negb (revRe _)); [done|]. destruct (bq_Hosts req ==? []); [done|].
    unfold poll. destruct (bs_builds x !! buildKey _ _) eqn:Hx; [done|]. simpl. rewrite lookup_insert_ne; [done|]. intros <-. congruence.
  - unfold handleBuildCancel. by destruct (negb (authorized _ _)).
  - unfold runBuild. destruct (bs_jobs x !! n) as [j|] eqn:Hj; [|done]. destruct (build _ _) as [err w']. simpl.
    assert (Hne : jb_key j ≠ k).
    { intros <-. assert (Hb : bs_builds x !! jb_key j = Some Building) by (apply (inv_building _ _ Hi); by exists n, j). rewrite Hk in Hb. done. }
    unfold file_verdict. destruct (jb_cancelled j); [by rewrite lookup_delete_ne|by rewrite lookup_insert_ne].
Qed.
End jobs_sound.

(** ** Who read the cache *)

Section vouched.
  Context `{Sha256}.
  Context (s : server).

(** The console answered that a credential with this digest is a live device's. *)
Definition vouched (qs : list CacheRequest) (key : string) (q : CacheRequest) : Prop :=
  q ∈ qs ∧ cq_console q = Some 200 ∧ ∃ cred, cq_basic q = Some cred ∧ cred_key cred = key.

Definition kept_ok (qs : list CacheRequest) (verified : gmap string Time) : Prop :=
  ∀ key t, verified !! key = Some t → ∃ q, vouched qs key q ∧ t = cq_answered q + cacheVerifyTTL.

Lemma kept_ok_more qs qs' verified : (∀ q, q ∈ qs → q ∈ qs') → kept_ok qs verified → kept_ok qs' verified.
Proof. intros Hq Hk key t Ht. destruct (Hk key t Ht) as (q & (Hin & Hv) & He). exists q. split; [|done]. split; [by apply Hq|done]. Qed.

Lemma ask_console_ok qs cred q verified : q ∈ qs → cq_basic q = Some cred → kept_ok qs verified →
  kept_ok qs (ask_console cred q verified).2 ∧ ((ask_console cred q verified).1 = true → cq_console q = Some 200).
Proof.
  intros Hin Hb Hk. unfold ask_console. case_bool_decide as Hc; [|done]. split; [|done]. cbv zeta. cbn [snd].
  assert (Hi : kept_ok qs (<[cred_key cred := cq_answered q + cacheVerifyTTL]> verified)).
  { intros key t [[<- <-]|[_ Ht]]%lookup_insert_Some; [|by apply Hk]. exists q. split; [|done]. split_and!; [done..|by exists cred]. }
  destruct (_ <? _)%nat; [|done]. intros key t [Ht _]%map_lookup_filter_Some. by apply Hi.
Qed.

Lemma credential_ok qs pass q verified : q ∈ qs → cq_basic q = Some pass → kept_ok qs verified →
  kept_ok qs (deviceCredentialValid pass q verified).2 ∧
  ((deviceCredentialValid pass q verified).1 = true → cq_console q = Some 200 ∨
   ∃ q', vouched qs (cred_key pass) q' ∧ cq_now q < cq_answered q' + cacheVerifyTTL).
Proof.
  intros Hin Hb Hk. destruct (ask_console_ok qs pass q verified Hin Hb Hk) as [Hv Hw]. unfold deviceCredentialValid.
  destruct (verified !! cred_key pass) as [t|] eqn:Ht; [destruct (Z.ltb_spec (cq_now q) t) as [Hlt|]|].
  - split; [done|]. intros _. right. destruct (Hk _ _ Ht) as (q' & Hvq & ->). by exists q'.
  - split; [done|]. intros Hx. left. by apply Hw.
  - split; [done|]. intros Hx. left. by apply Hw.
Qed.

Definition let_in (qs : list CacheRequest) (q : CacheRequest) : Prop :=
  (sv_cacheToken s = "" ∧ sv_consoleURL s = "") ∨
  ∃ pass, cq_basic q = Some pass ∧ pass ≠ "" ∧
    (pass = sv_cacheToken s ∨ cq_console q = Some 200 ∨
     ∃ q', vouched qs (cred_key pass) q' ∧ cq_now q < cq_answered q' + cacheVerifyTTL).

Lemma cacheAuthorized_ok qs q verified : q ∈ qs → kept_ok qs verified →
  kept_ok qs (cacheAuthorized s q verified).2 ∧ ((cacheAuthorized s q verified).1 = true → let_in qs q).
Proof.
  intros Hin Hk. unfold cacheAuthorized, let_in.
  destruct ((sv_cacheToken s ==? "") && (sv_consoleURL s ==? "")) eqn:Hopen.
  { split; [done|]. intros _. left. apply andb_true_iff in Hopen as [Ho1 Ho2].
    split; [exact (bool_decide_eq_true_1 _ Ho1)|exact (bool_decide_eq_true_1 _ Ho2)]. }
  destruct (cq_basic q) as [pass|] eqn:Hb; [|done].
  destruct (pass ==? "") eqn:Hpass; [done|]. apply bool_decide_eq_false_1 in Hpass.
  destruct ((sv_cacheToken s !=? "") && (pass ==? sv_cacheToken s)) eqn:Htok.
  { split; [done|]. intros _. right. exists pass. apply andb_true_iff in Htok as [_ Ht].
    split; [done|]. split; [done|]. left. exact (bool_decide_eq_true_1 _ Ht). }
  destruct (sv_consoleURL s !=? ""); [|done]. destruct (credential_ok qs pass q verified Hin Hb Hk) as [Hv Hw].
  split; [done|]. intros Hx. right. exists pass. split; [done|]. split; [done|]. right. by apply Hw.
Qed.

Lemma handleCache_ok qs q verified : q ∈ qs → kept_ok qs verified →
  kept_ok qs (handleCache s q verified).2 ∧
  ∀ p, (handleCache s q verified).1 = Served p → p = cq_path q ∧ let_in qs q.
Proof.
  intros Hin Hk. unfold handleCache. destruct (sv_cacheDir s ==? ""); [done|].
  destruct (cacheAuthorized_ok qs q verified Hin Hk) as [Hv Hw].
  destruct (cacheAuthorized s q verified) as [[] v]; [|done]. split; [done|]. intros p. simpl.
  destruct (has_suffix _ _); [done|]. intros [= <-]. split; [done|]. by apply Hw.
Qed.

(** C20: a file of the cache is served, when its credentials are configured at
    all, only for the shared token or for a credential the console confirmed on
    this request or - one with the same digest - less than five minutes before;
    an unreachable console lets nobody in. *)
Theorem cache_access_vouched qs q p :
  (handleCache s q (serve_cache s qs)).1 = Served p →
  p = cq_path q ∧
  ((sv_cacheToken s = "" ∧ sv_consoleURL s = "") ∨
   ∃ pass, cq_basic q = Some pass ∧ pass ≠ "" ∧
     (pass = sv_cacheToken s ∨ cq_console q = Some 200 ∨
      ∃ q', vouched qs (cred_key pass) q' ∧ cq_now q < cq_answered q' + cacheVerifyTTL)).
Proof.
  assert (Hk : kept_ok qs (serve_cache s qs)).
  { unfold serve_cache. assert (Hrun : ∀ done l verified, kept_ok done verified →
      kept_ok (done ++ l) (foldl (λ verified q, (handleCache s q verified).2) verified l)).
    { intros d l. revert d. induction l as [|x l IH]; intros d verified Hd; cbn [foldl]; [by rewrite app_nil_r|].
      rewrite (cons_middle x d l), (assoc_L (++)). apply (IH (d ++ [x])). apply (handleCache_ok (d ++ [x]) x verified).
      - apply elem_of_app. right. left.
      - eapply kept_ok_more; [|exact Hd]. intros y Hy. apply elem_of_app. by left. }
    apply (Hrun [] qs ∅). by intros key t. }
  intros Hs. destruct (handleCache_ok (qs ++ [q]) q (serve_cache s qs)) as [_ Hp].
  - apply elem_of_app. right. left.
  - eapply kept_ok_more; [|exact Hk]. intros y Hy. apply elem_of_app. by left.
  - destruct (Hp p Hs) as [-> Hw]. split; [done|]. destruct Hw as [Hw|(pass & Hb & Hne & Hw)]; [by left|right]. exists pass. split_and!; [done..|].
    destruct Hw as [Hw|[Hw|(q' & (Hin & Hc & Hcred) & Ht)]]; [by left|by right; left|].
    apply elem_of_app in Hin as [Hin|Hin%list_elem_of_singleton]; [right; right; by exists q'|right; left; by subst q'].
Qed.
End vouched.

(** ** Cases *)

#[local] Instance demo_sha : Sha256 := λ t, t.
#[local] Instance demo_runner_json : RunnerJson := {|
  decode_validate _ := None; decode_build b := if b ==? "" then None else Some (mkBuildRequest b ["lt-1"]);
  decode_parse _ := None; decode_bump _ := Err ""; decode_lock_revs _ := Err ""; go_quote t := t |}.
Definition demo_server : server := mkServer "/data/overlay" "origin" "main" [] "gate" "shared" "https://console" "/cache" true.
Definition demo_build (req : buildRequest) (w : list string) : option string * list string :=
  (if bq_Rev req ==? "abcdef" then None else Some "fetch before build: timeout", bq_Rev req :: w).

Lemma build_jobs_sound_witness :
  let b := runBuild demo_build 0 (handleBuild demo_server "Bearer gate" "abcdef" (no_builds [])).2 in
  bs_builds b !! buildKey "abcdef" ["lt-1"] = Some BuildDone ∧
  ended [mkEnded (mkBuildRequest "abcdef" ["lt-1"]) false None] (buildKey "abcdef" ["lt-1"]) None ∧
  bs_cancels b !! buildKey "abcdef" ["lt-1"] = None.
Proof.
  intros b. assert (Hb : bs_builds b !! buildKey "abcdef" ["lt-1"] = Some BuildDone) by (vm_compute; reflexivity).
  split; [exact Hb|].
  destruct (build_jobs_sound demo_server demo_build [] [mkEnded (mkBuildRequest "abcdef" ["lt-1"]) false None] b) as (_ & _ & Hc & _ & Hv).
  - apply (h_ends demo_server demo_build [] 0 (mkJobR (buildKey "abcdef" ["lt-1"]) (mkBuildRequest "abcdef" ["lt-1"]) false)).
    + apply (h_poll demo_server demo_build [] "Bearer gate" "abcdef"). apply h_start.
    + vm_compute. reflexivity.
  - split.
    + destruct (Hv _ _ Hb) as [Hx|[[_ Hx]|(e & Hx & _)]]; [discriminate Hx|exact Hx|discriminate Hx].
    + apply eq_None_not_Some. intros [n Hn]. apply Hc in Hn as (j & Hj & _). vm_compute in Hj. discriminate Hj.
Defined.

(** A fetch that timed out once, and the same release asked for again. *)
Lemma failed_build_asked_again :
  let b := runBuild demo_build 0 (handleBuild demo_server "Bearer gate" "fedcba" (no_builds [])).2 in
  (handleBuild demo_server "Bearer gate" "fedcba" b).1 = (200, BuildFailedR "fetch before build: timeout") ∧
  bs_world (handleBuild demo_server "Bearer gate" "fedcba" b).2 = ["fedcba"].
Proof. vm_compute. split; reflexivity. Qed.

(** A device confirmed at noon reads without a question four minutes later, and
    not six. *)
Definition noon : Time := time_unix 43200.
Definition reads_at (t : Time) (console : option Z) : CacheRequest := mkCacheRequest "/cache/nix-cache-info" (Some "cred") t console t.

Lemma cache_access_vouched_witness :
  (handleCache demo_server (reads_at (noon + 6 * Minute) None) (serve_cache demo_server [reads_at noon (Some 200)])).1 = CacheUnauthorized ∧
  ∃ q, q ∈ [reads_at noon (Some 200)] ∧ noon + 4 * Minute < cq_answered q + cacheVerifyTTL.
Proof.
  split; [vm_compute; reflexivity|].
  destruct (cache_access_vouched demo_server [reads_at noon (Some 200)] (reads_at (noon + 4 * Minute) None) "/cache/nix-cache-info") as [_ Hw];
    [vm_compute; reflexivity|].
  destruct Hw as [[Ht _]|(pass & Hp & _ & Hw)]; [discriminate Ht|]. injection Hp as <-.
  destruct Hw as [Hw|[Hw|(q & (Hin & _) & Ht)]]; [discriminate Hw|discriminate Hw|]. by exists q.
Defined.
