(* ===== verification/BranchOps.v ===== *)
(** * Branches, worktrees and merges (src/internal/adapters/git/branch.go)

    The commands behind the change flow, over the git program of GitRepo: the
    bound of a diff that never ends inside a character, the merge that is undone
    when it fails, and the question whether a branch is merged. *)

From S2P Require Import Prelude GoLib FleetModel Text Catalog ConfigTx HostKeys GitRepo.

(** ** Characters *)

Definition in_bytes (lo hi : N) (a : ascii) : bool := ((lo <=? N_of_ascii a) && (N_of_ascii a <=? hi))%N.
Definition continuation : ascii → bool := in_bytes 128 191.

(** The well-formed encodings of UTF-8, by their first byte. *)
Definition valid_rune (l : list ascii) : bool :=
  match l with
  | [a] => in_bytes 0 127 a
  | [a; b] => in_bytes 194 223 a && continuation b
  | [a; b; c] =>
      ((in_bytes 224 224 a && in_bytes 160 191 b) || (in_bytes 225 236 a && continuation b)
       || (in_bytes 237 237 a && in_bytes 128 159 b) || (in_bytes 238 239 a && continuation b)) && continuation c
  | [a; b; c; d] =>
      ((in_bytes 240 240 a && in_bytes 144 191 b) || (in_bytes 241 243 a && continuation b)
       || (in_bytes 244 244 a && in_bytes 128 143 b)) && continuation c && continuation d
  | _ => false
  end.

(** [utf8.DecodeLastRuneInString] finds an encoding at the end; [r] is the text
    reversed. *)
Definition ends_well (r : list ascii) : bool :=
  existsb (λ n, (n <=? length r)%nat && valid_rune (reverse (take n r))) [1; 2; 3; 4]%nat.

(** The bytes that end no character are dropped, from the end. *)
Fixpoint back_off (r : list ascii) : list ascii :=
  match r with [] => [] | _ :: r' => if ends_well r then r else back_off r' end.

Definition maxDiffBytes : nat := Z.to_nat (512 * 1024).
Definition diff_truncated : string := String line_feed "... (diff truncated)".

Definition truncate (max : nat) (out : string) : string :=
  if (String.length out <=? max)%nat then out
  else string_of_list_ascii (reverse (back_off (reverse (take max (list_ascii_of_string out))))) +:+ diff_truncated.
Definition truncateDiff : string → string := truncate maxDiffBytes.

(** ** The commands *)

Inductive BranchErr :=
  | GitFailed (args : list string) (text : string)
  | BadRevision (rev : string)
  | MergeConflicts (branch : string) (e : BranchErr)
  | MergeDirty (e : BranchErr)
  | BadBranch (branch : string)
  | NoBranch (branch : string) (e : BranchErr).

Definition revHashRe (rev : string) : bool :=
  (6 <=? String.length rev)%nat && (String.length rev <=? 40)%nat
  && string_forall (λ a, is_digit a || in_range "a"%char "f"%char a) rev.
(** The same expression as [revishRe]. *)
Definition safeBranchRe : string → bool := revishRe.

Section branches.
  Context {W : Type} (git : list string → W → Run * W) (dir : string).

Notation M A := (SE W BranchErr A).

Definition gitRun (d : string) (args : list string) : M string := λ w,
  let '(o, w) := git (["-C"; d] ++ args) w in
  (match g_failed o with Some _ => Err (GitFailed args (trim_space (g_combined o))) | None => Ok (trim_space (g_combined o)) end, w).
Definition git_do (args : list string) : M unit := run! gitRun dir args; se_ret tt.

Definition CreateBranch (name : string) : M unit := git_do ["branch"; "--"; name].
Definition DeleteBranch (name : string) : M unit := git_do ["branch"; "-D"; "--"; name].
Definition AddWorktree (d branch : string) : M unit := git_do ["worktree"; "add"; "--"; d; branch].
Definition RemoveWorktree (d : string) : M unit := git_do ["worktree"; "remove"; "--force"; "--"; d].

Definition Diff (branch : string) : M string :=
  do! out <- gitRun dir ["diff"; "HEAD..." +:+ branch; "--"]; se_ret (truncateDiff out).

Definition ResetHard (rev : string) : M unit :=
  if negb (revHashRe rev) then se_err (BadRevision rev) else git_do ["reset"; "--hard"; "--quiet"; rev].

Definition MergeNoFF (branch msg : string) (a : Author) : M unit := λ w,
  match gitRun dir ["-c"; "user.name=" +:+ or_default (au_Name a) "sextant"; "-c"; "user.email=" +:+ or_default (au_Email a) "sextant@localhost";
                    "merge"; "--no-ff"; "-m"; msg; "--"; branch] w with
  | (Ok _, w) => (Ok tt, w)
  | (Err e, w) =>
      match gitRun dir ["merge"; "--abort"] w with
      | (Ok _, w) => (Err (MergeConflicts branch e), w)
      | (Err _, w) => (Err (MergeDirty e), w)
      end
  end.

Definition BranchMerged (branch : string) : M bool :=
  if negb (safeBranchRe branch) || contains branch ".." then se_err (BadBranch branch) else
  run! (λ w, match gitRun dir ["show-ref"; "--verify"; "--quiet"; "--"; "refs/heads/" +:+ branch] w with
             | (Err e, w) => (Err (NoBranch branch e), w)
             | (Ok _, w) => (Ok tt, w)
             end);
  do! out <- gitRun dir ["branch"; "--merged"; "HEAD"; "--format=%(refname:short)"];
  se_ret (existsb (λ line, trim_space line ==? branch) (split_on line_feed out)).
End branches.

(** ** The bound of a diff *)

Ltac bytes := unfold in_bytes, continuation, in_bytes in *;
  repeat match goal with
  | h : _ && _ = true |- _ => apply andb_true_iff in h as [? ?]
  | h : _ || _ = true |- _ => apply orb_true_iff in h as [?|?]
  | h : (_ <=? _)%N = true |- _ => apply N.leb_le in h
  end; try lia.

(** A character is one of one to four bytes; its first byte is no continuation,
    the others are, and the first byte tells how many there are. *)
Lemma rune_bytes l : valid_rune l = true →
  ∃ a t, l = a :: t ∧ (length t ≤ 3)%nat ∧ Forall (λ x, (128 ≤ N_of_ascii x ≤ 191)%N) t ∧
    ((N_of_ascii a ≤ 127)%N ∧ length t = 0%nat ∨ (194 ≤ N_of_ascii a ≤ 223)%N ∧ length t = 1%nat ∨
     (224 ≤ N_of_ascii a ≤ 239)%N ∧ length t = 2%nat ∨ (240 ≤ N_of_ascii a ≤ 244)%N ∧ length t = 3%nat).
Proof.
  destruct l as [|a [|b [|c [|d [|e l]]]]]; simpl; intros Hv; try done; exists a; eexists; (split; [reflexivity|]); simpl;
    (split; [lia|]); (split; [repeat constructor; bytes|bytes]).
Qed.

Inductive utf8 : list ascii → Prop :=
  | utf8_nil : utf8 []
  | utf8_rune l t : utf8 l → valid_rune t = true → utf8 (l ++ t).

Lemma ends_well_rune q t : valid_rune t = true → ends_well (reverse (q ++ t)) = true.
Proof.
  intros Hv. destruct (rune_bytes t Hv) as (a & r & -> & Hl & _). unfold ends_well. apply existsb_exists.
  exists (length (a :: r)). split.
  - simpl. destruct (length r) as [|[|[|[|n]]]]; [auto..|lia].
  - apply andb_true_iff. split.
    + apply Nat.leb_le. rewrite length_reverse, length_app. lia.
    + rewrite reverse_app, take_app_length' by (by rewrite length_reverse). by rewrite reverse_involutive.
Qed.

Lemma back_off_utf8 q : utf8 q → back_off (reverse q) = reverse q.
Proof.
  intros [|l t _ Ht]; [done|]. pose proof (ends_well_rune l t Ht) as He.
  destruct (reverse (l ++ t)) as [|x r] eqn:Hr; [done|]. simpl. by rewrite He.
Qed.

(** Inside a character nothing ends. *)
Lemma ends_inside q c rest : c ≠ [] → rest ≠ [] → valid_rune (c ++ rest) = true → ends_well (reverse (q ++ c)) = false.
Proof.
  intros Hc Hrest Hv. destruct (rune_bytes _ Hv) as (a & r & Heq & Hlen & Hcont & Hkind).
  destruct c as [|a' c]; [done|]. injection Heq as -> <-. rewrite length_app in Hlen, Hkind. apply Forall_app in Hcont as [Hcc _].
  assert (Hr1 : (1 ≤ length rest)%nat) by (destruct rest; [done|simpl; lia]).
  apply not_true_iff_false. intros He. unfold ends_well in He. apply existsb_exists in He as (n & Hn & He).
  apply andb_true_iff in He as [Hn1%Nat.leb_le Hv']. rewrite length_reverse, length_app in Hn1.
  assert (Hn4 : (1 ≤ n ≤ 4)%nat) by (simpl in Hn; destruct Hn as [<-|[<-|[<-|[<-|[]]]]]; lia).
  rewrite take_reverse, reverse_involutive, length_app in Hv'.
  destruct (decide (n ≤ length (a :: c))%nat) as [Hle|Hgt].
  - rewrite drop_app_ge in Hv' by lia.
    replace (length q + length (a :: c) - n - length q)%nat with (length (a :: c) - n)%nat in Hv' by lia.
    destruct (length (a :: c) - n)%nat as [|k] eqn:Hk.
    + rewrite drop_0 in Hv'. destruct (rune_bytes _ Hv') as (a0 & r0 & [= <- <-] & _ & _ & Hkind'). lia.
    + simpl in Hv'. destruct (rune_bytes _ Hv') as (a0 & r0 & Hd & _ & _ & Hkind').
      assert (Ha0 : a0 ∈ c) by (apply (subseteq_drop k c); rewrite Hd; left).
      rewrite Forall_forall in Hcc. specialize (Hcc a0 Ha0). simpl in Hcc. lia.
  - rewrite drop_app_le in Hv' by lia.
    assert (Hq : drop (length q + length (a :: c) - n) q ≠ []).
    { intros Hd. apply (f_equal length) in Hd. rewrite length_drop in Hd. simpl length in *. lia. }
    destruct (drop _ q) as [|b l]; [done|]. destruct (rune_bytes _ Hv') as (a0 & r0 & Hd & _ & Hcont & _). injection Hd as <- <-.
    apply Forall_app in Hcont as [_ Hcont]. apply Forall_cons in Hcont as [Ha _]. lia.
Qed.

Lemma back_off_inside q c rest : rest ≠ [] → valid_rune (c ++ rest) = true → utf8 q → back_off (reverse (q ++ c)) = reverse q.
Proof.
  intros Hrest Hv Hq. revert rest Hrest Hv. induction c as [|x c IH] using rev_ind; intros rest Hrest Hv.
  - rewrite app_nil_r. by apply back_off_utf8.
  - pose proof (ends_inside q (c ++ [x]) rest) as He. rewrite (assoc_L (++)), reverse_snoc in *. simpl.
    rewrite He; [|by destruct c|done|done]. apply (IH (x :: rest)); [done|]. by rewrite <- (assoc_L (++)) in Hv.
Qed.

(** Text cut anywhere is whole characters and less than one. *)
Lemma utf8_take l n : utf8 l → ∃ q c, take n l = q ++ c ∧ utf8 q ∧
  (c = [] ∨ ∃ rest, rest ≠ [] ∧ valid_rune (c ++ rest) = true).
Proof.
  intros Hl. induction Hl as [|l t Hl IH Ht].
  - exists [], []. rewrite take_nil. split_and!; [done|constructor|by left].
  - destruct (decide (n ≤ length l)%nat) as [Hle|Hgt]; [by rewrite take_app_le|].
    rewrite take_app_ge by lia. destruct (decide (length t ≤ n - length l)%nat) as [Hall|Hpart].
    + exists (l ++ t), []. rewrite take_ge by lia. rewrite app_nil_r. split_and!; [done|by constructor|by left].
    + exists l, (take (n - length l) t). split_and!; [done|done|]. right. exists (drop (n - length l) t).
      rewrite take_drop. split; [|done]. intros Hd. apply (f_equal length) in Hd. rewrite length_drop in Hd. simpl in Hd. lia.
Qed.

Lemma back_off_cut l n : utf8 l → (n ≤ length l)%nat →
  ∃ q c, take n l = q ++ c ∧ utf8 q ∧ (length c ≤ 3)%nat ∧ back_off (reverse (take n l)) = reverse q.
Proof.
  intros Hl Hn. destruct (utf8_take l n Hl) as (q & c & -> & Hq & Hc). exists q, c. split; [done|]. split; [done|].
  destruct Hc as [->|(rest & Hrest & Hv)]; [split; [simpl; lia|]; rewrite app_nil_r; by apply back_off_utf8|].
  split; [|by eapply back_off_inside]. destruct (rune_bytes _ Hv) as (a & r & Heq & Hlen & _).
  apply (f_equal length) in Heq. rewrite length_app in Heq. simpl in Heq. destruct rest; [done|]. simpl in Heq. lia.
Qed.

Lemma string_of_list_app l k : string_of_list_ascii (l ++ k) = string_of_list_ascii l +:+ string_of_list_ascii k.
Proof. induction l as [|a l IH]; [done|]. simpl. by rewrite IH. Qed.

Lemma length_list_of_string s : String.length s = length (list_ascii_of_string s).
Proof. induction s as [|a s IH]; [done|]. simpl. by rewrite IH. Qed.

(** C40: a diff of well-formed text is given whole up to its bound; a longer one
    is given up to the last character that ends within the bound, at most three
    bytes before it, with a remark. *)
Theorem diff_cut_between_characters max out : utf8 (list_ascii_of_string out) →
  (String.length out ≤ max)%nat ∧ truncate max out = out ∨
  (max < String.length out)%nat ∧ ∃ q, utf8 (list_ascii_of_string q) ∧ has_prefix out q = true ∧
    (max ≤ String.length q + 3)%nat ∧ (String.length q ≤ max)%nat ∧ truncate max out = q +:+ diff_truncated.
Proof.
  intros Hu. unfold truncate. destruct (Nat.leb_spec (String.length out) max) as [Hl|Hl]; [by left|right]. split; [done|].
  assert (Hlen : length (list_ascii_of_string out) = String.length out) by (symmetry; apply length_list_of_string).
  destruct (back_off_cut _ max Hu ltac:(lia)) as (q & c & Ht & Hq & Hc & ->). exists (string_of_list_ascii q).
  rewrite reverse_involutive, list_ascii_of_string_of_list_ascii.
  apply (f_equal length) in Ht as Htl. rewrite length_take, length_app in Htl.
  assert (Hql : String.length (string_of_list_ascii q) = length q) by (apply length_string_of_list).
  split_and!; try lia; try done. apply has_prefix_spec. exists (string_of_list_ascii (c ++ drop max (list_ascii_of_string out))).
  rewrite <- string_of_list_app, (assoc_L (++)), <- Ht, take_drop. symmetry. apply string_of_list_ascii_of_string.
Qed.

(** A name of two euro signs, cut in the second. *)
Definition two_euros : string := string_of_list_ascii (map ascii_of_N [226; 130; 172; 226; 130; 172])%N.

Lemma diff_cut_between_characters_witness : ∃ q, utf8 (list_ascii_of_string q) ∧ String.length q = 3%nat ∧ truncate 5 two_euros = q +:+ diff_truncated.
Proof.
  destruct (diff_cut_between_characters 5 two_euros) as [[Hl _]|(_ & q & Hq & Hp & H1 & H2 & Ht)].
  - apply (utf8_rune (map ascii_of_N [226; 130; 172])%N); [|reflexivity].
    apply (utf8_rune [] (map ascii_of_N [226; 130; 172])%N); [constructor|reflexivity].
  - vm_compute in Hl. lia.
  - exists q. split; [exact Hq|]. split; [|exact Ht].
    assert (Hlen : String.length (truncate 5 two_euros) = (String.length q + String.length diff_truncated)%nat) by (rewrite Ht; apply string_length_app).
    change (String.length (truncate 5 two_euros)) with 24%nat in Hlen. change (String.length diff_truncated) with 21%nat in Hlen. lia.
Defined.

(** A merge that fails for whatever reason is undone, and reported as a conflict
    or - where it could not be undone - as a dirty tree. *)
Lemma MergeNoFF_fails {W : Type} (git : list string → W → Run * W) dir branch msg a w e w' :
  MergeNoFF git dir branch msg a w = (Err e, w') →
  ∃ w1 w2 cause o, gitRun git dir ["-c"; "user.name=" +:+ or_default (au_Name a) "sextant"; "-c"; "user.email=" +:+ or_default (au_Email a) "sextant@localhost";
                    "merge"; "--no-ff"; "-m"; msg; "--"; branch] w1 = (Err cause, w2) ∧
    gitRun git dir ["merge"; "--abort"] w2 = (o, w') ∧
    e = match o with Ok _ => MergeConflicts branch cause | Err _ => MergeDirty cause end.
Proof.
  unfold MergeNoFF. destruct (gitRun git dir _ w) as [[x|cause] w2] eqn:Hm; [done|].
  destruct (gitRun git dir ["merge"; "--abort"] w2) as [o w3] eqn:Ha. intros Hr. exists w, w2, cause, o.
  destruct o; injection Hr as <- <-; done.
Qed.

(** A branch is reported merged only from a listing that names it, and a branch
    that is gone is an error, never "not merged". *)
Lemma BranchMerged_Ok {W : Type} (git : list string → W → Run * W) dir branch w b w' :
  BranchMerged git dir branch w = (Ok b, w') →
  safeBranchRe branch = true ∧ contains branch ".." = false ∧
  ∃ w1 out x, gitRun git dir ["show-ref"; "--verify"; "--quiet"; "--"; "refs/heads/" +:+ branch] w = (Ok x, w1) ∧
    gitRun git dir ["branch"; "--merged"; "HEAD"; "--format=%(refname:short)"] w1 = (Ok out, w') ∧
    (b = true ↔ ∃ line, line ∈ split_on line_feed out ∧ trim_space line = branch).
Proof.
  unfold BranchMerged. destruct (negb (safeBranchRe branch) || contains branch "..") eqn:Hb; [done|].
  apply orb_false_iff in Hb as [Hb%negb_false_iff Hd]. intros Hm. split; [done|]. split; [done|].
  apply se_bind_inv in Hm as [([] & w1 & Hs & Hm)|(e & _ & [=])].
  destruct (gitRun git dir ["show-ref"; _; _; _; _] w) as [[x|e] w2] eqn:Hg; [|done]. injection Hs as <-.
  apply se_bind_inv in Hm as [(out & w3 & Hl & Hm)|(e & _ & [=])]. injection Hm as <- <-. exists w2, out, x.
  split; [done|]. split; [done|]. rewrite existsb_exists. setoid_rewrite <- list_elem_of_In.
  split; intros (line & Hin & Ht); exists line; (split; [done|]); by apply bool_decide_eq_true in Ht || apply bool_decide_eq_true.
Qed.
