(* ===== verification/RemoteGate.v ===== *)
(** * The remote gate (src/internal/adapters/gate)

    The console's side of the gate runner: what it posts and how it reads the
    answers - a verdict, a failure of the runner, or no answer.  Then the two
    sides together: what the console lets through was staged and evaluated. *)

From S2P Require Import Prelude GoLib FleetModel Text Catalog HostKeys EvalGate GateRunner.
From S2P Require Engine Compliance BranchOps.

(** ** Answers *)

(** A response: its status, the body read so far, and why reading it stopped. *)
Record Response := mkResponse { rs_Status : Z; rs_Body : string; rs_ReadErr : option string }.

Class GateJson := {
  encode_validate : validateRequest → string;
  decode_verdict : string → option validateResponse;
  encode_build : buildRequest → string;
  decode_build_answer : string → option buildResponse;
  encode_parse : string → string;
  decode_parsed : string → option parseResponse;
  encode_bump : string → string;
  decode_bump_answer : string → option bumpResponse
}.

Inductive RemoteErr :=
  | CandidateUnread (e : string)
  | Unreachable (e : string)
  | AnswerUndecodable
  | Rejection (detail : string)
  | RunnerError (status : Z) (text : string).

Section remote.
  Context {W : Type} `{GateJson}.
  (** [post path authorization body]: an error, or a response of at most the
      bytes the caller reads. *)
  Context (post : string → string → string → W → res string Response * W).
  Context (token : string).

Definition bearer : string := if token ==? "" then "" else "Bearer " +:+ token.

(** The body to judge: never empty because it could not be read. *)
Definition raw_of (r : Response) : string :=
  match rs_ReadErr r with
  | Some e => if rs_Body r ==? "" then "(response body unreadable: " +:+ e +:+ ")" else rs_Body r
  | None => rs_Body r
  end.

Definition verdict_of (r : Response) : option RemoteErr :=
  let raw := raw_of r in
  if rs_Status r =? 200 then
    match decode_verdict raw with
    | None => Some AnswerUndecodable
    | Some v => if vr_OK v then None else Some (Rejection (vr_Error v))
    end
  else if rs_Status r =? 422 then
    let detail := match decode_verdict raw with Some v => vr_Error v | None => "" end in
    Some (Rejection (if detail ==? "" then raw else detail))
  else match decode_verdict raw with
       | Some v => if vr_Error v ==? "" then Some (RunnerError (rs_Status r) raw)
                   else Some (RunnerError (rs_Status r) (vr_Error v +:+ (if vr_Detail v ==? "" then "" else ": " +:+ vr_Detail v)))
       | None => Some (RunnerError (rs_Status r) raw)
       end.

(** [candidate] is fleet.json of the tree in question. *)
Definition validate (candidate : res string string) (ref : string) (hosts : list string) (w : W) : option RemoteErr * W :=
  match candidate with
  | Err e => (Some (CandidateUnread e), w)
  | Ok doc =>
      match post "/validate" bearer (encode_validate (mkValidate hosts doc ref)) w with
      | (Err e, w) => (Some (Unreachable e), w)
      | (Ok r, w) => (verdict_of r, w)
      end
  end.
Definition ValidateTree (candidate : res string string) (hosts : list string) := validate candidate "" hosts.
Definition ValidateRef (candidate : res string string) (ref : string) (hosts : list string) := validate candidate ref hosts.

(** The text of the first syntax error, empty when there is none. *)
Definition CheckSyntax (code : string) (w : W) : res RemoteErr string * W :=
  match post "/parse" bearer (encode_parse code) w with
  | (Err e, w) => (Err (Unreachable e), w)
  | (Ok r, w) =>
      (if negb (rs_Status r =? 200) then Err (RunnerError (rs_Status r) "")
       else match decode_parsed (rs_Body r) with None => Err AnswerUndecodable | Some p => Ok (ps_Error p) end, w)
  end.

Definition EnsureBuilt (rev : string) (hosts : list string) (w : W) : res RemoteErr Engine.BuildState * W :=
  match post "/build" bearer (encode_build (mkBuildRequest rev hosts)) w with
  | (Err e, w) => (Err (Unreachable e), w)
  | (Ok r, w) =>
      (if negb (rs_Status r =? 200) then Err (RunnerError (rs_Status r) (rs_Body r))
       else match decode_build_answer (rs_Body r) with
            | None => Err AnswerUndecodable
            | Some b => Ok (if br_Phase b ==? "done" then Engine.mkBuild Engine.BuildDone ""
                            else if br_Phase b ==? "failed" then Engine.mkBuild Engine.BuildFailed (br_Detail b)
                            else Engine.mkBuild Engine.BuildBuilding (br_Detail b))
            end, w)
  end.

Definition CancelBuilds (w : W) : option RemoteErr * W :=
  match post "/build/cancel" bearer "" w with
  | (Err e, w) => (Some (Unreachable e), w)
  | (Ok r, w) => (if rs_Status r =? 200 then None else Some (RunnerError (rs_Status r) ""), w)
  end.

(** The lock and the revision, or why there is none. *)
Definition BumpInput (input : string) (w : W) : res RemoteErr (string * string) * W :=
  match post "/bump" bearer (encode_bump input) w with
  | (Err e, w) => (Err (Unreachable e), w)
  | (Ok r, w) =>
      (match decode_bump_answer (rs_Body r) with
       | None => Err (RunnerError (rs_Status r) (rs_Body r))
       | Some b => if bp_OK b then Ok (bp_Lock b, bp_Rev b)
                   else Err (RunnerError (rs_Status r) (if bp_Error b ==? "" then rs_Body r else bp_Error b))
       end, w)
  end.
End remote.

(** ** What staging did *)

Section staging.
  Context {W : Type} `{Machine W, RunnerJson}.
  Context (s : server).

(** The commands, all of which succeeded, one right after another. *)
Inductive did : list (W → option string * W) → W → W → Prop :=
  | did_nothing w : did [] w w
  | did_one m l w w1 w2 : m w = (None, w1) → did l w1 w2 → did (m :: l) w w2.

Lemma staged_Ok k (m : W → option string * W) w w' : staged k m w = (Ok tt, w') → m w = (None, w').
Proof. unfold staged. destruct (m w) as [[e|] w1]; [done|]. by intros [= <-]. Qed.

(** The worktree stood, or was made, at the branch. *)
Definition at_branch (w w' : W) : Prop :=
  (m_exists (path_join (scratch s) ".git") w = true ∧
     did [m_git (scratch s) ["checkout"; "--detach"; "--force"; "origin/" +:+ sv_branch s]] w w') ∨
  ∃ w1, did [m_git (sv_workdir s) ["worktree"; "add"; "--detach"; scratch s; "origin/" +:+ sv_branch s]] w1 w'.

Definition merged (ref : string) (w w' : W) : Prop :=
  (ref = "" ∧ w' = w) ∨
  (refRE ref = true ∧ contains ref ".." = false ∧
   did [m_git (sv_workdir s) ["fetch"; "--quiet"; "--force"; "origin"; ref +:+ ":" +:+ candidateRef];
        m_git (scratch s) (as_runner ++ ["merge"; "--no-edit"; "--quiet"; candidateRef])] w w').

Lemma checkout_Ok w w' : checkout s w = (Ok tt, w') → at_branch w w'.
Proof.
  unfold checkout. destruct (m_exists _ w) eqn:He.
  - intros Hc. left. split; [done|]. apply staged_Ok in Hc. by repeat econstructor.
  - destruct (m_git _ ["worktree"; "remove"; "--force"; scratch s] w) as [o w1]. intros Hc. right. exists w1.
    apply staged_Ok in Hc. by repeat econstructor.
Qed.

Lemma merge_ref_Ok ref w w' : merge_ref s ref w = (Ok tt, w') → ref ≠ "" → merged ref w w'.
Proof.
  unfold merge_ref. destruct (negb (refRE ref) || contains ref "..") eqn:Hr; [done|].
  apply orb_false_iff in Hr as [Hr%negb_false_iff Hd]. intros Hm Hne. right. split; [done|]. split; [done|].
  apply se_bind_inv in Hm as [([] & w1 & Hf & Hg)|(e & _ & [=])]. apply staged_Ok in Hf.
  destruct (m_git (scratch s) _ w1) as [[e|] w2] eqn:Hmm.
  - by destruct (m_git (scratch s) ["merge"; "--abort"] w2).
  - injection Hg as <-. by repeat econstructor.
Qed.

Lemma stage_Ok doc ref w dir w' : stageCandidate s doc ref w = (Ok dir, w') → dir = scratch s ∧
  ∃ w1 w2, at_branch w w1 ∧ merged ref w1 w2 ∧
    did [m_write (path_join (scratch s) "fleet.json") doc; m_git (scratch s) ["add"; "fleet.json"];
         m_git (scratch s) (as_runner ++ ["commit"; "--quiet"; "--no-verify"; "--allow-empty"; "-m"; "candidate"])] w2 w'.
Proof.
  unfold stageCandidate. intros Hs.
  apply se_bind_inv in Hs as [([] & w1 & Hc & Hs)|(e & _ & [=])]. apply checkout_Ok in Hc.
  apply se_bind_inv in Hs as [([] & w2 & Hm & Hs)|(e & _ & [=])].
  apply se_bind_inv in Hs as [([] & w3 & H1 & Hs)|(e & _ & [=])]. apply staged_Ok in H1.
  apply se_bind_inv in Hs as [([] & w4 & H2 & Hs)|(e & _ & [=])]. apply staged_Ok in H2.
  apply se_bind_inv in Hs as [([] & w5 & H3 & Hs)|(e & _ & [=])]. apply staged_Ok in H3.
  injection Hs as <- <-. split; [done|]. exists w1, w2. split; [done|]. split; [|by repeat econstructor].
  case_bool_decide as Hr; [by injection Hm as <-; left|]. by apply merge_ref_Ok.
Qed.

(** What a 200 of the runner stands for. *)
Lemma handleValidate_200 evaluate authorization body admitted w v w' :
  handleValidate s evaluate authorization body admitted w = ((200, v), w') →
  authorized s authorization = true ∧ ∃ req, decode_validate (limited (4 * MiB) body) = Some req ∧ vq_Fleet req ≠ "" ∧
  ∃ w1 w2, sync s w = (None, w1) ∧ stageCandidate s (vq_Fleet req) (vq_Ref req) w1 = (Ok (scratch s), w2) ∧
    evaluate (scratch s) (vq_Hosts req) w2 = (None, w').
Proof.
  unfold handleValidate. destruct (authorized s authorization); [|done]. simpl negb. cbv iota.
  destruct (decode_validate _) as [req|]; [|done]. case_bool_decide as Hf; [done|]. destruct admitted; [|done]. simpl negb. cbv iota.
  destruct (sync s w) as [[e|] w1] eqn:Hs; [done|].
  destruct (stageCandidate s _ _ w1) as [[dir|e] w2] eqn:Hst; [|by destruct e].
  pose proof (stage_Ok _ _ _ _ _ Hst) as [-> _].
  destruct (evaluate (scratch s) (vq_Hosts req) w2) as [[e|] w3] eqn:He; [done|]. intros [= _ <-].
  split; [done|]. exists req. split; [done|]. split; [done|]. by exists w1, w2.
Qed.
End staging.

(** ** Text on the wire *)

(** A JSON string holds characters: encoding replaces every byte that is part of
    no well-formed encoding by U+FFFD. *)
Definition replacement : list ascii := map ascii_of_N [239; 191; 189]%N.
Definition rune_length (l : list ascii) : option nat := find (λ n, BranchOps.valid_rune (take n l)) [1; 2; 3; 4]%nat.

(** The first [k] bytes belong to the character at hand. *)
Fixpoint json_bytes (k : nat) (l : list ascii) : list ascii :=
  match l, k with
  | [], _ => []
  | a :: r, S k => a :: json_bytes k r
  | a :: r, O => match rune_length l with Some n => a :: json_bytes (pred n) r | None => replacement ++ json_bytes 0 r end
  end.
Definition json_text (s : string) : string := string_of_list_ascii (json_bytes 0 (list_ascii_of_string s)).
Definition on_the_wire (q : validateRequest) : validateRequest :=
  mkValidate (map json_text (vq_Hosts q)) (json_text (vq_Fleet q)) (json_text (vq_Ref q)).

#[local] Arguments BranchOps.valid_rune : simpl never.

Lemma rune_prefix p c : BranchOps.valid_rune p = true → BranchOps.valid_rune (p ++ c) = true → c = [].
Proof.
  intros (a & t & -> & _ & _ & Hp)%BranchOps.rune_bytes (a' & t' & [= <- Ht] & _ & _ & Hpc)%BranchOps.rune_bytes.
  apply (f_equal length) in Ht. rewrite length_app in Ht. apply nil_length_inv. lia.
Qed.

Lemma rune_length_app t l : BranchOps.valid_rune t = true → rune_length (t ++ l) = Some (length t).
Proof.
  intros Hv. assert (Hno : ∀ p c, t = p ++ c → c ≠ [] → BranchOps.valid_rune p = false).
  { intros p c -> Hc. apply not_true_iff_false. intros Hp. by apply Hc, (rune_prefix p). }
  destruct (BranchOps.rune_bytes t Hv) as (a & r & -> & Hl & _).
  destruct r as [|b [|c [|d [|e r]]]]; simpl in Hl; try lia; unfold rune_length; simpl; rewrite ?take_0.
  - by rewrite Hv.
  - by rewrite (Hno [a] [b]), Hv.
  - by rewrite (Hno [a] [b; c]), (Hno [a; b] [c]), Hv.
  - by rewrite (Hno [a] [b; c; d]), (Hno [a; b] [c; d]), (Hno [a; b; c] [d]), Hv.
Qed.

Lemma json_bytes_rest t l : json_bytes (length t) (t ++ l) = t ++ json_bytes 0 l.
Proof. induction t as [|a t IH]; [done|]. simpl. by f_equal. Qed.

Lemma json_bytes_rune t l : BranchOps.valid_rune t = true → json_bytes 0 (t ++ l) = t ++ json_bytes 0 l.
Proof.
  intros Hv. pose proof (rune_length_app t l Hv) as Hr. destruct t as [|a t]; [done|].
  cbn [json_bytes app] in *. rewrite Hr. simpl pred. by rewrite json_bytes_rest.
Qed.

(** Text of whole characters is unchanged. *)
Lemma json_bytes_utf8 l : BranchOps.utf8 l → ∀ m, json_bytes 0 (l ++ m) = l ++ json_bytes 0 m.
Proof.
  induction 1 as [|l t _ IH Ht]; intros m; [done|]. by rewrite <- !(assoc_L (++)), IH, json_bytes_rune.
Qed.

Lemma json_text_utf8 s : BranchOps.utf8 (list_ascii_of_string s) → json_text s = s.
Proof.
  intros Hs. unfold json_text. pose proof (json_bytes_utf8 _ Hs []) as Hj. rewrite !app_nil_r in Hj. simpl in Hj.
  rewrite Hj. apply string_of_list_ascii_of_string.
Qed.

(** Text that arrives without a character beyond ASCII is what was sent. *)
Lemma json_bytes_ascii k l : Forall (λ a, BranchOps.in_bytes 0 127 a = true) (json_bytes k l) → json_bytes k l = l.
Proof.
  revert k. induction l as [|a l IH]; intros k; [by destruct k|]. destruct k as [|k]; cbn [json_bytes].
  - destruct (rune_length (a :: l)) as [n|]; [|by intros [Hb _]%Forall_cons]. intros [_ Hl]%Forall_cons. by rewrite IH.
  - intros [_ Hl]%Forall_cons. by rewrite IH.
Qed.

Lemma json_text_ascii s : string_forall (BranchOps.in_bytes 0 127) (json_text s) = true → json_text s = s.
Proof.
  intros Hs%string_forall_list. unfold json_text in *. rewrite list_ascii_of_string_of_list_ascii in Hs.
  rewrite json_bytes_ascii by done. apply string_of_list_ascii_of_string.
Qed.

(** The names a gate takes, and the references the runner merges, are ASCII. *)
Lemma refRE_wire ref : refRE (json_text ref) = true → json_text ref = ref.
Proof.
  intros Hr. apply json_text_ascii. destruct (json_text ref) as [|a r]; [done|]. simpl in Hr. apply andb_true_iff in Hr as [Ha Hr].
  cbn [string_forall]. apply andb_true_iff. split; [|eapply string_forall_impl; [|exact Hr]; intros x].
  - revert Ha. clear. destruct a as [[] [] [] [] [] [] [] []]; vm_compute; congruence.
  - clear. destruct x as [[] [] [] [] [] [] [] []]; vm_compute; congruence.
Qed.

Lemma hostRe_ascii h : hostRe h = true → string_forall (BranchOps.in_bytes 0 127) h = true.
Proof.
  destruct h as [|a h]; [done|]. cbn [hostRe ValidateSlug string_forall]. intros [[Ha Hh]%andb_true_iff _]%andb_true_iff.
  apply andb_true_iff. split; [|eapply string_forall_impl; [|exact Hh]; intros x].
  - revert Ha. clear. destruct a as [[] [] [] [] [] [] [] []]; vm_compute; congruence.
  - clear. destruct x as [[] [] [] [] [] [] [] []]; vm_compute; congruence.
Qed.

Lemma hosts_wire variants hosts names : expandVariants variants (map json_text hosts) = Ok names → map json_text hosts = hosts.
Proof.
  unfold expandVariants. destruct (check_hosts _) eqn:Hc; [done|]. intros _. apply check_hosts_None in Hc. unfold variant_names in Hc.
  assert (Hv : ∃ v vs, variants_of variants = v :: vs) by (destruct variants; simpl; eauto). destruct Hv as (v & vs & Hv). rewrite Hv in Hc.
  clear Hv. induction hosts as [|h hosts IH]; [done|]. cbn [map] in *. rewrite bind_cons, Forall_app in Hc.
  destruct Hc as [Hh Hc]. f_equal; [|by apply IH]. apply Forall_cons in Hh as [Hh _].
  apply json_text_ascii. apply hostRe_ascii in Hh. rewrite string_forall_app in Hh. by apply andb_true_iff in Hh as [? _].
Qed.

Lemma merged_wire {W : Type} `{Machine W} s ref (w w' : W) : merged s (json_text ref) w w' → merged s ref w w'.
Proof.
  intros [[He ->]|(Hr & Hd & Hm)].
  - left. split; [|done]. apply (f_equal (string_forall (BranchOps.in_bytes 0 127))) in He as Ha.
    by rewrite <- (json_text_ascii ref Ha).
  - pose proof (refRE_wire ref Hr) as Hj. rewrite Hj in *. by right.
Qed.

Lemma Validate_wire {W : Type} `{NixJson} proc g dir leaves hosts (w w' : W) :
  Validate proc g dir leaves (map json_text hosts) w None w' → Validate proc g dir leaves hosts w None w'.
Proof.
  intros Hv. assert (Hh : map json_text hosts = hosts); [|by rewrite Hh in Hv].
  destruct hosts as [|h hosts]; [done|].
  assert (Hr : ∃ names w1, resolveHosts proc g dir (map json_text (h :: hosts)) w = (Ok names, w1)) by (inversion Hv; eauto).
  destruct Hr as (names & w1 & Hr). cbn [map resolveHosts] in Hr. injection Hr as Hr _. by eapply (hosts_wire _ (h :: hosts)).
Qed.

(** ** The two sides *)

Section both.
  Context {W : Type} `{Machine W, RunnerJson, GateJson, NixJson}.
  Context (post : string → string → string → W → res string Response * W) (token : string).
  Context (s : server) (evaluate : string → list string → W → option string * W).
  Context (proc : string → list string → W → Proc * W) (g : EvalGate).

  (** A response that arrives is the runner's. *)
  Hypothesis delivers : ∀ authorization body w r w', post "/validate" authorization body w = (Ok r, w') →
    ∃ admitted v, handleValidate s evaluate authorization body admitted w = ((rs_Status r, v), w').
  (** What the runner decodes, from the bytes it reads, is the text that was encoded. *)
  Hypothesis codec : ∀ q q', decode_validate (limited (4 * MiB) (encode_validate q)) = Some q' → q' = on_the_wire q.
  (** The runner evaluates with the gate. *)
  Hypothesis evaluates_with_gate : ∀ dir hosts w w', evaluate dir hosts w = (None, w') → Validate proc g dir true hosts w None w'.

(** C5: the console commits nothing unevaluated: where the remote gate lets a
    document through, the runner was reached with its token, its clone was
    brought to the tracked branch, the very reference asked for merged onto it
    where there is one, the text of this document committed over it, and the
    evaluation gate let the very hosts asked for through in that worktree.  The
    text is the document itself where it is of well-formed UTF-8; a byte that is
    not arrives as U+FFFD, as JSON carries it. *)
Theorem remote_gate_is_the_gate candidate ref hosts w w' :
  validate post token candidate ref hosts w = (None, w') →
  ∃ doc w0 w1 w2 w3, candidate = Ok doc ∧ doc ≠ "" ∧ authorized s (bearer token) = true ∧
    sync s w = (None, w0) ∧ at_branch s w0 w1 ∧ merged s ref w1 w2 ∧
    did [m_write (path_join (scratch s) "fleet.json") (json_text doc); m_git (scratch s) ["add"; "fleet.json"];
         m_git (scratch s) (as_runner ++ ["commit"; "--quiet"; "--no-verify"; "--allow-empty"; "-m"; "candidate"])] w2 w3 ∧
    (BranchOps.utf8 (list_ascii_of_string doc) → json_text doc = doc) ∧
    Validate proc g (scratch s) true hosts w3 None w'.
Proof.
  unfold validate. destruct candidate as [doc|e]; [|done].
  destruct (post "/validate" _ _ w) as [[r|e] w4] eqn:Hp; [|done]. intros [= Hv ->].
  assert (Hst : rs_Status r = 200).
  { unfold verdict_of in Hv. destruct (Z.eqb_spec (rs_Status r) 200); [done|]. destruct (rs_Status r =? 422); [done|].
    destruct (decode_verdict _) as [v|]; [|done]. by destruct (vr_Error v ==? ""). }
  destruct (delivers _ _ _ _ _ Hp) as (adm & v & Hh). rewrite Hst in Hh.
  apply handleValidate_200 in Hh as (Ha & req & Hd & Hf & w0 & w3 & Hs & Hstage & He).
  apply codec in Hd as ->. simpl in Hf, Hstage, He. apply stage_Ok in Hstage as (_ & w1 & w2 & Hb & Hm & Hc).
  exists doc, w0, w1, w2, w3. split_and!; try done.
  - by intros ->.
  - by apply merged_wire.
  - apply json_text_utf8.
  - by apply Validate_wire, evaluates_with_gate.
Qed.
End both.

(** ** Cases *)

(** A machine on which everything succeeds and is written down. *)
Definition Journal : Type := list (list string).
#[local] Instance journal : Machine Journal := {|
  m_git _ args w := (None, ("git" :: args) :: w); m_exists _ _ := true; m_mkdir _ w := (None, w);
  m_write p _ w := (None, ["write"; p] :: w); m_read _ _ := Ok ""; m_temp _ w := (Ok "/tmp/x", w); m_remove _ w := w;
  m_run _ _ _ w := (mkProc "" (Some "signal: killed"), w) |}.
Definition asked : validateRequest := mkValidate ["lt-1"] "{}" "cr/7".
#[local] Instance both_runner : RunnerJson := {|
  decode_validate b := if b ==? "candidate" then Some asked else None; decode_build _ := None;
  decode_parse b := Some b; decode_bump b := Ok b; decode_lock_revs _ := Ok (<["dawo" := "old"]> {["dawo_2" := "new"]}); go_quote t := t |}.
#[local] Instance both_gate : GateJson := {|
  encode_validate q := if q ==? asked then "candidate" else "";
  decode_verdict b := if b ==? "ok" then Some (mkVerdict true "" "")
                      else if b ==? "conflict" then Some (mkVerdict false "change does not merge onto main" "CONFLICT (content): flake.lock")
                      else Some (rejected b);
  encode_build _ := ""; decode_build_answer _ := None; encode_parse c := c;
  decode_parsed b := if b ==? "" then Some (mkParsed true "") else Some (mkParsed false b);
  encode_bump i := i; decode_bump_answer _ := None |}.
#[local] Instance no_nix_json : NixJson := {| unmarshal_names _ := None; unmarshal_job _ := None |}.
Definition runner : server := mkServer "/data/overlay" "origin" "main" [] "gate" "" "" "" false.
Definition all_good (name : string) (args : list string) (w : Journal) : Proc * Journal := (mkProc "[]" None, (name :: args) :: w).
Definition one_by_one : EvalGate := mkEvalGate [] 50 1 "" 0.
Definition evaluate_all (dir : string) (hosts : list string) (w : Journal) : option string * Journal :=
  match expandVariants [] hosts with
  | Err _ => (Some "invalid host", w)
  | Ok [] => (Some "no host", w)
  | Ok names => match eval_seq all_good dir (chunk names 50) w with (Some _, w) => (Some "rejected", w) | (None, w) => (None, w) end
  end.
Definition wire (evaluate : string → list string → Journal → option string * Journal) (path authorization body : string) (w : Journal)
    : res string Response * Journal :=
  if path ==? "/validate" then
    let '((status, v), w) := handleValidate runner evaluate authorization body true w in
    (Ok (mkResponse status (if vr_OK v then "ok" else vr_Error v) None), w)
  else (Err "no such path", w).

Lemma remote_gate_is_the_gate_witness :
  let w' := (validate (wire evaluate_all) "gate" (Ok "{}") "cr/7" ["lt-1"] []).2 in
  (∃ w3, Validate all_good one_by_one (scratch runner) true ["lt-1"] w3 None w' ∧ ["write"; "/data/validate/fleet.json"] ∈ w3) ∧
  length w' = 9%nat.
Proof.
  split; [|vm_compute; reflexivity].
  destruct (remote_gate_is_the_gate (wire evaluate_all) "gate" runner evaluate_all all_good one_by_one) with
    (candidate := @Ok string string "{}") (ref := "cr/7") (hosts := ["lt-1"]) (w := @nil (list string))
    (w' := (validate (wire evaluate_all) "gate" (Ok "{}") "cr/7" ["lt-1"] []).2)
    as (doc & w0 & w1 & w2 & w3 & Hdoc & _ & _ & _ & _ & _ & Hdid & _ & Hv).
  - intros authorization body w r w'. unfold wire. change ("/validate" ==? "/validate") with true. cbv iota.
    destruct (handleValidate runner evaluate_all authorization body true w) as [[status v] w1] eqn:Hh. intros [= <- <-]. by exists true, v.
  - intros q q'. unfold encode_validate, both_gate. destruct (decide (q = asked)) as [->|Hq].
    + rewrite bool_decide_eq_true_2 by done. intros Hd. vm_compute in Hd. injection Hd as <-. reflexivity.
    + rewrite bool_decide_eq_false_2 by done. intros Hd. vm_compute in Hd. discriminate Hd.
  - intros dir hosts w w'. unfold evaluate_all. destruct (expandVariants [] hosts) as [[|n names]|e] eqn:He; [done| |done].
    destruct (eval_seq all_good dir _ w) as [[e|] w1] eqn:Hs; [done|]. intros [= <-].
    assert (Hh : hosts ≠ []) by (intros ->; discriminate He).
    eapply in_batches with (names := n :: names) (w1 := w); [|done|done|].
    + unfold resolveHosts. destruct hosts; [done|]. simpl eg_HostVariants. by rewrite He.
    + apply batches_in_turn; [done|]. exact Hs.
  - vm_compute. reflexivity.
  - injection Hdoc as <-. exists w3. split; [exact Hv|].
    inversion Hdid as [|m l a b c Hm Hd1]; subst. inversion Hd1 as [|m l a b' c Hm1 Hd2]; subst.
    inversion Hd2 as [|m l a b'' c Hm2 Hd3]; subst. inversion Hd3; subst. injection Hm as <-. injection Hm1 as <-. injection Hm2 as <-.
    right; right. left.
Defined.

(** The runner says why a change does not merge; the console leaves it out. *)
Theorem conflict_detail_dropped :
  verdict_of (mkResponse 422 "conflict" None) = Some (Rejection "change does not merge onto main") ∧
  verdict_of (mkResponse 500 "conflict" None) =
    Some (RunnerError 500 "change does not merge onto main: CONFLICT (content): flake.lock").
Proof. vm_compute. split; reflexivity. Qed.

(** Whatever the gate's error, the runner answers with a verdict: a revision that
    could not be read or a cancelled request is a rejection at the console. *)
Theorem any_error_is_a_verdict {W : Type} `{Machine W, RunnerJson} s evaluate authorization body admitted w req w1 w2 e w3 :
  authorized s authorization = true → decode_validate (limited (4 * MiB) body) = Some req → vq_Fleet req ≠ "" → admitted = true →
  sync s w = (None, w1) → stageCandidate s (vq_Fleet req) (vq_Ref req) w1 = (Ok (scratch s), w2) →
  evaluate (scratch s) (vq_Hosts req) w2 = (Some e, w3) →
  handleValidate s evaluate authorization body admitted w = ((422, rejected e), w3).
Proof.
  intros Ha Hd Hf -> Hs Hst He. unfold handleValidate. rewrite Ha, Hd. simpl negb. cbv iota.
  rewrite bool_decide_eq_false_2 by done. by rewrite Hs, Hst, He.
Qed.

(** The parser was stopped before it said anything: the console is told that the
    module has a syntax error. *)
Theorem stopped_parser_is_a_syntax_error :
  handleParse runner "Bearer gate" "{ }" [] = ((200, unparsed "syntax error"), [["write"; "/tmp/x"]]) ∧
  (CheckSyntax (λ _ _ body w, let '((st, p), w) := handleParse runner "Bearer gate" body w in (Ok (mkResponse st (ps_Error p) None), w))
    "gate" "{ }" []).1 = Ok "syntax error".
Proof. vm_compute. split; reflexivity. Qed.

(** A clone at an old revision of its remote: a copy of it is locked. *)
Record Site := mkSite { st_clone : string; st_remote : string; st_copy : string }.
#[local] Instance site : Machine Site := {|
  m_git dir args w := (None, if args ==? ["reset"; "--hard"; "--quiet"; "origin/main"] then mkSite (st_remote w) (st_remote w) (st_copy w) else w);
  m_exists _ _ := true; m_mkdir _ w := (None, w); m_write _ _ w := (None, w); m_temp _ w := (Ok "/tmp/x", w); m_remove _ w := w;
  m_read _ w := Ok (st_copy w);
  m_run _ name _ w := (mkProc "" None, mkSite (st_clone w) (st_remote w) (if name ==? "cp" then st_clone w else st_copy w +:+ "+input")) |}.

(** The lock a bump answers with is that of the clone as the last validation
    left it, not of the branch it is to be committed on. *)
Theorem bump_on_a_stale_clone :
  let w := mkSite "lock of monday" "lock of tuesday" "" in
  (bumpInput runner "dawo" w).1 = Ok ("lock of monday+input", "old") ∧
  (bumpInput runner "dawo" (sync runner w).2).1 = Ok ("lock of tuesday+input", "old").
Proof. vm_compute. split; reflexivity. Qed.

(** The revision reported with the lock is that of the node that bears the
    input's name; the core version of the same lock follows the root's mapping. *)
Definition renamed_lock : Compliance.flakeLock := Compliance.mkLock "" {[
  "root" := Compliance.mkLockNode {["dawo" := VString "dawo_2"]} "" 0 "" "" "" "";
  "dawo" := Compliance.mkLockNode ∅ "old" 0 "" "" "" "";
  "dawo_2" := Compliance.mkLockNode ∅ "new" 0 "" "" "" ""]}.

Theorem bump_rev_of_another_node :
  decode_lock_revs "" = Ok (Compliance.ln_Rev <$> delete "root" (Compliance.lk_Nodes renamed_lock)) ∧
  (bumpInput runner "dawo" (mkSite "lock" "lock" "")).1 = Ok ("lock+input", "old") ∧
  Compliance.cv_Rev <$> @Compliance.parseFlakeLock (λ _, Some renamed_lock) "lock+input" = Some "new".
Proof. split_and!; vm_compute; reflexivity. Qed.
