(* ===== verification/Bundles.v ===== *)
(** * Bundles and hardware profiles (src/internal/domain/fleet/bundles.go, hardware.go)

    The capability bundles of an overlay and the imaging targets it describes:
    the checks of the two files once decoded, their indexes, and the profile
    suggested for a discovered machine. *)

From S2P Require Import Prelude GoLib FleetModel Text Catalog.

(** ** Indexes: a map by name and the names in order *)

Record Index (A : Type) := mkIndex { ix_byName : gmap string A; ix_order : list string }.
Arguments mkIndex {A}. Arguments ix_byName {A}. Arguments ix_order {A}.
Definition no_index {A} : Index A := mkIndex ∅ [].
Definition index_add {A} (n : string) (a : A) (x : Index A) : Index A := mkIndex (<[n := a]> (ix_byName x)) (ix_order x ++ [n]).
Definition index_sort {A} (x : Index A) : Index A := mkIndex (ix_byName x) (sort_strings (ix_order x)).

(** [All], [Get], [Has] and [Len]: a name of the order the map does not hold
    would give the zero value [zero]. *)
Definition All {A} (zero : A) (x : Index A) : list A := map (λ n, default zero (ix_byName x !! n)) (ix_order x).
Definition Get {A} (x : Index A) (n : string) : option A := ix_byName x !! n.
Definition Has {A} (x : Index A) (n : string) : bool := match ix_byName x !! n with Some _ => true | None => false end.
Definition Len {A} (x : Index A) : Z := Z.of_nat (length (ix_order x)).

(** The loop of both parsers. *)
Definition index_of_list {A E} (name : A → string) (check : A → option E) (dup : string → E) (l : list A) : res E (Index A) :=
  let! x := fold_res (λ x a,
    match check a with
    | Some e => Err e
    | None => match ix_byName x !! name a with Some _ => Err (dup (name a)) | None => Ok (index_add (name a) a x) end
    end) no_index l in
  Ok (index_sort x).

(** ** Bundles *)

Record Bundle := mkBundle {
  bu_Name : string; bu_Label : string; bu_Description : string; bu_Icon : string;
  bu_Settings : gmap string Value; bu_Exposed : list string; bu_Enable : string
}.
Definition zero_bundle : Bundle := mkBundle "" "" "" "" ∅ [] "".

Definition EnableKey (b : Bundle) : string :=
  if bu_Enable b !=? "" then bu_Enable b
  else default "" (head (keep_if (λ k, has_suffix k ".enable") (sort_strings (elements (dom (bu_Settings b)))))).
Definition IsExposed (b : Bundle) (key : string) : bool := key ∈? bu_Exposed b.

Inductive BundleErr := BundleSlug (n : string) | BundleEmpty (n : string) | BundleExposes (n key : string) | DuplicateBundle (n : string)
  | BundlesMalformed (e : string).

Definition check_bundle (b : Bundle) : option BundleErr :=
  if negb (ValidateSlug (bu_Name b)) then Some (BundleSlug (bu_Name b))
  else if bool_decide (bu_Settings b = ∅) then Some (BundleEmpty (bu_Name b))
  else first_err (λ k, match bu_Settings b !! k with Some _ => None | None => Some (BundleExposes (bu_Name b) k) end) (bu_Exposed b).

(** ** Hardware profiles *)

Record ImagingStep := mkStep { is_Title : string; is_Detail : string; is_Key : string }.
Record HardwareProfile := mkHardware {
  hp_Name : string; hp_Vendor : string; hp_Models : list string; hp_Notes : string; hp_Disko : string; hp_Steps : list ImagingStep
}.
Definition zero_profile : HardwareProfile := mkHardware "" "" [] "" "" [].

Inductive HardwareErr := NamelessProfile | DuplicateHardware (n : string) | HardwareMalformed (e : string).
Definition check_profile (p : HardwareProfile) : option HardwareErr := if hp_Name p ==? "" then Some NamelessProfile else None.

(** The JSON decoders of the two files. *)
Class OverlayJson := {
  decode_bundles : string → res string (list Bundle);
  decode_hardware : string → res string (list HardwareProfile)
}.

Definition parse_index {A E} (decode : string → res string (list A)) (malformed : string → E) (build : list A → res E (Index A))
    (raw : string) : res E (Index A) :=
  if raw ==? "" then Ok no_index else match decode raw with Err e => Err (malformed e) | Ok l => build l end.

Definition ParseBundles `{OverlayJson} : string → res BundleErr (Index Bundle) :=
  parse_index decode_bundles BundlesMalformed (index_of_list bu_Name check_bundle DuplicateBundle).
Definition ParseHardwareProfiles `{OverlayJson} : string → res HardwareErr (Index HardwareProfile) :=
  parse_index decode_hardware HardwareMalformed (index_of_list hp_Name check_profile DuplicateHardware).

(** *** The suggestion *)

Definition clean (s : string) : string := to_lower (trim_space s).

(** One model of a profile, against the best so far. *)
Definition consider (vendor model : string) (n : string) (p : HardwareProfile) (best : string * Z) (m : string) : string * Z :=
  let m := clean m in
  if (m ==? "") || (model ==? "") || negb (contains model m) then best
  else let score := len m + (if (vendor !=? "") && equal_fold (hp_Vendor p) vendor then 1 else 0) in
       if best.2 <? score then (n, score) else best.

Definition Suggest (h : Index HardwareProfile) (vendor model : string) : string :=
  let model := clean model in
  let vendor := clean vendor in
  (foldl (λ best n, let p := default zero_profile (ix_byName h !! n) in foldl (consider vendor model n p) best (hp_Models p))
     ("", 0) (ix_order h)).1.

(** [HardwareSpec.Empty]. *)
Definition Empty (h : HardwareSpec) : bool :=
  (hs_Vendor h ==? "") && (hs_Model h ==? "") && (hs_Serial h ==? "") && (hs_CPU h ==? "") &&
  (hs_Cores h =? 0) && (hs_MemGB h =? 0) && (hs_DiskGB h =? 0) && (hs_Firmware h ==? "").

(** ** What the parsers accept *)

Lemma index_of_list_spec {A E} (name : A → string) (check : A → option E) dup l :
  (∃ x, index_of_list name check dup l = Ok x) ↔ (∀ a, a ∈ l → check a = None) ∧ NoDup (map name l).
Proof.
  unfold index_of_list.
  assert (Hgen : ∀ (x : Index A) , (∃ y, fold_res (λ x a, match check a with Some e => Err e | None =>
      match ix_byName x !! name a with Some _ => Err (dup (name a)) | None => Ok (index_add (name a) a x) end end) x l = Ok y) ↔
    (∀ a, a ∈ l → check a = None ∧ ix_byName x !! name a = None) ∧ NoDup (map name l)).
  { induction l as [|a l IH]; intros x; simpl.
    { split; [|by eexists]. intros _. split; [by intros a ?%elem_of_nil|constructor]. }
    rewrite NoDup_cons. destruct (check a) as [e|] eqn:Hc; simpl.
    { split; [by intros [y [=]]|]. intros [Hl _]. destruct (Hl a) as [Hx _]; [left|congruence]. }
    destruct (ix_byName x !! name a) as [b|] eqn:Hn; simpl.
    { split; [by intros [y [=]]|]. intros [Hl _]. destruct (Hl a) as [_ Hx]; [left|congruence]. }
    rewrite IH. simpl. split.
    - intros [Hl Hd]. split; [|split; [|done]].
      + intros b [->|Hb]%elem_of_cons; [done|]. destruct (Hl b Hb) as [H1 H2]. split; [done|].
        by apply lookup_insert_None in H2 as [H2 _].
      + intros (b & Hb & Hin)%list_elem_of_fmap. destruct (Hl b Hin) as [_ H2]. rewrite <- Hb, lookup_insert_eq in H2. done.
    - intros (Hl & Hni & Hd). split; [|done]. intros b Hb. destruct (Hl b) as [H1 H2]; [by right|]. split; [done|].
      rewrite lookup_insert_ne; [done|]. intros He. apply Hni. rewrite He. by apply list_elem_of_fmap_2. }
  specialize (Hgen no_index). simpl in Hgen. split.
  - intros [x Hx]. destruct (fold_res _ no_index l) as [y|e] eqn:Hf; [|done].
    destruct (proj1 Hgen) as [H1 H2]; [by exists y|]. split; [|done]. intros a Ha. by apply H1.
  - intros [H1 H2]. destruct (proj2 Hgen) as [y ->]; [|by eexists]. split; [|done]. intros a Ha. by split; [apply H1|].
Qed.

(** The index holds the list, filed under its names. *)
Record indexes {A} (name : A → string) (l : list A) (x : Index A) : Prop := {
  ix_lookup : ∀ n a, ix_byName x !! n = Some a ↔ a ∈ l ∧ name a = n;
  ix_names : ∀ n, n ∈ ix_order x ↔ is_Some (ix_byName x !! n);
  ix_unique : NoDup (ix_order x);
  ix_sorted : StronglySorted (in_order String.ltb) (ix_order x)
}.

Lemma index_of_list_Ok {A E} (name : A → string) (check : A → option E) dup l x :
  index_of_list name check dup l = Ok x → indexes name l x.
Proof.
  unfold index_of_list.
  assert (Hgen : ∀ done (x y : Index A),
    (∀ n a, ix_byName x !! n = Some a ↔ a ∈ done ∧ name a = n) → (∀ n, n ∈ ix_order x ↔ is_Some (ix_byName x !! n)) → NoDup (ix_order x) →
    fold_res (λ x a, match check a with Some e => Err e | None =>
      match ix_byName x !! name a with Some _ => Err (dup (name a)) | None => Ok (index_add (name a) a x) end end) x l = Ok y →
    (∀ n a, ix_byName y !! n = Some a ↔ a ∈ done ++ l ∧ name a = n) ∧ (∀ n, n ∈ ix_order y ↔ is_Some (ix_byName y !! n)) ∧ NoDup (ix_order y)).
  { induction l as [|a l IH]; intros d x0 y Hl Hn Hd; simpl.
    { intros [= <-]. by rewrite app_nil_r. }
    destruct (check a); [done|]. destruct (ix_byName x0 !! name a) eqn:Ha; [done|]. simpl.
    rewrite (cons_middle a d l), (assoc_L (++)). apply IH; simpl.
    - intros n b. rewrite lookup_insert_Some, Hl, elem_of_app, list_elem_of_singleton. split.
      + intros [[<- <-]|(_ & Hb & Hbn)]; [by split; [right|]|by split; [left|]].
      + intros [[Hb| ->] Hbn]; [right|by left]. split; [|done]. intros He.
        assert (Hx : ix_byName x0 !! n = Some b) by (by apply Hl). congruence.
    - intros n. rewrite elem_of_app, list_elem_of_singleton, Hn, lookup_insert_is_Some. destruct (decide (name a = n)); naive_solver.
    - apply NoDup_app. split; [done|]. split; [|apply NoDup_singleton]. intros n Hin ->%list_elem_of_singleton.
      apply Hn in Hin as [b Hb]. congruence. }
  destruct (fold_res _ no_index l) as [y|e] eqn:Hf; [|done]. intros [= <-].
  destruct (Hgen [] no_index y) as (H1 & H2 & H3); [|intros n; simpl; split; [by intros ?%elem_of_nil|by intros [b ?]]|constructor|done|].
  { intros n b. simpl. split; [done|]. by intros [?%elem_of_nil _]. }
  split; simpl.
  - done.
  - intros n. by rewrite elem_of_sort_strings.
  - by rewrite sort_strings_perm.
  - apply sort_strings_sorted.
Qed.

Lemma All_spec {A} (name : A → string) l zero (x : Index A) a : indexes name l x → a ∈ All zero x ↔ a ∈ l.
Proof.
  intros [Hl Hn _ _]. unfold All. rewrite list_elem_of_fmap. split.
  - intros (n & -> & Hin). apply Hn in Hin as [b Hb]. rewrite Hb. simpl. by apply Hl in Hb as [? _].
  - intros Ha. assert (Hx : ix_byName x !! name a = Some a) by (by apply Hl). exists (name a). rewrite Hx. split; [done|].
    apply Hn. by rewrite Hx.
Qed.

(** A bundle file with content is accepted exactly when every bundle is named by
    a slug, sets something, sets what it exposes, and bears a name of its own;
    the set then holds exactly the bundles of the file, each once, in the order
    of their names, and finds each by its name. *)
Theorem bundles_parsed `{OverlayJson} raw l : raw ≠ "" → decode_bundles raw = Ok l →
  ((∃ x, ParseBundles raw = Ok x) ↔
     NoDup (map bu_Name l) ∧ ∀ b, b ∈ l → ValidateSlug (bu_Name b) = true ∧ bu_Settings b ≠ ∅ ∧
       ∀ k, k ∈ bu_Exposed b → is_Some (bu_Settings b !! k)) ∧
  ∀ x, ParseBundles raw = Ok x →
    (∀ b, b ∈ All zero_bundle x ↔ b ∈ l) ∧ (∀ n b, Get x n = Some b ↔ b ∈ l ∧ bu_Name b = n) ∧
    NoDup (ix_order x) ∧ StronglySorted (in_order String.ltb) (ix_order x) ∧ Len x = Z.of_nat (length (All zero_bundle x)).
Proof.
  intros Hr Hd. unfold ParseBundles, parse_index. rewrite bool_decide_eq_false_2 by done. rewrite Hd. split.
  - rewrite index_of_list_spec.
    assert (Hc : ∀ b, check_bundle b = None ↔ ValidateSlug (bu_Name b) = true ∧ bu_Settings b ≠ ∅ ∧
       ∀ k, k ∈ bu_Exposed b → is_Some (bu_Settings b !! k)).
    { intros b. unfold check_bundle. destruct (ValidateSlug _); simpl; [|naive_solver]. case_bool_decide as Hs; [naive_solver|].
      rewrite first_err_None. split.
      - intros Hx. split; [done|]. split; [done|]. intros k Hk. specialize (Hx k Hk). destruct (bu_Settings b !! k); [by eexists|done].
      - intros (_ & _ & Hx) k Hk. by destruct (Hx k Hk) as [v ->]. }
    setoid_rewrite Hc. tauto.
  - intros x Hx. apply index_of_list_Ok in Hx as Hi. split; [intros b; by apply (All_spec bu_Name)|].
    split; [apply (ix_lookup _ _ _ Hi)|]. split; [apply (ix_unique _ _ _ Hi)|]. split; [apply (ix_sorted _ _ _ Hi)|].
    unfold Len, All. by rewrite length_map.
Qed.

(** ** The suggestion *)

Section suggest.
  Context (vendor model : string).

Definition matches (m : string) : Prop := clean m ≠ "" ∧ clean model ≠ "" ∧ contains (clean model) (clean m) = true.
Definition score (p : HardwareProfile) (m : string) : Z :=
  len (clean m) + (if (clean vendor !=? "") && equal_fold (hp_Vendor p) (clean vendor) then 1 else 0).

Lemma score_pos p m : matches m → 0 < score p m.
Proof.
  intros (Hm & _). unfold score, len. destruct (clean m); [done|]. simpl String.length. destruct (_ && _); lia.
Qed.

(** The best of what was seen: nothing, or one with the highest score, which no
    profile of an earlier name attains. *)
Definition best_of (seen : list (string * HardwareProfile * string)) (best : string * Z) : Prop :=
  (best = ("", 0) ∧ ∀ n p m, (n, p, m) ∈ seen → ¬ matches m) ∨
  ∃ before p m after, seen = before ++ (best.1, p, m) :: after ∧ matches m ∧ best.2 = score p m ∧
    (∀ n' p' m', (n', p', m') ∈ before → matches m' → score p' m' < best.2) ∧
    (∀ n' p' m', (n', p', m') ∈ after → matches m' → score p' m' ≤ best.2).

Lemma consider_best seen best n p m : best_of seen best →
  best_of (seen ++ [(n, p, m)]) (consider (clean vendor) (clean model) n p best m).
Proof.
  intros Hb. unfold consider.
  destruct ((clean m ==? "") || (clean model ==? "") || negb (contains (clean model) (clean m))) eqn:Hm.
  - assert (Hno : ¬ matches m).
    { intros (H1 & H2 & H3). rewrite !orb_true_iff, !bool_decide_eq_true, negb_true_iff in Hm. naive_solver congruence. }
    destruct Hb as [[-> Hs]|(bf & q & x & af & -> & Hmx & He & H1 & H2)].
    + left. split; [done|]. intros n' p' m' [Hin|Hin]%elem_of_app; [by eapply Hs|]. apply list_elem_of_singleton in Hin. congruence.
    + right. exists bf, q, x, (af ++ [(n, p, m)]). rewrite <- (assoc_L (++)). split_and!; try done.
      intros n' p' m' [Hin|Hin]%elem_of_app; [by eapply H2|]. apply list_elem_of_singleton in Hin. congruence.
  - assert (Hyes : matches m).
    { rewrite !orb_false_iff, !bool_decide_eq_false, negb_false_iff in Hm. unfold matches. tauto. }
    cbv zeta. change (len (clean m) + _) with (score p m). destruct (Z.ltb_spec best.2 (score p m)) as [Hlt|Hge].
    + right. exists seen, p, m, []. split_and!; try done; [|by intros n' p' m' ?%elem_of_nil]. simpl.
      intros n' p' m' Hin Hm'. destruct Hb as [[-> Hs]|(bf & q & x & af & -> & Hmx & He & H1 & H2)]; [by apply Hs in Hin|].
      apply elem_of_app in Hin as [Hin|Hin]; [specialize (H1 n' p' m' Hin Hm'); lia|].
      apply elem_of_cons in Hin as [[= -> -> ->]|Hin]; [lia|]. specialize (H2 n' p' m' Hin Hm'). lia.
    + destruct Hb as [[-> Hs]|(bf & q & x & af & -> & Hmx & He & H1 & H2)].
      * simpl in Hge. pose proof (score_pos p m Hyes). lia.
      * right. exists bf, q, x, (af ++ [(n, p, m)]). rewrite <- (assoc_L (++)). split_and!; try done.
        intros n' p' m' [Hin|Hin]%elem_of_app; [by eapply H2|]. apply list_elem_of_singleton in Hin as [= -> -> ->]. lia.
Qed.

Lemma consider_models seen best n p ms : best_of seen best →
  best_of (seen ++ map (λ m, (n, p, m)) ms) (foldl (consider (clean vendor) (clean model) n p) best ms).
Proof.
  revert seen best. induction ms as [|m ms IH]; intros seen best Hb; cbn [foldl map]; [by rewrite app_nil_r|].
  rewrite (cons_middle _ seen), (assoc_L (++)). by apply IH, consider_best.
Qed.

Definition offers (h : Index HardwareProfile) (n : string) : list (string * HardwareProfile * string) :=
  let p := default zero_profile (ix_byName h !! n) in map (λ m, (n, p, m)) (hp_Models p).

Lemma Suggest_best h : ∃ s, best_of (n ← ix_order h; offers h n) (Suggest h vendor model, s).
Proof.
  unfold Suggest. cbv zeta.
  assert (Hgen : ∀ names seen best, best_of seen best →
    best_of (seen ++ (n ← names; offers h n))
      (foldl (λ best n, foldl (consider (clean vendor) (clean model) n (default zero_profile (ix_byName h !! n))) best
         (hp_Models (default zero_profile (ix_byName h !! n)))) best names)).
  { induction names as [|n names IH]; intros seen best Hb; cbn [foldl]; [by rewrite app_nil_r|].
    change (mbind (λ n, offers h n) (n :: names)) with (offers h n ++ (n ← names; offers h n)).
    rewrite (assoc_L (++)). apply IH. by apply consider_models. }
  specialize (Hgen (ix_order h) [] ("", 0)). destruct (foldl _ ("", 0) (ix_order h)) as [n s]. exists s. simpl. apply Hgen.
  left. split; [done|]. by intros n' p' m' ?%elem_of_nil.
Qed.
End suggest.

(** The offers stand in the order of the names. *)
Lemma offers_sorted h names : StronglySorted (in_order String.ltb) names →
  StronglySorted (λ x y : string * HardwareProfile * string, in_order String.ltb x.1.1 y.1.1) (n ← names; offers h n).
Proof.
  intros Hs. induction Hs as [|n names Hs IH Hn]; [constructor|].
  change (mbind (λ n, offers h n) (n :: names)) with (offers h n ++ (n ← names; offers h n)).
  apply StronglySorted_app_2; [| |exact IH].
  - intros x y Hx Hy. apply list_elem_of_fmap in Hx as (m & -> & _).
    apply list_elem_of_bind in Hy as (n' & (m' & -> & _)%list_elem_of_fmap & Hin). simpl.
    rewrite Forall_forall in Hn. by apply Hn.
  - unfold offers. generalize (hp_Models (default zero_profile (ix_byName h !! n))). intros ms.
    induction ms as [|m ms IHm]; simpl; constructor; [done|]. apply Forall_fmap, Forall_true. intros m'. unfold in_order. simpl.
    rewrite string_ltb_leb. apply negb_false_iff. by destruct (String.leb_total n n).
Qed.

(** A machine is suggested a profile one of whose models its own contains, with
    the highest score there is - the length of the model, and one for a profile
    of its vendor -, the first of those by name; it is suggested none exactly
    when no model fits. *)
Theorem suggestion_is_best h l vendor model : indexes hp_Name l h → (∀ p, p ∈ l → hp_Name p ≠ "") →
  (Suggest h vendor model = "" ↔ ∀ p m, p ∈ l → m ∈ hp_Models p → ¬ matches model m) ∧
  (Suggest h vendor model ≠ "" → ∃ p m, p ∈ l ∧ hp_Name p = Suggest h vendor model ∧ m ∈ hp_Models p ∧ matches model m ∧
     ∀ p' m', p' ∈ l → m' ∈ hp_Models p' → matches model m' →
       score vendor p' m' ≤ score vendor p m ∧
       (score vendor p' m' = score vendor p m → in_order String.ltb (hp_Name p) (hp_Name p'))).
Proof.
  intros Hi Hne.
  assert (Hoff : ∀ n p m, (n, p, m) ∈ (n ← ix_order h; offers h n) ↔ p ∈ l ∧ hp_Name p = n ∧ m ∈ hp_Models p).
  { intros n p m. rewrite list_elem_of_bind. unfold offers. split.
    - intros (n' & Ho & Hn'). apply (ix_names _ _ _ Hi) in Hn' as [q Hq]. rewrite Hq in Ho.
      apply list_elem_of_fmap in Ho as (m' & [= -> -> ->] & Hm). apply (ix_lookup _ _ _ Hi) in Hq. tauto.
    - intros (Hp & Hn & Hm). assert (Hq : ix_byName h !! n = Some p) by (by apply (ix_lookup _ _ _ Hi)). exists n.
      split; [|apply (ix_names _ _ _ Hi); by eexists]. rewrite Hq. simpl. apply list_elem_of_fmap. by exists m. }
  pose proof (offers_sorted h _ (ix_sorted _ _ _ Hi)) as Hsort.
  destruct (Suggest_best vendor model h) as [s Hb]. set (n := Suggest h vendor model) in *.
  destruct Hb as [[[= Hn ->] Hno]|(bf & p & m & af & Heq & Hm & Hs & H1 & H2)].
  - rewrite Hn. split; [|done]. split; [|done]. intros _ p m Hp Hm. apply (Hno (hp_Name p) p m). by apply Hoff.
  - cbn [fst snd] in *. assert (Hin : (n, p, m) ∈ (n ← ix_order h; offers h n)) by (rewrite Heq; apply elem_of_app; right; left).
    apply Hoff in Hin as (Hp & Hpn & Hpm). split.
    { split; [|intros Hno; by destruct (Hno p m Hp Hpm)]. intros Hn0. destruct (Hne p Hp). congruence. }
    intros _. exists p, m. split; [done|]. split; [done|]. split; [done|]. split; [done|]. intros p' m' Hp' Hm' Hmt.
    assert (Hin' : (hp_Name p', p', m') ∈ (n ← ix_order h; offers h n)) by (by apply Hoff).
    rewrite Heq in Hin', Hsort. apply StronglySorted_app in Hsort as (_ & _ & Hsort).
    apply StronglySorted_cons in Hsort as [Hafter _]. rewrite Forall_forall in Hafter.
    apply elem_of_app in Hin' as [Hbf|[Hsame|Haf]%elem_of_cons].
    + specialize (H1 _ _ _ Hbf Hmt). lia.
    + injection Hsame as Hn' -> ->. split; [lia|]. intros _. unfold in_order. rewrite string_ltb_leb. apply negb_false_iff.
      by destruct (String.leb_total (hp_Name p) (hp_Name p)).
    + specialize (H2 _ _ _ Haf Hmt). split; [lia|]. intros _. rewrite Hpn. exact (Hafter _ Haf).
Qed.

(** ** Cases *)

Definition laptops : list HardwareProfile :=
  [mkHardware "elite" "HP" ["book"] "" "" []; mkHardware "generic" "" ["books"] "" "" []; mkHardware "think" "Lenovo" ["x1"] "" "" []].
#[local] Instance laptop_json : OverlayJson := {| decode_bundles _ := Ok []; decode_hardware _ := Ok laptops |}.
Definition laptop_index : Index HardwareProfile := match ParseHardwareProfiles "x" with Ok x => x | Err _ => no_index end.

Lemma suggestion_is_best_witness : Suggest laptop_index "Lenovo" "ThinkPad X1 Carbon" = "think" ∧
  ∃ p m, p ∈ laptops ∧ hp_Name p = "think" ∧ m ∈ hp_Models p.
Proof.
  assert (Hs : Suggest laptop_index "Lenovo" "ThinkPad X1 Carbon" = "think") by (vm_compute; reflexivity). split; [exact Hs|].
  destruct (suggestion_is_best laptop_index laptops "Lenovo" "ThinkPad X1 Carbon") as [_ Hw].
  - apply (index_of_list_Ok hp_Name check_profile DuplicateHardware). vm_compute. reflexivity.
  - intros p Hp. repeat (apply elem_of_cons in Hp as [->|Hp]; [discriminate|]). by apply elem_of_nil in Hp.
  - rewrite Hs in Hw. destruct Hw as (p & m & Hp & Hn & Hm & _); [discriminate|]. by exists p, m.
Defined.

(** The longest match does not always win: a profile of the vendor with a match
    shorter by one ties with it, and the name decides. *)
Theorem vendor_beats_a_longer_match :
  Suggest laptop_index "HP" "books" = "elite" ∧ Suggest laptop_index "" "books" = "generic".
Proof. vm_compute. split; reflexivity. Qed.
