(* ===== verification/WavePlans.v ===== *)
(** * Wave plans from forms (src/internal/http/web/rollout_ops.go, change_ops.go)

    The plan an operator gets from two choices, a test group and a ladder of
    percentages; the hand-authored plan as the rows of a form, and back; and the
    waves a run would have, which the confirmation page shows. *)

From S2P Require Import Prelude GoLib FleetModel Groups Resolve Mutate Text Catalog.
From S2P Require Rollout Engine WellFormed.

(** ** Numbers and fields *)

(** [strconv.Atoi]. *)
Definition Atoi (s : string) : option Z :=
  let '(neg, digits) :=
    match s with
    | String a r => if Ascii.eqb a "-" then (true, r) else if Ascii.eqb a "+" then (false, r) else (false, s)
    | EmptyString => (false, s)
    end in
  if (digits ==? "") || negb (string_forall is_digit digits) then None else
  let n := (if neg then -1 else 1) * digits_val 0 digits in
  if (min_int64 <=? n) && (n <=? max_int64) then Some n else None.

(** [strings.FieldsFunc] with a test of single bytes. *)
Fixpoint fields_from (sep : ascii → bool) (field s : string) : list string :=
  let here := if field ==? "" then [] else [field] in
  match s with
  | EmptyString => here
  | String a s => if sep a then here ++ fields_from sep "" s else fields_from sep (field +:+ String a "") s
  end.
Definition FieldsFunc (sep : ascii → bool) (s : string) : list string := fields_from sep "" s.

(** ** The ladder *)

Inductive PlanErr :=
  | TooManyWaves
  | BadPercentage (field : string)
  | NotHundred (sum : Z)
  | NoPlan
  | UnknownScopeGroup (group : string)
  | NothingToRollOut
  | RingNumber (i : nat) (what : string).

Fixpoint percent_fields (l : list string) : res PlanErr (list Z) :=
  match l with
  | [] => Ok []
  | fld :: l =>
      match Atoi fld with
      | Some n => refuse (n <? 1) || (100 <? n) with BadPercentage fld;
                  let! ns := percent_fields l in Ok (n :: ns)
      | None => Err (BadPercentage fld)
      end
  end.

Definition sum_Z (l : list Z) : Z := foldr Z.add 0 l.

Definition parsePercents (raw : string) : res PlanErr (list Z) :=
  let fields := FieldsFunc (λ a, a ∈? [","; " "; "-"; "/"]%char) raw in
  if fields ==? [] then Ok [100] else
  refuse (5 <? length fields)%nat with TooManyWaves;
  let! out := percent_fields fields in
  refuse negb (sum_Z out =? 100) with NotHundred (sum_Z out);
  Ok out.

(** A group and its active devices; smaller ones first, then by name. *)
Definition sized_less (a b : string * Z) : bool :=
  if negb (a.2 =? b.2) then a.2 <? b.2 else String.ltb a.1 b.1.
Definition active_count (f : Fleet) (g : string) : Z := Z.of_nat (length (ActiveGroupDevices f g)).
Definition other_groups (f : Fleet) (test : string) : list (string * Z) :=
  isort sized_less (map (λ g, (g, active_count f g)) (delete_func (λ g, g ==? test) (elements (dom (f_Groups f))))).
Definition devices_in (l : list (string * Z)) : Z := sum_Z (map snd l).

(** Groups are taken until the wave's share of the fleet is covered; the last
    wave takes all there is. *)
Fixpoint fill_wave (last : bool) (target covered : Z) (rest : list (string * Z))
    : list string * list (string * Z) * Z :=
  match rest with
  | (g, n) :: rest' =>
      if (covered <? target) || last then
        let '(taken, left_, c) := fill_wave last target (covered + n) rest' in (g :: taken, left_, c)
      else ([], rest, covered)
  | [] => ([], [], covered)
  end.

Definition wave_name (i : nat) (percent : Z) : string :=
  "Wave " +:+ pretty (S i) +:+ " · " +:+ pretty percent +:+ "%".

Fixpoint derive_waves (total sum : Z) (i : nat) (before covered : Z) (percents : list Z) (rest : list (string * Z))
    : list RolloutRing :=
  match percents with
  | [] => []
  | p :: percents =>
      match rest with
      | [] => []
      | _ =>
          let share := before + p in
          let '(taken, left_, c) := fill_wave (percents ==? []) ((total * share) /t sum) covered rest in
          let next := derive_waves total sum (S i) share c percents left_ in
          match taken with
          | [] => next
          | _ => mkRing "" taken (wave_name i p) 30 0 false 0 0 :: next
          end
      end
  end.

Definition test_wave (test : string) : RolloutRing := mkRing test [] "Testgroep" 60 0 true 0 0.
Definition derivePlan (f : Fleet) (test : string) (percents : list Z) : RolloutPolicy :=
  let rest := other_groups f test in
  Build_RolloutPolicy
    (test_wave test :: derive_waves (devices_in rest) (sum_Z percents) 0 0 0 percents rest)
    "" (match Rollout f with Some p => AutoFlow p | None => None end).

(** ** The plan as a form *)

(** What the browser posts for one row of the editor: the selected option of the
    group's list, the numbers as typed, the checkbox. *)
Record PlanRow := mkRow {
  row_group : string; row_name : string; row_soak : string; row_healthy : string;
  row_approval : bool; row_min : string; row_max : string
}.

Definition shown (n : Z) : string := if 0 <? n then pretty n else "".
(** The option with the ring's groups, joined, as its value; no group has one
    when the ring has several. *)
Definition selected_option (f : Fleet) (value : string) : string :=
  if bool_decide (value ∈ dom (f_Groups f)) then value else "".
Definition blank_row : PlanRow := mkRow "" "" "" "" false "" "".
Definition plan_row (f : Fleet) (r : RolloutRing) : PlanRow :=
  mkRow (selected_option f (join (GroupList r) ", ")) (rr_Name r) (shown (rr_SoakMinutes r)) (shown (rr_MinHealthyPercent r))
    (rr_RequireApproval r) (shown (rr_MinDevices r)) (shown (rr_MaxDevices r)).
(** One blank row after the configured waves. *)
Definition rolloutPlanData (f : Fleet) : list PlanRow :=
  match Rollout f with Some p => map (plan_row f) (Rings p) | None => [] end ++ [blank_row].

Definition row_number (i : nat) (what : string) (negative : bool) (s : string) : res PlanErr Z :=
  if s ==? "" then Ok 0 else
  match Atoi s with
  | Some n => refuse negb negative && (n <? 0) with RingNumber i what; Ok n
  | None => Err (RingNumber i what)
  end.

Definition row_ring (i : nat) (r : PlanRow) : res PlanErr (option RolloutRing) :=
  let group := trim_space (row_group r) in
  if group ==? "" then Ok None else
  let! soak := row_number i "soak" true (row_soak r) in
  let! healthy := row_number i "minHealthyPercent" true (row_healthy r) in
  let! least := row_number i "min devices" false (row_min r) in
  let! most := row_number i "max devices" false (row_max r) in
  Ok (Some (mkRing group [] (trim_space (row_name r)) soak healthy (row_approval r) least most)).

Fixpoint row_rings (i : nat) (rows : list PlanRow) : res PlanErr (list RolloutRing) :=
  match rows with
  | [] => Ok []
  | r :: rows =>
      let! ring := row_ring i r in
      let! rings := row_rings (S i) rows in
      Ok (match ring with Some ring => ring :: rings | None => rings end)
  end.

(** The plan of [postRolloutPlan]: none when no row names a group. *)
Definition plan_of_rows (f : Fleet) (rows : list PlanRow) : res PlanErr (option RolloutPolicy) :=
  let! rings := row_rings 0 rows in
  Ok (match rings with
      | [] => None
      | _ => Some (Build_RolloutPolicy rings "" (match Rollout f with Some p => AutoFlow p | None => None end))
      end).

(** ** What a run would do *)

Record planWaveRow := mkWaveRow { pw_Label : string; pw_Groups : string; pw_Devices : Z; pw_Share : Z; pw_Manual : bool }.

Definition ring_devices (f : Fleet) (r : RolloutRing) : Z := sum_Z (map (active_count f) (GroupList r)).
Definition wave_row (total : Z) (i : nat) (f : Fleet) (r : RolloutRing) : planWaveRow :=
  let n := ring_devices f r in
  mkWaveRow (RingLabel r) (join (GroupList r) ", ") n
    (if (0 <? i)%nat && (0 <? total) then (n * 100) /t total else 0) (rr_RequireApproval r).
(** The test wave is outside the percentages. *)
Definition waveRowsFor (f : Fleet) (rings : list RolloutRing) : list planWaveRow :=
  let total := sum_Z (map (ring_devices f) (drop 1 rings)) in
  imap (λ i r, wave_row total i f r) rings.
Definition planWaveRows (f : Fleet) : list planWaveRow :=
  match Rollout f with Some p => waveRowsFor f (Rings p) | None => [] end.

Definition normalizeScope (raw : string) : string := let sc := trim_space raw in if sc ==? "*" then "" else sc.

(** The rings of a run narrowed to a group: the test wave and the group. *)
Definition preview_rings (rings : list RolloutRing) (scope : string) : list RolloutRing :=
  match rings with
  | test :: _ =>
      if GroupList test ==? [scope] then [test] else [test; mkRing "" [scope] "" 30 0 false 0 0]
  | [] => []
  end.

Definition rolloutPreview (f : Fleet) (scope : string) : res PlanErr (list planWaveRow) :=
  match Rollout f with
  | None => Err NoPlan
  | Some p =>
      refuse Rings p ==? [] with NoPlan;
      refuse (scope !=? "") && negb (bool_decide (scope ∈ dom (f_Groups f))) with UnknownScopeGroup scope;
      let rows := waveRowsFor f (if scope ==? "" then Rings p else preview_rings (Rings p) scope) in
      refuse negb (existsb (λ r, 0 <? pw_Devices r) rows) with NothingToRollOut;
      Ok rows
  end.

(** ** Maintenance windows *)

(** [windowRe]: the hour may have one digit. *)
Definition hour_minute (s : string) : bool :=
  match list_ascii_of_string s with
  | [b; c1; c; d] => is_digit b && Ascii.eqb c1 ":" && in_range "0" "5" c && is_digit d
  | [a; b; c1; c; d] => clock a b c d && Ascii.eqb c1 ":"
  | _ => false
  end.
Definition windowRe (s : string) : bool :=
  match cut_at "-" s with Some (a, b) => hour_minute a && hour_minute b | None => false end.

(** ** A derived plan *)

Lemma fill_wave_spec last target covered rest taken left_ c : fill_wave last target covered rest = (taken, left_, c) →
  ∃ a, rest = a ++ left_ ∧ taken = map fst a ∧ c = covered + devices_in a ∧
    (∀ j, (j < length a)%nat → last = true ∨ covered + devices_in (take j a) < target) ∧
    (left_ ≠ [] → last = false ∧ target ≤ c).
Proof.
  revert covered taken. induction rest as [|[g n] rest IH]; intros covered taken; simpl.
  { intros [= <- <- <-]. exists []. unfold devices_in. simpl. split_and!; [done|done|lia|lia|done]. }
  destruct ((covered <? target) || last) eqn:Hc.
  - destruct (fill_wave last target (covered + n) rest) as [[t l] c'] eqn:Hf. intros [= <- <- <-].
    apply IH in Hf as (a & -> & -> & -> & Ha & Hl). exists ((g, n) :: a). unfold devices_in in *. simpl in *.
    split_and!; [done|done|lia| |done]. intros [|j] Hj; simpl.
    + apply orb_true_iff in Hc as [Hc%Z.ltb_lt|Hc]; [right; lia|by left].
    + destruct (Ha j) as [|Hx]; [lia|by left|right; lia].
  - apply orb_false_iff in Hc as [Hc%Z.ltb_ge ->]. intros [= <- <- <-]. exists []. unfold devices_in. simpl.
    split_and!; [done|done|lia|intros j Hj; lia|intros _; split; [done|lia]].
Qed.

Lemma devices_in_app a b : devices_in (a ++ b) = devices_in a + devices_in b.
Proof. unfold devices_in. induction a as [|x a IH]; simpl; [done|]. rewrite IH. lia. Qed.

Lemma devices_in_nonneg l : Forall (λ x, 0 ≤ x.2) l → 0 ≤ devices_in l.
Proof. unfold devices_in. induction 1; simpl; lia. Qed.

(** The devices a ladder step is to have reached, with what came before. *)
Definition reach_target (total sum before : Z) (percents : list Z) (k : nat) : Z :=
  (total * (before + sum_Z (take (S k) percents))) /t sum.

(** The step a group belongs to when [ahead] devices go before it: the first
    whose share is not yet covered, or the last. *)
Definition step_of (total sum before : Z) (percents : list Z) (ahead : Z) (k : nat) : Prop :=
  (k < length percents)%nat ∧ (ahead < reach_target total sum before percents k ∨ S k = length percents) ∧
  ∀ k', (k' < k)%nat → reach_target total sum before percents k' ≤ ahead.

Lemma derive_waves_spec total sum percents i before covered rest : percents ≠ [] → Forall (λ x, 0 ≤ x.2) rest →
  (r ← derive_waves total sum i before covered percents rest; GroupList r) = map fst rest ∧
  (∀ r, r ∈ derive_waves total sum i before covered percents rest →
     rr_Groups r ≠ [] ∧ rr_RequireApproval r = false ∧ rr_SoakMinutes r = 30 ∧ rr_MinHealthyPercent r = 0) ∧
  ∀ j g n, rest !! j = Some (g, n) → ∃ k p r,
    step_of total sum before percents (covered + devices_in (take j rest)) k ∧ percents !! k = Some p ∧
    r ∈ derive_waves total sum i before covered percents rest ∧ rr_Name r = wave_name (i + k) p ∧ g ∈ rr_Groups r.
Proof.
  revert i before covered rest. induction percents as [|p ps IH]; intros i before covered rest; [done|]. intros _ Hn. simpl.
  destruct rest as [|x0 rest0]; [split_and!; [done|by intros r ?%elem_of_nil|done]|].
  set (rest := x0 :: rest0) in *.
  destruct (fill_wave _ _ covered rest) as [[taken left_] c] eqn:Hf.
  apply fill_wave_spec in Hf as (a & Hr & -> & -> & Ha & Hl). clearbody rest. subst rest.
  apply Forall_app in Hn as [Hna Hnl].
  set (next := derive_waves total sum (S i) (before + p) (covered + devices_in a) ps left_).
  assert (Hnext : (r ← next; GroupList r) = map fst left_ ∧
    (∀ r, r ∈ next → rr_Groups r ≠ [] ∧ rr_RequireApproval r = false ∧ rr_SoakMinutes r = 30 ∧ rr_MinHealthyPercent r = 0) ∧
    ∀ j g n, left_ !! j = Some (g, n) → ∃ k q r,
      step_of total sum (before + p) ps (covered + devices_in a + devices_in (take j left_)) k ∧ ps !! k = Some q ∧
      r ∈ next ∧ rr_Name r = wave_name (S i + k) q ∧ g ∈ rr_Groups r).
  { destruct (decide (ps = [])) as [Hps|Hps]; [|by apply IH]. unfold next. rewrite Hps. simpl.
    destruct left_ as [|y l]; [split_and!; [done|by intros r ?%elem_of_nil|done]|].
    destruct Hl as [Hl _]; [done|]. by rewrite bool_decide_eq_true_2 in Hl. }
  destruct Hnext as (Hg & Hw & Hp).
  set (here := mkRing "" (map fst a) (wave_name i p) 30 0 false 0 0).
  assert (Hhere : map fst a ≠ [] → GroupList here = map fst a).
  { unfold GroupList. simpl. by destruct (map fst a). }
  assert (Hwhole : match map fst a with [] => next | _ :: _ => here :: next end
    = (if map fst a ==? [] then [] else [here]) ++ next).
  { by destruct (map fst a). }
  rewrite Hwhole. split_and!.
  - rewrite bind_app, Hg, map_app. case_bool_decide as Hne; [by rewrite Hne|]. cbn [mbind list_bind app]. rewrite Hhere by done.
    by rewrite app_nil_r.
  - intros r [Hr|Hr]%elem_of_app; [|by apply Hw]. case_bool_decide as Hne; [by apply elem_of_nil in Hr|].
    apply list_elem_of_singleton in Hr as ->. by split_and!.
  - intros j g n Hj. destruct (decide (j < length a)%nat) as [Hlt|Hge].
    + rewrite lookup_app_l in Hj by done. exists 0%nat, p, here. rewrite take_app_le by lia. split_and!.
      * split; [simpl; lia|]. split; [|lia]. destruct (Ha j Hlt) as [Hlast%bool_decide_eq_true_1|Hx].
        -- right. by rewrite Hlast.
        -- left. unfold reach_target. simpl. by rewrite Z.add_0_r.
      * done.
      * apply elem_of_app. left. rewrite bool_decide_eq_false_2; [by apply list_elem_of_singleton|].
        intros He%map_eq_nil. by rewrite He in Hlt; simpl in Hlt; lia.
      * by rewrite Nat.add_0_r.
      * simpl. apply list_elem_of_fmap. exists (g, n). split; [done|]. by eapply list_elem_of_lookup_2.
    + rewrite lookup_app_r in Hj by lia. destruct (Hp _ _ _ Hj) as (k & q & r & (Hk & Hreach & Hbefore) & Hq & Hr & Hname & Hin).
      exists (S k), q, r. rewrite take_app_ge by lia. rewrite devices_in_app, Z.add_assoc. split_and!.
      * split; [simpl; lia|]. assert (Htgt : ∀ m, reach_target total sum before (p :: ps) (S m) = reach_target total sum (before + p) ps m).
        { intros m. unfold reach_target. do 2 f_equal. change (take (S (S m)) (p :: ps)) with (p :: take (S m) ps). simpl. lia. }
        split; [|intros [|k'] Hk'; [|rewrite Htgt; apply Hbefore; lia]].
        -- rewrite Htgt. destruct Hreach as [Hx|Hx]; [by left|right; simpl; lia].
        -- destruct Hl as [_ Hl]; [by intros ->|]. pose proof (devices_in_nonneg (take (j - length a) left_) (Forall_take _ _ _ Hnl)).
           unfold reach_target in *. simpl in *. rewrite Z.add_0_r. lia.
      * done.
      * apply elem_of_app. by right.
      * rewrite Hname. f_equal. lia.
      * done.
Qed.

(** The document accepts a plan whose waves have groups, none twice, that
    exist, and sensible numbers. *)
Lemma ring_groups_ok_complete f i seen gs : (∀ g, g ∈ gs → is_Some (f_Groups f !! g)) → NoDup gs → (∀ g, g ∈ gs → g ∉ seen) →
  ring_groups_ok f i seen gs = Ok (reverse gs ++ seen).
Proof.
  revert seen. induction gs as [|g gs IH]; intros seen He Hd Hs; simpl; [done|].
  destruct (He g) as [x Hx]; [left|]. rewrite Hx. rewrite bool_decide_eq_false_2 by (apply Hs; left).
  apply NoDup_cons in Hd as [Hg Hd]. rewrite IH; [by rewrite reverse_cons, <- app_assoc| |done|].
  - intros y Hy. apply He. by right.
  - intros y Hy [->|Hy']%elem_of_cons; [done|]. apply (Hs y); [by right|done].
Qed.

Definition sound_ring (f : Fleet) (r : RolloutRing) : Prop :=
  GroupList r ≠ [] ∧ (∀ g, g ∈ GroupList r → is_Some (f_Groups f !! g)) ∧
  0 ≤ rr_SoakMinutes r ∧ 0 ≤ rr_MinHealthyPercent r ≤ 100.

Lemma rings_ok_complete f rings : (∀ r, r ∈ rings → sound_ring f r) → ∀ i seen,
  NoDup (r ← rings; GroupList r) → (∀ g, g ∈ (r ← rings; GroupList r) → g ∉ seen) → ∃ seen', rings_ok f i seen rings = Ok seen'.
Proof.
  induction rings as [|r rings IH]; intros Hr i seen Hd Hs; [by eexists|].
  cbn [mbind list_bind] in Hd, Hs. apply NoDup_app in Hd as (Hd1 & Hx & Hd2).
  destruct (Hr r) as (Hne & He & Hsoak & Hlo & Hhi); [left|]. cbn [rings_ok]. unfold ring_ok.
  destruct (GroupList r) as [|g0 gl] eqn:Hgl; [done|].
  rewrite (ring_groups_ok_complete f i seen (g0 :: gl)); [|done|done|intros g Hg; apply Hs, elem_of_app; by left].
  destruct (Z.ltb_spec (rr_SoakMinutes r) 0); [lia|]. destruct (Z.ltb_spec (rr_MinHealthyPercent r) 0); [lia|].
  destruct (Z.ltb_spec 100 (rr_MinHealthyPercent r)); [lia|]. cbn [orb res_bind]. apply IH.
  - intros r' Hr'. apply Hr. by right.
  - done.
  - intros g Hg [Hg1|Hg1]%elem_of_app; [rewrite elem_of_reverse in Hg1; exact (Hx g Hg1 Hg)|].
    apply (Hs g); [apply elem_of_app; by right|done].
Qed.

Lemma elem_of_other_groups f test x : x ∈ other_groups f test ↔ is_Some (f_Groups f !! x.1) ∧ x.1 ≠ test ∧ x.2 = active_count f x.1.
Proof.
  unfold other_groups. rewrite elem_of_isort, list_elem_of_fmap. split.
  - intros (g & -> & [Hg Ht%eqb_false]%elem_of_delete_func). rewrite elem_of_elements, elem_of_dom in Hg. done.
  - intros (Hg & Ht & Hx). exists x.1. split; [destruct x; simpl in *; by subst|]. apply elem_of_delete_func.
    rewrite elem_of_elements, elem_of_dom. split; [done|]. by apply eqb_false.
Qed.

Lemma other_groups_names f test : is_Some (f_Groups f !! test) → test :: map fst (other_groups f test) ≡ₚ elements (dom (f_Groups f)).
Proof.
  intros Ht. unfold other_groups. rewrite isort_perm, map_map. simpl.
  assert (Hid : map (λ g : string, g) (delete_func (λ g, g ==? test) (elements (dom (f_Groups f)))) =
    delete_func (λ g, g ==? test) (elements (dom (f_Groups f)))) by apply map_id. rewrite Hid.
  apply NoDup_Permutation.
  - constructor; [|unfold delete_func; apply NoDup_filter, NoDup_elements]. rewrite elem_of_delete_func. intros [_ Hx%eqb_false]. done.
  - apply NoDup_elements.
  - intros g. rewrite elem_of_cons, elem_of_delete_func, elem_of_elements, elem_of_dom, eqb_false. split.
    + by intros [->|[Hg _]].
    + intros Hg. destruct (decide (g = test)) as [->|]; [by left|by right].
Qed.

Lemma active_count_nonneg f test : Forall (λ x, 0 ≤ x.2) (other_groups f test).
Proof. apply Forall_forall. intros x (_ & _ & ->)%elem_of_other_groups. unfold active_count. lia. Qed.

Lemma percent_fields_Ok l out : percent_fields l = Ok out → length out = length l ∧ Forall (λ p, 1 ≤ p ≤ 100) out.
Proof.
  revert out. induction l as [|x l IH]; intros out; simpl; [by intros [= <-]|].
  destruct (Atoi x) as [n|]; [|done]. destruct (Z.ltb_spec n 1); [done|]. destruct (Z.ltb_spec 100 n); [done|].
  intros (ns & Hns & [= <-])%res_bind_Ok. destruct (IH ns Hns) as [Hl Hn]. simpl. rewrite Hl.
  split; [done|]. constructor; [lia|done].
Qed.

Lemma parsePercents_Ok raw l : parsePercents raw = Ok l →
  l ≠ [] ∧ (length l ≤ 5)%nat ∧ Forall (λ p, 1 ≤ p ≤ 100) l ∧ sum_Z l = 100.
Proof.
  unfold parsePercents. case_bool_decide as Hf.
  { intros [= <-]. split_and!; [done|simpl; lia|repeat constructor; lia|done]. }
  destruct (Nat.ltb_spec 5 (length (FieldsFunc (λ a, a ∈? [","; " "; "-"; "/"]%char) raw))) as [|H5]; [done|].
  intros (out & [Hl Hp]%percent_fields_Ok & Ho)%res_bind_Ok.
  destruct (Z.eqb_spec (sum_Z out) 100) as [H100|]; [|done]. injection Ho as <-.
  split_and!; [intros ->; simpl in *; lia|lia|done|done].
Qed.

#[export] Instance sized_less_sw : StrictWeak sized_less.
Proof.
  split.
  - intros [a n] [b m]. unfold sized_less. simpl. rewrite (Z.eqb_sym m n). destruct (Z.eqb_spec n m) as [->|Hnm]; simpl.
    + apply string_ltb_sw.
    + intros Hlt%Z.ltb_lt. apply Z.ltb_ge. lia.
  - intros [a n] [b m] [c l]. unfold sized_less. simpl.
    destruct (Z.eqb_spec m n) as [->|Hmn]; destruct (Z.eqb_spec l n) as [->|Hln]; simpl.
    + rewrite ?Z.eqb_refl. simpl. apply string_ltb_sw.
    + intros _. done.
    + destruct (Z.eqb_spec n m); [lia|]. simpl. intros ?%Z.ltb_ge ?%Z.ltb_ge. lia.
    + destruct (Z.eqb_spec l m) as [->|Hlm]; simpl; [done|]. intros ?%Z.ltb_ge ?%Z.ltb_ge. apply Z.ltb_ge. lia.
Qed.

(** ** Properties *)

(** C30: the plan derived from a test group and an accepted ladder is one the
    document accepts: the test wave first, with its sign-off; then every other
    group in exactly one wave, the smaller groups first, each in the first wave
    whose cumulative share of the fleet is not covered by the groups before it,
    or in the last; the standing auto-flow choice stays. *)
Theorem derived_plan_exact f test raw percents : is_Some (f_Groups f !! test) → test ≠ "" → parsePercents raw = Ok percents →
  let plan := derivePlan f test percents in
  let others := other_groups f test in
  SetRolloutPlan (Some plan) f = Ok (f <| Rollout := Some plan |>) ∧
  (∃ waves, Rings plan = test_wave test :: waves ∧ (r ← waves; GroupList r) = map fst others) ∧
  (r ← Rings plan; GroupList r) ≡ₚ elements (dom (f_Groups f)) ∧
  StronglySorted (in_order sized_less) others ∧
  (∀ j g n, others !! j = Some (g, n) → ∃ k p r,
     step_of (devices_in others) 100 0 percents (devices_in (take j others)) k ∧ percents !! k = Some p ∧
     r ∈ Rings plan ∧ rr_Name r = wave_name k p ∧ g ∈ rr_Groups r) ∧
  AutoFlow plan = match Rollout f with Some p => AutoFlow p | None => None end.
Proof.
  intros Ht Hnt (Hne & _ & _ & Hsum)%parsePercents_Ok plan others.
  destruct (derive_waves_spec (devices_in others) 100 percents 0 0 0 others Hne (active_count_nonneg f test)) as (Hg & Hw & Hp).
  assert (Hrings : Rings plan = test_wave test :: derive_waves (devices_in others) 100 0 0 0 percents others).
  { unfold plan, derivePlan, others. simpl. by rewrite Hsum. }
  assert (Htest : GroupList (test_wave test) = [test]).
  { unfold GroupList, test_wave. simpl. by rewrite bool_decide_eq_false_2. }
  assert (Hgroups : (r ← Rings plan; GroupList r) = test :: map fst others).
  { rewrite Hrings. cbn [mbind list_bind]. by rewrite Htest, Hg. }
  pose proof (other_groups_names f test Ht) as Hperm. fold others in Hperm.
  split_and!.
  - unfold SetRolloutPlan. destruct (rings_ok_complete f (Rings plan)) with (i := 0%nat) (seen := @nil string) as [seen Hok].
    + intros r Hr. rewrite Hrings in Hr. apply elem_of_cons in Hr as [->|Hr].
      * split; [by rewrite Htest|]. rewrite Htest. split; [by intros g ->%list_elem_of_singleton|]. simpl. lia.
      * destruct (Hw r Hr) as (Hrg & _ & Hs & Hm). assert (Hgl : GroupList r = rr_Groups r).
        { unfold GroupList. by destruct (rr_Groups r). }
        split; [by rewrite Hgl|]. rewrite Hs, Hm. split; [|lia]. intros g Hgr.
        assert (Hin : g ∈ (r ← Rings plan; GroupList r)).
        { rewrite Hrings. apply list_elem_of_bind. exists r. split; [done|by right]. }
        rewrite Hgroups, Hperm, elem_of_elements, elem_of_dom in Hin. done.
    + rewrite Hgroups, Hperm. apply NoDup_elements.
    + by intros g _ ?%elem_of_nil.
    + rewrite Hrings in *. by rewrite Hok.
  - eexists. split; [exact Hrings|done].
  - by rewrite Hgroups.
  - apply isort_sorted, _.
  - intros j g n Hj. destruct (Hp j g n Hj) as (k & p & r & Hs & Hk & Hr & Hname & Hin). exists k, p, r.
    split; [done|]. split; [done|]. rewrite Hrings. split; [by right|done].
  - done.
Qed.

Lemma Atoi_pretty n : 0 < n ≤ max_int64 → Atoi (pretty n) = Some n.
Proof.
  intros [Hlo Hhi]. destruct n as [|x|x]; [lia| |lia]. change (pretty (Z.pos x)) with (pretty (N.pos x)).
  destruct (pretty_N_digits (N.pos x)) as (Hd & Hv & Hne). unfold Atoi. rewrite digits_unsigned by done.
  rewrite bool_decide_eq_false_2, Hd by done. simpl negb. cbv [orb]. rewrite Hv.
  change (1 * Z.of_N (N.pos x)) with (Z.pos x). unfold min_int64, max_int64 in *.
  destruct (Z.leb_spec (-9223372036854775808) (Z.pos x)); [|lia]. destruct (Z.leb_spec (Z.pos x) 9223372036854775807); [done|lia].
Qed.

Lemma row_number_shown i what neg n : 0 ≤ n ≤ max_int64 → row_number i what neg (shown n) = Ok n.
Proof.
  intros Hn. unfold row_number, shown. destruct (Z.ltb_spec 0 n) as [Hp|Hp]; [|rewrite bool_decide_eq_true_2 by done; do 2 f_equal; lia].
  rewrite bool_decide_eq_false_2.
  - rewrite Atoi_pretty by lia. destruct (Z.ltb_spec n 0); [lia|]. by rewrite andb_false_r.
  - destruct n as [|x|x]; [lia| |lia]. apply (pretty_N_digits (N.pos x)).
Qed.

(** The rings the editor can show: one group, which exists, a name without
    blanks around it, numbers of the machine. *)
Definition form_editable (f : Fleet) (r : RolloutRing) : Prop :=
  rr_Groups r = [] ∧ is_Some (f_Groups f !! rr_Group r) ∧ rr_Group r ≠ "" ∧
  trim_space (rr_Group r) = rr_Group r ∧ trim_space (rr_Name r) = rr_Name r ∧
  Forall (λ n, 0 ≤ n ≤ max_int64) [rr_SoakMinutes r; rr_MinHealthyPercent r; rr_MinDevices r; rr_MaxDevices r].

Lemma row_ring_shown f i r : form_editable f r → row_ring i (plan_row f r) = Ok (Some r).
Proof.
  intros (Hgs & Hex & Hne & Hg & Hname & Hn). destruct r as [g gs name soak healthy appr least most]. simpl in *. subst gs.
  rewrite !Forall_cons in Hn. destruct Hn as (Hs & Hh & Hl & Hm & _).
  unfold plan_row, GroupList. simpl. rewrite bool_decide_eq_false_2 by done. simpl.
  unfold selected_option. rewrite bool_decide_eq_true_2 by (by apply elem_of_dom).
  unfold row_ring. simpl. rewrite Hg, bool_decide_eq_false_2 by done.
  rewrite !row_number_shown by done. simpl. by rewrite Hname.
Qed.

Lemma row_rings_shown f i rings : Forall (form_editable f) rings → row_rings i (map (plan_row f) rings ++ [blank_row]) = Ok rings.
Proof.
  intros Hr. revert i. induction Hr as [|r rings Hr _ IH]; intros i; [done|].
  cbn [map app row_rings]. by rewrite row_ring_shown, IH.
Qed.

(** Saving the wave editor unchanged keeps the plan, ring by ring and with
    the standing auto-flow choice, when every wave has one group. *)
Theorem plan_form_round_trip f p : Rollout f = Some p → Rings p ≠ [] → Forall (form_editable f) (Rings p) →
  plan_of_rows f (rolloutPlanData f) = Ok (Some (Build_RolloutPolicy (Rings p) "" (AutoFlow p))).
Proof.
  intros Hp Hne Hr. unfold plan_of_rows, rolloutPlanData. rewrite Hp, row_rings_shown by done. simpl. by destruct (Rings p).
Qed.

(** A row of the preview is about a ring of a run. *)
Definition shows (f : Fleet) (row : planWaveRow) (ring : Rollout.Ring) : Prop :=
  pw_Label row = Rollout.RunRingLabel ring ∧ pw_Groups row = join (Rollout.RingGroupList ring) ", " ∧
  pw_Manual row = Rollout.RequireApproval ring ∧
  pw_Devices row = sum_Z (map (active_count f) (Rollout.RingGroupList ring)).

Lemma rows_show f (row : nat → RolloutRing → planWaveRow) (ring : RolloutRing → Rollout.Ring) l :
  (∀ i r, shows f (row i r) (ring r)) → Forall2 (shows f) (imap row l) (map ring l).
Proof.
  revert row. induction l as [|r l IH]; intros row Hrow; [constructor|]. rewrite imap_cons. constructor; [apply Hrow|].
  apply (IH (row ∘ S)). intros i r'. apply Hrow.
Qed.

Lemma wave_rows_show f expedited l :
  Forall2 (shows f) (waveRowsFor f l)
    (if expedited : bool then map Engine.expedite (map Engine.ringFromFleet l) else map Engine.ringFromFleet l).
Proof.
  destruct expedited; [rewrite map_map|]; apply rows_show; intros i r; [|done].
  unfold Engine.expedite. by destruct (_ || _).
Qed.

(** C33: what the confirmation page shows is what the run will do: its rows are
    the rings of the run that [StartWith] starts for the scope, in order, with
    their groups, their sign-off and their active devices. *)
Theorem preview_is_the_run f scope expedited rows rings : rolloutPreview f scope = Ok rows →
  Engine.run_plan f (Engine.mkOpts (if scope ==? "" then [] else [scope]) expedited "" "") = Ok rings →
  Forall2 (shows f) rows rings.
Proof.
  unfold rolloutPreview, Engine.run_plan, Engine.planRings. destruct (Rollout f) as [p|]; [|done].
  case_bool_decide as Hne; [done|]. destruct ((scope !=? "") && _); [done|].
  destruct (existsb _ _); [|done]. intros [= <-]. cbn [res_bind]. destruct (first_err _ _); [done|]. cbn [res_bind].
  destruct (first_err _ _); [done|]. cbn [Engine.o_Groups Engine.Expedited].
  case_bool_decide as Hs; [intros [= <-]; apply wave_rows_show|].
  assert (Hsame : Engine.scoped_rings (map Engine.ringFromFleet (Rings p)) [scope] = map Engine.ringFromFleet (preview_rings (Rings p) scope)).
  { destruct (Rings p) as [|test rest]; [done|]. unfold Engine.scoped_rings, preview_rings. simpl.
    change (Rollout.RingGroupList (Engine.ringFromFleet test)) with (GroupList test).
    destruct (GroupList test) as [|t [|]]; [by rewrite bool_decide_eq_false_2| |by rewrite bool_decide_eq_false_2].
    case_bool_decide as Ht; case_bool_decide as Ht'; [done|congruence|congruence|done]. }
  rewrite Hsame. intros [= <-]. apply wave_rows_show.
Qed.

(** ** Cases *)

Definition branch_offices : Fleet := zero_fleet
  <| f_Groups := list_to_map (map (λ g, (g, zero_group)) ["a"; "b"; "c"; "test"]) |>
  <| Devices := list_to_map (map (λ x, (x.1, zero_device <| Groups := [x.2] |>))
       [("d1", "a"); ("d2", "b"); ("d3", "b"); ("d4", "c"); ("d5", "c"); ("d6", "c"); ("d7", "test")]) |>.
Definition ladder : list Z := [10; 30; 60].
Definition derived : RolloutPolicy := derivePlan branch_offices "test" ladder.
Definition with_plan (p : RolloutPolicy) : Fleet := branch_offices <| Rollout := Some p |>.
Definition one_by_one : RolloutPolicy :=
  Build_RolloutPolicy [mkRing "test" [] "Pilot" 60 90 true 2 0; mkRing "a" [] "" 30 0 false 0 25] "" (Some false).

Lemma derived_plan_exact_witness :
  parsePercents "10, 30, 60" = Ok ladder ∧
  map (λ r, (rr_Name r, GroupList r)) (Rings derived) =
    [("Testgroep", ["test"]); ("Wave 2 · 30%", ["a"; "b"]); ("Wave 3 · 60%", ["c"])] ∧
  SetRolloutPlan (Some derived) branch_offices = Ok (branch_offices <| Rollout := Some derived |>).
Proof.
  assert (Hl : parsePercents "10, 30, 60" = Ok ladder) by (vm_compute; reflexivity).
  split; [exact Hl|]. split; [vm_compute; reflexivity|].
  refine (proj1 (derived_plan_exact branch_offices "test" "10, 30, 60" ladder _ _ Hl)).
  - vm_compute. eexists. reflexivity.
  - discriminate.
Defined.

Lemma plan_form_round_trip_witness :
  plan_of_rows (with_plan one_by_one) (rolloutPlanData (with_plan one_by_one)) = Ok (Some one_by_one).
Proof.
  apply (plan_form_round_trip (with_plan one_by_one) one_by_one); [reflexivity|discriminate|].
  repeat constructor; try discriminate; try (vm_compute; reflexivity); vm_compute; eexists; reflexivity.
Defined.

Lemma preview_is_the_run_witness : ∃ rows rings, rolloutPreview (with_plan derived) "c" = Ok rows ∧
  length rows = 2%nat ∧ Forall2 (shows (with_plan derived)) rows rings.
Proof.
  eexists _, _. split; [vm_compute; reflexivity|]. split; [reflexivity|].
  apply (preview_is_the_run (with_plan derived) "c" true); vm_compute; reflexivity.
Defined.

(** The editor shows no group for a wave of several, and a row without a group is
    no wave: saving the derived plan unchanged drops its second wave. *)
Theorem multi_group_wave_dropped :
  ∃ p, plan_of_rows (with_plan derived) (rolloutPlanData (with_plan derived)) = Ok (Some p) ∧
    map GroupList (Rings p) = [["test"]; ["c"]] ∧ map GroupList (Rings derived) = [["test"]; ["a"; "b"]; ["c"]].
Proof. eexists. split; [vm_compute; reflexivity|]. split; reflexivity. Qed.

(** The role a plan asks for is lost by the editor. *)
Theorem approve_role_lost : ∃ p, ApproveRole p = "owner" ∧
  plan_of_rows (with_plan p) (rolloutPlanData (with_plan p)) = Ok (Some (Build_RolloutPolicy (Rings p) "" (AutoFlow p))).
Proof.
  exists (Build_RolloutPolicy (Rings one_by_one) "owner" (Some false)). split; [reflexivity|]. vm_compute. reflexivity.
Qed.
