(* ===== verification/ConsoleForms.v ===== *)
(** * The forms of the console (src/internal/http/web)

    What the console's handlers compute from a submitted form before they call a
    service: the diff of a settings page, the risk marker, policy and filter
    editors, identifiers, and the paths a browser is sent back to. *)

From S2P Require Import Prelude GoLib FleetModel Groups Filters Resolve Mutate Text Catalog SettingsGuard.
From S2P Require Import ScopeEdits Classes Bundles.
From S2P Require Changes Engine WavePlans.

(** ** A request's form *)

(** [r.PostForm] and the query; [r.Form] is the first followed by the second. *)
Record Form := mkForm { PostForm : gmap string (list string); Query : gmap string (list string) }.
Definition FormValues (fm : Form) (key : string) : list string :=
  default [] (PostForm fm !! key) ++ default [] (Query fm !! key).
Definition firstOf (vals : list string) : string := default "" (head vals).
Definition FormValue (fm : Form) (key : string) : string := firstOf (FormValues fm key).
Definition trimmed (fm : Form) (key : string) : string := trim_space (FormValue fm key).

(** ** Text (errors.go, notifications.go, middleware.go, enroll.go) *)

Definition lower_digit (a : ascii) : bool := is_lower a || is_digit a.

(** The fold of [slugify]: the text so far, reversed, and whether it ends in a
    hyphen or is empty. A rune of several bytes is several separators in a row,
    which count as one. *)
Definition slug_step (st : list ascii * bool) (a : ascii) : list ascii * bool :=
  let '(b, prevHyphen) := st in
  if is_upper a then (lower_ascii a :: b, false)
  else if lower_digit a then (a :: b, false)
  else if prevHyphen then (b, true) else ("-"%char :: b, true).
Definition slugify (s : string) : string :=
  let '(b, _) := foldl slug_step ([], true) (list_ascii_of_string s) in
  string_of_list_ascii (reverse (drop_while (Ascii.eqb "-") b)).

Definition slash : ascii := "/".
Definition backslash : ascii := "\".

Definition safeLocalPath (to : string) : string :=
  match to with
  | String a rest =>
      if negb (Ascii.eqb a slash) then "/notifications" else
      match rest with
      | String b _ => if Ascii.eqb b slash || Ascii.eqb b backslash then "/notifications" else to
      | EmptyString => to
      end
  | EmptyString => "/notifications"
  end.

(** The test of the settings save and of the secret page. *)
Definition local_back (back : string) : bool := has_prefix back "/" && negb (has_prefix back "//").

(** A parsed referer, by [net/url]. *)
Record RefURL := mkRefURL { url_Host : string; url_Path : string; url_RawQuery : string }.
Definition backLink (referer : option RefURL) (host : string) : string :=
  match referer with
  | Some ref =>
      if (url_Host ref !=? host) || negb (has_prefix (url_Path ref) "/") then "/"
      else if url_RawQuery ref !=? "" then url_Path ref +:+ "?" +:+ url_RawQuery ref else url_Path ref
  | None => "/"
  end.

Definition macKey (mac : string) : string :=
  string_of_list_ascii (delete_func (λ a, a ∈? [":"; "-"; "."]%char) (list_ascii_of_string (to_lower (trim_space mac)))).

Definition scopeLabel (scope : string) : string :=
  match cut_prefix scope "group:" with
  | Some g => "group " +:+ g
  | None => match cut_prefix scope "device:" with Some d => "device " +:+ d | None => "the organisation" end
  end.

(** A comma-separated field: trimmed, the empty ones dropped. *)
Definition comma_list (s : string) : list string := keep_if (λ k, k !=? "") (map trim_space (split_on "," s)).

(** The names of an app list: commas and line ends both separate. *)
Definition app_names (s : string) : list string :=
  keep_if (λ n, n !=? "")
    (map trim_space (WavePlans.FieldsFunc (λ a, a ∈? [","; "010"; "013"]%char) s)).

(** ** Which page owns a key (policy_only.go, integrations.go, settings.go) *)

Definition policyOnlyKeys : list string := ["usbDevices."; "secureboot."; "diskEncryption"].
Definition isPolicyOnly (key : string) : bool := existsb (λ p, (key ==? p) || has_prefix key p) policyOnlyKeys.

Record integration := mkIntegrationCard { ig_Key : string; ig_Name : string; ig_Prefix : string }.
Definition knownIntegrations : list integration := [
  mkIntegrationCard "netbird" "NetBird VPN" "netbird.";
  mkIntegrationCard "identity" "Directory login (LDAP)" "identity.";
  mkIntegrationCard "wazuh" "Wazuh SIEM" "wazuh.";
  mkIntegrationCard "openbao" "OpenBao vault" "openbao.";
  mkIntegrationCard "osquery" "Fleet inventory (osquery)" "osquery.";
  mkIntegrationCard "localAdmin" "Local admin account" "localAdmin."].
Definition isIntegrationSetting (key : string) : bool := existsb (λ ig, has_prefix key (ig_Prefix ig)) knownIntegrations.

Definition imageTimePrefixes : list string := ["secureboot."; "diskUnlock."].
Definition imageTimeKey (key : string) : bool := existsb (has_prefix key) imageTimePrefixes.

Definition riskClassHigh : string := "high".
Definition risky (cat : SettingsCatalog) (c : SettingChange) : bool :=
  negb (imageTimeKey (sg_Key c)) &&
  (match Lookup cat (sg_Key c) with Some e => RiskClass e ==? riskClassHigh | None => false end
   || (isIntegrationSetting (sg_Key c) && has_suffix (sg_Key c) ".enable")).
Definition riskMarkerFor (cat : SettingsCatalog) (changes : list SettingChange) : string :=
  if existsb (risky cat) changes then " " +:+ Engine.RiskHighMarker else "".

(** ** Values as text (settings.go) *)

Section forms.
  Context `{GoJson}.

(** Scalars as [encoding/json] writes them - an [int] in full, whatever its size;
    the rest, the [float64] of a decoded document with its exponent form among it,
    is the library's. *)
Definition renderValue (v : Value) : string :=
    match v with
    | VString s => s
    | VBool b => fmt_t b
    | VInt z => pretty z
    | VNull => "null"
    | _ => match json_value v with Ok b => b | Err _ => fmt_v v end
    end.

Definition valueLines (v : Value) : string :=
    match v with
    | VList items => join (map (λ it, match it with VString s => s | _ => fmt_v it end) items) nl
    | _ => ""
    end.

Definition splitRange (v : string) : string * string :=
    match cut_at "-" v with Some (f, t) => (trim_space f, trim_space t) | None => ("", "") end.

(** One slot per declared default, one spare, and at least four. *)
Definition pad_slots (slots : list string) : list string := slots ++ replicate (4 - length slots) "".
Definition listSlots (e : CatalogEntry) (lines : string) : list string * list string :=
    let declared := match ce_Default e with
                    | Some (VList d) => omap (λ v, match v with VString s => Some s | _ => None end) d
                    | _ => []
                    end in
    let slots := pad_slots (declared ++ [""]) in
    let items := if lines !=? "" then split_on line_feed lines else [] in
    (slots, take (length slots) (items ++ replicate (length slots) "")).

Definition combineSubmitted (e : CatalogEntry) (vals : list string) : string :=
    let trimmed := map trim_space vals in
    match widget e with
    | WidgetTimeRange =>
        match trimmed with
        | a :: b :: _ => if (a ==? "") || (b ==? "") then "" else a +:+ "-" +:+ b
        | _ => ""
        end
    | WidgetFixedList => join (keep_if (λ v, v !=? "") trimmed) nl
    | _ => firstOf trimmed
    end.

Definition effectiveBool (cat : SettingsCatalog) (own : Settings) (resolved : gmap string Resolution) (key : string) : bool :=
    let truth v := match v with VBool b => b | _ => false end in
    match own !! key with
    | Some v => truth v
    | None =>
        match resolved !! key with
        | Some res => truth (res_Value res)
        | None => match Lookup cat key with
                  | Some e => match ce_Default e with Some v => truth v | None => false end
                  | None => false
                  end
        end
    end.

(** ** The diff of a settings form (postSetting) *)

Inductive FormErr :=
  | PolicyOnlyKey (key : string)
  | FormScope (e : FleetErr)
  | NoEquals (line : nat)
  | LineValue (line : nat) (e : CatalogErr)
  | NoSettings.

(** What one row of the catalog contributes; a row that is not on the form
    contributes nothing. *)
Definition row_change (own : Settings) (locked : list string) (fm : Form) (e : CatalogEntry)
      : res FormErr (option SettingChange) :=
    let name := ce_Name e in
    match PostForm fm !! ("v:" +:+ name) with
    | None => Ok None
    | Some vals =>
        let submitted := combineSubmitted e vals in
        let enf := FormValue fm ("e:" +:+ name) !=? "" in
        let cur := renderValue <$> own !! name in
        let first := trim_space (firstOf vals) in
        refuse isPolicyOnly name && (first !=? "") && (cur !=? Some first) with PolicyOnlyKey name;
        Ok (match cur with
            | Some text =>
                if submitted ==? "" then Some (mkChange name "" false true)
                else if (submitted !=? text) || (enf !=? (name ∈? locked)) then Some (mkChange name submitted enf false)
                else None
            | None => if submitted ==? "" then None else Some (mkChange name submitted enf false)
            end)
    end.

Fixpoint row_changes (own : Settings) (locked : list string) (fm : Form) (l : list CatalogEntry)
      : res FormErr (list SettingChange) :=
    match l with
    | [] => Ok []
    | e :: l =>
        let! c := row_change own locked fm e in
        let! cs := row_changes own locked fm l in
        Ok (match c with Some c => c :: cs | None => cs end)
    end.

Definition submitted_changes (f : Fleet) (cat : SettingsCatalog) (scope : string) (fm : Form)
      : res FormErr (list SettingChange) :=
    let! se := lift_err FormScope (ScopeSettings f scope) in
    row_changes se.1 se.2 fm (Entries cat).

(** What a bundle writes at a scope: its settings the catalog knows, an exposed
    one as the operator submitted it. The map is walked in some order. *)
Definition bundle_change (cat : SettingsCatalog) (b : Bundle) (fm : Form) (kv : string * Value) : option SettingChange :=
    let '(key, val) := kv in
    match Lookup cat key with
    | None => None
    | Some _ =>
        let raw := if IsExposed b key then match FormValues fm ("v:" +:+ key) with s :: _ => s | [] => renderValue val end
                   else renderValue val in
        Some (mkChange key raw false false)
    end.
Definition bundle_changes (cat : SettingsCatalog) (b : Bundle) (fm : Form) : list SettingChange :=
    omap (bundle_change cat b fm) (map_to_list (bu_Settings b)).

(** ** The policy editor (policy_ops.go) *)

(** [json.Unmarshal] into an [any]. *)
Context (json_any : string → option Value).

Definition policy_value (cat : SettingsCatalog) (i : nat) (key val : string) : res FormErr Value :=
    match Lookup cat key with
    | Some entry => lift_err (LineValue i) (ParseValue entry val)
    | None => Ok (match json_any val with Some v => v | None => VString val end)
    end.

Fixpoint policy_lines (cat : SettingsCatalog) (i : nat) (out : Settings) (lines : list string) : res FormErr Settings :=
    match lines with
    | [] => Ok out
    | raw :: lines =>
        let line := trim_space raw in
        if (line ==? "") || has_prefix line "#" then policy_lines cat (S i) out lines else
        match cut_at "=" line with
        | None => Err (NoEquals (S i))
        | Some (key, val) =>
            let key := trim_space key in
            let! typed := policy_value cat (S i) key (trim_space val) in
            policy_lines cat (S i) (<[key := typed]> out) lines
        end
    end.

Definition parsePolicySettings (cat : SettingsCatalog) (text : string) : res FormErr Settings :=
    let! out := policy_lines cat 0 ∅ (split_on line_feed text) in
    refuse out ==? ∅ with NoSettings; Ok out.

(** The policy of [postPolicyPut]: the label and the profile of the policy it
    replaces stay. *)
Definition submitted_policy (f : Fleet) (cat : SettingsCatalog) (id : string) (fm : Form) : res FormErr Policy :=
    let! settings := parsePolicySettings cat (FormValue fm "settings") in
    let prev := Policies f !! id in
    Ok (mkPolicy (match prev with Some p => p_Name p | None => "" end) (trimmed fm "description") settings
          (comma_list (FormValue fm "enforced")) (match prev with Some p => p_Profile p | None => "" end)
          (comma_list (FormValue fm "controls")) []).
End forms.

(** ** Filters, devices, assurance *)

(** A row of the filter editor; the editor has three. *)
Definition filter_rule (fm : Form) (i : nat) : option FilterRule :=
  let attr := trimmed fm ("attr" +:+ pretty i) in
  let op := FormValue fm ("op" +:+ pretty i) in
  let val := trimmed fm ("value" +:+ pretty i) in
  if attr ==? "" then None
  else if op ==? "in" then Some (Build_FilterRule attr op "" (comma_list val))
  else Some (Build_FilterRule attr op val []).
Definition submitted_filter (fm : Form) : Filter :=
  Build_Filter "" (FormValue fm "match") (omap (filter_rule fm) [0; 1; 2]%nat).

Definition submitted_assurance (fm : Form) : Assurance := {|
  RequireFourEyes := FormValue fm "requireFourEyes" !=? "";
  RequireChangeRequest := FormValue fm "requireChangeRequest" !=? "";
  RequireTestWave := FormValue fm "requireTestWave" !=? "";
  ManualRolloutOnly := FormValue fm "manualRolloutOnly" !=? "" |}.

Definition weakenedProtections (cur : option Assurance) (next : Assurance) : list string :=
  match cur with
  | None => []
  | Some cur =>
      (if RequireFourEyes cur && negb (RequireFourEyes next) then ["fourEyes"] else []) ++
      (if RequireChangeRequest cur && negb (RequireChangeRequest next) then ["changeRequest"] else []) ++
      (if RequireTestWave cur && negb (RequireTestWave next) then ["testWave"] else [])
  end.

(** The rows of the wave editor: a row is there while its group is posted. *)
Fixpoint posted_rows (fuel i : nat) (fm : Form) : list WavePlans.PlanRow :=
  match fuel with
  | O => []
  | S fuel =>
      match FormValues fm ("group" +:+ pretty i) with
      | [] => []
      | _ =>
          let value what := FormValue fm (what +:+ pretty i) in
          WavePlans.mkRow (value "group") (value "name") (value "soak") (value "healthy") (value "approval" !=? "")
            (value "minDevices") (value "maxDevices") :: posted_rows fuel (S i) fm
      end
  end.
(** Every row has a field of its own, so the number of fields bounds the rows. *)
Definition plan_rows (fm : Form) : list WavePlans.PlanRow :=
  posted_rows (S (size (PostForm fm) + size (Query fm))) 0 fm.

(** [slugRE], of the names of machines. *)
Definition slugRE (s : string) : bool :=
  match s with
  | String a r => lower_digit a && string_forall (λ a, lower_digit a || Ascii.eqb a "-") r
  | EmptyString => false
  end.

(** ** Identifiers and paths *)

Definition change_id (base : string) (n : nat) : string := base +:+ "-" +:+ pretty n.

(** The loop of [nextChangeID], which has no bound of its own. *)
Fixpoint first_free (fuel n : nat) (base : string) (existing : list string) : option string :=
  match fuel with
  | O => None
  | S fuel => let id := change_id base n in
              if id ∈? existing then first_free fuel (S n) base existing else Some id
  end.
Definition nextChangeID (scope : string) (list : list string) : option string :=
  first_free (S (length list)) (S (length list)) (slugify ("cfg-" +:+ scope)) list.

(** [url.QueryEscape] of a byte: letters, digits and [-_.~] stand, a space is a
    plus, the rest is percent and two upper-case hexadecimal digits. *)
Definition hex_upper (n : N) : ascii :=
  if (n <? 10)%N then ascii_of_N (48 + n) else ascii_of_N (55 + n).
Definition escape_byte (a : ascii) : string :=
  if is_upper a || lower_digit a || (a ∈? ["-"; "_"; "."; "~"]%char) then String a ""
  else if Ascii.eqb a " " then "+"
  else String "%" (String (hex_upper (N_of_ascii a / 16)) (String (hex_upper (N_of_ascii a mod 16)) "")).
Fixpoint QueryEscape (s : string) : string :=
  match s with EmptyString => "" | String a s => escape_byte a +:+ QueryEscape s end.

(** [url.PathEscape], which leaves a few more bytes. *)
Definition path_byte (a : ascii) : string :=
  if a ∈? ["$"; "&"; "+"; "="; ":"; "@"]%char then String a ""
  else if Ascii.eqb a " " then "%20" else escape_byte a.
Fixpoint PathEscape (s : string) : string :=
  match s with EmptyString => "" | String a s => path_byte a +:+ PathEscape s end.

Definition updatesURL (detached : bool) (id : string) : string :=
  if detached then "/updates?pending=" +:+ QueryEscape id else "/updates".

Definition settings_page (scope : string) : string := "/settings?scope=" +:+ QueryEscape scope.

(** Where a save lands: the page it was made on, marked while its validation
    runs on. *)
Definition save_landing (fm : Form) (scope : string) (detached : bool) : string :=
  let back := FormValue fm "back" in
  if local_back back then
    if detached then back +:+ (if contains back "?" then "&" else "?") +:+ "pending=1" else back
  else settings_page scope.

(** A short wait as a clock shows it, never negative. *)
Definition humanSeconds (d : Z) : string :=
  let d := if d <? 0 then 0 else d in
  if d <? Minute then pretty (d /t Second) +:+ "s"
  else pretty (d /t Minute) +:+ "m " +:+ pretty ((d /t Second) - 60 * ((d /t Second) /t 60)) +:+ "s".

(** ** The settings page as the browser submits it

    The controls of the settings page (settings.go with templates/settings.html):
    for each control the fields it posts when nobody touched it.  A secret has no
    control without registered references, a toggle of the organisation has no
    Inherit, a text input cannot hold a line break, and the browser selects the
    first option when no other is. *)

Definition no_breaks (s : string) : string :=
  string_of_list_ascii (delete_func (λ a, a ∈? ["010"; "013"]%char) (list_ascii_of_string s)).

Section page.
  Context `{GoJson}.

Definition shown_fields (org : bool) (refs : list string) (e : CatalogEntry) (cur : option Value) : option (list string) :=
    let text := match cur with Some v => renderValue v | None => "" end in
    match widget e with
    | WidgetToggle =>
        if org then Some [if text ==? "true" then "true" else ""]
        else match cur with
             | None => Some [""]
             | Some _ => if text ∈? ["true"; "false"] then Some [text] else None
             end
    | WidgetSelect => Some [if text ∈? Options e then text else ""]
    | WidgetSecret => match refs with [] => None | _ => Some [if text ∈? refs then text else ""] end
    | WidgetTimeRange => let '(a, b) := splitRange text in Some [a; b]
    | WidgetFixedList => Some (listSlots e (match cur with Some v => valueLines v | None => "" end)).2
    | WidgetCode => Some [match cur with Some v => valueLines v | None => "" end]
    | WidgetNumber | WidgetText => Some [no_breaks text]
    end.

(** The fields of the untouched page: a row that is hidden or greyed out posts
    nothing, and the lock of every row is what it was. *)
Definition page_submits (org : bool) (refs : list string) (own : Settings) (locked : list string) (cat : SettingsCatalog)
      (fm : Form) : Prop :=
    ∀ e, e ∈ Entries cat →
      (PostForm fm !! ("v:" +:+ ce_Name e) = None ∨
       PostForm fm !! ("v:" +:+ ce_Name e) = shown_fields org refs e (own !! ce_Name e)) ∧
      (FormValue fm ("e:" +:+ ce_Name e) !=? "") = (ce_Name e ∈? locked).

(** The values a control gives back as they are: no lists, no explicit Off of
    the organisation, a registered reference, a text without surrounding space. *)
Definition gives_back (org : bool) (refs : list string) (e : CatalogEntry) (v : Value) : Prop :=
    holds e v ∧ widget e ≠ WidgetCode ∧ widget e ≠ WidgetFixedList ∧
    (org = true → v ≠ VBool false) ∧
    (widget e = WidgetTimeRange → isPolicyOnly (ce_Name e) = false) ∧
    (∀ s, v = VString s → s ≠ "" ∧ trim_space s = s ∧ no_breaks s = s ∧ (widget e = WidgetSecret → s ∈ refs)).
End page.

(** ** An untouched page *)

Lemma clock_digits a b c d : clock a b c d = true → Forall (λ x, is_digit x = true) [a; b; c; d].
Proof.
  unfold clock. rewrite !andb_true_iff, orb_true_iff, !andb_true_iff. intros [[H Hc] Hd].
  assert (is_digit c = true).
  { revert c Hc. intros c. apply (implb_bytes (in_range "0" "5") is_digit). by vm_compute. }
  repeat constructor; try done.
  - destruct H as [[Ha _]|[Ha _]].
    + apply bool_decide_eq_true_1 in Ha. apply elem_of_cons in Ha as [->|Ha%list_elem_of_singleton]; [done|by subst].
    + by apply Ascii.eqb_eq in Ha as ->.
  - destruct H as [[_ Hb]|[_ Hb]]; [done|]. revert b Hb. intros b. apply (implb_bytes (in_range "0" "3") is_digit). by vm_compute.
Qed.

Lemma digit_graphic a : is_digit a = true → graphic a = true.
Proof. apply (implb_bytes is_digit graphic). by vm_compute. Qed.

Lemma digit_not_dash a : is_digit a = true → Ascii.eqb a "-" = false.
Proof.
  intros Ha. pose proof (implb_bytes is_digit (λ a, negb (Ascii.eqb a "-"))) as Hi. cbv beta in Hi.
  apply negb_true_iff, Hi; [by vm_compute|done].
Qed.

Lemma range_back e s : widget e = WidgetTimeRange → timeRangeRE s = true →
  (let '(a, b) := splitRange s in combineSubmitted e [a; b]) = s.
Proof.
  intros Hw Hs. unfold timeRangeRE in Hs.
  assert (He : s = string_of_list_ascii (list_ascii_of_string s)) by (symmetry; apply string_of_list_ascii_of_string).
  destruct (list_ascii_of_string s) as [|a [|b [|c1 [|c [|d [|dash [|a' [|b' [|c2 [|c' [|d' [|? ?]]]]]]]]]]]]; try done.
  apply andb_true_iff in Hs as [Hs ->%Ascii.eqb_eq]. apply andb_true_iff in Hs as [Hs ->%Ascii.eqb_eq].
  apply andb_true_iff in Hs as [Hs ->%Ascii.eqb_eq]. apply andb_true_iff in Hs as [H1%clock_digits H2%clock_digits].
  subst s. inversion_clear H1 as [|? ? Ha Hr]. inversion_clear Hr as [|? ? Hb Hr']. inversion_clear Hr' as [|? ? Hc Hr].
  inversion_clear Hr as [|? ? Hd _]. inversion_clear H2 as [|? ? Ha' Hr]. inversion_clear Hr as [|? ? Hb' Hr'].
  inversion_clear Hr' as [|? ? Hc' Hr]. inversion_clear Hr as [|? ? Hd' _].
  unfold splitRange. cbn [string_of_list_ascii cut_at]. rewrite (digit_not_dash a Ha), (digit_not_dash b Hb), (digit_not_dash c Hc), (digit_not_dash d Hd). cbn [Ascii.eqb Bool.eqb].
  assert (Ht : ∀ x y z w, is_digit x = true → is_digit y = true → is_digit z = true → is_digit w = true →
    trim_space (String x (String y (String ":" (String z (String w ""))))) = String x (String y (String ":" (String z (String w ""))))).
  { intros x y z w Hx Hy Hz Hw'. apply trim_space_graphic. cbn [string_forall].
    by rewrite (digit_graphic x Hx), (digit_graphic y Hy), (digit_graphic z Hz), (digit_graphic w Hw'). }
  cbn [mbind option_bind]. rewrite !Ht by done. unfold combineSubmitted. rewrite Hw. cbn [map]. by rewrite !Ht by done.
Qed.

Lemma pretty_Z_text (n : Z) : trim_space (pretty n) = pretty n ∧ pretty n ≠ "" ∧ no_breaks (pretty n) = pretty n.
Proof.
  assert (Hd : ∀ p : positive, string_forall is_digit (pretty (N.pos p)) = true ∧ pretty (N.pos p) ≠ "").
  { intros p. destruct (pretty_N_digits (N.pos p)) as (? & _ & ?). done. }
  assert (Hok : ∀ s, string_forall (λ a, is_digit a || Ascii.eqb a "-") s = true → trim_space s = s ∧ no_breaks s = s).
  { intros s Hs. split.
    - apply trim_space_graphic. eapply string_forall_impl; [|exact Hs].
      intros a. apply (implb_bytes (λ a, is_digit a || Ascii.eqb a "-") graphic). by vm_compute.
    - unfold no_breaks. rewrite delete_func_all; [apply string_of_list_ascii_of_string|].
      apply string_forall_list in Hs. intros a Ha. apply (proj1 (Forall_forall _ _) Hs) in Ha. apply negb_true_iff.
      pose proof (implb_bytes (λ a, is_digit a || Ascii.eqb a "-") (λ a, negb (a ∈? ["010"; "013"]%char))
        ltac:(by vm_compute) a Ha) as Hq. exact Hq. }
  assert (Hdd : ∀ s, string_forall is_digit s = true → string_forall (λ a, is_digit a || Ascii.eqb a "-") s = true).
  { intros s. apply string_forall_impl. intros a ->. done. }
  destruct n as [|p|p].
  - by vm_compute.
  - change (pretty (Z.pos p)) with (pretty (N.pos p)). destruct (Hd p) as [H1 H2]. destruct (Hok _ (Hdd _ H1)). done.
  - change (pretty (Z.neg p)) with (String "-" (pretty (N.pos p))). destruct (Hd p) as [H1 _].
    destruct (Hok (String "-" (pretty (N.pos p)))) as [H3 H4]; [simpl; by rewrite Hdd|]. done.
Qed.

(** The row of a value that its control gives back is no change. *)
Lemma row_settled `{GoJson} org refs own locked fm e :
  (∀ v, own !! ce_Name e = Some v → gives_back org refs e v) →
  (PostForm fm !! ("v:" +:+ ce_Name e) = None ∨
   PostForm fm !! ("v:" +:+ ce_Name e) = shown_fields org refs e (own !! ce_Name e)) →
  (FormValue fm ("e:" +:+ ce_Name e) !=? "") = (ce_Name e ∈? locked) →
  row_change own locked fm e = Ok None.
Proof.
  intros Hv Hf He. unfold row_change. cbv zeta. rewrite He. destruct Hf as [->| ->]; [done|].
  assert (Hsame : ∀ x, own !! ce_Name e = Some x → ∀ fields, shown_fields org refs e (Some x) = Some fields →
    combineSubmitted e fields = renderValue x ∧ renderValue x ≠ "" ∧
    (isPolicyOnly (ce_Name e) = false ∨ trim_space (firstOf fields) = renderValue x)).
  { intros x Hx fields. destruct (Hv x Hx) as (Hh & Hc & Hfl & Ho & Hp & Ht). unfold shown_fields, combineSubmitted.
    destruct Hh as [s Hw Hs|b Hw|n Hw Hn Hpos Huns|s Hw Hs|s Hw Hs|l Hw Hne Hl|s Hw]; try rewrite Hw; cbn [renderValue].
    - destruct (Ht s eq_refl) as (Hne & Hts & _ & Hr). destruct refs as [|r0 refs]; [done|].
      rewrite bool_decide_eq_true_2 by auto. intros [= <-]. cbn [map firstOf head]. by rewrite Hts; auto.
    - destruct org, b; [|by destruct (Ho eq_refl)| |]; cbn; intros [= <-]; (split; [done|]); (split; [done|]); by right.
    - intros [= <-]. destruct (pretty_Z_text n) as (H1 & H2 & H3). rewrite H3. cbn [map firstOf head].
      rewrite H1. auto.
    - rewrite bool_decide_eq_true_2 by done. destruct (Ht s eq_refl) as (Hne & Hts & _ & _). intros [= <-].
      cbn [map firstOf head]. rewrite Hts. auto.
    - pose proof (range_back e s Hw Hs) as Hb. destruct (splitRange s) as [a b]. intros [= <-].
      unfold combineSubmitted in Hb. rewrite Hw in Hb. destruct (Ht s eq_refl) as (Hne & _). auto.
    - destruct Hw as [Hw|Hw]; congruence.
    - destruct (Ht s eq_refl) as (Hne & Hts & Hb & _). intros [= <-]. rewrite Hb. cbn [map firstOf head]. rewrite Hts. auto. }
  destruct (own !! ce_Name e) as [x|] eqn:Hx.
  - destruct (shown_fields org refs e (Some x)) as [fields|] eqn:Hs; [|done]. cbn [fmap option_fmap].
    destruct (Hsame x eq_refl fields Hs) as (Hc & Hne & Hp). rewrite Hc.
    unfold option_map. rewrite (bool_decide_eq_false_2 (renderValue x = "") Hne), (bool_decide_eq_true_2 (renderValue x = renderValue x) eq_refl).
    rewrite (bool_decide_eq_true_2 ((ce_Name e ∈? locked) = _) eq_refl).
    destruct Hp as [-> | ->]; [done|]. rewrite (bool_decide_eq_true_2 (Some (renderValue x) = _) eq_refl). by rewrite !andb_false_r.
  - assert (Hempty : ∀ fields, shown_fields org refs e None = Some fields →
      combineSubmitted e fields = "" ∧ trim_space (firstOf fields) = "").
    { intros fields. unfold shown_fields, combineSubmitted. destruct (widget e); cbn [valueLines].
      - destruct org; intros [= <-]; by vm_compute.
      - intros [= <-]; by vm_compute.
      - intros [= <-]. by destruct ("" ∈? Options e).
      - intros [= <-]; by vm_compute.
      - destruct refs as [|r0 l]; [done|]. intros [= <-]. by destruct ("" ∈? r0 :: l).
      - intros [= <-]; by vm_compute.
      - intros [= <-]; by vm_compute.
      - intros [= <-]. unfold listSlots. cbv zeta. cbn [snd].
        change ("" !=? "") with false. cbn [app].
        set (n := length _). rewrite firstn_all2 by (rewrite length_replicate; lia).
        split; [|by destruct n]. induction n as [|n IH]; [done|]. exact IH. }
    destruct (shown_fields org refs e None) as [fields|] eqn:Hs; [|done]. cbn [fmap option_fmap].
    destruct (Hempty fields eq_refl) as [Hc Hf]. unfold option_map. rewrite Hc, Hf, (bool_decide_eq_true_2 ("" = "") eq_refl). by rewrite andb_false_r.
Qed.

(** Saving a settings page nobody touched writes nothing, when every value
    of the scope is one its control gives back. *)
Theorem unchanged_save_is_noop `{GoJson} f cat scope fm own locked org refs :
  ScopeSettings f scope = Ok (own, locked) → page_submits org refs own locked cat fm →
  (∀ e v, e ∈ Entries cat → own !! ce_Name e = Some v → gives_back org refs e v) →
  submitted_changes f cat scope fm = Ok [].
Proof.
  intros Hs Hp Hv. unfold submitted_changes. rewrite Hs. cbn [lift_err res_bind fst snd].
  assert (Hall : ∀ l, (∀ e, e ∈ l → e ∈ Entries cat) → row_changes own locked fm l = Ok []).
  { induction l as [|e l IH]; intros Hl; [done|]. cbn [row_changes].
    destruct (Hp e) as [Hf He]; [apply Hl; by left|].
    rewrite (row_settled org refs own locked fm e) by (try done; intros v; apply Hv, Hl; by left). cbn [res_bind].
    rewrite IH; [done|]. intros x Hx. apply Hl. by right. }
  by apply Hall.
Qed.

(** ** What a saved form leaves behind *)

Lemma row_changes_keys `{GoJson} own locked fm l changes : row_changes own locked fm l = Ok changes →
  sublist (sg_Key <$> changes) (ce_Name <$> l) ∧
  ∀ e, e ∈ l → ∃ o, row_change own locked fm e = Ok o ∧ (∀ c, o = Some c → c ∈ changes ∧ sg_Key c = ce_Name e).
Proof.
  revert changes. induction l as [|e l IH]; intros changes.
  { intros [= <-]. split; [done|]. by intros e ?%elem_of_nil. }
  cbn [row_changes]. intros (o & Ho & (cs & Hcs & [= <-])%res_bind_Ok)%res_bind_Ok. destruct (IH cs Hcs) as [Hs Hl].
  assert (Hk : ∀ c, o = Some c → sg_Key c = ce_Name e).
  { intros c ->. unfold row_change in Ho. cbv zeta in Ho. destruct (PostForm fm !! _); [|done].
    destruct (_ && _) in Ho; [done|]. destruct (renderValue <$> own !! ce_Name e); repeat (destruct (bool_decide _) || destruct (_ || _));
      by simplify_eq/=. }
  split.
  - destruct o as [c|]; [|by apply sublist_cons]. rewrite !fmap_cons, (Hk c eq_refl). by apply sublist_skip.
  - intros e' [->|He']%elem_of_cons.
    + exists o. split; [done|]. intros c ->. split; [left|by apply Hk].
    + destruct (Hl e' He') as (o' & Ho' & Hin). exists o'. split; [done|]. intros c Hc. destruct (Hin c Hc).
      split; [destruct o; [by right|done]|done].
Qed.

(** What one change leaves at its key. *)
Definition left_by (cat : SettingsCatalog) (f0 : Fleet) (c : SettingChange) (s : Scope) : Prop :=
  if sg_Clear c then sc_Settings s !! sg_Key c = None ∧ sg_Key c ∉ sc_Enforced s
  else ∃ e v, Lookup cat (sg_Key c) = Some e ∧ typed_value f0 e (trim_space (RawValue c)) = Ok v ∧
       sc_Settings s !! sg_Key c = Some v ∧ (sg_Key c ∈ sc_Enforced s ↔ sg_Enforce c = true).

Lemma change_leaves cat f0 scope c m f f' : change_mutation cat f0 scope c = Ok m → m f = Ok f' →
  ∃ s s', scope_at f scope = Some s ∧ scope_at f' scope = Some s' ∧ left_by cat f0 c s' ∧
    ∀ k, k ≠ sg_Key c → sc_Settings s' !! k = sc_Settings s !! k ∧ (k ∈ sc_Enforced s' ↔ k ∈ sc_Enforced s).
Proof.
  unfold change_mutation, left_by. intros Hc Hf. destruct (sg_Clear c).
  - injection Hc as <-. apply with_scope_Ok in Hf as (s & s' & Hs & [= <-] & Hs' & _). exists s. eexists.
    split; [done|]. split; [exact Hs'|]. simpl. split.
    + split; [apply lookup_delete_eq|]. by rewrite elem_of_delete_func, bool_decide_eq_false; intros [].
    + intros k Hk. rewrite lookup_delete_ne by done. rewrite elem_of_delete_func, bool_decide_eq_false. naive_solver.
  - destruct (Lookup cat (sg_Key c)) as [e|]; [|done]. apply res_bind_Ok in Hc as (v & Hv & [= <-]).
    apply set_mutation_Ok in Hf as (s & s' & Hs & Hs' & _ & Hset & Henf). exists s, s'. split; [done|]. split; [done|]. split.
    + exists e, v. rewrite Hset, lookup_insert_eq, Henf. naive_solver.
    + intros k Hk. rewrite Hset, lookup_insert_ne, Henf by done. naive_solver.
Qed.

Lemma batch_leaves cat f0 scope changes muts f f' s : change_mutations cat f0 scope changes = Ok muts → combined muts f = Ok f' →
  NoDup (sg_Key <$> changes) → scope_at f scope = Some s →
  ∃ s', scope_at f' scope = Some s' ∧ (∀ c, c ∈ changes → left_by cat f0 c s') ∧
    ∀ k, k ∉ sg_Key <$> changes → sc_Settings s' !! k = sc_Settings s !! k ∧ (k ∈ sc_Enforced s' ↔ k ∈ sc_Enforced s).
Proof.
  revert muts f s. induction changes as [|c l IH]; intros muts f s Hm Hf Hn Hs.
  { injection Hm as <-. injection Hf as <-. exists s. split; [done|]. split; [by intros c ?%elem_of_nil|done]. }
  cbn [change_mutations] in Hm. apply res_bind_Ok in Hm as (m & Hc & Hm). apply res_bind_Ok in Hm as (ms & Hms & [= <-]).
  unfold combined in Hf. cbn [fold_res] in Hf. apply res_bind_Ok in Hf as (f1 & H1 & H2).
  rewrite fmap_cons in Hn. apply NoDup_cons in Hn as [Hnew Hn].
  destruct (change_leaves _ _ _ _ _ _ _ Hc H1) as (s0 & s1 & Hs0 & Hs1 & Hleft & Hrest).
  rewrite Hs in Hs0. injection Hs0 as <-. destruct (IH ms f1 s1 Hms H2 Hn Hs1) as (s2 & Hs2 & Hall & Hrest2).
  exists s2. split; [done|]. split.
  - intros c' [->|Hc']%elem_of_cons; [|by apply Hall]. destruct (Hrest2 _ Hnew) as [Hv Hl]. unfold left_by in *.
    destruct (sg_Clear c); [by rewrite Hv, Hl|]. destruct Hleft as (e & v & Hleft). exists e, v. by rewrite Hv, Hl.
  - intros k. rewrite fmap_cons. intros [Hk Hkl]%not_elem_of_cons. destruct (Hrest2 k Hkl) as [-> ->]. by apply Hrest.
Qed.

(** C28: a save of the settings form leaves the scope as the form says and the
    rest as it was: a key whose row was submitted empty has no value and no new
    one, a key with a text has the value and the lock of its row - or kept them,
    when they already were what the row says -, keys that were not on the form
    keep both, and nothing outside the scope changes. *)
Theorem saved_form_holds `{GoJson} f cat scope fm changes mut msg hosts f' :
  NoDup (ce_Name <$> Entries cat) → (∀ e, e ∈ Entries cat → Lookup cat (ce_Name e) = Some e) →
  submitted_changes f cat scope fm = Ok changes → SettingsMutation cat f scope changes = Ok (mut, msg, hosts) →
  mut f = Ok f' →
  ∃ s s', scope_at f scope = Some s ∧ scope_at f' scope = Some s' ∧ scope_frame scope f f' ∧
    (∀ e vals, e ∈ Entries cat → PostForm fm !! ("v:" +:+ ce_Name e) = Some vals →
      let text := combineSubmitted e vals in
      let lock := FormValue fm ("e:" +:+ ce_Name e) !=? "" in
      if text ==? "" then sc_Settings s' !! ce_Name e = None
      else (∃ v, sc_Settings s !! ce_Name e = Some v ∧ sc_Settings s' !! ce_Name e = Some v ∧ renderValue v = text ∧
              (ce_Name e ∈ sc_Enforced s' ↔ lock = true)) ∨
           (∃ v, typed_value f e (trim_space text) = Ok v ∧ sc_Settings s' !! ce_Name e = Some v ∧
              (ce_Name e ∈ sc_Enforced s' ↔ lock = true))) ∧
    (∀ key, (∀ e, e ∈ Entries cat → ce_Name e = key → PostForm fm !! ("v:" +:+ key) = None) →
      sc_Settings s' !! key = sc_Settings s !! key ∧ (key ∈ sc_Enforced s' ↔ key ∈ sc_Enforced s)).
Proof.
  unfold submitted_changes, SettingsMutation. intros Hn Hl ([own locked] & Hown & Hrows)%res_bind_Ok Hm Hf.
  apply res_bind_Ok in Hm as (muts & Hmuts & [= <- _ _]).
  assert (Hs : ∃ s, scope_at f scope = Some s ∧ own = sc_Settings s ∧ locked = sc_Enforced s).
  { unfold ScopeSettings, scope_at in *. destruct (scope_of scope) as [|g|t|]; [| | |done].
    - injection Hown as <- <-. eauto.
    - destruct (f_Groups f !! g); [|done]. injection Hown as <- <-. simpl. eauto.
    - destruct (Devices f !! t); [|done]. injection Hown as <- <-. simpl. eauto. }
  destruct Hs as (s & Hs & -> & ->). cbn [fst snd] in Hrows. destruct (row_changes_keys _ _ _ _ _ Hrows) as [Hsub Hrow].
  destruct (batch_leaves _ _ _ _ _ _ _ s Hmuts Hf) as (s' & Hs' & Hall & Hrest); [by eapply sublist_NoDup|done|].
  exists s, s'. split; [done|]. split; [done|]. split; [by apply (batch_frame _ _ _ _ _ _ _ Hmuts Hf)|].
  assert (Hkey : ∀ e, e ∈ Entries cat → row_change (sc_Settings s) (sc_Enforced s) fm e = Ok None →
            sc_Settings s' !! ce_Name e = sc_Settings s !! ce_Name e ∧ (ce_Name e ∈ sc_Enforced s' ↔ ce_Name e ∈ sc_Enforced s)).
  { intros e He Ho. apply Hrest. intros (c & Hk & Hc)%list_elem_of_fmap.
    assert (Hx : ∃ e', e' ∈ Entries cat ∧ ce_Name e' = sg_Key c ∧ row_change (sc_Settings s) (sc_Enforced s) fm e' = Ok (Some c)).
    { clear -Hrows Hc. revert changes Hrows Hc. induction (Entries cat) as [|x l IH]; intros changes; cbn [row_changes].
      { intros [= <-]. by intros ?%elem_of_nil. }
      intros (o & Ho & (cs & Hcs & [= <-])%res_bind_Ok)%res_bind_Ok Hc.
      assert (Hd : o = Some c ∨ c ∈ cs). { destruct o as [c0|]; [|by right]. apply elem_of_cons in Hc as [->|]; auto. }
      destruct Hd as [->|Hd].
      - destruct (row_changes_keys (sc_Settings s) (sc_Enforced s) fm [x] [c]) as [_ Hk]; [cbn [row_changes]; by rewrite Ho|].
        destruct (Hk x) as (o & Ho' & Hk'); [by left|]. rewrite Ho in Ho'. injection Ho' as <-.
        exists x. split; [by left|]. split; [symmetry; by apply Hk'|done].
      - destruct (IH cs Hcs Hd) as (e' & He' & Hr). exists e'. split; [by right|done]. }
    destruct Hx as (e' & He' & Hk' & Hr). rewrite <- Hk' in Hk. pose proof (Hl e He) as L1. pose proof (Hl e' He') as L2.
    rewrite Hk in L1. rewrite L1 in L2. injection L2 as <-. congruence. }
  split.
  - intros e vals He Hp. set (text := combineSubmitted e vals). set (lock := FormValue fm _ !=? ""). destruct (Hrow e He) as (o & Ho & Hin).
    assert (Hc : o = None ∨ ∃ c, o = Some c) by (destruct o; eauto).
    destruct Hc as [->|[c ->]].
    + destruct (Hkey e He Ho) as [Hv Hlk]. unfold row_change in Ho. cbv zeta in Ho. rewrite Hp in Ho.
      destruct (_ && _) in Ho; [done|]. fold text lock in Ho. destruct (sc_Settings s !! ce_Name e) as [v|] eqn:Hcur; cbn in Ho.
      * destruct (text ==? "") eqn:He1; [done|]. destruct ((text !=? renderValue v) || _) eqn:He2; [done|].
        apply orb_false_iff in He2 as [Ht%negb_false_iff%bool_decide_eq_true_1 Hlo%negb_false_iff%bool_decide_eq_true_1].
        left. exists v. rewrite Hv, Hlk. split; [done|]. split; [done|]. split; [done|]. rewrite Hlo. symmetry. apply bool_decide_eq_true.
      * destruct (text ==? ""); [by rewrite Hv|done].
    + destruct (Hin c eq_refl) as [Hc Hk]. specialize (Hall c Hc). unfold left_by in Hall. rewrite Hk in Hall.
      unfold row_change in Ho. cbv zeta in Ho. rewrite Hp in Ho. destruct (_ && _) in Ho; [done|]. fold text lock in Ho.
      destruct (text ==? "") eqn:He1.
      * destruct (renderValue <$> sc_Settings s !! ce_Name e); [|done]. injection Ho as <-. by destruct Hall.
      * assert (Hcc : c = mkChange (ce_Name e) text lock false).
        { destruct (renderValue <$> sc_Settings s !! ce_Name e); [destruct (_ || _) in Ho|]; congruence. }
        rewrite Hcc in Hall. cbn in Hall. destruct Hall as (e' & v & He' & Hv & Hs1 & Hl1). rewrite (Hl e He) in He'.
        injection He' as <-. right. eauto.
  - intros key Hno. destruct (decide (key ∈ sg_Key <$> changes)) as [Hk|Hk]; [|by apply Hrest].
    pose proof (elem_of_sublist _ _ _ Hk Hsub) as (e & -> & He)%list_elem_of_fmap. apply Hkey; [done|].
    unfold row_change. cbv zeta. by rewrite (Hno e He eq_refl).
Qed.

(** ** Identifiers of staged saves *)

Definition slug_ok (l : list ascii) : Prop := Forall (λ a, lower_digit a || Ascii.eqb a "-" = true) l.

Lemma slug_fold l b flag : slug_ok b → last b ≠ Some "-"%char → (b = [] → flag = true) →
  let st := foldl slug_step (b, flag) l in
  slug_ok st.1 ∧ last st.1 ≠ Some "-"%char ∧ (∀ a, last b = Some a → last st.1 = Some a).
Proof.
  revert b flag. induction l as [|a l IH]; intros b flag Hb Hl Hf; [done|]. cbn [foldl].
  assert (Hlast : ∀ x, last b ≠ Some "-"%char → x ≠ "-"%char ∨ b ≠ [] → last (x :: b) ≠ Some "-"%char ∧ ∀ y, last b = Some y → last (x :: b) = Some y).
  { intros x Hx Hxb. destruct b as [|y b]; [split; [|done]; intros [= ->]; by destruct Hxb|by rewrite last_cons_cons]. }
  assert (Hpush : ∀ x fl, lower_digit x || Ascii.eqb x "-" = true → x ≠ "-"%char ∨ b ≠ [] →
    let st := foldl slug_step (x :: b, fl) l in
    slug_ok st.1 ∧ last st.1 ≠ Some "-"%char ∧ (∀ y, last b = Some y → last st.1 = Some y)).
  { intros x fl Hx Hxb. destruct (Hlast x Hl Hxb) as [H1 H2]. destruct (IH (x :: b) fl) as (A & B & C); [by constructor|done|done|].
    split; [done|]. split; [done|]. intros y Hy. by apply C, H2. }
  change (slug_step (b, flag) a) with (if is_upper a then (lower_ascii a :: b, false) else if lower_digit a then (a :: b, false)
    else if flag then (b, true) else ("-"%char :: b, true)).
  destruct (is_upper a) eqn:Hu; [|destruct (lower_digit a) eqn:Hd].
  - apply Hpush.
    + revert a Hu. apply (implb_bytes is_upper (λ a, lower_digit (lower_ascii a) || Ascii.eqb (lower_ascii a) "-")). by vm_compute.
    + left. pose proof (implb_bytes is_upper (λ a, negb (Ascii.eqb (lower_ascii a) "-")) ltac:(by vm_compute) a Hu) as Hn.
      intros Hx. cbv beta in Hn. by rewrite Hx in Hn.
  - apply Hpush; [by rewrite Hd|]. left. by intros ->.
  - destruct flag; [by apply IH|]. apply Hpush; [done|]. right. intros ->. by specialize (Hf eq_refl).
Qed.

Lemma drop_while_last (p : ascii → bool) (l : list ascii) a : last l = Some a → p a = false →
  ∃ x r, drop_while p l = x :: r ∧ last (x :: r) = Some a ∧ p x = false.
Proof.
  induction l as [|x l IH]; [done|]. intros Hl Ha. cbn [drop_while]. destruct (p x) eqn:Hx; [|by exists x, l].
  destruct l as [|y l]; [by injection Hl as ->; congruence|]. rewrite last_cons_cons in Hl. by apply IH.
Qed.

Lemma drop_while_Forall (P : ascii → Prop) (p : ascii → bool) l : Forall P l → Forall P (drop_while p l).
Proof. induction 1 as [|a l Ha Hl IH]; [constructor|]. simpl. destruct (p a); [done|by constructor]. Qed.

(** The slug of a text that begins with a lower-case letter or digit is a slug
    that begins with it. *)
Lemma slugify_head a s : lower_digit a = true →
  ∃ r, slugify (String a s) = String a r ∧ string_forall (λ a, lower_digit a || Ascii.eqb a "-") r = true.
Proof.
  intros Ha. unfold slugify. cbn [list_ascii_of_string foldl].
  assert (Hst : slug_step ([], true) a = ([a], false)).
  { unfold slug_step. rewrite Ha.
    assert (Hu : is_upper a = false).
    { apply negb_true_iff. revert a Ha. apply (implb_bytes lower_digit (λ a, negb (is_upper a))). by vm_compute. }
    by rewrite Hu. }
  rewrite Hst. destruct (slug_fold (list_ascii_of_string s) [a] false) as (Hok & Hl & Hk);
    [by constructor; [rewrite Ha|constructor]|by injection 1 as ->|done|].
  destruct (foldl slug_step ([a], false) (list_ascii_of_string s)) as [b fl]. cbn [fst] in *.
  specialize (Hk a eq_refl).
  assert (Hdash : Ascii.eqb "-" a = false) by (destruct (Ascii.eqb_spec "-" a) as [<-|]; done).
  destruct (drop_while_last (Ascii.eqb "-") b a Hk Hdash) as (x & r & He & Hla & _).
  pose proof (drop_while_Forall _ (Ascii.eqb "-") b Hok) as Hf. rewrite He in Hf |- *.
  apply last_Some in Hla as [r' Hr']. rewrite Hr' in *. rewrite reverse_snoc. cbn [string_of_list_ascii].
  eexists. split; [done|]. apply string_forall_list. rewrite list_ascii_of_string_of_list_ascii.
  apply Forall_reverse. by apply Forall_app in Hf as [? _].
Qed.

Lemma change_id_inj base n m : change_id base n = change_id base m → n = m.
Proof. unfold change_id. intros H%string_app_inj%string_app_inj. by apply (inj pretty). Qed.

Lemma first_free_spec fuel n base existing :
  match first_free fuel n base existing with
  | Some id => ∃ k, (n ≤ k < n + fuel)%nat ∧ id = change_id base k ∧ id ∉ existing ∧
                    ∀ j, (n ≤ j < k)%nat → change_id base j ∈ existing
  | None => ∀ j, (n ≤ j < n + fuel)%nat → change_id base j ∈ existing
  end.
Proof.
  revert n. induction fuel as [|fuel IH]; intros n; cbn [first_free]; [lia|]. case_bool_decide as Hin.
  - specialize (IH (S n)). destruct (first_free fuel (S n) base existing) as [id|].
    + destruct IH as (k & Hk & -> & Hno & Hall). exists k. split; [lia|]. split; [done|]. split; [done|].
      intros j Hj. destruct (decide (j = n)) as [->|]; [done|]. apply Hall. lia.
    + intros j Hj. destruct (decide (j = n)) as [->|]; [done|]. apply IH. lia.
  - exists n. split; [lia|]. split; [done|]. split; [done|]. lia.
Qed.

Lemma ValidID_length id : Changes.ValidID id = None → (String.length id ≤ 63)%nat.
Proof.
  destruct id as [|a r]; [done|]. cbn [Changes.ValidID String.length].
  destruct (_ <=? 62)%nat eqn:Hle; [apply Nat.leb_le in Hle; lia|by rewrite andb_false_r].
Qed.

(** C37: the search for the identifier of a staged save ends within one more
    attempt than there are change requests: it finds the first number, counted
    from the number of changes, whose identifier no change has; and the
    identifier is one the changes accept exactly while it has at most 63
    characters. *)
Theorem next_change_id_fresh scope existing : ∃ k id, nextChangeID scope existing = Some id ∧
  id = change_id (slugify ("cfg-" +:+ scope)) k ∧ (length existing < k ≤ 2 * length existing + 1)%nat ∧ id ∉ existing ∧
  (∀ j, (length existing < j < k)%nat → change_id (slugify ("cfg-" +:+ scope)) j ∈ existing) ∧
  (Changes.ValidID id = None ↔ (String.length id ≤ 63)%nat).
Proof.
  unfold nextChangeID. set (base := slugify _). set (n := S (length existing)).
  pose proof (first_free_spec n n base existing) as Hs. destruct (first_free n n base existing) as [id|].
  - destruct Hs as (k & Hk & Hid & Hno & Hall). exists k, id. split; [done|]. split; [done|]. split; [lia|]. split; [done|].
    split; [intros j Hj; apply Hall; lia|].
    destruct (slugify_head "c" ("fg-" +:+ scope) eq_refl) as (r & Hr & Hrok). fold base in Hr.
    change (String "c" ("fg-" +:+ scope)) with ("cfg-" +:+ scope) in Hr. fold base in Hr. subst id.
    unfold change_id. rewrite Hr.
    change (String "c" r +:+ "-" +:+ pretty k) with (String "c" (r +:+ String "-" (pretty k))).
    cbn [Changes.ValidID String.length].
    assert (Hok : string_forall Changes.id_char (r +:+ String "-" (pretty k)) = true).
    { rewrite string_forall_app. apply andb_true_iff. split; [exact Hrok|]. cbn [string_forall]. apply andb_true_iff. split; [done|].
      pose proof (pretty_N_digits (N.of_nat k)) as [Hd _]. change (pretty k) with (pretty (N.of_nat k)).
      eapply string_forall_impl; [|exact Hd]. intros x Hx. unfold Changes.id_char, Changes.id_head. by rewrite Hx, orb_true_r. }
    rewrite Hok. cbn [andb Changes.id_head]. change (Changes.id_head "c") with true. cbn [andb].
    destruct (_ <=? 62)%nat eqn:Hle; [apply Nat.leb_le in Hle|apply Nat.leb_gt in Hle]; (split; [|done || lia]); intros; try done; lia.
  - exfalso. assert (Hsub : change_id base <$> seq n n ⊆+ existing).
    { apply NoDup_submseteq.
      - apply NoDup_fmap_2; [intros ???; by eapply change_id_inj|apply NoDup_seq].
      - intros x (j & -> & [Hj1 Hj2]%elem_of_seq)%list_elem_of_fmap. by apply Hs. }
    apply submseteq_length in Hsub. rewrite length_fmap, length_seq in Hsub. lia.
Qed.

(** ** Cases *)

(** The lists and strings of the cases, as [encoding/json] writes them. *)
#[local] Instance forms_json : GoJson := {
  json_value v := match v with
    | VList l => Ok ("[" +:+ join (map (λ it, match it with VString s => "'" +:+ s +:+ "'" | _ => "?" end) l) "," +:+ "]")
    | _ => Ok "?" end;
  fmt_v v := "?"; fleet_fields f := Ok ∅; json_fields m := Ok "{}"
}.

Definition layout : CatalogEntry := plain "keyboard.layout" "string".
Definition firewall : CatalogEntry := plain "firewall.enable" "boolean".
Definition window_ : CatalogEntry := mkEntry "updates.maintenanceWindow" "" "string" "timerange" "" None "" false [].
Definition allowlist : CatalogEntry := plain "usbDevices.allowlist" "list of string".
Definition servers : CatalogEntry := mkEntry "time.servers" "" "list of string" "fixedlist" "" None "" false [].
Definition mesh : CatalogEntry := plain "netbird.enable" "boolean".
Definition demo_cat : SettingsCatalog :=
  let es := [layout; firewall; window_; allowlist; servers; mesh] in
  mkCatalog es (list_to_map (map (λ e, (ce_Name e, e)) es)).

Definition words (l : list string) : Value := VList (VString <$> l).
Definition office (own : list (string * Value)) (locked : list string) : Fleet := zero_fleet
  <| Org := Some (zero_scope <| sc_Settings := list_to_map own |> <| sc_Enforced := locked |>) |>
  <| f_Groups := {["desk" := zero_group <| g_scope := zero_scope <| sc_Settings := list_to_map own |> <| sc_Enforced := locked |> |>]} |>.

(** A form with one row: a key, its fields, its lock. *)
Definition one_row (key : string) (fields : list string) (lock : bool) : Form :=
  mkForm (list_to_map ([("v:" +:+ key, fields)] ++ if lock then [("e:" +:+ key, ["on"])] else [])) ∅.

Definition settled : list (string * Value) :=
  [("keyboard.layout", VString "us"); ("firewall.enable", VBool false); ("updates.maintenanceWindow", VString "22:00-06:00")].
Definition untouched : Form := mkForm (list_to_map [
  ("v:keyboard.layout", ["us"]); ("v:firewall.enable", ["false"]); ("v:updates.maintenanceWindow", ["22:00"; "06:00"]);
  ("e:firewall.enable", ["on"])]) ∅.

Lemma unchanged_save_is_noop_witness :
  submitted_changes (office settled ["firewall.enable"]) demo_cat "group:desk" untouched = Ok [].
Proof.
  apply (unchanged_save_is_noop _ _ _ _ (list_to_map settled) ["firewall.enable"] false []); [reflexivity| |].
  - intros e He. unfold demo_cat in He. cbn [Entries] in He.
    repeat (apply elem_of_cons in He as [->|He];
      [split; [first [right; vm_compute; reflexivity|left; vm_compute; reflexivity]|vm_compute; reflexivity]|]).
    by apply elem_of_nil in He.
  - intros e v He Hv. unfold demo_cat in He. cbn [Entries] in He.
    repeat (apply elem_of_cons in He as [->|He]; [vm_compute in Hv; first [discriminate Hv|injection Hv as <-]|]);
      [| | |by apply elem_of_nil in He].
    + unfold gives_back. split_and!; [by apply holds_text|done..|]. intros t [= <-]. split_and!; by vm_compute.
    + unfold gives_back. split_and!; [by apply holds_bool|done..].
    + unfold gives_back. split_and!; [by apply holds_range|done..|]. intros t [= <-]. split_and!; by vm_compute.
Defined.

Definition edited : Form := mkForm (list_to_map [
  ("v:keyboard.layout", [" nl "]); ("v:firewall.enable", [""]); ("v:time.servers", ["ntp.one"; ""; "ntp.two"; ""]);
  ("e:time.servers", ["on"])]) ∅.

Definition saved_office : option Fleet :=
  let f := office settled ["firewall.enable"] in
  match submitted_changes f demo_cat "group:desk" edited with
  | Ok changes =>
      match SettingsMutation demo_cat f "group:desk" changes with
      | Ok (mut, _, _) => match mut f with Ok f' => Some f' | Err _ => None end
      | Err _ => None
      end
  | Err _ => None
  end.

Lemma saved_form_holds_witness : ∃ f', saved_office = Some f' ∧
  (λ s, (map (λ k, sc_Settings s !! k) (map ce_Name (Entries demo_cat)), sc_Enforced s)) <$> scope_at f' "group:desk" =
    Some ([Some (VString "nl"); None; Some (VString "22:00-06:00"); None; Some (words ["ntp.one"; "ntp.two"]); None],
          ["time.servers"]) ∧
  scope_frame "group:desk" (office settled ["firewall.enable"]) f'.
Proof.
  assert (Hs : is_Some saved_office) by (vm_compute; eexists; reflexivity). destruct Hs as [f' Hf']. exists f'.
  split; [exact Hf'|]. split; [pose proof Hf' as Hc; vm_compute in Hc; injection Hc as <-; vm_compute; reflexivity|].
  unfold saved_office in Hf'. destruct (submitted_changes _ _ _ _) as [changes|] eqn:Hc; [|discriminate Hf'].
  destruct (SettingsMutation _ _ _ _) as [[[mut msg] hosts]|] eqn:Hm; [|discriminate Hf'].
  destruct (mut _) as [f1|] eqn:Hf; [|discriminate Hf']. injection Hf' as ->.
  destruct (saved_form_holds (office settled ["firewall.enable"]) demo_cat "group:desk" edited changes mut msg hosts f')
    as (s & s' & _ & _ & Hfr & _); [by apply (bool_decide_unpack _); vm_compute| |done|done|done|exact Hfr].
  intros e He. unfold demo_cat in He. cbn [Entries] in He.
  repeat (apply elem_of_cons in He as [->|He]; [vm_compute; reflexivity|]). by apply elem_of_nil in He.
Defined.

(** *** What an untouched page changes *)

(** A list is compared as JSON with the lines of its control, so it always
    differs: an untouched page writes it again, and where the key belongs to
    policies the whole save is refused. *)
Theorem untouched_list_is_a_change :
  let f := office [("time.servers", words ["a"; "b"]); ("usbDevices.allowlist", words ["1d6b:0002"])] [] in
  (∃ fields, shown_fields false [] servers (Some (words ["a"; "b"])) = Some fields ∧
     submitted_changes f demo_cat "group:desk" (one_row "time.servers" fields false) =
       Ok [mkChange "time.servers" ("a" +:+ nl +:+ "b") false false]) ∧
  (∃ fields, shown_fields false [] allowlist (Some (words ["1d6b:0002"])) = Some fields ∧
     submitted_changes f demo_cat "group:desk" (one_row "usbDevices.allowlist" fields false) =
       Err (PolicyOnlyKey "usbDevices.allowlist")).
Proof. split; eexists; split; vm_compute; reflexivity. Qed.

(** A fixed list shows as many items as it has slots; an untouched page drops
    the others. *)
Theorem untouched_long_list_is_cut :
  let f := office [("time.servers", words ["a"; "b"; "c"; "d"; "e"])] [] in
  ∃ fields, shown_fields false [] servers (Some (words ["a"; "b"; "c"; "d"; "e"])) = Some fields ∧
    submitted_changes f demo_cat "group:desk" (one_row "time.servers" fields false) =
      Ok [mkChange "time.servers" (join ["a"; "b"; "c"; "d"] nl) false false].
Proof. eexists. split; vm_compute; reflexivity. Qed.

(** The organisation's toggle has no Inherit: an explicit false shows as Off,
    which posts nothing, and the value is cleared with its lock. *)
Theorem untouched_org_off_is_cleared :
  let f := office [("firewall.enable", VBool false)] ["firewall.enable"] in
  ∃ fields, shown_fields true [] firewall (Some (VBool false)) = Some fields ∧
    submitted_changes f demo_cat "org" (one_row "firewall.enable" fields true) =
      Ok [mkChange "firewall.enable" "" false true].
Proof. eexists. split; vm_compute; reflexivity. Qed.

(** An integration's card posts no locks: saving it untouched unlocks its keys;
    and a time range on it is one field, which reads as empty. *)
Theorem untouched_card_unlocks :
  let f := office [("netbird.enable", VBool true)] ["netbird.enable"] in
  submitted_changes f demo_cat "group:desk" (one_row "netbird.enable" ["true"] false) =
    Ok [mkChange "netbird.enable" "true" false false] ∧
  submitted_changes (office settled []) demo_cat "group:desk" (one_row "updates.maintenanceWindow" ["22:00-06:00"] false) =
    Ok [mkChange "updates.maintenanceWindow" "" false true].
Proof. split; vm_compute; reflexivity. Qed.

(** *** Paths *)

(** The inbox's guard refuses a path a browser reads as another host; the
    settings save, the secret page and the error page's link do not. *)
Theorem back_paths_leave_the_host :
  safeLocalPath "/\evil.example" = "/notifications" ∧ safeLocalPath "//evil.example" = "/notifications" ∧
  save_landing (mkForm {["back" := ["/\evil.example"]]} ∅) "org" false = "/\evil.example" ∧
  local_back "/\evil.example" = true ∧
  backLink (Some (mkRefURL "console.example" "//evil.example" "")) "console.example" = "//evil.example".
Proof. repeat split; vm_compute; reflexivity. Qed.

(** A group whose name the document accepts, at which no save can be staged. *)
Theorem long_scope_never_stages : ∃ g, ValidateSlug g = true ∧
  ∀ existing id, nextChangeID (group_ref g) existing = Some id → Changes.ValidID id ≠ None.
Proof.
  exists (string_of_list_ascii (replicate 60 "a"%char)). split; [vm_compute; reflexivity|]. intros existing id Hid.
  unfold nextChangeID in Hid. pose proof (first_free_spec (S (length existing)) (S (length existing))
    (slugify ("cfg-" +:+ group_ref (string_of_list_ascii (replicate 60 "a"%char)))) existing) as Hs.
  rewrite Hid in Hs. destruct Hs as (k & _ & -> & _).
  intros Hv%ValidID_length. revert Hv. unfold change_id. rewrite string_length_app.
  intros Hle. assert (Hl : String.length (slugify ("cfg-" +:+ group_ref (string_of_list_ascii (replicate 60 "a"%char)))) = 70%nat)
    by (vm_compute; reflexivity). lia.
Qed.

(** The editor of a policy has no conditions, and saving one drops them. *)
Theorem policy_conditions_stripped : ∃ f fm p c, Policies f !! "p" = Some p ∧ Conditions p = [c] ∧
  ∃ p', submitted_policy (λ _, None) f demo_cat "p" fm = Ok p' ∧ Conditions p' = [] ∧ p_Name p' = p_Name p.
Proof.
  pose (c := Build_Condition "disk.free_gb" ">=" Floats.SpecFloat.S754_nan "").
  exists (zero_fleet <| Policies := {["p" := mkPolicy "Disks" "" {["keyboard.layout" := VString "us"]} [] "" [] [c]]} |>),
    (mkForm {["settings" := ["keyboard.layout = us"]]} ∅). eexists _, c. repeat (split; [reflexivity|]).
  eexists. split; [vm_compute; reflexivity|]. split; reflexivity.
Qed.
