(* ===== verification/Console.v ===== *)
(** * The console's actions (src/internal/http/web)

    Every POST of the console as a program over the services: what it asks of
    them, in which order, and what it does with the answers.  A gated write is a
    program of its own, which the request waits for three seconds; what the
    answers are is the business of the files that model the services. *)

From S2P Require Import Prelude GoLib FleetModel Groups Filters Resolve Mutate DeviceOps Policies Identity Text Catalog SettingsGuard.
From S2P Require Import Classes Document ConfigTx Radius Bundles ConsoleForms WellFormed.
From S2P Require Changes ChangeFlow Engine Tokens Credentials Stations Imaging ImageJobs Observed Elevation DeviceSecrets.
From S2P Require EnrolmentRings Forge Notify People Retention Overlays WavePlans Rollout Api.

(** ** Failures (errors.go) *)

(** An error of a service the console passes on. *)
Inductive SvcErr :=
  | SvSecret (e : DeviceSecrets.SecretErr)
  | SvJob (e : Imaging.JobErr)
  | SvStation (e : Stations.StationErr)
  | SvElevation (e : Elevation.ElErr)
  | SvForge (e : Forge.ForgeErr)
  | SvErasure (e : Retention.ErasureErr)
  | SvOverlay (e : Overlays.OverlayErr)
  | SvRings (e : EnrolmentRings.RingErr)
  | SvFacts (e : Observed.ObsErr)
  | SvNotify (e : Notify.NotifyErr)
  | SvStore
  | SvMail (text : string).

Inductive WebErr :=
  | webForbidden (ref : string) (needs got : Role)
  | FormW (e : FormErr)
  | PlanW (e : WavePlans.PlanErr)
  | CatalogW (e : CatalogErr)
  | SettingW (e : SettingErr)
  | ConfigW (e : TxErr)
  | ChangeW (e : ChangeFlow.ChErr)
  | RolloutW (e : Engine.EngErr)
  | TokenW (e : Tokens.TokenErr)
  | ServiceW (e : SvcErr)
  | PrefsW (e : People.PrefsErr)
  | Said (text : string).          (* a sentence of the handler's own *)

(** ** Edits of the fleet document *)

Record BatchItem := mkItem { bi_mac : string; bi_tag : string; bi_dev : Device; bi_facter : option string }.

Inductive FleetEdit := Plain (c : Command) | EnrollBatch (items : list BatchItem) (now : Time).

(** One machine of a batch: its unconfirmed enrolment is refreshed, or it is new. *)
Definition enroll_item (now : Time) (f : Fleet) (p : BatchItem) : res FleetErr Fleet :=
  match ProvisionalBySerial f (Serial (d_ITAM (bi_dev p))) with
  | Some prior =>
      let d := (dev f prior) <| Hardware := Hardware (bi_dev p) |> <| Class := Class (bi_dev p) |>
                 <| Groups := Groups (bi_dev p) |> <| Spec := Spec (bi_dev p) |> <| d_ITAM := d_ITAM (bi_dev p) |> in
      Ok (f <| Devices ::= <[prior := d]> |>)
  | None => AddDevice (bi_tag p) (bi_dev p) now f
  end.

Definition edit_mutation (profile_hash : string → Settings → string) (ed : FleetEdit) : Mutation :=
  match ed with
  | Plain c => run_command profile_hash c
  | EnrollBatch items now => λ f, fold_res (enroll_item now) f items
  end.

(** What is staged on a change's branch. *)
Inductive StagedEdit :=
  | StageSet (scope key : string) (v : Value)
  | StageClear (scope key : string)
  | StageBatch (f : Fleet) (cat : SettingsCatalog) (scope : string) (changes : list SettingChange).

Definition staged_mutation (ed : StagedEdit) : Mutation :=
  match ed with
  | StageSet scope key v => SetScopeSetting scope key v
  | StageClear scope key => ClearScopeSetting scope key
  | StageBatch f cat scope changes =>
      match SettingsMutation cat f scope changes with Ok (mut, _, _) => mut | Err _ => λ f, Ok f end
  end.
Definition staged_scope (ed : StagedEdit) : string :=
  match ed with StageSet s _ _ | StageClear s _ | StageBatch _ _ s _ => s end.

(** ** What a handler asks of the services *)

Inductive Call : Type → Type :=
  (* the configuration *)
  | ReadFleet : Call Fleet
  | ReadSnapshot : Call (Fleet * SettingsCatalog)
  | ReadBundles : Call (Index Bundle)
  | ReadProfile (name : string) : Call (option Profile)
  | ReadHardware : Call (Index HardwareProfile)
  | ReadHead : Call string
  | Clock : Call Time
  | RandomID : Call (option string)
  | ApplyEdit (ed : FleetEdit) (msg : string) (a : Author) (hosts : list string) : Call (res TxErr unit)
  | ApplyPlain (c : Command) (msg : string) (a : Author) : Call (res TxErr unit)        (* structural *)
  | SaveSettings (scope : string) (changes : list SettingChange) (marker : string) (a : Author) : Call (res SettingErr unit)
  | GuardExclusive (scope : string) (changes : list SettingChange) : Call (option SettingErr)
  | GuardBricking (scope : string) (changes : list SettingChange) : Call (res SettingErr unit)
  | SaveOverlay (name code : string) (a : Author) : Call (res SvcErr unit)
  | DropOverlay (name : string) (a : Author) : Call (res SvcErr unit)
  | ListOverlays : Call (list string)
  | CheckSyntax (code : string) : Call (option string)                                  (* none: unavailable *)
  | RingsContain (tags : list string) (rev : string) : Call (res SvcErr unit)
  (* changes and runs *)
  | ChangeList : Call (res ChangeFlow.ChErr (list Changes.CR))
  | ChangeGet (id : string) : Call (res ChangeFlow.ChErr (option Changes.CR))
  | ChangeDiff (id : string) : Call (option string)
  | ChangeOpen (id title : string) (a : Author) : Call (res ChangeFlow.ChErr unit)
  | ChangeEdit (id : string) (ed : StagedEdit) (msg : string) (a : Author) (hosts : list string) : Call (res ChangeFlow.ChErr unit)
  | ChangeSubmit (id : string) : Call (res ChangeFlow.ChErr unit)
  | ChangeMerge (id : string) (a : Author) : Call (res ChangeFlow.ChErr unit)
  | ChangeAbandon (id : string) : Call (res ChangeFlow.ChErr unit)
  | RunStart (target : string) (opts : Engine.StartOpts) : Call (res Engine.EngErr unit)
  | RunTick : Call (res Engine.EngErr unit)
  | RunApprove : Call (res Engine.EngErr unit)
  | RunPause : Call (res Engine.EngErr unit)
  | RunResume : Call (res Engine.EngErr unit)
  | RunCancel : Call (res Engine.EngErr unit)
  (* credentials and tokens *)
  | IssueFor (kind : Tokens.TokenKind) (tag : string) : Call (res Tokens.TokenErr string)
  | RevokeFor (kind : Tokens.TokenKind) (tag : string) : Call unit
  | TokenMint (req : Credentials.MintRequest) : Call (res Tokens.TokenErr string)
  | TokenRevoke (id : string) : Call (res Tokens.TokenErr unit)
  | TokensOf (subject : string) : Call (res SvcErr (list Tokens.Token))
  | ServiceTokens : Call (res SvcErr (list Tokens.Token))
  (* devices and stations *)
  | DropDiagnostics (tag : string) : Call unit
  | Reveal (tag : string) (kind : DeviceSecrets.SecretKind) (by_ : string) : Call (res SvcErr (option string))
  | DiscoveredGet (station mac : string) : Call (option Stations.Discovered)
  | DiscoveredDrop (station mac : string) : Call (res SvcErr unit)
  | JobDispatch (job : Imaging.Job) : Call unit
  | JobCancel (station mac : string) : Call (res SvcErr unit)
  | KeepFacts (tag facts : string) : Call unit
  | ElevationDecide (id : string) (approve : bool) (by_ : string) : Call (res SvcErr unit)
  (* people and the deployment *)
  | PutPreferences (subject : string) (p : People.Prefs) : Call (res SvcErr unit)
  | NoteRead (id subject : string) : Call (res SvcErr unit)
  | NotesRead (subject : string) (groups : list string) : Call (res SvcErr unit)
  | ErasePreview (subject username : string) : Call (res SvcErr Retention.ErasureReport)
  | EraseNow (subject username : string) : Call (res SvcErr Retention.ErasureReport)
  | ForgeSet (host username token by_ : string) : Call (res SvcErr unit)
  | ForgeClear (by_ : string) : Call (res SvcErr unit)
  | MailSave (host : string) (port : Z) (from user ref security password : string) : Call (res SvcErr unit)
  | MailTest (to : string) : Call (res SvcErr unit)
  | MailDelete : Call (res SvcErr unit).

(** ** Programs *)

(** How a gated write ended while the request waited. *)
Inductive Grace := Inline (failed : option WebErr) | Detached.

Inductive Prog : Type → Type :=
  | Ret {A} (a : A) : Prog A
  | Fail {A} (e : WebErr) : Prog A
  | Ask {A R} (c : Call R) (k : R → Prog A) : Prog A
  | Gated {A} (desc : string) (body : Prog unit) (k : Grace → Prog A) : Prog A.

Fixpoint pbind {A B} (m : Prog A) (f : A → Prog B) : Prog B :=
  match m in Prog T return (T → Prog B) → Prog B with
  | Ret a => λ f, f a
  | Fail e => λ _, Fail e
  | Ask c k => λ f, Ask c (λ r, pbind (k r) f)
  | Gated d b k => λ f, Gated d b (λ o, pbind (k o) f)
  end f.

Declare Scope console_scope.
Delimit Scope console_scope with console.
Notation "'let*' x := m 'in' k" := (pbind m (λ x, k)) (at level 200, x binder, m at level 100, k at level 200) : console_scope.
Notation "'then*' m 'in' k" := (pbind m (λ _ : unit, k)) (at level 200, m at level 100, k at level 200) : console_scope.
Open Scope console_scope.

Definition ask {R} (c : Call R) : Prog R := Ask c Ret.
(** A call whose error the handler returns. *)
Definition try_ {E A} (w : E → WebErr) (c : Call (res E A)) : Prog A :=
  Ask c (λ r, match r with Ok a => Ret a | Err e => Fail (w e) end).
Definition of_res {E A} (w : E → WebErr) (r : res E A) : Prog A := match r with Ok a => Ret a | Err e => Fail (w e) end.
Definition say {A} (text : string) : Prog A := Fail (Said text).
(** A guard clause. *)
Definition unless (bad : bool) (e : WebErr) : Prog unit := if bad then Fail e else Ret tt.

Definition runGatedDetached (desc : string) (body : Prog unit) : Prog bool :=
  Gated desc body (λ o, match o with Inline None => Ret false | Inline (Some e) => Fail e | Detached => Ret true end).
Definition runGated (desc : string) (body : Prog unit) : Prog unit :=
  let* _ := runGatedDetached desc body in Ret tt.

(** ** The view of a request (middleware.go, helpers.go) *)

(** Who is signed in, and the document the roles are judged by: the one that was
    current when the request came in. *)
Record View := mkView {
  v_user : User; v_name : string; v_email : string; v_csrf : string; v_fleet : Fleet
}.

(** The services that are wired, the write switch and the role baselines. *)
Record ServerConfig := mkServer {
  sc_write : bool; sc_baseViewer : list string; sc_baseEditor : list string; sc_baseOwner : list string;
  sc_changes : bool; sc_inventory : bool; sc_tokens : bool; sc_prefs : bool; sc_devCreds : bool; sc_stationCreds : bool;
  sc_discovery : bool; sc_imaging : bool; sc_rollouts : bool; sc_secrets : bool; sc_diagnostics : bool;
  sc_notify : bool; sc_mail : bool; sc_elevation : bool; sc_forge : bool; sc_erasure : bool; sc_syntax : bool
}.

Definition webAuthor (v : View) : Author :=
  mkAuthor (u_Subject (v_user v)) (v_name v) (if v_email v ==? "" then u_Subject (v_user v) +:+ "@idp" else v_email v).

(** ** What the browser gets back *)

Record Cookie := mkCookie { ck_Name : string; ck_Value : string; ck_Path : string }.

Inductive Landing :=
  | Redirect (to : string)
  | ConfirmRollout (target scope : string) (rows : list WavePlans.planWaveRow) (testGated expedited skipTestWave : bool)
  | ConfirmMerge (id title : string) (manualOnly wholeFleet nothingDeployable : bool) (groups : list string) (testGated : bool)
  | ConfirmAssurance (weakened : list string) (next : Assurance)
  | ErasurePage (rep : Retention.ErasureReport) (done : bool)
  | SecretPage (tag : string) (kind : DeviceSecrets.SecretKind) (value back : string)
  | OverlayPage (names : list string) (name code : string) (syntax : option string)
  | NotFound.

Record WebReply := mkReplyW { landing : Landing; cookie : option Cookie }.
Definition see (to : string) : Prog WebReply := Ret (mkReplyW (Redirect to) None).

Section console.
  Context `{GoJson} (json_any : string → option Value) (load_location : string → bool).
  Context (profile_hash : string → Settings → string).
  Context (sc : ServerConfig).

Definition view_role (v : View) (ref : string) : Role :=
    RoleAt (H := fleet_directory (v_fleet v))
      (IdentityResolver (v_fleet v) (sc_baseViewer sc) (sc_baseEditor sc) (sc_baseOwner sc)) (v_user v) ref.

Definition requireWeb (v : View) (ref : string) (role : Role) : Prog unit :=
    let got := view_role v ref in unless (negb (Meets got role)) (webForbidden ref role got).

Fixpoint require_each (v : View) (role : Role) (refs : list string) : Prog unit :=
    match refs with [] => Ret tt | ref :: refs => then* requireWeb v ref role in require_each v role refs end.

Definition requireDeviceEditor (v : View) (tag : string) : Prog unit := requireWeb v (device_ref tag) Editor.

(** [applyGated]: the mutation through the gated write, under the grace window. *)
Definition applyGated (v : View) (ed : FleetEdit) (msg : string) (hosts : list string) : Prog unit :=
    runGated msg (try_ ConfigW (ApplyEdit ed msg (webAuthor v) hosts)).

(** [app.AffectedHosts(s.svc.Config.Fleet(), ref)] at the call. *)
Definition affected (ref : string) : Prog (list string) := Ask ReadFleet (λ f, Ret (AffectedHosts f ref)).

Definition applyAt (v : View) (ref : string) (c : Command) (msg : string) : Prog unit :=
    let* hosts := affected ref in applyGated v (Plain c) msg hosts.

Definition structural (v : View) (c : Command) (msg : string) : Prog unit := try_ ConfigW (ApplyPlain c msg (webAuthor v)).

(** An organisation-wide edit: owner, the gated write, back to a page. *)
Definition owner_edit (v : View) (c : Command) (msg page : string) : Prog WebReply :=
    then* requireWeb v "org" Owner_ in then* applyGated v (Plain c) msg [] in see page.

(** ** Access, acceptances, assurance (access_ops.go, acceptance.go, admin_ops.go) *)

Definition postAccessGrant (v : View) (fm : Form) : Prog WebReply :=
    let b := Build_AccessBinding (FormValue fm "group") (FormValue fm "role") (FormValue fm "scope") in
    then* requireWeb v (b_Scope b) Owner_ in
    then* structural v (CGrant b) ("access: grant " +:+ b_Group b +:+ " " +:+ b_Role b +:+ " at " +:+ b_Scope b) in
    see "/access".

Definition postAccessRevoke (v : View) (fm : Form) : Prog WebReply :=
    let group := FormValue fm "group" in
    let scope := FormValue fm "scope" in
    then* requireWeb v scope Owner_ in
    then* structural v (CRevoke group scope) ("access: revoke " +:+ group +:+ " at " +:+ scope) in
    see "/access".

Definition postAcceptance (v : View) (fm : Form) : Prog WebReply :=
    let scope := FormValue fm "scope" in
    then* requireWeb v scope Owner_ in
    let key := trimmed fm "key" in
    then* applyGated v (Plain (CSetAcceptance scope key (trimmed fm "reason"))) ("acceptance: accept " +:+ key +:+ " at " +:+ scope) [] in
    see "/compliance".

Definition postAcceptanceClear (v : View) (fm : Form) : Prog WebReply :=
    let scope := FormValue fm "scope" in
    then* requireWeb v scope Owner_ in
    let key := trimmed fm "key" in
    then* applyGated v (Plain (CClearAcceptance scope key)) ("acceptance: withdraw " +:+ key +:+ " at " +:+ scope) [] in
    see "/compliance".

Definition fmt_bool (b : bool) : string := if b then "true" else "false".

Definition postAssurance (v : View) (fm : Form) : Prog WebReply :=
    then* requireWeb v "org" Owner_ in
    let* f := ask ReadFleet in
    let a := submitted_assurance fm in
    let weakened := weakenedProtections (f_Assurance f) a in
    if negb (weakened ==? []) && (FormValue fm "confirmed" !=? "1")
    then Ret (mkReplyW (ConfirmAssurance weakened a) None)
    else
      then* structural v (CSetAssurance a)
              ("assurance: four-eyes=" +:+ fmt_bool (RequireFourEyes a) +:+ " change-request=" +:+ fmt_bool (RequireChangeRequest a)
               +:+ " test-wave=" +:+ fmt_bool (RequireTestWave a)) in
      see "/org/updates".

(** ** Groups (groups.go, device_ops.go) *)

Definition parent_ref (parent : string) : string := if parent !=? "" then group_ref parent else "org".

Definition postGroupAdd (v : View) (fm : Form) : Prog WebReply :=
    let name := trimmed fm "name" in
    let parent := FormValue fm "parent" in
    then* requireWeb v (parent_ref parent) Owner_ in
    then* structural v (CAddGroup name (zero_group <| Parent := parent |> <| IdpGroup := trimmed fm "idpGroup" |>))
            ("groups: add " +:+ name) in
    see "/groups".

Definition postGroupUpdate (v : View) (name : string) (fm : Form) : Prog WebReply :=
    then* requireWeb v "org" Owner_ in
    if FormValue fm "setallowed" ==? "1" then
      then* applyGated v (Plain (CSetGroupAllowedClasses name (FormValues fm "allowedClass"))) ("groups: set allowed classes on " +:+ name) [] in
      see "/groups"
    else
    let parent := if negb (FormValues fm "parent" ==? []) || (FormValue fm "reparent" ==? "1")
                  then Some (FormValue fm "parent") else None in
    let idp := if FormValue fm "setidp" ==? "1" then Some (trimmed fm "idpGroup") else None in
    then* unless ((parent ==? None) && (idp ==? None)) (Said "nothing to update") in
    then* applyAt v (group_ref name) (CUpdateGroup name parent idp) ("groups: update " +:+ name) in
    see "/groups".

Definition postGroupUnpin (v : View) (name : string) : Prog WebReply :=
    then* requireWeb v "org" Owner_ in
    then* applyAt v (group_ref name) (CSetGroupPin name "") ("groups: release pin on " +:+ name +:+ " (follow HEAD)") in
    see "/groups".

Definition postGroupRemove (v : View) (name : string) : Prog WebReply :=
    then* requireWeb v "org" Owner_ in
    then* structural v (CRemoveGroup name) ("groups: remove " +:+ name) in
    see "/groups".

Definition postDevicesGroupCreate (v : View) (fm : Form) : Prog WebReply :=
    let name := trimmed fm "name" in
    let parent := trimmed fm "parent" in
    let tags := FormValues fm "tags" in
    then* unless (name ==? "") (Said "group name required") in
    then* unless (tags ==? []) (Said "select at least one device") in
    then* requireWeb v (parent_ref parent) Owner_ in
    then* require_each v Editor (device_ref <$> tags) in
    then* applyGated v (Plain (CCreateGroupWithDevices name (zero_group <| Parent := parent |>) tags))
            ("groups: create " +:+ name +:+ " from " +:+ pretty (length tags) +:+ " device(s)") tags in
    see "/groups".

Definition postGroupWindow (v : View) (fm : Form) : Prog WebReply :=
    let group := trimmed fm "group" in
    let scope := group_ref group in
    then* requireWeb v scope Editor in
    let* f := ask ReadFleet in
    then* unless (negb (bool_decide (group ∈ dom (f_Groups f)))) (Said ("unknown group " +:+ group)) in
    let window := trimmed fm "window" in
    then* unless ((window !=? "") && negb (WavePlans.windowRe window))
            (Said "maintenance window must be HH:MM-HH:MM (e.g. 22:00-06:00), or empty for always") in
    let key := "updates.maintenanceWindow" in
    then* (if window ==? ""
           then applyGated v (Plain (CClearScopeSetting scope key)) ("updates: maintenance window " +:+ group +:+ " cleared (always)") []
           else applyGated v (Plain (CSetScopeSetting scope key (VString window))) ("updates: maintenance window " +:+ group +:+ " = " +:+ window) []) in
    see "/org/updates".

(** ** Devices (device_ops.go, devices_page.go, intent_ops.go, posture.go) *)

Definition device_page (tag : string) : string := "/devices/" +:+ tag.
Definition devCredCookie (tag secret : string) : Cookie := mkCookie "sextant_devcred" secret (device_page tag).

(** A fresh credential, when there is a store for it; a failure is only logged. *)
Definition fresh_credential (tag : string) : Prog (option Cookie) :=
    if sc_devCreds sc
    then Ask (IssueFor Tokens.Device tag)
           (λ r, Ret (match r with Ok secret => Some (devCredCookie tag secret) | Err _ => None end))
    else Ret None.
Definition drop_credential (tag : string) : Prog unit := if sc_devCreds sc then ask (RevokeFor Tokens.Device tag) else Ret tt.

Definition postDeviceEnroll (v : View) (fm : Form) : Prog WebReply :=
    let tag := trimmed fm "tag" in
    let group := FormValue fm "group" in
    then* requireWeb v (if group !=? "" then group_ref group else "org") Editor in
    let hardware := trimmed fm "hardware" in
    let d := zero_device <| Hardware := hardware |> <| Class := trimmed fm "class" |>
               <| Groups := if group !=? "" then [group] else [] |> in
    let* now := ask Clock in
    then* try_ ConfigW (ApplyEdit (Plain (CAddDevice tag d now)) ("devices: enroll " +:+ tag +:+ " (" +:+ hardware +:+ ")")
                          (webAuthor v) [tag]) in
    let* ck := fresh_credential tag in
    Ret (mkReplyW (Redirect (device_page tag)) ck).

Definition postDeviceRetire (v : View) (tag : string) : Prog WebReply :=
    then* requireDeviceEditor v tag in
    then* structural v (CRetireDevice tag) ("devices: retire " +:+ tag) in
    then* drop_credential tag in
    then* ask (DropDiagnostics tag) in
    see (device_page tag).

Definition postDeviceReactivate (v : View) (tag : string) : Prog WebReply :=
    then* requireDeviceEditor v tag in
    then* applyGated v (Plain (CReactivateDevice tag)) ("devices: reactivate " +:+ tag) [tag] in
    let* ck := fresh_credential tag in
    Ret (mkReplyW (Redirect (device_page tag)) ck).

Definition postDeviceRemove (v : View) (tag : string) : Prog WebReply :=
    then* requireDeviceEditor v tag in
    then* structural v (CRemoveDevice tag) ("devices: remove " +:+ tag) in
    then* drop_credential tag in
    see "/devices".

Definition postDeviceCredential (v : View) (tag : string) : Prog WebReply :=
    then* requireDeviceEditor v tag in
    then* unless (negb (sc_devCreds sc)) (Said "device credentials need the database (postgres not configured)") in
    let* f := ask ReadFleet in
    match Devices f !! tag with
    | None => say ("unknown device " +:+ tag)
    | Some d =>
        then* unless (Retired d) (Said "device is retired; reactivate it first") in
        let* secret := try_ TokenW (IssueFor Tokens.Device tag) in
        Ret (mkReplyW (Redirect (device_page tag)) (Some (devCredCookie tag secret)))
    end.

Definition device_patch (fm : Form) : DevicePatch :=
    Build_DevicePatch None
      (if FormValue fm "setclass" ==? "1" then Some (trimmed fm "class") else None)
      (if FormValue fm "setuser" ==? "1" then Some (trimmed fm "assignedUser") else None)
      (if FormValue fm "setgroups" ==? "1"
       then Some (let g := trimmed fm "groups" in if g !=? "" then [g] else []) else None)
      None None.

Definition postDeviceUpdate (v : View) (tag : string) (fm : Form) : Prog WebReply :=
    then* requireDeviceEditor v tag in
    let p := device_patch fm in
    then* match dp_Class p with
          | Some c => unless (negb (ValidClass c)) (Said ("unknown device class " +:+ c))
          | None => Ret tt
          end in
    then* match dp_Groups p with
          | Some gs => Ask ReadFleet (λ f, require_each v Editor (group_ref <$> GroupMembershipDelta (Groups (dev f tag)) gs))
          | None => Ret tt
          end in
    then* unless ((dp_Class p ==? None) && (dp_AssignedUser p ==? None) && (dp_Groups p ==? None)) (Said "nothing to update") in
    then* applyGated v (Plain (CUpdateDevice tag p)) ("devices: update " +:+ tag) [tag] in
    see (device_page tag).

Definition postDeviceSetting (v : View) (tag : string) (fm : Form) : Prog WebReply :=
    let ref := device_ref tag in
    then* requireWeb v ref Editor in
    let key := trimmed fm "key" in
    then* unless (key ==? "") (Said "setting key required") in
    let* fc := ask ReadSnapshot in
    match Lookup fc.2 key with
    | None => say ("unknown setting " +:+ key +:+ " (not in the catalog)")
    | Some entry =>
        let* val := of_res CatalogW (ParseValue entry (trimmed fm "value")) in
        then* applyAt v ref (CSetScopeSetting ref key val) ("settings: set " +:+ key +:+ " at " +:+ ref) in
        see (device_page tag)
    end.

(** The three actions of the posture panel: the key, its value and the words. *)
Definition posture_action (action : string) : option (string * bool * string) :=
    if action ==? "enable-sb" then Some ("secureboot.enable", true, "enable secure boot")
    else if action ==? "disable-sb" then Some ("secureboot.enable", false, "disable secure boot (reinstall)")
    else if action ==? "enable-tpm2" then Some ("diskUnlock.tpm2.enable", true, "target tpm2 unlock")
    else None.

Definition postDevicePosture (v : View) (tag : string) (fm : Form) : Prog WebReply :=
    let ref := device_ref tag in
    then* requireWeb v ref Editor in
    match posture_action (FormValue fm "action") with
    | None => say "unknown posture action"
    | Some (key, val, what) =>
        then* (if (key ==? "secureboot.enable") && negb val
               then try_ SettingW (GuardBricking ref [mkChange key "false" false false]) else Ret tt) in
        then* applyAt v ref (CSetScopeSetting ref key (VBool val)) ("posture: " +:+ what +:+ " at " +:+ ref) in
        see (device_page tag)
    end.

Definition intent_role (intent : string) : Role :=
    if intent ∈? [IntentReboot; IntentDiagnostics] then Editor else Owner_.

Definition postDeviceIntent (v : View) (tag : string) (fm : Form) : Prog WebReply :=
    let intent := FormValue fm "intent" in
    then* requireWeb v "org" (intent_role intent) in
    then* unless ((intent ==? IntentDiagnostics) && negb (sc_diagnostics sc))
            (Said "diagnostics collection is disabled in this deployment") in
    then* unless ((intent ==? IntentWipe) && (FormValue fm "confirm" !=? tag))
            (Said "type the device tag exactly to confirm a wipe") in
    then* applyGated v (Plain (CSetDeviceIntent tag intent (FormValue fm "force" !=? ""))) ("intent: " +:+ intent +:+ " " +:+ tag) [tag] in
    see (device_page tag).

Definition postDeviceIntentClear (v : View) (tag : string) : Prog WebReply :=
    then* requireWeb v "org" Owner_ in
    then* applyGated v (Plain (CClearDeviceIntent tag)) ("intent: clear " +:+ tag) [tag] in
    see (device_page tag).

(** ** Secrets of a device (secret_ops.go) *)

Definition postSecretReveal (v : View) (tag : string) (kind : DeviceSecrets.SecretKind) (fm : Form) : Prog WebReply :=
    then* requireWeb v "org" Owner_ in
    then* unless (negb (sc_secrets sc)) (Said "secret store is not configured") in
    then* unless (negb (DeviceSecrets.ValidSecretKind kind)) (Said "unknown secret kind") in
    let by_ := if v_email v ==? "" then u_Subject (v_user v) else v_email v in
    let* found := try_ ServiceW (Reveal tag kind by_) in
    match found with
    | None => Ret (mkReplyW NotFound None)
    | Some value =>
        let back := FormValue fm "back" in
        Ret (mkReplyW (SecretPage tag kind value (if local_back back then back else device_page tag)) None)
    end.

(** ** Settings, bundles and app lists (settings.go, bundle_ops.go, policy_ops.go) *)

(** [errors.Is(err, ErrChangeRequestRequired)], where changes are wired. *)
Definition staged_instead (o : option WebErr) : bool :=
    sc_changes sc && match o with Some (SettingW ChangeRequestRequired) => true | _ => false end.

Definition blank_text (s : string) : bool := trim_space s ==? "".

Definition stageSettingsAsChange (v : View) (scope : string) (changes : list SettingChange) (marker : string) : Prog WebReply :=
    let* fc := ask ReadSnapshot in
    let* compiled := of_res SettingW (SettingsMutation fc.2 fc.1 scope changes) in
    let '(_, msg, hosts) := compiled in
    let* known := try_ ChangeW ChangeList in
    match nextChangeID scope (Changes.cr_ID <$> known) with
    | None => say "no identifier"
    | Some id =>
        let title := "Settings: " +:+ pretty (length changes) +:+ " change(s) at " +:+ scopeLabel scope in
        then* try_ ChangeW (ChangeOpen id title (webAuthor v)) in
        Ask (ChangeEdit id (StageBatch fc.1 fc.2 scope changes) (msg +:+ marker) (webAuthor v) hosts) (λ r,
          match r with
          | Err e => Ask (ChangeAbandon id) (λ _, Fail (ChangeW e))
          | Ok _ =>
              Ask (ChangeDiff id) (λ d,
                match d with
                | Some diff =>
                    if blank_text diff then Ask (ChangeAbandon id) (λ _, see (settings_page scope)) else see "/updates"
                | None => see "/updates"
                end)
          end)
    end.

(** The guards, then the gated save; where a review is required the changes are
    staged instead. *)
Definition guarded_save (v : View) (scope desc marker : string) (changes : list SettingChange)
      (landed : bool → Prog WebReply) : Prog WebReply :=
    then* Ask (GuardExclusive scope changes) (λ o, match o with Some e => Fail (SettingW e) | None => Ret tt end) in
    then* try_ SettingW (GuardBricking scope changes) in
    Gated desc (try_ SettingW (SaveSettings scope changes marker (webAuthor v))) (λ o,
      match o with
      | Inline None => landed false
      | Detached => landed true
      | Inline (Some e) => if staged_instead (Some e) then stageSettingsAsChange v scope changes marker else Fail e
      end).

Definition postSetting (v : View) (fm : Form) : Prog WebReply :=
    let scope := FormValue fm "scope" in
    then* requireWeb v scope Editor in
    let* fc := ask ReadSnapshot in
    let* changes := of_res FormW (submitted_changes fc.1 fc.2 scope fm) in
    let landed detached := see (save_landing fm scope detached) in
    if changes ==? [] then landed false else
    let marker := riskMarkerFor fc.2 changes in
    guarded_save v scope ("settings: " +:+ pretty (length changes) +:+ " change(s) at " +:+ scopeLabel scope +:+ marker)
      marker changes landed.

Definition postBundleApply (v : View) (name : string) (fm : Form) : Prog WebReply :=
    let scope := if FormValue fm "scope" ==? "" then "org" else FormValue fm "scope" in
    then* requireWeb v scope Editor in
    let* bundles := ask ReadBundles in
    match Get bundles name with
    | None => say ("unknown bundle " +:+ name)
    | Some b =>
        let* fc := ask ReadSnapshot in
        let changes := bundle_changes fc.2 b fm in
        if changes ==? [] then see (settings_page scope) else
        let marker := riskMarkerFor fc.2 changes in
        guarded_save v scope ("bundle: apply " +:+ name +:+ " at " +:+ scopeLabel scope +:+ marker) marker changes
          (λ _, see (settings_page scope))
    end.

Definition postScopeApps (v : View) (fm : Form) : Prog WebReply :=
    let scope := FormValue fm "scope" in
    let kind := FormValue fm "kind" in
    then* requireWeb v scope Editor in
    let names := app_names (FormValue fm "names") in
    then* applyAt v scope (CSetScopeApps scope kind names)
            ("apps: set " +:+ kind +:+ " at " +:+ scope +:+ " (" +:+ pretty (length names) +:+ ")") in
    see (settings_page scope).

(** ** Policies, assignments, filters, hardware (policy_ops.go, hardware.go) *)

Definition postPolicyPut (v : View) (fm : Form) : Prog WebReply :=
    then* requireWeb v "org" Owner_ in
    let id := trimmed fm "id" in
    let* fc := ask ReadSnapshot in
    let* p := of_res FormW (submitted_policy json_any fc.1 fc.2 id fm) in
    then* applyGated v (Plain (CPutPolicy id p)) ("policies: put " +:+ id) [] in
    see "/policies".

Definition postPolicyDelete (v : View) (id : string) : Prog WebReply :=
    owner_edit v (CDeletePolicy id) ("policies: delete " +:+ id) "/policies".

Definition postProfileApply (v : View) (name : string) : Prog WebReply :=
    then* requireWeb v "org" Owner_ in
    let* p := ask (ReadProfile name) in
    match p with
    | None => say ("unknown profile " +:+ name)
    | Some p =>
        then* applyGated v (Plain (CApplyProfile p)) ("policies: apply profile " +:+ Provenance profile_hash p) [] in
        see "/policies"
    end.

Definition postAssignmentAdd (v : View) (fm : Form) : Prog WebReply :=
    let a := Build_Assignment (FormValue fm "policy") (FormValue fm "target") (FormValue fm "filter") 0 in
    then* requireWeb v (Target a) Owner_ in
    then* applyAt v (Target a) (CAssign a) ("policies: assign " +:+ a_Policy a +:+ " to " +:+ Target a) in
    see "/policies".

Definition postAssignmentDelete (v : View) (fm : Form) : Prog WebReply :=
    let policy := FormValue fm "policy" in
    let target := FormValue fm "target" in
    then* requireWeb v target Owner_ in
    then* applyAt v target (CUnassign policy target (FormValue fm "filter")) ("policies: unassign " +:+ policy +:+ " from " +:+ target) in
    see "/policies".

Definition postFilterPut (v : View) (fm : Form) : Prog WebReply :=
    let id := trimmed fm "id" in
    owner_edit v (CPutFilter id (submitted_filter fm)) ("filters: put " +:+ id) "/policies".

Definition postFilterDelete (v : View) (id : string) : Prog WebReply :=
    owner_edit v (CDeleteFilter id) ("filters: delete " +:+ id) "/policies".

Definition postHardwareConfigure (v : View) (name : string) (fm : Form) : Prog WebReply :=
    then* requireWeb v "org" Owner_ in
    let raw := trimmed fm "settings" in
    let* fc := ask ReadSnapshot in
    let* settings := if raw ==? "" then Ret ∅ else of_res FormW (parsePolicySettings json_any fc.2 raw) in
    let target := if trimmed fm "target" ==? "" then "org" else trimmed fm "target" in
    let msg := if settings ==? ∅ then "hardware: clear the configuration for " +:+ name
               else "hardware: configure " +:+ name +:+ " at " +:+ target in
    then* applyGated v (Plain (CConfigureHardware name target settings (comma_list (FormValue fm "enforced")))) msg [] in
    see "/hardware".

(** ** Changes (changes_page.go, change_ops.go) *)

Definition postChange (v : View) (fm : Form) : Prog WebReply :=
    then* requireWeb v "org" Editor in
    then* try_ ChangeW (ChangeOpen (FormValue fm "id") (FormValue fm "title") (webAuthor v)) in
    see "/updates".

Definition postChangeEdit (v : View) (id : string) (fm : Form) : Prog WebReply :=
    let scope := FormValue fm "scope" in
    let key := trimmed fm "key" in
    then* requireWeb v scope Editor in
    then* unless (key ==? "") (Said "setting key required") in
    let stage ed msg :=
      let* hosts := affected scope in
      then* try_ ChangeW (ChangeEdit id ed msg (webAuthor v) hosts) in see "/updates" in
    if FormValue fm "clear" ==? "1" then stage (StageClear scope key) ("settings: clear " +:+ key +:+ " at " +:+ scope) else
    let raw := trimmed fm "value" in
    then* unless (raw ==? "") (Said ("no value given for " +:+ key)) in
    let* fc := ask ReadSnapshot in
    match Lookup fc.2 key with
    | None => say ("unknown setting " +:+ key +:+ " (not in the catalog)")
    | Some entry =>
        let* val := of_res CatalogW (ParseValue entry raw) in
        stage (StageSet scope key val) ("settings: set " +:+ key +:+ " at " +:+ scope)
    end.

Definition postChangeSubmit (v : View) (id : string) : Prog WebReply :=
    then* requireWeb v "org" Editor in
    let* detached := runGatedDetached ("change " +:+ id +:+ " submitted") (try_ ChangeW (ChangeSubmit id)) in
    see (updatesURL detached id).

(** [deliveryGroups]: the primary group of every host, once, in order. *)
Definition DeliveryGroups (f : Fleet) (hosts : list string) : list string :=
    sort_strings (remove_dups (omap (λ h, Devices f !! h ≫= λ d, head (Groups d)) hosts)).

Definition manual_only (f : Fleet) : bool := match f_Assurance f with Some a => ManualRolloutOnly a | None => false end.

Definition postChangeMerge (v : View) (id : string) (fm : Form) : Prog WebReply :=
    then* requireWeb v "org" Owner_ in
    if FormValue fm "confirmed" !=? "1" then
      let* found := try_ ChangeW (ChangeGet id) in
      match found with
      | None => say ("change " +:+ id +:+ " not found")
      | Some cr =>
          let* f := ask ReadFleet in
          let groups := if Changes.WholeFleet cr then [] else DeliveryGroups f (Changes.Hosts cr) in
          Ret (mkReplyW (ConfirmMerge id (Changes.Title cr) (manual_only f) (Changes.WholeFleet cr)
                 (negb (Changes.WholeFleet cr) && (groups ==? [])) groups (HasTestGate (Rollout f))) None)
      end
    else
      let* detached := runGatedDetached ("change " +:+ id +:+ " merged") (try_ ChangeW (ChangeMerge id (webAuthor v))) in
      see (updatesURL detached id).

Definition postChangeAbandon (v : View) (id : string) : Prog WebReply :=
    then* requireWeb v "org" Editor in
    then* try_ ChangeW (ChangeAbandon id) in
    see "/updates".

(** ** Rollouts (rollout_ops.go, change_ops.go) *)

Definition postRolloutStart (v : View) (fm : Form) : Prog WebReply :=
    then* requireWeb v "org" Owner_ in
    let* f := ask ReadFleet in
    let target := trimmed fm "target" in
    then* unless (target ==? "") (Said "rollout needs a target revision") in
    let scope := WavePlans.normalizeScope (FormValue fm "scope") in
    let expedited := FormValue fm "expedited" ==? "1" in
    let skip := FormValue fm "skipTestWave" !=? "" in
    let needsTestWave := match f_Assurance f with Some a => RequireTestWave a | None => false end && negb (HasTestGate (Rollout f)) in
    then* unless (needsTestWave && negb skip) (Said "a gated test wave is required") in
    let* rows := of_res PlanW (WavePlans.rolloutPreview f scope) in
    if FormValue fm "confirmed" !=? "1" then
      Ret (mkReplyW (ConfirmRollout target scope rows (match rows with r :: _ => WavePlans.pw_Manual r | [] => false end) expedited skip) None)
    else
      then* try_ RolloutW (RunStart target (Engine.mkOpts (if scope ==? "" then [] else [scope]) expedited "" "")) in
      see "/updates/rollout".

(** One call to the engine, by an owner. *)
Definition run_control (v : View) (c : Call (res Engine.EngErr unit)) : Prog WebReply :=
    then* requireWeb v "org" Owner_ in then* try_ RolloutW c in see "/updates/rollout".

Definition postRolloutTick (v : View) : Prog WebReply := run_control v RunTick.
Definition postRolloutPause (v : View) : Prog WebReply := run_control v RunPause.
Definition postRolloutResume (v : View) : Prog WebReply := run_control v RunResume.
Definition postRolloutCancel (v : View) : Prog WebReply := run_control v RunCancel.
Definition postRolloutApprove (v : View) : Prog WebReply :=
    then* requireWeb v "org" Owner_ in
    then* try_ RolloutW RunApprove in
    then* try_ RolloutW RunTick in
    see "/updates/rollout".

Definition postRolloutPlan (v : View) (fm : Form) : Prog WebReply :=
    then* requireWeb v "org" Owner_ in
    let* f := ask ReadFleet in
    let* plan := of_res PlanW (WavePlans.plan_of_rows f (plan_rows fm)) in
    then* applyGated v (Plain (CSetRolloutPlan plan)) (match plan with None => "rollout: clear plan" | Some _ => "rollout: replace plan" end) [] in
    see "/org/updates".

Definition postUpdatesPolicy (v : View) (fm : Form) : Prog WebReply :=
    then* requireWeb v "org" Owner_ in
    let test := trimmed fm "testgroup" in
    let* f := ask ReadFleet in
    then* unless (negb (bool_decide (test ∈ dom (f_Groups f)))) (Said ("unknown test group " +:+ test)) in
    let* percents := of_res PlanW (WavePlans.parsePercents (FormValue fm "percents")) in
    then* applyGated v (Plain (CSetRolloutPlan (Some (WavePlans.derivePlan f test percents))))
            ("rollout: derive plan from test group " +:+ test) [] in
    see "/org/updates".

(** ** Stations and enrolment (station.go, enroll.go, enroll_core.go) *)

Definition postStationRegister (v : View) (fm : Form) : Prog WebReply :=
    let tag := trimmed fm "tag" in
    owner_edit v (CAddStation tag {| st_Description := trimmed fm "description"; st_Site := trimmed fm "site" |})
      ("stations: register " +:+ tag) ("/station?tag=" +:+ QueryEscape tag).

Definition postStationRemove (v : View) (tag : string) : Prog WebReply :=
    then* requireWeb v "org" Owner_ in
    then* applyGated v (Plain (CRemoveStation tag)) ("stations: remove " +:+ tag) [] in
    then* (if sc_stationCreds sc then ask (RevokeFor Tokens.Station tag) else Ret tt) in
    see "/station".

Definition postStationCredential (v : View) (tag : string) : Prog WebReply :=
    then* unless (negb (sc_stationCreds sc)) (Said "station credentials need the token store (Postgres)") in
    then* requireWeb v "org" Owner_ in
    let* secret := try_ TokenW (IssueFor Tokens.Station tag) in
    Ret (mkReplyW (Redirect ("/station?tag=" +:+ QueryEscape tag)) (Some (mkCookie "sextant_stationcred" secret "/station"))).

Definition postDiscoveredRemove (v : View) (station mac : string) : Prog WebReply :=
    then* unless (negb (sc_discovery sc)) (Said "imaging stations need the observed store") in
    then* requireWeb v "org" Editor in
    then* try_ ServiceW (DiscoveredDrop station mac) in
    see ("/enroll?station=" +:+ QueryEscape station).

Definition postEnrollJobCancel (v : View) (station mac : string) : Prog WebReply :=
    then* unless (negb (sc_imaging sc)) (Said "imaging execution needs the database (postgres not configured)") in
    then* requireWeb v "org" Editor in
    then* try_ ServiceW (JobCancel station mac) in
    see ("/enroll?station=" +:+ QueryEscape station).

Definition spec_of (d : Stations.Discovered) : HardwareSpec :=
    Build_HardwareSpec (Stations.disc_Vendor d) (Stations.disc_Model d) (Stations.disc_Serial d) (Stations.disc_CPU d)
      (Stations.disc_Cores d) (Stations.disc_MemGB d) (Stations.disc_DiskGB d) (Stations.disc_Firmware d).
Definition seen_itam (d : Stations.Discovered) : ITAM :=
    Build_ITAM (Stations.disc_Serial d) (Stations.disc_Model d) "" "" "" "".

(** The record of a discovered machine and the document of its hardware; without
    discovery data a bare record. *)
Definition discoveredDevice (station mac hardware class : string) (groups : list string) : Prog (Device * option string) :=
    let bare := zero_device <| Hardware := trim_space hardware |> <| Class := trim_space class |> <| Groups := groups |> in
    if mac ==? "" then Ret (bare, None) else
    Ask (DiscoveredGet station mac) (λ o, Ret (
      match o with
      | None => (bare, None)
      | Some d =>
          ((if Bundles.Empty (spec_of d) then bare else bare <| Spec := Some (spec_of d) |> <| d_ITAM := seen_itam d |>),
           (if Stations.disc_Facter d !=? "" then Some (Stations.disc_Facter d) else None))
      end)).

(** The names of a batch: none blank, none odd, none twice. *)
Fixpoint batch_names (fm : Form) (seen : list string) (macs : list string) : res string (list string) :=
    match macs with
    | [] => Ok []
    | mac :: macs =>
        let name := trimmed fm ("name-" +:+ macKey mac) in
        refuse name ==? "" with "device " +:+ mac +:+ " needs a name";
        refuse negb (slugRE name) with "name " +:+ name +:+ " for " +:+ mac +:+ " must be a lowercase slug (a-z, 0-9, -)";
        refuse name ∈? seen with "name " +:+ name +:+ " is used twice - names must be unique";
        let! names := batch_names fm (name :: seen) macs in Ok (name :: names)
    end.

Fixpoint batch_items (station hardware class : string) (groups : list string) (l : list (string * string)) : Prog (list BatchItem) :=
    match l with
    | [] => Ret []
    | (mac, tag) :: l =>
        let* df := discoveredDevice station mac hardware class groups in
        let* items := batch_items station hardware class groups l in
        Ret (mkItem mac tag df.1 df.2 :: items)
    end.

(** After the commit: the facts, and the job - or, without imaging, the
    credential and the end of the discovery row. *)
Definition dispatch_item (station hardware rev : string) (p : BatchItem) : Prog unit :=
    then* match bi_facter p with Some facts => if sc_inventory sc then ask (KeepFacts (bi_tag p) facts) else Ret tt | None => Ret tt end in
    if sc_imaging sc
    then ask (JobDispatch (Imaging.mkJob station (Stations.NormalizeMAC (bi_mac p)) (bi_tag p) hardware rev Imaging.NoStatus 0 "" ""))
    else
      then* (if sc_devCreds sc then Ask (IssueFor Tokens.Device (bi_tag p)) (λ _, Ret tt) else Ret tt) in
      Ask (DiscoveredDrop station (bi_mac p)) (λ _, Ret tt).

Fixpoint dispatch_all (station hardware rev : string) (items : list BatchItem) : Prog unit :=
    match items with
    | [] => Ret tt
    | p :: items => then* dispatch_item station hardware rev p in dispatch_all station hardware rev items
    end.

Definition enroll_write (v : View) (station hardware msg : string) (items : list BatchItem) (tags : list string) : Prog unit :=
    let* now := ask Clock in
    then* try_ ConfigW (ApplyEdit (EnrollBatch items now) msg (webAuthor v) tags) in
    let* rev := ask ReadHead in
    then* (if sc_rollouts sc && (rev !=? "") then try_ ServiceW (RingsContain tags rev) else Ret tt) in
    dispatch_all station hardware rev items.

Definition postEnrollBatch (v : View) (station : string) (fm : Form) : Prog WebReply :=
    then* unless (negb (sc_discovery sc)) (Said "imaging stations need the observed store") in
    let macs := FormValues fm "mac" in
    then* unless (macs ==? []) (Said "select at least one device to enroll") in
    let hardware := trimmed fm "hardware" in
    let class := trimmed fm "class" in
    let group := trimmed fm "group" in
    let* profiles := ask ReadHardware in
    then* unless (negb (ix_order profiles ==? []) && negb (bool_decide (is_Some (Get profiles hardware))))
            (Said ("hardware profile " +:+ hardware +:+ " is not one of the published profiles")) in
    then* requireWeb v (if group !=? "" then group_ref group else "org") Editor in
    let* tags := of_res Said (batch_names fm [] macs) in
    let* items := batch_items station hardware class (if group !=? "" then [group] else []) (zip macs tags) in
    let msg := "devices: enroll " +:+ pretty (length items) +:+ " device(s) from station " +:+ station +:+ " (" +:+ hardware +:+ ")" in
    then* runGated msg (enroll_write v station hardware msg items tags) in
    see (if sc_imaging sc then "/enroll/" +:+ PathEscape station +:+ "/wizard" else "/enroll?station=" +:+ QueryEscape station).

(** ** Secret references and overlays (secrets.go, overlays.go) *)

Definition postSecretRegister (v : View) (fm : Form) : Prog WebReply :=
    then* requireWeb v "org" Owner_ in
    let name := trimmed fm "name" in
    then* structural v (CAddSecretRef name {| sr_Description := trimmed fm "description" |}) ("secrets: register reference " +:+ name) in
    see "/secrets".

Definition postSecretRemove (v : View) (name : string) : Prog WebReply :=
    owner_edit v (CRemoveSecretRef name) ("secrets: remove reference " +:+ name) "/secrets".

Definition postOverlayWrite (v : View) (fm : Form) : Prog WebReply :=
    then* requireWeb v "org" Owner_ in
    let name := trimmed fm "name" in
    then* try_ ServiceW (SaveOverlay name (FormValue fm "code") (webAuthor v)) in
    see ("/overlays?name=" +:+ QueryEscape name).

Definition postOverlayCheck (v : View) (fm : Form) : Prog WebReply :=
    then* requireWeb v "org" Owner_ in
    let code := FormValue fm "code" in
    let* names := ask ListOverlays in
    let* said := if sc_syntax sc then ask (CheckSyntax code) else Ret None in
    Ret (mkReplyW (OverlayPage names (trimmed fm "name") code said) None).

Definition postOverlayRemove (v : View) (name : string) : Prog WebReply :=
    then* requireWeb v "org" Owner_ in
    then* try_ ServiceW (DropOverlay name (webAuthor v)) in
    see "/overlays".

(** ** Tokens and preferences (service_accounts.go, profile.go) *)

(** A number of days as a lifetime; none is the default. *)
Definition ttl_field (fm : Form) : Prog Z :=
    let d := FormValue fm "ttlDays" in
    if d ==? "" then Ret 0 else
    match WavePlans.Atoi d with
    | Some n => if n <=? 0 then say "ttlDays expects a positive number of days" else Ret (dur (wrap64 (n * 24)) Hour)
    | None => say "ttlDays expects a positive number of days"
    end.

Definition postServiceAccountMint (v : View) (fm : Form) : Prog WebReply :=
    then* requireWeb v "org" Owner_ in
    then* unless (negb (sc_tokens sc)) (Said "service accounts need the database (postgres not configured)") in
    let id := trimmed fm "id" in
    then* unless (id ==? "") (Said "service account id required") in
    let name := if trimmed fm "name" ==? "" then id else trimmed fm "name" in
    let* f := ask ReadFleet in
    let groups := keep_if (λ g, g ∈? (b_Group <$> Access f)) (FormValues fm "groups") in
    let* ttl := ttl_field fm in
    let* secret := try_ TokenW (TokenMint (Credentials.mkMintRequest id name Tokens.Service ("svc:" +:+ id) groups (FormValue fm "ceiling") ttl)) in
    Ret (mkReplyW (Redirect "/service-accounts") (Some (mkCookie "sextant_svc_minted" secret "/service-accounts"))).

Definition has_id (id : string) (toks : list Tokens.Token) : bool := existsb (λ t, Tokens.tok_ID t ==? id) toks.

Definition postServiceAccountRevoke (v : View) (id : string) : Prog WebReply :=
    then* requireWeb v "org" Owner_ in
    then* unless (negb (sc_tokens sc)) (Said "service accounts need the database (postgres not configured)") in
    let* toks := try_ ServiceW ServiceTokens in
    then* unless (negb (has_id id toks)) (Said ("unknown service account " +:+ id)) in
    then* try_ TokenW (TokenRevoke id) in
    see "/service-accounts".

Definition postProfilePrefs (v : View) (fm : Form) : Prog WebReply :=
    then* unless (negb (sc_prefs sc)) (Said "preferences need the database (postgres not configured)") in
    let p := People.mkPrefs (trimmed fm "timezone") (FormValue fm "locale") in
    then* match People.ValidatePrefs load_location p with Some e => Fail (PrefsW e) | None => Ret tt end in
    then* try_ ServiceW (PutPreferences (u_Subject (v_user v)) p) in
    see "/profile".

Definition postProfileTokenMint (v : View) (fm : Form) : Prog WebReply :=
    then* unless (negb (sc_tokens sc)) (Said "tokens need the database (postgres not configured)") in
    let name := trimmed fm "name" in
    then* unless (name ==? "") (Said "token name required") in
    let* buf := ask RandomID in
    match buf with
    | None => say "random source failed"
    | Some hex =>
        let* ttl := ttl_field fm in
        let* secret := try_ TokenW (TokenMint (Credentials.mkMintRequest ("pt-" +:+ hex) name Tokens.Personal (u_Subject (v_user v))
                                                 (u_Groups (v_user v)) (FormValue fm "ceiling") ttl)) in
        Ret (mkReplyW (Redirect "/profile") (Some (mkCookie "sextant_minted" secret "/profile")))
    end.

Definition postProfileTokenRevoke (v : View) (id : string) : Prog WebReply :=
    then* unless (negb (sc_tokens sc)) (Said "tokens need the database (postgres not configured)") in
    let* toks := try_ ServiceW (TokensOf (u_Subject (v_user v))) in
    then* unless (negb (has_id id toks)) (Said ("unknown token " +:+ id)) in
    then* try_ TokenW (TokenRevoke id) in
    see "/profile".

(** ** The deployment (erasure.go, forge.go, mail.go) *)

Definition postErasurePreview (v : View) (fm : Form) : Prog WebReply :=
    then* requireWeb v "org" Owner_ in
    then* unless (negb (sc_erasure sc)) (Said "erasure needs the database (postgres not configured)") in
    let* rep := try_ ServiceW (ErasePreview (trimmed fm "subject") (trimmed fm "username")) in
    Ret (mkReplyW (ErasurePage rep false) None).

Definition postErasureConfirm (v : View) (fm : Form) : Prog WebReply :=
    then* requireWeb v "org" Owner_ in
    then* unless (negb (sc_erasure sc)) (Said "erasure needs the database (postgres not configured)") in
    let* rep := try_ ServiceW (EraseNow (trimmed fm "subject") (trimmed fm "username")) in
    Ret (mkReplyW (ErasurePage rep true) None).

Definition postForgeSave (v : View) (fm : Form) : Prog WebReply :=
    then* requireWeb v "org" Owner_ in
    then* unless (negb (sc_forge sc)) (Said "the forge account needs the database (postgres not configured)") in
    then* try_ ServiceW (ForgeSet (trimmed fm "host") (trimmed fm "username") (trimmed fm "token") (v_name v)) in
    see "/org/forge?saved=1".

Definition postForgeClear (v : View) : Prog WebReply :=
    then* requireWeb v "org" Owner_ in
    then* unless (negb (sc_forge sc)) (Said "the forge account needs the database (postgres not configured)") in
    then* try_ ServiceW (ForgeClear (v_name v)) in
    see "/org/forge".

Definition no_mail : string := "e-mail is not configured on this console (no SMTP service wired)".

(** [port, _ := strconv.Atoi(...)]: out of range is the nearest number, anything
    else zero. *)
Definition clamped_atoi (s : string) : Z :=
    let '(neg, digits) :=
      match s with
      | String a r => if Ascii.eqb a "-" then (true, r) else if Ascii.eqb a "+" then (false, r) else (false, s)
      | EmptyString => (false, s)
      end in
    if (digits ==? "") || negb (string_forall is_digit digits) then 0
    else Z.max min_int64 (Z.min max_int64 ((if neg then -1 else 1) * digits_val 0 digits)).

Definition postMailSave (v : View) (fm : Form) : Prog WebReply :=
    then* requireWeb v "org" Owner_ in
    then* unless (negb (sc_mail sc)) (Said no_mail) in
    let port := clamped_atoi (trimmed fm "port") in
    then* try_ ServiceW (MailSave (trimmed fm "host") port (trimmed fm "from") (trimmed fm "username") (trimmed fm "passwordRef")
                           (trimmed fm "security") (FormValue fm "password")) in
    see "/mail".

Definition postMailTest (v : View) (fm : Form) : Prog WebReply :=
    then* requireWeb v "org" Owner_ in
    then* unless (negb (sc_mail sc)) (Said no_mail) in
    then* try_ ServiceW (MailTest (if trimmed fm "to" ==? "" then v_email v else trimmed fm "to")) in
    see "/mail?sent=1".

Definition postMailDelete (v : View) : Prog WebReply :=
    then* requireWeb v "org" Owner_ in
    then* unless (negb (sc_mail sc)) (Said no_mail) in
    then* try_ ServiceW MailDelete in
    see "/mail".

(** ** The inbox and elevation (notifications.go, elevation.go) *)

Definition postNotificationRead (v : View) (id : string) (fm : Form) : Prog WebReply :=
    then* (if sc_notify sc then try_ ServiceW (NoteRead id (u_Subject (v_user v))) else Ret tt) in
    see (safeLocalPath (FormValue fm "to")).

Definition postNotificationsReadAll (v : View) : Prog WebReply :=
    then* (if sc_notify sc then try_ ServiceW (NotesRead (u_Subject (v_user v)) (u_Groups (v_user v))) else Ret tt) in
    see "/notifications".

Definition elevationDecide (v : View) (id : string) (fm : Form) : Prog WebReply :=
    then* unless (negb (sc_elevation sc)) (Said "elevation requests are not enabled") in
    then* requireWeb v "org" Editor in
    then* try_ ServiceW (ElevationDecide id (FormValue fm "decision" ==? "approve") (u_Subject (v_user v))) in
    see "/elevation".

(** ** The routes (web.go) *)

(** The POST routes, each with its path values. *)
Inductive Route :=
  | RtElevation (id : string) | RtUpdatesPolicy | RtUpdatesWindow
  | RtNotesReadAll | RtNoteRead (id : string) | RtMail | RtMailTest | RtMailDelete
  | RtDevices | RtDeviceSettings (tag : string) | RtDevicePosture (tag : string)
  | RtDeviceIntent (tag : string) | RtDeviceIntentClear (tag : string)
  | RtReveal (tag : string) (kind : DeviceSecrets.SecretKind)
  | RtDeviceRetire (tag : string) | RtDeviceReactivate (tag : string) | RtDeviceRemove (tag : string)
  | RtDeviceCredential (tag : string) | RtDeviceUpdate (tag : string) | RtDevicesGroup
  | RtSettings | RtBundleApply (name : string) | RtHardwareConfigure (name : string)
  | RtPolicies | RtPolicyDelete (id : string) | RtProfileApply (name : string)
  | RtAssignments | RtAssignmentsDelete | RtFilters | RtFilterDelete (id : string) | RtApps
  | RtGroups | RtGroupUpdate (name : string) | RtGroupUnpin (name : string) | RtGroupRemove (name : string)
  | RtChanges | RtChangeEdits (id : string) | RtChangeSubmit (id : string) | RtChangeMerge (id : string)
  | RtChangeAbandon (id : string)
  | RtRollout | RtRolloutPlan | RtRolloutTick | RtRolloutApprove | RtRolloutCancel | RtRolloutPause | RtRolloutResume
  | RtAccessGrant | RtAccessRevoke | RtAssurance
  | RtProfilePrefs | RtProfileTokens | RtProfileTokenRevoke (id : string)
  | RtEnrollBatch (station : string) | RtDiscoveredRemove (station mac : string) | RtJobCancel (station mac : string)
  | RtStations | RtStationCredential (tag : string) | RtStationRemove (tag : string)
  | RtSecrets | RtSecretRemove (name : string)
  | RtErasurePreview | RtErasureConfirm | RtForge | RtForgeClear
  | RtOverlays | RtOverlaysCheck | RtOverlayRemove (name : string)
  | RtServiceAccounts | RtServiceAccountRevoke (id : string)
  | RtAcceptances | RtAcceptancesClear.

Definition handle (v : View) (r : Route) (fm : Form) : Prog WebReply :=
    match r with
    | RtElevation id => elevationDecide v id fm
    | RtUpdatesPolicy => postUpdatesPolicy v fm
    | RtUpdatesWindow => postGroupWindow v fm
    | RtNotesReadAll => postNotificationsReadAll v
    | RtNoteRead id => postNotificationRead v id fm
    | RtMail => postMailSave v fm
    | RtMailTest => postMailTest v fm
    | RtMailDelete => postMailDelete v
    | RtDevices => postDeviceEnroll v fm
    | RtDeviceSettings tag => postDeviceSetting v tag fm
    | RtDevicePosture tag => postDevicePosture v tag fm
    | RtDeviceIntent tag => postDeviceIntent v tag fm
    | RtDeviceIntentClear tag => postDeviceIntentClear v tag
    | RtReveal tag kind => postSecretReveal v tag kind fm
    | RtDeviceRetire tag => postDeviceRetire v tag
    | RtDeviceReactivate tag => postDeviceReactivate v tag
    | RtDeviceRemove tag => postDeviceRemove v tag
    | RtDeviceCredential tag => postDeviceCredential v tag
    | RtDeviceUpdate tag => postDeviceUpdate v tag fm
    | RtDevicesGroup => postDevicesGroupCreate v fm
    | RtSettings => postSetting v fm
    | RtBundleApply name => postBundleApply v name fm
    | RtHardwareConfigure name => postHardwareConfigure v name fm
    | RtPolicies => postPolicyPut v fm
    | RtPolicyDelete id => postPolicyDelete v id
    | RtProfileApply name => postProfileApply v name
    | RtAssignments => postAssignmentAdd v fm
    | RtAssignmentsDelete => postAssignmentDelete v fm
    | RtFilters => postFilterPut v fm
    | RtFilterDelete id => postFilterDelete v id
    | RtApps => postScopeApps v fm
    | RtGroups => postGroupAdd v fm
    | RtGroupUpdate name => postGroupUpdate v name fm
    | RtGroupUnpin name => postGroupUnpin v name
    | RtGroupRemove name => postGroupRemove v name
    | RtChanges => postChange v fm
    | RtChangeEdits id => postChangeEdit v id fm
    | RtChangeSubmit id => postChangeSubmit v id
    | RtChangeMerge id => postChangeMerge v id fm
    | RtChangeAbandon id => postChangeAbandon v id
    | RtRollout => postRolloutStart v fm
    | RtRolloutPlan => postRolloutPlan v fm
    | RtRolloutTick => postRolloutTick v
    | RtRolloutApprove => postRolloutApprove v
    | RtRolloutCancel => postRolloutCancel v
    | RtRolloutPause => postRolloutPause v
    | RtRolloutResume => postRolloutResume v
    | RtAccessGrant => postAccessGrant v fm
    | RtAccessRevoke => postAccessRevoke v fm
    | RtAssurance => postAssurance v fm
    | RtProfilePrefs => postProfilePrefs v fm
    | RtProfileTokens => postProfileTokenMint v fm
    | RtProfileTokenRevoke id => postProfileTokenRevoke v id
    | RtEnrollBatch station => postEnrollBatch v station fm
    | RtDiscoveredRemove station mac => postDiscoveredRemove v station mac
    | RtJobCancel station mac => postEnrollJobCancel v station mac
    | RtStations => postStationRegister v fm
    | RtStationCredential tag => postStationCredential v tag
    | RtStationRemove tag => postStationRemove v tag
    | RtSecrets => postSecretRegister v fm
    | RtSecretRemove name => postSecretRemove v name
    | RtErasurePreview => postErasurePreview v fm
    | RtErasureConfirm => postErasureConfirm v fm
    | RtForge => postForgeSave v fm
    | RtForgeClear => postForgeClear v
    | RtOverlays => postOverlayWrite v fm
    | RtOverlaysCheck => postOverlayCheck v fm
    | RtOverlayRemove name => postOverlayRemove v name
    | RtServiceAccounts => postServiceAccountMint v fm
    | RtServiceAccountRevoke id => postServiceAccountRevoke v id
    | RtAcceptances => postAcceptance v fm
    | RtAcceptancesClear => postAcceptanceClear v fm
    end.

(** ** The wrapper of an action (middleware.go) *)

(** What the wrapper makes of a request: the sign-in page, a refusal, or the
    handler's program. *)
Inductive Verdict := ToLogin | Refused (text : string) | Run (m : Prog WebReply).

Definition authed (f : Fleet) (se : option (User * string * string * string)) : Verdict + View :=
    match se with
    | None => inl ToLogin
    | Some (u, name, email, csrf) =>
        let v := mkView u name email csrf f in
        if CanViewAnything (H := fleet_directory f)
             (IdentityResolver f (sc_baseViewer sc) (sc_baseEditor sc) (sc_baseOwner sc)) u
        then inr v else inl (Refused "no role grants console access to your account")
    end.

Definition action (f : Fleet) (se : option (User * string * string * string)) (r : Route) (fm : Form) : Verdict :=
    match authed f se with
    | inl no => no
    | inr v =>
        if negb (sc_write sc) then Refused "server is read-only"
        else if (FormValue fm "csrf" !=? v_csrf v) || (v_csrf v ==? "") then Refused "invalid csrf token"
        else Run (handle v r fm)
    end.

(** ** Failures to statuses (errors.go) *)

  (** The kinds an error text stands for. *)
  #[local] Existing Instance Api.ErrKind_eq_dec.
  Context (kind : string → list Api.ErrKind).

Definition service_kinds (e : SvcErr) : list Api.ErrKind :=
    match e with
    | SvOverlay (Overlays.OvTx e) => Api.tx_kinds kind e
    | SvOverlay (Overlays.OvRead (ReadFailed e)) | SvOverlay (Overlays.OvList e) => kind e
    | SvErasure (Retention.ClearUser _ e) => Api.tx_kinds kind e
    | SvRings (EnrolmentRings.ReadAt _ e) | SvRings (EnrolmentRings.AdvanceFailed _ e)
    | SvRings (EnrolmentRings.RingPushFailed _ e) => kind e
    | _ => []
    end.

Definition web_kinds (e : WebErr) : list Api.ErrKind :=
    match e with
    | webForbidden _ _ _ | FormW (PolicyOnlyKey _) => [Api.KForbidden]
    | SettingW (SettingTx e) | ConfigW e => Api.tx_kinds kind e
    | ChangeW e => Api.change_kinds kind e
    | RolloutW e => Api.rollout_kinds kind e
    | ServiceW e => service_kinds e
    | _ => []
    end.

(** [classifyActionError]: the status. *)
Definition classifyActionError (e : WebErr) : Z :=
    let ks := web_kinds e in
    if Api.KForbidden ∈? ks then 403
    else if Api.KValidation ∈? ks then 422
    else if Api.KConflict ∈? ks then 409
    else if Api.KUnavailable ∈? ks then 503
    else 400.
End console.
