(* ===== verification/ConsoleProofs.v ===== *)
(** * What the console may ask for (src/internal/http/web)

    A weakest precondition for the console's programs, with the table of who may
    make which call; every handler keeps to it, on every run. *)

From S2P Require Import Prelude GoLib FleetModel Groups Filters Resolve Mutate DeviceOps Policies Identity Text Catalog SettingsGuard Classes Document ConfigTx Radius Bundles ConsoleForms WellFormed Console.
From S2P Require Changes ChangeFlow Engine Tokens Credentials Stations Imaging DeviceSecrets Retention People WavePlans Api.

(** ** Runs *)

(** A call with its answer. *)
Inductive Ev := | Did {R} (c : Call R) (r : R).

(** The calls of a run in order, cut off anywhere; a gated write runs by itself
    while the request goes on after it. *)
Inductive runs : ∀ {A}, Prog A → list Ev → Prop :=
  | runs_nil {A} (m : Prog A) : runs m []
  | runs_ask {A R} (c : Call R) (k : R → Prog A) r tr : runs (k r) tr → runs (Ask c k) (Did c r :: tr)
  | runs_within {A} d b (k : Grace → Prog A) tr : runs b tr → runs (Gated d b k) tr
  | runs_after {A} d b (k : Grace → Prog A) o tr : runs (k o) tr → runs (Gated d b k) tr.

#[export] Instance SettingChange_eq_dec : EqDecision SettingChange.
Proof. solve_decision. Defined.

(** What a run has learned from its answers. *)
Record Know := mkKnow {
  k_fleet : option Fleet;              (* the document last read *)
  k_exclusive : list (string * list SettingChange);   (* the saves the exclusion guard let pass *)
  k_guarded : list (string * list SettingChange);     (* the saves both guards let pass *)
  k_edited : list string;              (* the hosts of the edits that landed *)
  k_macs : list string;                (* the machines of the batches that landed *)
  k_opened : list string;              (* the changes opened *)
  k_own : list string;                 (* the signed-in person's token identifiers *)
  k_services : list string             (* the service accounts' token identifiers *)
}.
#[export] Instance Know_eta : Eta Know := λ k,
  mkKnow (k_fleet k) (k_exclusive k) (k_guarded k) (k_edited k) (k_macs k) (k_opened k) (k_own k) (k_services k).
Definition nothing_known : Know := mkKnow None [] [] [] [] [] [] [].

Definition on_ok {E A} (r : res E A) (k next : Know) : Know := match r with Ok _ => next | Err _ => k end.

Definition learn {R} (subject : string) (k : Know) (c : Call R) : R → Know :=
  match c in Call T return T → Know with
  | ReadFleet => λ f, k <| k_fleet := Some f |>
  | ReadSnapshot => λ fc, k <| k_fleet := Some fc.1 |>
  | GuardExclusive scope changes => λ o,
      match o with None => k <| k_exclusive ::= cons (scope, changes) |> | Some _ => k end
  | GuardBricking scope changes => λ r,
      if (scope, changes) ∈? k_exclusive k then on_ok r k (k <| k_guarded ::= cons (scope, changes) |>) else k
  | ApplyEdit ed _ _ hosts => λ r,
      on_ok r k (k <| k_edited ::= app hosts |>
                   <| k_macs ::= app (match ed with EnrollBatch items _ => bi_mac <$> items | _ => [] end) |>)
  | ChangeOpen id _ _ => λ r, on_ok r k (k <| k_opened ::= cons id |>)
  | TokensOf s => λ r, match r with Ok toks => if s ==? subject then k <| k_own := Tokens.tok_ID <$> toks |> else k | Err _ => k end
  | ServiceTokens => λ r, match r with Ok toks => k <| k_services := Tokens.tok_ID <$> toks |> | Err _ => k end
  | _ => λ _, k
  end.

(** Every call of a run satisfies [P] at what was known before it. *)
Fixpoint all_calls (P : Know → ∀ R, Call R → Prop) (subject : string) (k : Know) (tr : list Ev) : Prop :=
  match tr with
  | [] => True
  | Did c r :: tr => P k _ c ∧ all_calls P subject (learn subject k c r) tr
  end.

(** ** The logic *)

Section logic.
  Context (P : Know → ∀ R, Call R → Prop) (subject : string).

Fixpoint wp {A} (m : Prog A) : Know → (Know → A → Prop) → Prop :=
    match m in Prog T return Know → (Know → T → Prop) → Prop with
    | Ret a => λ k Q, Q k a
    | Fail _ => λ _ _, True
    | Ask c f => λ k Q, P k _ c ∧ ∀ r, wp (f r) (learn subject k c r) Q
    | Gated _ b f => λ k Q, wp b k (λ _ _, True) ∧ ∀ o, wp (f o) k Q
    end.

Lemma wp_mono {A} (m : Prog A) k (Q Q' : Know → A → Prop) : wp m k Q → (∀ k a, Q k a → Q' k a) → wp m k Q'.
Proof.
    induction m as [? a|? e|? R c f IH|? d b IHb f IH] in k, Q, Q' |- *; simpl; intros Hm HQ.
    - auto.
    - done.
    - destruct Hm as [Hc Hm]. split; [done|]. intros r. eapply IH; [apply Hm|done].
    - destruct Hm as [Hb Hm]. split; [done|]. intros o. eapply IH; [apply Hm|done].
Qed.

Lemma wp_bind {A B} (m : Prog A) (f : A → Prog B) k Q : wp m k (λ k a, wp (f a) k Q) → wp (pbind m f) k Q.
Proof.
    induction m as [? a|? e|? R c g IH|? d b IHb g IH] in k, Q, f |- *; simpl; [done|done| |].
    - intros [Hc Hm]. split; [done|]. intros r. apply IH, Hm.
    - intros [Hb Hm]. split; [done|]. intros o. apply IH, Hm.
Qed.

(** What the logic is for: no run makes a call [P] does not allow. *)
Lemma wp_runs {A} (m : Prog A) k Q tr : wp m k Q → runs m tr → all_calls P subject k tr.
Proof.
    intros Hm Hr. revert k Q Hm. induction Hr as [A m|A R c f r tr Hr IH|A d b f tr Hr IH|A d b f o tr Hr IH]; intros k Q Hm; simpl in *.
    - done.
    - destruct Hm as [Hc Hm]. split; [done|]. exact (IH _ _ (Hm r)).
    - exact (IH _ _ (proj1 Hm)).
    - exact (IH _ _ (proj2 Hm o)).
Qed.

Lemma wp_ret {A} (a : A) k (Q : Know → A → Prop) : Q k a → wp (Ret a) k Q.
Proof. done. Qed.
Lemma wp_ask {R} (c : Call R) k (Q : Know → R → Prop) : P k _ c → (∀ r, Q (learn subject k c r) r) → wp (ask c) k Q.
Proof. done. Qed.
Lemma wp_try {E A} (w : E → WebErr) (c : Call (res E A)) k (Q : Know → A → Prop) :
    P k _ c → (∀ a, Q (learn subject k c (Ok a)) a) → wp (try_ w c) k Q.
Proof. intros Hc HQ. split; [done|]. intros [a|e]; [apply HQ|done]. Qed.
Lemma wp_of_res {E A} (w : E → WebErr) (r : res E A) k (Q : Know → A → Prop) : (∀ a, r = Ok a → Q k a) → wp (of_res w r) k Q.
Proof. destruct r; simpl; auto. Qed.
Lemma wp_unless bad e k (Q : Know → unit → Prop) : (bad = false → Q k tt) → wp (unless bad e) k Q.
Proof. destruct bad; simpl; auto. Qed.
Lemma wp_gated desc b k (Q : Know → unit → Prop) : wp b k (λ _ _, True) → Q k tt → wp (runGated desc b) k Q.
Proof. intros Hb HQ. split; [done|]. by intros [[e|]|]. Qed.
Lemma wp_gated_detached desc b k (Q : Know → bool → Prop) :
    wp b k (λ _ _, True) → (∀ late, Q k late) → wp (runGatedDetached desc b) k Q.
Proof. intros Hb HQ. split; [done|]. intros [[e|]|]; simpl; auto. Qed.
End logic.

(** ** Who may ask for what *)

Section table.
  Context (sc : ServerConfig) (v : View) (fm : Form).

(** The signed-in person holds the role at the place. *)
Definition at_ (ref : string) (role : Role) : Prop := Meets (view_role sc v ref) role = true.
Definition org_editor : Prop := at_ "org" Editor.
Definition org_owner : Prop := at_ "org" Owner_.
Definition device_editor (tag : string) : Prop := at_ (device_ref tag) Editor.

(** Who may put devices into these groups; without a group, into the fleet. *)
Definition member_editor (groups : list string) : Prop :=
    match groups with [] => org_editor | _ => Forall (λ g, at_ (group_ref g) Editor) groups end.

(** The groups a patch moves a device into or out of are the person's to edit,
      in the document last read. *)
Definition membership_checked (k : Know) (tag : string) (p : DevicePatch) : Prop :=
    match dp_Groups p with
    | None => True
    | Some gs => ∃ f, k_fleet k = Some f
                 ∧ Forall (λ g, at_ (group_ref g) Editor) (GroupMembershipDelta (Groups (dev f tag)) gs)
    end.

Definition command_permitted (k : Know) (c : Command) : Prop :=
    match c with
    | CGrant b => at_ (b_Scope b) Owner_
    | CRevoke _ scope => at_ scope Owner_
    | CSetAcceptance scope _ _ | CClearAcceptance scope _ => at_ scope Owner_
    | CAssign a => at_ (Target a) Owner_
    | CUnassign _ target _ => at_ target Owner_
    | CAddGroup _ g => at_ (parent_ref (Parent g)) Owner_
    | CCreateGroupWithDevices _ g tags => at_ (parent_ref (Parent g)) Owner_ ∧ Forall device_editor tags
    | CSetScopeSetting scope _ _ | CClearScopeSetting scope _ | CSetScopeApps scope _ _ => at_ scope Editor
    | CAddDevice _ d _ => member_editor (Groups d)
    | CRetireDevice tag | CReactivateDevice tag | CRemoveDevice tag => device_editor tag
    | CUpdateDevice tag p =>
        device_editor tag ∧ membership_checked k tag p
    | CSetDeviceIntent _ intent _ => at_ "org" (intent_role intent)
    | CSetScopeEnforce _ _ _ | CSetGroupParent _ _ | CSetDevicePin _ _ | CActivateProvisional _ | CPruneRedundantGroups
    | CSetDeviceHostKey _ _ _ => False
    | _ => org_owner
    end.

(** The second look a form has to carry: the confirmed page, or the device's tag
      typed in full. *)
Definition confirmed : Prop := FormValue fm "confirmed" = "1".
Definition confirmation (k : Know) (c : Command) : Prop :=
    match c with
    | CSetAssurance a => ∃ f, k_fleet k = Some f ∧ (weakenedProtections (f_Assurance f) a = [] ∨ confirmed)
    | CSetDeviceIntent tag intent _ => intent = IntentWipe → FormValue fm "confirm" = tag
    | _ => True
    end.

Definition edit_permitted (k : Know) (ed : FleetEdit) : Prop :=
    match ed with
    | Plain c => command_permitted k c ∧ confirmation k c
    | EnrollBatch items _ => Forall (λ p, member_editor (Groups (bi_dev p))) items
    end.

Definition subject_of : string := u_Subject (v_user v).

Definition mint_permitted (k : Know) (req : Credentials.MintRequest) : Prop :=
    match Credentials.r_Kind req with
    | Tokens.Personal => Credentials.r_Subject req = subject_of ∧ Credentials.r_Groups req = u_Groups (v_user v)
    | Tokens.Service =>
        org_owner ∧ ∃ f, k_fleet k = Some f ∧ Forall (λ g, g ∈ b_Group <$> Access f) (Credentials.r_Groups req)
    | _ => False
    end.

(** The table; reading is free, and every write carries the person's name. *)
Definition permitted (k : Know) (R : Type) (c : Call R) : Prop :=
    match c with
    | ReadFleet | ReadSnapshot | ReadBundles | ReadProfile _ | ReadHardware | ReadHead | Clock | RandomID => True
    | ListOverlays | CheckSyntax _ => org_owner
    | ApplyEdit ed _ a _ => edit_permitted k ed ∧ a = webAuthor v
    | ApplyPlain c _ a => command_permitted k c ∧ confirmation k c ∧ a = webAuthor v
    | SaveSettings scope changes _ a => at_ scope Editor ∧ (scope, changes) ∈ k_guarded k ∧ a = webAuthor v
    | GuardExclusive scope _ | GuardBricking scope _ => at_ scope Editor
    | SaveOverlay _ _ a | DropOverlay _ a => org_owner ∧ a = webAuthor v
    | RingsContain tags _ => tags ⊆ k_edited k
    | ChangeList | ChangeGet _ | ChangeDiff _ => True
    | ChangeOpen _ _ a => (org_editor ∨ ∃ scope changes, (scope, changes) ∈ k_guarded k ∧ at_ scope Editor) ∧ a = webAuthor v
    | ChangeEdit _ ed _ a _ => at_ (staged_scope ed) Editor ∧ a = webAuthor v
    | ChangeSubmit _ => org_editor
    | ChangeMerge _ a => org_owner ∧ confirmed ∧ a = webAuthor v
    | ChangeAbandon id => org_editor ∨ id ∈ k_opened k
    | RunStart _ _ => org_owner ∧ confirmed
    | RunTick | RunApprove | RunPause | RunResume | RunCancel => org_owner
    | IssueFor Tokens.Device tag => device_editor tag ∨ tag ∈ k_edited k
    | IssueFor Tokens.Station _ => org_owner
    | IssueFor _ _ => False
    | RevokeFor Tokens.Device tag => device_editor tag
    | RevokeFor Tokens.Station _ => org_owner
    | RevokeFor _ _ => False
    | TokenMint req => mint_permitted k req
    | TokenRevoke id => id ∈ k_own k ∨ org_owner ∧ id ∈ k_services k
    | TokensOf s => s = subject_of
    | ServiceTokens => org_owner
    | DropDiagnostics tag => device_editor tag
    | Reveal _ _ by_ => org_owner ∧ (by_ = subject_of ∨ by_ = v_email v)
    | DiscoveredGet _ _ => True
    | DiscoveredDrop _ mac => org_editor ∨ mac ∈ k_macs k
    | JobDispatch job => Imaging.job_Tag job ∈ k_edited k
    | JobCancel _ _ => org_editor
    | KeepFacts tag _ => tag ∈ k_edited k
    | ElevationDecide _ _ by_ => org_editor ∧ by_ = subject_of
    | PutPreferences s _ | NoteRead _ s => s = subject_of
    | NotesRead s gs => s = subject_of ∧ gs = u_Groups (v_user v)
    | ErasePreview _ _ | EraseNow _ _ => org_owner
    | ForgeSet _ _ _ by_ | ForgeClear by_ => org_owner ∧ by_ = v_name v
    | MailSave _ _ _ _ _ _ _ | MailTest _ | MailDelete => org_owner
    end.
End table.

(** ** Every handler keeps to the table *)

Section handlers.
  Context `{GoJson} (json_any : string → option Value) (load_location : string → bool).
  Context (profile_hash : string → Settings → string) (sc : ServerConfig) (v : View) (fm : Form).

Notation wpv m k Q := (wp (permitted sc v fm) (subject_of v) m k Q).
Notation safe m k := (wpv m k (λ _ _, True)).

Lemma wp_require ref role k (Q : Know → unit → Prop) : (at_ sc v ref role → Q k tt) → wpv (requireWeb sc v ref role) k Q.
Proof.
    intros HQ. apply wp_unless. intros Hr. apply HQ. by apply negb_false_iff in Hr.
Qed.

Lemma wp_require_each role refs k (Q : Know → unit → Prop) :
    (Forall (λ ref, at_ sc v ref role) refs → Q k tt) → wpv (require_each sc v role refs) k Q.
Proof.
    induction refs as [|ref refs IH]; simpl; intros HQ; [by apply HQ|].
    apply wp_bind, wp_require. intros Ha. apply IH. intros Hr. apply HQ. by constructor.
Qed.

Lemma Forall_refs (f : string → string) tags role :
    Forall (λ ref, at_ sc v ref role) (f <$> tags) → Forall (λ t, at_ sc v (f t) role) tags.
Proof. induction tags; simpl; [constructor|]. inversion 1; subst. constructor; auto. Qed.

Lemma wp_applyGated ed msg hosts k (Q : Know → unit → Prop) :
    edit_permitted sc v fm k ed → Q k tt → wpv (applyGated v ed msg hosts) k Q.
Proof. intros Hc HQ. apply wp_gated; [|done]. by apply wp_try; [split|]. Qed.

Lemma wp_structural c msg k (Q : Know → unit → Prop) :
    command_permitted sc v k c → confirmation fm k c → Q k tt → wpv (structural v c msg) k Q.
Proof. intros Hc Hf HQ. by apply wp_try; [split|]; [..|intros []]. Qed.

Lemma wp_affected ref k (Q : Know → list string → Prop) :
    (∀ f, Q (k <| k_fleet := Some f |>) (AffectedHosts f ref)) → wpv (affected ref) k Q.
Proof. intros HQ. split; [done|]. exact HQ. Qed.

Lemma wp_applyAt ref c msg k (Q : Know → unit → Prop) :
    (∀ k, edit_permitted sc v fm k (Plain c)) → (∀ k, Q k tt) → wpv (applyAt v ref c msg) k Q.
Proof. intros Hc HQ. apply wp_bind, wp_affected. intros f. apply wp_applyGated; [apply Hc|apply HQ]. Qed.

(** One step through a handler. *)
Ltac step :=
    cbv beta zeta;
    first
      [ apply wp_bind, wp_require; intros ?
      | apply wp_bind, wp_require_each; intros ?
      | apply wp_bind, wp_unless; intros ?
      | apply wp_bind, wp_of_res; intros ? ?
      | apply wp_bind, wp_applyGated; [simpl; auto|]
      | apply wp_bind, wp_structural; [simpl; auto|simpl; auto|]
      | apply wp_bind, wp_applyAt; [intros; simpl; auto|intros ?]
      | apply wp_bind, wp_try; [simpl; auto|intros ?]
      | apply wp_bind, wp_ask; [simpl; auto|intros ?]
      | apply wp_bind, wp_affected; intros ?
      | exact I ].
Ltac walk := repeat step.

Lemma owner_edit_safe c msg page k : (org_owner sc v → edit_permitted sc v fm k (Plain c)) → safe (owner_edit sc v c msg page) k.
Proof. intros Hc. unfold owner_edit. step. apply wp_bind, wp_applyGated; [auto|done]. Qed.

Lemma access_safe k :
    safe (postAccessGrant sc v fm) k ∧ safe (postAccessRevoke sc v fm) k
    ∧ safe (postAcceptance sc v fm) k ∧ safe (postAcceptanceClear sc v fm) k.
Proof. repeat split; unfold postAccessGrant, postAccessRevoke, postAcceptance, postAcceptanceClear; walk. Qed.

Lemma confirmed_by : (FormValue fm "confirmed" !=? "1") = false → confirmed fm.
Proof. by intros Hn%negb_false_iff%bool_decide_eq_true_1. Qed.

Lemma assurance_safe k : safe (postAssurance sc v fm) k.
Proof.
    unfold postAssurance. walk. destruct (negb _ && _) eqn:Hn; [done|]. walk.
    exists r. split; [done|]. apply andb_false_iff in Hn as [Hn|Hn].
    - left. by apply negb_false_iff, bool_decide_eq_true_1 in Hn.
    - right. by apply confirmed_by.
Qed.

Lemma group_safe name k :
    safe (postGroupAdd sc v fm) k ∧ safe (postGroupUpdate sc v name fm) k ∧ safe (postGroupUnpin sc v name) k
    ∧ safe (postGroupRemove sc v name) k ∧ safe (postDevicesGroupCreate sc v fm) k ∧ safe (postGroupWindow sc v fm) k.
Proof.
    repeat split.
    - unfold postGroupAdd. walk.
    - unfold postGroupUpdate. step. case_match; walk.
    - unfold postGroupUnpin. walk.
    - unfold postGroupRemove. walk.
    - unfold postDevicesGroupCreate. walk. split; [|done]. split; [done|]. by apply Forall_refs.
    - unfold postGroupWindow. walk. apply wp_bind. case_match; apply wp_applyGated; done.
Qed.

Lemma wp_fresh_credential tag k (Q : Know → option Cookie → Prop) :
    device_editor sc v tag ∨ tag ∈ k_edited k → (∀ o, Q k o) → wpv (fresh_credential sc tag) k Q.
Proof. intros Ht HQ. unfold fresh_credential. case_match; [|apply HQ]. split; [done|]. intros r. apply HQ. Qed.
Lemma wp_drop_credential tag k (Q : Know → unit → Prop) : device_editor sc v tag → Q k tt → wpv (drop_credential sc tag) k Q.
Proof. intros Ht HQ. unfold drop_credential. case_match; [|done]. split; [done|]. by intros []. Qed.

Lemma device_safe tag k :
    safe (postDeviceEnroll sc v fm) k ∧ safe (postDeviceRetire sc v tag) k ∧ safe (postDeviceReactivate sc v tag) k
    ∧ safe (postDeviceRemove sc v tag) k ∧ safe (postDeviceCredential sc v tag) k ∧ safe (postDeviceUpdate sc v tag fm) k.
Proof.
    repeat split.
    - unfold postDeviceEnroll. walk.
      + split; [|done]. simpl. destruct (FormValue fm "group" !=? ""); simpl; [by repeat constructor|done].
      + apply wp_bind, wp_fresh_credential; [|done]. right. simpl. left.
    - unfold postDeviceRetire. walk. apply wp_bind, wp_drop_credential; [done|]. walk.
    - unfold postDeviceReactivate. walk. apply wp_bind, wp_fresh_credential; [by left|done].
    - unfold postDeviceRemove. walk. by apply wp_bind, wp_drop_credential.
    - unfold postDeviceCredential. walk. case_match; [|done]. walk.
    - unfold postDeviceUpdate. step.
      apply wp_bind, (wp_mono _ _ _ _ (λ k' _, k' = k)).
      { case_match; [|done]. by apply wp_unless. }
      intros k' [] ->. apply wp_bind, (wp_mono _ _ _ _ (λ k' _, membership_checked sc v k' tag (device_patch fm))).
      { unfold membership_checked. case_match; [|done]. split; [done|]. intros f. apply wp_require_each. intros Hr.
        exists f. split; [done|]. by apply Forall_refs. }
      intros k' [] Hm. walk.
Qed.

Lemma setting_edit_safe tag k :
    safe (postDeviceSetting sc v tag fm) k ∧ safe (postDevicePosture sc v tag fm) k
    ∧ safe (postDeviceIntent sc v tag fm) k ∧ safe (postDeviceIntentClear sc v tag) k.
Proof.
    repeat split.
    - unfold postDeviceSetting. walk. case_match; [|done]. walk.
    - unfold postDevicePosture. walk. destruct (posture_action _) as [[[key val] what]|]; [|done].
      apply wp_bind, (wp_mono _ _ _ _ (λ _ _, True)).
      { case_match; [|done]. by apply wp_try. }
      intros k' [] _. walk.
    - unfold postDeviceIntent. walk. split; [done|]. intros Hw. rewrite Hw, bool_decide_eq_true_2 in H2 by done.
      by apply negb_false_iff, bool_decide_eq_true_1 in H2.
    - unfold postDeviceIntentClear. walk.
Qed.

Lemma reveal_safe tag kind k : safe (postSecretReveal sc v tag kind fm) k.
Proof.
    unfold postSecretReveal. walk.
    - split; [done|]. case_match; auto.
    - by case_match.
Qed.

Lemma staging_safe scope changes marker k :
    at_ sc v scope Editor → (scope, changes) ∈ k_guarded k → safe (stageSettingsAsChange v scope changes marker) k.
Proof.
    intros Hs Hg. unfold stageSettingsAsChange. step. step. destruct a as [[mut msg] hosts]. step.
    case_match; [|done]. step.
    - split; [|done]. right. by exists scope, changes.
    - split; [by split|]. intros [[]|e]; simpl.
      + split; [done|]. intros [diff|]; [|done]. case_match; [|done]. split; [right; left|done].
      + split; [right; left|done].
Qed.

Lemma guarded_save_safe scope desc marker changes landed k :
    at_ sc v scope Editor → (∀ late k, safe (landed late) k) → safe (guarded_save sc v scope desc marker changes landed) k.
Proof.
    intros Hs Hl. unfold guarded_save. split; [done|]. intros [e|]; [done|].
    apply (wp_bind _ _ (try_ _ _)), wp_try; [done|]. intros []. set (k' := learn _ _ _ _).
    assert (Hg : (scope, changes) ∈ k_guarded k').
    { subst k'. simpl. rewrite bool_decide_eq_true_2 by left. left. }
    split; [by apply wp_try|]. intros [[e|]|]; [|apply Hl..].
    unfold staged_instead. destruct (sc_changes sc); [|done]. repeat case_match; try done. by apply staging_safe.
Qed.

Lemma settings_safe name k :
    safe (postSetting sc v fm) k ∧ safe (postBundleApply sc v name fm) k ∧ safe (postScopeApps sc v fm) k.
Proof.
    repeat split.
    - unfold postSetting. walk. case_match; [done|]. by apply guarded_save_safe.
    - unfold postBundleApply. walk. destruct (Get _ name); [|done]. walk. destruct (_ ==? []); [done|]. by apply guarded_save_safe.
    - unfold postScopeApps. walk.
Qed.

Lemma policy_safe name k :
    safe (postPolicyPut json_any sc v fm) k ∧ safe (postPolicyDelete sc v name) k
    ∧ safe (postProfileApply profile_hash sc v name) k ∧ safe (postAssignmentAdd sc v fm) k
    ∧ safe (postAssignmentDelete sc v fm) k ∧ safe (postFilterPut sc v fm) k ∧ safe (postFilterDelete sc v name) k
    ∧ safe (postHardwareConfigure json_any sc v name fm) k.
Proof.
    repeat split.
    - unfold postPolicyPut. walk.
    - apply owner_edit_safe. by split.
    - unfold postProfileApply. walk. case_match; [|done]. walk.
    - unfold postAssignmentAdd. walk.
    - unfold postAssignmentDelete. walk.
    - apply owner_edit_safe. by split.
    - apply owner_edit_safe. by split.
    - unfold postHardwareConfigure. walk. apply wp_bind. destruct (_ ==? "").
      + apply wp_ret. walk.
      + apply wp_of_res. intros. walk.
Qed.

Lemma change_safe id k :
    safe (postChange sc v fm) k ∧ safe (postChangeEdit sc v id fm) k ∧ safe (postChangeSubmit sc v id) k
    ∧ safe (postChangeMerge sc v id fm) k ∧ safe (postChangeAbandon sc v id) k.
Proof.
    repeat split.
    - unfold postChange. walk.
    - unfold postChangeEdit. walk. case_match; walk. case_match; walk.
    - unfold postChangeSubmit. walk. apply wp_bind, wp_gated_detached; [by apply wp_try|done].
    - unfold postChangeMerge. walk. destruct (_ !=? "1") eqn:Hc; walk.
      + case_match; [|done]. walk.
      + apply wp_bind, wp_gated_detached; [|done]. apply wp_try; [|done]. split; [done|]. split; [|done]. by apply confirmed_by.
    - unfold postChangeAbandon. walk.
Qed.

Lemma rollout_safe k :
    safe (postRolloutStart sc v fm) k ∧ safe (postRolloutTick sc v) k ∧ safe (postRolloutPause sc v) k
    ∧ safe (postRolloutResume sc v) k ∧ safe (postRolloutCancel sc v) k ∧ safe (postRolloutApprove sc v) k
    ∧ safe (postRolloutPlan sc v fm) k ∧ safe (postUpdatesPolicy sc v fm) k.
Proof.
    unfold postRolloutTick, postRolloutPause, postRolloutResume, postRolloutCancel, run_control, postRolloutApprove.
    repeat split; try (by walk).
    unfold postRolloutStart. walk. destruct (_ !=? "1") eqn:Hc; walk. split; [done|]. by apply confirmed_by.
Qed.

Lemma station_safe tag mac k :
    safe (postStationRegister sc v fm) k ∧ safe (postStationRemove sc v tag) k ∧ safe (postStationCredential sc v tag) k
    ∧ safe (postDiscoveredRemove sc v tag mac) k ∧ safe (postEnrollJobCancel sc v tag mac) k.
Proof.
    repeat split.
    - apply owner_edit_safe. by split.
    - unfold postStationRemove. walk. apply wp_bind. destruct (sc_stationCreds sc); [by apply wp_ask|done].
    - unfold postStationCredential. walk.
    - unfold postDiscoveredRemove. walk.
    - unfold postEnrollJobCancel. walk.
Qed.

Lemma deployment_safe name k :
    safe (postSecretRegister sc v fm) k ∧ safe (postSecretRemove sc v name) k ∧ safe (postOverlayWrite sc v fm) k
    ∧ safe (postOverlayCheck sc v fm) k ∧ safe (postOverlayRemove sc v name) k
    ∧ safe (postErasurePreview sc v fm) k ∧ safe (postErasureConfirm sc v fm) k ∧ safe (postForgeSave sc v fm) k
    ∧ safe (postForgeClear sc v) k ∧ safe (postMailSave sc v fm) k ∧ safe (postMailTest sc v fm) k ∧ safe (postMailDelete sc v) k.
Proof.
    repeat split.
    - unfold postSecretRegister. walk.
    - apply owner_edit_safe. by split.
    - unfold postOverlayWrite. walk.
    - unfold postOverlayCheck. walk. apply wp_bind. destruct (sc_syntax sc); [by apply wp_ask|done].
    - unfold postOverlayRemove. walk.
    - unfold postErasurePreview. walk.
    - unfold postErasureConfirm. walk.
    - unfold postForgeSave. walk.
    - unfold postForgeClear. walk.
    - unfold postMailSave. walk.
    - unfold postMailTest. walk.
    - unfold postMailDelete. walk.
Qed.

Lemma inbox_safe id k :
    safe (postNotificationRead sc v id fm) k ∧ safe (postNotificationsReadAll sc v) k ∧ safe (elevationDecide sc v id fm) k
    ∧ safe (postProfilePrefs load_location sc v fm) k.
Proof.
    repeat split.
    - unfold postNotificationRead. apply wp_bind. destruct (sc_notify sc); [by apply wp_try|done].
    - unfold postNotificationsReadAll. apply wp_bind. destruct (sc_notify sc); [by apply wp_try|done].
    - unfold elevationDecide. walk.
    - unfold postProfilePrefs. walk. apply wp_bind. case_match; [done|]. apply wp_ret. walk.
Qed.

Lemma wp_ttl k (Q : Know → Z → Prop) : (∀ z, Q k z) → wpv (ttl_field fm) k Q.
Proof. intros HQ. unfold ttl_field. case_match; [apply HQ|]. case_match; [|done]. case_match; [done|apply HQ]. Qed.

Lemma has_id_listed id toks : negb (has_id id toks) = false → id ∈ Tokens.tok_ID <$> toks.
Proof.
    intros Hn. apply negb_false_iff, existsb_exists in Hn as (t & Ht & He).
    apply bool_decide_eq_true_1 in He as <-. by apply list_elem_of_fmap_2, list_elem_of_In.
Qed.

Lemma token_safe id k :
    safe (postServiceAccountMint sc v fm) k ∧ safe (postServiceAccountRevoke sc v id) k
    ∧ safe (postProfileTokenMint sc v fm) k ∧ safe (postProfileTokenRevoke sc v id) k.
Proof.
    repeat split.
    - unfold postServiceAccountMint. walk. apply wp_bind, wp_ttl. intros ttl. apply wp_bind, wp_try; [|done].
      split; [done|]. exists r. split; [done|]. apply Forall_forall. intros g Hg. simpl in Hg. 
      by apply elem_of_keep_if in Hg as [_ Hg%bool_decide_eq_true_1].
    - unfold postServiceAccountRevoke. walk. right. split; [done|]. by apply has_id_listed.
    - unfold postProfileTokenMint. walk. case_match; [|done]. apply wp_bind, wp_ttl. intros ttl. by apply wp_bind, wp_try.
    - unfold postProfileTokenRevoke. walk. left. rewrite bool_decide_eq_true_2 by done. by apply has_id_listed.
Qed.

Lemma wp_batch_items station hardware class groups l k (Q : Know → list BatchItem → Prop) :
    (∀ items, Forall (λ p, Groups (bi_dev p) = groups) items → bi_tag <$> items = l.*2 → bi_mac <$> items = l.*1 → Q k items) →
    wpv (batch_items station hardware class groups l) k Q.
Proof.
    revert Q. induction l as [|[mac tag] l IH]; intros Q HQ; simpl; [by apply HQ|].
    apply wp_bind, (wp_mono _ _ _ _ (λ k' df, k' = k ∧ Groups df.1 = groups)).
    { unfold discoveredDevice. case_match; [done|]. split; [done|]. intros [d|]; simpl; [|done]. by case_match. }
    intros k' df [-> Hd]. apply wp_bind, IH. intros items Hg Ht Hm. apply HQ; simpl; [by constructor| |]; by f_equal.
Qed.

Lemma dispatch_all_safe station hardware rev items k :
    Forall (λ p, bi_tag p ∈ k_edited k ∧ bi_mac p ∈ k_macs k) items → safe (dispatch_all sc station hardware rev items) k.
Proof.
    induction 1 as [|p items [Ht Hm] _ IH]; simpl; [done|].
    apply wp_bind, (wp_mono _ _ _ _ (λ k' _, k' = k)); [|by intros k' [] ->].
    unfold dispatch_item. apply wp_bind, (wp_mono _ _ _ _ (λ k' _, k' = k)).
    { case_match; [|done]. case_match; [|done]. by apply wp_ask. }
    intros k' [] ->. case_match; [by apply wp_ask|].
    apply wp_bind, (wp_mono _ _ _ _ (λ k' _, k' = k)).
    { case_match; [|done]. split; [by right|done]. }
    intros k' [] ->. split; [by right|done].
Qed.

Lemma batch_safe station k : safe (postEnrollBatch sc v station fm) k.
Proof.
    unfold postEnrollBatch. walk. apply wp_bind, wp_batch_items. intros items Hg Ht Hm.
    apply wp_bind, wp_gated; [|done]. unfold enroll_write. step. apply wp_bind, wp_try.
    { split; [|done]. simpl. eapply Forall_impl; [exact Hg|]. intros p ->. 
      destruct (trimmed fm "group" !=? ""); simpl; [by repeat constructor|done]. }
    intros []. apply wp_bind, wp_ask; [done|]. intros rev.
    apply wp_bind, (wp_mono _ _ _ _ (λ k' _, k_edited k' = a ++ k_edited k ∧ k_macs k' = (bi_mac <$> items) ++ k_macs k)).
    { destruct (sc_rollouts sc && _); [|done]. apply wp_try; [|done]. simpl. set_solver. }
    intros k' [] [He Hk]. apply dispatch_all_safe. rewrite He, Hk. apply Forall_forall. intros p Hp.
    split; apply elem_of_app; left; [|by apply list_elem_of_fmap_2].
    assert (Hi : bi_tag p ∈ (zip (FormValues fm "mac") a).*2) by (rewrite <-Ht; by apply list_elem_of_fmap_2).
    apply list_elem_of_fmap in Hi as ([mac tag] & -> & Hz). by eapply elem_of_zip_r.
Qed.

#[local] Opaque wp pbind
    elevationDecide postUpdatesPolicy postGroupWindow postNotificationsReadAll postNotificationRead postMailSave
    postMailTest postMailDelete postDeviceEnroll postDeviceSetting postDevicePosture postDeviceIntent
    postDeviceIntentClear postSecretReveal postDeviceRetire postDeviceReactivate postDeviceRemove
    postDeviceCredential postDeviceUpdate postDevicesGroupCreate postSetting postBundleApply postHardwareConfigure
    postPolicyPut postPolicyDelete postProfileApply postAssignmentAdd postAssignmentDelete postFilterPut
    postFilterDelete postScopeApps postGroupAdd postGroupUpdate postGroupUnpin postGroupRemove postChange
    postChangeEdit postChangeSubmit postChangeMerge postChangeAbandon postRolloutStart postRolloutPlan
    postRolloutTick postRolloutApprove postRolloutCancel postRolloutPause postRolloutResume postAccessGrant
    postAccessRevoke postAssurance postProfilePrefs postProfileTokenMint postProfileTokenRevoke postEnrollBatch
    postDiscoveredRemove postEnrollJobCancel postStationRegister postStationCredential postStationRemove
    postSecretRegister postSecretRemove postErasurePreview postErasureConfirm postForgeSave postForgeClear
    postOverlayWrite postOverlayCheck postOverlayRemove postServiceAccountMint postServiceAccountRevoke
    postAcceptance postAcceptanceClear.
Ltac use lem := solve [unshelve (eapply lem); first [exact "" | assumption]].

Lemma handlers_safe r k : safe (handle json_any load_location profile_hash sc v r fm) k.
Proof.
    destruct r; simpl; try done;
      first [ use access_safe | use assurance_safe | use group_safe | use device_safe | use setting_edit_safe | use reveal_safe
            | use settings_safe | use policy_safe | use change_safe | use rollout_safe | use station_safe
            | use deployment_safe | use inbox_safe | use token_safe | use batch_safe ].
Qed.
End handlers.

(** ** The theorem *)

(** C4: whatever the services answer and however the request is cut off, a console
    action gets past the wrapper only for a signed-in person the fleet gives a
    role, with writes on and the session's own CSRF token; and every call it then
    makes is one the table allows that person at that moment: an edit only where
    the person has the role for it (an owner for groups, policies, grants and
    runs, an editor of the device or group for its settings and lifecycle, of every
    group a device moves into or out of), a credential only for a device the person
    may edit or has just enrolled, a token only with the person's own groups or
    the bound ones, a merge, a run, a weakened protection or a wipe only with the
    confirmation in the form, and always under the person's own name. *)
Theorem console_calls_authorised `{GoJson} json_any load_location profile_hash sc f se r fm m tr :
  action json_any load_location profile_hash sc f se r fm = Run m →
  runs m tr →
  ∃ v, authed sc f se = inr v ∧ sc_write sc = true ∧ v_csrf v ≠ "" ∧ FormValue fm "csrf" = v_csrf v
       ∧ all_calls (permitted sc v fm) (subject_of v) nothing_known tr.
Proof.
  unfold action. intros Ha Hr. destruct (authed sc f se) as [no|v] eqn:Hv.
  - unfold authed in Hv. repeat case_match; simplify_eq.
  - destruct (sc_write sc); [|done]. simpl in Ha.
    destruct (FormValue fm "csrf" !=? v_csrf v) eqn:Hc; [done|]. destruct (v_csrf v ==? "") eqn:He; [done|].
    apply negb_false_iff, bool_decide_eq_true_1 in Hc. apply bool_decide_eq_false_1 in He.
    exists v. split_and!; try done. simplify_eq/=. eapply wp_runs; [apply handlers_safe|done].
Qed.

Lemma requireWeb_passes sc v ref role : at_ sc v ref role → requireWeb sc v ref role = Ret tt.
Proof. intros Ha. unfold requireWeb. unfold at_ in Ha. by rewrite Ha. Qed.

(** * What the actions let through *)

(** A console with every service, where the group [admins] owns the fleet. *)
Definition full_server : ServerConfig :=
  mkServer true [] [] ["admins"] true true true true true true true true true true true true true true true true true.
Definition admin : User * string * string * string :=
  ({| u_Subject := "ada"; u_Groups := ["admins"]; u_Service := false |}, "Ada", "ada@example.org", "token").
Definition admin_view (f : Fleet) : View := mkView admin.1.1.1 admin.1.1.2 admin.1.2 admin.2 f.
Definition signed (fields : list (string * list string)) : Form := mkForm (list_to_map (("csrf", ["token"]) :: fields)) ∅.
#[local] Instance console_json : GoJson := {
  json_value v := Ok "?"; fmt_v v := "?"; fleet_fields f := Ok ∅; json_fields m := Ok "{}"
}.

Lemma admin_signs_in : authed full_server zero_fleet (Some admin) = inr (admin_view zero_fleet).
Proof. vm_compute. reflexivity. Qed.
Lemma admin_owns_org : at_ full_server (admin_view zero_fleet) "org" Owner_.
Proof. vm_compute. reflexivity. Qed.

Definition removal : Prog WebReply :=
  handle (λ _, None) (λ _, true) (λ _ _, "") full_server (admin_view zero_fleet) (RtGroupRemove "pilot") (signed []).
Definition removal_run : list Ev :=
  [Did (ApplyPlain (CRemoveGroup "pilot") "groups: remove pilot" (webAuthor (admin_view zero_fleet))) (Ok tt)].

Lemma removal_runs : runs removal removal_run.
Proof.
  unfold removal, removal_run. simpl. unfold postGroupRemove. rewrite requireWeb_passes by apply admin_owns_org.
  apply (runs_ask (ApplyPlain _ _ _)), runs_nil.
Qed.

Lemma console_calls_authorised_witness :
  action (λ _, None) (λ _, true) (λ _ _, "") full_server zero_fleet (Some admin) (RtGroupRemove "pilot") (signed []) = Run removal
  ∧ runs removal removal_run
  ∧ ∃ v, authed full_server zero_fleet (Some admin) = inr v
         ∧ all_calls (permitted full_server v (signed [])) (subject_of v) nothing_known removal_run.
Proof.
  assert (Ha : action (λ _, None) (λ _, true) (λ _ _, "") full_server zero_fleet (Some admin)
                 (RtGroupRemove "pilot") (signed []) = Run removal).
  { unfold action. rewrite admin_signs_in. reflexivity. }
  split; [exact Ha|]. split; [exact removal_runs|].
  destruct (console_calls_authorised _ _ _ _ _ _ _ _ _ _ Ha removal_runs) as (v & Hv & _ & _ & _ & Hc).
  exists v. split; [exact Hv|exact Hc].
Defined.

(** ** What the handlers do beside their comments *)

Section findings.
  Context `{GoJson} (json_any : string → option Value) (profile_hash : string → Settings → string).
  Context (sc : ServerConfig) (v : View).

(** A single setting of a device is written past every check the settings
      service makes: with a review required for every edit, and for a key that only
      a policy may set. *)
Theorem device_setting_bypasses_review f cat tag fm entry val hosts :
    at_ sc v (device_ref tag) Editor →
    trimmed fm "key" ≠ "" →
    Lookup cat (trimmed fm "key") = Some entry →
    ParseValue entry (trimmed fm "value") = Ok val →
    requireDirectEditAllowed f = Some ChangeRequestRequired →
    isPolicyOnly (trimmed fm "key") = true →
    hosts = AffectedHosts f (device_ref tag) →
    runs (postDeviceSetting sc v tag fm)
      [Did ReadSnapshot (f, cat); Did ReadFleet f;
       Did (ApplyEdit (Plain (CSetScopeSetting (device_ref tag) (trimmed fm "key") val))
              ("settings: set " +:+ trimmed fm "key" +:+ " at " +:+ device_ref tag) (webAuthor v) hosts) (Ok tt)].
Proof.
    intros Ha Hk Hl Hp _ _ ->. unfold postDeviceSetting. cbv zeta. rewrite (requireWeb_passes _ _ _ _ Ha).
    rewrite bool_decide_eq_false_2 by done. apply (runs_ask ReadSnapshot). simpl. rewrite Hl, Hp. simpl.
    apply (runs_ask ReadFleet), runs_within. apply (runs_ask (ApplyEdit _ _ _ _)), runs_nil.
Qed.

(** A reactivation that has outlived the request's wait has not happened yet - it
      may still be refused - and the device's credential is replaced all the same. *)
Theorem reactivation_credential_early tag r :
    at_ sc v (device_ref tag) Editor → sc_devCreds sc = true →
    runs (postDeviceReactivate sc v tag) [Did (IssueFor Tokens.Device tag) r].
Proof.
    intros Ha Hc. unfold postDeviceReactivate, requireDeviceEditor. rewrite (requireWeb_passes _ _ _ _ Ha).
    apply (runs_after _ _ _ Detached). simpl. unfold fresh_credential. rewrite Hc.
    apply (runs_ask (IssueFor _ _)), runs_nil.
Qed.

(** The same for a station: its credential is gone before its removal is judged. *)
Theorem station_revoked_before_removal tag :
    at_ sc v "org" Owner_ → sc_stationCreds sc = true →
    runs (postStationRemove sc v tag) [Did (RevokeFor Tokens.Station tag) tt].
Proof.
    intros Ha Hc. unfold postStationRemove. rewrite (requireWeb_passes _ _ _ _ Ha).
    apply (runs_after _ _ _ Detached). simpl. rewrite Hc. apply (runs_ask (RevokeFor _ _)), runs_nil.
Qed.

(** A chassis that has an unconfirmed enrolment keeps that record's tag; the job
      and the facts still go out under the name typed for it now, whose record - none
      at all, or another device's - the edit does not touch. *)
Theorem reused_enrolment_images_the_typed_name f p prior now station hardware rev :
    ProvisionalBySerial f (Serial (d_ITAM (bi_dev p))) = Some prior → prior ≠ bi_tag p →
    sc_imaging sc = true → bi_facter p = None →
    ∃ f', edit_mutation profile_hash (EnrollBatch [p] now) f = Ok f'
          ∧ Devices f' !! bi_tag p = Devices f !! bi_tag p
          ∧ runs (dispatch_all sc station hardware rev [p])
              [Did (JobDispatch (Imaging.mkJob station (Stations.NormalizeMAC (bi_mac p)) (bi_tag p) hardware rev
                                   Imaging.NoStatus 0 "" "")) tt].
Proof.
    intros Hp Hn Hi Hf. eexists. split; [|split].
    - simpl. unfold enroll_item. rewrite Hp. reflexivity.
    - simpl. by rewrite lookup_insert_ne.
    - simpl. unfold dispatch_item. rewrite Hf, Hi. apply (runs_ask (JobDispatch _)), runs_nil.
Qed.

(** Without imaging it is a credential: an editor of one group, whose scan carries
      the serial of an unconfirmed record, replaces the credential of any device by
      typing its name. *)
Theorem reused_enrolment_rekeys_the_typed_name f p prior now station hardware rev r :
    ProvisionalBySerial f (Serial (d_ITAM (bi_dev p))) = Some prior → prior ≠ bi_tag p →
    sc_imaging sc = false → sc_devCreds sc = true → bi_facter p = None →
    ∃ f', edit_mutation profile_hash (EnrollBatch [p] now) f = Ok f'
          ∧ Devices f' !! bi_tag p = Devices f !! bi_tag p
          ∧ runs (dispatch_all sc station hardware rev [p]) [Did (IssueFor Tokens.Device (bi_tag p)) r].
Proof.
    intros Hp Hn Hi Hc Hf. eexists. split; [|split].
    - simpl. unfold enroll_item. rewrite Hp. reflexivity.
    - simpl. by rewrite lookup_insert_ne.
    - simpl. unfold dispatch_item. rewrite Hf, Hi, Hc. apply (runs_ask (IssueFor _ _)), runs_nil.
Qed.
End findings.
