(* ===== verification/Secretbox.v ===== *)
(** * The secret box (src/internal/platform/secretbox)

    Sealed values that name the key which sealed them: the list of keys a
    deployment configures, sealing with the first, opening with any, and what a
    rotation of the keys leaves readable.  AES-256-GCM is a parameter with its two
    functions inverse to each other. *)

From S2P Require Import Prelude GoLib Text Sql Tokens HostKeys Forge DeviceSecrets.
From S2P Require WavePlans DevicePlane.

(** ** Bytes *)

Definition upto (n : nat) (s : string) : string := String.substring 0 n s.
Definition from (n : nat) (s : string) : string := String.substring n (String.length s - n) s.

Lemma upto_app s t : upto (String.length s) (s +:+ t) = s.
Proof. unfold upto. induction s as [|a s IH]; simpl; [by destruct t|]. by rewrite IH. Qed.
Lemma substring_all s : String.substring 0 (String.length s) s = s.
Proof. induction s as [|a s IH]; simpl; [done|]. by rewrite IH. Qed.
Lemma from_app s t : from (String.length s) (s +:+ t) = t.
Proof.
  unfold from. induction s as [|a s IH]; simpl; [rewrite Nat.sub_0_r; apply substring_all|]. apply IH.
Qed.
Lemma upto_from n s : upto n s +:+ from n s = s.
Proof.
  unfold upto, from. revert n. induction s as [|a s IH]; intros [|n]; simpl; try done.
  - by rewrite substring_all.
  - change (String a (substring 0 n s +:+ substring n (String.length s - n) s) = String a s). by rewrite IH.
Qed.
Lemma length_upto n s : String.length (upto n s) = Nat.min n (String.length s).
Proof. unfold upto. revert n. induction s as [|a s IH]; intros [|n]; simpl; try done. by rewrite IH. Qed.
Lemma length_from n s : String.length (from n s) = (String.length s - n)%nat.
Proof.
  pose proof (upto_from n s) as H. apply (f_equal String.length) in H. rewrite string_length_app, length_upto in H. lia.
Qed.

Lemma from_from a b s : from a (from b s) = from (b + a) s.
Proof.
  revert s. induction b as [|b IH]; intros s; simpl.
  - unfold from at 2. by rewrite Nat.sub_0_r, substring_all.
  - destruct s as [|x s]; [by destruct a|]. apply IH.
Qed.

(** ** The cipher *)

(** [cipher.NewGCM]: sealing and opening under a key and a nonce. *)
Class GCM := {
  gcm_seal : string → string → string → string;
  gcm_open : string → string → string → option string
}.
(** Only the seal of a text opens, and to that text. *)
Class GCMLaws (g : GCM) : Prop := {
  gcm_exact : ∀ k n c p, gcm_open k n c = Some p ↔ c = gcm_seal k n p
}.
Definition NonceSize : nat := 12.

(** A digest has 32 bytes. *)
Class Sha256Laws (sha : Sha256) : Prop := { sha256_length : ∀ s, String.length (sha256 s) = 32%nat }.

Section box.
  Context `{g : GCM, sha : Sha256}.

(** ** Keys *)

Definition magic : string := "SXB1".
Definition keyIDLen : nat := 4.

(** [key]: the identifier, and the material the cipher is built on. *)
Record boxkey := mkBoxKey { bk_id : string; bk_raw : string }.
#[export] Instance boxkey_eq_dec : EqDecision boxkey.
Proof. solve_decision. Defined.

(** [Sealer]; the zero value is disabled. *)
Record Box := mkBox { bx_primary : option boxkey; bx_keys : list boxkey }.

Inductive KeyErr := NotBase64 | KeyLength (got : nat) | DuplicateKey (id : string).
Inductive BoxErr :=
  | BoxDisabled
  | BadKey (n : nat) (e : KeyErr)
  | NoNonce
  | OpenWith (id : string)
  | NotConfigured (id : string)
  | TooShort
  | NoKeyOpens.

Definition key_sep (a : ascii) : bool := (a ∈? [","; " "; "009"; "010"; "013"])%char.
Definition SplitKeys (b64keys : string) : list string := WavePlans.FieldsFunc key_sep b64keys.

Definition newKey (b64key : string) : res KeyErr boxkey :=
    match StdDecodeString b64key with
    | None => Err NotBase64
    | Some raw =>
        refuse negb (length raw =? 32)%nat with KeyLength (length raw);
        let raw := string_of_list_ascii raw in Ok (mkBoxKey (upto keyIDLen (sha256 raw)) raw)
    end.

(** The loop of [New], from the key number [n] on. *)
Fixpoint load_keys (n : nat) (seen : list string) (fields : list string) : res BoxErr (list boxkey) :=
    match fields with
    | [] => Ok []
    | f :: fields =>
        let! k := lift_err (BadKey n) (newKey f) in
        let id := hex_encode (bk_id k) in
        refuse id ∈? seen with BadKey n (DuplicateKey id);
        let! ks := load_keys (S n) (id :: seen) fields in
        Ok (k :: ks)
    end.

Definition New (b64keys : string) : res BoxErr Box :=
    match SplitKeys b64keys with
    | [] => Ok (mkBox None [])
    | fields => let! ks := load_keys 1 [] fields in Ok (mkBox (head ks) ks)
    end.

Definition BoxEnabled (b : Box) : bool := negb (bool_decide (bx_primary b = None)).
Definition PrimaryKeyID (b : Box) : string := match bx_primary b with Some k => hex_encode (bk_id k) | None => "" end.
Definition KeyCount (b : Box) : nat := length (bx_keys b).

(** ** Sealing and opening *)

(** [nonce] is what [rand.Read] filled, none when it failed. *)
Definition SealBox (b : Box) (nonce : option string) (plaintext : string) : res BoxErr string :=
    match bx_primary b with
    | None => Err BoxDisabled
    | Some k =>
        match nonce with
        | None => Err NoNonce
        | Some nonce => Ok (magic +:+ bk_id k +:+ nonce +:+ gcm_seal (bk_raw k) nonce plaintext)
        end
    end.

Definition envelopeKeyID (sealed : string) : option string :=
    if (String.length sealed <? String.length magic + keyIDLen)%nat || (upto (String.length magic) sealed !=? magic)
    then None else Some (hex_encode (upto keyIDLen (from (String.length magic) sealed))).

Definition parseEnvelope (b : Box) (sealed : string) : option (boxkey * string * string) :=
    let head := (String.length magic + keyIDLen)%nat in
    if (String.length sealed <? head)%nat || (upto (String.length magic) sealed !=? magic) then None else
    let id := upto keyIDLen (from (String.length magic) sealed) in
    match List.find (λ k, bk_id k ==? id) (bx_keys b) with
    | None => None
    | Some k =>
        if (String.length sealed <? head + NonceSize)%nat then None
        else let rest := from head sealed in Some (k, upto NonceSize rest, from NonceSize rest)
    end.

Fixpoint first_opens (ks : list boxkey) (nonce ct : string) : option string :=
    match ks with
    | [] => None
    | k :: ks => match gcm_open (bk_raw k) nonce ct with Some p => Some p | None => first_opens ks nonce ct end
    end.

Definition openLegacy (b : Box) (sealed : string) : res BoxErr string :=
    if (String.length sealed <? NonceSize)%nat then Err TooShort else
    match first_opens (bx_keys b) (upto NonceSize sealed) (from NonceSize sealed) with
    | Some p => Ok p
    | None => Err NoKeyOpens
    end.

Definition OpenBox (b : Box) (sealed : string) : res BoxErr string :=
    match bx_primary b with
    | None => Err BoxDisabled
    | Some _ =>
        match parseEnvelope b sealed with
        | Some (k, nonce, ct) =>
            match gcm_open (bk_raw k) nonce ct with
            | Some p => Ok p
            | None => Err (OpenWith (hex_encode (bk_id k)))
            end
        | None =>
            match envelopeKeyID sealed with
            | Some id => Err (NotConfigured id)
            | None => openLegacy b sealed
            end
        end
    end.

(** ** Properties *)

Context `{!Sha256Laws sha}.

Lemma newKey_Ok f k : newKey f = Ok k →
    bk_id k = upto keyIDLen (sha256 (bk_raw k)) ∧ String.length (bk_id k) = keyIDLen ∧ String.length (bk_raw k) = 32%nat
    ∧ ∃ raw, StdDecodeString f = Some raw ∧ bk_raw k = string_of_list_ascii raw.
Proof.
  unfold newKey. destruct (StdDecodeString f) as [raw|] eqn:Hd; [|done]. destruct (length raw =? 32)%nat eqn:Hl; [|done].
  intros [= <-]. simpl. apply Nat.eqb_eq in Hl. split_and!; [done| | |by eexists].
  - rewrite length_upto, sha256_length. done.
  - by rewrite length_string_of_list.
Qed.

Lemma load_keys_Ok n seen fields ks : load_keys n seen fields = Ok ks →
    Forall2 (λ f k, newKey f = Ok k) fields ks ∧ NoDup (bk_id <$> ks) ∧ Forall (λ k, hex_encode (bk_id k) ∉ seen) ks.
Proof.
  revert n seen ks. induction fields as [|f fields IH]; intros n seen ks; simpl; [by intros [= <-]; repeat constructor|].
  intros (k & Hk & Hr)%res_bind_Ok. destruct (newKey f) as [k'|] eqn:Hn; [|done]. injection Hk as ->.
  case_bool_decide as Hs; [done|]. apply res_bind_Ok in Hr as (rest & Hrest & [= <-]).
  destruct (IH _ _ _ Hrest) as (H2 & Hd & Hf). split; [by constructor|]. split.
  - constructor; [|done]. intros (k2 & He & Hin)%list_elem_of_fmap. rewrite Forall_forall in Hf.
    apply (Hf k2 Hin). rewrite <- He. left.
  - constructor; [done|]. eapply Forall_impl; [exact Hf|]. intros k2 Hk2 Hin. apply Hk2. by right.
Qed.

(** What a configured list of keys gives. *)
Lemma New_Ok ks b : New ks = Ok b →
    bx_primary b = head (bx_keys b) ∧ NoDup (bk_id <$> bx_keys b) ∧ Forall2 (λ f k, newKey f = Ok k) (SplitKeys ks) (bx_keys b).
Proof.
  unfold New. destruct (SplitKeys ks) as [|f fields] eqn:Hs; [intros [= <-]; repeat constructor|].
  intros (l & Hl & [= <-])%res_bind_Ok. destruct (load_keys_Ok _ _ _ _ Hl) as (H2 & Hd & _). done.
Qed.

Lemma New_key_ok ks b k : New ks = Ok b → k ∈ bx_keys b → String.length (bk_id k) = keyIDLen.
Proof.
  intros (_ & _ & H2)%New_Ok Hk. apply list_elem_of_lookup in Hk as [i Hi].
  eapply Forall2_lookup_r in H2 as (f & _ & Hf); [|exact Hi]. by apply newKey_Ok in Hf as (_ & Hl & _).
Qed.

Lemma find_key (ks : list boxkey) k : NoDup (bk_id <$> ks) → k ∈ ks → List.find (λ x, bk_id x ==? bk_id k) ks = Some k.
Proof.
  induction ks as [|x ks IH]; simpl; [by intros _ ?%elem_of_nil|]. intros [Hx Hd]%NoDup_cons Hk.
  case_bool_decide as He.
  - apply elem_of_cons in Hk as [->|Hk]; [done|]. destruct Hx. rewrite He. by apply list_elem_of_fmap_2.
  - apply elem_of_cons in Hk as [->|Hk]; [done|]. by apply IH.
Qed.

(** The head of an envelope. *)
Lemma envelope_head (id rest : string) : String.length id = keyIDLen →
    (String.length (magic +:+ id +:+ rest) <? String.length magic + keyIDLen)%nat = false
    ∧ upto (String.length magic) (magic +:+ id +:+ rest) = magic
    ∧ upto keyIDLen (from (String.length magic) (magic +:+ id +:+ rest)) = id
    ∧ from (String.length magic + keyIDLen) (magic +:+ id +:+ rest) = rest.
Proof.
  intros Hid. split_and!.
  - apply Nat.ltb_ge. rewrite !string_length_app, Hid. lia.
  - apply upto_app.
  - rewrite from_app, <- Hid. apply upto_app.
  - assert (Ha : magic +:+ id +:+ rest = (magic +:+ id) +:+ rest) by (by rewrite string_app_assoc).
    rewrite Ha, <- Hid. replace (String.length magic + String.length id)%nat with (String.length (magic +:+ id))
      by (by rewrite string_length_app). apply from_app.
Qed.

Lemma parse_sealed ks b k nonce ct : New ks = Ok b → k ∈ bx_keys b → String.length nonce = NonceSize →
    parseEnvelope b (magic +:+ bk_id k +:+ nonce +:+ ct) = Some (k, nonce, ct).
Proof.
  intros Hb Hk Hn. pose proof (New_key_ok _ _ _ Hb Hk) as Hid. destruct (New_Ok _ _ Hb) as (_ & Hd & _).
  unfold parseEnvelope. destruct (envelope_head (bk_id k) (nonce +:+ ct) Hid) as (H1 & H2 & H3 & H4).
  rewrite H1, H2, H3, H4, find_key by done. rewrite bool_decide_eq_true_2 by done. simpl negb. cbn [orb].
  replace (_ <? _)%nat with false.
  - rewrite <- Hn. by rewrite upto_app, from_app.
  - symmetry. apply Nat.ltb_ge. rewrite !string_length_app, Hid, Hn. lia.
Qed.

Lemma parse_inv b sealed k nonce ct : parseEnvelope b sealed = Some (k, nonce, ct) →
    k ∈ bx_keys b ∧ String.length nonce = NonceSize ∧ sealed = magic +:+ bk_id k +:+ nonce +:+ ct.
Proof.
  unfold parseEnvelope. destruct (_ <? _)%nat; [done|]. cbn [orb].
  destruct (upto (String.length magic) sealed !=? magic) eqn:Hm; [done|].
  destruct (List.find _ _) as [x|] eqn:Hf; [|done]. destruct (_ <? _)%nat eqn:Hl; [done|]. intros [= <- <- <-].
  apply List.find_some in Hf as [Hin He]. apply bool_decide_eq_true_1 in He.
  apply negb_false_iff, bool_decide_eq_true_1 in Hm. apply Nat.ltb_ge in Hl. split_and!.
  - by apply list_elem_of_In.
  - rewrite length_upto, length_from. change (String.length magic) with 4%nat in *. unfold NonceSize, keyIDLen in *. lia.
  - change (S (S (S (S keyIDLen)))) with (String.length magic + keyIDLen)%nat.
    rewrite He, upto_from, <- from_from, upto_from. rewrite <- Hm at 1. by rewrite upto_from.
Qed.

Lemma first_opens_spec ks nonce ct p : first_opens ks nonce ct = Some p ↔
    ∃ i k, ks !! i = Some k ∧ gcm_open (bk_raw k) nonce ct = Some p
           ∧ ∀ j k', (j < i)%nat → ks !! j = Some k' → gcm_open (bk_raw k') nonce ct = None.
Proof.
  induction ks as [|k ks IH]; simpl.
  { split; [done|]. by intros (i & k & Hi & _). }
  destruct (gcm_open (bk_raw k) nonce ct) as [q|] eqn:Ho.
  - split.
    + intros [= ->]. exists 0%nat, k. split_and!; [done|done|lia].
    + intros ([|i] & k' & Hi & Hk & Hlt); [simpl in Hi; congruence|].
      specialize (Hlt 0%nat k ltac:(lia) eq_refl). congruence.
  - rewrite IH. split.
    + intros (i & k' & Hi & Hk & Hlt). exists (S i), k'. split_and!; [done|done|].
      intros [|j] k2 Hj; simpl; [congruence|]. apply Hlt. lia.
    + intros ([|i] & k' & Hi & Hk & Hlt); [simpl in Hi; congruence|]. exists i, k'. split_and!; [done|done|].
      intros j k2 Hj. apply (Hlt (S j)). lia.
Qed.

Context `{!GCMLaws g}.

Lemma NotFound_key (ks : list boxkey) id : (∀ k, k ∈ ks → bk_id k ≠ id) → List.find (λ x, bk_id x ==? id) ks = None.
Proof.
  intros Hno. destruct (List.find _ ks) as [k|] eqn:Hf; [|done]. apply List.find_some in Hf as [Hin He].
  apply bool_decide_eq_true_1 in He. by destruct (Hno k); [apply list_elem_of_In|].
Qed.

(** Exactly what opens: an envelope of a configured key around that key's seal of
    the text; or, without the mark, a bare nonce and the seal of the first key in
    the list that opens it.  Nothing else opens, and never to another text. *)
Theorem open_is_exact ks b sealed p : New ks = Ok b →
    OpenBox b sealed = Ok p ↔
      (∃ k nonce, k ∈ bx_keys b ∧ String.length nonce = NonceSize
                  ∧ sealed = magic +:+ bk_id k +:+ nonce +:+ gcm_seal (bk_raw k) nonce p)
      ∨ (envelopeKeyID sealed = None ∧ bx_keys b ≠ [] ∧ ∃ i k nonce, bx_keys b !! i = Some k ∧ String.length nonce = NonceSize
           ∧ sealed = nonce +:+ gcm_seal (bk_raw k) nonce p
           ∧ ∀ j k', (j < i)%nat → bx_keys b !! j = Some k' → gcm_open (bk_raw k') nonce (gcm_seal (bk_raw k) nonce p) = None).
Proof.
  intros Hb. destruct (New_Ok _ _ Hb) as (Hp & Hd & _). unfold OpenBox. split.
  - destruct (bx_primary b) as [k0|] eqn:Hk0; [|done].
    destruct (parseEnvelope b sealed) as [[[k nonce] ct]|] eqn:Hpe.
    + destruct (gcm_open _ _ _) as [q|] eqn:Ho; [|done]. intros [= ->]. left.
      apply parse_inv in Hpe as (Hk & Hn & ->). apply gcm_exact in Ho as ->. by exists k, nonce.
    + destruct (envelopeKeyID sealed) eqn:He; [done|]. unfold openLegacy. destruct (_ <? _)%nat eqn:Hl; [done|].
      destruct (first_opens _ _ _) as [q|] eqn:Ho; [|done]. intros [= ->]. right. split; [done|].
      split; [intros Hnil; rewrite Hnil in Hp; simpl in Hp; congruence|].
      apply first_opens_spec in Ho as (i & k & Hi & Hk & Hlt). exists i, k, (upto NonceSize sealed).
      apply gcm_exact in Hk. rewrite <- Hk. split_and!; [done| |by rewrite upto_from|done].
      rewrite length_upto. apply Nat.ltb_ge in Hl. lia.
  - intros [(k & nonce & Hk & Hn & ->)|(He & Hne & i & k & nonce & Hi & Hn & -> & Hlt)].
    + rewrite (parse_sealed _ _ _ _ _ Hb Hk Hn). destruct (bx_primary b) as [k0|].
      * by rewrite (proj2 (gcm_exact _ _ _ p) eq_refl).
      * destruct (bx_keys b); [by apply elem_of_nil in Hk|done].
    + destruct (bx_primary b) as [k0|]; [|by destruct (bx_keys b)].
      destruct (parseEnvelope b _) as [[[k1 n1] c1]|] eqn:Hpe.
      { exfalso. apply parse_inv in Hpe as (Hk1 & Hn1 & Heq). rewrite Heq in He. unfold envelopeKeyID in He.
        destruct (envelope_head (bk_id k1) (n1 +:+ c1) (New_key_ok _ _ _ Hb Hk1)) as (H1 & H2 & _).
        rewrite H1, H2 in He. by rewrite bool_decide_eq_true_2 in He. }
      rewrite He. unfold openLegacy. replace (_ <? _)%nat with false.
      2: { symmetry. apply Nat.ltb_ge. rewrite string_length_app, Hn. lia. }
      replace (upto NonceSize _) with nonce by (rewrite <- Hn; by rewrite upto_app).
      replace (from NonceSize _) with (gcm_seal (bk_raw k) nonce p) by (rewrite <- Hn; by rewrite from_app).
      by rewrite (proj2 (first_opens_spec _ _ _ p) (ex_intro _ i (ex_intro _ k (conj Hi (conj (proj2 (gcm_exact _ _ _ p) eq_refl) Hlt))))).
Qed.

Lemma SplitKeys_primary ks b f : New ks = Ok b → head (SplitKeys ks) = Some f →
    ∃ k, newKey f = Ok k ∧ bx_primary b = Some k ∧ k ∈ bx_keys b.
Proof.
  intros (Hp & _ & H2)%New_Ok Hf. destruct H2 as [|f' k fs l Hk _]; [done|]. injection Hf as ->.
  exists k. split_and!; [done|done|left].
Qed.

Lemma SplitKeys_key ks b f k : New ks = Ok b → f ∈ SplitKeys ks → newKey f = Ok k → k ∈ bx_keys b.
Proof.
  intros (_ & _ & H2)%New_Ok Hf Hk. apply list_elem_of_lookup in Hf as [i Hi].
  eapply Forall2_lookup_l in H2 as (k' & Hk' & Hn); [|exact Hi]. rewrite Hk in Hn. injection Hn as <-.
  by eapply list_elem_of_lookup_2.
Qed.

(** A rotation is additive.  A value the primary key of one configuration sealed
    opens under any configuration that still lists that key, wherever in the list,
    and to the text that was sealed; one that no longer has a key of that
    identifier says which key is missing. *)
Theorem sealed_survives_rotation old new b b' f nonce p sealed :
    New old = Ok b → New new = Ok b' → head (SplitKeys old) = Some f →
    String.length nonce = NonceSize → SealBox b (Some nonce) p = Ok sealed →
    (f ∈ SplitKeys new → OpenBox b' sealed = Ok p)
    ∧ (BoxEnabled b' = true → (∀ k, k ∈ bx_keys b' → hex_encode (bk_id k) ≠ PrimaryKeyID b) →
       OpenBox b' sealed = Err (NotConfigured (PrimaryKeyID b))).
Proof.
  intros Hb Hb' Hf Hn Hs. destruct (SplitKeys_primary _ _ _ Hb Hf) as (k & Hk & Hp & Hin).
  unfold SealBox in Hs. rewrite Hp in Hs. injection Hs as <-. split.
  - intros Hf'. apply (open_is_exact _ _ _ _ Hb'). left. exists k, nonce. split; [by eapply SplitKeys_key|done].
  - unfold BoxEnabled, PrimaryKeyID, OpenBox. rewrite Hp. intros He Hno.
    destruct (bx_primary b') as [k0|]; [|by rewrite bool_decide_eq_true_2 in He].
    destruct (envelope_head (bk_id k) (nonce +:+ gcm_seal (bk_raw k) nonce p) (New_key_ok _ _ _ Hb Hin)) as (H1 & H2 & H3 & H4).
    destruct (parseEnvelope b' _) as [[[k1 n1] c1]|] eqn:Hpe.
    { exfalso. unfold parseEnvelope in Hpe. rewrite H1, H2, H3 in Hpe. cbv zeta in Hpe.
      rewrite NotFound_key in Hpe; [by rewrite bool_decide_eq_true_2 in Hpe|].
      intros x Hx He1. apply (Hno _ Hx). by rewrite He1. }
    unfold envelopeKeyID. rewrite H1, H2, H3. by rewrite bool_decide_eq_true_2.
Qed.

(** ** What the stores are given *)

(** The box as the stores use it: [rand.Read] fills a nonce or fails. *)
Definition box_sealer (b : Box) : Sealer := {|
  sealer_enabled := BoxEnabled b;
  Forge.Seal nonce plain :=
    if (String.length nonce =? NonceSize)%nat
    then match SealBox b (Some nonce) plain with Ok sealed => Ok sealed | Err _ => Err tt end else Err tt;
  Forge.Open sealed := match OpenBox b sealed with Ok p => Some p | Err _ => None end
|}.

Lemma box_seal_Ok b nonce p sealed : Forge.Seal (Sealer := box_sealer b) nonce p = Ok sealed →
    String.length nonce = NonceSize ∧ SealBox b (Some nonce) p = Ok sealed.
Proof.
  simpl. destruct (_ =? _)%nat eqn:Hn; [|done]. apply Nat.eqb_eq in Hn. destruct (SealBox _ _ _); [|done]. by intros [= ->].
Qed.

Lemma primary_field ks b : New ks = Ok b → bx_primary b ≠ None → ∃ f, head (SplitKeys ks) = Some f.
Proof. intros (Hp & _ & H2)%New_Ok Hn. destruct H2; [by rewrite Hp in Hn|by eexists]. Qed.

Lemma box_sealer_laws ks b : New ks = Ok b → SealerLaws (box_sealer b).
Proof.
  intros Hb. split. intros nonce plain sealed (Hn & Hs)%box_seal_Ok.
  assert (Hp : bx_primary b ≠ None) by (intros Hno; unfold SealBox in Hs; by rewrite Hno in Hs).
  destruct (primary_field _ _ Hb Hp) as [f Hf].
  destruct (sealed_survives_rotation _ _ _ _ _ _ _ _ Hb Hb Hf Hn Hs) as [Ho _]. simpl. rewrite Ho; [done|].
  destruct (SplitKeys ks); [done|]. injection Hf as ->. left.
Qed.

(** The key of the replay guard of an accepted list. *)
Lemma intent_key ks b f : New ks = Ok b → head (SplitKeys ks) = Some f → DevicePlane.deriveIntentKey f ≠ "".
Proof.
  intros Hb Hf. destruct (SplitKeys_primary _ _ _ Hb Hf) as (k & (_ & _ & Hl & raw & Hd & Hraw)%newKey_Ok & _).
  unfold DevicePlane.deriveIntentKey. destruct (f ==? "") eqn:Hfe.
  { apply bool_decide_eq_true_1 in Hfe as ->. vm_compute in Hd. injection Hd as <-. by rewrite Hraw in Hl. }
  rewrite Hd. destruct raw as [|a raw]; [by rewrite Hraw in Hl|]. intros Hz.
  pose proof (sha256_length ("sextant-intent-nonce" +:+ DevicePlane.nul +:+ string_of_list_ascii (a :: raw))) as Hlen.
  by rewrite Hz in Hlen.
Qed.

(** C29: a rotation of the sealing key keeps the escrow readable.  A recovery key
    stored under one configured list of keys comes back word for word from a
    reveal under any later list that still has the old primary key somewhere - or
    the database failed, never the decryption, never "no such secret" - and a
    list without a key of that identifier gets no text at all, only an error.
    Under either list the replay guard of a wipe has a key, derived from the
    primary key of that list. *)
Theorem escrow_survives_rotation old new b b' f nonce tag kind plain by_ now reader now' s s1 r s2 :
    New old = Ok b → New new = Ok b' → head (SplitKeys old) = Some f → BoxEnabled b' = true →
    StoreSecret (sl := box_sealer b) nonce tag kind plain by_ now s = (Ok tt, s1) →
    RevealSecret (sl := box_sealer b') tag kind reader now' s1 = (r, s2) →
    (DevicePlane.deriveIntentKey f ≠ "" ∧ ∃ f', head (SplitKeys new) = Some f' ∧ DevicePlane.deriveIntentKey f' ≠ "")
    ∧ (f ∈ SplitKeys new →
       match r with Ok (Some x) => x = plain | Ok None => False | Err (SecretDb _ | RecordE _) => True | Err _ => False end)
    ∧ ((∀ k, k ∈ bx_keys b' → hex_encode (bk_id k) ≠ PrimaryKeyID b) → ∃ e, r = Err e ∧ tables s2 = tables s1).
Proof.
  intros Hb Hb' Hf He (Hk & Hp & sealed & (Hn & Hs)%box_seal_Ok & Ht1)%StoreSecret_inv Hr%RevealSecret_inv.
  assert (Hrow : tables s1 !! (tag, kind) = Some (mkSecretRow sealed now by_ None "")) by (by rewrite Ht1, lookup_insert_eq).
  destruct (sealed_survives_rotation _ _ _ _ _ _ _ _ Hb Hb' Hf Hn Hs) as [Hkept Hgone].
  split_and!.
  - exact (intent_key _ _ _ Hb Hf).
  - destruct (primary_field _ _ Hb') as [f' Hf'].
    { intros Hno. unfold BoxEnabled in He. rewrite Hno in He. by rewrite bool_decide_eq_true_2 in He. }
    exists f'. split; [done|exact (intent_key _ _ _ Hb' Hf')].
  - intros Hin. specialize (Hkept Hin). destruct r as [[x|]|e]; simpl in Hr.
    + destruct Hr as (row & Hrow' & Ho & _). rewrite Hrow in Hrow'. injection Hrow' as <-. simpl in Ho.
      rewrite Hkept in Ho. congruence.
    + destruct Hr; congruence.
    + destruct e; try done; [destruct Hr; congruence|]. destruct Hr as [(row & Hrow' & Ho) _].
      rewrite Hrow in Hrow'. injection Hrow' as <-. simpl in Ho. by rewrite Hkept in Ho.
  - intros Hno. specialize (Hgone He Hno). destruct r as [[x|]|e]; simpl in Hr.
    + destruct Hr as (row & Hrow' & Ho & _). rewrite Hrow in Hrow'. injection Hrow' as <-. simpl in Ho.
      by rewrite Hgone in Ho.
    + destruct Hr; congruence.
    + exists e. split; [done|]. destruct e; try done; [by destruct Hr|by destruct Hr].
Qed.

(** ** What the comments promise beyond the code *)

(** The comment on the mark says that opening falls back to the layout without it
    when the envelope does not open; a value that begins with the mark never gets
    there, whatever a configured key would make of it. *)
Theorem mark_never_falls_back ks b sealed id :
    New ks = Ok b → BoxEnabled b = true → envelopeKeyID sealed = Some id →
    OpenBox b sealed = Err (NotConfigured id)
    ∨ ∃ k nonce ct, parseEnvelope b sealed = Some (k, nonce, ct)
                    ∧ (gcm_open (bk_raw k) nonce ct = None → OpenBox b sealed = Err (OpenWith (hex_encode (bk_id k)))).
Proof.
  intros Hb He Hid. unfold OpenBox, BoxEnabled in *.
  destruct (bx_primary b) as [k0|]; [|by rewrite bool_decide_eq_true_2 in He].
  destruct (parseEnvelope b sealed) as [[[k nonce] ct]|]; [|rewrite Hid; by left].
  right. exists k, nonce, ct. split; [done|]. by intros ->.
Qed.

(** An envelope of a configured key that is cut off before its nonce is reported
    as sealed with a key that is not configured. *)
Theorem truncated_is_not_configured ks b k rest :
    New ks = Ok b → k ∈ bx_keys b → (String.length rest < NonceSize)%nat →
    OpenBox b (magic +:+ bk_id k +:+ rest) = Err (NotConfigured (hex_encode (bk_id k))).
Proof.
  intros Hb Hk Hr. pose proof (New_key_ok _ _ _ Hb Hk) as Hid. destruct (New_Ok _ _ Hb) as (Hp & Hd & _).
  destruct (envelope_head (bk_id k) rest Hid) as (H1 & H2 & H3 & H4). unfold OpenBox.
  destruct (bx_primary b) as [k0|]; [|destruct (bx_keys b); [by apply elem_of_nil in Hk|done]].
  unfold parseEnvelope, envelopeKeyID. rewrite H1, H2, H3. cbv zeta. rewrite find_key, bool_decide_eq_true_2 by done. cbn [negb orb].
  replace (_ <? _)%nat with true; [done|]. symmetry. apply Nat.ltb_lt. rewrite !string_length_app, Hid. lia.
Qed.
End box.

(** ** A rotation *)

(** Stand-ins for the cipher and the digest. *)
#[local] Instance demo_gcm : GCM := {|
  gcm_seal k n p := k +:+ n +:+ p;
  gcm_open k n c := cut_prefix c (k +:+ n)
|}.
Lemma demo_gcm_laws : GCMLaws demo_gcm.
Proof.
  split. intros k n c p. simpl. split.
  - intros Hc%cut_prefix_Some. by rewrite Hc, string_app_assoc.
  - intros ->. rewrite <- string_app_assoc. apply cut_prefix_app.
Qed.
#[local] Instance demo_sha : Sha256 := λ s, upto 32 (s +:+ "................................").
Lemma demo_sha_laws : Sha256Laws demo_sha.
Proof. split. intros s. unfold sha256, demo_sha. rewrite length_upto, string_length_app. change (String.length "................................") with 32%nat. lia. Qed.

Definition key_a : string := "QUFBQUFBQUFBQUFBQUFBQUFBQUFBQUFBQUFBQUFBQUE=".
Definition key_b : string := "QkJCQkJCQkJCQkJCQkJCQkJCQkJCQkJCQkJCQkJCQkI=".
Definition box_of (ks : string) : Box := match New ks with Ok b => b | Err _ => mkBox None [] end.
Definition old_box : Box := box_of key_a.
Definition new_box : Box := box_of (key_b +:+ ", " +:+ key_a).
Definition demo_nonce : string := "012345678901".
Definition escrowed : Pg SecretTable := (StoreSecret (sl := box_sealer old_box) demo_nonce "lt-1" LUKS "phrase" "station:s1" 5 (live ∅)).2.
Definition escrow_read : res SecretErr (option string) * Pg SecretTable :=
  RevealSecret (sl := box_sealer new_box) "lt-1" LUKS "anna" 9 escrowed.

Lemma escrow_survives_rotation_witness :
  escrow_read.1 = Ok (Some "phrase") ∧ DevicePlane.deriveIntentKey key_a ≠ "" ∧
  ∃ f', head (SplitKeys (key_b +:+ ", " +:+ key_a)) = Some f' ∧ DevicePlane.deriveIntentKey f' ≠ "".
Proof.
  assert (Hb : New key_a = Ok old_box) by (vm_compute; reflexivity).
  assert (Hb' : New (key_b +:+ ", " +:+ key_a) = Ok new_box) by (vm_compute; reflexivity).
  assert (Hf : head (SplitKeys key_a) = Some key_a) by (vm_compute; reflexivity).
  assert (He : BoxEnabled new_box = true) by (vm_compute; reflexivity).
  assert (E1 : StoreSecret (sl := box_sealer old_box) demo_nonce "lt-1" LUKS "phrase" "station:s1" 5 (live ∅) = (Ok tt, escrowed))
    by (vm_compute; reflexivity).
  assert (E2 : RevealSecret (sl := box_sealer new_box) "lt-1" LUKS "anna" 9 escrowed = (Ok (Some "phrase"), escrow_read.2))
    by (vm_compute; reflexivity).
  destruct (escrow_survives_rotation (Sha256Laws0 := demo_sha_laws) (GCMLaws0 := demo_gcm_laws) _ _ _ _ _ _ _ _ _ _ _ _ _ _ _ _ _
    Hb Hb' Hf He E1 E2) as (H1 & H2 & _).
  split; [vm_compute; reflexivity|exact H1].
Defined.

(** A value from before the envelope, whose random nonce happens to begin with the
    mark: the key that sealed it is configured and opens it, but opening reports a
    key that is not configured. *)
Theorem legacy_value_with_the_mark_is_lost : ∃ sealed,
  openLegacy old_box sealed = Ok "phrase" ∧ OpenBox old_box sealed = Err (NotConfigured "30303030").
Proof.
  exists ("SXB100000000" +:+ gcm_seal "AAAAAAAAAAAAAAAAAAAAAAAAAAAAAAAA" "SXB100000000" "phrase").
  split; vm_compute; reflexivity.
Qed.
