(* ===== verification/MailService.v ===== *)
(** * Outbound mail (src/internal/domain/mail, app/mail.go, adapters/smtp, adapters/postgres/smtp.go)

    The SMTP configuration of the organisation and its password, which is a
    reference or sealed at rest; the conversation with the relay as the commands
    sent, each of which the relay may refuse.  The secret mount, the cipher and
    the relay's answers are parameters. *)

From S2P Require Import Prelude GoLib Text Catalog Sql Forge.

Definition cr : string := String "013" "".
Definition lf : string := String "010" "".
Definition crlf : string := cr +:+ lf.

(** ** The domain (domain/mail) *)

(** [Security]: a string, of which three are known. *)
Inductive Security := StartTLS | TLS | NoSecurity | OtherSecurity (s : string).
#[export] Instance Security_eq_dec : EqDecision Security.
Proof. solve_decision. Defined.
Definition parse_security (s : string) : Security :=
  if s ==? "starttls" then StartTLS else if s ==? "tls" then TLS else if s ==? "none" then NoSecurity else OtherSecurity s.

(** [Config]; no sealed password is the empty one. *)
Record Config := mkConfig {
  ml_Host : string; ml_Port : Z; ml_From : string; ml_Username : string;
  ml_PasswordRef : string; ml_PasswordEnc : string; ml_Security : Security
}.
#[export] Instance Config_eta : Eta Config := λ c,
  mkConfig (ml_Host c) (ml_Port c) (ml_From c) (ml_Username c) (ml_PasswordRef c) (ml_PasswordEnc c) (ml_Security c).

Record Message := mkMessage { ms_To : list string; ms_Subject : string; ms_Body : string }.

Inductive MailErr :=
  | HostMissing | PortRange (n : Z) | FromNotAddress | UnencryptedRemote | UnknownSecurity (s : string) | TwoCredentials
  | NoRecipients | RecipientNotAddress (a : string) | EmptySubject
  | NoSealingKey | SealRefused | StoreDown (e : DbErr) | PriorUnread (e : DbErr) | NotConfiguredYet
  | PasswordSealed | NoSecretMount (ref : string) | SecretUnread (ref e : string)
  | DialFailed | StartTLSFailed | AuthRefused | AuthInClear | LineBreak | FromRefused | RcptRefused (a : string)
  | DataRefused | BodyRefused | QuitFailed.

Definition HasEnteredSecret (c : Config) : bool := ml_PasswordEnc c !=? "".

(** Exactly one [@], something on both sides of it, and a dot after it. *)
Definition looksLikeEmail (s : string) : bool :=
  match cut_at "@" (trim_space s) with
  | None => false
  | Some (l, d) => (l !=? "") && negb (contains d "@") && (d !=? "") && contains d "."
  end.

Definition isLocalHost (host : string) : bool := to_lower (trim_space host) ∈? ["localhost"; "127.0.0.1"; "::1"].

Definition ValidateConfig (c : Config) : option MailErr :=
  if trim_space (ml_Host c) ==? "" then Some HostMissing
  else if (ml_Port c <? 1) || (65535 <? ml_Port c) then Some (PortRange (ml_Port c))
  else if negb (looksLikeEmail (ml_From c)) then Some FromNotAddress
  else match (match ml_Security c with
              | StartTLS | TLS => None
              | NoSecurity => if isLocalHost (ml_Host c) then None else Some UnencryptedRemote
              | OtherSecurity s => Some (UnknownSecurity s)
              end) with
       | Some e => Some e
       | None => if (ml_Username c !=? "") && (ml_PasswordRef c !=? "") && HasEnteredSecret c then Some TwoCredentials else None
       end.

Definition ValidateMessage (m : Message) : option MailErr :=
  if ms_To m ==? [] then Some NoRecipients
  else match List.find (λ a, negb (looksLikeEmail a)) (ms_To m) with
       | Some a => Some (RecipientNotAddress a)
       | None => if trim_space (ms_Subject m) ==? "" then Some EmptySubject else None
       end.

(** ** The message on the wire (adapters/smtp) *)

Definition is_break (a : ascii) : bool := Ascii.eqb a "013" || Ascii.eqb a "010".
Fixpoint oneLine (s : string) : string :=
  match s with
  | EmptyString => ""
  | String a s => if is_break a then oneLine s else String a (oneLine s)
  end.
(** [strings.ReplaceAll(body, LF, CR LF)]. *)
Fixpoint with_crlf (s : string) : string :=
  match s with
  | EmptyString => ""
  | String a s => if Ascii.eqb a "010" then crlf +:+ with_crlf s else String a (with_crlf s)
  end.

Definition header_lines (from : string) (m : Message) : list string :=
  ["From: " +:+ oneLine from; "To: " +:+ oneLine (join (ms_To m) ", "); "Subject: " +:+ oneLine (ms_Subject m);
   "MIME-Version: 1.0"; "Content-Type: text/plain; charset=utf-8"].
Definition build (from : string) (m : Message) : string :=
  foldr (λ line text, line +:+ crlf +:+ text) (crlf +:+ with_crlf (ms_Body m)) (header_lines from m).

(** The text after the last [<], up to the first [>] after it. *)
Fixpoint after_last (c : ascii) (s : string) : option string :=
  match s with
  | EmptyString => None
  | String a s => match after_last c s with Some r => Some r | None => if Ascii.eqb a c then Some s else None end
  end.
Definition addrOnly (s : string) : string :=
  match after_last "<" s with
  | Some r => match cut_at ">" r with Some (addr, _) => trim_space addr | None => trim_space s end
  | None => trim_space s
  end.

(** ** The conversation *)

Inductive SmtpCmd :=
  | DialTLS (host : string) (port : Z) | DialTCP (host : string) (port : Z) | UpgradeTLS
  | AuthPlain (user password : string) | MailFrom (a : string) | RcptTo (a : string) | Data | Body (text : string) | Quit_.

(** What was sent, and which of the next commands fail. *)
Record Wire := mkWire { sent : list SmtpCmd; refusals : list bool }.
#[export] Instance Wire_eta : Eta Wire := λ w, mkWire (sent w) (refusals w).

Definition command (c : SmtpCmd) (e : MailErr) : SE Wire MailErr unit := λ w,
  (match refusals w with true :: _ => Err e | _ => Ok tt end, mkWire (sent w ++ [c]) (tail (refusals w))).

Definition dial (c : Config) : SE Wire MailErr unit :=
  if ml_Security c ==? TLS then command (DialTLS (ml_Host c) (ml_Port c)) DialFailed else
  run! command (DialTCP (ml_Host c) (ml_Port c)) DialFailed;
  if ml_Security c ==? StartTLS then command UpgradeTLS StartTLSFailed else se_ret tt.

(** [smtp.PlainAuth]: never over an unencrypted connection, but to a loopback name
    as it is written. *)
Definition plain_auth_allowed (c : Config) : bool :=
  negb (ml_Security c ==? NoSecurity) || (ml_Host c ∈? ["localhost"; "127.0.0.1"; "::1"]).
(** A line of the protocol holds no line break. *)
Definition line_ok (s : string) : bool := string_forall (λ a, negb (is_break a)) s.

Definition refuse_when (bad : bool) (e : MailErr) : SE Wire MailErr unit := if bad then se_err e else se_ret tt.
Definition addressed_to (a : string) : SE Wire MailErr unit :=
  run! refuse_when (negb (line_ok (addrOnly a))) LineBreak; command (RcptTo (addrOnly a)) (RcptRefused a).

Definition SmtpSend (c : Config) (password : string) (m : Message) : SE Wire MailErr unit :=
  match ValidateConfig c with
  | Some e => se_err e
  | None =>
      match ValidateMessage m with
      | Some e => se_err e
      | None =>
          run! dial c;
          run! (if ml_Username c !=? "" then
                  run! refuse_when (negb (plain_auth_allowed c)) AuthInClear;
                  command (AuthPlain (ml_Username c) password) AuthRefused
                else se_ret tt);
          run! refuse_when (negb (line_ok (addrOnly (ml_From c)))) LineBreak;
          run! command (MailFrom (addrOnly (ml_From c))) FromRefused;
          run! se_each addressed_to (ms_To m);
          run! command Data DataRefused;
          run! command (Body (build (ml_From c) m)) BodyRefused;
          command Quit_ QuitFailed
      end
  end.

(** ** The store (adapters/postgres/smtp.go): one row per tenant *)

Definition GetMailConfig : SE (Pg (option Config)) DbErr (option Config) := query (λ t, t).
Definition PutMailConfig (c : Config) : SE (Pg (option Config)) DbErr unit := exec (λ _, Some c).
Definition DeleteMailConfig : SE (Pg (option Config)) DbErr unit := exec (λ _, None).

(** ** The service (app/mail.go) *)

(** The stored configuration and the conversations so far. *)
Record MailState := mkMailState { mt_store : Pg (option Config); mt_wire : Wire }.
#[export] Instance MailState_eta : Eta MailState := λ s, mkMailState (mt_store s) (mt_wire s).

Section service.
  Context `{sl : Sealer} (readRef : option (string → res string string)).

Definition on_store {A} (w : DbErr → MailErr) (m : SE (Pg (option Config)) DbErr A) : SE MailState MailErr A := λ s,
    let '(r, p) := m (mt_store s) in (match r with Ok a => Ok a | Err e => Err (w e) end, s <| mt_store := p |>).
Definition on_wire {A} (m : SE Wire MailErr A) : SE MailState MailErr A := λ s,
    let '(r, w) := m (mt_wire s) in (r, s <| mt_wire := w |>).

Definition CanStoreEnteredSecret : bool := sealer_enabled.

(** [Config]: without the sealed password. *)
Definition MailConfig : SE MailState MailErr (option Config) :=
    do! c <- on_store StoreDown GetMailConfig;
    se_ret ((λ c, c <| ml_PasswordEnc := "" |>) <$> c).

Definition SaveMail (nonce : string) (cfg : Config) (entered : string) : SE MailState MailErr unit :=
    do! cfg <-
      (if entered !=? "" then
         if negb sealer_enabled then se_err NoSealingKey
         else match Seal nonce entered with
              | Err _ => se_err SealRefused
              | Ok sealed => se_ret (cfg <| ml_PasswordEnc := sealed |> <| ml_PasswordRef := "" |>)
              end
       else if ml_PasswordRef cfg ==? "" then
         do! prev <- on_store PriorUnread GetMailConfig;
         se_ret (match prev with Some p => cfg <| ml_PasswordEnc := ml_PasswordEnc p |> | None => cfg end)
       else se_ret cfg);
    match ValidateConfig cfg with
    | Some e => se_err e
    | None => on_store StoreDown (PutMailConfig cfg)
    end.

Definition DeleteMail : SE MailState MailErr unit := on_store StoreDown DeleteMailConfig.

(** [resolve]: the password of one send. *)
Definition resolve_password (c : Config) : res MailErr string :=
    if HasEnteredSecret c then match Open (ml_PasswordEnc c) with Some pw => Ok pw | None => Err PasswordSealed end
    else if ml_PasswordRef c !=? "" then
      match readRef with
      | None => Err (NoSecretMount (ml_PasswordRef c))
      | Some read => match read (ml_PasswordRef c) with Ok pw => Ok pw | Err e => Err (SecretUnread (ml_PasswordRef c) e) end
      end
    else Ok "".

Definition SendMail (m : Message) : SE MailState MailErr unit :=
    do! c <- on_store StoreDown GetMailConfig;
    match c with
    | None => se_err NotConfiguredYet
    | Some c => do! pw <- se_lift (resolve_password c); on_wire (SmtpSend c pw m)
    end.

Definition SendTo (to : list string) (subject body : string) : SE MailState MailErr unit := SendMail (mkMessage to subject body).
Definition SendTest (to : string) : SE MailState MailErr unit :=
    SendMail (mkMessage [to] "Sextant test e-mail"
      "This is a test message from Sextant. If you received it, this organisation's SMTP settings work.").
End service.

(** ** What is sent *)

(** The whole conversation of one message. *)
Definition transcript (c : Config) (password : string) (m : Message) : list SmtpCmd :=
  (if ml_Security c ==? TLS then [DialTLS (ml_Host c) (ml_Port c)]
   else DialTCP (ml_Host c) (ml_Port c) :: (if ml_Security c ==? StartTLS then [UpgradeTLS] else []))
  ++ (if ml_Username c !=? "" then [AuthPlain (ml_Username c) password] else [])
  ++ [MailFrom (addrOnly (ml_From c))] ++ ((λ a, RcptTo (addrOnly a)) <$> ms_To m)
  ++ [Data; Body (build (ml_From c) m); Quit_].

(** A program that sends the commands in order until it fails. *)
Definition emits {A} (m : SE Wire MailErr A) (l : list SmtpCmd) : Prop := ∀ w r w',
  m w = (r, w') → ∃ l1 l2, l = l1 ++ l2 ∧ sent w' = sent w ++ l1 ∧ (is_ok r = true → l2 = []).

Lemma emits_ret {A} (a : A) : emits (se_ret a) [].
Proof. intros w r w' [= <- <-]. exists [], []. by split_and!; rewrite ?app_nil_r. Qed.
Lemma emits_err {A} (e : MailErr) l : emits (A := A) (se_err e) l.
Proof. intros w r w' [= <- <-]. exists [], l. by split_and!; rewrite ?app_nil_r. Qed.
Lemma emits_command c e : emits (command c e) [c].
Proof.
  intros w r w' [= <- <-]. exists [c], []. by split_and!.
Qed.
Lemma emits_bind {A B} (m : SE Wire MailErr A) (k : A → SE Wire MailErr B) l l' :
  emits m l → (∀ a, emits (k a) l') → emits (se_bind m k) (l ++ l').
Proof.
  intros Hm Hk w r w' [(a & w1 & E1 & E)|(e & E & ->)]%se_bind_inv.
  - destruct (Hm _ _ _ E1) as (l1 & l2 & -> & Hs1 & H2). rewrite (H2 eq_refl), app_nil_r.
    destruct (Hk _ _ _ _ E) as (k1 & k2 & -> & Hs2 & H3). exists (l1 ++ k1), k2. by split_and!; rewrite ?Hs2, ?Hs1, ?app_assoc.
  - destruct (Hm _ _ _ E) as (l1 & l2 & -> & Hs1 & _). exists l1, (l2 ++ l'). by split_and!; rewrite ?app_assoc.
Qed.
Lemma emits_refuse bad e : emits (refuse_when bad e) [].
Proof. destruct bad; [apply emits_err|apply emits_ret]. Qed.
Lemma emits_each {A} (f : A → SE Wire MailErr unit) g l : (∀ a, emits (f a) [g a]) → emits (se_each f l) (g <$> l).
Proof.
  intros Hf. induction l as [|a l IH]; [apply emits_ret|]. by apply (emits_bind _ _ [g a]).
Qed.

Lemma SmtpSend_emits c pw m : emits (SmtpSend c pw m) (transcript c pw m).
Proof.
  unfold SmtpSend, transcript. destruct (ValidateConfig c); [apply emits_err|]. destruct (ValidateMessage m); [apply emits_err|].
  apply emits_bind.
  { unfold dial. destruct (ml_Security c ==? TLS); [apply emits_command|]. apply (emits_bind _ _ [_]); [apply emits_command|].
    intros _. destruct (ml_Security c ==? StartTLS); [apply emits_command|apply emits_ret]. }
  intros _. apply emits_bind.
  { destruct (_ !=? _); [|apply emits_ret]. apply (emits_bind _ _ []); [apply emits_refuse|]. intros _. apply emits_command. }
  intros _. apply (emits_bind _ _ []); [apply emits_refuse|]. intros _. apply (emits_bind _ _ [_]); [apply emits_command|].
  intros _. apply emits_bind.
  { apply emits_each. intros a. apply (emits_bind _ _ []); [apply emits_refuse|]. intros _. apply emits_command. }
  intros _. apply (emits_bind _ _ [_] [_; _]); [apply emits_command|]. intros _.
  apply (emits_bind _ _ [_] [_]); [apply emits_command|]. intros _. apply emits_command.
Qed.

Definition dial_cmds (c : Config) : list SmtpCmd :=
  if ml_Security c ==? TLS then [DialTLS (ml_Host c) (ml_Port c)]
  else DialTCP (ml_Host c) (ml_Port c) :: (if ml_Security c ==? StartTLS then [UpgradeTLS] else []).

(** A first part that never succeeds cuts the rest off. *)
Lemma emits_stop {A B} (m : SE Wire MailErr A) (k : A → SE Wire MailErr B) l :
  emits m l → (∀ w r w', m w = (r, w') → is_ok r = false) → emits (se_bind m k) l.
Proof.
  intros Hm Hno w r w' [(a & w1 & E1 & E)|(e & E & ->)]%se_bind_inv; [by apply Hno in E1|].
  destruct (Hm _ _ _ E) as (l1 & l2 & -> & Hs1 & _). exists l1, l2. by split_and!.
Qed.

Lemma SmtpSend_clear c pw m : ml_Username c ≠ "" → plain_auth_allowed c = false → emits (SmtpSend c pw m) (dial_cmds c).
Proof.
  intros Hu Ha. unfold SmtpSend. destruct (ValidateConfig c); [apply emits_err|]. destruct (ValidateMessage m); [apply emits_err|].
  rewrite <- (app_nil_r (dial_cmds c)). apply emits_bind.
  { unfold dial, dial_cmds. destruct (ml_Security c ==? TLS); [apply emits_command|]. apply (emits_bind _ _ [_]); [apply emits_command|].
    intros _. destruct (ml_Security c ==? StartTLS); [apply emits_command|apply emits_ret]. }
  intros _. rewrite bool_decide_eq_false_2, Ha by done. apply emits_stop; [apply emits_stop; [apply emits_err|]|]; by intros w r w' [= <- <-].
Qed.

(** A conversation with the configured relay that is encrypted, or stays on the
    machine. *)
Definition guarded (c : Config) (cmds : list SmtpCmd) : Prop :=
  match cmds with
  | DialTLS h p :: _ | DialTCP h p :: UpgradeTLS :: _ => h = ml_Host c ∧ p = ml_Port c
  | DialTCP h p :: _ => h = ml_Host c ∧ p = ml_Port c ∧ h ∈ ["localhost"; "127.0.0.1"; "::1"]
  | _ => False
  end.

(** Who is told the password: after it, the relay it is for, over a guarded
    connection. *)
Lemma no_auth_in_dial c u p : AuthPlain u p ∉ dial_cmds c.
Proof. unfold dial_cmds. destruct (ml_Security c ==? TLS), (ml_Security c ==? StartTLS); set_solver. Qed.

Lemma auth_in_transcript c pw m u p : AuthPlain u p ∈ transcript c pw m → ml_Username c ≠ "" ∧ u = ml_Username c ∧ p = pw.
Proof.
  unfold transcript. fold (dial_cmds c). rewrite !elem_of_app. intros [Hd|[Ha|[Ha|[Ha|Ha]]]].
  - by apply no_auth_in_dial in Hd.
  - destruct (ml_Username c !=? "") eqn:Hu; [|by apply elem_of_nil in Ha]. apply neqb_true in Hu.
    apply list_elem_of_singleton in Ha as [= -> ->]. done.
  - by apply list_elem_of_singleton in Ha.
  - by apply list_elem_of_fmap in Ha as (a & ? & _).
  - by repeat (apply elem_of_cons in Ha as [?|Ha]; [done|]); apply elem_of_nil in Ha.
Qed.

Lemma guarded_dial c k : ValidateConfig c = None → plain_auth_allowed c = true → guarded c (dial_cmds c ++ k).
Proof.
  unfold ValidateConfig, plain_auth_allowed, dial_cmds. do 3 (case_match; [done|]).
  destruct (ml_Security c); simpl; try done. intros _ Hl%bool_decide_eq_true_1.
  by destruct k as [|[] k].
Qed.

(** The password is told only to the relay it is for, over a guarded connection. *)
Lemma SmtpSend_auth c pw m w r w' : SmtpSend c pw m w = (r, w') →
  ∃ new, sent w' = sent w ++ new ∧ new `prefix_of` transcript c pw m ∧
    ∀ u p, AuthPlain u p ∈ new → u = ml_Username c ∧ p = pw ∧ guarded c new.
Proof.
  intros E. destruct (ValidateConfig c) eqn:Hv.
  { unfold SmtpSend in E. rewrite Hv in E. injection E as <- <-. exists []. rewrite app_nil_r. split; [done|]. split; [apply prefix_nil|]. by intros u p ?%elem_of_nil. }
  destruct (decide (ml_Username c ≠ "" ∧ plain_auth_allowed c = false)) as [[Hu Ha]|Hno].
  - destruct (SmtpSend_clear _ _ _ Hu Ha _ _ _ E) as (l1 & l2 & Hl & Hs & _). exists l1. split; [done|].
    split; [unfold transcript; fold (dial_cmds c); rewrite Hl, <- (assoc_L (++)); by apply prefix_app_r|].
    intros u p Hin. exfalso. apply (no_auth_in_dial c u p). rewrite Hl. apply elem_of_app. by left.
  - destruct (SmtpSend_emits _ _ _ _ _ _ E) as (l1 & l2 & Hl & Hs & _). exists l1. split; [done|].
    split; [rewrite Hl; by apply prefix_app_r|]. intros u p Hin.
    destruct (auth_in_transcript c pw m u p) as (Hu & -> & ->); [rewrite Hl; apply elem_of_app; by left|]. split_and!; [done..|].
    unfold transcript in Hl. fold (dial_cmds c) in Hl. apply app_eq_inv in Hl as [(k & Hd & _)|(k & -> & _)].
    + exfalso. apply (no_auth_in_dial c (ml_Username c) pw). rewrite Hd. apply elem_of_app. by left.
    + apply guarded_dial; [done|]. destruct (plain_auth_allowed c); [done|]. by destruct Hno.
Qed.

(** The failures of the service itself, before there is a conversation. *)
Definition service_err (e : MailErr) : bool :=
  match e with PasswordSealed | NoSecretMount _ | SecretUnread _ _ | NotConfiguredYet => true | _ => false end.
Definition relays {A} (m : SE Wire MailErr A) : Prop := ∀ w e w', m w = (Err e, w') → service_err e = false.

Lemma relays_bind {A B} (m : SE Wire MailErr A) (k : A → SE Wire MailErr B) : relays m → (∀ a, relays (k a)) → relays (se_bind m k).
Proof. intros Hm Hk w e w' [(a & w1 & _ & E)|(e' & E & [= ->])]%se_bind_inv; [by eapply Hk|by eapply Hm]. Qed.
Lemma relays_ret {A} (a : A) : relays (se_ret a).
Proof. done. Qed.
Lemma relays_err {A} e : service_err e = false → relays (A := A) (se_err e).
Proof. intros He w e' w' [= <- _]. done. Qed.
Lemma relays_command c e : service_err e = false → relays (command c e).
Proof. intros He w e' w' [= Hr _]. by destruct (refusals w) as [|[] l]; simplify_eq. Qed.
Lemma relays_refuse bad e : service_err e = false → relays (refuse_when bad e).
Proof. destruct bad; [apply relays_err|intros; apply relays_ret]. Qed.
Lemma relays_each {A} (f : A → SE Wire MailErr unit) l : (∀ a, relays (f a)) → relays (se_each f l).
Proof. intros Hf. induction l as [|a l IH]; [apply relays_ret|]. apply relays_bind; auto. Qed.

Lemma ValidateConfig_relays c e : ValidateConfig c = Some e → service_err e = false.
Proof. unfold ValidateConfig. intros Hv. repeat case_match; by simplify_eq. Qed.
Lemma ValidateMessage_relays m e : ValidateMessage m = Some e → service_err e = false.
Proof. unfold ValidateMessage. intros Hv. repeat case_match; by simplify_eq. Qed.

Lemma SmtpSend_relays c pw m : relays (SmtpSend c pw m).
Proof.
  unfold SmtpSend. destruct (ValidateConfig c) eqn:Hc; [by apply relays_err, (ValidateConfig_relays c)|].
  destruct (ValidateMessage m) eqn:Hm; [by apply relays_err, (ValidateMessage_relays m)|].
  unfold dial, addressed_to.
  repeat first [apply relays_bind; [|intros _] | apply relays_each; intros ? | by apply relays_command
               | by apply relays_refuse | apply relays_ret | case_match].
Qed.

(** ** The password of the organisation *)

Section password.
  Context `{sl : Sealer} (readRef : option (string → res string string)).
  (** A sealed value is never empty. *)
  Context (seal_nonempty : ∀ n p x, Seal n p = Ok x → x ≠ "").

(** What is at rest: nothing, a reference, or a seal of a text someone entered. *)
Definition at_rest (s : MailState) : Prop :=
    ∀ c, tables (mt_store s) = Some c → ml_PasswordEnc c = "" ∨ ∃ n p, p ≠ "" ∧ Seal n p = Ok (ml_PasswordEnc c).

Lemma on_store_inv {A} (w : DbErr → MailErr) (m : SE (Pg (option Config)) DbErr A) s r s' : on_store w m s = (r, s') →
    ∃ r0 p, m (mt_store s) = (r0, p) ∧ s' = s <| mt_store := p |> ∧ r = match r0 with Ok a => Ok a | Err e => Err (w e) end.
Proof. unfold on_store. destruct (m (mt_store s)) as [r0 p]. intros [= <- <-]. by exists r0, p. Qed.

(** A save that was accepted stores the form, with the seal of the password that
    was entered, or - without one and without a reference - the seal on file. *)
Lemma SaveMail_inv nonce cfg pw s r s' : SaveMail nonce cfg pw s = (r, s') →
    mt_wire s' = mt_wire s ∧
    match r with
    | Err _ => tables (mt_store s') = tables (mt_store s)
    | Ok _ => ∃ c, tables (mt_store s') = Some c ∧ ValidateConfig c = None ∧ ml_Username c = ml_Username cfg ∧
        ((pw ≠ "" ∧ Seal nonce pw = Ok (ml_PasswordEnc c) ∧ ml_PasswordRef c = "")
         ∨ (pw = "" ∧ ml_PasswordRef cfg = "" ∧ ml_PasswordRef c = ""
            ∧ ml_PasswordEnc c = match tables (mt_store s) with Some p => ml_PasswordEnc p | None => ml_PasswordEnc cfg end)
         ∨ (pw = "" ∧ ml_PasswordRef cfg ≠ "" ∧ c = cfg))
    end.
Proof.
  unfold SaveMail. intros [(c & s1 & E1 & E)|(e & E & ->)]%se_bind_inv.
  - assert (Hw : mt_wire s1 = mt_wire s ∧ tables (mt_store s1) = tables (mt_store s) ∧ ml_Username c = ml_Username cfg ∧
        ((pw ≠ "" ∧ Seal nonce pw = Ok (ml_PasswordEnc c) ∧ ml_PasswordRef c = "")
         ∨ (pw = "" ∧ ml_PasswordRef cfg = "" ∧ ml_PasswordRef c = ""
            ∧ ml_PasswordEnc c = match tables (mt_store s) with Some p => ml_PasswordEnc p | None => ml_PasswordEnc cfg end)
         ∨ (pw = "" ∧ ml_PasswordRef cfg ≠ "" ∧ c = cfg))).
    { destruct (pw !=? "") eqn:Hp; [apply neqb_true in Hp|apply negb_false_iff, bool_decide_eq_true_1 in Hp].
      - destruct (negb sealer_enabled); [done|]. destruct (Seal nonce pw) as [x|] eqn:Hs; [|done]. injection E1 as <- <-.
        split_and!; try done. by left.
      - destruct (ml_PasswordRef cfg ==? "") eqn:Hr; [apply bool_decide_eq_true_1 in Hr|apply bool_decide_eq_false_1 in Hr].
        + apply se_bind_inv in E1 as [(prev & s2 & E2 & E1)|(e & _ & ?)]; [|done].
          apply on_store_inv in E2 as (r0 & p & Eq & -> & Hr0). apply query_tables in Eq as [Ht Hq].
          injection E1 as <- <-. simpl. split_and!; [done|done|by destruct prev|]. right. left.
          destruct r0 as [pr|]; [|done]. injection Hr0 as <-. rewrite (Hq _ eq_refl). by destruct (tables (mt_store s)).
        + injection E1 as <- <-. split_and!; try done. right. by right. }
    destruct Hw as (Hw & Ht & Hu & Hc). destruct (ValidateConfig c) eqn:Hv.
    + injection E as <- <-. done.
    + apply on_store_inv in E as (r0 & p & Ee & -> & ->). apply exec_tables in Ee. simpl.
      destruct r0; simpl; [|by rewrite Ee]. split; [done|]. exists c. by rewrite Ee.
  - destruct (pw !=? ""); [destruct (negb sealer_enabled); [by injection E as _ <-|destruct (Seal nonce pw); [done|by injection E as _ <-]]|].
    destruct (ml_PasswordRef cfg ==? ""); [|done]. apply se_bind_inv in E as [(prev & s2 & E2 & E1)|(e' & E2 & _)]; [done|].
    apply on_store_inv in E2 as (r0 & p & Eq & -> & _). apply query_tables in Eq as [Ht _]. by simpl.
Qed.
Context `{!SealerLaws sl}.

Lemma SaveMail_at_rest nonce cfg pw s r s' : ml_PasswordEnc cfg = "" → at_rest s → SaveMail nonce cfg pw s = (r, s') → at_rest s'.
Proof.
  intros Hc Hat [_ Hr]%SaveMail_inv. unfold at_rest. destruct r as [[]|]; [|by rewrite Hr].
  destruct Hr as (c & -> & _ & _ & Hcase). intros c' [= <-]. destruct Hcase as [(Hp & Hs & _)|[(_ & _ & _ & He)|(_ & _ & ->)]].
  - right. by exists nonce, pw.
  - rewrite He. unfold at_rest in Hat. destruct (tables (mt_store s)) as [c0|]; [by apply Hat|by left].
  - by left.
Qed.

Lemma SendMail_inv m s r s' : SendMail readRef m s = (r, s') → tables (mt_store s') = tables (mt_store s) ∧
    ((∃ e, r = Err (StoreDown e) ∧ mt_wire s' = mt_wire s)
     ∨ match tables (mt_store s) with
       | None => r = Err NotConfiguredYet ∧ mt_wire s' = mt_wire s
       | Some c => match resolve_password readRef c with
                   | Err e => r = Err e ∧ mt_wire s' = mt_wire s
                   | Ok pw => SmtpSend c pw m (mt_wire s) = (r, mt_wire s')
                   end
       end).
Proof.
  unfold SendMail. intros [(c & s1 & E1 & E)|(e & E & ->)]%se_bind_inv;
    [apply on_store_inv in E1 as (r0 & p & Eq & -> & Hr0)|apply on_store_inv in E as (r0 & p & Eq & -> & Hr0)];
    apply query_tables in Eq as [Ht Hq].
  - destruct r0 as [c0|]; [|done]. injection Hr0 as <-. specialize (Hq _ eq_refl). rewrite <- Hq. destruct c as [c|].
    + unfold se_lift, se_bind, on_wire in E. destruct (resolve_password readRef c) as [pw|].
      * simpl in E. destruct (SmtpSend c pw m (mt_wire s)) as [r1 w] eqn:Es. injection E as <- <-. split; [simpl; congruence|]. by right.
      * injection E as <- <-. split; [simpl; congruence|]. by right.
    + injection E as <- <-. split; [simpl; congruence|]. by right.
  - destruct r0 as [x|e0]; [done|]. injection Hr0 as ->. split; [done|]. left. by eexists.
Qed.

(** Later saves of the form, each without a password and without a reference. *)
Definition edit_all (edits : list (string * Config)) (s : MailState) : MailState :=
    foldl (λ s e, (SaveMail e.1 e.2 "" s).2) s edits.

Lemma edit_all_keeps edits s c0 :
    Forall (λ e, ml_PasswordRef e.2 = "" ∧ ml_PasswordEnc e.2 = "") edits → at_rest s → tables (mt_store s) = Some c0 →
    at_rest (edit_all edits s) ∧ mt_wire (edit_all edits s) = mt_wire s ∧
    ∃ c, tables (mt_store (edit_all edits s)) = Some c ∧ ml_PasswordEnc c = ml_PasswordEnc c0.
Proof.
  intros Hall. revert s c0. induction Hall as [|[n cfg] edits [Hr He] _ IH]; intros s c0 Hat Ht; [split_and!; eauto|].
  cbn [edit_all foldl fst snd] in *. destruct (SaveMail n cfg "" s) as [r1 s1] eqn:E. cbn [snd].
  pose proof (SaveMail_at_rest _ _ _ _ _ _ He Hat E) as Hat1. destruct (SaveMail_inv _ _ _ _ _ _ E) as [Hw Hcase].
  assert (Hc : ∃ c1, tables (mt_store s1) = Some c1 ∧ ml_PasswordEnc c1 = ml_PasswordEnc c0).
  { destruct r1 as [[]|]; [|exists c0; by rewrite Hcase]. destruct Hcase as (c1 & Ht1 & _ & _ & Hcase). exists c1. split; [done|].
    destruct Hcase as [(? & _)|[(_ & _ & _ & ->)|(_ & ? & _)]]; [done| |done]. by rewrite Ht. }
  destruct Hc as (c1 & Ht1 & <-). destruct (IH s1 c1 Hat1 Ht1) as (H1 & H2 & H3). split_and!; [done| |done].
  unfold edit_all in H2. by rewrite H2.
Qed.

(** C36: the password of the mail relay.  Once an entered password was saved, any
    number of later edits of the form without one - saved or refused - keep it,
    and at rest it is only ever a seal; a send then never fails for want of the
    password; whatever the relay refuses, what is sent is a beginning of the one
    conversation with the configured relay, so the password is told to nobody but
    that host and port, after the connection was upgraded to TLS, dialled with TLS
    or stayed on the machine, with the stored user name; and a send that succeeds
    is the whole conversation: the message with its five headers, to every
    recipient. *)
Theorem mail_password_protected nonce cfg pw edits m s s1 r s3 :
    pw ≠ "" → SaveMail nonce cfg pw s = (Ok tt, s1) →
    Forall (λ e, ml_PasswordRef e.2 = "" ∧ ml_PasswordEnc e.2 = "") edits →
    SendMail readRef m (edit_all edits s1) = (r, s3) → ml_PasswordEnc cfg = "" → at_rest s →
    at_rest s3 ∧
    ∃ c new, tables (mt_store (edit_all edits s1)) = Some c ∧ sent (mt_wire s3) = sent (mt_wire s) ++ new
      ∧ new `prefix_of` transcript c pw m
      ∧ (∀ u p, AuthPlain u p ∈ new → u = ml_Username c ∧ p = pw ∧ guarded c new)
      ∧ match r with
        | Ok _ => new = transcript c pw m
        | Err (PasswordSealed | NoSecretMount _ | SecretUnread _ _ | NotConfiguredYet) => False
        | Err _ => True
        end.
Proof.
  intros Hpw E1 Hedits E3 Hc0 Hat. pose proof (SaveMail_at_rest _ _ _ _ _ _ Hc0 Hat E1) as Hat1.
  destruct (SaveMail_inv _ _ _ _ _ _ E1) as [Hw1 (c1 & Ht1 & _ & _ & Hcase1)].
  assert (Hs1 : Seal nonce pw = Ok (ml_PasswordEnc c1)) by (by destruct Hcase1 as [(_ & ? & _)|[(? & _)|(? & _)]]).
  destruct (edit_all_keeps _ _ _ Hedits Hat1 Ht1) as (Hat2 & Hw2 & c & Ht2 & Henc). pose proof (seal_nonempty _ _ _ Hs1) as Hne.
  assert (Hres : resolve_password readRef c = Ok pw).
  { unfold resolve_password, HasEnteredSecret. rewrite Henc, bool_decide_eq_false_2 by done. simpl.
    by rewrite (open_seal _ _ _ Hs1). }
  destruct (SendMail_inv _ _ _ _ E3) as [Ht3 Hsend]. rewrite Ht2, Hres in Hsend.
  split; [unfold at_rest; by rewrite Ht3|]. exists c. destruct Hsend as [(e & -> & Hw3)|Es].
  - exists []. split_and!; [done|by rewrite Hw3, Hw2, Hw1, app_nil_r|apply prefix_nil|by intros ?? ?%elem_of_nil|done].
  - rewrite Hw2, Hw1 in Es. destruct (SmtpSend_auth _ _ _ _ _ _ Es) as (new & Hs & Hp & Ha). exists new. split_and!; [done..|].
    destruct r as [[]|e].
    + destruct (SmtpSend_emits _ _ _ _ _ _ Es) as (l1 & l2 & Hl & Hs' & Hall). rewrite Hs in Hs'.
      apply app_inv_head in Hs' as ->. by rewrite Hl, (Hall eq_refl), app_nil_r.
    + apply SmtpSend_relays in Es. by destruct e.
Qed.
End password.

(** ** A relay *)

Definition relay_form : Config := mkConfig "mail.example.org" 587 "sextant@example.org" "bot" "" "" StartTLS.
Definition first_save : MailState :=
  (SaveMail "n" relay_form "hunter2" (mkMailState (live None) (mkWire [] []))).2.
(** Two edits: another port, and a form that is refused. *)
Definition relay_edits : list (string * Config) := [("n", relay_form <| ml_Port := 2525 |>); ("n", relay_form <| ml_Host := "" |>)].
Definition edited_save : MailState := edit_all relay_edits first_save.
Definition mailed : res MailErr unit * MailState := SendMail None (mkMessage ["ada@example.org"] "Hello" "Text") edited_save.

Lemma mail_password_protected_witness :
  AuthPlain "bot" "hunter2" ∈ sent (mt_wire mailed.2) ∧ ∃ c, ml_Port c = 2525 ∧ guarded c (sent (mt_wire mailed.2)).
Proof.
  assert (E1 : SaveMail "n" relay_form "hunter2" (mkMailState (live None) (mkWire [] [])) = (Ok tt, first_save)) by (vm_compute; reflexivity).
  assert (E3 : SendMail None (mkMessage ["ada@example.org"] "Hello" "Text") (edit_all relay_edits first_save) = (mailed.1, mailed.2)) by (vm_compute; reflexivity).
  assert (Hne : ∀ n p x, Forge.Seal (Sealer := demo_sealer) n p = Ok x → x ≠ "") by (by intros n p x [= <-]).
  destruct (mail_password_protected None Hne "n" relay_form "hunter2" relay_edits
    (mkMessage ["ada@example.org"] "Hello" "Text") _ _ _ _ ltac:(done) E1 ltac:(by repeat constructor) E3 eq_refl ltac:(done))
    as (_ & c & new & Ht & Hs & _ & Ha & _).
  assert (Hin : AuthPlain "bot" "hunter2" ∈ sent (mt_wire mailed.2)) by (vm_compute; right; right; left).
  split; [exact Hin|]. exists c. split; [vm_compute in Ht; injection Ht as <-; reflexivity|].
  rewrite Hs in Hin |- *. by destruct (Ha "bot" "hunter2" Hin) as (_ & _ & Hg).
Defined.

(** No field of a message breaks out of its header. *)
Lemma oneLine_ok s : line_ok (oneLine s) = true.
Proof. unfold line_ok. induction s as [|a s IH]; simpl; [done|]. destruct (is_break a) eqn:Ha; [done|]. simpl. by rewrite Ha, IH. Qed.
Theorem headers_hold_no_break from m : Forall (λ line, line_ok line = true) (header_lines from m).
Proof.
  assert (Hp : ∀ p s, line_ok p = true → line_ok (p +:+ oneLine s) = true).
  { intros p s Hl. unfold line_ok. rewrite string_forall_app. fold (line_ok p) (line_ok (oneLine s)). by rewrite Hl, oneLine_ok. }
  repeat constructor; try by apply Hp.
Qed.

(** A loopback relay in capitals passes the validation, which is to reject what
    could not send; with a user name no message to it is ever sent, because the
    client compares the name as it is written. *)
Theorem capital_localhost_never_sends c pw m w :
  ml_Host c = "LOCALHOST" → ml_Security c = NoSecurity → ml_Username c ≠ "" →
  1 ≤ ml_Port c ≤ 65535 → looksLikeEmail (ml_From c) = true → ml_PasswordRef c = "" →
  ValidateConfig c = None ∧ is_ok (SmtpSend c pw m w).1 = false.
Proof.
  intros Hh Hs Hu Hp Hf Hr. assert (Hv : ValidateConfig c = None).
  { unfold ValidateConfig. rewrite Hh, Hs, Hf, Hr, !(proj2 (Z.ltb_ge _ _)) by lia. simpl. by rewrite andb_false_r. }
  split; [done|]. destruct (SmtpSend c pw m w) as [[[]|e] w'] eqn:E; [|done]. exfalso.
  assert (Ha : plain_auth_allowed c = false) by (unfold plain_auth_allowed; by rewrite Hs, Hh).
  destruct (SmtpSend_clear c pw m Hu Ha _ _ _ E) as (l1 & l2 & Hl & Hs1 & H2). specialize (H2 eq_refl) as ->.
  destruct (SmtpSend_emits c pw m _ _ _ E) as (k1 & k2 & Hk & Hs2 & H3). specialize (H3 eq_refl) as ->.
  rewrite app_nil_r in Hl, Hk. rewrite Hs1 in Hs2. apply app_inv_head in Hs2. subst l1 k1.
  unfold transcript in Hs2. fold (dial_cmds c) in Hs2. rewrite <- (app_nil_r (dial_cmds c)) in Hs2 at 1.
  apply app_inv_head in Hs2. by destruct (ml_Username c !=? "").
Qed.
