(* ===== verification/Sessions.v ===== *)
(** * Sign-in and sessions (src/internal/adapters/oidc)

    The sealed cookies of the console, the login flow against the identity
    provider, the groups a sign-in carries and the fallback to Microsoft Graph.
    The cipher, JSON, the provider and Graph's answers are parameters; the server
    keeps no sessions, so what it remembers is what it has issued. *)

From S2P Require Import Prelude GoLib FleetModel Groups Identity Text Catalog Tokens.
From S2P Require WavePlans Secretbox.

(** ** Claims (claims.go) *)

(** The decoded claims of an ID token, in the order the map is walked. *)
Notation Claims := (list (string * Value)).

Definition claim (cs : Claims) (k : string) : option Value := snd <$> List.find (λ kv, kv.1 ==? k) cs.

Definition str (v : option Value) : string := match v with Some (VString s) => s | _ => "" end.
Fixpoint firstStr (cs : Claims) (keys : list string) : string :=
  match keys with
  | [] => ""
  | k :: keys => let s := str (claim cs k) in if s !=? "" then s else firstStr cs keys
  end.
Definition mapKeys (v : option Value) : list string := match v with Some (VObject l) => l.*1 | _ => [] end.
Definition strSlice (v : option Value) : list string :=
  match v with Some (VList l) => omap (λ e, match e with VString s => Some s | _ => None end) l | _ => [] end.

Definition zitadelRolesPrefix : string := "urn:zitadel:iam:org:project:".
Definition isDocumentedRolesClaim (k : string) : bool :=
  (k ==? "roles") || (has_prefix k zitadelRolesPrefix && has_suffix k "roles").

(** [add]: what is neither empty nor seen. *)
Fixpoint add_names (out : list string) (ss : list string) : list string :=
  match ss with
  | [] => out
  | s :: ss => add_names (if (s !=? "") && negb (s ∈? out) then out ++ [s] else out) ss
  end.

Fixpoint documented_roles (out : list string) (cs : Claims) : list string :=
  match cs with
  | [] => out
  | (k, v) :: cs =>
      documented_roles
        (if isDocumentedRolesClaim k then add_names (add_names out (mapKeys (Some v))) (strSlice (Some v)) else out) cs
  end.
Definition groupsFromClaims (cs : Claims) (groupsClaim : string) : list string :=
  documented_roles (add_names (add_names [] (strSlice (claim cs groupsClaim))) (mapKeys (claim cs groupsClaim))) cs.

Definition hasGroupsOverage (cs : Claims) : bool :=
  match claim cs "_claim_names" with Some (VObject l) => "groups" ∈? l.*1 | _ => false end.

(** ** Microsoft Graph (graph.go) *)

(** What one request meets: no answer, an answer cut off, or a status with a body
    and its Retry-After. *)
Inductive GraphResp := NoAnswer | CutOff | Answered (status : Z) (body retryAfter : string).
(** A decoded page: the groups, and where the next one is. *)
Record GraphPage := mkPage { pg_Value : list (string * string); pg_NextLink : string }.

Inductive GraphErr := GraphRefused (status : Z) | GraphUnreachable | BadGraphPage.

Definition graphAttempts : nat := 3.
Definition defaultGraphURL : string :=
  "https://graph.microsoft.com/v1.0/me/transitiveMemberOf/microsoft.graph.group?$select=id,displayName&$top=999".

Definition Millisecond : Z := 1000000.
Definition SecondNs : Z := 1000 * Millisecond.
(** [retryDelay]; the duration of the header wraps before it is compared. *)
Definition retryDelay (attempt : nat) (retryAfter : string) : Z :=
  let backoff := 200 * 2 ^ (Z.of_nat attempt - 1) * Millisecond in
  match (if retryAfter !=? "" then WavePlans.Atoi retryAfter else None) with
  | Some secs => if 0 <? secs then
                   let d := wrap64 (secs * SecondNs) in if d <=? 5 * SecondNs then d else 5 * SecondNs
                 else backoff
  | None => backoff
  end.

(** The requests of one page: what they are answered, in order, the waiting before
    each, and the outcome. [last] is the Retry-After of the failure before. *)
Fixpoint getWithRetry (n attempt : nat) (last : string) (script : list GraphResp)
    : res GraphErr string * list Z * list GraphResp :=
  match n with
  | O => (Err GraphUnreachable, [], script)
  | S n =>
      let waits := if (0 <? attempt)%nat then [retryDelay attempt last] else [] in
      let retry last script :=
        let '(r, ws, rest) := getWithRetry n (S attempt) last script in (r, waits ++ ws, rest) in
      match script with
      | [] | NoAnswer :: _ => retry "" (tail script)
      | CutOff :: script => retry "" script
      | Answered status body ra :: script =>
          if status =? 200 then (Ok body, waits, script)
          else if negb (status =? 429) && (status <? 500) then (Err (GraphRefused status), waits, script)
          else retry ra script
      end
  end.

Section graph.
  Context (parse_page : string → option GraphPage).

Definition page_names (p : GraphPage) : list string := flat_map (λ g, [g.1; g.2]) (pg_Value p).

(** The loop over the pages, with the pages still allowed. *)
Fixpoint graph_pages (n : nat) (url : string) (out : list string) (script : list GraphResp)
      : res GraphErr (list string) * list Z :=
    match n with
    | O => (Ok out, [])
    | S n =>
        if url ==? "" then (Ok out, []) else
        let '(r, ws, rest) := getWithRetry graphAttempts 0 "" script in
        match r with
        | Err e => (Err e, ws)
        | Ok body =>
            match parse_page body with
            | None => (Err BadGraphPage, ws)
            | Some p => let '(r, ws2) := graph_pages n (pg_NextLink p) (add_names out (page_names p)) rest in (r, ws ++ ws2)
            end
        end
    end.

Definition fetchGroupsFromGraph (baseURL : string) (script : list GraphResp) : res GraphErr (list string) * list Z :=
    graph_pages 50 (if baseURL ==? "" then defaultGraphURL else baseURL) [] script.
End graph.

(** ** Sealed cookies (cookie.go) *)

(** AES-256-GCM with additional data: key, nonce, data, text. *)
Class SealedText := {
  st_seal : string → string → string → string → string;
  st_open : string → string → string → string → option string
}.
(** A text opens exactly under the key, nonce and data it was sealed with, a seal
    for one of the two cookies is none for the other, and it is the text and its
    tag long. *)
Class SealedTextLaws (c : SealedText) : Prop := {
  st_exact : ∀ k n d x p, st_open k n d x = Some p ↔ x = st_seal k n d p;
  st_bound : ∀ k n p p', st_seal k n "sextant_session" p ≠ st_seal k n "sextant_flow" p';
  st_length : ∀ k n d p, String.length (st_seal k n d p) = (String.length p + 16)%nat
}.

Record sessionData := mkSession {
  sd_Subject : string; sd_Name : string; sd_Email : string; sd_Groups : list string; sd_CSRF : string; sd_Exp : Z
}.
Record flowData := mkFlowData { fd_State : string; fd_Nonce : string; fd_Verifier : string; fd_Exp : Z }.

(** [encoding/json] of the two, and the strings it keeps word for word (those of
    valid UTF-8). *)
Class CookieJson := {
  json_text : string → Prop;
  session_json : sessionData → string;
  flow_json : flowData → string;
  parse_session : string → option sessionData;
  parse_flow : string → option flowData
}.
Definition session_text `{CookieJson} (d : sessionData) : Prop :=
  json_text (sd_Subject d) ∧ json_text (sd_Name d) ∧ json_text (sd_Email d) ∧ Forall json_text (sd_Groups d) ∧ json_text (sd_CSRF d).
Definition flow_text `{CookieJson} (d : flowData) : Prop :=
  json_text (fd_State d) ∧ json_text (fd_Nonce d) ∧ json_text (fd_Verifier d).
Class CookieJsonLaws (j : CookieJson) : Prop := {
  text_empty : json_text "";
  session_back : ∀ d, session_text d → parse_session (session_json d) = Some d;
  flow_back : ∀ d, flow_text d → parse_flow (flow_json d) = Some d;
  session_holds_groups : ∀ d, (sum_list_with String.length (sd_Groups d) ≤ String.length (session_json d))%nat
}.

Definition NonceLen : nat := 12.
Definition maxCookieBytes : Z := 3800.

Inductive CookieErr := CookieTooLong (name : string) (n : Z).

Section cookies.
  Context `{SealedText, CookieJson} (key : string).

(** [seal]: under the name, which is the additional data. *)
Definition seal_cookie (name nonce plain : string) : string :=
    Tokens.EncodeToString true (nonce +:+ st_seal key nonce name plain).

Definition open_cookie (name value : string) : option string :=
    match DecodeString true value with
    | None => None
    | Some data =>
        if (String.length data <? NonceLen)%nat then None
        else st_open key (String.substring 0 NonceLen data) name
               (String.substring NonceLen (String.length data - NonceLen) data)
    end.

(** [set]: the value of the cookie, unless the browser would drop it. *)
Definition set_cookie (name nonce plain : string) : res CookieErr string :=
    let v := seal_cookie name nonce plain in
    if maxCookieBytes <? len v then Err (CookieTooLong name (len v)) else Ok v.

Definition session_name : string := "sextant_session".
Definition flow_name : string := "sextant_flow".

Definition get_session (cookie : option string) : option sessionData :=
    c ← cookie; plain ← open_cookie session_name c; parse_session plain.
Definition get_flow (cookie : option string) : option flowData :=
    c ← cookie; plain ← open_cookie flow_name c; parse_flow plain.
End cookies.

(** ** The login flow (oidc.go) *)

(** What a verified ID token says. *)
Record IDToken := mkIDToken { id_Subject : string; id_Nonce : string; id_Claims : option Claims }.

(** The provider: what a code is exchanged for with a verifier (nothing when the
    exchange fails), the token in the response, its verification, and what Graph
    answers with the access token. *)
Record Exchange := mkExchange { ex_IDToken : option string; ex_AccessToken : string }.
Class Provider := {
  exchange : string → string → option Exchange;
  verify : string → option IDToken;
  graph_answers : string → list GraphResp;
  graph_page : string → option GraphPage
}.

(** A browser's request: its two cookies and the query, or the token it echoes. *)
Record CallbackRq := mkCallback { cb_flow : option string; cb_error : string; cb_state : string; cb_code : string }.
Record Randoms := mkRandoms { rd_state : string; rd_nonce : string; rd_verifier : string; rd_csrf : string; rd_seal : string }.

Inductive SetCookie := SetFlow (v : string) | ClearFlow | SetSession (v : string) | ClearSession.
Inductive AuthReply :=
  | ToProvider (state nonce challenge : string)
  | LandedAt (path : string)
  | ToLoginPage
  | AuthFail (status : Z) (text : string).

(** The user of a session, as [identity.User]. *)
Record SignedIn := mkSignedIn { si_Subject : string; si_Name : string; si_Email : string; si_Groups : list string }.
Record Authenticator := mkAuth {
  au_key : string; au_groupsClaim : string; au_ttl : Z; au_landing : string; au_graphURL : string;
  au_authorize : SignedIn → bool
}.
Record AuthConfig := mkAuthConfig {
  ac_GroupsClaim : string; ac_SessionKey : string; ac_SessionTTL : Z; ac_LandingPath : string; ac_GraphURL : string;
  ac_Authorize : option (SignedIn → bool)
}.
Inductive AuthErr := DiscoveryFailed | BadSessionKey.

(** [New], with whether the provider's discovery succeeds. *)
Definition NewAuthenticator (discovered : bool) (c : AuthConfig) : res AuthErr Authenticator :=
  if negb discovered then Err DiscoveryFailed
  else if negb (len (ac_SessionKey c) =? 32) then Err BadSessionKey
  else Ok (mkAuth (ac_SessionKey c)
             (if ac_GroupsClaim c ==? "" then "groups" else ac_GroupsClaim c)
             (if ac_SessionTTL c <=? 0 then 8 * 3600 * SecondNs else ac_SessionTTL c)
             (if ac_LandingPath c ==? "" then "/" else ac_LandingPath c)
             (ac_GraphURL c)
             (default (λ _, true) (ac_Authorize c))).

(** Seconds since the epoch of a clock in nanoseconds. *)
Definition unix (now : Time) : Z := now / 1000000000.

Section flow.
  Context `{SealedText, CookieJson, Provider} (S256 : string → string) (au : Authenticator).

(** [Login]: the reply, and the cookies it sets. *)
Definition Login (rd : Randoms) (now : Time) : AuthReply * list SetCookie :=
    let fd := mkFlowData (rd_state rd) (rd_nonce rd) (rd_verifier rd) (unix (now + 10 * 60 * 1000000000)) in
    match set_cookie (au_key au) flow_name (rd_seal rd) (flow_json fd) with
    | Err _ => (AuthFail 500 "login init failed", [])
    | Ok c => (ToProvider (rd_state rd) (rd_nonce rd) (S256 (rd_verifier rd)), [SetFlow c])
    end.

(** The groups of a token: its claims, or Graph where they only point there. *)
Definition token_groups (cs : Claims) (access : string) : res GraphErr (list string) :=
    let groups := groupsFromClaims cs (au_groupsClaim au) in
    if (groups ==? []) && hasGroupsOverage cs 
    then (fetchGroupsFromGraph graph_page (au_graphURL au) (graph_answers access)).1 else Ok groups.

Definition token_signed_in (idt : IDToken) (cs : Claims) (groups : list string) : SignedIn :=
    mkSignedIn (id_Subject idt) (firstStr cs ["name"; "preferred_username"; "email"]) (str (claim cs "email")) groups.

(** [Callback]: the reply and the cookies it sets; [later] is the clock when the
    provider and Graph have answered. *)
Definition Callback (rq : CallbackRq) (rd : Randoms) (now later : Time) : AuthReply * list SetCookie :=
    match get_flow (au_key au) (cb_flow rq) with
    | None => (AuthFail 400 "login flow expired, try again", [])
    | Some fl =>
        if fd_Exp fl <? unix now then (AuthFail 400 "login flow expired, try again", [])
        else if cb_error rq !=? "" then (AuthFail 400 ("idp error: " +:+ cb_error rq), [ClearFlow])
        else if cb_state rq !=? fd_State fl then (AuthFail 400 "bad state", [ClearFlow])
        else
        match exchange (cb_code rq) (fd_Verifier fl) with
        | None => (AuthFail 401 "token exchange failed", [ClearFlow])
        | Some ex =>
            match ex_IDToken ex with
            | None => (AuthFail 401 "no id_token in response", [ClearFlow])
            | Some raw =>
                match verify raw with
                | None => (AuthFail 401 "id_token verification failed", [ClearFlow])
                | Some idt =>
                    if id_Nonce idt !=? fd_Nonce fl then (AuthFail 401 "nonce mismatch", [ClearFlow]) else
                    match id_Claims idt with
                    | None => (AuthFail 500 "cannot read claims", [ClearFlow])
                    | Some cs =>
                        match token_groups cs (ex_AccessToken ex) with
                        | Err _ => (AuthFail 502 "group membership lookup failed", [ClearFlow])
                        | Ok groups =>
                            let u := token_signed_in idt cs groups in
                            if negb (au_authorize au u)
                            then (AuthFail 403 "not authorized: no role grants console access to your account", [ClearFlow])
                            else
                            match set_cookie (au_key au) session_name (rd_seal rd)
                                    (session_json (mkSession (si_Subject u) (si_Name u) (si_Email u) (si_Groups u) (rd_csrf rd)
                                                     (unix (later + au_ttl au)))) with
                            | Err _ => (AuthFail 500 "session error", [ClearFlow])
                            | Ok c => (LandedAt (au_landing au), [ClearFlow; SetSession c])
                            end
                        end
                    end
                end
            end
        end
    end.

(** [Logout]; [form] and [header] are the token of the form and of the request's
    header. *)
Definition Logout (cookie : option string) (form header : string) (now : Time) : AuthReply * list SetCookie :=
    let csrf := if form ==? "" then header else form in
    match get_session (au_key au) cookie with
    | Some sd => if (unix now <=? sd_Exp sd) && (csrf !=? sd_CSRF sd)
                 then (AuthFail 403 "missing or invalid csrf token", []) else (ToLoginPage, [ClearSession])
    | None => (ToLoginPage, [ClearSession])
    end.

(** [SessionUser]: who is signed in, and the CSRF token. *)
Definition SessionUser (cookie : option string) (now : Time) : option (SignedIn * string) :=
    sd ← get_session (au_key au) cookie;
    if sd_Exp sd <? unix now then None
    else Some (mkSignedIn (sd_Subject sd) (sd_Name sd) (sd_Email sd) (sd_Groups sd), sd_CSRF sd).
End flow.

(** * What a session vouches for *)

(** ** Groups *)

Definition names_in (v : option Value) : list string := strSlice v ++ mapKeys v.

Lemma elem_add_names g ss : ∀ out, g ∈ add_names out ss ↔ g ∈ out ∨ g ∈ ss ∧ g ≠ "".
Proof.
  induction ss as [|s ss IH]; intros out; simpl; [set_solver|].
  rewrite IH. destruct (s !=? "") eqn:Hs; [apply neqb_true in Hs|apply negb_false_iff, bool_decide_eq_true in Hs as ->]; simpl.
  - destruct (bool_decide_reflect (s ∈ out)); simpl; [|rewrite elem_of_app]; set_solver.
  - set_solver.
Qed.

Lemma add_names_NoDup ss : ∀ out, NoDup out → NoDup (add_names out ss).
Proof.
  induction ss as [|s ss IH]; intros out Ho; simpl; [done|]. apply IH.
  destruct (s !=? ""); simpl; [|done]. destruct (bool_decide_reflect (s ∈ out)); simpl; [done|].
  apply NoDup_app. split_and!; [done|set_solver|apply NoDup_singleton].
Qed.

Lemma elem_documented_roles g cs : ∀ out, g ∈ documented_roles out cs ↔
  g ∈ out ∨ ∃ k v, (k, v) ∈ cs ∧ isDocumentedRolesClaim k = true ∧ g ∈ names_in (Some v) ∧ g ≠ "".
Proof.
  induction cs as [|[k v] cs IH]; intros out; cbn [documented_roles]; [set_solver|].
  rewrite IH. unfold names_in. destruct (isDocumentedRolesClaim k) eqn:Hk.
  - rewrite !elem_add_names. split.
    + intros [[[?|[? ?]]|[? ?]]|(k' & v' & ? & ? & ? & ?)]; [by left|right; exists k, v; set_solver..|].
      right. exists k', v'. set_solver.
    + intros [?|(k' & v' & [[= -> ->]|?]%elem_of_cons & ? & ? & ?)]; [by do 3 left| |right; by exists k', v'].
      left. set_solver.
  - split; [intros [?|(k' & v' & ? & ? & ? & ?)]; [by left|right; exists k', v'; set_solver]|].
    intros [?|(k' & v' & [[= -> ->]|?]%elem_of_cons & ? & ? & ?)]; [by left|congruence|right; by exists k', v'].
Qed.

Lemma documented_roles_NoDup cs : ∀ out, NoDup out → NoDup (documented_roles out cs).
Proof.
  induction cs as [|[k v] cs IH]; intros out Ho; cbn [documented_roles]; [done|].
  apply IH. destruct (isDocumentedRolesClaim k); [by do 2 apply add_names_NoDup|done].
Qed.

(** The groups of a token are the names in the configured claim and in the two
    documented role claims, each once, and nothing else. *)
Lemma groupsFromClaims_exact cs gc : NoDup (groupsFromClaims cs gc) ∧
  ∀ g, g ∈ groupsFromClaims cs gc ↔ g ≠ "" ∧
    (g ∈ names_in (claim cs gc) ∨
     ∃ k v, (k, v) ∈ cs ∧ (k = "roles" ∨ has_prefix k zitadelRolesPrefix = true ∧ has_suffix k "roles" = true) ∧ g ∈ names_in (Some v)).
Proof.
  split; [apply documented_roles_NoDup; do 2 apply add_names_NoDup; apply NoDup_nil_2|].
  intros g. unfold groupsFromClaims. rewrite elem_documented_roles, !elem_add_names.
  assert (Hk : ∀ k, isDocumentedRolesClaim k = true ↔
             k = "roles" ∨ has_prefix k zitadelRolesPrefix = true ∧ has_suffix k "roles" = true).
  { intros k. unfold isDocumentedRolesClaim. by rewrite orb_true_iff, andb_true_iff, bool_decide_eq_true. }
  unfold names_in at 2. setoid_rewrite Hk. split.
  - intros [[[[]%elem_of_nil|[? ?]]|[? ?]]|(k & v & ? & ? & ? & ?)]; (split; [done|]); [left; set_solver..|].
    right. by exists k, v.
  - intros [Hg [H|(k & v & ? & ? & ?)]]; [left; set_solver|]. right. by exists k, v.
Qed.

(** ** Requests to Graph *)

Lemma retryDelay_bound attempt ra : (1 ≤ attempt ≤ 3)%nat → retryDelay attempt ra ≤ 5 * SecondNs.
Proof.
  intros Ha. unfold retryDelay.
  assert (200 * 2 ^ (Z.of_nat attempt - 1) * Millisecond ≤ 5 * SecondNs).
  { assert (attempt = 1 ∨ attempt = 2 ∨ attempt = 3)%nat as [-> | [-> | ->]] by lia; by apply Z.leb_le. }
  destruct (if ra !=? "" then WavePlans.Atoi ra else None) as [secs|]; [|done].
  destruct (0 <? secs); [|done]. cbv zeta. destruct (_ <=? _) eqn:E; lia.
Qed.

Definition passing (r : GraphResp) : bool :=
  match r with NoAnswer | CutOff => true | Answered s _ _ => (s =? 429) || (500 <=? s) end.

Lemma getWithRetry_waits n : ∀ attempt last script, (n + attempt ≤ 3)%nat →
  let '(_, ws, _) := getWithRetry n attempt last script in (length ws ≤ n)%nat ∧ Forall (λ w, w ≤ 5 * SecondNs) ws
    ∧ (attempt = 0 → length ws ≤ n - 1)%nat.
Proof.
  induction n as [|n IH]; intros attempt last script Hn; cbn [getWithRetry]; [split_and!; [simpl; lia|by apply Forall_nil|simpl; lia]|].
  set (waits := if (0 <? attempt)%nat then _ else _).
  assert (Hw : (length waits ≤ 1)%nat ∧ Forall (λ w, w ≤ 5 * SecondNs) waits ∧ (attempt = 0 → length waits = 0)%nat).
  { subst waits. destruct attempt; simpl; [split_and!; [lia|by apply Forall_nil|done]|].
    split_and!; [lia| |done]. constructor; [apply retryDelay_bound; lia|constructor]. }
  destruct Hw as (Hw1 & Hw2 & Hw3).
  assert (Hr : ∀ last script, let '(_, ws, _) := let '(r, ws, rest) := getWithRetry n (S attempt) last script in (r, waits ++ ws, rest) in
             (length ws ≤ S n)%nat ∧ Forall (λ w, w ≤ 5 * SecondNs) ws ∧ (attempt = 0 → length ws ≤ S n - 1)%nat).
  { intros last' script'. specialize (IH (S attempt) last' script' ltac:(lia)).
    destruct (getWithRetry n (S attempt) last' script') as [[? ws] ?]. destruct IH as (? & ? & _).
    rewrite length_app. split_and!; [lia|by apply Forall_app|lia]. }
  destruct script as [|[| |status body ra] script]; [apply Hr..|].
  destruct (status =? 200); [split_and!; [lia|done|lia]|]. destruct (negb _ && _); [split_and!; [lia|done|lia]|apply Hr].
Qed.

(** The page's body is the first answer of 200, when at most two failures that pass
    came before it; nothing else gives one. *)
Lemma getWithRetry_Ok n : ∀ attempt last script body ws rest,
  getWithRetry n attempt last script = (Ok body, ws, rest) ↔
  ws = (getWithRetry n attempt last script).1.2 ∧
  ∃ pre ra, script = pre ++ Answered 200 body ra :: rest ∧ (length pre < n)%nat ∧ Forall (λ r, passing r = true) pre.
Proof.
  induction n as [|n IH]; intros attempt last script body ws rest; cbn [getWithRetry].
  - split; [done|]. intros (_ & pre & ra & _ & ? & _). lia.
  - set (waits := if (0 <? attempt)%nat then _ else _).
    assert (Hr : ∀ last' r0 script', passing r0 = true →
      (let '(r, ws, rest) := getWithRetry n (S attempt) last' script' in (r, waits ++ ws, rest)) = (Ok body, ws, rest) ↔
      ws = (let '(r, ws, rest) := getWithRetry n (S attempt) last' script' in (r, waits ++ ws, rest)).1.2 ∧
      ∃ pre ra, r0 :: script' = pre ++ Answered 200 body ra :: rest ∧ (length pre < S n)%nat ∧ Forall (λ r, passing r = true) pre).
    { intros last' r0 script' Hp.
      specialize (IH (S attempt) last' script' body (getWithRetry n (S attempt) last' script').1.2 rest).
      destruct (getWithRetry n (S attempt) last' script') as [[r ws'] rest'] eqn:Hg. simpl in *. split.
      - intros [= -> <- ->]. split; [done|]. destruct (proj1 IH eq_refl) as (_ & pre & ra & -> & ? & ?).
        exists (r0 :: pre), ra. simpl. split_and!; [done|lia|by constructor].
      - intros (-> & [|r1 pre] & ra & [= -> ->] & Hl & Hf).
        + done.
        + apply Forall_cons in Hf as [_ Hf]. simpl in Hl.
          assert (H : (r, ws', rest') = (Ok body, ws', rest)) by (apply IH; split; [done|]; exists pre, ra; split_and!; [done|lia|done]).
          by injection H as -> ->. }
    destruct script as [|[| |status b ra] script]; [|by apply Hr..|].
    + split.
      * intros H. destruct (proj1 (Hr "" NoAnswer [] eq_refl) H) as (? & pre & ra & Heq & _).
        destruct pre as [|? [|]]; discriminate Heq.
      * intros (_ & [|] & ra & Heq & _); discriminate Heq.
    + destruct (status =? 200) eqn:H2; [apply Z.eqb_eq in H2 as ->|].
      * split.
        -- intros [= -> <- ->]. split; [done|]. exists [], ra. split_and!; [done|simpl; lia|constructor].
        -- intros (-> & [|r1 pre] & ra' & [= ] & _ & Hf); subst; [done|].
           by apply Forall_cons in Hf as [? _].
      * destruct (negb (status =? 429) && (status <? 500)) eqn:H4.
        -- split; [done|]. intros (_ & [|r1 pre] & ra' & [= ] & _ & Hf); subst; [done|].
           apply Forall_cons in Hf as [Hp _]. unfold passing in Hp. lia.
        -- apply Hr. unfold passing. lia.
Qed.

Lemma graph_pages_waits pp n : ∀ url out script,
  let '(_, ws) := graph_pages pp n url out script in (length ws ≤ 2 * n)%nat ∧ Forall (λ w, w ≤ 5 * SecondNs) ws.
Proof.
  induction n as [|n IH]; intros url out script; cbn [graph_pages]; [split; [simpl; lia|by apply Forall_nil]|].
  destruct (url ==? ""); [split; [simpl; lia|by apply Forall_nil]|].
  pose proof (getWithRetry_waits graphAttempts 0 "" script ltac:(unfold graphAttempts; lia)) as Hg.
  destruct (getWithRetry graphAttempts 0 "" script) as [[r ws] rest]. destruct Hg as (_ & Hw & Hl).
  specialize (Hl eq_refl). unfold graphAttempts in Hl.
  destruct r as [body|e]; [|split; [lia|done]]. destruct (pp body) as [p|]; [|split; [lia|done]].
  specialize (IH (pg_NextLink p) (add_names out (page_names p)) rest).
  destruct (graph_pages _ _ _ _ _) as [r2 ws2]. destruct IH as [? ?]. rewrite length_app. split; [lia|by apply Forall_app].
Qed.

(** Whatever Graph answers and whatever pages it points to, a sign-in waits at most
    a hundred times and never above five seconds at once. *)
Lemma graph_wait_bounded pp base script :
  (length (fetchGroupsFromGraph pp base script).2 ≤ 100)%nat ∧
  Forall (λ w, w ≤ 5 * SecondNs) (fetchGroupsFromGraph pp base script).2.
Proof.
  unfold fetchGroupsFromGraph. pose proof (graph_pages_waits pp 50 (if base ==? "" then defaultGraphURL else base) [] script) as H.
  by destruct (graph_pages _ _ _ _ _) as [r ws].
Qed.

(** A server that always asks for longer makes one sign-in wait for 500 seconds. *)
Definition slow_page : list GraphResp := [Answered 429 "" "60"; Answered 429 "" "60"; Answered 200 "" ""].
Definition endless (body : string) : option GraphPage := Some (mkPage [] "next").

Lemma graph_waits_minutes :
  foldr Z.add 0 (fetchGroupsFromGraph endless "" (concat (replicate 50 slow_page))).2 = 500 * SecondNs.
Proof. by vm_compute. Qed.

(** ** What a session vouches for *)

(** The tokens of the provider and Graph's pages hold strings JSON decoding gave. *)
Definition value_text `{CookieJson} (v : Value) : Prop :=
  match v with
  | VString s => json_text s
  | VList l => ∀ s, VString s ∈ l → json_text s
  | VObject l => Forall json_text l.*1
  | _ => True
  end.
Class ProviderLaws (cj : CookieJson) (pr : Provider) : Prop := {
  token_text : ∀ raw idt cs, verify raw = Some idt → id_Claims idt = Some cs →
    json_text (id_Subject idt) ∧ Forall (λ kv, value_text kv.2) cs;
  page_text : ∀ body p, graph_page body = Some p → Forall json_text (page_names p)
}.

Inductive SEvent :=
  | EvLogin (rd : Randoms) (now : Time)
  | EvCallback (rq : CallbackRq) (rd : Randoms) (now later : Time).

Section vouched.
  Context {st : SealedText} {stl : SealedTextLaws st} {cj : CookieJson} {cjl : CookieJsonLaws cj}
    {pr : Provider} {pl : ProviderLaws cj pr}.
  Context (S256 : string → string) (au : Authenticator).

Definition event_cookies (e : SEvent) : list SetCookie :=
  match e with
  | EvLogin rd now => (Login S256 au rd now).2
  | EvCallback rq rd now later => (Callback au rq rd now later).2
  end.
Definition issued (h : list SEvent) (v : string) : Prop :=
  ∃ e, e ∈ h ∧ (SetFlow v ∈ event_cookies e ∨ SetSession v ∈ event_cookies e).

(** What a browser can send: a cookie that opens holds what the server sealed. *)
Definition presentable (h : list SEvent) (c : string) : Prop :=
  ∀ name p, open_cookie (au_key au) name c = Some p → ∃ v, issued h v ∧ DecodeString true c = DecodeString true v.

Definition randoms_ok (rd : Randoms) : Prop :=
  String.length (rd_seal rd) = NonceLen ∧ Forall json_text [rd_state rd; rd_nonce rd; rd_verifier rd; rd_csrf rd].

Inductive history : list SEvent → Prop :=
  | history_start : history []
  | history_login h rd now : history h → randoms_ok rd → history (h ++ [EvLogin rd now])
  | history_callback h rq rd now later : history h → randoms_ok rd →
      (∀ c, cb_flow rq = Some c → presentable h c) → history (h ++ [EvCallback rq rd now later]).

Lemma open_issued name name' nonce plain v c p : String.length nonce = NonceLen →
  set_cookie (au_key au) name nonce plain = Ok v → DecodeString true c = DecodeString true v →
  open_cookie (au_key au) name' c = Some p → st_seal (au_key au) nonce name plain = st_seal (au_key au) nonce name' p.
Proof.
  intros Hn Hs Hc Ho. unfold set_cookie in Hs. cbv zeta in Hs. destruct (_ <? _); [done|]. injection Hs as <-.
  unfold open_cookie in Ho. rewrite Hc in Ho. unfold seal_cookie in Ho. rewrite DecodeString_EncodeToString in Ho.
  rewrite string_length_app, Hn in Ho. destruct (_ <? NonceLen)%nat; [done|].
  rewrite <- Hn in Ho at 1. change (substring 0 (String.length nonce)) with (Secretbox.upto (String.length nonce)) in Ho.
  rewrite Secretbox.upto_app in Ho. apply st_exact in Ho.
  rewrite <- Ho. pose proof (Secretbox.from_app nonce (st_seal (au_key au) nonce name plain)) as Hf.
  unfold Secretbox.from in Hf. rewrite Hn, string_length_app, Hn in Hf. by rewrite Hf.
Qed.

Lemma flow_issued e v : SetFlow v ∈ event_cookies e → ∃ rd now, e = EvLogin rd now ∧
  set_cookie (au_key au) flow_name (rd_seal rd)
    (flow_json (mkFlowData (rd_state rd) (rd_nonce rd) (rd_verifier rd) (unix (now + 10 * 60 * 1000000000)))) = Ok v.
Proof.
  destruct e as [rd now|rq rd now later]; simpl.
  - unfold Login. cbv zeta. destruct (set_cookie _ _ _ _) eqn:Hs; simpl; [|set_solver].
    intros [= ->]%list_elem_of_singleton. by exists rd, now.
  - unfold Callback. cbv zeta. repeat case_match; simpl; set_solver.
Qed.

(** The facts under which a callback makes a session. *)
Definition session_made (rq : CallbackRq) (rd : Randoms) (now later : Time) (fl : flowData) (idt : IDToken)
    (u : SignedIn) : Prop :=
  get_flow (au_key au) (cb_flow rq) = Some fl ∧ unix now ≤ fd_Exp fl ∧ cb_error rq = "" ∧ cb_state rq = fd_State fl ∧
  id_Nonce idt = fd_Nonce fl ∧
  (∃ ex raw cs groups, exchange (cb_code rq) (fd_Verifier fl) = Some ex ∧ ex_IDToken ex = Some raw ∧ verify raw = Some idt
     ∧ id_Claims idt = Some cs ∧ token_groups au cs (ex_AccessToken ex) = Ok groups ∧ u = token_signed_in idt cs groups) ∧
  au_authorize au u = true.

Lemma session_issued e v : SetSession v ∈ event_cookies e → ∃ rq rd now later fl idt u, e = EvCallback rq rd now later ∧
  session_made rq rd now later fl idt u ∧
  set_cookie (au_key au) session_name (rd_seal rd)
    (session_json (mkSession (si_Subject u) (si_Name u) (si_Email u) (si_Groups u) (rd_csrf rd) (unix (later + au_ttl au)))) = Ok v.
Proof.
  destruct e as [rd now|rq rd now later]; simpl.
  - unfold Login. cbv zeta. destruct (set_cookie _ _ _ _); simpl; set_solver.
  - unfold Callback. cbv zeta.
    destruct (get_flow _ _) as [fl|] eqn:Hf; [|simpl; set_solver].
    destruct (fd_Exp fl <? unix now) eqn:He; [simpl; set_solver|]. apply Z.ltb_ge in He.
    destruct (cb_error rq !=? "") eqn:Herr; [simpl; set_solver|]. apply negb_false_iff, bool_decide_eq_true in Herr.
    destruct (cb_state rq !=? fd_State fl) eqn:Hst; [simpl; set_solver|]. apply negb_false_iff, bool_decide_eq_true in Hst.
    destruct (exchange _ _) as [ex|] eqn:Hex; [|simpl; set_solver].
    destruct (ex_IDToken ex) as [raw|] eqn:Hraw; [|simpl; set_solver].
    destruct (verify raw) as [idt|] eqn:Hv; [|simpl; set_solver].
    destruct (id_Nonce idt !=? fd_Nonce fl) eqn:Hn; [simpl; set_solver|]. apply negb_false_iff, bool_decide_eq_true in Hn.
    destruct (id_Claims idt) as [cs|] eqn:Hcs; [|simpl; set_solver].
    destruct (token_groups _ _ _) as [groups|] eqn:Hg; [|simpl; set_solver].
    destruct (negb _) eqn:Ha; [simpl; set_solver|]. apply negb_false_iff in Ha.
    destruct (set_cookie _ _ _ _) as [c|] eqn:Hs; [|simpl; set_solver].
    simpl. intros Hin. assert (v = c) as -> by set_solver.
    exists rq, rd, now, later, fl, idt, (token_signed_in idt cs groups). split; [done|]. split; [|done].
    unfold session_made. split_and!; try done. by exists ex, raw, cs, groups.
Qed.

Lemma claim_text cs k v : Forall (λ kv, value_text kv.2) cs → claim cs k = Some v → value_text v.
Proof.
  intros Hcs Hc. unfold claim in Hc. destruct (List.find _ cs) as [[k' v']|] eqn:Hf; [|done]. injection Hc as <-.
  apply find_some in Hf as [Hin _]. rewrite <- list_elem_of_In in Hin. by apply (proj1 (Forall_forall _ _) Hcs) in Hin.
Qed.

Lemma str_text v : (∀ w, v = Some w → value_text w) → json_text (str v).
Proof. intros H. destruct v as [[]|]; simpl; try apply text_empty. by apply (H _ eq_refl). Qed.

Lemma firstStr_text cs keys : Forall (λ kv, value_text kv.2) cs → json_text (firstStr cs keys).
Proof.
  intros Hcs. induction keys as [|k keys IH]; simpl; [apply text_empty|].
  destruct (_ !=? ""); [|done]. apply str_text. intros w. by apply claim_text.
Qed.

Lemma names_text v g : value_text v → g ∈ names_in (Some v) → json_text g.
Proof.
  intros Hv. unfold names_in. rewrite elem_of_app. intros [Hg|Hg]; destruct v; simpl in *; try by apply elem_of_nil in Hg.
  - apply list_elem_of_omap in Hg as ([] & ? & [= ->]). by apply Hv.
  - by apply (proj1 (Forall_forall _ _) Hv).
Qed.

Lemma claims_groups_text cs gc : Forall (λ kv, value_text kv.2) cs → Forall json_text (groupsFromClaims cs gc).
Proof.
  intros Hcs. apply Forall_forall. intros g Hg. apply groupsFromClaims_exact in Hg as [_ [Hg|(k & v & Hin & _ & Hg)]].
  - destruct (claim cs gc) as [v|] eqn:Hc; [|by apply elem_of_nil in Hg]. eapply names_text, Hg. by eapply claim_text.
  - eapply names_text, Hg. by apply (proj1 (Forall_forall _ _) Hcs) in Hin.
Qed.

Lemma graph_pages_text n : ∀ url out script groups, Forall json_text out →
  (graph_pages graph_page n url out script).1 = Ok groups → Forall json_text groups.
Proof.
  induction n as [|n IH]; intros url out script groups Ho; cbn [graph_pages]; [by intros [= <-]|].
  destruct (url ==? ""); [by intros [= <-]|]. destruct (getWithRetry _ _ _ _) as [[[body|] ws] rest]; [|done].
  destruct (graph_page body) as [p|] eqn:Hp; [|done].
  specialize (IH (pg_NextLink p) (add_names out (page_names p)) rest groups).
  destruct (graph_pages _ _ _ _ _) as [r ws2]. simpl in *. apply IH.
  apply Forall_forall. intros g [Hg|[Hg _]]%elem_add_names; [by apply (proj1 (Forall_forall _ _) Ho)|].
  apply (page_text body p) in Hp. by apply (proj1 (Forall_forall _ _) Hp).
Qed.

Lemma user_text raw idt cs access groups : verify raw = Some idt → id_Claims idt = Some cs →
  token_groups au cs access = Ok groups → let u := token_signed_in idt cs groups in
  json_text (si_Subject u) ∧ json_text (si_Name u) ∧ json_text (si_Email u) ∧ Forall json_text (si_Groups u).
Proof.
  intros Hv Hcs Hg u. destruct (token_text raw idt cs Hv Hcs) as [Hs Hc]. subst u. simpl. split_and!; [done| |..].
  - by apply (firstStr_text cs ["name"; "preferred_username"; "email"]).
  - apply str_text. intros w. by apply claim_text.
  - unfold token_groups in Hg. cbv zeta in Hg. destruct (_ && _).
    + unfold fetchGroupsFromGraph in Hg. by eapply graph_pages_text, Hg.
    + injection Hg as <-. by apply claims_groups_text.
Qed.

Lemma history_randoms h e : history h → e ∈ h →
  randoms_ok (match e with EvLogin rd _ => rd | EvCallback _ rd _ _ => rd end).
Proof.
  induction 1 as [|h rd now Hh IH Hr|h rq rd now later Hh IH Hr Hc]; [by intros ?%elem_of_nil|..];
    (intros [?| ->%list_elem_of_singleton]%elem_of_app; [by apply IH|done]).
Qed.

(** A presented cookie that opens under a name was sealed with that text, for that
    cookie, by an event of the history. *)
Lemma presented_sealed h c : history h → presentable h c → 
  (∀ p, open_cookie (au_key au) flow_name c = Some p → ∃ rd now, EvLogin rd now ∈ h ∧
     p = flow_json (mkFlowData (rd_state rd) (rd_nonce rd) (rd_verifier rd) (unix (now + 10 * 60 * 1000000000)))) ∧
  (∀ p, open_cookie (au_key au) session_name c = Some p → ∃ rq rd now later fl idt u, EvCallback rq rd now later ∈ h ∧
     session_made rq rd now later fl idt u ∧
     p = session_json (mkSession (si_Subject u) (si_Name u) (si_Email u) (si_Groups u) (rd_csrf rd) (unix (later + au_ttl au)))).
Proof.
  intros Hh Hp. split; intros p Ho; destruct (Hp _ _ Ho) as (v & (e & He & Hv) & Hd);
    pose proof (history_randoms h e Hh He) as Hr; destruct Hv as [Hv|Hv].
  - apply flow_issued in Hv as (rd & now & -> & Hs). exists rd, now. split; [done|].
    pose proof (open_issued _ _ _ _ _ _ _ (proj1 Hr) Hs Hd Ho) as Hx. symmetry in Hx. apply st_exact in Hx.
    rewrite (proj2 (st_exact _ _ _ _ _) eq_refl) in Hx. by injection Hx as ->.
  - apply session_issued in Hv as (rq & rd & now & later & fl & idt & u & -> & _ & Hs).
    pose proof (open_issued _ _ _ _ _ _ _ (proj1 Hr) Hs Hd Ho) as Hx. by apply st_bound in Hx.
  - apply flow_issued in Hv as (rd & now & -> & Hs).
    pose proof (open_issued _ _ _ _ _ _ _ (proj1 Hr) Hs Hd Ho) as Hx. symmetry in Hx. by apply st_bound in Hx.
  - apply session_issued in Hv as (rq & rd & now & later & fl & idt & u & -> & Hm & Hs).
    exists rq, rd, now, later, fl, idt, u. split; [done|]. split; [done|].
    pose proof (open_issued _ _ _ _ _ _ _ (proj1 Hr) Hs Hd Ho) as Hx. symmetry in Hx. apply st_exact in Hx.
    rewrite (proj2 (st_exact _ _ _ _ _) eq_refl) in Hx. by injection Hx as ->.
Qed.

Lemma history_flow h c fl : history h → presentable h c → get_flow (au_key au) (Some c) = Some fl →
  ∃ rd now, EvLogin rd now ∈ h ∧ fl = mkFlowData (rd_state rd) (rd_nonce rd) (rd_verifier rd) (unix (now + 10 * 60 * 1000000000)).
Proof.
  intros Hh Hp Hg. unfold get_flow in Hg. simpl in Hg. destruct (open_cookie _ _ _) as [p|] eqn:Ho; [|done]. simpl in Hg.
  destruct (proj1 (presented_sealed h c Hh Hp) p Ho) as (rd & now & Hin & ->). exists rd, now. split; [done|].
  rewrite flow_back in Hg; [by injection Hg as <-|].
  pose proof (history_randoms h _ Hh Hin) as [_ Hr]. apply Forall_cons in Hr as [? Hr]. apply Forall_cons in Hr as [? Hr].
  apply Forall_cons in Hr as [? Hr]. by split_and!.
Qed.

Lemma history_before h e : history h → e ∈ h → ∃ h1, history h1 ∧ h1 ⊆ h ∧
  match e with EvLogin _ _ => True | EvCallback rq _ _ _ => ∀ c, cb_flow rq = Some c → presentable h1 c end.
Proof.
  induction 1 as [|h rd now Hh IH Hr|h rq rd now later Hh IH Hr Hc]; [by intros ?%elem_of_nil|..];
    (intros [He| ->%list_elem_of_singleton]%elem_of_app;
      [destruct (IH He) as (h1 & ? & ? & ?); exists h1; split_and!; [done|set_solver|done]|exists h; split_and!; [done|set_solver|done]]).
Qed.

(** C19: A cookie that signs a person in proves that the provider vouched for them:
    the server verified an ID token of exactly that subject, whose nonce and whose
    code's state and verifier are those of a login it had started itself at most ten
    minutes earlier, the person was let in, the groups are the token's or Graph's,
    and the session has not outlived its time; a cookie of the login flow signs
    nobody in. *)
Theorem session_vouched h c now u csrf : history h → presentable h c →
  SessionUser au (Some c) now = Some (u, csrf) →
  ∃ rq rd t later idt ex raw cs rd0 t0,
    EvCallback rq rd t later ∈ h ∧ EvLogin rd0 t0 ∈ h ∧
    cb_state rq = rd_state rd0 ∧ unix t ≤ unix (t0 + 10 * 60 * 1000000000) ∧
    exchange (cb_code rq) (rd_verifier rd0) = Some ex ∧ ex_IDToken ex = Some raw ∧ verify raw = Some idt ∧
    id_Nonce idt = rd_nonce rd0 ∧ id_Claims idt = Some cs ∧
    si_Subject u = id_Subject idt ∧ token_groups au cs (ex_AccessToken ex) = Ok (si_Groups u) ∧
    au_authorize au u = true ∧ csrf = rd_csrf rd ∧ unix now ≤ unix (later + au_ttl au) ∧
    open_cookie (au_key au) flow_name c = None.
Proof.
  intros Hh Hp Hs. unfold SessionUser, get_session in Hs. simpl in Hs.
  destruct (open_cookie _ session_name c) as [p|] eqn:Ho; [|done]. simpl in Hs.
  destruct (proj2 (presented_sealed h c Hh Hp) p Ho) as (rq & rd & t & later & fl & idt & u' & Hin & Hm & ->).
  destruct Hm as (Hfl & Hexp & _ & Hst & Hn & (ex & raw & cs & groups & Hex & Hraw & Hv & Hcs & Hg & Hu) & Ha).
  pose proof (history_randoms h _ Hh Hin) as [_ Hr]. 
  rewrite session_back in Hs.
  2: { destruct (user_text raw idt cs (ex_AccessToken ex) groups Hv Hcs Hg) as (? & ? & ? & ?). rewrite Hu.
       split_and!; try done. simpl. by do 3 apply Forall_cons in Hr as [_ Hr]; apply Forall_cons in Hr as [? _]. }
  simpl in Hs. destruct (_ <? unix now) eqn:Hx; [done|]. apply Z.ltb_ge in Hx. injection Hs as <- <-.
  destruct (history_before h _ Hh Hin) as (h1 & Hh1 & Hsub & Hpre).
  destruct (cb_flow rq) as [fc|] eqn:Hfc; [|done]. specialize (Hpre fc eq_refl).
  destruct (history_flow h1 fc fl Hh1 Hpre Hfl) as (rd0 & t0 & Hin0 & ->). simpl in *.
  assert (u' = mkSignedIn (si_Subject u') (si_Name u') (si_Email u') (si_Groups u')) as <- by by destruct u'.
  exists rq, rd, t, later, idt, ex, raw, cs, rd0, t0. subst u'. split_and!; try done; [by apply Hsub|].
  destruct (open_cookie _ flow_name c) as [p|] eqn:Hof; [|done]. exfalso.
  unfold open_cookie in Ho, Hof. destruct (DecodeString _ _); [|done]. destruct (_ <? _)%nat; [done|].
  apply st_exact in Ho, Hof. rewrite Ho in Hof. by apply st_bound in Hof.
Qed.
End vouched.

(** ** Concrete instances *)

Definition demo_tag (d : string) : string :=
  if d ==? "sextant_session" then "SSSSSSSSSSSSSSSS" else if d ==? "sextant_flow" then "FFFFFFFFFFFFFFFF" else "OOOOOOOOOOOOOOOO".
Definition demo_sealed : SealedText := {|
  st_seal _ _ d p := demo_tag d +:+ p;
  st_open _ _ d x := if Secretbox.upto 16 x ==? demo_tag d then Some (Secretbox.from 16 x) else None
|}.

Lemma demo_tag_length d : String.length (demo_tag d) = 16%nat.
Proof. unfold demo_tag. by repeat case_match. Qed.

Lemma demo_sealed_laws : SealedTextLaws demo_sealed.
Proof.
  split; simpl.
  - intros _ _ d x p. split.
    + destruct (bool_decide_reflect (Secretbox.upto 16 x = demo_tag d)) as [Hx|]; [|done]. intros [= <-].
      by rewrite <- Hx, Secretbox.upto_from.
    + intros ->. rewrite <- (demo_tag_length d), Secretbox.upto_app, Secretbox.from_app. by rewrite bool_decide_eq_true_2.
  - done.
  - intros _ _ d p. rewrite string_length_app, demo_tag_length. lia.
Qed.

Fixpoint bits_text (p : positive) (pad : string) : string :=
  match p with xH => String "." pad | xO p => String "0" (bits_text p pad) | xI p => String "1" (bits_text p pad) end.
Fixpoint text_bits (s : string) : option positive :=
  match s with
  | String a s => if Ascii.eqb a "." then Some xH else if Ascii.eqb a "0" then xO <$> text_bits s else xI <$> text_bits s
  | EmptyString => None
  end.

Lemma text_bits_text p pad : text_bits (bits_text p pad) = Some p.
Proof. induction p as [p IH|p IH|]; simpl; rewrite ?IH; done. Qed.

Lemma bits_text_length p pad : (String.length pad ≤ String.length (bits_text p pad))%nat.
Proof. induction p; simpl; lia. Qed.

#[export] Instance sessionData_eq_dec : EqDecision sessionData.
Proof. solve_decision. Defined.
#[export] Instance sessionData_countable : Countable sessionData.
Proof.
  refine (inj_countable' (λ d, (sd_Subject d, sd_Name d, sd_Email d, sd_Groups d, sd_CSRF d, sd_Exp d))
            (λ '(s, n, e, g, c, x), mkSession s n e g c x) _). by intros [].
Defined.
#[export] Instance flowData_eq_dec : EqDecision flowData.
Proof. solve_decision. Defined.
#[export] Instance flowData_countable : Countable flowData.
Proof.
  refine (inj_countable' (λ d, (fd_State d, fd_Nonce d, fd_Verifier d, fd_Exp d)) (λ '(s, n, v, x), mkFlowData s n v x) _). by intros [].
Defined.

Definition demo_json : CookieJson := {|
  json_text _ := True;
  session_json d := bits_text (encode d) (String.concat "" (sd_Groups d));
  flow_json d := bits_text (encode d) "";
  parse_session s := p ← text_bits s; decode p;
  parse_flow s := p ← text_bits s; decode p
|}.

Lemma length_concat_nil l : String.length (String.concat "" l) = sum_list_with String.length l.
Proof.
  induction l as [|s [|t l] IH]; [done|simpl; lia|].
  change (String.concat "" (s :: t :: l)) with (s +:+ String.concat "" (t :: l)). rewrite string_length_app, IH. done.
Qed.

Lemma demo_json_laws : CookieJsonLaws demo_json.
Proof.
  split; simpl; [done|..].
  - intros d _. rewrite text_bits_text. simpl. apply decode_encode.
  - intros d _. rewrite text_bits_text. simpl. apply decode_encode.
  - intros d. rewrite <- length_concat_nil. apply bits_text_length.
Qed.

Definition demo_provider : Provider := {|
  exchange code verifier := if (code ==? "code") && (verifier ==? "verifier") then Some (mkExchange (Some "token") "access") else None;
  verify raw := if raw ==? "token" then Some (mkIDToken "alice" "nonce"
                  (Some [("name", VString "Alice"); ("groups", VList [VString "admins"; VString "admins"]); ("fin_roles", VList [VString "root"])]))
                else None;
  graph_answers _ := [];
  graph_page _ := None
|}.

Lemma demo_provider_laws : ProviderLaws demo_json demo_provider.
Proof.
  split; simpl; [|done]. intros raw idt cs _ _. split; [done|]. apply Forall_forall. intros [k v] _. simpl.
  destruct v; simpl; try done. by apply Forall_forall.
Qed.

Definition demo_auth : Authenticator := mkAuth "k" "groups" (8 * 3600 * SecondNs) "/" "" (λ u, "admins" ∈? si_Groups u).
Definition demo_randoms : Randoms := mkRandoms "state" "nonce" "verifier" "csrf" "123456789012".

Section demo.
  Existing Instances demo_sealed demo_json demo_provider.
Definition demo_login : SEvent := EvLogin demo_randoms 0.
Definition demo_flow : option string :=
  match event_cookies id demo_auth demo_login with [SetFlow v] => Some v | _ => None end.
Definition demo_callback : SEvent := EvCallback (mkCallback demo_flow "" "state" "code") demo_randoms (5 * SecondNs) (6 * SecondNs).
Definition demo_session : string :=
  match event_cookies id demo_auth demo_callback with [ClearFlow; SetSession v] => v | _ => "" end.

Lemma demo_history : history id demo_auth [demo_login; demo_callback].
Proof.
  assert (Hr : randoms_ok demo_randoms) by (split; [done|repeat constructor]).
  apply (history_callback id demo_auth [demo_login]); [apply (history_login id demo_auth []); [constructor|done]|done|].
  intros c Hc name p _. exists c. split; [|done]. exists demo_login. split; [by left|left].
  assert (H : event_cookies id demo_auth demo_login = [SetFlow (default "" demo_flow)]) by by vm_compute.
  simpl in Hc. unfold demo_callback in *. rewrite H. change (demo_flow = Some c) in Hc. rewrite Hc. by left.
Qed.

Lemma demo_presentable : presentable id demo_auth [demo_login; demo_callback] demo_session.
Proof.
  intros name p _. exists demo_session. split; [|done]. exists demo_callback. split; [right; by left|right].
  assert (H : event_cookies id demo_auth demo_callback = [ClearFlow; SetSession demo_session]) by by vm_compute.
  rewrite H. right. by left.
Qed.

Lemma session_vouched_witness : ∃ idt, verify "token" = Some idt ∧ id_Subject idt = "alice" ∧
  SessionUser demo_auth (Some demo_session) (3600 * SecondNs) = Some (mkSignedIn "alice" "Alice" "" ["admins"], "csrf").
Proof.
  assert (Hs : SessionUser demo_auth (Some demo_session) (3600 * SecondNs) = Some (mkSignedIn "alice" "Alice" "" ["admins"], "csrf"))
    by (vm_compute; reflexivity).
  destruct (session_vouched (stl := demo_sealed_laws) (cjl := demo_json_laws) (pl := demo_provider_laws) id demo_auth
              [demo_login; demo_callback] demo_session (3600 * SecondNs) _ _ demo_history demo_presentable Hs)
    as (rq & rd & t & later & idt & ex & raw & cs & rd0 & t0 & _ & _ & _ & _ & _ & _ & Hv & _ & _ & Hu & _).
  simpl in Hv, Hu. destruct (raw ==? "token"); [|discriminate Hv]. exists idt. split; [exact Hv|]. split; [by rewrite <- Hu|exact Hs].
Defined.

(** ** What the code cannot do *)

(** Signing out clears the browser's cookie only: a copy of it stays a session
    until its time is up. *)
Theorem copy_survives_logout : Logout demo_auth (Some demo_session) "csrf" "" (10 * SecondNs) = (ToLoginPage, [ClearSession])
  ∧ SessionUser demo_auth (Some demo_session) (8 * 3600 * SecondNs) = Some (mkSignedIn "alice" "Alice" "" ["admins"], "csrf").
Proof. split; vm_compute; reflexivity. Qed.
End demo.

#[local] Ltac Zify.zify_post_hook ::= Z.to_euclidean_division_equations.

Lemma encode_bytes_length l : (4 * length l ≤ 3 * length (encode_bytes l))%nat.
Proof. induction l as [|a|a b|a b c l IH] using list_ind3; simpl; lia. Qed.

Lemma encoded_length url t : (4 * String.length t ≤ 3 * String.length (EncodeToString url t))%nat.
Proof.
  unfold EncodeToString. rewrite HostKeys.length_string_of_list, length_map.
  pose proof (encode_bytes_length (list_ascii_of_string t)) as H.
  by rewrite <- (HostKeys.length_string_of_list (list_ascii_of_string t)), string_of_list_ascii_of_string in H.
Qed.

Lemma sum_at_least (l : list string) (n m : nat) : (n ≤ length l)%nat → Forall (λ g, m ≤ String.length g)%nat l →
  (n * m ≤ sum_list_with String.length l)%nat.
Proof.
  revert n. induction l as [|g l IH]; intros n Hn Hl; simpl in *; [nia|].
  apply Forall_cons in Hl as [? Hl]. destruct n as [|n]; [lia|]. specialize (IH n ltac:(lia) Hl). nia.
Qed.

(** A person in so many groups that the provider sends a pointer to Graph instead
    has at least 150, each with an identifier of 36 characters: the cookie of their
    session is always refused. *)
Theorem overage_session_never_fits {st : SealedText} {stl : SealedTextLaws st} {cj : CookieJson} {cjl : CookieJsonLaws cj}
    key nonce d :
  (150 ≤ length (keep_if (λ g, (36 <=? String.length g)%nat) (sd_Groups d)))%nat →
  ∃ n, set_cookie key session_name nonce (session_json d) = Err (CookieTooLong session_name n).
Proof.
  intros Hn. unfold set_cookie. cbv zeta.
  assert (Hlen : (150 * 36 ≤ sum_list_with String.length (sd_Groups d))%nat).
  { assert (Hs : ∀ l, (sum_list_with String.length (keep_if (λ g, (36 <=? String.length g)%nat) l) ≤ sum_list_with String.length l)%nat)
      by (unfold keep_if; induction l as [|g l IH]; [done|]; rewrite filter_cons; destruct (decide _); cbn [sum_list_with]; lia).
    etrans; [|apply Hs]. apply sum_at_least; [done|]. apply Forall_forall. intros g [_ Hg]%elem_of_keep_if.
    by apply Nat.leb_le in Hg. }
  pose proof (session_holds_groups d). pose proof (encoded_length true (nonce +:+ st_seal key nonce session_name (session_json d))) as He.
  rewrite string_length_app, st_length in He. unfold seal_cookie, len, maxCookieBytes in *.
  destruct (Z.ltb_spec 3800 (Z.of_nat (String.length (EncodeToString true (nonce +:+ st_seal key nonce session_name (session_json d)))))); [by eexists|lia].
Qed.
