(* ===== verification/StateStore.v ===== *)
(** * The file-backed state store (src/internal/adapters/state)

    One JSON file per record, written to a temporary file and renamed. The disk is
    modelled with its cache: what a directory or a file holds now, and what the
    disk may still hold when the power fails. *)

From S2P Require Import Prelude GoLib Groups Text Catalog Changes.
From S2P Require HostKeys.

(** ** The disk *)

(** A file's text as it is read now, and the text on the disk; [None] when a write
    has not been synchronised, so that anything may be there. *)
Record Inode := mkInode { in_now : string; in_disk : option string }.

(** A directory: its entries now, the earlier ones the disk may still hold, and its
    files. *)
Notation Entries := (gmap string nat).
Record DiskDir := mkDiskDir { d_now : Entries; d_past : list Entries; d_files : gmap nat Inode; d_next : nat }.
Notation Disk := (gmap string DiskDir).

Definition emptyDir : DiskDir := mkDiskDir ∅ [] ∅ 0.
Definition dir_of (d : string) (fs : Disk) : DiskDir := default emptyDir (fs !! d).
Definition entries_on_disk (d : DiskDir) : list Entries := d_now d :: d_past d.

Definition set_entries (m : Entries) (d : DiskDir) : DiskDir := mkDiskDir m (d_now d :: d_past d) (d_files d) (d_next d).
Definition set_file (i : nat) (n : Inode) (d : DiskDir) : DiskDir := mkDiskDir (d_now d) (d_past d) (<[i := n]> (d_files d)) (d_next d).

(** [O_CREATE|O_TRUNC]: the file and its number. *)
Definition open_trunc (base : string) (d : DiskDir) : nat * DiskDir :=
  match d_now d !! base with
  | Some i => (i, set_file i (mkInode "" None) d)
  | None => let i := d_next d in
            (i, mkDiskDir (<[base := i]> (d_now d)) (d_now d :: d_past d) (<[i := mkInode "" None]> (d_files d)) (S i))
  end.
Definition write_file (i : nat) (text : string) (d : DiskDir) : DiskDir := set_file i (mkInode text None) d.
Definition sync_file (i : nat) (d : DiskDir) : DiskDir :=
  match d_files d !! i with Some n => set_file i (mkInode (in_now n) (Some (in_now n))) d | None => d end.
(** [rename(2)] within a directory. *)
Definition rename (from to : string) (d : DiskDir) : DiskDir :=
  match d_now d !! from with Some i => set_entries (<[to := i]> (delete from (d_now d))) d | None => d end.
Definition sync_dir (d : DiskDir) : DiskDir := mkDiskDir (d_now d) [] (d_files d) (d_next d).

(** After a power failure each directory is one of its states since it was last
    synchronised, and a file that was not synchronised may hold anything. *)
Definition dir_crashed (d d' : DiskDir) : Prop :=
  d_now d' ∈ entries_on_disk d ∧ d_past d' = [] ∧ d_next d' = d_next d ∧
  (∀ i, is_Some (d_files d !! i) ↔ is_Some (d_files d' !! i)) ∧
  ∀ i n, d_files d' !! i = Some n → in_disk n = Some (in_now n) ∧
    ∀ t, in_disk <$> d_files d !! i = Some (Some t) → in_now n = t.
Definition crashed (fs fs' : Disk) : Prop := ∀ d, dir_crashed (dir_of d fs) (dir_of d fs').

(** ** Reading and writing (state.go) *)

Record File := mkFile { f_dir : string; f_base : string }.
#[export] Instance File_eq_dec : EqDecision File.
Proof. solve_decision. Defined.

Definition upd (d : string) (f : DiskDir → DiskDir) (fs : Disk) : Disk := <[d := f (dir_of d fs)]> fs.

(** [os.ReadFile]; [None] for a file that does not exist. *)
Definition read_file (f : File) (fs : Disk) : option string :=
  i ← d_now (dir_of (f_dir f) fs) !! f_base f; in_now <$> d_files (dir_of (f_dir f) fs) !! i.

(** Where a write fails, if it does; a failed write has written so many bytes. *)
Inductive Fault := FOpen | FWrite (n : nat) | FSync | FClose | FRename | FOpenDir | FSyncDir.
#[export] Instance Fault_eq_dec : EqDecision Fault.
Proof. solve_decision. Defined.

Definition lf : string := String "010" "".

(** [writeJSON] of a rendered record: the disks it passes through, the last of them
    the one it leaves, and whether it succeeds. The directory it synchronises is the
    store's own, the empty path here. *)
Definition writeJSON (fault : option Fault) (f : File) (text : string) (fs : Disk) : list Disk * bool :=
  let d := f_dir f in let tmp := f_base f +:+ ".tmp" in
  if bool_decide (fault = Some FOpen) then ([fs], false) else
  let i := (open_trunc tmp (dir_of d fs)).1 in
  let fs1 := upd d (λ x, (open_trunc tmp x).2) fs in
  let all := text +:+ lf in
  match fault with
  | Some (FWrite n) => ([fs; fs1; upd d (write_file i (String.substring 0 n all)) fs1], false)
  | _ =>
      let fs2 := upd d (write_file i all) fs1 in
      if bool_decide (fault = Some FSync) then ([fs; fs1; fs2], false) else
      let fs3 := upd d (sync_file i) fs2 in
      if bool_decide (fault = Some FClose) || bool_decide (fault = Some FRename) then ([fs; fs1; fs2; fs3], false) else
      let fs4 := upd d (rename tmp (f_base f)) fs3 in
      if bool_decide (fault = Some FOpenDir) || bool_decide (fault = Some FSyncDir) then ([fs; fs1; fs2; fs3; fs4], false) else
      ([fs; fs1; fs2; fs3; fs4; upd "" sync_dir fs4], true)
  end.

(** JSON of a record. *)
Record Codec (V : Type) := mkCodec { co_render : V → string; co_parse : string → option V }.
Arguments co_render {V}.
Arguments co_parse {V}.

(** [readJSON]: nothing, a record, or an error. *)
Inductive ReadJSON (V : Type) := Missing | Corrupt | Found (v : V).
Arguments Missing {V}.
Arguments Corrupt {V}.
Arguments Found {V}.
Definition readJSON {V} (co : Codec V) (f : File) (fs : Disk) : ReadJSON V :=
  match read_file f fs with
  | None => Missing
  | Some t => match co_parse co t with Some v => Found v | None => Corrupt end
  end.

(** [Open]: the directories. *)
Definition open_store (fs : Disk) : Disk := upd "changes" id (upd "" id fs).

Definition suffix_json : string := ".json".
Definition changeFile (id : string) : res CRErr File :=
  match ValidID id with Some e => Err e | None => Ok (mkFile "changes" (id +:+ suffix_json)) end.
Definition rolloutFile : File := mkFile "" "rollout.json".
Definition upstreamFile : File := mkFile "" "upstream.json".

Inductive StoreErr := BadChangeID (e : CRErr) | DiskError | CorruptRecord.

Section change_store.
  Context (cr_json : Codec CR).

(** [ChangeStore.Put], [Get] and [List]. *)
Definition PutChange (fault : option Fault) (cr : CR) (fs : Disk) : Disk * option StoreErr :=
  match changeFile (cr_ID cr) with
  | Err e => (fs, Some (BadChangeID e))
  | Ok f => let '(l, ok) := writeJSON fault f (co_render cr_json cr) fs in
            (List.last l fs, if ok then None else Some DiskError)
  end.
Definition GetChange (id : string) (fs : Disk) : res StoreErr (option CR) :=
  match changeFile id with
  | Err e => Err (BadChangeID e)
  | Ok f => match readJSON cr_json f fs with Missing => Ok None | Found cr => Ok (Some cr) | Corrupt => Err CorruptRecord end
  end.

(** The names of a directory are read in order; what does not parse is skipped. *)
Definition listed (fs : Disk) : list CR :=
  omap (λ n, if has_suffix n suffix_json
             then match readJSON cr_json (mkFile "changes" n) fs with Found cr => Some cr | _ => None end
             else None)
    (sorted_keys (d_now (dir_of "changes" fs))).
Definition newer (a b : CR) : bool := Created b <? Created a.
Definition ListChanges (fs : Disk) : list CR := isort newer (listed fs).
End change_store.

Section single_records.
  Context {V : Type} (co : Codec V) (f : File).

(** [RolloutStore] and [UpstreamStore]: one file each. *)
Definition PutRecord (fault : option Fault) (v : V) (fs : Disk) : Disk * option StoreErr :=
  let '(l, ok) := writeJSON fault f (co_render co v) fs in (List.last l fs, if ok then None else Some DiskError).
Definition GetRecord (fs : Disk) : res StoreErr (option V) :=
  match readJSON co f fs with Missing => Ok None | Found v => Ok (Some v) | Corrupt => Err CorruptRecord end.
End single_records.

(** [LastUpstream] reads a missing record as the empty revision. *)
Definition LastUpstream (co : Codec string) (fs : Disk) : res StoreErr string :=
  match GetRecord co upstreamFile fs with Ok r => Ok (default "" r) | Err e => Err e end.

(** ** No record is ever torn *)

Notation WriteLog := (list (File * string * bool)).
Definition is_json (x : string) : bool := has_suffix x suffix_json.

Lemma tmp_is_no_record x : is_json (x +:+ ".tmp") = false.
Proof.
  unfold is_json, has_suffix, suffix_json. rewrite HostKeys.list_ascii_app, reverse_app. reflexivity.
Qed.

Lemma record_is_no_tmp x y : is_json x = true → x ≠ y +:+ ".tmp".
Proof. intros Hx ->. by rewrite tmp_is_no_record in Hx. Qed.

(** What a directory keeps: names and files belong together; a record's file is on
    the disk with a text that was written for it; no other file is a record's. *)
Record dir_ok (D : string) (log : WriteLog) (d : DiskDir) : Prop := {
  ok_fresh : ∀ i, is_Some (d_files d !! i) → (i < d_next d)%nat;
  ok_file : ∀ m x i, m ∈ entries_on_disk d → m !! x = Some i → is_Some (d_files d !! i);
  ok_record : ∀ m x i, m ∈ entries_on_disk d → is_json x = true → m !! x = Some i →
    ∃ t ok, d_files d !! i = Some (mkInode (t +:+ lf) (Some (t +:+ lf))) ∧ (mkFile D x, t, ok) ∈ log;
  ok_names : ∀ m x y i, m ∈ entries_on_disk d → m !! x = Some i → m !! y = Some i → x = y;
  ok_other : ∀ m x y i, m ∈ entries_on_disk d → is_json x = false → d_now d !! x = Some i →
    is_json y = true → m !! y ≠ Some i
}.

Definition private (i : nat) (d : DiskDir) : Prop :=
  ∀ m y, m ∈ entries_on_disk d → is_json y = true → m !! y ≠ Some i.

Lemma dir_ok_mono D log log' d : log ⊆ log' → dir_ok D log d → dir_ok D log' d.
Proof.
  intros Hs [H1 H2 H3 H4 H5]. split; try done. intros m x i Hm Hx Hi.
  destruct (H3 m x i Hm Hx Hi) as (t & ok & ? & ?). exists t, ok. split; [done|by apply Hs].
Qed.

Lemma empty_ok D log : dir_ok D log emptyDir.
Proof.
  assert (H : ∀ m (x : string) (i : nat), m ∈ entries_on_disk emptyDir → m !! x ≠ Some i)
    by (intros m x i ->%list_elem_of_singleton; unfold emptyDir, d_now; by rewrite lookup_empty).
  split.
  - intros i [? Hi]. unfold emptyDir, d_files in Hi. by rewrite lookup_empty in Hi.
  - intros m x i Hm Hi. by apply H in Hi.
  - intros m x i Hm _ Hi. by apply H in Hi.
  - intros m x y i Hm Hi. by apply H in Hi.
  - intros m x y i Hm _ _ _. by apply H.
Qed.

Lemma set_file_ok D log i n d : dir_ok D log d → private i d → (i < d_next d)%nat → dir_ok D log (set_file i n d).
Proof.
  intros [H1 H2 H3 H4 H5] Hp Hi. split; simpl; try done.
  - intros j [k Hj]. destruct (decide (i = j)) as [->|Hn]; [done|]. rewrite lookup_insert_ne in Hj by done. eauto.
  - intros m x j Hm Hx. destruct (decide (i = j)) as [->|Hn]; [rewrite lookup_insert_eq; eauto|].
    rewrite lookup_insert_ne by done. eauto.
  - intros m x j Hm Hj Hx. assert (i ≠ j) by (intros ->; by eapply Hp). rewrite lookup_insert_ne by done. by apply (H3 m).
Qed.

Lemma open_trunc_ok D log x d : dir_ok D log d → is_json x = false → let '(i, d') := open_trunc x d in
  dir_ok D log d' ∧ d_now d' !! x = Some i ∧ private i d' ∧ (i < d_next d')%nat ∧ is_Some (d_files d' !! i).
Proof.
  intros Hd Hx. unfold open_trunc. destruct (d_now d !! x) as [i|] eqn:Hi.
  - assert (Hn : d_now d ∈ entries_on_disk d) by by left.
    pose proof (ok_fresh _ _ _ Hd i (ok_file _ _ _ Hd _ _ _ Hn Hi)) as Hlt.
    assert (Hp : private i d) by (intros m y Hm Hy; by eapply ok_other).
    split_and!; [by apply set_file_ok|done|done|done|]. simpl. rewrite lookup_insert_eq. by eexists.
  - cbv zeta. set (i := d_next d). destruct Hd as [H1 H2 H3 H4 H5].
    assert (Hnew : ∀ m y, m ∈ entries_on_disk d → m !! y ≠ Some i).
    { intros m y Hm Hy. destruct (H2 m y i Hm Hy) as [? Hf]. specialize (H1 i ltac:(eauto)). unfold i in H1. lia. }
    assert (Hnow : d_now d ∈ entries_on_disk d) by by left.
    assert (Hcases : ∀ m, m ∈ <[x := i]> (d_now d) :: d_now d :: d_past d → m = <[x := i]> (d_now d) ∨ m ∈ entries_on_disk d)
      by (intros m [?|?]%elem_of_cons; [by left|by right]).
    split_and!; [split| | | |]; simpl.
    + intros j [k Hj]. destruct (decide (i = j)) as [<-|Hn]; [lia|]. rewrite lookup_insert_ne in Hj by done.
      specialize (H1 j ltac:(eauto)). lia.
    + intros m y j [->|Hm]%Hcases Hy.
      * destruct (decide (i = j)) as [->|Hn]; [rewrite lookup_insert_eq; eauto|]. rewrite lookup_insert_ne by done.
        apply lookup_insert_Some in Hy as [[_ ?]|[_ Hy]]; [done|eauto].
      * destruct (decide (i = j)) as [->|Hn]; [rewrite lookup_insert_eq; eauto|]. rewrite lookup_insert_ne by done. eauto.
    + intros m y j Hm Hy Hj. assert (j ≠ i ∧ ∃ m', m' ∈ entries_on_disk d ∧ m' !! y = Some j) as [Hn (m' & Hm' & Hj')].
      { apply Hcases in Hm as [->|Hm].
        - apply lookup_insert_Some in Hj as [[-> _]|[_ Hj]]; [congruence|]. split; [|eauto]. intros ->. by eapply Hnew.
        - split; [|eauto]. intros ->. by eapply Hnew. }
      rewrite lookup_insert_ne by done. by eapply H3.
    + intros m y z j [->|Hm]%Hcases Hy Hz; [|by eapply H4].
      apply lookup_insert_Some in Hy as [[<- <-]|[? Hy]]; apply lookup_insert_Some in Hz as [[<- ?]|[? Hz]]; try done.
      * by apply Hnew in Hz.
      * subst j. by apply Hnew in Hy.
      * by eapply H4.
    + intros m y z j Hm Hy Hj Hz Hzj. apply lookup_insert_Some in Hj as [[<- <-]|[? Hj]].
      * apply Hcases in Hm as [->|Hm]; [|by eapply Hnew]. apply lookup_insert_Some in Hzj as [[<- _]|[_ Hzj]]; [congruence|by eapply Hnew].
      * apply Hcases in Hm as [->|Hm]; [|by eapply H5]. apply lookup_insert_Some in Hzj as [[<- _]|[_ Hzj]]; [congruence|].
        by eapply (H5 (d_now d)).
    + by rewrite lookup_insert_eq.
    + intros m y [->|Hm]%Hcases Hy Hyi; [|by eapply Hnew]. apply lookup_insert_Some in Hyi as [[<- _]|[_ Hyi]]; [congruence|by eapply Hnew].
    + lia.
    + rewrite lookup_insert_eq. eauto.
Qed.

Lemma rename_ok D log x y i t d ok : dir_ok D log d → is_json x = false → is_json y = true → d_now d !! x = Some i →
  d_files d !! i = Some (mkInode (t +:+ lf) (Some (t +:+ lf))) → (mkFile D y, t, ok) ∈ log → dir_ok D log (rename x y d).
Proof.
  intros Hd Hx Hy Hi Hf Hl. unfold rename. rewrite Hi. pose proof Hd as [H1 H2 H3 H4 H5].
  assert (Hnow : d_now d ∈ entries_on_disk d) by by left.
  assert (Hlk : ∀ z j, <[y := i]> (delete x (d_now d)) !! z = Some j → (z = y ∧ j = i) ∨ z ≠ y ∧ z ≠ x ∧ d_now d !! z = Some j).
  { intros z j [[-> ->]|[? [? ?]%lookup_delete_Some]]%lookup_insert_Some; [by left|by right]. }
  split; simpl; [done|..]; unfold entries_on_disk; simpl.
  - intros m z j [->|Hm]%elem_of_cons Hz; [|by eapply H2]. apply Hlk in Hz as [[-> ->]|(_ & _ & Hz)]; [eauto|by eapply H2].
  - intros m z j [->|Hm]%elem_of_cons Hzj Hz; [|by eapply H3]. apply Hlk in Hz as [[-> ->]|(_ & _ & Hz)]; [by exists t, ok|by eapply H3].
  - intros m z w j [->|Hm]%elem_of_cons Hz Hw; [|by eapply H4].
    apply Hlk in Hz as [[-> ->]|(_ & Hzx & Hz)]; apply Hlk in Hw as [[-> Hj]|(_ & Hwx & Hw)]; try done; [|subst j|by eapply H4].
    + exfalso. apply Hwx. by eapply (H4 (d_now d)).
    + exfalso. apply Hzx. by eapply (H4 (d_now d)).
  - intros m z w j Hm Hz Hzj Hw Hwj. apply Hlk in Hzj as [[-> _]|(_ & Hzx & Hzj)]; [congruence|].
    apply elem_of_cons in Hm as [->|Hm]; [|by eapply H5].
    apply Hlk in Hwj as [[-> ->]|(_ & _ & Hwj)]; [apply Hzx; by eapply (H4 (d_now d))|by eapply (H5 (d_now d))].
Qed.

Lemma sync_dir_ok D log d : dir_ok D log d → dir_ok D log (sync_dir d).
Proof.
  intros [H1 H2 H3 H4 H5]. split; simpl; unfold entries_on_disk; simpl; try done.
  - intros m x i ->%list_elem_of_singleton. apply H2. by left.
  - intros m x i ->%list_elem_of_singleton. apply H3. by left.
  - intros m x y i ->%list_elem_of_singleton. apply H4. by left.
  - intros m x y i ->%list_elem_of_singleton. apply H5. by left.
Qed.

Lemma crash_ok D log d d' : dir_ok D log d → dir_crashed d d' → dir_ok D log d'.
Proof.
  intros [H1 H2 H3 H4 H5] (Hm & Hp & Hn & Hf & Ht). split; rewrite ?Hn; unfold entries_on_disk; rewrite ?Hp.
  - intros i Hi. apply H1. by apply Hf.
  - intros m x i ->%list_elem_of_singleton Hx. apply Hf. by eapply H2.
  - intros m x i ->%list_elem_of_singleton Hx Hi. destruct (H3 _ _ _ Hm Hx Hi) as (t & ok & Hd & Hl). exists t, ok. split; [|done].
    destruct (proj1 (Hf i) ltac:(eauto)) as [[a b] Hi']. destruct (Ht i _ Hi') as [Hab Hat]. simpl in *.
    rewrite Hd in Hat. rewrite Hi', Hab, (Hat _ eq_refl). done.
  - intros m x y i ->%list_elem_of_singleton. by apply H4.
  - intros m x y i ->%list_elem_of_singleton Hx Hi Hy Hyi. assert (x = y) by by eapply H4. congruence.
Qed.

(** ** What survives *)

(** Whatever state the disk holds of the directory, the record is there, whole. *)
Definition keeps (x t : string) (d : DiskDir) : Prop :=
  ∀ m, m ∈ entries_on_disk d → ∃ i, m !! x = Some i ∧ d_files d !! i = Some (mkInode (t +:+ lf) (Some (t +:+ lf))).

Lemma set_file_keeps x t i n d : private i d → is_json x = true → keeps x t d → keeps x t (set_file i n d).
Proof.
  intros Hp Hx Hk m Hm. destruct (Hk m Hm) as (j & Hj & Hf). exists j. split; [done|]. simpl.
  rewrite lookup_insert_ne; [done|]. intros ->. by eapply Hp.
Qed.

Lemma open_trunc_keeps D log y x t d : dir_ok D log d → is_json y = false → is_json x = true →
  keeps x t d → keeps x t (open_trunc y d).2.
Proof.
  intros Hd Hy Hx Hk. unfold open_trunc. destruct (d_now d !! y) as [i|] eqn:Hi; simpl.
  - apply set_file_keeps; [|done..]. intros m z Hm Hz. by eapply ok_other.
  - assert (Hf : ∀ m, m ∈ entries_on_disk d → ∃ i, m !! x = Some i ∧
               <[d_next d := mkInode "" None]> (d_files d) !! i = Some (mkInode (t +:+ lf) (Some (t +:+ lf)))).
    { intros m Hm. destruct (Hk m Hm) as (j & Hj & Hf). exists j. split; [done|].
      rewrite lookup_insert_ne; [done|]. intros <-. pose proof (ok_fresh _ _ _ Hd (d_next d) ltac:(eauto)). lia. }
    intros m [->|Hm]%elem_of_cons; simpl; [|by apply Hf].
    destruct (Hf (d_now d) ltac:(by left)) as (j & Hj & Hjf). exists j. split; [|done].
    rewrite lookup_insert_ne; [done|]. intros ->. congruence.
Qed.

Lemma rename_keeps y z x t d : x ≠ y → x ≠ z → keeps x t d → keeps x t (rename y z d).
Proof.
  intros Hy Hz Hk. unfold rename. destruct (d_now d !! y) as [i|]; [|done].
  intros m [->|Hm]%elem_of_cons; [|by apply Hk]. destruct (Hk (d_now d) ltac:(by left)) as (j & Hj & Hf). exists j. split; [|done].
  simpl. by rewrite lookup_insert_ne, lookup_delete_ne.
Qed.

Lemma sync_dir_keeps x t d : keeps x t d → keeps x t (sync_dir d).
Proof. intros Hk m ->%list_elem_of_singleton. apply Hk. by left. Qed.

Lemma crash_keeps x t d d' : keeps x t d → dir_crashed d d' → keeps x t d'.
Proof.
  intros Hk (Hm & Hp & _ & Hf & Ht) m Hm'. unfold entries_on_disk in Hm'. rewrite Hp in Hm'.
  apply list_elem_of_singleton in Hm' as ->. destruct (Hk _ Hm) as (i & Hi & Hd). exists i. split; [done|].
  destruct (proj1 (Hf i) ltac:(eauto)) as [[a b] Hi']. destruct (Ht i _ Hi') as [Hab Hat]. simpl in *.
  rewrite Hd in Hat. rewrite Hi', Hab, (Hat _ eq_refl). done.
Qed.

(** ** The steps of a write *)

Lemma dir_of_upd d g fs D : dir_of D (upd d g fs) = if bool_decide (D = d) then g (dir_of d fs) else dir_of D fs.
Proof.
  unfold upd, dir_of at 1. case_bool_decide; [subst; by rewrite lookup_insert_eq|by rewrite lookup_insert_ne].
Qed.

Lemma upd_all (Q : string → DiskDir → Prop) d g fs : (∀ D, Q D (dir_of D fs)) → Q d (g (dir_of d fs)) →
  ∀ D, Q D (dir_of D (upd d g fs)).
Proof. intros Ha Hg D. rewrite dir_of_upd. by case_bool_decide as Hd; [rewrite Hd|]. Qed.

Definition stage (f : File) (text : string) (k : nat) (d : DiskDir) : DiskDir :=
  let tmp := f_base f +:+ ".tmp" in
  let '(i, d1) := open_trunc tmp d in
  match k with
  | 1%nat => d1
  | 2%nat => write_file i (text +:+ lf) d1
  | 3%nat => sync_file i (write_file i (text +:+ lf) d1)
  | _ => rename tmp (f_base f) (sync_file i (write_file i (text +:+ lf) d1))
  end.

(** A write only passes through these disks. *)
Lemma writeJSON_states fault f text fs l ok (Q : string → DiskDir → Prop) : writeJSON fault f text fs = (l, ok) →
  (∀ D, Q D (dir_of D fs)) →
  (∀ k, Q (f_dir f) (stage f text k (dir_of (f_dir f) fs))) →
  (∀ t, let '(i, d1) := open_trunc (f_base f +:+ ".tmp") (dir_of (f_dir f) fs) in Q (f_dir f) (write_file i t d1)) →
  (∀ d, Q "" d → Q "" (sync_dir d)) →
  ∀ fs', fs' ∈ l → ∀ D, Q D (dir_of D fs').
Proof.
  intros Hw Ha Hk Ht Hs. unfold writeJSON in Hw. cbv zeta in Hw. set (d := f_dir f) in *. set (tmp := f_base f +:+ ".tmp") in *.
  assert (Hone : ∀ fs', fs' ∈ [fs] → ∀ D, Q D (dir_of D fs')) by (by intros fs' ->%list_elem_of_singleton).
  destruct (bool_decide (fault = Some FOpen)); [by injection Hw as <- _|].
  set (fs1 := upd d (λ x, (open_trunc tmp x).2) fs) in *.
  set (i := (open_trunc tmp (dir_of d fs)).1) in *.
  assert (H1 : ∀ D, Q D (dir_of D fs1)).
  { apply upd_all; [done|]. specialize (Hk 1%nat). unfold stage in Hk. fold tmp in Hk.
    by destruct (open_trunc tmp (dir_of d fs)). }
  assert (Hd1 : dir_of d fs1 = (open_trunc tmp (dir_of d fs)).2) by (unfold fs1; by rewrite dir_of_upd, bool_decide_eq_true_2).
  assert (Hw2 : ∀ t, ∀ D, Q D (dir_of D (upd d (write_file i t) fs1))).
  { intros t. apply upd_all; [done|]. rewrite Hd1. specialize (Ht t). unfold i. by destruct (open_trunc tmp (dir_of d fs)). }
  set (fs2 := upd d (write_file i (text +:+ lf)) fs1) in *.
  assert (Hd2 : dir_of d fs2 = write_file i (text +:+ lf) (open_trunc tmp (dir_of d fs)).2)
    by (unfold fs2; by rewrite dir_of_upd, bool_decide_eq_true_2, Hd1).
  set (fs3 := upd d (sync_file i) fs2) in *.
  assert (H3 : ∀ D, Q D (dir_of D fs3)).
  { apply upd_all; [apply Hw2|]. rewrite Hd2. specialize (Hk 3%nat). unfold stage in Hk. fold tmp in Hk. unfold i.
    by destruct (open_trunc tmp (dir_of d fs)). }
  assert (Hd3 : dir_of d fs3 = sync_file i (write_file i (text +:+ lf) (open_trunc tmp (dir_of d fs)).2))
    by (unfold fs3; by rewrite dir_of_upd, bool_decide_eq_true_2, Hd2).
  set (fs4 := upd d (rename tmp (f_base f)) fs3) in *.
  assert (H4 : ∀ D, Q D (dir_of D fs4)).
  { apply upd_all; [done|]. rewrite Hd3. specialize (Hk 4%nat). unfold stage in Hk. fold tmp in Hk. unfold i.
    by destruct (open_trunc tmp (dir_of d fs)). }
  assert (H5 : ∀ D, Q D (dir_of D (upd "" sync_dir fs4))) by (apply upd_all; [done|]; by apply Hs).
  assert (H2 : ∀ D, Q D (dir_of D fs2)) by apply Hw2.
  clearbody fs4 fs3 fs2.
  assert (Hlist : ∀ L, Forall (λ x, ∀ D, Q D (dir_of D x)) L → ∀ fs', fs' ∈ L → ∀ D, Q D (dir_of D fs'))
    by (intros L HL fs' Hin; exact (proj1 (Forall_forall _ _) HL fs' Hin)).
  assert (Hrest : ∀ ok', (if bool_decide (fault = Some FSync) then ([fs; fs1; fs2], false) else
      if bool_decide (fault = Some FClose) || bool_decide (fault = Some FRename) then ([fs; fs1; fs2; fs3], false) else
      if bool_decide (fault = Some FOpenDir) || bool_decide (fault = Some FSyncDir) then ([fs; fs1; fs2; fs3; fs4], false) else
      ([fs; fs1; fs2; fs3; fs4; upd "" sync_dir fs4], true)) = (l, ok') → ∀ fs', fs' ∈ l → ∀ D, Q D (dir_of D fs')).
  { intros ok'. destruct (bool_decide _); [|destruct (_ || _); [|destruct (_ || _)]];
      intros [= <- _]; apply Hlist; repeat (constructor; [done|]); constructor. }
  destruct fault as [[]|]; try exact (Hrest _ Hw).
  injection Hw as <- _. apply Hlist. apply Forall_cons; split; [done|]. apply Forall_cons; split; [done|].
  apply Forall_cons; split; [apply Hw2|apply Forall_nil_2].
Qed.

Lemma sync_written i t d : sync_file i (write_file i t d) = set_file i (mkInode t (Some t)) (write_file i t d).
Proof. unfold sync_file, write_file, set_file. simpl. by rewrite lookup_insert_eq. Qed.

Lemma stage_ok f text ok log k d : dir_ok (f_dir f) log d → is_json (f_base f) = true → (f, text, ok) ∈ log →
  dir_ok (f_dir f) log (stage f text k d).
Proof.
  intros Hd Hf Hl. unfold stage. pose proof (open_trunc_ok _ _ (f_base f +:+ ".tmp") d Hd (tmp_is_no_record _)) as Ho.
  destruct (open_trunc _ d) as [i d1]. destruct Ho as (Hd1 & Hi & Hp & Hlt & _).
  assert (Hw : dir_ok (f_dir f) log (write_file i (text +:+ lf) d1)) by by apply set_file_ok.
  assert (Hs : dir_ok (f_dir f) log (sync_file i (write_file i (text +:+ lf) d1))).
  { rewrite sync_written. apply set_file_ok; [done| |done]. intros m y. apply Hp. }
  assert (Hr : dir_ok (f_dir f) log (rename (f_base f +:+ ".tmp") (f_base f) (sync_file i (write_file i (text +:+ lf) d1)))).
  { eapply (rename_ok _ _ _ _ i text _ ok Hs (tmp_is_no_record _) Hf); rewrite ?sync_written; simpl; [done| |by destruct f].
    by rewrite lookup_insert_eq. }
  by destruct k as [|[|[|[|]]]].
Qed.

Lemma write_dirs_ok f text ok log fault fs l b : (∀ D, dir_ok D log (dir_of D fs)) → is_json (f_base f) = true →
  (f, text, ok) ∈ log → writeJSON fault f text fs = (l, b) → ∀ fs', fs' ∈ l → ∀ D, dir_ok D log (dir_of D fs').
Proof.
  intros Ha Hf Hl Hw. eapply (writeJSON_states fault f text fs l b (λ D d, dir_ok D log d)); [exact Hw|done|by intros k; eapply stage_ok| |by intros; apply sync_dir_ok].
  intros t. pose proof (open_trunc_ok _ _ (f_base f +:+ ".tmp") _ (Ha (f_dir f)) (tmp_is_no_record _)) as Ho.
  destruct (open_trunc _ _) as [i d1]. destruct Ho as (Hd1 & Hi & Hp & Hlt & _). by apply set_file_ok.
Qed.

Lemma write_others_kept D x t f text log fault fs l b : (∀ D, dir_ok D log (dir_of D fs)) →
  mkFile D x ≠ f → is_json x = true → is_json (f_base f) = true → keeps x t (dir_of D fs) →
  writeJSON fault f text fs = (l, b) → ∀ fs', fs' ∈ l → keeps x t (dir_of D fs').
Proof.
  intros Ha Hn Hx Hf Hk Hw fs' Hin.
  assert (H : ∀ D', D' = D → keeps x t (dir_of D' fs')); [|by apply (H D)].
  eapply (writeJSON_states fault f text fs l b (λ D' d, D' = D → keeps x t d)); [exact Hw|by intros D' ->| | |by intros d Hd <-; apply sync_dir_keeps, Hd|exact Hin].
  - intros k HD. subst D. assert (Hxf : x ≠ f_base f) by (intros ->; by destruct f).
    pose proof (open_trunc_ok _ _ (f_base f +:+ ".tmp") _ (Ha (f_dir f)) (tmp_is_no_record _)) as Ho.
    pose proof (open_trunc_keeps _ _ (f_base f +:+ ".tmp") x t _ (Ha (f_dir f)) (tmp_is_no_record _) Hx Hk) as Hko.
    unfold stage. destruct (open_trunc _ _) as [i d1]. destruct Ho as (Hd1 & Hi & Hp & Hlt & _). simpl in Hko.
    assert (Hkw : keeps x t (write_file i (text +:+ lf) d1)) by by apply set_file_keeps.
    assert (Hks : keeps x t (sync_file i (write_file i (text +:+ lf) d1))) by (rewrite sync_written; by apply set_file_keeps).
    assert (Hkr : keeps x t (rename (f_base f +:+ ".tmp") (f_base f) (sync_file i (write_file i (text +:+ lf) d1))))
      by (apply rename_keeps; [by apply record_is_no_tmp|done|done]).
    by destruct k as [|[|[|[|]]]].
  - intros s. pose proof (open_trunc_ok _ _ (f_base f +:+ ".tmp") _ (Ha (f_dir f)) (tmp_is_no_record _)) as Ho.
    pose proof (open_trunc_keeps (f_dir f) log (f_base f +:+ ".tmp") x t (dir_of (f_dir f) fs) (Ha (f_dir f)) (tmp_is_no_record _) Hx) as Hko.
    destruct (open_trunc _ _) as [i d1]. destruct Ho as (Hd1 & Hi & Hp & Hlt & _). simpl in Hko.
    intros HD. subst D. apply set_file_keeps; [done|done|by apply Hko].
Qed.

(** A write that succeeds passes every step. *)
Lemma written_last fault f text fs l : writeJSON fault f text fs = (l, true) →
  ∃ fs4, List.last l fs = upd "" sync_dir fs4 ∧
    dir_of (f_dir f) fs4 = rename (f_base f +:+ ".tmp") (f_base f)
      (let '(i, d1) := open_trunc (f_base f +:+ ".tmp") (dir_of (f_dir f) fs) in sync_file i (write_file i (text +:+ lf) d1)).
Proof.
  intros Hw. unfold writeJSON in Hw. cbv zeta in Hw.
  destruct (bool_decide (fault = Some FOpen)); [done|].
  set (fs1 := upd _ (λ d, (open_trunc _ d).2) fs) in *. set (fs2 := upd _ (write_file _ (text +:+ lf)) fs1) in *.
  set (fs3 := upd _ (sync_file _) fs2) in *. set (fs4 := upd _ (rename _ _) fs3) in *.
  exists fs4. split.
  - assert (Hrest : (if bool_decide (fault = Some FSync) then ([fs; fs1; fs2], false) else
      if bool_decide (fault = Some FClose) || bool_decide (fault = Some FRename) then ([fs; fs1; fs2; fs3], false) else
      if bool_decide (fault = Some FOpenDir) || bool_decide (fault = Some FSyncDir) then ([fs; fs1; fs2; fs3; fs4], false) else
      ([fs; fs1; fs2; fs3; fs4; upd "" sync_dir fs4], true)) = (l, true) → List.last l fs = upd "" sync_dir fs4).
    { destruct (bool_decide _); [done|destruct (_ || _); [done|destruct (_ || _); [done|]]]. by intros [= <-]. }
    destruct fault as [[]|]; try exact (Hrest Hw). discriminate Hw.
  - subst fs1 fs2 fs3 fs4. rewrite !dir_of_upd, !bool_decide_eq_true_2 by done.
    by destruct (open_trunc _ _).
Qed.

Lemma renamed_entry x y t d : let '(i, d1) := open_trunc x d in d_now d1 !! x = Some i →
  let d' := rename x y (sync_file i (write_file i t d1)) in
  d_now d' !! y = Some i ∧ d_files d' !! i = Some (mkInode t (Some t)).
Proof.
  destruct (open_trunc x d) as [i d1]. intros Hi. rewrite sync_written. unfold rename. simpl. rewrite Hi. simpl.
  by rewrite !lookup_insert_eq.
Qed.

Lemma write_entry fault f text log fs l : (∀ D, dir_ok D log (dir_of D fs)) → writeJSON fault f text fs = (l, true) →
  ∃ i, d_now (dir_of (f_dir f) (List.last l fs)) !! f_base f = Some i ∧
    d_files (dir_of (f_dir f) (List.last l fs)) !! i = Some (mkInode (text +:+ lf) (Some (text +:+ lf))) ∧
    (f_dir f = "" → d_past (dir_of (f_dir f) (List.last l fs)) = []).
Proof.
  intros Ha Hw. apply written_last in Hw as (fs4 & -> & H4).
  pose proof (open_trunc_ok _ _ (f_base f +:+ ".tmp") _ (Ha (f_dir f)) (tmp_is_no_record _)) as Ho.
  pose proof (renamed_entry (f_base f +:+ ".tmp") (f_base f) (text +:+ lf) (dir_of (f_dir f) fs)) as Hr.
  destruct (open_trunc _ _) as [i d1]. destruct Ho as (_ & Hi & _). destruct (Hr Hi) as [Hn Hf]. rewrite <- H4 in Hn, Hf.
  exists i. rewrite dir_of_upd. case_bool_decide as Hd; [rewrite <- Hd|]; by split_and!.
Qed.

(** A write that succeeds leaves the record on the disk, for a file of the store's
    own directory. *)
Lemma write_kept x text log fault fs l : (∀ D, dir_ok D log (dir_of D fs)) →
  writeJSON fault (mkFile "" x) text fs = (l, true) → keeps x text (dir_of "" (List.last l fs)).
Proof.
  intros Ha Hw. destruct (write_entry _ _ _ _ _ _ Ha Hw) as (i & Hi & Hf & Hp). intros m Hm.
  unfold entries_on_disk in Hm. simpl in *. rewrite Hp in Hm by done. apply list_elem_of_singleton in Hm as ->. by exists i.
Qed.

(** ** Histories *)

(** The disks a store goes through: writes with their faults, power failures between
    them and in the middle of one. The log has every text a write was started with. *)
Inductive stored : Disk → WriteLog → Prop :=
  | stored_empty : stored ∅ []
  | stored_put fs log fault f text l ok : stored fs log → is_json (f_base f) = true →
      writeJSON fault f text fs = (l, ok) → stored (List.last l fs) (log ++ [(f, text, ok)])
  | stored_crash fs log fs' : stored fs log → crashed fs fs' → stored fs' log
  | stored_cut fs log fault f text l ok fs1 fs' : stored fs log → is_json (f_base f) = true →
      writeJSON fault f text fs = (l, ok) → fs1 ∈ l → crashed fs1 fs' → stored fs' (log ++ [(f, text, false)]).

Lemma last_in {A} (l : list A) d : List.last l d = d ∨ List.last l d ∈ l.
Proof.
  induction l as [|a [|b l] IH]; [by left|right; by left|]. destruct IH as [H|H]; [by left|right; right; exact H].
Qed.

Lemma stored_ok fs log : stored fs log → ∀ D, dir_ok D log (dir_of D fs).
Proof.
  induction 1 as [|fs log fault f text l ok Hst IH Hf Hw|fs log fs' Hst IH Hc|fs log fault f text l ok fs1 fs' Hst IH Hf Hw Hin Hc]; intros D.
  - apply empty_ok.
  - assert (Ha : ∀ D, dir_ok D (log ++ [(f, text, ok)]) (dir_of D fs)) by (intros D'; eapply dir_ok_mono; [|done]; set_solver).
    destruct (last_in l fs) as [->|Hl]; [done|]. eapply (write_dirs_ok f text ok); [done|done|set_solver|done|done].
  - by eapply crash_ok.
  - eapply crash_ok; [|apply Hc].
    eapply (write_dirs_ok f text false); [|done|set_solver|done|done]. intros D'. eapply dir_ok_mono; [|done]. set_solver.
Qed.

(** Whatever fails and whenever the power fails, a record that is read is one
    that was written: the text of a file is, byte for byte, a text some write of that
    file was started with, and never a part of one or a mixture. *)
Lemma record_never_torn fs log f t : stored fs log → is_json (f_base f) = true → read_file f fs = Some t →
  ∃ text ok, t = text +:+ lf ∧ (f, text, ok) ∈ log.
Proof.
  intros Hs Hf Hr. pose proof (stored_ok fs log Hs (f_dir f)) as Hd. unfold read_file in Hr.
  destruct (d_now (dir_of (f_dir f) fs) !! f_base f) as [i|] eqn:Hi; [|done]. simpl in Hr.
  destruct (ok_record _ _ _ Hd _ _ _ ltac:(by left) Hf Hi) as (text & ok & Hn & Hl).
  rewrite Hn in Hr. injection Hr as <-. exists text, ok. split; [done|]. by destruct f.
Qed.

(** C12: A record of the store's own directory (the rollout run, the revision of the
    core) whose write succeeded is read back as written after any number of power
    failures and of writes of other records, failed and interrupted ones included. *)
Theorem written_record_survives x text log log' fs : is_json x = true → 
  stored fs (log ++ (mkFile "" x, text, true) :: log') → (∀ t ok, (mkFile "" x, t, ok) ∉ log') →
  read_file (mkFile "" x) fs = Some (text +:+ lf).
Proof.
  intros Hx Hs Hno. assert (Hk : keeps x text (dir_of "" fs)).
  { remember (log ++ (mkFile "" x, text, true) :: log') as full eqn:Hfull. revert log log' Hfull Hno.
    induction Hs as [|fs full fault f t l ok Hst IH Hf Hw|fs full fs' Hst IH Hc|fs full fault f t l ok fs1 fs' Hst IH Hf Hw Hin Hc];
      intros log log' Hfull Hno.
    - by destruct log.
    - destruct log' as [|e log'' _] using rev_ind.
      + apply app_inj_tail in Hfull as [_ [= -> -> ->]]. eapply write_kept; [by apply stored_ok|done].
      + rewrite app_comm_cons, (assoc_L (++)) in Hfull. apply app_inj_tail in Hfull as [-> <-].
        assert (Hkf : keeps x text (dir_of "" fs)) by (eapply IH; [done|]; intros t' ok' Hin; apply (Hno t' ok'); set_solver).
        destruct (last_in l fs) as [->|Hl]; [done|].
        eapply write_others_kept; [by apply stored_ok| |done|done|done|done|done].
        intros <-. apply (Hno t ok). set_solver.
    - eapply crash_keeps; [|apply Hc]. by eapply IH.
    - destruct log' as [|e log'' _] using rev_ind; [by apply app_inj_tail in Hfull as [_ [= ]]|].
      rewrite app_comm_cons, (assoc_L (++)) in Hfull. apply app_inj_tail in Hfull as [-> <-].
      assert (Hkf : keeps x text (dir_of "" fs)) by (eapply IH; [done|]; intros t' ok' Hin'; apply (Hno t' ok'); set_solver).
      eapply crash_keeps; [|apply Hc]. eapply write_others_kept; [by apply stored_ok| |done|done|done|done|done].
      intros <-. apply (Hno t false). set_solver. }
  destruct (Hk _ ltac:(by left)) as (i & Hi & Hf). unfold read_file. simpl. rewrite Hi. simpl. by rewrite Hf.
Qed.

(** ** Changes *)

#[export] Instance newer_weak : StrictWeak newer.
Proof. unfold newer. split; intros; lia. Qed.

Section changes.
  Context (cr_json : Codec CR) (back : ∀ cr, co_parse cr_json (co_render cr_json cr +:+ lf) = Some cr).

(** A list of the changes is every record that parses, newest first; a record that
    does not parse hides nothing but itself. *)
Lemma list_is_complete fs : 
  (∀ cr, cr ∈ ListChanges cr_json fs ↔ ∃ n, is_json n = true ∧ n ∈ dom (d_now (dir_of "changes" fs))
     ∧ readJSON cr_json (mkFile "changes" n) fs = Found cr) ∧
  StronglySorted (in_order newer) (ListChanges cr_json fs).
Proof.
  split; [|by apply isort_sorted; apply newer_weak]. intros cr. unfold ListChanges, listed. rewrite elem_of_isort, list_elem_of_omap.
  setoid_rewrite elem_of_sorted_keys. unfold is_json. split.
  - intros (n & Hn & Hc). exists n. destruct (has_suffix n suffix_json); [|done].
    destruct (readJSON _ _ _) eqn:Hr; try done. injection Hc as ->. split_and!; [done|by apply elem_of_dom|done].
  - intros (n & Hj & Hn & Hr). exists n. rewrite Hj, Hr. split; [by apply elem_of_dom|done].
Qed.

(** While the machine runs, a change that was put is what is got. *)
Lemma put_change_get log fs fault cr fs' : stored fs log → PutChange cr_json fault cr fs = (fs', None) →
  GetChange cr_json (cr_ID cr) fs' = Ok (Some cr).
Proof.
  intros Hs Hp. unfold PutChange, GetChange in *. destruct (changeFile (cr_ID cr)) as [f|e]; [|done].
  destruct (writeJSON _ _ _ _) as [l ok] eqn:Hw. destruct ok; [|done]. injection Hp as <-.
  destruct (write_entry _ _ _ _ _ _ (stored_ok _ _ Hs) Hw) as (i & Hi & Hf & _).
  unfold readJSON, read_file. rewrite Hi. simpl. rewrite Hf. simpl. by rewrite back.
Qed.
End changes.

(** ** Concrete disks *)

Definition demo_cr : CR := mkCR "c1" "Title" "ann" "ann" "cr/c1" Draft "" 5 5 [] false.
Definition demo_cr_json : Codec CR := mkCodec _ (λ _, "{}") (λ t, if t ==? "{}" +:+ lf then Some demo_cr else None).

Lemma emptyDir_crash : dir_crashed emptyDir emptyDir.
Proof.
  split_and!; [by left|done|done|done|]. intros i n Hn. unfold emptyDir, d_files in Hn. by rewrite lookup_empty in Hn.
Qed.

(** [writeJSON] synchronises the store's directory, but the records of changes are
    in the directory below it: the name of a change whose write succeeded need not
    be on the disk. *)
Theorem written_change_may_vanish : ∃ fs fs', PutChange demo_cr_json None demo_cr ∅ = (fs, None) ∧ crashed fs fs' ∧
  GetChange demo_cr_json "c1" fs = Ok (Some demo_cr) ∧ GetChange demo_cr_json "c1" fs' = Ok None.
Proof.
  destruct (PutChange demo_cr_json None demo_cr ∅) as [fs e] eqn:Hp.
  set (file := mkInode ("{}" +:+ lf) (Some ("{}" +:+ lf))).
  set (d' := mkDiskDir ∅ [] {[0%nat := file]} (d_next (dir_of "changes" fs))).
  exists fs, (<["changes" := d']> (<["" := emptyDir]> ∅)).
  assert (Hfs : fs = (PutChange demo_cr_json None demo_cr ∅).1) by by rewrite Hp.
  assert (Hfiles : d_files (dir_of "changes" fs) = {[0%nat := file]}) by (rewrite Hfs; by vm_compute).
  assert (Hall : fs = <["changes" := dir_of "changes" fs]> (<["" := emptyDir]> ∅)) by (rewrite Hfs; by vm_compute).
  assert (He : e = None) by (apply (f_equal snd) in Hp; vm_compute in Hp; done).
  split_and!; [by rewrite <- He| |rewrite Hfs; by vm_compute|by vm_compute].
  intros d. unfold dir_of at 2. destruct (decide (d = "changes")) as [->|Hc].
  - rewrite lookup_insert_eq. split_and!; [rewrite Hfs; vm_compute; do 2 right; left|done|done| |].
    + intros i. by rewrite Hfiles.
    + intros i n. rewrite Hfiles. intros Hn. change (({[0%nat := file]} : gmap nat Inode) !! i = Some n) in Hn. apply lookup_singleton_Some in Hn as [<- <-]. split; [done|].
      intros t. rewrite lookup_singleton_eq. by intros [= <-].
  - rewrite lookup_insert_ne by done. destruct (decide (d = "")) as [->|Hd].
    + rewrite lookup_insert_eq. assert (Hr : dir_of "" fs = emptyDir) by (rewrite Hfs; by vm_compute).
      rewrite Hr. apply emptyDir_crash.
    + rewrite lookup_insert_ne, lookup_empty by done. rewrite Hall. unfold dir_of at 1.
      rewrite !lookup_insert_ne, lookup_empty by done. apply emptyDir_crash.
Qed.

(** The machine comes back with the newest entries; what was not synchronised is
    torn. *)
Definition reboot (d : DiskDir) : DiskDir :=
  mkDiskDir (d_now d) [] ((λ n, mkInode (default "torn" (in_disk n)) (Some (default "torn" (in_disk n)))) <$> d_files d) (d_next d).

Lemma reboot_crashed fs : crashed fs (reboot <$> fs).
Proof.
  intros D. assert (Hd : dir_of D (reboot <$> fs) = reboot (dir_of D fs)).
  { unfold dir_of. rewrite lookup_fmap. by destruct (fs !! D). }
  rewrite Hd. split_and!; [by left|done|done| |].
  - intros i. simpl. by rewrite lookup_fmap, fmap_is_Some.
  - intros i n. simpl. rewrite lookup_fmap. intros (m & Hm & ->)%fmap_Some. split; [done|].
    intros t Ht. rewrite Hm in Ht. simpl in *. injection Ht as Ht. by rewrite Ht.
Qed.

(** The revision of the core is written, a write of the run fails when it is
    synchronised, and the power fails. *)
Definition demo_disks : Disk :=
  let fs := List.last (writeJSON None upstreamFile "r1" ∅).1 ∅ in
  reboot <$> List.last (writeJSON (Some FSync) rolloutFile "run" fs).1 fs.

Lemma written_record_survives_witness : stored demo_disks ([] ++ (mkFile "" "upstream.json", "r1", true) :: [(rolloutFile, "run", false)]) ∧
  read_file upstreamFile demo_disks = Some ("r1" +:+ lf) ∧ read_file (mkFile "" "rollout.json.tmp") demo_disks = Some "torn".
Proof.
  assert (Hs : stored demo_disks ([] ++ (mkFile "" "upstream.json", "r1", true) :: [(rolloutFile, "run", false)])).
  { unfold demo_disks. cbv zeta. eapply stored_crash; [|apply reboot_crashed].
    change ([] ++ (mkFile "" "upstream.json", "r1", true) :: [(rolloutFile, "run", false)])
      with (([] ++ [(upstreamFile, "r1", true)]) ++ [(rolloutFile, "run", false)]).
    eapply stored_put; [eapply (stored_put ∅ [] None upstreamFile "r1"); [constructor|done|]|done|].
    - rewrite (surjective_pairing (writeJSON _ _ _ _)). f_equal.
    - rewrite (surjective_pairing (writeJSON _ _ _ _)). f_equal. }
  split; [exact Hs|]. split; [|vm_compute; reflexivity].
  apply (written_record_survives "upstream.json" "r1" [] [(rolloutFile, "run", false)]); [reflexivity|exact Hs|].
  intros t ok. intros [H|H]%elem_of_cons; [discriminate H|by apply elem_of_nil in H].
Defined.
