(* ===== verification/Upstream.v ===== *)
(** * The core watcher (src/internal/app/upstream.go)

    The watcher of the core repository: when its head moves, the open core updates
    are retired, a change for the new head is opened, filled and submitted, and the
    head is recorded. It acts through the change flow of ChangeFlow; the head, the
    bump of the lock file and the record of the last head are parameters. *)

From S2P Require Import Prelude GoLib FleetModel Groups Resolve Apps Mutate DeviceOps Classes Verdicts Document ConfigTx ConfigSafety Changes Scrub ChangeFlow ChangeProofs ChangeCases Text.
From S2P Require Secretbox.

(** [ports.UpstreamStore]: the last head that was handled. *)
Class UpstreamStore (U : Type) := {
  LastUpstream : U → res string string;
  PutUpstream : string → SE U string unit
}.
Class UpstreamLaws (U : Type) `{UpstreamStore U} : Prop :=
  put_upstream rev u u' : PutUpstream rev u = (Ok tt, u') → LastUpstream u' = Ok rev.

(** The notifier's interface value: empty, a null pointer in it, or a service. *)
Inductive NotifierValue := NoNotifier | NullNotifier | LiveNotifier.
#[export] Instance NotifierValue_eq_dec : EqDecision NotifierValue.
Proof. solve_decision. Defined.

Record UpstreamConfig := mkUpstream {
  uc_repo : string; uc_notifier : NotifierValue; uc_audience : list string;
  uc_supersede : bool; uc_delivery : bool; uc_inputName : string
}.

(** What one check finds: the upstream head, and the lock file with the revision it
    pins, as the runner computes it. *)
Record Upstream := mkFinds { fi_head : res string string; fi_bump : res string (string * string) }.

(** A core update's notification. *)
Record CoreNote := mkCoreNote { cn_Audience : string; cn_Body : string }.

Inductive UpErr := HeadFailed (e : string) | SeenFailed (e : string) | ProcessPanics.

Record Watched `{OverlayParsers} (W S U : Type) := mkWatched {
  uw_flow : Flow W S; uw_seen : U; uw_notes : list CoreNote
}.
Arguments mkWatched {_ W S U}. Arguments uw_flow {_ W S U}. Arguments uw_seen {_ W S U}. Arguments uw_notes {_ W S U}.

Definition shortRev (rev : string) : string := if (12 <? String.length rev)%nat then Secretbox.upto 12 rev else rev.
Definition core_id (head : string) : string := "core-" +:+ shortRev head.
Definition core_title (head : string) : string := "Core update " +:+ shortRev head.
Definition core_author : Author := mkAuthor "" "sextant-upstream" "upstream@sextant".
Definition is_core (id : string) : bool := has_prefix id "core-".

Section upstream.
  Context {W S U : Type} `{Hrepo : ConfigRepo W, BranchRepo W, ChangeStore S, GoJson, Fingerprint, FleetJson, OverlayParsers, UpstreamStore U}.
  Context (uc : UpstreamConfig) (env : ChEnv W).

Notation Wd := (Watched W S U).

Definition with_flow (w : Wd) (fl : Flow W S) : Wd := mkWatched fl (uw_seen w) (uw_notes w).

(** Draft, failed or ready: a change that is still to be decided. *)
Definition still_open (s : CRStatus) : bool := (s ==? Draft) || (s ==? Changes.Failed) || (s ==? Ready).

Definition abandon_stale (keep : string) (fl : Flow W S) (cr : CR) : Flow W S :=
  if (cr_ID cr ==? keep) || negb (is_core (cr_ID cr)) then fl
  else if still_open (cr_Status cr) then snd (Abandon env (cr_ID cr) fl) else fl.

(** [supersede]. *)
Definition supersede (keep : string) (w : Wd) : Wd :=
  if negb (uc_supersede uc) then w
  else match ListChanges (uw_flow w) with
       | (Err _, fl) => with_flow w fl
       | (Ok crs, fl) => with_flow w (foldl (abandon_stale keep) fl crs)
       end.

(** [deliver]. *)
Definition deliver (bump : res string (string * string)) (id : string) (w : Wd) : Wd :=
  if negb (uc_delivery uc) then w
  else match bump with
       | Err _ => w
       | Ok (lock, rev) =>
           match EditFile env id "flake.lock" lock ("core: pin " +:+ uc_inputName uc +:+ " to " +:+ shortRev rev) core_author (uw_flow w) with
           | (Err _, fl) => with_flow w fl
           | (Ok _, fl) => with_flow w (snd (Submit env id fl))
           end
       end.

(** The notes to the audience; a method called on a null pointer panics. *)
Definition announce_core (head : string) : SE Wd UpErr unit := λ w,
  match uc_notifier uc, uc_audience uc with
  | NoNotifier, _ | _, [] => (Ok tt, w)
  | NullNotifier, _ => (Err ProcessPanics, w)
  | LiveNotifier, gs =>
      (Ok tt, mkWatched (uw_flow w) (uw_seen w)
                (uw_notes w ++ ((λ g, mkCoreNote g ("New core release " +:+ shortRev head +:+ ": change " +:+ core_id head
                                                     +:+ " is staged for review.")) <$> gs)))
  end.

Definition record_head (head : string) : SE Wd UpErr unit := λ w,
  let '(r, u) := PutUpstream head (uw_seen w) in (lift_err SeenFailed r, mkWatched (uw_flow w) u (uw_notes w)).

(** [CheckOnce]. *)
Definition CheckOnce (fi : Upstream) : SE Wd UpErr unit := λ w,
  match fi_head fi with
  | Err e => (Err (HeadFailed e), w)
  | Ok head =>
      if head ==? "" then (Ok tt, w) else
      match LastUpstream (uw_seen w) with
      | Err e => (Err (SeenFailed e), w)
      | Ok last =>
          if head ==? last then (Ok tt, w)
          else if last ==? "" then record_head head w
          else
            let w := supersede (core_id head) w in
            match OpenChange env (core_id head) (core_title head) core_author (uw_flow w) with
            | (Err _, fl) => record_head head (with_flow w fl)
            | (Ok _, fl) =>
                match announce_core head (deliver (fi_bump fi) (core_id head) (with_flow w fl)) with
                | (Err e, w) => (Err e, w)
                | (Ok _, w) => record_head head w
                end
            end
      end
  end.
End upstream.

(** [Run]: the ticks; the metric is the times of the checks that completed. A panic
    ends the process. *)
Fixpoint RunTicks {W S U : Type} `{ConfigRepo W, BranchRepo W, ChangeStore S, GoJson, Fingerprint, FleetJson, OverlayParsers, UpstreamStore U}
    (uc : UpstreamConfig) (ticks : list (ChEnv W * Upstream)) (w : Watched W S U) : list Time * Watched W S U :=
  match ticks with
  | [] => ([], w)
  | (env, fi) :: ticks =>
      match CheckOnce uc env fi w with
      | (Err ProcessPanics, w) => ([], w)
      | (Err _, w) => RunTicks uc ticks w
      | (Ok _, w) => let '(ts, w) := RunTicks uc ticks w in (ce_now env :: ts, w)
      end
  end.

(** ** What a check may do *)

Section proofs.
  Context {W S U : Type} `{Hrepo : ConfigRepo W, !RepoLaws W, !BranchRepo W, !BranchLaws W, !ChangeStore S, !StoreLaws S}.
  Context `{GoJson, Fingerprint, FleetJson, OverlayParsers, !UpstreamStore U, !UpstreamLaws U}.
  Context (uc : UpstreamConfig) (env : ChEnv W).

Notation Fl := (Flow W S).
Notation records s := (recs (fl_store s)).

(** From one state of the records to the next: other people's changes stay, a core
    update other than [keep] may only be abandoned while it was still_open, and
    [keep] is never merged. *)
Definition retired_core (keep id : string) (o o' : option CR) : Prop :=
  o' = o ∨ id ≠ keep ∧ is_core id = true ∧ ∃ c, o = Some c ∧ still_open (cr_Status c) = true ∧ o' = Some (moved env Abandoned c).

Lemma Abandon_records id (s : Fl) r s' : filed s → Abandon env id s = (r, s') →
  ∀ i, records s' !! i = records s !! i ∨
    i = id ∧ ∃ c, records s !! i = Some c ∧ still_open (cr_Status c) = true ∧ records s' !! i = Some (moved env Abandoned c).
Proof.
  intros Hf Ha i. apply Abandon_record in Ha as [[_ Hs]|(c & Hc & Hal & Hp)]; [left; by rewrite Hs|].
  apply puts_any in Hp as [Hp|Hp]; rewrite Hp; [|by left].
  destruct (Hf _ _ Hc) as [Hid _]. cbn [cr_ID moved]. destruct (decide (i = id)) as [->|Hne].
  - right. split; [done|]. exists c. split; [done|]. split.
    + unfold still_open. destruct Hal as [->|[->| ->]]; done.
    + change (cr_ID (moved env Abandoned c)) with (cr_ID c). by rewrite Hid, lookup_insert_eq.
  - left. change (cr_ID (moved env Abandoned c)) with (cr_ID c). rewrite Hid, lookup_insert_ne; done.
Qed.

Lemma Abandon_filed id (s : Fl) r s' : filed s → Abandon env id s = (r, s') → filed s'.
Proof.
  intros Hf Ha. apply (flow_op_filed env (OAbandon id) s (match r with Ok _ => Ok tt | Err e => Err e end)); [done|].
  simpl. unfold void, se_bind. rewrite Ha. by destruct r.
Qed.

Lemma abandon_stale_retires keep l : ∀ s : Fl, filed s → let s' := foldl (abandon_stale env keep) s l in
  filed s' ∧ ∀ i, retired_core keep i (records s !! i) (records s' !! i).
Proof.
  induction l as [|cr l IH]; intros s Hf; cbn [foldl]; [split; [done|by left]|].
  assert (Ha : filed (abandon_stale env keep s cr) ∧ ∀ i, retired_core keep i (records s !! i) (records (abandon_stale env keep s cr) !! i)).
  { unfold abandon_stale. destruct ((cr_ID cr ==? keep) || negb (is_core (cr_ID cr))) eqn:Hk; [split; [done|by left]|].
    apply orb_false_iff in Hk as [Hk Hc]. apply bool_decide_eq_false in Hk. apply negb_false_iff in Hc.
    destruct (still_open (cr_Status cr)); [|split; [done|by left]].
    destruct (Abandon env (cr_ID cr) s) as [r s1] eqn:Hab. simpl. split; [by eapply Abandon_filed|].
    intros i. destruct (Abandon_records _ _ _ _ Hf Hab i) as [->|(-> & c & ? & ? & ?)]; [by left|right]. by eauto 6. }
  destruct Ha as [Hf1 Ha]. destruct (IH _ Hf1) as [Hf2 Hb]. split; [done|]. intros i.
  destruct (Hb i) as [->|(Hn & Hc & c & Hs1 & Hu & ->)]; [by apply Ha|].
  destruct (Ha i) as [Hs|(_ & _ & c0 & _ & _ & Hs)]; [rewrite Hs in Hs1; right; by eauto 6|].
  rewrite Hs in Hs1. injection Hs1 as <-. by unfold still_open in Hu.
Qed.

Lemma ListChanges_same (s : Fl) r s' : ListChanges s = (r, s') → s' = s.
Proof. unfold ListChanges. rewrite se_get_bind. unfold se_lift. by intros [= _ <-]. Qed.

Lemma supersede_retires keep (w : Watched W S U) : filed (uw_flow w) → let w' := supersede uc env keep w in
  filed (uw_flow w') ∧ uw_seen w' = uw_seen w ∧ uw_notes w' = uw_notes w ∧
  ∀ i, retired_core keep i (records (uw_flow w) !! i) (records (uw_flow w') !! i).
Proof.
  intros Hf. unfold supersede. destruct (uc_supersede uc); cbn [negb]; [|split_and!; [done..|by left]].
  destruct (ListChanges (uw_flow w)) as [[crs|e] fl] eqn:Hl; apply ListChanges_same in Hl as ->; simpl; [|split_and!; [done..|by left]].
  destruct (abandon_stale_retires keep crs (uw_flow w) Hf) as [Hf' Hr]. by split_and!.
Qed.

(** The steps a change takes on its way to a decision. *)
Definition in_review (s : CRStatus) : Prop := s = Draft ∨ s = Building ∨ s = Changes.Failed ∨ s = Ready.

Definition own_change (id : string) (s s' : Fl) : Prop :=
  (∀ i, i ≠ id → records s' !! i = records s !! i) ∧
  ∀ c, records s !! id = Some c → in_review (cr_Status c) → ∃ c', records s' !! id = Some c' ∧ in_review (cr_Status c').

Lemma own_change_refl id s : own_change id s s.
Proof. split; [done|]. intros c Hc Hr. by exists c. Qed.
Lemma own_change_trans id s1 s2 s3 : own_change id s1 s2 → own_change id s2 s3 → own_change id s1 s3.
Proof.
  intros [Ha Hb] [Hc Hd]. split; [intros i Hi; by rewrite Hc, Ha|].
  intros c Hs Hr. destruct (Hb c Hs Hr) as (c' & Hs' & Hr'). by eapply Hd.
Qed.

Lemma on_record_own {A} id allowed next (s s' : Fl) (r : res ChErr A) : filed s → on_record id allowed next s s' r →
  (∀ c, cr_ID (next c) = cr_ID c) → (∀ c, in_review (cr_Status (next c))) → own_change id s s'.
Proof.
  intros Hf [[_ Hs]|(c & Hc & _ & Hp)] Hid Hn.
  - split; [by rewrite Hs|]. intros c Hc Hr. exists c. by rewrite Hs.
  - destruct (Hf _ _ Hc) as [Hci _]. apply puts_any in Hp as [Hp|Hp]; [|split; [by rewrite Hp|]; intros c' Hc' Hr; exists c'; by rewrite Hp].
    rewrite Hid, Hci in Hp. split; [intros i Hi; by rewrite Hp, lookup_insert_ne|].
    intros c' _ _. exists (next c). rewrite Hp, lookup_insert_eq. by split.
Qed.

Lemma void_of {A} (m : SE Fl ChErr A) s r s' : m s = (r, s') → ∃ r', void m s = (r', s').
Proof. intros Hm. unfold void, se_bind. rewrite Hm. destruct r; eauto. Qed.

Lemma deliver_own bump id (w : Watched W S U) : filed (uw_flow w) → let w' := deliver uc env bump id w in
  filed (uw_flow w') ∧ uw_seen w' = uw_seen w ∧ uw_notes w' = uw_notes w ∧ own_change id (uw_flow w) (uw_flow w').
Proof.
  intros Hf. unfold deliver. destruct (uc_delivery uc); cbn [negb]; [|split_and!; [done..|apply own_change_refl]].
  destruct bump as [[lock rev]|e]; [|split_and!; [done..|apply own_change_refl]].
  set (msg := "core: pin " +:+ _). destruct (EditFile env id "flake.lock" lock msg core_author (uw_flow w)) as [re fl] eqn:He.
  assert (Hfe : filed fl) by by eapply (flow_op_filed env (OEditFile id "flake.lock" lock msg core_author)).
  apply EditFile_record in He. eapply on_record_own in He; [|done|done|by left].
  destruct re as [u|e]; simpl; [|by split_and!].
  destruct (Submit env id fl) as [rs fs] eqn:Hs. simpl. unfold Submit in Hs.
  assert (Hsub : filed fs ∧ own_change id fl fs); [|destruct Hsub; split_and!; try done; by eapply own_change_trans].
  apply se_bind_inv in Hs as [(dh & s1 & Hb & Hk)|(e & Hb & _)].
  - destruct (void_of _ _ _ _ Hb) as (rb & Hbv). pose proof (flow_op_filed env (OBegin id) _ _ _ Hfe Hbv) as Hf1.
    rewrite se_get_bind in Hk. destruct (void_of _ _ _ _ Hk) as (rf & Hkv).
    pose proof (flow_op_filed env (OFinish id _) _ _ _ Hf1 Hkv) as Hf2. split; [done|].
    apply beginSubmit_record in Hb. eapply on_record_own in Hb; [|done|done|by right; left].
    apply finishSubmit_record in Hk. eapply on_record_own in Hk; [by eapply own_change_trans|done| |].
    + intros c. unfold judged. by case_match.
    + intros c. unfold judged, in_review. case_match; simpl; tauto.
  - destruct (void_of _ _ _ _ Hb) as (rb & Hbv). split; [by eapply (flow_op_filed env (OBegin id))|].
    apply beginSubmit_record in Hb. by eapply on_record_own in Hb; [|done|done|by right; left].
Qed.

Lemma announce_core_flow head (w : Watched W S U) r w' : announce_core uc head w = (r, w') → uw_flow w' = uw_flow w ∧ uw_seen w' = uw_seen w.
Proof. unfold announce_core. destruct (uc_notifier uc), (uc_audience uc); by intros [= _ <-]. Qed.

Lemma record_head_flow head (w : Watched W S U) r w' : record_head head w = (r, w') → uw_flow w' = uw_flow w.
Proof. unfold record_head. destruct (PutUpstream _ _). by intros [= _ <-]. Qed.

Lemma Open_ok id title a (s : Fl) cr s' : OpenChange env id title a s = (Ok cr, s') →
  records s !! id = None ∧ records s' = <[id := cr]> (records s) ∧ cr_Status cr = Draft.
Proof.
  unfold OpenChange. destruct (NewCR id title _ _ _) as [c|e] eqn:Hn; [|done].
  destruct (NewCR_Ok _ _ _ _ _ _ Hn) as (Hid & _ & Hd & _). rewrite se_get_bind.
  destruct (st_Get id (fl_store s)) as [[c0|]|e] eqn:Hg; [done| |done]. apply st_get_law in Hg.
  intros [(u & s1 & Hb & Hk)|(e & Hb & [=])]%se_bind_inv. apply on_world_records in Hb.
  destruct (st_put StoreE c s1) as [[[]|e] s2] eqn:Hp.
  - injection Hk as -> ->. apply st_put_inv in Hp as (_ & _ & [Hp|[[]%(λ h, h eq_refl) _]]). rewrite Hid, Hb in Hp. done.
  - destruct e; try discriminate Hk. destruct (on_world _ _ _) as [[u2|[]] s3]; discriminate Hk.
Qed.

(** What a check may leave of the record of one change. *)
Definition prepared (fi : Upstream) (id : string) (o o' : option CR) : Prop :=
  o' = o ∨
  (is_core id = true ∧ ∃ c, o = Some c ∧ still_open (cr_Status c) = true ∧ o' = Some (moved env Abandoned c)) ∨
  (∃ head c, fi_head fi = Ok head ∧ id = core_id head ∧ o = None ∧ o' = Some c ∧ in_review (cr_Status c)).

Lemma retired_prepared fi head id o o' : fi_head fi = Ok head → retired_core (core_id head) id o o' → prepared fi id o o'.
Proof. intros _ [?|(_ & ? & ?)]; [by left|by right; left]. Qed.

Lemma open_prepares fi head (s0 s s1 s2 : Fl) r : fi_head fi = Ok head →
  (∀ i, retired_core (core_id head) i (records s0 !! i) (records s !! i)) →
  OpenChange env (core_id head) (core_title head) core_author s = (r, s1) → own_change (core_id head) s1 s2 →
  (is_ok r = false → s2 = s1) → ∀ i, prepared fi i (records s0 !! i) (records s2 !! i).
Proof.
  intros Hh Hr Ho [Hother Hown] He i. pose proof (Open_record _ _ _ _ _ _ _ Ho) as Hrec.
  destruct (decide (i = core_id head)) as [->|Hne].
  - assert (Hs0 : records s !! core_id head = records s0 !! core_id head) by (by destruct (Hr (core_id head)) as [?|(? & _)]).
    destruct Hrec as [Hs|(c & Hn & Hno & Hs)].
    + destruct r as [cr|e]; [|left; rewrite (He eq_refl), Hs; done].
      destruct (Open_ok _ _ _ _ _ _ Ho) as (Hno & Hins & Hd). rewrite Hs in Hins.
      rewrite Hins, lookup_insert_eq in Hno. done.
    + right. right. apply NewCR_Ok in Hn as (_ & _ & Hd & _).
      destruct (Hown c) as (c' & Hc' & Hr'); [by rewrite Hs, lookup_insert_eq|by left|].
      exists head, c'. by rewrite <- Hs0.
  - rewrite (Hother i Hne). assert (Hs1 : records s1 !! i = records s !! i).
    { destruct Hrec as [Hs|(c & _ & _ & Hs)]; rewrite Hs; [done|]. by rewrite lookup_insert_ne. }
    rewrite Hs1. by eapply retired_prepared.
Qed.

(** C15: A check of the watcher only prepares. Whatever the forge, the runner, the
    store, git and the gate answer, it merges nothing, it creates no change but the
    one of the new head, which is left in review, it abandons no change but an
    still_open one that carries the prefix of core updates, and every other change is
    left word for word; without a new head it changes nothing at all. *)
Theorem watcher_only_prepares fi (w w' : Watched W S U) r : filed (uw_flow w) → CheckOnce uc env fi w = (r, w') →
  filed (uw_flow w') ∧
  ((∀ head, fi_head fi = Ok head → LastUpstream (uw_seen w) = Ok head) → w' = w) ∧
  ∀ id, prepared fi id (records (uw_flow w) !! id) (records (uw_flow w') !! id).
Proof.
  intros Hf Hc. unfold CheckOnce in Hc. destruct (fi_head fi) as [head|e] eqn:Hh.
  2: { injection Hc as _ <-. split_and!; [done..|by left]. }
  destruct (head ==? "") eqn:He0; [injection Hc as _ <-; split_and!; [done..|by left]|].
  destruct (LastUpstream (uw_seen w)) as [last|e] eqn:Hl; [|injection Hc as _ <-; split_and!; [done..|by left]].
  destruct (bool_decide_reflect (head = last)) as [->|Hne]; [injection Hc as _ <-; split_and!; [done..|by left]|].
  assert (Hnew : (∀ h, Ok (E := string) head = Ok h → Ok (E := string) last = Ok h) → w' = w)
    by (intros Hx; specialize (Hx head eq_refl); by injection Hx).
  destruct (last ==? "").
  { apply record_head_flow in Hc. rewrite Hc. split_and!; [done..|by left]. }
  destruct (supersede_retires (core_id head) w Hf) as (Hfs & _ & _ & Hsr).
  cbv zeta in Hc. destruct (OpenChange env _ _ _ _) as [ro fl] eqn:Ho in Hc.
  assert (Hfo : filed fl) by (destruct (void_of _ _ _ _ Ho) as (rv & Hov);
    by eapply (flow_op_filed env (OOpen (core_id head) (core_title head) core_author))).
  assert (Hend : ∀ fs, filed fs → own_change (core_id head) fl fs → (is_ok ro = false → fs = fl) → uw_flow w' = fs →
    filed (uw_flow w') ∧ ((∀ h, Ok (E := string) head = Ok h → Ok (E := string) last = Ok h) → w' = w) ∧
    ∀ id, prepared fi id (records (uw_flow w) !! id) (records (uw_flow w') !! id)).
  { intros fs Hfs' Hown He ->. split_and!; [done..|]. by eapply open_prepares. }
  destruct ro as [cr|e].
  - destruct (deliver_own (fi_bump fi) (core_id head) (with_flow (supersede uc env (core_id head) w) fl) Hfo) as (Hfd & _ & _ & Hod).
    destruct (announce_core uc head _) as [[u|e] w2] eqn:Ha; apply announce_core_flow in Ha as [Ha _].
    + apply record_head_flow in Hc. apply (Hend _ Hfd Hod); [done|]. by rewrite Hc, Ha.
    + injection Hc as _ <-. apply (Hend _ Hfd Hod); [done|]. by rewrite Ha.
  - apply record_head_flow in Hc. apply (Hend fl Hfo (own_change_refl _ _)); [done|by rewrite Hc].
Qed.

(** ** The queue of core updates *)

Context (get_answers : ∀ id (st : S), is_ok (st_Get id st) = true) (put_answers : ∀ c (st : S), is_ok (fst (st_Put c st)) = true)
  (list_answers : ∀ st : S, is_ok (st_List st) = true).

Definition settled (i : string) (s : Fl) : Prop := ∀ c, records s !! i = Some c → still_open (cr_Status c) = false.

Lemma retired_settled keep i (s s' : Fl) : retired_core keep i (records s !! i) (records s' !! i) → settled i s → settled i s'.
Proof.
  intros [Hr|(_ & _ & c & _ & _ & Hr)] Hs c' Hc'; [rewrite Hr in Hc'; by apply Hs|].
  rewrite Hr in Hc'. by injection Hc' as <-.
Qed.

Lemma best_effort_ok (m : SE W string unit) (s : Fl) : fst (best_effort m s) = Ok tt.
Proof. unfold best_effort, on_world. by destruct (m (world s)). Qed.

Lemma cleanup_answers cr (s : Fl) : fst (cleanup cr s) = Ok tt.
Proof.
  unfold cleanup. rewrite se_get_bind. pose proof (λ m s, best_effort_ok m s) as Hb.
  set (m := if StatDir (worktreeDir (cr_ID cr)) (world s) then best_effort (RemoveWorktree (worktreeDir (cr_ID cr))) else se_ret tt).
  assert (Hrm : fst (m s) = Ok tt) by (subst m; destruct (StatDir _ _); [apply Hb|done]). clearbody m.
  unfold se_bind. destruct (m s) as [r1 s1]. simpl in Hrm. subst r1.
  pose proof (Hb (DeleteBranch (Branch cr)) s1) as Hd. destruct (best_effort _ s1) as [r2 s2]. simpl in Hd. subst r2.
  destruct Publisher as [[f g]|]; [apply Hb|done].
Qed.

Lemma Abandon_settles id (s : Fl) : filed s → ValidID id = None → settled id (snd (Abandon env id s)).
Proof.
  intros Hf Hv. destruct (records s !! id) as [c|] eqn:Hc.
  2: { destruct (Abandon env id s) as [r s'] eqn:Ha. intros c' Hc'.
       destruct (Abandon_records _ _ _ _ Hf Ha id) as [Hs|(_ & c & Hx & _)]; simpl in Hc'; congruence. }
  destruct (still_open (cr_Status c)) eqn:Hu.
  2: { destruct (Abandon env id s) as [r s'] eqn:Ha. intros c' Hc'. simpl in Hc'.
       destruct (Abandon_records _ _ _ _ Hf Ha id) as [Hs|(_ & c0 & Hx & Hu0 & _)]; congruence. }
  assert (Hg : mustGet id s = (Ok c, s)).
  { unfold mustGet, cr_check. rewrite Hv. specialize (get_answers id (fl_store s)). unfold se_bind, se_get, se_ret.
    destruct (st_Get id (fl_store s)) as [o|e] eqn:Hg; [|done]. apply st_get_law in Hg. rewrite Hc in Hg. by subst o. }
  assert (Ht : Transition Abandoned (ce_now env) c = Ok (moved env Abandoned c))
    by (unfold Transition, CanTransition; destruct (cr_Status c); done).
  unfold Abandon. unfold se_bind at 1. rewrite Hg, Ht. unfold se_lift, lift_err, se_bind at 1. unfold se_bind at 1.
  pose proof (cleanup_answers (moved env Abandoned c) s) as Hcl. destruct (cleanup (moved env Abandoned c) s) as [rc s1] eqn:Hcs. simpl in Hcl. subst rc.
  unfold se_bind, st_put. specialize (put_answers (moved env Abandoned c) (fl_store s1)).
  destruct (st_Put _ (fl_store s1)) as [[[]|e] st] eqn:Hp; [|done]. simpl.
  apply st_put_law in Hp as [Hp|[Hp _]]; [|done]. intros c' Hc'. simpl in Hc'. rewrite Hp in Hc'.
  destruct (Hf _ _ Hc) as [Hid _]. change (cr_ID (moved env Abandoned c)) with (cr_ID c) in Hc'. rewrite Hid, lookup_insert_eq in Hc'.
  by injection Hc' as <-.
Qed.

Lemma abandon_stale_settles keep l : ∀ s : Fl, filed s →
  (∀ cr, cr ∈ l → ValidID (cr_ID cr) = None ∧ (settled (cr_ID cr) s ∨ records s !! cr_ID cr = Some cr)) →
  ∀ cr, cr ∈ l → is_core (cr_ID cr) = true → cr_ID cr ≠ keep → settled (cr_ID cr) (foldl (abandon_stale env keep) s l).
Proof.
  induction l as [|cr l IH]; intros s Hf Hl cr' Hin Hcore Hne; [by apply elem_of_nil in Hin|]. cbn [foldl].
  set (s1 := abandon_stale env keep s cr).
  pose proof (abandon_stale_retires keep [cr] s Hf) as Hone. cbn [foldl] in Hone. destruct Hone as [Hf1 Hr1].
  destruct (abandon_stale_retires keep l s1 Hf1) as [_ Hr2].
  assert (Hhead : is_core (cr_ID cr) = true → cr_ID cr ≠ keep → settled (cr_ID cr) s1).
  { intros Hco Hn. destruct (Hl cr ltac:(by left)) as [Hv Hs]. subst s1. unfold abandon_stale.
    rewrite bool_decide_eq_false_2 by done. rewrite Hco. cbn [negb orb].
    destruct (still_open (cr_Status cr)) eqn:Hu; [by apply Abandon_settles|].
    destruct Hs as [Hs|Hs]; [done|]. intros c Hc. rewrite Hs in Hc. by injection Hc as <-. }
  destruct (decide (cr_ID cr' = cr_ID cr)) as [Heq|Hdiff].
  - rewrite Heq in *. eapply retired_settled; [apply Hr2|]. by apply Hhead.
  - apply elem_of_cons in Hin as [->|Hin]; [done|]. apply (IH s1); [done| |done..].
    intros c Hc. destruct (Hl c ltac:(by right)) as [Hv [Hs|Hs]]; (split; [done|]).
    + left. by eapply retired_settled.
    + destruct (Hr1 (cr_ID c)) as [Hx|(_ & _ & c0 & _ & _ & Hx)]; [right; by rewrite <- Hs|].
      left. intros c' Hc'. fold s1 in Hx. rewrite Hx in Hc'. by injection Hc' as <-.
Qed.

(** When the store answers, a check with a new head leaves no other core update to
    be decided. *)
Theorem queue_has_one_update fi head last (w w' : Watched W S U) r : filed (uw_flow w) → uc_supersede uc = true →
  (∀ id c, records (uw_flow w) !! id = Some c → ValidID id = None) →
  fi_head fi = Ok head → LastUpstream (uw_seen w) = Ok last → head ≠ "" → last ≠ "" → head ≠ last →
  CheckOnce uc env fi w = (r, w') →
  ∀ id c, records (uw_flow w') !! id = Some c → is_core id = true → id ≠ core_id head → still_open (cr_Status c) = false.
Proof.
  intros Hf Hsup Hvalid Hh Hl Hn0 Hn1 Hne Hc id c Hid Hcore Hk.
  unfold CheckOnce in Hc. rewrite Hh, Hl in Hc. rewrite !bool_decide_eq_false_2 in Hc by done. cbv zeta in Hc.
  assert (Hset : settled id (uw_flow (supersede uc env (core_id head) w))).
  { unfold supersede. rewrite Hsup. cbn [negb]. unfold ListChanges. rewrite se_get_bind. unfold se_lift.
    specialize (list_answers (fl_store (uw_flow w))). destruct (st_List (fl_store (uw_flow w))) as [l|e] eqn:Hls; [|done]. simpl.
    apply st_list_law in Hls as (_ & Hin & Hall).
    destruct (records (uw_flow w) !! id) as [c0|] eqn:Hc0.
    - destruct (Hf _ _ Hc0) as [Hid0 _]. rewrite <- Hid0.
      apply (abandon_stale_settles (core_id head) l (uw_flow w)); [done| |by apply (Hall id c0)|by rewrite Hid0|by rewrite Hid0].
      intros cr Hcr. split; [by eapply Hvalid, Hin|right; by apply Hin].
    - destruct (abandon_stale_retires (core_id head) l (uw_flow w) Hf) as [_ Hr]. intros c1 Hc1.
      destruct (Hr id) as [Hx|(_ & _ & c2 & Hx & _)]; congruence. }
  destruct (supersede_retires (core_id head) w Hf) as (Hfs & _).
  destruct (OpenChange env _ _ _ _) as [ro fl] eqn:Ho in Hc.
  assert (Hfo : filed fl) by (destruct (void_of _ _ _ _ Ho) as (rv & Hov);
    by eapply (flow_op_filed env (OOpen (core_id head) (core_title head) core_author))).
  assert (Hopen : records fl !! id = records (uw_flow (supersede uc env (core_id head) w)) !! id).
  { apply Open_record in Ho as [Hs|(cn & _ & _ & Hs)]; rewrite Hs; [done|]. by rewrite lookup_insert_ne. }
  apply Hset. rewrite <- Hopen, <- Hid. symmetry. destruct ro as [cr|e].
  - destruct (deliver_own (fi_bump fi) (core_id head) (with_flow (supersede uc env (core_id head) w) fl) Hfo) as (_ & _ & _ & [Hod _]).
    destruct (announce_core uc head _) as [[u|e] w2] eqn:Ha; apply announce_core_flow in Ha as [Ha _].
    + apply record_head_flow in Hc. rewrite Hc, Ha. by apply Hod.
    + injection Hc as _ <-. rewrite Ha. by apply Hod.
  - apply record_head_flow in Hc. by rewrite Hc.
Qed.
End proofs.

(** * Concrete checks *)

#[local] Existing Instances demo_go_json demo_print demo_codec demo_parsers.

#[export] Instance seen_store : UpstreamStore string := {| LastUpstream u := Ok u; PutUpstream rev _ := (Ok tt, rev) |}.
#[export] Instance seen_laws : UpstreamLaws string.
Proof. by intros rev u u' [= <-]. Qed.

Definition watch (n : NotifierValue) : UpstreamConfig := mkUpstream "https://core" n ["owners"] true true "dawo".
Definition finds (head : string) : Upstream := mkFinds (Ok head) (Ok ("lock", head)).

(** The records of the changes and the recorded head after some checks. *)
Definition checks (n : NotifierValue) (heads : list string) (w : Watched Rep Shelf string) : Watched Rep Shelf string :=
  snd (RunTicks (watch n) ((λ h, (ch_env, finds h)) <$> heads) w).
Definition status_in (id : string) (w : Watched Rep Shelf string) : option CRStatus :=
  cr_Status <$> sh_map (fl_store (uw_flow w)) !! id.

(** The head was seen once; Alice has a draft whose identifier begins as those of
    core updates do. *)
Definition with_draft (fails : list bool) : Watched Rep Shelf string :=
  mkWatched (snd (OpenChange ch_env "core-printers" "Printers" alice (console [] fails))) "0ld" [].

Lemma filed_with_draft fails : filed (uw_flow (with_draft fails)).
Proof.
  unfold with_draft. cbn [uw_flow]. destruct (OpenChange ch_env "core-printers" "Printers" alice (console [] fails)) as [r s] eqn:Ho.
  destruct (void_of _ _ _ _ Ho) as (rv & Hv).
  by eapply (flow_op_filed ch_env (OOpen "core-printers" "Printers" alice)); [apply filed_console|].
Qed.

Lemma watcher_only_prepares_witness :
  let w' := snd (CheckOnce (watch LiveNotifier) ch_env (finds "0123456789abcdef") (with_draft [])) in
  filed (uw_flow w') ∧ prepared ch_env (finds "0123456789abcdef") "core-0123456789ab" None (sh_map (fl_store (uw_flow w')) !! "core-0123456789ab")
  ∧ status_in "core-0123456789ab" w' = Some Ready ∧ length (uw_notes w') = 1%nat.
Proof.
  intros w'.
  assert (Hs : status_in "core-0123456789ab" w' = Some Ready ∧ length (uw_notes w') = 1%nat) by (split; vm_compute; reflexivity).
  pose proof (surjective_pairing (CheckOnce (watch LiveNotifier) ch_env (finds "0123456789abcdef") (with_draft []))) as Hc.
  destruct (watcher_only_prepares (watch LiveNotifier) ch_env (finds "0123456789abcdef") _ _ _ (filed_with_draft []) Hc) as (Hf & _ & Hp).
  split; [exact Hf|]. split; [exact (Hp "core-0123456789ab")|exact Hs].
Defined.

(** A person's change whose identifier begins with the prefix is abandoned with the
    core updates: the comment says that only what the watcher mints is touched. *)
Theorem human_change_abandoned :
  cr_Author <$> sh_map (fl_store (uw_flow (with_draft []))) !! "core-printers" = Some "Alice" ∧
  status_in "core-printers" (with_draft []) = Some Draft ∧
  status_in "core-printers" (checks LiveNotifier ["n3w"] (with_draft [])) = Some Abandoned.
Proof. split_and!; vm_compute; reflexivity. Qed.

(** The store refuses the record of the new change once: the head is recorded all
    the same, the older update is gone, and no later check stages anything. *)
Theorem failed_open_is_forgotten :
  let w := checks LiveNotifier ["n3w"; "n3w"; "n3w"] (with_draft [false; false; true]) in
  uw_seen w = "n3w" ∧ status_in "core-n3w" w = None ∧ status_in "core-printers" w = Some Abandoned.
Proof. split_and!; vm_compute; reflexivity. Qed.

(** Without a database the notifier is a null pointer in an interface: the check
    that stages an update ends the process. *)
Theorem null_notifier_panics :
  fst (CheckOnce (watch NullNotifier) ch_env (finds "n3w") (with_draft [])) = Err ProcessPanics ∧
  fst (RunTicks (watch NullNotifier) [(ch_env, finds "n3w"); (ch_env, finds "n3w")] (with_draft [])) = [].
Proof. split; vm_compute; reflexivity. Qed.

(** When the upstream goes back to an earlier head, its change exists, abandoned:
    nothing is left to review and nothing is staged again. *)
Theorem returning_head_is_not_staged :
  let w := checks LiveNotifier ["aaa"; "bbb"; "aaa"; "aaa"] (with_draft []) in
  uw_seen w = "aaa" ∧ status_in "core-aaa" w = Some Abandoned ∧ status_in "core-bbb" w = Some Abandoned.
Proof. split_and!; vm_compute; reflexivity. Qed.
