(* ===== verification/Directory.v ===== *)
(** * The group directory (src/internal/adapters/ldap, src/internal/app/directory_cache.go)

    The LDAP adapter over a connection that answers, and the cache in front of it
    with its concurrent callers. The LDAP library (filter syntax, escaping, the
    connection) is a parameter. *)

From S2P Require Import Prelude GoLib FleetModel Groups Text.

Record DirectoryGroup := mkDirGroup { dg_ID : string; dg_Name : string }.

(** ** The adapter (ldap.go) *)

Record LdapConfig := mkLdap {
  ld_URL : string; ld_BindDN : string; ld_BindPassword : string; ld_BaseDN : string; ld_GroupFilter : string; ld_NameAttr : string
}.
#[export] Instance LdapConfig_eta : Eta LdapConfig := λ c,
  mkLdap (ld_URL c) (ld_BindDN c) (ld_BindPassword c) (ld_BaseDN c) (ld_GroupFilter c) (ld_NameAttr c).

Inductive LdapErr := LdapNeedsURL | UnauthenticatedBind (dn : string) | BadNameAttr (a : string) | BadGroupFilter (f : string).

(** [attrNameRe], [^[A-Za-z][A-Za-z0-9-]*$]. *)
Definition attr_letter (a : ascii) : bool := is_upper a || is_lower a.
Definition attr_char (a : ascii) : bool := attr_letter a || is_digit a || Ascii.eqb a "-".
Definition attrNameRe (s : string) : bool :=
  match s with String a r => attr_letter a && string_forall attr_char r | EmptyString => false end.

(** An entry: its name and the first value of an attribute. *)
Record LdapEntry := mkEntry { en_DN : string; en_value : string → string }.

(** How the server answers one listing; a dial that runs out of time is told from
    one that is refused. *)
Inductive DialAnswer := Dialled | DialRefused | DialTimedOut.
Inductive SearchAnswer := SearchFound (l : list LdapEntry) | SizeLimit (l : option (list LdapEntry)) | SearchError.
Record LdapServer := mkServer { sv_dial : DialAnswer; sv_bind : bool; sv_search : string → SearchAnswer }.

(** The errors of a listing: which one, and whether [errors.Is] finds a cancelled or
    expired context in it. The time-out of a dial says so of itself. *)
Inductive DirErr := DialFailed (timeout : bool) | BindFailed | SearchFailed | ContextEnded.
Definition is_ctx (e : DirErr) : bool := match e with DialFailed t => t | ContextEnded => true | _ => false end.

Section ldap.
  (** The library: whether a filter is one, and the escaping of a value. *)
  Context (CompileFilter : string → bool) (EscapeFilter : string → string).

(** [New]. *)
Definition NewDirectory (c : LdapConfig) : res LdapErr LdapConfig :=
  if (ld_URL c ==? "") || (ld_BaseDN c ==? "") then Err LdapNeedsURL
  else if (ld_BindDN c !=? "") && (ld_BindPassword c ==? "") then Err (UnauthenticatedBind (ld_BindDN c))
  else
    let c := if ld_GroupFilter c ==? "" then c <| ld_GroupFilter := "(objectClass=groupOfNames)" |> else c in
    let c := if ld_NameAttr c ==? "" then c <| ld_NameAttr := "cn" |> else c in
    if negb (attrNameRe (ld_NameAttr c)) then Err (BadNameAttr (ld_NameAttr c))
    else if negb (CompileFilter (ld_GroupFilter c)) then Err (BadGroupFilter (ld_GroupFilter c))
    else Ok c.

Definition searchFilter (groupFilter nameAttr query : string) : string :=
  if query ==? "" then groupFilter
  else "(&" +:+ groupFilter +:+ "(" +:+ nameAttr +:+ "=*" +:+ EscapeFilter query +:+ "*))".

Definition mapGroups (entries : list LdapEntry) (nameAttr : string) : list DirectoryGroup :=
  omap (λ e, if en_value e nameAttr ==? "" then None else Some (mkDirGroup (en_DN e) (en_value e nameAttr))) entries.

(** [ListGroups] of the adapter. *)
Definition LdapListGroups (c : LdapConfig) (sv : LdapServer) (query : string) : res DirErr (list DirectoryGroup) :=
  match sv_dial sv with
  | DialRefused => Err (DialFailed false)
  | DialTimedOut => Err (DialFailed true)
  | Dialled =>
      if (ld_BindDN c !=? "") && negb (sv_bind sv) then Err BindFailed
      else match sv_search sv (searchFilter (ld_GroupFilter c) (ld_NameAttr c) query) with
           | SearchFound l | SizeLimit (Some l) => Ok (mapGroups l (ld_NameAttr c))
           | SizeLimit None | SearchError => Err SearchFailed
           end
  end.
End ldap.

Definition bindIsCleartext (url bindDN bindPassword : string) : bool :=
  (bindDN !=? "") && (bindPassword !=? "") && negb (has_prefix url "ldaps://").

Definition maxDial : Z := 3 * 1000000000.
(** [dialTimeout], with what the caller's deadline leaves. *)
Definition dialTimeout (remaining : option Z) : Z :=
  match remaining with
  | Some rem => if (0 <? rem) && (rem <? maxDial) then rem else maxDial
  | None => maxDial
  end.

(** ** The cache (directory_cache.go) *)

Definition Outcome : Type := list DirectoryGroup * option DirErr.
Record DirEntry := mkDirEntry { de_out : Outcome; de_at : Time }.
Notation DirCache := (gmap string DirEntry).

Definition fresh_entry (ttl : Z) (q : string) (now : Time) (c : DirCache) : option Outcome :=
  e ← c !! q; if now - de_at e <? ttl then Some (de_out e) else None.
Definition not_ours (out : Outcome) : bool := match out.2 with Some e => is_ctx e | None => false end.
Definition keep_outcome (q : string) (at_ : Time) (out : Outcome) (c : DirCache) : DirCache :=
  if not_ours out then c else <[q := mkDirEntry out at_]> c.

(** [ListGroups] of the cache, when nothing else runs: the answer, whether the
    directory was dialled, the cache. *)
Definition CachedListGroups (ttl : Z) (q : string) (now : Time) (dial : Outcome) (c : DirCache) : Outcome * bool * DirCache :=
  match fresh_entry ttl q now c with
  | Some out => (out, false, c)
  | None => (dial, true, keep_outcome q now dial c)
  end.

(** [refresh]: the clock is read after the dial. *)
Definition refresh (q : string) (ended : Time) (dial : Outcome) (c : DirCache) : DirCache := keep_outcome q ended dial c.
Definition warmInterval (ttl : Z) : Z := if ttl / 2 <=? 0 then 30 * 1000000000 else ttl / 2.

(** The cache and its callers: a call that misses dials outside the lock. *)
Record CacheState := mkCacheState {
  ca_cache : DirCache;
  ca_dialling : list (string * Time);                (* the query and when the call began *)
  ca_dials : list (string * Time * Outcome)          (* the dials that ended: query, the entry's time, outcome *)
}.
Inductive cache_step (ttl : Z) : CacheState → CacheState → Prop :=
  | call_misses q now s : fresh_entry ttl q now (ca_cache s) = None →
      cache_step ttl s (mkCacheState (ca_cache s) ((q, now) :: ca_dialling s) (ca_dials s))
  | dial_ends q began out s : (q, began) ∈ ca_dialling s → ∀ rest, ca_dialling s ≡ₚ (q, began) :: rest →
      cache_step ttl s (mkCacheState (keep_outcome q began out (ca_cache s)) rest ((q, began, out) :: ca_dials s))
  | warmed q ended out s :
      cache_step ttl s (mkCacheState (refresh q ended out (ca_cache s)) (ca_dialling s) ((q, ended, out) :: ca_dials s)).
Definition empty_cache : CacheState := mkCacheState ∅ [] [].

(** ** What the adapter asks *)

(** Parentheses, read from the left: how deep, or nothing when one too many closes. *)
Fixpoint depth (d : nat) (s : string) : option nat :=
  match s with
  | EmptyString => Some d
  | String a s => if Ascii.eqb a "(" then depth (S d) s
                  else if Ascii.eqb a ")" then match d with O => None | S d => depth d s end
                  else depth d s
  end.
Definition balanced (s : string) : Prop := ∀ d, depth d s = Some d.
Definition flat_char (a : ascii) : bool := negb (Ascii.eqb a "(") && negb (Ascii.eqb a ")").

Lemma depth_app s t : ∀ d, depth d (s +:+ t) = d' ← depth d s; depth d' t.
Proof.
  induction s as [|a s IH]; intros d; [done|]. cbn [depth]. change (String a s +:+ t) with (String a (s +:+ t)). cbn [depth].
  destruct (Ascii.eqb a "("); [apply IH|]. destruct (Ascii.eqb a ")"); [|apply IH]. destruct d; [done|apply IH].
Qed.

Lemma flat_balanced s : string_forall flat_char s = true → balanced s.
Proof.
  intros Hs d. revert Hs. induction s as [|a s IH]; [done|]. cbn [string_forall depth]. intros [Ha Hs]%andb_true_iff.
  unfold flat_char in Ha. apply andb_true_iff in Ha as [H1%negb_true_iff H2%negb_true_iff]. rewrite H1, H2. by apply IH.
Qed.

(** A text typed into the picker stays a value: between the operator's filter and
    the closing of the expression it can neither open nor close anything, when the
    escaping leaves no parenthesis. *)
Lemma query_stays_a_value esc gf attr q : balanced gf → attrNameRe attr = true →
  (∀ s, string_forall flat_char (esc s) = true) → balanced (searchFilter esc gf attr q).
Proof.
  intros Hgf Ha He. unfold searchFilter. destruct (q ==? ""); [done|]. intros d.
  assert (Hattr : balanced attr).
  { apply flat_balanced. destruct attr as [|a r]; [done|]. cbn [attrNameRe] in Ha. apply andb_true_iff in Ha as [Ha Hr].
    assert (Himp : ∀ b, attr_char b = true → flat_char b = true) by (apply implb_bytes; by vm_compute).
    cbn [string_forall]. apply andb_true_iff. split; [apply Himp; unfold attr_char; by rewrite Ha|].
    by eapply string_forall_impl. }
  pose proof (flat_balanced _ (He q)) as Hesc. unfold balanced in *.
  rewrite depth_app. change (depth d "(&") with (Some (S d)). cbn [mbind option_bind].
  rewrite depth_app, Hgf. cbn [mbind option_bind]. rewrite depth_app. change (depth (S d) "(") with (Some (S (S d))). cbn [mbind option_bind].
  rewrite depth_app, Hattr. cbn [mbind option_bind]. rewrite depth_app. change (depth (S (S d)) "=*") with (Some (S (S d))). cbn [mbind option_bind].
  rewrite depth_app, Hesc. done.
Qed.

(** ** What the cache promises *)

(** Everything in the cache is the outcome of a dial of that query. *)
Lemma cached_was_dialled ttl s : rtc (cache_step ttl) empty_cache s →
  ∀ q e, ca_cache s !! q = Some e → (q, de_at e, de_out e) ∈ ca_dials s ∧ not_ours (de_out e) = false.
Proof.
  assert (Hkeep : ∀ q at_ out c q' e, keep_outcome q at_ out c !! q' = Some e →
            (q' = q ∧ e = mkDirEntry out at_ ∧ not_ours out = false) ∨ c !! q' = Some e).
  { intros q at_ out c q' e. unfold keep_outcome. destruct (not_ours out) eqn:Ho; [by right|].
    intros [[-> <-]|[_ ?]]%lookup_insert_Some; [by left|by right]. }
  revert s. apply (rtc_ind_r (λ s, ∀ q e, ca_cache s !! q = Some e → (q, de_at e, de_out e) ∈ ca_dials s ∧ not_ours (de_out e) = false)).
  { intros q e. simpl. by rewrite lookup_empty. }
  intros s1 s2 _ Hs IH q e.
  destruct Hs as [q0 now s Hm|q0 began out s Hin rest Hp|q0 ended out s]; simpl; [apply IH|..];
    (intros [(-> & -> & Ho)|Hc]%Hkeep; [split; [by left|done]|]; destruct (IH _ _ Hc); split; [by right|done]).
Qed.

(** Whatever the callers and the warmer do at once, an answer from the cache is what
    the directory said, of this query, less than the time to live before: no error of
    a caller's own context is ever served to another. *)
Theorem cached_answer_is_recent ttl s q now out : rtc (cache_step ttl) empty_cache s →
  fresh_entry ttl q now (ca_cache s) = Some out →
  not_ours out = false ∧ ∃ at_, (q, at_, out) ∈ ca_dials s ∧ now - at_ < ttl.
Proof.
  intros Hs Hf. unfold fresh_entry in Hf. destruct (ca_cache s !! q) as [e|] eqn:He; [|done]. simpl in Hf.
  destruct (now - de_at e <? ttl) eqn:Hn; [|done]. injection Hf as <-. apply Z.ltb_lt in Hn.
  destruct (cached_was_dialled ttl s Hs q e He) as [Hin Ho]. split; [done|]. by exists (de_at e).
Qed.

(** Calls of one query one after another: the times at which the directory was
    dialled. *)
Fixpoint dial_times (ttl : Z) (q : string) (calls : list (Time * Outcome)) (c : DirCache) : list Time :=
  match calls with
  | [] => []
  | (now, dial) :: calls =>
      let '(_, dialled, c) := CachedListGroups ttl q now dial c in
      (if dialled then [now] else []) ++ dial_times ttl q calls c
  end.

Definition spaced (ttl : Z) : list Time → Prop := StronglySorted (λ t t', t + ttl <= t').

Lemma dial_times_after ttl q calls : ∀ c e, c !! q = Some e → Forall (λ x, not_ours x.2 = false) calls →
  0 < ttl → Forall (λ t, de_at e + ttl <= t) (dial_times ttl q calls c) ∧ spaced ttl (dial_times ttl q calls c).
Proof.
  induction calls as [|[now dial] calls IH]; intros c e Hc Hf Ht; simpl; [split; [constructor|constructor]|].
  apply Forall_cons in Hf as [Ho Hf]. unfold CachedListGroups, fresh_entry. rewrite Hc. simpl.
  destruct (now - de_at e <? ttl) eqn:Hn; simpl; [by apply IH|]. apply Z.ltb_ge in Hn.
  unfold keep_outcome. simpl in Ho. rewrite Ho.
  destruct (IH (<[q := mkDirEntry dial now]> c) (mkDirEntry dial now)) as [H1 H2]; [by rewrite lookup_insert_eq|done|done|]. simpl in H1.
  split; [|by constructor]. constructor; [lia|]. eapply Forall_impl; [exact H1|]. simpl. lia.
Qed.

(** As long as the errors are the directory's own, one caller at a time dials it at
    most once in a time to live. *)
Theorem dialled_once_per_ttl ttl q calls : 0 < ttl → Forall (λ x, not_ours x.2 = false) calls → spaced ttl (dial_times ttl q calls ∅).
Proof.
  intros Ht Hf. destruct calls as [|[now dial] calls]; simpl; [constructor|]. apply Forall_cons in Hf as [Ho Hf]. simpl in Ho.
  unfold CachedListGroups, fresh_entry. rewrite lookup_empty. simpl. unfold keep_outcome. rewrite Ho.
  destruct (dial_times_after ttl q calls (<[q := mkDirEntry dial now]> ∅) (mkDirEntry dial now)) as [H1 H2]; [by rewrite lookup_insert_eq|done|done|].
  by constructor.
Qed.

(** ** What it does not *)

Definition unreachable : LdapServer := mkServer DialTimedOut true (λ _, SearchError).
Definition outcome (r : res DirErr (list DirectoryGroup)) : Outcome := match r with Ok l => (l, None) | Err e => ([], Some e) end.

(** A directory that does not answer makes the dial time out, and the cache takes
    that for the caller's own deadline: every call dials again and waits. *)
Theorem unreachable_is_dialled_every_time ttl q esc c calls :
  dial_times ttl q ((λ now, (now, outcome (LdapListGroups esc c unreachable q))) <$> calls) ∅ = calls.
Proof.
  induction calls as [|now calls IH]; [done|]. cbn [fmap list_fmap dial_times].
  unfold CachedListGroups at 1, fresh_entry at 1. rewrite lookup_empty. simpl. f_equal. exact IH.
Qed.

(** Callers that miss at the same time all dial: the lock is not held meanwhile. *)
Theorem concurrent_misses_all_dial ttl q now n : ∃ s, rtc (cache_step ttl) empty_cache s ∧ length (ca_dialling s) = n ∧
  Forall (λ d, d = (q, now)) (ca_dialling s).
Proof.
  exists (mkCacheState ∅ (replicate n (q, now)) []). split; [|split; [apply length_replicate|by apply Forall_replicate]].
  induction n as [|n IH]; [constructor|]. eapply rtc_r; [exact IH|].
  apply (call_misses ttl q now (mkCacheState ∅ (replicate n (q, now)) [])). unfold fresh_entry. simpl. by rewrite lookup_empty.
Qed.
