(* ===== verification/Leader.v ===== *)
(** * Several replicas on one database (src/internal/adapters/postgres/leader.go, migrate.go)

    The election of the replica that runs the committing workers, as a system of
    steps of any number of replicas, and the migrations a starting replica applies.
    PostgreSQL's advisory lock belongs to a session and ends with it. *)

From S2P Require Import Prelude GoLib Text.

(** ** The election (leader.go) *)

(** Where [leadOnce] of a replica stands: outside, waiting for the lock, leading, or
    standing down until [run] returns. *)
Inductive Phase := Outside | Waiting | Leading | StandingDown.
#[export] Instance Phase_eq_dec : EqDecision Phase.
Proof. solve_decision. Defined.

(** A replica: [rp_run], the function [run] has not returned; [rp_ticker], the
    rollout ticker [run] starts beside itself has not stopped; [rp_lost], its session
    is gone and it does not know. *)
Record Replica := mkReplica { rp_phase : Phase; rp_run : bool; rp_ticker : bool; rp_lost : bool }.
#[export] Instance Replica_eta : Eta Replica := λ r, mkReplica (rp_phase r) (rp_run r) (rp_ticker r) (rp_lost r).

(** The replicas, and whose session holds the lock. *)
Record Cluster := mkCluster { cl_replica : nat → Replica; cl_holder : option nat }.

Definition with_replica (i : nat) (r : Replica) (f : nat → Replica) : nat → Replica := λ j, if decide (j = i) then r else f j.

Inductive leader_step : Cluster → Cluster → Prop :=
  (** a connection is acquired and asks for the lock *)
  | lead_asks i c : rp_phase (cl_replica c i) = Outside →
      leader_step c (mkCluster (with_replica i ((cl_replica c i) <| rp_phase := Waiting |>) (cl_replica c)) (cl_holder c))
  (** the lock is granted: [run] and its ticker start *)
  | lead_wins i c : rp_phase (cl_replica c i) = Waiting → rp_lost (cl_replica c i) = false → cl_holder c = None →
      leader_step c (mkCluster (with_replica i (mkReplica Leading true true false) (cl_replica c)) (Some i))
  (** asking fails, also because the context ended *)
  | lead_refused i c : rp_phase (cl_replica c i) = Waiting →
      leader_step c (mkCluster (with_replica i ((cl_replica c i) <| rp_phase := Outside |> <| rp_lost := false |>) (cl_replica c)) (cl_holder c))
  (** the session ends on the server *)
  | session_ends i c : rp_phase (cl_replica c i) ≠ Outside →
      leader_step c (mkCluster (with_replica i ((cl_replica c i) <| rp_lost := true |>) (cl_replica c))
                       (if decide (cl_holder c = Some i) then None else cl_holder c))
  (** the context ends, or a ping fails: the workers are cancelled *)
  | lead_cancels i c : rp_phase (cl_replica c i) = Leading →
      leader_step c (mkCluster (with_replica i ((cl_replica c i) <| rp_phase := StandingDown |>) (cl_replica c)) (cl_holder c))
  (** cancelled workers return *)
  | run_returns i c : rp_phase (cl_replica c i) = StandingDown →
      leader_step c (mkCluster (with_replica i ((cl_replica c i) <| rp_run := false |>) (cl_replica c)) (cl_holder c))
  | ticker_stops i c : rp_phase (cl_replica c i) ≠ Leading →
      leader_step c (mkCluster (with_replica i ((cl_replica c i) <| rp_ticker := false |>) (cl_replica c)) (cl_holder c))
  (** [run] has returned: the lock is released, or its connection closed *)
  | lead_releases i c : rp_phase (cl_replica c i) = StandingDown → rp_run (cl_replica c i) = false →
      leader_step c (mkCluster (with_replica i ((cl_replica c i) <| rp_phase := Outside |> <| rp_lost := false |>) (cl_replica c))
                       (if decide (cl_holder c = Some i) then None else cl_holder c)).

Definition idle_replica : Replica := mkReplica Outside false false false.
Definition starting : Cluster := mkCluster (λ _, idle_replica) None.

Record cluster_ok (c : Cluster) : Prop := {
  ok_holder : ∀ i, cl_holder c = Some i → rp_phase (cl_replica c i) = Leading ∨ rp_phase (cl_replica c i) = StandingDown;
  ok_run : ∀ i, rp_run (cl_replica c i) = true →
    (rp_phase (cl_replica c i) = Leading ∨ rp_phase (cl_replica c i) = StandingDown) ∧ (cl_holder c = Some i ∨ rp_lost (cl_replica c i) = true);
  ok_lost : ∀ i, cl_holder c = Some i → rp_lost (cl_replica c i) = false;
  ok_leads : ∀ i, rp_phase (cl_replica c i) = Leading ∨ rp_phase (cl_replica c i) = StandingDown → rp_lost (cl_replica c i) = false → cl_holder c = Some i
}.

Lemma starting_ok : cluster_ok starting.
Proof. split; simpl; try done. by intros i [?|?]. Qed.

Lemma leader_step_ok c c' : cluster_ok c → leader_step c c' → cluster_ok c'.
Proof.
  intros [H1 H2 H3 H4] Hs.
  destruct Hs as [i c Hp|i c Hp Hl Hh|i c Hp|i c Hp|i c Hp|i c Hp|i c Hp|i c Hp Hr]; split; intros j; simpl; unfold with_replica;
    specialize (H1 j) as H1j; specialize (H2 j) as H2j; specialize (H3 j) as H3j; specialize (H4 j) as H4j;
    repeat case_decide; subst; simpl in *; try naive_solver congruence.
Qed.

(** At most one replica runs the committing workers, as long as no session that
    ends goes unnoticed: the run of a replica whose session lives is the run of the
    one that holds the lock. *)
Theorem one_leader c : rtc leader_step starting c → (∀ i, rp_lost (cl_replica c i) = false) →
  ∀ i j, rp_run (cl_replica c i) = true → rp_run (cl_replica c j) = true → i = j ∧ cl_holder c = Some i.
Proof.
  intros Hr Hl i j Hi Hj. assert (Hok : cluster_ok c).
  { revert Hr. apply (rtc_ind_r (λ c, cluster_ok c) starting); [apply starting_ok|]. intros x y _ Hs IH. by eapply leader_step_ok. }
  destruct (ok_run _ Hok i Hi) as [_ [Hhi|Hx]]; [|by rewrite Hl in Hx].
  destruct (ok_run _ Hok j Hj) as [_ [Hhj|Hx]]; [|by rewrite Hl in Hx]. split; congruence.
Qed.

(** A session that ends is noticed by the next ping: until then, and until the
    workers return, two replicas run them. *)
Theorem two_leaders : ∃ c, rtc leader_step starting c ∧ rp_run (cl_replica c 0) = true ∧ rp_run (cl_replica c 1) = true.
Proof.
  eexists. split; [|split].
  - eapply rtc_l; [apply (lead_asks 0); reflexivity|]. eapply rtc_l; [apply (lead_wins 0); reflexivity|].
    eapply rtc_l; [apply (session_ends 0); discriminate|]. eapply rtc_l; [apply (lead_asks 1); reflexivity|].
    eapply rtc_l; [apply (lead_wins 1); reflexivity|]. apply rtc_refl.
  - reflexivity.
  - reflexivity.
Qed.

(** [run] returns without waiting for the rollout ticker it started: the lock is
    released and the next replica leads while the ticker still works, although no
    session was lost. *)
Theorem ticker_outlives_leadership : ∃ c, rtc leader_step starting c ∧ (∀ i, rp_lost (cl_replica c i) = false) ∧
  rp_ticker (cl_replica c 0) = true ∧ rp_ticker (cl_replica c 1) = true ∧ cl_holder c = Some 1%nat.
Proof.
  eexists. split; [|split; [|split]].
  - eapply rtc_l; [apply (lead_asks 0); reflexivity|]. eapply rtc_l; [apply (lead_wins 0); reflexivity|].
    eapply rtc_l; [apply (lead_cancels 0); reflexivity|]. eapply rtc_l; [apply (run_returns 0); reflexivity|].
    eapply rtc_l; [apply (lead_releases 0); reflexivity|]. eapply rtc_l; [apply (lead_asks 1); reflexivity|].
    eapply rtc_l; [apply (lead_wins 1); reflexivity|]. apply rtc_refl.
  - intros [|[|i]]; reflexivity.
  - reflexivity.
  - split; reflexivity.
Qed.

(** ** Migrations (migrate.go) *)

(** The schema, as the migrations that were executed on it in order, and the table
    that records them. *)
Record Schema := mkSchema { sc_done : list string; sc_table : list string }.

(** What goes wrong with one file: the query, the statement, the insert, or the
    commit, which may have been taken. *)
Inductive MigFault := MQuery | MExec | MInsert | MCommit (taken : bool).

Definition migrated (name : string) (s : Schema) : Schema := mkSchema (sc_done s ++ [name]) (sc_table s ++ [name]).

(** The loop over the files, with the fault each one meets. *)
Fixpoint migrate_files (names : list string) (faults : list (option MigFault)) (s : Schema) : option string * Schema :=
  match names with
  | [] => (None, s)
  | name :: names =>
      let fault := match faults with f :: _ => f | [] => None end in
      match fault with
      | Some MQuery => (Some name, s)
      | _ =>
          if name ∈? sc_table s then migrate_files names (tail faults) s
          else match fault with
               | Some (MCommit true) => (Some name, migrated name s)
               | Some _ => (Some name, s)
               | None => migrate_files names (tail faults) (migrated name s)
               end
      end
  end.

(** [Migrate]: nothing happens before the lock and the table; [None] is success. *)
Definition Migrate (locked : bool) (files : list string) (faults : list (option MigFault)) (s : Schema) : option string * Schema :=
  if negb locked then (Some "", s) else migrate_files (sort_strings files) faults s.

Lemma migrate_files_prefix names : ∀ all faults s r s', NoDup all → sc_table s = sc_done s →
  (∃ before, all = before ++ names ∧ before `prefix_of` sc_done s) → sc_done s `prefix_of` all →
  migrate_files names faults s = (r, s') →
  sc_table s' = sc_done s' ∧ sc_done s `prefix_of` sc_done s' ∧ sc_done s' `prefix_of` all ∧ (r = None → sc_done s' = all).
Proof.
  induction names as [|n names IH]; intros all faults s r s' Hnd Ht (before & Hall & Hb) Hp Hm; simpl in Hm.
  - injection Hm as <- <-. split_and!; try done. intros _. rewrite app_nil_r in Hall. subst all. by apply (anti_symm prefix).
  - assert (Hstay : sc_table s = sc_done s ∧ sc_done s `prefix_of` sc_done s ∧ sc_done s `prefix_of` all) by done.
    destruct Hb as [extra He]. rewrite He in Hp.
    assert (Hcase : (extra = [] ∧ n ∉ sc_table s) ∨ n ∈ sc_table s).
    { subst all. apply prefix_app_inv in Hp. destruct extra as [|x extra]; [left|right].
      - split; [done|]. rewrite Ht, He, app_nil_r. intros Hin. apply NoDup_app in Hnd as (_ & Hd & _). by eapply Hd; [exact Hin|left].
      - apply prefix_cons_inv_1 in Hp as ->. rewrite Ht, He. set_solver. }
    rewrite <- He in Hp.
    assert (Hskip : n ∈ sc_table s → migrate_files names (tail faults) s = (r, s') →
      sc_table s' = sc_done s' ∧ sc_done s `prefix_of` sc_done s' ∧ sc_done s' `prefix_of` all ∧ (r = None → sc_done s' = all)).
    { intros Hin Hr. apply (IH all (tail faults)); try done. exists (before ++ [n]). split; [by rewrite <- (assoc_L (++))|].
      rewrite Ht, He in Hin. rewrite He. apply prefix_app. rewrite He in Hp. subst all. apply prefix_app_inv in Hp.
      destruct extra as [|x extra].
      - rewrite app_nil_r in Hin. apply NoDup_app in Hnd as (_ & Hd & _). exfalso. by eapply Hd; [exact Hin|left].
      - apply prefix_cons_inv_1 in Hp as ->. by exists extra. }
    assert (Hgo : n ∉ sc_table s → extra = [] → 
      sc_table (migrated n s) = sc_done (migrated n s) ∧ sc_done s `prefix_of` sc_done (migrated n s) ∧ sc_done (migrated n s) `prefix_of` all).
    { intros _ ->. simpl. rewrite app_nil_r in He. rewrite Ht, He. split_and!; [done|by eexists|]. subst all. apply prefix_app. by exists names. }
    assert (Hnext : n ∉ sc_table s → extra = [] → migrate_files names (tail faults) (migrated n s) = (r, s') →
      sc_table s' = sc_done s' ∧ sc_done s `prefix_of` sc_done s' ∧ sc_done s' `prefix_of` all ∧ (r = None → sc_done s' = all)).
    { intros Hn Hx Hr. destruct (Hgo Hn Hx) as (? & Hpre & ?).
      destruct (IH all (tail faults) (migrated n s) r s') as (? & ? & ? & ?); try done.
      - exists (before ++ [n]). split; [by rewrite <- (assoc_L (++))|]. simpl. rewrite He, Hx, app_nil_r. done.
      - split_and!; try done. by etrans. }
    destruct faults as [|f faults]; [|destruct f as [[]|]];
      simpl in Hm; try (injection Hm as <- <-; by split_and!);
      destruct (bool_decide_reflect (n ∈ sc_table s)) as [Hin|Hin]; try (by apply Hskip);
      (destruct Hcase as [[Hx _]|?]; [|done]); try (by apply Hnext); try (injection Hm as <- <-; by split_and!).
    destruct taken; injection Hm as <- <-; [|by split_and!]. destruct (Hgo Hin Hx) as (? & ? & ?). by split_and!.
Qed.

Lemma migrate_files_clean l : ∀ s r s', migrate_files l [] s = (r, s') → r = None.
Proof.
  induction l as [|n l IH]; intros s r s'; simpl; [by intros [= <- _]|]. destruct (n ∈? sc_table s); apply IH.
Qed.

(** Any sequence of starts of replicas, each with its faults. *)
Definition migrate_runs (files : list string) (runs : list (bool * list (option MigFault))) (s : Schema) : Schema :=
  foldl (λ s run, snd (Migrate run.1 files run.2 s)) s runs.

(** However many replicas start, one after another under the lock, and whatever
    fails in between, a migration is executed at most once, in the order of the file
    names, with none left out before it, and recorded exactly when it was executed; a
    start that meets no fault brings the schema to the last one. *)
Theorem migrations_once_in_order files runs : NoDup files →
  let s := migrate_runs files runs (mkSchema [] []) in
  sc_table s = sc_done s ∧ NoDup (sc_done s) ∧ sc_done s `prefix_of` sort_strings files ∧
  (∀ r s', Migrate true files [] s = (r, s') → r = None ∧ sc_done s' = sort_strings files).
Proof.
  intros Hnd. assert (Hs : NoDup (sort_strings files)) by (by rewrite sort_strings_perm).
  set (s := migrate_runs files runs (mkSchema [] [])).
  assert (Hinv : sc_table s = sc_done s ∧ sc_done s `prefix_of` sort_strings files).
  { subst s. unfold migrate_runs. assert (H0 : sc_table (mkSchema [] []) = sc_done (mkSchema [] []) ∧ sc_done (mkSchema [] []) `prefix_of` sort_strings files)
      by (split; [done|apply prefix_nil]).
    revert H0. generalize (mkSchema [] []). induction runs as [|[locked faults] runs IH]; intros s0 [Ht Hp]; [done|]. cbn [foldl].
    apply IH. unfold Migrate. destruct locked; cbn [negb fst snd]; [|done].
    destruct (migrate_files (sort_strings files) faults s0) as [r s1] eqn:Hm.
    destruct (migrate_files_prefix _ (sort_strings files) _ _ _ _ Hs Ht ltac:(exists []; split; [done|apply prefix_nil]) Hp Hm) as (? & _ & ? & _).
    done. }
  destruct Hinv as [Ht Hp]. split_and!; [done| |done|].
  { destruct Hp as [rest Hp]. rewrite Hp in Hs. by apply NoDup_app in Hs as [? _]. }
  intros r s' Hm. unfold Migrate in Hm. cbn [negb] in Hm.
  assert (Hr : r = None) by (by eapply migrate_files_clean).
  destruct (migrate_files_prefix _ (sort_strings files) _ _ _ _ Hs Ht ltac:(exists []; split; [done|apply prefix_nil]) Hp Hm) as (_ & _ & _ & Hd).
  split; [done|by apply Hd].
Qed.

Lemma one_leader_witness : ∃ c, rtc leader_step starting c ∧ rp_run (cl_replica c 1) = true ∧ cl_holder c = Some 1%nat.
Proof.
  set (c1 := mkCluster (with_replica 1 (idle_replica <| rp_phase := Waiting |>) (cl_replica starting)) None).
  set (c2 := mkCluster (with_replica 1 (mkReplica Leading true true false) (cl_replica c1)) (Some 1%nat)).
  assert (Hr : rtc leader_step starting c2).
  { eapply rtc_l; [apply (lead_asks 1); reflexivity|]. eapply rtc_l; [apply (lead_wins 1); reflexivity|]. apply rtc_refl. }
  exists c2. split; [exact Hr|]. split; [reflexivity|].
  apply (one_leader c2 Hr (λ i, match i with 0 => eq_refl | 1 => eq_refl | S (S _) => eq_refl end)%nat 1%nat 1%nat eq_refl eq_refl).
Defined.
