(* ===== verification/Config.v ===== *)
(** * The process configuration (src/internal/platform/config)

    Loading of the environment and of the command line, and the checks a start has
    to pass. The command line is parsed as package [flag] does. *)

From S2P Require Import Prelude GoLib FleetModel Groups Text.
From S2P Require GateRunner HostKeys Secretbox.

(** ** The configuration *)

(** The fields by their names: texts, switches, the grace period, the session key and
    the lists. *)
Record Config := mkConfig {
  cf_text : gmap string string; cf_bool : gmap string bool; cf_grace : Z; cf_key : option (list ascii);
  cf_list : gmap string (list string)
}.
#[export] Instance Config_eta : Eta Config := λ c, mkConfig (cf_text c) (cf_bool c) (cf_grace c) (cf_key c) (cf_list c).

Definition text (c : Config) (f : string) : string := default "" (cf_text c !! f).
Definition switch (c : Config) (f : string) : bool := default false (cf_bool c !! f).
Definition items (c : Config) (f : string) : list string := default [] (cf_list c !! f).
Definition set_text (f v : string) (c : Config) : Config := c <| cf_text ::= <[f := v]> |>.
Definition set_switch (f : string) (v : bool) (c : Config) : Config := c <| cf_bool ::= <[f := v]> |>.

Notation Getenv := (string → string).
Definition EnvPrefix : string := "SEXTANT_".
Definition envOr (getenv : Getenv) (key def : string) : string :=
  let v := getenv (EnvPrefix +:+ key) in if v !=? "" then v else def.

(** The texts the environment gives, with their defaults. *)
Definition env_texts : list (string * (string * string)) := [
  ("Addr", ("ADDR", "127.0.0.1:8080")); ("MetricsAddr", ("METRICS_ADDR", "")); ("LogLevel", ("LOG_LEVEL", "info"));
  ("LogFormat", ("LOG_FORMAT", "text")); ("RepoDir", ("REPO", "")); ("GateMode", ("GATE", "eval"));
  ("GateURL", ("GATE_URL", "")); ("GateToken", ("GATE_TOKEN", "")); ("GitRemote", ("GIT_REMOTE", ""));
  ("SecretDir", ("SECRET_DIR", "/run/secrets")); ("OIDCIssuer", ("OIDC_ISSUER", ""));
  ("OIDCClientID", ("OIDC_CLIENT_ID", "")); ("OIDCRedirectURL", ("OIDC_REDIRECT_URL", ""));
  ("OIDCGroupsClaim", ("OIDC_GROUPS_CLAIM", "")); ("LDAPURL", ("LDAP_URL", "")); ("LDAPBindDN", ("LDAP_BIND_DN", ""));
  ("LDAPBaseDN", ("LDAP_BASE_DN", "")); ("LDAPGroupFilter", ("LDAP_GROUP_FILTER", ""));
  ("LDAPNameAttr", ("LDAP_NAME_ATTR", "")); ("DefaultLocale", ("DEFAULT_LOCALE", "en"));
  ("DefaultTimezone", ("DEFAULT_TIMEZONE", "UTC")); ("OrgName", ("ORG_NAME", "")); ("UpstreamRepo", ("UPSTREAM_REPO", ""));
  ("ConsoleURL", ("CONSOLE_URL", ""))].
(** The secrets the code marks as coming from the environment only. *)
Definition env_secrets : list (string * string) := [
  ("APIToken", "API_TOKEN"); ("CheckinToken", "CHECKIN_TOKEN"); ("PgDSN", "PG_DSN"); ("SecretKey", "SECRET_KEY");
  ("OIDCClientSecret", "OIDC_CLIENT_SECRET"); ("LDAPBindPass", "LDAP_BIND_PASSWORD")].
(** The switches of the environment, in the order they are read. *)
Definition env_switches : list (string * string) := [
  ("AllowUnvalidated", "ALLOW_UNVALIDATED"); ("DisableDiagnostics", "DISABLE_DIAGNOSTICS"); ("ReleaseCache", "RELEASE_CACHE")].
Definition late_switches : list (string * string) := [("SecureCookies", "SECURE_COOKIES"); ("TrustProxy", "TRUST_PROXY")].

Inductive ConfigErr :=
  | BadEnvBool (key : string) | BadGrace | KeyNotBase64 | KeyLength (n : Z)
  | FlagSyntax (s : string) | FlagUnknown (name : string) | FlagHelp | FlagNeedsArg (name : string) | FlagValue (name v : string)
  | BadLogLevel (v : string) | BadLogFormat (v : string) | NoAddr | GraceNotPositive | UnvalidatedWrite | RemoteNeedsURL
  | BadGateMode (v : string) | WriteNeedsRepo | OIDCIncomplete | OIDCNeedsKey | InsecureCookies (addr : string)
  | DevAuthPublic (addr : string) | DevAuthWithOIDC.

(** [strconv.ParseBool]. *)
Definition ParseBool (v : string) : option bool :=
  if v ∈? ["1"; "t"; "T"; "TRUE"; "true"; "True"] then Some true
  else if v ∈? ["0"; "f"; "F"; "FALSE"; "false"; "False"] then Some false else None.

Fixpoint read_switches (getenv : Getenv) (l : list (string * string)) (c : Config) : res ConfigErr Config :=
  match l with
  | [] => Ok c
  | (f, key) :: l =>
      let v := getenv (EnvPrefix +:+ key) in
      if v ==? "" then read_switches getenv l c
      else match ParseBool v with
           | None => Err (BadEnvBool key)
           | Some b => read_switches getenv l (set_switch f b c)
           end
  end.

(** [splitList]. *)
Definition splitList (s : string) : list string := List.filter (λ p, p !=? "") (trim_space <$> split_on "," s).

(** ** The command line (package flag) *)

Inductive FlagKind := TextFlag (field : string) | BoolFlag (field : string) | GraceFlag | ListFlag (field : string).
Definition flags : list (string * FlagKind) := [
  ("addr", TextFlag "Addr"); ("metrics-addr", TextFlag "MetricsAddr"); ("log-level", TextFlag "LogLevel");
  ("log-format", TextFlag "LogFormat"); ("shutdown-grace", GraceFlag); ("repo", TextFlag "RepoDir"); ("write", BoolFlag "Write");
  ("gate", TextFlag "GateMode"); ("gate-url", TextFlag "GateURL"); ("gate-token", TextFlag "GateToken");
  ("allow-unvalidated", BoolFlag "AllowUnvalidated"); ("release-cache", BoolFlag "ReleaseCache"); ("git-remote", TextFlag "GitRemote");
  ("state-dir", TextFlag "StateDir"); ("oidc-issuer", TextFlag "OIDCIssuer"); ("oidc-client-id", TextFlag "OIDCClientID");
  ("oidc-redirect-url", TextFlag "OIDCRedirectURL"); ("oidc-groups-claim", TextFlag "OIDCGroupsClaim"); ("oidc-scopes", ListFlag "OIDCScopes");
  ("secure-cookies", BoolFlag "SecureCookies"); ("trust-proxy", BoolFlag "TrustProxy"); ("dev-auth", BoolFlag "DevAuth");
  ("viewer-groups", ListFlag "ViewerGroups"); ("editor-groups", ListFlag "EditorGroups"); ("owner-groups", ListFlag "OwnerGroups")].
Definition flag_kind (name : string) : option FlagKind := snd <$> List.find (λ f, f.1 ==? name) flags.

Section load.
  (** [time.ParseDuration], in nanoseconds. *)
  Context (ParseDuration : string → option Z).

Definition set_flag (name : string) (k : FlagKind) (v : string) (c : Config) : res ConfigErr Config :=
  match k with
  | TextFlag f => Ok (set_text f v c)
  | ListFlag f => Ok (c <| cf_list ::= <[f := splitList v]> |>)
  | BoolFlag f => match ParseBool v with Some b => Ok (set_switch f b c) | None => Err (FlagValue name v) end
  | GraceFlag => match ParseDuration v with Some d => Ok (c <| cf_grace := d |>) | None => Err (FlagValue name v) end
  end.

(** What an argument is: the end of the flags, or a flag with the text after the
    first equals sign that is not at its start. *)
Inductive Arg := EndOfFlags | BadSyntax | Flag (name : string) (value : option string).
Definition read_arg (s : string) : Arg :=
  match s with
  | String "-" (String a r) =>
      let rest := if Ascii.eqb a "-" then r else String a r in
      if Ascii.eqb a "-" && (r ==? "") then EndOfFlags
      else match rest with
           | String b t =>
               if Ascii.eqb b "-" || Ascii.eqb b "=" then BadSyntax
               else match cut_at "=" t with Some (n, v) => Flag (String b n) (Some v) | None => Flag (String b t) None end
           | EmptyString => BadSyntax
           end
  | _ => EndOfFlags
  end.

(** [FlagSet.Parse]; what follows the flags is left. *)
Fixpoint parse_flags (args : list string) (c : Config) : res ConfigErr Config :=
  match args with
  | [] => Ok c
  | s :: args =>
      match read_arg s with
      | EndOfFlags => Ok c
      | BadSyntax => Err (FlagSyntax s)
      | Flag name v =>
          match flag_kind name with
          | None => Err (if (name ==? "help") || (name ==? "h") then FlagHelp else FlagUnknown name)
          | Some k =>
              match k, v with
              | BoolFlag f, None => parse_flags args (set_switch f true c)
              | _, Some v => let! c := set_flag name k v c in parse_flags args c
              | _, None => match args with
                           | [] => Err (FlagNeedsArg name)
                           | v :: args => let! c := set_flag name k v c in parse_flags args c
                           end
              end
          end
      end
  end.

(** [isLoopback]. *)
Definition isLoopback (addr : string) : bool :=
  let host := match GateRunner.last_index addr ":" with Some i => Secretbox.upto i addr | None => addr end in
  host ∈? ["127.0.0.1"; "localhost"; "::1"; "[::1]"].

(** [validate]: the error, if any. *)
Definition validate (c : Config) : option ConfigErr :=
  if negb (text c "LogLevel" ∈? ["debug"; "info"; "warn"; "error"]) then Some (BadLogLevel (text c "LogLevel"))
  else if negb (text c "LogFormat" ∈? ["text"; "json"]) then Some (BadLogFormat (text c "LogFormat"))
  else if text c "Addr" ==? "" then Some NoAddr
  else if cf_grace c <=? 0 then Some GraceNotPositive
  else
    let gate :=
      if text c "GateMode" ==? "eval" then None
      else if text c "GateMode" ==? "none"
      then (if switch c "Write" && negb (switch c "AllowUnvalidated") then Some UnvalidatedWrite else None)
      else if text c "GateMode" ==? "remote" then (if text c "GateURL" ==? "" then Some RemoteNeedsURL else None)
      else Some (BadGateMode (text c "GateMode")) in
    match gate with
    | Some e => Some e
    | None =>
        if switch c "Write" && (text c "RepoDir" ==? "") then Some WriteNeedsRepo
        else
          let oidc :=
            if text c "OIDCIssuer" ==? "" then None
            else if (text c "OIDCClientID" ==? "") || (text c "OIDCClientSecret" ==? "") || (text c "OIDCRedirectURL" ==? "") then Some OIDCIncomplete
            else if negb (match cf_key c with Some k => length k =? 32 | None => false end)%nat then Some OIDCNeedsKey
            else if negb (switch c "SecureCookies") && negb (isLoopback (text c "Addr")) then Some (InsecureCookies (text c "Addr"))
            else None in
          match oidc with
          | Some e => Some e
          | None =>
              if switch c "DevAuth" then
                if negb (isLoopback (text c "Addr")) then Some (DevAuthPublic (text c "Addr"))
                else if text c "OIDCIssuer" !=? "" then Some DevAuthWithOIDC else None
              else None
          end
    end.

Definition env_config (getenv : Getenv) : Config :=
  mkConfig (list_to_map (((λ x, (x.1, envOr getenv x.2.1 x.2.2)) <$> env_texts) ++
                         ((λ x, (x.1, getenv (EnvPrefix +:+ x.2))) <$> env_secrets)))
    ∅ (15 * 1000000000) None {["OIDCScopes" := splitList (envOr getenv "OIDC_SCOPES" "")]}.

Definition read_grace (getenv : Getenv) (c : Config) : res ConfigErr Config :=
  let v := getenv (EnvPrefix +:+ "SHUTDOWN_GRACE") in
  if v ==? "" then Ok c
  else match ParseDuration v with Some d => Ok (c <| cf_grace := d |>) | None => Err BadGrace end.
Definition read_key (getenv : Getenv) (c : Config) : res ConfigErr Config :=
  let v := getenv (EnvPrefix +:+ "SESSION_KEY") in
  if v ==? "" then Ok c
  else match HostKeys.StdDecodeString v with
       | None => Err KeyNotBase64
       | Some k => if (length k =? 32)%nat then Ok (c <| cf_key := Some k |>) else Err (KeyLength (Z.of_nat (length k)))
       end.

(** The part of [Load] before the flags. *)
Definition load_env (getenv : Getenv) : res ConfigErr Config :=
  let! c := read_switches getenv env_switches (env_config getenv) in
  let! c := read_grace getenv c in
  let! c := read_key getenv c in
  read_switches getenv late_switches c.

Definition Load (args : list string) (getenv : Getenv) : res ConfigErr Config :=
  let! c := load_env getenv in
  let! c := parse_flags args c in
  match validate c with Some e => Err e | None => Ok c end.
End load.

(** ** What a started process is *)

Section proofs.
  Context (ParseDuration : string → option Z).

(** C35: A process that starts is one of the safe configurations: it writes only with
    a repository and with a gate, or after an acknowledgement; without an identity
    provider it makes everyone owner only on a loopback address; with one it has a
    session key of 32 bytes, and marks its cookies secure unless the address is
    loopback. *)
Theorem started_is_safe args getenv c : Load ParseDuration args getenv = Ok c →
  (switch c "Write" = true → text c "RepoDir" ≠ "" ∧
     (text c "GateMode" = "eval" ∨ (text c "GateMode" = "remote" ∧ text c "GateURL" ≠ "") ∨ switch c "AllowUnvalidated" = true)) ∧
  (switch c "DevAuth" = true → isLoopback (text c "Addr") = true ∧ text c "OIDCIssuer" = "") ∧
  (text c "OIDCIssuer" ≠ "" → (∃ k, cf_key c = Some k ∧ length k = 32%nat) ∧
     (switch c "SecureCookies" = true ∨ isLoopback (text c "Addr") = true)) ∧
  0 < cf_grace c.
Proof.
  unfold Load. intros Hl. destruct (load_env _ _) as [c0|e]; [|done]. simpl in Hl.
  destruct (parse_flags _ _ _) as [c1|e]; [|done]. simpl in Hl. destruct (validate c1) eqn:Hv; [done|]. injection Hl as <-.
  unfold validate in Hv. destruct (negb _); [done|]. destruct (negb _); [done|]. destruct (text c1 "Addr" ==? ""); [done|].
  destruct (cf_grace c1 <=? 0) eqn:Hg; [done|]. apply Z.leb_gt in Hg. cbv zeta in Hv.
  destruct (if text c1 "GateMode" ==? "eval" then None else _) eqn:Hgate; [done|].
  destruct (switch c1 "Write" && (text c1 "RepoDir" ==? "")) eqn:Hw; [done|].
  destruct (if text c1 "OIDCIssuer" ==? "" then None else _) eqn:Ho; [done|].
  split_and!; [| | |done].
  - intros Hwr. rewrite Hwr in Hw, Hgate. simpl in Hw. apply bool_decide_eq_false in Hw. split; [done|].
    destruct (bool_decide_reflect (text c1 "GateMode" = "eval")) as [?|_]; [by left|].
    destruct (bool_decide_reflect (text c1 "GateMode" = "none")) as [_|_].
    + right. right. simpl in Hgate. by destruct (switch c1 "AllowUnvalidated").
    + destruct (bool_decide_reflect (text c1 "GateMode" = "remote")) as [?|_]; [|done].
      destruct (bool_decide_reflect (text c1 "GateURL" = "")); [done|]. by right; left.
  - intros Hd. rewrite Hd in Hv. destruct (isLoopback _); [|done]. simpl in Hv.
    destruct (text c1 "OIDCIssuer" !=? "") eqn:Hn; [done|]. apply negb_false_iff, bool_decide_eq_true in Hn. done.
  - intros Hn. rewrite bool_decide_eq_false_2 in Ho by done. destruct (_ || _ || _); [done|].
    destruct (cf_key c1) as [k|]; [|done]. destruct (length k =? 32)%nat eqn:Hk; [|done]. apply Nat.eqb_eq in Hk. simpl in Ho.
    split; [by exists k|]. destruct (switch c1 "SecureCookies"); [by left|]. destruct (isLoopback _); [by right|done].
Qed.

(** ** Where a value comes from *)

(** The assignments a command line makes, in order. *)
Fixpoint assignments (args : list string) : list (string * string) :=
  match args with
  | [] => []
  | s :: args =>
      match read_arg s with
      | Flag name v =>
          match flag_kind name, v with
          | None, _ => []
          | Some (BoolFlag _), None => (name, "true") :: assignments args
          | Some _, Some v => (name, v) :: assignments args
          | Some _, None => match args with [] => [] | v :: args => (name, v) :: assignments args end
          end
      | _ => []
      end
  end.
Fixpoint last_text (field : string) (l : list (string * string)) : option string :=
  match l with
  | [] => None
  | (name, v) :: l =>
      match last_text field l with
      | Some w => Some w
      | None => match flag_kind name with Some (TextFlag f) => if f ==? field then Some v else None | _ => None end
      end
  end.

Lemma set_flag_text name k v c c' f : set_flag ParseDuration name k v c = Ok c' →
  text c' f = match k with TextFlag g => if g ==? f then v else text c f | _ => text c f end.
Proof.
  destruct k as [g|g| |g]; simpl.
  - intros [= <-]. unfold set_text, text. simpl. case_bool_decide as Hg; [subst; by rewrite lookup_insert_eq|by rewrite lookup_insert_ne].
  - destruct (ParseBool v); [|done]. by intros [= <-].
  - destruct (ParseDuration v); [|done]. by intros [= <-].
  - by intros [= <-].
Qed.

Lemma parse_flags_text f : ∀ n args c c', (length args ≤ n)%nat → parse_flags ParseDuration args c = Ok c' →
  text c' f = default (text c f) (last_text f (assignments args)).
Proof.
  assert (Hset : ∀ name k v c c1 c' rest, flag_kind name = Some k → set_flag ParseDuration name k v c = Ok c1 →
            text c' f = default (text c1 f) (last_text f rest) →
            text c' f = default (text c f) (last_text f ((name, v) :: rest))).
  { intros name k v c c1 c' rest Hk Hs ->. cbn [last_text]. destruct (last_text f rest); [done|]. simpl.
    rewrite (set_flag_text _ _ _ _ _ f Hs), Hk. destruct k as [g| | |]; try done. by destruct (g ==? f). }
  induction n as [|n IH]; intros args c c' Hn Hp; [destruct args; [|simpl in Hn; lia]; by injection Hp as <-|].
  destruct args as [|s args]; [by injection Hp as <-|]. cbn [parse_flags assignments] in *. simpl in Hn.
  destruct (read_arg s) as [| |name v]; [by injection Hp as <-|done|].
  destruct (flag_kind name) as [k|] eqn:Hk; [|done].
  assert (Hvalue : ∀ v rest, (length rest ≤ n)%nat →
            (let! c0 := set_flag ParseDuration name k v c in parse_flags ParseDuration rest c0) = Ok c' →
            text c' f = default (text c f) (last_text f ((name, v) :: assignments rest))).
  { intros w rest Hr Hs. destruct (set_flag _ name k w c) as [c1|e] eqn:Hset1; [|done]. simpl in Hs. eapply Hset; [done..|]. by apply IH. }
  destruct v as [v|].
  - assert (Hs : (let! c0 := set_flag ParseDuration name k v c in parse_flags ParseDuration args c0) = Ok c') by (by destruct k).
    assert (Ha : text c' f = default (text c f) (last_text f ((name, v) :: assignments args))) by (apply Hvalue; [lia|done]). by destruct k.
  - destruct k as [g|g| |g]; try (destruct args as [|w args]; [done|]; simpl in Hn; apply Hvalue; [lia|done]).
    eapply (Hset name (BoolFlag g) "true" c (set_switch g true c)); [done|done|]. apply IH; [lia|done].
Qed.

Lemma read_switches_text getenv l f : ∀ c c', read_switches getenv l c = Ok c' → text c' f = text c f.
Proof.
  induction l as [|[g key] l IH]; intros c c' Hr; simpl in Hr; [by injection Hr as <-|].
  destruct (_ ==? ""); [by apply IH|]. destruct (ParseBool _) as [b|]; [|done]. by apply IH in Hr.
Qed.

Lemma load_env_text getenv c f : load_env ParseDuration getenv = Ok c → text c f = text (env_config getenv) f.
Proof.
  unfold load_env. destruct (read_switches getenv env_switches _) as [c1|e] eqn:H1; [|done]. apply (read_switches_text _ _ f) in H1. cbn [res_bind].
  destruct (read_grace _ _ _) as [c2|e] eqn:H2; [|done]. cbn [res_bind].
  assert (H12 : text c2 f = text c1 f).
  { unfold read_grace in H2. destruct (_ ==? ""); [by injection H2 as <-|]. destruct (ParseDuration _); [|done]. by injection H2 as <-. }
  destruct (read_key _ _) as [c3|e] eqn:H3; [|done]. cbn [res_bind].
  assert (H23 : text c3 f = text c2 f).
  { unfold read_key in H3. destruct (_ ==? ""); [by injection H3 as <-|]. destruct (HostKeys.StdDecodeString _); [|done].
    destruct (_ =? _)%nat; [|done]. by injection H3 as <-. }
  intros H4. apply (read_switches_text _ _ f) in H4. congruence.
Qed.

(** Flags over the environment over defaults: a text is the last one the command
    line gives, else the environment's, else the default. *)
Lemma flags_over_environment args getenv c f key def : Load ParseDuration args getenv = Ok c → (f, (key, def)) ∈ env_texts →
  text c f = default (envOr getenv key def) (last_text f (assignments args)).
Proof.
  unfold Load. intros Hl Hin. destruct (load_env _ _) as [c0|e] eqn:He; [|done]. simpl in Hl.
  destruct (parse_flags _ _ _) as [c1|e] eqn:Hp; [|done]. simpl in Hl. destruct (validate c1); [done|]. injection Hl as <-.
  rewrite (parse_flags_text f (length args) args c0 c1 (Nat.le_refl _) Hp), (load_env_text _ _ f He). f_equal.
  repeat (apply elem_of_cons in Hin as [[= -> -> ->]|Hin]; [vm_compute; reflexivity|]). by apply elem_of_nil in Hin.
Qed.

(** The secrets marked so come from the environment, whatever the command line. *)
Lemma secrets_from_environment args getenv c f key : Load ParseDuration args getenv = Ok c → (f, key) ∈ env_secrets →
  text c f = getenv (EnvPrefix +:+ key).
Proof.
  unfold Load. intros Hl Hin. destruct (load_env _ _) as [c0|e] eqn:He; [|done]. simpl in Hl.
  destruct (parse_flags _ _ _) as [c1|e] eqn:Hp; [|done]. simpl in Hl. destruct (validate c1); [done|]. injection Hl as <-.
  rewrite (parse_flags_text f (length args) args c0 c1 (Nat.le_refl _) Hp), (load_env_text _ _ f He).
  assert (Hno : ∀ l, last_text f l = None).
  { assert (Hf : ∀ name, match flag_kind name with Some (TextFlag g) => g ==? f | _ => false end = false).
    { intros name. destruct (flag_kind name) as [k|] eqn:Hk; [|done]. unfold flag_kind in Hk.
      destruct (List.find _ flags) as [[n' k']|] eqn:Hfind; [|done]. injection Hk as ->. apply find_some in Hfind as [Hflag _].
      rewrite <- list_elem_of_In in Hflag.
      repeat (apply elem_of_cons in Hin as [[= -> ->]|Hin];
        [repeat (apply elem_of_cons in Hflag as [[= -> ->]|Hflag]; [by vm_compute|]); by apply elem_of_nil in Hflag|]).
      by apply elem_of_nil in Hin. }
    intros l. induction l as [|[name v] l IH]; [done|]. cbn [last_text]. rewrite IH. specialize (Hf name).
    destruct (flag_kind name) as [[g| | |]|]; try done. by rewrite Hf. }
  rewrite Hno. simpl. repeat (apply elem_of_cons in Hin as [[= -> ->]|Hin]; [vm_compute; reflexivity|]). by apply elem_of_nil in Hin.
Qed.
End proofs.

Definition demo_env (k : string) : string := if k ==? "SEXTANT_REPO" then "/srv/fleet" else "".
Definition demo_durations (s : string) : option Z := if s ==? "5s" then Some 5000000000 else None.
Definition demo_args : list string := ["--write"; "-gate=remote"; "--gate-url"; "http://runner"; "--shutdown-grace=5s"; "serve"; "--dev-auth"].

Lemma started_is_safe_witness : ∃ c, Load demo_durations demo_args demo_env = Ok c ∧ switch c "Write" = true ∧
  text c "GateMode" = "remote" ∧ text c "RepoDir" ≠ "" ∧ 0 < cf_grace c.
Proof.
  destruct (Load demo_durations demo_args demo_env) as [c|e] eqn:Hl;
    [|apply (f_equal is_ok) in Hl; vm_compute in Hl; discriminate Hl].
  exists c. split; [reflexivity|].
  destruct (started_is_safe demo_durations demo_args demo_env c Hl) as (Hw & _ & _ & Hg).
  assert (Hs : switch c "Write" = true ∧ text c "GateMode" = "remote").
  { apply (f_equal (λ r, match r with Ok c => switch c "Write" && (text c "GateMode" ==? "remote") | Err _ => false end)) in Hl.
    vm_compute in Hl. symmetry in Hl. apply andb_true_iff in Hl as [H1 H2%bool_decide_eq_true]. split; [exact H1|exact H2]. }
  split; [exact (proj1 Hs)|]. split; [exact (proj2 Hs)|]. split; [exact (proj1 (Hw (proj1 Hs)))|exact Hg].
Defined.

(** The token for the gate runner is a secret that a flag sets too; the package's
    comment says secrets are never accepted from flags. *)
Theorem gate_token_from_a_flag :
  match Load demo_durations ["--gate-token"; "s3cret"] demo_env with Ok c => text c "GateToken" = "s3cret" | Err _ => False end.
Proof. by vm_compute. Qed.
